(* ===== verification/_CoqProject ===== *)
-Q . S2P
Prelude.v
Json.v
JsonCodec.v
JsonGrammar.v
JsonStrings.v
JsonCodecProofs.v
Apicompat.v
GoStrings.v
JsonNumbers.v
ModelNames.v
ToolSchema.v
RequestCodec.v
RequestCodecProofs.v
ToolSchemaProofs.v
ResponsesToAnthropic.v
ResponsesToAnthropicProofs.v
ResponsesToChat.v
ResponsesToChatProofs.v
AnthropicToResponses.v
ResponsesToAnthropicRequest.v
AnthropicToResponsesRequest.v
ChatToResponses.v
Encoding.v
ChatToolTables.v
ChatAnswerToResponses.v
ChatToolTablesProofs.v
ToolDiscoveries.v
ResponsesToChatRequest.v
ResponsesToChatRequestProofs.v
ChatStreams.v
ChatAnswerToResponsesProofs.v
ChatAnthropicBridge.v
ChatAnthropicBridgeProofs.v
ResponsesToAnthropicRequestProofs.v
RequestRoundtrip.v
AnthropicToResponsesProofs.v
Redis.v
RedisProofs.v
ConcurrencyCache.v
ConcurrencyCacheProofs.v
ConcurrencyLeaseProofs.v
AdmissionProofs.v
GatewayCache.v
GatewayCacheProofs.v
OAuthAdmission.v
OAuthAdmissionProofs.v
Failover.v
FailoverProofs.v
Idempotency.v
IdempotencyProofs.v
KeywordMatcher.v
KeywordTrieProofs.v
KeywordMatcherProofs.v
TurnState.v
TurnStateCollector.v
TurnStateInvariants.v
TurnStateSteps.v
TurnStateProofs.v
TurnStateGenerations.v
WSStateStore.v
WSStateStoreProofs.v
ConcurrencyService.v
ConcurrencyServiceProofs.v
Goroutines.v
WSPool.v
WSPoolProofs.v
WSPoolMethods.v
WSPoolSafety.v
