(* ===== verification/Prelude.v ===== *)
(** * QQQ2API gateway: verification development (root file)

    QQQ2API is a gateway in front of AI providers: it accepts requests in one protocol
    (Anthropic Messages, OpenAI Chat Completions, OpenAI Responses), chooses an upstream
    account, forwards the request in the protocol of that account and translates the
    stream of the answer back.  Several gateway processes share one Redis and one
    PostgreSQL server.  The code is Go, under [src/backend/internal]; this development
    models the parts that carry its own logic, each translated from the source into
    executable definitions, and proves what makes them correct.

    ** The parts, their files, and how they interact

    Translation of answers (package [pkg/apicompat]).  Pure functions and pointer states
    threaded explicitly: a converter is a function of its state and one upstream event
    to the new state and the events for the client.
    - [Json]: what the converters use of [encoding/json] and [unicode/utf8];
      [JsonCodec]: decoding into structs and encoding of structs, one level of a
      document at a time; [JsonGrammar], [JsonStrings], [JsonCodecProofs]: what the
      parser accepts, what compaction does, and that printing is undone by parsing.
    - [Apicompat]: the wire types of [types.go].
    - [ResponsesToAnthropic] ([responses_to_anthropic.go]), with its proofs: the stream
      given to an Anthropic client is well bracketed (C1), its deltas fit the open block
      (C2), it starts and stops once (C3), no text is lost or sent twice (C4).
    - [ResponsesToChat] ([responses_to_chatcompletions.go]): strict clients assemble the
      upstream's text and calls (C5), the buffered path delivers the same (C6).
    - [AnthropicToResponses] ([anthropic_to_responses_response.go]): sequence numbers and
      items (C9), the exact output list (C10).

    Translation of requests (package [pkg/apicompat]).  Functions from a decoded request
    to a request or an error; contents stay raw JSON texts, as in the code.
    - [GoStrings], [ModelNames] ([pkg/claude/effort_catalog.go], [pkg/openai/constants.go]):
      string functions and the model names the converters treat specially.
    - [RequestCodec]: the JSON tags, [MarshalJSON] and [UnmarshalJSON] of content blocks,
      content parts and input items; [RequestCodecProofs]: what is decoded is well
      formed, what is well formed is encoded and decodes to itself.
    - [ToolSchema] ([responses_to_anthropic_tool_schema.go]), with [ToolSchemaProofs]:
      root unions are flattened to the properties and requirements of their object branches (C23), the
      result is always an object schema without a union at its root (C37).
    - [ResponsesToAnthropicRequest] ([responses_to_anthropic_request.go]), with
      [ResponsesToAnthropicRequestProofs]: calls and answers are paired in alternating
      messages (C7), the repair loses nothing else ([repair_keeps]), signed thinking goes
      to the client and back ([thinking_envelope_roundtrip]).
    - [AnthropicToResponsesRequest] ([anthropic_to_responses.go]) and [ChatToResponses]
      ([chatcompletions_to_responses.go], [response_format.go]); [RequestRoundtrip]: a
      conversation from Anthropic to Responses and back keeps its calls and their
      answers (C11).

    Bridges to Chat Completions upstreams (package [pkg/apicompat]).
    - [JsonNumbers]: numbers as Go's [float64] ([encoding/json] of a value of type [any]).
    - [ChatToolTables] ([chatcompletions_responses_bridge.go]), with
      [ChatToolTablesProofs]: tools are lowered to distinct functions, and each call is
      routed back to the tool it was made up for (C32).
    - [ToolDiscoveries] ([responses_tool_search_discoveries.go]): tools found by a search
      join the declared ones.
    - [ResponsesToChatRequest] (the request direction of the same bridge), with
      [ResponsesToChatRequestProofs]: the history is accepted by a strict upstream (C28).
    - [ChatStreams]: what a stream of Chat Completions chunks says, whoever reads it: the
      text, the reasoning, the arguments of each call ([sent]).
    - [ChatAnswerToResponses] (its way back, buffered and streamed), with
      [ChatAnswerToResponsesProofs]: a client that checks every event against the
      protocol assembles what an orderly upstream sent (C19).
    - [ChatAnthropicBridge] ([chatcompletions_anthropic_bridge.go]): Anthropic clients on a
      Chat Completions upstream, without the Responses protocol in between;
      [ChatAnthropicBridgeProofs]: a strict client assembles what was sent, when the
      entries of each call come one after another (C30).

    Shared state in Redis.  [Redis] is the server as the sources see it: the class
    [RedisServer] (commands, replies, and the law that commands do what the Redis
    documentation says), Lua scripts as atomic programs, methods as sequences of round
    trips that may fail before or after they took effect; [RedisProofs] is its program
    logic.  The caches are written against the class.
    - [ConcurrencyCache] ([repository/concurrency_cache.go]), with
      [ConcurrencyCacheProofs], [ConcurrencyLeaseProofs] and [AdmissionProofs]: slots,
      live leases, waiters, load indices and the distributed OAuth schedule.  C12:
      capacities hold in every interleaving; C13: the acquire script refines a set of
      leases; C14: refresh; C16: admissions are spaced.
    - [ConcurrencyService] ([service/concurrency_service.go]), the cache's client: slots
      with heartbeats, ingress leases, wait queues, the cache of account loads.  C20: a
      slot that is renewed in time is kept, whatever the other clients do, one failed
      renewal included; C15: releases
      wait for their heartbeat and end; C8: cached loads are fresh and few.
    - [GatewayCache] ([repository/gateway_cache.go]): sticky sessions, the streak of slow
      answers, cyber session blocks.  C31: a binding keeps its owner; blocks are
      found.  What other parts rely on is the class [SessionCache], which
      [GatewayCacheProofs.redis_session_cache] discharges.

    Request handling.
    - [Failover] ([handler/failover_loop.go], the selection loop of
      [handler/gateway_handler_responses.go]): C18: it ends;
      [failover_invariants]: what holds while it runs.
    - [OAuthAdmission] ([service/openai_oauth_account_admission.go]), the process-local
      counterpart of the distributed schedule.  C21: spacing; C25: waiting for admission
      ends, within the queue budget and not while the account is deferred.
    - [Idempotency] ([service/idempotency.go], [repository/idempotency_repo.go]): requests
      interleaving at every SQL statement.  C24: one executor; C27
      and [success_replayed]: retry and replay; [execute_ends]: nine calls are enough; [stale_reclaim_executes_again]: the expiry race of
      [TryReclaim].
    - [KeywordMatcher] ([service/content_moderation_keyword_matcher.go]), with
      [KeywordTrieProofs] and [KeywordMatcherProofs]: an Aho-Corasick automaton laid out
      in arrays.  C29 and [context_match_is_search]: its scans equal the
      searches keyword by keyword.
    - [Encoding]: SHA-256, hex and strict base64, as the standard library defines them.
    - [TurnState] and [TurnStateCollector] ([service/openai_codex_turn_state_collector.go]):
      one Definition per operation; [TurnStateInvariants] breaks the operations into
      small steps ([micro]), [TurnStateSteps] shows that every operation is a run of
      them, [TurnStateProofs] and [TurnStateGenerations] prove C33 (bounds), C34 (waiters
      are released), C35 (fenced probes), [retired_generation_refused] (deleted
      accounts), [acquired_state_valid] (what [Acquire] returns).
    - [WSStateStore] ([service/openai_ws_state_store.go]), a client of [SessionCache] and
      of the turn state parser: methods as sequences of atomic actions.  C39: capacities
      in every interleaving of goroutines; C40: response accounts are found again.

    The WebSocket connection pool ([service/openai_ws_pool.go]): upstream connections of
    one account, each lent to one request at a time.
    - [Goroutines]: goroutines over shared memory.  A goroutine is a program whose atomic
      operations may block and be answered in several ways ([Prog]); a schedule lets one
      take a turn, starts another, or lets time pass ([happen]); in a program logic with
      ghost states every method is verified alone ([ok]) and the invariant holds in every
      interleaving ([steps_sound]).
    - [WSPool]: the memory ([World]: the record of the account under its mutex, the
      channels and atomics of the connections, the leases), the operations on it ([Op],
      [exec]: [select], compare-and-swap, atomics, lock and unlock) and one program per
      method of the pool, of connections and of leases, and per background goroutine
      ([program]).  [acquire] is cut where the code jumps: [tidy], [forced], [reuse],
      [room_for_reuse], [room_for_new], [dial_and_publish], [queue], [wait_change];
      [goto retryAcquire] is a [loop], the one retry an argument.
    - [WSPoolProofs]: ghosts, conditions and the invariant; [WSPoolMethods]: every method
      meets the conditions; [WSPoolSafety]: what follows in every interleaving.  C17: two
      open leases are never of one connection; C22: whoever holds the mutex releases it
      without waiting for anything, the upstream included, but for [Close], which closes
      connections under it ([close_waits_under_mutex]); C26: connections, dials and
      waiters stay within their limits; C36: nothing dialed before the account was cleared
      is in the pool; C38: what was dialed for a granted connection fits the request.

    ** Conventions

    A Go struct is a Record with a setter notation ([r <| f := v |>], class [Eta]);
    constants and functions keep their Go names.  A 64-bit integer is a [Z]; where it can
    overflow, [wrap64] or its unsigned counterpart is written out.  Times and durations are
    nanoseconds.  A Go map whose iteration order matters takes an order as argument
    ([TurnStateCollector.iteration]), so that the theorems hold for every order; a
    function under one mutex is one step, except in the connection pool, whose atomics and
    channels are used without it; otherwise a step ends where another goroutine or process
    can run: a round trip to Redis, a SQL statement, a lock, an atomic operation.  Converters share
    the [run] of a stream and the simulation lemmas [sim_...] of this file.

    Fuel: the JSON parser, the UTF-8 loops and the loops of [GoStrings], [ModelNames] and
    [ChatToResponses] run on the length of their input; [flattenAnthropicRootUnions] on
    the size of the schema ([flatten_fuel_enough]); the decoder of a tool on the length of
    its text, which the tools inside it are shorter than; the decimal digits of a number on
    its magnitude; the breadth-first pass of the keyword automaton on its number of nodes; the selection and
    wait loops on bounds that C18 and C25 prove sufficient; [Execute] on the nine calls
    of [execute_ends]; the eviction loop of the pool ([make_room]) on the number of its connections, of which
    each round removes one; the renewal loops of the caches on the length of their lists.

    What is not in the repository is a parameter: the Redis server (a class with its
    law), PostgreSQL (the effect of each statement is written out from its SQL), Unicode
    tables (the class [GoStrings.Unicode], folding and normalization), random identifiers (a list drawn in order), clocks
    (readings that are arguments or parts of the state), map iteration orders.

    ** Not modelled

    - Formatting of server-sent events and HTTP, logging, metrics, contexts and their
      timeouts: input and output without decisions of their own.
    - Panics of slices and integer overflow of Go [int] counters, which need more
      elements than memory holds; nil receivers; goroutine scheduling inside one mutex.
    - In the concurrency cache a pipeline is one round trip; in the idempotency machine
      the renewal of leases ([ExecutionTimeout] > 0) is left out; in the gateway cache
      the keys with text payloads; in the keyword matcher the two context policies are
      arguments; in the collector the [select] of [WaitProbe] (its channel is modelled);
      calls of the load cache that join another call's flight of singleflight, which is a
      parameter there.
    - Decoding of the request structs themselves (the converters take the decoded
      struct) and the texts of the errors, which are constructors here.
    - The adapters of [pkg/apicompat] that rewrite untyped requests and events for
      function-only upstreams ([responses_client_tools.go] and the files it uses), the
      account scheduler and billing.
    - Of the connection pool: metrics, durations and getters of a lease, the payloads of
      messages (a connection has a message waiting or not), deadlines (any exchange may
      fail, or be answered late or never), the mutexes that order the reads and the writes
      of one connection, the limits of ten dials and probes at a time, and the pools of other accounts, which share
      nothing but the sequence of connection ids.  Sorting idle connections reads the
      time of each once, where [sort.SliceStable] reads it at every comparison.
    - [ent] and [cmd/server/wire_gen.go] are generated; handlers, repositories and the
      remaining services are mostly SQL and HTTP; the web client is not Go. *)

From stdpp Require Export base numbers option list gmap strings.
From Stdlib Require Export ZArith Lia.

(** ** Scopes, notations, automation *)

Declare Scope go_scope.
Delimit Scope go_scope with go.

Infix "=?s" := String.eqb (at level 70, no associativity) : go_scope.
#[export] Set Default Goal Selector "1".

Create HintDb s2q discriminated.
Create Rewrite HintDb s2q_rw.

(** Case analysis on every [if]/[match] of the goal, simplifying after each. *)
Ltac split_matches :=
  repeat (case_match; simplify_eq/=).

(** Turn boolean comparisons of the context into propositions. *)
Ltac bool_hyps :=
  repeat match goal with
  | H : (_ && _)%bool = true |- _ => apply andb_true_iff in H; destruct H
  | H : (_ || _)%bool = false |- _ => apply orb_false_iff in H; destruct H
  | H : negb _ = true |- _ => apply negb_true_iff in H
  | H : negb _ = false |- _ => apply negb_false_iff in H
  | H : String.eqb _ _ = true |- _ => apply String.eqb_eq in H
  | H : String.eqb _ _ = false |- _ => apply String.eqb_neq in H
  | H : Z.ltb _ _ = true |- _ => apply Z.ltb_lt in H
  | H : Z.ltb _ _ = false |- _ => apply Z.ltb_ge in H
  | H : Z.leb _ _ = true |- _ => apply Z.leb_le in H
  | H : Z.leb _ _ = false |- _ => apply Z.leb_gt in H
  | H : Z.eqb _ _ = true |- _ => apply Z.eqb_eq in H
  | H : Z.eqb _ _ = false |- _ => apply Z.eqb_neq in H
  end.

(** ** Field assignment on records

    [r <| f := v |>] is Go's [r.f = v] on a value: the record [r] with the
    field [f] replaced.  A record opts in with one [Eta] instance (its
    constructor applied to its projections); the setter of a field is then
    found by abstracting that projection. *)
Class Eta (R : Type) := eta : R -> R.
Class Upd {R T : Type} (proj : R -> T) := upd : (T -> T) -> R -> R.

Ltac solve_upd :=
  lazymatch goal with
  | |- @Upd ?R ?T ?proj =>
      let f := fresh "f" in
      let r := fresh "r" in
      intros f r;
      let t := eval hnf in (eta r) in
      let t := eval pattern (proj r) in t in
      lazymatch t with
      | ?g _ =>
          let u := constr:(g (f (proj r))) in
          let u := eval cbv beta in u in
          exact u
      end
  end.
#[export] Hint Extern 1 (Upd _) => solve_upd : typeclass_instances.

Notation "r <| p := v |>" := (upd (proj := p) (fun _ => v) r)
  (at level 1, left associativity, p at level 9, v at level 200).

(** ** Machine integers

    Go's [int] and [int64] are 64-bit two's complement; [wrap64] is the value
    the machine keeps of a mathematical result. *)
Definition int64_min : Z := (- 2 ^ 63)%Z.
Definition int64_max : Z := (2 ^ 63 - 1)%Z.
Definition in_int64 (z : Z) : Prop := (int64_min <= z <= int64_max)%Z.
Definition wrap64 (z : Z) : Z := ((z + 2 ^ 63) mod 2 ^ 64 - 2 ^ 63)%Z.

Lemma wrap64_id z : in_int64 z -> wrap64 z = z.
Proof.
  unfold in_int64, int64_min, int64_max, wrap64; intros H.
  rewrite Z.mod_small; lia.
Qed.

Lemma wrap64_range z : in_int64 (wrap64 z).
Proof.
  unfold in_int64, int64_min, int64_max, wrap64.
  pose proof (Z.mod_pos_bound (z + 2 ^ 63) (2 ^ 64)) as H. lia.
Qed.

(** Wrapping is a ring homomorphism: an intermediate wrap is absorbed. *)
Lemma wrap64_add_l a b : wrap64 (wrap64 a + b) = wrap64 (a + b).
Proof.
  unfold wrap64. f_equal.
  replace ((a + 2 ^ 63) mod 2 ^ 64 - 2 ^ 63 + b + 2 ^ 63)%Z
    with ((a + 2 ^ 63) mod 2 ^ 64 + b)%Z by lia.
  rewrite Zplus_mod_idemp_l. f_equal. lia.
Qed.

Lemma wrap64_sub_l a b : wrap64 (wrap64 a - b) = wrap64 (a - b).
Proof. unfold Z.sub. apply wrap64_add_l. Qed.

Definition int_add (a b : Z) : Z := wrap64 (a + b).
Definition int_sub (a b : Z) : Z := wrap64 (a - b).
Definition int_mul (a b : Z) : Z := wrap64 (a * b).

(** ** Byte strings (Go's [strings] package) *)

Definition byte_str (n : nat) : string := String (Ascii.ascii_of_nat n) EmptyString.
Definition bytes_str (ns : list nat) : string :=
  foldr (fun n s => String (Ascii.ascii_of_nat n) s) EmptyString ns.

(** [s[n:]] *)
Fixpoint str_drop (n : nat) (s : string) : string :=
  match n, s with
  | O, _ => s
  | S n, EmptyString => EmptyString
  | S n, String _ s => str_drop n s
  end.

(** [s[:n]] *)
Fixpoint str_take (n : nat) (s : string) : string :=
  match n, s with
  | O, _ => EmptyString
  | S n, EmptyString => EmptyString
  | S n, String c s => String c (str_take n s)
  end.

Fixpoint str_rev_app (s acc : string) : string :=
  match s with
  | EmptyString => acc
  | String c s => str_rev_app s (String c acc)
  end.
Definition str_rev (s : string) : string := str_rev_app s EmptyString.

(** [strings.HasPrefix(s, p)] *)
Fixpoint HasPrefix (s p : string) : bool :=
  match p, s with
  | EmptyString, _ => true
  | String a p, String b s => Ascii.eqb a b && HasPrefix s p
  | String _ _, EmptyString => false
  end.

(** [strings.CutPrefix(s, p)]: the remainder when the prefix is there. *)
Definition CutPrefix (s p : string) : option string :=
  if HasPrefix s p then Some (str_drop (String.length p) s) else None.

(** The UTF-8 encodings of the runes [unicode.IsSpace] accepts. *)
Definition space_encodings : list string :=
  map bytes_str
    [ [9]; [10]; [11]; [12]; [13]; [32];
      [194; 133]; [194; 160]; [225; 154; 128];
      [226; 128; 128]; [226; 128; 129]; [226; 128; 130]; [226; 128; 131];
      [226; 128; 132]; [226; 128; 133]; [226; 128; 134]; [226; 128; 135];
      [226; 128; 136]; [226; 128; 137]; [226; 128; 138];
      [226; 128; 168]; [226; 128; 169]; [226; 128; 175];
      [226; 129; 159]; [227; 128; 128] ].

Fixpoint strip_one (ps : list string) (s : string) : option string :=
  match ps with
  | [] => None
  | p :: ps =>
      match CutPrefix s p with
      | Some s' => Some s'
      | None => strip_one ps s
      end
  end.

(** Strip the given encodings from the left; every successful strip removes at
    least a byte, so the length of the string is enough fuel. *)
Fixpoint trim_left_fuel (fuel : nat) (ps : list string) (s : string) : string :=
  match fuel with
  | O => s
  | S fuel =>
      match strip_one ps s with
      | Some s' => trim_left_fuel fuel ps s'
      | None => s
      end
  end.
Definition trim_left (ps : list string) (s : string) : string :=
  trim_left_fuel (String.length s) ps s.

(** [strings.TrimSpace] *)
Definition TrimSpace (s : string) : string :=
  str_rev (trim_left (map str_rev space_encodings)
                     (str_rev (trim_left space_encodings s))).

#[global] Arguments String.append !_ _ / : simpl nomatch.

Lemma str_app_nil_r s : s +:+ "" = s.
Proof. induction s; simpl; congruence. Qed.

Lemma str_app_assoc (a b c : string) : (a +:+ b) +:+ c = a +:+ (b +:+ c).
Proof. induction a; simpl; congruence. Qed.

Lemma str_length_app (a b : string) :
  String.length (a +:+ b) = String.length a + String.length b.
Proof. induction a; simpl; congruence. Qed.

Lemma str_drop_app (a b : string) : str_drop (String.length a) (a +:+ b) = b.
Proof. induction a; simpl; auto. Qed.

Lemma str_drop_all s : str_drop (String.length s) s = "".
Proof. by induction s. Qed.

Lemma HasPrefix_nil s : HasPrefix s "" = true.
Proof. by destruct s. Qed.

Lemma HasPrefix_spec s p : HasPrefix s p = true <-> exists t, s = p +:+ t.
Proof.
  split.
  - revert s; induction p as [|a p IH]; intros [|b s]; simpl; eauto; try done.
    intros [->%Ascii.eqb_eq [t ->]%IH]%andb_true_iff; eauto.
  - intros [t ->]. induction p as [|a p IH]; [by destruct t|].
    change (Ascii.eqb a a && HasPrefix (p +:+ t) p = true).
    by rewrite Ascii.eqb_refl, IH.
Qed.

Lemma HasPrefix_drop s p :
  HasPrefix s p = true -> p +:+ str_drop (String.length p) s = s.
Proof. intros [t ->]%HasPrefix_spec. by rewrite str_drop_app. Qed.

Lemma HasPrefix_refl s : HasPrefix s s = true.
Proof. apply HasPrefix_spec. exists ""%string. by rewrite str_app_nil_r. Qed.

Lemma str_app_eq_nil (a b : string) : a +:+ b = "" -> a = "" /\ b = "".
Proof. destruct a; simpl; [done|discriminate]. Qed.

Lemma str_app_inv_head (a b c : string) : a +:+ b = a +:+ c -> b = c.
Proof. induction a; simpl; [done|]. intros [= H]. auto. Qed.

#[export] Hint Rewrite str_app_nil_r str_app_assoc : s2q_rw.

(** Concatenation of a list of strings, in order. *)
Definition str_concat (l : list string) : string := foldr String.append "" l.

Lemma str_concat_app l1 l2 : str_concat (l1 ++ l2) = str_concat l1 +:+ str_concat l2.
Proof. induction l1; simpl; [done|]. by rewrite IHl1, str_app_assoc. Qed.

Lemma str_concat_single s : str_concat [s] = s.
Proof. apply str_app_nil_r. Qed.

(** ** Stateful stream converters

    Every protocol translation of the gateway is a state machine fed with one
    upstream event at a time that appends client events, and a final call made
    when the upstream stream ends.  [Converter] is that interface. *)
Class Converter (St In Out : Type) := {
  conv_step : In -> St -> St * list Out;
  conv_finalize : St -> St * list Out;
}.

(** Run [f] then [g], appending what they emit ([events = append(events, ...)]). *)
Definition then_emit {St Out : Type} (f g : St -> St * list Out) (s : St) : St * list Out :=
  let '(s1, o1) := f s in
  let '(s2, o2) := g s1 in
  (s2, o1 ++ o2).
Definition emit {St Out : Type} (o : St -> list Out) (s : St) : St * list Out := (s, o s).
Notation "f ;>> g" := (then_emit f g) (at level 62, right associativity).

Section Run.
Context {St In Out : Type} `{Converter St In Out}.

Fixpoint run (xs : list In) (s : St) : St * list Out :=
  match xs with
  | [] => (s, [])
  | i :: xs =>
      let '(s1, o1) := conv_step i s in
      let '(s2, o2) := run xs s1 in
      (s2, o1 ++ o2)
  end.

(** The whole life of a stream: every event, then the finalizer. *)
Definition stream (xs : list In) (s : St) : St * list Out :=
  let '(s1, o1) := run xs s in
  let '(s2, o2) := conv_finalize s1 in
  (s2, o1 ++ o2).

Lemma run_app xs1 xs2 s :
  run (xs1 ++ xs2) s =
    ((run xs2 (run xs1 s).1).1, (run xs1 s).2 ++ (run xs2 (run xs1 s).1).2).
Proof.
  revert s; induction xs1 as [|i xs1 IH]; intros s; simpl.
  - by destruct (run xs2 s).
  - destruct (conv_step i s) as [s1 o1]. rewrite IH.
    destruct (run xs1 s1) as [s2 o2]. simpl. by rewrite app_assoc.
Qed.

Lemma stream_app_out xs1 xs2 s :
  (stream (xs1 ++ xs2) s).2 = (run xs1 s).2 ++ (stream xs2 (run xs1 s).1).2.
Proof.
  unfold stream. rewrite run_app. destruct (run xs2 (run xs1 s).1) as [s2 o2]; simpl.
  destruct (conv_finalize s2). simpl. by rewrite app_assoc.
Qed.

Lemma run_single i s : run [i] s = conv_step i s.
Proof. simpl. destruct (conv_step i s). by rewrite app_nil_r. Qed.

Lemma run_invariant (P : St -> Prop) :
  (forall i s, P s -> P (conv_step i s).1) ->
  forall xs s, P s -> P (run xs s).1.
Proof.
  intros Hstep xs; induction xs as [|i xs IH]; intros s Hs; simpl; [done|].
  specialize (Hstep i s Hs). destruct (conv_step i s) as [s1 o1].
  specialize (IH s1 Hstep). by destruct (run xs s1).
Qed.
End Run.

(** A monitor reads the emitted events one by one and rejects a bad one. *)
Section Monitor.
Context {M Out : Type} (mon : M -> Out -> option M).

Fixpoint accepts (m : M) (os : list Out) : option M :=
  match os with
  | [] => Some m
  | o :: os => m' ← mon m o; accepts m' os
  end.

Lemma accepts_cons m o os : accepts m (o :: os) = (m' ← mon m o; accepts m' os).
Proof. reflexivity. Qed.

Lemma accepts_single m o : accepts m [o] = mon m o.
Proof. simpl. by destruct (mon m o). Qed.

Lemma accepts_app m os1 os2 :
  accepts m (os1 ++ os2) = (m' ← accepts m os1; accepts m' os2).
Proof.
  revert m; induction os1 as [|o os1 IH]; intros m; simpl; [done|].
  destruct (mon m o); simpl; [apply IH|done].
Qed.

(** [sim R R' f]: from states related by [R], the monitor accepts what the
    piece of converter code [f] emits, and the states it leaves are related
    by [R']. *)
Definition sim {St : Type} (R R' : St -> M -> Prop) (f : St -> St * list Out) : Prop :=
  forall s m, R s m ->
    exists m', accepts m (f s).2 = Some m' /\ R' (f s).1 m'.

Lemma sim_at {St} (R R' : St -> M -> Prop) f s m :
  sim R R' f -> R s m -> exists m', accepts m (f s).2 = Some m' /\ R' (f s).1 m'.
Proof. intros Hf. apply Hf. Qed.

Lemma sim_then {St} (R1 R2 R3 : St -> M -> Prop) f g :
  sim R1 R2 f -> sim R2 R3 g -> sim R1 R3 (f ;>> g).
Proof.
  intros Hf Hg s m Hs. unfold then_emit.
  destruct (Hf s m Hs) as (m1 & Ha1 & H1).
  destruct (f s) as [s1 o1]; simpl in *.
  destruct (Hg s1 m1 H1) as (m2 & Ha2 & H2).
  destruct (g s1) as [s2 o2]; simpl in *.
  exists m2; split; [|done]. by rewrite accepts_app, Ha1.
Qed.

Lemma sim_skip {St} (R : St -> M -> Prop) : sim R R (fun s => (s, [])).
Proof. intros s m Hs. by exists m. Qed.

(** A silent change of the state. *)
Lemma sim_silent {St} (R R' : St -> M -> Prop) (f : St -> St) :
  (forall s m, R s m -> R' (f s) m) -> sim R R' (fun s => (f s, [])).
Proof. intros Hf s m Hs. exists m; split; [done|]. by apply Hf. Qed.

Lemma sim_if {St} (R R' : St -> M -> Prop) (b : St -> bool) f g :
  sim (fun s m => R s m /\ b s = true) R' f ->
  sim (fun s m => R s m /\ b s = false) R' g ->
  sim R R' (fun s => if b s then f s else g s).
Proof. intros Hf Hg s m Hs; simpl. destruct (b s) eqn:E; auto. Qed.

Lemma sim_mono {St} (R1 R1' R2 R2' : St -> M -> Prop) f :
  (forall s m, R1' s m -> R1 s m) -> (forall s m, R2 s m -> R2' s m) ->
  sim R1 R2 f -> sim R1' R2' f.
Proof.
  intros H1 H2 Hf s m Hs. destruct (Hf s m (H1 _ _ Hs)) as (m' & Ha & H').
  exists m'; auto.
Qed.

Lemma sim_ext {St} (R R' : St -> M -> Prop) f g :
  (forall s, f s = g s) -> sim R R' f -> sim R R' g.
Proof. intros Hfg Hf s m Hs. rewrite <- Hfg. auto. Qed.

Lemma sim_run {St In} `{Converter St In Out} (R : St -> M -> Prop) :
  (forall i, sim R R (conv_step i)) -> forall xs, sim R R (run xs).
Proof.
  intros Hstep xs; induction xs as [|i xs IH]; [apply sim_skip|].
  apply (sim_ext R R (conv_step i ;>> run xs)); [done|].
  by apply sim_then with R.
Qed.

Lemma sim_stream {St In} `{Converter St In Out} (R R' : St -> M -> Prop) :
  (forall i, sim R R (conv_step i)) -> sim R R' conv_finalize ->
  forall xs, sim R R' (stream xs).
Proof.
  intros Hstep Hfin xs.
  apply (sim_ext R R' (run xs ;>> conv_finalize)); [done|].
  apply sim_then with R; [by apply sim_run|done].
Qed.
End Monitor.
