(* ===== verification/Json.v ===== *)
(** * The part of [encoding/json] and [unicode/utf8] the gateway calls

    Executable models of [utf8.DecodeRuneInString], [utf8.ValidString],
    [json.Valid], [json.Unmarshal] (into [any] and into
    [map[string]json.RawMessage]) and [json.Marshal] (of strings, of
    [map[string]json.RawMessage] and of decoded values).  A Go map is kept as the
    association list [json.Marshal] prints: sorted by key, one entry per key. *)

From S2P Require Import Prelude.
Local Open Scope string_scope.
Local Open Scope nat_scope.
Local Open Scope list_scope.
Local Open Scope go_scope.

(** ** Bytes *)
Definition code (c : Ascii.ascii) : nat := Ascii.nat_of_ascii c.
Definition dquote : Ascii.ascii := Ascii.ascii_of_nat 34.
Definition backslash : Ascii.ascii := Ascii.ascii_of_nat 92.
Definition is_c (n : nat) (c : Ascii.ascii) : bool := code c =? n.
Definition in_range (lo hi n : nat) : bool := (lo <=? n) && (n <=? hi).

(** ** UTF-8 *)

(** [utf8.DecodeRuneInString]: the rune (65533 and width 1 on a bad sequence). *)
Definition decode_rune (s : string) : Z * nat :=
  let bad := (65533%Z, 1) in
  let cont c := in_range 128 191 (code c) in
  let low c := Z.of_nat (code c - 128) in
  match s with
  | EmptyString => (65533%Z, 0)
  | String a r =>
      let n := code a in
      if n <? 128 then (Z.of_nat n, 1)
      else if in_range 194 223 n then
        match r with
        | String b _ =>
            if cont b then ((Z.of_nat (n - 192) * 64 + low b)%Z, 2) else bad
        | _ => bad
        end
      else if in_range 224 239 n then
        match r with
        | String b (String c _) =>
            let lo := if n =? 224 then 160 else 128 in
            let hi := if n =? 237 then 159 else 191 in
            if in_range lo hi (code b) && cont c
            then ((Z.of_nat (n - 224) * 4096 + low b * 64 + low c)%Z, 3) else bad
        | _ => bad
        end
      else if in_range 240 244 n then
        match r with
        | String b (String c (String d _)) =>
            let lo := if n =? 240 then 144 else 128 in
            let hi := if n =? 244 then 143 else 191 in
            if in_range lo hi (code b) && cont c && cont d
            then ((Z.of_nat (n - 240) * 262144 + low b * 4096 + low c * 64 + low d)%Z, 4)
            else bad
        | _ => bad
        end
      else bad
  end.

(** The runes of a string (Go's [for _, r := range s]), with their widths. *)
Fixpoint runes_fuel (fuel : nat) (s : string) : list (Z * nat) :=
  match fuel, s with
  | O, _ | _, EmptyString => []
  | S fuel, _ =>
      let '(r, w) := decode_rune s in
      (r, w) :: runes_fuel fuel (str_drop w s)
  end.
Definition runes (s : string) : list (Z * nat) := runes_fuel (String.length s) s.

(** [utf8.ValidString]: a replacement rune of width 1 is a decoding error. *)
Definition utf8_valid (s : string) : bool :=
  forallb (fun '(r, w) => negb ((r =? 65533)%Z && (w =? 1))) (runes s).

(** [utf8.AppendRune]. *)
Definition encode_rune (r : Z) : string :=
  let b (z : Z) := Z.to_nat z in
  if ((r <? 0) || (1114111 <? r) || ((55296 <=? r) && (r <=? 57343)))%Z
  then bytes_str [239; 191; 189]
  else if (r <? 128)%Z then bytes_str [b r]
  else if (r <? 2048)%Z then bytes_str [b (192 + r / 64)%Z; b (128 + r mod 64)%Z]
  else if (r <? 65536)%Z
  then bytes_str [b (224 + r / 4096)%Z; b (128 + r / 64 mod 64)%Z; b (128 + r mod 64)%Z]
  else bytes_str [b (240 + r / 262144)%Z; b (128 + r / 4096 mod 64)%Z;
                  b (128 + r / 64 mod 64)%Z; b (128 + r mod 64)%Z].

(** ** Scanning *)

#[warnings="-register-all"]
Inductive json :=
| JNull
| JBool (b : bool)
| JNum (raw : string)
| JStr (s : string)
| JArr (l : list json)
| JObj (l : list (string * json)).

Definition is_ws (c : Ascii.ascii) : bool :=
  is_c 32 c || is_c 9 c || is_c 10 c || is_c 13 c.
Fixpoint skip_ws (s : string) : string :=
  match s with
  | String c r => if is_ws c then skip_ws r else s
  | EmptyString => s
  end.

Definition hex_val (c : Ascii.ascii) : option Z :=
  let n := code c in
  if in_range 48 57 n then Some (Z.of_nat (n - 48))
  else if in_range 97 102 n then Some (Z.of_nat (n - 87))
  else if in_range 65 70 n then Some (Z.of_nat (n - 55))
  else None.

Definition hex4 (a b c d : Ascii.ascii) : option Z :=
  a ← hex_val a; b ← hex_val b; c ← hex_val c; d ← hex_val d;
  Some (a * 4096 + b * 256 + c * 16 + d)%Z.

(** After the opening quote: the raw body and what follows the closing quote. *)
Fixpoint scan_str (s : string) : option (string * string) :=
  match s with
  | EmptyString => None
  | String c r =>
      if is_c 34 c then Some ("", r)
      else if is_c 92 c then
        match r with
        | String e r1 =>
            if is_c 117 e then
              match r1 with
              | String h1 (String h2 (String h3 (String h4 r2))) =>
                  match hex4 h1 h2 h3 h4, scan_str r2 with
                  | Some _, Some (b, rest) =>
                      Some (String c (String e (String h1 (String h2 (String h3
                             (String h4 b))))), rest)
                  | _, _ => None
                  end
              | _ => None
              end
            else if existsb (fun n => is_c n e) [34; 92; 47; 98; 102; 110; 114; 116] then
              match scan_str r1 with
              | Some (b, rest) => Some (String c (String e b), rest)
              | None => None
              end
            else None
        | EmptyString => None
        end
      else if code c <? 32 then None
      else match scan_str r with
           | Some (b, rest) => Some (String c b, rest)
           | None => None
           end
  end.

(** The decoded text of a scanned string body. *)
Definition simple_escape (e : Ascii.ascii) : string :=
  if is_c 98 e then bytes_str [8] else if is_c 102 e then bytes_str [12]
  else if is_c 110 e then bytes_str [10] else if is_c 114 e then bytes_str [13]
  else if is_c 116 e then bytes_str [9] else String e EmptyString.

Definition low_surrogate (s : string) : option Z :=
  match s with
  | String a (String b (String h1 (String h2 (String h3 (String h4 _))))) =>
      if is_c 92 a && is_c 117 b then
        v ← hex4 h1 h2 h3 h4;
        if ((56320 <=? v) && (v <=? 57343))%Z then Some v else None
      else None
  | _ => None
  end.

Fixpoint unquote_fuel (fuel : nat) (s : string) : string :=
  match fuel, s with
  | O, _ | _, EmptyString => ""
  | S fuel, String c r =>
      if is_c 92 c then
        match r with
        | String e r1 =>
            if is_c 117 e then
              match r1 with
              | String h1 (String h2 (String h3 (String h4 r2))) =>
                  let v := default 0%Z (hex4 h1 h2 h3 h4) in
                  if ((55296 <=? v) && (v <=? 56319))%Z then
                    match low_surrogate r2 with
                    | Some lo =>
                        encode_rune ((v - 55296) * 1024 + (lo - 56320) + 65536)%Z
                          +:+ unquote_fuel fuel (str_drop 6 r2)
                    | None => encode_rune 65533 +:+ unquote_fuel fuel r2
                    end
                  else encode_rune v +:+ unquote_fuel fuel r2
              | _ => ""
              end
            else simple_escape e +:+ unquote_fuel fuel r1
        | EmptyString => ""
        end
      else
        let '(rn, w) := decode_rune s in
        encode_rune rn +:+ unquote_fuel fuel (str_drop w s)
  end.
Definition unquote (s : string) : string := unquote_fuel (String.length s) s.

Fixpoint span_digits (s : string) : string * string :=
  match s with
  | String c r =>
      if in_range 48 57 (code c)
      then let '(d, rest) := span_digits r in (String c d, rest)
      else ("", s)
  | EmptyString => ("", "")
  end.

Definition take_byte (ns : list nat) (s : string) : option (string * string) :=
  match s with
  | String c r =>
      if existsb (fun n => is_c n c) ns then Some (String c EmptyString, r) else None
  | EmptyString => None
  end.

(** -? (0|[1-9][0-9]* ) ([.][0-9]+)? ([eE][+-]?[0-9]+)? *)
Definition scan_number (s : string) : option (string * string) :=
  let '(sign, s) := default ("", s) (take_byte [45] s) in
  '(int, s) ← match take_byte [48] s with
             | Some z => Some z
             | None => let '(d, r) := span_digits s in
                       if d =?s "" then None else Some (d, r)
             end;
  '(frac, s) ← match take_byte [46] s with
              | Some (p, r) => let '(d, r) := span_digits r in
                               if d =?s "" then None else Some (p +:+ d, r)
              | None => Some ("", s)
              end;
  '(expo, s) ← match take_byte [101; 69] s with
              | Some (e, r) =>
                  let '(sg, r) := default ("", r) (take_byte [43; 45] r) in
                  let '(d, r) := span_digits r in
                  if d =?s "" then None else Some (e +:+ sg +:+ d, r)
              | None => Some ("", s)
              end;
  Some (sign +:+ int +:+ frac +:+ expo, s).

Fixpoint sorted_insert {A} (k : string) (v : A) (l : list (string * A)) :
    list (string * A) :=
  match l with
  | [] => [(k, v)]
  | (k', v') :: l' =>
      if k =?s k' then (k, v) :: l'
      else if String.ltb k k' then (k, v) :: l
      else (k', v') :: sorted_insert k v l'
  end.
Definition assoc {A} (k : string) (l : list (string * A)) : option A :=
  snd <$> find (fun '(k', _) => k =?s k') l.
Definition assoc_delete {A} (k : string) (l : list (string * A)) : list (string * A) :=
  List.filter (fun '(k', _) => negb (k =?s k')) l.

(** [maxNestingDepth] of the scanner. *)
Definition max_depth : N := 10000.

Section Parse.
(** What is kept of an element or a member: its value and its raw text. *)
Fixpoint pval (fuel : nat) (depth : N) (s : string) : option (json * string) :=
  match fuel, s with
  | O, _ | _, EmptyString => None
  | S fuel, String c r =>
      if is_c 34 c then '(b, rest) ← scan_str r; Some (JStr (unquote b), rest)
      else if is_c 91 c then
        if (max_depth <=? depth)%N then None else
        let r := skip_ws r in
        match take_byte [93] r with
        | Some (_, rest) => Some (JArr [], rest)
        | None => '(l, rest) ← pelems fuel (depth + 1) r; Some (JArr (map fst l), rest)
        end
      else if is_c 123 c then
        if (max_depth <=? depth)%N then None else
        let r := skip_ws r in
        match take_byte [125] r with
        | Some (_, rest) => Some (JObj [], rest)
        | None => '(l, rest) ← pmembers fuel (depth + 1) r;
                  Some (JObj (foldl (fun m kv => sorted_insert kv.1 kv.2.1 m) [] l), rest)
        end
      else if HasPrefix s "null" then Some (JNull, str_drop 4 s)
      else if HasPrefix s "true" then Some (JBool true, str_drop 4 s)
      else if HasPrefix s "false" then Some (JBool false, str_drop 5 s)
      else '(n, rest) ← scan_number s; Some (JNum n, rest)
  end
with pelems (fuel : nat) (depth : N) (s : string) :
    option (list (json * string) * string) :=
  match fuel with
  | O => None
  | S fuel =>
      '(v, r) ← pval fuel depth s;
      let raw := str_take (String.length s - String.length r) s in
      let r := skip_ws r in
      match take_byte [93] r with
      | Some (_, rest) => Some ([(v, raw)], rest)
      | None =>
          '(_, r) ← take_byte [44] r;
          '(l, rest) ← pelems fuel depth (skip_ws r);
          Some ((v, raw) :: l, rest)
      end
  end
with pmembers (fuel : nat) (depth : N) (s : string) :
    option (list (string * (json * string)) * string) :=
  match fuel with
  | O => None
  | S fuel =>
      '(_, r) ← take_byte [34] s;
      '(k, r) ← scan_str r;
      '(_, r) ← take_byte [58] (skip_ws r);
      let r := skip_ws r in
      '(v, r') ← pval fuel depth r;
      let raw := str_take (String.length r - String.length r') r in
      let r' := skip_ws r' in
      match take_byte [125] r' with
      | Some (_, rest) => Some ([(unquote k, (v, raw))], rest)
      | None =>
          '(_, r') ← take_byte [44] r';
          '(l, rest) ← pmembers fuel depth (skip_ws r');
          Some ((unquote k, (v, raw)) :: l, rest)
      end
  end.
End Parse.

(** Every nested call has consumed a byte within two units of fuel. *)
Definition parse_fuel (s : string) : nat := 2 * String.length s + 2.

(** A whole document: one value between optional white space. *)
Definition json_parse (s : string) : option json :=
  '(v, rest) ← pval (parse_fuel s) 0 (skip_ws s);
  if skip_ws rest =?s "" then Some v else None.

(** [json.Valid] *)
Definition json_valid (s : string) : bool :=
  match json_parse s with Some _ => true | None => false end.

(** [json.Unmarshal] into a [map[string]json.RawMessage]: [None] is the error,
    [null] leaves the map nil. *)
Definition unmarshal_raw_map (s : string) : option (list (string * string)) :=
  v ← json_parse s;
  match v with
  | JNull => Some []
  | JObj _ =>
      match skip_ws s with
      | String _ r =>
          let r := skip_ws r in
          match take_byte [125] r with
          | Some _ => Some []
          | None =>
              '(l, _) ← pmembers (parse_fuel s) 1 r;
              Some (foldl (fun m kv => sorted_insert kv.1 kv.2.2 m) [] l)
          end
      | EmptyString => None
      end
  | _ => None
  end.

(** ** Printing *)

Definition hex_digit (n : nat) : Ascii.ascii :=
  Ascii.ascii_of_nat (if n <? 10 then 48 + n else 87 + n).
Definition u_escape (n : nat) : string :=
  bytes_str [92; 117; 48; 48] +:+
  String (hex_digit (n / 16)) (String (hex_digit (n mod 16)) EmptyString).

Definition escape_ascii (c : Ascii.ascii) : string :=
  let n := code c in
  if (n =? 34) || (n =? 92) then String backslash (String c EmptyString)
  else if n =? 8 then bytes_str [92; 98] else if n =? 12 then bytes_str [92; 102]
  else if n =? 10 then bytes_str [92; 110] else if n =? 13 then bytes_str [92; 114]
  else if n =? 9 then bytes_str [92; 116]
  else if (n <? 32) || (n =? 60) || (n =? 62) || (n =? 38) then u_escape n
  else String c EmptyString.

Fixpoint quote_fuel (fuel : nat) (s : string) : string :=
  match fuel, s with
  | O, _ | _, EmptyString => ""
  | S fuel, String c r =>
      if code c <? 128 then escape_ascii c +:+ quote_fuel fuel r
      else
        let '(rn, w) := decode_rune s in
        let rest := quote_fuel fuel (str_drop w s) in
        if ((rn =? 65533)%Z && (w =? 1)) then
          String backslash "ufffd" +:+ rest
        else if (rn =? 8232)%Z then String backslash "u2028" +:+ rest
        else if (rn =? 8233)%Z then String backslash "u2029" +:+ rest
        else str_take w s +:+ rest
  end.
(** A Go string as a JSON string literal (HTML-escaping, as [json.Marshal]). *)
Definition json_quote (s : string) : string :=
  String dquote (quote_fuel (String.length s) s +:+ String dquote EmptyString).

Definition join_comma (l : list string) : string :=
  match l with
  | [] => ""
  | x :: l => x +:+ str_concat (map (fun y => "," +:+ y) l)
  end.

Definition print_members (l : list (string * string)) : string :=
  "{" +:+ join_comma (map (fun '(k, v) => json_quote k +:+ ":" +:+ v) l) +:+ "}".

(** [json.Compact] with HTML escaping, applied to an embedded [RawMessage]. *)
Fixpoint compact_fuel (fuel : nat) (in_str : bool) (s : string) : string :=
  match fuel, s with
  | O, _ | _, EmptyString => ""
  | S fuel, String c r =>
      let n := code c in
      if (n =? 60) || (n =? 62) || (n =? 38) then u_escape n +:+ compact_fuel fuel in_str r
      else if HasPrefix s (bytes_str [226; 128; 168]) then
        String backslash "u2028" +:+ compact_fuel fuel in_str (str_drop 3 s)
      else if HasPrefix s (bytes_str [226; 128; 169]) then
        String backslash "u2029" +:+ compact_fuel fuel in_str (str_drop 3 s)
      else if in_str then
        if n =? 92 then
          match r with
          | String e r => String c (String e (compact_fuel fuel true r))
          | EmptyString => String c EmptyString
          end
        else String c (compact_fuel fuel (negb (n =? 34)) r)
      else if is_ws c then compact_fuel fuel false r
      else String c (compact_fuel fuel (n =? 34) r)
  end.
Definition json_compact (s : string) : string := compact_fuel (String.length s) false s.

(** [json.Marshal] of a [map[string]json.RawMessage] whose values are valid. *)
Definition marshal_raw_map (m : list (string * string)) : string :=
  print_members (map (fun '(k, v) => (k, json_compact v)) m).

(** [json.Marshal] of a [map[string]string]. *)
Definition marshal_string_map (m : list (string * string)) : string :=
  print_members (map (fun '(k, v) => (k, json_quote v)) m).

(** [json.Marshal] of a decoded value; [num] prints a number. *)
Fixpoint json_marshal (v : json) : string :=
  match v with
  | JNull => "null"
  | JBool true => "true"
  | JBool false => "false"
  | JNum raw => raw
  | JStr s => json_quote s
  | JArr l => "[" +:+ join_comma (map json_marshal l) +:+ "]"
  | JObj l => print_members (map (fun '(k, v) => (k, json_marshal v)) l)
  end.

