(* ===== verification/JsonCodec.v ===== *)
(** * Typed decoding and encoding of [encoding/json]

    [json.Unmarshal] into a struct, a slice or a string and [json.Marshal] of a
    struct, as the converters of [pkg/apicompat] use them.  A document is opened
    one level at a time: [json_shape] validates a whole text and keeps the raw
    text of each element or member, which is what a [json.RawMessage] or an
    [UnmarshalJSON] method receives.  A decoder takes that raw text and the value
    it decodes into ([null] leaves most values alone, a later duplicate member
    decodes over the earlier one); [None] is the error of [Unmarshal], after which
    the callers discard what was decoded.  An encoder returns [None] where
    [json.Marshal] fails, which happens on a [RawMessage] that is not JSON. *)

From S2P Require Import Prelude Json.
Local Open Scope string_scope.
Local Open Scope nat_scope.
Local Open Scope list_scope.
Local Open Scope go_scope.

(** ** One level of a document *)

#[warnings="-register-all"]
Inductive shape :=
| SNull
| SBool (b : bool)
| SNum (raw : string)
| SStr (s : string)
| SArr (l : list string)
| SObj (l : list (string * string)).

(** The elements of the array, and the members of the object, [s] starts with
    (white space apart), as raw texts in the order of the document. *)
Definition raw_elems (s : string) : list string :=
  let r := skip_ws (str_drop 1 (skip_ws s)) in
  match take_byte [93] r with
  | Some _ => []
  | None => match pelems (parse_fuel s) 1 r with
            | Some (l, _) => map snd l
            | None => []
            end
  end.
Definition raw_members (s : string) : list (string * string) :=
  let r := skip_ws (str_drop 1 (skip_ws s)) in
  match take_byte [125] r with
  | Some _ => []
  | None => match pmembers (parse_fuel s) 1 r with
            | Some (l, _) => map (fun kv => (kv.1, kv.2.2)) l
            | None => []
            end
  end.

Definition json_shape (s : string) : option shape :=
  v ← json_parse s;
  Some match v with
       | JNull => SNull
       | JBool b => SBool b
       | JNum raw => SNum raw
       | JStr x => SStr x
       | JArr _ => SArr (raw_elems s)
       | JObj _ => SObj (raw_members s)
       end.

(** ** Decoding *)

(** [foldName]: field names are ASCII, and the only runes outside ASCII whose
    folding is ASCII are U+017F (to S) and U+212A (to K). *)
Definition ascii_upper (c : Ascii.ascii) : Ascii.ascii :=
  if in_range 97 122 (code c) then Ascii.ascii_of_nat (code c - 32) else c.
Fixpoint fold_name_fuel (fuel : nat) (s : string) : string :=
  match fuel, s with
  | O, _ | _, EmptyString => ""
  | S fuel, String c r =>
      if HasPrefix s (bytes_str [197; 191]) then "S" +:+ fold_name_fuel fuel (str_drop 2 s)
      else if HasPrefix s (bytes_str [226; 132; 170])
      then "K" +:+ fold_name_fuel fuel (str_drop 3 s)
      else String (ascii_upper c) (fold_name_fuel fuel r)
  end.
Definition fold_name (s : string) : string := fold_name_fuel (String.length s) s.

Definition decoder (A : Type) : Type := string -> A -> option A.

Definition d_string : decoder string := fun raw old =>
  match json_shape raw with
  | Some (SStr x) => Some x
  | Some SNull => Some old
  | _ => None
  end.
Definition d_bool : decoder bool := fun raw old =>
  match json_shape raw with
  | Some (SBool b) => Some b
  | Some SNull => Some old
  | _ => None
  end.
(** [json.RawMessage]: the bytes of the value, [null] included. *)
Definition d_raw : decoder string := fun raw _ => Some raw.
(** A pointer: [null] is nil, another value is decoded into the pointee, a new
    zero one when the pointer was nil. *)
Definition d_ptr {A} (zero : A) (d : decoder A) : decoder (option A) := fun raw old =>
  match json_shape raw with
  | Some SNull => Some None
  | Some _ => Some <$> d raw (default zero old)
  | None => None
  end.
(** A slice, decoded into a nil one. *)
Definition d_slice {A} (zero : A) (d : decoder A) : string -> option (list A) := fun raw =>
  match json_shape raw with
  | Some SNull => Some []
  | Some (SArr l) => mapM (fun x => d x zero) l
  | _ => None
  end.

(** The fields of a struct: name and decoder. *)
Definition fields (A : Type) : Type := list (string * decoder A).
(** A decoder of the field read by [get] and written by [set]. *)
Definition field {A B} (get : A -> B) (set : B -> A -> A) (d : decoder B) : decoder A :=
  fun raw a => (fun b => set b a) <$> d raw (get a).

(** The exact name first, the first name equal under folding otherwise. *)
Definition find_field {A} (fs : fields A) (k : string) : option (decoder A) :=
  match find (fun f => f.1 =?s k) fs with
  | Some f => Some f.2
  | None => snd <$> find (fun f => fold_name f.1 =?s fold_name k) fs
  end.
Definition d_members {A} (fs : fields A) (ms : list (string * string)) (a : A) : option A :=
  foldl (fun acc m =>
           a ← acc;
           match find_field fs m.1 with
           | Some d => d m.2 a
           | None => Some a
           end) (Some a) ms.
Definition d_struct {A} (fs : fields A) : decoder A := fun raw a =>
  match json_shape raw with
  | Some (SObj ms) => d_members fs ms a
  | Some SNull => Some a
  | _ => None
  end.

(** [json.Unmarshal(raw, &s)] into a fresh string. *)
Definition unmarshal_string (raw : string) : option string := d_string raw "".

(** ** Encoding *)

(** What [json.Marshal] does to the output of a [MarshalJSON] method, of which
    [RawMessage] has one: validate, then compact. *)
Definition compact_raw (s : string) : option string :=
  if json_valid s then Some (json_compact s) else None.

(** The members one field contributes; [None] fails the whole encoding. *)
Definition members : Type := option (list (string * string)).
Definition e_string (k v : string) : members := Some [(k, json_quote v)].
Definition e_string_omit (k v : string) : members :=
  if v =?s "" then Some [] else e_string k v.
(** A [RawMessage]: nil is [null]. *)
Definition e_raw (k v : string) : members :=
  if v =?s "" then Some [(k, "null")] else q ← compact_raw v; Some [(k, q)].
Definition e_raw_omit (k v : string) : members :=
  if v =?s "" then Some [] else e_raw k v.
Definition e_true_omit (k : string) (b : bool) : members :=
  Some (if b then [(k, "true")] else []).
Definition e_ptr_omit {A} (k : string) (enc : A -> option string) (o : option A) : members :=
  match o with
  | Some a => s ← enc a; Some [(k, s)]
  | None => Some []
  end.

Definition e_struct (l : list members) : option string :=
  (fun ms => print_members (List.concat ms)) <$> mapM id l.
Definition print_array (l : list string) : string := "[" +:+ join_comma l +:+ "]".
(** A slice that is not nil. *)
Definition e_slice {A} (enc : A -> option string) (l : list A) : option string :=
  print_array <$> mapM enc l.
(** A slice this code only builds with [append]: nil when it is empty. *)
Definition e_appended {A} (enc : A -> option string) (l : list A) : option string :=
  match l with [] => Some "null" | _ => e_slice enc l end.

(** [content, _ := json.Marshal(...)]: nil on an error. *)
Definition or_nil (o : option string) : string := default "" o.
