(* ===== verification/JsonGrammar.v ===== *)
(** * The grammar of JSON texts and the scanner, printer and compacter of [Json]

    [jtext] relates a JSON text to its compacted form (white space removed, the
    characters [json.Marshal] escapes escaped).  Texts the parser accepts are texts
    of the grammar ([pval_jtext]), texts of the grammar are accepted whatever
    follows them ([jtext_parse]), [json.Compact] computes the compacted form
    ([jtext_compact]), which is a text of the grammar again ([jtext_idem]). *)

From S2P Require Import Prelude Json JsonCodec.
Local Open Scope string_scope.
Local Open Scope nat_scope.
Local Open Scope list_scope.
Local Open Scope go_scope.

(** ** Bytes *)

Lemma code_of_nat n : n < 256 -> code (Ascii.ascii_of_nat n) = n.
Proof. apply Ascii.nat_ascii_embedding. Qed.

Lemma code_lt c : code c < 256.
Proof. apply Ascii.nat_ascii_bounded. Qed.

Lemma of_nat_code c : Ascii.ascii_of_nat (code c) = c.
Proof. apply Ascii.ascii_nat_embedding. Qed.

Lemma is_c_eq n c : is_c n c = true -> c = Ascii.ascii_of_nat n.
Proof. intros H%Nat.eqb_eq. by rewrite <- H, of_nat_code. Qed.

Lemma is_c_of_nat n m : m < 256 -> is_c n (Ascii.ascii_of_nat m) = (m =? n).
Proof. intros. unfold is_c. by rewrite code_of_nat. Qed.

Lemma length_str_drop n s : String.length (str_drop n s) = String.length s - n.
Proof. revert s; induction n; intros [|c s]; simpl; auto with lia. Qed.

Lemma str_take_app (a b : string) : str_take (String.length a) (a +:+ b) = a.
Proof. induction a; simpl; [by destruct b|congruence]. Qed.

Lemma str_take_drop n s : str_take n s +:+ str_drop n s = s.
Proof. revert s; induction n; intros [|c s]; simpl; auto. by rewrite IHn. Qed.

(** The raw text in front of a remainder. *)
Lemma str_take_raw (p r : string) :
  str_take (String.length (p +:+ r) - String.length r) (p +:+ r) = p.
Proof.
  rewrite str_length_app.
  replace (String.length p + String.length r - String.length r) with (String.length p) by lia.
  apply str_take_app.
Qed.

(** ** [json.Compact] without its fuel *)

Definition LS : string := bytes_str [226; 128; 168].
Definition PS : string := bytes_str [226; 128; 169].
Definition html (n : nat) : bool := (n =? 60) || (n =? 62) || (n =? 38).

Definition cpt (in_str : bool) (s : string) : string :=
  compact_fuel (String.length s) in_str s.

Lemma compact_fuel_enough f i s :
  String.length s <= f -> compact_fuel f i s = cpt i s.
Proof.
  unfold cpt. revert f i s.
  assert (E : forall f f' i s, String.length s <= f -> String.length s <= f' ->
    compact_fuel f i s = compact_fuel f' i s).
  { induction f as [|f IH]; intros f' i s Hf Hf'.
    { destruct s; [|simpl in Hf; lia]. by destruct f'. }
    destruct s as [|c r]; [by destruct f'|]. destruct f' as [|f']; [simpl in Hf'; lia|].
    simpl in Hf, Hf'. cbn [compact_fuel].
    assert (Hd : String.length (str_drop 3 (String c r)) <= f
                 /\ String.length (str_drop 3 (String c r)) <= f').
    { rewrite length_str_drop. simpl. lia. }
    rewrite !(IH f') by (tauto || lia).
    destruct r as [|e r']; [done|]. simpl in Hf, Hf'.
    by rewrite (IH f' true r') by lia. }
  intros f i s H. by apply E.
Qed.

Lemma cpt_eq i c r :
  cpt i (String c r) =
    let s := String c r in
    let n := code c in
    if html n then u_escape n +:+ cpt i r
    else if HasPrefix s LS then (String backslash "u2028") +:+ cpt i (str_drop 3 s)
    else if HasPrefix s PS then (String backslash "u2029") +:+ cpt i (str_drop 3 s)
    else if i then
      if n =? 92 then
        match r with
        | String e r => String c (String e (cpt true r))
        | EmptyString => String c EmptyString
        end
      else String c (cpt (negb (n =? 34)) r)
    else if is_ws c then cpt false r
    else String c (cpt (n =? 34) r).
Proof.
  unfold cpt at 1. cbn [compact_fuel String.length]. cbv zeta. fold LS PS. unfold html.
  assert (Hd : String.length (str_drop 3 (String c r)) <= String.length r).
  { rewrite length_str_drop. simpl. lia. }
  rewrite !compact_fuel_enough by (lia || exact Hd).
  destruct r as [|e r']; [done|].
  by rewrite (compact_fuel_enough _ true r') by (simpl; lia).
Qed.

(** A byte that is neither escaped nor starts an escaped rune nor ends a string. *)
Definition plain (c : Ascii.ascii) : bool :=
  let n := code c in
  negb (html n || (n =? 226) || (n =? 34) || (n =? 92)).

Lemma HasPrefix_226 c r a b :
  (code c =? 226) = false -> HasPrefix (String c r) (bytes_str [226; a; b]) = false.
Proof.
  intros H. change (Ascii.eqb (Ascii.ascii_of_nat 226) c && HasPrefix r (bytes_str [a; b]) = false).
  destruct (Ascii.eqb_spec (Ascii.ascii_of_nat 226) c) as [<-|]; [|done].
  by rewrite code_of_nat in H by lia.
Qed.

Lemma cpt_plain_str c r : plain c = true -> cpt true (String c r) = String c (cpt true r).
Proof.
  unfold plain. intros H%negb_true_iff. rewrite !orb_false_iff in H.
  destruct H as [[[H1 H2] H3] H4]. rewrite cpt_eq. cbv zeta.
  unfold LS, PS. by rewrite H1, !HasPrefix_226, H4, H3.
Qed.

Lemma cpt_plain c r :
  plain c = true -> is_ws c = false -> cpt false (String c r) = String c (cpt false r).
Proof.
  unfold plain. intros H%negb_true_iff Hw. rewrite !orb_false_iff in H.
  destruct H as [[[H1 H2] H3] H4]. rewrite cpt_eq. cbv zeta.
  unfold LS, PS. by rewrite H1, !HasPrefix_226, Hw, H3.
Qed.

(** ** String bodies *)

Definition esc (e : Ascii.ascii) (b : string) : string := String backslash (String e b).
Definition esc_u (h1 h2 h3 h4 : Ascii.ascii) (b : string) : string :=
  esc (Ascii.ascii_of_nat 117) (String h1 (String h2 (String h3 (String h4 b)))).
Definition simple_escapes : list nat := [34; 92; 47; 98; 102; 110; 114; 116].

(** The text between two quotes, and its compacted form. *)
Inductive sbody : string -> string -> Prop :=
| sb_nil : sbody "" ""
| sb_u h1 h2 h3 h4 v b c :
    hex4 h1 h2 h3 h4 = Some v -> sbody b c -> sbody (esc_u h1 h2 h3 h4 b) (esc_u h1 h2 h3 h4 c)
| sb_esc e b c :
    existsb (fun n => is_c n e) simple_escapes = true -> sbody b c ->
    sbody (esc e b) (esc e c)
| sb_html ch b c :
    html (code ch) = true -> sbody b c -> sbody (String ch b) (u_escape (code ch) +:+ c)
| sb_ls b c : sbody b c -> sbody (LS +:+ b) ((String backslash "u2028") +:+ c)
| sb_ps b c : sbody b c -> sbody (PS +:+ b) ((String backslash "u2029") +:+ c)
| sb_char ch b c :
    (code ch <? 32) = false -> (code ch =? 34) = false -> (code ch =? 92) = false ->
    html (code ch) = false -> HasPrefix (String ch b) LS = false ->
    HasPrefix (String ch b) PS = false -> sbody b c -> sbody (String ch b) (String ch c).

Lemma code_backslash : code backslash = 92.
Proof. reflexivity. Qed.
Lemma code_dquote : code dquote = 34.
Proof. reflexivity. Qed.

Lemma hex_val_plain h v : hex_val h = Some v -> plain h = true.
Proof.
  unfold hex_val, plain, html, in_range. intros H. apply negb_true_iff.
  rewrite !orb_false_iff, !Nat.eqb_neq.
  repeat case_match; try discriminate; bool_hyps;
    repeat match goal with H : (_ <=? _) = true |- _ => apply Nat.leb_le in H end; lia.
Qed.

Lemma hex4_plain h1 h2 h3 h4 v :
  hex4 h1 h2 h3 h4 = Some v ->
  plain h1 = true /\ plain h2 = true /\ plain h3 = true /\ plain h4 = true.
Proof.
  unfold hex4. intros H.
  repeat match type of H with
  | (match ?x with _ => _ end) = _ => destruct x eqn:?; [|discriminate]
  | (_ ≫= _) = _ => apply bind_Some in H; destruct H as (? & ? & H)
  end.
  split_and!; eapply hex_val_plain; eassumption.
Qed.

Lemma HasPrefix_quote b p r :
  forallb (fun n => negb (n =? 34) && (n <? 256)) p = true ->
  HasPrefix (b +:+ String dquote r) (bytes_str p) = HasPrefix b (bytes_str p).
Proof.
  revert b; induction p as [|n p IH]; intros b H; [by destruct b|].
  simpl in H. apply andb_true_iff in H as [[H1 H2]%andb_true_iff H].
  destruct b as [|c b].
  - change (Ascii.eqb (Ascii.ascii_of_nat n) dquote && HasPrefix r (bytes_str p) = false).
    destruct (Ascii.eqb_spec (Ascii.ascii_of_nat n) dquote) as [E|]; [|done].
    apply (f_equal code) in E. rewrite code_of_nat in E by (by apply Nat.ltb_lt).
    rewrite code_dquote in E. by rewrite E in H1.
  - change (Ascii.eqb (Ascii.ascii_of_nat n) c && HasPrefix (b +:+ String dquote r) (bytes_str p)
            = Ascii.eqb (Ascii.ascii_of_nat n) c && HasPrefix b (bytes_str p)).
    by rewrite IH.
Qed.

Definition tail3 (n : nat) (x : string) : string :=
  String (Ascii.ascii_of_nat 226) (String (Ascii.ascii_of_nat 128)
    (String (Ascii.ascii_of_nat n) x)).
Lemma LS_app x : LS +:+ x = tail3 168 x.
Proof. reflexivity. Qed.
Lemma PS_app x : PS +:+ x = tail3 169 x.
Proof. reflexivity. Qed.

Lemma tail3_LS x : HasPrefix (tail3 168 x) LS = true.
Proof. apply HasPrefix_spec. by exists x. Qed.
Lemma tail3_PS x : HasPrefix (tail3 169 x) PS = true.
Proof. apply HasPrefix_spec. by exists x. Qed.

Lemma cpt_esc e r : cpt true (esc e r) = esc e (cpt true r).
Proof. unfold esc. by rewrite cpt_eq. Qed.

Lemma cpt_close r : cpt true (String dquote r) = String dquote (cpt false r).
Proof. by rewrite cpt_eq. Qed.

Lemma sbody_compact b c r :
  sbody b c -> cpt true (b +:+ String dquote r) = c +:+ String dquote (cpt false r).
Proof.
  induction 1 as [|h1 h2 h3 h4 v b c Hh _ IH|e b c He _ IH|ch b c Hc _ IH|b c _ IH|b c _ IH
                 |ch b c H1 H2 H3 H4 H5 H6 _ IH].
  - apply cpt_close.
  - apply hex4_plain in Hh as (?&?&?&?). unfold esc_u.
    change (cpt true (esc (Ascii.ascii_of_nat 117)
      (String h1 (String h2 (String h3 (String h4 (b +:+ String dquote r)))))) = 
      esc (Ascii.ascii_of_nat 117) (String h1 (String h2 (String h3 (String h4 (c +:+ String dquote (cpt false r))))))).
    by rewrite cpt_esc, !cpt_plain_str, IH.
  - change (cpt true (esc e (b +:+ String dquote r)) = esc e (c +:+ String dquote (cpt false r))).
    by rewrite cpt_esc, IH.
  - change (String ch b +:+ String dquote r) with (String ch (b +:+ String dquote r)).
    rewrite cpt_eq. cbv zeta. by rewrite Hc, IH, str_app_assoc.
  - rewrite str_app_assoc, LS_app. unfold tail3. rewrite cpt_eq. cbv zeta.
    fold (tail3 168 (b +:+ String dquote r)). rewrite tail3_LS, str_app_assoc, <- IH.
    reflexivity.
  - rewrite str_app_assoc, PS_app. unfold tail3. rewrite cpt_eq. cbv zeta.
    fold (tail3 169 (b +:+ String dquote r)). rewrite tail3_PS, str_app_assoc, <- IH.
    reflexivity.
  - change (String ch b +:+ String dquote r) with (String ch (b +:+ String dquote r)).
    rewrite cpt_eq. cbv zeta.
    change (String ch (b +:+ String dquote r)) with (String ch b +:+ String dquote r).
    unfold LS, PS in *. rewrite !HasPrefix_quote by reflexivity.
    rewrite H2, H3, H4, H5, H6. cbn [negb]. by rewrite IH.
Qed.

(** Compaction escapes or keeps a byte, so it creates no byte of a longer rune. *)
Lemma sbody_high n b c :
  n < 256 -> (n =? 226) = false -> (n =? 92) = false ->
  sbody b (String (Ascii.ascii_of_nat n) c) ->
  exists b', b = String (Ascii.ascii_of_nat n) b' /\ sbody b' c.
Proof.
  intros Hn H2 H3 H. inversion H; subst; eauto; exfalso;
    match goal with H : _ = Ascii.ascii_of_nat n |- _ =>
      apply (f_equal code) in H; rewrite (code_of_nat n) in H by done; vm_compute in H; subst n
    end; discriminate.
Qed.

Lemma sbody_tail3 n b c :
  (n =? 168) || (n =? 169) = true -> sbody b c ->
  HasPrefix c (bytes_str [128; n]) = true ->
  exists b', b = String (Ascii.ascii_of_nat 128) (String (Ascii.ascii_of_nat n) b')
             /\ exists c', sbody b' c'.
Proof.
  intros Hn Hs [t ->]%HasPrefix_spec.
  apply sbody_high in Hs as (b1 & -> & Hs); [|lia|done|done].
  apply orb_true_iff in Hn as [->%Nat.eqb_eq | ->%Nat.eqb_eq];
    (apply sbody_high in Hs as (b2 & -> & Hs); [|lia|done|done]); eauto.
Qed.

Lemma HasPrefix_rune n ch x :
  n < 256 -> HasPrefix (String ch x) (bytes_str [226; 128; n]) = true ->
  ch = Ascii.ascii_of_nat 226 /\ HasPrefix x (bytes_str [128; n]) = true.
Proof.
  intros Hn H. change (Ascii.eqb (Ascii.ascii_of_nat 226) ch && HasPrefix x (bytes_str [128; n]) = true) in H.
  apply andb_true_iff in H as [<-%Ascii.eqb_eq H]. done.
Qed.

Lemma sbody_idem b c : sbody b c -> sbody c c.
Proof.
  induction 1 as [|h1 h2 h3 h4 v b c Hh _ IH|e b c He _ IH|ch b c Hc _ IH|b c _ IH|b c _ IH
                 |ch b c H1 H2 H3 H4 H5 H6 Hb IH].
  - constructor.
  - by eapply sb_u.
  - by apply sb_esc.
  - unfold html in Hc. rewrite !orb_true_iff, !Nat.eqb_eq in Hc.
    destruct Hc as [[-> | ->] | ->]; (eapply sb_u; [vm_compute; reflexivity | done]).
  - eapply (sb_u (Ascii.ascii_of_nat 50) (Ascii.ascii_of_nat 48) (Ascii.ascii_of_nat 50)
              (Ascii.ascii_of_nat 56)); [vm_compute; reflexivity | done].
  - eapply (sb_u (Ascii.ascii_of_nat 50) (Ascii.ascii_of_nat 48) (Ascii.ascii_of_nat 50)
              (Ascii.ascii_of_nat 57)); [vm_compute; reflexivity | done].
  - apply sb_char; try done; apply not_true_iff_false; intros [-> H]%HasPrefix_rune; try lia.
    + destruct (sbody_tail3 168 b c) as (b' & -> & _); auto.
      change (HasPrefix (tail3 168 b') LS = false) in H5. by rewrite tail3_LS in H5.
    + destruct (sbody_tail3 169 b c) as (b' & -> & _); auto.
      change (HasPrefix (tail3 169 b') PS = false) in H6. by rewrite tail3_PS in H6.
Qed.

(** The scanner accepts exactly the bodies, whatever follows the closing quote. *)
Lemma sbody_scan b c r : sbody b c -> scan_str (b +:+ String dquote r) = Some (b, r).
Proof.
  assert (plainly : forall ch s, (code ch <? 32) = false -> (code ch =? 34) = false ->
      (code ch =? 92) = false ->
      scan_str (String ch s) = (p ← scan_str s; Some (String ch p.1, p.2))).
  { intros ch s H1 H2 H3. cbn [scan_str]. unfold is_c. rewrite H1, H2, H3.
    by destruct (scan_str s) as [[]|]. }
  induction 1 as [|h1 h2 h3 h4 v b c Hh _ IH|e b c He _ IH|ch b c Hc _ IH|b c _ IH|b c _ IH
                 |ch b c H1 H2 H3 H4 H5 H6 _ IH].
  - reflexivity.
  - change (scan_str (String backslash (String (Ascii.ascii_of_nat 117)
      (String h1 (String h2 (String h3 (String h4 (b +:+ String dquote r)))))))
      = Some (esc_u h1 h2 h3 h4 b, r)).
    cbn [scan_str]. rewrite Hh, IH. reflexivity.
  - change (scan_str (String backslash (String e (b +:+ String dquote r))) = Some (esc e b, r)).
    cbn [scan_str].
    change (is_c 34 backslash) with false. change (is_c 92 backslash) with true. cbv iota.
    destruct (is_c 117 e) eqn:Hu.
    { apply is_c_eq in Hu as ->. discriminate He. }
    unfold simple_escapes in He. rewrite He, IH. reflexivity.
  - change (String ch b +:+ String dquote r) with (String ch (b +:+ String dquote r)).
    unfold html in Hc. rewrite !orb_true_iff, !Nat.eqb_eq in Hc.
    rewrite plainly, IH; [done|..]; destruct Hc as [[-> | ->] | ->]; done.
  - rewrite str_app_assoc, LS_app. unfold tail3.
    rewrite !plainly by reflexivity. by rewrite IH.
  - rewrite str_app_assoc, PS_app. unfold tail3.
    rewrite !plainly by reflexivity. by rewrite IH.
  - change (String ch b +:+ String dquote r) with (String ch (b +:+ String dquote r)).
    by rewrite plainly, IH.
Qed.

Lemma sbody_char ch b c :
  (code ch <? 32) = false -> (code ch =? 34) = false -> (code ch =? 92) = false ->
  sbody b c -> exists c', sbody (String ch b) c'.
Proof.
  intros H1 H2 H3 H.
  destruct (html (code ch)) eqn:H4; [eexists; by apply sb_html|].
  assert (rune : forall n, (n =? 168) || (n =? 169) = true ->
    HasPrefix (String ch b) (bytes_str [226; 128; n]) = true ->
    exists b' c', String ch b = tail3 n b' /\ sbody b' c').
  { intros n Hn [-> [t ->]%HasPrefix_spec]%HasPrefix_rune;
      [|apply orb_true_iff in Hn as [->%Nat.eqb_eq | ->%Nat.eqb_eq]; lia].
    exists t. inversion H as [| | |? ? ? Hh| | |? ? ? _ _ _ _ _ _ Hs]; subst; [discriminate|].
    apply orb_true_iff in Hn as [->%Nat.eqb_eq | ->%Nat.eqb_eq];
      inversion Hs; subst; try discriminate; eauto. }
  destruct (HasPrefix (String ch b) LS) eqn:H5.
  { destruct (rune 168 eq_refl H5) as (b' & c' & -> & ?). eexists. by apply (sb_ls b' c'). }
  destruct (HasPrefix (String ch b) PS) eqn:H6.
  { destruct (rune 169 eq_refl H6) as (b' & c' & -> & ?). eexists. by apply (sb_ps b' c'). }
  eexists. by apply sb_char.
Qed.

Lemma scan_sbody s b r :
  scan_str s = Some (b, r) -> s = b +:+ String dquote r /\ exists c, sbody b c.
Proof.
  remember (String.length s) as n eqn:Hn. revert s b r Hn.
  induction n as [n IH] using lt_wf_ind. intros [|ch s] b r Hn H; [discriminate|].
  simpl in Hn. cbn [scan_str] in H. destruct (is_c 34 ch) eqn:H34.
  { injection H as [= <- <-]. apply is_c_eq in H34 as ->. eauto using sb_nil. }
  destruct (is_c 92 ch) eqn:H92.
  { apply is_c_eq in H92 as ->. destruct s as [|e s]; [discriminate|]. simpl in Hn.
    destruct (is_c 117 e) eqn:Hu.
    - apply is_c_eq in Hu as ->. destruct s as [|h1 [|h2 [|h3 [|h4 s]]]]; try discriminate.
      destruct (hex4 h1 h2 h3 h4) as [v|] eqn:Hh; [|discriminate].
      destruct (scan_str s) as [[b' r']|] eqn:Hs; [|discriminate]. injection H as <- <-.
      simpl in Hn. apply (IH (String.length s)) in Hs as [-> [c Hc]]; [|lia|done].
      split; [done|]. eexists. by eapply (sb_u _ _ _ _ v).
    - destruct (existsb _ _) eqn:He; [|discriminate].
      destruct (scan_str s) as [[b' r']|] eqn:Hs; [|discriminate]. injection H as <- <-.
      apply (IH (String.length s)) in Hs as [-> [c Hc]]; [|lia|done].
      split; [done|]. eexists. by apply (sb_esc e b' c). }
  destruct (code ch <? 32) eqn:H32; [discriminate|].
  destruct (scan_str s) as [[b' r']|] eqn:Hs; [|discriminate]. injection H as <- <-.
  apply (IH (String.length s)) in Hs as [-> [c Hc]]; [|lia|done].
  split; [done|]. by eapply sbody_char.
Qed.

(** ** Numbers *)

Definition digit (c : Ascii.ascii) : bool := in_range 48 57 (code c).
Definition num_byte (c : Ascii.ascii) : bool :=
  digit c || existsb (fun n => is_c n c) [43; 45; 46; 69; 101].
Definition all_bytes (p : Ascii.ascii -> bool) (s : string) : Prop :=
  Forall (fun c => p c = true) (String.list_ascii_of_string s).

(** What may follow a value: the end, white space, or a delimiter. *)
Definition delim_byte (c : Ascii.ascii) : bool :=
  is_ws c || existsb (fun n => is_c n c) [44; 58; 93; 125].
Definition delim (r : string) : Prop :=
  match r with EmptyString => True | String c _ => delim_byte c = true end.

Lemma all_bytes_app p a b : all_bytes p (a +:+ b) <-> all_bytes p a /\ all_bytes p b.
Proof.
  unfold all_bytes. induction a as [|c a IH]; simpl; [intuition constructor|].
  rewrite !Forall_cons, IH. tauto.
Qed.

Lemma delim_not_num c : delim_byte c = true -> num_byte c = false.
Proof.
  by destruct c as [[] [] [] [] [] [] [] []]; vm_compute.
Qed.

Lemma span_digits_spec s d r :
  span_digits s = (d, r) ->
  s = d +:+ r /\ all_bytes digit d /\
  match r with EmptyString => True | String c _ => digit c = false end.
Proof.
  revert d r; induction s as [|c s IH]; simpl; intros d r H.
  { injection H as <- <-. split_and!; [done|constructor|done]. }
  fold (digit c) in H. destruct (digit c) eqn:Hc.
  - destruct (span_digits s) as [d' r'] eqn:E. injection H as <- <-.
    destruct (IH _ _ eq_refl) as (-> & Hd & Hr). split_and!; [done| |done].
    by constructor.
  - injection H as <- <-. split_and!; [done|constructor|done].
Qed.

Lemma span_digits_app d r :
  all_bytes digit d -> match r with EmptyString => True | String c _ => digit c = false end ->
  span_digits (d +:+ r) = (d, r).
Proof.
  intros Hd Hr. induction d as [|c d IH]; simpl.
  - destruct r as [|c r]; [done|]. simpl. unfold digit in Hr. by rewrite Hr.
  - apply Forall_cons in Hd as [Hc Hd]. unfold digit in Hc. by rewrite Hc, IH.
Qed.

(** A number text: the scanner reads it and stops at a delimiter. *)
Record num_text (n : string) : Prop := {
  num_bytes : all_bytes num_byte n;
  num_head : exists c n', n = String c n' /\ (is_c 45 c || digit c) = true;
  num_scan r : delim r -> scan_number (n +:+ r) = Some (n, r);
}.

Definition no_head (ns : list nat) (r : string) : Prop :=
  match r with EmptyString => True | String c _ => existsb (fun n => is_c n c) ns = false end.

Lemma take_byte_some ns s c r :
  take_byte ns s = Some (c, r) ->
  exists a, c = String a EmptyString /\ s = String a r /\ existsb (fun n => is_c n a) ns = true.
Proof.
  destruct s as [|a s]; [discriminate|]. simpl. destruct (existsb _ _) eqn:E; [|discriminate].
  intros [= <- <-]. eauto.
Qed.

Lemma take_byte_none ns s : take_byte ns s = None <-> no_head ns s.
Proof. destruct s as [|a s]; simpl; [done|]. by destruct (existsb _ _). Qed.

Lemma take_byte_at ns a r :
  existsb (fun n => is_c n a) ns = true -> take_byte ns (String a r) = Some (String a EmptyString, r).
Proof. simpl. by intros ->. Qed.

Lemma str_eqb_nil d : (d =?s "") = false <-> exists c d', d = String c d'.
Proof. destruct d; simpl; split; try done; eauto. by intros (?&?&?). Qed.

(** The three stages of [scan_number] after the sign. *)
Definition scan_int (s : string) : option (string * string) :=
  match take_byte [48] s with
  | Some z => Some z
  | None => let '(d, r) := span_digits s in if d =?s "" then None else Some (d, r)
  end.
Definition scan_frac (s : string) : option (string * string) :=
  match take_byte [46] s with
  | Some (p, r) =>
      let '(d, r) := span_digits r in if d =?s "" then None else Some (p +:+ d, r)
  | None => Some ("", s)
  end.
Definition scan_expo (s : string) : option (string * string) :=
  match take_byte [101; 69] s with
  | Some (e, r) =>
      let '(sg, r) := default ("", r) (take_byte [43; 45] r) in
      let '(d, r) := span_digits r in
      if d =?s "" then None else Some (e +:+ sg +:+ d, r)
  | None => Some ("", s)
  end.

Lemma scan_number_stages s :
  scan_number s =
    let '(sign, s) := default ("", s) (take_byte [45] s) in
    '(int, s) ← scan_int s; '(frac, s) ← scan_frac s; '(expo, s) ← scan_expo s;
    Some (sign +:+ int +:+ frac +:+ expo, s).
Proof. reflexivity. Qed.

(** A stage [f] reads [d] and leaves what follows, as long as that does not start
    with one of [ns] or, for [dig], with a digit. *)
Definition stage (f : string -> option (string * string)) (dig : bool) (ns : list nat) (d : string) :=
  all_bytes num_byte d /\
  forall r, no_head ns r ->
    (dig = true -> match r with EmptyString => True | String c _ => digit c = false end) ->
    f (d +:+ r) = Some (d, r).

Lemma digits_num d : all_bytes digit d -> all_bytes num_byte d.
Proof. intros H. eapply Forall_impl; [exact H|]. intros c Hc. unfold num_byte. by rewrite Hc. Qed.

Lemma byte_at ns c : existsb (fun n => is_c n c) ns = true ->
  exists n, In n ns /\ c = Ascii.ascii_of_nat n.
Proof. intros (n & ? & E%is_c_eq)%existsb_exists. eauto. Qed.

Lemma scan_int_stage s d r :
  scan_int s = Some (d, r) ->
  s = d +:+ r /\ stage scan_int true [] d /\ exists c d', d = String c d' /\ digit c = true.
Proof.
  unfold scan_int at 1. destruct (take_byte [48] s) as [[z r']|] eqn:E.
  - intros [= -> ->]. apply take_byte_some in E as (a & -> & -> & (n & [<-|[]] & ->)%byte_at).
    split_and!; [done| |by repeat eexists].
    split; [by repeat constructor|]. intros r' _ _.
    change (scan_int (String (Ascii.ascii_of_nat 48) r') = Some (byte_str 48, r')).
    unfold scan_int. by rewrite take_byte_at.
  - destruct (span_digits s) as [d' r'] eqn:Es. destruct (d' =?s "") eqn:Ed; [discriminate|].
    intros [= -> ->]. apply span_digits_spec in Es as (-> & Hd & _).
    apply str_eqb_nil in Ed as (c & d' & ->).
    split_and!; [done| |repeat eexists; by apply Forall_cons in Hd as [? _]].
    split; [by apply digits_num|]. intros r' _ Hr. unfold scan_int.
    assert (take_byte [48] (String c d' +:+ r') = None) as ->.
    { apply take_byte_none. apply take_byte_none in E. exact E. }
    by rewrite (span_digits_app _ _ Hd (Hr eq_refl)).
Qed.

Lemma scan_frac_stage s d r :
  scan_frac s = Some (d, r) ->
  s = d +:+ r /\ stage scan_frac true [46] d /\ no_head [101; 69] d /\
  match d with EmptyString => True | String c _ => digit c = false end.
Proof.
  unfold scan_frac at 1. destruct (take_byte [46] s) as [[p r1]|] eqn:E.
  - apply take_byte_some in E as (a & -> & -> & (n & [<-|[]] & ->)%byte_at).
    destruct (span_digits r1) as [d' r'] eqn:Es. destruct (d' =?s "") eqn:Ed; [discriminate|].
    intros [= <- ->]. apply span_digits_spec in Es as (-> & Hd & _).
    split_and!; [done| |done|done]. split; [constructor; [done|by apply digits_num]|].
    intros r' _ Hr.
    change (scan_frac (String (Ascii.ascii_of_nat 46) (d' +:+ r')) =
            Some (String (Ascii.ascii_of_nat 46) d', r')).
    unfold scan_frac. rewrite take_byte_at by done. cbv beta iota.
    rewrite (span_digits_app _ _ Hd (Hr eq_refl)). by rewrite Ed.
  - intros [= <- <-]. split_and!; [done| |done|done]. split; [constructor|].
    intros r' Hr _. unfold scan_frac. simpl String.append.
    by apply take_byte_none in Hr as ->.
Qed.

Lemma scan_expo_stage s d r :
  scan_expo s = Some (d, r) ->
  s = d +:+ r /\ stage scan_expo true [101; 69] d /\ no_head [46] d /\
  match d with EmptyString => True | String c _ => digit c = false end.
Proof.
  unfold scan_expo at 1. destruct (take_byte [101; 69] s) as [[e r1]|] eqn:E.
  - apply take_byte_some in E as (a & -> & -> & Ha).
    destruct (take_byte [43; 45] r1) as [[sg r2]|] eqn:E2; cbn [from_option id].
    + apply take_byte_some in E2 as (b & -> & -> & Hb).
      destruct (span_digits r2) as [d' r'] eqn:Es. destruct (d' =?s "") eqn:Ed; [discriminate|].
      intros [= <- ->]. apply span_digits_spec in Es as (-> & Hd & _).
      pose proof (byte_at _ _ Ha) as (n & Hn & ->). pose proof (byte_at _ _ Hb) as (m & Hm & ->).
      split_and!; [done| |by destruct Hn as [<-|[<-|[]]]|by destruct Hn as [<-|[<-|[]]]].
      split.
      { constructor; [by destruct Hn as [<-|[<-|[]]]|]. constructor; [|by apply digits_num].
        by destruct Hm as [<-|[<-|[]]]. }
      intros r' _ Hr.
      change (scan_expo (String (Ascii.ascii_of_nat n) (String (Ascii.ascii_of_nat m) (d' +:+ r')))
        = Some (String (Ascii.ascii_of_nat n) (String (Ascii.ascii_of_nat m) d'), r')).
      unfold scan_expo. rewrite take_byte_at by done. cbv beta iota.
      rewrite take_byte_at by done. cbn [from_option id].
      rewrite (span_digits_app _ _ Hd (Hr eq_refl)). by rewrite Ed.
    + destruct (span_digits r1) as [d' r'] eqn:Es. destruct (d' =?s "") eqn:Ed; [discriminate|].
      intros [= <- ->]. apply span_digits_spec in Es as (-> & Hd & _).
      pose proof (byte_at _ _ Ha) as (n & Hn & ->).
      split_and!; [done| |by destruct Hn as [<-|[<-|[]]]|by destruct Hn as [<-|[<-|[]]]].
      split.
      { constructor; [by destruct Hn as [<-|[<-|[]]]|]. by apply digits_num. }
      intros r' _ Hr.
      change (scan_expo (String (Ascii.ascii_of_nat n) (d' +:+ r')) =
              Some (String (Ascii.ascii_of_nat n) d', r')).
      unfold scan_expo. rewrite take_byte_at by done. cbv beta iota.
      assert (take_byte [43; 45] (d' +:+ r') = None) as ->.
      { apply str_eqb_nil in Ed as (c & d'' & ->). apply take_byte_none.
        by apply take_byte_none in E2. }
      cbn [from_option id]. rewrite (span_digits_app _ _ Hd (Hr eq_refl)). by rewrite Ed.
  - intros [= <- <-]. split_and!; [done| |done|done]. split; [constructor|].
    intros r' Hr _. unfold scan_expo. simpl String.append.
    by apply take_byte_none in Hr as ->.
Qed.

Lemma delim_stage r :
  delim r -> no_head [46] r /\ no_head [101; 69] r /\
  match r with EmptyString => True | String c _ => digit c = false end.
Proof.
  destruct r as [|c r]; [done|]. intros H%delim_not_num. unfold num_byte in H.
  apply orb_false_iff in H as [H1 H2]. simpl in H2. rewrite !orb_false_iff in H2.
  simpl. rewrite !orb_false_iff. tauto.
Qed.

Lemma scan_number_text s n r :
  scan_number s = Some (n, r) -> s = n +:+ r /\ num_text n.
Proof.
  rewrite scan_number_stages. intros H.
  assert (exists sign s0, default ("", s) (take_byte [45] s) = (sign, s0) /\ s = sign +:+ s0
    /\ (sign = "" \/ sign = byte_str 45) /\ (sign = "" -> take_byte [45] s0 = None))
    as (sign & s0 & E & -> & Hsign & Hno).
  { destruct (take_byte [45] s) as [[a s']|] eqn:E.
    - apply take_byte_some in E as (b & -> & -> & (m & [<-|[]] & ->)%byte_at).
      repeat eexists; [by right|done].
    - exists "", s. repeat split; auto. }
  rewrite E in H. clear E. cbv beta iota in H.
  apply bind_Some in H as ([int s1] & E1 & H). apply scan_int_stage in E1 as (-> & [Bi Si] & Hi).
  apply bind_Some in H as ([frac s2] & E2 & H). apply scan_frac_stage in E2 as (-> & [Bf Sf] & Nf & Df).
  apply bind_Some in H as ([expo s3] & E3 & H). apply scan_expo_stage in E3 as (-> & [Be Se] & Ne & De).
  injection H as <- <-. split; [by rewrite !str_app_assoc|].
  destruct Hi as (c & d' & -> & Hc). split.
  - rewrite !all_bytes_app. split_and!; try done.
    destruct Hsign as [-> | ->]; by repeat constructor.
  - destruct Hsign as [-> | ->]; repeat eexists. by rewrite Hc, orb_true_r.
  - intros r' (D1 & D2 & D3)%delim_stage. rewrite scan_number_stages, !str_app_assoc.
    assert (default ("", sign +:+ String c d' +:+ frac +:+ expo +:+ r')
      (take_byte [45] (sign +:+ String c d' +:+ frac +:+ expo +:+ r'))
      = (sign, String c d' +:+ frac +:+ expo +:+ r')) as ->.
    { destruct Hsign as [-> | ->]; [|done].
      assert (take_byte [45] ("" +:+ String c d' +:+ frac +:+ expo +:+ r') = None) as ->; [|done].
      apply take_byte_none. by apply take_byte_none in Hno. }
    cbv beta iota.
    rewrite Si; [|by destruct (frac +:+ expo +:+ r')|intros _].
    + cbn [mbind option_bind]. rewrite Sf; [|by destruct expo|intros _; by destruct expo].
      cbn [mbind option_bind]. rewrite Se; [done..].
    + destruct frac; [|done]. by destruct expo.
Qed.

(** ** Texts *)

Definition b1 (n : nat) (x : string) : string := String (Ascii.ascii_of_nat n) x.
Definition ws (w : string) : Prop := all_bytes is_ws w.
Definition quoted (b : string) : string := String dquote (b +:+ String dquote "").

Inductive kind := KVal | KElems | KMembers.

(** [jtext k d p q]: [p] is, at nesting depth [d], a value, or the rest of a
    nonempty array or object with its closing bracket; [q] is [p] compacted. *)
Inductive jtext : kind -> N -> string -> string -> Prop :=
| jt_str d b c : sbody b c -> jtext KVal d (quoted b) (quoted c)
| jt_lit d l : In l ["null"; "true"; "false"] -> jtext KVal d l l
| jt_num d n : num_text n -> jtext KVal d n n
| jt_arr_nil d w : ws w -> (d < max_depth)%N -> jtext KVal d (b1 91 (w +:+ b1 93 "")) "[]"
| jt_arr d w p q :
    ws w -> (d < max_depth)%N -> jtext KElems (d + 1) p q ->
    jtext KVal d (b1 91 (w +:+ p)) (b1 91 q)
| jt_obj_nil d w : ws w -> (d < max_depth)%N -> jtext KVal d (b1 123 (w +:+ b1 125 "")) "{}"
| jt_obj d w p q :
    ws w -> (d < max_depth)%N -> jtext KMembers (d + 1) p q ->
    jtext KVal d (b1 123 (w +:+ p)) (b1 123 q)
| jt_last d v v' w :
    jtext KVal d v v' -> ws w -> jtext KElems d (v +:+ w +:+ b1 93 "") (v' +:+ b1 93 "")
| jt_more d v v' w1 w2 p q :
    jtext KVal d v v' -> ws w1 -> ws w2 -> jtext KElems d p q ->
    jtext KElems d (v +:+ w1 +:+ b1 44 (w2 +:+ p)) (v' +:+ b1 44 q)
| jt_last_m d k k' w1 w2 v v' w3 :
    sbody k k' -> ws w1 -> ws w2 -> jtext KVal d v v' -> ws w3 ->
    jtext KMembers d (quoted k +:+ w1 +:+ b1 58 (w2 +:+ v +:+ w3 +:+ b1 125 ""))
                     (quoted k' +:+ b1 58 (v' +:+ b1 125 ""))
| jt_more_m d k k' w1 w2 v v' w3 w4 p q :
    sbody k k' -> ws w1 -> ws w2 -> jtext KVal d v v' -> ws w3 -> ws w4 ->
    jtext KMembers d p q ->
    jtext KMembers d (quoted k +:+ w1 +:+ b1 58 (w2 +:+ v +:+ w3 +:+ b1 44 (w4 +:+ p)))
                     (quoted k' +:+ b1 58 (v' +:+ b1 44 q)).

Lemma ws_nil : ws "".
Proof. constructor. Qed.

Lemma quoted_app b r : quoted b +:+ r = String dquote (b +:+ String dquote r).
Proof. unfold quoted. simpl. f_equal. by rewrite str_app_assoc. Qed.

Lemma b1_app n x r : b1 n x +:+ r = b1 n (x +:+ r).
Proof. reflexivity. Qed.

(** Compacted texts are texts. *)
Lemma jtext_idem k d p q : jtext k d p q -> jtext k d q q.
Proof.
  induction 1; try (by constructor; eauto using sbody_idem).
  - apply (jt_arr_nil d ""); auto using ws_nil.
  - apply (jt_arr d ""); auto using ws_nil.
  - apply (jt_obj_nil d ""); auto using ws_nil.
  - apply (jt_obj d ""); auto using ws_nil.
  - apply (jt_last d v' v' ""); auto using ws_nil.
  - apply (jt_more d v' v' "" ""); auto using ws_nil.
  - apply (jt_last_m d k' k' "" "" v' v' ""); eauto using sbody_idem, ws_nil.
  - apply (jt_more_m d k' k' "" "" v' v' "" ""); eauto using sbody_idem, ws_nil.
Qed.

(** A text fits where a less deep one does. *)
Lemma jtext_depth k d d' p q : (d' <= d)%N -> jtext k d p q -> jtext k d' p q.
Proof.
  intros Hd H. revert d' Hd. induction H; intros d0 Hd;
    lazymatch goal with
    | |- jtext KVal _ (quoted _) _ => by apply jt_str
    | H : In _ _ |- _ => by apply jt_lit
    | H : num_text _ |- _ => by apply jt_num
    | |- jtext KVal _ (b1 91 (_ +:+ b1 93 "")) _ => apply jt_arr_nil; [done|lia]
    | |- jtext KVal _ (b1 123 (_ +:+ b1 125 "")) _ => apply jt_obj_nil; [done|lia]
    | |- jtext KVal _ (b1 91 _) _ => apply jt_arr; [done|lia|auto with lia]
    | |- jtext KVal _ (b1 123 _) _ => apply jt_obj; [done|lia|auto with lia]
    | _ => constructor; auto
    end.
Qed.

(** *** Compaction *)

Lemma cpt_ws w r : ws w -> cpt false (w +:+ r) = cpt false r.
Proof.
  intros H. induction w as [|c w IH]; [done|]. apply Forall_cons in H as [Hc H].
  change (String c w +:+ r) with (String c (w +:+ r)). rewrite cpt_eq. cbv zeta.
  assert (html (code c) = false /\ (code c =? 226) = false) as [H1 H2].
  { revert Hc. by destruct c as [[] [] [] [] [] [] [] []]; vm_compute. }
  unfold LS, PS. rewrite H1, !HasPrefix_226, Hc by done. by apply IH.
Qed.

Lemma cpt_b1 n r :
  n < 256 -> plain (Ascii.ascii_of_nat n) = true -> is_ws (Ascii.ascii_of_nat n) = false ->
  cpt false (b1 n r) = b1 n (cpt false r).
Proof. intros _. apply cpt_plain. Qed.

Lemma cpt_bytes s r :
  all_bytes (fun c => plain c && negb (is_ws c)) s -> cpt false (s +:+ r) = s +:+ cpt false r.
Proof.
  intros H. induction s as [|c s IH]; [done|].
  apply Forall_cons in H as [[H1 H2%negb_true_iff]%andb_true_iff H].
  change (cpt false (String c (s +:+ r)) = String c (s +:+ cpt false r)).
  by rewrite cpt_plain, IH.
Qed.

Lemma cpt_quoted b c r : sbody b c -> cpt false (quoted b +:+ r) = quoted c +:+ cpt false r.
Proof.
  intros H. rewrite !quoted_app, cpt_eq. cbv zeta.
  change (html (code dquote)) with false. change (code dquote =? 34) with true.
  change (is_ws dquote) with false. unfold LS, PS. rewrite !HasPrefix_226 by done.
  by rewrite (sbody_compact b c).
Qed.

Lemma num_plain c : num_byte c = true -> plain c && negb (is_ws c) = true.
Proof. by destruct c as [[] [] [] [] [] [] [] []]; vm_compute. Qed.

Lemma jtext_compact k d p q r : jtext k d p q -> cpt false (p +:+ r) = q +:+ cpt false r.
Proof.
  intros H. revert r.
  induction H; intros r; rewrite ?str_app_assoc, ?b1_app, ?str_app_assoc, ?b1_app, ?str_app_assoc, ?b1_app, ?str_app_assoc;
    repeat first
      [ rewrite cpt_ws by done | rewrite (cpt_quoted _ _ _ ltac:(eassumption))
      | rewrite cpt_b1 by (lia || done)
      | match goal with IH : forall r, cpt false (_ +:+ r) = _ |- _ => rewrite IH end ];
    try done.
  - apply cpt_bytes. destruct H as [<-|[<-|[<-|[]]]]; by repeat constructor.
  - apply cpt_bytes. destruct H as [H _ _]. eapply Forall_impl; [exact H|]. apply num_plain.
Qed.

(** *** The parser *)

Lemma skip_ws_app w r : ws w -> skip_ws (w +:+ r) = skip_ws r.
Proof.
  intros H. induction w as [|c w IH]; [done|]. apply Forall_cons in H as [Hc H].
  simpl. by rewrite Hc, IH.
Qed.

Lemma skip_ws_split s : exists w, s = w +:+ skip_ws s /\ ws w.
Proof.
  induction s as [|c s (w & E & Hw)]; [exists ""; split; [done|constructor]|].
  simpl. destruct (is_ws c) eqn:Hc; [|exists ""; split; [done|constructor]].
  exists (String c w). split; [simpl; by f_equal|by constructor].
Qed.

Lemma skip_ws_length s : String.length (skip_ws s) <= String.length s.
Proof. destruct (skip_ws_split s) as (w & E & _). rewrite E at 2. rewrite str_length_app. lia. Qed.

(** The bytes a value starts with. *)
Definition vhead (c : Ascii.ascii) : bool :=
  existsb (fun n => is_c n c) [34; 45; 91; 102; 110; 116; 123] || digit c.

Lemma vhead_facts c :
  vhead c = true ->
  is_ws c = false /\ existsb (fun n => is_c n c) [93] = false
  /\ existsb (fun n => is_c n c) [125] = false.
Proof. by destruct c as [[] [] [] [] [] [] [] []]; vm_compute. Qed.

Lemma jtext_head k d p q : jtext k d p q -> exists c p', p = String c p' /\ vhead c = true.
Proof.
  induction 1; try (by repeat eexists);
    try (by match goal with IH : exists _ _, _ |- _ => destruct IH as (? & ? & -> & ?); repeat eexists end).
  - destruct H as [<-|[<-|[<-|[]]]]; by repeat eexists.
  - destruct (num_head _ H) as (c & n' & -> & Hc). exists c, n'. split; [done|].
    revert Hc. unfold vhead. simpl. destruct (is_c 45 c), (digit c); rewrite ?orb_true_r; done.
  - destruct IHjtext1 as (c & p' & -> & Hc). by repeat eexists.
Qed.

Lemma jtext_skip k d p q r :
  jtext k d p q ->
  skip_ws (p +:+ r) = p +:+ r /\ take_byte [93] (p +:+ r) = None
  /\ take_byte [125] (p +:+ r) = None.
Proof.
  intros (c & p' & -> & (H1 & H2 & H3)%vhead_facts)%jtext_head.
  split_and!; [simpl; by rewrite H1|by apply take_byte_none..].
Qed.

Lemma pval_arr f d r :
  pval (S f) d (b1 91 r) =
    if (max_depth <=? d)%N then None else
    match take_byte [93] (skip_ws r) with
    | Some (_, rest) => Some (JArr [], rest)
    | None => '(l, rest) ← pelems f (d + 1) (skip_ws r); Some (JArr (map fst l), rest)
    end.
Proof. reflexivity. Qed.

Lemma pval_obj f d r :
  pval (S f) d (b1 123 r) =
    if (max_depth <=? d)%N then None else
    match take_byte [125] (skip_ws r) with
    | Some (_, rest) => Some (JObj [], rest)
    | None => '(l, rest) ← pmembers f (d + 1) (skip_ws r);
              Some (JObj (foldl (fun m kv => sorted_insert kv.1 kv.2.1 m) [] l), rest)
    end.
Proof. reflexivity. Qed.

Lemma pelems_S f d s :
  pelems (S f) d s =
    ('(v, r) ← pval f d s;
     let raw := str_take (String.length s - String.length r) s in
     match take_byte [93] (skip_ws r) with
     | Some (_, rest) => Some ([(v, raw)], rest)
     | None =>
         '(_, r) ← take_byte [44] (skip_ws r);
         '(l, rest) ← pelems f d (skip_ws r);
         Some ((v, raw) :: l, rest)
     end).
Proof. reflexivity. Qed.

Lemma pmembers_S f d s :
  pmembers (S f) d s =
    ('(_, r) ← take_byte [34] s;
     '(k, r) ← scan_str r;
     '(_, r) ← take_byte [58] (skip_ws r);
     '(v, r') ← pval f d (skip_ws r);
     let raw := str_take (String.length (skip_ws r) - String.length r') (skip_ws r) in
     match take_byte [125] (skip_ws r') with
     | Some (_, rest) => Some ([(unquote k, (v, raw))], rest)
     | None =>
         '(_, r') ← take_byte [44] (skip_ws r');
         '(l, rest) ← pmembers f d (skip_ws r');
         Some ((unquote k, (v, raw)) :: l, rest)
     end).
Proof. reflexivity. Qed.

Lemma pval_num f d c n r :
  (is_c 45 c || digit c) = true ->
  pval (S f) d (String c n +:+ r) =
    ('(n, rest) ← scan_number (String c n +:+ r); Some (JNum n, rest)).
Proof.
  intros H. change (String c n +:+ r) with (String c (n +:+ r)). cbn [pval].
  assert (is_c 34 c = false /\ is_c 91 c = false /\ is_c 123 c = false /\
    Ascii.eqb (Ascii.ascii_of_nat 110) c = false /\ Ascii.eqb (Ascii.ascii_of_nat 116) c = false
    /\ Ascii.eqb (Ascii.ascii_of_nat 102) c = false) as (E1 & E2 & E3 & E4 & E5 & E6).
  { revert H. by destruct c as [[] [] [] [] [] [] [] []]; vm_compute. }
  assert (L : forall m p, Ascii.eqb (Ascii.ascii_of_nat m) c = false ->
              HasPrefix (String c (n +:+ r)) (b1 m p) = false).
  { intros m p E. change (Ascii.eqb (Ascii.ascii_of_nat m) c && HasPrefix (n +:+ r) p = false).
    by rewrite E. }
  rewrite E1, E2, E3. unfold b1 in L.
  change "null" with (b1 110 "ull"). change "true" with (b1 116 "rue").
  change "false" with (b1 102 "alse"). unfold b1. by rewrite !L.
Qed.

Definition parses (k : kind) (d : N) (p : string) : Prop :=
  match k with
  | KVal => exists v, forall f r, 2 * String.length p <= f -> delim r ->
              pval f d (p +:+ r) = Some (v, r)
  | KElems => exists l, forall f r, 2 * String.length p + 1 <= f ->
              pelems f d (p +:+ r) = Some (l, r)
  | KMembers => exists l, forall f r, 2 * String.length p + 1 <= f ->
              pmembers f d (p +:+ r) = Some (l, r)
  end.

Lemma delim_ws w n r : ws w -> n < 256 -> delim_byte (Ascii.ascii_of_nat n) = true ->
  delim (w +:+ b1 n r).
Proof. intros Hw _ Hn. destruct w as [|c w]; [done|]. apply Forall_cons in Hw as [Hc _].
  unfold delim. simpl. unfold delim_byte. by rewrite Hc. Qed.

Lemma skip_ws_b1 w n r :
  ws w -> is_ws (Ascii.ascii_of_nat n) = false -> skip_ws (w +:+ b1 n r) = b1 n r.
Proof. intros Hw Hn. rewrite skip_ws_app by done. unfold b1. simpl. by rewrite Hn. Qed.

Lemma take_b1 ns n r :
  existsb (fun m => is_c m (Ascii.ascii_of_nat n)) ns = true ->
  take_byte ns (b1 n r) = Some (byte_str n, r).
Proof. apply take_byte_at. Qed.

Lemma take_b1_none ns n r :
  existsb (fun m => is_c m (Ascii.ascii_of_nat n)) ns = false -> take_byte ns (b1 n r) = None.
Proof. intros H. by apply take_byte_none. Qed.

(** One element and the byte after it. *)
Lemma pelems_value f d v x w n r :
  ws w -> (n = 44 \/ n = 93) ->
  (forall r', delim r' -> pval f d (v +:+ r') = Some (x, r')) ->
  pelems (S f) d (v +:+ w +:+ b1 n r) =
    if n =? 93 then Some ([(x, v)], r)
    else '(l, rest) ← pelems f d (skip_ws r); Some ((x, v) :: l, rest).
Proof.
  intros Hw Hn Hv. rewrite pelems_S, Hv by (apply delim_ws; by destruct Hn as [-> | ->]; (done || lia)).
  cbn [mbind option_bind]. cbv zeta. rewrite str_take_raw.
  rewrite skip_ws_b1 by (by destruct Hn as [-> | ->]).
  destruct Hn as [-> | ->].
  - rewrite take_b1_none, take_b1 by done. done.
  - rewrite take_b1 by done. done.
Qed.

(** One member and the byte after it. *)
Lemma pmembers_value f d k k' w1 w2 v x c v' w n r :
  sbody k k' -> ws w1 -> ws w2 -> ws w -> (n = 44 \/ n = 125) -> v = String c v' ->
  vhead c = true ->
  (forall r', delim r' -> pval f d (v +:+ r') = Some (x, r')) ->
  pmembers (S f) d (quoted k +:+ w1 +:+ b1 58 (w2 +:+ v +:+ w +:+ b1 n r)) =
    if n =? 125 then Some ([(unquote k, (x, v))], r)
    else '(l, rest) ← pmembers f d (skip_ws r); Some ((unquote k, (x, v)) :: l, rest).
Proof.
  intros Hk Hw1 Hw2 Hw Hn Ev Hc Hv. rewrite pmembers_S, quoted_app.
  rewrite take_byte_at by done. cbn [mbind option_bind].
  rewrite (sbody_scan k k') by done. cbn [mbind option_bind].
  rewrite skip_ws_b1, take_b1 by done. cbn [mbind option_bind].
  assert (skip_ws (w2 +:+ v +:+ w +:+ b1 n r) = v +:+ w +:+ b1 n r) as ->.
  { rewrite skip_ws_app by done. subst v. apply vhead_facts in Hc as (Hc & _).
    simpl. by rewrite Hc. }
  rewrite Hv by (apply delim_ws; by destruct Hn as [-> | ->]; (done || lia)).
  cbn [mbind option_bind]. cbv zeta. rewrite str_take_raw.
  rewrite skip_ws_b1 by (by destruct Hn as [-> | ->]).
  destruct Hn as [-> | ->].
  - rewrite take_b1_none, take_b1 by done. done.
  - rewrite take_b1 by done. done.
Qed.

Lemma pval_quoted f d k k' r :
  sbody k k' -> pval (S f) d (quoted k +:+ r) = Some (JStr (unquote k), r).
Proof.
  intros Hk. rewrite quoted_app. cbn [pval].
  change (is_c 34 dquote) with true. cbv iota. by rewrite (sbody_scan k k').
Qed.

Lemma pval_word f d c s :
  existsb (fun n => is_c n c) [102; 110; 116] = true ->
  pval (S f) d (String c s) =
    if HasPrefix (String c s) "null" then Some (JNull, str_drop 4 (String c s))
    else if HasPrefix (String c s) "true" then Some (JBool true, str_drop 4 (String c s))
    else if HasPrefix (String c s) "false" then Some (JBool false, str_drop 5 (String c s))
    else '(n, rest) ← scan_number (String c s); Some (JNum n, rest).
Proof.
  intros (n & [<-|[<-|[<-|[]]]] & ->%is_c_eq)%existsb_exists; reflexivity.
Qed.

Lemma pval_lit d l :
  In l ["null"; "true"; "false"] ->
  exists v, forall f r, pval (S f) d (l +:+ r) = Some (v, r).
Proof.
  intros H.
  assert (L : forall p r, HasPrefix (p +:+ r) p = true) by (intros; apply HasPrefix_spec; eauto).
  destruct H as [<-|[<-|[<-|[]]]]; eexists; intros f r.
  - pose proof (pval_word f d (Ascii.ascii_of_nat 110) ("ull" +:+ r) eq_refl) as E.
    change (String _ ("ull" +:+ r)) with ("null" +:+ r) in E. rewrite L in E. exact E.
  - pose proof (pval_word f d (Ascii.ascii_of_nat 116) ("rue" +:+ r) eq_refl) as E.
    change (String _ ("rue" +:+ r)) with ("true" +:+ r) in E. rewrite (L "true") in E. exact E.
  - pose proof (pval_word f d (Ascii.ascii_of_nat 102) ("alse" +:+ r) eq_refl) as E.
    change (String _ ("alse" +:+ r)) with ("false" +:+ r) in E. rewrite (L "false") in E. exact E.
Qed.

Lemma fuel_S f n : S n <= f -> exists f', f = S f' /\ n <= f'.
Proof. destruct f as [|f]; [lia|]. intros. exists f. split; [done|lia]. Qed.

Lemma jtext_parse k d p q : jtext k d p q -> parses k d p.
Proof.
  induction 1 as [d b c Hb|d l Hl|d n Hn|d w Hw Hd|d w p q Hw Hd Hp (l & IH)|d w Hw Hd
    |d w p q Hw Hd Hp (l & IH)|d v v' w Hv (x & IH) Hw|d v v' w1 w2 p q Hv (x & IHv) Hw1 Hw2 Hp (l & IH)
    |d k k' w1 w2 v v' w3 Hk Hw1 Hw2 Hv (x & IH) Hw3
    |d k k' w1 w2 v v' w3 w4 p q Hk Hw1 Hw2 Hv (x & IHv) Hw3 Hw4 Hp (l & IH)]; cbn [parses].
  - eexists. intros f r Hf _. destruct (fuel_S f 0) as (f' & -> & _).
    { unfold quoted in Hf. simpl in Hf. rewrite str_length_app in Hf. simpl in Hf. lia. }
    by rewrite (pval_quoted _ _ b c).
  - destruct (pval_lit d l Hl) as [v E]. exists v. intros f r Hf _.
    destruct f as [|f]; [by destruct Hl as [<-|[<-|[<-|[]]]]; simpl in Hf; lia|]. apply E.
  - eexists. intros f r Hf Hr. destruct (num_head _ Hn) as (c & n' & -> & Hc).
    destruct f as [|f]; [simpl in Hf; lia|].
    rewrite pval_num, (num_scan _ Hn) by done. done.
  - eexists. intros f r Hf Hr. rewrite b1_app, str_app_assoc, b1_app.
    destruct f as [|f]; [simpl in Hf; lia|]. rewrite pval_arr.
    rewrite (proj2 (N.leb_gt _ _)) by done. rewrite skip_ws_b1, take_b1 by done. done.
  - eexists. intros f r Hf Hr. rewrite b1_app, str_app_assoc.
    simpl in Hf. rewrite str_length_app in Hf.
    destruct f as [|f]; [lia|]. rewrite pval_arr.
    rewrite (proj2 (N.leb_gt _ _)) by done. rewrite skip_ws_app by done.
    destruct (jtext_skip _ _ _ _ r Hp) as (-> & -> & _). rewrite IH by lia. done.
  - eexists. intros f r Hf Hr. rewrite b1_app, str_app_assoc, b1_app.
    destruct f as [|f]; [simpl in Hf; lia|]. rewrite pval_obj.
    rewrite (proj2 (N.leb_gt _ _)) by done. rewrite skip_ws_b1, take_b1 by done. done.
  - eexists. intros f r Hf Hr. rewrite b1_app, str_app_assoc.
    simpl in Hf. rewrite str_length_app in Hf.
    destruct f as [|f]; [lia|]. rewrite pval_obj.
    rewrite (proj2 (N.leb_gt _ _)) by done. rewrite skip_ws_app by done.
    destruct (jtext_skip _ _ _ _ r Hp) as (-> & _ & ->). rewrite IH by lia. done.
  - eexists. intros f r Hf. rewrite !str_app_assoc, b1_app.
    rewrite !str_length_app in Hf. simpl in Hf. destruct (fuel_S f (2 * String.length v)) as (f' & -> & ?); [lia|].
    rewrite (pelems_value f' d v x w 93) by (auto || (intros; apply IH; [lia|done])). done.
  - eexists. intros f r Hf. rewrite !str_app_assoc, b1_app, str_app_assoc.
    rewrite !str_length_app in Hf. simpl in Hf. rewrite str_length_app in Hf.
    destruct f as [|f]; [lia|].
    rewrite (pelems_value f d v x w1 44) by (auto || (intros; apply IHv; [lia|done])).
    rewrite skip_ws_app by done. destruct (jtext_skip _ _ _ _ r Hp) as (-> & _ & _).
    simpl. rewrite IH by lia. done.
  - eexists. intros f r Hf. rewrite !str_app_assoc, b1_app, !str_app_assoc, b1_app.
    rewrite !str_length_app in Hf. simpl in Hf. rewrite !str_length_app in Hf.
    destruct f as [|f]; [lia|]. destruct (jtext_head _ _ _ _ Hv) as (c & v0 & Ev & Hc).
    rewrite (pmembers_value f d k k' w1 w2 v x c v0 w3 125) by (auto || (intros; apply IH; [lia|done])).
    done.
  - eexists. intros f r Hf. rewrite !str_app_assoc, b1_app, !str_app_assoc, b1_app, !str_app_assoc.
    rewrite !str_length_app in Hf. simpl in Hf. rewrite !str_length_app in Hf.
    simpl in Hf. rewrite str_length_app in Hf.
    destruct f as [|f]; [lia|]. destruct (jtext_head _ _ _ _ Hv) as (c & v0 & Ev & Hc).
    rewrite (pmembers_value f d k k' w1 w2 v x c v0 w3 44) by (auto || (intros; apply IHv; [lia|done])).
    rewrite skip_ws_app by done. destruct (jtext_skip _ _ _ _ r Hp) as (-> & _ & _).
    simpl. rewrite IH by lia. done.
Qed.

(** What the parser accepts is in the grammar, element by element. *)
Definition is_value (d : N) (raw : string) : Prop := exists q, jtext KVal d raw q.

Lemma is_value_depth d d' s : (d' <= d)%N -> is_value d s -> is_value d' s.
Proof. intros H [q Hq]. exists q. by eapply jtext_depth. Qed.

Definition reads (k : kind) (d : N) (s r : string) : Prop :=
  exists p q, s = p +:+ r /\ jtext k d p q.

Lemma take_byte_split n s c r :
  take_byte [n] s = Some (c, r) -> s = b1 n r.
Proof. by intros (a & -> & -> & (m & [<-|[]] & ->)%byte_at)%take_byte_some. Qed.

Lemma pval_reads_lit (v v' : json) d s r l :
  In l ["null"; "true"; "false"] -> HasPrefix s l = true ->
  Some (v, str_drop (String.length l) s) = Some (v', r) -> reads KVal d s r.
Proof.
  intros Hl [t ->]%HasPrefix_spec [= _ <-]. rewrite str_drop_app.
  exists l, l. split; [done|]. by apply jt_lit.
Qed.

Lemma pval_jtext f :
  (forall d s v r, pval f d s = Some (v, r) -> reads KVal d s r)
  /\ (forall d s l r, pelems f d s = Some (l, r) ->
        reads KElems d s r /\ Forall (fun x => is_value d x.2) l)
  /\ (forall d s l r, pmembers f d s = Some (l, r) ->
        reads KMembers d s r
        /\ Forall (fun kv => is_value d kv.2.2 /\ exists b c, sbody b c /\ kv.1 = unquote b) l).
Proof.
  induction f as [|f (IHv & IHe & IHm)]; [done|]. split_and!.
  - intros d [|c s] v r H; [done|]. cbn [pval] in H.
    destruct (is_c 34 c) eqn:E34.
    { apply is_c_eq in E34 as ->. apply bind_Some in H as ([b r'] & (-> & k & Hk)%scan_sbody & [= _ <-]).
      exists (quoted b), (quoted k). split; [by rewrite quoted_app|by apply jt_str]. }
    destruct (is_c 91 c) eqn:E91.
    { apply is_c_eq in E91 as ->. destruct (N.leb_spec max_depth d) as [|Hd]; [discriminate|].
      destruct (skip_ws_split s) as (w & Es & Hw).
      destruct (take_byte [93] (skip_ws s)) as [[x r']|] eqn:Et.
      - apply take_byte_split in Et. injection H as [= _ <-]. rewrite Es, Et.
        exists (b1 91 (w +:+ b1 93 "")), "[]". split; [|by apply jt_arr_nil].
        unfold b1. simpl. f_equal. by rewrite str_app_assoc.
      - apply bind_Some in H as ([l r'] & [(p & q & E & Hp) _]%IHe & [= _ <-]). rewrite Es, E.
        exists (b1 91 (w +:+ p)), (b1 91 q). split; [|by apply jt_arr].
        unfold b1. simpl. f_equal. by rewrite str_app_assoc. }
    destruct (is_c 123 c) eqn:E123.
    { apply is_c_eq in E123 as ->. destruct (N.leb_spec max_depth d) as [|Hd]; [discriminate|].
      destruct (skip_ws_split s) as (w & Es & Hw).
      destruct (take_byte [125] (skip_ws s)) as [[x r']|] eqn:Et.
      - apply take_byte_split in Et. injection H as [= _ <-]. rewrite Es, Et.
        exists (b1 123 (w +:+ b1 125 "")), "{}". split; [|by apply jt_obj_nil].
        unfold b1. simpl. f_equal. by rewrite str_app_assoc.
      - apply bind_Some in H as ([l r'] & [(p & q & E & Hp) _]%IHm & [= _ <-]). rewrite Es, E.
        exists (b1 123 (w +:+ p)), (b1 123 q). split; [|by apply jt_obj].
        unfold b1. simpl. f_equal. by rewrite str_app_assoc. }
    destruct (HasPrefix (String c s) "null") eqn:En.
    { eapply (pval_reads_lit _ v d _ r "null"); eauto. simpl. auto. }
    destruct (HasPrefix (String c s) "true") eqn:Et.
    { eapply (pval_reads_lit _ v d _ r "true"); eauto. simpl. auto. }
    destruct (HasPrefix (String c s) "false") eqn:Ef.
    { eapply (pval_reads_lit _ v d _ r "false"); eauto. simpl. auto. }
    apply bind_Some in H as ([n r'] & [E Hn]%scan_number_text & [= _ <-]).
    exists n, n. split; [done|by apply jt_num].
  - intros d s l r H. rewrite pelems_S in H.
    apply bind_Some in H as ([v r1] & (p & q & -> & Hp)%IHv & H).
    cbv zeta in H. rewrite str_take_raw in H. destruct (skip_ws_split r1) as (w & Er & Hw).
    destruct (take_byte [93] (skip_ws r1)) as [[x r']|] eqn:Et.
    + apply take_byte_split in Et. injection H as <- <-. rewrite Er, Et. split.
      * exists (p +:+ w +:+ b1 93 ""), (q +:+ b1 93 ""). split; [by rewrite !str_app_assoc|].
        by apply jt_last.
      * constructor; [by exists q|constructor].
    + apply bind_Some in H as ([x r2] & E2%take_byte_split & H).
      apply bind_Some in H as ([l' r3] & [(p' & q' & E3 & Hp') Hl]%IHe & [= <- <-]).
      destruct (skip_ws_split r2) as (w2 & Er2 & Hw2).
      rewrite Er, E2, Er2, E3. split.
      * exists (p +:+ w +:+ b1 44 (w2 +:+ p')), (q +:+ b1 44 q').
        split; [by rewrite !str_app_assoc, b1_app, str_app_assoc|]. by apply jt_more.
      * constructor; [by exists q|done].
  - intros d s l r H. rewrite pmembers_S in H.
    apply bind_Some in H as ([x r0] & ->%take_byte_split & H).
    apply bind_Some in H as ([k r1] & (-> & k' & Hk)%scan_sbody & H).
    apply bind_Some in H as ([x1 r2] & E1%take_byte_split & H).
    apply bind_Some in H as ([v r3] & (p & q & E2 & Hp)%IHv & H).
    rewrite E2 in H. cbv zeta in H. rewrite str_take_raw in H.
    destruct (skip_ws_split r1) as (w1 & Er1 & Hw1). destruct (skip_ws_split r2) as (w2 & Er2 & Hw2).
    destruct (skip_ws_split r3) as (w3 & Er3 & Hw3). rewrite E1, Er2, E2, Er3 in Er1. 
    change (b1 34 (k +:+ String dquote r1)) with (String dquote (k +:+ String dquote r1)).
    rewrite <- quoted_app, Er1.
    destruct (take_byte [125] (skip_ws r3)) as [[x' r']|] eqn:Et.
    + apply take_byte_split in Et. injection H as <- <-. rewrite Et. split.
      * exists (quoted k +:+ w1 +:+ b1 58 (w2 +:+ p +:+ w3 +:+ b1 125 "")),
          (quoted k' +:+ b1 58 (q +:+ b1 125 "")).
        split; [by rewrite !str_app_assoc, b1_app, !str_app_assoc|]. by apply jt_last_m.
      * constructor; [|constructor]. split; [by exists q|by eauto].
    + apply bind_Some in H as ([x' r4] & E4%take_byte_split & H).
      apply bind_Some in H as ([l' r5] & [(p' & q' & E5 & Hp') Hl]%IHm & [= <- <-]).
      destruct (skip_ws_split r4) as (w4 & Er4 & Hw4).
      rewrite E4, Er4, E5. split.
      * exists (quoted k +:+ w1 +:+ b1 58 (w2 +:+ p +:+ w3 +:+ b1 44 (w4 +:+ p'))),
          (quoted k' +:+ b1 58 (q +:+ b1 44 q')).
        split; [by rewrite !str_app_assoc, b1_app, !str_app_assoc, b1_app, !str_app_assoc|].
        by apply jt_more_m.
      * constructor; [|done]. split; [by exists q|by eauto].
Qed.
