(* ===== verification/JsonStrings.v ===== *)
(** * Strings through [json.Marshal] and [json.Unmarshal]

    Decoding and encoding UTF-8 are inverse on valid sequences ([decode_rune_valid],
    [decode_encode]); what [unquote] returns is valid UTF-8 ([unquote_utf8]), and a
    valid string comes back from its literal ([unquote_quote]), which is a text of
    the grammar that compaction leaves alone ([quote_sbody]). *)

From S2P Require Import Prelude Json JsonCodec JsonGrammar.
Local Open Scope string_scope.
Local Open Scope nat_scope.
Local Open Scope list_scope.
Local Open Scope go_scope.

(** ** UTF-8 *)

Definition bad_rune (rw : Z * nat) : bool := (rw.1 =? 65533)%Z && (rw.2 =? 1).

Lemma ascii_eq c n : code c = n -> c = Ascii.ascii_of_nat n.
Proof. intros <-. by rewrite of_nat_code. Qed.

Lemma byte_eq c z : Z.of_nat (code c) = z -> Ascii.ascii_of_nat (Z.to_nat z) = c.
Proof. intros <-. by rewrite Nat2Z.id, of_nat_code. Qed.

Ltac nat_bools :=
  repeat match goal with
  | H : in_range _ _ _ = true |- _ => unfold in_range in H
  | H : in_range _ _ _ = false |- _ => unfold in_range in H
  | H : (_ && _)%bool = true |- _ => apply andb_true_iff in H; destruct H
  | H : (_ && _)%bool = false |- _ => apply andb_false_iff in H
  | H : (_ <=? _) = true |- _ => apply Nat.leb_le in H
  | H : (_ <=? _) = false |- _ => apply Nat.leb_gt in H
  | H : (_ <? _) = true |- _ => apply Nat.ltb_lt in H
  | H : (_ <? _) = false |- _ => apply Nat.ltb_ge in H
  | H : (_ =? _) = true |- _ => apply Nat.eqb_eq in H
  | H : (_ =? _) = false |- _ => apply Nat.eqb_neq in H
  end.
Ltac Zify.zify_post_hook ::= Z.to_euclidean_division_equations.

Definition bytes2 (a b : Ascii.ascii) : string := String a (String b "").
Definition bytes3 (a b c : Ascii.ascii) : string := String a (bytes2 b c).
Definition bytes4 (a b c d : Ascii.ascii) : string := String a (bytes3 b c d).

Lemma encode_rune_1 a : code a < 128 -> encode_rune (Z.of_nat (code a)) = String a "".
Proof.
  intros H. unfold encode_rune.
  replace ((Z.of_nat (code a) <? 0) || (1114111 <? Z.of_nat (code a))
    || (55296 <=? Z.of_nat (code a)) && (Z.of_nat (code a) <=? 57343))%Z%bool with false by lia.
  replace (Z.of_nat (code a) <? 128)%Z with true by lia.
  cbn [bytes_str foldr]. f_equal. by apply byte_eq.
Qed.

Lemma encode_rune_2 a b :
  194 <= code a <= 223 -> 128 <= code b <= 191 ->
  encode_rune (Z.of_nat (code a - 192) * 64 + Z.of_nat (code b - 128))%Z = bytes2 a b.
Proof.
  intros Ha Hb. set (r := (_ + _)%Z). unfold encode_rune.
  replace ((r <? 0) || (1114111 <? r) || (55296 <=? r) && (r <=? 57343))%Z%bool with false by lia.
  replace (r <? 128)%Z with false by lia. replace (r <? 2048)%Z with true by lia.
  cbn [bytes_str foldr]. unfold bytes2. f_equal; [|f_equal]; apply byte_eq; lia.
Qed.

Lemma encode_rune_3 a b c :
  224 <= code a <= 239 -> (code a = 224 -> 160 <= code b) -> (code a = 237 -> code b <= 159) ->
  128 <= code b <= 191 -> 128 <= code c <= 191 ->
  encode_rune (Z.of_nat (code a - 224) * 4096 + Z.of_nat (code b - 128) * 64
               + Z.of_nat (code c - 128))%Z = bytes3 a b c.
Proof.
  intros Ha H1 H2 Hb Hc. set (r := (_ + _)%Z). unfold encode_rune.
  replace ((r <? 0) || (1114111 <? r) || (55296 <=? r) && (r <=? 57343))%Z%bool with false by lia.
  replace (r <? 128)%Z with false by lia. replace (r <? 2048)%Z with false by lia.
  replace (r <? 65536)%Z with true by lia.
  cbn [bytes_str foldr]. unfold bytes3, bytes2.
  f_equal; [|f_equal; [|f_equal]]; apply byte_eq; lia.
Qed.

Lemma encode_rune_4 a b c d :
  240 <= code a <= 244 -> (code a = 240 -> 144 <= code b) -> (code a = 244 -> code b <= 143) ->
  128 <= code b <= 191 -> 128 <= code c <= 191 -> 128 <= code d <= 191 ->
  encode_rune (Z.of_nat (code a - 240) * 262144 + Z.of_nat (code b - 128) * 4096
               + Z.of_nat (code c - 128) * 64 + Z.of_nat (code d - 128))%Z = bytes4 a b c d.
Proof.
  intros Ha H1 H2 Hb Hc Hd. set (r := (_ + _)%Z). unfold encode_rune.
  replace ((r <? 0) || (1114111 <? r) || (55296 <=? r) && (r <=? 57343))%Z%bool with false by lia.
  replace (r <? 128)%Z with false by lia. replace (r <? 2048)%Z with false by lia.
  replace (r <? 65536)%Z with false by lia.
  cbn [bytes_str foldr]. unfold bytes4, bytes3, bytes2.
  f_equal; [|f_equal; [|f_equal; [|f_equal]]]; apply byte_eq; lia.
Qed.

Lemma in_range_true lo hi n : lo <= n <= hi -> in_range lo hi n = true.
Proof. intros H. unfold in_range. apply andb_true_iff. rewrite !Nat.leb_le. lia. Qed.
Lemma in_range_false lo hi n : n < lo \/ hi < n -> in_range lo hi n = false.
Proof. intros H. unfold in_range. apply andb_false_iff. rewrite !Nat.leb_gt. lia. Qed.

(** A sequence that decodes is the encoding of its rune, whatever follows. *)
Lemma decode_rune_valid c s r w :
  decode_rune (String c s) = (r, w) -> bad_rune (r, w) = false ->
  exists u t, String c s = u +:+ t /\ w = String.length u /\ encode_rune r = u
    /\ str_drop w (String c s) = t /\ all_bytes (fun b => in_range 128 191 (code b)) (str_drop 1 u)
    /\ forall t', decode_rune (u +:+ t') = (r, w).
Proof.
  unfold bad_rune. cbn [decode_rune fst snd]. cbv zeta.
  destruct (code c <? 128) eqn:E1.
  { intros [= <- <-] _. exists (String c ""), s. split_and!; try done; try by constructor.
    - apply encode_rune_1. by apply Nat.ltb_lt.
    - intros t'. lazymatch goal with |- _ = ?y => change (decode_rune (String c t') = y) end.
      cbn [decode_rune]. cbv zeta. by rewrite E1. }
  destruct (in_range 194 223 (code c)) eqn:E2.
  { destruct s as [|b s]; [by intros [= <- <-]|].
    destruct (in_range 128 191 (code b)) eqn:Eb; [|by intros [= <- <-]].
    intros [= <- <-] _. exists (bytes2 c b), s. split_and!; try done;
      try (by repeat constructor; apply in_range_true; repeat case_match; nat_bools; lia).
    - nat_bools. apply encode_rune_2; lia.
    - intros t'. lazymatch goal with |- _ = ?y => change (decode_rune (String c (String b t')) = y) end.
      cbn [decode_rune]. cbv zeta. by rewrite E1, E2, Eb. }
  destruct (in_range 224 239 (code c)) eqn:E3.
  { destruct s as [|b [|d s]]; try (by intros [= <- <-]).
    destruct (in_range _ _ (code b) && in_range 128 191 (code d)) eqn:Eb; [|by intros [= <- <-]].
    intros [= <- <-] _. exists (bytes3 c b d), s. split_and!; try done;
      try (by repeat constructor; apply in_range_true; repeat case_match; nat_bools; lia).
    - apply encode_rune_3; repeat case_match; nat_bools; lia.
    - intros t'. lazymatch goal with |- _ = ?y => change (decode_rune (String c (String b (String d t'))) = y) end.
      cbn [decode_rune]. cbv zeta. by rewrite E1, E2, E3, Eb. }
  destruct (in_range 240 244 (code c)) eqn:E4; [|by intros [= <- <-]].
  destruct s as [|b [|d [|e s]]]; try (by intros [= <- <-]).
  destruct (in_range _ _ (code b) && in_range 128 191 (code d) && in_range 128 191 (code e)) eqn:Eb;
    [|by intros [= <- <-]].
  intros [= <- <-] _. exists (bytes4 c b d e), s. split_and!; try done;
      try (by repeat constructor; apply in_range_true; repeat case_match; nat_bools; lia).
  - apply encode_rune_4; repeat case_match; nat_bools; lia.
  - intros t'. lazymatch goal with |- _ = ?y => change (decode_rune (String c (String b (String d (String e t')))) = y) end.
      cbn [decode_rune]. cbv zeta. by rewrite E1, E2, E3, E4, Eb.
Qed.

Lemma code_byte z : (0 <= z < 256)%Z -> code (Ascii.ascii_of_nat (Z.to_nat z)) = Z.to_nat z.
Proof. intros H. apply code_of_nat. lia. Qed.

Lemma decode_encode r t :
  exists r', decode_rune (encode_rune r +:+ t) = (r', String.length (encode_rune r))
    /\ bad_rune (r', String.length (encode_rune r)) = false /\ encode_rune r <> "".
Proof.
  unfold encode_rune.
  destruct (_ || _)%bool eqn:E0.
  { eexists. split_and!; [reflexivity|done|done]. }
  assert (Hr : (0 <= r <= 1114111 /\ ~ (55296 <= r <= 57343))%Z) by (bool_hyps; lia).
  destruct (r <? 128)%Z eqn:E1.
  { eexists. split_and!; [|shelve|done].
    lazymatch goal with |- decode_rune (bytes_str [?a] +:+ t) = ?y =>
      change (decode_rune (String (Ascii.ascii_of_nat a) t) = y) end.
    cbn [decode_rune]. cbv zeta. rewrite code_byte by lia.
    rewrite (proj2 (Nat.ltb_lt _ _)) by lia. reflexivity. Unshelve.
    unfold bad_rune. apply andb_false_iff. left. apply Z.eqb_neq. simpl. lia. }
  destruct (r <? 2048)%Z eqn:E2.
  { eexists. split_and!; [|shelve|done].
    lazymatch goal with |- decode_rune (bytes_str [?a; ?b] +:+ t) = ?y =>
      change (decode_rune (String (Ascii.ascii_of_nat a) (String (Ascii.ascii_of_nat b) t)) = y) end.
    cbn [decode_rune]. cbv zeta. rewrite !code_byte by lia.
    rewrite (proj2 (Nat.ltb_ge _ _)) by lia. rewrite !in_range_true by lia. reflexivity.
    Unshelve. apply andb_false_r. }
  destruct (r <? 65536)%Z eqn:E3.
  { eexists. split_and!; [|shelve|done].
    lazymatch goal with |- decode_rune (bytes_str [?a; ?b; ?c] +:+ t) = ?y =>
      change (decode_rune (String (Ascii.ascii_of_nat a) (String (Ascii.ascii_of_nat b)
        (String (Ascii.ascii_of_nat c) t))) = y) end.
    cbn [decode_rune]. cbv zeta. rewrite !code_byte by lia.
    rewrite (proj2 (Nat.ltb_ge _ _)) by lia. rewrite (in_range_false 194 223) by lia.
    rewrite (in_range_true 224 239) by lia.
    rewrite !in_range_true; [reflexivity| |];
      repeat case_match; nat_bools; lia.
    Unshelve. apply andb_false_r. }
  eexists. split_and!; [|shelve|done].
  lazymatch goal with |- decode_rune (bytes_str [?a; ?b; ?c; ?d] +:+ t) = ?y =>
    change (decode_rune (String (Ascii.ascii_of_nat a) (String (Ascii.ascii_of_nat b)
      (String (Ascii.ascii_of_nat c) (String (Ascii.ascii_of_nat d) t)))) = y) end.
  cbn [decode_rune]. cbv zeta. rewrite !code_byte by lia.
  rewrite (proj2 (Nat.ltb_ge _ _)) by lia. rewrite (in_range_false 194 223) by lia.
  rewrite (in_range_false 224 239) by lia. rewrite (in_range_true 240 244) by lia.
  rewrite !in_range_true; [reflexivity| | |]; repeat case_match; nat_bools; lia.
  Unshelve. apply andb_false_r.
Qed.

(** *** Validity *)

Lemma runes_fuel_enough f s : String.length s <= f -> runes_fuel f s = runes s.
Proof.
  unfold runes.
  assert (E : forall f f' s, String.length s <= f -> String.length s <= f' ->
    runes_fuel f s = runes_fuel f' s).
  { clear. induction f as [|f IH]; intros f' s Hf Hf'.
    { destruct s; [|simpl in Hf; lia]. by destruct f'. }
    destruct s as [|c s]; [by destruct f'|]. destruct f' as [|f']; [simpl in Hf'; lia|].
    cbn [runes_fuel]. destruct (decode_rune (String c s)) as [r w] eqn:E.
    assert (1 <= w).
    { cbn [decode_rune] in E. repeat case_match; simplify_eq; lia. }
    rewrite (IH f'); [done| |]; rewrite length_str_drop; lia. }
  intros H. by apply E.
Qed.

Lemma runes_cons c s :
  runes (String c s) =
    decode_rune (String c s) :: runes (str_drop (decode_rune (String c s)).2 (String c s)).
Proof.
  unfold runes at 1. cbn [String.length runes_fuel].
  destruct (decode_rune (String c s)) as [r w] eqn:E. cbn [fst snd]. f_equal.
  assert (1 <= w).
  { cbn [decode_rune] in E. repeat case_match; simplify_eq; lia. }
  apply runes_fuel_enough. rewrite length_str_drop. simpl. lia.
Qed.

Lemma utf8_valid_cons c s :
  utf8_valid (String c s) =
    negb (bad_rune (decode_rune (String c s)))
    && utf8_valid (str_drop (decode_rune (String c s)).2 (String c s)).
Proof.
  unfold utf8_valid, bad_rune. rewrite runes_cons. cbn [forallb].
  by destruct (decode_rune (String c s)).
Qed.

Lemma utf8_valid_encode r t : utf8_valid (encode_rune r +:+ t) = utf8_valid t.
Proof.
  destruct (decode_encode r t) as (r' & E & B & Hn).
  destruct (encode_rune r) as [|c u] eqn:Eu; [done|].
  change (String c u +:+ t) with (String c (u +:+ t)) in *.
  rewrite utf8_valid_cons, E, B. cbn [negb andb snd].
  exact (f_equal utf8_valid (str_drop_app (String c u) t)).
Qed.

Lemma utf8_valid_ascii c t : code c < 128 -> utf8_valid (String c t) = utf8_valid t.
Proof. intros H. by rewrite <- (utf8_valid_encode (Z.of_nat (code c)) t), (encode_rune_1 c). Qed.

(** ** [unquote] without its fuel *)

Lemma decode_width c s : 1 <= (decode_rune (String c s)).2.
Proof. cbn [decode_rune]. cbv zeta. repeat case_match; simpl; lia. Qed.

Lemma unquote_fuel_enough f s : String.length s <= f -> unquote_fuel f s = unquote s.
Proof.
  unfold unquote.
  assert (E : forall f f' s, String.length s <= f -> String.length s <= f' ->
    unquote_fuel f s = unquote_fuel f' s).
  { clear. induction f as [|f IH]; intros f' s Hf Hf'.
    { destruct s; [|simpl in Hf; lia]. by destruct f'. }
    destruct s as [|c s]; [by destruct f'|]. destruct f' as [|f']; [simpl in Hf'; lia|].
    simpl in Hf, Hf'. cbn [unquote_fuel].
    assert (IH' : forall s', String.length s' <= String.length s ->
      unquote_fuel f s' = unquote_fuel f' s') by (intros; apply IH; lia).
    destruct (is_c 92 c).
    - destruct s as [|e s]; [done|]. simpl in IH'. destruct (is_c 117 e); [|by rewrite IH' by lia].
      destruct s as [|h1 [|h2 [|h3 [|h4 s]]]]; try done. simpl in IH'. cbv zeta.
      destruct (_ && _)%bool; [|by rewrite IH' by lia].
      destruct (low_surrogate s); [|by rewrite IH' by lia].
      rewrite IH'; [done|]. rewrite length_str_drop. lia.
    - pose proof (decode_width c s) as Hw. destruct (decode_rune (String c s)) as [r w].
      simpl in Hw. rewrite IH'; [done|]. rewrite length_str_drop. simpl. lia. }
  intros H. by apply E.
Qed.

Lemma unquote_S f c r :
  unquote_fuel (S f) (String c r) =
    if is_c 92 c then
      match r with
      | String e r1 =>
          if is_c 117 e then
            match r1 with
            | String h1 (String h2 (String h3 (String h4 r2))) =>
                let v := default 0%Z (hex4 h1 h2 h3 h4) in
                if ((55296 <=? v) && (v <=? 56319))%Z then
                  match low_surrogate r2 with
                  | Some lo =>
                      encode_rune ((v - 55296) * 1024 + (lo - 56320) + 65536)%Z
                        +:+ unquote_fuel f (str_drop 6 r2)
                  | None => encode_rune 65533 +:+ unquote_fuel f r2
                  end
                else encode_rune v +:+ unquote_fuel f r2
            | _ => ""
            end
          else simple_escape e +:+ unquote_fuel f r1
      | EmptyString => ""
      end
    else
      let '(rn, w) := decode_rune (String c r) in
      encode_rune rn +:+ unquote_fuel f (str_drop w (String c r)).
Proof. reflexivity. Qed.

Lemma unquote_esc e b :
  is_c 117 e = false -> unquote (esc e b) = simple_escape e +:+ unquote b.
Proof.
  intros H. unfold unquote at 1, esc. cbn [String.length]. rewrite unquote_S.
  change (is_c 92 backslash) with true. cbv iota. rewrite H.
  by rewrite unquote_fuel_enough by lia.
Qed.

Lemma unquote_u h1 h2 h3 h4 v b :
  hex4 h1 h2 h3 h4 = Some v ->
  unquote (esc_u h1 h2 h3 h4 b) =
    if ((55296 <=? v) && (v <=? 56319))%Z then
      match low_surrogate b with
      | Some lo => encode_rune ((v - 55296) * 1024 + (lo - 56320) + 65536)%Z
                     +:+ unquote (str_drop 6 b)
      | None => encode_rune 65533 +:+ unquote b
      end
    else encode_rune v +:+ unquote b.
Proof.
  intros H. unfold unquote at 1, esc_u, esc. cbn [String.length]. rewrite unquote_S.
  change (is_c 92 backslash) with true. change (is_c 117 (Ascii.ascii_of_nat 117)) with true.
  cbv iota zeta. rewrite H. cbn [from_option id].
  destruct (_ && _)%bool; [|by rewrite unquote_fuel_enough by lia].
  destruct (low_surrogate b); rewrite unquote_fuel_enough; try done; try lia.
  rewrite length_str_drop. lia.
Qed.

Lemma unquote_char c s :
  (code c =? 92) = false ->
  unquote (String c s) =
    encode_rune (decode_rune (String c s)).1
      +:+ unquote (str_drop (decode_rune (String c s)).2 (String c s)).
Proof.
  intros H. unfold unquote at 1. cbn [String.length]. rewrite unquote_S. unfold is_c at 1. rewrite H.
  pose proof (decode_width c s). destruct (decode_rune (String c s)) as [r w]. simpl in *.
  rewrite unquote_fuel_enough; [done|]. rewrite length_str_drop. simpl. lia.
Qed.

(** Within a string body, past a byte that is no backslash. *)
Lemma sbody_tail c s k :
  sbody (String c s) k -> (code c =? 92) = false -> exists k', sbody s k'.
Proof.
  intros H Hc. inversion H; subst; eauto; try discriminate;
    match goal with Hs : sbody ?b ?k |- exists _, sbody (_ (_ ?b)) _ => idtac | _ => idtac end.
  - destruct (sbody_char (Ascii.ascii_of_nat 168) b c0) as [k' Hk]; try done.
    by eapply sbody_char in Hk.
  - destruct (sbody_char (Ascii.ascii_of_nat 169) b c0) as [k' Hk]; try done.
    by eapply sbody_char in Hk.
Qed.

Lemma sbody_rune c s k :
  sbody (String c s) k -> (code c =? 92) = false ->
  exists k', sbody (str_drop (decode_rune (String c s)).2 (String c s)) k'.
Proof.
  intros H Hc. destruct (sbody_tail _ _ _ H Hc) as [k1 H1]. revert H1.
  assert (T : forall c s k, sbody (String c s) k -> 128 <= code c -> exists k', sbody s k').
  { intros c0 s0 k0 H0 Hc0. eapply sbody_tail; [exact H0|]. apply Nat.eqb_neq. lia. }
  cbn [decode_rune]. cbv zeta.
  repeat (case_match; simplify_eq); cbn [snd str_drop]; intros; eauto; nat_bools;
    repeat match goal with
    | Hs : sbody (String ?c ?s) _ |- exists _, sbody ?s' _ =>
        apply T in Hs as [? ?]; [|repeat case_match; nat_bools; (lia || eauto)]; eauto
    end; eauto.
Qed.

Lemma sbody_esc_inv e b k :
  sbody (esc e b) k ->
  if is_c 117 e
  then exists h1 h2 h3 h4 v b' k', b = String h1 (String h2 (String h3 (String h4 b')))
         /\ hex4 h1 h2 h3 h4 = Some v /\ sbody b' k'
  else existsb (fun n => is_c n e) simple_escapes = true /\ exists k', sbody b k'.
Proof.
  intros H. inversion H; subst; try discriminate.
  - change (is_c 117 (Ascii.ascii_of_nat 117)) with true. cbv iota. by repeat eexists.
  - destruct (is_c 117 e) eqn:Hu; [|eauto]. by apply is_c_eq in Hu as ->.
Qed.

Lemma simple_escape_utf8 e s :
  existsb (fun n => is_c n e) simple_escapes = true ->
  utf8_valid (simple_escape e +:+ s) = utf8_valid s.
Proof.
  intros (n & Hn & ->%is_c_eq)%existsb_exists.
  repeat (destruct Hn as [<-|Hn]; [by apply utf8_valid_ascii, Nat.ltb_lt|]). done.
Qed.

(** A decoded string is valid UTF-8. *)
Lemma unquote_utf8 b k : sbody b k -> utf8_valid (unquote b) = true.
Proof.
  remember (String.length b) as n eqn:Hn. revert b k Hn.
  induction n as [n IH] using lt_wf_ind. intros b k Hn H.
  assert (IH' : forall b' k', String.length b' < n -> sbody b' k' ->
    utf8_valid (unquote b') = true) by (intros; eapply IH; eauto).
  destruct b as [|c s]; [done|]. simpl in Hn. clear IH.
  destruct (code c =? 92) eqn:Hc.
  - apply Nat.eqb_eq, ascii_eq in Hc as ->. destruct s as [|e s]; [by inversion H|].
    change (String (Ascii.ascii_of_nat 92) (String e s)) with (esc e s) in *.
    apply sbody_esc_inv in H. simpl in Hn. destruct (is_c 117 e) eqn:Hu.
    + apply is_c_eq in Hu as ->. destruct H as (h1 & h2 & h3 & h4 & v & b & k' & -> & Hv & Hb).
      simpl in Hn. fold (esc_u h1 h2 h3 h4 b). rewrite (unquote_u _ _ _ _ v) by done.
      destruct (_ && _)%bool; [|rewrite utf8_valid_encode; eapply IH'; [|exact Hb]; lia].
      destruct (low_surrogate b) eqn:El; rewrite utf8_valid_encode;
        [|eapply IH'; [|exact Hb]; lia].
      destruct b as [|a [|b0 [|g1 [|g2 [|g3 [|g4 b]]]]]]; try discriminate.
      unfold low_surrogate in El. destruct (is_c 92 a && is_c 117 b0) eqn:E; [|discriminate].
      apply andb_true_iff in E as [->%is_c_eq ->%is_c_eq].
      change (String (Ascii.ascii_of_nat 92) (String (Ascii.ascii_of_nat 117) ?x))
        with (esc (Ascii.ascii_of_nat 117) x) in Hb.
      apply sbody_esc_inv in Hb. cbn in Hb.
      destruct Hb as (? & ? & ? & ? & ? & b' & k2 & [= <- <- <- <- <-] & _ & Hb).
      eapply IH'; [|exact Hb]. cbn [String.length] in Hn. simpl. lia.
    + destruct H as [He [k' Hk]]. rewrite unquote_esc, simple_escape_utf8 by done.
      eapply IH'; [|exact Hk]. lia.
  - rewrite unquote_char by done. rewrite utf8_valid_encode.
    destruct (sbody_rune _ _ _ H Hc) as [k' Hk]. eapply IH'; [|exact Hk].
    pose proof (decode_width c s). rewrite length_str_drop. cbn [String.length]. lia.
Qed.

(** ** Literals *)

Definition quote (s : string) : string := quote_fuel (String.length s) s.

Lemma json_quote_quoted s : json_quote s = quoted (quote s).
Proof. reflexivity. Qed.

Lemma quote_fuel_enough f s : String.length s <= f -> quote_fuel f s = quote s.
Proof.
  unfold quote.
  assert (E : forall f f' s, String.length s <= f -> String.length s <= f' ->
    quote_fuel f s = quote_fuel f' s).
  { clear. induction f as [|f IH]; intros f' s Hf Hf'.
    { destruct s; [|simpl in Hf; lia]. by destruct f'. }
    destruct s as [|c s]; [by destruct f'|]. destruct f' as [|f']; [simpl in Hf'; lia|].
    simpl in Hf, Hf'. cbn [quote_fuel]. destruct (code c <? 128); [by rewrite (IH f') by lia|].
    pose proof (decode_width c s) as Hw. destruct (decode_rune (String c s)) as [r w].
    simpl in Hw. rewrite (IH f'); [done| |]; rewrite length_str_drop; simpl; lia. }
  intros H. by apply E.
Qed.

Lemma quote_ascii c s : (code c <? 128) = true -> quote (String c s) = escape_ascii c +:+ quote s.
Proof. intros H. unfold quote at 1. cbn [String.length quote_fuel]. by rewrite H. Qed.

Lemma quote_rune c s r w :
  (code c <? 128) = false -> decode_rune (String c s) = (r, w) ->
  quote (String c s) =
    if bad_rune (r, w) then (String backslash "ufffd") +:+ quote (str_drop w (String c s))
    else if (r =? 8232)%Z then (String backslash "u2028") +:+ quote (str_drop w (String c s))
    else if (r =? 8233)%Z then (String backslash "u2029") +:+ quote (str_drop w (String c s))
    else str_take w (String c s) +:+ quote (str_drop w (String c s)).
Proof.
  intros H E. pose proof (decode_width c s) as Hw. rewrite E in Hw. simpl in Hw.
  unfold quote at 1. cbn [String.length quote_fuel]. rewrite H, E.
  rewrite quote_fuel_enough by (rewrite length_str_drop; simpl; lia). done.
Qed.

Lemma u_escape_esc n q :
  u_escape n +:+ q = esc_u (Ascii.ascii_of_nat 48) (Ascii.ascii_of_nat 48)
                       (hex_digit (n / 16)) (hex_digit (n mod 16)) q.
Proof. reflexivity. Qed.

Lemma u_escape_value c :
  (code c <? 128) = true ->
  hex4 (Ascii.ascii_of_nat 48) (Ascii.ascii_of_nat 48) (hex_digit (code c / 16))
    (hex_digit (code c mod 16)) = Some (Z.of_nat (code c)).
Proof. by destruct c as [[] [] [] [] [] [] [] []]; vm_compute. Qed.

Lemma decode_ascii c s :
  (code c <? 128) = true -> decode_rune (String c s) = (Z.of_nat (code c), 1).
Proof. intros H. cbn [decode_rune]. cbv zeta. by rewrite H. Qed.

(** An escaped ASCII byte. *)
Lemma escape_ascii_ok c q :
  (code c <? 128) = true ->
  (sbody q q -> sbody (escape_ascii c +:+ q) (escape_ascii c +:+ q))
  /\ unquote (escape_ascii c +:+ q) = String c (unquote q).
Proof.
  intros Hc.
  assert (S : forall e, existsb (fun n => is_c n e) simple_escapes = true ->
    is_c 117 e = false -> simple_escape e = String c "" ->
    (sbody q q -> sbody (esc e q) (esc e q)) /\ unquote (esc e q) = String c (unquote q)).
  { intros e He Hu E. split; [by intros; apply sb_esc|]. by rewrite unquote_esc, E. }
  assert (R : encode_rune (Z.of_nat (code c)) = String c "").
  { apply encode_rune_1. by apply Nat.ltb_lt. }
  unfold escape_ascii. cbv zeta.
  destruct ((code c =? 34) || (code c =? 92)) eqn:E1.
  { change (String backslash (String c "") +:+ q) with (esc c q).
    apply orb_true_iff in E1 as [->%Nat.eqb_eq%ascii_eq | ->%Nat.eqb_eq%ascii_eq]; by apply S. }
  destruct (code c =? 8) eqn:E2; [apply Nat.eqb_eq, ascii_eq in E2 as ->; by apply (S (Ascii.ascii_of_nat 98))|].
  destruct (code c =? 12) eqn:E3; [apply Nat.eqb_eq, ascii_eq in E3 as ->; by apply (S (Ascii.ascii_of_nat 102))|].
  destruct (code c =? 10) eqn:E4; [apply Nat.eqb_eq, ascii_eq in E4 as ->; by apply (S (Ascii.ascii_of_nat 110))|].
  destruct (code c =? 13) eqn:E5; [apply Nat.eqb_eq, ascii_eq in E5 as ->; by apply (S (Ascii.ascii_of_nat 114))|].
  destruct (code c =? 9) eqn:E6; [apply Nat.eqb_eq, ascii_eq in E6 as ->; by apply (S (Ascii.ascii_of_nat 116))|].
  destruct ((code c <? 32) || (code c =? 60) || (code c =? 62) || (code c =? 38)) eqn:E7.
  { rewrite u_escape_esc. pose proof (u_escape_value c Hc) as V. split.
    - intros Hq. by eapply sb_u.
    - rewrite (unquote_u _ _ _ _ _ _ V), R.
      apply Nat.ltb_lt in Hc. replace ((55296 <=? _) && _)%Z%bool with false by lia. done. }
  rewrite !orb_false_iff in E7. destruct E7 as [[[E7 E8] E9] E10].
  apply orb_false_iff in E1 as [E1 E1'].
  assert (E226 : (code c =? 226) = false) by (apply Nat.eqb_neq; apply Nat.ltb_lt in Hc; lia).
  change (String c "" +:+ q) with (String c q). split.
  - intros Hq. apply sb_char; try done; [|by apply HasPrefix_226..].
    unfold html. by rewrite E8, E9, E10.
  - rewrite unquote_char, decode_ascii by done. cbn [fst snd str_drop]. by rewrite R.
Qed.

Lemma sbody_cont u q :
  all_bytes (fun b => in_range 128 191 (code b)) u -> sbody q q -> sbody (u +:+ q) (u +:+ q).
Proof.
  intros Hu Hq. induction u as [|b u IH]; [done|]. apply Forall_cons in Hu as [Hb Hu].
  apply andb_true_iff in Hb as [H1%Nat.leb_le H2%Nat.leb_le].
  assert (N : forall n, n < 128 \/ 191 < n -> (code b =? n) = false).
  { intros n Hn. apply Nat.eqb_neq. lia. }
  change (String b u +:+ q) with (String b (u +:+ q)).
  apply sb_char; try (by apply N; lia); [by apply Nat.ltb_ge; lia| |apply HasPrefix_226, N; lia
    |apply HasPrefix_226, N; lia|by apply IH].
  unfold html. by rewrite !N by lia.
Qed.

Lemma quote_sbody s : sbody (quote s) (quote s).
Proof.
  remember (String.length s) as n eqn:Hn. revert s Hn.
  induction n as [n IH] using lt_wf_ind. intros [|c s] Hn; [constructor|].
  cbn [String.length] in Hn.
  destruct (code c <? 128) eqn:Hc.
  { rewrite quote_ascii by done. apply escape_ascii_ok; [done|]. eapply IH; [|done]. lia. }
  destruct (decode_rune (String c s)) as [r w] eqn:E. rewrite (quote_rune _ _ _ _ Hc E).
  pose proof (decode_width c s) as Hw. rewrite E in Hw. cbn [snd] in Hw.
  assert (Hq : sbody (quote (str_drop w (String c s))) (quote (str_drop w (String c s)))).
  { eapply IH; [|done]. rewrite length_str_drop. cbn [String.length]. lia. }
  destruct (bad_rune (r, w)) eqn:B; [by eapply sb_u|].
  destruct (r =? 8232)%Z eqn:E1; [by eapply sb_u|].
  destruct (r =? 8233)%Z eqn:E2; [by eapply sb_u|].
  destruct (decode_rune_valid _ _ _ _ E B) as (u & t & Es & -> & Hu & Ht & Hcont & Hd).
  rewrite Ht in *. rewrite Es, str_take_app.
  destruct u as [|c' u]; [simpl in Hw; lia|]. injection Es as <- Es. cbn [str_drop] in Hcont.
  apply (sbody_cont u) in Hq; [|done].
  apply Nat.ltb_ge in Hc.
  assert (N : forall n, n < 128 -> (code c =? n) = false).
  { intros m Hm. apply Nat.eqb_neq. lia. }
  change (String c u +:+ quote t) with (String c (u +:+ quote t)).
  apply sb_char; try (by apply N; lia); [by apply Nat.ltb_ge; lia| | | |done].
  - unfold html. by rewrite !N by lia.
  - apply not_true_iff_false. intros [t' E']%HasPrefix_spec.
    specialize (Hd (quote t)). change (String c u +:+ quote t) with (String c (u +:+ quote t)) in Hd.
    rewrite E', LS_app in Hd. injection Hd as <- _. done.
  - apply not_true_iff_false. intros [t' E']%HasPrefix_spec.
    specialize (Hd (quote t)). change (String c u +:+ quote t) with (String c (u +:+ quote t)) in Hd.
    rewrite E', PS_app in Hd. injection Hd as <- _. done.
Qed.

(** A valid string comes back from its literal. *)
Lemma unquote_quote s : utf8_valid s = true -> unquote (quote s) = s.
Proof.
  remember (String.length s) as n eqn:Hn. revert s Hn.
  induction n as [n IH] using lt_wf_ind. intros [|c s] Hn Hs; [done|].
  cbn [String.length] in Hn.
  destruct (code c <? 128) eqn:Hc.
  { rewrite quote_ascii by done. rewrite (proj2 (escape_ascii_ok c _ Hc)). f_equal.
    apply Nat.ltb_lt in Hc. rewrite utf8_valid_ascii in Hs by done. eapply IH; [|done..]. lia. }
  rewrite utf8_valid_cons in Hs. destruct (decode_rune (String c s)) as [r w] eqn:E.
  apply andb_true_iff in Hs as [B%negb_true_iff Hs]. rewrite (quote_rune _ _ _ _ Hc E), B.
  pose proof (decode_width c s) as Hw. rewrite E in Hw. cbn [snd] in Hw, Hs.
  destruct (decode_rune_valid _ _ _ _ E B) as (u & t & Es & -> & Hu & Ht & _ & Hd).
  rewrite Ht in *. assert (IHt : unquote (quote t) = t).
  { eapply IH; [|done..]. rewrite <- Ht, length_str_drop. cbn [String.length]. lia. }
  rewrite Es, str_take_app.
  destruct (r =? 8232)%Z eqn:E1.
  { apply Z.eqb_eq in E1 as ->. rewrite <- Hu.
    change (unquote ((String backslash "u2028") +:+ quote t)) with (unquote (esc_u
      (Ascii.ascii_of_nat 50) (Ascii.ascii_of_nat 48) (Ascii.ascii_of_nat 50)
      (Ascii.ascii_of_nat 56) (quote t))). by rewrite (unquote_u _ _ _ _ 8232), IHt. }
  destruct (r =? 8233)%Z eqn:E2.
  { apply Z.eqb_eq in E2 as ->. rewrite <- Hu.
    change (unquote ((String backslash "u2029") +:+ quote t)) with (unquote (esc_u
      (Ascii.ascii_of_nat 50) (Ascii.ascii_of_nat 48) (Ascii.ascii_of_nat 50)
      (Ascii.ascii_of_nat 57) (quote t))). by rewrite (unquote_u _ _ _ _ 8233), IHt. }
  destruct u as [|c' u]; [simpl in Hw; lia|]. injection Es as <- Es.
  specialize (Hd (quote t)). change (String c u +:+ quote t) with (String c (u +:+ quote t)) in *.
  assert (H92 : (code c =? 92) = false) by (apply Nat.eqb_neq; apply Nat.ltb_ge in Hc; lia).
  rewrite unquote_char, Hd by done. cbn [fst snd]. rewrite Hu.
  rewrite (str_drop_app (String c u) (quote t) : str_drop _ (String c (u +:+ quote t)) = _).
  by rewrite IHt.
Qed.
