(* ===== verification/JsonCodecProofs.v ===== *)
(** * Decoding what was encoded

    A text is a document of depth [d] when it is a value of the grammar between
    white space.  The elements and members [json_shape] finds in it are values one
    level deeper ([shape_elems], [shape_members]); arrays and objects printed from
    compacted values are documents whose shape is what was printed
    ([shape_print_array], [shape_print_members]); [compact_raw] succeeds on every
    value and returns a compacted one ([compact_value]). *)

From S2P Require Import Prelude Json JsonCodec JsonGrammar JsonStrings.
Local Open Scope string_scope.
Local Open Scope nat_scope.
Local Open Scope list_scope.
Local Open Scope go_scope.

(** A value that is its own compacted form. *)
Definition compact_text (d : N) (s : string) : Prop := jtext KVal d s s.
(** A value between white space. *)
Definition is_doc (d : N) (s : string) : Prop :=
  exists w1 p w2, s = w1 +:+ p +:+ w2 /\ ws w1 /\ ws w2 /\ is_value d p.

Lemma compact_is_value d s : compact_text d s -> is_value d s.
Proof. intros H. by exists s. Qed.

Lemma value_is_doc d s : is_value d s -> is_doc d s.
Proof.
  intros H. exists "", s, "". split_and!; [by rewrite str_app_nil_r|apply ws_nil..|done].
Qed.

Lemma is_doc_depth d d' s : (d' <= d)%N -> is_doc d s -> is_doc d' s.
Proof.
  intros Hd (w1 & p & w2 & E & H1 & H2 & H). exists w1, p, w2.
  split_and!; eauto using is_value_depth.
Qed.

Lemma compact_text_depth d d' s : (d' <= d)%N -> compact_text d s -> compact_text d' s.
Proof. apply jtext_depth. Qed.

(** ** The parser at smaller depths *)

Lemma parse_depth f :
  (forall d d' s x, (d' <= d)%N -> pval f d s = Some x -> pval f d' s = Some x)
  /\ (forall d d' s x, (d' <= d)%N -> pelems f d s = Some x -> pelems f d' s = Some x)
  /\ (forall d d' s x, (d' <= d)%N -> pmembers f d s = Some x -> pmembers f d' s = Some x).
Proof.
  induction f as [|f (IHv & IHe & IHm)]; [done|]. split_and!.
  - intros d d' [|c s] x Hd H; [done|]. cbn [pval] in *.
    assert (D : (max_depth <=? d)%N = false -> (max_depth <=? d')%N = false).
    { rewrite !N.leb_gt. lia. }
    destruct (is_c 34 c); [done|].
    destruct (is_c 91 c).
    { destruct (max_depth <=? d)%N; [done|]. rewrite D by done.
      destruct (take_byte [93] (skip_ws s)) as [[? ?]|]; [done|].
      apply bind_Some in H as (y & Hy & H). by rewrite (IHe (d + 1)%N (d' + 1)%N _ y) by (done || lia). }
    destruct (is_c 123 c); [|done].
    destruct (max_depth <=? d)%N; [done|]. rewrite D by done.
    destruct (take_byte [125] (skip_ws s)) as [[? ?]|]; [done|].
    apply bind_Some in H as (y & Hy & H). by rewrite (IHm (d + 1)%N (d' + 1)%N _ y) by (done || lia).
  - intros d d' s x Hd H. rewrite pelems_S in *.
    apply bind_Some in H as ([v r] & Hv & H). rewrite (IHv d d' _ (v, r)) by done.
    cbn [mbind option_bind] in *. cbv zeta in *.
    destruct (take_byte [93] (skip_ws r)) as [[? ?]|]; [done|].
    apply bind_Some in H as ([? r'] & Hr & H). rewrite Hr. cbn [mbind option_bind] in *.
    apply bind_Some in H as (y & Hy & H). by rewrite (IHe d d' _ y).
  - intros d d' s x Hd H. rewrite pmembers_S in *.
    apply bind_Some in H as ([? r0] & H0 & H). rewrite H0. cbn [mbind option_bind] in *.
    apply bind_Some in H as ([? r1] & H1 & H). rewrite H1. cbn [mbind option_bind] in *.
    apply bind_Some in H as ([? r2] & H2 & H). rewrite H2. cbn [mbind option_bind] in *.
    apply bind_Some in H as ([v r] & Hv & H). rewrite (IHv d d' _ (v, r)) by done.
    cbn [mbind option_bind] in *. cbv zeta in *.
    destruct (take_byte [125] (skip_ws r)) as [[? ?]|]; [done|].
    apply bind_Some in H as ([? r'] & Hr & H). rewrite Hr. cbn [mbind option_bind] in *.
    apply bind_Some in H as (y & Hy & H). by rewrite (IHm d d' _ y).
Qed.

(** ** Documents *)

Lemma delim_of_ws w : ws w -> delim w.
Proof. destruct w as [|c w]; [done|]. intros [Hc _]%Forall_cons. unfold delim, delim_byte. by rewrite Hc. Qed.

Lemma skip_ws_all w : ws w -> skip_ws w = "".
Proof. intros H. rewrite <- (str_app_nil_r w). by rewrite skip_ws_app. Qed.

Lemma parse_doc w1 p w2 q :
  ws w1 -> ws w2 -> jtext KVal 0 p q ->
  exists v, json_parse (w1 +:+ p +:+ w2) = Some v
    /\ pval (parse_fuel (w1 +:+ p +:+ w2)) 0 (p +:+ w2) = Some (v, w2).
Proof.
  intros H1 H2 H. destruct (jtext_parse _ _ _ _ H) as [v Hv]. exists v.
  assert (E : pval (parse_fuel (w1 +:+ p +:+ w2)) 0 (p +:+ w2) = Some (v, w2)).
  { apply Hv; [|by apply delim_of_ws]. unfold parse_fuel. rewrite !str_length_app. lia. }
  split; [|done]. unfold json_parse. rewrite skip_ws_app by done.
  destruct (jtext_skip _ _ _ _ w2 H) as (-> & _ & _). rewrite E.
  cbn [mbind option_bind]. by rewrite skip_ws_all.
Qed.

(** [json.Valid] is the grammar. *)
Lemma json_parse_doc s v : json_parse s = Some v -> is_doc 0 s.
Proof.
  unfold json_parse. intros H.
  apply bind_Some in H as ([v' r] & H & H'). destruct (skip_ws r =?s "") eqn:E; [|done].
  apply String.eqb_eq in E. destruct (skip_ws_split s) as (w1 & Es & H1).
  apply (proj1 (pval_jtext _)) in H as (p & q & Ep & Hp).
  destruct (skip_ws_split r) as (w2 & Er & H2). rewrite E, str_app_nil_r in Er. subst r.
  exists w1, p, w2. split_and!; try done; [by rewrite Es at 1; rewrite Ep|by exists q].
Qed.

Lemma json_valid_doc s : json_valid s = true <-> is_doc 0 s.
Proof.
  unfold json_valid. split.
  - destruct (json_parse s) eqn:E; [|done]. intros _. by eapply json_parse_doc.
  - intros (w1 & p & w2 & -> & H1 & H2 & q & H).
    by destruct (parse_doc w1 p w2 q H1 H2 H) as (v & -> & _).
Qed.

Lemma json_shape_valid s sh : json_shape s = Some sh -> is_doc 0 s.
Proof. unfold json_shape. intros (v & E & _)%bind_Some. by eapply json_parse_doc. Qed.

Lemma doc_shape d s : is_doc d s -> exists sh, json_shape s = Some sh.
Proof.
  intros H. apply (is_doc_depth d 0) in H; [|lia]. apply json_valid_doc in H.
  unfold json_valid, json_shape in *. destruct (json_parse s); [|done]. eauto.
Qed.

(** [compact_raw] on a value. *)
Lemma compact_jtext d p q : jtext KVal d p q -> json_compact p = q.
Proof.
  intros H. apply jtext_compact with (r := "") in H. rewrite !str_app_nil_r in H. exact H.
Qed.

Lemma compact_value d s :
  is_value d s -> compact_raw s = Some (json_compact s) /\ compact_text d (json_compact s)
    /\ jtext KVal d s (json_compact s).
Proof.
  intros [q H]. rewrite (compact_jtext _ _ _ H). split_and!; [|by eapply jtext_idem|done].
  unfold compact_raw. rewrite (proj2 (json_valid_doc s)); [by rewrite (compact_jtext _ _ _ H)|].
  apply value_is_doc, (is_value_depth d); [lia|]. by exists q.
Qed.

Lemma compact_fixed d s : compact_text d s -> compact_raw s = Some s.
Proof.
  intros H. destruct (compact_value d s) as (-> & _ & _); [by exists s|].
  by rewrite (compact_jtext _ _ _ H).
Qed.

Lemma compact_raw_some s q : compact_raw s = Some q -> is_doc 0 s /\ q = json_compact s.
Proof.
  unfold compact_raw. destruct (json_valid s) eqn:E; [|done]. intros [= <-].
  by apply json_valid_doc in E.
Qed.

(** ** Shapes *)

(** The first byte tells the shape. *)
Lemma pval_head f d c s v r :
  pval f d (String c s) = Some (v, r) ->
  match v with
  | JArr _ => is_c 91 c = true
  | JObj _ => is_c 123 c = true
  | JStr _ => is_c 34 c = true
  | _ => is_c 91 c = false /\ is_c 123 c = false /\ is_c 34 c = false
  end.
Proof.
  destruct f as [|f]; [done|]. cbn [pval].
  destruct (is_c 34 c) eqn:E1; [by intros ([] & _ & [= <- _])%bind_Some|].
  destruct (is_c 91 c) eqn:E2.
  { destruct (max_depth <=? d)%N; [done|]. destruct (take_byte [93] (skip_ws s)) as [[]|].
    - by intros [= <- _].
    - by intros ([] & _ & [= <- _])%bind_Some. }
  destruct (is_c 123 c) eqn:E3.
  { destruct (max_depth <=? d)%N; [done|]. destruct (take_byte [125] (skip_ws s)) as [[]|].
    - by intros [= <- _].
    - by intros ([] & _ & [= <- _])%bind_Some. }
  destruct (HasPrefix _ "null"); [by intros [= <- _]|].
  destruct (HasPrefix _ "true"); [by intros [= <- _]|].
  destruct (HasPrefix _ "false"); [by intros [= <- _]|].
  by intros ([] & _ & [= <- _])%bind_Some.
Qed.

Lemma jtext_arr_inv d x q :
  jtext KVal d (b1 91 x) q ->
  (exists w, x = w +:+ b1 93 "" /\ ws w /\ q = "[]")
  \/ (exists w p q', x = w +:+ p /\ ws w /\ jtext KElems (d + 1) p q' /\ q = b1 91 q').
Proof.
  intros H. inversion H; subst; eauto 10.
  - by match goal with H : In _ _ |- _ => destruct H as [E|[E|[E|[]]]] end.
  - by match goal with H : num_text _ |- _ => destruct (num_head _ H) as (c & n' & [= <- _] & ?) end.
Qed.

Lemma jtext_obj_inv d x q :
  jtext KVal d (b1 123 x) q ->
  (exists w, x = w +:+ b1 125 "" /\ ws w /\ q = "{}")
  \/ (exists w p q', x = w +:+ p /\ ws w /\ jtext KMembers (d + 1) p q' /\ q = b1 123 q').
Proof.
  intros H. inversion H; subst; eauto 10.
  - by match goal with H : In _ _ |- _ => destruct H as [E|[E|[E|[]]]] end.
  - by match goal with H : num_text _ |- _ => destruct (num_head _ H) as (c & n' & [= <- _] & ?) end.
Qed.

(** A document opened: its value, and the byte the value starts with. *)
Lemma open_doc d s sh :
  is_doc d s -> json_shape s = Some sh ->
  exists c x q w2, skip_ws s = String c (x +:+ w2) /\ ws w2 /\ jtext KVal d (String c x) q
    /\ 2 * String.length x + 2 <= parse_fuel s /\
    match sh with
    | SArr l => c = Ascii.ascii_of_nat 91 /\ l = raw_elems s
    | SObj l => c = Ascii.ascii_of_nat 123 /\ l = raw_members s
    | SStr v => c = dquote /\ exists b k, x = b +:+ byte_str 34 /\ sbody b k /\ v = unquote b
    | _ => True
    end.
Proof.
  intros (w1 & p & w2 & -> & H1 & H2 & q & H) Hs.
  destruct (jtext_head _ _ _ _ H) as (c & x & -> & Hc).
  destruct (parse_doc w1 (String c x) w2 q H1 H2) as (v & Ep & Ev).
  { eapply jtext_depth; [|exact H]. lia. }
  exists c, x, q, w2. split_and!; [|done..| |].
  - rewrite skip_ws_app by done. by destruct (jtext_skip _ _ _ _ w2 H) as (-> & _ & _).
  - unfold parse_fuel. rewrite !str_length_app. simpl. lia.
  - unfold json_shape in Hs. rewrite Ep in Hs. cbn [mbind option_bind] in Hs. injection Hs as <-.
    change (String c x +:+ w2) with (String c (x +:+ w2)) in Ev. pose proof (pval_head _ _ _ _ _ _ Ev) as Hh.
    destruct v; try done; apply is_c_eq in Hh as ->; [|by split..].
    split; [done|]. inversion H; subst.
    + exists b, c. split_and!; [done..|].
      destruct (parse_fuel _); [discriminate|].
      change (String (Ascii.ascii_of_nat 34) ((b +:+ String dquote "") +:+ w2)) with (quoted b +:+ w2) in Ev.
      rewrite (pval_quoted _ _ b c) in Ev by done. congruence.
    + by match goal with H : In _ _ |- _ => destruct H as [E|[E|[E|[]]]] end.
    + by match goal with H : num_text _ |- _ => destruct (num_head _ H) as (c' & n' & [= <- _] & ?) end.
Qed.

Lemma shape_elems d s l :
  is_doc d s -> json_shape s = Some (SArr l) -> Forall (is_value (d + 1)) l.
Proof.
  intros Hd Hs. destruct (open_doc d s _ Hd Hs) as (c & x & q & w2 & E & H2 & H & Hf & -> & ->).
  unfold raw_elems. rewrite E. cbn [str_drop].
  apply jtext_arr_inv in H as [(w & -> & Hw & _)|(w & p & q' & -> & Hw & Hp & _)].
  - rewrite str_app_assoc, b1_app, skip_ws_b1, take_b1 by done. constructor.
  - rewrite str_app_assoc, skip_ws_app by done.
    destruct (jtext_skip _ _ _ _ w2 Hp) as (-> & -> & _).
    destruct (jtext_parse _ _ _ _ Hp) as [l Hl]. rewrite str_length_app in Hf.
    specialize (Hl (parse_fuel s) w2 ltac:(lia)).
    rewrite (proj1 (proj2 (parse_depth _)) (d + 1)%N 1%N _ _ ltac:(lia) Hl).
    apply (proj1 (proj2 (pval_jtext _))) in Hl as [_ Hl]. by apply Forall_map.
Qed.

Lemma shape_members d s l :
  is_doc d s -> json_shape s = Some (SObj l) ->
  Forall (fun m => is_value (d + 1) m.2 /\ utf8_valid m.1 = true) l.
Proof.
  intros Hd Hs. destruct (open_doc d s _ Hd Hs) as (c & x & q & w2 & E & H2 & H & Hf & -> & ->).
  unfold raw_members. rewrite E. cbn [str_drop].
  apply jtext_obj_inv in H as [(w & -> & Hw & _)|(w & p & q' & -> & Hw & Hp & _)].
  - rewrite str_app_assoc, b1_app, skip_ws_b1, take_b1 by done. constructor.
  - rewrite str_app_assoc, skip_ws_app by done.
    destruct (jtext_skip _ _ _ _ w2 Hp) as (-> & _ & ->).
    destruct (jtext_parse _ _ _ _ Hp) as [l Hl]. rewrite str_length_app in Hf.
    specialize (Hl (parse_fuel s) w2 ltac:(lia)).
    rewrite (proj2 (proj2 (parse_depth _)) (d + 1)%N 1%N _ _ ltac:(lia) Hl).
    apply (proj2 (proj2 (pval_jtext _))) in Hl as [_ Hl]. apply Forall_map.
    eapply Forall_impl; [exact Hl|]. intros m [Hv (b & k & Hb & Em)]. split; [exact Hv|].
    simpl. rewrite Em. by eapply unquote_utf8.
Qed.

Lemma shape_string d s v :
  is_doc d s -> json_shape s = Some (SStr v) -> utf8_valid v = true.
Proof.
  intros Hd Hs.
  destruct (open_doc d s _ Hd Hs) as (c & x & q & w2 & _ & _ & _ & _ & _ & b & k & _ & Hb & ->).
  by eapply unquote_utf8.
Qed.

(** ** Printing *)

Lemma join_cons x y l : join_comma (x :: y :: l) = x +:+ b1 44 (join_comma (y :: l)).
Proof. reflexivity. Qed.

Lemma join_one x : join_comma [x] = x.
Proof. apply str_app_nil_r. Qed.

Lemma elems_text d l :
  l <> [] -> Forall (compact_text d) l ->
  jtext KElems d (join_comma l +:+ b1 93 "") (join_comma l +:+ b1 93 "").
Proof.
  intros Hn H. induction H as [|x [|y l] Hx Hl IH]; [done| |].
  - rewrite join_one. apply (jt_last d x x ""); [done|apply ws_nil].
  - rewrite join_cons, str_app_assoc, b1_app.
    apply (jt_more d x x "" ""); [done|apply ws_nil..|by apply IH].
Qed.

Lemma elems_parse d f l r :
  l <> [] -> Forall (compact_text d) l -> 2 * String.length (join_comma l) + 1 <= f ->
  exists vs, pelems f d (join_comma l +:+ b1 93 r) = Some (vs, r) /\ map snd vs = l.
Proof.
  intros Hn H. revert f. induction H as [|x [|y l] Hx Hl IH]; intros f Hf; [done| |].
  - rewrite join_one in *. destruct f as [|f]; [lia|].
    destruct (jtext_parse _ _ _ _ Hx) as [v Hv]. exists [(v, x)]. split; [|done].
    apply (pelems_value f d x v "" 93 r); [apply ws_nil|by right|].
    intros r' Hr. apply Hv; [lia|done].
  - rewrite join_cons in *. rewrite str_length_app in Hf. cbn [b1 String.length] in Hf.
    destruct f as [|f]; [lia|]. destruct (jtext_parse _ _ _ _ Hx) as [v Hv].
    rewrite str_app_assoc, b1_app.
    destruct (IH ltac:(done) f ltac:(lia)) as (vs & E & Em). exists ((v, x) :: vs).
    split; [|simpl; by f_equal].
    etrans; [apply (pelems_value f d x v "" 44 (join_comma (y :: l) +:+ b1 93 r));
             [apply ws_nil|by left|intros r' Hr; apply Hv; [lia|done]]|].
    cbn [Nat.eqb].
    assert (skip_ws (join_comma (y :: l) +:+ b1 93 r) = join_comma (y :: l) +:+ b1 93 r) as ->.
    { pose proof (elems_text d (y :: l) ltac:(done) Hl) as T.
      destruct (jtext_skip _ _ _ _ r T) as (S & _ & _). by rewrite str_app_assoc, b1_app in S. }
    by rewrite E.
Qed.

Lemma print_array_b1 l : print_array l = b1 91 (join_comma l +:+ b1 93 "").
Proof. reflexivity. Qed.

Lemma print_array_text d l :
  (d < max_depth)%N -> Forall (compact_text (d + 1)) l -> compact_text d (print_array l).
Proof.
  intros Hd H. rewrite print_array_b1. destruct l as [|x l].
  - apply (jt_arr_nil d ""); [apply ws_nil|done].
  - apply (jt_arr d ""); [apply ws_nil|done|by apply elems_text].
Qed.

Lemma compact_shape s c x :
  compact_text 0 s -> s = String c x ->
  exists v, json_parse s = Some v /\ pval (parse_fuel s) 0 (String c x) = Some (v, "").
Proof.
  intros H ->. destruct (parse_doc "" (String c x) "" (String c x) ws_nil ws_nil H) as (v & E & Ev).
  exists v. change ("" +:+ String c x +:+ "") with (String c x +:+ "") in *.
  rewrite str_app_nil_r in *. done.
Qed.

Lemma shape_print_array l :
  Forall (compact_text 1) l -> json_shape (print_array l) = Some (SArr l).
Proof.
  intros H. pose proof (print_array_text 0 l ltac:(done) H) as T.
  destruct (compact_shape _ _ _ T (print_array_b1 l)) as (v & E & Ev).
  unfold json_shape. rewrite E. cbn [mbind option_bind].
  pose proof (pval_head _ _ _ _ _ _ Ev) as Hh.
  destruct v; try done; [by destruct Hh as [Hh _]..|].
  do 2 f_equal. unfold raw_elems. rewrite print_array_b1.
  change (skip_ws (b1 91 ?x)) with (b1 91 x).
  change (str_drop 1 (b1 91 ?x)) with x.
  destruct l as [|x l']; [done|].
  pose proof (elems_text 1 (x :: l') ltac:(done) H) as Tl.
  destruct (jtext_skip _ _ _ _ "" Tl) as (S1 & S2 & _). rewrite str_app_nil_r in S1, S2.
  rewrite S1, S2.
  destruct (elems_parse 1 (parse_fuel (b1 91 (join_comma (x :: l') +:+ b1 93 ""))) (x :: l') "")
    as (vs & Ep & Em); [done|done| |by rewrite Ep].
  unfold parse_fuel, b1. cbn [String.length]. rewrite str_length_app. lia.
Qed.

(** Members: name and compacted value. *)
Definition member_text (m : string * string) : string := json_quote m.1 +:+ ":" +:+ m.2.

Lemma member_text_quoted m : member_text m = quoted (quote m.1) +:+ b1 58 m.2.
Proof. reflexivity. Qed.

Lemma members_text d l :
  l <> [] -> Forall (fun m => compact_text d m.2) l ->
  jtext KMembers d (join_comma (map member_text l) +:+ b1 125 "")
                   (join_comma (map member_text l) +:+ b1 125 "").
Proof.
  intros Hn H. induction H as [|x [|y l] Hx Hl IH]; [done| |].
  - cbn [map]. rewrite join_one, member_text_quoted, !str_app_assoc.
    apply (jt_last_m d (quote x.1) _ "" "" x.2 x.2 ""); auto using ws_nil, quote_sbody.
  - cbn [map] in *. rewrite join_cons, str_app_assoc, b1_app, member_text_quoted, !str_app_assoc, b1_app.
    apply (jt_more_m d (quote x.1) _ "" "" x.2 x.2 "" ""); auto using ws_nil, quote_sbody.
Qed.

Lemma members_parse d f l r :
  l <> [] -> Forall (fun m => compact_text d m.2 /\ utf8_valid m.1 = true) l ->
  2 * String.length (join_comma (map member_text l)) + 1 <= f ->
  exists vs, pmembers f d (join_comma (map member_text l) +:+ b1 125 r) = Some (vs, r)
    /\ map (fun kv => (kv.1, kv.2.2)) vs = l.
Proof.
  intros Hn H. revert f. induction H as [|[k x] [|y l] [Hx Hk] Hl IH]; intros f Hf; [done| |];
    cbn [fst snd] in *.
  - cbn [map] in *. rewrite join_one, member_text_quoted in *. cbn [fst snd] in *.
    rewrite !str_length_app in Hf. cbn [b1 String.length] in Hf. destruct f as [|f]; [lia|].
    destruct (jtext_parse _ _ _ _ Hx) as [v Hv]. exists [(k, (v, x))]. split; [|done].
    rewrite !str_app_assoc. destruct (jtext_head _ _ _ _ Hx) as (c & x' & Ex & Hc).
    pose proof (pmembers_value f d (quote k) (quote k) "" "" x v c x' "" 125 r
      (quote_sbody k) ws_nil ws_nil ws_nil ltac:(by right) Ex Hc) as P.
    rewrite unquote_quote in P by done. apply P. intros r' Hr. apply Hv; [lia|done].
  - cbn [map] in *. rewrite join_cons, (member_text_quoted (k, x)) in *. cbn [fst snd] in *.
    rewrite !str_length_app in Hf. cbn [b1 String.length] in Hf. destruct f as [|f]; [lia|].
    destruct (jtext_parse _ _ _ _ Hx) as [v Hv].
    destruct (IH ltac:(done) f ltac:(lia)) as (vs & E & Em). exists ((k, (v, x)) :: vs).
    rewrite !str_app_assoc, b1_app. destruct (jtext_head _ _ _ _ Hx) as (c & x' & Ex & Hc).
    pose proof (pmembers_value f d (quote k) (quote k) "" "" x v c x' "" 44
      (join_comma (member_text y :: map member_text l) +:+ b1 125 r)
      (quote_sbody k) ws_nil ws_nil ws_nil ltac:(by left) Ex Hc) as P.
    rewrite unquote_quote in P by done. split; [|simpl; by f_equal].
    etrans; [apply P; intros r' Hr; apply Hv; [lia|done]|]. cbn [Nat.eqb].
    assert (Hl' : Forall (fun m => compact_text d m.2) (y :: l)).
    { eapply Forall_impl; [exact Hl|]. by intros m [? _]. }
    pose proof (members_text d (y :: l) ltac:(done) Hl') as T. cbn [map] in T.
    destruct (jtext_skip _ _ _ _ r T) as (S & _ & _). rewrite str_app_assoc, b1_app in S.
    change ("" +:+ r) with r in S. by rewrite S, E.
Qed.

Lemma print_members_b1 l : print_members l = b1 123 (join_comma (map member_text l) +:+ b1 125 "").
Proof.
  unfold print_members. f_equal. f_equal. apply (f_equal join_comma), map_ext. by intros [k v].
Qed.

Lemma print_members_text d l :
  (d < max_depth)%N -> Forall (fun m => compact_text (d + 1) m.2) l ->
  compact_text d (print_members l).
Proof.
  intros Hd H. rewrite print_members_b1. destruct l as [|x l].
  - apply (jt_obj_nil d ""); [apply ws_nil|done].
  - exact (jt_obj d "" _ _ ws_nil Hd (members_text _ (x :: l) ltac:(done) H)).
Qed.

Lemma shape_print_members l :
  Forall (fun m => compact_text 1 m.2 /\ utf8_valid m.1 = true) l ->
  json_shape (print_members l) = Some (SObj l).
Proof.
  intros H. assert (H' : Forall (fun m => compact_text 1 m.2) l).
  { eapply Forall_impl; [exact H|]. by intros m [? _]. }
  pose proof (print_members_text 0 l ltac:(done) H') as T.
  destruct (compact_shape _ _ _ T (print_members_b1 l)) as (v & E & Ev).
  unfold json_shape. rewrite E. cbn [mbind option_bind].
  pose proof (pval_head _ _ _ _ _ _ Ev) as Hh.
  destruct v; try done; [by destruct Hh as (_ & Hh & _)..|].
  do 2 f_equal. unfold raw_members. rewrite print_members_b1.
  change (skip_ws (b1 123 ?x)) with (b1 123 x).
  change (str_drop 1 (b1 123 ?x)) with x.
  destruct l as [|x l']; [done|].
  pose proof (members_text 1 (x :: l') ltac:(done) H') as Tl.
  destruct (jtext_skip _ _ _ _ "" Tl) as (S1 & _ & S2). rewrite str_app_nil_r in S1, S2.
  rewrite S1, S2.
  destruct (members_parse 1 (parse_fuel (b1 123 (join_comma (map member_text (x :: l')) +:+ b1 125 "")))
    (x :: l') "") as (vs & Ep & Em); [done|done| |by rewrite Ep].
  unfold parse_fuel, b1. cbn [String.length]. rewrite str_length_app. lia.
Qed.

(** A string literal. *)
Lemma json_quote_text d v : compact_text d (json_quote v).
Proof. apply jt_str, quote_sbody. Qed.

Lemma shape_json_quote v :
  utf8_valid v = true -> json_shape (json_quote v) = Some (SStr v).
Proof.
  intros H. destruct (compact_shape (json_quote v) dquote _ (json_quote_text 0 v) eq_refl)
    as (x & E & Ev).
  unfold json_shape. rewrite E. cbn [mbind option_bind].
  change (String dquote _) with (quoted (quote v)) in Ev. rewrite <- (str_app_nil_r (quoted _)) in Ev.
  unfold parse_fuel in Ev. 
  replace (2 * String.length (json_quote v) + 2) with (S (2 * String.length (json_quote v) + 1)) in Ev by lia.
  rewrite (pval_quoted _ _ _ (quote v)) in Ev by apply quote_sbody.
  rewrite unquote_quote in Ev by done. by injection Ev as <-.
Qed.
