(* ===== verification/Apicompat.v ===== *)
(** * Wire types of package apicompat

    The Go structs of [src/backend/internal/pkg/apicompat/types.go] that the
    converters read and write, one Record per struct with the struct's fields in
    the struct's order (each prefixed by the initials of the struct).  A pointer
    or an optional field is an [option]; a [json.RawMessage] is its bytes (nil
    and empty are both ""); [zero_X] is Go's zero value of [X], the base of
    every composite literal. *)

From S2P Require Import Prelude.
From Stdlib Require Import SpecFloat.
Local Open Scope string_scope.

(** [float64]: the numbers of IEEE 754 binary64, as the Standard Library specifies
    them. *)
Abbreviation float64 := spec_float.

Record AnthropicImageSource := MkAnthropicImageSource {
  ais_Type : string;
  ais_MediaType : string;
  ais_Data : string;
}.
#[export] Instance eta_AnthropicImageSource : Eta AnthropicImageSource := fun r =>
  MkAnthropicImageSource (ais_Type r) (ais_MediaType r) (ais_Data r).
Definition zero_AnthropicImageSource : AnthropicImageSource :=
  MkAnthropicImageSource "" "" "".

Record AnthropicCacheControl := MkAnthropicCacheControl {
  acc_Type : string;
  acc_TTL : string;
}.
#[export] Instance eta_AnthropicCacheControl : Eta AnthropicCacheControl := fun r =>
  MkAnthropicCacheControl (acc_Type r) (acc_TTL r).
Definition zero_AnthropicCacheControl : AnthropicCacheControl :=
  MkAnthropicCacheControl "" "".

Record AnthropicContentBlock := MkAnthropicContentBlock {
  acb_Type : string;
  acb_CacheControl : option AnthropicCacheControl;
  acb_Text : string;
  acb_Thinking : string;
  acb_Signature : string;
  acb_Data : string;
  acb_Source : option AnthropicImageSource;
  acb_ID : string;
  acb_Name : string;
  acb_Input : string;
  acb_ToolUseID : string;
  acb_Content : string;
  acb_IsError : bool;
}.
#[export] Instance eta_AnthropicContentBlock : Eta AnthropicContentBlock := fun r =>
  MkAnthropicContentBlock (acb_Type r) (acb_CacheControl r) (acb_Text r) (acb_Thinking r)
    (acb_Signature r) (acb_Data r) (acb_Source r) (acb_ID r) (acb_Name r) (acb_Input r)
    (acb_ToolUseID r) (acb_Content r) (acb_IsError r).
Definition zero_AnthropicContentBlock : AnthropicContentBlock :=
  MkAnthropicContentBlock "" None "" "" "" "" None "" "" "" "" "" false.

Record AnthropicPromptTokensDetails := MkAnthropicPromptTokensDetails {
  aptd_CachedTokens : Z;
}.
#[export] Instance eta_AnthropicPromptTokensDetails : Eta AnthropicPromptTokensDetails := fun
    r =>
  MkAnthropicPromptTokensDetails (aptd_CachedTokens r).
Definition zero_AnthropicPromptTokensDetails : AnthropicPromptTokensDetails :=
  MkAnthropicPromptTokensDetails 0%Z.

Record AnthropicUsage := MkAnthropicUsage {
  au_InputTokens : Z;
  au_OutputTokens : Z;
  au_CacheCreationInputTokens : Z;
  au_CacheReadInputTokens : Z;
  au_PromptTokens : Z;
  au_CachedTokens : Z;
  au_PromptTokensDetails : option AnthropicPromptTokensDetails;
  au_PromptCacheHitTokens : option Z;
  au_PromptCacheMissTokens : option Z;
}.
#[export] Instance eta_AnthropicUsage : Eta AnthropicUsage := fun r =>
  MkAnthropicUsage (au_InputTokens r) (au_OutputTokens r) (au_CacheCreationInputTokens r)
    (au_CacheReadInputTokens r) (au_PromptTokens r) (au_CachedTokens r)
    (au_PromptTokensDetails r) (au_PromptCacheHitTokens r) (au_PromptCacheMissTokens r).
Definition zero_AnthropicUsage : AnthropicUsage :=
  MkAnthropicUsage 0%Z 0%Z 0%Z 0%Z 0%Z 0%Z None None None.

Record AnthropicResponse := MkAnthropicResponse {
  ar_ID : string;
  ar_Type : string;
  ar_Role : string;
  ar_Content : list AnthropicContentBlock;
  ar_Model : string;
  ar_StopReason : option string;
  ar_StopSequence : option string;
  ar_Usage : AnthropicUsage;
}.
#[export] Instance eta_AnthropicResponse : Eta AnthropicResponse := fun r =>
  MkAnthropicResponse (ar_ID r) (ar_Type r) (ar_Role r) (ar_Content r) (ar_Model r)
    (ar_StopReason r) (ar_StopSequence r) (ar_Usage r).
Definition zero_AnthropicResponse : AnthropicResponse :=
  MkAnthropicResponse "" "" "" [] "" None None zero_AnthropicUsage.

Record AnthropicDelta := MkAnthropicDelta {
  ad_Type : string;
  ad_Text : string;
  ad_PartialJSON : string;
  ad_Thinking : string;
  ad_Signature : string;
  ad_Data : string;
  ad_StopReason : string;
  ad_StopSequence : option string;
}.
#[export] Instance eta_AnthropicDelta : Eta AnthropicDelta := fun r =>
  MkAnthropicDelta (ad_Type r) (ad_Text r) (ad_PartialJSON r) (ad_Thinking r) (ad_Signature r)
    (ad_Data r) (ad_StopReason r) (ad_StopSequence r).
Definition zero_AnthropicDelta : AnthropicDelta :=
  MkAnthropicDelta "" "" "" "" "" "" "" None.

Record AnthropicStreamEvent := MkAnthropicStreamEvent {
  ase_Type : string;
  ase_Message : option AnthropicResponse;
  ase_Index : option Z;
  ase_ContentBlock : option AnthropicContentBlock;
  ase_Delta : option AnthropicDelta;
  ase_Usage : option AnthropicUsage;
}.
#[export] Instance eta_AnthropicStreamEvent : Eta AnthropicStreamEvent := fun r =>
  MkAnthropicStreamEvent (ase_Type r) (ase_Message r) (ase_Index r) (ase_ContentBlock r)
    (ase_Delta r) (ase_Usage r).
Definition zero_AnthropicStreamEvent : AnthropicStreamEvent :=
  MkAnthropicStreamEvent "" None None None None None.

Record ResponsesContentPart := MkResponsesContentPart {
  rcp_PromptCacheBreakpoint : string;
  rcp_Type : string;
  rcp_Text : string;
  rcp_ImageURL : string;
  rcp_Filename : string;
  rcp_FileData : string;
  rcp_FileID : string;
}.
#[export] Instance eta_ResponsesContentPart : Eta ResponsesContentPart := fun r =>
  MkResponsesContentPart (rcp_PromptCacheBreakpoint r) (rcp_Type r) (rcp_Text r) (rcp_ImageURL
    r) (rcp_Filename r) (rcp_FileData r) (rcp_FileID r).
Definition zero_ResponsesContentPart : ResponsesContentPart :=
  MkResponsesContentPart "" "" "" "" "" "" "".

Record ResponsesError := MkResponsesError {
  rerr_Code : string;
  rerr_Message : string;
}.
#[export] Instance eta_ResponsesError : Eta ResponsesError := fun r =>
  MkResponsesError (rerr_Code r) (rerr_Message r).
Definition zero_ResponsesError : ResponsesError :=
  MkResponsesError "" "".

Record ResponsesIncompleteDetails := MkResponsesIncompleteDetails {
  rid_Reason : string;
}.
#[export] Instance eta_ResponsesIncompleteDetails : Eta ResponsesIncompleteDetails := fun r =>
  MkResponsesIncompleteDetails (rid_Reason r).
Definition zero_ResponsesIncompleteDetails : ResponsesIncompleteDetails :=
  MkResponsesIncompleteDetails "".

Record WebSearchAction := MkWebSearchAction {
  wsa_Type : string;
  wsa_Query : string;
}.
#[export] Instance eta_WebSearchAction : Eta WebSearchAction := fun r =>
  MkWebSearchAction (wsa_Type r) (wsa_Query r).
Definition zero_WebSearchAction : WebSearchAction :=
  MkWebSearchAction "" "".

Record ResponsesSummary := MkResponsesSummary {
  rsum_Type : string;
  rsum_Text : string;
}.
#[export] Instance eta_ResponsesSummary : Eta ResponsesSummary := fun r =>
  MkResponsesSummary (rsum_Type r) (rsum_Text r).
Definition zero_ResponsesSummary : ResponsesSummary :=
  MkResponsesSummary "" "".

Record ResponsesOutput := MkResponsesOutput {
  ro_Type : string;
  ro_ID : string;
  ro_Role : string;
  ro_Content : list ResponsesContentPart;
  ro_Status : string;
  ro_EncryptedContent : string;
  ro_Summary : list ResponsesSummary;
  ro_CallID : string;
  ro_Name : string;
  ro_Arguments : string;
  ro_Namespace : string;
  ro_Input : string;
  ro_Action : option WebSearchAction;
}.
#[export] Instance eta_ResponsesOutput : Eta ResponsesOutput := fun r =>
  MkResponsesOutput (ro_Type r) (ro_ID r) (ro_Role r) (ro_Content r) (ro_Status r)
    (ro_EncryptedContent r) (ro_Summary r) (ro_CallID r) (ro_Name r) (ro_Arguments r)
    (ro_Namespace r) (ro_Input r) (ro_Action r).
Definition zero_ResponsesOutput : ResponsesOutput :=
  MkResponsesOutput "" "" "" [] "" "" [] "" "" "" "" "" None.

Record ResponsesInputTokensDetails := MkResponsesInputTokensDetails {
  ritd_CachedTokens : Z;
  ritd_AudioTokens : Z;
  ritd_CacheCreationTokens : Z;
  ritd_CacheWriteTokens : Z;
}.
#[export] Instance eta_ResponsesInputTokensDetails : Eta ResponsesInputTokensDetails := fun r =>
  MkResponsesInputTokensDetails (ritd_CachedTokens r) (ritd_AudioTokens r)
    (ritd_CacheCreationTokens r) (ritd_CacheWriteTokens r).
Definition zero_ResponsesInputTokensDetails : ResponsesInputTokensDetails :=
  MkResponsesInputTokensDetails 0%Z 0%Z 0%Z 0%Z.

Record ResponsesOutputTokensDetails := MkResponsesOutputTokensDetails {
  rotd_ReasoningTokens : Z;
  rotd_AudioTokens : Z;
  rotd_AcceptedPredictionTokens : Z;
  rotd_RejectedPredictionTokens : Z;
}.
#[export] Instance eta_ResponsesOutputTokensDetails : Eta ResponsesOutputTokensDetails := fun
    r =>
  MkResponsesOutputTokensDetails (rotd_ReasoningTokens r) (rotd_AudioTokens r)
    (rotd_AcceptedPredictionTokens r) (rotd_RejectedPredictionTokens r).
Definition zero_ResponsesOutputTokensDetails : ResponsesOutputTokensDetails :=
  MkResponsesOutputTokensDetails 0%Z 0%Z 0%Z 0%Z.

Record ResponsesUsage := MkResponsesUsage {
  ru_InputTokens : Z;
  ru_OutputTokens : Z;
  ru_TotalTokens : Z;
  ru_CacheCreationInputTokens : Z;
  ru_InputTokensDetails : option ResponsesInputTokensDetails;
  ru_OutputTokensDetails : option ResponsesOutputTokensDetails;
}.
#[export] Instance eta_ResponsesUsage : Eta ResponsesUsage := fun r =>
  MkResponsesUsage (ru_InputTokens r) (ru_OutputTokens r) (ru_TotalTokens r)
    (ru_CacheCreationInputTokens r) (ru_InputTokensDetails r) (ru_OutputTokensDetails r).
Definition zero_ResponsesUsage : ResponsesUsage :=
  MkResponsesUsage 0%Z 0%Z 0%Z 0%Z None None.

Record ResponsesResponse := MkResponsesResponse {
  rr_ID : string;
  rr_Object : string;
  rr_CreatedAt : Z;
  rr_Model : string;
  rr_Status : string;
  rr_Output : list ResponsesOutput;
  rr_Usage : option ResponsesUsage;
  rr_ServiceTier : string;
  rr_IncompleteDetails : option ResponsesIncompleteDetails;
  rr_Error : option ResponsesError;
}.
#[export] Instance eta_ResponsesResponse : Eta ResponsesResponse := fun r =>
  MkResponsesResponse (rr_ID r) (rr_Object r) (rr_CreatedAt r) (rr_Model r) (rr_Status r)
    (rr_Output r) (rr_Usage r) (rr_ServiceTier r) (rr_IncompleteDetails r) (rr_Error r).
Definition zero_ResponsesResponse : ResponsesResponse :=
  MkResponsesResponse "" "" 0%Z "" "" [] None "" None None.

Record ResponsesStreamEvent := MkResponsesStreamEvent {
  rse_Type : string;
  rse_Response : option ResponsesResponse;
  rse_Usage : option ResponsesUsage;
  rse_Item : option ResponsesOutput;
  rse_OutputIndex : Z;
  rse_ContentIndex : Z;
  rse_Delta : string;
  rse_Text : string;
  rse_ItemID : string;
  rse_CallID : string;
  rse_Name : string;
  rse_Arguments : string;
  rse_Input : string;
  rse_SummaryIndex : Z;
  rse_Part : option ResponsesContentPart;
  rse_Code : string;
  rse_Param : string;
  rse_SequenceNumber : Z;
}.
#[export] Instance eta_ResponsesStreamEvent : Eta ResponsesStreamEvent := fun r =>
  MkResponsesStreamEvent (rse_Type r) (rse_Response r) (rse_Usage r) (rse_Item r)
    (rse_OutputIndex r) (rse_ContentIndex r) (rse_Delta r) (rse_Text r) (rse_ItemID r)
    (rse_CallID r) (rse_Name r) (rse_Arguments r) (rse_Input r) (rse_SummaryIndex r) (rse_Part
    r) (rse_Code r) (rse_Param r) (rse_SequenceNumber r).
Definition zero_ResponsesStreamEvent : ResponsesStreamEvent :=
  MkResponsesStreamEvent "" None None None 0%Z 0%Z "" "" "" "" "" "" "" 0%Z None "" "" 0%Z.

Record ChatFunctionCall := MkChatFunctionCall {
  cfc_Name : string;
  cfc_Arguments : string;
}.
#[export] Instance eta_ChatFunctionCall : Eta ChatFunctionCall := fun r =>
  MkChatFunctionCall (cfc_Name r) (cfc_Arguments r).
Definition zero_ChatFunctionCall : ChatFunctionCall :=
  MkChatFunctionCall "" "".

Record ChatToolCall := MkChatToolCall {
  ctc_Index : option Z;
  ctc_ID : string;
  ctc_Type : string;
  ctc_Function : ChatFunctionCall;
}.
#[export] Instance eta_ChatToolCall : Eta ChatToolCall := fun r =>
  MkChatToolCall (ctc_Index r) (ctc_ID r) (ctc_Type r) (ctc_Function r).
Definition zero_ChatToolCall : ChatToolCall :=
  MkChatToolCall None "" "" zero_ChatFunctionCall.

Record ChatMessage := MkChatMessage {
  cm_Role : string;
  cm_Content : string;
  cm_ReasoningContent : string;
  cm_Reasoning : string;
  cm_Name : string;
  cm_ToolCalls : list ChatToolCall;
  cm_ToolCallID : string;
  cm_FunctionCall : option ChatFunctionCall;
}.
#[export] Instance eta_ChatMessage : Eta ChatMessage := fun r =>
  MkChatMessage (cm_Role r) (cm_Content r) (cm_ReasoningContent r) (cm_Reasoning r) (cm_Name
    r) (cm_ToolCalls r) (cm_ToolCallID r) (cm_FunctionCall r).
Definition zero_ChatMessage : ChatMessage :=
  MkChatMessage "" "" "" "" "" [] "" None.

Record ChatTokenDetails := MkChatTokenDetails {
  ctd_CachedTokens : Z;
  ctd_AudioTokens : Z;
  ctd_CacheCreationTokens : Z;
  ctd_CacheWriteTokens : Z;
  ctd_ReasoningTokens : Z;
  ctd_AcceptedPredictionTokens : Z;
  ctd_RejectedPredictionTokens : Z;
}.
#[export] Instance eta_ChatTokenDetails : Eta ChatTokenDetails := fun r =>
  MkChatTokenDetails (ctd_CachedTokens r) (ctd_AudioTokens r) (ctd_CacheCreationTokens r)
    (ctd_CacheWriteTokens r) (ctd_ReasoningTokens r) (ctd_AcceptedPredictionTokens r)
    (ctd_RejectedPredictionTokens r).
Definition zero_ChatTokenDetails : ChatTokenDetails :=
  MkChatTokenDetails 0%Z 0%Z 0%Z 0%Z 0%Z 0%Z 0%Z.

Record ChatUsage := MkChatUsage {
  cu_PromptTokens : Z;
  cu_CompletionTokens : Z;
  cu_TotalTokens : Z;
  cu_PromptTokensDetails : option ChatTokenDetails;
  cu_CompletionTokensDetails : option ChatTokenDetails;
}.
#[export] Instance eta_ChatUsage : Eta ChatUsage := fun r =>
  MkChatUsage (cu_PromptTokens r) (cu_CompletionTokens r) (cu_TotalTokens r)
    (cu_PromptTokensDetails r) (cu_CompletionTokensDetails r).
Definition zero_ChatUsage : ChatUsage :=
  MkChatUsage 0%Z 0%Z 0%Z None None.

Record ChatChoice := MkChatChoice {
  cc_Index : Z;
  cc_Message : ChatMessage;
  cc_FinishReason : string;
}.
#[export] Instance eta_ChatChoice : Eta ChatChoice := fun r =>
  MkChatChoice (cc_Index r) (cc_Message r) (cc_FinishReason r).
Definition zero_ChatChoice : ChatChoice :=
  MkChatChoice 0%Z zero_ChatMessage "".

Record ChatCompletionsResponse := MkChatCompletionsResponse {
  ccr_ID : string;
  ccr_Object : string;
  ccr_Created : Z;
  ccr_Model : string;
  ccr_Choices : list ChatChoice;
  ccr_Usage : option ChatUsage;
  ccr_SystemFingerprint : string;
  ccr_ServiceTier : string;
}.
#[export] Instance eta_ChatCompletionsResponse : Eta ChatCompletionsResponse := fun r =>
  MkChatCompletionsResponse (ccr_ID r) (ccr_Object r) (ccr_Created r) (ccr_Model r)
    (ccr_Choices r) (ccr_Usage r) (ccr_SystemFingerprint r) (ccr_ServiceTier r).
Definition zero_ChatCompletionsResponse : ChatCompletionsResponse :=
  MkChatCompletionsResponse "" "" 0%Z "" [] None "" "".

Record ChatDelta := MkChatDelta {
  cdl_Role : string;
  cdl_Content : option string;
  cdl_ReasoningContent : option string;
  cdl_Reasoning : option string;
  cdl_ToolCalls : list ChatToolCall;
}.
#[export] Instance eta_ChatDelta : Eta ChatDelta := fun r =>
  MkChatDelta (cdl_Role r) (cdl_Content r) (cdl_ReasoningContent r) (cdl_Reasoning r)
    (cdl_ToolCalls r).
Definition zero_ChatDelta : ChatDelta :=
  MkChatDelta "" None None None [].

Record ChatChunkChoice := MkChatChunkChoice {
  ccc_Index : Z;
  ccc_Delta : ChatDelta;
  ccc_FinishReason : option string;
}.
#[export] Instance eta_ChatChunkChoice : Eta ChatChunkChoice := fun r =>
  MkChatChunkChoice (ccc_Index r) (ccc_Delta r) (ccc_FinishReason r).
Definition zero_ChatChunkChoice : ChatChunkChoice :=
  MkChatChunkChoice 0%Z zero_ChatDelta None.

Record ChatCompletionsChunk := MkChatCompletionsChunk {
  chk_ID : string;
  chk_Object : string;
  chk_Created : Z;
  chk_Model : string;
  chk_Choices : list ChatChunkChoice;
  chk_Usage : option ChatUsage;
  chk_SystemFingerprint : string;
  chk_ServiceTier : string;
}.
#[export] Instance eta_ChatCompletionsChunk : Eta ChatCompletionsChunk := fun r =>
  MkChatCompletionsChunk (chk_ID r) (chk_Object r) (chk_Created r) (chk_Model r) (chk_Choices
    r) (chk_Usage r) (chk_SystemFingerprint r) (chk_ServiceTier r).
Definition zero_ChatCompletionsChunk : ChatCompletionsChunk :=
  MkChatCompletionsChunk "" "" 0%Z "" [] None "" "".

Record AnthropicMessage := MkAnthropicMessage {
  am_Role : string;
  am_Content : string;
}.
#[export] Instance eta_AnthropicMessage : Eta AnthropicMessage := fun r =>
  MkAnthropicMessage (am_Role r) (am_Content r).
Definition zero_AnthropicMessage : AnthropicMessage :=
  MkAnthropicMessage "" "".

Record AnthropicTool := MkAnthropicTool {
  at_Type : string;
  at_Name : string;
  at_Description : string;
  at_InputSchema : string;
  at_CacheControl : option AnthropicCacheControl;
}.
#[export] Instance eta_AnthropicTool : Eta AnthropicTool := fun r =>
  MkAnthropicTool (at_Type r) (at_Name r) (at_Description r) (at_InputSchema r)
    (at_CacheControl r).
Definition zero_AnthropicTool : AnthropicTool :=
  MkAnthropicTool "" "" "" "" None.

Record AnthropicThinking := MkAnthropicThinking {
  ath_Type : string;
  ath_BudgetTokens : Z;
}.
#[export] Instance eta_AnthropicThinking : Eta AnthropicThinking := fun r =>
  MkAnthropicThinking (ath_Type r) (ath_BudgetTokens r).
Definition zero_AnthropicThinking : AnthropicThinking :=
  MkAnthropicThinking "" 0%Z.

Record AnthropicOutputConfig := MkAnthropicOutputConfig {
  aoc_Effort : string;
}.
#[export] Instance eta_AnthropicOutputConfig : Eta AnthropicOutputConfig := fun r =>
  MkAnthropicOutputConfig (aoc_Effort r).
Definition zero_AnthropicOutputConfig : AnthropicOutputConfig :=
  MkAnthropicOutputConfig "".

Record AnthropicRequest := MkAnthropicRequest {
  areq_Model : string;
  areq_MaxTokens : Z;
  areq_System : string;
  areq_Messages : list AnthropicMessage;
  areq_Tools : list AnthropicTool;
  areq_Stream : bool;
  areq_Temperature : option float64;
  areq_TopP : option float64;
  areq_StopSeqs : list string;
  areq_Thinking : option AnthropicThinking;
  areq_ToolChoice : string;
  areq_Metadata : string;
  areq_OutputConfig : option AnthropicOutputConfig;
}.
#[export] Instance eta_AnthropicRequest : Eta AnthropicRequest := fun r =>
  MkAnthropicRequest (areq_Model r) (areq_MaxTokens r) (areq_System r) (areq_Messages r)
    (areq_Tools r) (areq_Stream r) (areq_Temperature r) (areq_TopP r) (areq_StopSeqs r)
    (areq_Thinking r) (areq_ToolChoice r) (areq_Metadata r) (areq_OutputConfig r).
Definition zero_AnthropicRequest : AnthropicRequest :=
  MkAnthropicRequest "" 0%Z "" [] [] false None None [] None "" "" None.

Record ResponsesReasoning := MkResponsesReasoning {
  rre_Effort : string;
  rre_Summary : string;
}.
#[export] Instance eta_ResponsesReasoning : Eta ResponsesReasoning := fun r =>
  MkResponsesReasoning (rre_Effort r) (rre_Summary r).
Definition zero_ResponsesReasoning : ResponsesReasoning :=
  MkResponsesReasoning "" "".

Record ResponsesText := MkResponsesText {
  rtx_Format : string;
  rtx_Verbosity : string;
}.
#[export] Instance eta_ResponsesText : Eta ResponsesText := fun r =>
  MkResponsesText (rtx_Format r) (rtx_Verbosity r).
Definition zero_ResponsesText : ResponsesText :=
  MkResponsesText "" "".

Record ResponsesInputItem := MkResponsesInputItem {
  rii_Type : string;
  rii_Role : string;
  rii_Content : string;
  rii_EncryptedContent : string;
  rii_CallID : string;
  rii_Name : string;
  rii_Arguments : string;
  rii_ID : string;
  rii_Output : string;
  rii_outputRaw : string;
}.
#[export] Instance eta_ResponsesInputItem : Eta ResponsesInputItem := fun r =>
  MkResponsesInputItem (rii_Type r) (rii_Role r) (rii_Content r) (rii_EncryptedContent r)
    (rii_CallID r) (rii_Name r) (rii_Arguments r) (rii_ID r) (rii_Output r) (rii_outputRaw r).
Definition zero_ResponsesInputItem : ResponsesInputItem :=
  MkResponsesInputItem "" "" "" "" "" "" "" "" "" "".

Inductive ResponsesTool := MkResponsesTool {
  rt_Type : string;
  rt_Name : string;
  rt_Description : string;
  rt_Parameters : string;
  rt_Strict : option bool;
  rt_Tools : list ResponsesTool;
  rt_Children : list ResponsesTool;
  rt_AllowedXHandles : list string;
  rt_ExcludedXHandles : list string;
  rt_FromDate : string;
  rt_ToDate : string;
  rt_EnableImageUnderstanding : option bool;
  rt_EnableVideoUnderstanding : option bool;
}.
#[export] Instance eta_ResponsesTool : Eta ResponsesTool := fun r =>
  MkResponsesTool (rt_Type r) (rt_Name r) (rt_Description r) (rt_Parameters r) (rt_Strict r)
    (rt_Tools r) (rt_Children r) (rt_AllowedXHandles r) (rt_ExcludedXHandles r) (rt_FromDate
    r) (rt_ToDate r) (rt_EnableImageUnderstanding r) (rt_EnableVideoUnderstanding r).
Definition zero_ResponsesTool : ResponsesTool :=
  MkResponsesTool "" "" "" "" None [] [] [] [] "" "" None None.

Record ResponsesRequest := MkResponsesRequest {
  rreq_PromptCacheOptions : string;
  rreq_Model : string;
  rreq_Instructions : string;
  rreq_Input : string;
  rreq_MaxOutputTokens : option Z;
  rreq_Temperature : option float64;
  rreq_TopP : option float64;
  rreq_Stream : bool;
  rreq_Tools : list ResponsesTool;
  rreq_Include : list string;
  rreq_Store : option bool;
  rreq_ParallelToolCalls : option bool;
  rreq_Reasoning : option ResponsesReasoning;
  rreq_Text : option ResponsesText;
  rreq_ToolChoice : string;
  rreq_ServiceTier : string;
  rreq_PromptCacheKey : string;
  rreq_PreviousResponseID : string;
}.
#[export] Instance eta_ResponsesRequest : Eta ResponsesRequest := fun r =>
  MkResponsesRequest (rreq_PromptCacheOptions r) (rreq_Model r) (rreq_Instructions r)
    (rreq_Input r) (rreq_MaxOutputTokens r) (rreq_Temperature r) (rreq_TopP r) (rreq_Stream r)
    (rreq_Tools r) (rreq_Include r) (rreq_Store r) (rreq_ParallelToolCalls r) (rreq_Reasoning
    r) (rreq_Text r) (rreq_ToolChoice r) (rreq_ServiceTier r) (rreq_PromptCacheKey r)
    (rreq_PreviousResponseID r).
Definition zero_ResponsesRequest : ResponsesRequest :=
  MkResponsesRequest "" "" "" "" None None None false [] [] None None None None "" "" "" "".

Record ChatImageURL := MkChatImageURL {
  ciu_URL : string;
  ciu_Detail : string;
}.
#[export] Instance eta_ChatImageURL : Eta ChatImageURL := fun r =>
  MkChatImageURL (ciu_URL r) (ciu_Detail r).
Definition zero_ChatImageURL : ChatImageURL :=
  MkChatImageURL "" "".

Record ChatFile := MkChatFile {
  cfl_Filename : string;
  cfl_FileData : string;
  cfl_FileID : string;
}.
#[export] Instance eta_ChatFile : Eta ChatFile := fun r =>
  MkChatFile (cfl_Filename r) (cfl_FileData r) (cfl_FileID r).
Definition zero_ChatFile : ChatFile :=
  MkChatFile "" "" "".

Record ChatContentPart := MkChatContentPart {
  ccp_PromptCacheBreakpoint : string;
  ccp_Type : string;
  ccp_Text : string;
  ccp_ImageURL : option ChatImageURL;
  ccp_File : option ChatFile;
}.
#[export] Instance eta_ChatContentPart : Eta ChatContentPart := fun r =>
  MkChatContentPart (ccp_PromptCacheBreakpoint r) (ccp_Type r) (ccp_Text r) (ccp_ImageURL r)
    (ccp_File r).
Definition zero_ChatContentPart : ChatContentPart :=
  MkChatContentPart "" "" "" None None.

Record ChatFunction := MkChatFunction {
  cfn_Name : string;
  cfn_Description : string;
  cfn_Parameters : string;
  cfn_Strict : option bool;
}.
#[export] Instance eta_ChatFunction : Eta ChatFunction := fun r =>
  MkChatFunction (cfn_Name r) (cfn_Description r) (cfn_Parameters r) (cfn_Strict r).
Definition zero_ChatFunction : ChatFunction :=
  MkChatFunction "" "" "" None.

Record ChatTool := MkChatTool {
  cto_Type : string;
  cto_Function : option ChatFunction;
  cto_AllowedXHandles : list string;
  cto_ExcludedXHandles : list string;
  cto_FromDate : string;
  cto_ToDate : string;
  cto_EnableImageUnderstanding : option bool;
  cto_EnableVideoUnderstanding : option bool;
}.
#[export] Instance eta_ChatTool : Eta ChatTool := fun r =>
  MkChatTool (cto_Type r) (cto_Function r) (cto_AllowedXHandles r) (cto_ExcludedXHandles r)
    (cto_FromDate r) (cto_ToDate r) (cto_EnableImageUnderstanding r)
    (cto_EnableVideoUnderstanding r).
Definition zero_ChatTool : ChatTool :=
  MkChatTool "" None [] [] "" "" None None.

Record ChatStreamOptions := MkChatStreamOptions {
  cso_IncludeUsage : bool;
}.
#[export] Instance eta_ChatStreamOptions : Eta ChatStreamOptions := fun r =>
  MkChatStreamOptions (cso_IncludeUsage r).
Definition zero_ChatStreamOptions : ChatStreamOptions :=
  MkChatStreamOptions false.

Record ChatCompletionsRequest := MkChatCompletionsRequest {
  ccrq_PromptCacheOptions : string;
  ccrq_Model : string;
  ccrq_Messages : list ChatMessage;
  ccrq_Instructions : string;
  ccrq_MaxTokens : option Z;
  ccrq_MaxCompletionTokens : option Z;
  ccrq_Temperature : option float64;
  ccrq_TopP : option float64;
  ccrq_Stream : bool;
  ccrq_StreamOptions : option ChatStreamOptions;
  ccrq_Tools : list ChatTool;
  ccrq_ParallelToolCalls : option bool;
  ccrq_ToolChoice : string;
  ccrq_ReasoningEffort : string;
  ccrq_ServiceTier : string;
  ccrq_Stop : string;
  ccrq_ResponseFormat : string;
  ccrq_Functions : list ChatFunction;
  ccrq_FunctionCall : string;
}.
#[export] Instance eta_ChatCompletionsRequest : Eta ChatCompletionsRequest := fun r =>
  MkChatCompletionsRequest (ccrq_PromptCacheOptions r) (ccrq_Model r) (ccrq_Messages r)
    (ccrq_Instructions r) (ccrq_MaxTokens r) (ccrq_MaxCompletionTokens r) (ccrq_Temperature r)
    (ccrq_TopP r) (ccrq_Stream r) (ccrq_StreamOptions r) (ccrq_Tools r)
    (ccrq_ParallelToolCalls r) (ccrq_ToolChoice r) (ccrq_ReasoningEffort r) (ccrq_ServiceTier
    r) (ccrq_Stop r) (ccrq_ResponseFormat r) (ccrq_Functions r) (ccrq_FunctionCall r).
Definition zero_ChatCompletionsRequest : ChatCompletionsRequest :=
  MkChatCompletionsRequest "" "" [] "" None None None None false None [] None "" "" "" "" ""
    [] "".

