(* ===== verification/GoStrings.v ===== *)
(** * More of Go's [strings] and [unicode] packages

    The functions of package [strings] the request converters and the model name
    tables use, and the interface [Unicode] for what depends on the Unicode tables:
    lower case and decimal digits. *)

From S2P Require Import Prelude.
Local Open Scope string_scope.
Local Open Scope nat_scope.
Local Open Scope list_scope.
Local Open Scope go_scope.

(** [strings.ToLower] and [unicode.IsDigit]. *)
Class Unicode := {
  ToLower : string -> string;
  IsDigit : Z -> bool;
}.

(** The tables restricted to ASCII. *)
Definition lower_byte (c : Ascii.ascii) : Ascii.ascii :=
  let n := Ascii.nat_of_ascii c in
  if (65 <=? n) && (n <=? 90) then Ascii.ascii_of_nat (n + 32) else c.
Fixpoint lower_bytes (s : string) : string :=
  match s with
  | EmptyString => ""
  | String c s => String (lower_byte c) (lower_bytes s)
  end.
Definition ascii_unicode : Unicode := {|
  ToLower := lower_bytes;
  IsDigit := fun r => ((48 <=? r) && (r <=? 57))%Z;
|}.

(** [strings.Join] *)
Fixpoint Join (l : list string) (sep : string) : string :=
  match l with
  | [] => ""
  | [s] => s
  | s :: l => s +:+ sep +:+ Join l sep
  end.

Definition TrimPrefix (s p : string) : string := default s (CutPrefix s p).
Definition HasSuffix (s p : string) : bool := HasPrefix (str_rev s) (str_rev p).
Definition TrimSuffix (s p : string) : string :=
  if HasSuffix s p then str_take (String.length s - String.length p) s else s.

(** [strings.IndexByte]: the first occurrence. *)
Fixpoint IndexByte (s : string) (c : Ascii.ascii) : option nat :=
  match s with
  | EmptyString => None
  | String d s => if Ascii.eqb d c then Some 0 else S <$> IndexByte s c
  end.
(** [strings.LastIndexByte] *)
Fixpoint LastIndexByte (s : string) (c : Ascii.ascii) : option nat :=
  match s with
  | EmptyString => None
  | String d s =>
      match LastIndexByte s c with
      | Some i => Some (S i)
      | None => if Ascii.eqb d c then Some 0 else None
      end
  end.

(** [strings.Index]: the first occurrence. *)
Fixpoint Index (s sub : string) : option nat :=
  if HasPrefix s sub then Some 0 else
  match s with EmptyString => None | String _ s => S <$> Index s sub end.

(** [strings.Contains] *)
Fixpoint Contains (s sub : string) : bool :=
  HasPrefix s sub || match s with EmptyString => false | String _ s => Contains s sub end.

(** [strings.ReplaceAll] of a nonempty [old]: every step consumes a byte. *)
Fixpoint replace_fuel (fuel : nat) (s old new : string) : string :=
  match fuel, s with
  | O, _ | _, EmptyString => ""
  | S fuel, String c r =>
      match CutPrefix s old with
      | Some rest => new +:+ replace_fuel fuel rest old new
      | None => String c (replace_fuel fuel r old new)
      end
  end.
Definition ReplaceAll (s old new : string) : string := replace_fuel (String.length s) s old new.

(** [strings.Fields]: the maximal runs without white space; [cur] is the current run,
    reversed. *)
Fixpoint fields_fuel (fuel : nat) (s cur : string) : list string :=
  let flush := if cur =?s "" then [] else [str_rev cur] in
  match fuel, s with
  | O, _ | _, EmptyString => flush
  | S fuel, String c r =>
      match strip_one space_encodings s with
      | Some rest => flush ++ fields_fuel fuel rest ""
      | None => fields_fuel fuel r (String c cur)
      end
  end.
Definition Fields (s : string) : list string := fields_fuel (String.length s) s "".

Example replace_1 : ReplaceAll "a--b---c" "--" "-" = "a-b--c".
Proof. reflexivity. Qed.
Example fields_1 : Fields "  gpt 5  mini " = ["gpt"; "5"; "mini"].
Proof. reflexivity. Qed.
Example suffix_1 : TrimSuffix "claude-opus-thinking" "-thinking" = "claude-opus".
Proof. reflexivity. Qed.
