(* ===== verification/JsonNumbers.v ===== *)
(** * Numbers through [float64]

    Decoding into [any] turns a number into the nearest [float64], encoding prints the
    shortest decimal that reads back as the same [float64].  [float_text] composes the
    two as [strconv.ParseFloat] and the [float64] encoder of [encoding/json] do; values
    are exact integers and fractions of integers, nothing is rounded twice. *)

From S2P Require Import Prelude Json JsonCodec GoStrings.
Local Open Scope string_scope.
Local Open Scope Z_scope.
Local Open Scope list_scope.
Local Open Scope go_scope.

(** ** Reading

    Exponents are read up to 99999 and a few more. *)

Definition digit_value (c : Ascii.ascii) : Z := (Z.of_nat (code c) - 48)%Z.
(** The leading digits: their value, their number, and the rest. *)
Fixpoint read_digits (value : Z) (n : nat) (s : string) : Z * nat * string :=
  match s with
  | String c r => if in_range 48 57 (code c) then read_digits (value * 10 + digit_value c) (S n) r
                  else (value, n, s)
  | EmptyString => (value, n, s)
  end.
Fixpoint read_exponent (e : Z) (s : string) : Z :=
  match s with
  | String c r => read_exponent (if (e <? 10000)%Z then (e * 10 + digit_value c)%Z else e) r
  | EmptyString => e
  end.

(** A number's text: its sign and the value [m * 10 ^ e]. *)
Definition read_decimal (raw : string) : bool * Z * Z :=
  let neg := HasPrefix raw "-" in
  let s := TrimPrefix raw "-" in
  let '(m, _, s) := read_digits 0 0 s in
  let '(m, frac, s) := match CutPrefix s "." with
                       | Some r => read_digits m 0 r
                       | None => (m, 0%nat, s)
                       end in
  let e := match s with
           | String _ r => match CutPrefix r "-" with
                           | Some r => Z.opp (read_exponent 0 r)
                           | None => read_exponent 0 (TrimPrefix r "+")
                           end
           | EmptyString => 0
           end in
  (neg, m, e - Z.of_nat frac).

(** [num / den], as a fraction of integers. *)
Definition fraction (m e : Z) : Z * Z := if 0 <=? e then (m * 10 ^ e, 1) else (m, 10 ^ (- e)).
Definition scale2 (num den k : Z) : Z * Z :=
  if 0 <=? k then (num * 2 ^ k, den) else (num, den * 2 ^ (- k)).
(** The nearest integer, ties to even. *)
Definition round_even (num den : Z) : Z :=
  let q := num / den in
  match 2 * (num mod den) ?= den with
  | Lt => q
  | Gt => q + 1
  | Eq => if Z.even q then q else q + 1
  end.

(** The nearest [float64] [q * 2 ^ k] of a positive fraction; [None] beyond the range. *)
Definition nearest (num den : Z) : option (Z * Z) :=
  let k := Z.log2 num - Z.log2 den - 52 in
  let '(n, d) := scale2 num den (- k) in
  let k := if n <? d * 2 ^ 52 then k - 1 else k in
  let k := Z.max k (-1074) in
  let '(n, d) := scale2 num den (- k) in
  let q := round_even n d in
  let '(q, k) := if q =? 2 ^ 53 then (2 ^ 52, k + 1) else (q, k) in
  if 971 <? k then None else Some (q, k).

(** [strconv.ParseFloat] of a number: its sign and magnitude, or the range error. *)
Definition parse_float (raw : string) : option (bool * (Z * Z)) :=
  let '(neg, m, e) := read_decimal raw in
  if m =? 0 then Some (neg, (0, -1074)) else
  let '(num, den) := fraction m e in
  f ← nearest num den; Some (neg, f).
Definition float_ok (raw : string) : bool := bool_decide (is_Some (parse_float raw)).

(** ** Printing *)

Definition reads_as (digits e : Z) (f : Z * Z) : bool :=
  let '(n, d) := fraction digits e in
  (0 <? digits) && bool_decide (nearest n d = Some f).

(** The decimals with the last digit at [10 ^ e] around [num / den], the closer one
    first (the even one of two equally close). *)
Definition neighbours (num den e : Z) : list Z :=
  let '(n, d) := if 0 <=? e then (num, den * 10 ^ e) else (num * 10 ^ (- e), den) in
  let q := n / d in
  match 2 * (n mod d) ?= d with
  | Lt => [q; q + 1]
  | Gt => [q + 1; q]
  | Eq => if Z.even q then [q; q + 1] else [q + 1; q]
  end.

(** The first digit of [num / den] is at [10 ^ e] or [10 ^ (e - 1)]. *)
Definition top_exponent (num den : Z) : Z := (Z.log2 num - Z.log2 den) * 1233 / 4096 + 1.

(** The shortest decimal [digits * 10 ^ e] that reads as [f]: fewer digits are tried
    first, that is larger [e]. *)
Fixpoint shortest_from (fuel : nat) (num den e : Z) (f : Z * Z) : Z * Z :=
  match fuel with
  | O => (0, 0)
  | S fuel =>
      match List.filter (fun digits => reads_as digits e f) (neighbours num den e) with
      | digits :: _ => (digits, e)
      | [] => shortest_from fuel num den (e - 1) f
      end
  end.
Definition shortest (f : Z * Z) : Z * Z :=
  let '(num, den) := scale2 f.1 1 f.2 in
  shortest_from 20 num den (top_exponent num den + 1) f.

Fixpoint decimal_fuel (fuel : nat) (n : Z) (acc : string) : string :=
  match fuel with
  | O => acc
  | S fuel =>
      let acc := String (Ascii.ascii_of_nat (48 + Z.to_nat (n mod 10))) acc in
      if n <? 10 then acc else decimal_fuel fuel (n / 10) acc
  end.
(** The decimal digits of a natural number. *)
Definition decimal (n : Z) : string := decimal_fuel (S (Z.to_nat (Z.log2 n))) n "".

Definition strip_zeros (digits : string) : string :=
  str_rev ((fix drop s := match s with
                          | String c r => if is_c 48 c then drop r else s
                          | EmptyString => s
                          end) (str_rev digits)).
Fixpoint zeros (n : nat) : string :=
  match n with O => "" | S n => String (Ascii.ascii_of_nat 48) (zeros n) end.

(** [dp] digits come before the point. *)
Definition format_f (digits : string) (dp : Z) : string :=
  let n := Z.of_nat (String.length digits) in
  if dp <=? 0 then "0." +:+ zeros (Z.to_nat (- dp)) +:+ digits
  else if n <=? dp then digits +:+ zeros (Z.to_nat (dp - n))
  else str_take (Z.to_nat dp) digits +:+ "." +:+ str_drop (Z.to_nat dp) digits.
(** With the exponent's leading zero removed when it is negative. *)
Definition format_e (digits : string) (dp : Z) : string :=
  let e := dp - 1 in
  str_take 1 digits
  +:+ (if String.length digits =? 1 then "" else "." +:+ str_drop 1 digits)%nat
  +:+ (if e <? 0 then "e-" +:+ decimal (- e)
       else "e+" +:+ (if e <? 10 then "0" else "") +:+ decimal e).

(** The number [raw] decoded into a [float64] and encoded again. *)
Definition float_text (raw : string) : option string :=
  '(neg, f) ← parse_float raw;
  let sign (s : string) := if (neg : bool) then "-" +:+ s else s in
  if f.1 =? 0 then Some (sign "0") else
  let '(digits, e) := shortest f in
  let text := decimal digits in
  let dp := Z.of_nat (String.length text) + e in
  let text := strip_zeros text in
  Some (sign (if (dp <=? -6) || (21 <? dp) then format_e text dp else format_f text dp)).

Example float_1 : map float_text ["1"; "-0"; "1.50"; "1e3"; "0.1"; "100"; "3.14159"; "1e-7"; "0.000001"]
  = map Some ["1"; "-0"; "1.5"; "1000"; "0.1"; "100"; "3.14159"; "1e-7"; "0.000001"].
Proof. vm_compute. reflexivity. Qed.
Example float_2 : map float_text
    ["9007199254740993"; "123456789012345678901234"; "1e21"; "1125899906842624.25"; "0.30000000000000004"]
  = map Some
    ["9007199254740992"; "1.2345678901234569e+23"; "1e+21"; "1125899906842624.2"; "0.30000000000000004"].
Proof. vm_compute. reflexivity. Qed.
(** [json.Unmarshal] into [any]: the text [encoding/json] prints for every number
    stands for its [float64]. *)
Fixpoint to_any (v : json) : option json :=
  match v with
  | JNum raw => JNum <$> float_text raw
  | JArr l => JArr <$> (fix go l := match l with
                                    | [] => Some []
                                    | v :: l => v ← to_any v; l ← go l; Some (v :: l)
                                    end) l
  | JObj l => JObj <$> (fix go l := match l with
                                    | [] => Some []
                                    | (k, v) :: l => v ← to_any v; l ← go l; Some ((k, v) :: l)
                                    end) l
  | v => Some v
  end.
Definition unmarshal_any (s : string) : option json := json_parse s ≫= to_any.
