(* ===== verification/ModelNames.v ===== *)
(** * Model name spellings

    [src/backend/internal/pkg/claude/effort_catalog.go] (the Claude families whose
    requests are translated specially) and the spelling functions of
    [src/backend/internal/pkg/openai/constants.go].  The only facts the converters
    use of these functions are their boolean answers. *)

From S2P Require Import Prelude Json GoStrings.
Local Open Scope string_scope.
Local Open Scope nat_scope.
Local Open Scope list_scope.
Local Open Scope go_scope.

Section Names.
Context `{U : Unicode}.

Definition slash : Ascii.ascii := Ascii.ascii_of_nat 47.
Definition ModelIDReverseOverrides : list (string * string) :=
  [("claude-sonnet-4-5-20250929", "claude-sonnet-4-5");
   ("claude-opus-4-5-20251101", "claude-opus-4-5");
   ("claude-haiku-4-5-20251001", "claude-haiku-4-5")].

(** Drops a date suffix: a hyphen and eight bytes that are digits. *)
Definition trim_date (id : string) : string :=
  if 9 <=? String.length id then
    match str_drop (String.length id - 9) id with
    | String h digits =>
        if Ascii.eqb h (Ascii.ascii_of_nat 45) && forallb (fun '(r, _) => IsDigit r) (runes digits)
        then str_take (String.length id - 9) id else id
    | EmptyString => id
    end
  else id.

Definition normalizeEffortModelID (model : string) : string :=
  let id := ToLower (TrimSpace model) in
  let id := TrimPrefix id "models/" in
  let id := match IndexByte id slash with
            | Some i => TrimPrefix (TrimSpace (str_drop (S i) id)) "models/"
            | None => id
            end in
  let id := foldl TrimPrefix id ["us."; "eu."; "apac."; "jp."; "au."; "us-gov."; "global."] in
  let id := TrimPrefix id "anthropic." in
  let id := TrimSuffix id "-thinking" in
  let id := if id =?s "claude-opus-5.5" then "claude-opus-5-5" else id in
  let id := if id =?s "claude-sonnet-5.5" then "claude-sonnet-5-5" else id in
  let id := default id (assoc id ModelIDReverseOverrides) in
  trim_date id.

Definition IsOpus55 (model : string) : bool := normalizeEffortModelID model =?s "claude-opus-5-5".
Definition IsSonnet55 (model : string) : bool :=
  normalizeEffortModelID model =?s "claude-sonnet-5-5".

(** ** OpenAI spellings *)

(** [for strings.Contains(s, "--")]: every round shortens the string. *)
Fixpoint collapse_fuel (fuel : nat) (s : string) : string :=
  match fuel with
  | O => s
  | S fuel => if Contains s "--" then collapse_fuel fuel (ReplaceAll s "--" "-") else s
  end.

Definition alias_replacements : list (string * string) :=
  [("gpt-5.4mini", "gpt-5.4-mini"); ("gpt-5.4nano", "gpt-5.4-nano");
   ("gpt-5.3-codexspark", "gpt-5.3-codex-spark"); ("gpt-5.3codexspark", "gpt-5.3-codex-spark");
   ("gpt-5.3codex", "gpt-5.3-codex")].

Definition CanonicalizeOpenAIModelAliasSpelling (model : string) : string :=
  let model := TrimSpace model in
  let model := match LastIndexByte model slash with
               | Some i => TrimSpace (str_drop (S i) model)
               | None => model
               end in
  let model := ToLower model in
  if model =?s "" then "" else
  let normalized := ReplaceAll model "_" "-" in
  let normalized := Join (Fields normalized) "-" in
  let normalized := collapse_fuel (String.length normalized) normalized in
  let normalized := if HasPrefix normalized "gpt5"
                    then "gpt-5" +:+ TrimPrefix normalized "gpt5" else normalized in
  if negb (HasPrefix normalized "gpt-") && negb (Contains normalized "codex") then ""
  else foldl (fun s r => ReplaceAll s r.1 r.2) normalized alias_replacements.

Definition one_of (l : list string) (s : string) : bool := existsb (String.eqb s) l.

Definition IsGPT6SolOrLunaModelSpelling (model : string) : bool :=
  let canonical := CanonicalizeOpenAIModelAliasSpelling model in
  existsb (fun base =>
    (canonical =?s base)
    || match CutPrefix canonical (base +:+ "-") with
       | Some suffix =>
           one_of ["none"; "low"; "medium"; "high"; "xhigh"; "max"; "openai-compact"] suffix
       | None => false
       end) ["gpt-6-sol"; "gpt-6-luna"].

Definition IsGPT61SolModelSpelling (model : string) : bool :=
  let canonical := CanonicalizeOpenAIModelAliasSpelling model in
  (canonical =?s "gpt-6.1-sol")
  || match CutPrefix canonical "gpt-6.1-sol-" with
     | Some suffix =>
         one_of ["none"; "minimal"; "low"; "medium"; "high"; "xhigh"; "max"; "openai-compact"] suffix
     | None => false
     end.

(** Whether [ValidateGPT61SolReasoningEffort] returns nil. *)
Definition ValidateGPT61SolReasoningEffort (model effort : string) : bool :=
  negb (IsGPT61SolModelSpelling model && one_of ["none"; "minimal"] (ToLower (TrimSpace effort))).
End Names.

Example opus_1 : IsOpus55 (U := ascii_unicode) " Models/us.anthropic.Claude-Opus-5.5-thinking" = true.
Proof. vm_compute. reflexivity. Qed.
Example opus_2 : IsOpus55 (U := ascii_unicode) "openrouter/claude-opus-5-5-20260101" = true.
Proof. vm_compute. reflexivity. Qed.
Example sol_1 : IsGPT61SolModelSpelling (U := ascii_unicode) "openai/GPT_6.1  sol-High" = true.
Proof. vm_compute. reflexivity. Qed.
