(* ===== verification/ToolSchema.v ===== *)
(** * Anthropic tool schemas

    [src/backend/internal/pkg/apicompat/responses_to_anthropic_tool_schema.go] and
    [normalizeAnthropicInputSchema] of [responses_to_anthropic_request.go]: Anthropic
    accepts only an object schema without a union at its root, so unions at the root
    are merged into one object.  A Go map is a list sorted by key, [None] is the nil
    map; [flattenAnthropicRootUnions] updates its argument, here it returns it. *)

From S2P Require Import Prelude Json JsonCodec.
Local Open Scope string_scope.
Local Open Scope nat_scope.
Local Open Scope list_scope.
Local Open Scope go_scope.

Definition gomap : Type := list (string * string).

(** [json.Unmarshal] into a [map[string]json.RawMessage] variable that is nil: [Some None]
    is the nil map [null] leaves. *)
Definition unmarshal_map (s : string) : option (option gomap) :=
  match json_shape s with
  | Some (SObj ms) => Some (Some (foldl (fun m kv => sorted_insert kv.1 kv.2 m) [] ms))
  | Some SNull => Some None
  | _ => None
  end.
(** [json.Marshal] of a [map[string]json.RawMessage]. *)
Definition marshal_map (m : gomap) : option string :=
  ms ← mapM (fun kv => q ← compact_raw kv.2; Some (kv.1, q)) m; Some (print_members ms).
(** [json.Marshal] of a [[]string]. *)
Definition marshal_strings (l : list string) : string := print_array (map json_quote l).

(** [json.Compact]: white space removed, nothing escaped. *)
Fixpoint Compact_fuel (fuel : nat) (in_str : bool) (s : string) : string :=
  match fuel, s with
  | O, _ | _, EmptyString => ""
  | S fuel, String c r =>
      if in_str then
        if is_c 92 c then
          match r with
          | String e r => String c (String e (Compact_fuel fuel true r))
          | EmptyString => String c EmptyString
          end
        else String c (Compact_fuel fuel (negb (is_c 34 c)) r)
      else if is_ws c then Compact_fuel fuel false r
      else String c (Compact_fuel fuel (is_c 34 c) r)
  end.
Definition Compact (s : string) : option string :=
  if json_valid s then Some (Compact_fuel (String.length s) false s) else None.

Definition anthropicInputSchemaUnionKeywords : list string := ["oneOf"; "anyOf"; "allOf"].

Definition anthropicSchemaProperties (schema : gomap) : gomap :=
  match assoc "properties" schema with
  | None => []
  | Some raw => match unmarshal_map raw with
                | Some (Some properties) => properties
                | _ => []
                end
  end.

Definition anthropicSchemaBranchIsObject (branch : option gomap) : bool :=
  match branch with
  | None => false
  | Some branch =>
      match assoc "type" branch with
      | Some raw => match unmarshal_string raw with
                    | Some typ => typ =?s "object"
                    | None => false
                    end
      | None => match assoc "properties" branch with Some _ => true | None => false end
      end
  end.

Definition anthropicBranchRequired (branch : option gomap) : list string :=
  match branch with
  | None => []
  | Some branch =>
      match assoc "required" branch with
      | None => []
      | Some raw => default [] (d_slice "" d_string raw)
      end
  end.

Definition containsAnthropicName (names : list string) (target : string) : bool :=
  existsb (fun name => name =?s target) names.

(** The loop of [intersectAnthropicRequiredLists] over the lists after the first. *)
Fixpoint intersect_rest (result : list string) (lists : list (list string)) : list string :=
  match lists with
  | [] => result
  | l :: lists =>
      match result with
      | [] => []
      | _ => intersect_rest (List.filter (containsAnthropicName l) result) lists
      end
  end.
Definition intersectAnthropicRequiredLists (lists : list (list string)) : list string :=
  match lists with
  | [] => []
  | l :: lists => intersect_rest l lists
  end.
Definition intersectAnthropicRequired (branches : list (option gomap)) : list string :=
  intersectAnthropicRequiredLists (map anthropicBranchRequired branches).

Definition appendAnthropicRequired (required names : list string) : list string :=
  fold_left (fun merged name => if containsAnthropicName merged name then merged
                                else merged ++ [name]) names required.

Definition anthropicSchemaJSONEqual (l r : string) : bool :=
  match Compact l, Compact r with
  | Some a, Some b => a =?s b
  | _, _ => false
  end.

(** The union of two schemas of one property. *)
Definition any_of (existing property : string) : option string :=
  '(a, b) ← (a ← compact_raw existing; b ← compact_raw property; Some (a, b));
  Some (print_members [("anyOf", print_array [a; b])]).

Definition merge_property (into : gomap) (p : string * string) : gomap :=
  let '(name, property) := p in
  match assoc name into with
  | None => sorted_insert name property into
  | Some existing =>
      if anthropicSchemaJSONEqual existing property then into
      else match any_of existing property with
           | Some merged => sorted_insert name merged into
           | None => into
           end
  end.

Definition mergeAnthropicObjectBranchProperties (into : gomap) (branches : list (option gomap)) :
    gomap :=
  fold_left (fun into branch =>
    if anthropicSchemaBranchIsObject branch then
      match assoc "properties" (default [] branch) with
      | None => into
      | Some raw => match unmarshal_map raw with
                    | Some properties => fold_left merge_property (default [] properties) into
                    | None => into
                    end
      end
    else into) branches into.

(** What one pass of the loop over the present keywords updates. *)
Record flattening := MkFlattening {
  fl_schema : gomap;
  fl_properties : gomap;
  fl_intersections : list (list string);
  fl_allOfRequired : list string;
}.

(** [decodeAnthropicUnionBranches] *)
Definition decode_branches (flatten : gomap -> gomap) (raw : string) :
    option (list (option gomap)) :=
  match d_slice "" d_raw raw with
  | None | Some [] => None
  | Some items =>
      Some (map (fun item => match unmarshal_map item with
                             | Some (Some branch) => Some (flatten branch)
                             | _ => None
                             end) items)
  end.

Definition flatten_keyword (flatten : gomap -> gomap) (st : flattening) (keyword : string) :
    flattening :=
  let raw := default "" (assoc keyword (fl_schema st)) in
  let schema := assoc_delete keyword (fl_schema st) in
  let st := MkFlattening schema (fl_properties st) (fl_intersections st) (fl_allOfRequired st) in
  match decode_branches flatten raw with
  | None => st
  | Some branches =>
      let properties := mergeAnthropicObjectBranchProperties (fl_properties st) branches in
      if keyword =?s "allOf" then
        MkFlattening schema properties (fl_intersections st)
          (fold_left (fun r b => appendAnthropicRequired r (anthropicBranchRequired b))
             branches (fl_allOfRequired st))
      else
        MkFlattening schema properties
          (fl_intersections st ++ [intersectAnthropicRequired branches]) (fl_allOfRequired st)
  end.

(** The body of [flattenAnthropicRootUnions], [flatten] being the recursive call. *)
Definition present_unions (schema : gomap) : list string :=
  List.filter (fun k => match assoc k schema with Some _ => true | None => false end)
    anthropicInputSchemaUnionKeywords.
Definition set_properties (properties schema : gomap) : gomap :=
  match properties with
  | [] => schema
  | _ => match marshal_map properties with
         | Some encoded => sorted_insert "properties" encoded schema
         | None => schema
         end
  end.
Definition set_required (required : list string) (schema : gomap) : gomap :=
  match required with
  | [] => schema
  | _ => sorted_insert "required" (marshal_strings required) schema
  end.
Definition flatten_root (flatten : gomap -> gomap) (schema : gomap) : gomap :=
  match present_unions schema with
  | [] => schema
  | present =>
      let rootRequired := anthropicBranchRequired (Some schema) in
      let st := fold_left (flatten_keyword flatten) present
                  (MkFlattening schema (anthropicSchemaProperties schema) [] []) in
      let required := intersectAnthropicRequiredLists (fl_intersections st) in
      let required := appendAnthropicRequired required (fl_allOfRequired st) in
      let required := appendAnthropicRequired required rootRequired in
      set_required required (set_properties (fl_properties st) (fl_schema st))
  end.

(** [flattenAnthropicRootUnions]; every level of recursion opens a nested text. *)
Fixpoint flatten_fuel (fuel : nat) (schema : gomap) : gomap :=
  match fuel with
  | O => schema
  | S fuel => flatten_root (flatten_fuel fuel) schema
  end.
(** The bytes of the values bound the nesting. *)
Definition map_size (m : gomap) : nat := list_sum (map (fun kv => String.length kv.2) m).
Definition flattenAnthropicRootUnions (schema : gomap) : gomap :=
  flatten_fuel (S (map_size schema)) schema.

Definition emptyObjectSchema : string :=
  print_members [("type", json_quote "object"); ("properties", "{}")].

Definition normalizeAnthropicInputSchema (schema : string) : string :=
  let trimmed := TrimSpace schema in
  if (trimmed =?s "") || (trimmed =?s "null") then emptyObjectSchema else
  match unmarshal_map schema with
  | None => emptyObjectSchema
  | Some m =>
      let m := flattenAnthropicRootUnions (default [] m) in
      let typed :=
        match assoc "type" m with
        | None => Some (sorted_insert "type" (json_quote "object") m)
        | Some typeRaw =>
            if (TrimSpace typeRaw =?s "") || (typeRaw =?s "null")
            then Some (sorted_insert "type" (json_quote "object") m)
            else match unmarshal_string typeRaw with
                 | Some typ => if typ =?s "object" then Some m else None
                 | None => None
                 end
        end in
      match typed with
      | None => emptyObjectSchema
      | Some m =>
          let m := match assoc "properties" m with
                   | Some _ => m
                   | None => sorted_insert "properties" "{}" m
                   end in
          default emptyObjectSchema (marshal_map m)
      end
  end.
