(* ===== verification/RequestCodec.v ===== *)
(** * JSON forms of the request types

    The struct tags and the [MarshalJSON] and [UnmarshalJSON] methods of
    [src/backend/internal/pkg/apicompat/types.go] that the request converters go
    through: content blocks, content parts and input items. *)

From S2P Require Import Prelude Json JsonCodec Apicompat.
Local Open Scope string_scope.
Local Open Scope nat_scope.
Local Open Scope list_scope.
Local Open Scope go_scope.

(** ** Anthropic content blocks *)

Definition AnthropicCacheControl_fields : fields AnthropicCacheControl :=
  [("type", field acc_Type (fun v a => a <| acc_Type := v |>) d_string);
   ("ttl", field acc_TTL (fun v a => a <| acc_TTL := v |>) d_string)].
Definition enc_AnthropicCacheControl (a : AnthropicCacheControl) : option string :=
  e_struct [e_string "type" (acc_Type a); e_string_omit "ttl" (acc_TTL a)].

Definition AnthropicImageSource_fields : fields AnthropicImageSource :=
  [("type", field ais_Type (fun v a => a <| ais_Type := v |>) d_string);
   ("media_type", field ais_MediaType (fun v a => a <| ais_MediaType := v |>) d_string);
   ("data", field ais_Data (fun v a => a <| ais_Data := v |>) d_string)].
Definition enc_AnthropicImageSource (a : AnthropicImageSource) : option string :=
  e_struct [e_string "type" (ais_Type a); e_string "media_type" (ais_MediaType a);
            e_string "data" (ais_Data a)].

Definition AnthropicContentBlock_fields : fields AnthropicContentBlock :=
  [("type", field acb_Type (fun v b => b <| acb_Type := v |>) d_string);
   ("cache_control", field acb_CacheControl (fun v b => b <| acb_CacheControl := v |>)
      (d_ptr zero_AnthropicCacheControl (d_struct AnthropicCacheControl_fields)));
   ("text", field acb_Text (fun v b => b <| acb_Text := v |>) d_string);
   ("thinking", field acb_Thinking (fun v b => b <| acb_Thinking := v |>) d_string);
   ("signature", field acb_Signature (fun v b => b <| acb_Signature := v |>) d_string);
   ("data", field acb_Data (fun v b => b <| acb_Data := v |>) d_string);
   ("source", field acb_Source (fun v b => b <| acb_Source := v |>)
      (d_ptr zero_AnthropicImageSource (d_struct AnthropicImageSource_fields)));
   ("id", field acb_ID (fun v b => b <| acb_ID := v |>) d_string);
   ("name", field acb_Name (fun v b => b <| acb_Name := v |>) d_string);
   ("input", field acb_Input (fun v b => b <| acb_Input := v |>) d_raw);
   ("tool_use_id", field acb_ToolUseID (fun v b => b <| acb_ToolUseID := v |>) d_string);
   ("content", field acb_Content (fun v b => b <| acb_Content := v |>) d_raw);
   ("is_error", field acb_IsError (fun v b => b <| acb_IsError := v |>) d_bool)].

(** The fields after [type] and [cache_control] that no variant shadows. *)
Definition block_tail (b : AnthropicContentBlock) : list members :=
  [e_string_omit "signature" (acb_Signature b); e_string_omit "data" (acb_Data b);
   e_ptr_omit "source" enc_AnthropicImageSource (acb_Source b);
   e_string_omit "id" (acb_ID b); e_string_omit "name" (acb_Name b);
   e_raw_omit "input" (acb_Input b); e_string_omit "tool_use_id" (acb_ToolUseID b);
   e_raw_omit "content" (acb_Content b); e_true_omit "is_error" (acb_IsError b)].
Definition block_head (b : AnthropicContentBlock) : list members :=
  [e_string "type" (acb_Type b);
   e_ptr_omit "cache_control" enc_AnthropicCacheControl (acb_CacheControl b)].

(** [AnthropicContentBlock.MarshalJSON]: the outer field of the anonymous struct comes
    first and shadows the embedded one. *)
Definition AnthropicContentBlock_MarshalJSON (b : AnthropicContentBlock) : option string :=
  if acb_Type b =?s "text" then
    e_struct ([e_string "text" (acb_Text b)] ++ block_head b ++
              [e_string_omit "thinking" (acb_Thinking b)] ++ block_tail b)
  else if acb_Type b =?s "thinking" then
    e_struct ([e_string "thinking" (acb_Thinking b)] ++ block_head b ++
              [e_string_omit "text" (acb_Text b)] ++ block_tail b)
  else
    e_struct (block_head b ++ [e_string_omit "text" (acb_Text b);
              e_string_omit "thinking" (acb_Thinking b)] ++ block_tail b).

(** An element of a slice: the output of [MarshalJSON] is validated and compacted. *)
Definition enc_AnthropicContentBlock (b : AnthropicContentBlock) : option string :=
  AnthropicContentBlock_MarshalJSON b ≫= compact_raw.
Definition dec_AnthropicContentBlock : decoder AnthropicContentBlock :=
  d_struct AnthropicContentBlock_fields.

(** [json.Unmarshal] into a [[]AnthropicContentBlock] and [json.Marshal] of one. *)
Definition unmarshal_blocks (raw : string) : option (list AnthropicContentBlock) :=
  d_slice zero_AnthropicContentBlock dec_AnthropicContentBlock raw.
Definition marshal_blocks (bs : list AnthropicContentBlock) : option string :=
  e_slice enc_AnthropicContentBlock bs.

(** ** Responses content parts *)

Definition ResponsesContentPart_fields : fields ResponsesContentPart :=
  [("prompt_cache_breakpoint",
      field rcp_PromptCacheBreakpoint (fun v p => p <| rcp_PromptCacheBreakpoint := v |>) d_raw);
   ("type", field rcp_Type (fun v p => p <| rcp_Type := v |>) d_string);
   ("text", field rcp_Text (fun v p => p <| rcp_Text := v |>) d_string);
   ("image_url", field rcp_ImageURL (fun v p => p <| rcp_ImageURL := v |>) d_string);
   ("filename", field rcp_Filename (fun v p => p <| rcp_Filename := v |>) d_string);
   ("file_data", field rcp_FileData (fun v p => p <| rcp_FileData := v |>) d_string);
   ("file_id", field rcp_FileID (fun v p => p <| rcp_FileID := v |>) d_string)].
Definition enc_ResponsesContentPart (p : ResponsesContentPart) : option string :=
  e_struct [e_raw_omit "prompt_cache_breakpoint" (rcp_PromptCacheBreakpoint p);
            e_string "type" (rcp_Type p); e_string_omit "text" (rcp_Text p);
            e_string_omit "image_url" (rcp_ImageURL p); e_string_omit "filename" (rcp_Filename p);
            e_string_omit "file_data" (rcp_FileData p); e_string_omit "file_id" (rcp_FileID p)].
Definition unmarshal_parts (raw : string) : option (list ResponsesContentPart) :=
  d_slice zero_ResponsesContentPart (d_struct ResponsesContentPart_fields) raw.
Definition marshal_parts (ps : list ResponsesContentPart) : option string :=
  e_slice enc_ResponsesContentPart ps.

(** ** Responses input items *)

(** The struct [wire] of [ResponsesInputItem.UnmarshalJSON]: the item's own fields with
    [output] kept raw. *)
Definition input_item_wire_fields : fields (ResponsesInputItem * string) :=
  let on (get : ResponsesInputItem -> string) set d :=
    field (fun w => get w.1) (fun v w => (set v w.1, w.2)) d in
  [("output", field snd (fun v w => (w.1, v)) d_raw);
   ("type", on rii_Type (fun v i => i <| rii_Type := v |>) d_string);
   ("role", on rii_Role (fun v i => i <| rii_Role := v |>) d_string);
   ("content", on rii_Content (fun v i => i <| rii_Content := v |>) d_raw);
   ("encrypted_content", on rii_EncryptedContent (fun v i => i <| rii_EncryptedContent := v |>) d_string);
   ("call_id", on rii_CallID (fun v i => i <| rii_CallID := v |>) d_string);
   ("name", on rii_Name (fun v i => i <| rii_Name := v |>) d_string);
   ("arguments", on rii_Arguments (fun v i => i <| rii_Arguments := v |>) d_string);
   ("id", on rii_ID (fun v i => i <| rii_ID := v |>) d_string)].

(** [ResponsesInputItem.UnmarshalJSON] *)
Definition ResponsesInputItem_UnmarshalJSON (data : string) : option ResponsesInputItem :=
  '(i, wire_output) ← d_struct input_item_wire_fields data (zero_ResponsesInputItem, "");
  let output := TrimSpace wire_output in
  if (output =?s "") || (output =?s "null") then Some i
  else match unmarshal_string output with
       | Some s => Some (i <| rii_Output := s |>)
       | None => Some (i <| rii_outputRaw := output |> <| rii_Output := output |>)
       end.
Definition unmarshal_items (raw : string) : option (list ResponsesInputItem) :=
  d_slice zero_ResponsesInputItem (fun data _ => ResponsesInputItem_UnmarshalJSON data) raw.

Definition enc_ResponsesInputItem (i : ResponsesInputItem) : option string :=
  e_struct [e_string_omit "type" (rii_Type i); e_string_omit "role" (rii_Role i);
            e_raw_omit "content" (rii_Content i);
            e_string_omit "encrypted_content" (rii_EncryptedContent i);
            e_string_omit "call_id" (rii_CallID i); e_string_omit "name" (rii_Name i);
            e_string_omit "arguments" (rii_Arguments i); e_string_omit "id" (rii_ID i);
            e_string_omit "output" (rii_Output i)].
Definition marshal_items (l : list ResponsesInputItem) : option string :=
  e_appended enc_ResponsesInputItem l.

(** ** Chat content parts *)

Definition ChatImageURL_fields : fields ChatImageURL :=
  [("url", field ciu_URL (fun v a => a <| ciu_URL := v |>) d_string);
   ("detail", field ciu_Detail (fun v a => a <| ciu_Detail := v |>) d_string)].
Definition ChatFile_fields : fields ChatFile :=
  [("filename", field cfl_Filename (fun v a => a <| cfl_Filename := v |>) d_string);
   ("file_data", field cfl_FileData (fun v a => a <| cfl_FileData := v |>) d_string);
   ("file_id", field cfl_FileID (fun v a => a <| cfl_FileID := v |>) d_string)].
Definition ChatContentPart_fields : fields ChatContentPart :=
  [("prompt_cache_breakpoint",
      field ccp_PromptCacheBreakpoint (fun v p => p <| ccp_PromptCacheBreakpoint := v |>) d_raw);
   ("type", field ccp_Type (fun v p => p <| ccp_Type := v |>) d_string);
   ("text", field ccp_Text (fun v p => p <| ccp_Text := v |>) d_string);
   ("image_url", field ccp_ImageURL (fun v p => p <| ccp_ImageURL := v |>)
      (d_ptr zero_ChatImageURL (d_struct ChatImageURL_fields)));
   ("file", field ccp_File (fun v p => p <| ccp_File := v |>)
      (d_ptr zero_ChatFile (d_struct ChatFile_fields)))].
Definition unmarshal_chat_parts (raw : string) : option (list ChatContentPart) :=
  d_slice zero_ChatContentPart (d_struct ChatContentPart_fields) raw.
Definition enc_ChatImageURL (u : ChatImageURL) : option string :=
  e_struct [e_string "url" (ciu_URL u); e_string_omit "detail" (ciu_Detail u)].
Definition enc_ChatFile (f : ChatFile) : option string :=
  e_struct [e_string_omit "filename" (cfl_Filename f); e_string_omit "file_data" (cfl_FileData f);
            e_string_omit "file_id" (cfl_FileID f)].
Definition enc_ChatContentPart (p : ChatContentPart) : option string :=
  e_struct [e_raw_omit "prompt_cache_breakpoint" (ccp_PromptCacheBreakpoint p);
            e_string "type" (ccp_Type p); e_string_omit "text" (ccp_Text p);
            e_ptr_omit "image_url" enc_ChatImageURL (ccp_ImageURL p);
            e_ptr_omit "file" enc_ChatFile (ccp_File p)].
Definition marshal_chat_parts (ps : list ChatContentPart) : option string :=
  e_slice enc_ChatContentPart ps.
