(* ===== verification/RequestCodecProofs.v ===== *)
(** * Round trips of the request types

    A codec is a table of fields and a list of member encoders.  [preserves] states
    that the decoders of a table keep an invariant, and [emits] that an encoder
    writes members the table reads back; both compose field by field
    ([d_struct_preserves], [emits_struct]).  What was decoded is well formed
    ([decoded_block_wf]): its strings are valid UTF-8 and its raw texts are values.
    What is well formed is encoded and decodes to itself, raw texts compacted
    ([block_roundtrip], [blocks_roundtrip]). *)

From S2P Require Import Prelude Json JsonCodec JsonGrammar JsonStrings JsonCodecProofs Apicompat RequestCodec.
Local Open Scope string_scope.
Local Open Scope nat_scope.
Local Open Scope list_scope.
Local Open Scope go_scope.

(** ** Well-formed contents *)

Definition wf_str (s : string) : Prop := utf8_valid s = true.
(** A [RawMessage]: nil or a value that fits at depth [d]. *)
Definition wf_raw (d : N) (s : string) : Prop := s = "" \/ is_value d s.
(** The [RawMessage] after [json.Marshal] and [json.Unmarshal]. *)
Definition norm_raw (s : string) : string := if s =?s "" then "" else json_compact s.

Lemma wf_str_nil : wf_str "".
Proof. reflexivity. Qed.

Lemma compact_nonempty d s : compact_text d s -> (s =?s "") = false.
Proof. by intros (c & x & -> & _)%jtext_head. Qed.

Lemma norm_raw_value d s : is_value d s -> norm_raw s = json_compact s.
Proof. intros [q H]. unfold norm_raw. by destruct (jtext_head _ _ _ _ H) as (c & x & -> & _). Qed.

Lemma wf_norm_raw d s : wf_raw d s -> wf_raw d (norm_raw s).
Proof.
  intros [-> | H]; [by left|]. right. rewrite (norm_raw_value d s H).
  apply compact_is_value. by apply compact_value.
Qed.

(** ** Decoders *)

Section Decode.
Context {A : Type} (fs : fields A) (d : N) (P : A -> Prop).

(** Every decoder of the table keeps [P], on values at depth [d + 1]. *)
Definition preserves : Prop :=
  Forall (fun f : string * decoder A =>
    forall raw a a', is_value (d + 1) raw -> P a -> f.2 raw a = Some a' -> P a') fs.

Lemma find_field_in k f : find_field fs k = Some f -> exists k', In (k', f) fs.
Proof.
  unfold find_field. intros H.
  assert (exists p k1, find p fs = Some (k1, f)) as (p & k1 & E%find_some).
  { destruct (find _ fs) as [[k1 f1]|] eqn:E; [injection H as <-; eauto|].
    apply fmap_Some in H as ([k1 f1] & E' & ->). eauto. }
  exists k1. apply E.
Qed.

Lemma d_members_none ms : foldl (fun acc m => a ← acc; match find_field fs m.1 with
    | Some f => f m.2 a | None => Some a end) None ms = (None : option A).
Proof. induction ms; simpl; auto. Qed.

Lemma d_members_cons m ms a :
  d_members fs (m :: ms) a =
    a' ← match find_field fs m.1 with Some f => f m.2 a | None => Some a end; d_members fs ms a'.
Proof.
  unfold d_members. cbn [foldl mbind option_bind].
  destruct (match find_field fs m.1 with Some f => f m.2 a | None => Some a end); [done|].
  apply d_members_none.
Qed.

Lemma d_members_preserves ms a a' :
  preserves -> Forall (fun m => is_value (d + 1) m.2) ms -> P a ->
  d_members fs ms a = Some a' -> P a'.
Proof.
  intros HP Hms. revert a. induction Hms as [|[k raw] ms Hm Hms IH]; intros a Ha H.
  - by injection H as <-.
  - rewrite d_members_cons in H. cbn [fst snd] in *.
    apply bind_Some in H as (a1 & Ha1 & H). apply (IH a1); [|done].
    destruct (find_field fs k) as [f|] eqn:Ef; [|by injection Ha1 as <-].
    apply find_field_in in Ef as [k' Hin]. rewrite <- list_elem_of_In in Hin.
    unfold preserves in HP. rewrite Forall_forall in HP. by apply (HP _ Hin raw a a1).
Qed.

Lemma d_struct_preserves raw a a' :
  preserves -> is_doc d raw -> P a -> d_struct fs raw a = Some a' -> P a'.
Proof.
  intros HP Hd Ha H. unfold d_struct in H.
  destruct (json_shape raw) as [sh|] eqn:E; [|done]. destruct sh; try done.
  - by injection H as <-.
  - apply (d_members_preserves l a a'); [done| |done|done].
    eapply Forall_impl; [exact (shape_members d raw l Hd E)|]. by intros m [? _].
Qed.

Lemma d_members_app ms1 ms2 a :
  d_members fs (ms1 ++ ms2) a = a1 ← d_members fs ms1 a; d_members fs ms2 a1.
Proof.
  revert a. induction ms1 as [|m ms1 IH]; intros a; [done|].
  cbn [app]. rewrite !d_members_cons.
  destruct (match find_field fs m.1 with Some f => f m.2 a | None => Some a end); [|done].
  cbn [mbind option_bind]. apply IH.
Qed.
End Decode.

Lemma d_string_wf d raw old v :
  is_doc d raw -> wf_str old -> d_string raw old = Some v -> wf_str v.
Proof.
  intros Hd Ho H. unfold d_string in H. destruct (json_shape raw) as [[]|] eqn:E; try done.
  - by injection H as <-.
  - injection H as <-. by eapply shape_string.
Qed.

Lemma d_ptr_wf {A} d zero (dec : decoder A) (P : A -> Prop) raw old v :
  (forall a a', P a -> dec raw a = Some a' -> P a') -> P zero -> from_option P True old ->
  is_doc d raw -> d_ptr zero dec raw old = Some v -> from_option P True v.
Proof.
  intros Hdec Hz Ho Hd H. unfold d_ptr in H.
  destruct (json_shape raw) as [sh|]; [|done].
  destruct sh; try (apply fmap_Some in H as (a & Ha & ->); eapply Hdec; [|exact Ha];
    by destruct old). by injection H as <-.
Qed.

Lemma field_wf {A B} (get : A -> B) set (dec : decoder B) (P : A -> Prop) (Q : B -> Prop) d raw a a' :
  (forall b, P a -> Q b -> P (set b a)) -> (P a -> Q (get a)) ->
  (forall old v, Q old -> dec raw old = Some v -> Q v) ->
  is_value d raw -> P a -> field get set dec raw a = Some a' -> P a'.
Proof.
  intros Hset Hget Hdec Hv Ha (b & Hb & ->)%fmap_Some. apply Hset; [done|]. eapply Hdec; eauto.
Qed.

(** ** Encoders *)

Section Encode.
Context {A : Type} (fs : fields A) (d : N).

(** Members the table of fields reads back. *)
Definition good (l : list (string * string)) : Prop :=
  Forall (fun m => compact_text (d + 1) m.2 /\ utf8_valid m.1 = true) l.
Definition emits (ms : members) (a a' : A) : Prop :=
  exists l, ms = Some l /\ good l /\ d_members fs l a = Some a'.
Fixpoint emits_all (l : list members) (a a' : A) : Prop :=
  match l with
  | [] => a = a'
  | ms :: l => exists a1, emits ms a a1 /\ emits_all l a1 a'
  end.

Lemma emits_all_list l a a' :
  emits_all l a a' -> exists ls, mapM id l = Some ls /\ good (List.concat ls)
    /\ d_members fs (List.concat ls) a = Some a'.
Proof.
  revert a. induction l as [|ms l IH]; intros a H.
  - simpl in H. subst. exists []. split_and!; [done|constructor|done].
  - destruct H as (a1 & (l1 & -> & G1 & E1) & H). destruct (IH a1 H) as (ls & E & G & E2).
    exists (l1 :: ls). simpl. rewrite E. split_and!; [done|by apply Forall_app|].
    by rewrite d_members_app, E1.
Qed.

Lemma emits_struct l a a' :
  (d < max_depth)%N -> emits_all l a a' ->
  exists s, e_struct l = Some s /\ compact_text d s /\ d_struct fs s a = Some a'.
Proof.
  intros Hd (ls & E & G & Ed)%emits_all_list.
  exists (print_members (List.concat ls)). unfold e_struct. rewrite E. split_and!; [done| |].
  - apply print_members_text; [done|]. eapply Forall_impl; [exact G|]. by intros m [? _].
  - unfold d_struct. rewrite shape_print_members; [done|]. eapply Forall_impl; [exact G|].
    intros m [? ?]. split; [|done]. eapply compact_text_depth; [|done]. lia.
Qed.

Context (k : string) (Hk : utf8_valid k = true).

Lemma emits_nil a a' : a = a' -> emits (Some []) a a'.
Proof. intros ->. exists []. split_and!; [done|constructor|done]. Qed.

Lemma emits_one v a a' f :
  compact_text (d + 1) v -> find_field fs k = Some f -> f v a = Some a' ->
  emits (Some [(k, v)]) a a'.
Proof.
  intros Hv Hf E. exists [(k, v)]. split_and!; [done|constructor; [by split|constructor]|].
  rewrite d_members_cons. cbn [fst snd]. by rewrite Hf, E.
Qed.

Lemma emits_string (get : A -> string) set v a :
  find_field fs k = Some (field get set d_string) -> wf_str v ->
  emits (e_string k v) a (set v a).
Proof.
  intros Hf Hv. apply (emits_one _ _ _ _ (json_quote_text _ _) Hf).
  unfold field, d_string. by rewrite shape_json_quote.
Qed.

Lemma emits_string_omit (get : A -> string) set v a :
  find_field fs k = Some (field get set d_string) -> wf_str v -> set "" a = a ->
  emits (e_string_omit k v) a (set v a).
Proof.
  intros Hf Hv Ha. unfold e_string_omit. destruct (v =?s "") eqn:E.
  - apply String.eqb_eq in E as ->. by apply emits_nil.
  - by eapply emits_string.
Qed.

Lemma emits_raw_omit (get : A -> string) set v a :
  find_field fs k = Some (field get set d_raw) -> wf_raw (d + 1) v -> set "" a = a ->
  emits (e_raw_omit k v) a (set (norm_raw v) a).
Proof.
  intros Hf Hv Ha. unfold e_raw_omit, e_raw. destruct Hv as [-> | Hv]; [by apply emits_nil|].
  rewrite (norm_raw_value _ _ Hv). destruct (compact_value _ _ Hv) as (-> & Hc & _).
  destruct Hv as [q Hv]. destruct (jtext_head _ _ _ _ Hv) as (c & x & -> & _).
  cbn [String.eqb mbind option_bind]. by eapply emits_one.
Qed.

Lemma emits_true_omit (get : A -> bool) set b a :
  find_field fs k = Some (field get set d_bool) -> set false a = a ->
  emits (e_true_omit k b) a (set b a).
Proof.
  intros Hf Ha. destruct b; [|by apply emits_nil].
  eapply emits_one; [apply jt_lit; simpl; auto|done|]. reflexivity.
Qed.

Lemma emits_ptr_omit {B} (get : A -> option B) set (zero : B) dec enc o a :
  find_field fs k = Some (field get set (d_ptr zero dec)) -> get a = None -> set None a = a ->
  (forall b, o = Some b -> exists s, enc b = Some s /\ compact_text (d + 1) s
     /\ json_shape s <> Some SNull /\ dec s zero = Some b) ->
  emits (e_ptr_omit k enc o) a (set o a).
Proof.
  intros Hf Hg Ha Ho. destruct o as [b|]; [|by apply emits_nil].
  destruct (Ho b eq_refl) as (s & Es & Hs & Hn & Ed). unfold e_ptr_omit. rewrite Es.
  cbn [mbind option_bind]. eapply emits_one; [done|exact Hf|].
  unfold field, d_ptr. rewrite Hg.
  destruct (doc_shape (d + 1) s) as [sh Esh]; [by apply value_is_doc, compact_is_value|].
  rewrite Esh in *. cbn [from_option id]. by destruct sh; try done; rewrite Ed.
Qed.
End Encode.

(** A printed object is not [null]. *)
Lemma e_struct_not_null l s : e_struct l = Some s -> json_shape s <> Some SNull.
Proof.
  intros (ls & _ & ->)%fmap_Some H. unfold json_shape in H.
  apply bind_Some in H as (v & E & H). destruct v; try done.
  unfold json_parse in E. apply bind_Some in E as ([v r] & E & E').
  rewrite print_members_b1 in E. destruct (skip_ws r =?s ""); [|done]. injection E' as ->.
  unfold b1 in E. change (skip_ws (String ?c ?x)) with (String c x) in E.
  by apply pval_head in E as (_ & E & _).
Qed.

(** ** Content blocks *)

Definition wf_cache (a : AnthropicCacheControl) : Prop := wf_str (acc_Type a) /\ wf_str (acc_TTL a).
Definition wf_source (a : AnthropicImageSource) : Prop :=
  wf_str (ais_Type a) /\ wf_str (ais_MediaType a) /\ wf_str (ais_Data a).

(** A block whose object lies at depth [d]. *)
Record wf_block (d : N) (b : AnthropicContentBlock) : Prop := {
  wb_type : wf_str (acb_Type b);
  wb_cache : from_option wf_cache True (acb_CacheControl b);
  wb_text : wf_str (acb_Text b);
  wb_thinking : wf_str (acb_Thinking b);
  wb_signature : wf_str (acb_Signature b);
  wb_data : wf_str (acb_Data b);
  wb_source : from_option wf_source True (acb_Source b);
  wb_id : wf_str (acb_ID b);
  wb_name : wf_str (acb_Name b);
  wb_input : wf_raw (d + 1) (acb_Input b);
  wb_tool_use_id : wf_str (acb_ToolUseID b);
  wb_content : wf_raw (d + 1) (acb_Content b);
}.
Definition norm_block (b : AnthropicContentBlock) : AnthropicContentBlock :=
  (b <| acb_Input := norm_raw (acb_Input b) |>) <| acb_Content := norm_raw (acb_Content b) |>.

Lemma wf_zero_block d : wf_block d zero_AnthropicContentBlock.
Proof. by split; try left. Qed.

Lemma wf_norm_block d b : wf_block d b -> wf_block d (norm_block b).
Proof. intros []. split; try done; by apply wf_norm_raw. Qed.

(** One goal for each field of a table. *)
Ltac each_field :=
  unfold preserves; repeat first [apply Forall_nil_2 | apply Forall_cons; split]; cbn [snd].

Lemma cache_preserves d : preserves AnthropicCacheControl_fields d wf_cache.
Proof.
  each_field; intros raw a a' Hraw [H1 H2] (b & Hb & ->)%fmap_Some; split;
    try done; (eapply d_string_wf; [apply value_is_doc, Hraw| |exact Hb]; done).
Qed.

Lemma source_preserves d : preserves AnthropicImageSource_fields d wf_source.
Proof.
  each_field; intros raw a a' Hraw (H1 & H2 & H3) (b & Hb & ->)%fmap_Some; split_and!;
    try done; (eapply d_string_wf; [apply value_is_doc, Hraw| |exact Hb]; done).
Qed.

Lemma block_preserves d : preserves AnthropicContentBlock_fields d (wf_block d).
Proof.
  each_field; intros raw a a' Hraw [] (b & Hb & ->)%fmap_Some; split; try done;
    try (eapply d_string_wf; [apply value_is_doc, Hraw| |exact Hb]; done);
    try (injection Hb as <-; by right).
  - eapply (d_ptr_wf (d + 1) zero_AnthropicCacheControl _ wf_cache); [|by split|done|by apply value_is_doc|exact Hb].
    intros x y Hx Hy. eapply d_struct_preserves; [apply cache_preserves|by apply value_is_doc|exact Hx|exact Hy].
  - eapply (d_ptr_wf (d + 1) zero_AnthropicImageSource _ wf_source); [|by split_and!|done|by apply value_is_doc|exact Hb].
    intros x y Hx Hy. eapply d_struct_preserves; [apply source_preserves|by apply value_is_doc|exact Hx|exact Hy].
Qed.

Lemma mapM_wf {A B} (f : A -> option B) (P : A -> Prop) (Q : B -> Prop) l l' :
  (forall a b, P a -> f a = Some b -> Q b) -> Forall P l -> mapM f l = Some l' -> Forall Q l'.
Proof.
  intros Hf Hl. revert l'. induction Hl as [|a l Ha Hl IH]; intros l' H.
  - by injection H as <-.
  - simpl in H. apply bind_Some in H as (b & Hb & H). apply bind_Some in H as (bs & Hbs & [= <-]).
    constructor; eauto.
Qed.

Lemma d_slice_wf {A} d zero (dec : decoder A) (P : A -> Prop) raw l :
  (forall x a, is_value (d + 1) x -> dec x zero = Some a -> P a) ->
  is_doc d raw -> d_slice zero dec raw = Some l -> Forall P l.
Proof.
  intros Hdec Hd H. unfold d_slice in H.
  destruct (json_shape raw) as [[]|] eqn:E; try done; [by injection H as <-|].
  eapply mapM_wf; [|exact (shape_elems d raw l0 Hd E)|exact H]. simpl. eauto.
Qed.

(** What was decoded is well formed. *)
Lemma decoded_block_wf d raw bs :
  is_doc d raw -> unmarshal_blocks raw = Some bs -> Forall (wf_block (d + 1)) bs.
Proof.
  intros Hd. apply (d_slice_wf d); [|done].
  intros x b Hx. apply d_struct_preserves with (d := (d + 1)%N);
    [apply block_preserves|by apply value_is_doc|apply wf_zero_block].
Qed.

Lemma unmarshal_blocks_doc raw bs : unmarshal_blocks raw = Some bs -> is_doc 0 raw.
Proof.
  unfold unmarshal_blocks, d_slice. destruct (json_shape raw) eqn:E; [|done].
  intros _. by eapply json_shape_valid.
Qed.

(** Encoders of the parts. *)
Lemma cache_roundtrip d a :
  (d < max_depth)%N -> wf_cache a ->
  exists s, enc_AnthropicCacheControl a = Some s /\ compact_text d s
    /\ d_struct AnthropicCacheControl_fields s zero_AnthropicCacheControl = Some a.
Proof.
  intros Hd [H1 H2]. apply emits_struct; [done|]. destruct a as [t ttl].
  eexists. split; [by eapply emits_string|].
  eexists. split; [by eapply emits_string_omit|]. reflexivity.
Qed.

Lemma source_roundtrip d a :
  (d < max_depth)%N -> wf_source a ->
  exists s, enc_AnthropicImageSource a = Some s /\ compact_text d s
    /\ d_struct AnthropicImageSource_fields s zero_AnthropicImageSource = Some a.
Proof.
  intros Hd (H1 & H2 & H3). apply emits_struct; [done|]. destruct a as [t m x].
  do 3 (eexists; split; [by eapply emits_string|]). reflexivity.
Qed.

(** A member encoder and the field it writes. *)
Ltac emit_step :=
  eexists; split;
  [ lazymatch goal with
    | |- emits _ _ (e_string _ _) _ _ =>
        eapply emits_string; [reflexivity|reflexivity|assumption]
    | |- emits _ _ (e_string_omit _ _) _ _ =>
        eapply emits_string_omit; [reflexivity|reflexivity|assumption|reflexivity]
    | |- emits _ _ (e_raw_omit _ _) _ _ =>
        eapply emits_raw_omit; [reflexivity|reflexivity|assumption|reflexivity]
    | |- emits _ _ (e_true_omit _ _) _ _ =>
        eapply emits_true_omit; [reflexivity|reflexivity|reflexivity]
    | |- emits _ _ (e_ptr_omit _ _ _) _ _ =>
        eapply emits_ptr_omit; [reflexivity|reflexivity|reflexivity|reflexivity|assumption]
    end
  | cbv beta ].

Ltac block_state :=
  cbv beta iota delta [upd zero_AnthropicContentBlock acb_Type acb_CacheControl acb_Text
    acb_Thinking acb_Signature acb_Data acb_Source acb_ID acb_Name acb_Input acb_ToolUseID
    acb_Content acb_IsError].

Lemma block_MarshalJSON d b :
  (d + 1 < max_depth)%N -> wf_block d b ->
  exists s, AnthropicContentBlock_MarshalJSON b = Some s /\ compact_text d s
    /\ dec_AnthropicContentBlock s zero_AnthropicContentBlock = Some (norm_block b).
Proof.
  intros Hd Hb. 
  assert (Hc : forall c, acb_CacheControl b = Some c -> exists s, enc_AnthropicCacheControl c = Some s
    /\ compact_text (d + 1) s /\ json_shape s <> Some SNull
    /\ d_struct AnthropicCacheControl_fields s zero_AnthropicCacheControl = Some c).
  { intros c E. pose proof (wb_cache _ _ Hb) as W. rewrite E in W.
    destruct (cache_roundtrip (d + 1) c) as (s & Es & Hs & Ed); [done..|].
    exists s. split_and!; try done. by eapply e_struct_not_null. }
  assert (Hs : forall c, acb_Source b = Some c -> exists s, enc_AnthropicImageSource c = Some s
    /\ compact_text (d + 1) s /\ json_shape s <> Some SNull
    /\ d_struct AnthropicImageSource_fields s zero_AnthropicImageSource = Some c).
  { intros c E. pose proof (wb_source _ _ Hb) as W. rewrite E in W.
    destruct (source_roundtrip (d + 1) c) as (s & Es & Hs & Ed); [done..|].
    exists s. split_and!; try done. by eapply e_struct_not_null. }
  destruct Hb. destruct b as [t cc tx th sg da src id nm inp tu co er].
  unfold AnthropicContentBlock_MarshalJSON, block_head, block_tail. block_state. cbn [app].
  destruct (t =?s "text"); [|destruct (t =?s "thinking")]; (apply emits_struct; [lia|]).
  all: repeat (lazymatch goal with |- emits_all _ _ (_ :: _) _ _ => emit_step; block_state end);
    reflexivity.
Qed.

Lemma block_roundtrip d b :
  (d + 1 < max_depth)%N -> wf_block d b ->
  exists s, enc_AnthropicContentBlock b = Some s /\ compact_text d s
    /\ dec_AnthropicContentBlock s zero_AnthropicContentBlock = Some (norm_block b).
Proof.
  intros Hd Hb. destruct (block_MarshalJSON d b Hd Hb) as (s & E & Hs & Ed).
  exists s. split_and!; try done. unfold enc_AnthropicContentBlock. rewrite E.
  by apply (compact_fixed d).
Qed.

Lemma slice_roundtrip {A} d zero (enc : A -> option string) (dec : decoder A) (P : A -> Prop) (norm : A -> A) l :
  (d < max_depth)%N ->
  (forall a, P a -> exists s, enc a = Some s /\ compact_text (d + 1) s /\ dec s zero = Some (norm a)) ->
  Forall P l ->
  exists s, e_slice enc l = Some s /\ compact_text d s /\ d_slice zero dec s = Some (map norm l).
Proof.
  intros Hd Henc Hl.
  assert (exists ss, mapM enc l = Some ss /\ Forall (compact_text (d + 1)) ss
    /\ mapM (fun x => dec x zero) ss = Some (map norm l)) as (ss & E & Hss & Ed).
  { induction Hl as [|a l Ha Hl (ss & E & Hss & Ed)]; [by exists []|].
    destruct (Henc a Ha) as (s & Es & Hs & Hd'). exists (s :: ss). simpl. rewrite Es, E.
    cbn [mbind option_bind]. rewrite Hd', Ed. split_and!; [done|by constructor|done]. }
  exists (print_array ss). unfold e_slice. rewrite E. split_and!; [done|by apply print_array_text|].
  unfold d_slice. rewrite shape_print_array; [done|].
  eapply Forall_impl; [exact Hss|]. intros x. apply compact_text_depth. lia.
Qed.

(** [json.Marshal] of well-formed blocks succeeds and [json.Unmarshal] reads them back. *)
Lemma blocks_roundtrip d bs :
  (d + 2 < max_depth)%N -> Forall (wf_block (d + 1)) bs ->
  exists s, marshal_blocks bs = Some s /\ compact_text d s
    /\ unmarshal_blocks s = Some (map norm_block bs).
Proof.
  intros Hd. apply slice_roundtrip; [lia|]. intros b Hb. apply block_roundtrip; [lia|done].
Qed.

(** ** Content parts *)

Record wf_part (d : N) (p : ResponsesContentPart) : Prop := {
  wp_breakpoint : wf_raw (d + 1) (rcp_PromptCacheBreakpoint p);
  wp_type : wf_str (rcp_Type p);
  wp_text : wf_str (rcp_Text p);
  wp_image : wf_str (rcp_ImageURL p);
  wp_filename : wf_str (rcp_Filename p);
  wp_data : wf_str (rcp_FileData p);
  wp_id : wf_str (rcp_FileID p);
}.
Definition norm_part (p : ResponsesContentPart) : ResponsesContentPart :=
  p <| rcp_PromptCacheBreakpoint := norm_raw (rcp_PromptCacheBreakpoint p) |>.

Lemma part_roundtrip d p :
  (d < max_depth)%N -> wf_part d p ->
  exists s, enc_ResponsesContentPart p = Some s /\ compact_text d s
    /\ d_struct ResponsesContentPart_fields s zero_ResponsesContentPart = Some (norm_part p).
Proof.
  intros Hd []. destruct p as [bp t tx im fn fd fi]. apply emits_struct; [done|].
  repeat (lazymatch goal with |- emits_all _ _ (_ :: _) _ _ => emit_step end). reflexivity.
Qed.

Lemma parts_roundtrip d ps :
  (d + 1 < max_depth)%N -> Forall (wf_part (d + 1)) ps ->
  exists s, marshal_parts ps = Some s /\ compact_text d s
    /\ unmarshal_parts s = Some (map norm_part ps).
Proof.
  intros Hd. apply slice_roundtrip; [lia|]. intros p Hp. by apply part_roundtrip.
Qed.

(** ** Input items *)

Record wf_item (d : N) (i : ResponsesInputItem) : Prop := {
  wi_type : wf_str (rii_Type i);
  wi_role : wf_str (rii_Role i);
  wi_content : wf_raw (d + 1) (rii_Content i);
  wi_encrypted : wf_str (rii_EncryptedContent i);
  wi_call : wf_str (rii_CallID i);
  wi_name : wf_str (rii_Name i);
  wi_arguments : wf_str (rii_Arguments i);
  wi_id : wf_str (rii_ID i);
  wi_output : wf_str (rii_Output i);
  wi_raw : rii_outputRaw i = "";
}.
Definition norm_item (i : ResponsesInputItem) : ResponsesInputItem :=
  i <| rii_Content := norm_raw (rii_Content i) |>.

(** A text with a quote at both ends is not trimmed. *)
Lemma strip_quote ps r :
  Forall (fun p => exists c x, p = String c x /\ is_c 34 c = false) ps -> strip_one ps (String dquote r) = None.
Proof.
  induction 1 as [|p ps (c & x & -> & Hc) _ IH]; [done|]. cbn [strip_one]. unfold CutPrefix.
  change (HasPrefix (String dquote r) (String c x)) with (Ascii.eqb c dquote && HasPrefix r x).
  destruct (Ascii.eqb c dquote) eqn:E; [|done]. apply Ascii.eqb_eq in E as ->. done.
Qed.

Lemma trim_left_quote ps r :
  Forall (fun p => exists c x, p = String c x /\ is_c 34 c = false) ps ->
  trim_left ps (String dquote r) = String dquote r.
Proof. intros H. unfold trim_left. cbn [String.length trim_left_fuel]. by rewrite strip_quote. Qed.

Lemma str_rev_app_spec s acc : str_rev_app s acc = str_rev s +:+ acc.
Proof.
  unfold str_rev. revert acc. induction s as [|c s IH]; intros acc; [done|]. cbn [str_rev_app].
  rewrite IH, (IH (String c "")). by rewrite str_app_assoc.
Qed.
Lemma str_rev_cons c s : str_rev (String c s) = str_rev s +:+ String c "".
Proof. exact (str_rev_app_spec s (String c "")). Qed.
Lemma str_rev_snoc s c : str_rev (s +:+ String c "") = String c (str_rev s).
Proof.
  induction s as [|a s IH]; [done|]. change (String a s +:+ String c "") with (String a (s +:+ String c "")).
  by rewrite str_rev_cons, IH, str_rev_cons.
Qed.
Lemma str_rev_involutive s : str_rev (str_rev s) = s.
Proof. induction s as [|c s IH]; [done|]. by rewrite str_rev_cons, str_rev_snoc, IH. Qed.

Lemma TrimSpace_quoted b : TrimSpace (quoted b) = quoted b.
Proof.
  unfold TrimSpace, quoted. rewrite trim_left_quote by (repeat constructor; by do 2 eexists).
  change (String dquote (b +:+ String dquote "")) with (String dquote b +:+ String dquote "").
  rewrite str_rev_snoc, trim_left_quote by (repeat constructor; by do 2 eexists).
  by rewrite <- str_rev_snoc, str_rev_involutive.
Qed.
Lemma TrimSpace_json_quote s : TrimSpace (json_quote s) = json_quote s.
Proof. rewrite json_quote_quoted. apply TrimSpace_quoted. Qed.

Lemma unmarshal_quoted s : wf_str s -> unmarshal_string (json_quote s) = Some s.
Proof. intros H. unfold unmarshal_string, d_string. by rewrite shape_json_quote. Qed.

Lemma json_quote_nonempty s : (json_quote s =?s "") = false.
Proof. by rewrite json_quote_quoted. Qed.
Lemma json_quote_not_null s : (json_quote s =?s "null") = false.
Proof. by rewrite json_quote_quoted. Qed.

Lemma item_roundtrip d i :
  (d < max_depth)%N -> wf_item d i ->
  exists s, enc_ResponsesInputItem i = Some s /\ compact_text d s
    /\ ResponsesInputItem_UnmarshalJSON s = Some (norm_item i).
Proof.
  intros Hd []. destruct i as [t r c ec cid nm args id o oraw]. cbn in *. subst oraw.
  destruct (emits_struct input_item_wire_fields d
    [e_string_omit "type" t; e_string_omit "role" r; e_raw_omit "content" c;
     e_string_omit "encrypted_content" ec; e_string_omit "call_id" cid; e_string_omit "name" nm;
     e_string_omit "arguments" args; e_string_omit "id" id; e_string_omit "output" o]
    (zero_ResponsesInputItem, "")
    (MkResponsesInputItem t r (norm_raw c) ec cid nm args id "" "",
     if o =?s "" then "" else json_quote o)) as (s & E & Hs & D); [done| |].
  - repeat (lazymatch goal with |- emits_all _ _ (e_string_omit "output" _ :: _) _ _ => fail
                              | |- emits_all _ _ (_ :: _) _ _ => emit_step end).
    eexists. split; [|reflexivity]. unfold e_string_omit. destruct (o =?s "").
    + by apply emits_nil.
    + eapply emits_one; [reflexivity|apply json_quote_text|reflexivity|reflexivity].
  - exists s. split_and!; [exact E|done|]. unfold ResponsesInputItem_UnmarshalJSON. rewrite D.
    cbn [mbind option_bind]. destruct (o =?s "") eqn:Eo.
    + apply String.eqb_eq in Eo as ->. done.
    + rewrite TrimSpace_json_quote, json_quote_nonempty, json_quote_not_null, unmarshal_quoted by done. done.
Qed.

Lemma items_roundtrip items :
  Forall (wf_item 1) items -> items <> [] ->
  exists s, marshal_items items = Some s /\ json_shape s <> Some SNull
    /\ unmarshal_items s = Some (map norm_item items).
Proof.
  intros H Hn.
  destruct (slice_roundtrip 0 zero_ResponsesInputItem enc_ResponsesInputItem
    (fun data _ => ResponsesInputItem_UnmarshalJSON data) (wf_item 1) norm_item items)
    as (s & E & _ & D); [done| |done|].
  - intros i Hi. by apply item_roundtrip.
  - exists s. split_and!; [by destruct items| |exact D].
    intros En. unfold d_slice in D. rewrite En in D. by destruct items.
Qed.

(** An array is not a string. *)
Lemma array_not_string {A} zero (dec : decoder A) s l :
  d_slice zero dec s = Some l -> json_shape s <> Some SNull -> unmarshal_string s = None.
Proof.
  unfold d_slice, unmarshal_string, d_string. by destruct (json_shape s) as [[]|].
Qed.
