(* ===== verification/ResponsesToAnthropic.v ===== *)
(** * OpenAI Responses to Anthropic Messages

    [src/backend/internal/pkg/apicompat/responses_to_anthropic.go]: the
    non-streaming conversion of a finished response and the stateful converter
    of a stream, one Definition per Go function.  The converter's pointer state
    is threaded explicitly; a handler returns the new state and the events it
    appends. *)

From S2P Require Import Prelude Json Apicompat.
Local Open Scope string_scope.
Local Open Scope Z_scope.
Local Open Scope list_scope.
Local Open Scope go_scope.

(** ** Shared helpers *)

(** Drops the old "fc_" wrapper around an Anthropic or chat call id. *)
Definition fromResponsesCallID (id : string) : string :=
  match CutPrefix id "fc_" with
  | Some after =>
      if HasPrefix after "toolu_" || HasPrefix after "call_" then after else id
  | None => id
  end.

Definition AnthropicStopReasonPtr (s : string) : option string := Some s.

Definition empty_json_string : string := String dquote (String dquote EmptyString).

(** The "Read" tool must not receive an empty [pages] argument. *)
Definition sanitizeAnthropicToolUseInput (name raw : string) : string :=
  if negb (name =?s "Read") || (raw =?s "") then raw
  else
    match unmarshal_raw_map raw with
    | None => raw
    | Some input =>
        match assoc "pages" input with
        | None => raw
        | Some pages =>
            if negb (pages =?s empty_json_string) then raw
            else marshal_raw_map (assoc_delete "pages" input)
        end
    end.

Definition anthropicUsageFromResponsesUsage (usage : option ResponsesUsage) : AnthropicUsage :=
  match usage with
  | None => zero_AnthropicUsage
  | Some u =>
      let cachedTokens :=
        match ru_InputTokensDetails u with
        | Some d => ritd_CachedTokens d
        | None => 0
        end in
      let inputTokens :=
        int_sub (int_sub (ru_InputTokens u) cachedTokens) (ru_CacheCreationInputTokens u) in
      let inputTokens := if inputTokens <? 0 then 0 else inputTokens in
      zero_AnthropicUsage
        <| au_InputTokens := inputTokens |>
        <| au_OutputTokens := ru_OutputTokens u |>
        <| au_CacheReadInputTokens := cachedTokens |>
        <| au_CacheCreationInputTokens := ru_CacheCreationInputTokens u |>
  end.

Definition containsAnthropicToolUseBlock (blocks : list AnthropicContentBlock) : bool :=
  existsb (fun b => acb_Type b =?s "tool_use") blocks.

Definition responsesStatusToAnthropicStopReason (status : string)
    (details : option ResponsesIncompleteDetails) (blocks : list AnthropicContentBlock) :
    string :=
  if status =?s "incomplete" then
    match details with
    | Some d => if rid_Reason d =?s "max_output_tokens" then "max_tokens" else "end_turn"
    | None => "end_turn"
    end
  else if status =?s "completed" then
    if containsAnthropicToolUseBlock blocks then "tool_use" else "end_turn"
  else "end_turn".

(** ** Non-streaming conversion *)

Definition web_search_query (item : ResponsesOutput) : string :=
  match ro_Action item with Some a => wsa_Query a | None => "" end.

Definition server_tool_use_block (item : ResponsesOutput) : AnthropicContentBlock :=
  zero_AnthropicContentBlock
    <| acb_Type := "server_tool_use" |>
    <| acb_ID := "srvtoolu_" +:+ ro_ID item |>
    <| acb_Name := "web_search" |>
    <| acb_Input := marshal_string_map [("query", web_search_query item)] |>.

Definition web_search_result_block (item : ResponsesOutput) : AnthropicContentBlock :=
  zero_AnthropicContentBlock
    <| acb_Type := "web_search_tool_result" |>
    <| acb_ToolUseID := "srvtoolu_" +:+ ro_ID item |>
    <| acb_Content := "[]" |>.

(** The summary_text parts of a reasoning item, concatenated. *)
Definition summary_text (summary : list ResponsesSummary) : string :=
  foldl (fun acc s =>
    if (rsum_Type s =?s "summary_text") && negb (rsum_Text s =?s "")
    then acc +:+ rsum_Text s else acc) "" summary.

(** The blocks one output item contributes (the body of the loop over
    [resp.Output]). *)
Definition output_item_blocks (item : ResponsesOutput) : list AnthropicContentBlock :=
  if ro_Type item =?s "reasoning" then
    let summaryText := summary_text (ro_Summary item) in
    if negb (summaryText =?s "") || negb (TrimSpace (ro_EncryptedContent item) =?s "")
    then [zero_AnthropicContentBlock
            <| acb_Type := "thinking" |>
            <| acb_Thinking := summaryText |>
            <| acb_Signature := ro_EncryptedContent item |>]
    else []
  else if ro_Type item =?s "message" then
    flat_map (fun part =>
      if (rcp_Type part =?s "output_text") && negb (rcp_Text part =?s "")
      then [zero_AnthropicContentBlock
              <| acb_Type := "text" |> <| acb_Text := rcp_Text part |>]
      else []) (ro_Content item)
  else if ro_Type item =?s "function_call" then
    [zero_AnthropicContentBlock
       <| acb_Type := "tool_use" |>
       <| acb_ID := fromResponsesCallID (ro_CallID item) |>
       <| acb_Name := ro_Name item |>
       <| acb_Input := sanitizeAnthropicToolUseInput (ro_Name item) (ro_Arguments item) |>]
  else if ro_Type item =?s "web_search_call" then
    [server_tool_use_block item; web_search_result_block item]
  else [].

Definition ResponsesToAnthropic (resp : ResponsesResponse) (model : string) :
    AnthropicResponse :=
  let blocks := flat_map output_item_blocks (rr_Output resp) in
  let blocks :=
    match blocks with
    | [] => [zero_AnthropicContentBlock <| acb_Type := "text" |> <| acb_Text := "" |>]
    | _ => blocks
    end in
  let out :=
    zero_AnthropicResponse
      <| ar_ID := rr_ID resp |>
      <| ar_Type := "message" |>
      <| ar_Role := "assistant" |>
      <| ar_Model := model |>
      <| ar_Content := blocks |>
      <| ar_StopReason := AnthropicStopReasonPtr
           (responsesStatusToAnthropicStopReason (rr_Status resp)
              (rr_IncompleteDetails resp) blocks) |> in
  match rr_Usage resp with
  | Some u => out <| ar_Usage := anthropicUsageFromResponsesUsage (Some u) |>
  | None => out
  end.

(** ** Stream state *)

Record responsesTextPart := MkresponsesTextPart {
  rtp_OutputIndex : Z;
  rtp_ContentIndex : Z;
}.
#[export] Instance responsesTextPart_eq_dec : EqDecision responsesTextPart.
Proof. solve_decision. Defined.
#[export] Instance responsesTextPart_countable : Countable responsesTextPart.
Proof.
  refine (inj_countable' (fun p => (rtp_OutputIndex p, rtp_ContentIndex p))
            (fun '(a, b) => MkresponsesTextPart a b) _).
  by intros [].
Defined.

Record ResponsesEventToAnthropicState := MkRAState {
  ra_MessageStartSent : bool;
  ra_MessageStopSent : bool;
  ra_ContentBlockIndex : Z;
  ra_ContentBlockOpen : bool;
  ra_CurrentBlockType : string;
  ra_CurrentToolName : string;
  ra_CurrentToolArgs : string;
  ra_CurrentToolHadDelta : bool;
  ra_PendingThinkingSignature : string;
  ra_HasToolCall : bool;
  ra_OutputIndexToBlockIdx : gmap Z Z;
  ra_textByPart : gmap responsesTextPart string;
  ra_textDelivered : bool;
  ra_InputTokens : Z;
  ra_OutputTokens : Z;
  ra_CacheReadInputTokens : Z;
  ra_CacheCreationInputTokens : Z;
  ra_ResponseID : string;
  ra_Model : string;
  ra_Created : Z;
}.
#[export] Instance eta_RAState : Eta ResponsesEventToAnthropicState := fun r =>
  MkRAState (ra_MessageStartSent r) (ra_MessageStopSent r) (ra_ContentBlockIndex r)
    (ra_ContentBlockOpen r) (ra_CurrentBlockType r) (ra_CurrentToolName r)
    (ra_CurrentToolArgs r) (ra_CurrentToolHadDelta r) (ra_PendingThinkingSignature r)
    (ra_HasToolCall r) (ra_OutputIndexToBlockIdx r) (ra_textByPart r) (ra_textDelivered r)
    (ra_InputTokens r) (ra_OutputTokens r) (ra_CacheReadInputTokens r)
    (ra_CacheCreationInputTokens r) (ra_ResponseID r) (ra_Model r) (ra_Created r).

(** [now] is [time.Now().Unix()]. *)
Definition NewResponsesEventToAnthropicState (now : Z) : ResponsesEventToAnthropicState :=
  MkRAState false false 0 false "" "" "" false "" false ∅ ∅ false 0 0 0 0 "" "" now.

Local Abbreviation State := ResponsesEventToAnthropicState.
Local Abbreviation Events := (list AnthropicStreamEvent).

(** ** Event constructors (the composite literals of the handlers) *)

Definition block_start (idx : Z) (b : AnthropicContentBlock) : AnthropicStreamEvent :=
  zero_AnthropicStreamEvent
    <| ase_Type := "content_block_start" |>
    <| ase_Index := Some idx |>
    <| ase_ContentBlock := Some b |>.
Definition block_delta (idx : Z) (d : AnthropicDelta) : AnthropicStreamEvent :=
  zero_AnthropicStreamEvent
    <| ase_Type := "content_block_delta" |>
    <| ase_Index := Some idx |>
    <| ase_Delta := Some d |>.
Definition block_stop (idx : Z) : AnthropicStreamEvent :=
  zero_AnthropicStreamEvent
    <| ase_Type := "content_block_stop" |> <| ase_Index := Some idx |>.
Definition text_delta (t : string) : AnthropicDelta :=
  zero_AnthropicDelta <| ad_Type := "text_delta" |> <| ad_Text := t |>.
Definition input_json_delta (t : string) : AnthropicDelta :=
  zero_AnthropicDelta <| ad_Type := "input_json_delta" |> <| ad_PartialJSON := t |>.
Definition thinking_delta (t : string) : AnthropicDelta :=
  zero_AnthropicDelta <| ad_Type := "thinking_delta" |> <| ad_Thinking := t |>.
Definition signature_delta (t : string) : AnthropicDelta :=
  zero_AnthropicDelta <| ad_Type := "signature_delta" |> <| ad_Signature := t |>.

Definition state_usage (st : State) : AnthropicUsage :=
  zero_AnthropicUsage
    <| au_InputTokens := ra_InputTokens st |>
    <| au_OutputTokens := ra_OutputTokens st |>
    <| au_CacheReadInputTokens := ra_CacheReadInputTokens st |>
    <| au_CacheCreationInputTokens := ra_CacheCreationInputTokens st |>.
Definition message_delta (stopReason : string) (st : State) : AnthropicStreamEvent :=
  zero_AnthropicStreamEvent
    <| ase_Type := "message_delta" |>
    <| ase_Delta := Some (zero_AnthropicDelta <| ad_StopReason := stopReason |>) |>
    <| ase_Usage := Some (state_usage st) |>.
Definition message_stop : AnthropicStreamEvent :=
  zero_AnthropicStreamEvent <| ase_Type := "message_stop" |>.

(** ** Handlers *)

Definition closeCurrentBlock (st : State) : State * Events :=
  if negb (ra_ContentBlockOpen st) then (st, [])
  else
    let idx := ra_ContentBlockIndex st in
    let '(st, sig_events) :=
      if ra_CurrentBlockType st =?s "thinking" then
        let sig := TrimSpace (ra_PendingThinkingSignature st) in
        (st <| ra_PendingThinkingSignature := "" |>,
         if negb (sig =?s "") then [block_delta idx (signature_delta sig)] else [])
      else (st, []) in
    (st <| ra_ContentBlockOpen := false |>
        <| ra_ContentBlockIndex := ra_ContentBlockIndex st + 1 |>
        <| ra_CurrentToolName := "" |>
        <| ra_CurrentToolArgs := "" |>
        <| ra_CurrentToolHadDelta := false |>,
     sig_events ++ [block_stop idx]).

Definition resToAnthHandleBlockDone (st : State) : State * Events :=
  if negb (ra_ContentBlockOpen st) then (st, []) else closeCurrentBlock st.

Definition resToAnthHandleCreated (evt : ResponsesStreamEvent) (st : State) :
    State * Events :=
  let st :=
    match rse_Response evt with
    | Some r =>
        let st := st <| ra_ResponseID := rr_ID r |> in
        if ra_Model st =?s "" then st <| ra_Model := rr_Model r |> else st
    | None => st
    end in
  if ra_MessageStartSent st then (st, [])
  else
    let st := st <| ra_MessageStartSent := true |> in
    (st, [zero_AnthropicStreamEvent
            <| ase_Type := "message_start" |>
            <| ase_Message := Some (zero_AnthropicResponse
                 <| ar_ID := ra_ResponseID st |>
                 <| ar_Type := "message" |>
                 <| ar_Role := "assistant" |>
                 <| ar_Content := [] |>
                 <| ar_Model := ra_Model st |>
                 <| ar_StopReason := None |>) |>]).

Definition open_tool_block (evt : ResponsesStreamEvent) (item : ResponsesOutput)
    (st : State) : State * Events :=
  let idx := ra_ContentBlockIndex st in
  (st <| ra_OutputIndexToBlockIdx := <[rse_OutputIndex evt := idx]> (ra_OutputIndexToBlockIdx st) |>
      <| ra_ContentBlockOpen := true |>
      <| ra_CurrentBlockType := "tool_use" |>
      <| ra_CurrentToolName := ro_Name item |>
      <| ra_CurrentToolArgs := "" |>
      <| ra_CurrentToolHadDelta := false |>
      <| ra_HasToolCall := true |>,
   [block_start idx (zero_AnthropicContentBlock
      <| acb_Type := "tool_use" |>
      <| acb_ID := fromResponsesCallID (ro_CallID item) |>
      <| acb_Name := ro_Name item |>
      <| acb_Input := "{}" |>)]).

Definition open_thinking_block (evt : ResponsesStreamEvent) (item : ResponsesOutput)
    (st : State) : State * Events :=
  let idx := ra_ContentBlockIndex st in
  (st <| ra_OutputIndexToBlockIdx := <[rse_OutputIndex evt := idx]> (ra_OutputIndexToBlockIdx st) |>
      <| ra_ContentBlockOpen := true |>
      <| ra_CurrentBlockType := "thinking" |>
      <| ra_PendingThinkingSignature := TrimSpace (ro_EncryptedContent item) |>,
   [block_start idx (zero_AnthropicContentBlock
      <| acb_Type := "thinking" |> <| acb_Thinking := "" |>)]).

Definition resToAnthHandleOutputItemAdded (evt : ResponsesStreamEvent) (st : State) :
    State * Events :=
  match rse_Item evt with
  | None => (st, [])
  | Some item =>
      if (ro_Type item =?s "function_call") || (ro_Type item =?s "custom_tool_call") then
        (closeCurrentBlock ;>> open_tool_block evt item) st
      else if ro_Type item =?s "reasoning" then
        (closeCurrentBlock ;>> open_thinking_block evt item) st
      else (st, [])
  end.

Definition resToAnthTextPartOf (evt : ResponsesStreamEvent) : responsesTextPart :=
  MkresponsesTextPart (rse_OutputIndex evt) (rse_ContentIndex evt).

Definition open_text_block (st : State) : State * Events :=
  (st <| ra_ContentBlockOpen := true |> <| ra_CurrentBlockType := "text" |>,
   [block_start (ra_ContentBlockIndex st)
      (zero_AnthropicContentBlock <| acb_Type := "text" |> <| acb_Text := "" |>)]).

Definition ensure_text_block (st : State) : State * Events :=
  if negb (ra_ContentBlockOpen st) || negb (ra_CurrentBlockType st =?s "text") then
    (closeCurrentBlock ;>> open_text_block) st
  else (st, []).

Definition record_and_emit_text (text : string) (part : responsesTextPart) (st : State) :
    State * Events :=
  let delivered := default "" (ra_textByPart st !! part) in
  (st <| ra_textByPart := <[part := delivered +:+ text]> (ra_textByPart st) |>
      <| ra_textDelivered := true |>,
   [block_delta (ra_ContentBlockIndex st) (text_delta text)]).

Definition resToAnthEmitText (text : string) (part : responsesTextPart) (st : State) :
    State * Events :=
  if text =?s "" then (st, [])
  else (ensure_text_block ;>> record_and_emit_text text part) st.

Definition resToAnthRecoverText (text : string) (part : responsesTextPart) (st : State) :
    State * Events :=
  let builder := ra_textByPart st !! part in
  let known := bool_decide (is_Some builder) in
  if negb known && ra_textDelivered st then (st, [])
  else
    let delivered := default "" builder in
    if (text =?s delivered) || negb (HasPrefix text delivered) then (st, [])
    else resToAnthEmitText (str_drop (String.length delivered) text) part st.

Definition resToAnthHandleTextDelta (evt : ResponsesStreamEvent) : State -> State * Events :=
  resToAnthEmitText (rse_Delta evt) (resToAnthTextPartOf evt).

Definition resToAnthHandleTextDone (evt : ResponsesStreamEvent) (st : State) :
    State * Events :=
  if ra_MessageStopSent st then resToAnthHandleBlockDone st
  else
    (resToAnthRecoverText (rse_Text evt) (resToAnthTextPartOf evt) ;>>
     resToAnthHandleBlockDone) st.

Definition resToAnthHandleFuncArgsDelta (evt : ResponsesStreamEvent) (st : State) :
    State * Events :=
  let delta := rse_Delta evt in
  if delta =?s "" then (st, [])
  else if (ra_CurrentBlockType st =?s "tool_use") && (ra_CurrentToolName st =?s "Read") then
    let st := st <| ra_CurrentToolArgs := ra_CurrentToolArgs st +:+ delta |> in
    if ra_CurrentToolHadDelta st || negb (json_valid (ra_CurrentToolArgs st)) then (st, [])
    else
      match ra_OutputIndexToBlockIdx st !! rse_OutputIndex evt with
      | None => (st, [])
      | Some blockIdx =>
          let st := st <| ra_CurrentToolHadDelta := true |> in
          (st, [block_delta blockIdx (input_json_delta
                  (sanitizeAnthropicToolUseInput (ra_CurrentToolName st)
                     (ra_CurrentToolArgs st)))])
      end
  else
    let st := if ra_CurrentBlockType st =?s "tool_use"
              then st <| ra_CurrentToolHadDelta := true |> else st in
    match ra_OutputIndexToBlockIdx st !! rse_OutputIndex evt with
    | None => (st, [])
    | Some blockIdx => (st, [block_delta blockIdx (input_json_delta delta)])
    end.

Definition emit_arguments (outputIndex : Z) (raw : string) (st : State) : State * Events :=
  let blockIdx :=
    match ra_OutputIndexToBlockIdx st !! outputIndex with
    | Some i => i
    | None => ra_ContentBlockIndex st
    end in
  if negb (ra_ContentBlockOpen st) || negb (blockIdx =? ra_ContentBlockIndex st)
  then (st, [])
  else (emit (fun _ => [block_delta blockIdx (input_json_delta raw)]) ;>>
        closeCurrentBlock) st.

Definition resToAnthHandleFuncArgsDone (evt : ResponsesStreamEvent) (st : State) :
    State * Events :=
  if negb (ra_ContentBlockOpen st) then (st, [])
  else if negb (ra_CurrentBlockType st =?s "tool_use") then resToAnthHandleBlockDone st
  else
    let raw := if rse_Arguments evt =?s "" then ra_CurrentToolArgs st else rse_Arguments evt in
    if (raw =?s "") || ra_CurrentToolHadDelta st then closeCurrentBlock st
    else if ra_CurrentToolName st =?s "Read" then
      let sanitized := sanitizeAnthropicToolUseInput (ra_CurrentToolName st) raw in
      if sanitized =?s "" then closeCurrentBlock st
      else emit_arguments (rse_OutputIndex evt) sanitized st
    else emit_arguments (rse_OutputIndex evt) raw st.

Definition resToAnthHandleReasoningDelta (evt : ResponsesStreamEvent) (st : State) :
    State * Events :=
  if rse_Delta evt =?s "" then (st, [])
  else
    match ra_OutputIndexToBlockIdx st !! rse_OutputIndex evt with
    | None => (st, [])
    | Some blockIdx => (st, [block_delta blockIdx (thinking_delta (rse_Delta evt))])
    end.

(** A block that is started and stopped at once, as the web-search blocks are. *)
Definition whole_block (b : AnthropicContentBlock) (st : State) : State * Events :=
  let idx := ra_ContentBlockIndex st in
  (st <| ra_ContentBlockIndex := ra_ContentBlockIndex st + 1 |>,
   [block_start idx b; block_stop idx]).

Definition resToAnthHandleWebSearchDone (item : ResponsesOutput) : State -> State * Events :=
  closeCurrentBlock ;>>
  whole_block (server_tool_use_block item) ;>>
  whole_block (web_search_result_block item).

Definition resToAnthHandleOutputItemDone (evt : ResponsesStreamEvent) (st : State) :
    State * Events :=
  match rse_Item evt with
  | None => (st, [])
  | Some item =>
      if (ro_Type item =?s "web_search_call") && (ro_Status item =?s "completed") then
        resToAnthHandleWebSearchDone item st
      else
        let st :=
          if ro_Type item =?s "reasoning" then
            let sig := TrimSpace (ro_EncryptedContent item) in
            if negb (sig =?s "") then st <| ra_PendingThinkingSignature := sig |> else st
          else st in
        if ra_ContentBlockOpen st then closeCurrentBlock st else (st, [])
  end.

(** The double loop over the terminal output array. *)
Fixpoint recover_contents (outputIndex contentIndex : Z) (parts : list ResponsesContentPart) :
    State -> State * Events :=
  match parts with
  | [] => fun st => (st, [])
  | c :: parts =>
      (if rcp_Type c =?s "output_text"
       then resToAnthEmitText (rcp_Text c) (MkresponsesTextPart outputIndex contentIndex)
       else fun st => (st, [])) ;>>
      recover_contents outputIndex (contentIndex + 1) parts
  end.

Fixpoint recover_items (outputIndex : Z) (items : list ResponsesOutput) :
    State -> State * Events :=
  match items with
  | [] => fun st => (st, [])
  | item :: items =>
      (if ro_Type item =?s "message"
       then recover_contents outputIndex 0 (ro_Content item)
       else fun st => (st, [])) ;>>
      recover_items (outputIndex + 1) items
  end.

Definition resToAnthRecoverTerminalText (evt : ResponsesStreamEvent) (st : State) :
    State * Events :=
  match rse_Response evt with
  | None => (st, [])
  | Some r =>
      if ra_textDelivered st then (st, [])
      else
        let '(st, events) := recover_items 0 (rr_Output r) st in
        match events with
        | [] => (st, [])
        | _ => let '(st, closing) := closeCurrentBlock st in (st, events ++ closing)
        end
  end.

Definition set_usage (u : ResponsesUsage) (st : State) : State :=
  let usage := anthropicUsageFromResponsesUsage (Some u) in
  st <| ra_InputTokens := au_InputTokens usage |>
     <| ra_OutputTokens := au_OutputTokens usage |>
     <| ra_CacheReadInputTokens := au_CacheReadInputTokens usage |>
     <| ra_CacheCreationInputTokens := au_CacheCreationInputTokens usage |>.

Definition terminal_stop_reason (evt : ResponsesStreamEvent) (hasToolCall : bool) : string :=
  match rse_Response evt with
  | None => "end_turn"
  | Some r =>
      if rr_Status r =?s "incomplete" then
        match rr_IncompleteDetails r with
        | Some d => if rid_Reason d =?s "max_output_tokens" then "max_tokens" else "end_turn"
        | None => "end_turn"
        end
      else if rr_Status r =?s "completed" then
        if hasToolCall then "tool_use" else "end_turn"
      else "end_turn"
  end.

Definition record_terminal_usage (evt : ResponsesStreamEvent) (st : State) : State :=
  let st := match rse_Usage evt with Some u => set_usage u st | None => st end in
  match rse_Response evt with
  | Some r => match rr_Usage r with Some u => set_usage u st | None => st end
  | None => st
  end.

Definition terminate (stopReason : string) (st : State) : State * Events :=
  (st <| ra_MessageStopSent := true |>, [message_delta stopReason st; message_stop]).

Definition resToAnthHandleCompleted (evt : ResponsesStreamEvent) (st : State) :
    State * Events :=
  if ra_MessageStopSent st then (st, [])
  else
    (closeCurrentBlock ;>>
     resToAnthRecoverTerminalText evt ;>>
     (fun st => (record_terminal_usage evt st, [])) ;>>
     (fun st => terminate (terminal_stop_reason evt (ra_HasToolCall st)) st)) st.

(** ** The converter *)

Definition one_of (s : string) (l : list string) : bool := existsb (String.eqb s) l.

Definition ResponsesEventToAnthropicEvents (evt : ResponsesStreamEvent) (st : State) :
    State * Events :=
  let t := rse_Type evt in
  if t =?s "response.created" then resToAnthHandleCreated evt st
  else if t =?s "response.output_item.added" then resToAnthHandleOutputItemAdded evt st
  else if t =?s "response.output_text.delta" then resToAnthHandleTextDelta evt st
  else if t =?s "response.output_text.done" then resToAnthHandleTextDone evt st
  else if one_of t ["response.function_call_arguments.delta";
                    "response.custom_tool_call_input.delta"]
  then resToAnthHandleFuncArgsDelta evt st
  else if t =?s "response.function_call_arguments.done" then resToAnthHandleFuncArgsDone evt st
  else if t =?s "response.output_item.done" then resToAnthHandleOutputItemDone evt st
  else if one_of t ["response.reasoning_summary_text.delta"; "response.reasoning_text.delta"]
  then resToAnthHandleReasoningDelta evt st
  else if t =?s "response.reasoning_summary_text.done" then (st, [])
  else if one_of t ["response.completed"; "response.done"; "response.incomplete";
                    "response.failed"]
  then resToAnthHandleCompleted evt st
  else (st, []).

Definition FinalizeResponsesAnthropicStream (st : State) : State * Events :=
  if negb (ra_MessageStartSent st) || ra_MessageStopSent st then (st, [])
  else
    (closeCurrentBlock ;>>
     (fun st => terminate (if ra_HasToolCall st then "tool_use" else "end_turn") st)) st.

#[export] Instance responses_to_anthropic :
    Converter ResponsesEventToAnthropicState ResponsesStreamEvent AnthropicStreamEvent := {
  conv_step := ResponsesEventToAnthropicEvents;
  conv_finalize := FinalizeResponsesAnthropicStream;
}.
