(* ===== verification/ResponsesToAnthropicProofs.v ===== *)
(** * Block structure of the translated Anthropic stream

    A monitor for the content-block grammar of the Anthropic streaming protocol
    and the proof that the Responses converter's output always satisfies it. *)

From S2P Require Import Prelude Json Apicompat ResponsesToAnthropic.
Local Open Scope string_scope.
Local Open Scope Z_scope.
Local Open Scope list_scope.
Local Open Scope go_scope.

(** ** The monitor *)

(** The index the next block must carry and the type of the open block. *)
Record BlockMon := MkBlockMon { bm_next : Z; bm_open : option string }.

Definition bm_init : BlockMon := MkBlockMon 0 None.

(** [delta_ok] decides which index and payload a delta may carry. *)
Definition block_mon (delta_ok : BlockMon -> Z -> AnthropicDelta -> bool)
    (m : BlockMon) (e : AnthropicStreamEvent) : option BlockMon :=
  let t := ase_Type e in
  if t =?s "content_block_start" then
    match ase_Index e, ase_ContentBlock e, bm_open m with
    | Some i, Some b, None =>
        if i =? bm_next m then Some (MkBlockMon (bm_next m) (Some (acb_Type b))) else None
    | _, _, _ => None
    end
  else if t =?s "content_block_delta" then
    match ase_Index e, ase_Delta e with
    | Some i, Some d => if delta_ok m i d then Some m else None
    | _, _ => None
    end
  else if t =?s "content_block_stop" then
    match ase_Index e, bm_open m with
    | Some i, Some _ =>
        if i =? bm_next m then Some (MkBlockMon (bm_next m + 1) None) else None
    | _, _ => None
    end
  else if (t =?s "message_delta") || (t =?s "message_stop") then
    match bm_open m with None => Some m | Some _ => None end
  else if t =?s "message_start" then Some m
  else None.

(** The block was started at some point (it may have been stopped since). *)
Definition delta_started (m : BlockMon) (i : Z) (_ : AnthropicDelta) : bool :=
  (0 <=? i) && ((i <? bm_next m) || ((i =? bm_next m) && bool_decide (is_Some (bm_open m)))).

(** The delta kind each block type takes. *)
Definition delta_fits (block delta : string) : bool :=
  if block =?s "text" then delta =?s "text_delta"
  else if block =?s "tool_use" then delta =?s "input_json_delta"
  else if block =?s "thinking" then (delta =?s "thinking_delta") || (delta =?s "signature_delta")
  else false.

(** The block is the open one and takes this kind of delta. *)
Definition delta_open (m : BlockMon) (i : Z) (d : AnthropicDelta) : bool :=
  match bm_open m with
  | Some b => (i =? bm_next m) && delta_fits b (ad_Type d)
  | None => false
  end.

(** One equation per event the converter emits. *)
Section MonEquations.
Context (ok : BlockMon -> Z -> AnthropicDelta -> bool).
Lemma mon_start m i b :
  block_mon ok m (block_start i b) =
    match bm_open m with
    | None => if i =? bm_next m then Some (MkBlockMon (bm_next m) (Some (acb_Type b)))
              else None
    | Some _ => None
    end.
Proof. reflexivity. Qed.
Lemma mon_delta m i d :
  block_mon ok m (block_delta i d) = if ok m i d then Some m else None.
Proof. reflexivity. Qed.
Lemma mon_stop m i :
  block_mon ok m (block_stop i) =
    match bm_open m with
    | Some _ => if i =? bm_next m then Some (MkBlockMon (bm_next m + 1) None) else None
    | None => None
    end.
Proof. reflexivity. Qed.
Lemma mon_message_delta m r st :
  block_mon ok m (message_delta r st) =
    match bm_open m with None => Some m | Some _ => None end.
Proof. reflexivity. Qed.
Lemma mon_message_stop m :
  block_mon ok m message_stop = match bm_open m with None => Some m | Some _ => None end.
Proof. reflexivity. Qed.
End MonEquations.
#[export] Hint Rewrite mon_start mon_delta mon_stop mon_message_delta mon_message_stop
  Z.eqb_refl : s2q_rw.
#[local] Arguments block_mon : simpl never.
#[local] Arguments block_start : simpl never.
#[local] Arguments block_delta : simpl never.
#[local] Arguments block_stop : simpl never.
#[local] Arguments message_delta : simpl never.
#[local] Arguments message_stop : simpl never.
#[local] Arguments Z.add : simpl never.

(** ** The simulation relation *)

Record RB (st : ResponsesEventToAnthropicState) (m : BlockMon) : Prop := {
  rb_next : bm_next m = ra_ContentBlockIndex st;
  rb_open : bm_open m =
    if ra_ContentBlockOpen st then Some (ra_CurrentBlockType st) else None;
  rb_nonneg : 0 <= ra_ContentBlockIndex st;
  rb_map : forall o i, ra_OutputIndexToBlockIdx st !! o = Some i ->
    0 <= i /\ (i < ra_ContentBlockIndex st \/
              (i = ra_ContentBlockIndex st /\ ra_ContentBlockOpen st = true));
}.
(** ... with no block open, *)
Definition RBclosed st m := RB st m /\ ra_ContentBlockOpen st = false.
(** ... with a block of type [t] open. *)
Definition RBin (t : string) st m :=
  RB st m /\ ra_ContentBlockOpen st = true /\ ra_CurrentBlockType st = t.

(** The two event families whose delta is addressed through the output index. *)
Definition is_args_delta (evt : ResponsesStreamEvent) : bool :=
  one_of (rse_Type evt) ["response.function_call_arguments.delta";
                         "response.custom_tool_call_input.delta"].
Definition is_reasoning_delta (evt : ResponsesStreamEvent) : bool :=
  one_of (rse_Type evt) ["response.reasoning_summary_text.delta";
                         "response.reasoning_text.delta"].

(** A recovery that emitted nothing changed nothing. *)
Lemma resToAnthEmitText_quiet text part st :
  (resToAnthEmitText text part st).2 = [] -> (resToAnthEmitText text part st).1 = st.
Proof.
  unfold resToAnthEmitText, then_emit, record_and_emit_text. destruct (_ =?s _); [done|].
  destruct (ensure_text_block st); simpl. by intros [_ ?]%app_eq_nil.
Qed.

Lemma then_emit_quiet {St Out : Type} (f g : St -> St * list Out) :
  (forall s, (f s).2 = [] -> (f s).1 = s) -> (forall s, (g s).2 = [] -> (g s).1 = s) ->
  forall s, ((f ;>> g) s).2 = [] -> ((f ;>> g) s).1 = s.
Proof.
  intros Hf Hg s. unfold then_emit. specialize (Hf s).
  destruct (f s) as [s1 o1]; simpl in *. specialize (Hg s1).
  destruct (g s1) as [s2 o2]; simpl in *. intros [-> ->]%app_eq_nil.
  rewrite Hg by done. by apply Hf.
Qed.

Lemma recover_contents_quiet o c parts st :
  (recover_contents o c parts st).2 = [] -> (recover_contents o c parts st).1 = st.
Proof.
  revert c st; induction parts as [|p parts IH]; intros c; [done|].
  apply then_emit_quiet; [|apply IH].
  destruct (_ =?s _); [apply resToAnthEmitText_quiet|done].
Qed.

Lemma recover_items_quiet o items st :
  (recover_items o items st).2 = [] -> (recover_items o items st).1 = st.
Proof.
  revert o st; induction items as [|i items IH]; intros o; [done|].
  apply then_emit_quiet; [|apply IH].
  destruct (_ =?s _); [apply recover_contents_quiet|done].
Qed.

Section Blocks.
Context (delta_ok : BlockMon -> Z -> AnthropicDelta -> bool).
Context (Hok : forall m i d, 0 <= bm_next m ->
  delta_open m i d = true -> delta_ok m i d = true).
Local Abbreviation mon := (block_mon delta_ok).
Local Abbreviation State := ResponsesEventToAnthropicState.

Lemma closeCurrentBlock_sim : sim mon RB RBclosed closeCurrentBlock.
Proof.
  intros st m HR. pose proof HR as [Hn Ho Hz Hm]. unfold closeCurrentBlock.
  destruct (ra_ContentBlockOpen st) eqn:Eo; simpl; [|exists m; split; [done|by split]].
  assert (Hd : forall d, delta_fits (ra_CurrentBlockType st) (ad_Type d) = true ->
     delta_ok m (ra_ContentBlockIndex st) d = true).
  { intros d Hd. apply Hok; [lia|]. unfold delta_open. by rewrite Ho, Hn, Z.eqb_refl. }
  exists (MkBlockMon (ra_ContentBlockIndex st + 1) None).
  destruct (ra_CurrentBlockType st =?s "thinking") eqn:Et.
  - apply String.eqb_eq in Et. rewrite Et in Hd. simpl. split.
    + destruct (TrimSpace _ =?s ""); simpl; autorewrite with s2q_rw.
      * by rewrite Ho, Hn, Z.eqb_refl.
      * rewrite Hd by done. simpl. autorewrite with s2q_rw.
        by rewrite Ho, Hn, Z.eqb_refl.
    + split; [|done]. split; simpl; [done|done|lia|].
      intros o i Hi. destruct (Hm o i Hi). lia.
  - simpl. autorewrite with s2q_rw. rewrite Ho, Hn, Z.eqb_refl. split; [done|].
    split; [|done]. split; simpl; [done|done|lia|].
    intros o i Hi. destruct (Hm o i Hi). lia.
Qed.

Lemma open_block_sim t (b : AnthropicContentBlock) (f : State -> State) :
  acb_Type b = t ->
  (forall st, ra_ContentBlockIndex (f st) = ra_ContentBlockIndex st) ->
  (forall st, ra_ContentBlockOpen (f st) = true) ->
  (forall st, ra_CurrentBlockType (f st) = t) ->
  (forall st o i, ra_OutputIndexToBlockIdx (f st) !! o = Some i ->
     i = ra_ContentBlockIndex st \/ ra_OutputIndexToBlockIdx st !! o = Some i) ->
  sim mon RBclosed (RBin t) (fun st => (f st, [block_start (ra_ContentBlockIndex st) b])).
Proof.
  intros Ht Hi Ho Hty Hm st m [[Rn Ro Rz Rm] Hcl].
  exists (MkBlockMon (bm_next m) (Some t)). simpl. autorewrite with s2q_rw.
  rewrite Ro, Hcl, Rn, Z.eqb_refl, Ht. split; [done|].
  split; [split|split]; simpl; rewrite ?Hi, ?Ho, ?Hty; try done.
  intros o i Hoi. destruct (Hm st o i Hoi) as [->|Hold]; [auto with lia|].
  destruct (Rm o i Hold) as [? [?|[? Hbad]]]; [auto with lia|congruence].
Qed.

Lemma open_tool_block_sim evt item :
  sim mon RBclosed (RBin "tool_use") (open_tool_block evt item).
Proof.
  apply open_block_sim; try done. intros st o i; simpl.
  rewrite lookup_insert_Some. intros [[_ <-]|[_ ?]]; auto.
Qed.

Lemma open_thinking_block_sim evt item :
  sim mon RBclosed (RBin "thinking") (open_thinking_block evt item).
Proof.
  apply open_block_sim; try done. intros st o i; simpl.
  rewrite lookup_insert_Some. intros [[_ <-]|[_ ?]]; auto.
Qed.

Lemma open_text_block_sim : sim mon RBclosed (RBin "text") open_text_block.
Proof. apply open_block_sim; try done. intros st o i; simpl. auto. Qed.

Lemma RBin_RB t st m : RBin t st m -> RB st m.
Proof. by intros [? ?]. Qed.
Lemma RBclosed_RB st m : RBclosed st m -> RB st m.
Proof. by intros [? ?]. Qed.

Lemma ensure_text_block_sim : sim mon RB (RBin "text") ensure_text_block.
Proof.
  apply sim_if.
  - apply sim_mono with RB (RBin "text"); [by intros ?? []|done|].
    apply sim_then with RBclosed; [apply closeCurrentBlock_sim|apply open_text_block_sim].
  - intros st m [HR Hb]. bool_hyps. by exists m.
Qed.

(** The open block takes a delta of its own kind. *)
Lemma open_delta_ok t st m d :
  RBin t st m -> delta_fits t (ad_Type d) = true ->
  delta_ok m (ra_ContentBlockIndex st) d = true.
Proof.
  intros [[Hn Ho Hz _] [Hop Hty]] Hd. apply Hok; [lia|]. unfold delta_open.
  by rewrite Ho, Hop, Hn, Z.eqb_refl, Hty.
Qed.

Lemma record_and_emit_text_sim text part :
  sim mon (RBin "text") RB (record_and_emit_text text part).
Proof.
  intros st m HR. exists m. simpl. autorewrite with s2q_rw.
  rewrite (open_delta_ok "text") by done. split; [done|].
  destruct HR as [[? ? ? ?] _]. by split.
Qed.

Lemma resToAnthEmitText_sim text part : sim mon RB RB (resToAnthEmitText text part).
Proof.
  apply sim_if; [by intros st m [? _]; exists m|].
  apply sim_mono with RB RB; [by intros ?? []|done|].
  apply sim_then with (RBin "text");
    [apply ensure_text_block_sim|apply record_and_emit_text_sim].
Qed.

Lemma resToAnthHandleBlockDone_sim : sim mon RB RBclosed resToAnthHandleBlockDone.
Proof.
  apply sim_if.
  - intros st m [HR Hb]. bool_hyps. by exists m.
  - apply sim_mono with RB RBclosed; [by intros ?? []|done|apply closeCurrentBlock_sim].
Qed.

Lemma resToAnthRecoverText_sim text part : sim mon RB RB (resToAnthRecoverText text part).
Proof.
  intros st m HR. unfold resToAnthRecoverText.
  destruct (_ && _); [by exists m|]. destruct (_ || _); [by exists m|].
  by apply resToAnthEmitText_sim.
Qed.

Lemma resToAnthHandleTextDone_sim evt : sim mon RB RB (resToAnthHandleTextDone evt).
Proof.
  apply sim_mono with RB RBclosed; [done|apply RBclosed_RB|].
  apply sim_if; (apply sim_mono with RB RBclosed; [by intros ?? []|done|]).
  - apply resToAnthHandleBlockDone_sim.
  - apply sim_then with RB; [apply resToAnthRecoverText_sim|
      apply resToAnthHandleBlockDone_sim].
Qed.

Lemma emit_arguments_sim oi raw : sim mon (RBin "tool_use") RB (emit_arguments oi raw).
Proof.
  intros st m HR. unfold emit_arguments.
  set (idx := match _ !! _ with Some i => i | None => _ end).
  destruct (_ || _) eqn:Eb; [by exists m; split; [|apply HR]|].
  bool_hyps. subst idx.
  match goal with H : _ = ra_ContentBlockIndex st |- _ => rewrite H end.
  destruct (closeCurrentBlock_sim st m (RBin_RB _ _ _ HR)) as (m' & Ha & H').
  exists m'. unfold then_emit, emit. destruct (closeCurrentBlock st) as [st' ev].
  simpl in *. autorewrite with s2q_rw. rewrite (open_delta_ok "tool_use") by done.
  split; [done|]. by apply RBclosed_RB.
Qed.

Lemma close_RB : sim mon RB RB closeCurrentBlock.
Proof.
  apply sim_mono with RB RBclosed; [done|apply RBclosed_RB|apply closeCurrentBlock_sim].
Qed.

Lemma resToAnthHandleFuncArgsDone_sim evt :
  sim mon RB RB (resToAnthHandleFuncArgsDone evt).
Proof.
  intros st m HR. unfold resToAnthHandleFuncArgsDone.
  destruct (ra_ContentBlockOpen st) eqn:Eo; simpl; [|by exists m].
  destruct (ra_CurrentBlockType st =?s "tool_use") eqn:Et; simpl.
  - apply String.eqb_eq in Et. assert (HT : RBin "tool_use" st m) by by split.
    repeat case_match; first [by apply close_RB | by apply emit_arguments_sim].
  - destruct (resToAnthHandleBlockDone_sim st m HR) as (m' & Ha & H').
    exists m'; split; [done|]. by apply RBclosed_RB.
Qed.

Lemma whole_block_sim b : sim mon RBclosed RBclosed (whole_block b).
Proof.
  intros st m [[Rn Ro Rz Rm] Hcl]. exists (MkBlockMon (ra_ContentBlockIndex st + 1) None).
  unfold whole_block; simpl. autorewrite with s2q_rw. rewrite Ro, Hcl, Rn, Z.eqb_refl.
  simpl. autorewrite with s2q_rw. simpl. split; [done|].
  split; [|done]. split; simpl; [done|by rewrite Hcl|lia|].
  intros o i Hi. destruct (Rm o i Hi) as [? [?|[? ?]]]; [auto with lia|congruence].
Qed.

Lemma resToAnthHandleOutputItemDone_sim evt :
  sim mon RB RB (resToAnthHandleOutputItemDone evt).
Proof.
  intros st m HR. unfold resToAnthHandleOutputItemDone.
  destruct (rse_Item evt) as [item|]; [|by exists m].
  destruct (_ && _).
  - revert st m HR. apply sim_mono with RB RBclosed; [done|apply RBclosed_RB|].
    apply sim_then with RBclosed; [apply closeCurrentBlock_sim|].
    apply sim_then with RBclosed; apply whole_block_sim.
  - set (st' := if ro_Type item =?s "reasoning" then _ else st).
    assert (HR' : RB st' m).
    { subst st'. destruct (ro_Type item =?s "reasoning"); [|done]. simpl.
      destruct (negb _); [|done]. destruct HR; by split. }
    clearbody st'. destruct (ra_ContentBlockOpen st'); [by apply close_RB|by exists m].
Qed.

Lemma resToAnthHandleOutputItemAdded_sim evt :
  sim mon RB RB (resToAnthHandleOutputItemAdded evt).
Proof.
  intros st m HR. unfold resToAnthHandleOutputItemAdded.
  destruct (rse_Item evt) as [item|]; [|by exists m].
  destruct (_ || _); [|destruct (_ =?s _); [|by exists m]]; revert st m HR.
  - apply sim_mono with RB (RBin "tool_use"); [done|apply RBin_RB|].
    apply sim_then with RBclosed; [apply closeCurrentBlock_sim|apply open_tool_block_sim].
  - apply sim_mono with RB (RBin "thinking"); [done|apply RBin_RB|].
    apply sim_then with RBclosed;
      [apply closeCurrentBlock_sim|apply open_thinking_block_sim].
Qed.

Lemma recover_contents_sim o c parts : sim mon RB RB (recover_contents o c parts).
Proof.
  revert c; induction parts as [|p parts IH]; intros c; [apply sim_skip|].
  apply sim_then with RB; [|apply IH].
  destruct (_ =?s _); [apply resToAnthEmitText_sim|apply sim_skip].
Qed.

Lemma recover_items_sim o items : sim mon RB RB (recover_items o items).
Proof.
  revert o; induction items as [|i items IH]; intros o; [apply sim_skip|].
  apply sim_then with RB; [|apply IH].
  destruct (_ =?s _); [apply recover_contents_sim|apply sim_skip].
Qed.

Lemma resToAnthRecoverTerminalText_sim evt :
  sim mon RBclosed RBclosed (resToAnthRecoverTerminalText evt).
Proof.
  intros st m HR. unfold resToAnthRecoverTerminalText.
  destruct (rse_Response evt) as [r|]; [|by exists m].
  destruct (ra_textDelivered st); [by exists m|].
  pose proof (recover_items_quiet 0 (rr_Output r) st) as Hq.
  destruct (recover_items_sim 0 (rr_Output r) st m (RBclosed_RB _ _ HR)) as (m1 & Ha & H1).
  destruct (recover_items 0 (rr_Output r) st) as [st1 [|e ev]];
    cbn [fst snd] in Ha, H1, Hq.
  - rewrite Hq by done. by exists m.
  - destruct (closeCurrentBlock_sim st1 m1 H1) as (m2 & Ha2 & H2).
    destruct (closeCurrentBlock st1) as [st2 cl]. exists m2. split; [|done].
    cbn [fst snd]. by rewrite accepts_app, Ha.
Qed.

Lemma set_usage_RB u st m : RBclosed st m -> RBclosed (set_usage u st) m.
Proof. by intros [[? ? ? ?] ?]. Qed.

Lemma record_terminal_usage_RB evt st m :
  RBclosed st m -> RBclosed (record_terminal_usage evt st) m.
Proof.
  intros HR. unfold record_terminal_usage.
  repeat case_match; auto using set_usage_RB.
Qed.

Lemma terminate_sim reason : sim mon RBclosed RB (fun st => terminate (reason st) st).
Proof.
  intros st m [[Rn Ro Rz Rm] Hcl]. exists m. simpl. autorewrite with s2q_rw.
  rewrite Ro, Hcl. simpl. autorewrite with s2q_rw. rewrite Ro, Hcl.
  split; [done|]. split; simpl; [done|by rewrite Ro, Hcl|done|by rewrite Hcl in *].
Qed.

Lemma resToAnthHandleCompleted_sim evt : sim mon RB RB (resToAnthHandleCompleted evt).
Proof.
  apply sim_if; [by intros st m [? _]; exists m|].
  apply sim_mono with RB RB; [by intros ?? []|done|].
  apply sim_then with RBclosed; [apply closeCurrentBlock_sim|].
  apply sim_then with RBclosed; [apply resToAnthRecoverTerminalText_sim|].
  apply sim_then with RBclosed; [apply sim_silent, record_terminal_usage_RB|].
  apply terminate_sim.
Qed.

Lemma FinalizeResponsesAnthropicStream_sim :
  sim mon RB RB FinalizeResponsesAnthropicStream.
Proof.
  apply sim_if; [by intros st m [? _]; exists m|].
  apply sim_mono with RB RB; [by intros ?? []|done|].
  apply sim_then with RBclosed; [apply closeCurrentBlock_sim|apply terminate_sim].
Qed.

Lemma resToAnthHandleCreated_sim evt : sim mon RB RB (resToAnthHandleCreated evt).
Proof.
  intros st m [Hn Ho Hz Hm]. exists m. unfold resToAnthHandleCreated.
  destruct (rse_Response evt); [destruct (_ =?s _)|]; simpl;
    destruct (ra_MessageStartSent st); by split.
Qed.

(** Everything but the two delta handlers keeps the relation for any [delta_ok]
    that accepts the open block. *)
Lemma events_sim (R0 : State -> BlockMon -> Prop) evt :
  (forall st m, R0 st m -> RB st m) ->
  (is_args_delta evt = true -> sim mon R0 RB (resToAnthHandleFuncArgsDelta evt)) ->
  (is_reasoning_delta evt = true -> sim mon R0 RB (resToAnthHandleReasoningDelta evt)) ->
  sim mon R0 RB (ResponsesEventToAnthropicEvents evt).
Proof.
  intros HR0 Hf Hr st m HR. pose proof (HR0 _ _ HR) as HB.
  unfold ResponsesEventToAnthropicEvents, is_args_delta, is_reasoning_delta in *.
  repeat case_match;
    first [ by apply resToAnthHandleCreated_sim
          | by apply resToAnthHandleOutputItemAdded_sim
          | by apply resToAnthEmitText_sim
          | by apply resToAnthHandleTextDone_sim
          | by apply Hf
          | by apply resToAnthHandleFuncArgsDone_sim
          | by apply resToAnthHandleOutputItemDone_sim
          | by apply Hr
          | by apply resToAnthHandleCompleted_sim
          | by exists m ].
Qed.
End Blocks.

(** ** Any upstream stream *)

Lemma RB_init now : RB (NewResponsesEventToAnthropicState now) bm_init.
Proof. split; simpl; [done|done|lia|]. intros o i. by rewrite lookup_empty. Qed.

Lemma delta_started_ok m i d :
  0 <= bm_next m -> delta_open m i d = true -> delta_started m i d = true.
Proof.
  unfold delta_open, delta_started. destruct (bm_open m); [|done].
  rewrite !andb_true_iff, orb_true_iff, andb_true_iff, Z.eqb_eq, Z.leb_le, bool_decide_eq_true.
  intros ? [-> _]. eauto.
Qed.

Lemma mapped_delta_started st m o i d :
  RB st m -> ra_OutputIndexToBlockIdx st !! o = Some i -> delta_started m i d = true.
Proof.
  intros [Hn Ho Hz Hm] Hi. unfold delta_started. destruct (Hm o i Hi) as [H0 Hcase].
  rewrite andb_true_iff, orb_true_iff, andb_true_iff, Z.ltb_lt, Z.eqb_eq, Z.leb_le, bool_decide_eq_true, Hn, Ho.
  split; [done|]. destruct Hcase as [?|[? ->]]; [by left|right; eauto].
Qed.

Lemma args_delta_started_sim evt :
  sim (block_mon delta_started) RB RB (resToAnthHandleFuncArgsDelta evt).
Proof.
  intros st m HR. pose proof HR as [Hn Ho Hz Hm]. exists m.
  unfold resToAnthHandleFuncArgsDelta.
  destruct (rse_Delta evt =?s ""); [done|]. destruct (_ && _).
  - simpl. destruct (_ || _); [by split|].
    destruct (_ !! _) as [i|] eqn:Ei; simpl; [|split; [done|by split]].
    autorewrite with s2q_rw. rewrite (mapped_delta_started st m _ i _ HR Ei).
    (split; [done|by split]).
  - destruct (ra_CurrentBlockType st =?s "tool_use"); simpl;
      (destruct (_ !! _) as [i|] eqn:Ei; simpl; [|split; [done|by split]]);
      autorewrite with s2q_rw; rewrite (mapped_delta_started st m _ i _ HR Ei);
      (split; [done|by split]).
Qed.

Lemma reasoning_delta_started_sim evt :
  sim (block_mon delta_started) RB RB (resToAnthHandleReasoningDelta evt).
Proof.
  intros st m HR. exists m. unfold resToAnthHandleReasoningDelta.
  destruct (_ =?s _); [done|]. destruct (_ !! _) as [i|] eqn:E; [|done].
  simpl. autorewrite with s2q_rw.
  by rewrite (mapped_delta_started st m (rse_OutputIndex evt) i _).
Qed.

(** C1. Whatever the upstream sends, in whatever order and however it ends, the
    Anthropic events sent to the client are well bracketed: blocks are numbered
    0, 1, 2, ... without a gap, each is stopped before the next one starts and
    before the message ends, and a delta never names a block that was not
    started. *)
Theorem stream_blocks_well_formed now evts :
  exists m, accepts (block_mon delta_started) bm_init
    (stream evts (NewResponsesEventToAnthropicState now)).2 = Some m.
Proof.
  destruct (sim_stream (block_mon delta_started) RB RB) with (xs := evts)
    (s := NewResponsesEventToAnthropicState now) (m := bm_init) as (m & Ha & _).
  - intros evt. apply (events_sim _ delta_started_ok);
      auto using args_delta_started_sim, reasoning_delta_started_sim.
  - apply (FinalizeResponsesAnthropicStream_sim _ delta_started_ok).
  - apply RB_init.
  - eauto.
Qed.

(** ** Streams that follow the Responses protocol *)

(** What the upstream is sending: nothing the client addresses by output index,
    the arguments of the call at an output index, or the reasoning item there. *)
Inductive Upstream := UIdle | UTool (oi : Z) | UThink (oi : Z).

(** The item event order of the Responses protocol: argument deltas follow the
    call item they belong to, and reasoning deltas the reasoning item, with no
    other item's content in between.  [None] is a stream that breaks it. *)
Definition up_step (u : Upstream) (evt : ResponsesStreamEvent) : option Upstream :=
  let t := rse_Type evt in
  if is_args_delta evt then
    if rse_Delta evt =?s "" then Some u
    else match u with
         | UTool oi => if rse_OutputIndex evt =? oi then Some u else None
         | _ => None
         end
  else if is_reasoning_delta evt then
    if rse_Delta evt =?s "" then Some u
    else match u with
         | UThink oi => if rse_OutputIndex evt =? oi then Some u else None
         | _ => None
         end
  else if t =?s "response.output_item.added" then
    match rse_Item evt with
    | Some item =>
        if (ro_Type item =?s "function_call") || (ro_Type item =?s "custom_tool_call")
        then Some (UTool (rse_OutputIndex evt))
        else if ro_Type item =?s "reasoning" then Some (UThink (rse_OutputIndex evt))
        else Some u
    | None => Some u
    end
  else if t =?s "response.output_text.delta" then
    Some (if rse_Delta evt =?s "" then u else UIdle)
  else if one_of t ["response.output_text.done"; "response.function_call_arguments.done";
                    "response.output_item.done"; "response.completed"; "response.done";
                    "response.incomplete"; "response.failed"]
  then Some UIdle
  else Some u.

(** The converter has the upstream's current item open, under its output index. *)
Definition up_ok (u : Upstream) (st : ResponsesEventToAnthropicState) : Prop :=
  match u with
  | UIdle => True
  | UTool oi => ra_ContentBlockOpen st = true /\ ra_CurrentBlockType st = "tool_use" /\
                ra_OutputIndexToBlockIdx st !! oi = Some (ra_ContentBlockIndex st)
  | UThink oi => ra_ContentBlockOpen st = true /\ ra_CurrentBlockType st = "thinking" /\
                 ra_OutputIndexToBlockIdx st !! oi = Some (ra_ContentBlockIndex st)
  end.

(** The part of the state [up_ok] reads. *)
Definition same_block (st st' : ResponsesEventToAnthropicState) : Prop :=
  ra_ContentBlockOpen st' = ra_ContentBlockOpen st /\
  ra_CurrentBlockType st' = ra_CurrentBlockType st /\
  ra_OutputIndexToBlockIdx st' = ra_OutputIndexToBlockIdx st /\
  ra_ContentBlockIndex st' = ra_ContentBlockIndex st.

Lemma up_ok_same u st st' : same_block st st' -> up_ok u st -> up_ok u st'.
Proof.
  intros (Ho & Ht & Hm & Hi). destruct u; simpl; rewrite ?Ho, ?Ht, ?Hm, ?Hi; auto.
Qed.

Lemma args_delta_same_block evt st : same_block st (resToAnthHandleFuncArgsDelta evt st).1.
Proof. unfold resToAnthHandleFuncArgsDelta. repeat case_match; by repeat split. Qed.

Lemma reasoning_delta_same_block evt st :
  (resToAnthHandleReasoningDelta evt st).1 = st.
Proof. unfold resToAnthHandleReasoningDelta. by repeat case_match. Qed.

Lemma created_same_block evt st : same_block st (resToAnthHandleCreated evt st).1.
Proof. unfold resToAnthHandleCreated. repeat case_match; by repeat split. Qed.

Lemma up_ok_opens_tool evt item st :
  up_ok (UTool (rse_OutputIndex evt)) ((closeCurrentBlock ;>> open_tool_block evt item) st).1.
Proof.
  unfold then_emit. destruct (closeCurrentBlock st) as [st' ev]. simpl.
  by rewrite lookup_insert_eq.
Qed.

Lemma up_ok_opens_thinking evt item st :
  up_ok (UThink (rse_OutputIndex evt))
    ((closeCurrentBlock ;>> open_thinking_block evt item) st).1.
Proof.
  unfold then_emit. destruct (closeCurrentBlock st) as [st' ev]. simpl.
  by rewrite lookup_insert_eq.
Qed.

Lemma up_ok_step u u' evt st :
  up_step u evt = Some u' -> up_ok u st ->
  up_ok u' (ResponsesEventToAnthropicEvents evt st).1.
Proof.
  unfold up_step, ResponsesEventToAnthropicEvents, is_args_delta, is_reasoning_delta.
  generalize (rse_Type evt) as t; intros t Hu Hok.
  assert (Hsame : forall st', same_block st st' -> u' = u -> up_ok u' st')
    by (intros ? ? ->; by eapply up_ok_same).
  repeat lazymatch goal with
  | |- up_ok _ (if ?t =?s ?c then _ else _).1 =>
      let E := fresh "E" in destruct (t =?s c) eqn:E; [apply String.eqb_eq in E; subst t|]
  | |- up_ok _ (if one_of ?t ?l then _ else _).1 =>
      let E := fresh "E" in destruct (one_of t l) eqn:E
  end; simpl in Hu; simplify_eq; try done.
  - apply Hsame; [apply created_same_block|done].
  - unfold resToAnthHandleOutputItemAdded.
    repeat case_match; simplify_eq;
      first [done | apply up_ok_opens_tool | apply up_ok_opens_thinking].
  - unfold resToAnthHandleTextDelta, resToAnthEmitText. by destruct (_ =?s "").
  - apply Hsame; [apply args_delta_same_block|]. by repeat case_match; simplify_eq.
  - rewrite reasoning_delta_same_block. repeat case_match; by simplify_eq.
  - assert (u' = UIdle) as ->; [|done]. revert Hu E8. rewrite E2, E4, E5.
    unfold one_of; simpl. intros Hu E8. rewrite E8 in Hu. by simplify_eq.
  - apply Hsame; [by repeat split|]. revert Hu E8. rewrite E2, E4, E5.
    unfold one_of; simpl. intros Hu E8. rewrite E8 in Hu. by simplify_eq.
Qed.

(** The relation while the upstream is in phase [u]. *)
Definition RBup (u : Upstream) st m : Prop := RB st m /\ up_ok u st.

Lemma args_delta_open_sim u u' evt :
  is_args_delta evt = true -> up_step u evt = Some u' ->
  sim (block_mon delta_open) (RBup u) RB (resToAnthHandleFuncArgsDelta evt).
Proof.
  intros Ha Hu st m [HR Hok]. exists m. unfold up_step in Hu. rewrite Ha in Hu.
  unfold resToAnthHandleFuncArgsDelta. destruct (rse_Delta evt =?s ""); [done|].
  destruct u as [|oi|oi]; try done.
  destruct (rse_OutputIndex evt =? oi) eqn:E; [|done]. apply Z.eqb_eq in E; subst oi.
  destruct Hok as (Ho & Ht & Hm). pose proof HR as [Rn Ro Rz Rm].
  assert (HRT : forall st', same_block st st' -> RB st' m).
  { intros st' (So & St & Sm & Si).
    split; rewrite ?So, ?St, ?Sm, ?Si; auto. }
  assert (Hd : forall raw, delta_open m (ra_ContentBlockIndex st) (input_json_delta raw) = true).
  { intros raw. unfold delta_open. by rewrite Ro, Ho, Rn, Z.eqb_refl, Ht. }
  rewrite Ht; simpl. destruct (ra_CurrentToolName st =?s "Read"); simpl.
  - destruct (_ || _); simpl; [split; [done|by apply HRT]|].
    rewrite Hm; simpl. autorewrite with s2q_rw. rewrite Hd. split; [done|by apply HRT].
  - rewrite Hm; simpl. autorewrite with s2q_rw. rewrite Hd. split; [done|by apply HRT].
Qed.

Lemma reasoning_delta_open_sim u u' evt :
  is_args_delta evt = false -> is_reasoning_delta evt = true -> up_step u evt = Some u' ->
  sim (block_mon delta_open) (RBup u) RB (resToAnthHandleReasoningDelta evt).
Proof.
  intros Ha Hr Hu st m [HR Hok]. exists m. unfold up_step in Hu. rewrite Ha, Hr in Hu.
  unfold resToAnthHandleReasoningDelta. destruct (rse_Delta evt =?s ""); [done|].
  destruct u as [|oi|oi]; try done.
  destruct (rse_OutputIndex evt =? oi) eqn:E; [|done]. apply Z.eqb_eq in E; subst oi.
  destruct Hok as (Ho & Ht & Hm). pose proof HR as [Rn Ro Rz Rm].
  rewrite Hm; simpl. autorewrite with s2q_rw. unfold delta_open.
  by rewrite Ro, Ho, Rn, Z.eqb_refl, Ht.
Qed.

Lemma reasoning_not_args evt :
  is_reasoning_delta evt = true -> is_args_delta evt = false.
Proof.
  unfold is_reasoning_delta, is_args_delta, one_of; simpl. intros H.
  repeat (apply orb_true_iff in H; destruct H as [H|H]); try done;
    apply String.eqb_eq in H; by rewrite H.
Qed.

Lemma up_events_sim u u' evt :
  up_step u evt = Some u' ->
  sim (block_mon delta_open) (RBup u) (RBup u') (ResponsesEventToAnthropicEvents evt).
Proof.
  intros Hu st m HR.
  destruct (events_sim delta_open (fun _ _ _ _ H => H) (RBup u) evt) with (s := st) (m := m)
    as (m' & Ha & HB).
  - by intros ?? [].
  - intros Ha. by eapply args_delta_open_sim.
  - intros Hr. eapply reasoning_delta_open_sim; eauto using reasoning_not_args.
  - done.
  - exists m'. split; [done|]. split; [done|]. by eapply up_ok_step; [|apply HR].
Qed.

Lemma up_run (evts : list ResponsesStreamEvent) v u st m :
  accepts up_step v evts = Some u -> RBup v st m ->
  exists m', accepts (block_mon delta_open) m (run evts st).2 = Some m' /\
    RBup u (run evts st).1 m'.
Proof.
  revert v st m; induction evts as [|evt l IH]; intros v st m Hv HR; simpl in *;
    [by simplify_eq; exists m|].
  destruct (up_step v evt) as [v'|] eqn:Ev; [|done]. simpl in Hv.
  destruct (up_events_sim v v' evt Ev st m HR) as (m1 & Ha1 & H1).
  destruct (ResponsesEventToAnthropicEvents evt st) as [st1 o1].
  destruct (IH v' st1 m1 Hv H1) as (m2 & Ha2 & H2).
  destruct (run l st1) as [st2 o2]. exists m2. simpl in *. by rewrite accepts_app, Ha1.
Qed.

(** C2. When the upstream keeps the item order of the Responses protocol, every
    delta the client receives names the block that is open at that moment and has
    that block's type: text deltas in text blocks, argument fragments in tool_use
    blocks, thinking and signature deltas in thinking blocks. *)
Theorem protocol_deltas_fit_open_block now evts u :
  accepts up_step UIdle evts = Some u ->
  exists m, accepts (block_mon delta_open) bm_init
    (stream evts (NewResponsesEventToAnthropicState now)).2 = Some m.
Proof.
  intros Hu.
  destruct (up_run evts UIdle u (NewResponsesEventToAnthropicState now) bm_init Hu)
    as (m1 & Ha1 & [H1 _]); [split; [apply RB_init|done]|].
  unfold stream. destruct (run evts _) as [st1 o1]. simpl in *.
  destruct (FinalizeResponsesAnthropicStream_sim delta_open (fun _ _ _ _ H => H) st1 m1 H1)
    as (m2 & Ha2 & _).
  destruct (FinalizeResponsesAnthropicStream st1) as [st2 o2].
  exists m2. simpl in *. by rewrite accepts_app, Ha1.
Qed.

(** A reasoning item, a tool call and an answer. *)
Definition sample_upstream : list ResponsesStreamEvent :=
  let ev t := zero_ResponsesStreamEvent <| rse_Type := t |> in
  let item t := zero_ResponsesOutput <| ro_Type := t |> <| ro_CallID := "call_1" |>
                  <| ro_Name := "Read" |> <| ro_EncryptedContent := "sig" |> in
  [ (ev "response.created") <| rse_Response := Some (zero_ResponsesResponse <| rr_ID := "r" |>) |>;
    (ev "response.output_item.added") <| rse_Item := Some (item "reasoning") |>;
    (ev "response.reasoning_summary_text.delta") <| rse_Delta := "hm" |>;
    (ev "response.output_item.done") <| rse_Item := Some (item "reasoning") |>;
    (ev "response.output_item.added") <| rse_Item := Some (item "function_call") |>
      <| rse_OutputIndex := 1 |>;
    (ev "response.function_call_arguments.delta") <| rse_Delta := "{}" |>
      <| rse_OutputIndex := 1 |>;
    (ev "response.function_call_arguments.done") <| rse_Arguments := "{}" |>
      <| rse_OutputIndex := 1 |>;
    (ev "response.output_text.delta") <| rse_Delta := "An" |> <| rse_OutputIndex := 2 |>;
    (ev "response.output_text.done") <| rse_Text := "Answer" |> <| rse_OutputIndex := 2 |>;
    (ev "response.completed") <| rse_Response :=
      Some (zero_ResponsesResponse <| rr_Status := "completed" |>) |> ].

Lemma protocol_deltas_fit_open_block_witness :
  accepts up_step UIdle sample_upstream = Some UIdle /\
  exists m, accepts (block_mon delta_open) bm_init
    (stream sample_upstream (NewResponsesEventToAnthropicState 0)).2 = Some m.
Proof.
  split; [vm_compute; reflexivity|].
  apply (protocol_deltas_fit_open_block 0 sample_upstream UIdle). vm_compute; reflexivity.
Defined.

(** ** Life of the message *)

Inductive Life := LNone | LOpen | LDelta | LDone.

Definition life_mon (m : Life) (e : AnthropicStreamEvent) : option Life :=
  let t := ase_Type e in
  if t =?s "message_start" then match m with LNone => Some LOpen | _ => None end
  else if t =?s "message_delta" then match m with LOpen => Some LDelta | _ => None end
  else if t =?s "message_stop" then match m with LDelta => Some LDone | _ => None end
  else match m with LOpen | LDone => Some m | _ => None end.

(** The state's flags tell the monitor's phase once the message has started. *)
Definition RL (st : ResponsesEventToAnthropicState) (m : Life) : Prop :=
  ra_MessageStartSent st = true /\ m = if ra_MessageStopSent st then LDone else LOpen.

(** Code that only touches content blocks. *)
Definition is_content (e : AnthropicStreamEvent) : bool := HasPrefix (ase_Type e) "content_block".
Definition content_only
    (f : ResponsesEventToAnthropicState -> ResponsesEventToAnthropicState *
           list AnthropicStreamEvent) : Prop :=
  forall st, forallb is_content (f st).2 = true /\
    ra_MessageStartSent (f st).1 = ra_MessageStartSent st /\
    ra_MessageStopSent (f st).1 = ra_MessageStopSent st.

Lemma content_mon e m st : is_content e = true -> RL st m -> life_mon m e = Some m.
Proof.
  unfold is_content, life_mon. intros He [_ ->].
  destruct (_ =?s _) eqn:E1; [apply String.eqb_eq in E1; by rewrite E1 in He|].
  destruct (_ =?s "message_delta") eqn:E2; [apply String.eqb_eq in E2; by rewrite E2 in He|].
  destruct (_ =?s "message_stop") eqn:E3; [apply String.eqb_eq in E3; by rewrite E3 in He|].
  by destruct (ra_MessageStopSent st).
Qed.

Lemma content_only_sim f : content_only f -> sim life_mon RL RL f.
Proof.
  intros Hf st m HR. destruct (Hf st) as (Hc & H1 & H2).
  exists m. split; [|by unfold RL in *; rewrite H1, H2].
  clear H1 H2. induction (f st).2 as [|e l IH]; [done|]. simpl in *. bool_hyps.
  rewrite (content_mon e m st) by done. simpl. auto.
Qed.

(** ... before the message ends. *)
Definition RLopen (st : ResponsesEventToAnthropicState) (m : Life) : Prop :=
  RL st m /\ ra_MessageStopSent st = false.

Lemma content_only_open f : content_only f -> sim life_mon RLopen RLopen f.
Proof.
  intros Hf st m [HR Hs]. destruct (content_only_sim f Hf st m HR) as (m' & ? & ?).
  exists m'. split; [done|]. split; [done|]. destruct (Hf st) as (_ & _ & E). by rewrite E.
Qed.

Lemma content_only_then f g : content_only f -> content_only g -> content_only (f ;>> g).
Proof.
  intros Hf Hg st. unfold then_emit. specialize (Hf st).
  destruct (f st) as [s1 o1]. specialize (Hg s1). destruct (g s1) as [s2 o2]. simpl in *.
  rewrite forallb_app. destruct Hf as (-> & <- & <-). by destruct Hg as (-> & <- & <-).
Qed.

(** Straight-line code: every branch of it is evaluated. *)
Ltac content_branches f :=
  intros ?; unfold f; repeat case_match; simpl; auto.

Lemma close_content : content_only closeCurrentBlock.
Proof. content_branches closeCurrentBlock; simplify_eq; auto. Qed.

Lemma emit_text_content text part : content_only (resToAnthEmitText text part).
Proof.
  intros st. unfold resToAnthEmitText. destruct (_ =?s ""); [done|].
  apply content_only_then; [|done]. intros s. unfold ensure_text_block.
  destruct (_ || _); [|done]. by apply content_only_then; [apply close_content|].
Qed.

Lemma text_done_content evt : content_only (resToAnthHandleTextDone evt).
Proof.
  assert (Hb : content_only resToAnthHandleBlockDone).
  { intros st. unfold resToAnthHandleBlockDone. destruct (negb _); [done|]. apply close_content. }
  assert (Hr : content_only (resToAnthRecoverText (rse_Text evt) (resToAnthTextPartOf evt) ;>>
                             resToAnthHandleBlockDone)).
  { apply content_only_then; [|done]. intros s. unfold resToAnthRecoverText.
    destruct (_ && _); [done|]. destruct (_ || _); [done|]. apply emit_text_content. }
  intros st. pose proof (Hb st). pose proof (Hr st). unfold resToAnthHandleTextDone.
  by destruct (ra_MessageStopSent st).
Qed.

Lemma func_args_delta_content evt : content_only (resToAnthHandleFuncArgsDelta evt).
Proof. content_branches resToAnthHandleFuncArgsDelta. Qed.

Lemma func_args_done_content evt : content_only (resToAnthHandleFuncArgsDone evt).
Proof.
  assert (He : forall oi raw, content_only (emit_arguments oi raw)).
  { intros oi raw st. unfold emit_arguments. destruct (_ || _); [done|].
    apply content_only_then; [done|apply close_content]. }
  intros st. unfold resToAnthHandleFuncArgsDone, resToAnthHandleBlockDone.
  repeat case_match; first [done | apply close_content | apply He].
Qed.

Lemma reasoning_delta_content evt : content_only (resToAnthHandleReasoningDelta evt).
Proof. content_branches resToAnthHandleReasoningDelta. Qed.

Lemma item_added_content evt : content_only (resToAnthHandleOutputItemAdded evt).
Proof.
  intros st. unfold resToAnthHandleOutputItemAdded.
  repeat case_match; first [done | by apply content_only_then; [apply close_content|]].
Qed.

Lemma item_done_content evt : content_only (resToAnthHandleOutputItemDone evt).
Proof.
  intros st. unfold resToAnthHandleOutputItemDone. destruct (rse_Item evt); [|done].
  destruct (_ && _).
  - apply content_only_then; [apply close_content|]. by apply content_only_then.
  - set (st' := if _ =?s "reasoning" then _ else st).
    assert (ra_MessageStartSent st' = ra_MessageStartSent st /\
            ra_MessageStopSent st' = ra_MessageStopSent st) as [<- <-]
      by (subst st'; by repeat case_match).
    destruct (ra_ContentBlockOpen st'); [apply close_content|done].
Qed.

Lemma recover_contents_content o c parts : content_only (recover_contents o c parts).
Proof.
  revert c; induction parts as [|p parts IH]; intros c; [done|].
  apply content_only_then; [|apply IH]. destruct (_ =?s _); [apply emit_text_content|done].
Qed.

Lemma recover_items_content o items : content_only (recover_items o items).
Proof.
  revert o; induction items as [|i items IH]; intros o; [done|].
  apply content_only_then; [|apply IH]. destruct (_ =?s _); [|done].
  apply recover_contents_content.
Qed.

Lemma terminal_text_content evt : content_only (resToAnthRecoverTerminalText evt).
Proof.
  intros st. unfold resToAnthRecoverTerminalText. destruct (rse_Response evt) as [r|]; [|done].
  destruct (ra_textDelivered st); [done|].
  pose proof (recover_items_quiet 0 (rr_Output r) st) as Hq.
  pose proof (content_only_then _ _ (recover_items_content 0 (rr_Output r)) close_content st)
    as Hc.
  unfold then_emit in Hc. destruct (recover_items 0 (rr_Output r) st) as [s1 [|e ev]];
    simpl in *; [by rewrite Hq|].
  by destruct (closeCurrentBlock s1).
Qed.

Lemma terminate_life reason :
  sim life_mon RLopen RL (fun st => terminate (reason st) st).
Proof. intros st m [[H1 ->] Hs]. rewrite Hs. by exists LDone. Qed.

Lemma completed_life evt : sim life_mon RL RL (resToAnthHandleCompleted evt).
Proof.
  apply sim_if; [by intros st m [? _]; exists m|].
  apply sim_then with RLopen; [apply content_only_open, close_content|].
  apply sim_then with RLopen; [apply content_only_open, terminal_text_content|].
  apply sim_then with RLopen; [|apply terminate_life].
  apply content_only_open. intros st. unfold record_terminal_usage. by repeat case_match.
Qed.

Lemma created_again_life evt : sim life_mon RL RL (resToAnthHandleCreated evt).
Proof.
  intros st m [H ->]. unfold resToAnthHandleCreated.
  destruct (rse_Response evt); [destruct (_ =?s _)|]; simpl; rewrite H;
    by eexists.
Qed.

Lemma step_life evt : sim life_mon RL RL (ResponsesEventToAnthropicEvents evt).
Proof.
  intros st m HR. unfold ResponsesEventToAnthropicEvents.
  repeat case_match;
    first [ by apply created_again_life
          | by apply completed_life
          | by apply (content_only_sim _ (item_added_content evt))
          | by apply (content_only_sim _ (emit_text_content _ _))
          | by apply (content_only_sim _ (text_done_content evt))
          | by apply (content_only_sim _ (func_args_delta_content evt))
          | by apply (content_only_sim _ (func_args_done_content evt))
          | by apply (content_only_sim _ (item_done_content evt))
          | by apply (content_only_sim _ (reasoning_delta_content evt))
          | by exists m ].
Qed.

(** C3. Once the upstream has sent [response.created], the client sees exactly one
    message: [message_start] comes first and never again, and however the upstream
    ends - a terminal event, several of them, or a disconnect - exactly one
    [message_delta] is sent, immediately followed by the only [message_stop]. *)
Theorem message_started_and_stopped_once now evt evts :
  rse_Type evt = "response.created" ->
  accepts life_mon LNone (stream (evt :: evts) (NewResponsesEventToAnthropicState now)).2
    = Some LDone.
Proof.
  intros Hevt. set (st0 := NewResponsesEventToAnthropicState now).
  assert (Hc : exists st1 e, ResponsesEventToAnthropicEvents evt st0 = (st1, [e]) /\
      ase_Type e = "message_start" /\ RL st1 LOpen).
  { unfold ResponsesEventToAnthropicEvents. rewrite Hevt. simpl.
    unfold resToAnthHandleCreated. destruct (rse_Response evt); simpl;
      (eexists _, _; by repeat split). }
  destruct Hc as (st1 & e & Hstep & He & HR).
  assert (Hlast : sim life_mon RL (fun _ m => m = LDone) FinalizeResponsesAnthropicStream).
  { intros st m Hst. unfold FinalizeResponsesAnthropicStream.
    destruct Hst as [Hs ->]. rewrite Hs. simpl.
    destruct (ra_MessageStopSent st) eqn:E; [by eexists|].
    apply (sim_then life_mon RLopen RLopen (fun _ m => m = LDone));
      [apply content_only_open, close_content| |by repeat split; rewrite ?E].
    intros st' m' [[_ ->] Hs']. rewrite Hs'. by eexists. }
  destruct (sim_stream (H := responses_to_anthropic) life_mon RL _ step_life Hlast evts
    st1 LOpen HR) as (m & Ha & ->).
  unfold stream in *; simpl. rewrite Hstep. destruct (run evts st1) as [st2 o2]. simpl in *.
  destruct (FinalizeResponsesAnthropicStream st2) as [st3 o3]. simpl in *.
  assert (Hm : life_mon LNone e = Some LOpen) by (unfold life_mon; by rewrite He).
  by rewrite Hm.
Qed.

Lemma message_started_and_stopped_once_witness :
  exists evt evts, rse_Type evt = "response.created" /\
    sample_upstream = evt :: evts /\
    accepts life_mon LNone (stream (evt :: evts) (NewResponsesEventToAnthropicState 0)).2
      = Some LDone.
Proof.
  eexists (_ : ResponsesStreamEvent), (_ : list ResponsesStreamEvent).
  split; [|split; [reflexivity|apply message_started_and_stopped_once]]; reflexivity.
Defined.

(** ** Text reconciliation *)

(** The answer text a client assembles from what it is sent. *)
Definition delta_text (e : AnthropicStreamEvent) : string :=
  match ase_Delta e with
  | Some d => if ad_Type d =?s "text_delta" then ad_Text d else ""
  | None => ""
  end.
Definition client_text (out : list AnthropicStreamEvent) : string :=
  str_concat (map delta_text out).

Lemma client_text_app o1 o2 : client_text (o1 ++ o2) = client_text o1 +:+ client_text o2.
Proof. unfold client_text. by rewrite map_app, str_concat_app. Qed.

Section Reconcile.
Context (part : responsesTextPart).

(** The stream has delivered [s], all of it for [part]. *)
Definition delivered (s : string) (st : ResponsesEventToAnthropicState) : Prop :=
  default "" (ra_textByPart st !! part) = s /\
  (ra_textByPart st !! part = None -> ra_textDelivered st = false) /\
  (s <> "" -> ra_textDelivered st = true) /\
  ra_MessageStopSent st = false.

(** [f] sends the text [t] and turns [delivered s] into [delivered s']. *)
Definition sends (s t s' : string)
    (f : ResponsesEventToAnthropicState -> ResponsesEventToAnthropicState *
           list AnthropicStreamEvent) : Prop :=
  forall st, delivered s st -> client_text (f st).2 = t /\ delivered s' (f st).1.

Lemma sends_then s t s' t' s'' f g :
  sends s t s' f -> sends s' t' s'' g -> sends s (t +:+ t') s'' (f ;>> g).
Proof.
  intros Hf Hg st Hst. unfold then_emit. destruct (Hf st Hst) as [<- H1].
  destruct (f st) as [s1 o1]. destruct (Hg s1 H1) as [<- H2].
  destruct (g s1) as [s2 o2]. simpl. by rewrite client_text_app.
Qed.

Lemma sends_close s : sends s "" s closeCurrentBlock.
Proof.
  intros st Hst. unfold closeCurrentBlock. destruct (ra_ContentBlockOpen st); [|done]. simpl.
  destruct (_ =?s "thinking"); [destruct (_ =?s "")|]; simpl; by split.
Qed.

Lemma sends_emit s t : sends s t (s +:+ t) (resToAnthEmitText t part).
Proof.
  intros st Hst. unfold resToAnthEmitText. destruct (t =?s "") eqn:Et.
  { bool_hyps. subst t. by rewrite str_app_nil_r. }
  revert st Hst. apply (sends_then s "" s t).
  - intros st Hst. unfold ensure_text_block. destruct (_ || _); [|done]. revert st Hst.
    by apply (sends_then s "" s "" s); [apply sends_close|].
  - intros st (Hs & Hn & Hd & Hstop). simpl. unfold client_text; simpl.
    rewrite str_app_nil_r. split; [done|]. split_and!; simpl; [|by rewrite lookup_insert_eq|done|done].
    by rewrite lookup_insert_eq, Hs.
Qed.

Lemma sends_block_done s : sends s "" s resToAnthHandleBlockDone.
Proof.
  intros st Hst. unfold resToAnthHandleBlockDone. destruct (negb _); [done|].
  by apply sends_close.
Qed.

(** What the finished payload [t] leaves the client with after [s]. *)
Definition reconciled (s t : string) : string := if HasPrefix t s then t else s.

Lemma sends_recover s t :
  sends s (if HasPrefix t s then str_drop (String.length s) t else "") (reconciled s t)
    (resToAnthRecoverText t part).
Proof.
  intros st Hst. pose proof Hst as (Hs & Hn & Hd & Hstop). unfold resToAnthRecoverText, reconciled.
  destruct (ra_textByPart st !! part) as [b|] eqn:Eb; simpl in Hs; simpl.
  - subst b. destruct (HasPrefix t s) eqn:Ep; [|by rewrite orb_true_r].
    pose proof (HasPrefix_drop t s Ep) as Ht. destruct (t =?s s) eqn:Ets; simpl.
    + bool_hyps. subst t. by rewrite str_drop_all.
    + pose proof (sends_emit s (str_drop (String.length s) t) st Hst) as Hemit.
      by rewrite Ht in Hemit.
  - subst s. rewrite Hn by done. simpl. rewrite HasPrefix_nil, orb_false_r.
    destruct (t =?s "") eqn:Et; [by bool_hyps; subst t|]. by apply (sends_emit "" t).
Qed.

Lemma sends_text_done s evt :
  resToAnthTextPartOf evt = part ->
  sends s (if HasPrefix (rse_Text evt) s then str_drop (String.length s) (rse_Text evt) else "")
    (reconciled s (rse_Text evt)) (resToAnthHandleTextDone evt).
Proof.
  intros Hp st Hst. unfold resToAnthHandleTextDone.
  destruct Hst as (H1 & H2 & H3 & Hstop). rewrite Hstop, Hp.
  rewrite <- (str_app_nil_r (if HasPrefix _ _ then _ else _)).
  by apply (sends_then s _ (reconciled s (rse_Text evt)));
    [apply sends_recover|apply sends_block_done|].
Qed.
End Reconcile.

(** The events of one text part: its deltas and the payload that finishes it. *)
Definition text_delta_event (p : responsesTextPart) (d : string) : ResponsesStreamEvent :=
  zero_ResponsesStreamEvent
    <| rse_Type := "response.output_text.delta" |> <| rse_Delta := d |>
    <| rse_OutputIndex := rtp_OutputIndex p |> <| rse_ContentIndex := rtp_ContentIndex p |>.
Definition text_done_event (p : responsesTextPart) (t : string) : ResponsesStreamEvent :=
  zero_ResponsesStreamEvent
    <| rse_Type := "response.output_text.done" |> <| rse_Text := t |>
    <| rse_OutputIndex := rtp_OutputIndex p |> <| rse_ContentIndex := rtp_ContentIndex p |>.
Definition created_event (r : option ResponsesResponse) : ResponsesStreamEvent :=
  zero_ResponsesStreamEvent <| rse_Type := "response.created" |> <| rse_Response := r |>.
Definition is_terminal (evt : ResponsesStreamEvent) : bool :=
  one_of (rse_Type evt) ["response.completed"; "response.done"; "response.incomplete";
                         "response.failed"].

Lemma sends_deltas part ds s :
  sends part s (str_concat ds) (s +:+ str_concat ds) (run (map (text_delta_event part) ds)).
Proof.
  revert s; induction ds as [|d ds IH]; intros s.
  { intros st Hst. simpl. by rewrite str_app_nil_r. }
  simpl. rewrite <- str_app_assoc. destruct part as [o c].
  apply (sends_then _ s d (s +:+ d) _ _ (ResponsesEventToAnthropicEvents
    (text_delta_event (MkresponsesTextPart o c) d)) (run (map _ ds))); [|apply IH].
  apply sends_emit.
Qed.

Lemma close_no_text st :
  client_text (closeCurrentBlock st).2 = "" /\
  ra_textDelivered (closeCurrentBlock st).1 = ra_textDelivered st.
Proof.
  unfold closeCurrentBlock. destruct (negb _); [done|].
  destruct (_ =?s _); [destruct (_ =?s _)|]; done.
Qed.

(** Terminal events and the finalizer add no text once some was delivered. *)
Lemma terminal_adds_no_text evt st :
  ra_textDelivered st = true ->
  client_text (resToAnthHandleCompleted evt st).2 = "" /\
  ra_textDelivered (resToAnthHandleCompleted evt st).1 = true.
Proof.
  intros Hd. unfold resToAnthHandleCompleted. destruct (ra_MessageStopSent st); [done|].
  unfold then_emit.
  pose proof (close_no_text st) as Hc. rewrite Hd in Hc.
  destruct (closeCurrentBlock st) as [s1 o1]. destruct Hc as [Hc1 Hc2]; simpl in *.
  unfold resToAnthRecoverTerminalText. rewrite Hc2.
  assert (Hu : ra_textDelivered (record_terminal_usage evt s1) = true)
    by (unfold record_terminal_usage; by repeat case_match).
  destruct (rse_Response evt); simpl; rewrite !client_text_app, Hc1; by rewrite Hu.
Qed.

Lemma terminals_add_no_text evts st :
  forallb is_terminal evts = true -> ra_textDelivered st = true ->
  client_text (stream evts st).2 = "".
Proof.
  intros Ht Hd. unfold stream.
  assert (Hrun : client_text (run evts st).2 = "" /\ ra_textDelivered (run evts st).1 = true).
  { revert st Hd; induction evts as [|evt evts IH]; intros st Hd; [done|]. simpl in *.
    apply andb_true_iff in Ht as [He Ht].
    assert (ResponsesEventToAnthropicEvents evt st = resToAnthHandleCompleted evt st) as ->.
    { unfold is_terminal, one_of in He. simpl in He. unfold ResponsesEventToAnthropicEvents.
      repeat (apply orb_true_iff in He; destruct He as [He|He]); try done;
        apply String.eqb_eq in He; by rewrite He. }
    destruct (terminal_adds_no_text evt st Hd) as [H1 H2].
    destruct (resToAnthHandleCompleted evt st) as [s1 o1]. destruct (IH Ht s1 H2) as [H3 H4].
    destruct (run evts s1). simpl in *. by rewrite client_text_app, H1, H3. }
  destruct (run evts st) as [s1 o1]. destruct Hrun as [H1 H2]; simpl in *.
  unfold FinalizeResponsesAnthropicStream. destruct (_ || _); simpl.
  { by rewrite client_text_app, H1. }
  unfold then_emit. destruct (close_no_text s1) as [H3 _].
  destruct (closeCurrentBlock s1) as [s2 o2]. simpl in *.
  by rewrite !client_text_app, H1, H3.
Qed.

(** C4. Text is delivered exactly once: after the deltas [ds] of a text part and
    the payload [t] that finishes it, the client has assembled [t] when [t] extends
    what was streamed, and what was streamed otherwise; terminal events, whose
    output array repeats the answer, and the finalizer add nothing to it. *)
Theorem text_part_reconciled now r part ds t terminals :
  forallb is_terminal terminals = true ->
  reconciled (str_concat ds) t <> "" ->
  client_text (stream (created_event r :: map (text_delta_event part) ds ++
    text_done_event part t :: terminals) (NewResponsesEventToAnthropicState now)).2
  = reconciled (str_concat ds) t.
Proof.
  intros Hterm Hne. set (st0 := NewResponsesEventToAnthropicState now).
  set (st1 := (ResponsesEventToAnthropicEvents (created_event r) st0).1).
  assert (Hst1 : delivered part "" st1).
  { subst st1. unfold ResponsesEventToAnthropicEvents; simpl.
    unfold resToAnthHandleCreated; destruct r; by repeat split. }
  assert (Hcre : client_text (ResponsesEventToAnthropicEvents (created_event r) st0).2 = "").
  { unfold ResponsesEventToAnthropicEvents; simpl.
    unfold resToAnthHandleCreated; by destruct r. }
  destruct (sends_deltas part ds "" st1 Hst1) as [Hd1 Hd2].
  set (st2 := (run (map (text_delta_event part) ds) st1).1) in *.
  destruct (sends_text_done part (str_concat ds) (text_done_event part t)
    ltac:(by destruct part) st2 Hd2) as [Ht1 Ht2].
  set (st3 := (resToAnthHandleTextDone (text_done_event part t) st2).1) in *.
  destruct Ht2 as (_ & _ & Ht3 & _).
  pose proof (terminals_add_no_text terminals st3 Hterm (Ht3 Hne)) as Hlast.
  change (created_event r :: ?l) with ([created_event r] ++ l).
  change (text_done_event part t :: ?l) with ([text_done_event part t] ++ l).
  rewrite !stream_app_out, !client_text_app, !run_single.
  change (conv_step (created_event r) st0)
    with (ResponsesEventToAnthropicEvents (created_event r) st0).
  rewrite Hcre. fold st1 st2. rewrite Hd1.
  change (conv_step (text_done_event part t) st2)
    with (resToAnthHandleTextDone (text_done_event part t) st2).
  fold st3. rewrite Ht1, Hlast. simpl. rewrite str_app_nil_r. unfold reconciled in *.
  change (rse_Text (text_done_event part t)) with t.
  destruct (HasPrefix t (str_concat ds)) eqn:E; [by apply HasPrefix_drop|].
  by rewrite str_app_nil_r.
Qed.

Lemma text_part_reconciled_witness :
  client_text (stream (created_event None ::
    map (text_delta_event (MkresponsesTextPart 1 0)) ["He"; "llo"] ++
    text_done_event (MkresponsesTextPart 1 0) "Hello!" ::
    [zero_ResponsesStreamEvent <| rse_Type := "response.completed" |>])
    (NewResponsesEventToAnthropicState 0)).2 = "Hello!".
Proof.
  apply (text_part_reconciled 0 None (MkresponsesTextPart 1 0) ["He"; "llo"] "Hello!");
    [reflexivity|discriminate].
Defined.
