(* ===== verification/ResponsesToChat.v ===== *)
(** * OpenAI Responses to Chat Completions

    [src/backend/internal/pkg/apicompat/responses_to_chatcompletions.go]: the
    non-streaming conversion, the stateful stream converter, and the buffered
    accumulator that rebuilds a response's output from its delta events. *)

From S2P Require Import Prelude Json Apicompat ResponsesToAnthropic.
Local Open Scope string_scope.
Local Open Scope Z_scope.
Local Open Scope list_scope.
Local Open Scope go_scope.

(** ** Usage *)

Definition promptDetailsFromResponses (src : option ResponsesInputTokensDetails) :
    option ChatTokenDetails :=
  match src with
  | None => None
  | Some d =>
      if (ritd_CachedTokens d =? 0) && (ritd_AudioTokens d =? 0) &&
         (ritd_CacheCreationTokens d =? 0) && (ritd_CacheWriteTokens d =? 0)
      then None
      else Some (zero_ChatTokenDetails
             <| ctd_CachedTokens := ritd_CachedTokens d |>
             <| ctd_AudioTokens := ritd_AudioTokens d |>
             <| ctd_CacheCreationTokens := ritd_CacheCreationTokens d |>
             <| ctd_CacheWriteTokens := ritd_CacheWriteTokens d |>)
  end.

Definition completionDetailsFromResponses (src : option ResponsesOutputTokensDetails) :
    option ChatTokenDetails :=
  match src with
  | None => None
  | Some d =>
      if (rotd_ReasoningTokens d =? 0) && (rotd_AudioTokens d =? 0) &&
         (rotd_AcceptedPredictionTokens d =? 0) && (rotd_RejectedPredictionTokens d =? 0)
      then None
      else Some (zero_ChatTokenDetails
             <| ctd_ReasoningTokens := rotd_ReasoningTokens d |>
             <| ctd_AudioTokens := rotd_AudioTokens d |>
             <| ctd_AcceptedPredictionTokens := rotd_AcceptedPredictionTokens d |>
             <| ctd_RejectedPredictionTokens := rotd_RejectedPredictionTokens d |>)
  end.

Definition chatUsageFromResponsesUsage (u : option ResponsesUsage) : option ChatUsage :=
  match u with
  | None => None
  | Some u =>
      let details := promptDetailsFromResponses (ru_InputTokensDetails u) in
      let details :=
        if 0 <? ru_CacheCreationInputTokens u then
          let d := default zero_ChatTokenDetails details in
          Some (if (ctd_CacheWriteTokens d =? 0) && (ctd_CacheCreationTokens d =? 0)
                then d <| ctd_CacheCreationTokens := ru_CacheCreationInputTokens u |>
                else d)
        else details in
      Some (zero_ChatUsage
              <| cu_PromptTokens := ru_InputTokens u |>
              <| cu_CompletionTokens := ru_OutputTokens u |>
              <| cu_TotalTokens := int_add (ru_InputTokens u) (ru_OutputTokens u) |>
              <| cu_PromptTokensDetails := details |>
              <| cu_CompletionTokensDetails :=
                   completionDetailsFromResponses (ru_OutputTokensDetails u) |>)
  end.

(** ** Non-streaming conversion *)

Definition responsesStatusToChatFinishReason (status : string)
    (details : option ResponsesIncompleteDetails) (toolCalls : list ChatToolCall) : string :=
  if status =?s "incomplete" then
    match details with
    | Some d =>
        if rid_Reason d =?s "max_output_tokens" then "length"
        else if rid_Reason d =?s "content_filter" then "content_filter"
        else "stop"
    | None => "stop"
    end
  else if status =?s "completed" then
    match toolCalls with [] => "stop" | _ => "tool_calls" end
  else "stop".

(** [contentText], [reasoningText] and [toolCalls] of the loop over the output. *)
Definition item_text (item : ResponsesOutput) : string :=
  if ro_Type item =?s "message" then
    foldl (fun acc part =>
      if (rcp_Type part =?s "output_text") && negb (rcp_Text part =?s "")
      then acc +:+ rcp_Text part else acc) "" (ro_Content item)
  else "".
Definition item_reasoning (item : ResponsesOutput) : string :=
  if ro_Type item =?s "reasoning" then summary_text (ro_Summary item) else "".
Definition item_tool_calls (item : ResponsesOutput) : list ChatToolCall :=
  if ro_Type item =?s "function_call" then
    [zero_ChatToolCall
       <| ctc_ID := ro_CallID item |>
       <| ctc_Type := "function" |>
       <| ctc_Function := zero_ChatFunctionCall
            <| cfc_Name := ro_Name item |> <| cfc_Arguments := ro_Arguments item |> |>]
  else [].

(** [fresh] is what [generateChatCmplID] returns, [now] [time.Now().Unix()]. *)
Definition ResponsesToChatCompletions (fresh : string) (now : Z) (resp : ResponsesResponse)
    (model : string) : ChatCompletionsResponse :=
  let id := if rr_ID resp =?s "" then fresh else rr_ID resp in
  let contentText := foldl (fun acc i => acc +:+ item_text i) "" (rr_Output resp) in
  let reasoningText := foldl (fun acc i => acc +:+ item_reasoning i) "" (rr_Output resp) in
  let toolCalls := flat_map item_tool_calls (rr_Output resp) in
  let msg := zero_ChatMessage <| cm_Role := "assistant" |> <| cm_ToolCalls := toolCalls |> in
  let msg := if negb (contentText =?s "")
             then msg <| cm_Content := json_quote contentText |> else msg in
  let msg := if negb (reasoningText =?s "")
             then msg <| cm_ReasoningContent := reasoningText |> else msg in
  zero_ChatCompletionsResponse
    <| ccr_ID := id |>
    <| ccr_Object := "chat.completion" |>
    <| ccr_Created := now |>
    <| ccr_Model := model |>
    <| ccr_ServiceTier := rr_ServiceTier resp |>
    <| ccr_Choices := [zero_ChatChoice
         <| cc_Index := 0 |>
         <| cc_Message := msg |>
         <| cc_FinishReason := responsesStatusToChatFinishReason (rr_Status resp)
              (rr_IncompleteDetails resp) toolCalls |>] |>
    <| ccr_Usage := chatUsageFromResponsesUsage (rr_Usage resp) |>.

(** ** Stream converter *)

Record ResponsesEventToChatState := MkRCState {
  rc_ID : string;
  rc_Model : string;
  rc_Created : Z;
  rc_ServiceTier : string;
  rc_SentRole : bool;
  rc_SawToolCall : bool;
  rc_SawText : bool;
  rc_Finalized : bool;
  rc_NextToolCallIndex : Z;
  rc_OutputIndexToToolIndex : gmap Z Z;
  rc_OutputIndexToArguments : gmap Z string;
  rc_IncludeUsage : bool;
  rc_Usage : option ChatUsage;
}.
#[export] Instance eta_RCState : Eta ResponsesEventToChatState := fun r =>
  MkRCState (rc_ID r) (rc_Model r) (rc_Created r) (rc_ServiceTier r) (rc_SentRole r)
    (rc_SawToolCall r) (rc_SawText r) (rc_Finalized r) (rc_NextToolCallIndex r)
    (rc_OutputIndexToToolIndex r) (rc_OutputIndexToArguments r) (rc_IncludeUsage r)
    (rc_Usage r).

Definition NewResponsesEventToChatState (fresh : string) (now : Z) :
    ResponsesEventToChatState :=
  MkRCState fresh "" now "" false false false false 0 ∅ ∅ false None.

Local Abbreviation State := ResponsesEventToChatState.
Local Abbreviation Chunks := (list ChatCompletionsChunk).

Definition base_chunk (st : State) : ChatCompletionsChunk :=
  zero_ChatCompletionsChunk
    <| chk_ID := rc_ID st |>
    <| chk_Object := "chat.completion.chunk" |>
    <| chk_Created := rc_Created st |>
    <| chk_Model := rc_Model st |>
    <| chk_ServiceTier := rc_ServiceTier st |>.

Definition makeChatDeltaChunk (st : State) (delta : ChatDelta) : ChatCompletionsChunk :=
  (base_chunk st)
    <| chk_Choices := [zero_ChatChunkChoice
         <| ccc_Index := 0 |> <| ccc_Delta := delta |> <| ccc_FinishReason := None |>] |>.

Definition makeChatFinishChunk (st : State) (finishReason : string) : ChatCompletionsChunk :=
  (base_chunk st)
    <| chk_Choices := [zero_ChatChunkChoice
         <| ccc_Index := 0 |>
         <| ccc_Delta := zero_ChatDelta <| cdl_Content := Some "" |> |>
         <| ccc_FinishReason := Some finishReason |>] |>.

(** The finish chunk and, when asked for and known, the usage chunk. *)
Definition closing_chunks (st : State) (finishReason : string) : Chunks :=
  makeChatFinishChunk st finishReason ::
  match rc_Usage st with
  | Some u => if rc_IncludeUsage st
              then [(base_chunk st) <| chk_Choices := [] |> <| chk_Usage := Some u |>] else []
  | None => []
  end.

Definition FinalizeResponsesChatStream (st : State) : State * Chunks :=
  if rc_Finalized st then (st, [])
  else
    let st := st <| rc_Finalized := true |> in
    (st, closing_chunks st (if rc_SawToolCall st then "tool_calls" else "stop")).

Definition resToChatHandleCreated (evt : ResponsesStreamEvent) (st : State) : State * Chunks :=
  let st :=
    match rse_Response evt with
    | Some r =>
        let st := if negb (rr_ID r =?s "") then st <| rc_ID := rr_ID r |> else st in
        let st := if (rc_Model st =?s "") && negb (rr_Model r =?s "")
                  then st <| rc_Model := rr_Model r |> else st in
        if negb (rr_ServiceTier r =?s "")
        then st <| rc_ServiceTier := rr_ServiceTier r |> else st
    | None => st
    end in
  if rc_SentRole st then (st, [])
  else
    let st := st <| rc_SentRole := true |> in
    (st, [makeChatDeltaChunk st (zero_ChatDelta <| cdl_Role := "assistant" |>)]).

Definition resToChatHandleTextDelta (evt : ResponsesStreamEvent) (st : State) :
    State * Chunks :=
  if rse_Delta evt =?s "" then (st, [])
  else
    let st := st <| rc_SawText := true |> in
    (st, [makeChatDeltaChunk st (zero_ChatDelta <| cdl_Content := Some (rse_Delta evt) |>)]).

(** A delta that carries one tool call entry. *)
Definition tool_delta (c : ChatToolCall) : ChatDelta :=
  zero_ChatDelta <| cdl_ToolCalls := [c] |>.
Definition announce_call (idx : Z) (item : ResponsesOutput) : ChatToolCall :=
  zero_ChatToolCall
    <| ctc_Index := Some idx |> <| ctc_ID := ro_CallID item |> <| ctc_Type := "function" |>
    <| ctc_Function := zero_ChatFunctionCall <| cfc_Name := ro_Name item |> |>.
Definition arguments_fragment (idx : Z) (s : string) : ChatToolCall :=
  zero_ChatToolCall
    <| ctc_Index := Some idx |>
    <| ctc_Function := zero_ChatFunctionCall <| cfc_Arguments := s |> |>.

Definition is_call_item (item : ResponsesOutput) : bool :=
  (ro_Type item =?s "function_call") || (ro_Type item =?s "custom_tool_call").

Definition resToChatHandleOutputItemAdded (evt : ResponsesStreamEvent) (st : State) :
    State * Chunks :=
  match rse_Item evt with
  | None => (st, [])
  | Some item =>
      if negb (is_call_item item) then (st, [])
      else
        let idx := rc_NextToolCallIndex st in
        let st := st <| rc_SawToolCall := true |>
          <| rc_OutputIndexToToolIndex :=
               <[rse_OutputIndex evt := idx]> (rc_OutputIndexToToolIndex st) |>
          <| rc_NextToolCallIndex := rc_NextToolCallIndex st + 1 |> in
        (st, [makeChatDeltaChunk st (tool_delta (announce_call idx item))])
  end.

Definition resToChatHandleFuncArgsDelta (evt : ResponsesStreamEvent) (st : State) :
    State * Chunks :=
  if rse_Delta evt =?s "" then (st, [])
  else
    match rc_OutputIndexToToolIndex st !! rse_OutputIndex evt with
    | None => (st, [])
    | Some idx =>
        let current := default "" (rc_OutputIndexToArguments st !! rse_OutputIndex evt) in
        let st := st <| rc_OutputIndexToArguments :=
          <[rse_OutputIndex evt := current +:+ rse_Delta evt]> (rc_OutputIndexToArguments st) |> in
        (st, [makeChatDeltaChunk st (tool_delta (arguments_fragment idx (rse_Delta evt)))])
    end.

(** The finished arguments of a [*.done] event. *)
Definition completed_arguments (evt : ResponsesStreamEvent) : string :=
  if rse_Type evt =?s "response.custom_tool_call_input.done" then rse_Input evt
  else rse_Arguments evt.

Definition resToChatHandleFuncArgsDone (evt : ResponsesStreamEvent) (st : State) :
    State * Chunks :=
  match rc_OutputIndexToToolIndex st !! rse_OutputIndex evt with
  | None => (st, [])
  | Some idx =>
      let completed := completed_arguments evt in
      let current := default "" (rc_OutputIndexToArguments st !! rse_OutputIndex evt) in
      if (completed =?s "") || negb (HasPrefix completed current) || (completed =?s current)
      then (st, [])
      else
        let remainder := str_drop (String.length current) completed in
        let st := st <| rc_OutputIndexToArguments :=
          <[rse_OutputIndex evt := completed]> (rc_OutputIndexToArguments st) |> in
        (st, [makeChatDeltaChunk st (tool_delta (arguments_fragment idx remainder))])
  end.

Definition resToChatHandleReasoningDelta (evt : ResponsesStreamEvent) (st : State) :
    State * Chunks :=
  if rse_Delta evt =?s "" then (st, [])
  else (st, [makeChatDeltaChunk st
               (zero_ChatDelta <| cdl_ReasoningContent := Some (rse_Delta evt) |>)]).

Definition chat_finish_reason (evt : ResponsesStreamEvent) (sawToolCall : bool) : string :=
  match rse_Response evt with
  | Some r =>
      if rr_Status r =?s "incomplete" then
        match rr_IncompleteDetails r with
        | Some d =>
            if rid_Reason d =?s "max_output_tokens" then "length"
            else if rid_Reason d =?s "content_filter" then "content_filter"
            else "stop"
        | None => "stop"
        end
      else if rr_Status r =?s "completed" then
        if sawToolCall then "tool_calls" else "stop"
      else "stop"
  | None => if sawToolCall then "tool_calls" else "stop"
  end.

Definition resToChatHandleCompleted (evt : ResponsesStreamEvent) (st : State) :
    State * Chunks :=
  let st := st <| rc_Finalized := true |> in
  let st := match rse_Usage evt with
            | Some u => st <| rc_Usage := chatUsageFromResponsesUsage (Some u) |>
            | None => st
            end in
  let st := match rse_Response evt with
            | Some r =>
                let st := match rr_Usage r with
                          | Some u => st <| rc_Usage := chatUsageFromResponsesUsage (Some u) |>
                          | None => st
                          end in
                if negb (rr_ServiceTier r =?s "")
                then st <| rc_ServiceTier := rr_ServiceTier r |> else st
            | None => st
            end in
  (st, closing_chunks st (chat_finish_reason evt (rc_SawToolCall st))).

Definition is_args_delta_type (t : string) : bool :=
  one_of t ["response.function_call_arguments.delta"; "response.custom_tool_call_input.delta"].
Definition is_args_done_type (t : string) : bool :=
  one_of t ["response.function_call_arguments.done"; "response.custom_tool_call_input.done"].
Definition is_reasoning_delta_type (t : string) : bool :=
  one_of t ["response.reasoning_summary_text.delta"; "response.reasoning_text.delta"].
Definition is_terminal_type (t : string) : bool :=
  one_of t ["response.completed"; "response.done"; "response.incomplete"; "response.failed"].

Definition ResponsesEventToChatChunks (evt : ResponsesStreamEvent) (st : State) :
    State * Chunks :=
  let t := rse_Type evt in
  if t =?s "response.created" then resToChatHandleCreated evt st
  else if t =?s "response.output_text.delta" then resToChatHandleTextDelta evt st
  else if t =?s "response.output_item.added" then resToChatHandleOutputItemAdded evt st
  else if is_args_delta_type t then resToChatHandleFuncArgsDelta evt st
  else if is_args_done_type t then resToChatHandleFuncArgsDone evt st
  else if is_reasoning_delta_type t then resToChatHandleReasoningDelta evt st
  else if t =?s "response.reasoning_summary_text.done" then (st, [])
  else if is_terminal_type t then resToChatHandleCompleted evt st
  else (st, []).

#[export] Instance responses_to_chat :
    Converter ResponsesEventToChatState ResponsesStreamEvent ChatCompletionsChunk := {
  conv_step := ResponsesEventToChatChunks;
  conv_finalize := FinalizeResponsesChatStream;
}.

(** ** Buffered accumulator

    [strings.Builder] remembers the address it was first written at and panics
    when it is written at another one.  The builders of the buffered calls live
    inside the elements of a slice, so they move when an append reallocates the
    slice; a builder's address is modelled by the number of the backing array it
    was first written in (its index in the array never changes). *)
Record Builder := MkBuilder {
  sb_addr : option nat;
  sb_buf : string;
}.

(** [b.WriteString(s)] on a builder inside array [here]; [None] is the panic of
    [copyCheck]. *)
Definition WriteString (here : nat) (s : string) (b : Builder) : option Builder :=
  match sb_addr b with
  | None => Some (MkBuilder (Some here) (sb_buf b +:+ s))
  | Some a => if Nat.eqb a here then Some (MkBuilder (Some a) (sb_buf b +:+ s)) else None
  end.
Definition Reset (b : Builder) : Builder := MkBuilder None "".

Record bufferedFuncCall := MkbufferedFuncCall {
  bfc_OutputIndex : Z;
  bfc_CallID : string;
  bfc_Name : string;
  bfc_Args : Builder;
}.
#[export] Instance eta_bufferedFuncCall : Eta bufferedFuncCall := fun r =>
  MkbufferedFuncCall (bfc_OutputIndex r) (bfc_CallID r) (bfc_Name r) (bfc_Args r).

(** [bra_array] and [bra_cap] are the backing array of [funcCalls] and its capacity;
    the two plain builders never move and are their contents. *)
Record BufferedResponseAccumulator := MkBRA {
  bra_text : string;
  bra_reasoning : string;
  bra_funcCalls : list bufferedFuncCall;
  bra_array : nat;
  bra_cap : nat;
  bra_outputIndexToFuncIdx : gmap Z nat;
}.
#[export] Instance eta_BRA : Eta BufferedResponseAccumulator := fun r =>
  MkBRA (bra_text r) (bra_reasoning r) (bra_funcCalls r) (bra_array r) (bra_cap r)
    (bra_outputIndexToFuncIdx r).

Definition NewBufferedResponseAccumulator : BufferedResponseAccumulator :=
  MkBRA "" "" [] 0 0 ∅.
Local Abbreviation Acc := BufferedResponseAccumulator.

Section Accumulate.
(** The capacity [append] gives a slice of the given length that is full. *)
Context (growslice : nat -> nat).

(** [a.funcCalls = append(a.funcCalls, c)] *)
Definition append_call (c : bufferedFuncCall) (a : Acc) : Acc :=
  let a := if Nat.ltb (length (bra_funcCalls a)) (bra_cap a) then a
           else a <| bra_array := S (bra_array a) |>
                  <| bra_cap := growslice (length (bra_funcCalls a)) |> in
  a <| bra_funcCalls := bra_funcCalls a ++ [c] |>.

(** Run [f] on the arguments builder of call [idx]. *)
Definition on_args (idx : nat) (f : Builder -> option Builder) (a : Acc) : option Acc :=
  c ← bra_funcCalls a !! idx;
  b ← f (bfc_Args c);
  Some (a <| bra_funcCalls := <[idx := c <| bfc_Args := b |>]> (bra_funcCalls a) |>).

Definition ProcessEvent (evt : ResponsesStreamEvent) (a : Acc) : option Acc :=
  let t := rse_Type evt in
  if t =?s "response.output_text.delta" then
    Some (if negb (rse_Delta evt =?s "")
          then a <| bra_text := bra_text a +:+ rse_Delta evt |> else a)
  else if t =?s "response.output_item.added" then
    match rse_Item evt with
    | Some item =>
        if is_call_item item then
          let idx := length (bra_funcCalls a) in
          let a := a <| bra_outputIndexToFuncIdx :=
            <[rse_OutputIndex evt := idx]> (bra_outputIndexToFuncIdx a) |> in
          Some (append_call (MkbufferedFuncCall (rse_OutputIndex evt) (ro_CallID item)
                  (ro_Name item) (MkBuilder None "")) a)
        else Some a
    | None => Some a
    end
  else if is_args_delta_type t then
    if rse_Delta evt =?s "" then Some a
    else match bra_outputIndexToFuncIdx a !! rse_OutputIndex evt with
         | Some idx => on_args idx (WriteString (bra_array a) (rse_Delta evt)) a
         | None => Some a
         end
  else if is_args_done_type t then
    let completed := completed_arguments evt in
    if completed =?s "" then Some a
    else match bra_outputIndexToFuncIdx a !! rse_OutputIndex evt with
         | Some idx =>
             on_args idx (fun b => WriteString (bra_array a) completed (Reset b)) a
         | None => Some a
         end
  else if is_reasoning_delta_type t then
    Some (if negb (rse_Delta evt =?s "")
          then a <| bra_reasoning := bra_reasoning a +:+ rse_Delta evt |> else a)
  else Some a.
End Accumulate.

Definition HasContent (a : Acc) : bool :=
  negb (bra_text a =?s "") || Nat.ltb 0 (length (bra_funcCalls a)) ||
  negb (bra_reasoning a =?s "").

(** The message item that carries the accumulated text. *)
Definition text_message (text : string) : ResponsesOutput :=
  zero_ResponsesOutput
    <| ro_Type := "message" |>
    <| ro_Role := "assistant" |>
    <| ro_Content := [zero_ResponsesContentPart
         <| rcp_Type := "output_text" |> <| rcp_Text := text |>] |>.

(** The function_call item of a buffered call. *)
Definition call_item (c : bufferedFuncCall) : ResponsesOutput :=
  zero_ResponsesOutput
    <| ro_Type := "function_call" |>
    <| ro_CallID := bfc_CallID c |>
    <| ro_Name := bfc_Name c |>
    <| ro_Arguments := sb_buf (bfc_Args c) |>.

Definition BuildOutput (a : Acc) : list ResponsesOutput :=
  (if negb (bra_reasoning a =?s "")
   then [zero_ResponsesOutput
           <| ro_Type := "reasoning" |>
           <| ro_Summary := [zero_ResponsesSummary
                <| rsum_Type := "summary_text" |> <| rsum_Text := bra_reasoning a |>] |>]
   else []) ++
  (if negb (bra_text a =?s "") then [text_message (bra_text a)] else []) ++
  map call_item (bra_funcCalls a).

Definition responsesOutputHasText (output : list ResponsesOutput) : bool :=
  existsb (fun item =>
    (ro_Type item =?s "message") &&
    existsb (fun part => (rcp_Type part =?s "output_text") &&
                         negb (TrimSpace (rcp_Text part) =?s "")) (ro_Content item)) output.

(** The first blank output_text part takes the text; [None] when there is none. *)
Fixpoint fill_part (text : string) (parts : list ResponsesContentPart) :
    option (list ResponsesContentPart) :=
  match parts with
  | [] => None
  | p :: parts =>
      if (rcp_Type p =?s "output_text") && (TrimSpace (rcp_Text p) =?s "")
      then Some ((p <| rcp_Text := text |>) :: parts)
      else ps ← fill_part text parts; Some (p :: ps)
  end.

(** [None] is the result [false], which leaves the output as it was. *)
Fixpoint fillResponsesOutputText (output : list ResponsesOutput) (text : string) :
    option (list ResponsesOutput) :=
  match output with
  | [] => None
  | item :: output =>
      if negb (ro_Type item =?s "message") then
        out ← fillResponsesOutputText output text; Some (item :: out)
      else
        Some ((item <| ro_Content :=
                 match fill_part text (ro_Content item) with
                 | Some ps => ps
                 | None => ro_Content item ++
                     [zero_ResponsesContentPart
                        <| rcp_Type := "output_text" |> <| rcp_Text := text |>]
                 end |>) :: output)
  end.

(** The buffered call the inner loop stops at. *)
Definition matching_call (outputIndex : Z) (item : ResponsesOutput)
    (calls : list bufferedFuncCall) : option bufferedFuncCall :=
  List.find (fun c =>
    (negb (ro_CallID item =?s "") && (ro_CallID item =?s bfc_CallID c)) ||
    (bfc_OutputIndex c =? outputIndex)) calls.

Definition fill_item_arguments (calls : list bufferedFuncCall) (outputIndex : Z)
    (item : ResponsesOutput) : ResponsesOutput :=
  if negb (ro_Type item =?s "function_call") || negb (ro_Arguments item =?s "") then item
  else
    match matching_call outputIndex item calls with
    | Some c =>
        if negb (sb_buf (bfc_Args c) =?s "")
        then item <| ro_Arguments := sb_buf (bfc_Args c) |> else item
    | None => item
    end.

Definition SupplementResponseOutput (a : Acc) (resp : option ResponsesResponse) :
    option ResponsesResponse :=
  match resp with
  | None => None
  | Some r =>
      match rr_Output r with
      | [] => Some (if HasContent a then r <| rr_Output := BuildOutput a |> else r)
      | output =>
          let output :=
            if negb (bra_text a =?s "") && negb (responsesOutputHasText output) then
              match fillResponsesOutputText output (bra_text a) with
              | Some out => out
              | None => output ++ [text_message (bra_text a)]
              end
            else output in
          Some (r <| rr_Output :=
                  imap (fun i => fill_item_arguments (bra_funcCalls a) (Z.of_nat i)) output |>)
      end
  end.
