(* ===== verification/ResponsesToChatProofs.v ===== *)
(** * Chat stream: tool-call indices, agreement with the buffered path, closing

    What an OpenAI client assembles from the chunks of a stream, compared with
    what the buffered (non-streaming) path returns for the same upstream events. *)

From S2P Require Import Prelude Json Apicompat ResponsesToAnthropic ResponsesToChat.
Local Open Scope string_scope.
Local Open Scope Z_scope.
Local Open Scope list_scope.
Local Open Scope go_scope.

(** ** The client *)

(** A tool call as assembled: id, name, arguments. *)
Record ClientCall := MkClientCall {
  call_id : string;
  call_name : string;
  call_args : string;
}.
Record Client := MkClient {
  cl_text : string;
  cl_reasoning : string;
  cl_calls : list ClientCall;
}.
#[export] Instance eta_Client : Eta Client := fun r =>
  MkClient (cl_text r) (cl_reasoning r) (cl_calls r).

(** The first entry of a tool call (the one that has a type) must take the next
    index, a later one must name a call that was already announced. *)
Definition call_step (calls : list ClientCall) (t : ChatToolCall) : option (list ClientCall) :=
  i ← ctc_Index t;
  let args := cfc_Arguments (ctc_Function t) in
  if ctc_Type t =?s "function" then
    if i =? Z.of_nat (length calls)
    then Some (calls ++ [MkClientCall (ctc_ID t) (cfc_Name (ctc_Function t)) args])
    else None
  else if i <? 0 then None
  else
    c ← calls !! Z.to_nat i;
    Some (<[Z.to_nat i :=
              MkClientCall (call_id c) (call_name c) (call_args c +:+ args)]> calls).

Definition choice_step (c : Client) (ch : ChatChunkChoice) : option Client :=
  let d := ccc_Delta ch in
  calls ← accepts call_step (cl_calls c) (cdl_ToolCalls d);
  Some (MkClient (cl_text c +:+ default "" (cdl_Content d))
                 (cl_reasoning c +:+ default "" (cdl_ReasoningContent d)) calls).
Definition client_step (c : Client) (chunk : ChatCompletionsChunk) : option Client :=
  accepts choice_step c (chk_Choices chunk).
Definition client0 : Client := MkClient "" "" [].

Lemma client_delta st d c :
  client_step c (makeChatDeltaChunk st d) =
    (calls ← accepts call_step (cl_calls c) (cdl_ToolCalls d);
     Some (MkClient (cl_text c +:+ default "" (cdl_Content d))
                    (cl_reasoning c +:+ default "" (cdl_ReasoningContent d)) calls)).
Proof.
  unfold client_step, choice_step; simpl.
  by destruct (accepts call_step (cl_calls c) (cdl_ToolCalls d)).
Qed.

Lemma client_finish st r c : client_step c (makeChatFinishChunk st r) = Some c.
Proof. unfold client_step, choice_step; simpl. rewrite !str_app_nil_r. by destruct c. Qed.

Lemma client_announce calls item :
  call_step calls (announce_call (Z.of_nat (length calls)) item) =
    Some (calls ++ [MkClientCall (ro_CallID item) (ro_Name item) ""]).
Proof. unfold call_step; simpl. by rewrite Z.eqb_refl. Qed.

Lemma client_fragment calls k s c :
  calls !! k = Some c ->
  call_step calls (arguments_fragment (Z.of_nat k) s) =
    Some (<[k := MkClientCall (call_id c) (call_name c) (call_args c +:+ s)]> calls).
Proof.
  intros Hk. unfold call_step; simpl.
  destruct (Z.of_nat k <? 0) eqn:E; [bool_hyps; lia|]. by rewrite Nat2Z.id, Hk.
Qed.

#[local] Arguments client_step : simpl never.
#[local] Arguments call_step : simpl never.
#[local] Arguments makeChatDeltaChunk : simpl never.
#[local] Arguments makeChatFinishChunk : simpl never.

Lemma closing_client st r c : accepts client_step c (closing_chunks st r) = Some c.
Proof.
  unfold closing_chunks. rewrite accepts_cons, client_finish. simpl.
  by destruct (rc_Usage st); [destruct (rc_IncludeUsage st)|].
Qed.

(** ** What the upstream sent *)

Definition sent_text (evt : ResponsesStreamEvent) : string :=
  if rse_Type evt =?s "response.output_text.delta" then rse_Delta evt else "".
Definition sent_reasoning (evt : ResponsesStreamEvent) : string :=
  if is_reasoning_delta_type (rse_Type evt) then rse_Delta evt else "".
Definition sent_call (evt : ResponsesStreamEvent) : list (string * string) :=
  if rse_Type evt =?s "response.output_item.added" then
    match rse_Item evt with
    | Some item => if is_call_item item then [(ro_CallID item, ro_Name item)] else []
    | None => []
    end
  else [].
Definition call_header (c : ClientCall) : string * string := (call_id c, call_name c).

(** The converter's tool indices are those of announced calls, one per call. *)
Record RC (st : ResponsesEventToChatState) (c : Client) : Prop := {
  rc_next : rc_NextToolCallIndex st = Z.of_nat (length (cl_calls c));
  rc_map : forall oi i, rc_OutputIndexToToolIndex st !! oi = Some i ->
    exists k, i = Z.of_nat k /\ (k < length (cl_calls c))%nat;
}.

(** One event: what it adds to the client. *)
Definition client_adds (evt : ResponsesStreamEvent) (c c' : Client) : Prop :=
  cl_text c' = cl_text c +:+ sent_text evt /\
  cl_reasoning c' = cl_reasoning c +:+ sent_reasoning evt /\
  map call_header (cl_calls c') = map call_header (cl_calls c) ++ sent_call evt.

Definition step_adds (f : ResponsesEventToChatState -> ResponsesEventToChatState *
    list ChatCompletionsChunk) (txt rsn : string) (hdr : list (string * string)) : Prop :=
  forall st c, RC st c -> exists c', accepts client_step c (f st).2 = Some c' /\
    RC (f st).1 c' /\
    cl_text c' = cl_text c +:+ txt /\ cl_reasoning c' = cl_reasoning c +:+ rsn /\
    map call_header (cl_calls c') = map call_header (cl_calls c) ++ hdr.

Lemma step_adds_quiet f :
  (forall st c, accepts client_step c (f st).2 = Some c) ->
  (forall st, rc_NextToolCallIndex (f st).1 = rc_NextToolCallIndex st /\
     rc_OutputIndexToToolIndex (f st).1 = rc_OutputIndexToToolIndex st) ->
  step_adds f "" "" [].
Proof.
  intros H1 H2 st c [Hn Hm]. exists c. destruct (H2 st) as [E1 E2].
  rewrite H1, !str_app_nil_r, app_nil_r. split_and!; try done. split; by rewrite ?E1, ?E2.
Qed.

Lemma step_adds_text evt :
  step_adds (resToChatHandleTextDelta evt) (rse_Delta evt) "" [].
Proof.
  intros st c [Hn Hm]. unfold resToChatHandleTextDelta. destruct (rse_Delta evt =?s "") eqn:E.
  - bool_hyps. rewrite E. exists c. rewrite !str_app_nil_r, app_nil_r. by split_and!.
  - cbn [fst snd]. rewrite accepts_single, client_delta. simpl. eexists; split; [done|]. split; [by split|].
    simpl. by rewrite app_nil_r.
Qed.

Lemma step_adds_reasoning evt :
  step_adds (resToChatHandleReasoningDelta evt) "" (rse_Delta evt) [].
Proof.
  intros st c [Hn Hm]. unfold resToChatHandleReasoningDelta.
  destruct (rse_Delta evt =?s "") eqn:E.
  - bool_hyps. rewrite E. exists c. rewrite !str_app_nil_r, app_nil_r. by split_and!.
  - cbn [fst snd]. rewrite accepts_single, client_delta. simpl. eexists; split; [done|]. split; [by split|].
    simpl. by rewrite app_nil_r.
Qed.

Lemma step_adds_announce evt :
  rse_Type evt = "response.output_item.added" ->
  step_adds (resToChatHandleOutputItemAdded evt) "" "" (sent_call evt).
Proof.
  intros Ht st c HR. pose proof HR as [Hn Hm].
  unfold resToChatHandleOutputItemAdded, sent_call. rewrite Ht. simpl.
  destruct (rse_Item evt) as [item|];
    [|exists c; rewrite !str_app_nil_r, app_nil_r; by split_and!].
  destruct (is_call_item item); simpl;
    [|exists c; rewrite !str_app_nil_r, app_nil_r; by split_and!].
  rewrite client_delta. simpl. rewrite Hn, client_announce. simpl.
  eexists; split; [done|]. simpl. rewrite !str_app_nil_r, map_app. split_and!; try done.
  split; simpl; rewrite length_app; simpl.
  - lia.
  - intros oi i. rewrite lookup_insert_Some. intros [[_ <-]|[_ Hi]].
    + exists (length (cl_calls c)). split; [done|lia].
    + destruct (Hm oi i Hi) as (k & -> & Hk). exists k. split; [done|lia].
Qed.

(** An arguments fragment for a known call changes neither ids nor names. *)
Lemma fragment_adds st c oi i s :
  RC st c -> rc_OutputIndexToToolIndex st !! oi = Some i ->
  exists calls, accepts call_step (cl_calls c) [arguments_fragment i s] = Some calls /\
    length calls = length (cl_calls c) /\
    map call_header calls = map call_header (cl_calls c).
Proof.
  intros [Hn Hm] Hi. destruct (Hm oi i Hi) as (k & -> & Hk).
  apply lookup_lt_is_Some_2 in Hk as [x Hx].
  simpl. rewrite (client_fragment _ k s x Hx). simpl. eexists; split; [done|].
  rewrite length_insert. split; [done|].
  apply list_eq; intros j. rewrite !list_lookup_fmap.
  destruct (decide (j = k)) as [->|Hne].
  - rewrite list_lookup_insert_eq by (by eapply lookup_lt_Some). by rewrite Hx.
  - by rewrite list_lookup_insert_ne.
Qed.

Lemma step_adds_fragment evt f :
  (forall st, rc_NextToolCallIndex (f st).1 = rc_NextToolCallIndex st /\
     rc_OutputIndexToToolIndex (f st).1 = rc_OutputIndexToToolIndex st) ->
  (forall st, (f st).2 = [] \/ exists i s, rc_OutputIndexToToolIndex st !! rse_OutputIndex evt = Some i /\
     (f st).2 = [makeChatDeltaChunk (f st).1 (tool_delta (arguments_fragment i s))]) ->
  step_adds f "" "" [].
Proof.
  intros Hs Ho st c HR. destruct (Hs st) as [E1 E2].
  destruct (Ho st) as [->|(i & s & Hi & ->)].
  - exists c. rewrite !str_app_nil_r, app_nil_r. split_and!; try done.
    destruct HR; split; by rewrite ?E1, ?E2.
  - destruct (fragment_adds st c _ i s HR Hi) as (calls & Ha & Hl & Hh).
    cbn [fst snd]. rewrite accepts_single, client_delta. simpl in *. rewrite Ha. simpl. eexists; split; [done|].
    simpl. rewrite app_nil_r, !str_app_nil_r. split_and!; try done.
    destruct HR; split; simpl; rewrite Hl, ?E1, ?E2; auto.
Qed.

Lemma step_adds_args_delta evt : step_adds (resToChatHandleFuncArgsDelta evt) "" "" [].
Proof.
  apply (step_adds_fragment evt); intros st; unfold resToChatHandleFuncArgsDelta;
    destruct (_ =?s ""); try destruct (_ !! _) eqn:E; simpl; eauto.
Qed.

Lemma step_adds_args_done evt : step_adds (resToChatHandleFuncArgsDone evt) "" "" [].
Proof.
  apply (step_adds_fragment evt); intros st; unfold resToChatHandleFuncArgsDone;
    destruct (_ !! rse_OutputIndex evt) eqn:E; simpl; try destruct (_ || _); simpl; eauto.
Qed.

Lemma step_adds_created evt : step_adds (resToChatHandleCreated evt) "" "" [].
Proof.
  apply step_adds_quiet.
  - intros st c. unfold resToChatHandleCreated.
    destruct (rc_SentRole _); [done|]. cbn [fst snd]. rewrite accepts_single, client_delta. simpl.
    rewrite !str_app_nil_r. by destruct c.
  - intros st. unfold resToChatHandleCreated. repeat case_match; by simplify_eq/=.
Qed.

Lemma step_adds_completed evt : step_adds (resToChatHandleCompleted evt) "" "" [].
Proof.
  apply step_adds_quiet.
  - intros st c. unfold resToChatHandleCompleted. apply closing_client.
  - intros st. unfold resToChatHandleCompleted. by repeat case_match.
Qed.

(** Split on which of the listed types the event has. *)
Ltac type_cases H :=
  unfold is_args_delta_type, is_args_done_type, is_reasoning_delta_type, is_terminal_type,
    one_of in H; simpl in H;
  repeat (apply orb_true_iff in H; destruct H as [H|H]);
  [apply String.eqb_eq in H..|done].

Lemma step_adds_event evt :
  step_adds (ResponsesEventToChatChunks evt) (sent_text evt) (sent_reasoning evt)
    (sent_call evt).
Proof.
  assert (Hq : step_adds (fun st => (st, [])) "" "" []) by by apply step_adds_quiet.
  intros st c HR. unfold ResponsesEventToChatChunks, sent_text, sent_reasoning.
  destruct (rse_Type evt =?s "response.created") eqn:E1.
  { bool_hyps. unfold sent_call. rewrite E1. by apply step_adds_created. }
  destruct (rse_Type evt =?s "response.output_text.delta") eqn:E2.
  { bool_hyps. unfold sent_call. rewrite E2. by apply step_adds_text. }
  destruct (rse_Type evt =?s "response.output_item.added") eqn:E3.
  { bool_hyps. rewrite E3. by apply step_adds_announce. }
  assert (sent_call evt = []) as -> by (unfold sent_call; by rewrite E3).
  destruct (is_args_delta_type (rse_Type evt)) eqn:E4.
  { type_cases E4; rewrite E4; by apply step_adds_args_delta. }
  destruct (is_args_done_type (rse_Type evt)) eqn:E5.
  { type_cases E5; rewrite E5; by apply step_adds_args_done. }
  destruct (is_reasoning_delta_type (rse_Type evt)); [by apply step_adds_reasoning|].
  destruct (_ =?s "response.reasoning_summary_text.done"); [by apply Hq|].
  destruct (is_terminal_type _); [by apply step_adds_completed|by apply Hq].
Qed.

(** C5. Whatever the upstream sends, every chunk is one a strict OpenAI client
    accepts - a new tool call takes the next index, an arguments fragment names an
    announced call - and the client assembles exactly the upstream's text deltas,
    its reasoning deltas, and its call items' ids and names in order. *)
Theorem chat_stream_assembles fresh now evts :
  exists c, accepts client_step client0
      (stream evts (NewResponsesEventToChatState fresh now)).2 = Some c /\
    cl_text c = str_concat (map sent_text evts) /\
    cl_reasoning c = str_concat (map sent_reasoning evts) /\
    map call_header (cl_calls c) = flat_map sent_call evts.
Proof.
  assert (Hrun : forall (l : list ResponsesStreamEvent), step_adds (run l)
    (str_concat (map sent_text l)) (str_concat (map sent_reasoning l)) (flat_map sent_call l)).
  { induction l as [|evt l IH]; [by apply step_adds_quiet|]. intros st c HR. simpl.
    destruct (step_adds_event evt st c HR) as (c1 & Ha1 & R1 & T1 & S1 & H1).
    destruct (ResponsesEventToChatChunks evt st) as [s1 o1]. simpl in *.
    destruct (IH s1 c1 R1) as (c2 & Ha2 & R2 & T2 & S2 & H2).
    destruct (run l s1) as [s2 o2]. simpl in *. exists c2.
    rewrite accepts_app, Ha1, T2, T1, S2, S1, H2, H1, !str_app_assoc, app_assoc.
    by split_and!. }
  destruct (Hrun evts (NewResponsesEventToChatState fresh now) client0)
    as (c & Ha & _ & Ht & Hs & Hh); [split; [done|]; intros oi i; simpl; by rewrite lookup_empty|].
  exists c. split; [|done]. unfold stream. destruct (run evts _) as [s1 o1]. simpl in *.
  unfold FinalizeResponsesChatStream. destruct (rc_Finalized s1); cbn [snd].
  - by rewrite app_nil_r.
  - rewrite accepts_app, Ha. apply closing_client.
Qed.

(** ** The stream and the buffered path agree *)

Section Buffered.
Context (growslice : nat -> nat).

(** The accumulator after a list of events; [None] is a panic. *)
Definition accumulate (evts : list ResponsesStreamEvent) : option BufferedResponseAccumulator :=
  accepts (fun a e => ProcessEvent growslice e a) NewBufferedResponseAccumulator evts.

(** Upstreams whose calls are consistent: an output index announces one call, and
    the finished arguments of a call extend the fragments sent for it.  The state
    is the arguments known of each announced output index. *)
Definition calls_step (g : gmap Z string) (evt : ResponsesStreamEvent) : option (gmap Z string) :=
  let t := rse_Type evt in
  let oi := rse_OutputIndex evt in
  if t =?s "response.output_item.added" then
    match rse_Item evt with
    | Some item =>
        if is_call_item item then
          match g !! oi with None => Some (<[oi := ""]> g) | Some _ => None end
        else Some g
    | None => Some g
    end
  else if is_args_delta_type t then
    Some (match g !! oi with
          | Some s => <[oi := s +:+ rse_Delta evt]> g
          | None => g
          end)
  else if is_args_done_type t then
    match g !! oi with
    | Some s =>
        if completed_arguments evt =?s "" then Some g
        else if HasPrefix (completed_arguments evt) s
             then Some (<[oi := completed_arguments evt]> g) else None
    | None => Some g
    end
  else Some g.

Definition buffered_call (b : bufferedFuncCall) : ClientCall :=
  MkClientCall (bfc_CallID b) (bfc_Name b) (sb_buf (bfc_Args b)).

(** The stream's client, the converter's bookkeeping, the accumulator and the
    upstream's arguments all tell the same story. *)
Record Agree (st : ResponsesEventToChatState) (c : Client) (a : BufferedResponseAccumulator)
    (g : gmap Z string) : Prop := {
  ag_text : cl_text c = bra_text a;
  ag_reasoning : cl_reasoning c = bra_reasoning a;
  ag_calls : cl_calls c = map buffered_call (bra_funcCalls a);
  ag_next : rc_NextToolCallIndex st = Z.of_nat (length (bra_funcCalls a));
  ag_map : rc_OutputIndexToToolIndex st = Z.of_nat <$> bra_outputIndexToFuncIdx a;
  ag_known : forall oi k, bra_outputIndexToFuncIdx a !! oi = Some k ->
    exists b, bra_funcCalls a !! k = Some b /\ g !! oi = Some (sb_buf (bfc_Args b)) /\
      default "" (rc_OutputIndexToArguments st !! oi) = sb_buf (bfc_Args b);
  ag_unknown : forall oi, bra_outputIndexToFuncIdx a !! oi = None ->
    g !! oi = None /\ rc_OutputIndexToArguments st !! oi = None;
  ag_inj : forall oi oi' k, bra_outputIndexToFuncIdx a !! oi = Some k ->
    bra_outputIndexToFuncIdx a !! oi' = Some k -> oi = oi';
}.

(** The converter's bookkeeping is all [Agree] reads of its state. *)
Lemma Agree_state st st' c a g :
  rc_NextToolCallIndex st' = rc_NextToolCallIndex st ->
  rc_OutputIndexToToolIndex st' = rc_OutputIndexToToolIndex st ->
  rc_OutputIndexToArguments st' = rc_OutputIndexToArguments st ->
  Agree st c a g -> Agree st' c a g.
Proof. intros E1 E2 E3 []; split; rewrite ?E1, ?E2, ?E3; auto. Qed.

Lemma Agree_text st c a g s :
  Agree st c a g ->
  Agree st (MkClient (cl_text c +:+ s) (cl_reasoning c +:+ "") (cl_calls c))
    (a <| bra_text := bra_text a +:+ s |>) g.
Proof. intros []; split; simpl; auto; [congruence|]. by rewrite str_app_nil_r. Qed.

Lemma Agree_reasoning st c a g s :
  Agree st c a g ->
  Agree st (MkClient (cl_text c +:+ "") (cl_reasoning c +:+ s) (cl_calls c))
    (a <| bra_reasoning := bra_reasoning a +:+ s |>) g.
Proof. intros []; split; simpl; auto; [|congruence]. by rewrite str_app_nil_r. Qed.

(** The arguments of a call become [s]. *)
Lemma Agree_args st c a g oi k b s bs :
  Agree st c a g ->
  bra_outputIndexToFuncIdx a !! oi = Some k -> bra_funcCalls a !! k = Some b ->
  sb_buf bs = s ->
  Agree (st <| rc_OutputIndexToArguments := <[oi := s]> (rc_OutputIndexToArguments st) |>)
    (c <| cl_calls := <[k := MkClientCall (bfc_CallID b) (bfc_Name b) s]> (cl_calls c) |>)
    (a <| bra_funcCalls := <[k := b <| bfc_Args := bs |>]> (bra_funcCalls a) |>)
    (<[oi := s]> g).
Proof.
  intros [] Hk Hb Hs. split; simpl; auto.
  - rewrite ag_calls0, list_fmap_insert. by rewrite <- Hs.
  - by rewrite length_insert.
  - intros oi' k' Hk'. destruct (decide (oi' = oi)) as [->|Hne].
    + simplify_eq. rewrite !lookup_insert_eq, list_lookup_insert_eq by (by eapply lookup_lt_Some).
      by eexists.
    + rewrite !lookup_insert_ne by done. destruct (ag_known0 oi' k' Hk') as (b' & ? & ? & ?).
      exists b'. rewrite list_lookup_insert_ne; [done|]. intros ->. eauto.
  - intros oi' Hn. destruct (ag_unknown0 oi' Hn).
    rewrite !lookup_insert_ne; [done|..]; intros ->; congruence.
Qed.

(** A new call is announced. *)
Lemma Agree_announce st c a g oi item :
  Agree st c a g -> g !! oi = None ->
  Agree (st <| rc_SawToolCall := true |>
            <| rc_OutputIndexToToolIndex :=
                 <[oi := rc_NextToolCallIndex st]> (rc_OutputIndexToToolIndex st) |>
            <| rc_NextToolCallIndex := rc_NextToolCallIndex st + 1 |>)
    (MkClient (cl_text c +:+ "") (cl_reasoning c +:+ "")
       (cl_calls c ++ [MkClientCall (ro_CallID item) (ro_Name item) ""]))
    (append_call growslice
       (MkbufferedFuncCall oi (ro_CallID item) (ro_Name item) (MkBuilder None ""))
       (a <| bra_outputIndexToFuncIdx :=
            <[oi := length (bra_funcCalls a)]> (bra_outputIndexToFuncIdx a) |>))
    (<[oi := ""]> g).
Proof.
  intros [] Hoi.
  assert (Hn : bra_outputIndexToFuncIdx a !! oi = None).
  { destruct (bra_outputIndexToFuncIdx a !! oi) as [k|] eqn:E; [|done].
    destruct (ag_known0 oi k E) as (b & _ & Hg & _). congruence. }
  unfold append_call. simpl. destruct (Nat.ltb _ _); simpl; (split; simpl;
    rewrite ?str_app_nil_r, ?length_app; auto;
    [ by rewrite ag_calls0, map_app
    | simpl; lia
    | by rewrite fmap_insert, ag_next0, ag_map0
    | intros oi' k; destruct (decide (oi' = oi)) as [->|Hne];
      [ rewrite !lookup_insert_eq; intros [= <-]; eexists;
        rewrite lookup_app_r, Nat.sub_diag by lia; split; [done|]; split; [done|];
        simpl; by destruct (ag_unknown0 oi Hn) as [_ ->]
      | rewrite !lookup_insert_ne by done; intros Hk;
        destruct (ag_known0 oi' k Hk) as (b & Hb & ?); exists b;
        rewrite lookup_app_l by (by eapply lookup_lt_Some); by split ]
    | intros oi'; destruct (decide (oi' = oi)) as [->|Hne];
      [by rewrite lookup_insert_eq|]; rewrite !lookup_insert_ne by done; auto
    | intros oi1 oi2 k; rewrite !lookup_insert_Some;
      intros [[<- <-]|[? Hk1]] [[<- E]|[? Hk2]]; eauto;
      [ destruct (ag_known0 _ _ Hk2) as (b & Hb & _)
      | destruct (ag_known0 _ _ Hk1) as (b & Hb & _) ];
      apply lookup_lt_Some in Hb; lia ]).
Qed.

Lemma WriteString_buf here s b b' :
  WriteString here s b = Some b' -> sb_buf b' = sb_buf b +:+ s.
Proof. unfold WriteString. repeat case_match; intros; by simplify_eq/=. Qed.

Local Abbreviation tracks f evt := (forall st c a g g' a',
  Agree st c a g -> calls_step g evt = Some g' -> ProcessEvent growslice evt a = Some a' ->
  exists c', accepts client_step c (f st).2 = Some c' /\ Agree (f st).1 c' a' g').

(** The client's copy of call [k] grows by [s]. *)
Lemma client_args st c a g oi k s :
  Agree st c a g -> bra_outputIndexToFuncIdx a !! oi = Some k ->
  exists b, bra_funcCalls a !! k = Some b /\
    g !! oi = Some (sb_buf (bfc_Args b)) /\
    default "" (rc_OutputIndexToArguments st !! oi) = sb_buf (bfc_Args b) /\
    forall st', client_step c (makeChatDeltaChunk st'
        (tool_delta (arguments_fragment (Z.of_nat k) s))) =
      Some (c <| cl_calls := <[k := MkClientCall (bfc_CallID b) (bfc_Name b)
                                 (sb_buf (bfc_Args b) +:+ s)]> (cl_calls c) |>).
Proof.
  intros [] Hk. destruct (ag_known0 oi k Hk) as (b & Hb & Hg & Hr).
  exists b. split_and!; try done. intros st'. rewrite client_delta. simpl.
  rewrite (client_fragment _ k s (buffered_call b))
    by (by rewrite ag_calls0, list_lookup_fmap, Hb).
  simpl. by rewrite !str_app_nil_r.
Qed.

Lemma tracks_args_delta evt :
  is_args_delta_type (rse_Type evt) = true -> tracks (resToChatHandleFuncArgsDelta evt) evt.
Proof.
  intros Ht st c a g g' a' HA Hg Ha. unfold calls_step, ProcessEvent in *. rewrite Ht in *.
  assert (Hty : (rse_Type evt =?s "response.output_item.added") = false /\
                (rse_Type evt =?s "response.output_text.delta") = false)
    by (type_cases Ht; by rewrite Ht).
  destruct Hty as [E1 E2]. rewrite E1 in Hg. rewrite E1, E2 in Ha. simplify_eq.
  unfold resToChatHandleFuncArgsDelta. destruct (rse_Delta evt =?s "") eqn:Ed.
  { bool_hyps. simplify_eq. exists c. split; [done|]. rewrite Ed.
    destruct (g !! rse_OutputIndex evt) as [s|] eqn:E; [|done].
    by rewrite str_app_nil_r, insert_id. }
  pose proof HA as [_ _ _ _ Hmap _ Hunk _]. rewrite Hmap, lookup_fmap.
  destruct (bra_outputIndexToFuncIdx a !! rse_OutputIndex evt) as [k|] eqn:Ek; simpl.
  - destruct (client_args st c a g _ k (rse_Delta evt) HA Ek) as (b & Hb & Hgb & Hr & Hc).
    unfold on_args in Ha. rewrite Hb in Ha. simpl in Ha.
    destruct (WriteString _ _ _) as [bs|] eqn:Ew; [|done]. simpl in Ha. simplify_eq.
    rewrite Hr, Hgb, Hc. cbn [mbind option_bind]. eexists; split; [done|].
    apply (Agree_args st c a g); auto. by apply WriteString_buf in Ew.
  - simplify_eq. exists c. split; [done|]. destruct (Hunk _ Ek) as [-> _]. done.
Qed.

Lemma tracks_args_done evt :
  is_args_done_type (rse_Type evt) = true -> tracks (resToChatHandleFuncArgsDone evt) evt.
Proof.
  intros Ht st c a g g' a' HA Hg Ha. unfold calls_step, ProcessEvent in *. rewrite Ht in *.
  assert (Hty : (rse_Type evt =?s "response.output_item.added") = false /\
                (rse_Type evt =?s "response.output_text.delta") = false /\
                is_args_delta_type (rse_Type evt) = false)
    by (type_cases Ht; by rewrite Ht).
  destruct Hty as (E1 & E2 & E3). rewrite E1, E3 in Hg. rewrite E1, E2, E3 in Ha.
  unfold resToChatHandleFuncArgsDone.
  pose proof HA as [_ _ _ _ Hmap _ Hunk _]. rewrite Hmap, lookup_fmap.
  destruct (bra_outputIndexToFuncIdx a !! rse_OutputIndex evt) as [k|] eqn:Ek; simpl.
  - destruct (client_args st c a g _ k (str_drop (String.length
      (default "" (rc_OutputIndexToArguments st !! rse_OutputIndex evt)))
      (completed_arguments evt)) HA Ek) as (b & Hb & Hgb & Hr & Hc).
    rewrite Hgb in Hg. rewrite Hr in *.
    destruct (completed_arguments evt =?s "") eqn:E0; simpl in *; [simplify_eq; by exists c|].
    destruct (HasPrefix _ _) eqn:Ep; [|done]. simplify_eq. simpl.
    unfold on_args in Ha. rewrite Hb in Ha. simpl in Ha. simplify_eq/=.
    pose proof (HasPrefix_drop _ _ Ep) as Happ.
    assert (HAg : Agree (st <| rc_OutputIndexToArguments :=
        <[rse_OutputIndex evt := completed_arguments evt]> (rc_OutputIndexToArguments st) |>)
      (c <| cl_calls := <[k := MkClientCall (bfc_CallID b) (bfc_Name b)
            (completed_arguments evt)]> (cl_calls c) |>)
      (a <| bra_funcCalls := <[k := b <| bfc_Args := MkBuilder (Some (bra_array a))
            (completed_arguments evt) |>]> (bra_funcCalls a) |>)
      (<[rse_OutputIndex evt := completed_arguments evt]> g))
      by (by apply (Agree_args st c a g)).
    destruct (completed_arguments evt =?s sb_buf (bfc_Args b)) eqn:Ee.
    + bool_hyps. rewrite Ee in *. exists c. split; [done|].
      assert (Hst : rc_OutputIndexToArguments st !! rse_OutputIndex evt =
                    Some (sb_buf (bfc_Args b))).
      { revert Hr. destruct (rc_OutputIndexToArguments st !! _); simpl; [congruence|].
        intros Hr. by rewrite <- Hr in E0. }
      assert (Hcl : <[k := MkClientCall (bfc_CallID b) (bfc_Name b) (sb_buf (bfc_Args b))]>
                      (cl_calls c) = cl_calls c).
      { apply list_insert_id. rewrite (ag_calls _ _ _ _ HA), list_lookup_fmap, Hb. done. }
      rewrite Hcl, (insert_id (rc_OutputIndexToArguments st)) in HAg by done.
      by destruct c, st.
    + simpl. rewrite Hc. cbn [mbind option_bind]. eexists; split; [done|]. by rewrite Happ.
  - destruct (Hunk _ Ek) as [Hn _]. rewrite Hn in Hg.
    exists c. split; [done|]. simplify_eq.
    destruct (_ =?s ""); by simplify_eq.
Qed.

Lemma tracks_added evt :
  rse_Type evt = "response.output_item.added" ->
  tracks (resToChatHandleOutputItemAdded evt) evt.
Proof.
  intros Ht st c a g g' a' HA Hg Ha. unfold calls_step, ProcessEvent in *.
  rewrite Ht in *. simpl in *. unfold resToChatHandleOutputItemAdded.
  destruct (rse_Item evt) as [item|]; [|by simplify_eq; exists c].
  destruct (is_call_item item); [|by simplify_eq; exists c].
  destruct (g !! rse_OutputIndex evt) eqn:Eg; [done|]. simplify_eq.
  cbn [negb fst snd]. rewrite accepts_single, client_delta. simpl.
  rewrite (ag_next _ _ _ _ HA).
  replace (length (bra_funcCalls a)) with (length (cl_calls c))
    by (by rewrite (ag_calls _ _ _ _ HA), length_map).
  rewrite client_announce. simpl. eexists; split; [done|].
  replace (length (cl_calls c)) with (length (bra_funcCalls a))
    by (by rewrite (ag_calls _ _ _ _ HA), length_map).
  rewrite <- (ag_next _ _ _ _ HA). by apply Agree_announce.
Qed.

Lemma tracks_event evt : tracks (ResponsesEventToChatChunks evt) evt.
Proof.
  intros st c a g g' a' HA Hg Ha. unfold ResponsesEventToChatChunks.
  destruct (rse_Type evt =?s "response.output_text.delta") eqn:E2.
  { bool_hyps. unfold calls_step, ProcessEvent in *. rewrite E2 in *. simpl in *. simplify_eq.
    unfold resToChatHandleTextDelta. destruct (_ =?s "") eqn:Ed; cbn [negb fst snd]; [by exists c|].
     rewrite accepts_single, client_delta. simpl. eexists; split; [done|].
    by apply Agree_text, (Agree_state st). }
  destruct (rse_Type evt =?s "response.output_item.added") eqn:E3.
  { bool_hyps. rewrite E3. by apply (tracks_added evt E3 st c a g). }
  destruct (is_args_delta_type (rse_Type evt)) eqn:E4.
  { pose proof E4 as E. type_cases E; rewrite E; by apply (tracks_args_delta evt E4 st c a g). }
  destruct (is_args_done_type (rse_Type evt)) eqn:E5.
  { pose proof E5 as E. type_cases E; rewrite E; by apply (tracks_args_done evt E5 st c a g). }
  assert (g' = g) as -> by (unfold calls_step in Hg; rewrite E3, E4, E5 in Hg; by simplify_eq).
  unfold ProcessEvent in Ha. rewrite E2, E3, E4, E5 in Ha.
  destruct (is_reasoning_delta_type (rse_Type evt)) eqn:E6.
  { pose proof E6 as E. type_cases E; rewrite E; simpl; unfold resToChatHandleReasoningDelta;
      (destruct (_ =?s "") eqn:Ed; cbn [negb fst snd] in *; simplify_eq; [by exists c|]);
      rewrite accepts_single, client_delta; simpl; (eexists; split; [done|]);
      by apply Agree_reasoning. }
  simplify_eq.
  assert (Hquiet : forall f, (forall st c, accepts client_step c (f st).2 = Some c) ->
    (forall st, rc_NextToolCallIndex (f st).1 = rc_NextToolCallIndex st /\
       rc_OutputIndexToToolIndex (f st).1 = rc_OutputIndexToToolIndex st /\
       rc_OutputIndexToArguments (f st).1 = rc_OutputIndexToArguments st) ->
    exists c', accepts client_step c (f st).2 = Some c' /\ Agree (f st).1 c' a' g).
  { intros f H1 H2. exists c. split; [apply H1|].
    destruct (H2 st) as (? & ? & ?). by apply (Agree_state st). }
  destruct (_ =?s "response.created").
  { apply (Hquiet (resToChatHandleCreated evt)).
    - intros s k. unfold resToChatHandleCreated.
      destruct (rc_SentRole _); [done|]. cbn [fst snd]. rewrite accepts_single, client_delta.
      simpl. rewrite !str_app_nil_r. by destruct k.
    - intros s. unfold resToChatHandleCreated. repeat case_match; by simplify_eq/=. }
  destruct (_ =?s "response.reasoning_summary_text.done"); [by exists c|].
  destruct (is_terminal_type _); [|by exists c].
  apply (Hquiet (resToChatHandleCompleted evt)).
  - intros s k. unfold resToChatHandleCompleted. apply closing_client.
  - intros s. unfold resToChatHandleCompleted. by repeat case_match.
Qed.

Lemma tracks_run evts st c a g g' a' :
  Agree st c a g -> accepts calls_step g evts = Some g' ->
  accepts (fun a e => ProcessEvent growslice e a) a evts = Some a' ->
  exists c', accepts client_step c (run evts st).2 = Some c' /\ Agree (run evts st).1 c' a' g'.
Proof.
  revert st c a g; induction evts as [|evt evts IH]; intros st c a g HA Hg Ha; simpl in *.
  { simplify_eq. by exists c. }
  destruct (calls_step g evt) as [g1|] eqn:Eg; [|done].
  destruct (ProcessEvent growslice evt a) as [a1|] eqn:Ea; [|done]. simpl in *.
  destruct (tracks_event evt st c a g g1 a1 HA Eg Ea) as (c1 & Hc1 & HA1).
  destruct (ResponsesEventToChatChunks evt st) as [s1 o1]. simpl in *.
  destruct (IH s1 c1 a1 g1 HA1 Hg Ha) as (c2 & Hc2 & HA2).
  destruct (run evts s1) as [s2 o2]. simpl in *. exists c2. by rewrite accepts_app, Hc1.
Qed.
End Buffered.

(** What a client reads from a finished chat completion. *)
Definition message_call (t : ChatToolCall) : ClientCall :=
  MkClientCall (ctc_ID t) (cfc_Name (ctc_Function t)) (cfc_Arguments (ctc_Function t)).
Definition message_shows (c : Client) (m : ChatMessage) : Prop :=
  cm_Content m = (if cl_text c =?s "" then "" else json_quote (cl_text c)) /\
  cm_ReasoningContent m = cl_reasoning c /\
  map message_call (cm_ToolCalls m) = cl_calls c.

Lemma foldl_str_app {A} (f : A -> string) l acc :
  foldl (fun acc i => acc +:+ f i) acc l = acc +:+ str_concat (map f l).
Proof.
  revert acc; induction l as [|x l IH]; intros acc; simpl; [by rewrite str_app_nil_r|].
  by rewrite IH, str_app_assoc.
Qed.

Lemma str_concat_blank {A} (f : A -> string) l :
  (forall x, f x = "") -> str_concat (map f l) = "".
Proof. intros Hf. induction l; simpl; [done|]. by rewrite Hf. Qed.

Lemma BuildOutput_text a : str_concat (map item_text (BuildOutput a)) = bra_text a.
Proof.
  unfold BuildOutput. rewrite !map_app, !str_concat_app, map_map,
    (str_concat_blank _ (bra_funcCalls a)) by done.
  rewrite str_app_nil_r. destruct (bra_reasoning a =?s ""); simpl;
    destruct (bra_text a =?s "") eqn:E; simpl; try (by bool_hyps);
    unfold item_text; simpl; rewrite E; simpl; by rewrite str_app_nil_r.
Qed.

Lemma BuildOutput_reasoning a :
  str_concat (map item_reasoning (BuildOutput a)) = bra_reasoning a.
Proof.
  unfold BuildOutput. rewrite !map_app, !str_concat_app, map_map,
    (str_concat_blank _ (bra_funcCalls a)) by done.
  rewrite str_app_nil_r.
  destruct (bra_text a =?s ""); simpl;
    destruct (bra_reasoning a =?s "") eqn:E; simpl; try (by bool_hyps);
    unfold item_reasoning, text_message, summary_text; simpl; rewrite ?E; simpl;
    by rewrite ?str_app_nil_r.
Qed.

Lemma BuildOutput_calls a :
  map message_call (flat_map item_tool_calls (BuildOutput a)) =
    map buffered_call (bra_funcCalls a).
Proof.
  assert (Hc : map message_call (flat_map item_tool_calls (map call_item (bra_funcCalls a))) =
               map buffered_call (bra_funcCalls a)).
  { induction (bra_funcCalls a) as [|b l IH]; [done|]. simpl. by rewrite <- IH. }
  unfold BuildOutput. rewrite !flat_map_app, !map_app, Hc.
  by destruct (bra_reasoning a =?s ""), (bra_text a =?s "").
Qed.

Lemma BuildOutput_shows fresh now c a r model :
  cl_text c = bra_text a -> cl_reasoning c = bra_reasoning a ->
  cl_calls c = map buffered_call (bra_funcCalls a) ->
  exists ch, ccr_Choices (ResponsesToChatCompletions fresh now
      (r <| rr_Output := BuildOutput a |>) model) = [ch] /\ message_shows c (cc_Message ch).
Proof.
  intros Ht Hr Hc. unfold ResponsesToChatCompletions. simpl. eexists; split; [done|].
  rewrite !foldl_str_app, BuildOutput_text, BuildOutput_reasoning. simpl.
  unfold message_shows. rewrite Ht, Hr, Hc, <- BuildOutput_calls.
  destruct (bra_text a =?s ""), (bra_reasoning a =?s "") eqn:E; simpl;
    bool_hyps; rewrite ?E; done.
Qed.

(** C6. The streamed answer and the buffered one are the same: for an upstream that
    announces each call once and whose finished arguments extend the fragments sent
    for them, the text, the reasoning and the tool calls (ids, names, arguments)
    that a client assembles from the stream are those of the chat completion built
    from the accumulator when the terminal response has an empty output array. *)
Theorem stream_equals_buffered growslice fresh now evts g a r model :
  accepts calls_step ∅ evts = Some g ->
  accumulate growslice evts = Some a ->
  rr_Output r = [] -> HasContent a = true ->
  exists c r' ch,
    accepts client_step client0
      (stream evts (NewResponsesEventToChatState fresh now)).2 = Some c /\
    SupplementResponseOutput a (Some r) = Some r' /\
    ccr_Choices (ResponsesToChatCompletions fresh now r' model) = [ch] /\
    message_shows c (cc_Message ch).
Proof.
  intros Hg Ha Hr Hcont.
  destruct (tracks_run growslice evts (NewResponsesEventToChatState fresh now) client0
    NewBufferedResponseAccumulator ∅ g a) as (c & Hc & [Ht Hs Hcalls _ _ _ _ _]); auto.
  { split; try done; intros oi; simpl; by rewrite ?lookup_empty. }
  destruct (BuildOutput_shows fresh now c a r model Ht Hs Hcalls) as (ch & Hch & Hm).
  exists c, (r <| rr_Output := BuildOutput a |>), ch. split_and!; try done.
  - unfold stream. destruct (run evts _) as [s1 o1]. simpl in *.
    unfold FinalizeResponsesChatStream. destruct (rc_Finalized s1); cbn [snd].
    + by rewrite app_nil_r.
    + rewrite accepts_app, Hc. apply closing_client.
  - unfold SupplementResponseOutput. by rewrite Hr, Hcont.
Qed.

Definition sample_calls : list ResponsesStreamEvent :=
  let ev t := zero_ResponsesStreamEvent <| rse_Type := t |> in
  let call id := zero_ResponsesOutput <| ro_Type := "function_call" |> <| ro_CallID := id |>
                   <| ro_Name := "f" |> in
  [ (ev "response.created");
    (ev "response.reasoning_summary_text.delta") <| rse_Delta := "hm" |>;
    (ev "response.output_item.added") <| rse_Item := Some (call "a") |>;
    (ev "response.function_call_arguments.delta") <| rse_Delta := "{1" |>;
    (ev "response.function_call_arguments.done") <| rse_Arguments := "{1}" |>;
    (ev "response.output_item.added") <| rse_Item := Some (call "b") |>
      <| rse_OutputIndex := 1 |>;
    (ev "response.function_call_arguments.delta") <| rse_Delta := "{}" |>
      <| rse_OutputIndex := 1 |>;
    (ev "response.output_text.delta") <| rse_Delta := "ok" |>;
    (ev "response.completed") ].

Lemma stream_equals_buffered_witness :
  exists g a, accepts calls_step ∅ sample_calls = Some g /\
    accumulate (fun n => n + 1)%nat sample_calls = Some a /\
    exists c r' ch,
      accepts client_step client0
        (stream sample_calls (NewResponsesEventToChatState "x" 0)).2 = Some c /\
      SupplementResponseOutput a (Some zero_ResponsesResponse) = Some r' /\
      ccr_Choices (ResponsesToChatCompletions "x" 0 r' "m") = [ch] /\
      message_shows c (cc_Message ch).
Proof.
  eexists (_ : gmap Z string), (_ : BufferedResponseAccumulator).
  split; [vm_compute; reflexivity|]. split; [vm_compute; reflexivity|].
  eapply (stream_equals_buffered (fun n => n + 1)%nat "x" 0 sample_calls);
    vm_compute; reflexivity.
Defined.

(** ** The accumulator does not panic on sequential calls *)

Section Sequential.
Context (growslice : nat -> nat).

(** Argument fragments belong to the call announced last. *)
Definition seq_step (cur : option Z) (evt : ResponsesStreamEvent) : option (option Z) :=
  let t := rse_Type evt in
  if t =?s "response.output_item.added" then
    match rse_Item evt with
    | Some item => Some (if is_call_item item then Some (rse_OutputIndex evt) else cur)
    | None => Some cur
    end
  else if is_args_delta_type t then
    if (rse_Delta evt =?s "") || bool_decide (cur = Some (rse_OutputIndex evt))
    then Some cur else None
  else Some cur.

(** The last call was first written, if at all, in the current backing array. *)
Record Writable (cur : option Z) (a : BufferedResponseAccumulator) : Prop := {
  wr_known : forall oi k, bra_outputIndexToFuncIdx a !! oi = Some k ->
    (k < length (bra_funcCalls a))%nat;
  wr_last : forall oi k b, cur = Some oi -> bra_outputIndexToFuncIdx a !! oi = Some k ->
    bra_funcCalls a !! k = Some b ->
    sb_addr (bfc_Args b) = None \/ sb_addr (bfc_Args b) = Some (bra_array a);
}.

Lemma on_args_writable cur a k b f bs :
  Writable cur a -> bra_funcCalls a !! k = Some b -> f (bfc_Args b) = Some bs ->
  sb_addr bs = Some (bra_array a) ->
  exists a', on_args k f a = Some a' /\ Writable cur a'.
Proof.
  intros [Hk Hl] Hb Hf Hs. unfold on_args. rewrite Hb. simpl. rewrite Hf. simpl.
  eexists; split; [done|]. split; simpl.
  - intros oi k'. rewrite length_insert. apply Hk.
  - intros oi k' b' Hc Hk'. destruct (decide (k' = k)) as [->|Hne].
    + rewrite list_lookup_insert_eq by (by eapply lookup_lt_Some). intros [= <-]. by right.
    + rewrite list_lookup_insert_ne by done. by eapply Hl.
Qed.

Lemma append_call_writable cur oi b a :
  Writable cur a -> bfc_Args b = MkBuilder None "" ->
  Writable (Some oi) (append_call growslice b
    (a <| bra_outputIndexToFuncIdx :=
         <[oi := length (bra_funcCalls a)]> (bra_outputIndexToFuncIdx a) |>)).
Proof.
  intros [Hk Hl] Hb. unfold append_call; simpl.
  destruct (Nat.ltb _ _); (split; simpl;
    [ intros oi' k; rewrite length_app, lookup_insert_Some; simpl;
      intros [[_ <-]|[_ Hi]]; [lia|]; specialize (Hk oi' k Hi); lia
    | intros oi' k b' [= <-]; rewrite lookup_insert_eq; intros [= <-];
      rewrite lookup_app_r, Nat.sub_diag by lia; intros [= <-]; rewrite Hb; by left ]).
Qed.

Lemma seq_ProcessEvent cur cur' a evt :
  Writable cur a -> seq_step cur evt = Some cur' ->
  exists a', ProcessEvent growslice evt a = Some a' /\ Writable cur' a'.
Proof.
  intros HW Hs. pose proof HW as [Hk Hl]. unfold ProcessEvent, seq_step in *.
  destruct (rse_Type evt =?s "response.output_text.delta") eqn:E1.
  { bool_hyps. rewrite E1 in Hs. simpl in Hs. simplify_eq. eexists; split; [done|].
    by destruct (_ =?s ""). }
  destruct (rse_Type evt =?s "response.output_item.added").
  { destruct (rse_Item evt) as [item|]; [|simplify_eq; by eexists].
    destruct (is_call_item item); simplify_eq; [|by eexists].
    eexists; split; [done|]. by apply append_call_writable with cur. }
  destruct (is_args_delta_type (rse_Type evt)).
  { destruct (rse_Delta evt =?s ""); simpl in Hs; [simplify_eq; by eexists|].
    case_bool_decide as Hcur; [|done]. simplify_eq.
    destruct (_ !! rse_OutputIndex evt) as [k|] eqn:Ek; [|by eexists].
    destruct (lookup_lt_is_Some_2 _ _ (Hk _ _ Ek)) as [b Hb].
    destruct (Hl _ k b eq_refl Ek Hb) as [Ha|Ha];
      (eapply on_args_writable; [done|done|unfold WriteString; by rewrite Ha, ?Nat.eqb_refl|done]). }
  simplify_eq. destruct (is_args_done_type (rse_Type evt)).
  { destruct (_ =?s ""); [by eexists|].
    destruct (_ !! rse_OutputIndex evt) as [k|] eqn:Ek; [|by eexists].
    destruct (lookup_lt_is_Some_2 _ _ (Hk _ _ Ek)) as [b Hb].
    by eapply on_args_writable. }
  destruct (is_reasoning_delta_type _); (eexists; split; [done|]); [|done].
  by destruct (rse_Delta evt =?s "").
Qed.
End Sequential.

(** The accumulator never panics on a stream whose argument fragments each
    belong to the call announced last, whatever growth policy [append] follows. *)
Theorem accumulate_sequential growslice evts cur :
  accepts seq_step None evts = Some cur -> is_Some (accumulate growslice evts).
Proof.
  unfold accumulate. assert (HW : Writable None NewBufferedResponseAccumulator)
    by (split; [intros oi k; simpl; by rewrite lookup_empty|done]).
  revert HW. generalize NewBufferedResponseAccumulator as a. generalize (@None Z) as c.
  induction evts as [|evt evts IH]; intros c a HW Hs; [by eexists|]. simpl in *.
  destruct (seq_step c evt) as [c'|] eqn:Ec; [|done].
  destruct (seq_ProcessEvent growslice c c' a evt HW Ec) as (a' & -> & HW'). simpl in *.
  by apply (IH c' a').
Qed.

Lemma accumulate_sequential_witness :
  accepts seq_step None sample_calls = Some (Some 1) /\
  is_Some (accumulate (fun n => n + 1)%nat sample_calls).
Proof.
  split; [vm_compute; reflexivity|].
  apply (accumulate_sequential (fun n => n + 1)%nat sample_calls (Some 1)).
  vm_compute; reflexivity.
Defined.

(** Two calls whose fragments interleave: the second fragment of the first call is
    written to a builder that the append for the second call has moved. *)
Definition interleaved_calls : list ResponsesStreamEvent :=
  let ev t := zero_ResponsesStreamEvent <| rse_Type := t |> in
  let call id := zero_ResponsesOutput <| ro_Type := "function_call" |> <| ro_CallID := id |> in
  [ (ev "response.output_item.added") <| rse_Item := Some (call "a") |>;
    (ev "response.function_call_arguments.delta") <| rse_Delta := "{" |>;
    (ev "response.output_item.added") <| rse_Item := Some (call "b") |>
      <| rse_OutputIndex := 1 |>;
    (ev "response.function_call_arguments.delta") <| rse_Delta := "}" |> ].

(** The panic needs no special growth policy: growing a full slice of one element
    always moves it. *)
Lemma interleaved_calls_panic growslice :
  (growslice 0 = 1)%nat -> accumulate growslice interleaved_calls = None.
Proof.
  intros H. vm_compute. rewrite H.
  reflexivity.
Qed.

(** ** Closing chunks *)

Definition is_finish (c : ChatCompletionsChunk) : bool :=
  existsb (fun ch => match ccc_FinishReason ch with Some _ => true | None => false end)
    (chk_Choices c).
Definition finish_count (l : list ChatCompletionsChunk) : nat := length (List.filter is_finish l).
Definition terminal_count (l : list ResponsesStreamEvent) : nat :=
  length (List.filter (fun e => is_terminal_type (rse_Type e)) l).

Lemma finish_count_app l1 l2 : finish_count (l1 ++ l2) = (finish_count l1 + finish_count l2)%nat.
Proof. unfold finish_count. by rewrite List.filter_app, length_app. Qed.

Lemma closing_finish st r : finish_count (closing_chunks st r) = 1%nat.
Proof. unfold closing_chunks. by destruct (rc_Usage st); [destruct (rc_IncludeUsage st)|]. Qed.

Lemma step_finish evt st :
  let terminal := is_terminal_type (rse_Type evt) in
  finish_count (ResponsesEventToChatChunks evt st).2 = (if terminal then 1 else 0)%nat /\
  rc_Finalized (ResponsesEventToChatChunks evt st).1 = rc_Finalized st || terminal.
Proof.
  simpl. destruct (is_terminal_type (rse_Type evt)) eqn:Et.
  - unfold ResponsesEventToChatChunks. pose proof Et as E. rewrite orb_true_r.
    type_cases E; rewrite E; simpl; unfold resToChatHandleCompleted; rewrite closing_finish;
      (split; [done|]); by repeat case_match.
  - rewrite orb_false_r. unfold ResponsesEventToChatChunks. rewrite Et.
    unfold resToChatHandleCreated, resToChatHandleTextDelta, resToChatHandleOutputItemAdded,
      resToChatHandleFuncArgsDelta, resToChatHandleFuncArgsDone, resToChatHandleReasoningDelta.
    repeat case_match; simplify_eq/=; done.
Qed.

Lemma run_finish (evts : list ResponsesStreamEvent) st :
  finish_count (run evts st).2 = terminal_count evts /\
  rc_Finalized (run evts st).1 = rc_Finalized st || Nat.ltb 0 (terminal_count evts).
Proof.
  revert st; induction evts as [|evt evts IH]; intros st; simpl; [by rewrite orb_false_r|].
  destruct (step_finish evt st) as [H1 H2].
  destruct (ResponsesEventToChatChunks evt st) as [s1 o1]. destruct (IH s1) as [H3 H4].
  destruct (run evts s1) as [s2 o2]. simpl in *. rewrite finish_count_app, H1, H3, H4, H2.
  unfold terminal_count; simpl. destruct (is_terminal_type (rse_Type evt)); simpl.
  - by rewrite !orb_true_r.
  - by rewrite orb_false_r.
Qed.

(** Every stream is closed: the number of finish chunks is the number of
    terminal events the upstream sent, or one - sent by the finalizer - when it
    sent none; after a terminal event the finalizer sends nothing. *)
Theorem chat_stream_closes fresh now evts :
  finish_count (stream evts (NewResponsesEventToChatState fresh now)).2 =
    Nat.max 1 (terminal_count evts) /\
  let st := (run evts (NewResponsesEventToChatState fresh now)).1 in
  (FinalizeResponsesChatStream st).2 =
    if Nat.ltb 0 (terminal_count evts) then []
    else closing_chunks (st <| rc_Finalized := true |>)
           (if rc_SawToolCall st then "tool_calls" else "stop").
Proof.
  set (st0 := NewResponsesEventToChatState fresh now). cbv zeta. unfold stream.
  destruct (run_finish evts st0) as [H1 H2]. destruct (run evts st0) as [st o].
  cbn [fst snd conv_finalize responses_to_chat] in *. change (rc_Finalized st0) with false in H2.
  rewrite orb_false_l in H2. unfold FinalizeResponsesChatStream. rewrite H2.
  destruct (Nat.ltb_spec 0 (terminal_count evts)); cbn [snd]; (split; [|done]);
    rewrite finish_count_app, H1; [change (finish_count []) with 0%nat|rewrite closing_finish];
    lia.
Qed.
