(* ===== verification/AnthropicToResponses.v ===== *)
(** * Anthropic Messages to OpenAI Responses

    [src/backend/internal/pkg/apicompat/anthropic_to_responses_response.go]: the
    non-streaming conversion of a finished message and the stateful converter of a
    stream.  The random item ids are a sequence [itemIDs] drawn in order; whether a
    model's thinking signatures are preserved ([claude.IsOpus55] or
    [claude.IsSonnet55] of its name) is the function [signed_model]. *)

From S2P Require Import Prelude Json Apicompat.
Local Open Scope string_scope.
Local Open Scope Z_scope.
Local Open Scope list_scope.
Local Open Scope go_scope.

(** ** base64.RawStdEncoding.EncodeToString *)

Definition base64_char (n : N) : Ascii.ascii :=
  default (Ascii.ascii_of_nat 61)
    (String.get (N.to_nat n)
       "ABCDEFGHIJKLMNOPQRSTUVWXYZabcdefghijklmnopqrstuvwxyz0123456789+/").

(** The character of the 6 bits of [n] above the lowest [shift] ones. *)
Definition base64_digit (n shift : N) : string :=
  String (base64_char (N.land (N.shiftr n shift) 63)) "".
Definition byte_N (c : Ascii.ascii) : N := Ascii.N_of_ascii c.

(** Three bytes give four characters; a rest of one or two gives two or three. *)
Fixpoint base64_raw (s : string) : string :=
  match s with
  | EmptyString => ""
  | String a EmptyString =>
      let n := (byte_N a * 2 ^ 4)%N in
      base64_digit n 6 +:+ base64_digit n 0
  | String a (String b EmptyString) =>
      let n := (byte_N a * 2 ^ 10 + byte_N b * 2 ^ 2)%N in
      base64_digit n 12 +:+ base64_digit n 6 +:+ base64_digit n 0
  | String a (String b (String c rest)) =>
      let n := (byte_N a * 2 ^ 16 + byte_N b * 2 ^ 8 + byte_N c)%N in
      base64_digit n 18 +:+ base64_digit n 12 +:+ base64_digit n 6 +:+
      base64_digit n 0 +:+ base64_raw rest
  end.

Definition anthropicThinkingEnvelopePrefix : string := "anthropic-thinking-v1:".

Definition encodeAnthropicThinking (block : AnthropicContentBlock) : string :=
  let payload := marshal_string_map
    ([("type", acb_Type block); ("thinking", acb_Thinking block)] ++
     (if acb_Signature block =?s "" then [] else [("signature", acb_Signature block)]) ++
     (if acb_Data block =?s "" then [] else [("data", acb_Data block)])) in
  anthropicThinkingEnvelopePrefix +:+ base64_raw payload.

(** ** Shared pieces *)

Definition toResponsesCallID (id : string) : string := id.

Definition AnthropicStopReasonString (p : option string) : string := default "" p.

Definition anthropicStopReasonToResponsesStatus (stopReason : string)
    (blocks : list AnthropicContentBlock) : string :=
  if stopReason =?s "max_tokens" then "incomplete" else "completed".

Definition anthropicResponsesStreamTerminalState (stopReason : string) :
    string * option ResponsesIncompleteDetails :=
  if stopReason =?s "max_tokens"
  then ("incomplete", Some (zero_ResponsesIncompleteDetails <| rid_Reason := "max_output_tokens" |>))
  else ("completed", None).

(** The Responses usage of Anthropic's four counters: the cached tokens are added
    back to the input. *)
Definition responses_usage (input output cacheRead cacheCreation : Z) : ResponsesUsage :=
  let totalInputTokens := int_add (int_add input cacheRead) cacheCreation in
  let usage := zero_ResponsesUsage
    <| ru_InputTokens := totalInputTokens |>
    <| ru_OutputTokens := output |>
    <| ru_TotalTokens := int_add totalInputTokens output |>
    <| ru_CacheCreationInputTokens := cacheCreation |> in
  if 0 <? cacheRead
  then usage <| ru_InputTokensDetails :=
         Some (zero_ResponsesInputTokensDetails <| ritd_CachedTokens := cacheRead |>) |>
  else usage.

Definition output_text_part (text : string) : ResponsesContentPart :=
  zero_ResponsesContentPart <| rcp_Type := "output_text" |> <| rcp_Text := text |>.

(** A completed assistant message item. *)
Definition message_item (id : string) (parts : list ResponsesContentPart) : ResponsesOutput :=
  zero_ResponsesOutput
    <| ro_Type := "message" |> <| ro_ID := id |> <| ro_Role := "assistant" |>
    <| ro_Status := "completed" |> <| ro_Content := parts |>.
Definition summary_part (text : string) : ResponsesSummary :=
  zero_ResponsesSummary <| rsum_Type := "summary_text" |> <| rsum_Text := text |>.

Section Convert.
Context (itemIDs : nat -> string) (signed_model : string -> bool).

(** ** Non-streaming conversion *)

(** The loop over the content blocks: the items appended so far, the text parts
    collected so far and the number of ids drawn. *)
Definition convert_block (model : string) (block : AnthropicContentBlock)
    (acc : list ResponsesOutput * list ResponsesContentPart * nat) :
    list ResponsesOutput * list ResponsesContentPart * nat :=
  let '(outputs, msgParts, ids) := acc in
  let t := acb_Type block in
  if (t =?s "thinking") || (t =?s "redacted_thinking") then
    if signed_model model && (negb (acb_Signature block =?s "") || negb (acb_Data block =?s ""))
    then
      let item := zero_ResponsesOutput
        <| ro_Type := "reasoning" |> <| ro_ID := itemIDs ids |>
        <| ro_EncryptedContent := encodeAnthropicThinking block |> in
      let item := if negb (acb_Thinking block =?s "")
                  then item <| ro_Summary := [summary_part (acb_Thinking block)] |> else item in
      (outputs ++ [item], msgParts, S ids)
    else if negb (acb_Thinking block =?s "") then
      (outputs ++ [zero_ResponsesOutput
         <| ro_Type := "reasoning" |> <| ro_ID := itemIDs ids |>
         <| ro_Summary := [summary_part (acb_Thinking block)] |>], msgParts, S ids)
    else acc
  else if t =?s "text" then
    if signed_model model && negb (acb_Text block =?s "") then
      (outputs ++ [message_item (itemIDs ids) [output_text_part (acb_Text block)]],
       msgParts, S ids)
    else if negb (acb_Text block =?s "") then
      (outputs, msgParts ++ [output_text_part (acb_Text block)], ids)
    else acc
  else if t =?s "tool_use" then
    (outputs ++ [zero_ResponsesOutput
       <| ro_Type := "function_call" |> <| ro_ID := itemIDs ids |>
       <| ro_CallID := toResponsesCallID (acb_ID block) |>
       <| ro_Name := acb_Name block |>
       <| ro_Arguments := if acb_Input block =?s "" then "{}" else acb_Input block |>
       <| ro_Status := "completed" |>], msgParts, S ids)
  else acc.

Definition response_outputs (resp : AnthropicResponse) : list ResponsesOutput :=
  let '(outputs, msgParts, ids) :=
    foldl (fun acc b => convert_block (ar_Model resp) b acc) ([], [], 0%nat) (ar_Content resp) in
  let '(outputs, ids) :=
    match msgParts with
    | [] => (outputs, ids)
    | _ => (outputs ++ [message_item (itemIDs ids) msgParts], S ids)
    end in
  match outputs with
  | [] => [message_item (itemIDs ids) [output_text_part ""]]
  | _ => outputs
  end.

(** [fresh] is what [generateResponsesID] returns, [now] [time.Now().Unix()]. *)
Definition AnthropicToResponsesResponse (fresh : string) (now : Z) (resp : AnthropicResponse) :
    ResponsesResponse :=
  let status := anthropicStopReasonToResponsesStatus
    (AnthropicStopReasonString (ar_StopReason resp)) (ar_Content resp) in
  let u := ar_Usage resp in
  zero_ResponsesResponse
    <| rr_ID := if ar_ID resp =?s "" then fresh else ar_ID resp |>
    <| rr_Object := "response" |>
    <| rr_CreatedAt := now |>
    <| rr_Model := ar_Model resp |>
    <| rr_Output := response_outputs resp |>
    <| rr_Status := status |>
    <| rr_IncompleteDetails :=
         if status =?s "incomplete"
         then Some (zero_ResponsesIncompleteDetails <| rid_Reason := "max_output_tokens" |>)
         else None |>
    <| rr_Usage := Some (responses_usage (au_InputTokens u) (au_OutputTokens u)
         (au_CacheReadInputTokens u) (au_CacheCreationInputTokens u)) |>.
End Convert.

(** ** Stream state *)

(** [as_IDs] counts the random item ids drawn. *)
Record AnthropicEventToResponsesState := MkASState {
  as_ResponseID : string;
  as_Model : string;
  as_Created : Z;
  as_SequenceNumber : Z;
  as_CreatedSent : bool;
  as_CompletedSent : bool;
  as_OutputIndex : Z;
  as_CurrentItemID : string;
  as_CurrentItemType : string;
  as_ContentIndex : Z;
  as_TextAccum : string;
  as_CurrentCallID : string;
  as_CurrentName : string;
  as_CurrentContent : list ResponsesContentPart;
  as_CurrentArgs : string;
  as_CurrentSummary : string;
  as_CurrentThinking : AnthropicContentBlock;
  as_PreserveThinkingSignatures : bool;
  as_PendingToolInput : string;
  as_Outputs : list ResponsesOutput;
  as_InputTokens : Z;
  as_OutputTokens : Z;
  as_CacheReadInputTokens : Z;
  as_CacheCreationInputTokens : Z;
  as_StopReason : string;
  as_IDs : nat;
}.
#[export] Instance eta_ASState : Eta AnthropicEventToResponsesState := fun r =>
  MkASState (as_ResponseID r) (as_Model r) (as_Created r) (as_SequenceNumber r)
    (as_CreatedSent r) (as_CompletedSent r) (as_OutputIndex r) (as_CurrentItemID r)
    (as_CurrentItemType r) (as_ContentIndex r) (as_TextAccum r) (as_CurrentCallID r)
    (as_CurrentName r) (as_CurrentContent r) (as_CurrentArgs r) (as_CurrentSummary r)
    (as_CurrentThinking r) (as_PreserveThinkingSignatures r) (as_PendingToolInput r)
    (as_Outputs r) (as_InputTokens r) (as_OutputTokens r) (as_CacheReadInputTokens r)
    (as_CacheCreationInputTokens r) (as_StopReason r) (as_IDs r).

Definition NewAnthropicEventToResponsesState (now : Z) : AnthropicEventToResponsesState :=
  MkASState "" "" now 0 false false 0 "" "" 0 "" "" "" [] "" "" zero_AnthropicContentBlock
    false "" [] 0 0 0 0 "" 0.

Local Abbreviation State := AnthropicEventToResponsesState.
Local Abbreviation Events := (list ResponsesStreamEvent).

(** ** Event construction *)

Definition makeResponsesEvent (eventType : string) (template : State -> ResponsesStreamEvent)
    (st : State) : State * Events :=
  (st <| as_SequenceNumber := as_SequenceNumber st + 1 |>,
   [(template st) <| rse_Type := eventType |> <| rse_SequenceNumber := as_SequenceNumber st |>]).

Definition makeResponsesCreatedEvent (st : State) : State * Events :=
  (st <| as_SequenceNumber := as_SequenceNumber st + 1 |>,
   [zero_ResponsesStreamEvent
      <| rse_Type := "response.created" |>
      <| rse_SequenceNumber := as_SequenceNumber st |>
      <| rse_Response := Some (zero_ResponsesResponse
           <| rr_ID := as_ResponseID st |>
           <| rr_Object := "response" |>
           <| rr_CreatedAt := as_Created st |>
           <| rr_Model := as_Model st |>
           <| rr_Status := "in_progress" |>
           <| rr_Output := [] |>) |>]).

Definition makeResponsesCompletedEvent (status : string)
    (incompleteDetails : option ResponsesIncompleteDetails) (st : State) : State * Events :=
  (st <| as_SequenceNumber := as_SequenceNumber st + 1 |>,
   [zero_ResponsesStreamEvent
      <| rse_Type := if status =?s "incomplete" then "response.incomplete"
                     else "response.completed" |>
      <| rse_SequenceNumber := as_SequenceNumber st |>
      <| rse_Response := Some (zero_ResponsesResponse
           <| rr_ID := as_ResponseID st |>
           <| rr_Object := "response" |>
           <| rr_CreatedAt := as_Created st |>
           <| rr_Model := as_Model st |>
           <| rr_Status := status |>
           <| rr_Output := as_Outputs st |>
           <| rr_Usage := Some (responses_usage (as_InputTokens st) (as_OutputTokens st)
                (as_CacheReadInputTokens st) (as_CacheCreationInputTokens st)) |>
           <| rr_IncompleteDetails := incompleteDetails |>) |>]).

(** ** Handlers *)

(** [seedToolArguments]: an empty payload is no seed. *)
Definition seedToolArguments (input : string) : string :=
  let trimmed := TrimSpace input in
  if (trimmed =?s "") || (trimmed =?s "{}") || (trimmed =?s "null") then "" else trimmed.

(** The finished item of the open one. *)
Definition current_item (st : State) : ResponsesOutput :=
  let item := zero_ResponsesOutput
    <| ro_Type := as_CurrentItemType st |>
    <| ro_ID := as_CurrentItemID st |>
    <| ro_Status := "completed" |> in
  if as_CurrentItemType st =?s "message" then
    item <| ro_Role := "assistant" |> <| ro_Content := as_CurrentContent st |>
  else if as_CurrentItemType st =?s "function_call" then
    item <| ro_CallID := as_CurrentCallID st |>
         <| ro_Name := as_CurrentName st |>
         <| ro_Arguments := if as_CurrentArgs st =?s "" then "{}" else as_CurrentArgs st |>
  else if as_CurrentItemType st =?s "reasoning" then
    let item :=
      if as_PreserveThinkingSignatures st &&
         (negb (acb_Signature (as_CurrentThinking st) =?s "") ||
          negb (acb_Data (as_CurrentThinking st) =?s ""))
      then item <| ro_EncryptedContent := encodeAnthropicThinking
             ((as_CurrentThinking st) <| acb_Thinking := as_CurrentSummary st |>) |>
      else item in
    if negb (as_CurrentSummary st =?s "")
    then item <| ro_Summary := [summary_part (as_CurrentSummary st)] |> else item
  else item.

Definition closeCurrentResponsesItem (st : State) : State * Events :=
  if as_CurrentItemType st =?s "" then (st, [])
  else
    let item := current_item st in
    let st := st
      <| as_Outputs := as_Outputs st ++ [item] |>
      <| as_CurrentItemType := "" |>
      <| as_CurrentItemID := "" |>
      <| as_CurrentCallID := "" |>
      <| as_CurrentName := "" |>
      <| as_CurrentContent := [] |>
      <| as_CurrentArgs := "" |>
      <| as_PendingToolInput := "" |>
      <| as_CurrentSummary := "" |>
      <| as_CurrentThinking := zero_AnthropicContentBlock |>
      <| as_TextAccum := "" |>
      <| as_OutputIndex := as_OutputIndex st + 1 |>
      <| as_ContentIndex := 0 |> in
    makeResponsesEvent "response.output_item.done" (fun st =>
      zero_ResponsesStreamEvent
        <| rse_OutputIndex := as_OutputIndex st - 1 |> <| rse_Item := Some item |>) st.

Section Stream.
Context (itemIDs : nat -> string) (signed_model : string -> bool).

(** Start an item of type [t]: draw its id. *)
Definition start_item (t : string) (st : State) : State :=
  st <| as_CurrentItemID := itemIDs (as_IDs st) |> <| as_IDs := S (as_IDs st) |>
     <| as_CurrentItemType := t |>.

(** A counter follows an update only when it is positive. *)
Definition keep_positive (new old : Z) : Z := if 0 <? new then new else old.

Definition anthToResHandleMessageStart (evt : AnthropicStreamEvent) (st : State) :
    State * Events :=
  let st :=
    match ase_Message evt with
    | Some m =>
        let u := ar_Usage m in
        st <| as_ResponseID := ar_ID m |>
           <| as_PreserveThinkingSignatures :=
                as_PreserveThinkingSignatures st || signed_model (ar_Model m) |>
           <| as_Model := if as_Model st =?s "" then ar_Model m else as_Model st |>
           <| as_InputTokens := keep_positive (au_InputTokens u) (as_InputTokens st) |>
           <| as_CacheReadInputTokens :=
                keep_positive (au_CacheReadInputTokens u) (as_CacheReadInputTokens st) |>
           <| as_CacheCreationInputTokens :=
                keep_positive (au_CacheCreationInputTokens u) (as_CacheCreationInputTokens st) |>
    | None => st
    end in
  if as_CreatedSent st then (st, [])
  else makeResponsesCreatedEvent (st <| as_CreatedSent := true |>).

Definition open_reasoning (block : AnthropicContentBlock) (st : State) : State * Events :=
  makeResponsesEvent "response.output_item.added" (fun st =>
      zero_ResponsesStreamEvent
        <| rse_OutputIndex := as_OutputIndex st |>
        <| rse_Item := Some (zero_ResponsesOutput
             <| ro_Type := "reasoning" |> <| ro_ID := as_CurrentItemID st |>) |>)
    ((start_item "reasoning" st)
       <| as_CurrentThinking := block |>
       <| as_CurrentSummary := acb_Thinking block |>
       <| as_ContentIndex := 0 |>).

Definition open_message (st : State) : State * Events :=
  makeResponsesEvent "response.output_item.added" (fun st =>
      zero_ResponsesStreamEvent
        <| rse_OutputIndex := as_OutputIndex st |>
        <| rse_Item := Some (zero_ResponsesOutput
             <| ro_Type := "message" |> <| ro_ID := as_CurrentItemID st |>
             <| ro_Role := "assistant" |> <| ro_Status := "in_progress" |>) |>)
    ((start_item "message" st) <| as_ContentIndex := 0 |>).

Definition add_text_part (st : State) : State * Events :=
  let '(st, events) :=
    makeResponsesEvent "response.content_part.added" (fun st =>
      zero_ResponsesStreamEvent
        <| rse_OutputIndex := as_OutputIndex st |>
        <| rse_ContentIndex := as_ContentIndex st |>
        <| rse_ItemID := as_CurrentItemID st |>
        <| rse_Part := Some (output_text_part "") |>) st in
  (st <| as_TextAccum := "" |>, events).

Definition open_call (block : AnthropicContentBlock) (st : State) : State * Events :=
  makeResponsesEvent "response.output_item.added" (fun st =>
      zero_ResponsesStreamEvent
        <| rse_OutputIndex := as_OutputIndex st |>
        <| rse_Item := Some (zero_ResponsesOutput
             <| ro_Type := "function_call" |> <| ro_ID := as_CurrentItemID st |>
             <| ro_CallID := as_CurrentCallID st |> <| ro_Name := as_CurrentName st |>
             <| ro_Status := "in_progress" |>) |>)
    ((start_item "function_call" st)
       <| as_CurrentCallID := toResponsesCallID (acb_ID block) |>
       <| as_CurrentName := acb_Name block |>
       <| as_PendingToolInput := seedToolArguments (acb_Input block) |>).

Definition anthToResHandleContentBlockStart (evt : AnthropicStreamEvent) (st : State) :
    State * Events :=
  match ase_ContentBlock evt with
  | None => (st, [])
  | Some block =>
      let t := acb_Type block in
      if (t =?s "thinking") || (t =?s "redacted_thinking") then
        (closeCurrentResponsesItem ;>> open_reasoning block) st
      else if t =?s "text" then
        if as_CurrentItemType st =?s "message" then add_text_part st
        else (closeCurrentResponsesItem ;>> open_message ;>> add_text_part) st
      else if t =?s "tool_use" then
        (closeCurrentResponsesItem ;>> open_call block) st
      else (st, [])
  end.

(** The delta event of a function call's arguments. *)
Definition arguments_delta (s : string) : State -> State * Events :=
  makeResponsesEvent "response.function_call_arguments.delta" (fun st =>
    zero_ResponsesStreamEvent
      <| rse_OutputIndex := as_OutputIndex st |>
      <| rse_Delta := s |>
      <| rse_ItemID := as_CurrentItemID st |>
      <| rse_CallID := as_CurrentCallID st |>
      <| rse_Name := as_CurrentName st |>).

Definition anthToResHandleContentBlockDelta (evt : AnthropicStreamEvent) (st : State) :
    State * Events :=
  match ase_Delta evt with
  | None => (st, [])
  | Some d =>
      let t := ad_Type d in
      if t =?s "text_delta" then
        if ad_Text d =?s "" then (st, [])
        else
          makeResponsesEvent "response.output_text.delta" (fun st =>
              zero_ResponsesStreamEvent
                <| rse_OutputIndex := as_OutputIndex st |>
                <| rse_ContentIndex := as_ContentIndex st |>
                <| rse_Delta := ad_Text d |>
                <| rse_ItemID := as_CurrentItemID st |>)
            (st <| as_TextAccum := as_TextAccum st +:+ ad_Text d |>)
      else if t =?s "thinking_delta" then
        if ad_Thinking d =?s "" then (st, [])
        else
          makeResponsesEvent "response.reasoning_summary_text.delta" (fun st =>
              zero_ResponsesStreamEvent
                <| rse_OutputIndex := as_OutputIndex st |>
                <| rse_SummaryIndex := 0 |>
                <| rse_Delta := ad_Thinking d |>
                <| rse_ItemID := as_CurrentItemID st |>)
            (st <| as_CurrentSummary := as_CurrentSummary st +:+ ad_Thinking d |>)
      else if t =?s "input_json_delta" then
        if ad_PartialJSON d =?s "" then (st, [])
        else arguments_delta (ad_PartialJSON d)
               (st <| as_PendingToolInput := "" |>
                   <| as_CurrentArgs := as_CurrentArgs st +:+ ad_PartialJSON d |>)
      else if t =?s "signature_delta" then
        (if as_PreserveThinkingSignatures st
         then st <| as_CurrentThinking := (as_CurrentThinking st)
                <| acb_Signature := acb_Signature (as_CurrentThinking st) +:+ ad_Signature d |> |>
         else st, [])
      else (st, [])
  end.

Definition summary_done : State -> State * Events :=
  makeResponsesEvent "response.reasoning_summary_text.done" (fun st =>
    zero_ResponsesStreamEvent
      <| rse_OutputIndex := as_OutputIndex st |>
      <| rse_SummaryIndex := 0 |>
      <| rse_ItemID := as_CurrentItemID st |>).

(** Arguments that only came with the block's start become one delta. *)
Definition flush_pending_input (st : State) : State * Events :=
  let '(st, events) :=
    if (as_CurrentArgs st =?s "") && negb (as_PendingToolInput st =?s "") then
      arguments_delta (as_PendingToolInput st)
        (st <| as_CurrentArgs := as_PendingToolInput st |>)
    else (st, []) in
  (st <| as_PendingToolInput := "" |>, events).

Definition arguments_done : State -> State * Events :=
  makeResponsesEvent "response.function_call_arguments.done" (fun st =>
    zero_ResponsesStreamEvent
      <| rse_OutputIndex := as_OutputIndex st |>
      <| rse_ItemID := as_CurrentItemID st |>
      <| rse_CallID := as_CurrentCallID st |>
      <| rse_Name := as_CurrentName st |>
      <| rse_Arguments := as_CurrentArgs st |>).

(** The text part at [contentIndex] is done; the item stays open. *)
Definition finish_text_part (st : State) : State * Events :=
  let text := as_TextAccum st in
  let contentIndex := as_ContentIndex st in
  let template (st : State) := zero_ResponsesStreamEvent
    <| rse_OutputIndex := as_OutputIndex st |>
    <| rse_ContentIndex := contentIndex |>
    <| rse_ItemID := as_CurrentItemID st |> in
  (makeResponsesEvent "response.output_text.done" (fun st =>
     (template st) <| rse_Text := text |>) ;>>
   makeResponsesEvent "response.content_part.done" (fun st =>
     (template st) <| rse_Part := Some (output_text_part text) |>))
  (st <| as_TextAccum := "" |>
      <| as_CurrentContent := as_CurrentContent st ++ [output_text_part text] |>
      <| as_ContentIndex := as_ContentIndex st + 1 |>).

Definition anthToResHandleContentBlockStop (evt : AnthropicStreamEvent) (st : State) :
    State * Events :=
  let t := as_CurrentItemType st in
  if t =?s "reasoning" then (summary_done ;>> closeCurrentResponsesItem) st
  else if t =?s "function_call" then
    (flush_pending_input ;>> arguments_done ;>> closeCurrentResponsesItem) st
  else if t =?s "message" then finish_text_part st
  else (st, []).

Definition anthToResHandleMessageDelta (evt : AnthropicStreamEvent) (st : State) :
    State * Events :=
  let st :=
    match ase_Usage evt with
    | Some u =>
        st <| as_OutputTokens := au_OutputTokens u |>
           <| as_InputTokens := keep_positive (au_InputTokens u) (as_InputTokens st) |>
           <| as_CacheReadInputTokens :=
                keep_positive (au_CacheReadInputTokens u) (as_CacheReadInputTokens st) |>
           <| as_CacheCreationInputTokens :=
                keep_positive (au_CacheCreationInputTokens u) (as_CacheCreationInputTokens st) |>
    | None => st
    end in
  match ase_Delta evt with
  | Some d => if negb (ad_StopReason d =?s "")
              then (st <| as_StopReason := ad_StopReason d |>, []) else (st, [])
  | None => (st, [])
  end.

(** Close the open item and send the terminal event. *)
Definition complete (st : State) : State * Events :=
  (closeCurrentResponsesItem ;>>
   (fun st =>
      let '(status, incompleteDetails) :=
        anthropicResponsesStreamTerminalState (as_StopReason st) in
      makeResponsesCompletedEvent status incompleteDetails st) ;>>
   (fun st => (st <| as_CompletedSent := true |>, []))) st.

Definition anthToResHandleMessageStop (st : State) : State * Events :=
  if as_CompletedSent st then (st, []) else complete st.

Definition AnthropicEventToResponsesEvents (evt : AnthropicStreamEvent) (st : State) :
    State * Events :=
  let t := ase_Type evt in
  if t =?s "message_start" then anthToResHandleMessageStart evt st
  else if t =?s "content_block_start" then anthToResHandleContentBlockStart evt st
  else if t =?s "content_block_delta" then anthToResHandleContentBlockDelta evt st
  else if t =?s "content_block_stop" then anthToResHandleContentBlockStop evt st
  else if t =?s "message_delta" then anthToResHandleMessageDelta evt st
  else if t =?s "message_stop" then anthToResHandleMessageStop st
  else (st, []).

Definition FinalizeAnthropicResponsesStream (st : State) : State * Events :=
  if negb (as_CreatedSent st) || as_CompletedSent st then (st, []) else complete st.

#[export] Instance anthropic_to_responses :
    Converter AnthropicEventToResponsesState AnthropicStreamEvent ResponsesStreamEvent := {
  conv_step := AnthropicEventToResponsesEvents;
  conv_finalize := FinalizeAnthropicResponsesStream;
}.
End Stream.
