(* ===== verification/ResponsesToAnthropicRequest.v ===== *)
(** * OpenAI Responses requests to Anthropic Messages requests

    [src/backend/internal/pkg/apicompat/responses_to_anthropic_request.go], one
    Definition per Go function.  A function that returns an error returns the sum of
    [convert_error] and its result; [content, _ := json.Marshal(...)] is [or_nil]. *)

From S2P Require Import Prelude Json JsonCodec GoStrings ModelNames ToolSchema Apicompat RequestCodec AnthropicToResponses.
From Stdlib Require Import SpecFloat.
Local Open Scope string_scope.
Local Open Scope nat_scope.
Local Open Scope list_scope.
Local Open Scope go_scope.

(** ** Errors

    One type for the request converters of all directions; [ErrDecode] is an error of
    [encoding/json] handed on as it is. *)

Inductive convert_error :=
| ErrParseInput
| ErrThinkingEnvelope
| ErrThinkingBlock
| ErrUnsignedThinking
| ErrMarshal
| ErrToolChoice
| ErrForcedToolChoice (model : string)
| ErrTemperature
| ErrTopP
| ErrEffort (model effort : string)
| ErrReasoningEffort
| ErrDecode
| ErrContent
| ErrFunctionCall
| ErrDuplicateTool (name : string)
| ErrToolSearchConflict
| ErrNamespaceTopLevel (namespace name flat : string)
| ErrNamespaceConflict (namespace name namespace' name' flat : string)
| ErrDiscoveredTool (name : string).
Abbreviation result A := (convert_error + A)%type.
#[export] Instance result_bind : MBind (sum convert_error) := fun A B f r =>
  match r with inl e => inl e | inr a => f a end.
Definition ok_or {A} (e : convert_error) (o : option A) : result A :=
  match o with Some a => inr a | None => inl e end.

(** ** base64.RawStdEncoding.DecodeString

    Line ends are skipped, padding is an error, the unused bits of the last digit are
    ignored. *)
Definition base64_value (c : Ascii.ascii) : option N :=
  let n := N.of_nat (code c) in
  if in_range 65 90 (code c) then Some (n - 65)%N
  else if in_range 97 122 (code c) then Some (n - 71)%N
  else if in_range 48 57 (code c) then Some (n + 4)%N
  else if code c =? 43 then Some 62%N
  else if code c =? 47 then Some 63%N
  else None.
Definition byte_of (n : N) : Ascii.ascii := Ascii.ascii_of_N n.
Fixpoint base64_groups (l : list Ascii.ascii) : option string :=
  match l with
  | [] => Some ""
  | [_] => None
  | [a; b] =>
      a ← base64_value a; b ← base64_value b;
      Some (String (byte_of (a * 4 + b / 16)) "")
  | [a; b; c] =>
      a ← base64_value a; b ← base64_value b; c ← base64_value c;
      Some (String (byte_of (a * 4 + b / 16)) (String (byte_of (b mod 16 * 16 + c / 4)) ""))
  | a :: b :: c :: d :: l =>
      a ← base64_value a; b ← base64_value b; c ← base64_value c; d ← base64_value d;
      rest ← base64_groups l;
      Some (String (byte_of (a * 4 + b / 16)) (String (byte_of (b mod 16 * 16 + c / 4))
             (String (byte_of (c mod 4 * 64 + d)) rest)))
  end%N.
Definition base64_decode (s : string) : option string :=
  base64_groups (List.filter (fun c => negb (is_c 10 c || is_c 13 c)) (String.list_ascii_of_string s)).

(** ** Content *)

(** "If it's a string, wraps it in a text block." *)
Definition parseContentBlocks (raw : string) : list AnthropicContentBlock :=
  match unmarshal_blocks raw with
  | Some blocks => blocks
  | None =>
      match unmarshal_string raw with
      | Some s => [zero_AnthropicContentBlock <| acb_Type := "text" |> <| acb_Text := s |>]
      | None => []
      end
  end.

Definition empty_json_string : string := json_quote "".

Definition anthropicContentIsEmpty (content : string) : bool :=
  one_of [""; "null"; empty_json_string; "[]"] (TrimSpace content).

Definition anthropicContentIsOnlyBlankText (content : string) : bool :=
  match parseContentBlocks content with
  | [] => false
  | blocks => forallb (fun b => (acb_Type b =?s "text") && (TrimSpace (acb_Text b) =?s "")) blocks
  end.

(** The text parts of a message, for system and developer roles. *)
Definition extractTextFromContent (raw : string) : string :=
  if raw =?s "" then "" else
  match unmarshal_string raw with
  | Some s => s
  | None =>
      match unmarshal_parts raw with
      | Some parts =>
          Join (map rcp_Text (List.filter (fun p =>
            one_of ["input_text"; "output_text"; "text"] (rcp_Type p)
            && negb (rcp_Text p =?s "")) parts)) (bytes_str [10; 10])
      | None => ""
      end
  end.

Definition semicolon : Ascii.ascii := Ascii.ascii_of_nat 59.

(** "Format: data:<media_type>;base64,<data>" *)
Definition dataURIToAnthropicImageSource (dataURI : string) : option AnthropicImageSource :=
  match CutPrefix dataURI "data:" with
  | None => None
  | Some rest =>
      match IndexByte rest semicolon with
      | None => None
      | Some i =>
          match CutPrefix (str_drop (S i) rest) "base64," with
          | None => None
          | Some data => Some (MkAnthropicImageSource "base64" (str_take i rest) data)
          end
      end
  end.
Definition dataURIToAnthropicFileSource (fileData : string) : option AnthropicImageSource :=
  dataURIToAnthropicImageSource fileData.

Definition text_block (text : string) : AnthropicContentBlock :=
  zero_AnthropicContentBlock <| acb_Type := "text" |> <| acb_Text := text |>.
Definition source_block (type : string) (src : option AnthropicImageSource) :
    list AnthropicContentBlock :=
  match src with
  | Some s => [zero_AnthropicContentBlock <| acb_Type := type |> <| acb_Source := Some s |>]
  | None => []
  end.

Definition user_part_blocks (p : ResponsesContentPart) : list AnthropicContentBlock :=
  if one_of ["input_text"; "text"] (rcp_Type p) then
    if rcp_Text p =?s "" then [] else [text_block (rcp_Text p)]
  else if rcp_Type p =?s "input_image" then
    source_block "image" (dataURIToAnthropicImageSource (rcp_ImageURL p))
  else if rcp_Type p =?s "input_file" then
    source_block "document" (dataURIToAnthropicFileSource (rcp_FileData p))
  else [].

Definition convertResponsesUserToAnthropicContent (raw : string) : result string :=
  if raw =?s "" then inr empty_json_string else
  match unmarshal_string raw with
  | Some s => inr (json_quote s)
  | None =>
      match unmarshal_parts raw with
      | None => inr raw
      | Some parts =>
          match List.concat (map user_part_blocks parts) with
          | [] => inr empty_json_string
          | blocks => ok_or ErrMarshal (marshal_blocks blocks)
          end
      end
  end.

Definition assistant_part_blocks (p : ResponsesContentPart) : list AnthropicContentBlock :=
  if one_of ["output_text"; "text"] (rcp_Type p) then
    if rcp_Text p =?s "" then [] else [text_block (rcp_Text p)]
  else [].

Definition convertResponsesAssistantToAnthropicContent (raw : string) : result string :=
  if raw =?s "" then ok_or ErrMarshal (marshal_blocks [text_block ""]) else
  match unmarshal_string raw with
  | Some s => ok_or ErrMarshal (marshal_blocks [text_block s])
  | None =>
      match unmarshal_parts raw with
      | None => inr raw
      | Some parts =>
          let blocks := match List.concat (map assistant_part_blocks parts) with
                        | [] => [text_block ""]
                        | blocks => blocks
                        end in
          ok_or ErrMarshal (marshal_blocks blocks)
      end
  end.

Definition fromResponsesCallIDToAnthropic (id : string) : string :=
  let known s := HasPrefix s "toolu_" || HasPrefix s "call_" in
  let synthetic := if known id then id else "toolu_" +:+ id in
  match CutPrefix id "fc_" with
  | Some after => if known after then after else synthetic
  | None => synthetic
  end.

Definition output_part_blocks (p : ResponsesContentPart) : list AnthropicContentBlock :=
  if one_of ["input_text"; "output_text"; "text"] (rcp_Type p) then
    if rcp_Text p =?s "" then [] else [text_block (rcp_Text p)]
  else if rcp_Type p =?s "input_image" then
    source_block "image" (dataURIToAnthropicImageSource (rcp_ImageURL p))
  else [].

Definition responsesFunctionOutputToAnthropicContent (item : ResponsesInputItem) : string :=
  if rii_outputRaw item =?s "" then
    json_quote (if rii_Output item =?s "" then "(empty)" else rii_Output item)
  else
    match unmarshal_parts (rii_outputRaw item) with
    | Some parts =>
        match List.concat (map output_part_blocks parts) with
        | [] => match parts with
                | [] => json_quote "(empty)"
                | _ => json_quote (rii_Output item)
                end
        | blocks => or_nil (marshal_blocks blocks)
        end
    | None => json_quote (rii_Output item)
    end.

(** ** Message sequences *)

Definition anthropicMessageFromBlocks (role : string) (blocks : list AnthropicContentBlock) :
    AnthropicMessage :=
  MkAnthropicMessage role (or_nil (marshal_blocks blocks)).

(** Whether [parseContentBlocks] returns the nil slice. *)
Definition parses_nil (raw : string) : bool :=
  match unmarshal_blocks raw, unmarshal_string raw with
  | Some _, _ => match json_shape raw with Some SNull => true | _ => false end
  | None, Some _ => false
  | None, None => true
  end.
(** [json.Marshal(append(lastBlocks, newBlocks...))]: appending nothing to nil is nil. *)
Definition merge_contents (last new : string) : string :=
  match (parseContentBlocks last ++ parseContentBlocks new)%list with
  | [] => if parses_nil last then "null" else "[]"
  | combined => or_nil (marshal_blocks combined)
  end.

(** The loop of [mergeConsecutiveMessages], with the last merged message separate. *)
Fixpoint merge_loop (last : AnthropicMessage) (messages : list AnthropicMessage) :
    list AnthropicMessage :=
  match messages with
  | [] => [last]
  | msg :: messages =>
      if am_Role last =?s am_Role msg
      then merge_loop (last <| am_Content := merge_contents (am_Content last) (am_Content msg) |>)
             messages
      else last :: merge_loop msg messages
  end.
Definition mergeConsecutiveMessages (messages : list AnthropicMessage) : list AnthropicMessage :=
  match messages with
  | [] => []
  | msg :: messages => merge_loop msg messages
  end.

Definition is_type (type : string) (b : AnthropicContentBlock) : bool := acb_Type b =?s type.

(** The [tool_result] of every call id, the last one where an id has several. *)
Definition index_results (messages : list AnthropicMessage) : gmap string AnthropicContentBlock :=
  fold_left (fun results m =>
    if am_Role m =?s "user" then
      fold_left (fun results b =>
        if is_type "tool_result" b && negb (acb_ToolUseID b =?s "")
        then <[acb_ToolUseID b := b]> results else results) (parseContentBlocks (am_Content m)) results
    else results) messages ∅.

Definition normalize_message (results : gmap string AnthropicContentBlock) (m : AnthropicMessage) :
    list AnthropicMessage :=
  let blocks := parseContentBlocks (am_Content m) in
  if am_Role m =?s "assistant" then
    let toolUses := List.filter (is_type "tool_use") blocks in
    let others := List.filter (fun b => negb (is_type "tool_use" b)) blocks in
    match toolUses with
    | [] => [m]
    | _ =>
        let kept := List.filter (fun tu => match results !! acb_ID tu with
                                           | Some _ => true | None => false end) toolUses in
        match kept with
        | [] => match others with
                | [] => []
                | _ => [anthropicMessageFromBlocks "assistant" others]
                end
        | _ => [anthropicMessageFromBlocks "assistant" (others ++ kept);
                anthropicMessageFromBlocks "user"
                  (map (fun tu => default zero_AnthropicContentBlock (results !! acb_ID tu)) kept)]
        end
    end
  else if am_Role m =?s "user" then
    if existsb (is_type "tool_result") blocks then
      match List.filter (fun b => negb (is_type "tool_result" b)) blocks with
      | [] => []
      | nonResult => [anthropicMessageFromBlocks "user" nonResult]
      end
    else [m]
  else [m].
Definition normalizeAnthropicToolPairing (messages : list AnthropicMessage) : list AnthropicMessage :=
  List.concat (map (normalize_message (index_results messages)) messages).

(** ** The input of a request *)

(** What the loop over the items accumulates. *)
Record conversion := MkConversion {
  cv_systemParts : list string;
  cv_messages : list AnthropicMessage;
}.
#[export] Instance eta_conversion : Eta conversion := fun r =>
  MkConversion (cv_systemParts r) (cv_messages r).

Definition add_message (role content : string) (st : conversion) : conversion :=
  st <| cv_messages := cv_messages st ++ [MkAnthropicMessage role content] |>.

Definition tool_use_block (item : ResponsesInputItem) : AnthropicContentBlock :=
  zero_AnthropicContentBlock
    <| acb_Type := "tool_use" |>
    <| acb_ID := fromResponsesCallIDToAnthropic (rii_CallID item) |>
    <| acb_Name := rii_Name item |>
    <| acb_Input := if rii_Arguments item =?s "" then "{}" else rii_Arguments item |>.
Definition tool_result_block (item : ResponsesInputItem) : AnthropicContentBlock :=
  zero_AnthropicContentBlock
    <| acb_Type := "tool_result" |>
    <| acb_ToolUseID := fromResponsesCallIDToAnthropic (rii_CallID item) |>
    <| acb_Content := responsesFunctionOutputToAnthropicContent item |>.

Definition signed_thinking (b : AnthropicContentBlock) : bool :=
  negb ((negb (acb_Type b =?s "thinking") || (acb_Signature b =?s ""))
        && (negb (acb_Type b =?s "redacted_thinking") || (acb_Data b =?s ""))).

(** The block of a marked bridge envelope. *)
Definition decode_thinking_envelope (encrypted : string) : result AnthropicContentBlock :=
  raw ← ok_or ErrThinkingEnvelope
          (base64_decode (TrimPrefix encrypted anthropicThinkingEnvelopePrefix));
  block ← ok_or ErrThinkingBlock (dec_AnthropicContentBlock raw zero_AnthropicContentBlock);
  if signed_thinking block then inr block else inl ErrUnsignedThinking.

Definition convert_user_item (item : ResponsesInputItem) (st : conversion) : result conversion :=
  content ← convertResponsesUserToAnthropicContent (rii_Content item);
  if anthropicContentIsEmpty content then inr st else inr (add_message "user" content st).

(** The body of the loop over the items, in the order of the cases. *)
Definition convert_item (preserveThinking : bool) (item : ResponsesInputItem) (st : conversion) :
    result conversion :=
  if one_of ["system"; "developer"] (rii_Role item) then
    let text := extractTextFromContent (rii_Content item) in
    inr (if text =?s "" then st else st <| cv_systemParts := cv_systemParts st ++ [text] |>)
  else if rii_Type item =?s "function_call" then
    inr (add_message "assistant" (or_nil (marshal_blocks [tool_use_block item])) st)
  else if rii_Type item =?s "function_call_output" then
    inr (add_message "user" (or_nil (marshal_blocks [tool_result_block item])) st)
  else if rii_Type item =?s "reasoning" then
    if preserveThinking && HasPrefix (rii_EncryptedContent item) anthropicThinkingEnvelopePrefix then
      block ← decode_thinking_envelope (rii_EncryptedContent item);
      content ← ok_or ErrMarshal (marshal_blocks [block]);
      inr (add_message "assistant" content st)
    else inr st
  else if rii_Role item =?s "user" then convert_user_item item st
  else if rii_Role item =?s "assistant" then
    content ← convertResponsesAssistantToAnthropicContent (rii_Content item);
    if anthropicContentIsEmpty content || anthropicContentIsOnlyBlankText content
    then inr st else inr (add_message "assistant" content st)
  else if rii_Content item =?s "" then inr st
  else convert_user_item item st.

Fixpoint convert_items (preserveThinking : bool) (items : list ResponsesInputItem) (st : conversion) :
    result conversion :=
  match items with
  | [] => inr st
  | item :: items => st ← convert_item preserveThinking item st; convert_items preserveThinking items st
  end.

Definition repair_messages (messages : list AnthropicMessage) : list AnthropicMessage :=
  mergeConsecutiveMessages (normalizeAnthropicToolPairing (mergeConsecutiveMessages messages)).

Definition blank_line : string := bytes_str [10; 10].
(** The system prompt, nil without parts. *)
Definition system_json (systemParts : list string) : string :=
  match systemParts with [] => "" | _ => json_quote (Join systemParts blank_line) end.

Definition convertResponsesInputToAnthropic (instructions inputRaw : string) (preserveThinking : bool) :
    result (string * list AnthropicMessage) :=
  let systemParts := if TrimSpace instructions =?s "" then [] else [TrimSpace instructions] in
  match unmarshal_string inputRaw with
  | Some inputStr =>
      inr (system_json systemParts, [MkAnthropicMessage "user" (json_quote inputStr)])
  | None =>
      items ← ok_or ErrParseInput (unmarshal_items inputRaw);
      st ← convert_items preserveThinking items (MkConversion systemParts []);
      inr (system_json (cv_systemParts st), repair_messages (cv_messages st))
  end.

(** ** Tools *)

Definition convertResponsesToAnthropicTools (tools : list ResponsesTool) : list AnthropicTool :=
  map (fun t =>
    if one_of ["web_search"; "google_search"; "web_search_20250305"] (rt_Type t) then
      zero_AnthropicTool <| at_Type := "web_search_20250305" |> <| at_Name := "web_search" |>
    else
      let tool := zero_AnthropicTool
        <| at_Name := rt_Name t |>
        <| at_Description := rt_Description t |>
        <| at_InputSchema := normalizeAnthropicInputSchema (rt_Parameters t) |> in
      if one_of ["function"; "custom"] (rt_Type t) then tool
      else tool <| at_Type := rt_Type t |>) tools.

(** The struct a [tool_choice] object is decoded into: type, name and the name of
    [function]. *)
Definition tool_choice_fields : fields (string * string * string) :=
  [("type", field (fun c => c.1.1) (fun v c => (v, c.1.2, c.2)) d_string);
   ("name", field (fun c => c.1.2) (fun v c => (c.1.1, v, c.2)) d_string);
   ("function", field snd (fun v c => (c.1, v)) (d_struct [("name", d_string)]))].

Definition type_only (type : string) : string := marshal_string_map [("type", type)].

Definition convertResponsesToAnthropicToolChoice (raw : string) : string :=
  match unmarshal_string raw with
  | Some s =>
      if s =?s "auto" then type_only "auto"
      else if s =?s "required" then type_only "any"
      else if s =?s "none" then type_only "none"
      else raw
  | None =>
      match d_struct tool_choice_fields raw ("", "", "") with
      | Some (type, name, function_name) =>
          if type =?s "function" then
            let name := TrimSpace name in
            let name := if name =?s "" then TrimSpace function_name else name in
            if name =?s "" then raw
            else marshal_string_map [("name", name); ("type", "tool")]
          else raw
      | None => raw
      end
  end.

(** ** The request *)

Definition defaultThinkingBudget (effort : string) : Z :=
  if effort =?s "low" then 1024
  else if effort =?s "medium" then 4096
  else if effort =?s "high" then 10240
  else if effort =?s "max" then 32768
  else 10240.

Definition mapResponsesEffortToAnthropic (effort : string) : string :=
  if effort =?s "xhigh" then "max" else effort.

(** 1 and the [float64] nearest to 0.99. *)
Definition float_one : float64 := S754_finite false 4503599627370496 (-52).
Definition float_099 : float64 := S754_finite false 8917127262193582 (-53).

Section Request.
Context `{U : Unicode}.

(** The checks and settings of the 5.5 models, once the rest is converted. *)
Definition finish_55 (req : ResponsesRequest) (out : AnthropicRequest) : result AnthropicRequest :=
  let isSonnet55 := IsSonnet55 (rreq_Model req) in
  choice_type ←
    (if areq_ToolChoice out =?s "" then inr ""
     else ok_or ErrToolChoice (d_struct [("type", d_string)] (areq_ToolChoice out) ""));
  if one_of ["any"; "tool"] choice_type then inl (ErrForcedToolChoice (rreq_Model req)) else
  if isSonnet55 && match rreq_Temperature req with
                   | Some t => negb (SFeqb t float_one) | None => false end
  then inl ErrTemperature else
  if isSonnet55 && match rreq_TopP req with
                   | Some p => SFltb p float_099 || SFltb float_one p | None => false end
  then inl ErrTopP else
  let effort := if isSonnet55 then "high" else "medium" in
  let effort := match rreq_Reasoning req with
                | Some r => if rre_Effort r =?s "" then effort else rre_Effort r
                | None => effort
                end in
  if isSonnet55 && (effort =?s "none") then
    inr (out <| areq_Thinking := Some (MkAnthropicThinking "between_tools" 0) |>
             <| areq_OutputConfig := Some (MkAnthropicOutputConfig "low") |>)
  else if one_of ["low"; "medium"; "high"; "xhigh"; "max"] effort then
    inr (out <| areq_Thinking := Some (MkAnthropicThinking "adaptive" 0) |>
             <| areq_OutputConfig := Some (MkAnthropicOutputConfig effort) |>)
  else inl (ErrEffort (rreq_Model req) effort).

Definition ResponsesToAnthropicRequest (req : ResponsesRequest) : result AnthropicRequest :=
  let is55 := IsOpus55 (rreq_Model req) || IsSonnet55 (rreq_Model req) in
  '(system, messages) ←
    convertResponsesInputToAnthropic (rreq_Instructions req) (rreq_Input req) is55;
  let out := zero_AnthropicRequest
    <| areq_Model := rreq_Model req |>
    <| areq_Messages := messages |>
    <| areq_Temperature := rreq_Temperature req |>
    <| areq_TopP := rreq_TopP req |>
    <| areq_Stream := rreq_Stream req |>
    <| areq_System := system |>
    <| areq_MaxTokens := match rreq_MaxOutputTokens req with
                         | Some n => if (0 <? n)%Z then n else 8192%Z
                         | None => 8192%Z
                         end |>
    <| areq_Tools := convertResponsesToAnthropicTools (rreq_Tools req) |>
    <| areq_ToolChoice := if rreq_ToolChoice req =?s "" then ""
                          else convertResponsesToAnthropicToolChoice (rreq_ToolChoice req) |> in
  if is55 then finish_55 req out else
  inr match rreq_Reasoning req with
      | Some r =>
          if rre_Effort r =?s "" then out else
          let effort := mapResponsesEffortToAnthropic (rre_Effort r) in
          let out := out <| areq_OutputConfig := Some (MkAnthropicOutputConfig effort) |> in
          if effort =?s "low" then out
          else out <| areq_Thinking :=
                 Some (MkAnthropicThinking "enabled" (defaultThinkingBudget effort)) |>
      | None => out
      end.
End Request.
