(* ===== verification/AnthropicToResponsesRequest.v ===== *)
(** * Anthropic Messages requests to OpenAI Responses requests

    [src/backend/internal/pkg/apicompat/anthropic_to_responses.go], one Definition per
    Go function. *)

From S2P Require Import Prelude Json JsonCodec GoStrings ModelNames ToolSchema Apicompat RequestCodec AnthropicToResponses ResponsesToAnthropicRequest.
Local Open Scope string_scope.
Local Open Scope nat_scope.
Local Open Scope list_scope.
Local Open Scope go_scope.

(** ** Content *)

Definition text_part (type text : string) : ResponsesContentPart :=
  zero_ResponsesContentPart <| rcp_Type := type |> <| rcp_Text := text |>.
Definition image_part (uri : string) : ResponsesContentPart :=
  zero_ResponsesContentPart <| rcp_Type := "input_image" |> <| rcp_ImageURL := uri |>.
Definition message_input (role content : string) : ResponsesInputItem :=
  zero_ResponsesInputItem <| rii_Type := "message" |> <| rii_Role := role |>
    <| rii_Content := content |>.

Definition isAnthropicBillingHeaderText (text : string) : bool :=
  HasPrefix text "x-anthropic-billing-header: ".

Definition parseAnthropicSystemContentParts (raw : string) : result (list ResponsesContentPart) :=
  match unmarshal_string raw with
  | Some s => inr (if isAnthropicBillingHeaderText s || (s =?s "") then [] else [text_part "input_text" s])
  | None =>
      blocks ← ok_or ErrDecode (unmarshal_blocks raw);
      inr (map (fun b => text_part "input_text" (acb_Text b))
             (List.filter (fun b => is_type "text" b && negb (acb_Text b =?s "")
                                    && negb (isAnthropicBillingHeaderText (acb_Text b))) blocks))
  end.

Definition anthropicImageToDataURI (src : option AnthropicImageSource) : string :=
  match src with
  | None => ""
  | Some s =>
      if ais_Data s =?s "" then ""
      else "data:" +:+ (if ais_MediaType s =?s "" then "image/png" else ais_MediaType s)
           +:+ ";base64," +:+ ais_Data s
  end.
Definition image_parts (b : AnthropicContentBlock) : list ResponsesContentPart :=
  let uri := anthropicImageToDataURI (acb_Source b) in if uri =?s "" then [] else [image_part uri].

Definition extractAnthropicTextFromBlocks (blocks : list AnthropicContentBlock) : string :=
  Join (map acb_Text (List.filter (fun b => is_type "text" b && negb (acb_Text b =?s "")) blocks))
    blank_line.

(** The text of a tool result and its images. *)
Definition convertToolResultOutput (b : AnthropicContentBlock) : string * list ResponsesContentPart :=
  if acb_Content b =?s "" then ("(empty)", []) else
  match unmarshal_string (acb_Content b) with
  | Some s => (if s =?s "" then "(empty)" else s, [])
  | None =>
      match unmarshal_blocks (acb_Content b) with
      | None => ("(empty)", [])
      | Some inner =>
          let text := extractAnthropicTextFromBlocks inner in
          (if text =?s "" then "(empty)" else text,
           List.concat (map image_parts (List.filter (is_type "image") inner)))
      end
  end.

Definition output_input (b : AnthropicContentBlock) : ResponsesInputItem :=
  zero_ResponsesInputItem <| rii_Type := "function_call_output" |>
    <| rii_CallID := toResponsesCallID (acb_ToolUseID b) |>
    <| rii_Output := (convertToolResultOutput b).1 |>.

Definition user_parts (b : AnthropicContentBlock) : list ResponsesContentPart :=
  if is_type "text" b then if acb_Text b =?s "" then [] else [text_part "input_text" (acb_Text b)]
  else if is_type "image" b then image_parts b
  else [].

Definition anthropicUserToResponses (raw : string) : result (list ResponsesInputItem) :=
  match unmarshal_string raw with
  | Some s =>
      content ← ok_or ErrMarshal (marshal_parts [text_part "input_text" s]);
      inr [message_input "user" content]
  | None =>
      blocks ← ok_or ErrDecode (unmarshal_blocks raw);
      let results := List.filter (is_type "tool_result") blocks in
      let parts := List.concat (map user_parts blocks)
                   ++ List.concat (map (fun b => (convertToolResultOutput b).2) results) in
      let out := map output_input results in
      match parts with
      | [] => inr out
      | _ => content ← ok_or ErrMarshal (marshal_parts parts);
             inr (out ++ [message_input "user" content])
      end
  end.

(** The ciphertext of a thinking block that is replayed. *)
Definition reasoning_input (b : AnthropicContentBlock) : list ResponsesInputItem :=
  let sig := TrimSpace (acb_Signature b) in
  if (sig =?s "") || HasPrefix sig "gAAAA" then []
  else [zero_ResponsesInputItem <| rii_Type := "reasoning" |> <| rii_EncryptedContent := sig |>].

Definition call_input (b : AnthropicContentBlock) : ResponsesInputItem :=
  zero_ResponsesInputItem <| rii_Type := "function_call" |>
    <| rii_CallID := toResponsesCallID (acb_ID b) |> <| rii_Name := acb_Name b |>
    <| rii_Arguments := if acb_Input b =?s "" then "{}" else acb_Input b |>.

Definition anthropicAssistantToResponses (raw : string) : result (list ResponsesInputItem) :=
  match unmarshal_string raw with
  | Some s =>
      content ← ok_or ErrMarshal (marshal_parts [text_part "output_text" s]);
      inr [message_input "assistant" content]
  | None =>
      blocks ← ok_or ErrDecode (unmarshal_blocks raw);
      let text := extractAnthropicTextFromBlocks blocks in
      message ← (if text =?s "" then inr []
                 else content ← ok_or ErrMarshal (marshal_parts [text_part "output_text" text]);
                      inr [message_input "assistant" content]);
      inr (List.concat (map reasoning_input (List.filter (is_type "thinking") blocks))
           ++ message ++ map call_input (List.filter (is_type "tool_use") blocks))
  end.

Definition anthropicMsgToResponsesItems (m : AnthropicMessage) : result (list ResponsesInputItem) :=
  if am_Role m =?s "assistant" then anthropicAssistantToResponses (am_Content m)
  else anthropicUserToResponses (am_Content m).

Fixpoint messages_input (msgs : list AnthropicMessage) : result (list ResponsesInputItem) :=
  match msgs with
  | [] => inr []
  | m :: msgs =>
      items ← anthropicMsgToResponsesItems m;
      rest ← messages_input msgs;
      inr (items ++ rest)
  end.

Definition convertAnthropicToResponsesInput (system : string) (msgs : list AnthropicMessage) :
    result (list ResponsesInputItem) :=
  head ← (if system =?s "" then inr []
          else sysParts ← parseAnthropicSystemContentParts system;
               inr match sysParts with
                   | [] => []
                   | _ => [message_input "developer" (or_nil (marshal_parts sysParts))]
                   end);
  items ← messages_input msgs;
  inr (head ++ items).

(** ** Tools *)

(** An object schema gets properties, anything else stays as it is. *)
Definition normalizeToolParameters (schema : string) : string :=
  if (schema =?s "") || (schema =?s "null") then emptyObjectSchema else
  match unmarshal_map schema with
  | None => schema
  | Some m =>
      let m := default [] m in
      if negb (default "" (assoc "type" m) =?s json_quote "object") then schema else
      match assoc "properties" m with
      | Some _ => schema
      | None => default schema (marshal_map (sorted_insert "properties" "{}" m))
      end
  end.

Definition convertAnthropicToolsToResponses (tools : list AnthropicTool) : list ResponsesTool :=
  map (fun t =>
    if HasPrefix (at_Type t) "web_search" then zero_ResponsesTool <| rt_Type := "web_search" |>
    else zero_ResponsesTool
      <| rt_Type := "function" |>
      <| rt_Name := at_Name t |>
      <| rt_Description := at_Description t |>
      <| rt_Parameters := normalizeToolParameters (at_InputSchema t) |>
      <| rt_Strict := Some false |>) tools.

(** The fields type and name of a [tool_choice]. *)
Definition choice_fields : fields (string * string) :=
  [("type", field fst (fun v c => (v, c.2)) d_string);
   ("name", field snd (fun v c => (c.1, v)) d_string)].

Definition convertAnthropicToolChoiceToResponses (raw : string) : result string :=
  '(type, name) ← ok_or ErrToolChoice (d_struct choice_fields raw ("", ""));
  inr (if type =?s "auto" then json_quote "auto"
       else if type =?s "any" then json_quote "required"
       else if type =?s "none" then json_quote "none"
       else if type =?s "tool" then marshal_string_map [("name", name); ("type", "function")]
       else raw).

(** ** The request *)

Definition mapAnthropicEffortToResponses (effort : string) : string :=
  if effort =?s "max" then "xhigh" else effort.

Definition config_effort (req : AnthropicRequest) : string :=
  match areq_OutputConfig req with Some c => aoc_Effort c | None => "" end.

Definition anthropicReasoningEffort (req : AnthropicRequest) : string :=
  if match areq_Thinking req with Some t => ath_Type t =?s "disabled" | None => false end
  then "none"
  else mapAnthropicEffortToResponses
         (if config_effort req =?s "" then "medium" else config_effort req).

Definition minMaxOutputTokens : Z := 128.

(** [int(r - '0')] of the leading digits: their number and value, in a 64-bit int. *)
Fixpoint leading_digits (major : Z) (digits : nat) (s : string) : Z * nat :=
  match s with
  | String c s =>
      if in_range 48 57 (code c)
      then leading_digits (int_add (int_mul major 10) (Z.of_nat (code c) - 48)) (S digits) s
      else (major, digits)
  | EmptyString => (major, digits)
  end.

Section Request.
Context `{U : Unicode}.

(** [None] when the Go function's second result is false. *)
Definition openAIModelGeneration (model : string) : option Z :=
  match CutPrefix (ToLower (TrimSpace model)) "gpt-" with
  | None => None
  | Some rest =>
      match leading_digits 0 0 rest with
      | (_, O) => None
      | (major, _) => Some major
      end
  end.

Definition isReasoningModel (model : string) : bool :=
  match openAIModelGeneration model with Some major => (5 <=? major)%Z | None => false end
  || IsGPT6SolOrLunaModelSpelling model.

Definition responses_effort (req : AnthropicRequest) : string :=
  let effort := anthropicReasoningEffort req in
  if IsGPT61SolModelSpelling (areq_Model req) && (config_effort req =?s "max")
     && negb (effort =?s "none")
  then "max" else effort.

(** [max_output_tokens] of a positive limit, at least the minimum. *)
Definition clamp_tokens (n : Z) : option Z :=
  if (0 <? n)%Z then Some (if (n <? minMaxOutputTokens)%Z then minMaxOutputTokens else n) else None.

Definition AnthropicToResponses (req : AnthropicRequest) : result ResponsesRequest :=
  if negb (ValidateGPT61SolReasoningEffort (areq_Model req) (anthropicReasoningEffort req))
  then inl ErrReasoningEffort else
  input ← convertAnthropicToResponsesInput (areq_System req) (areq_Messages req);
  inputJSON ← ok_or ErrMarshal (marshal_items input);
  let reasoning := isReasoningModel (areq_Model req) in
  let effort := responses_effort req in
  let out := zero_ResponsesRequest
    <| rreq_Model := areq_Model req |>
    <| rreq_Input := inputJSON |>
    <| rreq_Stream := areq_Stream req |>
    <| rreq_Include := ["reasoning.encrypted_content"] |>
    <| rreq_Temperature := if reasoning then None else areq_Temperature req |>
    <| rreq_TopP := if reasoning then None else areq_TopP req |>
    <| rreq_Store := Some false |>
    <| rreq_ParallelToolCalls := Some true |>
    <| rreq_Text := Some (zero_ResponsesText <| rtx_Verbosity := "medium" |>) |>
    <| rreq_MaxOutputTokens := clamp_tokens (areq_MaxTokens req) |>
    <| rreq_Tools := convertAnthropicToolsToResponses (areq_Tools req) |>
    <| rreq_Reasoning := Some (MkResponsesReasoning effort
                                 (if effort =?s "none" then "" else "auto")) |> in
  if areq_ToolChoice req =?s "" then inr out else
  tc ← convertAnthropicToolChoiceToResponses (areq_ToolChoice req);
  inr (out <| rreq_ToolChoice := tc |>).
End Request.
