(* ===== verification/ChatToResponses.v ===== *)
(** * Chat Completions requests to OpenAI Responses requests

    [src/backend/internal/pkg/apicompat/chatcompletions_to_responses.go] and
    [response_format.go], one Definition per Go function. *)

From S2P Require Import Prelude Json JsonCodec GoStrings JsonNumbers ModelNames ToolSchema Apicompat RequestCodec ResponsesToAnthropicRequest AnthropicToResponsesRequest.
Local Open Scope string_scope.
Local Open Scope nat_scope.
Local Open Scope list_scope.
Local Open Scope go_scope.

(** ** Untyped values *)

(** Every number of a value is in range; a value is shorter than what contains it. *)
Fixpoint floats_ok (fuel : nat) (s : string) : bool :=
  match fuel with
  | O => true
  | S fuel =>
      match json_shape s with
      | Some (SNum raw) => float_ok raw
      | Some (SArr l) => forallb (floats_ok fuel) l
      | Some (SObj ms) => forallb (fun m => floats_ok fuel m.2) ms
      | _ => true
      end
  end.

(** [json.Unmarshal] into a [[]map[string]any], every map with the raw texts of its
    values. *)
Definition unmarshal_any_maps (raw : string) : option (list gomap) :=
  match json_shape raw with
  | Some SNull => Some []
  | Some (SArr l) =>
      if forallb (floats_ok (String.length raw)) l
      then mapM (fun x => default [] <$> unmarshal_map x) l else None
  | _ => None
  end.
(** [m[k].(string)] *)
Definition string_member (m : gomap) (k : string) : string :=
  match assoc k m with
  | Some raw => match json_shape raw with Some (SStr s) => s | _ => "" end
  | None => ""
  end.

(** ** Content *)

(** [chatMessageContent]: a text or parts. *)
Definition chatMessageContent : Type := (string + list ChatContentPart)%type.

Definition parseChatMessageContent (raw : string) : result chatMessageContent :=
  if raw =?s "" then inr (inl "") else
  match unmarshal_string raw with
  | Some s => inr (inl s)
  | None => match unmarshal_chat_parts raw with
            | Some parts => inr (inr parts)
            | None => inl ErrContent
            end
  end.

Definition isEmptyBase64DataURI (raw : string) : bool :=
  match CutPrefix raw "data:" with
  | None => false
  | Some rest =>
      match IndexByte rest semicolon with
      | None => false
      | Some i => match CutPrefix (str_drop (S i) rest) "base64," with
                  | None => false
                  | Some data => TrimSpace data =?s ""
                  end
      end
  end.

Definition chat_part (p : ChatContentPart) : list ResponsesContentPart :=
  let part := zero_ResponsesContentPart
    <| rcp_PromptCacheBreakpoint := ccp_PromptCacheBreakpoint p |> in
  if ccp_Type p =?s "text" then
    if (ccp_Text p =?s "") && (ccp_PromptCacheBreakpoint p =?s "") then []
    else [part <| rcp_Type := "input_text" |> <| rcp_Text := ccp_Text p |>]
  else if ccp_Type p =?s "image_url" then
    match ccp_ImageURL p with
    | Some u => if (ciu_URL u =?s "") || isEmptyBase64DataURI (ciu_URL u) then []
                else [part <| rcp_Type := "input_image" |> <| rcp_ImageURL := ciu_URL u |>]
    | None => []
    end
  else if ccp_Type p =?s "file" then
    match ccp_File p with
    | Some f => if (cfl_FileData f =?s "") && (cfl_FileID f =?s "") then []
                else [part <| rcp_Type := "input_file" |> <| rcp_Filename := cfl_Filename f |>
                           <| rcp_FileData := cfl_FileData f |> <| rcp_FileID := cfl_FileID f |>]
    | None => []
    end
  else [].
Definition convertChatContentPartsToResponses (parts : list ChatContentPart) :
    list ResponsesContentPart := List.concat (map chat_part parts).

Definition marshalChatInputContent (content : chatMessageContent) : result string :=
  match content with
  | inl text => inr (json_quote text)
  | inr parts =>
      match convertChatContentPartsToResponses parts with
      | [] => inr (json_quote "")
      | parts => ok_or ErrMarshal (marshal_parts parts)
      end
  end.

Definition flattenChatContentParts (parts : list ChatContentPart) : string :=
  Join (map ccp_Text (List.filter (fun p => (ccp_Type p =?s "text") && negb (ccp_Text p =?s "")) parts)) "".

Definition parseChatContent (raw : string) : result string :=
  parsed ← parseChatMessageContent raw;
  inr match parsed with inl text => text | inr parts => flattenChatContentParts parts end.

Definition thinking_tags (s : string) : string := "<thinking>" +:+ s +:+ "</thinking>".
Definition assistant_part_text (p : gomap) : string :=
  let typ := string_member p "type" in
  let text := string_member p "text" in
  let thinking := string_member p "thinking" in
  if one_of ["thinking"; "reasoning"] typ then
    if negb (thinking =?s "") then thinking_tags thinking
    else if negb (text =?s "") then thinking_tags text
    else ""
  else text.

(** The code's error is always nil. *)
Definition parseAssistantContent (raw : string) : string :=
  if raw =?s "" then "" else
  match unmarshal_string raw with
  | Some s => s
  | None => match unmarshal_any_maps raw with
            | Some parts => Join (map assistant_part_text parts) ""
            | None => ""
            end
  end.

(** ** Messages *)

Definition chat_content_input (role : string) (m : ChatMessage) : result (list ResponsesInputItem) :=
  parsed ← parseChatMessageContent (cm_Content m);
  content ← marshalChatInputContent parsed;
  inr [message_input role content].
Definition chatSystemToResponses (m : ChatMessage) : result (list ResponsesInputItem) :=
  chat_content_input "system" m.
Definition chatUserToResponses (m : ChatMessage) : result (list ResponsesInputItem) :=
  chat_content_input "user" m.

Definition chat_call_input (tc : ChatToolCall) : ResponsesInputItem :=
  let args := cfc_Arguments (ctc_Function tc) in
  zero_ResponsesInputItem <| rii_Type := "function_call" |>
    <| rii_CallID := ctc_ID tc |> <| rii_Name := cfc_Name (ctc_Function tc) |>
    <| rii_Arguments := if args =?s "" then "{}" else args |>.

(** Reasoning first, in tags, then the content. *)
Definition assistant_text (m : ChatMessage) : string :=
  let content := if cm_ReasoningContent m =?s "" then "" else thinking_tags (cm_ReasoningContent m) in
  let s := parseAssistantContent (cm_Content m) in
  if s =?s "" then content
  else if content =?s "" then s
  else content +:+ bytes_str [10] +:+ s.

Definition chatAssistantToResponses (m : ChatMessage) : result (list ResponsesInputItem) :=
  let content := assistant_text m in
  message ← (if content =?s "" then inr []
             else json ← ok_or ErrMarshal (marshal_parts [text_part "output_text" content]);
                  inr [message_input "assistant" json]);
  inr (message ++ map chat_call_input (cm_ToolCalls m)).

Definition chat_output_input (callID : string) (m : ChatMessage) : result (list ResponsesInputItem) :=
  output ← parseChatContent (cm_Content m);
  inr [zero_ResponsesInputItem <| rii_Type := "function_call_output" |> <| rii_CallID := callID |>
         <| rii_Output := if output =?s "" then "(empty)" else output |>].
Definition chatToolToResponses (m : ChatMessage) : result (list ResponsesInputItem) :=
  chat_output_input (cm_ToolCallID m) m.
Definition chatFunctionToResponses (m : ChatMessage) : result (list ResponsesInputItem) :=
  chat_output_input (cm_Name m) m.

Definition chatMessageToResponsesItems (m : ChatMessage) : result (list ResponsesInputItem) :=
  let role := cm_Role m in
  if role =?s "system" then chatSystemToResponses m
  else if role =?s "assistant" then chatAssistantToResponses m
  else if role =?s "tool" then chatToolToResponses m
  else if role =?s "function" then chatFunctionToResponses m
  else chatUserToResponses m.

Fixpoint convertChatMessagesToResponsesInput (msgs : list ChatMessage) :
    result (list ResponsesInputItem) :=
  match msgs with
  | [] => inr []
  | m :: msgs =>
      items ← chatMessageToResponsesItems m;
      rest ← convertChatMessagesToResponsesInput msgs;
      inr (items ++ rest)
  end.

(** ** response_format.go *)

Definition normalizedRawJSON (raw : string) : string :=
  let raw := TrimSpace raw in if raw =?s "null" then "" else raw.
Definition rawJSONObject (raw : string) : option gomap := default [] <$> unmarshal_map raw.
Definition rawString (raw : string) : string :=
  let raw := TrimSpace raw in
  if (raw =?s "") || (raw =?s "null") then "" else default "" (unmarshal_string raw).
Definition raw_member (obj : gomap) (k : string) : string := default "" (assoc k obj).

Definition chatResponseFormatToResponsesTextFormat (raw : string) : string :=
  let raw := normalizedRawJSON raw in
  if raw =?s "" then "" else
  match rawJSONObject raw with
  | None => raw
  | Some obj =>
      if negb (rawString (raw_member obj "type") =?s "json_schema") then raw else
      let schemaRaw := normalizedRawJSON (raw_member obj "json_schema") in
      if schemaRaw =?s "" then raw else
      match unmarshal_map schemaRaw with
      | None => raw
      | Some schema =>
          default raw (marshal_map (sorted_insert "type" (json_quote "json_schema") (default [] schema)))
      end
  end.

Definition responsesTextFormatToChatResponseFormat (raw : string) : string :=
  let raw := normalizedRawJSON raw in
  if raw =?s "" then "" else
  match rawJSONObject raw with
  | None => raw
  | Some obj =>
      if negb (rawString (raw_member obj "type") =?s "json_schema") then raw else
      match assoc "json_schema" obj with
      | Some _ => raw
      | None =>
          match assoc_delete "type" obj with
          | [] => raw
          | schema =>
              default raw
                (schemaRaw ← marshal_map schema;
                 marshal_map [("json_schema", schemaRaw); ("type", json_quote "json_schema")])
          end
      end
  end.

(** ** The request *)

Definition defaultStrictFalse (src : option bool) : option bool :=
  match src with Some b => Some b | None => Some false end.
Definition function_tool (f : ChatFunction) : ResponsesTool :=
  zero_ResponsesTool <| rt_Type := "function" |> <| rt_Name := cfn_Name f |>
    <| rt_Description := cfn_Description f |> <| rt_Parameters := cfn_Parameters f |>
    <| rt_Strict := defaultStrictFalse (cfn_Strict f) |>.

Definition convertChatFunctionCallToToolChoice (raw : string) : result string :=
  match unmarshal_string raw with
  | Some s => inr (json_quote s)
  | None =>
      name ← ok_or ErrFunctionCall (d_struct [("name", d_string)] raw "");
      inr (marshal_string_map [("name", name); ("type", "function")])
  end.

Section Request.
Context `{U : Unicode}.

Definition chat_tool (t : ChatTool) : list ResponsesTool :=
  let toolType := ToLower (TrimSpace (cto_Type t)) in
  if toolType =?s "x_search" then
    [zero_ResponsesTool <| rt_Type := "x_search" |>
       <| rt_AllowedXHandles := cto_AllowedXHandles t |>
       <| rt_ExcludedXHandles := cto_ExcludedXHandles t |>
       <| rt_FromDate := cto_FromDate t |> <| rt_ToDate := cto_ToDate t |>
       <| rt_EnableImageUnderstanding := cto_EnableImageUnderstanding t |>
       <| rt_EnableVideoUnderstanding := cto_EnableVideoUnderstanding t |>]
  else if one_of ["web_search"; "code_execution"] toolType then
    [zero_ResponsesTool <| rt_Type := toolType |>]
  else if cto_Type t =?s "function" then
    match cto_Function t with Some f => [function_tool f] | None => [] end
  else [].
Definition convertChatToolsToResponses (tools : list ChatTool) (functions : list ChatFunction) :
    list ResponsesTool :=
  List.concat (map chat_tool tools) ++ map function_tool functions.

Definition chat_max_tokens (req : ChatCompletionsRequest) : Z :=
  match ccrq_MaxCompletionTokens req with
  | Some n => n
  | None => default 0%Z (ccrq_MaxTokens req)
  end.
Definition keeps_sampling (req : ChatCompletionsRequest) : bool :=
  negb (isReasoningModel (ccrq_Model req))
  || (IsGPT6SolOrLunaModelSpelling (ccrq_Model req) && (ccrq_ReasoningEffort req =?s "none")).

Definition ChatCompletionsToResponses (req : ChatCompletionsRequest) : result ResponsesRequest :=
  if negb (ValidateGPT61SolReasoningEffort (ccrq_Model req) (ccrq_ReasoningEffort req))
  then inl ErrReasoningEffort else
  input ← convertChatMessagesToResponsesInput (ccrq_Messages req);
  inputJSON ← ok_or ErrMarshal (marshal_items input);
  let sampling := keeps_sampling req in
  let format := chatResponseFormatToResponsesTextFormat (ccrq_ResponseFormat req) in
  let out := zero_ResponsesRequest
    <| rreq_Model := ccrq_Model req |>
    <| rreq_Instructions := ccrq_Instructions req |>
    <| rreq_Input := inputJSON |>
    <| rreq_Stream := true |>
    <| rreq_Include := ["reasoning.encrypted_content"] |>
    <| rreq_ServiceTier := ccrq_ServiceTier req |>
    <| rreq_PromptCacheOptions := ccrq_PromptCacheOptions req |>
    <| rreq_ParallelToolCalls := ccrq_ParallelToolCalls req |>
    <| rreq_Temperature := if sampling then ccrq_Temperature req else None |>
    <| rreq_TopP := if sampling then ccrq_TopP req else None |>
    <| rreq_Store := Some false |>
    <| rreq_MaxOutputTokens := clamp_tokens (chat_max_tokens req) |>
    <| rreq_Reasoning := if ccrq_ReasoningEffort req =?s "" then None
                         else Some (MkResponsesReasoning (ccrq_ReasoningEffort req) "auto") |>
    <| rreq_Text := if format =?s "" then None
                    else Some (zero_ResponsesText <| rtx_Format := format |>) |>
    <| rreq_Tools := convertChatToolsToResponses (ccrq_Tools req) (ccrq_Functions req) |> in
  if negb (ccrq_ToolChoice req =?s "") then inr (out <| rreq_ToolChoice := ccrq_ToolChoice req |>)
  else if ccrq_FunctionCall req =?s "" then inr out
  else tc ← convertChatFunctionCallToToolChoice (ccrq_FunctionCall req);
       inr (out <| rreq_ToolChoice := tc |>).
End Request.
