(* ===== verification/Encoding.v ===== *)
(** * Digests and encodings of the standard library

    What the sources use of [crypto/sha256], [encoding/hex], [encoding/base64]
    (RawURLEncoding.Strict) and [encoding/binary] (BigEndian), on strings of bytes.
    Bytes and 32-bit words are integers. *)

From S2P Require Import Prelude.
Local Open Scope string_scope.
Local Open Scope Z_scope.
Local Open Scope list_scope.
Local Open Scope go_scope.

Fixpoint byte_values (s : string) : list Z :=
  match s with
  | EmptyString => []
  | String c s => Z.of_nat (Ascii.nat_of_ascii c) :: byte_values s
  end.

(** ** SHA-256 *)

Definition w32 (x : Z) : Z := Z.land x 0xffffffff.
Definition rotr (n x : Z) : Z := w32 (Z.lor (Z.shiftr x n) (Z.shiftl x (32 - n))).

(** The constants are the first 32 bits of the fractional parts of the square roots of
    the first 8 primes and of the cube roots of the first 64. *)
Definition primes_below (n : nat) : list Z :=
  filter (fun p => forallb (fun d => negb (p mod d =? 0)) (map Z.of_nat (seq 2 (Z.to_nat (p - 2)))) = true)
    (map Z.of_nat (seq 2 (n - 2))).
(** The largest [x] below [2 ^ bits] that [le] accepts. *)
Fixpoint largest (bits : nat) (le : Z -> bool) (x : Z) : Z :=
  match bits with
  | O => x
  | S bits => largest bits le (if le (x + 2 ^ Z.of_nat bits) then x + 2 ^ Z.of_nat bits else x)
  end.
Definition sha256_init : list Z :=
  Eval vm_compute in
  map (fun p => w32 (largest 38 (fun x => x ^ 2 <=? p * 2 ^ 64) 0)) (take 8 (primes_below 312)).
Definition sha256_k : list Z :=
  Eval vm_compute in
  map (fun p => w32 (largest 38 (fun x => x ^ 3 <=? p * 2 ^ 96) 0)) (primes_below 312).

Definition big_endian (l : list Z) : Z := fold_left (fun acc b => acc * 256 + b) l 0.
Fixpoint to_big_endian (n : nat) (x : Z) : list Z :=
  match n with O => [] | S n => Z.land (Z.shiftr x (8 * Z.of_nat n)) 255 :: to_big_endian n x end.

(** The message, a one bit, zeros up to 56 modulo 64, and the length in bits. *)
Definition sha256_pad (m : list Z) : list Z :=
  let n := Z.of_nat (length m) in
  m ++ 128 :: replicate (Z.to_nat ((55 - n) mod 64)) 0 ++ to_big_endian 8 (8 * n).

(** The message schedule, newest word first. *)
Fixpoint sha256_expand (rounds : nat) (w : list Z) : list Z :=
  match rounds with
  | O => w
  | S rounds =>
      let at_ i := nth i w 0 in
      let s0 := Z.lxor (Z.lxor (rotr 7 (at_ 14%nat)) (rotr 18 (at_ 14%nat))) (Z.shiftr (at_ 14%nat) 3) in
      let s1 := Z.lxor (Z.lxor (rotr 17 (at_ 1%nat)) (rotr 19 (at_ 1%nat))) (Z.shiftr (at_ 1%nat) 10) in
      sha256_expand rounds (w32 (at_ 15%nat + s0 + at_ 6%nat + s1) :: w)
  end.

Definition sha256_round (h : list Z) (kw : Z * Z) : list Z :=
  match h with
  | [a; b; c; d; e; f; g; hh] =>
      let s1 := Z.lxor (Z.lxor (rotr 6 e) (rotr 11 e)) (rotr 25 e) in
      let ch := Z.lxor (Z.land e f) (Z.land (Z.lxor e 0xffffffff) g) in
      let t1 := hh + s1 + ch + kw.1 + kw.2 in
      let s0 := Z.lxor (Z.lxor (rotr 2 a) (rotr 13 a)) (rotr 22 a) in
      let maj := Z.lxor (Z.lxor (Z.land a b) (Z.land a c)) (Z.land b c) in
      [w32 (t1 + s0 + maj); a; b; c; w32 (d + t1); e; f; g]
  | _ => h
  end.

Fixpoint chunks (fuel n : nat) (l : list Z) : list (list Z) :=
  match fuel, l with
  | S fuel, _ :: _ => take n l :: chunks fuel n (drop n l)
  | _, _ => []
  end.
Definition sha256_block (h : list Z) (block : list Z) : list Z :=
  let w := rev (sha256_expand 48 (rev (map big_endian (chunks 16 4 block)))) in
  zip_with (fun x y => w32 (x + y)) h (fold_left sha256_round (zip sha256_k w) h).
Definition sha256 (s : string) : list Z :=
  let m := sha256_pad (byte_values s) in
  let h := fold_left sha256_block (chunks (length m) 64 m) sha256_init in
  flat_map (to_big_endian 4) h.

(** ** Hexadecimal *)

Definition hex_digit (d : Z) : Ascii.ascii := Ascii.ascii_of_nat (Z.to_nat (if d <? 10 then 48 + d else 87 + d)).
Fixpoint hex (l : list Z) : string :=
  match l with
  | [] => ""
  | b :: l => String (hex_digit (b / 16)) (String (hex_digit (b mod 16)) (hex l))
  end.

(** ** Base64 *)

(** The URL alphabet. *)
Definition sextet (b : Z) : option Z :=
  if (65 <=? b) && (b <=? 90) then Some (b - 65)
  else if (97 <=? b) && (b <=? 122) then Some (b - 71)
  else if (48 <=? b) && (b <=? 57) then Some (b + 4)
  else if b =? 45 then Some 62
  else if b =? 95 then Some 63
  else None.

(** RawURLEncoding.Strict on input without line ends: no padding, and the unused bits
    of the last character must be zero. *)
Fixpoint decode_base64 (l : list Z) : option (list Z) :=
  match l with
  | [] => Some []
  | [_] => None
  | [a; b] =>
      a ← sextet a; b ← sextet b;
      if Z.land b 15 =? 0 then Some [a * 4 + b / 16] else None
  | [a; b; c] =>
      a ← sextet a; b ← sextet b; c ← sextet c;
      if Z.land c 3 =? 0 then Some [a * 4 + b / 16; b mod 16 * 16 + c / 4] else None
  | a :: b :: c :: d :: l =>
      a ← sextet a; b ← sextet b; c ← sextet c; d ← sextet d;
      rest ← decode_base64 l;
      Some (a * 4 + b / 16 :: b mod 16 * 16 + c / 4 :: c mod 4 * 64 + d :: rest)
  end.

(** The published test vectors. *)
Example sha256_empty : hex (sha256 "") = "e3b0c44298fc1c149afbf4c8996fb92427ae41e4649b934ca495991b7852b855".
Proof. vm_compute. reflexivity. Qed.
Example sha256_abc : hex (sha256 "abc") = "ba7816bf8f01cfea414140de5dae2223b00361a396177a9cb410ff61f20015ad".
Proof. vm_compute. reflexivity. Qed.
Example sha256_two_blocks :
  hex (sha256 "abcdbcdecdefdefgefghfghighijhijkijkljklmklmnlmnomnopnopq") =
  "248d6a61d20638b8e5c026930c3e6039a33ce45964ff2167f6ecedd419db06c1".
Proof. vm_compute. reflexivity. Qed.
