(* ===== verification/ChatToolTables.v ===== *)
(** * The tools of a Responses request on a Chat Completions upstream

    The tool tables of [src/backend/internal/pkg/apicompat/chatcompletions_responses_bridge.go]:
    how declarations are lowered to function tools, and the sets and the map the way
    back uses to tell what a call was meant for.  A Go [map[string]bool] whose entries
    are all true is a set. *)

From S2P Require Import Prelude Json JsonCodec GoStrings ModelNames ToolSchema Apicompat RequestCodec ResponsesToAnthropicRequest ChatToResponses Encoding.
Local Open Scope string_scope.
Local Open Scope nat_scope.
Local Open Scope list_scope.
Local Open Scope go_scope.

(** ** Names *)

Definition chatToolNameMaxLen : nat := 64.

(** The runes of [full] as long as their encodings fit into [room] bytes. *)
Fixpoint rune_prefix (room : nat) (rs : list (Z * nat)) : string :=
  match rs with
  | [] => ""
  | (r, _) :: rs =>
      let c := encode_rune r in
      if room <? String.length c then "" else c +:+ rune_prefix (room - String.length c) rs
  end.

(** [hex.EncodeToString(sum[:4])] is the first eight digits. *)
Definition flattenNamespaceToolName (namespace name : string) : string :=
  let full := namespace +:+ "__" +:+ name in
  if String.length full <=? chatToolNameMaxLen then full else
  let suffix := "__" +:+ hex (take 4 (sha256 full)) in
  rune_prefix (chatToolNameMaxLen - String.length suffix) (runes full) +:+ suffix.

Record NamespacedToolName := MkNamespacedToolName {
  ntn_Namespace : string;
  ntn_Name : string;
}.
#[export] Instance NamespacedToolName_eq_dec : EqDecision NamespacedToolName.
Proof. solve_decision. Defined.

Definition toolSearchProxyName : string := "tool_search".

(** The tools of one type, by their names. *)
Definition names_of_type (type : string) (tools : list ResponsesTool) : gset string :=
  list_to_set (map rt_Name
    (List.filter (fun t => (rt_Type t =?s type) && negb (rt_Name t =?s "")) tools)).
Definition CustomToolNames (tools : list ResponsesTool) : gset string := names_of_type "custom" tools.
Definition FunctionToolNames (tools : list ResponsesTool) : gset string := names_of_type "function" tools.

Definition tool_children (tool : ResponsesTool) : list ResponsesTool :=
  match rt_Tools tool with [] => rt_Children tool | children => children end.
Definition callable_child (child : ResponsesTool) : bool :=
  (rt_Type child =?s "function") && negb (rt_Name child =?s "").
Definition namespace_entry (namespace : string) (child : ResponsesTool) : string * NamespacedToolName :=
  (flattenNamespaceToolName namespace (rt_Name child), MkNamespacedToolName namespace (rt_Name child)).
(** The assignments of the two loops, in order. *)
Definition namespace_entries (tools : list ResponsesTool) : list (string * NamespacedToolName) :=
  flat_map (fun tool =>
    if negb (rt_Type tool =?s "namespace") || (rt_Name tool =?s "") then []
    else map (namespace_entry (rt_Name tool)) (List.filter callable_child (tool_children tool))) tools.
Definition NamespaceToolNames (tools : list ResponsesTool) : gmap string NamespacedToolName :=
  foldl (fun m e => <[e.1 := e.2]> m) ∅ (namespace_entries tools).

Definition HasToolSearchTool (tools : list ResponsesTool) : bool :=
  existsb (fun t => rt_Type t =?s "tool_search") tools.

(** The tables of a request; the streaming state keeps them in four fields. *)
Record ToolTables := MkToolTables {
  CustomTools : gset string;
  FunctionTools : gset string;
  ToolSearchDeclared : bool;
  NamespaceTools : gmap string NamespacedToolName;
}.
Definition tables_of (tools : list ResponsesTool) : ToolTables :=
  MkToolTables (CustomToolNames tools) (FunctionToolNames tools) (HasToolSearchTool tools)
    (NamespaceToolNames tools).
Definition no_tables : ToolTables := MkToolTables ∅ ∅ false ∅.

(** The nested loop over the maps [customTools] and [namespaceTools] returns when it
    has met two custom tools the name can stand for, and goes on with the one it met;
    without empty names its result does not depend on the order. *)
Definition customToolCallName (name : string) (t : ToolTables) : option string :=
  if bool_decide (name ∈ FunctionTools t) then None
  else if bool_decide (name ∈ CustomTools t) then Some name
  else match NamespaceTools t !! name with
       | Some _ => None
       | None =>
           let stands_for custom :=
             existsb (fun e : string * NamespacedToolName =>
                        flattenNamespaceToolName (ntn_Namespace e.2) custom =?s name)
               (map_to_list (NamespaceTools t)) in
           match List.filter stands_for (elements (CustomTools t)) with
           | [custom] => if custom =?s "" then None else Some custom
           | _ => None
           end
       end.

(** ** Declarations *)

Definition string_type (description : string) : string :=
  print_members [("type", json_quote "string"); ("description", json_quote description)].
Definition customToolInputSchema : string :=
  print_members [("type", json_quote "object");
    ("properties", print_members
       [("input", string_type "The raw input for this tool, passed through verbatim.")]);
    ("required", marshal_strings ["input"])].
Definition toolSearchProxySchema : string :=
  print_members [("type", json_quote "object");
    ("properties", print_members
       [("query", string_type "Search query for tools or connectors to load.");
        ("limit", print_members [("type", json_quote "integer");
           ("description", json_quote "Maximum number of tool groups to return.")])]);
    ("required", marshal_strings ["query"])].

Definition declare_function (name description parameters : string) (strict : option bool) : ChatTool :=
  zero_ChatTool <| cto_Type := "function" |>
    <| cto_Function := Some (MkChatFunction name description parameters strict) |>.
Definition toolSearchProxyChatTool : ChatTool :=
  declare_function toolSearchProxyName
    "Search and load Codex tools, plugins, connectors, and MCP namespaces for the current task."
    toolSearchProxySchema None.

Definition is_executable (t : ResponsesTool) : bool :=
  ((rt_Type t =?s "function") || (rt_Type t =?s "custom")) && negb (rt_Name t =?s "").

(** The first loop: [topLevel], or the error of a duplicate. *)
Fixpoint top_level (tools : list ResponsesTool) (topLevel : gset string) : result (gset string) :=
  match tools with
  | [] => inr topLevel
  | t :: tools =>
      if is_executable t then
        if bool_decide (rt_Name t ∈ topLevel) then inl (ErrDuplicateTool (rt_Name t))
        else top_level tools ({[rt_Name t]} ∪ topLevel)
      else top_level tools topLevel
  end.

(** The loop of [namespaceChildrenToChatTools], which also fills [flatOwner]. *)
Fixpoint lower_children (namespace : string) (topLevel : gset string) (children : list ResponsesTool)
    (flatOwner : gmap string NamespacedToolName) :
    result (list ChatTool * gmap string NamespacedToolName) :=
  match children with
  | [] => inr ([], flatOwner)
  | child :: children =>
      if negb (callable_child child) then lower_children namespace topLevel children flatOwner else
      let '(flat, entry) := namespace_entry namespace child in
      if bool_decide (flat ∈ topLevel) then inl (ErrNamespaceTopLevel namespace (rt_Name child) flat) else
      match flatOwner !! flat with
      | Some prev =>
          if bool_decide (prev = entry) then lower_children namespace topLevel children flatOwner
          else inl (ErrNamespaceConflict (ntn_Namespace prev) (ntn_Name prev) namespace (rt_Name child) flat)
      | None =>
          '(rest, flatOwner) ← lower_children namespace topLevel children (<[flat := entry]> flatOwner);
          inr (declare_function flat (rt_Description child) (rt_Parameters child) (rt_Strict child)
                 :: rest, flatOwner)
      end
  end.
Definition namespaceChildrenToChatTools (tool : ResponsesTool) (topLevel : gset string)
    (flatOwner : gmap string NamespacedToolName) :
    result (list ChatTool * gmap string NamespacedToolName) :=
  if rt_Name tool =?s "" then inr ([], flatOwner)
  else lower_children (rt_Name tool) topLevel (tool_children tool) flatOwner.

(** What a tool outside a namespace is lowered to. *)
Definition lower_function (t : ResponsesTool) : ChatTool :=
  declare_function (rt_Name t) (rt_Description t) (rt_Parameters t) (rt_Strict t).
Definition lower_custom (t : ResponsesTool) : ChatTool :=
  declare_function (rt_Name t) (rt_Description t) customToolInputSchema None.
Definition lower_x_search (t : ResponsesTool) : ChatTool :=
  zero_ChatTool <| cto_Type := "x_search" |>
    <| cto_AllowedXHandles := rt_AllowedXHandles t |>
    <| cto_ExcludedXHandles := rt_ExcludedXHandles t |>
    <| cto_FromDate := rt_FromDate t |> <| cto_ToDate := rt_ToDate t |>
    <| cto_EnableImageUnderstanding := rt_EnableImageUnderstanding t |>
    <| cto_EnableVideoUnderstanding := rt_EnableVideoUnderstanding t |>.

(** The second loop. *)
Fixpoint lower_tools (topLevel : gset string) (tools : list ResponsesTool)
    (flatOwner : gmap string NamespacedToolName) (toolSearchDeclared : bool) : result (list ChatTool) :=
  match tools with
  | [] => inr []
  | t :: tools =>
      let type := rt_Type t in
      if type =?s "function" then
        rest ← lower_tools topLevel tools flatOwner toolSearchDeclared; inr (lower_function t :: rest)
      else if type =?s "custom" then
        rest ← lower_tools topLevel tools flatOwner toolSearchDeclared; inr (lower_custom t :: rest)
      else if type =?s "tool_search" then
        if bool_decide (toolSearchProxyName ∈ topLevel) then inl ErrToolSearchConflict
        else if toolSearchDeclared then lower_tools topLevel tools flatOwner true
        else rest ← lower_tools topLevel tools flatOwner true; inr (toolSearchProxyChatTool :: rest)
      else if type =?s "namespace" then
        '(flattened, flatOwner) ← namespaceChildrenToChatTools t topLevel flatOwner;
        rest ← lower_tools topLevel tools flatOwner toolSearchDeclared; inr (flattened ++ rest)
      else if type =?s "x_search" then
        rest ← lower_tools topLevel tools flatOwner toolSearchDeclared; inr (lower_x_search t :: rest)
      else lower_tools topLevel tools flatOwner toolSearchDeclared
  end.
Definition responsesToolsToChatTools (tools : list ResponsesTool) : result (list ChatTool) :=
  topLevel ← top_level tools ∅;
  lower_tools topLevel tools ∅ false.

(** ** The choice of a tool *)

Definition rawNestedString (raw key : string) : string :=
  match rawJSONObject raw with Some obj => rawString (raw_member obj key) | None => "" end.

(** Go's nil is the empty text. *)
Definition named_choice (declared : gset string) (name : string) : string :=
  if bool_decide (name ∈ declared)
  then print_members [("function", marshal_string_map [("name", name)]); ("type", json_quote "function")]
  else "".
Definition responsesToolChoiceToChatToolChoice (raw : string) (declared : gset string) : string :=
  match rawJSONObject raw with
  | None => raw
  | Some choice =>
      let type := rawString (raw_member choice "type") in
      if type =?s "x_search" then
        if bool_decide ("x_search" ∈ declared) then marshal_string_map [("type", "x_search")] else ""
      else if type =?s "tool_search" then named_choice declared toolSearchProxyName
      else if (type =?s "function") || (type =?s "custom") then
        let name := rawString (raw_member choice "name") in
        let name := if name =?s "" then rawNestedString (raw_member choice "function") "name" else name in
        if name =?s "" then raw else named_choice declared name
      else ""
  end.

Definition chat_tool_names (t : ChatTool) : list string :=
  match cto_Function t with Some f => [cfn_Name f] | None => [] end ++
  (if fold_name (TrimSpace (cto_Type t)) =?s fold_name "x_search" then ["x_search"] else []).
(** [declared] of the request converters. *)
Definition declared_names (tools : list ChatTool) : gset string := list_to_set (flat_map chat_tool_names tools).
