(* ===== verification/ChatAnswerToResponses.v ===== *)
(** * Chat Completions answers to OpenAI Responses

    The way back of [src/backend/internal/pkg/apicompat/chatcompletions_responses_bridge.go]:
    the conversion of a finished answer and the stateful converter of a stream.  Random
    item ids are the sequence [itemIDs] drawn in order.  The four tool tables of the
    stream state are one [ToolTables]. *)

From S2P Require Import Prelude Json JsonCodec GoStrings ToolSchema Apicompat RequestCodec AnthropicToResponses ChatToResponses ChatToolTables.
Local Open Scope string_scope.
Local Open Scope Z_scope.
Local Open Scope list_scope.
Local Open Scope go_scope.

(** ** Pieces of an answer *)

Definition extractCustomToolCallInput (arguments : string) : string :=
  let trimmed := TrimSpace arguments in
  if trimmed =?s "" then "" else
  match rawJSONObject trimmed with
  | None => trimmed
  | Some [] => ""
  | Some obj =>
      match assoc "input" obj with
      | Some raw => default trimmed (unmarshal_string raw)
      | None => trimmed
      end
  end.

(** [ChatMessage.reasoningText], [ChatDelta.reasoningText] *)
Definition message_reasoning (m : ChatMessage) : string :=
  if negb (cm_ReasoningContent m =?s "") then cm_ReasoningContent m else cm_Reasoning m.
Definition delta_reasoning (d : ChatDelta) : option string :=
  match cdl_ReasoningContent d with Some s => Some s | None => cdl_Reasoning d end.

Definition chatMessageContentText (raw : string) : string :=
  let raw := TrimSpace raw in
  if (raw =?s "") || (raw =?s "null") then "" else
  match unmarshal_string raw with
  | Some text => text
  | None =>
      match unmarshal_chat_parts raw with
      | Some parts =>
          Join (map ccp_Text
                  (List.filter (fun p => (ccp_Type p =?s "text") && negb (ccp_Text p =?s "")) parts))
            (bytes_str [10; 10]%nat)
      | None => ""
      end
  end.

(** Blank arguments stand for an empty object. *)
Definition call_arguments_or_empty (arguments : string) : string :=
  if TrimSpace arguments =?s "" then "{}" else arguments.

Definition toolSearchCallArgumentsJSON (arguments : string) : string :=
  let trimmed := TrimSpace arguments in
  if trimmed =?s "" then "{}" else if json_valid trimmed then trimmed else json_quote arguments.

Definition ChatUsageToResponsesUsage (usage : option ChatUsage) : option ResponsesUsage :=
  match usage with
  | None => None
  | Some u =>
      let total := cu_TotalTokens u in
      let out := zero_ResponsesUsage
        <| ru_InputTokens := cu_PromptTokens u |>
        <| ru_OutputTokens := cu_CompletionTokens u |>
        <| ru_TotalTokens := if total =? 0 then int_add (cu_PromptTokens u) (cu_CompletionTokens u)
                             else total |> in
      Some match cu_PromptTokensDetails u with
           | Some d =>
               if (0 <? ctd_CachedTokens d) || (0 <? ctd_CacheCreationTokens d)
                  || (0 <? ctd_CacheWriteTokens d) then
                 out <| ru_InputTokensDetails := Some (zero_ResponsesInputTokensDetails
                          <| ritd_CachedTokens := ctd_CachedTokens d |>
                          <| ritd_CacheCreationTokens := ctd_CacheCreationTokens d |>
                          <| ritd_CacheWriteTokens := ctd_CacheWriteTokens d |>) |>
                     <| ru_CacheCreationInputTokens :=
                          if 0 <? ctd_CacheWriteTokens d then ctd_CacheWriteTokens d
                          else ctd_CacheCreationTokens d |>
               else out
           | None => out
           end
  end.

(** ** A finished answer *)

Definition completed_call (type id callID : string) : ResponsesOutput :=
  zero_ResponsesOutput <| ro_Type := type |> <| ro_ID := id |> <| ro_CallID := callID |>
    <| ro_Status := "completed" |>.
Definition custom_call_item (id callID name input : string) : ResponsesOutput :=
  (completed_call "custom_tool_call" id callID) <| ro_Name := name |> <| ro_Input := input |>.
Definition search_call_item (id callID arguments : string) : ResponsesOutput :=
  (completed_call "tool_search_call" id callID) <| ro_Arguments := arguments |>.
Definition function_call_item (id callID name namespace arguments : string) : ResponsesOutput :=
  (completed_call "function_call" id callID) <| ro_Name := name |> <| ro_Namespace := namespace |>
    <| ro_Arguments := arguments |>.
Definition reasoning_item (id text : string) : ResponsesOutput :=
  zero_ResponsesOutput <| ro_Type := "reasoning" |> <| ro_ID := id |>
    <| ro_Summary := [summary_part text] |>.
Definition emptyResponsesMessageOutput (id : string) : ResponsesOutput :=
  message_item id [output_text_part ""].

Section Answer.
Context (itemIDs : nat -> string).

(** One round of the loop over the calls; [n] ids were drawn before. *)
Definition call_output (t : ToolTables) (n : nat) (toolCall : ChatToolCall) :
    list ResponsesOutput :=
  let name := cfc_Name (ctc_Function toolCall) in
  let callID := ctc_ID toolCall in
  let arguments := call_arguments_or_empty (cfc_Arguments (ctc_Function toolCall)) in
  match customToolCallName name t with
  | Some customName =>
      [custom_call_item (itemIDs n) callID customName (extractCustomToolCallInput arguments)]
  | None =>
      if ToolSearchDeclared t && (name =?s toolSearchProxyName) then
        [search_call_item (itemIDs n) callID arguments]
      else if negb (json_valid arguments) then []
      else match NamespaceTools t !! name with
           | Some ns => [function_call_item (itemIDs n) callID (ntn_Name ns) (ntn_Namespace ns) arguments]
           | None => [function_call_item (itemIDs n) callID name "" arguments]
           end
  end.
Fixpoint call_outputs (t : ToolTables) (n : nat) (calls : list ChatToolCall) : list ResponsesOutput :=
  match calls with
  | [] => []
  | c :: calls => let out := call_output t n c in out ++ call_outputs t (n + length out)%nat calls
  end.

(** The visible text: reasoning stands in for an answer that has nothing else. *)
Definition answer_text (message : ChatMessage) : string :=
  let reasoning := message_reasoning message in
  let text := chatMessageContentText (cm_Content message) in
  match cm_ToolCalls message with
  | [] => if (text =?s "") && negb (TrimSpace reasoning =?s "") then reasoning else text
  | _ => text
  end.
Definition has_calls (message : ChatMessage) : bool :=
  match cm_ToolCalls message with [] => false | _ => true end.

Definition chatMessageToResponsesOutput (t : ToolTables) (message : ChatMessage) : list ResponsesOutput :=
  let reasoning := message_reasoning message in
  let outputs := if reasoning =?s "" then [] else [reasoning_item (itemIDs 0%nat) reasoning] in
  let text := answer_text message in
  let outputs := outputs ++
    (if negb (text =?s "") || negb (has_calls message)
     then [message_item (itemIDs (length outputs)) [output_text_part text]] else []) in
  outputs ++ call_outputs t (length outputs) (cm_ToolCalls message).

(** [fresh] is what [generateResponsesID] returns, [now] [time.Now().Unix()]. *)
Definition ChatCompletionsResponseToResponses (fresh : string) (now : Z)
    (resp : option ChatCompletionsResponse) (model : string) (t : ToolTables) : ResponsesResponse :=
  let r := default zero_ChatCompletionsResponse resp in
  let out := zero_ResponsesResponse
    <| rr_ID := if ccr_ID r =?s "" then fresh else ccr_ID r |>
    <| rr_Object := "response" |>
    <| rr_CreatedAt := if ccr_Created r <=? 0 then now else ccr_Created r |>
    <| rr_Model := model |>
    <| rr_Status := "completed" |>
    <| rr_ServiceTier := ccr_ServiceTier r |> in
  let or_empty outputs :=
    match outputs with [] => [emptyResponsesMessageOutput (itemIDs 0%nat)] | _ => outputs end in
  match resp with
  | None => out <| rr_Output := or_empty [] |>
  | Some _ =>
      let out := if model =?s "" then out <| rr_Model := ccr_Model r |> else out in
      let out :=
        match ccr_Choices r with
        | [] => out
        | choice :: _ =>
            let out := out <| rr_Output := chatMessageToResponsesOutput t (cc_Message choice) |> in
            if cc_FinishReason choice =?s "length" then
              out <| rr_Status := "incomplete" |>
                  <| rr_IncompleteDetails := Some (MkResponsesIncompleteDetails "max_output_tokens") |>
            else out
        end in
      out <| rr_Output := or_empty (rr_Output out) |>
          <| rr_Usage := ChatUsageToResponsesUsage (ccr_Usage r) |>
  end.
End Answer.

(** ** The stream state *)

Record ChatCompletionsToResponsesStreamState := MkCSState {
  cs_ResponseID : string;
  cs_Model : string;
  cs_Created : Z;
  cs_ServiceTier : string;
  cs_SequenceNumber : Z;
  cs_CreatedSent : bool;
  cs_CompletedSent : bool;
  cs_nextOutputIndex : Z;
  cs_ReasoningItemID : string;
  cs_ReasoningIndex : Z;
  cs_ReasoningOpen : bool;
  cs_ReasoningDone : bool;
  cs_MessageItemID : string;
  cs_MessageIndex : Z;
  cs_TextPartOpen : bool;
  cs_Text : string;
  cs_Reasoning : string;
  cs_ToolCalls : gmap Z ChatToolCall;
  cs_ToolItemIDs : gmap Z string;
  cs_ToolOutputIndex : gmap Z Z;
  cs_tables : ToolTables;
  cs_toolIsCustom : gmap Z bool;
  cs_toolIsToolSearch : gmap Z bool;
  cs_toolNamespace : gmap Z NamespacedToolName;
  cs_toolAnnounced : gmap Z bool;
  cs_FinishReason : string;
  cs_Usage : option ResponsesUsage;
  cs_IDs : nat;
}.
#[export] Instance eta_CSState : Eta ChatCompletionsToResponsesStreamState := fun r =>
  MkCSState (cs_ResponseID r) (cs_Model r) (cs_Created r) (cs_ServiceTier r)
    (cs_SequenceNumber r) (cs_CreatedSent r) (cs_CompletedSent r) (cs_nextOutputIndex r)
    (cs_ReasoningItemID r) (cs_ReasoningIndex r) (cs_ReasoningOpen r) (cs_ReasoningDone r)
    (cs_MessageItemID r) (cs_MessageIndex r) (cs_TextPartOpen r) (cs_Text r) (cs_Reasoning r)
    (cs_ToolCalls r) (cs_ToolItemIDs r) (cs_ToolOutputIndex r) (cs_tables r)
    (cs_toolIsCustom r) (cs_toolIsToolSearch r) (cs_toolNamespace r) (cs_toolAnnounced r)
    (cs_FinishReason r) (cs_Usage r) (cs_IDs r).

(** [id] is what [generateResponsesID] returns, [now] [time.Now().Unix()]; the tables
    are set by the caller before the first chunk. *)
Definition NewChatCompletionsToResponsesStreamState (id model : string) (now : Z) (t : ToolTables) :
    ChatCompletionsToResponsesStreamState :=
  MkCSState id model now "" 0 false false 0 "" 0 false false "" 0 false "" "" ∅ ∅ ∅ t ∅ ∅ ∅ ∅ "" None 0.

Local Abbreviation State := ChatCompletionsToResponsesStreamState.
Local Abbreviation Events := (list ResponsesStreamEvent).

Definition is_set (m : gmap Z bool) (i : Z) : bool := default false (m !! i).

(** The error of the first invalid call in the iteration order; whether there is one
    does not depend on the order. *)
Definition arguments_invalid (st : State) (i : Z) (toolCall : ChatToolCall) : bool :=
  negb (is_set (cs_toolIsCustom st) i || is_set (cs_toolIsToolSearch st) i) &&
  (let arguments := TrimSpace (cfc_Arguments (ctc_Function toolCall)) in
   negb (arguments =?s "") && negb (json_valid arguments)).
Definition ValidateToolCallArguments (st : State) : bool :=
  negb (existsb (fun e => arguments_invalid st e.1 e.2) (map_to_list (cs_ToolCalls st))).

Definition chatToResponsesEvent (eventType : string) (template : State -> ResponsesStreamEvent)
    (st : State) : State * Events :=
  (st <| cs_SequenceNumber := cs_SequenceNumber st + 1 |>,
   [(template st) <| rse_Type := eventType |> <| rse_SequenceNumber := cs_SequenceNumber st |>]).

Definition skip (st : State) : State * Events := (st, []).
Definition silent (f : State -> State) (st : State) : State * Events := (f st, []).

Definition response_shell (st : State) (status : string) : ResponsesResponse :=
  zero_ResponsesResponse
    <| rr_ID := cs_ResponseID st |> <| rr_Object := "response" |> <| rr_CreatedAt := cs_Created st |>
    <| rr_Model := cs_Model st |> <| rr_Status := status |> <| rr_ServiceTier := cs_ServiceTier st |>.

Definition ensureChatToResponsesCreated (st : State) : State * Events :=
  if cs_CreatedSent st then (st, [])
  else chatToResponsesEvent "response.created" (fun st =>
         zero_ResponsesStreamEvent <| rse_Response := Some (response_shell st "in_progress") |>)
         (st <| cs_CreatedSent := true |>).

(** ** Reasoning *)

Definition summary_text_part (text : string) : ResponsesContentPart :=
  zero_ResponsesContentPart <| rcp_Type := "summary_text" |> <| rcp_Text := text |>.
(** An event of the open reasoning item, of the message item. *)
Definition reasoning_event (st : State) : ResponsesStreamEvent :=
  zero_ResponsesStreamEvent <| rse_OutputIndex := cs_ReasoningIndex st |>
    <| rse_ItemID := cs_ReasoningItemID st |>.
Definition message_event (st : State) : ResponsesStreamEvent :=
  zero_ResponsesStreamEvent <| rse_OutputIndex := cs_MessageIndex st |>
    <| rse_ItemID := cs_MessageItemID st |>.
Definition item_event (index : Z) (item : ResponsesOutput) : ResponsesStreamEvent :=
  zero_ResponsesStreamEvent <| rse_OutputIndex := index |> <| rse_Item := Some item |>.

Section Stream.
Context (itemIDs : nat -> string).

Definition ensureChatReasoningItem (st : State) : State * Events :=
  if cs_ReasoningOpen st || cs_ReasoningDone st then (st, [])
  else
    (chatToResponsesEvent "response.output_item.added" (fun st =>
       item_event (cs_ReasoningIndex st) (zero_ResponsesOutput <| ro_Type := "reasoning" |>
         <| ro_ID := cs_ReasoningItemID st |> <| ro_Status := "in_progress" |>)) ;>>
     chatToResponsesEvent "response.reasoning_summary_part.added" (fun st =>
       (reasoning_event st) <| rse_Part := Some (summary_text_part "") |>))
    (st <| cs_ReasoningOpen := true |>
        <| cs_ReasoningItemID := itemIDs (cs_IDs st) |> <| cs_IDs := S (cs_IDs st) |>
        <| cs_ReasoningIndex := cs_nextOutputIndex st |>
        <| cs_nextOutputIndex := cs_nextOutputIndex st + 1 |>).

Definition closeChatReasoningItem (st : State) : State * Events :=
  if negb (cs_ReasoningOpen st) then (st, [])
  else
    (chatToResponsesEvent "response.reasoning_summary_text.done" (fun st =>
       (reasoning_event st) <| rse_Text := cs_Reasoning st |>) ;>>
     chatToResponsesEvent "response.reasoning_summary_part.done" (fun st =>
       (reasoning_event st) <| rse_Part := Some (summary_text_part (cs_Reasoning st)) |>) ;>>
     chatToResponsesEvent "response.output_item.done" (fun st =>
       item_event (cs_ReasoningIndex st)
         ((reasoning_item (cs_ReasoningItemID st) (cs_Reasoning st)) <| ro_Status := "completed" |>)))
    (st <| cs_ReasoningOpen := false |> <| cs_ReasoningDone := true |>).

Definition reasoning_delta (text : string) : State -> State * Events :=
  ensureChatReasoningItem ;>>
  silent (fun st => st <| cs_Reasoning := cs_Reasoning st +:+ text |>) ;>>
  chatToResponsesEvent "response.reasoning_summary_text.delta" (fun st =>
    (reasoning_event st) <| rse_Delta := text |>).

(** ** Text *)

Definition ensureChatToResponsesMessageItem (st : State) : State * Events :=
  if negb (cs_MessageItemID st =?s "") then (st, [])
  else
    chatToResponsesEvent "response.output_item.added" (fun st =>
      item_event (cs_MessageIndex st)
        ((message_item (cs_MessageItemID st) [output_text_part ""]) <| ro_Status := "in_progress" |>))
    (st <| cs_MessageItemID := itemIDs (cs_IDs st) |> <| cs_IDs := S (cs_IDs st) |>
        <| cs_MessageIndex := cs_nextOutputIndex st |>
        <| cs_nextOutputIndex := cs_nextOutputIndex st + 1 |>).

Definition ensureChatToResponsesTextPart (st : State) : State * Events :=
  if cs_TextPartOpen st then (st, [])
  else chatToResponsesEvent "response.content_part.added" (fun st =>
         (message_event st) <| rse_Part := Some (output_text_part "") |>)
       (st <| cs_TextPartOpen := true |>).

Definition emit_text (text : string) : State -> State * Events :=
  ensureChatToResponsesMessageItem ;>> ensureChatToResponsesTextPart ;>>
  silent (fun st => st <| cs_Text := cs_Text st +:+ text |>) ;>>
  chatToResponsesEvent "response.output_text.delta" (fun st =>
    (message_event st) <| rse_Delta := text |>).
Definition answer_delta (text : string) : State -> State * Events :=
  closeChatReasoningItem ;>> emit_text text.

Definition synthesizeChatReasoningFallbackMessage (st : State) : State * Events :=
  if negb (cs_MessageItemID st =?s "") || negb (cs_Text st =?s "") || (cs_Reasoning st =?s "")
     || negb (bool_decide (cs_ToolCalls st = ∅)) || (TrimSpace (cs_Reasoning st) =?s "")
  then (st, [])
  else emit_text (cs_Reasoning st) st.

(** ** Tool calls *)

Definition item_id (st : State) (i : Z) : string := default "" (cs_ToolItemIDs st !! i).
Definition item_index (st : State) (i : Z) : Z := default 0 (cs_ToolOutputIndex st !! i).
(** An event of the item of call [i]. *)
Definition call_event (i : Z) (st : State) : ResponsesStreamEvent :=
  zero_ResponsesStreamEvent <| rse_OutputIndex := item_index st i |> <| rse_ItemID := item_id st i |>.
Definition arguments_delta (i : Z) (stored : ChatToolCall) (delta : string) : State -> State * Events :=
  chatToResponsesEvent "response.function_call_arguments.delta" (fun st =>
    (call_event i st) <| rse_Delta := delta |> <| rse_CallID := ctc_ID stored |>
      <| rse_Name := cfc_Name (ctc_Function stored) |>).

Definition has_tables (t : ToolTables) : bool :=
  negb (bool_decide (CustomTools t = ∅)) || negb (bool_decide (FunctionTools t = ∅))
  || ToolSearchDeclared t || negb (bool_decide (NamespaceTools t = ∅)).

Definition announceChatToolItem (i : Z) (stored : ChatToolCall) (force : bool) (st : State) :
    State * Events :=
  let name := cfc_Name (ctc_Function stored) in
  let t := cs_tables st in
  if is_set (cs_toolAnnounced st) i then (st, [])
  else if negb force && (name =?s "") && has_tables t then (st, [])
  else
    let custom := customToolCallName name t in
    let isCustom := match custom with Some _ => true | None => false end in
    let isToolSearch := negb isCustom && ToolSearchDeclared t && (name =?s toolSearchProxyName) in
    let itemType := if isToolSearch then "tool_search_call"
                    else if isCustom then "custom_tool_call" else "function_call" in
    let ns := if isCustom || isToolSearch then None else NamespaceTools t !! name in
    let '(itemName, itemNamespace) :=
      match ns with
      | Some ns => (ntn_Name ns, ntn_Namespace ns)
      | None => (default name custom, "")
      end in
    let st := st
      <| cs_toolAnnounced := <[i := true]> (cs_toolAnnounced st) |>
      <| cs_toolIsCustom := <[i := isCustom]> (cs_toolIsCustom st) |>
      <| cs_toolIsToolSearch := <[i := isToolSearch]> (cs_toolIsToolSearch st) |>
      <| cs_toolNamespace := match ns with Some ns => <[i := ns]> (cs_toolNamespace st)
                                         | None => cs_toolNamespace st end |> in
    (chatToResponsesEvent "response.output_item.added" (fun st =>
       item_event (item_index st i)
         (zero_ResponsesOutput <| ro_Type := itemType |> <| ro_ID := item_id st i |>
            <| ro_CallID := ctc_ID stored |> <| ro_Name := itemName |>
            <| ro_Namespace := itemNamespace |> <| ro_Status := "in_progress" |>)) ;>>
     (if negb isCustom && negb isToolSearch && negb (cfc_Arguments (ctc_Function stored) =?s "")
      then arguments_delta i stored (cfc_Arguments (ctc_Function stored)) else skip)) st.

(** What is stored of a call, before its arguments are appended: of a new one the copy
    without arguments and an item, of a known one the id and the name that arrived. *)
Definition start_call (i : Z) (toolCall : ChatToolCall) (st : State) : State :=
  let n := cs_IDs st in
  let '(id, n) := if ctc_ID toolCall =?s "" then (itemIDs n, S n) else (ctc_ID toolCall, n) in
  st <| cs_ToolCalls := <[i := toolCall <| ctc_ID := id |> <| ctc_Type := "function" |>
          <| ctc_Function := (ctc_Function toolCall) <| cfc_Arguments := "" |> |>]> (cs_ToolCalls st) |>
     <| cs_ToolItemIDs := <[i := itemIDs n]> (cs_ToolItemIDs st) |>
     <| cs_IDs := S n |>
     <| cs_ToolOutputIndex := <[i := cs_nextOutputIndex st]> (cs_ToolOutputIndex st) |>
     <| cs_nextOutputIndex := cs_nextOutputIndex st + 1 |>.
Definition update_call (i : Z) (stored toolCall : ChatToolCall) (st : State) : State :=
  let id := ctc_ID toolCall in
  let name := cfc_Name (ctc_Function toolCall) in
  st <| cs_ToolCalls := <[i := stored
          <| ctc_ID := if id =?s "" then ctc_ID stored else id |>
          <| ctc_Function := (ctc_Function stored)
               <| cfc_Name := if name =?s "" then cfc_Name (ctc_Function stored) else name |> |>]>
          (cs_ToolCalls st) |>.
Definition stored_call (st : State) (i : Z) : ChatToolCall := default zero_ChatToolCall (cs_ToolCalls st !! i).
Definition append_arguments (i : Z) (arguments : string) (st : State) : State :=
  let stored := stored_call st i in
  st <| cs_ToolCalls := <[i := stored <| ctc_Function := (ctc_Function stored)
          <| cfc_Arguments := cfc_Arguments (ctc_Function stored) +:+ arguments |> |>]> (cs_ToolCalls st) |>.

Definition record_call (i : Z) (toolCall : ChatToolCall) (st : State) : State * Events :=
  match cs_ToolCalls st !! i with
  | None => (closeChatReasoningItem ;>> silent (start_call i toolCall)) st
  | Some stored => silent (update_call i stored toolCall) st
  end.
Definition add_arguments (i : Z) (arguments : string) : State -> State * Events :=
  if arguments =?s "" then skip
  else silent (append_arguments i arguments) ;>>
       (fun st =>
          if is_set (cs_toolAnnounced st) i && negb (is_set (cs_toolIsCustom st) i)
             && negb (is_set (cs_toolIsToolSearch st) i)
          then arguments_delta i (stored_call st i) arguments st else (st, [])).

(** One round of the loop over a delta's calls. *)
Definition tool_call_delta (toolCall : ChatToolCall) : State -> State * Events :=
  let i := default 0 (ctc_Index toolCall) in
  record_call i toolCall ;>>
  (fun st => announceChatToolItem i (stored_call st i) false st) ;>>
  add_arguments i (cfc_Arguments (ctc_Function toolCall)).

Fixpoint tool_call_deltas (calls : list ChatToolCall) : State -> State * Events :=
  match calls with [] => skip | c :: calls => tool_call_delta c ;>> tool_call_deltas calls end.

(** ** A chunk *)

Definition when_text (o : option string) (f : string -> State -> State * Events) : State -> State * Events :=
  match o with Some s => if s =?s "" then skip else f s | None => skip end.

Definition choice_delta (choice : ChatChunkChoice) : State -> State * Events :=
  let delta := ccc_Delta choice in
  when_text (delta_reasoning delta) reasoning_delta ;>>
  when_text (cdl_Content delta) answer_delta ;>>
  tool_call_deltas (cdl_ToolCalls delta) ;>>
  when_text (ccc_FinishReason choice) (fun r => silent (fun st => st <| cs_FinishReason := r |>)).
Fixpoint choice_deltas (choices : list ChatChunkChoice) : State -> State * Events :=
  match choices with [] => skip | c :: choices => choice_delta c ;>> choice_deltas choices end.

Definition record_chunk (chunk : ChatCompletionsChunk) (st : State) : State :=
  let st := if chk_ID chunk =?s "" then st else st <| cs_ResponseID := chk_ID chunk |> in
  let st := if (cs_Model st =?s "") && negb (chk_Model chunk =?s "")
            then st <| cs_Model := chk_Model chunk |> else st in
  let st := if chk_ServiceTier chunk =?s "" then st
            else st <| cs_ServiceTier := chk_ServiceTier chunk |> in
  match chk_Usage chunk with
  | Some u => st <| cs_Usage := ChatUsageToResponsesUsage (Some u) |>
  | None => st
  end.
Definition ChatCompletionsChunkToResponsesEvents (chunk : ChatCompletionsChunk) : State -> State * Events :=
  silent (record_chunk chunk) ;>> ensureChatToResponsesCreated ;>> choice_deltas (chk_Choices chunk).

(** ** The end of the stream *)

Definition close_message (st : State) : State * Events :=
  if cs_MessageItemID st =?s "" then (st, [])
  else
    ((fun st => if cs_TextPartOpen st then
       (chatToResponsesEvent "response.output_text.done" (fun st =>
          (message_event st) <| rse_Text := cs_Text st |>) ;>>
        chatToResponsesEvent "response.content_part.done" (fun st =>
          (message_event st) <| rse_Part := Some (output_text_part (cs_Text st)) |>)) st
      else (st, [])) ;>>
     chatToResponsesEvent "response.output_item.done" (fun st =>
       item_event (cs_MessageIndex st)
         (message_item (cs_MessageItemID st) [output_text_part (cs_Text st)]))) st.

Definition customNameForStreamTool (st : State) (name : string) : string :=
  default name (customToolCallName name (cs_tables st)).

(** The finished item of call [i] with item id [id]. *)
Definition finished_call (st : State) (i : Z) (toolCall : ChatToolCall) (id : string) : ResponsesOutput :=
  let name := cfc_Name (ctc_Function toolCall) in
  let arguments := call_arguments_or_empty (cfc_Arguments (ctc_Function toolCall)) in
  if is_set (cs_toolIsCustom st) i then
    custom_call_item id (ctc_ID toolCall) (customNameForStreamTool st name)
      (extractCustomToolCallInput arguments)
  else if is_set (cs_toolIsToolSearch st) i then search_call_item id (ctc_ID toolCall) arguments
  else match cs_toolNamespace st !! i with
       | Some ns => function_call_item id (ctc_ID toolCall) (ntn_Name ns) (ntn_Namespace ns) arguments
       | None => function_call_item id (ctc_ID toolCall) name "" arguments
       end.

Definition close_call_events (i : Z) (toolCall : ChatToolCall) (st : State) : State * Events :=
  let item := finished_call st i toolCall (item_id st i) in
  let done := chatToResponsesEvent "response.output_item.done" (fun st => item_event (item_index st i) item) in
  (if is_set (cs_toolIsCustom st) i then
     (if ro_Input item =?s "" then skip
      else chatToResponsesEvent "response.custom_tool_call_input.delta" (fun st =>
             (call_event i st) <| rse_Delta := ro_Input item |>)) ;>>
     chatToResponsesEvent "response.custom_tool_call_input.done" (fun st =>
       (call_event i st) <| rse_CallID := ro_CallID item |> <| rse_Name := ro_Name item |>
         <| rse_Input := ro_Input item |>) ;>> done
   else if is_set (cs_toolIsToolSearch st) i then done
   else
     chatToResponsesEvent "response.function_call_arguments.done" (fun st =>
       (call_event i st) <| rse_CallID := ro_CallID item |> <| rse_Name := ro_Name item |>
         <| rse_Arguments := ro_Arguments item |>) ;>> done) st.

(** A round of the loop of [closeChatToolItems]; an index without a call is skipped. *)
Definition close_call (i : Z) (st : State) : State * Events :=
  match cs_ToolCalls st !! i, cs_ToolItemIDs st !! i with
  | Some toolCall, Some _ => (announceChatToolItem i toolCall true ;>> close_call_events i toolCall) st
  | _, _ => (st, [])
  end.
Fixpoint close_calls (l : list Z) : State -> State * Events :=
  match l with [] => skip | i :: l => close_call i ;>> close_calls l end.
(** [0 .. len(state.ToolCalls) - 1] *)
Definition call_indices (st : State) : list Z := seqZ 0 (Z.of_nat (size (cs_ToolCalls st))).
Definition closeChatToolItems (st : State) : State * Events := close_calls (call_indices st) st.

(** The output list of the terminal event; every item but the message gets a new id,
    of which [n] were drawn before. *)
Fixpoint finished_calls (st : State) (l : list Z) (n : nat) : list ResponsesOutput :=
  match l with
  | [] => []
  | i :: l =>
      match cs_ToolCalls st !! i with
      | Some toolCall => finished_call st i toolCall (itemIDs n) :: finished_calls st l (S n)
      | None => finished_calls st l n
      end
  end.
Definition chatOutput (st : State) : list ResponsesOutput :=
  let n := cs_IDs st in
  let '(reasoning, n) :=
    if cs_Reasoning st =?s "" then ([], n) else ([reasoning_item (itemIDs n) (cs_Reasoning st)], S n) in
  let '(message, n) :=
    if negb (cs_MessageItemID st =?s "") || bool_decide (cs_ToolCalls st = ∅) then
      ([message_item (if cs_MessageItemID st =?s "" then itemIDs n else cs_MessageItemID st)
          [output_text_part (cs_Text st)]], S n)
    else ([], n) in
  reasoning ++ message ++ finished_calls st (call_indices st) n.

Definition completed_response (st : State) : ResponsesResponse :=
  let incomplete := cs_FinishReason st =?s "length" in
  (response_shell st (if incomplete then "incomplete" else "completed"))
    <| rr_Output := chatOutput st |> <| rr_Usage := cs_Usage st |>
    <| rr_IncompleteDetails :=
         if incomplete then Some (MkResponsesIncompleteDetails "max_output_tokens") else None |>.

Definition FinalizeChatCompletionsResponsesStream (st : State) : State * Events :=
  if cs_CompletedSent st then (st, [])
  else
    (ensureChatToResponsesCreated ;>> closeChatReasoningItem ;>>
     synthesizeChatReasoningFallbackMessage ;>> close_message ;>> closeChatToolItems ;>>
     silent (fun st => st <| cs_CompletedSent := true |>) ;>>
     chatToResponsesEvent "response.completed" (fun st =>
       zero_ResponsesStreamEvent <| rse_Response := Some (completed_response st) |>)) st.

#[export] Instance chat_answer_converter : Converter State ChatCompletionsChunk ResponsesStreamEvent := {
  conv_step := ChatCompletionsChunkToResponsesEvents;
  conv_finalize := FinalizeChatCompletionsResponsesStream;
}.
End Stream.
