(* ===== verification/ChatToolTablesProofs.v ===== *)
(** * Every call goes back to the tool it was meant for

    Theorems on [ChatToolTables] and the way back of [ChatAnswerToResponses].  When a
    request's tools can be lowered at all, the function names a Chat Completions
    upstream sees are distinct, and a call of any of them is turned back into a call of
    exactly the tool the client declared ([tools_routed_back]).  Requests for which
    this would fail are the ones refused. *)

From S2P Require Import Prelude Json JsonCodec GoStrings ModelNames ToolSchema Apicompat RequestCodec Encoding ResponsesToAnthropicRequest ChatToResponses ChatToolTables ChatAnswerToResponses.
Local Open Scope string_scope.
Local Open Scope nat_scope.
Local Open Scope list_scope.
Local Open Scope go_scope.

(** ** What a call is turned into *)

Inductive target :=
| FunctionCall (name : string)
| CustomCall (name : string)
| SearchCall
| NamespaceCall (namespace name : string).

(** The decision of [call_output] and [announceChatToolItem]. *)
Definition route (t : ToolTables) (name : string) : target :=
  match customToolCallName name t with
  | Some custom => CustomCall custom
  | None =>
      if ToolSearchDeclared t && (name =?s toolSearchProxyName) then SearchCall
      else match NamespaceTools t !! name with
           | Some ns => NamespaceCall (ntn_Namespace ns) (ntn_Name ns)
           | None => FunctionCall name
           end
  end.
Definition target_item (g : target) (id callID arguments : string) : ResponsesOutput :=
  match g with
  | FunctionCall name => function_call_item id callID name "" arguments
  | CustomCall name => custom_call_item id callID name (extractCustomToolCallInput arguments)
  | SearchCall => search_call_item id callID arguments
  | NamespaceCall namespace name => function_call_item id callID name namespace arguments
  end.

Lemma call_output_routed itemIDs t n tc :
  let arguments := call_arguments_or_empty (cfc_Arguments (ctc_Function tc)) in
  json_valid arguments = true ->
  call_output itemIDs t n tc
  = [target_item (route t (cfc_Name (ctc_Function tc))) (itemIDs n) (ctc_ID tc) arguments].
Proof.
  intros arguments Hv. unfold call_output, route. fold arguments. rewrite Hv.
  destruct (customToolCallName _ _); [done|]. destruct (_ && _); [done|].
  by destruct (NamespaceTools t !! _).
Qed.

(** The names a declared tool can be called by, and what such a call means. *)
Definition declares (t : ResponsesTool) : list (string * target) :=
  if rt_Type t =?s "function" then [(rt_Name t, FunctionCall (rt_Name t))]
  else if rt_Type t =?s "custom" then [(rt_Name t, CustomCall (rt_Name t))]
  else if rt_Type t =?s "tool_search" then [(toolSearchProxyName, SearchCall)]
  else if rt_Type t =?s "namespace" then
    if rt_Name t =?s "" then []
    else map (fun child => (flattenNamespaceToolName (rt_Name t) (rt_Name child),
                            NamespaceCall (rt_Name t) (rt_Name child)))
           (List.filter callable_child (tool_children t))
  else [].

(** The functions of a chat request, by their names. *)
Definition function_names (tools : list ChatTool) : list string :=
  omap (fun t => cfn_Name <$> cto_Function t) tools.
Definition nonempty (names : list string) : list string := List.filter (fun n => negb (n =?s "")) names.

(** ** Flat names *)

Lemma Contains_app a p b : Contains (a +:+ p +:+ b) p = true.
Proof.
  induction a as [|c a IH].
  - change ("" +:+ p +:+ b) with (p +:+ b). assert (H : HasPrefix (p +:+ b) p = true) by (apply HasPrefix_spec; by exists b).
    destruct (p +:+ b); cbn [Contains]; by rewrite H.
  - change (String c a +:+ p +:+ b) with (String c (a +:+ p +:+ b)). cbn [Contains]. by rewrite IH, orb_true_r.
Qed.

Lemma flat_marked namespace name : Contains (flattenNamespaceToolName namespace name) "__" = true.
Proof.
  unfold flattenNamespaceToolName. cbv zeta. destruct (_ <=? _); [apply Contains_app|].
  generalize (hex (take 4 (sha256 (namespace +:+ "__" +:+ name)))). intros h. apply Contains_app.
Qed.
Lemma flat_not_proxy namespace name : flattenNamespaceToolName namespace name <> toolSearchProxyName.
Proof. intros E. pose proof (flat_marked namespace name) as H. by rewrite E in H. Qed.

Lemma rune_prefix_length room rs : String.length (rune_prefix room rs) <= room.
Proof.
  revert room. induction rs as [|[r w] rs IH]; intros room; simpl; [lia|].
  destruct (room <? String.length (encode_rune r)) eqn:E; [simpl; lia|].
  apply Nat.ltb_ge in E. rewrite str_length_app. specialize (IH (room - String.length (encode_rune r))). lia.
Qed.
Lemma hex_length l : String.length (hex l) = 2 * length l.
Proof. induction l as [|b l IH]; [done|]. simpl. rewrite IH. lia. Qed.

(** Upstreams accept names of at most 64 bytes. *)
Lemma flat_length namespace name :
  String.length (flattenNamespaceToolName namespace name) <= chatToolNameMaxLen.
Proof.
  unfold flattenNamespaceToolName. cbv zeta. destruct (_ <=? _) eqn:E; [by apply Nat.leb_le|].
  set (h := hex _). assert (H : String.length ("__" +:+ h) <= 10).
  { rewrite str_length_app. unfold h. rewrite hex_length, length_take. change (String.length "__") with 2. lia. }
  rewrite str_length_app. pose proof (rune_prefix_length (chatToolNameMaxLen - String.length ("__" +:+ h))
    (runes (namespace +:+ "__" +:+ name))). unfold chatToolNameMaxLen in *. lia.
Qed.

(** ** The two passes over the declarations *)

Definition exec_names (tools : list ResponsesTool) : list string :=
  map rt_Name (List.filter is_executable tools).

Lemma exec_names_spec tools n :
  n ∈ exec_names tools <-> exists t, t ∈ tools /\ is_executable t = true /\ rt_Name t = n.
Proof.
  unfold exec_names. rewrite list_elem_of_fmap. setoid_rewrite list_elem_of_In. setoid_rewrite filter_In.
  naive_solver.
Qed.

Lemma top_level_spec tools seen top :
  top_level tools seen = inr top ->
  top = seen ∪ list_to_set (exec_names tools) /\ NoDup (exec_names tools)
  /\ forall n, n ∈ exec_names tools -> n ∉ seen.
Proof.
  revert seen. induction tools as [|t tools IH]; intros seen; simpl.
  { intros [= <-]. split_and!; [set_solver|constructor|set_solver]. }
  unfold exec_names. simpl. destruct (is_executable t); simpl; fold (exec_names tools); [|apply IH].
  case_bool_decide as Hin; [done|]. intros (-> & Hd & Hs)%IH. split_and!; [set_solver| |set_solver].
  constructor; [|done]. intros ?%Hs. set_solver.
Qed.

(** Two executable tools of one name are one declaration. *)
Lemma exec_unique tools t1 t2 :
  NoDup (exec_names tools) -> t1 ∈ tools -> t2 ∈ tools ->
  is_executable t1 = true -> is_executable t2 = true -> rt_Name t1 = rt_Name t2 -> t1 = t2.
Proof.
  intros Hd H1 H2 E1 E2 En. unfold exec_names in Hd.
  assert (I : forall t, t ∈ tools -> is_executable t = true -> t ∈ List.filter is_executable tools).
  { intros t Ht He. apply list_elem_of_In, filter_In. by rewrite <- list_elem_of_In. }
  apply I in H1, H2; try done. clear I E1 E2. revert Hd H1 H2.
  induction (List.filter is_executable tools) as [|t l IH]; simpl; [by intros _ []%not_elem_of_nil|].
  intros [Hn Hd]%NoDup_cons [->|H1]%elem_of_cons [->|H2]%elem_of_cons; auto.
  - destruct Hn. rewrite En. by apply list_elem_of_fmap_2.
  - destruct Hn. rewrite <- En. by apply list_elem_of_fmap_2.
Qed.

Lemma children_spec namespace top children owner out owner' :
  lower_children namespace top children owner = inr (out, owner') ->
  owner ⊆ owner' /\
  (forall child, child ∈ List.filter callable_child children ->
     (namespace_entry namespace child).1 ∉ top
     /\ owner' !! (namespace_entry namespace child).1 = Some (namespace_entry namespace child).2).
Proof.
  revert owner out. induction children as [|child children IH]; intros owner out; simpl.
  { intros [= <- <-]. split; [done|]. by intros ? ?%not_elem_of_nil. }
  destruct (callable_child child) eqn:Ec; simpl; [|apply IH].
  case_bool_decide as Ht; [done|]. set (flat := flattenNamespaceToolName _ _) in *.
  destruct (owner !! flat) as [prev|] eqn:Eo.
  - case_bool_decide as Ep; [|done]. subst prev. intros [Hs Hc]%IH. split; [done|].
    intros c [->|Hin]%elem_of_cons; [|by apply Hc]. split; [done|]. simpl. by eapply lookup_weaken.
  - destruct (lower_children _ _ _ _) as [|[rest owner1]] eqn:El; [done|]. cbn [mbind result_bind].
    intros [= <- <-]. apply IH in El as [Hs Hc]. split.
    + transitivity (<[flat := MkNamespacedToolName namespace (rt_Name child)]> owner); [by apply insert_subseteq|done].
    + intros c [->|Hin]%elem_of_cons; [|by apply Hc]. split; [done|]. simpl.
      eapply lookup_weaken; [|exact Hs]. by rewrite lookup_insert_eq.
Qed.

Lemma namespace_spec tool top owner out owner' :
  namespaceChildrenToChatTools tool top owner = inr (out, owner') ->
  owner ⊆ owner' /\
  Forall (fun e => e.1 ∉ top /\ owner' !! e.1 = Some e.2)
    (if rt_Name tool =?s "" then []
     else map (namespace_entry (rt_Name tool)) (List.filter callable_child (tool_children tool))).
Proof.
  unfold namespaceChildrenToChatTools. destruct (rt_Name tool =?s ""); [by intros [= <- <-]|].
  intros [Hs H]%children_spec. split; [done|]. apply Forall_forall.
  intros e (child & -> & Hc)%list_elem_of_fmap. by apply H.
Qed.

(** What holds of the tools after [t], and of [t] itself, when the loop succeeds. *)
Lemma lower_cons top t tools owner decl out :
  lower_tools top (t :: tools) owner decl = inr out ->
  exists new rest owner1 decl1,
    out = new ++ rest /\ lower_tools top tools owner1 decl1 = inr rest /\
    ((rt_Type t = "function" /\ new = [lower_function t] /\ owner1 = owner /\ decl1 = decl)
     \/ (rt_Type t = "custom" /\ new = [lower_custom t] /\ owner1 = owner /\ decl1 = decl)
     \/ (rt_Type t = "tool_search" /\ toolSearchProxyName ∉ top /\ owner1 = owner /\ decl1 = true
         /\ new = if decl then [] else [toolSearchProxyChatTool])
     \/ (rt_Type t = "namespace" /\ decl1 = decl
         /\ namespaceChildrenToChatTools t top owner = inr (new, owner1))
     \/ (one_of ["function"; "custom"; "tool_search"; "namespace"] (rt_Type t) = false
         /\ function_names new = [] /\ owner1 = owner /\ decl1 = decl)).
Proof.
  cbn [lower_tools]. unfold one_of. cbn [existsb].
  destruct (String.eqb_spec (rt_Type t) "function") as [E|_].
  { destruct (lower_tools _ _ _ _) as [|rest] eqn:R; [done|]. intros [= <-]. exists [lower_function t], rest, owner, decl.
    split_and!; [done..|]. by left. }
  destruct (String.eqb_spec (rt_Type t) "custom") as [E|_].
  { destruct (lower_tools _ _ _ _) as [|rest] eqn:R; [done|]. intros [= <-]. exists [lower_custom t], rest, owner, decl.
    split_and!; [done..|]. by right; left. }
  destruct (String.eqb_spec (rt_Type t) "tool_search") as [E|_].
  { case_bool_decide as Hp; [done|]. destruct decl.
    - intros R. exists [], out, owner, true. split_and!; [done..|]. by do 2 right; left.
    - destruct (lower_tools _ _ _ _) as [|rest] eqn:R; [done|]. intros [= <-].
      exists [toolSearchProxyChatTool], rest, owner, true. split_and!; [done..|]. by do 2 right; left. }
  destruct (String.eqb_spec (rt_Type t) "namespace") as [E|_].
  { destruct (namespaceChildrenToChatTools _ _ _) as [|[new owner1]] eqn:N; [done|]. cbn [mbind result_bind].
    destruct (lower_tools _ _ _ _) as [|rest] eqn:R; [done|]. intros [= <-]. exists new, rest, owner1, decl.
    split_and!; [done..|]. by do 3 right; left. }
  destruct (rt_Type t =?s "x_search").
  - destruct (lower_tools _ _ _ _) as [|rest] eqn:R; [done|]. intros [= <-]. exists [lower_x_search t], rest, owner, decl.
    split_and!; [done..|]. by do 4 right.
  - intros R. exists [], out, owner, decl. split_and!; [done..|]. by do 4 right.
Qed.

Lemma entries_other t :
  rt_Type t <> "namespace" ->
  (if negb (rt_Type t =?s "namespace") || (rt_Name t =?s "") then []
   else map (namespace_entry (rt_Name t)) (List.filter callable_child (tool_children t))) = [].
Proof. by intros ->%String.eqb_neq. Qed.

Lemma lower_spec top tools owner decl out :
  lower_tools top tools owner decl = inr out ->
  (HasToolSearchTool tools = true -> toolSearchProxyName ∉ top) /\
  exists owner', owner ⊆ owner' /\
    Forall (fun e => e.1 ∉ top /\ owner' !! e.1 = Some e.2) (namespace_entries tools).
Proof.
  revert owner decl out. induction tools as [|t tools IH]; intros owner decl out.
  { intros _. split; [done|]. exists owner. split; [done|constructor]. }
  intros (new & rest & owner1 & decl1 & _ & R & C)%lower_cons. apply IH in R as (Hs & owner' & Ho & He).
  unfold HasToolSearchTool, namespace_entries. cbn [existsb flat_map].
  fold (HasToolSearchTool tools). fold (namespace_entries tools).
  destruct C as [(E & _ & -> & _)|[(E & _ & -> & _)|[(E & Hp & -> & _)|[(E & _ & N)|(E & _ & -> & _)]]]].
  1-3: split; [|exists owner'; split; [done|]; rewrite entries_other by (by rewrite E); done].
  - by rewrite E.
  - by rewrite E.
  - done.
  - rewrite E. split; [done|]. apply namespace_spec in N as [Hn Hf]. exists owner'. split; [by transitivity owner1|].
    apply Forall_app. split; [|done]. simpl. eapply Forall_impl; [exact Hf|].
    intros e [H1 H2]. split; [done|]. by eapply lookup_weaken.
  - assert (Hn : rt_Type t <> "tool_search" /\ rt_Type t <> "namespace").
    { split; intros Ht; by rewrite Ht in E. }
    destruct Hn as [H1 H2]. split.
    + apply String.eqb_neq in H1. by rewrite H1.
    + exists owner'. split; [done|]. by rewrite entries_other.
Qed.

(** The map of the way back holds every flat name with its owner. *)
Lemma names_spec (owner : gmap string NamespacedToolName) tools :
  Forall (fun e => owner !! e.1 = Some e.2) (namespace_entries tools) ->
  (forall e, e ∈ namespace_entries tools -> NamespaceToolNames tools !! e.1 = Some e.2)
  /\ forall n ns, NamespaceToolNames tools !! n = Some ns -> (n, ns) ∈ namespace_entries tools.
Proof.
  unfold NamespaceToolNames. generalize (namespace_entries tools). intros l.
  induction l as [|e l IH] using rev_ind; [by split; [intros ? ?%not_elem_of_nil|]|].
  intros [Hl He]%Forall_app. apply Forall_cons in He as [He _]. destruct (IH Hl) as [I1 I2].
  rewrite foldl_app. simpl. split.
  - intros e' [Hin| ->%list_elem_of_singleton]%elem_of_app; [|by rewrite lookup_insert_eq].
    destruct (decide (e'.1 = e.1)) as [Ee|Ne]; [|rewrite lookup_insert_ne by done; by apply I1].
    rewrite Ee, lookup_insert_eq, <- He, <- Ee. rewrite Forall_forall in Hl. by apply Hl.
  - intros n ns. destruct (decide (e.1 = n)) as [<-|Ne].
    + rewrite lookup_insert_eq. intros [= <-]. destruct e. set_solver.
    + rewrite lookup_insert_ne by done. intros ?%I2. set_solver.
Qed.

(** ** Distinct names *)

(** [lower_children] declares every flat name at most once, and none that was taken. *)
Lemma children_names namespace top children owner out owner' :
  lower_children namespace top children owner = inr (out, owner') ->
  NoDup (function_names out)
  /\ (forall n, n ∈ function_names out -> owner !! n = None /\ is_Some (owner' !! n) /\ n ∉ top
        /\ exists child, child ∈ List.filter callable_child children
             /\ n = flattenNamespaceToolName namespace (rt_Name child))
  /\ (forall n, owner' !! n <> owner !! n -> n ∈ function_names out)
  /\ (forall child, child ∈ List.filter callable_child children ->
        is_Some (owner !! flattenNamespaceToolName namespace (rt_Name child))
        \/ flattenNamespaceToolName namespace (rt_Name child) ∈ function_names out).
Proof.
  revert owner out. induction children as [|child children IH]; intros owner out; cbn [lower_children].
  { intros [= <- <-]. split_and!; [constructor|set_solver..]. }
  cbn [List.filter]. destruct (callable_child child) eqn:Ec; cbn [negb]; [|apply IH].
  unfold namespace_entry. case_bool_decide as Ht; [done|].
  set (flat := flattenNamespaceToolName namespace (rt_Name child)) in *.
  destruct (owner !! flat) as [prev|] eqn:Eo.
  - case_bool_decide as Ep; [|done]. intros (H1 & H2 & H3 & H4)%IH. split_and!; [done| |done|].
    + intros n (? & ? & ? & c & ? & ->)%H2. split_and!; [done..|]. exists c. split; [by right|done].
    + intros c [->|Hin]%elem_of_cons; [left; fold flat; by rewrite Eo|by apply H4].
  - destruct (lower_children _ _ _ _) as [|[rest owner1]] eqn:El; [done|]. cbn [mbind result_bind].
    intros [= <- <-]. pose proof (proj1 (children_spec _ _ _ _ _ _ El)) as Hsub. apply IH in El as (H1 & H2 & H3 & H4).
    change (function_names (declare_function flat ?a ?b ?c :: rest)) with (flat :: function_names rest).
    assert (Hf : owner1 !! flat = Some (MkNamespacedToolName namespace (rt_Name child))).
    { eapply lookup_weaken; [|exact Hsub]. by rewrite lookup_insert_eq. }
    split_and!.
    + constructor; [|done]. intros (Hn & _)%H2. by rewrite lookup_insert_eq in Hn.
    + intros n [->|Hin]%elem_of_cons.
      * split_and!; [done|by rewrite Hf|done|]. exists child. split; [by left|done].
      * apply H2 in Hin as (Hn & Hs & Ht' & c & Hc & ->).
        destruct (decide (flat = flattenNamespaceToolName namespace (rt_Name c))) as [E|Ne];
          [by rewrite E, lookup_insert_eq in Hn|]. rewrite lookup_insert_ne in Hn by done.
        split_and!; [done..|]. exists c. split; [by right|done].
    + intros n Hn. destruct (decide (n = flat)) as [->|Ne]; [by left|]. right. apply H3.
      by rewrite lookup_insert_ne.
    + intros c [->|Hin]%elem_of_cons; [right; by left|]. apply H4 in Hin as [Hs|Hin]; [|right; by right].
      destruct (decide (flat = flattenNamespaceToolName namespace (rt_Name c))) as [E|Ne]; [right; rewrite <- E; by left|].
      rewrite lookup_insert_ne in Hs by done. by left.
Qed.

Lemma function_names_app l1 l2 : function_names (l1 ++ l2) = function_names l1 ++ function_names l2.
Proof. unfold function_names. apply omap_app. Qed.
Lemma nonempty_app l1 l2 : nonempty (l1 ++ l2) = nonempty l1 ++ nonempty l2.
Proof. apply List.filter_app. Qed.
Lemma nonempty_elem n l : n ∈ nonempty l <-> n ∈ l /\ n <> "".
Proof.
  unfold nonempty. rewrite !list_elem_of_In, filter_In, negb_true_iff, String.eqb_neq. done.
Qed.
Lemma nonempty_NoDup l : NoDup l -> NoDup (nonempty l).
Proof. intros H. apply NoDup_ListNoDup, List.NoDup_filter, NoDup_ListNoDup, H. Qed.

(** Where a declared name comes from, before the loop over [tools] starts. *)
Definition origin (top : gset string) (owner : gmap string NamespacedToolName) (decl : bool)
    (tools : list ResponsesTool) (n : string) : Prop :=
  n ∈ exec_names tools
  \/ (n ∉ top /\ owner !! n = None /\ Contains n "__" = true)
  \/ (n = toolSearchProxyName /\ decl = false /\ n ∉ top).

Lemma exec_cons t tools :
  exec_names (t :: tools) = (if is_executable t then [rt_Name t] else []) ++ exec_names tools.
Proof. unfold exec_names. simpl. by destruct (is_executable t). Qed.

Lemma not_executable t : rt_Type t <> "function" -> rt_Type t <> "custom" -> is_executable t = false.
Proof. intros H1%String.eqb_neq H2%String.eqb_neq. unfold is_executable. by rewrite H1, H2. Qed.

(** A function or custom tool declared before the others. *)
Lemma names_exec top owner decl t tools rest new :
  function_names [new] = [rt_Name t] -> rt_Type t = "function" \/ rt_Type t = "custom" ->
  NoDup (exec_names (t :: tools)) -> (forall n, n ∈ exec_names (t :: tools) -> n ∈ top) ->
  NoDup (nonempty (function_names rest)) ->
  (forall n, n ∈ nonempty (function_names rest) -> origin top owner decl tools n) ->
  NoDup (nonempty (function_names ([new] ++ rest)))
  /\ (forall n, n ∈ nonempty (function_names ([new] ++ rest)) -> origin top owner decl (t :: tools) n).
Proof.
  intros Hn Ht Hd Htop Hr Ho. rewrite function_names_app, Hn, nonempty_app. unfold origin. rewrite exec_cons in *.
  assert (Hx : is_executable t = negb (rt_Name t =?s "")).
  { unfold is_executable. by destruct Ht as [-> | ->]. }
  unfold nonempty at 1 3. cbn [List.filter]. rewrite Hx in *.
  destruct (rt_Name t =?s "") eqn:E; cbn [negb app] in *; [by split|].
  apply NoDup_cons in Hd as [Hnin Hd]. split.
  - constructor; [|done]. intros [Hin|[[Hin _]|[_ [_ Hin]]]]%Ho; [done| |]; apply Hin, Htop; by left.
  - intros n [->|Hin]%elem_of_cons; [left; by left|]. apply Ho in Hin as [Hin|Hin]; [left; by right|by right].
Qed.

(** The proxy of [tool_search], declared once. *)
Lemma names_search top owner (decl : bool) t tools rest :
  rt_Type t = "tool_search" -> toolSearchProxyName ∉ top ->
  (forall n, n ∈ exec_names tools -> n ∈ top) ->
  NoDup (nonempty (function_names rest)) ->
  (forall n, n ∈ nonempty (function_names rest) -> origin top owner true tools n) ->
  let new := if decl then [] else [toolSearchProxyChatTool] in
  NoDup (nonempty (function_names (new ++ rest)))
  /\ (forall n, n ∈ nonempty (function_names (new ++ rest)) -> origin top owner decl (t :: tools) n).
Proof.
  intros E Hp Htop Hr Ho new.
  assert (Hx : exec_names (t :: tools) = exec_names tools) by (rewrite exec_cons, not_executable; [done|by rewrite E..]).
  assert (Hrest : forall n, n ∈ nonempty (function_names rest) -> origin top owner decl (t :: tools) n).
  { intros n [Hin|[Hin|[_ [? _]]]]%Ho; [left; by rewrite Hx|by right; left|done]. }
  subst new. destruct decl; [by split|]. rewrite function_names_app, nonempty_app.
  change (nonempty (function_names [toolSearchProxyChatTool])) with [toolSearchProxyName]. split.
  - constructor; [|done]. intros [Hin%Htop|[(_ & _ & Hc)|[_ [? _]]]]%Ho; done.
  - intros n [->|Hin]%elem_of_cons; [by do 2 right|by apply Hrest].
Qed.

(** The children of a namespace. *)
Lemma names_namespace top owner owner1 decl t tools rest new :
  rt_Type t = "namespace" -> namespaceChildrenToChatTools t top owner = inr (new, owner1) ->
  (forall n, n ∈ exec_names tools -> n ∈ top) ->
  NoDup (nonempty (function_names rest)) ->
  (forall n, n ∈ nonempty (function_names rest) -> origin top owner1 decl tools n) ->
  NoDup (nonempty (function_names (new ++ rest)))
  /\ (forall n, n ∈ nonempty (function_names (new ++ rest)) -> origin top owner decl (t :: tools) n).
Proof.
  intros E N Htop Hr Ho.
  assert (Hx : exec_names (t :: tools) = exec_names tools) by (rewrite exec_cons, not_executable; [done|by rewrite E..]).
  pose proof (proj1 (namespace_spec _ _ _ _ _ N)) as Hsub.
  assert (Hrest : forall n, n ∈ nonempty (function_names rest) -> origin top owner decl (t :: tools) n).
  { intros n [Hin|[(Hn & Hl & Hc)|Hin]]%Ho; [left; by rewrite Hx| |by do 2 right].
    right; left. split_and!; [done| |done]. by eapply lookup_weaken_None. }
  unfold namespaceChildrenToChatTools in N. destruct (rt_Name t =?s ""); [injection N as <- <-; by split|].
  apply children_names in N as (Hd & Hc & _). rewrite function_names_app, nonempty_app. split.
  - apply NoDup_app. split_and!; [by apply nonempty_NoDup| |done].
    intros n [(_ & Hs & Ht & c & _ & ->)%Hc _]%nonempty_elem [Hin%Htop|[(_ & Hl & _)|[Hin _]]]%Ho; [done| |].
    + rewrite Hl in Hs. by apply is_Some_None in Hs.
    + by apply flat_not_proxy in Hin.
  - intros n [Hin|Hin]%elem_of_app; [|by apply Hrest].
    apply nonempty_elem in Hin as [(Hn & _ & Ht & c & _ & ->)%Hc _]. right; left. split_and!; [done..|apply flat_marked].
Qed.

Lemma lower_names top tools owner decl out :
  lower_tools top tools owner decl = inr out ->
  NoDup (exec_names tools) -> (forall n, n ∈ exec_names tools -> n ∈ top) ->
  NoDup (nonempty (function_names out))
  /\ (forall n, n ∈ nonempty (function_names out) -> origin top owner decl tools n).
Proof.
  revert owner decl out. induction tools as [|t tools IH]; intros owner decl out.
  { intros [= <-] _ _. split; [constructor|set_solver]. }
  intros (new & rest & owner1 & decl1 & -> & R & C)%lower_cons Hd Htop.
  assert (Hd' : NoDup (exec_names tools)) by (rewrite exec_cons in Hd; by apply NoDup_app in Hd as (_ & _ & Hd)).
  assert (Htop' : forall n, n ∈ exec_names tools -> n ∈ top).
  { intros n Hn. apply Htop. rewrite exec_cons. set_solver. }
  destruct (IH _ _ _ R Hd' Htop') as [Hr Ho].
  destruct C as [(E & -> & -> & ->)|[(E & -> & -> & ->)|[(E & Hp & -> & -> & ->)|[(E & -> & N)|(E & Hn & -> & ->)]]]].
  - apply names_exec; auto.
  - apply names_exec; auto.
  - by apply names_search.
  - by eapply names_namespace.
  - rewrite function_names_app, Hn. split; [done|]. intros n Hin. unfold origin. rewrite exec_cons, not_executable; [by apply Ho|..];
      intros Ht; by rewrite Ht in E.
Qed.

(** ** Nothing declared is lost *)

Lemma namespace_covers tool top owner new owner1 :
  rt_Type tool = "namespace" -> namespaceChildrenToChatTools tool top owner = inr (new, owner1) ->
  (forall n g, (n, g) ∈ declares tool -> n ∈ function_names new \/ is_Some (owner !! n))
  /\ (forall n, is_Some (owner1 !! n) -> n ∈ function_names new \/ is_Some (owner !! n)).
Proof.
  intros E. unfold namespaceChildrenToChatTools, declares. rewrite E. cbn [String.eqb Ascii.eqb Bool.eqb].
  destruct (rt_Name tool =?s "").
  { intros [= <- <-]. split; [by intros ?? ?%not_elem_of_nil|by right]. }
  intros (_ & _ & H3 & H4)%children_names. split.
  - intros n g (child & [= -> _] & Hc)%list_elem_of_fmap. apply H4 in Hc as [?|?]; [by right|by left].
  - intros n Hn. destruct (decide (owner1 !! n = owner !! n)) as [Eo|Ne]; [right; by rewrite <- Eo|left; by apply H3].
Qed.

Lemma lower_covers top tools owner decl out :
  lower_tools top tools owner decl = inr out ->
  forall t n g, t ∈ tools -> (n, g) ∈ declares t ->
  n ∈ function_names out \/ is_Some (owner !! n) \/ (decl = true /\ n = toolSearchProxyName).
Proof.
  revert owner decl out. induction tools as [|t tools IH]; intros owner decl out; [by intros _ ??? ?%not_elem_of_nil|].
  intros (new & rest & owner1 & decl1 & -> & R & C)%lower_cons t' n g Ht Hg. rewrite function_names_app, elem_of_app.
  assert (Htail : t' ∈ tools ->
     n ∈ function_names rest \/ is_Some (owner1 !! n) \/ (decl1 = true /\ n = toolSearchProxyName)).
  { intros Hin. by eapply IH. }
  clear IH R. apply elem_of_cons in Ht as [->|Ht]; [clear Htail|specialize (Htail Ht); clear Hg].
  - unfold declares in Hg.
    destruct C as [(E & -> & _)|[(E & -> & _)|[(E & _ & _ & _ & ->)|[(E & _ & N)|(E & _)]]]].
    + rewrite E in Hg. apply list_elem_of_singleton in Hg as [= -> _]. left; left. by left.
    + rewrite E in Hg. apply list_elem_of_singleton in Hg as [= -> _]. left; left. by left.
    + rewrite E in Hg. apply list_elem_of_singleton in Hg as [= -> _]. destruct decl; [by do 2 right|left; left; by left].
    + apply (proj1 (namespace_covers _ _ _ _ _ E N)) in Hg as [?|?]; [by left; left|by right; left].
    + unfold one_of in E. cbn [existsb] in E. repeat (apply orb_false_iff in E as [?Hne E]).
      rewrite Hne, Hne0, Hne1, Hne2 in Hg. by apply not_elem_of_nil in Hg.
  - destruct C as [(_ & _ & -> & ->)|[(_ & _ & -> & ->)|[(_ & _ & -> & -> & ->)|[(E & -> & N)|(_ & _ & -> & ->)]]]];
      destruct Htail as [Hr|[Ho|[Hd ->]]]; auto.
    + destruct decl; [by do 2 right|left; left; by left].
    + apply (proj2 (namespace_covers _ _ _ _ _ E N)) in Ho as [?|?]; auto.
Qed.

(** ** The way back *)

Lemma names_of_type_spec type tools n :
  n ∈ names_of_type type tools <-> exists t, t ∈ tools /\ rt_Type t = type /\ rt_Name t = n /\ n <> "".
Proof.
  unfold names_of_type. rewrite elem_of_list_to_set, list_elem_of_fmap. setoid_rewrite list_elem_of_In.
  setoid_rewrite filter_In. setoid_rewrite andb_true_iff. setoid_rewrite negb_true_iff.
  setoid_rewrite String.eqb_eq. setoid_rewrite String.eqb_neq. naive_solver.
Qed.

Lemma no_custom_stands_for (t : ToolTables) n :
  (forall namespace custom, flattenNamespaceToolName namespace custom <> n) ->
  n ∉ CustomTools t -> customToolCallName n t = None.
Proof.
  intros Hf Hc. unfold customToolCallName. case_bool_decide; [done|]. rewrite bool_decide_eq_false_2 by done.
  destruct (NamespaceTools t !! n); [done|]. generalize (elements (CustomTools t)). intros l.
  induction l as [|c l IH]; [done|]. cbn [List.filter].
  destruct (existsb _ _) eqn:Ex; [|done]. apply existsb_exists in Ex as (e & _ & He%String.eqb_eq). by apply Hf in He.
Qed.

Section Routes.
Context (tools : list ResponsesTool) (top : gset string) (owner : gmap string NamespacedToolName).
Hypothesis distinct : NoDup (exec_names tools).
Hypothesis top_names : forall n, n ∈ top <-> n ∈ exec_names tools.
Hypothesis proxy_free : HasToolSearchTool tools = true -> toolSearchProxyName ∉ top.
Hypothesis owners : Forall (fun e => e.1 ∉ top /\ owner !! e.1 = Some e.2) (namespace_entries tools).

Lemma entry_names :
  (forall e, e ∈ namespace_entries tools -> NamespaceToolNames tools !! e.1 = Some e.2)
  /\ forall n ns, NamespaceToolNames tools !! n = Some ns -> (n, ns) ∈ namespace_entries tools.
Proof. apply (names_spec owner). eapply Forall_impl; [exact owners|]. by intros e [_ ?]. Qed.

Lemma exec_top type t n :
  t ∈ tools -> rt_Type t = type -> rt_Name t = n -> n <> "" -> type = "function" \/ type = "custom" -> n ∈ top.
Proof.
  intros Ht E En Hne Hty. apply top_names, exec_names_spec. exists t. split_and!; [done| |done].
  unfold is_executable. rewrite E, En. apply String.eqb_neq in Hne. rewrite Hne. by destruct Hty as [-> | ->].
Qed.
Lemma type_top type n :
  n ∈ names_of_type type tools -> type = "function" \/ type = "custom" -> n ∈ top.
Proof. intros (t & Ht & E & En & Hne)%names_of_type_spec Hty. by eapply exec_top. Qed.
Lemma top_no_owner n : n ∈ top -> NamespaceToolNames tools !! n = None.
Proof.
  intros Hn. destruct (NamespaceToolNames tools !! n) as [ns|] eqn:E; [|done].
  apply (proj2 entry_names) in E. by apply (proj1 (Forall_forall _ _) owners) in E as [? _].
Qed.
Lemma top_not_proxy n : n ∈ top -> HasToolSearchTool tools && (n =?s toolSearchProxyName) = false.
Proof.
  intros Hn. destruct (HasToolSearchTool tools) eqn:Hs; [|done].
  destruct (String.eqb_spec n toolSearchProxyName) as [->|]; [by apply proxy_free in Hn|done].
Qed.

Lemma route_function t :
  t ∈ tools -> rt_Type t = "function" -> rt_Name t <> "" ->
  route (tables_of tools) (rt_Name t) = FunctionCall (rt_Name t).
Proof.
  intros Ht E Hne. assert (Hn : rt_Name t ∈ top) by (eapply exec_top; eauto).
  unfold route, customToolCallName. cbn [tables_of FunctionTools ToolSearchDeclared NamespaceTools].
  rewrite bool_decide_eq_true_2 by (apply names_of_type_spec; by exists t).
  by rewrite top_not_proxy, top_no_owner.
Qed.

Lemma route_custom t :
  t ∈ tools -> rt_Type t = "custom" -> rt_Name t <> "" ->
  route (tables_of tools) (rt_Name t) = CustomCall (rt_Name t).
Proof.
  intros Ht E Hne. unfold route, customToolCallName. cbn [tables_of FunctionTools CustomTools].
  rewrite bool_decide_eq_false_2, bool_decide_eq_true_2; [done|apply names_of_type_spec; by exists t|].
  intros (t' & Ht' & E' & En & _)%names_of_type_spec.
  assert (t' = t) as ->; [|congruence].
  apply (exec_unique tools); try done; unfold is_executable; apply String.eqb_neq in Hne; rewrite ?En, Hne, ?E, ?E'; done.
Qed.

Lemma route_search : HasToolSearchTool tools = true -> route (tables_of tools) toolSearchProxyName = SearchCall.
Proof.
  intros Hs. unfold route. rewrite no_custom_stands_for.
  - cbn [tables_of ToolSearchDeclared]. by rewrite Hs.
  - apply flat_not_proxy.
  - intros Hc. apply (proxy_free Hs). eapply type_top; [exact Hc|by right].
Qed.

Lemma route_namespace e :
  e ∈ namespace_entries tools -> e.1 <> toolSearchProxyName ->
  route (tables_of tools) e.1 = NamespaceCall (ntn_Namespace e.2) (ntn_Name e.2).
Proof.
  intros He Hp. pose proof (proj1 entry_names e He) as Hl.
  apply (proj1 (Forall_forall _ _) owners) in He as [Ht _].
  unfold route, customToolCallName. cbn [tables_of FunctionTools CustomTools ToolSearchDeclared NamespaceTools].
  rewrite !bool_decide_eq_false_2.
  - rewrite Hl. apply String.eqb_neq in Hp. by rewrite Hp, andb_false_r.
  - intros Hc. apply Ht. eapply type_top; [exact Hc|by right].
  - intros Hc. apply Ht. eapply type_top; [exact Hc|by left].
Qed.

Lemma route_declared t n g : t ∈ tools -> (n, g) ∈ declares t -> n <> "" -> route (tables_of tools) n = g.
Proof.
  intros Ht Hg Hne. unfold declares in Hg.
  destruct (String.eqb_spec (rt_Type t) "function") as [E|_].
  { apply list_elem_of_singleton in Hg as [= -> ->]. by apply route_function. }
  destruct (String.eqb_spec (rt_Type t) "custom") as [E|_].
  { apply list_elem_of_singleton in Hg as [= -> ->]. by apply route_custom. }
  destruct (String.eqb_spec (rt_Type t) "tool_search") as [E|_].
  { apply list_elem_of_singleton in Hg as [= -> ->]. apply route_search. apply existsb_exists. exists t.
    rewrite <- list_elem_of_In, E. done. }
  destruct (String.eqb_spec (rt_Type t) "namespace") as [E|_]; [|by apply not_elem_of_nil in Hg].
  destruct (rt_Name t =?s "") eqn:En; [by apply not_elem_of_nil in Hg|].
  apply list_elem_of_fmap in Hg as (child & [= -> ->] & Hc).
  apply (route_namespace (namespace_entry (rt_Name t) child)); [|apply flat_not_proxy].
  apply list_elem_of_In, in_flat_map. exists t. rewrite <- !list_elem_of_In, E, En. split; [done|].
  by apply list_elem_of_fmap_2.
Qed.
End Routes.

Lemma lower_declared top tools owner decl out n :
  lower_tools top tools owner decl = inr out -> n ∈ function_names out ->
  exists t g, t ∈ tools /\ (n, g) ∈ declares t.
Proof.
  revert owner decl out. induction tools as [|t tools IH]; intros owner decl out.
  { intros [= <-] ?%not_elem_of_nil. done. }
  intros (new & rest & owner1 & decl1 & -> & R & C)%lower_cons. rewrite function_names_app, elem_of_app.
  intros [Hn|Hn]; [|destruct (IH _ _ _ R Hn) as (t' & g & Ht & Hg); exists t', g; split; [by right|done]].
  clear IH R.
  assert (Hd : exists g, (n, g) ∈ declares t); [|destruct Hd as [g Hg]; exists t, g; split; [by left|done]].
  unfold declares. destruct C as [(-> & -> & _)|[(-> & -> & _)|[(-> & _ & _ & _ & ->)|[(-> & _ & N)|(_ & E & _)]]]].
  - apply list_elem_of_singleton in Hn as ->. eexists. by left.
  - apply list_elem_of_singleton in Hn as ->. eexists. by left.
  - destruct decl; [by apply not_elem_of_nil in Hn|]. apply list_elem_of_singleton in Hn as ->. eexists. by left.
  - unfold namespaceChildrenToChatTools in N. cbn [String.eqb Ascii.eqb Bool.eqb].
    destruct (rt_Name t =?s ""); [injection N as <- _; by apply not_elem_of_nil in Hn|].
    apply children_names in N as (_ & H2 & _). apply H2 in Hn as (_ & _ & _ & child & Hc & ->).
    eexists. apply list_elem_of_fmap. by exists child.
  - rewrite E in Hn. by apply not_elem_of_nil in Hn.
Qed.

(** C32.  When the tools of a Responses request can be lowered to Chat Completions
    functions at all, no two of the functions share a name, the (nonempty) names are
    exactly those the declared tools can be called by, the names made up for the tools
    of a namespace fit the 64 bytes upstreams accept, and a call of any of the names is
    turned back into a call of the tool it was made up for: the function, the custom
    tool, the tool search or the tool of the namespace. *)
Theorem tools_routed_back tools out :
  responsesToolsToChatTools tools = inr out ->
  NoDup (nonempty (function_names out))
  /\ (forall n, n <> "" ->
        (n ∈ function_names out <-> exists t g, t ∈ tools /\ (n, g) ∈ declares t))
  /\ (forall t n g, t ∈ tools -> (n, g) ∈ declares t -> n <> "" ->
        route (tables_of tools) n = g
        /\ (rt_Type t = "namespace" -> String.length n <= chatToolNameMaxLen)).
Proof.
  unfold responsesToolsToChatTools. destruct (top_level tools ∅) as [|top] eqn:T; [done|]. cbn [mbind result_bind].
  intros L. apply top_level_spec in T as (-> & Hd & _).
  assert (Htop : forall n, n ∈ (∅ ∪ list_to_set (exec_names tools) : gset string) <-> n ∈ exec_names tools) by set_solver.
  pose proof (lower_spec _ _ _ _ _ L) as (Hp & owner & _ & He). split_and!.
  - eapply lower_names; [exact L|done|]. intros n Hn. by apply Htop.
  - intros n Hne. split; [by eapply lower_declared|]. intros (t & g & Ht & Hg).
    destruct (lower_covers _ _ _ _ _ L t n g Ht Hg) as [?|[Hs|[? _]]]; [done| |done].
    rewrite lookup_empty in Hs. by apply is_Some_None in Hs.
  - intros t n g Ht Hg Hne. split; [by eapply route_declared|]. intros E. unfold declares in Hg. rewrite E in Hg.
    cbn [String.eqb Ascii.eqb Bool.eqb] in Hg. destruct (rt_Name t =?s ""); [by apply not_elem_of_nil in Hg|].
    apply list_elem_of_fmap in Hg as (child & [= -> _] & _). apply flat_length.
Qed.

Definition sample_tools : list ResponsesTool :=
  [zero_ResponsesTool <| rt_Type := "function" |> <| rt_Name := "shell" |>;
   zero_ResponsesTool <| rt_Type := "custom" |> <| rt_Name := "apply_patch" |>;
   zero_ResponsesTool <| rt_Type := "tool_search" |>;
   zero_ResponsesTool <| rt_Type := "namespace" |> <| rt_Name := "mcp" |>
     <| rt_Tools := [zero_ResponsesTool <| rt_Type := "function" |> <| rt_Name := "apply_patch" |>] |>].
Lemma tools_routed_back_witness :
  (exists out, responsesToolsToChatTools sample_tools = inr out
     /\ function_names out = ["shell"; "apply_patch"; "tool_search"; "mcp__apply_patch"])
  /\ route (tables_of sample_tools) "mcp__apply_patch" = NamespaceCall "mcp" "apply_patch".
Proof.
  destruct (responsesToolsToChatTools sample_tools) as [e|out] eqn:E; [vm_compute in E; discriminate|].
  split.
  - exists out. split; [reflexivity|]. vm_compute in E. injection E as <-. reflexivity.
  - pose proof (tools_routed_back sample_tools out E) as (_ & _ & R).
    assert (H : (zero_ResponsesTool <| rt_Type := "namespace" |> <| rt_Name := "mcp" |>
     <| rt_Tools := [zero_ResponsesTool <| rt_Type := "function" |> <| rt_Name := "apply_patch" |>] |>) ∈ sample_tools)
      by (do 3 right; left).
    destruct (R _ "mcp__apply_patch" (NamespaceCall "mcp" "apply_patch") H) as [G _]; [left|discriminate|exact G].
Defined.
