(* ===== verification/ToolDiscoveries.v ===== *)
(** * Tools found by a tool search

    [src/backend/internal/pkg/apicompat/responses_tool_search_discoveries.go]: the
    declarations a finished [tool_search] returned are appended to the request's tools;
    and the JSON form of [ResponsesTool].  A value of type [any] is a tree of [json]
    whose objects are sorted by key and whose numbers are printed as their [float64]
    ([JsonNumbers.to_any]); the code copies an object before it changes it. *)

From S2P Require Import Prelude Json JsonCodec JsonNumbers GoStrings ModelNames ToolSchema Apicompat RequestCodec ResponsesToAnthropicRequest ChatToResponses ChatToolTables.
Local Open Scope string_scope.
Local Open Scope nat_scope.
Local Open Scope list_scope.
Local Open Scope go_scope.

(** ** Untyped objects *)

Definition object : Type := list (string * json).

(** [stringValue(m[k])], trimmed. *)
Definition stringValue (v : option json) : string := match v with Some (JStr s) => s | _ => "" end.
Definition trimmed_member (m : object) (k : string) : string := TrimSpace (stringValue (assoc k m)).
(** [m[k].([]any)] *)
Definition array_member (m : object) (k : string) : list json :=
  match assoc k m with Some (JArr l) => l | _ => [] end.
Definition print_object (m : object) : string := json_marshal (JObj m).

Definition namespaceChildren (tool : object) : list json :=
  match array_member tool "tools" with [] => array_member tool "children" | l => l end.

(** ** Identities *)

Record responsesDiscoveredToolIdentity := MkIdentity {
  di_typ : string;
  di_name : string;
  di_namespace : string;
  di_encoded : string;
  di_ambiguous : bool;
}.
Local Abbreviation Identity := responsesDiscoveredToolIdentity.
Local Abbreviation Known := (gmap string responsesDiscoveredToolIdentity).

Definition sameResponsesDiscoveredTool (left right : Identity) : bool :=
  (di_typ left =?s di_typ right) && (di_name left =?s di_name right)
  && (di_namespace left =?s di_namespace right) && (di_encoded left =?s di_encoded right).

(** What the text of a custom tool's identity is computed from: its members printed,
    with the lowered schema and without its format. *)
Definition custom_identity (copy : object) : list (string * string) :=
  assoc_delete "format"
    (sorted_insert "parameters" customToolInputSchema
       (sorted_insert "type" (json_quote "function")
          (map (fun m => (m.1, json_marshal m.2)) copy))).

Definition responsesDirectToolDiscovery (tool : object) (typ : string) : option (object * Identity) :=
  let name := trimmed_member tool "name" in
  if name =?s "" then None else
  let copy := sorted_insert "name" (JStr name) (sorted_insert "type" (JStr typ) tool) in
  let encoded := if typ =?s "custom" then print_members (custom_identity copy) else print_object copy in
  Some (copy, MkIdentity typ name "" encoded false).

(** A function of a namespace: its flat name, its declaration and its identity. *)
Definition namespace_candidate (namespace : string) (raw : json) : option (string * (json * Identity)) :=
  match raw with
  | JObj child =>
      if negb (trimmed_member child "type" =?s "function") then None else
      '(copy, direct) ← responsesDirectToolDiscovery child "function";
      Some (flattenNamespaceToolName namespace (di_name direct),
            (JObj copy, MkIdentity "namespace" (di_name direct) namespace (di_encoded direct) false))
  | _ => None
  end.
Definition responsesNamespaceToolDiscovery (tool : object) :
    option (object * list (string * (json * Identity))) :=
  let namespace := trimmed_member tool "name" in
  let identities := omap (namespace_candidate namespace) (namespaceChildren tool) in
  match identities with
  | [] => None
  | _ =>
      if namespace =?s "" then None
      else Some (sorted_insert "name" (JStr namespace) (sorted_insert "type" (JStr "namespace") tool),
                 identities)
  end.

Definition registerExistingResponsesIdentity (known : Known) (key : string) (identity : Identity) : Known :=
  match known !! key with
  | None => <[key := identity]> known
  | Some previous =>
      if sameResponsesDiscoveredTool previous identity then known
      else <[key := MkIdentity (di_typ previous) (di_name previous) (di_namespace previous)
                      (di_encoded previous) true]> known
  end.
Definition registerExistingResponsesToolIdentity (known : Known) (raw : json) : Known :=
  match raw with
  | JObj tool =>
      let typ := trimmed_member tool "type" in
      if one_of ["function"; "custom"] typ then
        match responsesDirectToolDiscovery tool typ with
        | Some (_, identity) => registerExistingResponsesIdentity known (di_name identity) identity
        | None => known
        end
      else if typ =?s "namespace" then
        match responsesNamespaceToolDiscovery tool with
        | Some (_, identities) =>
            foldl (fun known c => registerExistingResponsesIdentity known c.1 c.2.2) known identities
        | None => known
        end
      else known
  | _ => known
  end.

(** Whether the tool is new, or the conflict. *)
Definition admitResponsesDiscoveredTool (known : Known) (key : string) (identity : Identity) :
    result (bool * Known) :=
  match known !! key with
  | None => inr (true, <[key := identity]> known)
  | Some previous =>
      if negb (di_ambiguous previous) && sameResponsesDiscoveredTool previous identity
      then inr (false, known) else inl (ErrDiscoveredTool key)
  end.

(** ** Promotion *)

Definition hasResponsesToolSearchDeclaration (tools : list json) : bool :=
  existsb (fun raw => match raw with
                      | JObj tool => trimmed_member tool "type" =?s "tool_search"
                      | _ => false
                      end) tools.
Definition usableResponsesToolSearchOutput (item : object) : bool :=
  match assoc "status" item with
  | None => true
  | Some (JStr text) => TrimSpace text =?s "completed"
  | Some _ => false
  end.

(** The children that are new. *)
Fixpoint admit_children (known : Known) (candidates : list (string * (json * Identity))) :
    result (list json * Known) :=
  match candidates with
  | [] => inr ([], known)
  | (flat, (child, identity)) :: candidates =>
      '(new, known) ← admitResponsesDiscoveredTool known flat identity;
      '(children, known) ← admit_children known candidates;
      inr ((if new : bool then child :: children else children), known)
  end.

Definition promote_discovery (known : Known) (raw : json) : result (list json * Known) :=
  match raw with
  | JObj discovery =>
      let typ := trimmed_member discovery "type" in
      if one_of ["function"; "custom"] typ then
        match responsesDirectToolDiscovery discovery typ with
        | None => inr ([], known)
        | Some (copy, identity) =>
            '(new, known) ← admitResponsesDiscoveredTool known (di_name identity) identity;
            inr ((if new : bool then [JObj copy] else []), known)
        end
      else if typ =?s "namespace" then
        match responsesNamespaceToolDiscovery discovery with
        | None => inr ([], known)
        | Some (copy, identities) =>
            '(children, known) ← admit_children known identities;
            inr (match children with
                 | [] => []
                 | _ => [JObj (assoc_delete "children" (sorted_insert "tools" (JArr children) copy))]
                 end, known)
        end
      else inr ([], known)
  | _ => inr ([], known)
  end.

(** The discoveries of an input item. *)
Definition item_discoveries (raw : json) : list json :=
  match raw with
  | JObj item =>
      if (trimmed_member item "type" =?s "tool_search_output") && usableResponsesToolSearchOutput item
      then array_member item "tools" else []
  | _ => []
  end.

Fixpoint promote_all (known : Known) (discoveries : list json) : result (list json) :=
  match discoveries with
  | [] => inr []
  | d :: discoveries =>
      '(promoted, known) ← promote_discovery known d;
      rest ← promote_all known discoveries;
      inr (promoted ++ rest)
  end.
Definition promotedResponsesToolSearchDiscoveries (tools input : list json) : result (list json) :=
  if negb (hasResponsesToolSearchDeclaration tools) then inr []
  else promote_all (foldl registerExistingResponsesToolIdentity ∅ tools) (flat_map item_discoveries input).

(** ** ResponsesTool *)

Definition e_strings_omit (k : string) (l : list string) : members :=
  match l with [] => Some [] | _ => Some [(k, marshal_strings l)] end.
Definition e_bool (b : bool) : option string := Some (if b then "true" else "false").
Definition e_list_omit (k : string) (l : option (list string)) : members :=
  l ← l; match l with [] => Some [] | _ => Some [(k, print_array l)] end.

Fixpoint enc_ResponsesTool (t : ResponsesTool) : option string :=
  let enc_tools := fix enc_tools l :=
    match l with [] => Some [] | t :: l => s ← enc_ResponsesTool t; l ← enc_tools l; Some (s :: l) end in
  let '(MkResponsesTool type name description parameters strict tools children allowed excluded
          from to image video) := t in
  e_struct [e_string "type" type; e_string_omit "name" name; e_string_omit "description" description;
            e_raw_omit "parameters" parameters; e_ptr_omit "strict" e_bool strict;
            e_list_omit "tools" (enc_tools tools); e_list_omit "children" (enc_tools children);
            e_strings_omit "allowed_x_handles" allowed; e_strings_omit "excluded_x_handles" excluded;
            e_string_omit "from_date" from; e_string_omit "to_date" to;
            e_ptr_omit "enable_image_understanding" e_bool image;
            e_ptr_omit "enable_video_understanding" e_bool video].

(** [ResponsesTool.UnmarshalJSON]: a string is a custom tool's name.  A child is shorter
    than the tool it is in. *)
Definition d_strings : decoder (list string) := fun raw _ => d_slice "" d_string raw.
Fixpoint dec_tool_fuel (fuel : nat) (data : string) : option ResponsesTool :=
  match unmarshal_string data with
  | Some name => Some (zero_ResponsesTool <| rt_Type := "custom" |> <| rt_Name := name |>)
  | None =>
      match fuel with
      | O => None
      | S fuel =>
          let d_tools : decoder (list ResponsesTool) := fun raw _ =>
            d_slice zero_ResponsesTool (fun data _ => dec_tool_fuel fuel data) raw in
          d_struct
            [("type", field rt_Type (fun v t => t <| rt_Type := v |>) d_string);
             ("name", field rt_Name (fun v t => t <| rt_Name := v |>) d_string);
             ("description", field rt_Description (fun v t => t <| rt_Description := v |>) d_string);
             ("parameters", field rt_Parameters (fun v t => t <| rt_Parameters := v |>) d_raw);
             ("strict", field rt_Strict (fun v t => t <| rt_Strict := v |>) (d_ptr false d_bool));
             ("tools", field rt_Tools (fun v t => t <| rt_Tools := v |>) d_tools);
             ("children", field rt_Children (fun v t => t <| rt_Children := v |>) d_tools);
             ("allowed_x_handles",
                field rt_AllowedXHandles (fun v t => t <| rt_AllowedXHandles := v |>) d_strings);
             ("excluded_x_handles",
                field rt_ExcludedXHandles (fun v t => t <| rt_ExcludedXHandles := v |>) d_strings);
             ("from_date", field rt_FromDate (fun v t => t <| rt_FromDate := v |>) d_string);
             ("to_date", field rt_ToDate (fun v t => t <| rt_ToDate := v |>) d_string);
             ("enable_image_understanding",
                field rt_EnableImageUnderstanding (fun v t => t <| rt_EnableImageUnderstanding := v |>)
                  (d_ptr false d_bool));
             ("enable_video_understanding",
                field rt_EnableVideoUnderstanding (fun v t => t <| rt_EnableVideoUnderstanding := v |>)
                  (d_ptr false d_bool))]
            data zero_ResponsesTool
      end
  end.
Definition ResponsesTool_UnmarshalJSON (data : string) : option ResponsesTool :=
  dec_tool_fuel (String.length data) data.
Definition unmarshal_tools (raw : string) : option (list ResponsesTool) :=
  d_slice zero_ResponsesTool (fun data _ => ResponsesTool_UnmarshalJSON data) raw.
(** [json.Marshal] of tools built with [append] from nil. *)
Definition marshal_tools (tools : list ResponsesTool) : option string :=
  e_appended enc_ResponsesTool tools.

(** [json.Unmarshal] into a [[]any]. *)
Definition unmarshal_array (raw : string) : option (list json) :=
  v ← unmarshal_any raw;
  match v with JArr l => Some l | JNull => Some [] | _ => None end.

(** ** EffectiveResponsesTools *)

(** The tools of the items of type [additional_tools]. *)
Definition additional_tools (raw : string) : result (list ResponsesTool) :=
  let raw := TrimSpace raw in
  if negb (HasPrefix raw "{") then inr [] else
  type ← ok_or ErrParseInput (d_struct [("type", d_string)] raw "");
  if negb (type =?s "additional_tools") then inr []
  else ok_or ErrParseInput
         (d_struct [("tools", (fun raw _ => unmarshal_tools raw) : decoder (list ResponsesTool))] raw []).
Fixpoint all_additional_tools (items : list string) : result (list ResponsesTool) :=
  match items with
  | [] => inr []
  | raw :: items =>
      tools ← additional_tools raw;
      rest ← all_additional_tools items;
      inr (tools ++ rest)
  end.
Definition promoted_tools (tools : list ResponsesTool) (inputRaw : string) : result (list ResponsesTool) :=
  toolsRaw ← ok_or ErrMarshal (marshal_tools tools);
  rawTools ← ok_or ErrDecode (unmarshal_array toolsRaw);
  rawInput ← ok_or ErrParseInput (unmarshal_array inputRaw);
  promoted ← promotedResponsesToolSearchDiscoveries rawTools rawInput;
  match promoted with
  | [] => inr []
  | _ => ok_or ErrDecode (unmarshal_tools (json_marshal (JArr promoted)))
  end.
Definition EffectiveResponsesTools (req : ResponsesRequest) : result (list ResponsesTool) :=
  let inputRaw := TrimSpace (rreq_Input req) in
  if negb (HasPrefix inputRaw "[") then inr (rreq_Tools req) else
  items ← ok_or ErrParseInput (match json_shape inputRaw with Some (SArr l) => Some l | _ => None end);
  additional ← all_additional_tools items;
  let tools := rreq_Tools req ++ additional in
  discovered ← promoted_tools tools inputRaw;
  inr (tools ++ discovered).
