(* ===== verification/ResponsesToChatRequest.v ===== *)
(** * OpenAI Responses requests to Chat Completions requests

    The request direction of
    [src/backend/internal/pkg/apicompat/chatcompletions_responses_bridge.go].  A cached
    reasoning text is looked up with [ReasoningContentByID]; without the hook it is
    empty. *)

From S2P Require Import Prelude Json JsonCodec JsonNumbers GoStrings ModelNames ToolSchema Apicompat RequestCodec ResponsesToAnthropicRequest AnthropicToResponsesRequest ChatToResponses ChatToolTables ChatAnswerToResponses ToolDiscoveries.
Local Open Scope string_scope.
Local Open Scope nat_scope.
Local Open Scope list_scope.
Local Open Scope go_scope.

(** ** Media of tool outputs *)

Definition toolOutputMediaMarker : string := "[Tool output media moved to the following user message]".
Definition toolOutputMediaAttribution (callID : string) : string :=
  "[Tool output media for call " +:+ callID +:+ "]".

Definition text_chat_part (text : string) : ChatContentPart :=
  zero_ChatContentPart <| ccp_Type := "text" |> <| ccp_Text := text |>.
Definition toolOutputImagePart (imageURL : string) : ChatContentPart :=
  zero_ChatContentPart <| ccp_Type := "image_url" |>
    <| ccp_ImageURL := Some (MkChatImageURL imageURL "") |>.

Definition isToolOutputImageDataURL (value : string) : bool :=
  match CutPrefix value "data:image/" with
  | None => false
  | Some rest =>
      match Index rest ";base64," with
      | None | Some 0 => false
      | Some i => i + 8 <? String.length rest
      end
  end.

Definition recognizedToolOutputImageURL (value : object) : option string :=
  if negb (one_of ["input_image"; "image_url"] (stringValue (assoc "type" value))) then None else
  let nonblank (url : string) := if TrimSpace url =?s "" then None else Some url in
  match assoc "image_url" value with
  | Some (JStr url) => nonblank url
  | Some (JObj imageURL) => nonblank (stringValue (assoc "url" imageURL))
  | _ => None
  end.

Definition media_marker : json := JObj [("text", JStr toolOutputMediaMarker); ("type", JStr "input_text")].

(** The rewritten value and its images; [None] when nothing changes. *)
Fixpoint rewriteToolOutputMediaValue (value : json) : option (json * list ChatContentPart) :=
  match value with
  | JArr l =>
      let '(l, media, changed) :=
        (fix go l := match l with
                     | [] => ([], [], false)
                     | item :: l =>
                         let '(l, media, changed) := go l in
                         match rewriteToolOutputMediaValue item with
                         | Some (item, itemMedia) => (item :: l, itemMedia ++ media, true)
                         | None => (item :: l, media, changed)
                         end
                     end) l in
      if changed : bool then Some (JArr l, media) else None
  | JObj m =>
      match recognizedToolOutputImageURL m with
      | Some imageURL => Some (media_marker, [toolOutputImagePart imageURL])
      | None =>
          '(m, media) ← (fix go m := match m with
                                     | [] => None
                                     | (k, v) :: m =>
                                         if k =?s "content" then
                                           '(v, media) ← rewriteToolOutputMediaValue v; Some ((k, v) :: m, media)
                                         else '(m, media) ← go m; Some ((k, v) :: m, media)
                                     end) m;
          Some (JObj m, media)
      end
  | _ => None
  end.

(** The text of the tool message and the images, when there are any. *)
Definition extractToolOutputMedia (outputRaw : string) : option (string * list ChatContentPart) :=
  let outputRaw := TrimSpace outputRaw in
  let rewritten raw :=
    value ← json_parse raw;
    '(value, media) ← rewriteToolOutputMediaValue value;
    Some (json_marshal value, media) in
  if (outputRaw =?s "") || (outputRaw =?s "null") then None else
  match unmarshal_string outputRaw with
  | Some outputString =>
      if isToolOutputImageDataURL outputString
      then Some (toolOutputMediaMarker, [toolOutputImagePart outputString])
      else rewritten outputString
  | None => rewritten outputRaw
  end.

(** ** Contents *)

Definition chatCompletionsBridgeRole (role : string) : string :=
  let trimmed := TrimSpace role in
  if trimmed =?s "" then "user"
  else if fold_name trimmed =?s fold_name "developer" then "system" else role.

(** [json.Unmarshal] into a [[]map[string]json.RawMessage]. *)
Definition unmarshal_maps (raw : string) : option (list gomap) :=
  match json_shape raw with
  | Some SNull => Some []
  | Some (SArr l) => mapM (fun x => default [] <$> unmarshal_map x) l
  | _ => None
  end.

Definition part_image_url (part : gomap) : string :=
  let imageURL := rawString (raw_member part "image_url") in
  if imageURL =?s "" then rawNestedString (raw_member part "image_url") "url" else imageURL.

(** The part of a text or an image that is not empty. *)
Definition chat_content_part (part : gomap) : option ChatContentPart :=
  let type := rawString (raw_member part "type") in
  if one_of ["input_text"; "output_text"; "text"; ""] type then
    let text := rawString (raw_member part "text") in
    if text =?s "" then None else Some (text_chat_part text)
  else if one_of ["input_image"; "image_url"] type then
    let imageURL := part_image_url part in
    if imageURL =?s "" then None else Some (toolOutputImagePart imageURL)
  else None.
Definition is_text_part (p : ChatContentPart) : bool := ccp_Type p =?s "text".

Definition responsesContentPartsToChatContent (rawParts : list string) (role : string) : result string :=
  let parts := omap (fun raw => part ← unmarshal_map raw; chat_content_part (default [] part)) rawParts in
  let textParts := map ccp_Text (List.filter is_text_part parts) in
  if forallb is_text_part parts || negb (role =?s "user")
  then inr (json_quote (Join textParts blank_line))
  else ok_or ErrMarshal (marshal_chat_parts parts).

Definition chatContentFromSingleResponsesPart (partType : string) (part : gomap) : result string :=
  if one_of ["input_image"; "image_url"] partType
  then ok_or ErrMarshal (marshal_chat_parts [toolOutputImagePart (part_image_url part)])
  else inr (json_quote (rawString (raw_member part "text"))).

Definition responsesContentToChatContent (raw role : string) : result string :=
  let raw := TrimSpace raw in
  if (raw =?s "") || (raw =?s "null") then inr (json_quote "") else
  match json_shape raw with
  | Some (SArr rawParts) => responsesContentPartsToChatContent rawParts role
  | Some (SObj _) =>
      let obj := default [] (rawJSONObject raw) in
      chatContentFromSingleResponsesPart (rawString (raw_member obj "type")) obj
  | _ => inr raw
  end.

Definition agentMessageText (raw : string) : string :=
  let raw := TrimSpace raw in
  if (raw =?s "") || (raw =?s "null") then "" else
  match unmarshal_string raw with
  | Some text => text
  | None =>
      str_concat (map (fun part =>
        let type := rawString (raw_member part "type") in
        if one_of ["input_text"; "text"] type then rawString (raw_member part "text")
        else if type =?s "encrypted_content" then rawString (raw_member part "encrypted_content")
        else "") (default [] (unmarshal_maps raw)))
  end.

(** [collect]: the texts of a list of parts, or a single text. *)
Definition reasoning_texts (raw : string) : list string :=
  let raw := TrimSpace raw in
  if (raw =?s "") || (raw =?s "null") then [] else
  List.filter (fun t => negb (t =?s ""))
    match unmarshal_maps raw with
    | Some parts => map (fun p => rawString (raw_member p "text")) parts
    | None => [rawString raw]
    end.
Definition extractResponsesReasoningText (item : gomap) : string :=
  let parts := match reasoning_texts (raw_member item "summary") with
               | [] => reasoning_texts (raw_member item "content")
               | parts => parts
               end in
  Join parts (bytes_str [10]).

(** The id and the text of a reasoning item. *)
Definition ExtractResponsesReasoningItem (raw : string) : option (string * string) :=
  let raw := TrimSpace raw in
  if (raw =?s "") || (raw =?s "null") then None else
  item ← rawJSONObject raw;
  if rawString (raw_member item "type") =?s "reasoning"
  then Some (rawString (raw_member item "id"), extractResponsesReasoningText item) else None.

(** ** Building the messages *)

Definition chat_message (role content : string) : ChatMessage :=
  zero_ChatMessage <| cm_Role := role |> <| cm_Content := content |>.
Definition tool_message (callID text : string) : ChatMessage :=
  (chat_message "tool" (json_quote text)) <| cm_ToolCallID := callID |>.
Definition chat_call (id name arguments : string) : ChatToolCall :=
  MkChatToolCall None id "function" (MkChatFunctionCall name arguments).

(** The last message takes the call when it is the assistant's. *)
Definition join_call (m : ChatMessage) (toolCall : ChatToolCall) (pendingReasoning : string) : ChatMessage :=
  m <| cm_ToolCalls := cm_ToolCalls m ++ [toolCall] |>
    <| cm_ReasoningContent := if cm_ReasoningContent m =?s "" then pendingReasoning
                              else cm_ReasoningContent m |>.
Definition assistant_call (toolCall : ChatToolCall) (pendingReasoning : string) : ChatMessage :=
  (chat_message "assistant" "") <| cm_ToolCalls := [toolCall] |>
    <| cm_ReasoningContent := pendingReasoning |>.
Fixpoint appendAssistantToolCall (messages : list ChatMessage) (toolCall : ChatToolCall)
    (pendingReasoning : string) : list ChatMessage :=
  match messages with
  | [] => [assistant_call toolCall pendingReasoning]
  | [m] => if cm_Role m =?s "assistant" then [join_call m toolCall pendingReasoning]
           else [m; assistant_call toolCall pendingReasoning]
  | m :: messages => m :: appendAssistantToolCall messages toolCall pendingReasoning
  end.

Record build := MkBuild {
  bd_messages : list ChatMessage;
  bd_pendingReasoning : string;
  bd_lastTurnReasoning : string;
  bd_mediaByCallID : gmap string (list ChatContentPart);
  bd_invalidFunctionCallIDs : gset string;
  bd_invalidEmptyFunctionCallOutputs : nat;
}.
#[export] Instance eta_build : Eta build := fun r =>
  MkBuild (bd_messages r) (bd_pendingReasoning r) (bd_lastTurnReasoning r) (bd_mediaByCallID r)
    (bd_invalidFunctionCallIDs r) (bd_invalidEmptyFunctionCallOutputs r).

Definition reasoningForAssistant (b : build) : string :=
  if bd_pendingReasoning b =?s "" then bd_lastTurnReasoning b else bd_pendingReasoning b.
Definition clear_pending (b : build) : build := b <| bd_pendingReasoning := "" |>.
Definition append_message (m : ChatMessage) (b : build) : build :=
  b <| bd_messages := bd_messages b ++ [m] |>.
(** A message of the user's side ends the turn. *)
Definition append_user (content : string) (b : build) : build :=
  append_message (chat_message "user" content)
    (b <| bd_pendingReasoning := "" |> <| bd_lastTurnReasoning := "" |>).
Definition append_call (toolCall : ChatToolCall) (b : build) : build :=
  clear_pending (b <| bd_messages :=
    appendAssistantToolCall (bd_messages b) toolCall (reasoningForAssistant b) |>).

Section Build.
Context (ReasoningContentByID : string -> string).

Definition build_reasoning (item : gomap) (b : build) : build :=
  let txt := extractResponsesReasoningText item in
  let id := rawString (raw_member item "id") in
  let txt := if negb (txt =?s "") then txt else if id =?s "" then "" else ReasoningContentByID id in
  let b := if txt =?s "" then b else b <| bd_pendingReasoning := txt |> in
  if bd_pendingReasoning b =?s "" then b else b <| bd_lastTurnReasoning := bd_pendingReasoning b |>.

Definition build_function_call (item : gomap) (b : build) : build :=
  let arguments := call_arguments_or_empty (rawString (raw_member item "arguments")) in
  let callID := rawString (raw_member item "call_id") in
  if negb (json_valid arguments) then
    clear_pending
      (if callID =?s ""
       then b <| bd_invalidEmptyFunctionCallOutputs := S (bd_invalidEmptyFunctionCallOutputs b) |>
       else b <| bd_invalidFunctionCallIDs := {[callID]} ∪ bd_invalidFunctionCallIDs b |>)
  else
    let name := rawString (raw_member item "name") in
    let ns := rawString (raw_member item "namespace") in
    append_call (chat_call callID (if ns =?s "" then name else flattenNamespaceToolName ns name) arguments) b.

Definition build_tool_search_call (item : gomap) (b : build) : build :=
  let s := rawString (raw_member item "arguments") in
  let arguments := if s =?s "" then TrimSpace (raw_member item "arguments") else s in
  let arguments := if (arguments =?s "") || (arguments =?s "null") then "{}" else arguments in
  append_call (chat_call (rawString (raw_member item "call_id")) toolSearchProxyName arguments) b.

Definition build_custom_tool_call (item : gomap) (b : build) : build :=
  let arguments := marshal_string_map [("input", rawString (raw_member item "input"))] in
  append_call (chat_call (rawString (raw_member item "call_id")) (rawString (raw_member item "name"))
                 arguments) b.

(** The text of the tool message and the media kept for after it. *)
Definition output_text (outputRaw : string) : string :=
  let outputText := rawString outputRaw in
  if (outputText =?s "") && negb (outputRaw =?s "") && negb (outputRaw =?s "null")
     && negb (outputRaw =?s json_quote "")
  then outputRaw else outputText.
Definition build_output (itemType : string) (item : gomap) (b : build) : build :=
  let outputRaw := TrimSpace (raw_member item "output") in
  let outputRaw :=
    if (itemType =?s "tool_search_output") && ((outputRaw =?s "") || (outputRaw =?s "null"))
    then TrimSpace (raw_member item "tools") else outputRaw in
  let callID := rawString (raw_member item "call_id") in
  if (callID =?s "") && (0 <? bd_invalidEmptyFunctionCallOutputs b) then
    clear_pending (b <| bd_invalidEmptyFunctionCallOutputs := bd_invalidEmptyFunctionCallOutputs b - 1 |>)
  else if bool_decide (callID ∈ bd_invalidFunctionCallIDs b) then clear_pending b
  else
    let b := b <| bd_mediaByCallID := delete callID (bd_mediaByCallID b) |> in
    clear_pending
      match extractToolOutputMedia outputRaw with
      | Some (text, media) =>
          append_message (tool_message callID text)
            (if callID =?s "" then b
             else b <| bd_mediaByCallID := <[callID := media]> (bd_mediaByCallID b) |>)
      | None => append_message (tool_message callID (output_text outputRaw)) b
      end.

Definition build_message (role : string) (item : gomap) (b : build) : result build :=
  let content := raw_member item "content" in
  let text := rawString (raw_member item "text") in
  let content := if (TrimSpace content =?s "") && negb (text =?s "") then json_quote text else content in
  chatContent ← responsesContentToChatContent content role;
  let msg := chat_message role chatContent in
  inr (if role =?s "assistant"
       then clear_pending (append_message (msg <| cm_ReasoningContent := reasoningForAssistant b |>) b)
       else append_message msg (b <| bd_pendingReasoning := "" |> <| bd_lastTurnReasoning := "" |>)).

(** The switch over the item type. *)
Definition build_item (item : gomap) (b : build) : result build :=
  let role := chatCompletionsBridgeRole (rawString (raw_member item "role")) in
  let itemType := rawString (raw_member item "type") in
  if itemType =?s "reasoning" then inr (build_reasoning item b)
  else if itemType =?s "function_call" then inr (build_function_call item b)
  else if itemType =?s "tool_search_call" then inr (build_tool_search_call item b)
  else if itemType =?s "custom_tool_call" then inr (build_custom_tool_call item b)
  else if one_of ["function_call_output"; "custom_tool_call_output"; "tool_search_output"] itemType
  then inr (build_output itemType item b)
  else if itemType =?s "agent_message" then
    let text := agentMessageText (raw_member item "content") in
    inr (if text =?s "" then clear_pending b else append_user (json_quote text) b)
  else if one_of ["input_text"; "text"] itemType then
    inr (append_user (json_quote (rawString (raw_member item "text"))) b)
  else if itemType =?s "input_image" then
    content ← chatContentFromSingleResponsesPart itemType item; inr (append_user content b)
  else if negb (one_of [""; "message"] itemType) then inr (clear_pending b)
  else build_message role item b.

(** A round of the loop over the raw items. *)
Definition build_raw_item (raw : string) (b : build) : result build :=
  let raw := TrimSpace raw in
  if (raw =?s "") || (raw =?s "null") then inr b else
  match rawJSONObject raw with
  | Some item => build_item item b
  | None => text ← ok_or ErrParseInput (unmarshal_string raw); inr (append_user (json_quote text) b)
  end.
Fixpoint build_items (rawItems : list string) (b : build) : result build :=
  match rawItems with
  | [] => inr b
  | raw :: rawItems => b ← build_raw_item raw b; build_items rawItems b
  end.
Definition buildChatMessagesFromItems (messages : list ChatMessage) (rawItems : list string) : result build :=
  build_items rawItems (MkBuild messages "" "" ∅ ∅ 0).
End Build.

(** ** Normalization *)

Definition isBlankChatContent (raw : string) : bool :=
  let raw := TrimSpace raw in
  (raw =?s "") || (raw =?s "null") || (raw =?s json_quote "") || (chatMessageContentText raw =?s "").

Definition is_reply (m : ChatMessage) : bool := (cm_Role m =?s "tool") && negb (cm_ToolCallID m =?s "").
(** Every tool reply by its id; the last one wins. *)
Definition index_replies (messages : list ChatMessage) : gmap string ChatMessage :=
  foldl (fun replies m => if is_reply m then <[cm_ToolCallID m := m]> replies else replies) ∅ messages.

Section Normalize.
Context (replies : gmap string ChatMessage) (mediaByCallID : gmap string (list ChatContentPart)).

Definition answered (tc : ChatToolCall) : bool :=
  negb (ctc_ID tc =?s "") && bool_decide (is_Some (replies !! ctc_ID tc)).
Definition call_media (tc : ChatToolCall) : list ChatContentPart :=
  match default [] (mediaByCallID !! ctc_ID tc) with
  | [] => []
  | media => text_chat_part (toolOutputMediaAttribution (ctc_ID tc)) :: media
  end.
Definition media_message (kept : list ChatToolCall) : list ChatMessage :=
  match flat_map call_media kept with
  | [] => []
  | mediaParts => [chat_message "user" (or_nil (marshal_chat_parts mediaParts))]
  end.
(** What one message becomes. *)
Definition normalize_chat_message (m : ChatMessage) : list ChatMessage :=
  if cm_Role m =?s "tool" then (if cm_ToolCallID m =?s "" then [m] else [])
  else match cm_ToolCalls m with
       | [] => [m]
       | calls =>
           match List.filter answered calls with
           | [] => if isBlankChatContent (cm_Content m) then [] else [m <| cm_ToolCalls := [] |>]
           | kept =>
               (m <| cm_ToolCalls := kept |>)
                 :: omap (fun tc => replies !! ctc_ID tc) kept ++ media_message kept
           end
       end.
End Normalize.

Definition normalizeChatMessagesWithToolOutputMedia (messages : list ChatMessage)
    (mediaByCallID : gmap string (list ChatContentPart)) : list ChatMessage :=
  flat_map (normalize_chat_message (index_replies messages) mediaByCallID) messages.
Definition normalizeChatMessages (messages : list ChatMessage) : list ChatMessage :=
  normalizeChatMessagesWithToolOutputMedia messages ∅.

Definition isInstructionRole (role : string) : bool := (role =?s "system") || (role =?s "developer").
Fixpoint split_leading (messages : list ChatMessage) : list ChatMessage * list ChatMessage :=
  match messages with
  | m :: rest =>
      if isInstructionRole (cm_Role m)
      then let '(leading, rest) := split_leading rest in (m :: leading, rest)
      else ([], messages)
  | [] => ([], [])
  end.
Definition merge_leading (leading : list ChatMessage) : list ChatMessage :=
  match leading with
  | [] => []
  | [m] => [m]
  | _ =>
      match List.filter (fun t => negb (t =?s ""))
              (map (fun m => TrimSpace (chatMessageContentText (cm_Content m))) leading) with
      | [] => []
      | merged => [chat_message "system" (json_quote (Join merged blank_line))]
      end
  end.
Definition as_user (m : ChatMessage) : ChatMessage :=
  if isInstructionRole (cm_Role m) then m <| cm_Role := "user" |> else m.
Definition normalizeResponsesDerivedChatMessageRoles (messages : list ChatMessage) : list ChatMessage :=
  let '(leading, rest) := split_leading messages in merge_leading leading ++ map as_user rest.

(** ** The request *)

Section Request.
Context (ReasoningContentByID : string -> string).

Definition responsesInputToChatMessagesWithOptions (instructions inputRaw : string) :
    result (list ChatMessage) :=
  let messages := if TrimSpace instructions =?s "" then [] else
                  [chat_message "system" (json_quote instructions)] in
  let inputRaw := TrimSpace inputRaw in
  if (inputRaw =?s "") || (inputRaw =?s "null") then inr messages else
  match unmarshal_string inputRaw with
  | Some inputText => inr (messages ++ [chat_message "user" (json_quote inputText)])
  | None =>
      rawItems ← ok_or ErrParseInput (match json_shape inputRaw with Some (SArr l) => Some l | _ => None end);
      built ← buildChatMessagesFromItems ReasoningContentByID messages rawItems;
      inr (normalizeResponsesDerivedChatMessageRoles
             (normalizeChatMessagesWithToolOutputMedia (bd_messages built) (bd_mediaByCallID built)))
  end.

Definition ResponsesToChatCompletionsRequestWithOptions (req : ResponsesRequest) :
    result ChatCompletionsRequest :=
  messages ← responsesInputToChatMessagesWithOptions (rreq_Instructions req) (rreq_Input req);
  effectiveTools ← EffectiveResponsesTools req;
  tools ← responsesToolsToChatTools effectiveTools;
  inr (zero_ChatCompletionsRequest
    <| ccrq_Model := rreq_Model req |>
    <| ccrq_Messages := messages |>
    <| ccrq_MaxCompletionTokens := rreq_MaxOutputTokens req |>
    <| ccrq_Temperature := rreq_Temperature req |>
    <| ccrq_TopP := rreq_TopP req |>
    <| ccrq_Stream := rreq_Stream req |>
    <| ccrq_ServiceTier := rreq_ServiceTier req |>
    <| ccrq_ParallelToolCalls := rreq_ParallelToolCalls req |>
    <| ccrq_ReasoningEffort := match rreq_Reasoning req with Some r => rre_Effort r | None => "" end |>
    <| ccrq_Tools := tools |>
    <| ccrq_ToolChoice :=
         match tools with
         | [] => ""
         | _ => if rreq_ToolChoice req =?s "" then ""
                else responsesToolChoiceToChatToolChoice (rreq_ToolChoice req) (declared_names tools)
         end |>
    <| ccrq_ResponseFormat :=
         match rreq_Text req with
         | Some text => responsesTextFormatToChatResponseFormat (rtx_Format text)
         | None => ""
         end |>).
End Request.
Definition ResponsesToChatCompletionsRequest : ResponsesRequest -> result ChatCompletionsRequest :=
  ResponsesToChatCompletionsRequestWithOptions (fun _ => "").
