(* ===== verification/ResponsesToChatRequestProofs.v ===== *)
(** * The chat history a strict upstream accepts

    Theorems on [ResponsesToChatRequest].  The messages built from a Responses input
    are normalized into a history in which the replies of an assistant's calls follow
    it directly and in order, no other reply occurs, and only the first message gives
    instructions ([chat_history_accepted]).  The normalization keeps every call that
    has an answer, every other message and their order ([normalize_spec]). *)

From S2P Require Import Prelude Json JsonCodec GoStrings ModelNames ToolSchema Apicompat RequestCodec ResponsesToAnthropicRequest ChatToResponses ChatToolTables ChatAnswerToResponses ToolDiscoveries ResponsesToChatRequest.
Local Open Scope string_scope.
Local Open Scope nat_scope.
Local Open Scope list_scope.
Local Open Scope go_scope.

(** ** Histories *)

(** A reply to the call. *)
Definition answers (c : ChatToolCall) (r : ChatMessage) : Prop :=
  cm_Role r = "tool" /\ cm_ToolCallID r = ctc_ID c /\ ctc_ID c <> "".

(** A message that neither calls nor answers, or an assistant's calls with their
    replies right after them, in order; and so on. *)
Inductive chat_history : list ChatMessage -> Prop :=
| history_nil : chat_history []
| history_plain m l :
    cm_ToolCalls m = [] -> is_reply m = false -> chat_history l -> chat_history (m :: l)
| history_calls m replies l :
    cm_Role m = "assistant" -> cm_ToolCalls m <> [] -> Forall2 answers (cm_ToolCalls m) replies ->
    chat_history l -> chat_history (m :: replies ++ l).
#[local] Hint Constructors chat_history : core.

Lemma history_app l1 l2 : chat_history l1 -> chat_history l2 -> chat_history (l1 ++ l2).
Proof.
  induction 1 as [|m l Hc Hr H IH|m rs l Ha Hn Hrs H IH]; intros H2; [done|by apply history_plain; auto|].
  simpl. rewrite <- app_assoc. by apply history_calls; auto.
Qed.

(** Only the first message may give instructions. *)
Definition instructions_first (l : list ChatMessage) : Prop :=
  Forall (fun m => isInstructionRole (cm_Role m) = false) (tail l).

(** ** Built messages *)

(** Only assistants call. *)
Definition callers (l : list ChatMessage) : Prop :=
  Forall (fun m => cm_ToolCalls m <> [] -> cm_Role m = "assistant") l.

Lemma callers_snoc l m : callers l -> cm_ToolCalls m = [] -> callers (l ++ [m]).
Proof. intros Hl Hm. apply Forall_app. split; [done|]. repeat constructor. by rewrite Hm. Qed.

Lemma callers_call l tc p : callers l -> callers (appendAssistantToolCall l tc p).
Proof.
  induction 1 as [|m l Hm Hl IH]; [by repeat constructor|].
  destruct l as [|m' l]; [|by constructor]. simpl. destruct (String.eqb_spec (cm_Role m) "assistant").
  - by repeat constructor.
  - constructor; [done|]. by repeat constructor.
Qed.

(** What the steps of the builder keep. *)
Section Built.
Context (lookup : string -> string).

Lemma append_user_callers c b : callers (bd_messages b) -> callers (bd_messages (append_user c b)).
Proof. intros H. by apply callers_snoc. Qed.
Lemma append_call_callers tc b : callers (bd_messages b) -> callers (bd_messages (append_call tc b)).
Proof. apply callers_call. Qed.
#[local] Hint Resolve append_user_callers append_call_callers callers_snoc : core.

Lemma build_reasoning_messages item b : bd_messages (build_reasoning lookup item b) = bd_messages b.
Proof.
  unfold build_reasoning. cbv zeta.
  by repeat match goal with |- context [if ?c then _ else _] => destruct c end.
Qed.

Lemma build_output_callers t item b :
  callers (bd_messages b) -> callers (bd_messages (build_output t item b)).
Proof.
  intros H. unfold build_output. cbv zeta. destruct (_ && _); [done|]. case_bool_decide; [done|].
  destruct (extractToolOutputMedia _) as [[text media]|]; [|by apply callers_snoc].
  destruct (rawString _ =?s ""); by apply callers_snoc.
Qed.

Lemma build_function_call_callers item b :
  callers (bd_messages b) -> callers (bd_messages (build_function_call item b)).
Proof.
  intros H. unfold build_function_call. cbv zeta. destruct (negb _); [|by apply append_call_callers].
  by destruct (_ =?s "").
Qed.

Lemma build_message_callers role item b b' :
  build_message role item b = inr b' -> callers (bd_messages b) -> callers (bd_messages b').
Proof.
  unfold build_message. cbv zeta. destruct (responsesContentToChatContent _ _) as [|content]; [done|].
  cbn [mbind result_bind]. intros [= <-] H. destruct (role =?s "assistant"); by apply callers_snoc.
Qed.

Lemma build_item_callers item b b' :
  build_item lookup item b = inr b' -> callers (bd_messages b) -> callers (bd_messages b').
Proof.
  intros E H. revert E. unfold build_item. cbv zeta.
  repeat match goal with |- (if ?c then _ else _) = _ -> _ => destruct c end.
  all: try (intros [= <-]; unfold build_tool_search_call, build_custom_tool_call; cbv zeta; auto; fail).
  - intros [= <-]. by rewrite build_reasoning_messages.
  - intros [= <-]. by apply build_function_call_callers.
  - intros [= <-]. by apply build_output_callers.
  - intros [= <-]. destruct (_ =?s ""); auto.
  - destruct (chatContentFromSingleResponsesPart _ _); [done|]. intros [= <-]. auto.
  - intros E. by eapply build_message_callers.
Qed.

Lemma build_items_callers l b b' :
  build_items lookup l b = inr b' -> callers (bd_messages b) -> callers (bd_messages b').
Proof.
  revert b. induction l as [|raw l IH]; intros b; simpl; [by intros [= <-]|].
  destruct (build_raw_item lookup raw b) as [|b1] eqn:E; [done|]. cbn [mbind result_bind].
  intros H Hb. apply (IH _ H). revert E. unfold build_raw_item. cbv zeta. destruct (_ || _); [by intros [= <-]|].
  destruct (rawJSONObject _); [by intros ?%build_item_callers|].
  destruct (unmarshal_string _); simpl; [|done]. intros [= <-]. auto.
Qed.
End Built.

(** ** Replies *)

Lemma index_replies_snoc l m :
  index_replies (l ++ [m]) =
    if is_reply m then <[cm_ToolCallID m := m]> (index_replies l) else index_replies l.
Proof. unfold index_replies. by rewrite foldl_app. Qed.

(** The reply kept for an id is the last one given. *)
Lemma index_replies_last l id r :
  index_replies l !! id = Some r <->
  exists l1 l2, l = l1 ++ r :: l2 /\ is_reply r = true /\ cm_ToolCallID r = id /\
    Forall (fun m => is_reply m = true -> cm_ToolCallID m <> id) l2.
Proof.
  induction l as [|m l IH] using rev_ind.
  { split; [done|]. by intros ([|??] & ? & ? & _). }
  rewrite index_replies_snoc. destruct (decide (is_reply m = true /\ cm_ToolCallID m = id)) as [[Hm <-]|Hn].
  - rewrite Hm, lookup_insert_eq. split.
    + intros [= <-]. by exists l, [].
    + intros (l1 & l2 & E & Hr & Hid & Hl2). destruct (decide (l2 = [])) as [->|Hne].
      { by apply app_inj_tail in E as [_ ->]. }
      destruct (exists_last Hne) as (l3 & m' & ->). rewrite app_comm_cons, app_assoc in E.
      apply app_inj_tail in E as [_ <-]. apply Forall_app in Hl2 as [_ Hl2].
      inversion Hl2; subst. by destruct H1.
  - assert (E : (if is_reply m then <[cm_ToolCallID m := m]> (index_replies l) else index_replies l) !! id
                = index_replies l !! id).
    { destruct (is_reply m) eqn:Hm; [|done]. rewrite lookup_insert_ne; [done|]. intros ?. by apply Hn. }
    rewrite E, IH. clear E. split.
    + intros (l1 & l2 & -> & Hr & Hid & Hl2). exists l1, (l2 ++ [m]). split_and!; [by rewrite <- app_assoc|done..|].
      apply Forall_app. split; [done|]. repeat constructor. intros Hm Hid'. by apply Hn.
    + intros (l1 & l2 & E & Hr & Hid & Hl2). destruct (decide (l2 = [])) as [->|Hne].
      { apply app_inj_tail in E as [_ ->]. by destruct Hn. }
      destruct (exists_last Hne) as (l3 & m' & ->). rewrite app_comm_cons, app_assoc in E.
      apply app_inj_tail in E as [-> <-]. apply Forall_app in Hl2 as [Hl2 _]. by exists l1, l3.
Qed.

Lemma index_replies_reply l id r :
  index_replies l !! id = Some r -> cm_Role r = "tool" /\ cm_ToolCallID r = id.
Proof.
  intros (l1 & l2 & _ & Hr & Hid & _)%index_replies_last. split; [|done].
  apply andb_true_iff in Hr as [Hr _]. by apply String.eqb_eq.
Qed.

(** ** Normalization *)

Section Normalize.
Context (messages : list ChatMessage) (media : gmap string (list ChatContentPart)).
Local Notation replies := (index_replies messages).

Lemma answers_of_kept calls :
  Forall2 answers (List.filter (answered replies) calls)
    (omap (fun tc => replies !! ctc_ID tc) (List.filter (answered replies) calls)).
Proof.
  induction calls as [|c calls IH]; simpl; [constructor|].
  destruct (answered replies c) eqn:E; [|done]. simpl.
  apply andb_true_iff in E as [Hid [r Hr]%bool_decide_eq_true].
  rewrite Hr. simpl. constructor; [|exact IH].
  apply index_replies_reply in Hr as [? ?]. apply negb_true_iff, String.eqb_neq in Hid. by split_and!.
Qed.

Lemma media_history kept : chat_history (media_message media kept).
Proof. unfold media_message. destruct (flat_map _ _); [done|]. by apply history_plain. Qed.

Lemma normalize_history m :
  (cm_ToolCalls m <> [] -> cm_Role m = "assistant") ->
  chat_history (normalize_chat_message replies media m).
Proof.
  intros Hm. unfold normalize_chat_message. destruct (String.eqb_spec (cm_Role m) "tool") as [Ht|Ht].
  - destruct (cm_ToolCallID m =?s "") eqn:E; [|done]. apply history_plain; [|by unfold is_reply; rewrite E, andb_false_r|done].
    destruct (cm_ToolCalls m); [done|]. rewrite Hm in Ht; done.
  - assert (Hr : forall m', cm_Role m' = cm_Role m -> is_reply m' = false).
    { intros m' E. unfold is_reply. rewrite E. by apply String.eqb_neq in Ht as ->. }
    destruct (cm_ToolCalls m) as [|c calls] eqn:E; [by apply history_plain; auto|].
    pose proof (answers_of_kept (c :: calls)) as K.
    destruct (List.filter _ _) as [|c' kept].
    + destruct (isBlankChatContent _); [done|]. apply history_plain; auto.
    + rewrite app_comm_cons. simpl app. apply history_calls; [by apply Hm| |exact K|apply media_history]. done.
Qed.

Lemma reply_calls id r : callers messages -> replies !! id = Some r -> cm_ToolCalls r = [].
Proof.
  intros H Hr. pose proof (index_replies_reply _ _ _ Hr) as [Ht _].
  apply index_replies_last in Hr as (l1 & l2 & E & _). unfold callers in H. rewrite E in H.
  apply Forall_app in H as [_ H]. inversion H as [|?? Hc]; subst.
  destruct (cm_ToolCalls r); [done|]. by rewrite Hc in Ht.
Qed.

Lemma media_calls kept : flat_map cm_ToolCalls (media_message media kept) = [].
Proof. unfold media_message. by destruct (flat_map (call_media media) kept). Qed.

(** The calls that remain are the answered ones. *)
Lemma normalize_calls m :
  callers messages -> (cm_ToolCalls m <> [] -> cm_Role m = "assistant") ->
  flat_map cm_ToolCalls (normalize_chat_message replies media m)
  = List.filter (answered replies) (cm_ToolCalls m).
Proof.
  intros H Hm. unfold normalize_chat_message. destruct (String.eqb_spec (cm_Role m) "tool") as [Ht|Ht].
  - assert (E : cm_ToolCalls m = []) by (destruct (cm_ToolCalls m); [done|]; rewrite Hm in Ht; done).
    destruct (_ =?s ""); simpl; by rewrite E.
  - destruct (cm_ToolCalls m) as [|c calls] eqn:E; [by simpl; rewrite E|].
    destruct (List.filter _ _) as [|c' kept]; [by destruct (isBlankChatContent _)|].
    rewrite app_comm_cons, flat_map_app, media_calls, app_nil_r. cbn [flat_map cm_ToolCalls].
    change (cm_ToolCalls (m <| cm_ToolCalls := c' :: kept |>)) with (c' :: kept).
    rewrite <- (app_nil_r (c' :: kept)) at 3. f_equal. generalize (c' :: kept). intros l.
    induction l as [|c0 l IH]; [done|]. change (omap ?f (c0 :: l)) with (match f c0 with Some y => y :: omap f l | None => omap f l end).
    cbv beta. destruct (replies !! ctc_ID c0) eqn:Er; [|done]. cbn [flat_map]. by rewrite IH, (reply_calls _ _ H Er).
Qed.

Lemma normalized_history :
  callers messages -> chat_history (normalizeChatMessagesWithToolOutputMedia messages media).
Proof.
  intros H. unfold normalizeChatMessagesWithToolOutputMedia.
  assert (G : forall l, callers l -> chat_history (flat_map (normalize_chat_message replies media) l)).
  { induction 1; simpl; [done|]. apply history_app; [|done]. by apply normalize_history. }
  by apply G.
Qed.

Lemma normalized_calls :
  callers messages ->
  flat_map cm_ToolCalls (normalizeChatMessagesWithToolOutputMedia messages media)
  = List.filter (answered replies) (flat_map cm_ToolCalls messages).
Proof.
  intros H. unfold normalizeChatMessagesWithToolOutputMedia.
  assert (G : forall l, callers l ->
    flat_map cm_ToolCalls (flat_map (normalize_chat_message replies media) l)
    = List.filter (answered replies) (flat_map cm_ToolCalls l)).
  { induction 1 as [|m l Hm Hl IH]; simpl; [done|].
    by rewrite flat_map_app, List.filter_app, normalize_calls, IH. }
  by apply G.
Qed.
End Normalize.

(** ** Roles *)

Lemma history_instruction m l :
  chat_history (m :: l) -> isInstructionRole (cm_Role m) = true ->
  chat_history l /\ cm_ToolCalls m = [] /\ is_reply m = false.
Proof. intros H Hm. inversion H as [|m' l' Hc Hr Hl|m' rs l' Ha]; subst; [done|]. by rewrite Ha in Hm. Qed.

Lemma as_user_role m : isInstructionRole (cm_Role (as_user m)) = false.
Proof. unfold as_user. by destruct (isInstructionRole (cm_Role m)) eqn:E. Qed.

Lemma as_user_calls m : cm_ToolCalls (as_user m) = cm_ToolCalls m.
Proof. unfold as_user. by destruct (isInstructionRole _). Qed.

Lemma as_user_history l : chat_history l -> chat_history (map as_user l).
Proof.
  induction 1 as [|m l Hc Hr H IH|m rs l Ha Hn Hrs H IH]; simpl; [done|..].
  - apply history_plain; [by rewrite as_user_calls| |done]. unfold as_user.
    by destruct (isInstructionRole _).
  - rewrite map_app. assert (E : as_user m = m) by (unfold as_user; by rewrite Ha). rewrite E.
    assert (Er : map as_user rs = rs); [|by rewrite Er; apply history_calls].
    clear E Hn IH H. induction Hrs as [|c r cs rs [Ht _] Hrs IH]; [done|]. simpl.
    rewrite IH. f_equal. unfold as_user. by rewrite Ht.
Qed.

Lemma split_leading_spec l :
  let '(leading, rest) := split_leading l in
  l = leading ++ rest /\ Forall (fun m => isInstructionRole (cm_Role m) = true) leading.
Proof.
  induction l as [|m l IH]; simpl; [done|]. destruct (isInstructionRole (cm_Role m)) eqn:E; [|done].
  destruct (split_leading l) as [leading rest]. destruct IH as [-> H]. split; [done|]. by constructor.
Qed.

Lemma merge_leading_short l :
  merge_leading l = [] \/ (exists m, l = [m] /\ merge_leading l = [m])
  \/ (exists c, merge_leading l = [chat_message "system" c]).
Proof.
  destruct l as [|m [|m' l]]; [by left|right; left; by exists m|].
  unfold merge_leading. destruct (List.filter _ _); [by left|]. right; right. by eexists.
Qed.

Lemma roles_history l :
  chat_history l ->
  chat_history (normalizeResponsesDerivedChatMessageRoles l)
  /\ instructions_first (normalizeResponsesDerivedChatMessageRoles l)
  /\ flat_map cm_ToolCalls (normalizeResponsesDerivedChatMessageRoles l) = flat_map cm_ToolCalls l.
Proof.
  intros H. unfold normalizeResponsesDerivedChatMessageRoles. pose proof (split_leading_spec l) as S.
  destruct (split_leading l) as [leading rest]. destruct S as [-> Hl].
  assert (G : chat_history rest /\ Forall (fun m => cm_ToolCalls m = [] /\ is_reply m = false) leading).
  { induction Hl as [|m leading Hm Hl IH]; [done|]. simpl in H.
    apply history_instruction in H as (H & Hc & Hr); [|done]. destruct (IH H). split; [done|]. by constructor. }
  destruct G as [Hrest Hlead]. apply as_user_history in Hrest.
  assert (U : Forall (fun m => isInstructionRole (cm_Role m) = false) (map as_user rest)).
  { apply Forall_forall. intros m (m' & -> & _)%list_elem_of_fmap. apply as_user_role. }
  assert (C : flat_map cm_ToolCalls (map as_user rest) = flat_map cm_ToolCalls rest).
  { clear Hrest U H. induction rest as [|m rest IH]; [done|]. simpl. by rewrite as_user_calls, IH. }
  assert (CL : flat_map cm_ToolCalls leading = []).
  { clear -Hlead. induction Hlead as [|m leading [Hm _] _ IH]; [done|]. simpl. by rewrite Hm, IH. }
  rewrite !flat_map_app, C, CL.
  destruct (merge_leading_short leading) as [E|[(m & -> & E)|[c E]]]; rewrite E; simpl.
  - split_and!; [done| |done]. by apply Forall_tail.
  - inversion Hlead as [|?? [Hm Hr]]; subst. split_and!; [by apply history_plain|done|by rewrite Hm].
  - by split_and!; [apply history_plain|..].
Qed.

(** ** The request *)

Section Request.
Context (lookup : string -> string).

(** The history before the items. *)
Definition instruction_messages (instructions : string) : list ChatMessage :=
  if TrimSpace instructions =?s "" then [] else [chat_message "system" (json_quote instructions)].

Lemma instruction_callers instructions : callers (instruction_messages instructions).
Proof. unfold instruction_messages. destruct (_ =?s ""); by repeat constructor. Qed.

Lemma short_history instructions l :
  Forall (fun m => exists c, m = chat_message "user" c) l ->
  chat_history (instruction_messages instructions ++ l)
  /\ instructions_first (instruction_messages instructions ++ l).
Proof.
  intros Hl. assert (U : chat_history l /\ Forall (fun m => isInstructionRole (cm_Role m) = false) l).
  { induction Hl as [|m l [c ->] Hl [IH1 IH2]]; [done|]. split; [by apply history_plain|by constructor]. }
  destruct U as [U1 U2]. unfold instruction_messages. destruct (_ =?s ""); simpl.
  - split; [done|]. by apply Forall_tail.
  - split; [by apply history_plain|done].
Qed.

(** C28. Whatever the items of a Responses input are, the chat messages they become are
    a history the strict upstreams accept: the replies to an assistant's calls follow
    it directly, one per call and in order, there are no other replies, and only the
    first message gives instructions.  The calls that go upstream are those with a
    reply, in the order of the items; the others are left out. *)
Theorem chat_history_accepted instructions input ms :
  responsesInputToChatMessagesWithOptions lookup instructions input = inr ms ->
  chat_history ms /\ instructions_first ms
  /\ (forall items, json_shape (TrimSpace input) = Some (SArr items) ->
      exists built, buildChatMessagesFromItems lookup (instruction_messages instructions) items = inr built
        /\ flat_map cm_ToolCalls ms
           = List.filter (answered (index_replies (bd_messages built)))
               (flat_map cm_ToolCalls (bd_messages built))).
Proof.
  unfold responsesInputToChatMessagesWithOptions. fold (instruction_messages instructions). cbv zeta.
  destruct (_ || _) eqn:En.
  { intros [= <-]. rewrite <- (app_nil_r (instruction_messages instructions)).
    destruct (short_history instructions []) as [H1 H2]; [done|]. split_and!; [done..|].
    intros items Hi. apply orb_true_iff in En as [E|E]; apply String.eqb_eq in E; rewrite E in Hi; discriminate Hi. }
  unfold unmarshal_string, d_string.
  destruct (json_shape (TrimSpace input)) as [[]|] eqn:Es; try done.
  - intros [= <-]. destruct (short_history instructions [chat_message "user" (json_quote "")]) as [H1 H2];
      [by repeat econstructor|]. by split_and!.
  - intros [= <-]. destruct (short_history instructions [chat_message "user" (json_quote s)]) as [H1 H2];
      [by repeat econstructor|]. by split_and!.
  - cbn [ok_or mbind result_bind].
    destruct (buildChatMessagesFromItems _ _ _) as [|built] eqn:Eb; [done|]. cbn [mbind result_bind].
    intros [= <-].
    assert (Hc : callers (bd_messages built)).
    { apply (build_items_callers lookup _ _ _ Eb). apply instruction_callers. }
    destruct (roles_history _ (normalized_history _ (bd_mediaByCallID built) Hc)) as (H1 & H2 & H3).
    split_and!; [done..|]. intros items [= <-]. exists built. split; [done|].
    by rewrite H3, normalized_calls.
Qed.
End Request.

(** ** A history of a coding agent

    Two parallel calls with a notice between them and their outputs, one output
    missing, a call whose arguments were cut off. *)

Definition text_item (role text : string) : string :=
  print_members [("type", json_quote "message"); ("role", json_quote role); ("content", json_quote text)].
Definition call_json (id name arguments : string) : string :=
  print_members [("type", json_quote "function_call"); ("call_id", json_quote id);
                 ("name", json_quote name); ("arguments", json_quote arguments)].
Definition output_json (id output : string) : string :=
  print_members [("type", json_quote "function_call_output"); ("call_id", json_quote id);
                 ("output", json_quote output)].
Definition sample_input : string := print_array
  [text_item "developer" "Be brief."; text_item "user" "List the files.";
   call_json "call_1" "shell" "{}"; call_json "call_2" "shell" "{}"; call_json "call_3" "shell" "{";
   text_item "developer" "Approved."; output_json "call_3" "cut off"; output_json "call_1" "a.v";
   text_item "user" "And now?"].
Definition sent_history (r : result (list ChatMessage)) : list ChatMessage :=
  match r with inr ms => ms | inl _ => [] end.

Lemma chat_history_accepted_witness :
  let r := responsesInputToChatMessagesWithOptions (fun _ => "") "You are Codex." sample_input in
  map cm_Role (sent_history r) = ["system"; "user"; "assistant"; "tool"; "user"; "user"]
  /\ map ctc_ID (flat_map cm_ToolCalls (sent_history r)) = ["call_1"]
  /\ chat_history (sent_history r).
Proof.
  cbv zeta. split; [vm_compute; reflexivity|]. split; [vm_compute; reflexivity|].
  destruct (responsesInputToChatMessagesWithOptions (fun _ => "") "You are Codex." sample_input)
    as [e|ms] eqn:E; [constructor|].
  exact (proj1 (chat_history_accepted _ _ _ _ E)).
Defined.
