(* ===== verification/ChatStreams.v ===== *)
(** * What a Chat Completions stream says

    The content of the chunks of a stream: its text, its reasoning and the arguments of
    its calls.  The specifications of both converters that read such streams
    ([ChatAnswerToResponses], [ChatAnthropicBridge]) are stated with it. *)

From S2P Require Import Prelude Apicompat ChatAnswerToResponses.
Local Open Scope string_scope.
Local Open Scope Z_scope.
Local Open Scope list_scope.

Record Sent := MkSent { sn_text : string; sn_thinking : string; sn_args : gmap Z string }.
#[export] Instance eta_Sent : Eta Sent := fun r => MkSent (sn_text r) (sn_thinking r) (sn_args r).
Definition nothing_sent : Sent := MkSent "" "" ∅.

Definition args_of (g : Sent) (k : Z) : string := default "" (sn_args g !! k).
Definition add_args (k : Z) (a : string) (g : Sent) : Sent :=
  g <| sn_args := <[k := args_of g k +:+ a]> (sn_args g) |>.
Definition add_text (s : string) (g : Sent) : Sent := g <| sn_text := sn_text g +:+ s |>.
Definition add_thinking (s : string) (g : Sent) : Sent := g <| sn_thinking := sn_thinking g +:+ s |>.
Definition sent_call (g : Sent) (tc : ChatToolCall) : Sent :=
  add_args (default 0 (ctc_Index tc)) (cfc_Arguments (ctc_Function tc)) g.
Definition sent_choice (g : Sent) (choice : ChatChunkChoice) : Sent :=
  let delta := ccc_Delta choice in
  foldl sent_call (add_text (default "" (cdl_Content delta))
                     (add_thinking (default "" (delta_reasoning delta)) g)) (cdl_ToolCalls delta).
(** The text, the reasoning and, by their index, the arguments of the calls. *)
Definition sent_chunk (g : Sent) (chunk : ChatCompletionsChunk) : Sent :=
  foldl sent_choice g (chk_Choices chunk).
Definition sent (chunks : list ChatCompletionsChunk) : Sent := foldl sent_chunk nothing_sent chunks.

(** ** Laws *)

Lemma add_nothing g k : is_Some (sn_args g !! k) -> add_args k "" g = g.
Proof.
  intros [a Ha]. unfold add_args, args_of. rewrite Ha. cbn [default from_option]. unfold id. rewrite str_app_nil_r.
  destruct g as [t th m]. simpl in *. by rewrite insert_id.
Qed.
(** A call is seen before its fragment is read. *)
Lemma add_args_seen k a g : add_args k a g = add_args k a (add_args k "" g).
Proof.
  destruct g as [t th m]. unfold add_args, args_of. simpl. rewrite lookup_insert_eq. simpl.
  by rewrite str_app_nil_r, insert_insert_eq.
Qed.
Lemma add_empty_text g : add_text "" g = g.
Proof. destruct g. unfold add_text. simpl. by rewrite str_app_nil_r. Qed.
Lemma add_empty_thinking g : add_thinking "" g = g.
Proof. destruct g. unfold add_thinking. simpl. by rewrite str_app_nil_r. Qed.
