(* ===== verification/ChatAnswerToResponsesProofs.v ===== *)
(** * A Responses client on a Chat Completions upstream

    The stream of [ChatAnswerToResponses] read by a strict Responses client: sequence
    numbers count up from 0, every event names an item the client knows, finished items
    hold what was streamed, and the terminal response lists what was finished, for what a
    Chat Completions upstream sends ([orderly], [answer_stream_assembles]). *)

From S2P Require Import Prelude Json JsonCodec GoStrings ToolSchema Apicompat RequestCodec AnthropicToResponses ChatToolTables ChatAnswerToResponses ChatStreams.
Local Open Scope string_scope.
Local Open Scope Z_scope.
Local Open Scope list_scope.
Local Open Scope go_scope.

(** ** The client *)

(** An output item: its deltas so far, and the finished item once it is done. *)
Record Item := MkItem {
  it_id : string;
  it_type : string;
  it_text : string;
  it_done : option ResponsesOutput;
}.
#[export] Instance eta_Item : Eta Item := fun r => MkItem (it_id r) (it_type r) (it_text r) (it_done r).

Record Answer := MkAnswer {
  an_sequence : Z;
  an_created : bool;
  an_items : gmap Z Item;
  an_response : option ResponsesResponse;
}.
Definition new_answer : Answer := MkAnswer 0 false ∅ None.

Definition grow (delta : string) (it : Item) : Item := it <| it_text := it_text it +:+ delta |>.

(** What an event inside an item does: the item it needs, which is not done yet, and what
    becomes of it.  A final text has to be what the deltas add up to. *)
Definition inside (e : ResponsesStreamEvent) (it : Item) : option Item :=
  let t := rse_Type e in
  let needs type (ok : bool) it' :=
    if (it_type it =?s type) && ok then Some it' else None in
  let still_open := match it_done it with None => true | Some _ => false end in
  if t =?s "response.reasoning_summary_text.delta" then needs "reasoning" still_open (grow (rse_Delta e) it)
  else if t =?s "response.output_text.delta" then needs "message" still_open (grow (rse_Delta e) it)
  else if t =?s "response.function_call_arguments.delta" then needs "function_call" still_open (grow (rse_Delta e) it)
  else if t =?s "response.custom_tool_call_input.delta" then needs "custom_tool_call" still_open (grow (rse_Delta e) it)
  else if t =?s "response.reasoning_summary_text.done" then
    needs "reasoning" (still_open && (rse_Text e =?s it_text it)) it
  else if t =?s "response.output_text.done" then
    needs "message" (still_open && (rse_Text e =?s it_text it)) it
  else if t =?s "response.function_call_arguments.done" then
    needs "function_call" (still_open && (rse_Arguments e =?s call_arguments_or_empty (it_text it))) it
  else if t =?s "response.custom_tool_call_input.done" then
    needs "custom_tool_call" (still_open && (rse_Input e =?s it_text it)) it
  else if (t =?s "response.reasoning_summary_part.added") || (t =?s "response.reasoning_summary_part.done")
  then needs "reasoning" still_open it
  else if (t =?s "response.content_part.added") || (t =?s "response.content_part.done")
  then needs "message" still_open it
  else None.

(** The finished item is the one that was announced. *)
Definition finish (o : ResponsesOutput) (it : Item) : option Item :=
  match it_done it with
  | None => if (ro_ID o =?s it_id it) && (ro_Type o =?s it_type it) then Some (it <| it_done := Some o |>) else None
  | Some _ => None
  end.

Definition answer_step (c : Answer) (e : ResponsesStreamEvent) : option Answer :=
  let t := rse_Type e in
  let i := rse_OutputIndex e in
  let items := an_items c in
  let next items := MkAnswer (an_sequence c + 1) true items None in
  match an_response c with
  | Some _ => None
  | None =>
      if negb (rse_SequenceNumber e =? an_sequence c) then None
      else if t =?s "response.created" then if an_created c then None else Some (next items)
      else if negb (an_created c) then None
      else if t =?s "response.output_item.added" then
        match rse_Item e, items !! i with
        | Some o, None => Some (next (<[i := MkItem (ro_ID o) (ro_Type o) "" None]> items))
        | _, _ => None
        end
      else if t =?s "response.output_item.done" then
        match rse_Item e, items !! i with
        | Some o, Some it => it ← finish o it; Some (next (<[i := it]> items))
        | _, _ => None
        end
      else if t =?s "response.completed" then
        match rse_Response e with
        | Some r => Some (MkAnswer (an_sequence c + 1) true items (Some r))
        | None => None
        end
      else
        match items !! i with
        | Some it => if it_id it =?s rse_ItemID e then it ← inside e it; Some (next (<[i := it]> items)) else None
        | None => None
        end
  end.

(** ** The relation between converter and client *)

Local Abbreviation State := ChatCompletionsToResponsesStreamState.

(** The items of an answer. *)
Inductive Who := OReasoning | OMessage | OCall (k : Z).
#[export] Instance Who_eq_dec : EqDecision Who.
Proof. solve_decision. Defined.

Definition has_reasoning (st : State) : bool := cs_ReasoningOpen st || cs_ReasoningDone st.
Definition has_message (st : State) : bool := negb (cs_MessageItemID st =?s "").
(** [w] has output index [i]. *)
Definition owns (st : State) (w : Who) (i : Z) : Prop :=
  match w with
  | OReasoning => has_reasoning st = true /\ i = cs_ReasoningIndex st
  | OMessage => has_message st = true /\ i = cs_MessageIndex st
  | OCall k => cs_ToolOutputIndex st !! k = Some i
  end.

Definition call_type (st : State) (k : Z) : string :=
  if is_set (cs_toolIsCustom st) k then "custom_tool_call"
  else if is_set (cs_toolIsToolSearch st) k then "tool_search_call" else "function_call".
(** Only the arguments of functions are streamed. *)
Definition call_text (st : State) (k : Z) (arguments : string) : string :=
  if is_set (cs_toolIsCustom st) k || is_set (cs_toolIsToolSearch st) k then "" else arguments.
Definition done_reasoning (st : State) (text : string) : ResponsesOutput :=
  (reasoning_item (cs_ReasoningItemID st) text) <| ro_Status := "completed" |>.

(** What the client has of [w]; the message and the calls in [closed] are done. *)
Definition item_rel (closed : list Who) (st : State) (w : Who) (o : option Item) : Prop :=
  match w with
  | OReasoning => exists d, o = Some (MkItem (cs_ReasoningItemID st) "reasoning" (cs_Reasoning st) d)
      /\ d = if cs_ReasoningOpen st then None else Some (done_reasoning st (cs_Reasoning st))
  | OMessage => o = Some (MkItem (cs_MessageItemID st) "message" (cs_Text st)
      (if bool_decide (OMessage ∈ closed)
       then Some (message_item (cs_MessageItemID st) [output_text_part (cs_Text st)]) else None))
  | OCall k => exists tc id, cs_ToolCalls st !! k = Some tc /\ cs_ToolItemIDs st !! k = Some id
      /\ if bool_decide (OCall k ∈ closed) then
           exists text, o = Some (MkItem id (call_type st k) text (Some (finished_call st k tc id)))
             /\ (text = if is_set (cs_toolIsCustom st) k then ro_Input (finished_call st k tc id)
                        else call_text st k (cfc_Arguments (ctc_Function tc)))
         else if is_set (cs_toolAnnounced st) k
         then o = Some (MkItem id (call_type st k) (call_text st k (cfc_Arguments (ctc_Function tc))) None)
         else o = None
  end.

Definition distinct (st : State) : Prop := forall w1 w2 i, owns st w1 i -> owns st w2 i -> w1 = w2.
Definition in_range (st : State) : Prop :=
  0 <= cs_nextOutputIndex st /\ forall w i, owns st w i -> 0 <= i < cs_nextOutputIndex st.

(** What holds of the state alone; [full] is off between the opening of the reasoning
    item and its first text. *)
Record Shape (full : bool) (g : Sent) (st : State) : Prop := {
  s_completed : cs_CompletedSent st = false;
  s_thinking : cs_Reasoning st = sn_thinking g;
  s_reasoning : cs_Reasoning st <> "" -> has_reasoning st = true;
  s_full : full = true -> has_reasoning st = true -> cs_Reasoning st <> "";
  s_order : cs_ReasoningOpen st = true -> cs_ReasoningDone st = false;
  s_text : cs_Text st = sn_text g;
  s_message : has_message st = false -> cs_Text st = "";
  s_args : forall k, sn_args g !! k = (fun tc => cfc_Arguments (ctc_Function tc)) <$> cs_ToolCalls st !! k;
  s_calls : forall k, is_Some (cs_ToolCalls st !! k) <-> is_Some (cs_ToolOutputIndex st !! k);
  s_announced : forall k, is_set (cs_toolAnnounced st) k = true -> is_Some (cs_ToolCalls st !! k);
  s_range : in_range st;
  s_distinct : distinct st;
}.
(** What the client has. *)
Record Known (created : bool) (closed : list Who) (st : State) (c : Answer) : Prop := {
  k_created : cs_CreatedSent st = created /\ an_created c = created;
  k_running : an_response c = None;
  k_sequence : an_sequence c = cs_SequenceNumber st;
  k_items : forall i it, an_items c !! i = Some it -> exists w, owns st w i;
  k_spec : forall w i, owns st w i -> item_rel closed st w (an_items c !! i);
}.
Definition AB created full closed g st c : Prop := Shape full g st /\ Known created closed st c.
(** Between two operations. *)
Definition Between (g : Sent) : State -> Answer -> Prop := AB true true [] g.

Lemma owns_fun st w i j : owns st w i -> owns st w j -> i = j.
Proof. destruct w; simpl; [by intros [_ ->] [_ ->]..|congruence]. Qed.

(** ** What the client does with an event *)

Definition is_inside (t : string) : bool :=
  negb ((t =?s "response.created") || (t =?s "response.output_item.added")
        || (t =?s "response.output_item.done") || (t =?s "response.completed")).
Definition live (c : Answer) : Prop := an_response c = None /\ an_created c = true.

Lemma step_inside c e it it' :
  live c -> rse_SequenceNumber e = an_sequence c -> is_inside (rse_Type e) = true ->
  an_items c !! rse_OutputIndex e = Some it -> it_id it = rse_ItemID e -> inside e it = Some it' ->
  answer_step c e = Some (MkAnswer (an_sequence c + 1) true (<[rse_OutputIndex e := it']> (an_items c)) None).
Proof.
  intros [Hr Hc] Hs Ht Hi Hid Hin. unfold answer_step. rewrite Hr, Hs, Hc, Z.eqb_refl, Hi, Hid, String.eqb_refl, Hin. simpl.
  unfold is_inside in Ht. bool_hyps. apply String.eqb_neq in H, H1, H2, H0. by rewrite H, H0, H1, H2.
Qed.
Lemma step_added c e o :
  live c -> rse_SequenceNumber e = an_sequence c -> rse_Type e = "response.output_item.added" ->
  rse_Item e = Some o -> an_items c !! rse_OutputIndex e = None ->
  answer_step c e = Some (MkAnswer (an_sequence c + 1) true
    (<[rse_OutputIndex e := MkItem (ro_ID o) (ro_Type o) "" None]> (an_items c)) None).
Proof.
  intros [Hr Hc] Hs Ht Hi Hn. unfold answer_step. by rewrite Hr, Hs, Hc, Z.eqb_refl, Ht, Hi, Hn.
Qed.
Lemma step_done c e o it :
  live c -> rse_SequenceNumber e = an_sequence c -> rse_Type e = "response.output_item.done" ->
  rse_Item e = Some o -> an_items c !! rse_OutputIndex e = Some it ->
  it_done it = None -> ro_ID o = it_id it -> ro_Type o = it_type it ->
  answer_step c e = Some (MkAnswer (an_sequence c + 1) true
    (<[rse_OutputIndex e := it <| it_done := Some o |>]> (an_items c)) None).
Proof.
  intros [Hr Hc] Hs Ht Hi Hn Hd Hid Hty. unfold answer_step. rewrite Hr, Hs, Hc, Z.eqb_refl, Ht, Hi, Hn. simpl.
  unfold finish. by rewrite Hd, Hid, Hty, !String.eqb_refl.
Qed.
#[local] Arguments answer_step : simpl never.
#[local] Arguments inside : simpl never.
#[local] Arguments Z.add : simpl never.

(** ** Changes of one item *)

(** The same items with the same indices. *)
Definition same_owners (st st' : State) : Prop :=
  (forall w i, owns st' w i <-> owns st w i)
  /\ cs_CreatedSent st' = cs_CreatedSent st /\ cs_SequenceNumber st' = cs_SequenceNumber st.
Definition others_kept closed closed' (st st' : State) (w : Who) : Prop :=
  forall w' o, w' <> w -> item_rel closed st w' o -> item_rel closed' st' w' o.

Lemma known_updated closed closed' st st' c w i it :
  (forall w1 w2 i, owns st w1 i -> owns st w2 i -> w1 = w2) ->
  Known true closed st c -> owns st w i -> same_owners st st' ->
  item_rel closed' st' w (Some it) -> others_kept closed closed' st st' w ->
  Known true closed' (st' <| cs_SequenceNumber := cs_SequenceNumber st' + 1 |>)
    (MkAnswer (an_sequence c + 1) true (<[i := it]> (an_items c)) None).
Proof.
  intros Hd [[K1 K1'] K2 K3 K4 K5] Hw (Ho & Hc & Hs) Hrel Hkept. split; simpl; [by rewrite Hc|done|by rewrite Hs, K3| |].
  - intros j it' Hj. change (exists w', owns st' w' j). setoid_rewrite Ho.
    destruct (decide (j = i)) as [->|Hne]; [by exists w|].
    rewrite lookup_insert_ne in Hj by done. by eapply K4.
  - intros w' j Hj. change (owns st' w' j) in Hj. rewrite Ho in Hj. change (item_rel closed' st' w' (<[i:=it]> (an_items c) !! j)).
    destruct (decide (w' = w)) as [->|Hne].
    + rewrite (owns_fun _ _ _ _ Hj Hw), lookup_insert_eq. done.
    + rewrite lookup_insert_ne by (intros ->; by eapply Hne, Hd). apply Hkept; [done|]. by apply K5.
Qed.

Lemma shape_bump full g st : Shape full g st -> Shape full g (st <| cs_SequenceNumber := cs_SequenceNumber st + 1 |>).
Proof. by intros []. Qed.

Definition after (c : Answer) (r : State * list ResponsesStreamEvent) (P : State -> Answer -> Prop) : Prop :=
  exists c', accepts answer_step c r.2 = Some c' /\ P r.1 c'.

Lemma after_then c f g st (P Q : State -> Answer -> Prop) :
  after c (f st) P -> (forall st' c', P st' c' -> after c' (g st') Q) -> after c ((f ;>> g) st) Q.
Proof.
  intros (c1 & Ha1 & H1) Hg. unfold after, then_emit. destruct (f st) as [st1 o1]. simpl in *.
  destruct (Hg st1 c1 H1) as (c2 & Ha2 & H2). destruct (g st1) as [st2 o2]. exists c2. simpl in *.
  by rewrite accepts_app, Ha1.
Qed.

(** An event inside the item of [w], after a change from [st] to [st']. *)
Lemma inside_event closed closed' st st' c w i it it' t tmpl :
  Known true closed st c -> distinct st -> owns st w i -> an_items c !! i = Some it -> same_owners st st' ->
  rse_OutputIndex (tmpl st') = i -> rse_ItemID (tmpl st') = it_id it -> is_inside t = true ->
  (forall n, inside ((tmpl st') <| rse_Type := t |> <| rse_SequenceNumber := n |>) it = Some it') ->
  item_rel closed' st' w (Some it') -> others_kept closed closed' st st' w ->
  after c (chatToResponsesEvent t tmpl st') (Known true closed').
Proof.
  intros HK Hd Hw Hi Ho Hidx Hid Ht Hin Hrel Hk. pose proof HK as [[K1 K1'] K2 K3 _ _].
  pose proof Ho as (Ho1 & Ho2 & Ho3). eexists. simpl. split.
  - rewrite (step_inside _ _ it it'); [done|by split|by rewrite K3|done| |done|apply Hin].
    simpl. by rewrite Hidx.
  - simpl. rewrite Hidx. by eapply known_updated.
Qed.

(** An event that tells nothing new. *)
Lemma quiet_event closed st c w i it t tmpl :
  Known true closed st c -> distinct st -> owns st w i -> an_items c !! i = Some it ->
  rse_OutputIndex (tmpl st) = i -> rse_ItemID (tmpl st) = it_id it -> is_inside t = true ->
  (forall n, inside ((tmpl st) <| rse_Type := t |> <| rse_SequenceNumber := n |>) it = Some it) ->
  after c (chatToResponsesEvent t tmpl st) (Known true closed).
Proof.
  intros HK Hd Hw Hi. intros. eapply (inside_event closed closed st st); try done.
  - rewrite <- Hi. by apply HK.
  - by intros w' o _.
Qed.

(** The item of [w] is done. *)
Lemma done_event closed closed' st st' c w i it o tmpl :
  Known true closed st c -> distinct st -> owns st w i -> an_items c !! i = Some it -> it_done it = None ->
  ro_ID o = it_id it -> ro_Type o = it_type it -> same_owners st st' ->
  item_rel closed' st' w (Some (it <| it_done := Some o |>)) -> others_kept closed closed' st st' w ->
  tmpl st' = item_event i o ->
  after c (chatToResponsesEvent "response.output_item.done" tmpl st') (Known true closed').
Proof.
  intros HK Hd Hw Hi Hn Hid Hty Ho Hrel Hk Ht. pose proof HK as [[K1 K1'] K2 K3 _ _].
  pose proof Ho as (Ho1 & Ho2 & Ho3). eexists. simpl. rewrite Ht. split.
  - by rewrite (step_done _ _ o it); [|split|simpl; by rewrite K3|..].
  - simpl. by eapply known_updated.
Qed.

(** The item of a call that has its index already is announced. *)
Lemma announced_event closed st st' c w i o tmpl :
  Known true closed st c -> distinct st -> owns st w i -> an_items c !! i = None -> same_owners st st' ->
  item_rel closed st' w (Some (MkItem (ro_ID o) (ro_Type o) "" None)) -> others_kept closed closed st st' w ->
  tmpl st' = item_event i o ->
  after c (chatToResponsesEvent "response.output_item.added" tmpl st') (Known true closed).
Proof.
  intros HK Hd Hw Hi Ho Hrel Hk Ht. pose proof HK as [[K1 K1'] K2 K3 _ _].
  pose proof Ho as (Ho1 & Ho2 & Ho3). eexists. simpl. rewrite Ht. split.
  - by rewrite (step_added _ _ o); [|split|simpl; by rewrite K3|..].
  - simpl. by eapply known_updated.
Qed.

(** ** New items *)

(** [st'] is [st] with [w] at the next output index. *)
Definition allocated (st st' : State) (w : Who) : Prop :=
  (forall w' j, owns st' w' j <-> owns st w' j \/ (w' = w /\ j = cs_nextOutputIndex st))
  /\ (forall j, ~ owns st w j)
  /\ cs_nextOutputIndex st' = cs_nextOutputIndex st + 1
  /\ cs_CreatedSent st' = cs_CreatedSent st /\ cs_SequenceNumber st' = cs_SequenceNumber st.

Lemma allocated_distinct st st' w : allocated st st' w -> in_range st -> distinct st -> distinct st'.
Proof.
  intros (Ho & _) [_ Hr] Hd w1 w2 i. rewrite !Ho. intros [H1|[-> ->]] [H2|[-> E]]; [by eapply Hd| | |done].
  - subst i. apply Hr in H1. lia.
  - apply Hr in H2. lia.
Qed.
Lemma allocated_range st st' w : allocated st st' w -> in_range st -> in_range st'.
Proof.
  intros (Ho & _ & Hn & _) [H0 Hr]. unfold in_range. rewrite Hn. split; [lia|]. intros w' i. rewrite Ho.
  intros [H%Hr|[-> ->]]; lia.
Qed.
Lemma unallocated closed created st c : Known created closed st c -> in_range st -> an_items c !! cs_nextOutputIndex st = None.
Proof.
  intros [] [_ Hr]. destruct (an_items c !! _) as [it|] eqn:E; [|done].
  destruct (k_items0 _ _ E) as [w Hw%Hr]. lia.
Qed.

(** A call gets its index before it is announced. *)
Lemma reserve closed st st' c w :
  Known true closed st c -> in_range st -> allocated st st' w ->
  item_rel closed st' w None -> others_kept closed closed st st' w -> Known true closed st' c.
Proof.
  intros HK Hr (Ho & Hf & _ & Hc & Hs) Hrel Hk. pose proof (unallocated _ _ _ _ HK Hr) as Hn. destruct HK as [[K1 K1'] K2 K3 K4 K5].
  split; [by rewrite Hc|done|by rewrite Hs| |].
  - intros i it Hi. destruct (K4 i it Hi) as [w' Hw']. exists w'. apply Ho. by left.
  - intros w' i. rewrite Ho. intros [Hw|[-> ->]]; [|by rewrite Hn].
    apply Hk; [intros ->; by eapply Hf|by apply K5].
Qed.

Lemma added_event closed st st' c w o tmpl :
  Known true closed st c -> in_range st -> allocated st st' w ->
  item_rel closed st' w (Some (MkItem (ro_ID o) (ro_Type o) "" None)) -> others_kept closed closed st st' w ->
  tmpl st' = item_event (cs_nextOutputIndex st) o ->
  after c (chatToResponsesEvent "response.output_item.added" tmpl st') (Known true closed).
Proof.
  intros HK Hr (Ho & Hf & _ & Hc & Hs) Hrel Hk Ht. pose proof (unallocated _ _ _ _ HK Hr) as Hn.
  destruct HK as [[K1 K1'] K2 K3 K4 K5]. eexists. simpl. rewrite Ht. split.
  - by rewrite (step_added _ _ o); [|split|simpl; by rewrite Hs, K3|..].
  - split; simpl; [by rewrite Hc|done|by rewrite Hs, K3| |].
    + intros i it Hi. change (exists w', owns st' w' i). setoid_rewrite Ho.
      destruct (decide (i = cs_nextOutputIndex st)) as [->|Hne]; [exists w; by right|].
      rewrite lookup_insert_ne in Hi by done. destruct (K4 i it Hi) as [w' Hw']. exists w'. by left.
    + intros w' i Hw. change (owns st' w' i) in Hw. rewrite Ho in Hw.
      change (item_rel closed st' w' (<[cs_nextOutputIndex st:=MkItem (ro_ID o) (ro_Type o) "" None]> (an_items c) !! i)).
      destruct Hw as [Hw|[-> ->]]; [|by rewrite lookup_insert_eq].
      pose proof (proj2 Hr _ _ Hw). rewrite lookup_insert_ne by lia. apply Hk; [intros ->; by eapply Hf|by apply K5].
Qed.

(** ** Reasoning *)

#[local] Arguments chatToResponsesEvent : simpl never.
Local Abbreviation sim := (sim answer_step).

Lemma sim_after (R R' : State -> Answer -> Prop) f :
  (forall st c, R st c -> after c (f st) R') -> sim R R' f.
Proof. done. Qed.

(** Nothing of the items changes. *)
Lemma same_owners_refl st : same_owners st st.
Proof. done. Qed.
#[local] Hint Resolve same_owners_refl : core.

Lemma event_shape full g t tmpl st : Shape full g st -> Shape full g (chatToResponsesEvent t tmpl st).1.
Proof. apply shape_bump. Qed.

Lemma event_AB closed full g t tmpl st c :
  Shape full g st -> after c (chatToResponsesEvent t tmpl st) (Known true closed) ->
  after c (chatToResponsesEvent t tmpl st) (AB true full closed g).
Proof. intros HS (c' & Ha & HK). exists c'. split; [done|]. split; [by apply event_shape|done]. Qed.
Lemma after_silent c f h st P : after c (h (f st)) P -> after c ((silent f ;>> h) st) P.
Proof. intros (c' & Ha & HP). unfold after, silent, then_emit. destruct (h (f st)). by exists c'. Qed.

Section Stream.
Context (itemIDs : nat -> string).
Hypothesis named : forall n, itemIDs n <> "".

Definition Mid (g : Sent) st c : Prop := Shape false g st /\ Known true [] st c /\ cs_ReasoningOpen st = true.
(** No reasoning item was closed yet. *)
Definition Undone (g : Sent) st c : Prop := Between g st c /\ cs_ReasoningDone st = false.

Lemma shape_weaken g st : Shape true g st -> Shape false g st.
Proof. by intros []. Qed.

Definition opened_reasoning (st : State) : State :=
  st <| cs_ReasoningOpen := true |>
     <| cs_ReasoningItemID := itemIDs (cs_IDs st) |> <| cs_IDs := S (cs_IDs st) |>
     <| cs_ReasoningIndex := cs_nextOutputIndex st |>
     <| cs_nextOutputIndex := cs_nextOutputIndex st + 1 |>.

Lemma opened_reasoning_owns st w j :
  has_reasoning st = false ->
  owns (opened_reasoning st) w j <-> owns st w j \/ (w = OReasoning /\ j = cs_nextOutputIndex st).
Proof.
  intros Hn. destruct w.
  - change (true = true /\ j = cs_nextOutputIndex st <->
      (has_reasoning st = true /\ j = cs_ReasoningIndex st) \/ (OReasoning = OReasoning /\ j = cs_nextOutputIndex st)).
    rewrite Hn. naive_solver.
  - change (owns st OMessage j <-> owns st OMessage j \/ (OMessage = OReasoning /\ j = cs_nextOutputIndex st)).
    naive_solver.
  - change (owns st (OCall k) j <-> owns st (OCall k) j \/ (OCall k = OReasoning /\ j = cs_nextOutputIndex st)).
    naive_solver.
Qed.
Lemma opened_reasoning_allocated st :
  has_reasoning st = false -> allocated st (opened_reasoning st) OReasoning.
Proof.
  intros Hn. split_and!; [by intros; apply opened_reasoning_owns|intros j [H _]; congruence|done..].
Qed.

Lemma opened_reasoning_shape g st :
  Shape true g st -> has_reasoning st = false -> Shape false g (opened_reasoning st).
Proof.
  intros HS Hn. pose proof (opened_reasoning_allocated st Hn) as Ha. destruct HS. apply orb_false_iff in Hn as [_ Hd].
  split; try done; [by eapply allocated_range|by eapply allocated_distinct].
Qed.

Lemma ensure_reasoning_sim g : sim (Undone g) (Mid g) (ensureChatReasoningItem itemIDs).
Proof.
  apply sim_after. intros st c [[HS HK] Hundone]. unfold ensureChatReasoningItem. fold (has_reasoning st).
  destruct (has_reasoning st) eqn:Hn.
  { exists c. split; [done|]. split; [by apply shape_weaken|]. split; [done|].
    unfold has_reasoning in Hn. by rewrite Hundone, orb_false_r in Hn. }
  fold (opened_reasoning st). pose proof (opened_reasoning_allocated st Hn) as Ha.
  pose proof (opened_reasoning_shape g st HS Hn) as HS'.
  assert (Hr : cs_Reasoning st = "").
  { destruct (decide (cs_Reasoning st = "")) as [|H]; [done|]. apply HS in H. congruence. }
  apply after_then with (fun st' c' => Shape false g st' /\ Known true [] st' c' /\ has_reasoning st' = true
     /\ cs_ReasoningOpen st' = true).
  - destruct (added_event [] st (opened_reasoning st) c OReasoning
      (zero_ResponsesOutput <| ro_Type := "reasoning" |> <| ro_ID := itemIDs (cs_IDs st) |> <| ro_Status := "in_progress" |>)
      (fun st => item_event (cs_ReasoningIndex st) (zero_ResponsesOutput <| ro_Type := "reasoning" |>
         <| ro_ID := cs_ReasoningItemID st |> <| ro_Status := "in_progress" |>))) as (c' & Hac & HK'); try done.
    + by destruct HS.
    + exists None. simpl. by rewrite Hr.
    + by intros [] o Hne.
    + exists c'. split; [done|]. split_and!; [by apply event_shape|done..].
  - intros st' c' (HS1 & HK1 & Hh & Ho). assert (Hw : owns st' OReasoning (cs_ReasoningIndex st')) by by split.
    destruct (k_spec _ _ _ _ HK1 _ _ Hw) as (d & Hi & Hd). rewrite Ho in Hd. subst d.
    destruct (quiet_event [] st' c' OReasoning _ _ "response.reasoning_summary_part.added"
      (fun st => (reasoning_event st) <| rse_Part := Some (summary_text_part "") |>) HK1 ltac:(by destruct HS1) Hw Hi) as (c2 & Ha2 & HK2);
      try done.
    exists c2. split; [done|]. split_and!; [by apply event_shape|done..].
Qed.

Lemma reasoning_delta_sim g text :
  text <> "" -> sim (Undone g) (Between (add_thinking text g)) (reasoning_delta itemIDs text).
Proof.
  intros Hne. apply sim_then with (Mid g); [apply ensure_reasoning_sim|].
  apply sim_after. intros st c (HS & HK & Hh). apply after_silent.
  set (st' := st <| cs_Reasoning := cs_Reasoning st +:+ text |>).
  assert (Hw : owns st OReasoning (cs_ReasoningIndex st)) by (split; [unfold has_reasoning; by rewrite Hh|done]).
  destruct (k_spec _ _ _ _ HK _ _ Hw) as (d & Hi & Hd). rewrite Hh in Hd. subst d. apply event_AB.
  - assert (Hr : has_reasoning st = true) by (unfold has_reasoning; by rewrite Hh).
    destruct HS. split; try done; simpl; [by f_equal|]. by intros _ _ [_ ?]%str_app_eq_nil.
  - apply (inside_event [] [] st st' c OReasoning _ _
      (MkItem (cs_ReasoningItemID st) "reasoning" (cs_Reasoning st +:+ text) None)
      _ _ HK ltac:(by destruct HS) Hw Hi); try done.
    + exists None. split; [done|]. simpl. by rewrite Hh.
    + by intros [] o Hw'.
Qed.

(** The three events of the end of the reasoning item do not depend on its being open. *)
Definition closed_reasoning (st : State) : State := st <| cs_ReasoningOpen := false |> <| cs_ReasoningDone := true |>.
Definition close_reasoning_events : State -> State * list ResponsesStreamEvent :=
  chatToResponsesEvent "response.reasoning_summary_text.done" (fun st =>
    (reasoning_event st) <| rse_Text := cs_Reasoning st |>) ;>>
  chatToResponsesEvent "response.reasoning_summary_part.done" (fun st =>
    (reasoning_event st) <| rse_Part := Some (summary_text_part (cs_Reasoning st)) |>) ;>>
  (fun st => chatToResponsesEvent "response.output_item.done" (fun st =>
    item_event (cs_ReasoningIndex st)
      ((reasoning_item (cs_ReasoningItemID st) (cs_Reasoning st)) <| ro_Status := "completed" |>)) (closed_reasoning st)).
Lemma close_reasoning_unfold st :
  closeChatReasoningItem st = if negb (cs_ReasoningOpen st) then (st, []) else close_reasoning_events st.
Proof. reflexivity. Qed.

Definition NotOpen (g : Sent) st c : Prop := Between g st c /\ cs_ReasoningOpen st = false.

Lemma close_reasoning_sim g : sim (Between g) (NotOpen g) closeChatReasoningItem.
Proof.
  apply sim_after. intros st c [HS HK]. rewrite close_reasoning_unfold.
  destruct (cs_ReasoningOpen st) eqn:Ho; simpl; [|by exists c].
  set (P := fun st' c' => Shape true g st' /\ Known true [] st' c' /\ cs_ReasoningOpen st' = true).
  assert (HP : forall st c, P st c -> owns st OReasoning (cs_ReasoningIndex st) /\
    an_items c !! cs_ReasoningIndex st = Some (MkItem (cs_ReasoningItemID st) "reasoning" (cs_Reasoning st) None)).
  { intros st' c' (HS' & HK' & Ho'). assert (Hw : owns st' OReasoning (cs_ReasoningIndex st')).
    { split; [|done]. unfold has_reasoning. by rewrite Ho'. }
    split; [done|]. destruct (k_spec _ _ _ _ HK' _ _ Hw) as (d & Hi & Hd). by rewrite Ho' in Hd; subst d. }
  apply after_then with P; [|intros st1 c1 H1; apply after_then with P; [|intros st2 c2 H2]].
  - destruct (HP st c) as [Hw Hi]; [by split_and!|].
    destruct (quiet_event [] st c OReasoning _ _ "response.reasoning_summary_text.done" (fun st =>
      (reasoning_event st) <| rse_Text := cs_Reasoning st |>) HK ltac:(by destruct HS) Hw Hi) as (c' & Ha & HK'); try done.
    { intros n. unfold inside. simpl. by rewrite String.eqb_refl. }
    exists c'. split; [done|]. split_and!; [by apply event_shape|done..].
  - destruct (HP st1 c1 H1) as [Hw Hi]. destruct H1 as (HS1 & HK1 & Ho1).
    destruct (quiet_event [] st1 c1 OReasoning _ _ "response.reasoning_summary_part.done" (fun st =>
      (reasoning_event st) <| rse_Part := Some (summary_text_part (cs_Reasoning st)) |>)
      HK1 ltac:(by destruct HS1) Hw Hi) as (c' & Ha & HK'); try done.
    exists c'. split; [done|]. split_and!; [by apply event_shape|done..].
  - destruct (HP st2 c2 H2) as [Hw Hi]. destruct H2 as (HS2 & HK2 & Ho2).
    assert (Hown : same_owners st2 (closed_reasoning st2)).
    { split; [|done]. intros [] i; simpl; [|done..]. unfold has_reasoning. simpl. by rewrite Ho2. }
    assert (HS3 : Shape true g (closed_reasoning st2)).
    { destruct Hown as [Hown _]. destruct HS2. split; try done; simpl.
      - intros _ _. apply s_full0; [done|]. unfold has_reasoning. by rewrite Ho2.
      - destruct s_range0 as [? Hr]. split; [done|]. intros w i. rewrite Hown. apply Hr.
      - intros w1 w2 i. rewrite !Hown. apply s_distinct0. }
    destruct (done_event [] [] st2 (closed_reasoning st2) c2 OReasoning _ _ (done_reasoning st2 (cs_Reasoning st2))
      (fun st => item_event (cs_ReasoningIndex st)
         ((reasoning_item (cs_ReasoningItemID st) (cs_Reasoning st)) <| ro_Status := "completed" |>))
      HK2 ltac:(by destruct HS2) Hw Hi) as (c' & Ha & HK'); try done.
    + by exists (Some (done_reasoning st2 (cs_Reasoning st2))).
    + by intros [] o Hne.
    + exists c'. split; [exact Ha|]. split; [|done]. split; [|done]. by apply event_shape.
Qed.

(** ** Text *)

Definition opened_message (st : State) : State :=
  st <| cs_MessageItemID := itemIDs (cs_IDs st) |> <| cs_IDs := S (cs_IDs st) |>
     <| cs_MessageIndex := cs_nextOutputIndex st |>
     <| cs_nextOutputIndex := cs_nextOutputIndex st + 1 |>.
Lemma opened_has_message st : has_message (opened_message st) = true.
Proof. unfold has_message. simpl. apply negb_true_iff, String.eqb_neq, named. Qed.
Lemma opened_message_allocated st :
  has_message st = false -> allocated st (opened_message st) OMessage.
Proof.
  intros Hn. unfold allocated. split_and!; try done.
  - intros [] j; simpl; [by split; [left|intros [|[]]]| |by split; [left|intros [|[]]]].
    change (negb (itemIDs (cs_IDs st) =?s "")) with (has_message (opened_message st)).
    rewrite opened_has_message, Hn. split; [intros [_ ->]; by right|]. by intros [[]|[_ ->]].
  - intros j [H _]. congruence.
Qed.

Definition HasMessage (g : Sent) st c : Prop := Between g st c /\ has_message st = true.

Lemma ensure_message_sim g : sim (Between g) (HasMessage g) (ensureChatToResponsesMessageItem itemIDs).
Proof.
  apply sim_after. intros st c [HS HK]. unfold ensureChatToResponsesMessageItem. fold (has_message st).
  destruct (has_message st) eqn:Hn; [by exists c|]. fold (opened_message st).
  pose proof (opened_message_allocated st Hn) as Ha.
  assert (HS' : Shape true g (opened_message st)).
  { destruct HS. split; try done; [intros H; by rewrite opened_has_message in H|by eapply allocated_range|by eapply allocated_distinct]. }
  destruct (added_event [] st (opened_message st) c OMessage
    ((message_item (itemIDs (cs_IDs st)) [output_text_part ""]) <| ro_Status := "in_progress" |>)
    (fun st => item_event (cs_MessageIndex st)
        ((message_item (cs_MessageItemID st) [output_text_part ""]) <| ro_Status := "in_progress" |>)))
    as (c' & Hac & HK'); try done.
  - by destruct HS.
  - simpl. by rewrite (s_message _ _ _ HS Hn).
  - by intros [] o Hne.
  - exists c'. split; [exact Hac|]. split; [split; [by apply event_shape|done]|]. apply opened_has_message.
Qed.

Lemma ensure_part_sim g : sim (HasMessage g) (HasMessage g) ensureChatToResponsesTextPart.
Proof.
  apply sim_after. intros st c [[HS HK] Hm]. unfold ensureChatToResponsesTextPart.
  destruct (cs_TextPartOpen st); [by exists c|]. set (st' := st <| cs_TextPartOpen := true |>).
  assert (HK' : Known true [] st' c) by (by destruct HK).
  assert (Hw : owns st' OMessage (cs_MessageIndex st')) by by split.
  destruct (quiet_event [] st' c OMessage _ _ "response.content_part.added"
    (fun st => (message_event st) <| rse_Part := Some (output_text_part "") |>) HK' ltac:(by destruct HS) Hw (k_spec _ _ _ _ HK' _ _ Hw))
    as (c' & Ha & HK2); try done.
  exists c'. split; [exact Ha|]. split; [|done]. split; [|done]. apply event_shape. by destruct HS.
Qed.

Lemma emit_text_sim g text : sim (Between g) (Between (add_text text g)) (emit_text itemIDs text).
Proof.
  apply sim_then with (HasMessage g); [apply ensure_message_sim|].
  apply sim_then with (HasMessage g); [apply ensure_part_sim|].
  apply sim_after. intros st c [[HS HK] Hm]. apply after_silent.
  set (st' := st <| cs_Text := cs_Text st +:+ text |>).
  assert (Hw : owns st OMessage (cs_MessageIndex st)) by by split. apply event_AB.
  - destruct HS. split; try done; simpl; [by f_equal|]. intros H. change (has_message st = false) in H. congruence.
  - apply (inside_event [] [] st st' c OMessage _ _
      (MkItem (cs_MessageItemID st) "message" (cs_Text st +:+ text) None)
      _ _ HK ltac:(by destruct HS) Hw (k_spec _ _ _ _ HK _ _ Hw)); try done.
    by intros [] o Hw'.
Qed.

Lemma answer_delta_sim g text : sim (Between g) (Between (add_text text g)) (answer_delta itemIDs text).
Proof.
  apply sim_then with (NotOpen g); [apply close_reasoning_sim|].
  eapply sim_mono; [| |apply (emit_text_sim g)]; [by intros ?? []|done].
Qed.

(** ** Calls *)

(** The call [k] is stored. *)
Definition Stored (k : Z) (g : Sent) st c : Prop := Between g st c /\ is_Some (cs_ToolCalls st !! k).
Definition set_call (k : Z) (tc : ChatToolCall) (st : State) : State :=
  st <| cs_ToolCalls := <[k := tc]> (cs_ToolCalls st) |>.

Lemma start_call_eq k tc st : exists id ids,
  start_call itemIDs k tc st
  = set_call k (tc <| ctc_ID := id |> <| ctc_Type := "function" |>
                   <| ctc_Function := (ctc_Function tc) <| cfc_Arguments := "" |> |>) st
    <| cs_ToolItemIDs := <[k := itemIDs (pred ids)]> (cs_ToolItemIDs st) |>
    <| cs_IDs := ids |>
    <| cs_ToolOutputIndex := <[k := cs_nextOutputIndex st]> (cs_ToolOutputIndex st) |>
    <| cs_nextOutputIndex := cs_nextOutputIndex st + 1 |>.
Proof.
  unfold start_call. destruct (ctc_ID tc =?s "").
  - by exists (itemIDs (cs_IDs st)), (S (S (cs_IDs st))).
  - by exists (ctc_ID tc), (S (cs_IDs st)).
Qed.

Lemma start_call_B g k tc st c :
  Between g st c -> cs_ToolCalls st !! k = None ->
  Stored k (add_args k "" g) (start_call itemIDs k tc st) c.
Proof.
  intros [HS HK] Hk. destruct (start_call_eq k tc st) as (id & ids & ->).
  set (st' := set_call _ _ _). pose proof HS as [].
  assert (Hi : cs_ToolOutputIndex st !! k = None).
  { apply eq_None_not_Some. rewrite <- s_calls0, Hk. apply is_Some_None. }
  assert (Ha : allocated st st' (OCall k)).
  { unfold allocated. split_and!; try done.
    - intros [| |k'] j; simpl; [by split; [left|intros [|[]]]..|].
      destruct (decide (k' = k)) as [->|Hne].
      + rewrite lookup_insert_eq, Hi. split; [intros [= <-]; by right|]. intros [|[_ ->]]; [done|done].
      + rewrite lookup_insert_ne by done. split; [by left|intros [|[[= ->] _]]; [done|congruence]].
    - simpl. congruence. }
  assert (Hn : is_set (cs_toolAnnounced st) k = false).
  { apply not_true_iff_false. intros H%s_announced0. rewrite Hk in H. by apply is_Some_None in H. }
  split; [split|simpl; by rewrite lookup_insert_eq].
  - split; try done; simpl.
    + intros k'. destruct (decide (k' = k)) as [->|Hne]; [|by rewrite !lookup_insert_ne].
      rewrite !lookup_insert_eq. unfold args_of. by rewrite s_args0, Hk.
    + intros k'. destruct (decide (k' = k)) as [->|Hne]; [by rewrite !lookup_insert_eq|by rewrite !lookup_insert_ne].
    + intros k' Hk'. destruct (decide (k' = k)) as [->|Hne]; [by rewrite lookup_insert_eq|].
      rewrite lookup_insert_ne by done. by apply s_announced0.
    + by eapply allocated_range.
    + by eapply allocated_distinct.
  - eapply (reserve [] st st' c (OCall k)); try done.
    + simpl. eexists _, _. rewrite !lookup_insert_eq. split_and!; [done..|]. by rewrite Hn.
    + intros [| |k'] o Hne; simpl; [done..|]. by rewrite !lookup_insert_ne by congruence.
Qed.

(** A change of what is stored of a call keeps what the client knows, if its arguments
    stay, the call is not done, and the state is not asked for the rest. *)
Lemma set_call_owners k tc st : same_owners st (set_call k tc st).
Proof. by split. Qed.
Lemma set_call_shape full g k tc st :
  Shape full g st -> is_Some (cs_ToolCalls st !! k) ->
  Shape full (g <| sn_args := <[k := cfc_Arguments (ctc_Function tc)]> (sn_args g) |>) (set_call k tc st).
Proof.
  intros [] Hk. split; try done; simpl.
  - intros k'. destruct (decide (k' = k)) as [->|Hne]; [by rewrite !lookup_insert_eq|by rewrite !lookup_insert_ne].
  - intros k'. rewrite <- s_calls0. destruct (decide (k' = k)) as [->|Hne]; [rewrite lookup_insert_eq; by split|].
    by rewrite lookup_insert_ne.
  - intros k' Hk'. destruct (decide (k' = k)) as [->|Hne]; [by rewrite lookup_insert_eq|].
    rewrite lookup_insert_ne by done. by apply s_announced0.
Qed.
Lemma set_call_kept k tc st : others_kept [] [] st (set_call k tc st) (OCall k).
Proof. intros [| |k'] o Hne; simpl; [done..|]. by rewrite lookup_insert_ne by congruence. Qed.

Lemma update_call_B g k tc stored st c :
  Between g st c -> cs_ToolCalls st !! k = Some stored -> Stored k g (update_call k stored tc st) c.
Proof.
  intros [HS HK] Hk. unfold update_call. set (tc' := stored <| ctc_ID := _ |> <| ctc_Function := _ |>).
  fold (set_call k tc' st). split; [split|simpl; by rewrite lookup_insert_eq].
  - pose proof (set_call_shape true g k tc' st HS ltac:(by rewrite Hk)) as H.
    assert (E : g <| sn_args := <[k := cfc_Arguments (ctc_Function tc')]> (sn_args g) |> = g).
    { pose proof (s_args _ _ _ HS k) as Hg. rewrite Hk in Hg. destruct g. simpl in *. by rewrite insert_id. }
    by rewrite E in H.
  - destruct HK. split; try done. intros w i Hw. change (owns st w i) in Hw.
    destruct (decide (w = OCall k)) as [->|Hne]; [|apply set_call_kept; [done|by apply k_spec0]].
    destruct (k_spec0 _ _ Hw) as (tc0 & id & Htc & Hid & Hrel). rewrite Hk in Htc. injection Htc as <-.
    simpl. exists tc', id. by rewrite lookup_insert_eq.
Qed.

Lemma record_call_sim g k tc : sim (Between g) (Stored k (add_args k "" g)) (record_call itemIDs k tc).
Proof.
  apply sim_after. intros st c HB. unfold record_call. destruct (cs_ToolCalls st !! k) as [stored|] eqn:Hk.
  - exists c. split; [done|]. rewrite add_nothing; [by apply update_call_B|].
    destruct HB as [HS _]. by rewrite (s_args _ _ _ HS), Hk.
  - apply after_then with (fun st' c' => Between g st' c' /\ cs_ToolCalls st' !! k = None).
    + destruct (close_reasoning_sim g st c HB) as (c' & Ha & HB' & _). exists c'. split; [done|]. split; [done|].
      rewrite close_reasoning_unfold. by destruct (negb _).
    + intros st' c' [HB' Hk']. exists c'. split; [done|]. by apply start_call_B.
Qed.

(** *** Announcing a call *)

Definition call_custom (st : State) (stored : ChatToolCall) : option string :=
  customToolCallName (cfc_Name (ctc_Function stored)) (cs_tables st).
Definition flagged (k : Z) (custom search : bool) (ns : option NamespacedToolName) (st : State) : State :=
  st <| cs_toolAnnounced := <[k := true]> (cs_toolAnnounced st) |>
     <| cs_toolIsCustom := <[k := custom]> (cs_toolIsCustom st) |>
     <| cs_toolIsToolSearch := <[k := search]> (cs_toolIsToolSearch st) |>
     <| cs_toolNamespace := match ns with Some ns => <[k := ns]> (cs_toolNamespace st)
                                        | None => cs_toolNamespace st end |>.

Definition added_call (k : Z) (type name namespace callID : string) : State -> State * list ResponsesStreamEvent :=
  chatToResponsesEvent "response.output_item.added" (fun st =>
    item_event (item_index st k)
      (zero_ResponsesOutput <| ro_Type := type |> <| ro_ID := item_id st k |>
         <| ro_CallID := callID |> <| ro_Name := name |>
         <| ro_Namespace := namespace |> <| ro_Status := "in_progress" |>)).

(** Either nothing happens, or the flags of the call are set and it is added, with the
    arguments a function has already. *)
Lemma announce_cases k stored force st :
  (announceChatToolItem k stored force st = (st, []) /\ (force = true -> is_set (cs_toolAnnounced st) k = true))
  \/ is_set (cs_toolAnnounced st) k = false /\ exists custom search ns type name namespace,
       (custom = true -> search = false)
       /\ type = (if search then "tool_search_call" else if custom then "custom_tool_call" else "function_call" : string)
       /\ announceChatToolItem k stored force st
          = (added_call k type name namespace (ctc_ID stored) ;>>
             (if negb custom && negb search && negb (cfc_Arguments (ctc_Function stored) =?s "")
              then arguments_delta k stored (cfc_Arguments (ctc_Function stored)) else skip))
            (flagged k custom search ns st).
Proof.
  unfold announceChatToolItem. destruct (is_set (cs_toolAnnounced st) k); [by left|].
  destruct (negb force && _ && _) eqn:E; [left; split; [done|]; intros ->; discriminate|right]. split; [done|].
  set (custom := match customToolCallName _ _ with Some _ => true | None => false end).
  set (search := negb custom && _ && _).
  set (ns := if custom || search then None else _).
  destruct (match ns with Some ns => (ntn_Name ns, ntn_Namespace ns) | None => _ end) as [name namespace].
  exists custom, search, ns, (if search then "tool_search_call" else if custom then "custom_tool_call" else "function_call"), name, namespace.
  split; [|split; done]. subst search. by intros ->.
Qed.

Lemma flagged_owners k custom search ns st : same_owners st (flagged k custom search ns st).
Proof. by split. Qed.
Lemma flagged_shape full g k custom search ns st :
  Shape full g st -> is_Some (cs_ToolCalls st !! k) -> Shape full g (flagged k custom search ns st).
Proof.
  intros [] Hk. split; try done. simpl. intros k'. unfold is_set.
  destruct (decide (k' = k)) as [->|Hne]; [done|]. rewrite lookup_insert_ne by done. apply s_announced0.
Qed.
Lemma flagged_finished k custom search ns st k' tc id :
  k' <> k -> finished_call (flagged k custom search ns st) k' tc id = finished_call st k' tc id.
Proof.
  intros Hne. unfold finished_call, customNameForStreamTool, is_set. simpl. rewrite !lookup_insert_ne by done.
  destruct ns; [by rewrite lookup_insert_ne|done].
Qed.
Lemma flagged_kept closed k custom search ns st : others_kept closed closed st (flagged k custom search ns st) (OCall k).
Proof.
  intros [| |k'] o Hne; [done..|]. assert (k' <> k) by congruence.
  intros (tc & id & Htc & Hid & Hrel). exists tc, id. split_and!; [done..|]. rewrite flagged_finished by done.
  unfold call_type, call_text, is_set in *. simpl. by rewrite !lookup_insert_ne.
Qed.
Lemma flagged_type k custom search ns st :
  (custom = true -> search = false) ->
  call_type (flagged k custom search ns st) k
  = (if search then "tool_search_call" else if custom then "custom_tool_call" else "function_call").
Proof.
  intros H. unfold call_type, is_set. simpl. rewrite !lookup_insert_eq. simpl. destruct custom; [by rewrite H|done].
Qed.

Definition In (closed : list Who) (g : Sent) (k : Z) (stored : ChatToolCall) st c : Prop :=
  AB true true closed g st c /\ cs_ToolCalls st !! k = Some stored /\ OCall k ∉ closed.

Lemma call_owner closed g k stored st c :
  In closed g k stored st c -> exists i id,
    owns st (OCall k) i /\ cs_ToolItemIDs st !! k = Some id /\ item_index st k = i /\ item_id st k = id
    /\ if is_set (cs_toolAnnounced st) k
       then an_items c !! i = Some (MkItem id (call_type st k) (call_text st k (cfc_Arguments (ctc_Function stored))) None)
       else an_items c !! i = None.
Proof.
  intros ([HS HK] & Hk & Hcl). pose proof (proj1 (s_calls _ _ _ HS k)) as [i Hi]; [by rewrite Hk|].
  destruct (k_spec _ _ _ _ HK (OCall k) i Hi) as (tc & id & Htc & Hid & Hrel).
  rewrite Hk in Htc. injection Htc as <-. exists i, id. unfold item_index, item_id. rewrite Hi, Hid.
  rewrite bool_decide_eq_false_2 in Hrel by done. done.
Qed.

(** The arguments are left out of a call. *)
Definition no_arguments (tc : ChatToolCall) : ChatToolCall :=
  tc <| ctc_Function := (ctc_Function tc) <| cfc_Arguments := "" |> |>.

Lemma set_call_kept' closed k tc st : others_kept closed closed st (set_call k tc st) (OCall k).
Proof. intros [| |k'] o Hne; simpl; [done..|]. by rewrite lookup_insert_ne by congruence. Qed.

Lemma arguments_event closed st st' c k i id tc tc' stored delta :
  Known true closed st c -> distinct st -> owns st (OCall k) i -> item_index st' k = i -> item_id st' k = id ->
  cs_ToolItemIDs st' !! k = Some id ->
  an_items c !! i = Some (MkItem id "function_call" (cfc_Arguments (ctc_Function tc)) None) ->
  same_owners st st' -> others_kept closed closed st st' (OCall k) -> OCall k ∉ closed ->
  is_set (cs_toolAnnounced st') k = true -> call_type st' k = "function_call" ->
  (forall a, call_text st' k a = a) -> cs_ToolCalls st' !! k = Some tc' ->
  cfc_Arguments (ctc_Function tc') = cfc_Arguments (ctc_Function tc) +:+ delta ->
  after c (arguments_delta k stored delta st') (Known true closed).
Proof.
  intros HK Hd Hw Hix Hid Hids Hi Ho Hk Hcl Hann Hty Htext Htc Hargs.
  eapply (inside_event closed closed st st' c (OCall k) _ _
    (MkItem id "function_call" (cfc_Arguments (ctc_Function tc) +:+ delta) None) _ _ HK Hd Hw Hi); try done.
  simpl. exists tc', id. rewrite Hann, Hty, Htext, Hargs. rewrite bool_decide_eq_false_2 by done. done.
Qed.

Lemma flagged_text k custom search ns st a :
  call_text (flagged k custom search ns st) k a = if custom || search then "" else a.
Proof. unfold call_text, is_set. simpl. by rewrite !lookup_insert_eq. Qed.

(** The item of a call whose arguments are not streamed, or are still empty. *)
Lemma added_bare closed g k stored custom search ns type name namespace st c :
  In closed g k stored st c -> is_set (cs_toolAnnounced st) k = false ->
  (custom = true -> search = false) ->
  type = (if search then "tool_search_call" else if custom then "custom_tool_call" else "function_call" : string) ->
  custom || search = true \/ cfc_Arguments (ctc_Function stored) = "" ->
  after c (added_call k type name namespace (ctc_ID stored) (flagged k custom search ns st)) (fun st' c' =>
    In closed g k stored st' c' /\ is_set (cs_toolAnnounced st') k = true).
Proof.
  intros HI Hann Hcs Hty Hbare. destruct (call_owner _ _ _ _ _ _ HI) as (i & id & Hw & Hids & Hix & Hid & Hi). rewrite Hann in Hi.
  destruct HI as ([HS HK] & Hk & Hcl). set (st' := flagged k custom search ns st).
  assert (Hset : is_set (cs_toolAnnounced st') k = true) by (unfold is_set; simpl; by rewrite lookup_insert_eq).
  destruct (announced_event closed st st' c (OCall k) i
      (zero_ResponsesOutput <| ro_Type := type |> <| ro_ID := item_id st k |> <| ro_CallID := ctc_ID stored |>
         <| ro_Name := name |> <| ro_Namespace := namespace |> <| ro_Status := "in_progress" |>)
      (fun st => item_event (item_index st k) (zero_ResponsesOutput <| ro_Type := type |> <| ro_ID := item_id st k |>
         <| ro_CallID := ctc_ID stored |> <| ro_Name := name |> <| ro_Namespace := namespace |> <| ro_Status := "in_progress" |>)))
      as (c1 & Ha1 & HK1); try done.
  - by destruct HS.
  - exists stored, id. split_and!; [done..|]. rewrite bool_decide_eq_false_2, Hset by done. simpl. rewrite Hid.
    unfold st'. rewrite flagged_type, flagged_text, <- Hty by done. do 2 f_equal.
    destruct Hbare as [-> | ->]; [done|by destruct (custom || search)].
  - apply flagged_kept.
  - by rewrite <- Hix.
  - exists c1. split; [exact Ha1|]. split; [|done]. split; [|done]. split; [|done]. apply event_shape.
    apply flagged_shape; [done|by rewrite Hk].
Qed.

(** The item of a function whose arguments have begun, and their delta: between the two
    the client knows the call without them. *)
Lemma added_started closed g k stored ns type name namespace st c :
  In closed g k stored st c -> is_set (cs_toolAnnounced st) k = false -> type = "function_call" ->
  after c ((added_call k type name namespace (ctc_ID stored) ;>>
            arguments_delta k stored (cfc_Arguments (ctc_Function stored))) (flagged k false false ns st))
    (fun st' c' => In closed g k stored st' c' /\ is_set (cs_toolAnnounced st') k = true).
Proof.
  intros HI Hann ->. destruct (call_owner _ _ _ _ _ _ HI) as (i & id & Hw & Hids & Hix & Hid & Hi). rewrite Hann in Hi.
  destruct HI as ([HS HK] & Hk & Hcl). set (st' := flagged k false false ns st).
  set (tc0 := no_arguments stored). set (st0 := set_call k tc0 st). assert (Hd : distinct st) by apply HS.
  assert (HI0 : In closed (g <| sn_args := <[k := ""]> (sn_args g) |>) k tc0 st0 c).
  { split; [split|split; [simpl; by rewrite lookup_insert_eq|done]]; [exact (set_call_shape true g k tc0 st HS (mk_is_Some _ _ Hk))|].
    destruct HK. split; try done. intros w j Hj. change (owns st w j) in Hj.
    destruct (decide (w = OCall k)) as [->|Hne]; [|apply set_call_kept'; [done|by apply k_spec0]].
    exists tc0, id. rewrite bool_decide_eq_false_2 by done. change (is_set (cs_toolAnnounced st0) k) with (is_set (cs_toolAnnounced st) k).
    rewrite Hann. simpl. rewrite lookup_insert_eq, <- (owns_fun _ _ _ _ Hw Hj). done. }
  destruct (added_bare closed _ k tc0 false false ns "function_call" name namespace st0 c HI0 Hann) as (c1 & Ha1 & HI1 & Hs1); try done.
  { by right. }
  destruct (call_owner _ _ _ _ _ _ HI1) as (i1 & id1 & Hw1 & Hids1 & Hix1 & Hid1 & Hi1). rewrite Hs1 in Hi1.
  assert (i1 = i) as -> by apply (owns_fun _ _ _ _ Hw1 Hw). assert (id1 = id) as -> by (rewrite <- Hid1; exact Hid).
  destruct HI1 as ([_ HK1] & _ & _). set (st1 := (added_call _ _ _ _ _ (flagged k false false ns st0)).1) in *.
  apply after_then with (fun st2 c2 => st2 = st' <| cs_SequenceNumber := cs_SequenceNumber st' + 1 |> /\ c2 = c1);
    [exists c1; by split|intros st2 c2 [-> ->]].
  change (call_type st1 k) with (call_type st' k) in Hi1. change (call_text st1 k) with (call_text st' k) in Hi1.
  unfold st' in Hi1. rewrite flagged_type, flagged_text in Hi1 by done.
  destruct (arguments_event closed st1 (st' <| cs_SequenceNumber := cs_SequenceNumber st' + 1 |>) c1 k i id tc0 stored stored
    (cfc_Arguments (ctc_Function stored))) as (c2 & Ha2 & HK2);
    [exact HK1|exact Hd|exact Hw|exact Hix|exact Hid|exact Hids|exact Hi1|done| |done|exact Hs1|exact (flagged_type k false false ns st (fun _ => eq_refl))
    |exact (flagged_text k false false ns st)|exact Hk|reflexivity|].
  - intros [| |k'] o Hne; [done..|]. intros (tc1 & idx1 & Htc1 & Hrest). exists tc1, idx1. split; [|done].
    simpl in *. by rewrite lookup_insert_ne in Htc1 by congruence.
  - exists c2. split; [exact Ha2|]. split; [|exact Hs1]. split; [|done]. split; [|done].
    apply event_shape. apply (event_shape _ _ "" (fun _ => zero_ResponsesStreamEvent)). apply flagged_shape; [done|by rewrite Hk].
Qed.

Lemma answer_announce_sim closed g k stored force st c :
  In closed g k stored st c ->
  after c (announceChatToolItem k stored force st) (fun st' c' =>
    In closed g k stored st' c' /\ (force = true -> is_set (cs_toolAnnounced st') k = true)).
Proof.
  intros HI. destruct (announce_cases k stored force st) as [[-> Hf]|(Hann & custom & search & ns & type & name & namespace & Hcs & Hty & ->)].
  { exists c. by split. }
  destruct (negb custom && negb search && _) eqn:E.
  - bool_hyps. subst custom search.
    destruct (added_started closed g k stored ns type name namespace st c HI Hann Hty) as (c' & Ha & HI' & Hs).
    exists c'. by split.
  - destruct (added_bare closed g k stored custom search ns type name namespace st c HI Hann Hcs Hty) as (c' & Ha & HI' & Hs).
    { destruct custom, search; simpl in *; auto. right. by apply negb_false_iff, String.eqb_eq in E. }
    apply after_then with (fun st' c' => In closed g k stored st' c' /\ (force = true -> is_set (cs_toolAnnounced st') k = true));
      [by exists c'|intros st1 c1 H1; by exists c1].
Qed.

(** *** A fragment of arguments *)

Lemma add_args_set g k a : sn_args (add_args k a g) = <[k := args_of g k +:+ a]> (sn_args g).
Proof. done. Qed.

Lemma add_arguments_sim g k a : sim (Stored k g) (Between (add_args k a g)) (add_arguments k a).
Proof.
  apply sim_after. intros st c [[HS HK] [stored Hk]]. unfold add_arguments.
  assert (Hg : args_of g k = cfc_Arguments (ctc_Function stored)) by (unfold args_of; by rewrite (s_args _ _ _ HS), Hk).
  destruct (String.eqb_spec a "") as [->|Hne].
  { exists c. split; [done|]. rewrite add_nothing; [done|]. by rewrite (s_args _ _ _ HS), Hk. }
  apply after_silent. unfold append_arguments, stored_call. rewrite Hk. simpl default.
  set (tc := stored <| ctc_Function := _ |>). fold (set_call k tc st). set (st' := set_call k tc st).
  assert (HS' : Shape true (add_args k a g) st').
  { pose proof (set_call_shape true g k tc st HS (mk_is_Some _ _ Hk)) as H.
    unfold add_args. rewrite Hg. exact H. }
  destruct (call_owner [] g k stored st c) as (i & id & Hw & Hids & Hix & Hid & Hi); [split_and!; [done..|apply not_elem_of_nil]|].
  change (is_set (cs_toolAnnounced st') k) with (is_set (cs_toolAnnounced st) k).
  change (is_set (cs_toolIsCustom st') k) with (is_set (cs_toolIsCustom st) k).
  change (is_set (cs_toolIsToolSearch st') k) with (is_set (cs_toolIsToolSearch st) k).
  destruct (is_set (cs_toolAnnounced st) k && negb (is_set (cs_toolIsCustom st) k) && negb (is_set (cs_toolIsToolSearch st) k)) eqn:E.
  - bool_hyps. rewrite H in Hi. assert (Ety : call_type st k = "function_call").
    { unfold call_type. by rewrite H1, H0. }
    assert (Etx : forall b, call_text st k b = b) by (intros b; unfold call_text; by rewrite H1, H0).
    rewrite Ety, Etx in Hi. apply event_AB; [done|].
    eapply (arguments_event [] st st' c k i id stored tc); try done; [by destruct HS|apply set_call_kept'|apply not_elem_of_nil|].
    simpl. by rewrite lookup_insert_eq.
  - exists c. split; [done|]. split; [done|]. destruct HK. split; try done. intros w j Hw'. change (owns st w j) in Hw'.
    destruct (decide (w = OCall k)) as [->|Hnw]; [|apply set_call_kept'; [done|by apply k_spec0]].
    rewrite <- (owns_fun _ _ _ _ Hw Hw'). exists tc, id. simpl. rewrite lookup_insert_eq. split_and!; [done..|].
    destruct (is_set (cs_toolAnnounced st) k); [|done]. rewrite Hi. do 2 f_equal. unfold call_text. simpl in *.
    destruct (is_set (cs_toolIsCustom st) k), (is_set (cs_toolIsToolSearch st) k); done.
Qed.

Lemma tool_call_delta_sim g tc : sim (Between g) (Between (sent_call g tc)) (tool_call_delta itemIDs tc).
Proof.
  unfold tool_call_delta, sent_call. set (k := default 0 (ctc_Index tc)).
  apply sim_then with (Stored k (add_args k "" g)); [apply record_call_sim|].
  apply sim_then with (Stored k (add_args k "" g)).
  - apply sim_after. intros st c [HB [stored Hk]]. unfold stored_call. rewrite Hk. simpl default.
    destruct (answer_announce_sim [] (add_args k "" g) k stored false st c) as (c' & Ha & (HB' & Hk' & _) & _);
      [split_and!; [done..|apply not_elem_of_nil]|]. exists c'. split; [done|]. split; [done|]. by rewrite Hk'.
  - rewrite (add_args_seen k (cfc_Arguments _)). apply add_arguments_sim.
Qed.

Lemma tool_call_deltas_sim calls g :
  sim (Between g) (Between (foldl sent_call g calls)) (tool_call_deltas itemIDs calls).
Proof.
  revert g. induction calls as [|tc calls IH]; intros g; [apply sim_skip|].
  apply sim_then with (Between (sent_call g tc)); [apply tool_call_delta_sim|apply IH].
Qed.

(** *** A chunk *)

Lemma when_text_sim (R R' : State -> Answer -> Prop) o f :
  (forall st c, default "" o = "" -> R st c -> R' st c) ->
  (forall s, o = Some s -> s <> "" -> sim R R' (f s)) -> sim R R' (when_text o f).
Proof.
  intros Hn Hf. destruct o as [s|]; simpl in *; [|intros st c HR; exists c; split; [done|by apply Hn]].
  destruct (String.eqb_spec s ""); [|by apply Hf]. intros st c HR. exists c. split; [done|by apply Hn].
Qed.

(** Reasoning comes before the text and the calls. *)
Definition silent_so_far (g : Sent) : bool := (sn_text g =?s "") && bool_decide (sn_args g = ∅).
Definition thinking_of (choice : ChatChunkChoice) : string := default "" (delta_reasoning (ccc_Delta choice)).
Fixpoint thinks_first (g : Sent) (choices : list ChatChunkChoice) : bool :=
  match choices with
  | [] => true
  | choice :: choices =>
      ((thinking_of choice =?s "") || silent_so_far g) && thinks_first (sent_choice g choice) choices
  end.

(** The reasoning item is closed only by a text or a call. *)
Definition later (st : State) : Prop :=
  cs_ReasoningDone st = true -> cs_Text st <> "" \/ cs_ToolCalls st <> ∅.
Lemma no_calls_iff full g st : Shape full g st -> cs_ToolCalls st = ∅ <-> sn_args g = ∅.
Proof.
  intros []. split; intros E; apply map_eq; intros k; rewrite lookup_empty; pose proof (s_args0 k) as Hk.
  - by rewrite E, lookup_empty in Hk.
  - rewrite E, lookup_empty in Hk. by destruct (cs_ToolCalls st !! k).
Qed.
Lemma silent_undone g st c : Between g st c -> later st -> silent_so_far g = true -> Undone g st c.
Proof.
  intros HB Hl Hg. split; [done|]. destruct HB as [HS _]. unfold silent_so_far in Hg. bool_hyps.
  destruct (cs_ReasoningDone st) eqn:E; [|done]. destruct (Hl E) as [H1|H1]; destruct H1.
  - by rewrite (s_text _ _ _ HS).
  - apply (no_calls_iff _ _ _ HS). by eapply bool_decide_eq_true.
Qed.

Lemma choice_delta_sim choice g :
  (thinking_of choice =?s "") || silent_so_far g = true ->
  sim (fun st c => Between g st c /\ later st) (Between (sent_choice g choice)) (choice_delta itemIDs choice).
Proof.
  intros Hfirst. unfold choice_delta, sent_choice. unfold thinking_of in Hfirst. set (delta := ccc_Delta choice) in *.
  set (g1 := add_thinking (default "" (delta_reasoning delta)) g).
  set (g2 := add_text (default "" (cdl_Content delta)) g1).
  apply sim_then with (Between g1).
  { apply when_text_sim; [intros st c E [HB _]; subst g1; by rewrite E, add_empty_thinking|].
    intros s E Hs. subst g1. rewrite E in *. apply sim_mono with (Undone g) (Between (add_thinking s g));
      [|done|by apply reasoning_delta_sim].
    intros st c [HB Hl]. apply silent_undone; [done..|]. simpl in Hfirst. apply String.eqb_neq in Hs. by rewrite Hs in Hfirst. }
  apply sim_then with (Between g2).
  { apply when_text_sim; [intros st c E; subst g2; by rewrite E, add_empty_text|].
    intros s E _. subst g2. rewrite E. apply answer_delta_sim. }
  apply sim_then with (Between (foldl sent_call g2 (cdl_ToolCalls delta))); [apply tool_call_deltas_sim|].
  apply when_text_sim; [done|]. intros r _ _. apply sim_silent. intros st c [[] []]. by split.
Qed.
Definition Top (g : Sent) st c : Prop := exists created, AB created true [] g st c.

Lemma created_sim g : sim (Top g) (Between g) ensureChatToResponsesCreated.
Proof.
  apply sim_after. intros st c [created [HS HK]]. unfold ensureChatToResponsesCreated.
  pose proof HK as [[K1 K1'] K2 K3 K4 K5].
  destruct (cs_CreatedSent st) eqn:E; [exists c; split; [done|]; by subst created|]. subst created.
  exists (MkAnswer (an_sequence c + 1) true (an_items c) None). split.
  - simpl. unfold answer_step. rewrite K2. simpl. by rewrite K3, Z.eqb_refl, K1'.
  - split; [apply event_shape; by destruct HS|]. split; simpl; [done|done|by rewrite K3|done|done].
Qed.

Lemma record_Top chunk g st c : Top g st c -> Top g (record_chunk chunk st) c.
Proof.
  intros [created HB]. exists created. unfold record_chunk.
  assert (H1 : forall id, AB created true [] g (st <| cs_ResponseID := id |>) c) by (intros id; destruct HB as [[] []]; by split).
  set (st1 := if chk_ID chunk =?s "" then st else _).
  assert (HB1 : AB created true [] g st1 c) by (subst st1; destruct (_ =?s _); [done|apply H1]). clearbody st1. clear HB H1.
  set (st2 := if _ && _ then _ else st1).
  assert (HB2 : AB created true [] g st2 c) by (subst st2; destruct (_ && _); [destruct HB1 as [[] []]; by split|done]). clearbody st2.
  clear HB1. set (st3 := if _ =?s _ then st2 else _).
  assert (HB3 : AB created true [] g st3 c) by (subst st3; destruct (_ =?s _); [done|destruct HB2 as [[] []]; by split]). clearbody st3.
  destruct (chk_Usage chunk); [destruct HB3 as [[] []]; by split|done].
Qed.

(** ** The end of the stream *)

(** The answer's text: the reasoning stands in for an answer without text and calls. *)
Definition visible_text (g : Sent) : string :=
  if (sn_text g =?s "") && bool_decide (sn_args g = ∅) && negb (TrimSpace (sn_thinking g) =?s "")
  then sn_thinking g else sn_text g.
Definition visible (g : Sent) : Sent := g <| sn_text := visible_text g |>.

Definition keeps_open (f : State -> State * list ResponsesStreamEvent) : Prop :=
  forall st, cs_ReasoningOpen (f st).1 = cs_ReasoningOpen st.
Lemma keeps_open_then f h : keeps_open f -> keeps_open h -> keeps_open (f ;>> h).
Proof.
  intros Hf Hh st. unfold then_emit. pose proof (Hf st) as E. destruct (f st) as [st1 o1].
  pose proof (Hh st1) as E1. destruct (h st1). simpl in *. congruence.
Qed.
Lemma emit_text_open text : keeps_open (emit_text itemIDs text).
Proof.
  repeat apply keeps_open_then; intros st.
  - unfold ensureChatToResponsesMessageItem. by destruct (negb _).
  - unfold ensureChatToResponsesTextPart. by destruct (cs_TextPartOpen st).
  - done.
  - done.
Qed.

(** The message item is opened only for a text. *)
Definition shown (st : State) : Prop := has_message st = true -> cs_Text st <> "".
Definition keeps_text (f : State -> State * list ResponsesStreamEvent) : Prop :=
  forall st, cs_MessageItemID (f st).1 = cs_MessageItemID st /\ cs_Text (f st).1 = cs_Text st.

Lemma keeps_text_then f h : keeps_text f -> keeps_text h -> keeps_text (f ;>> h).
Proof.
  intros Hf Hh st. unfold then_emit. pose proof (Hf st) as [E1 E2]. destruct (f st) as [st1 o1].
  pose proof (Hh st1) as [E3 E4]. destruct (h st1). simpl in *. split; congruence.
Qed.
Lemma keeps_text_event t tmpl : keeps_text (chatToResponsesEvent t tmpl).
Proof. by intros st. Qed.
Lemma keeps_text_shown f st : keeps_text f -> shown st -> shown (f st).1.
Proof. intros Hf. unfold shown, has_message. by destruct (Hf st) as [-> ->]. Qed.

Lemma close_reasoning_keeps : keeps_text closeChatReasoningItem.
Proof. intros st. unfold closeChatReasoningItem. by destruct (negb _). Qed.
Lemma reasoning_delta_keeps text : keeps_text (reasoning_delta itemIDs text).
Proof.
  apply keeps_text_then; [|apply keeps_text_then; [by intros st|apply keeps_text_event]].
  intros st. unfold ensureChatReasoningItem. by destruct (_ || _).
Qed.
Lemma announce_keeps k stored force : keeps_text (announceChatToolItem k stored force).
Proof.
  intros st. destruct (announce_cases k stored force st) as [[-> _]|(_ & cu & se & ns & ty & na & sp & _ & _ & ->)]; [done|].
  refine (keeps_text_then (added_call k ty na sp (ctc_ID stored)) _ (keeps_text_event _ _) _ (flagged k cu se ns st)).
  by destruct (_ && _).
Qed.
Lemma tool_call_delta_keeps tc : keeps_text (tool_call_delta itemIDs tc).
Proof.
  apply keeps_text_then; [|apply keeps_text_then].
  - intros st. unfold record_call. destruct (cs_ToolCalls st !! _); [done|].
    apply keeps_text_then; [apply close_reasoning_keeps|]. clear st. intros st. simpl.
    destruct (start_call_eq (default 0 (ctc_Index tc)) tc st) as (id & ids & ->). done.
  - intros st. apply announce_keeps.
  - unfold add_arguments. destruct (_ =?s _); [done|]. apply keeps_text_then; [done|]. intros st. by destruct (_ && _).
Qed.
Lemma emit_text_shown text st : text <> "" -> shown (emit_text itemIDs text st).1.
Proof.
  intros Hne. unfold emit_text, then_emit.
  destruct (ensureChatToResponsesMessageItem itemIDs st) as [st1 o1].
  destruct (ensureChatToResponsesTextPart st1) as [st2 o2].
  intros _. change (cs_Text st2 +:+ text <> ""). by intros [_ ?]%str_app_eq_nil.
Qed.

Definition keeps_shown (f : State -> State * list ResponsesStreamEvent) : Prop := forall st, shown st -> shown (f st).1.
Lemma keeps_shown_then f h : keeps_shown f -> keeps_shown h -> keeps_shown (f ;>> h).
Proof.
  intros Hf Hh st Hs. unfold then_emit. specialize (Hf st Hs). destruct (f st) as [st1 o1].
  specialize (Hh st1 Hf). by destruct (h st1).
Qed.
Lemma keeps_shown_skip : keeps_shown skip.
Proof. intros st Hs. exact Hs. Qed.
Lemma when_text_shown o f :
  (forall s, s <> "" -> keeps_shown (f s)) -> keeps_shown (when_text o f).
Proof.
  intros Hf. destruct o as [s|]; [|apply keeps_shown_skip]. simpl.
  destruct (String.eqb_spec s ""); [apply keeps_shown_skip|by apply Hf].
Qed.
Lemma choice_delta_shown choice : keeps_shown (choice_delta itemIDs choice).
Proof.
  unfold choice_delta. apply keeps_shown_then; [|apply keeps_shown_then; [|apply keeps_shown_then]].
  - apply when_text_shown. intros s _ st. apply keeps_text_shown, reasoning_delta_keeps.
  - apply when_text_shown. intros s Hne st Hs. unfold answer_delta, then_emit. destruct (closeChatReasoningItem st) as [st1 o1].
    pose proof (emit_text_shown s st1 Hne). by destruct (emit_text itemIDs s st1).
  - induction (cdl_ToolCalls (ccc_Delta choice)) as [|tc calls IH]; [apply keeps_shown_skip|]. apply keeps_shown_then; [|done].
    intros st. apply keeps_text_shown, tool_call_delta_keeps.
  - apply when_text_shown. by intros s _ st.
Qed.
Lemma created_keeps : keeps_text ensureChatToResponsesCreated.
Proof. intros st. unfold ensureChatToResponsesCreated. by destruct (cs_CreatedSent st). Qed.
Lemma chunk_shown chunk : keeps_shown (ChatCompletionsChunkToResponsesEvents itemIDs chunk).
Proof.
  apply keeps_shown_then; [|apply keeps_shown_then].
  - intros st Hs. simpl. unfold shown, has_message, record_chunk in *.
    destruct (chk_Usage chunk); destruct (chk_ServiceTier chunk =?s ""); destruct (_ && _); by destruct (chk_ID chunk =?s "").
  - intros st. apply keeps_text_shown, created_keeps.
  - induction (chk_Choices chunk) as [|choice choices IH]; [apply keeps_shown_skip|]. apply keeps_shown_then; [apply choice_delta_shown|done].
Qed.

(** [later] is kept by what a choice does. *)
Definition keeps_later (f : State -> State * list ResponsesStreamEvent) : Prop := forall st, later st -> later (f st).1.
Lemma keeps_later_then f h : keeps_later f -> keeps_later h -> keeps_later (f ;>> h).
Proof.
  intros Hf Hh st Hs. unfold then_emit. specialize (Hf st Hs). destruct (f st) as [st1 o1].
  specialize (Hh st1 Hf). by destruct (h st1).
Qed.
Lemma keeps_later_skip : keeps_later skip.
Proof. intros st Hs. exact Hs. Qed.
Lemma when_text_later o f : (forall s, s <> "" -> keeps_later (f s)) -> keeps_later (when_text o f).
Proof.
  intros Hf. destruct o as [s|]; [|apply keeps_later_skip]. simpl.
  destruct (String.eqb_spec s ""); [apply keeps_later_skip|by apply Hf].
Qed.
Lemma reasoning_delta_later text : keeps_later (reasoning_delta itemIDs text).
Proof.
  apply keeps_later_then; [|apply keeps_later_then; intros st Hs; exact Hs].
  intros st Hs. unfold ensureChatReasoningItem. by destruct (_ || _).
Qed.
Lemma answer_delta_later text : text <> "" -> keeps_later (answer_delta itemIDs text).
Proof.
  intros Hne st _. left. unfold answer_delta, emit_text, then_emit.
  destruct (closeChatReasoningItem st) as [st1 o1]. destruct (ensureChatToResponsesMessageItem itemIDs st1) as [st2 o2].
  destruct (ensureChatToResponsesTextPart st2) as [st3 o3].
  change (cs_Text st3 +:+ text <> ""). by intros [_ ?]%str_app_eq_nil.
Qed.
Lemma record_call_some k tc st : cs_ToolCalls (record_call itemIDs k tc st).1 !! k <> None.
Proof.
  unfold record_call. destruct (cs_ToolCalls st !! k) as [stored|] eqn:E.
  - simpl. by rewrite lookup_insert_eq.
  - unfold then_emit. destruct (closeChatReasoningItem st) as [st1 o1]. simpl.
    destruct (start_call_eq k tc st1) as (id & ids & ->). simpl. by rewrite lookup_insert_eq.
Qed.
Lemma announce_calls k stored force st :
  cs_ToolCalls (announceChatToolItem k stored force st).1 = cs_ToolCalls st.
Proof.
  destruct (announce_cases k stored force st) as [[-> _]|(_ & cu & se & ns & ty & na & sp & _ & _ & ->)]; [done|].
  unfold added_call, then_emit. simpl. by destruct (_ && _).
Qed.
Lemma tool_call_delta_later tc : keeps_later (tool_call_delta itemIDs tc).
Proof.
  intros st _. right. set (k := default 0 (ctc_Index tc)).
  enough (cs_ToolCalls (tool_call_delta itemIDs tc st).1 !! k <> None) as Hk.
  { intros E. by rewrite E, lookup_empty in Hk. }
  unfold tool_call_delta, then_emit. fold k. pose proof (record_call_some k tc st) as H1.
  destruct (record_call itemIDs k tc st) as [st1 o1]. cbn [fst] in H1.
  pose proof (announce_calls k (stored_call st1 k) false st1) as H2.
  destruct (announceChatToolItem k (stored_call st1 k) false st1) as [st2 o2]. cbn [fst] in H2. rewrite <- H2 in H1.
  unfold add_arguments. destruct (_ =?s ""); [done|]. unfold then_emit. simpl.
  destruct (_ && _); simpl; by rewrite lookup_insert_eq.
Qed.
Lemma choice_delta_later choice : keeps_later (choice_delta itemIDs choice).
Proof.
  unfold choice_delta. apply keeps_later_then; [|apply keeps_later_then; [|apply keeps_later_then]].
  - apply when_text_later. intros s _. apply reasoning_delta_later.
  - apply when_text_later. apply answer_delta_later.
  - induction (cdl_ToolCalls (ccc_Delta choice)) as [|tc calls IH]; [apply keeps_later_skip|].
    apply keeps_later_then; [apply tool_call_delta_later|done].
  - apply when_text_later. intros s _ st Hs. exact Hs.
Qed.
Lemma record_later chunk : keeps_later (silent (record_chunk chunk)).
Proof.
  intros st Hs. unfold later, record_chunk in *. simpl.
  destruct (chk_Usage chunk); destruct (chk_ServiceTier chunk =?s ""); destruct (_ && _); by destruct (chk_ID chunk =?s "").
Qed.
Lemma created_later : keeps_later ensureChatToResponsesCreated.
Proof. intros st Hs. unfold ensureChatToResponsesCreated. by destruct (cs_CreatedSent st). Qed.

(** A simulation with what its states keep. *)
Lemma sim_keeps (R R' : State -> Answer -> Prop) (P P' : State -> Prop) f :
  sim (fun st c => R st c /\ P st) R' f -> (forall st, P st -> P' (f st).1) ->
  sim (fun st c => R st c /\ P st) (fun st c => R' st c /\ P' st) f.
Proof. intros Hf HP st c [HR Hst]. destruct (Hf st c (conj HR Hst)) as (c' & Ha & H'). exists c'. auto. Qed.

Definition L (R : State -> Answer -> Prop) st c : Prop := R st c /\ later st.
Lemma choice_deltas_sim choices : forall g,
  thinks_first g choices = true ->
  sim (L (Between g)) (L (Between (foldl sent_choice g choices))) (choice_deltas itemIDs choices).
Proof.
  induction choices as [|choice choices IH]; intros g Hg; [apply sim_skip|]. apply andb_true_iff in Hg as [Hc Hg].
  apply sim_then with (L (Between (sent_choice g choice))); [|by apply IH].
  apply sim_keeps; [by apply choice_delta_sim|apply choice_delta_later].
Qed.
Lemma answer_chunk_sim chunk g :
  thinks_first g (chk_Choices chunk) = true ->
  sim (L (Top g)) (L (Top (sent_chunk g chunk))) (ChatCompletionsChunkToResponsesEvents itemIDs chunk).
Proof.
  intros Hg. apply sim_mono with (L (Top g)) (L (Between (sent_chunk g chunk))); [done|intros st c [HB Hl]; split; [by eexists|done]|].
  apply sim_then with (L (Top g)).
  { apply sim_keeps; [|apply record_later]. apply sim_silent. intros st c [HT _]. by apply record_Top. }
  apply sim_then with (L (Between g)); [|by apply choice_deltas_sim].
  apply sim_keeps; [|apply created_later]. apply sim_mono with (Top g) (Between g); [by intros ?? []|done|apply created_sim].
Qed.
Lemma thinks_first_app g l1 l2 :
  thinks_first g (l1 ++ l2) = thinks_first g l1 && thinks_first (foldl sent_choice g l1) l2.
Proof. revert g. induction l1 as [|choice l1 IH]; intros g; simpl; [done|]. by rewrite IH, andb_assoc. Qed.
Lemma answer_run_sim chunks : forall g,
  thinks_first g (concat (map chk_Choices chunks)) = true ->
  sim (L (Top g)) (L (Top (foldl sent_chunk g chunks))) (run (H := chat_answer_converter itemIDs) chunks).
Proof.
  induction chunks as [|chunk chunks IH]; intros g Hg; [apply sim_skip|]. simpl in Hg.
  rewrite thinks_first_app in Hg. apply andb_true_iff in Hg as [H1 H2].
  eapply sim_ext; [|eapply sim_then; [apply (answer_chunk_sim chunk g H1)|apply (IH (sent_chunk g chunk) H2)]]. done.
Qed.

Lemma fallback_sim g :
  sim (fun st c => NotOpen g st c /\ shown st) (NotOpen (visible g))
    (synthesizeChatReasoningFallbackMessage itemIDs).
Proof.
  apply sim_after. intros st c [[HB Ho] Hm]. pose proof HB as [HS HK].
  unfold synthesizeChatReasoningFallbackMessage. fold (has_message st).
  rewrite (bool_decide_ext _ _ (no_calls_iff _ _ _ HS)), (s_thinking _ _ _ HS), (s_text _ _ _ HS).
  unfold visible, visible_text. destruct (has_message st) eqn:Em.
  { assert (Ht : sn_text g =?s "" = false) by (apply String.eqb_neq; rewrite <- (s_text _ _ _ HS); by apply Hm). rewrite Ht. simpl.
    exists c. split; [done|]. by destruct g. }
  assert (Ht : sn_text g = "") by (rewrite <- (s_text _ _ _ HS); by apply (s_message _ _ _ HS)). rewrite Ht. simpl.
  destruct (String.eqb_spec (sn_thinking g) "") as [E|Hne].
  { rewrite E. simpl. rewrite andb_false_r. exists c. split; [done|]. destruct g. simpl in *. by subst. }
  simpl. destruct (bool_decide (sn_args g = ∅)); simpl; [|exists c; split; [done|destruct g; simpl in *; by subst]].
  destruct (TrimSpace (sn_thinking g) =?s ""); simpl; [exists c; split; [done|destruct g; simpl in *; by subst]|].
  destruct (emit_text_sim g (sn_thinking g) st c HB) as (c' & Ha & HB'). exists c'. split; [done|].
  split; [|by rewrite emit_text_open]. revert HB'. unfold add_text. by rewrite Ht.
Qed.

(** *** Closing the items *)

Definition Fin (closed : list Who) (g : Sent) st c : Prop :=
  AB true true closed g st c /\ cs_ReasoningOpen st = false.

Lemma closed_kept closed st w : others_kept closed (w :: closed) st st w.
Proof.
  intros w' o Hne. assert (E : bool_decide (w' ∈ w :: closed) = bool_decide (w' ∈ closed)).
  { apply bool_decide_ext. rewrite elem_of_cons. naive_solver. }
  destruct w'; [done|..]; cbn [item_rel]; by rewrite E.
Qed.

Lemma close_message_sim g : sim (NotOpen g) (Fin [OMessage] g) close_message.
Proof.
  apply sim_after. intros st c [[HS HK] Ho]. unfold close_message. fold (has_message st).
  destruct (String.eqb_spec (cs_MessageItemID st) "") as [E|Hne].
  { exists c. split; [done|]. split; [|done]. split; [done|]. destruct HK. split; try done.
    intros w i Hw. specialize (k_spec0 w i Hw). destruct w; [done| |].
    - by destruct Hw as [Hw%negb_true_iff%String.eqb_neq _].
    - eapply (closed_kept [] st OMessage); [done|done]. }
  assert (Hw : forall st', cs_MessageItemID st' = cs_MessageItemID st -> owns st' OMessage (cs_MessageIndex st')).
  { intros st' E. split; [|done]. unfold has_message. rewrite E. by apply negb_true_iff, String.eqb_neq. }
  set (P := fun st' c' => (Shape true g st' /\ Known true [] st' c' /\ cs_ReasoningOpen st' = false)
                          /\ cs_MessageItemID st' = cs_MessageItemID st).
  apply after_then with P.
  - destruct (cs_TextPartOpen st); [|by exists c].
    assert (quiet : forall t tmpl st' c', P st' c' -> is_inside t = true ->
      rse_OutputIndex (tmpl st') = cs_MessageIndex st' -> rse_ItemID (tmpl st') = cs_MessageItemID st' ->
      (forall n, inside ((tmpl st') <| rse_Type := t |> <| rse_SequenceNumber := n |>) (MkItem (cs_MessageItemID st') "message" (cs_Text st') None)
                 = Some (MkItem (cs_MessageItemID st') "message" (cs_Text st') None)) ->
      after c' (chatToResponsesEvent t tmpl st') P).
    { intros t tmpl st' c' ((HS' & HK' & Ho') & E) Ht Hi Hid Hin.
      destruct (quiet_event [] st' c' OMessage _ _ t tmpl HK' ltac:(by destruct HS') (Hw st' E) (k_spec _ _ _ _ HK' _ _ (Hw st' E)))
        as (c2 & Ha & HK2); try done. exists c2. split; [done|]. split; [|done]. split_and!; [by apply event_shape|done..]. }
    eapply after_then; [apply quiet; [by split|done..|]|intros st1 c1 H1; by apply quiet].
    intros n. unfold inside. simpl. by rewrite String.eqb_refl.
  - intros st1 c1 ((HS1 & HK1 & Ho1) & E).
    destruct (done_event [] [OMessage] st1 st1 c1 OMessage _ _ (message_item (cs_MessageItemID st1) [output_text_part (cs_Text st1)])
      (fun st => item_event (cs_MessageIndex st) (message_item (cs_MessageItemID st) [output_text_part (cs_Text st)]))
      HK1 ltac:(by destruct HS1) (Hw st1 E) (k_spec _ _ _ _ HK1 _ _ (Hw st1 E))) as (c2 & Ha & HK2); try done.
    + apply closed_kept.
    + exists c2. split; [exact Ha|]. split; [|done]. split; [by apply event_shape|done].
Qed.

Lemma finished_type st k tc id : ro_Type (finished_call st k tc id) = call_type st k /\ ro_ID (finished_call st k tc id) = id.
Proof.
  unfold finished_call, call_type. destruct (is_set (cs_toolIsCustom st) k); [done|].
  destruct (is_set (cs_toolIsToolSearch st) k); [done|]. by destruct (cs_toolNamespace st !! k).
Qed.

(** The last event of a call, after its text has become what [item_rel] wants. *)
Lemma done_call closed g k tc st c i id :
  In closed g k tc st c -> owns st (OCall k) i -> cs_ToolItemIDs st !! k = Some id ->
  is_set (cs_toolAnnounced st) k = true -> is_set (cs_toolIsCustom st) k = false ->
  forall item, item = finished_call st k tc id ->
  after c (chatToResponsesEvent "response.output_item.done" (fun st => item_event (item_index st k) item) st)
    (AB true true (OCall k :: closed) g).
Proof.
  intros HI Hw Hids Hann Hcu item ->. destruct (call_owner _ _ _ _ _ _ HI) as (i' & id' & Hw' & Hids' & Hix & Hid & Hi).
  assert (i' = i) as -> by apply (owns_fun _ _ _ _ Hw' Hw). assert (id' = id) as -> by congruence. rewrite Hann in Hi.
  destruct HI as ([HS HK] & Hk & Hcl). apply event_AB; [done|]. destruct (finished_type st k tc id) as [Hty Hfid].
  eapply (done_event closed (OCall k :: closed) st st c (OCall k) i _ (finished_call st k tc id)); try done.
  - by destruct HS.
  - exists tc, id. split_and!; [done..|]. rewrite bool_decide_eq_true_2 by left. eexists. split; [reflexivity|].
    by rewrite Hcu.
  - apply closed_kept.
  - by rewrite Hix.
Qed.

(** The client's items once call [k] is done. *)
Lemma known_done_call closed st c k tc id i it n :
  Known true closed st c -> distinct st -> owns st (OCall k) i -> cs_ToolCalls st !! k = Some tc ->
  cs_ToolItemIDs st !! k = Some id ->
  item_rel (OCall k :: closed) st (OCall k) (Some it) ->
  Known true (OCall k :: closed) (st <| cs_SequenceNumber := n |>) (MkAnswer n true (<[i := it]> (an_items c)) None).
Proof.
  intros HK Hd Hw Hk Hids Hrel. pose proof HK as [[K1 K1'] K2 K3 K4 K5]. split; simpl; [by split|done|done| |].
  - intros j it' Hj. change (exists w, owns st w j). destruct (decide (j = i)) as [->|Hne]; [by eexists|].
    rewrite lookup_insert_ne in Hj by done. by eapply K4.
  - intros w j Hj. change (owns st w j) in Hj.
    change (item_rel (OCall k :: closed) st w (<[i:=it]> (an_items c) !! j)).
    destruct (decide (w = OCall k)) as [->|Hne].
    + by rewrite (owns_fun _ _ _ _ Hj Hw), lookup_insert_eq.
    + rewrite lookup_insert_ne by (intros ->; apply Hne; by eapply Hd). apply closed_kept; [done|]. by apply K5.
Qed.

(** A custom tool's input is sent in one piece when its call is over. *)
Lemma close_custom closed g k tc st c i id :
  In closed g k tc st c -> owns st (OCall k) i -> cs_ToolItemIDs st !! k = Some id ->
  is_set (cs_toolAnnounced st) k = true -> is_set (cs_toolIsCustom st) k = true ->
  let item := finished_call st k tc id in
  after c (((if ro_Input item =?s "" then skip
             else chatToResponsesEvent "response.custom_tool_call_input.delta" (fun st =>
               (call_event k st) <| rse_Delta := ro_Input item |>)) ;>>
            chatToResponsesEvent "response.custom_tool_call_input.done" (fun st =>
              (call_event k st) <| rse_CallID := ro_CallID item |> <| rse_Name := ro_Name item |>
                <| rse_Input := ro_Input item |>) ;>>
            chatToResponsesEvent "response.output_item.done" (fun st => item_event (item_index st k) item)) st)
    (AB true true (OCall k :: closed) g).
Proof.
  intros HI Hw Hids Hann Hcu item. destruct (call_owner _ _ _ _ _ _ HI) as (i' & id' & Hw' & Hids' & Hix & Hid & Hi).
  assert (i' = i) as -> by apply (owns_fun _ _ _ _ Hw' Hw). assert (id' = id) as -> by congruence. rewrite Hann in Hi.
  destruct HI as ([HS HK] & Hk & Hcl). pose proof HK as [[K1 K1'] K2 K3 K4 K5].
  destruct (finished_type st k tc id) as [Hty Hfid]. fold item in Hty, Hfid.
  assert (Ety : call_type st k = "custom_tool_call") by (unfold call_type; by rewrite Hcu). rewrite Ety in Hi, Hty.
  assert (Etx : forall a, call_text st k a = "") by (intros a; unfold call_text; by rewrite Hcu). rewrite Etx in Hi.
  set (it := MkItem id "custom_tool_call" (ro_Input item) None).
  set (Q := fun st' c' => (exists n, st' = st <| cs_SequenceNumber := n |> /\ Shape true g st') /\ live c'
     /\ an_sequence c' = cs_SequenceNumber st' /\ an_items c' = <[i := it]> (an_items c)).
  apply after_then with Q; [|intros st1 c1 H1; apply after_then with Q; [|intros st2 c2 H2]].
  - destruct (String.eqb_spec (ro_Input item) "") as [E|Hne].
    + exists c. split; [done|]. split; [exists (cs_SequenceNumber st); split; [by destruct st|done]|]. split; [by split|].
      split; [done|]. symmetry. apply insert_id. subst it. by rewrite E.
    + eexists. split.
      { simpl. erewrite step_inside; [done|by split|done|done|rewrite <- Hi; simpl; by rewrite Hix|done|reflexivity]. }
      split; [eexists; split; [done|by apply (event_shape _ _ "" (fun _ => zero_ResponsesStreamEvent))]|].
      split; [done|]. split; [simpl; by rewrite K3|]. simpl. by rewrite Hix.
  - destruct H1 as ((n & -> & HS1) & Hl & Hs & Hit). eexists. split.
    { simpl. rewrite (step_inside _ _ it it); [done|done|done|done| |simpl; by rewrite <- Hid|].
      - simpl. change (item_index _ k) with (item_index st k). rewrite Hit, Hix. apply lookup_insert_eq.
      - unfold inside. simpl. by rewrite String.eqb_refl. }
    split; [eexists; split; [done|by apply (event_shape _ _ "" (fun _ => zero_ResponsesStreamEvent) (st <| cs_SequenceNumber := n |>))]|].
    split; [done|]. split; [simpl; by rewrite Hs|]. simpl. change (item_index _ k) with (item_index st k). rewrite Hit, Hix.
    apply insert_insert_eq.
  - destruct H2 as ((n & -> & HS2) & Hl & Hs & Hit). eexists. split.
    { simpl. erewrite (step_done _ _ item it); [done|done|done|done|done| |done|done|done].
      simpl. change (item_index _ k) with (item_index st k). rewrite Hit, Hix. apply lookup_insert_eq. }
    split; [by apply event_shape|]. simpl. change (item_index _ k) with (item_index st k). rewrite Hit, Hix, insert_insert_eq, Hs.
    apply (known_done_call closed st c k tc id i (it <| it_done := Some item |>) (n + 1)); try done; [by destruct HS|].
    exists tc, id. split_and!; [done..|]. rewrite bool_decide_eq_true_2 by left. eexists. split; [by rewrite Ety|]. by rewrite Hcu.
Qed.

Lemma announce_open k stored force st :
  cs_ReasoningOpen (announceChatToolItem k stored force st).1 = cs_ReasoningOpen st.
Proof.
  destruct (announce_cases k stored force st) as [[-> _]|(_ & cu & se & ns & ty & na & sp & _ & _ & ->)]; [done|].
  unfold then_emit. simpl. by destruct (_ && _).
Qed.
Lemma close_events_open k tc st : cs_ReasoningOpen (close_call_events k tc st).1 = cs_ReasoningOpen st.
Proof.
  unfold close_call_events, then_emit. destruct (is_set (cs_toolIsCustom st) k); simpl; [by destruct (_ =?s _)|].
  by destruct (is_set (cs_toolIsToolSearch st) k).
Qed.

Lemma close_events_sim closed g k tc st c :
  In closed g k tc st c -> is_set (cs_toolAnnounced st) k = true ->
  after c (close_call_events k tc st) (AB true true (OCall k :: closed) g).
Proof.
  intros HI Hann. destruct (call_owner _ _ _ _ _ _ HI) as (i & id & Hw & Hids & Hix & Hid & Hi). rewrite Hann in Hi.
  unfold close_call_events. rewrite Hid. cbv zeta.
  destruct (is_set (cs_toolIsCustom st) k) eqn:Hcu; [by apply (close_custom closed g k tc st c i id)|].
  destruct (is_set (cs_toolIsToolSearch st) k) eqn:Hse; [by apply (done_call closed g k tc st c i id)|].
  set (item := finished_call st k tc id).
  assert (Hargs : ro_Arguments item = call_arguments_or_empty (cfc_Arguments (ctc_Function tc))).
  { subst item. unfold finished_call. rewrite Hcu, Hse. by destruct (cs_toolNamespace st !! k). }
  apply after_then with (fun st' c' => In closed g k tc st' c' /\ st' = st <| cs_SequenceNumber := cs_SequenceNumber st + 1 |>).
  - destruct HI as ([HS HK] & Hk & Hcl). unfold call_type, call_text in Hi. rewrite Hcu, Hse in Hi.
    destruct (quiet_event closed st c (OCall k) i _ "response.function_call_arguments.done" (fun st =>
        (call_event k st) <| rse_CallID := ro_CallID item |> <| rse_Name := ro_Name item |>
        <| rse_Arguments := ro_Arguments item |>) HK ltac:(by destruct HS) Hw Hi) as (c' & Ha & HK'); try done.
    + intros n. unfold inside. simpl. by rewrite Hargs, String.eqb_refl.
    + exists c'. split; [exact Ha|]. split; [|done]. split; [|done]. split; [by apply event_shape|done].
  - intros st1 c1 [HI1 ->]. by apply (done_call closed g k tc _ c1 i id).
Qed.

Lemma close_call_sim closed g k :
  OCall k ∉ closed -> sim (Fin closed g) (Fin (OCall k :: closed) g) (close_call k).
Proof.
  intros Hcl. apply sim_after. intros st c [[HS HK] Ho]. unfold close_call.
  destruct (cs_ToolCalls st !! k) as [tc|] eqn:Hk.
  - assert (HI : In closed g k tc st c) by by split_and!.
    destruct (call_owner _ _ _ _ _ _ HI) as (i & id & Hw & Hids & _). rewrite Hids.
    assert (Hao := announce_open k tc true st). destruct (answer_announce_sim closed g k tc true st c HI) as (c1 & Ha1 & HI1 & Hf).
    specialize (Hf eq_refl). unfold after, then_emit. destruct (announceChatToolItem k tc true st) as [st1 o1]. cbn [fst snd] in *.
    assert (Hco := close_events_open k tc st1). destruct (close_events_sim closed g k tc st1 c1 HI1 Hf) as (c2 & Ha2 & HB2).
    destruct (close_call_events k tc st1) as [st2 o2]. exists c2. cbn [fst snd] in *.
    split; [by rewrite accepts_app, Ha1|]. split; [done|]. congruence.
  - exists c. split; [done|]. split; [|done]. split; [done|]. destruct HK. split; try done. intros w i Hw.
    assert (Hne : w <> OCall k).
    { intros ->. assert (H : is_Some (cs_ToolCalls st !! k)) by (apply (s_calls _ _ _ HS); by exists i).
      rewrite Hk in H. by apply is_Some_None in H. }
    apply closed_kept; [done|]. by apply k_spec0.
Qed.

Lemma close_calls_sim l closed g :
  NoDup l -> (forall k, k ∈ l -> OCall k ∉ closed) ->
  sim (Fin closed g) (Fin (map OCall (reverse l) ++ closed) g) (close_calls l).
Proof.
  revert closed. induction l as [|k l IH]; intros closed Hd Hl; [apply sim_skip|]. apply NoDup_cons in Hd as [Hk Hd].
  apply sim_then with (Fin (OCall k :: closed) g); [apply close_call_sim, Hl; by left|].
  rewrite reverse_cons, map_app, <- app_assoc. simpl. apply IH; [done|].
  intros k' Hk'. rewrite not_elem_of_cons. split; [congruence|]. apply Hl. by right.
Qed.

(** *** The terminal response *)

(** A listed item is the finished one, up to its id; a reasoning item is listed without
    its status. *)
Definition same_content (d o : ResponsesOutput) : Prop :=
  o <| ro_ID := "" |> = d <| ro_ID := "" |> <| ro_Status := if ro_Type d =?s "reasoning" then "" else ro_Status d |>.
Definition listed (c : Answer) (i : Z) (o : ResponsesOutput) : Prop :=
  exists it d, an_items c !! i = Some it /\ it_done it = Some d /\ same_content d o.

Definition indices (g : Sent) : list Z := seqZ 0 (Z.of_nat (size (sn_args g))).
Definition all_closed (g : Sent) : list Who := map OCall (reverse (indices g)) ++ [OMessage].

Lemma indices_calls full g st : Shape full g st -> call_indices st = indices g.
Proof.
  intros HS. unfold call_indices, indices. do 2 f_equal.
  assert (E : sn_args g = (fun tc => cfc_Arguments (ctc_Function tc)) <$> cs_ToolCalls st).
  { apply map_eq. intros k. by rewrite lookup_fmap, (s_args _ _ _ HS). }
  by rewrite E, map_size_fmap.
Qed.
Lemma closed_calls g k : OCall k ∈ all_closed g <-> k ∈ indices g.
Proof.
  unfold all_closed. rewrite elem_of_app, list_elem_of_singleton. change (map OCall ?l) with (OCall <$> l).
  rewrite list_elem_of_fmap. setoid_rewrite elem_of_reverse. naive_solver.
Qed.
Lemma closed_message g : OMessage ∈ all_closed g.
Proof. apply elem_of_app. right. by left. Qed.

Definition index_of (st : State) (w : Who) : Z :=
  match w with OReasoning => cs_ReasoningIndex st | OMessage => cs_MessageIndex st | OCall k => item_index st k end.
Definition present (st : State) (l : list Z) : list Z :=
  List.filter (fun k => bool_decide (is_Some (cs_ToolCalls st !! k))) l.
Lemma present_elem st l k : k ∈ present st l <-> k ∈ l /\ is_Some (cs_ToolCalls st !! k).
Proof. unfold present. by rewrite !list_elem_of_In, filter_In, bool_decide_eq_true. Qed.

Lemma owns_index st w i : owns st w i -> index_of st w = i.
Proof. destruct w; simpl; [by intros [_ ->]..|]. unfold item_index. by intros ->. Qed.
Lemma NoDup_indices st l :
  distinct st -> Forall (fun w => owns st w (index_of st w)) l -> NoDup l -> NoDup (map (index_of st) l).
Proof.
  intros Hd. induction 1 as [|w l Hw Hl IH]; simpl; [constructor|]. intros [Hn Hnd]%NoDup_cons.
  constructor; [|by apply IH]. intros (w' & E & Hw')%list_elem_of_fmap. apply Hn.
  rewrite Forall_forall in Hl. specialize (Hl _ Hw'). rewrite <- E in Hl. by rewrite (Hd _ _ _ Hw Hl).
Qed.

Lemma finished_call_id st k tc id id' :
  (finished_call st k tc id) <| ro_ID := id' |> = finished_call st k tc id'.
Proof.
  unfold finished_call. destruct (is_set (cs_toolIsCustom st) k); [done|].
  destruct (is_set (cs_toolIsToolSearch st) k); [done|]. by destruct (cs_toolNamespace st !! k).
Qed.
Lemma call_type_cases st k :
  call_type st k = "function_call" \/ call_type st k = "custom_tool_call" \/ call_type st k = "tool_search_call".
Proof.
  unfold call_type. destruct (is_set (cs_toolIsCustom st) k); [by right; left|].
  destruct (is_set (cs_toolIsToolSearch st) k); [by right; right|by left].
Qed.

Section Final.
Context (g : Sent) (st : State) (c : Answer).
Hypothesis fin : Fin (all_closed g) g st c.

Lemma final_shape : Shape true g st.
Proof. by destruct fin as [[HS _] _]. Qed.
Lemma final_rel w i : owns st w i -> item_rel (all_closed g) st w (an_items c !! i).
Proof. destruct fin as [[_ HK] _]. apply HK. Qed.
Lemma final_owner i it : an_items c !! i = Some it -> exists w, owns st w i.
Proof. destruct fin as [[_ HK] _]. apply HK. Qed.

Lemma final_reasoning i :
  owns st OReasoning i -> an_items c !! i = Some (MkItem (cs_ReasoningItemID st) "reasoning" (sn_thinking g)
    (Some (done_reasoning st (sn_thinking g)))).
Proof.
  intros (d & Hi & Hd)%final_rel. destruct fin as [_ Ho]. rewrite Ho in Hd. subst d.
  by rewrite (s_thinking _ _ _ final_shape) in Hi.
Qed.
Lemma final_message i :
  owns st OMessage i -> an_items c !! i = Some (MkItem (cs_MessageItemID st) "message" (sn_text g)
    (Some (message_item (cs_MessageItemID st) [output_text_part (sn_text g)]))).
Proof.
  intros H%final_rel. simpl in H. rewrite bool_decide_eq_true_2 in H by apply closed_message.
  by rewrite (s_text _ _ _ final_shape) in H.
Qed.
Lemma final_call k i :
  owns st (OCall k) i -> exists tc id, cs_ToolCalls st !! k = Some tc /\
    if bool_decide (k ∈ indices g) then exists text,
      an_items c !! i = Some (MkItem id (call_type st k) text (Some (finished_call st k tc id)))
      /\ (text = if is_set (cs_toolIsCustom st) k then ro_Input (finished_call st k tc id)
                 else call_text st k (cfc_Arguments (ctc_Function tc)))
    else forall it, an_items c !! i = Some it -> it_type it = call_type st k /\ it_done it = None.
Proof.
  intros (tc & id & Hk & _ & H)%final_rel. exists tc, id. split; [done|].
  rewrite (bool_decide_ext _ _ (closed_calls g k)) in H. destruct (bool_decide (k ∈ indices g)); [done|].
  intros it Hit. destruct (is_set (cs_toolAnnounced st) k); rewrite H in Hit; [by injection Hit as <-|done].
Qed.

(** The items in the order of the list. *)
Definition listed_owners : list Who :=
  (if sn_thinking g =?s "" then [] else [OReasoning]) ++ (if has_message st then [OMessage] else [])
  ++ map OCall (present st (indices g)).

Lemma listed_owned : Forall (fun w => owns st w (index_of st w)) listed_owners.
Proof.
  pose proof final_shape as HS. apply Forall_app. split; [|apply Forall_app; split].
  - destruct (String.eqb_spec (sn_thinking g) "") as [|Hne]; constructor; [|constructor]. split; [|done].
    apply HS. by rewrite (s_thinking _ _ _ HS).
  - destruct (has_message st) eqn:E; constructor; [by split|constructor].
  - apply Forall_forall. intros w (k & -> & [_ Hk]%present_elem)%list_elem_of_fmap.
    apply (s_calls _ _ _ HS) in Hk as [i Hi]. simpl. unfold item_index. by rewrite Hi.
Qed.
Lemma listed_NoDup : NoDup listed_owners.
Proof.
  unfold listed_owners. assert (Hc : NoDup (map OCall (present st (indices g)))).
  { change (map OCall ?l) with (OCall <$> l). apply NoDup_fmap; [by intros ?? [= ->]|].
    apply NoDup_ListNoDup, List.NoDup_filter, NoDup_ListNoDup, NoDup_seqZ. }
  assert (Hn : forall w, w = OReasoning \/ w = OMessage -> w ∉ map OCall (present st (indices g))).
  { intros w Hw (k & -> & _)%list_elem_of_fmap. by destruct Hw. }
  assert (Hm : NoDup ((if has_message st then [OMessage] else []) ++ map OCall (present st (indices g)))).
  { destruct (has_message st); [|done]. constructor; [apply Hn; by right|done]. }
  destruct (sn_thinking g =?s ""); [done|]. simpl. constructor; [|done]. rewrite elem_of_app.
  intros [H|H]; [|apply (Hn OReasoning); [by left|done]].
  destruct (has_message st); [by apply list_elem_of_singleton in H|by apply not_elem_of_nil in H].
Qed.

(** Every done item is listed. *)
Lemma done_listed i it : an_items c !! i = Some it -> is_Some (it_done it) -> i ∈ map (index_of st) listed_owners.
Proof.
  pose proof final_shape as HS. intros Hi [d Hd]. destruct (final_owner i it Hi) as [w Hw].
  rewrite <- (owns_index _ _ _ Hw). apply list_elem_of_fmap_2. unfold listed_owners. rewrite !elem_of_app. destruct w as [| |k].
  - left. destruct (String.eqb_spec (sn_thinking g) "") as [E|]; [|by left].
    destruct (s_full _ _ _ HS eq_refl (proj1 Hw)). by rewrite (s_thinking _ _ _ HS).
  - right; left. destruct Hw as [-> _]. by left.
  - right; right. apply list_elem_of_fmap_2, present_elem. destruct (final_call k i Hw) as (tc & id & Hk & H).
    split; [|by rewrite Hk]. destruct (bool_decide_reflect (k ∈ indices g)) as [|Hn]; [done|].
    apply H in Hi as [_ ?]. congruence.
Qed.

Lemma finished_calls_listed l n :
  (forall k, k ∈ l -> k ∈ indices g) ->
  Forall2 (listed c) (map (item_index st) (present st l)) (finished_calls itemIDs st l n).
Proof.
  pose proof final_shape as HS. revert n. induction l as [|k l IH]; intros n Hl; simpl; [constructor|].
  assert (Hl' : forall k', k' ∈ l -> k' ∈ indices g) by (intros k' ?; apply Hl; by right).
  destruct (cs_ToolCalls st !! k) as [tc|] eqn:Hk.
  2: { rewrite bool_decide_eq_false_2 by (apply is_Some_None). by apply IH. }
  rewrite bool_decide_eq_true_2 by done. simpl. constructor; [|by apply IH].
  pose proof (proj1 (s_calls _ _ _ HS k)) as [i Hi]; [by rewrite Hk|].
  destruct (final_call k i Hi) as (tc' & id & Hk' & H). rewrite Hk in Hk'. injection Hk' as <-.
  rewrite bool_decide_eq_true_2 in H by (apply Hl; by left). destruct H as (text & Hit & _).
  unfold item_index. rewrite Hi. simpl. exists (MkItem id (call_type st k) text (Some (finished_call st k tc id))), (finished_call st k tc id).
  split_and!; [done..|]. destruct (finished_type st k tc id) as [Ht _].
  unfold same_content. rewrite Ht, (finished_call_id st k tc (itemIDs n)), <- (finished_call_id st k tc id "").
  assert (E : call_type st k =?s "reasoning" = false) by (by destruct (call_type_cases st k) as [-> |[-> | ->]]).
  rewrite E. by destruct (finished_call st k tc id).
Qed.

Lemma output_listed :
  has_message st = true \/ sn_args g <> ∅ -> Forall2 (listed c) (map (index_of st) listed_owners) (chatOutput itemIDs st).
Proof.
  intros Hsays. pose proof final_shape as HS. unfold chatOutput. rewrite (indices_calls _ _ _ HS), (s_thinking _ _ _ HS), (s_text _ _ _ HS).
  rewrite (bool_decide_ext _ _ (no_calls_iff _ _ _ HS)). fold (has_message st).
  destruct (if sn_thinking g =?s "" then _ else _) as [reasoning n] eqn:Er.
  assert (Hr : Forall2 (listed c) (map (index_of st) (if sn_thinking g =?s "" then [] else [OReasoning])) reasoning).
  { destruct (String.eqb_spec (sn_thinking g) "") as [|Hne]; injection Er as <- <-; simpl; constructor; [|constructor].
    eexists _, (done_reasoning st (sn_thinking g)). split; [apply final_reasoning|split; [reflexivity|reflexivity]].
    split; [|done]. apply HS. by rewrite (s_thinking _ _ _ HS). }
  clear Er. unfold listed_owners. rewrite !map_app.
  assert (Hcalls : forall n, Forall2 (listed c) (map (index_of st) (map OCall (present st (indices g)))) (finished_calls itemIDs st (indices g) n)).
  { intros m. rewrite map_map. by apply finished_calls_listed. }
  destruct (has_message st) eqn:Em; simpl.
  - assert (Hne : cs_MessageItemID st =?s "" = false) by (unfold has_message in Em; by apply negb_true_iff).
    rewrite Hne. apply Forall2_app; [done|]. constructor; [|done].
    eexists _, _. split; [apply final_message; by split|]. done.
  - destruct Hsays as [|Hn]; [done|]. rewrite bool_decide_eq_false_2 by done. simpl. apply Forall2_app; [exact Hr|apply Hcalls].
Qed.
End Final.

(** What the client holds of call [k] with arguments [a]: an item of the right kind, its
    deltas and its finished form. *)
Definition rel_call_item (it : Item) (o : ResponsesOutput) (a : string) : Prop :=
  let arguments := call_arguments_or_empty a in
  it_done it = Some o /\ ro_Type o = it_type it /\
  ((it_type it = "function_call" /\ it_text it = a /\ ro_Arguments o = arguments)
   \/ (it_type it = "custom_tool_call" /\ it_text it = ro_Input o /\ ro_Input o = extractCustomToolCallInput arguments)
   \/ (it_type it = "tool_search_call" /\ ro_Arguments o = arguments)).

(** The client and the terminal response when the stream of content [g] is over; [place]
    are the output indices of the calls. *)
Record answered (g : Sent) (place : gmap Z Z) (c : Answer) (r : ResponsesResponse) : Prop := {
  an_terminal : an_response c = Some r;
  an_text : forall i it, an_items c !! i = Some it -> it_type it = "message" ->
    it_text it = visible_text g
    /\ it_done it = Some (message_item (it_id it) [output_text_part (visible_text g)]);
  an_text_shown : visible_text g <> "" -> exists i it, an_items c !! i = Some it /\ it_type it = "message";
  an_thinking : forall i it, an_items c !! i = Some it -> it_type it = "reasoning" ->
    it_text it = sn_thinking g
    /\ it_done it = Some ((reasoning_item (it_id it) (sn_thinking g)) <| ro_Status := "completed" |>);
  an_thinking_shown : sn_thinking g <> "" -> exists i it, an_items c !! i = Some it /\ it_type it = "reasoning";
  an_calls : forall k a, sn_args g !! k = Some a -> exists i it o,
    place !! k = Some i /\ an_items c !! i = Some it /\ rel_call_item it o a;
  an_place : forall k1 k2 i, place !! k1 = Some i -> place !! k2 = Some i -> k1 = k2;
  an_all_done : forall i it, an_items c !! i = Some it -> is_Some (it_done it);
  an_listed : exists order,
    Forall2 (listed c) order (rr_Output r) /\ NoDup order /\ forall i, i ∈ order <-> is_Some (an_items c !! i);
}.

Lemma call_item_done g st c k a i tc id text :
  AB true true (all_closed g) g st c -> sn_args g !! k = Some a -> cs_ToolCalls st !! k = Some tc ->
  an_items c !! i = Some (MkItem id (call_type st k) text (Some (finished_call st k tc id))) ->
  text = (if is_set (cs_toolIsCustom st) k then ro_Input (finished_call st k tc id)
          else call_text st k (cfc_Arguments (ctc_Function tc))) ->
  rel_call_item (MkItem id (call_type st k) text (Some (finished_call st k tc id))) (finished_call st k tc id) a.
Proof.
  intros [HS _] Ha Hk Hi ->. rewrite (s_args _ _ _ HS), Hk in Ha. injection Ha as <-.
  split; [done|]. split; [apply finished_type|]. unfold call_type, call_text, finished_call. simpl.
  destruct (is_set (cs_toolIsCustom st) k); [by right; left|].
  destruct (is_set (cs_toolIsToolSearch st) k); [by right; right|left]. by destruct (cs_toolNamespace st !! k).
Qed.

Lemma other_type st k t : t = "message" \/ t = "reasoning" -> call_type st k <> t.
Proof. intros [-> | ->]; by destruct (call_type_cases st k) as [-> |[-> | ->]]. Qed.

(** The calls are numbered 0, 1, 2, ...; there is something to show. *)
Definition numbered_from_0 (g : Sent) : Prop :=
  map_Forall (fun k _ => 0 <= k < Z.of_nat (size (sn_args g))) (sn_args g).
Definition says_something (g : Sent) : Prop := visible_text g <> "" \/ sn_args g <> ∅.
Lemma numbered_indices g k : numbered_from_0 g -> is_Some (sn_args g !! k) -> k ∈ indices g.
Proof. intros H [a Ha]. unfold indices. apply elem_of_seqZ. apply H in Ha. lia. Qed.

Lemma final_answered g st c r :
  numbered_from_0 g -> says_something g ->
  Fin (all_closed g) (visible g) st c -> rr_Output r = chatOutput itemIDs st ->
  answered g (cs_ToolOutputIndex st) (MkAnswer (an_sequence c + 1) true (an_items c) (Some r)) r.
Proof.
  intros Hnum Hsays HF Hr. pose proof (final_shape (visible g) st c HF) as HS.
  assert (Hidx : forall k i, owns st (OCall k) i -> k ∈ indices (visible g)).
  { intros k i Hw. apply numbered_indices; [done|]. assert (Hk : is_Some (cs_ToolCalls st !! k)) by (apply (s_calls _ _ _ HS); by exists i).
    rewrite (s_args _ _ _ HS k). by destruct Hk as [tc ->]. }
  assert (Hcall : forall k i, owns st (OCall k) i -> exists tc id text, cs_ToolCalls st !! k = Some tc /\
    an_items c !! i = Some (MkItem id (call_type st k) text (Some (finished_call st k tc id))) /\
    text = if is_set (cs_toolIsCustom st) k then ro_Input (finished_call st k tc id)
           else call_text st k (cfc_Arguments (ctc_Function tc))).
  { intros k i Hw. destruct (final_call (visible g) st c HF k i Hw) as (tc & id & Htc & H).
    rewrite bool_decide_eq_true_2 in H by (by eapply Hidx). destruct H as (text & Hit & Htext). by exists tc, id, text. }
  assert (Hdone : forall i it, an_items c !! i = Some it -> is_Some (it_done it)).
  { intros i it Hi. destruct (final_owner (visible g) st c HF i it Hi) as [[| |k] Hw].
    - rewrite (final_reasoning (visible g) st c HF i Hw) in Hi. by injection Hi as <-.
    - rewrite (final_message (visible g) st c HF i Hw) in Hi. by injection Hi as <-.
    - destruct (Hcall k i Hw) as (tc & id & text & _ & Hit & _). rewrite Hi in Hit. by injection Hit as ->. }
  split; simpl.
  - done.
  - intros i it Hi Ht. destruct (final_owner (visible g) st c HF i it Hi) as [[| |k] Hw].
    + rewrite (final_reasoning (visible g) st c HF i Hw) in Hi. by injection Hi as <-.
    + rewrite (final_message (visible g) st c HF i Hw) in Hi. by injection Hi as <-.
    + destruct (other_type st k "message" ltac:(by left)). destruct (Hcall k i Hw) as (tc & id & text & _ & Hit & _).
      rewrite Hi in Hit. by injection Hit as ->.
  - intros Hne. assert (Hm : has_message st = true).
    { destruct (has_message st) eqn:E; [done|]. apply (s_message _ _ _ HS) in E. by rewrite (s_text _ _ _ HS) in E. }
    eexists _, _. split; [by apply (final_message (visible g) st c HF); split|done].
  - intros i it Hi Ht. destruct (final_owner (visible g) st c HF i it Hi) as [[| |k] Hw].
    + rewrite (final_reasoning (visible g) st c HF i Hw) in Hi. by injection Hi as <-.
    + rewrite (final_message (visible g) st c HF i Hw) in Hi. by injection Hi as <-.
    + destruct (other_type st k "reasoning" ltac:(by right)). destruct (Hcall k i Hw) as (tc & id & text & _ & Hit & _).
      rewrite Hi in Hit. by injection Hit as ->.
  - intros Hne. eexists _, _. split; [apply (final_reasoning (visible g) st c HF (cs_ReasoningIndex st))|done].
    split; [|done]. apply HS. by rewrite (s_thinking _ _ _ HS).
  - intros k a Ha. pose proof (s_args _ _ _ HS k) as E. simpl in E. rewrite Ha in E.
    assert (Hs : is_Some (cs_ToolCalls st !! k)) by (destruct (cs_ToolCalls st !! k); done).
    apply (s_calls _ _ _ HS) in Hs as [i Hi]. destruct (Hcall k i Hi) as (tc & id & text & Htc & Hit & Htext).
    eexists i, _, (finished_call st k tc id). split_and!; [done|exact Hit|].
    apply (call_item_done (visible g) st c k a i tc id text); [apply HF|done..].
  - intros k1 k2 i H1 H2. assert (E : OCall k1 = OCall k2) by (by eapply (s_distinct _ _ _ HS)). congruence.
  - exact Hdone.
  - exists (map (index_of st) (listed_owners (visible g) st)). rewrite Hr.
    assert (Hm : has_message st = true \/ sn_args (visible g) <> ∅).
    { destruct Hsays as [Hv|]; [left|by right]. destruct (has_message st) eqn:E; [done|].
      apply (s_message _ _ _ HS) in E. by rewrite (s_text _ _ _ HS) in E. }
    pose proof (output_listed (visible g) st c HF Hm) as Hl. split; [exact Hl|]. split.
    + apply NoDup_indices; [apply HS|by eapply listed_owned|by eapply listed_NoDup].
    + intros i. split.
      * intros Hi. apply list_elem_of_lookup in Hi as [j Hj]. destruct (Forall2_lookup_l _ _ _ _ _ Hl Hj) as (o & _ & it & d & Hit & _).
        by exists it.
      * intros [it Hi]. eapply (done_listed (visible g) st c HF); [done|by eapply Hdone].
Qed.

Lemma completed_output st :
  rr_Output (completed_response itemIDs (st <| cs_CompletedSent := true |>)) = chatOutput itemIDs st.
Proof.
  assert (E : forall l n, finished_calls itemIDs (st <| cs_CompletedSent := true |>) l n = finished_calls itemIDs st l n).
  { induction l as [|k l IH]; intros n; [done|]. simpl. destruct (cs_ToolCalls st !! k); by rewrite IH. }
  unfold completed_response, chatOutput. simpl. destruct (cs_Reasoning st =?s ""); destruct (negb _ || _); by rewrite E.
Qed.

Lemma finalize_after g st c :
  numbered_from_0 g -> says_something g -> Top g st c -> shown st ->
  let r := FinalizeChatCompletionsResponsesStream itemIDs st in
  exists c' resp, accepts answer_step c r.2 = Some c' /\ answered g (cs_ToolOutputIndex r.1) c' resp.
Proof.
  intros Hnum Hsays HT Hs. unfold FinalizeChatCompletionsResponsesStream.
  assert (Hc : cs_CompletedSent st = false) by (destruct HT as [? [[] _]]; done). rewrite Hc.
  assert (H : after c ((ensureChatToResponsesCreated ;>> closeChatReasoningItem ;>>
     synthesizeChatReasoningFallbackMessage itemIDs ;>> close_message ;>> closeChatToolItems ;>>
     silent (fun st => st <| cs_CompletedSent := true |>) ;>>
     chatToResponsesEvent "response.completed" (fun st =>
       zero_ResponsesStreamEvent <| rse_Response := Some (completed_response itemIDs st) |>)) st)
     (fun st' c' => exists resp, answered g (cs_ToolOutputIndex st') c' resp)).
  { apply after_then with (fun st' c' => Between g st' c' /\ shown st').
    { destruct (created_sim g st c HT) as (c' & Ha & HB). exists c'. split; [done|]. split; [done|].
      by apply keeps_text_shown; [apply created_keeps|]. }
    intros st1 c1 [HB1 Hs1]. apply after_then with (fun st' c' => NotOpen g st' c' /\ shown st').
    { destruct (close_reasoning_sim g st1 c1 HB1) as (c' & Ha & HB). exists c'. split; [done|]. split; [done|].
      by apply keeps_text_shown; [apply close_reasoning_keeps|]. }
    intros st2 c2 HB2. apply after_then with (NotOpen (visible g)); [by apply fallback_sim|].
    intros st3 c3 HB3. apply after_then with (Fin [OMessage] (visible g)); [by apply close_message_sim|].
    intros st4 c4 HB4. apply after_then with (Fin (all_closed g) (visible g)).
    { unfold closeChatToolItems. rewrite (indices_calls _ _ _ (proj1 (proj1 HB4))).
      apply close_calls_sim; [apply NoDup_seqZ|by intros k _ ?%list_elem_of_singleton|done]. }
    intros st5 c5 HB5. apply after_silent. set (st6 := st5 <| cs_CompletedSent := true |>).
    exists (MkAnswer (an_sequence c5 + 1) true (an_items c5) (Some (completed_response itemIDs st6))).
    pose proof HB5 as [[HS5 HK5] Ho5]. split.
    - simpl. destruct HK5 as [[K1 K1'] K2 K3 _ _]. unfold answer_step. rewrite K2, K1', K3. simpl. rewrite Z.eqb_refl. reflexivity.
    - exists (completed_response itemIDs st6). exact (final_answered g st5 c5 (completed_response itemIDs st6) Hnum Hsays HB5 (completed_output st5)). }
  destruct H as (c' & Ha & resp & Hans). by exists c', resp.
Qed.
End Stream.

(** What a Chat Completions upstream sends: reasoning before the text and the calls, calls
    numbered 0, 1, 2, ..., and not an answer of nothing (or of blank reasoning only). *)
Definition orderly (chunks : list ChatCompletionsChunk) : Prop :=
  thinks_first nothing_sent (concat (map chk_Choices chunks)) = true
  /\ numbered_from_0 (sent chunks) /\ says_something (sent chunks).


Definition delta_chunk (delta : ChatDelta) : ChatCompletionsChunk :=
  zero_ChatCompletionsChunk <| chk_Choices := [zero_ChatChunkChoice <| ccc_Delta := delta |>] |>.
Definition reasoning_chunk (s : string) := delta_chunk (zero_ChatDelta <| cdl_ReasoningContent := Some s |>).
Definition text_chunk (s : string) := delta_chunk (zero_ChatDelta <| cdl_Content := Some s |>).
Definition call_chunk (i : Z) (id name arguments : string) :=
  delta_chunk (zero_ChatDelta <| cdl_ToolCalls :=
    [MkChatToolCall (Some i) id "function" (MkChatFunctionCall name arguments)] |>).
Definition sample_chunks : list ChatCompletionsChunk :=
  [reasoning_chunk "hm"; text_chunk "Reading."; call_chunk 0 "call_a" "Read" ""; call_chunk 0 "" "" "[1]"].
Definition sample_stream := stream (H := chat_answer_converter (fun _ => "item_0")) sample_chunks
  (NewChatCompletionsToResponsesStreamState "resp_0" "m" 0 no_tables).


(** What the items of a stream's client are: type, deltas, whether done. *)
Definition client_items (chunks : list ChatCompletionsChunk) : option (list (string * string * bool)) :=
  c ← accepts answer_step new_answer
        (stream (H := chat_answer_converter (fun _ => "item_0")) chunks
           (NewChatCompletionsToResponsesStreamState "resp_0" "m" 0 no_tables)).2;
  Some (map (fun e => (it_type e.2, it_text e.2, match it_done e.2 with Some _ => true | None => false end))
          (map_to_list (an_items c))).
(** The items the terminal response lists. *)
Definition listed_types (chunks : list ChatCompletionsChunk) : option (list string) :=
  c ← accepts answer_step new_answer
        (stream (H := chat_answer_converter (fun _ => "item_0")) chunks
           (NewChatCompletionsToResponsesStreamState "resp_0" "m" 0 no_tables)).2;
  r ← an_response c;
  Some (map ro_Type (rr_Output r)).

(** What [orderly] leaves out.  A call whose number is not below the number of calls is
    left open and not listed; an answer of blank reasoning lists a message that was never
    announced; reasoning after the text comes for an item that is done. *)
Example skipped_call_left_open :
  client_items [call_chunk 1 "call_a" "Read" "[1]"] = Some [("function_call", "[1]", false)]
  /\ listed_types [call_chunk 1 "call_a" "Read" "[1]"] = Some [].
Proof. split; vm_compute; reflexivity. Qed.
Example silent_message_listed :
  client_items [reasoning_chunk " "] = Some [("reasoning", " ", true)]
  /\ listed_types [reasoning_chunk " "] = Some ["reasoning"; "message"].
Proof. split; vm_compute; reflexivity. Qed.
Example late_reasoning_refused :
  client_items [reasoning_chunk "a"; text_chunk "b"; reasoning_chunk "c"] = None.
Proof. vm_compute. reflexivity. Qed.
