(* ===== verification/ChatAnthropicBridge.v ===== *)
(** * Anthropic Messages over a Chat Completions upstream, directly

    [src/backend/internal/pkg/apicompat/chatcompletions_anthropic_bridge.go]: requests
    from Anthropic to Chat Completions, answers and streams of answers back, without
    the Responses protocol in between.  Random ids are the sequence [itemIDs] drawn in
    order; the upstream's index of a call is [ctc_Index]. *)

From stdpp Require Import sorting.
From S2P Require Import Prelude Json JsonCodec GoStrings ModelNames ToolSchema Apicompat RequestCodec ResponsesToAnthropic AnthropicToResponses ResponsesToAnthropicRequest AnthropicToResponsesRequest ChatToResponses ChatToolTables ChatAnswerToResponses ResponsesToChatRequest.
Local Open Scope string_scope.
Local Open Scope Z_scope.
Local Open Scope list_scope.
Local Open Scope go_scope.

(** ** Requests *)

Definition joinResponsesContentPartText (parts : list ResponsesContentPart) : string :=
  Join (map rcp_Text
          (List.filter (fun p => (rcp_Type p =?s "input_text") && negb (rcp_Text p =?s "")) parts))
    blank_line.

Definition tool_result_message (b : AnthropicContentBlock) : ChatMessage :=
  tool_message (acb_ToolUseID b) (convertToolResultOutput b).1.
Definition result_image_parts (b : AnthropicContentBlock) : list ChatContentPart :=
  map (fun ip => toolOutputImagePart (rcp_ImageURL ip)) (convertToolResultOutput b).2.
Definition user_chat_parts (b : AnthropicContentBlock) : list ChatContentPart :=
  if is_type "text" b then if acb_Text b =?s "" then [] else [text_chat_part (acb_Text b)]
  else if is_type "image" b then
    let uri := anthropicImageToDataURI (acb_Source b) in
    if uri =?s "" then [] else [toolOutputImagePart uri]
  else [].

Definition anthropicUserToChatMessages (raw : string) : result (list ChatMessage) :=
  match unmarshal_string raw with
  | Some s => inr [chat_message "user" (json_quote s)]
  | None =>
      blocks ← ok_or ErrDecode (unmarshal_blocks raw);
      let results := List.filter (is_type "tool_result") blocks in
      let out := map tool_result_message results in
      let parts := flat_map user_chat_parts blocks ++ flat_map result_image_parts results in
      if forallb is_text_part parts then
        inr (out ++ match map ccp_Text parts with
                    | [] => []
                    | textParts => [chat_message "user" (json_quote (Join textParts blank_line))]
                    end)
      else content ← ok_or ErrMarshal (marshal_chat_parts parts);
           inr (out ++ [chat_message "user" content])
  end.

Definition anthropicThinkingToReasoningContent (blocks : list AnthropicContentBlock)
    (hasToolCalls : bool) : string :=
  if negb hasToolCalls then ""
  else Join (map acb_Thinking
               (List.filter (fun b => is_type "thinking" b && negb (acb_Thinking b =?s "")) blocks))
         (bytes_str [10%nat]).

Definition tool_use_call (b : AnthropicContentBlock) : ChatToolCall :=
  chat_call (acb_ID b) (acb_Name b) (if acb_Input b =?s "" then "{}" else acb_Input b).

Definition anthropicAssistantToChatMessages (raw : string) : result (list ChatMessage) :=
  match unmarshal_string raw with
  | Some s => inr [chat_message "assistant" (json_quote s)]
  | None =>
      blocks ← ok_or ErrDecode (unmarshal_blocks raw);
      let text := extractAnthropicTextFromBlocks blocks in
      let calls := map tool_use_call (List.filter (is_type "tool_use") blocks) in
      inr [(chat_message "assistant" (if text =?s "" then "" else json_quote text))
             <| cm_ToolCalls := calls |>
             <| cm_ReasoningContent := anthropicThinkingToReasoningContent blocks
                  match calls with [] => false | _ => true end |>]
  end.

Definition anthropicMsgToChatMessages (m : AnthropicMessage) : result (list ChatMessage) :=
  if am_Role m =?s "assistant" then anthropicAssistantToChatMessages (am_Content m)
  else anthropicUserToChatMessages (am_Content m).
Fixpoint chat_messages (msgs : list AnthropicMessage) : result (list ChatMessage) :=
  match msgs with
  | [] => inr []
  | m :: msgs =>
      converted ← anthropicMsgToChatMessages m;
      rest ← chat_messages msgs;
      inr (converted ++ rest)
  end.
Definition system_message (system : string) : result (list ChatMessage) :=
  if system =?s "" then inr [] else
  sysParts ← parseAnthropicSystemContentParts system;
  let text := joinResponsesContentPartText sysParts in
  inr (if text =?s "" then [] else [chat_message "system" (json_quote text)]).
Definition anthropicToChatMessages (system : string) (msgs : list AnthropicMessage) :
    result (list ChatMessage) :=
  head ← system_message system;
  messages ← chat_messages msgs;
  inr (normalizeChatMessages (head ++ messages)).

Definition anthropicToolsToChatTools (tools : list AnthropicTool) : list ChatTool :=
  map (fun t => declare_function (at_Name t) (at_Description t)
                  (normalizeToolParameters (at_InputSchema t)) (Some false))
    (List.filter (fun t => negb (HasPrefix (at_Type t) "web_search")) tools).

(** Go's nil is the empty text. *)
Definition convertAnthropicToolChoiceToChat (raw : string) (declared : gset string) : result string :=
  '(type, name) ← ok_or ErrToolChoice
    (d_struct [("type", field fst (fun v c => (v, c.2)) d_string);
               ("name", field snd (fun v c => (c.1, v)) d_string)] raw ("", ""));
  inr (if type =?s "auto" then json_quote "auto"
       else if type =?s "any" then json_quote "required"
       else if type =?s "none" then json_quote "none"
       else if type =?s "tool" then if name =?s "" then "" else named_choice declared name
       else "").

Section Request.
Context `{U : Unicode}.

Definition AnthropicToChatCompletionsRequest (req : AnthropicRequest) : result ChatCompletionsRequest :=
  messages ← anthropicToChatMessages (areq_System req) (areq_Messages req);
  let sampling := negb (isReasoningModel (areq_Model req)) in
  let tools := anthropicToolsToChatTools (areq_Tools req) in
  toolChoice ← (match tools with
                | [] => inr ""
                | _ => if areq_ToolChoice req =?s "" then inr ""
                       else convertAnthropicToolChoiceToChat (areq_ToolChoice req)
                              (list_to_set (omap (fun t => cfn_Name <$> cto_Function t) tools))
                end);
  inr (zero_ChatCompletionsRequest
    <| ccrq_Model := areq_Model req |>
    <| ccrq_Messages := messages |>
    <| ccrq_Stream := areq_Stream req |>
    <| ccrq_Temperature := if sampling then areq_Temperature req else None |>
    <| ccrq_TopP := if sampling then areq_TopP req else None |>
    <| ccrq_MaxCompletionTokens := clamp_tokens (areq_MaxTokens req) |>
    <| ccrq_Tools := tools |>
    <| ccrq_ToolChoice := toolChoice |>
    <| ccrq_ReasoningEffort := anthropicReasoningEffort req |>
    <| ccrq_ParallelToolCalls := Some true |>).
End Request.

(** ** A finished answer *)

Definition thinking_block (text : string) : AnthropicContentBlock :=
  zero_AnthropicContentBlock <| acb_Type := "thinking" |> <| acb_Thinking := text |>.
Definition answer_text_block (text : string) : AnthropicContentBlock :=
  zero_AnthropicContentBlock <| acb_Type := "text" |> <| acb_Text := text |>.
Definition tool_call_block (toolCall : ChatToolCall) : AnthropicContentBlock :=
  let name := cfc_Name (ctc_Function toolCall) in
  zero_AnthropicContentBlock <| acb_Type := "tool_use" |>
    <| acb_ID := fromResponsesCallID (ctc_ID toolCall) |> <| acb_Name := name |>
    <| acb_Input := sanitizeAnthropicToolUseInput name
         (call_arguments_or_empty (cfc_Arguments (ctc_Function toolCall))) |>.

Definition chatMessageToAnthropicBlocks (message : ChatMessage) : list AnthropicContentBlock :=
  let reasoning := message_reasoning message in
  let text := answer_text message in
  (if reasoning =?s "" then [] else [thinking_block reasoning])
  ++ (if negb (text =?s "") || negb (has_calls message) then [answer_text_block text] else [])
  ++ map tool_call_block (cm_ToolCalls message).

Definition chatFinishReasonToAnthropicStopReason (reason : string) (blocks : list AnthropicContentBlock) :
    string :=
  if reason =?s "length" then "max_tokens"
  else if reason =?s "tool_calls" then "tool_use"
  else if containsAnthropicToolUseBlock blocks then "tool_use" else "end_turn".

Definition chatUsageToAnthropicUsage (usage : option ChatUsage) : AnthropicUsage :=
  match usage with
  | None => zero_AnthropicUsage
  | Some u =>
      let '(cachedTokens, cacheCreationTokens) :=
        match cu_PromptTokensDetails u with
        | Some d => (ctd_CachedTokens d, if 0 <? ctd_CacheWriteTokens d then ctd_CacheWriteTokens d
                                         else ctd_CacheCreationTokens d)
        | None => (0, 0)
        end in
      let inputTokens := int_sub (int_sub (cu_PromptTokens u) cachedTokens) cacheCreationTokens in
      zero_AnthropicUsage
        <| au_InputTokens := if inputTokens <? 0 then 0 else inputTokens |>
        <| au_OutputTokens := cu_CompletionTokens u |>
        <| au_CacheReadInputTokens := cachedTokens |>
        <| au_CacheCreationInputTokens := cacheCreationTokens |>
  end.

(** [fresh] is what [generateResponsesID] returns.  The stop reason set in the branch of
    the choices is never empty, so the fallback is for an answer without choices. *)
Definition ChatCompletionsResponseToAnthropic (fresh : string) (resp : option ChatCompletionsResponse)
    (model : string) : AnthropicResponse :=
  let r := default zero_ChatCompletionsResponse resp in
  let '(content, stop) :=
    match ccr_Choices r with
    | choice :: _ =>
        let content := chatMessageToAnthropicBlocks (cc_Message choice) in
        (content, chatFinishReasonToAnthropicStopReason (cc_FinishReason choice) content)
    | [] => ([], "")
    end in
  let content := match content with [] => [answer_text_block ""] | _ => content end in
  zero_AnthropicResponse
    <| ar_ID := if ccr_ID r =?s "" then fresh else ccr_ID r |>
    <| ar_Type := "message" |> <| ar_Role := "assistant" |>
    <| ar_Model := if model =?s "" then ccr_Model r else model |>
    <| ar_Content := content |>
    <| ar_StopReason := AnthropicStopReasonPtr
         (if stop =?s "" then chatFinishReasonToAnthropicStopReason "" content else stop) |>
    <| ar_Usage := chatUsageToAnthropicUsage (ccr_Usage r) |>.

(** ** The stream state *)

Record ChatCompletionsToAnthropicStreamState := MkCAState {
  ca_MessageStartSent : bool;
  ca_MessageStopSent : bool;
  ca_ContentBlockIndex : Z;
  ca_ContentBlockOpen : bool;
  ca_CurrentBlockType : string;
  ca_CurrentToolName : string;
  ca_CurrentToolHadDelta : bool;
  ca_HasToolCall : bool;
  ca_toolBlockIndex : gmap Z Z;
  ca_toolAnnounced : gmap Z bool;
  ca_toolName : gmap Z string;
  ca_pendingToolCallID : gmap Z string;
  ca_pendingToolArgs : gmap Z string;
  ca_FinishReason : string;
  ca_InputTokens : Z;
  ca_OutputTokens : Z;
  ca_CacheReadInputTokens : Z;
  ca_CacheCreationInputTokens : Z;
  ca_ResponseID : string;
  ca_Model : string;
  ca_Created : Z;
  ca_IDs : nat;
}.
#[export] Instance eta_CAState : Eta ChatCompletionsToAnthropicStreamState := fun r =>
  MkCAState (ca_MessageStartSent r) (ca_MessageStopSent r) (ca_ContentBlockIndex r)
    (ca_ContentBlockOpen r) (ca_CurrentBlockType r) (ca_CurrentToolName r)
    (ca_CurrentToolHadDelta r) (ca_HasToolCall r) (ca_toolBlockIndex r) (ca_toolAnnounced r)
    (ca_toolName r) (ca_pendingToolCallID r) (ca_pendingToolArgs r) (ca_FinishReason r)
    (ca_InputTokens r) (ca_OutputTokens r) (ca_CacheReadInputTokens r)
    (ca_CacheCreationInputTokens r) (ca_ResponseID r) (ca_Model r) (ca_Created r) (ca_IDs r).

Definition NewChatCompletionsToAnthropicStreamState (id model : string) (now : Z) :
    ChatCompletionsToAnthropicStreamState :=
  MkCAState false false 0 false "" "" false false ∅ ∅ ∅ ∅ ∅ "" 0 0 0 0 id model now 0.

Local Abbreviation State := ChatCompletionsToAnthropicStreamState.
Local Abbreviation Events := (list AnthropicStreamEvent).

Definition ensureCCAnthropicMessageStart (st : State) : State * Events :=
  if ca_MessageStartSent st then (st, [])
  else (st <| ca_MessageStartSent := true |>,
        [zero_AnthropicStreamEvent <| ase_Type := "message_start" |>
           <| ase_Message := Some (zero_AnthropicResponse
                <| ar_ID := ca_ResponseID st |> <| ar_Type := "message" |>
                <| ar_Role := "assistant" |> <| ar_Content := [] |>
                <| ar_Model := ca_Model st |> <| ar_StopReason := None |>) |>]).

(** ** Blocks *)

Definition closeCCAnthropicBlock (st : State) : State * Events :=
  if negb (ca_ContentBlockOpen st) then (st, [])
  else
    let idx := ca_ContentBlockIndex st in
    (st <| ca_ContentBlockOpen := false |> <| ca_ContentBlockIndex := idx + 1 |>
        <| ca_CurrentBlockType := "" |> <| ca_CurrentToolName := "" |>
        <| ca_CurrentToolHadDelta := false |>,
     (if (ca_CurrentBlockType st =?s "tool_use") && negb (ca_CurrentToolHadDelta st)
      then [block_delta idx (input_json_delta "{}")] else []) ++ [block_stop idx]).

Definition closeCCAnthropicBlockIfOpen (blockType : string) (st : State) : State * Events :=
  if negb (ca_ContentBlockOpen st) || negb (ca_CurrentBlockType st =?s blockType) then (st, [])
  else closeCCAnthropicBlock st.

Definition start_block (blockType : string) (b : AnthropicContentBlock) (st : State) : State * Events :=
  (st <| ca_ContentBlockOpen := true |> <| ca_CurrentBlockType := blockType |>,
   [block_start (ca_ContentBlockIndex st) b]).
Definition ensure_block (blockType : string) (b : AnthropicContentBlock) (st : State) : State * Events :=
  if ca_ContentBlockOpen st && (ca_CurrentBlockType st =?s blockType) then (st, [])
  else (closeCCAnthropicBlock ;>> start_block blockType b) st.
Definition ensureCCAnthropicThinkingBlock : State -> State * Events := ensure_block "thinking" (thinking_block "").
Definition ensureCCAnthropicTextBlock : State -> State * Events := ensure_block "text" (answer_text_block "").

Definition ccAnthropicDelta (delta : AnthropicDelta) (st : State) : State * Events :=
  (st, if ca_ContentBlockOpen st then [block_delta (ca_ContentBlockIndex st) delta] else []).

(** ** Tool calls *)

Definition announceCCAnthropicToolBlock (idx : Z) (callID name : string) (st : State) : State * Events :=
  let blockIdx := ca_ContentBlockIndex st in
  let pending := default "" (ca_pendingToolArgs st !! idx) in
  let flushes := negb (pending =?s "") in
  (st <| ca_toolBlockIndex := <[idx := blockIdx]> (ca_toolBlockIndex st) |>
      <| ca_toolAnnounced := <[idx := true]> (ca_toolAnnounced st) |>
      <| ca_toolName := <[idx := name]> (ca_toolName st) |>
      <| ca_CurrentToolName := name |>
      <| ca_CurrentToolHadDelta := flushes |>
      <| ca_ContentBlockOpen := true |>
      <| ca_CurrentBlockType := "tool_use" |>
      <| ca_pendingToolCallID := delete idx (ca_pendingToolCallID st) |>
      <| ca_pendingToolArgs := if flushes then delete idx (ca_pendingToolArgs st)
                               else ca_pendingToolArgs st |>,
   block_start blockIdx (zero_AnthropicContentBlock <| acb_Type := "tool_use" |>
       <| acb_ID := fromResponsesCallID callID |> <| acb_Name := name |> <| acb_Input := "{}" |>)
     :: (if flushes then [block_delta blockIdx (input_json_delta pending)] else [])).

Section Stream.
Context (itemIDs : nat -> string).

(** The id of a call that arrives for the first time. *)
Definition draw_call_id (id : string) (st : State) : string * State :=
  if id =?s "" then (itemIDs (ca_IDs st), st <| ca_IDs := S (ca_IDs st) |>) else (id, st).

Definition announce_or_defer (idx : Z) (callID name : string) (st : State) : State * Events :=
  if name =?s "" then
    (st <| ca_toolAnnounced := <[idx := false]> (ca_toolAnnounced st) |>
        <| ca_pendingToolCallID := <[idx := callID]> (ca_pendingToolCallID st) |>, [])
  else announceCCAnthropicToolBlock idx callID name st.
Definition new_tool_call (idx : Z) (toolCall : ChatToolCall) : State -> State * Events :=
  closeCCAnthropicBlock ;>>
  (fun st =>
     let '(callID, st) := draw_call_id (ctc_ID toolCall) (st <| ca_HasToolCall := true |>) in
     announce_or_defer idx callID (cfc_Name (ctc_Function toolCall)) st).

Definition open_call (idx : Z) (toolCall : ChatToolCall) (st : State) : State * Events :=
  match ca_toolAnnounced st !! idx with
  | None => new_tool_call idx toolCall st
  | Some announced =>
      let name := cfc_Name (ctc_Function toolCall) in
      if negb announced && negb (name =?s "") then
        let callID := if ctc_ID toolCall =?s "" then default "" (ca_pendingToolCallID st !! idx)
                      else ctc_ID toolCall in
        (closeCCAnthropicBlock ;>> announceCCAnthropicToolBlock idx callID name) st
      else (st, [])
  end.

(** A fragment for a block that is announced, or for later. *)
Definition call_fragment (idx : Z) (arguments : string) (st : State) : State * Events :=
  if arguments =?s "" then (st, [])
  else if is_set (ca_toolAnnounced st) idx then
    let blockIdx := default 0 (ca_toolBlockIndex st !! idx) in
    (if ca_ContentBlockOpen st && (blockIdx =? ca_ContentBlockIndex st)
     then st <| ca_CurrentToolHadDelta := true |> else st,
     [block_delta blockIdx (input_json_delta arguments)])
  else
    (st <| ca_pendingToolArgs :=
       <[idx := default "" (ca_pendingToolArgs st !! idx) +:+ arguments]> (ca_pendingToolArgs st) |>, []).

Definition handleCCAnthropicToolCall (toolCall : ChatToolCall) : State -> State * Events :=
  let idx := default 0 (ctc_Index toolCall) in
  open_call idx toolCall ;>> call_fragment idx (cfc_Arguments (ctc_Function toolCall)).

(** ** A chunk *)

Definition skip_event (st : State) : State * Events := (st, []).
Fixpoint each {A} (f : A -> State -> State * Events) (l : list A) : State -> State * Events :=
  match l with [] => skip_event | a :: l => f a ;>> each f l end.
Definition when_some (o : option string) (f : string -> State -> State * Events) : State -> State * Events :=
  match o with Some s => if s =?s "" then skip_event else f s | None => skip_event end.

Definition choice_events (choice : ChatChunkChoice) : State -> State * Events :=
  let delta := ccc_Delta choice in
  when_some (delta_reasoning delta) (fun s =>
    ensureCCAnthropicThinkingBlock ;>> ccAnthropicDelta (thinking_delta s)) ;>>
  when_some (cdl_Content delta) (fun s =>
    closeCCAnthropicBlockIfOpen "thinking" ;>> ensureCCAnthropicTextBlock ;>>
    ccAnthropicDelta (text_delta s)) ;>>
  each (fun toolCall => closeCCAnthropicBlockIfOpen "thinking" ;>> handleCCAnthropicToolCall toolCall)
    (cdl_ToolCalls delta) ;>>
  when_some (ccc_FinishReason choice) (fun r st => (st <| ca_FinishReason := r |>, [])).

Definition record_chat_chunk (chunk : ChatCompletionsChunk) (st : State) : State :=
  let st := if chk_ID chunk =?s "" then st else st <| ca_ResponseID := chk_ID chunk |> in
  let st := if (ca_Model st =?s "") && negb (chk_Model chunk =?s "")
            then st <| ca_Model := chk_Model chunk |> else st in
  match chk_Usage chunk with
  | Some usage =>
      let u := chatUsageToAnthropicUsage (Some usage) in
      st <| ca_InputTokens := au_InputTokens u |>
         <| ca_OutputTokens := au_OutputTokens u |>
         <| ca_CacheReadInputTokens := au_CacheReadInputTokens u |>
         <| ca_CacheCreationInputTokens := au_CacheCreationInputTokens u |>
  | None => st
  end.
Definition ChatCompletionsChunkToAnthropicEvents (chunk : ChatCompletionsChunk) : State -> State * Events :=
  (fun st => (record_chat_chunk chunk st, [])) ;>> ensureCCAnthropicMessageStart ;>>
  each choice_events (chk_Choices chunk).

(** ** The end *)

Definition ccFinishReasonToAnthropicStopReason (reason : string) (hasToolCall : bool) : string :=
  if reason =?s "length" then "max_tokens"
  else if reason =?s "tool_calls" then "tool_use"
  else if hasToolCall then "tool_use" else "end_turn".

(** [sort.Ints] of the keys. *)
Definition pending_indices (st : State) : list Z := merge_sort Z.le (map fst (map_to_list (ca_pendingToolCallID st))).
Definition announce_pending (idx : Z) : State -> State * Events :=
  closeCCAnthropicBlock ;>>
  (fun st => announceCCAnthropicToolBlock idx (default "" (ca_pendingToolCallID st !! idx)) "" st).

Definition final_usage (st : State) : AnthropicUsage :=
  zero_AnthropicUsage
    <| au_InputTokens := ca_InputTokens st |> <| au_OutputTokens := ca_OutputTokens st |>
    <| au_CacheReadInputTokens := ca_CacheReadInputTokens st |>
    <| au_CacheCreationInputTokens := ca_CacheCreationInputTokens st |>.
Definition end_message (st : State) : State * Events :=
  (st <| ca_MessageStopSent := true |>,
   [zero_AnthropicStreamEvent <| ase_Type := "message_delta" |>
      <| ase_Delta := Some (zero_AnthropicDelta <| ad_StopReason :=
           ccFinishReasonToAnthropicStopReason (ca_FinishReason st) (ca_HasToolCall st) |>) |>
      <| ase_Usage := Some (final_usage st) |>;
    message_stop]).

Definition FinalizeChatCompletionsAnthropicStream (st : State) : State * Events :=
  if ca_MessageStopSent st then (st, [])
  else
    (ensureCCAnthropicMessageStart ;>>
     (fun st => each announce_pending (pending_indices st) st) ;>>
     closeCCAnthropicBlock ;>> end_message) st.

#[export] Instance chat_anthropic_converter : Converter State ChatCompletionsChunk AnthropicStreamEvent := {
  conv_step := ChatCompletionsChunkToAnthropicEvents;
  conv_finalize := FinalizeChatCompletionsAnthropicStream;
}.
End Stream.
