(* ===== verification/ChatAnthropicBridgeProofs.v ===== *)
(** * An Anthropic client on a Chat Completions upstream

    The stream of [ChatAnthropicBridge] read by a strict Anthropic client: when the
    entries of each call come one after another ([calls_in_turn]) it accepts every event,
    and the message it has assembled at the end is the upstream's answer
    ([direct_stream_assembles]). *)

From stdpp Require Import sorting.
From S2P Require Import Prelude Json JsonCodec GoStrings ToolSchema Apicompat RequestCodec ResponsesToAnthropic ChatAnswerToResponses ChatStreams ChatAnthropicBridge.
Local Open Scope string_scope.
Local Open Scope Z_scope.
Local Open Scope list_scope.
Local Open Scope go_scope.

(** ** The client *)

Inductive Phase := Waiting | Running | Ended | Stopped.
#[export] Instance Phase_eq_dec : EqDecision Phase.
Proof. solve_decision. Defined.

(** What a client has: the blocks so far, each with its type and what its deltas add up
    to, and whether the last one is open. *)
Record Client := MkClient {
  cl_phase : Phase;
  cl_blocks : list (string * string);
  cl_open : bool;
}.
Definition new_client : Client := MkClient Waiting [] false.

(** What a delta adds to a block of type [t]. *)
Definition payload (t : string) (d : AnthropicDelta) : option string :=
  if (t =?s "text") && (ad_Type d =?s "text_delta") then Some (ad_Text d)
  else if (t =?s "thinking") && (ad_Type d =?s "thinking_delta") then Some (ad_Thinking d)
  else if (t =?s "tool_use") && (ad_Type d =?s "input_json_delta") then Some (ad_PartialJSON d)
  else None.

Definition is_running (c : Client) : bool := bool_decide (cl_phase c = Running).
Definition client_step (c : Client) (e : AnthropicStreamEvent) : option Client :=
  let t := ase_Type e in
  let bs := cl_blocks c in
  if t =?s "message_start" then
    if bool_decide (cl_phase c = Waiting) then Some (MkClient Running bs (cl_open c)) else None
  else if t =?s "content_block_start" then
    match ase_Index e, ase_ContentBlock e with
    | Some i, Some b =>
        if is_running c && negb (cl_open c) && (i =? Z.of_nat (length bs))
        then Some (MkClient Running (bs ++ [(acb_Type b, "")]) true) else None
    | _, _ => None
    end
  else if t =?s "content_block_delta" then
    match ase_Index e, ase_Delta e with
    | Some i, Some d =>
        if is_running c && cl_open c && (i + 1 =? Z.of_nat (length bs)) then
          '(t, s) ← bs !! Z.to_nat i;
          p ← payload t d;
          Some (MkClient Running (<[Z.to_nat i := (t, s +:+ p)]> bs) true)
        else None
    | _, _ => None
    end
  else if t =?s "content_block_stop" then
    match ase_Index e with
    | Some i => if is_running c && cl_open c && (i + 1 =? Z.of_nat (length bs))
                then Some (MkClient Running bs false) else None
    | None => None
    end
  else if t =?s "message_delta" then
    if is_running c && negb (cl_open c) then Some (MkClient Ended bs false) else None
  else if t =?s "message_stop" then
    if bool_decide (cl_phase c = Ended) then Some (MkClient Stopped bs false) else None
  else None.

(** The texts of the blocks of one type, in order. *)
Definition of_type (t : string) (b : string * string) : string := if b.1 =?s t then b.2 else "".
Definition typed (t : string) (bs : list (string * string)) : string := str_concat (map (of_type t) bs).

(** ** The relation between converter and client *)

(** What the client assembles of the arguments [a]: the block of a call without any is
    closed with an empty object. *)
Definition delivered (a : string) : string := if a =?s "" then "{}" else a.

Local Abbreviation State := ChatCompletionsToAnthropicStreamState.

Definition current (st : State) (i : Z) : Prop := ca_ContentBlockOpen st = true /\ i = ca_ContentBlockIndex st.
(** Call [k], its arguments [a] so far. *)
Definition announced_call (st : State) (c : Client) (k : Z) (a : option string) : Prop :=
  ca_pendingToolCallID st !! k = None /\
  exists i s a', ca_toolBlockIndex st !! k = Some i /\ 0 <= i
    /\ cl_blocks c !! Z.to_nat i = Some ("tool_use", s) /\ a = Some a'
    /\ (current st i -> if ca_CurrentToolHadDelta st then s = a' /\ a' <> "" else s = "" /\ a' = "")
    /\ (~ current st i -> s = delivered a').
Definition call_tracked (st : State) (c : Client) (k : Z) (a : option string) : Prop :=
  match ca_toolAnnounced st !! k with
  | Some true => announced_call st c k a
  | Some false =>
      a = Some (default "" (ca_pendingToolArgs st !! k)) /\ is_Some (ca_pendingToolCallID st !! k)
      /\ ca_toolBlockIndex st !! k = None
  | None =>
      a = None /\ ca_pendingToolArgs st !! k = None /\ ca_pendingToolCallID st !! k = None
      /\ ca_toolBlockIndex st !! k = None
  end.

Record B (started : bool) (g : Sent) (st : State) (c : Client) : Prop := {
  b_started : ca_MessageStartSent st = started;
  b_stopped : ca_MessageStopSent st = false;
  b_phase : cl_phase c = if started then Running else Waiting;
  b_length : Z.of_nat (length (cl_blocks c))
             = ca_ContentBlockIndex st + (if ca_ContentBlockOpen st then 1 else 0);
  b_index : 0 <= ca_ContentBlockIndex st;
  b_open : cl_open c = ca_ContentBlockOpen st;
  b_type : ca_ContentBlockOpen st = true -> exists s,
    cl_blocks c !! Z.to_nat (ca_ContentBlockIndex st) = Some (ca_CurrentBlockType st, s);
  b_text : typed "text" (cl_blocks c) = sn_text g;
  b_thinking : typed "thinking" (cl_blocks c) = sn_thinking g;
  b_calls : forall k, call_tracked st c k (sn_args g !! k);
  b_inj : forall k1 k2 i, ca_toolBlockIndex st !! k1 = Some i -> ca_toolBlockIndex st !! k2 = Some i -> k1 = k2;
  b_owned : forall i s, cl_blocks c !! i = Some ("tool_use", s) ->
    exists k, ca_toolBlockIndex st !! k = Some (Z.of_nat i);
}.
(** With no block open; with one of type [t]. *)
Definition Bclosed g st c := B true g st c /\ ca_ContentBlockOpen st = false.
Definition Bin (t : string) g st c :=
  B true g st c /\ ca_ContentBlockOpen st = true /\ ca_CurrentBlockType st = t.

(** ** Assembled texts *)

Lemma typed_app t l1 l2 : typed t (l1 ++ l2) = typed t l1 +:+ typed t l2.
Proof. unfold typed. by rewrite map_app, str_concat_app. Qed.
Lemma typed_snoc t bs t' s : typed t (bs ++ [(t', s)]) = typed t bs +:+ of_type t (t', s).
Proof. rewrite typed_app. unfold typed at 2. cbn [map]. by rewrite str_concat_single. Qed.

(** A delta to a block of another type, to the last block. *)
Lemma typed_insert_other t bs i t' s s' :
  bs !! i = Some (t', s) -> t' <> t -> typed t (<[i := (t', s')]> bs) = typed t bs.
Proof.
  intros Hi Hne. unfold typed. f_equal. change (map (of_type t) (<[i := (t', s')]> bs) = map (of_type t) bs).
  rewrite (list_fmap_insert (of_type t)). apply list_insert_id.
  rewrite list_lookup_fmap, Hi. cbn [fmap option_fmap option_map]. unfold of_type. cbn [fst snd].
  apply String.eqb_neq in Hne. by rewrite Hne.
Qed.
Lemma typed_insert_last t bs i s p :
  bs !! i = Some (t, s) -> S i = length bs -> typed t (<[i := (t, s +:+ p)]> bs) = typed t bs +:+ p.
Proof.
  intros Hi Hl. destruct bs as [|b bs _] using rev_ind; [done|]. rewrite length_app in Hl. cbn [length] in Hl.
  assert (i = length bs) as -> by lia. rewrite lookup_app_r, Nat.sub_diag in Hi by done. injection Hi as ->.
  rewrite insert_app_r_alt, Nat.sub_diag by done. cbn [insert list_insert]. rewrite !typed_snoc.
  unfold of_type. cbn [fst snd]. by rewrite String.eqb_refl, str_app_assoc.
Qed.

(** ** Facts of the relation *)

Lemma no_current st i : ca_ContentBlockOpen st = false -> ~ current st i.
Proof. intros H [H' _]. congruence. Qed.

Lemma B_no_open g st c k i s :
  Bclosed g st c -> ca_toolBlockIndex st !! k = Some i -> cl_blocks c !! Z.to_nat i = Some ("tool_use", s) ->
  0 <= i -> i < ca_ContentBlockIndex st.
Proof.
  intros [[] Ho] _ Hl%lookup_lt_Some Hi. rewrite Ho in b_length0. lia.
Qed.

(** A call with a block is announced. *)
Lemma B_placed b g st c k i :
  B b g st c -> ca_toolBlockIndex st !! k = Some i ->
  ca_toolAnnounced st !! k = Some true /\ announced_call st c k (sn_args g !! k).
Proof.
  intros [] Hk. specialize (b_calls0 k). unfold call_tracked in b_calls0.
  destruct (ca_toolAnnounced st !! k) as [[]|]; [done| |]; rewrite Hk in b_calls0; naive_solver.
Qed.
Lemma B_placed_lt b g st c k i :
  B b g st c -> ca_toolBlockIndex st !! k = Some i -> 0 <= i < Z.of_nat (length (cl_blocks c)).
Proof.
  intros HB Hk. destruct (B_placed _ _ _ _ _ _ HB Hk) as (_ & _ & i' & s & a & Hi & H0 & Hl & _).
  rewrite Hk in Hi. injection Hi as <-. apply lookup_lt_Some in Hl. lia.
Qed.

Lemma B_unannounced b g st c k :
  B b g st c -> is_set (ca_toolAnnounced st) k = false ->
  args_of g k = default "" (ca_pendingToolArgs st !! k) /\ ca_toolBlockIndex st !! k = None.
Proof.
  intros [] Hk. specialize (b_calls0 k). unfold call_tracked, is_set, args_of in *.
  destruct (ca_toolAnnounced st !! k) as [[]|]; [done| |].
  - destruct b_calls0 as (-> & _ & ->). done.
  - destruct b_calls0 as (-> & -> & _ & ->). done.
Qed.

Lemma delivered_some a : a <> "" -> delivered a = a.
Proof. intros H%String.eqb_neq. unfold delivered. by rewrite H. Qed.

(** ** What the client does with an event *)

#[local] Arguments payload : simpl never.
Lemma client_block_start bs b i :
  i = Z.of_nat (length bs) ->
  client_step (MkClient Running bs false) (block_start i b) = Some (MkClient Running (bs ++ [(acb_Type b, "")]) true).
Proof. intros ->. unfold client_step. simpl. by rewrite Z.eqb_refl. Qed.
Lemma client_block_delta bs i d t s p :
  bs !! Z.to_nat i = Some (t, s) -> i + 1 = Z.of_nat (length bs) -> payload t d = Some p ->
  client_step (MkClient Running bs true) (block_delta i d)
  = Some (MkClient Running (<[Z.to_nat i := (t, s +:+ p)]> bs) true).
Proof. intros Hl Hi%Z.eqb_eq Hp. unfold client_step. simpl. rewrite Hi. simpl. rewrite Hl. simpl. by rewrite Hp. Qed.
Lemma client_block_stop bs i :
  i + 1 = Z.of_nat (length bs) ->
  client_step (MkClient Running bs true) (block_stop i) = Some (MkClient Running bs false).
Proof. intros E%Z.eqb_eq. unfold client_step. simpl. by rewrite E. Qed.
#[local] Arguments client_step : simpl never.
#[local] Arguments block_start : simpl never.
#[local] Arguments block_delta : simpl never.
#[local] Arguments block_stop : simpl never.
#[local] Arguments Z.add : simpl never.

(** ** Closing a block *)

Definition close_state (st : State) : State :=
  st <| ca_ContentBlockOpen := false |> <| ca_ContentBlockIndex := ca_ContentBlockIndex st + 1 |>
     <| ca_CurrentBlockType := "" |> <| ca_CurrentToolName := "" |> <| ca_CurrentToolHadDelta := false |>.

(** [blocks] are the client's after the empty object a silent call is closed with. *)
Lemma close_B g st c blocks :
  B true g st c -> ca_ContentBlockOpen st = true ->
  length blocks = length (cl_blocks c) ->
  (forall t, t <> "tool_use" -> typed t blocks = typed t (cl_blocks c)) ->
  (forall i s, blocks !! i = Some ("tool_use", s) -> exists s', cl_blocks c !! i = Some ("tool_use", s')) ->
  (forall i s, cl_blocks c !! i = Some ("tool_use", s) -> Z.of_nat i <> ca_ContentBlockIndex st ->
     blocks !! i = Some ("tool_use", s)) ->
  (forall s, cl_blocks c !! Z.to_nat (ca_ContentBlockIndex st) = Some ("tool_use", s) ->
     blocks !! Z.to_nat (ca_ContentBlockIndex st)
     = Some ("tool_use", if ca_CurrentToolHadDelta st then s else s +:+ "{}")) ->
  Bclosed g (close_state st) (MkClient Running blocks false).
Proof.
  intros HB Ho Hlen Htyped Hback Hkeep Hlast. split; [|done]. destruct HB. rewrite Ho in *.
  split; simpl; try done.
  - rewrite Hlen. lia.
  - lia.
  - by rewrite Htyped.
  - by rewrite Htyped.
  - intros k. specialize (b_calls0 k). unfold call_tracked in *. simpl.
    destruct (ca_toolAnnounced st !! k) as [[]|]; [|done..]. destruct b_calls0 as (Hp & i & s & a & Hi & H0 & Hl & Ha & Hc & Hd).
    split; [done|]. destruct (decide (i = ca_ContentBlockIndex st)) as [->|Hne].
    + exists (ca_ContentBlockIndex st), (if ca_CurrentToolHadDelta st then s else s +:+ "{}"), a.
      split_and!; [done..|by apply Hlast|done| |]; [by intros [? _]|intros _].
      assert (Hcur : current st (ca_ContentBlockIndex st)) by done. specialize (Hc Hcur).
      destruct (ca_CurrentToolHadDelta st); destruct Hc as [-> Hc]; [by rewrite delivered_some|by rewrite Hc].
    + exists i, s, a. split_and!; [done..| |done| |]; [apply Hkeep; [done|lia]|by intros [? _]|intros _].
      apply Hd. by intros [_ ?].
  - intros i s Hi. destruct (Hback i s Hi) as [s' Hs']. by eapply b_owned0.
Qed.

Lemma close_sim g : sim client_step (B true g) (Bclosed g) closeCCAnthropicBlock.
Proof.
  intros st c HB. unfold closeCCAnthropicBlock. destruct (ca_ContentBlockOpen st) eqn:Ho; simpl.
  2: { by exists c. }
  pose proof HB as []. rewrite Ho in *. destruct (b_type0 eq_refl) as [s Hs].
  destruct c as [ph bs op]. simpl in *. subst ph op.
  destruct ((ca_CurrentBlockType st =?s "tool_use") && negb (ca_CurrentToolHadDelta st)) eqn:Et.
  - bool_hyps. rewrite H in Hs. eexists. split.
    { simpl. erewrite client_block_delta by (done || lia). simpl. rewrite client_block_stop; [done|by rewrite length_insert]. }
    apply close_B with (c := MkClient Running bs true); simpl; try done.
    + by rewrite length_insert.
    + intros t Ht. by eapply typed_insert_other.
    + intros i s' Hi. destruct (decide (i = Z.to_nat (ca_ContentBlockIndex st))) as [->|Hne]; [by exists s|].
      rewrite list_lookup_insert_ne in Hi by done. by exists s'.
    + intros i s' Hi Hne. rewrite list_lookup_insert_ne; [done|lia].
    + intros s' Hs'. rewrite H0, list_lookup_insert_eq; [|by eapply lookup_lt_Some]. congruence.
  - eexists. split; [simpl; by rewrite client_block_stop|].
    apply close_B with (c := MkClient Running bs true); simpl; try done.
    + intros i s' Hi. by exists s'.
    + intros s' Hs'. assert (E : ca_CurrentBlockType st = "tool_use") by congruence.
      rewrite E in Et. cbn in Et. apply negb_false_iff in Et. by rewrite Et.
Qed.

(** ** Text and thinking *)

(** Pushing a block keeps what is known of the calls. *)
Lemma push_tracked g st st' c b k :
  Bclosed g st c ->
  ca_toolAnnounced st' !! k = ca_toolAnnounced st !! k ->
  ca_pendingToolCallID st' !! k = ca_pendingToolCallID st !! k ->
  ca_pendingToolArgs st' !! k = ca_pendingToolArgs st !! k ->
  ca_toolBlockIndex st' !! k = ca_toolBlockIndex st !! k ->
  ca_ContentBlockIndex st' = ca_ContentBlockIndex st ->
  call_tracked st' (MkClient Running (cl_blocks c ++ [b]) true) k (sn_args g !! k).
Proof.
  intros HB E1 E2 E3 E4 E5. pose proof (b_calls _ _ _ _ (proj1 HB) k) as Hk. unfold call_tracked in *.
  rewrite E1. destruct (ca_toolAnnounced st !! k) as [[]|]; rewrite ?E2, ?E3, ?E4; [|done..].
  destruct Hk as (Hp & i & s & a & Hi & H0 & Hl & Ha & _ & Hd). split; [by rewrite E2|].
  exists i, s, a. rewrite E4. split_and!; [done..|simpl; by apply lookup_app_l_Some|done| |].
  - intros [_ ->]. rewrite E5 in *. exfalso.
    pose proof (B_no_open _ _ _ _ _ _ HB Hi Hl H0). lia.
  - intros _. apply Hd, no_current, HB.
Qed.

Lemma start_block_sim g t b :
  acb_Type b = t -> t <> "tool_use" ->
  sim client_step (Bclosed g) (Bin t g) (start_block t b).
Proof.
  intros Ht Hne st c HB. pose proof HB as [[] Ho]. rewrite Ho in *. destruct c as [ph bs op]. simpl in *. subst ph op.
  eexists. split; [unfold start_block; simpl; by rewrite client_block_start by lia|].
  unfold start_block. simpl. split; [|done]. split; simpl; try done.
  - rewrite length_app. simpl. lia.
  - intros _. exists "". rewrite Ht. replace (Z.to_nat _) with (length bs) by lia. by apply list_lookup_middle.
  - rewrite Ht, typed_snoc, b_text0. unfold of_type. simpl. destruct (_ =?s _); apply str_app_nil_r.
  - rewrite Ht, typed_snoc, b_thinking0. unfold of_type. simpl. destruct (_ =?s _); apply str_app_nil_r.
  - intros k. by apply (push_tracked g st _ (MkClient Running bs false)).
  - intros i s. rewrite lookup_app_Some. intros [Hi|[_ Hi]]; [by eapply b_owned0|].
    apply list_lookup_singleton_Some in Hi as [_ [= ? _]]. congruence.
Qed.

Lemma ensure_block_sim g t b :
  acb_Type b = t -> t <> "tool_use" -> sim client_step (B true g) (Bin t g) (ensure_block t b).
Proof.
  intros Ht Hne. unfold ensure_block. apply sim_if.
  - intros st c [HB Hb]. bool_hyps. by exists c.
  - apply sim_mono with (B true g) (Bin t g); [by intros ?? []|done|].
    apply sim_then with (Bclosed g); [apply close_sim|by apply start_block_sim].
Qed.

(** What a text of type [t] adds to what was sent. *)
Definition sent_delta (t s : string) (g : Sent) : Sent :=
  if t =?s "text" then add_text s g else add_thinking s g.

Lemma delta_sim g t d s :
  t = "text" \/ t = "thinking" -> payload t d = Some s ->
  sim client_step (Bin t g) (B true (sent_delta t s g)) (ccAnthropicDelta d).
Proof.
  intros Ht Hp st c (HB & Ho & Et). pose proof HB as []. rewrite Ho in *. destruct c as [ph bs op]. simpl in *. subst ph op.
  destruct (b_type0 eq_refl) as [s0 Hs]. rewrite Et in Hs. unfold ccAnthropicDelta. simpl. rewrite Ho.
  assert (Hlast : S (Z.to_nat (ca_ContentBlockIndex st)) = length bs) by lia.
  assert (Hne : t <> "tool_use") by (by destruct Ht as [-> | ->]).
  eexists. split; [simpl; by erewrite client_block_delta by (done || lia)|].
  assert (Hargs : sn_args (sent_delta t s g) = sn_args g) by (unfold sent_delta; by destruct (t =?s "text")).
  split; simpl; rewrite ?Ho, ?Hargs; try done.
  - by rewrite length_insert.
  - intros _. exists (s0 +:+ s). rewrite Et. apply list_lookup_insert_eq. lia.
  - destruct Ht as [-> | ->]; simpl; [by erewrite typed_insert_last, b_text0|by erewrite typed_insert_other].
  - destruct Ht as [-> | ->]; simpl; [by erewrite typed_insert_other|by erewrite typed_insert_last, b_thinking0].
  - intros k. specialize (b_calls0 k). unfold call_tracked in *. destruct (ca_toolAnnounced st !! k) as [[]|]; [|done..].
    destruct b_calls0 as (Hp' & i & s' & a & Hi & H0 & Hl & Ha & Hc & Hd). split; [done|]. exists i, s', a.
    split_and!; [done..| |done|done|done]. simpl. rewrite list_lookup_insert_ne; [done|].
    intros E. simpl in Hl. rewrite <- E, Hs in Hl. congruence.
  - intros i s'. destruct (decide (i = Z.to_nat (ca_ContentBlockIndex st))) as [->|Hi].
    + rewrite list_lookup_insert_eq by lia. intros [= ? _]. congruence.
    + rewrite list_lookup_insert_ne by done. by apply b_owned0.
Qed.

(** ** Tool calls *)

(** The block of call [k], if it has one, is the open one. *)
Definition Turn (last : option Z) (st : State) : Prop :=
  forall k i, last = Some k -> ca_toolBlockIndex st !! k = Some i -> current st i.
Definition BT (last : option Z) (g : Sent) st c := B true g st c /\ Turn last st.
Lemma no_turn g st c : B true g st c -> BT None g st c.
Proof. intros HB. by split. Qed.
Lemma unplaced_turn k st : ca_toolBlockIndex st !! k = None -> Turn (Some k) st.
Proof. intros H k' i [= <-]. congruence. Qed.
(** A call that was not seen has no block. *)
Lemma unseen_turn g st c k : B true g st c -> sn_args g !! k = None -> Turn (Some k) st.
Proof.
  intros HB Hk. pose proof (b_calls _ _ _ _ HB k) as H. apply unplaced_turn. unfold call_tracked in H.
  destruct (ca_toolAnnounced st !! k) as [[]|]; [|tauto..].
  destruct H as (_ & i & s & a & _ & _ & _ & Ha & _). congruence.
Qed.
(** The open block of a call is not a thinking block. *)
Lemma turn_type g st c k i :
  BT (Some k) g st c -> ca_toolBlockIndex st !! k = Some i -> ca_CurrentBlockType st = "tool_use".
Proof.
  intros [HB Ht] Hi. destruct (Ht k i eq_refl Hi) as [Ho ->]. destruct (b_type _ _ _ _ HB Ho) as [s Hs].
  destruct (B_placed _ _ _ _ _ _ HB Hi) as (_ & _ & i' & s' & a & Hi' & _ & Hl & _).
  rewrite Hi in Hi'. injection Hi' as <-. rewrite Hs in Hl. congruence.
Qed.

Lemma announce_sim g k callID name :
  sim client_step (fun st c => Bclosed g st c /\ is_set (ca_toolAnnounced st) k = false)
    (fun st c => BT (Some k) (add_args k "" g) st c /\ ca_toolAnnounced st !! k = Some true)
    (announceCCAnthropicToolBlock k callID name).
Proof.
  intros st c [HB Hk]. pose proof HB as [HB' Ho]. destruct (B_unannounced _ _ _ _ _ HB' Hk) as [Hp Hfree].
  pose proof HB' as []. rewrite Ho in *. destruct c as [ph bs op]. simpl in *. subst ph op.
  set (p := default "" (ca_pendingToolArgs st !! k)) in *.
  exists (MkClient Running (bs ++ [("tool_use", p)]) true). unfold announceCCAnthropicToolBlock. fold p. simpl. split.
  { rewrite client_block_start by lia. simpl. destruct (String.eqb_spec p "") as [E|_]; simpl; [by rewrite E|].
    erewrite client_block_delta;
      [|replace (Z.to_nat _) with (length bs) by lia; by apply list_lookup_middle|rewrite length_app; simpl; lia|done].
    replace (Z.to_nat _) with (length bs) by lia.
    by rewrite insert_app_r_alt, Nat.sub_diag by done. }
  assert (Hidx : forall k' i, ca_toolBlockIndex st !! k' = Some i -> i < ca_ContentBlockIndex st).
  { intros k' i Hi. apply (B_placed_lt _ _ _ _ _ _ HB') in Hi. simpl in Hi. lia. }
  split; [split|by rewrite lookup_insert_eq].
  2: { intros k' i [= <-]. simpl. rewrite lookup_insert_eq. by intros [= <-]. }
  split; simpl; try done.
  - rewrite length_app. simpl. lia.
  - intros _. exists p. replace (Z.to_nat _) with (length bs) by lia. by apply list_lookup_middle.
  - rewrite typed_snoc, b_text0. apply str_app_nil_r.
  - rewrite typed_snoc, b_thinking0. apply str_app_nil_r.
  - intros k'. destruct (decide (k' = k)) as [->|Hne].
    + unfold call_tracked, announced_call. simpl. rewrite !lookup_insert_eq, lookup_delete_eq. split; [done|].
      exists (ca_ContentBlockIndex st), p, p. split_and!; [done..| | | |].
      * replace (Z.to_nat _) with (length bs) by lia. by apply list_lookup_middle.
      * by rewrite Hp, str_app_nil_r.
      * intros _. by destruct (String.eqb_spec p "").
      * intros []. by split.
    + rewrite lookup_insert_ne by done.
      apply (push_tracked g st _ (MkClient Running bs false)); simpl; try done.
      * by rewrite lookup_insert_ne.
      * by rewrite lookup_delete_ne.
      * destruct (negb _); [by rewrite lookup_delete_ne|done].
      * by rewrite lookup_insert_ne.
  - intros k1 k2 i. rewrite !lookup_insert_Some.
    intros [[<- <-]|[_ H1]] [[<- E]|[_ H2]]; [done| | |by eapply b_inj0].
    + apply Hidx in H2. lia.
    + subst i. apply Hidx in H1. lia.
  - intros i s. rewrite lookup_app_Some. intros [Hi|[Hge Hi]].
    + destruct (b_owned0 i s Hi) as [k' Hk']. exists k'. rewrite lookup_insert_ne; [done|congruence].
    + apply list_lookup_singleton_Some in Hi as [Hi _]. exists k. rewrite lookup_insert_eq. f_equal. lia.
Qed.

(** A call without a name waits. *)
Lemma defer_B g st c k callID :
  B true g st c -> ca_toolAnnounced st !! k = None ->
  B true (add_args k "" g)
    (st <| ca_toolAnnounced := <[k := false]> (ca_toolAnnounced st) |>
        <| ca_pendingToolCallID := <[k := callID]> (ca_pendingToolCallID st) |>) c.
Proof.
  intros HB Hk. pose proof HB as []. split; simpl; try done. intros k'. specialize (b_calls0 k').
  destruct (decide (k' = k)) as [->|Hne].
  - unfold call_tracked in *. rewrite Hk in b_calls0. destruct b_calls0 as (Ha & Hp & _ & Hi). simpl.
    rewrite !lookup_insert_eq, Hp. split_and!; [|done|done]. unfold args_of. by rewrite Ha.
  - rewrite lookup_insert_ne by done. unfold call_tracked, announced_call in *. simpl. by rewrite !lookup_insert_ne.
Qed.

Definition seen_call (k : Z) (g : Sent) (st : State) (c : Client) : Prop :=
  BT (Some k) g st c /\ is_Some (sn_args g !! k).
Lemma seen_added k g st c : BT (Some k) (add_args k "" g) st c -> seen_call k (add_args k "" g) st c.
Proof. intros HB. split; [done|]. simpl. by rewrite lookup_insert_eq. Qed.

Section Stream.
Context (itemIDs : nat -> string).

Lemma set_called_B g st c ids :
  Bclosed g st c -> Bclosed g (st <| ca_HasToolCall := true |> <| ca_IDs := ids |>) c.
Proof. by intros [[] ?]. Qed.

Lemma new_call_sim g k tc :
  sim client_step (fun st c => B true g st c /\ ca_toolAnnounced st !! k = None) (seen_call k (add_args k "" g))
    (new_tool_call itemIDs k tc).
Proof.
  apply sim_then with (fun st c => Bclosed g st c /\ ca_toolAnnounced st !! k = None).
  { intros st c [HB Hk]. destruct (close_sim g st c HB) as (c' & Ha & HB'). exists c'. split; [done|].
    split; [done|]. revert Hk. unfold closeCCAnthropicBlock. by destruct (negb _). }
  intros st c [HB Hk]. unfold draw_call_id.
  set (called := if ctc_ID tc =?s "" then _ else _).
  assert (Hc : exists callID ids, called = (callID, st <| ca_HasToolCall := true |> <| ca_IDs := ids |>)).
  { subst called. destruct (ctc_ID tc =?s ""); simpl; [by eexists _, _|]. exists (ctc_ID tc), (ca_IDs st). done. }
  destruct Hc as (callID & ids & ->). unfold announce_or_defer.
  apply (set_called_B g st c ids) in HB.
  assert (Hu : is_set (ca_toolAnnounced st) k = false) by (unfold is_set; by rewrite Hk). destruct (_ =?s "").
  - exists c. split; [done|]. apply seen_added. split; [apply defer_B; [apply HB|done]|].
    apply unplaced_turn. simpl. by apply (B_unannounced _ _ _ _ _ (proj1 HB)).
  - destruct (announce_sim g k callID (cfc_Name (ctc_Function tc)) _ c (conj HB Hu))
      as (c' & Ha & HB' & _). exists c'. split; [done|]. by apply seen_added.
Qed.

Lemma direct_open_call_sim g k tc :
  sim client_step (BT (Some k) g) (seen_call k (add_args k "" g)) (open_call itemIDs k tc).
Proof.
  intros st c [HB Ht]. unfold open_call. destruct (ca_toolAnnounced st !! k) as [announced|] eqn:Hk; [|by apply new_call_sim].
  assert (Hs : is_Some (sn_args g !! k)).
  { pose proof (b_calls _ _ _ _ HB k) as H. unfold call_tracked in H. rewrite Hk in H.
    destruct announced; [|destruct H as [-> _]; done]. by destruct H as (_ & i & s & a & _ & _ & _ & -> & _). }
  destruct (negb announced && _) eqn:Eb.
  - bool_hyps. rewrite H in Hk.
    destruct (close_sim g st c HB) as (c1 & Ha1 & HB1). unfold then_emit. destruct (closeCCAnthropicBlock st) as [st1 o1] eqn:E1.
    assert (Hk1 : ca_toolAnnounced st1 !! k = Some false).
    { revert E1. unfold closeCCAnthropicBlock. destruct (negb _); intros [= <- _]; done. }
    destruct (announce_sim g k (if ctc_ID tc =?s "" then default "" (ca_pendingToolCallID st !! k) else ctc_ID tc)
                (cfc_Name (ctc_Function tc)) st1 c1) as (c2 & Ha2 & HB2 & _).
    { split; [done|]. unfold is_set. by rewrite Hk1. }
    destruct (announceCCAnthropicToolBlock _ _ _ st1) as [st2 o2]. exists c2. simpl in *.
    split; [by rewrite accepts_app, Ha1|by apply seen_added].
  - exists c. split; [done|]. rewrite add_nothing by done. by split.
Qed.

Definition progressed (st : State) (k : Z) : State :=
  if ca_ContentBlockOpen st && (default 0 (ca_toolBlockIndex st !! k) =? ca_ContentBlockIndex st)
  then st <| ca_CurrentToolHadDelta := true |> else st.
Lemma progressed_field {A} (f : State -> A) st k :
  f (st <| ca_CurrentToolHadDelta := true |>) = f st -> f (progressed st k) = f st.
Proof. unfold progressed. by destruct (_ && _). Qed.
Lemma progressed_current st k i : current (progressed st k) i <-> current st i.
Proof. unfold progressed. by destruct (_ && _). Qed.
Lemma progressed_had st k i :
  current st i -> ca_CurrentToolHadDelta (progressed st k)
  = ca_CurrentToolHadDelta st || (default 0 (ca_toolBlockIndex st !! k) =? i).
Proof.
  intros [Ho ->]. unfold progressed. rewrite Ho. simpl. destruct (_ =? _); simpl; [by rewrite orb_true_r|by rewrite orb_false_r].
Qed.

(** The call that the fragment belongs to, and the others. *)
Lemma fragment_tracked g st c k k' i s arguments :
  BT (Some k) g st c -> arguments <> "" ->
  ca_toolBlockIndex st !! k = Some i -> cl_blocks c !! Z.to_nat i = Some ("tool_use", s) ->
  call_tracked (progressed st k)
    (MkClient Running (<[Z.to_nat i := ("tool_use", s +:+ arguments)]> (cl_blocks c)) true) k'
    (sn_args (add_args k arguments g) !! k').
Proof.
  intros [HB Ht] Hne Hi Hs. pose proof (b_calls _ _ _ _ HB k') as Hk'. specialize (Ht k i eq_refl Hi). unfold call_tracked, announced_call in *.
  rewrite (progressed_field ca_toolAnnounced), (progressed_field ca_pendingToolCallID),
    (progressed_field ca_pendingToolArgs), (progressed_field ca_toolBlockIndex) by done. simpl.
  destruct (B_placed _ _ _ _ _ _ HB Hi) as [Hk Hann].
  destruct (decide (k' = k)) as [->|Hkk].
  - rewrite Hk, lookup_insert_eq in *. destruct Hann as (Hp & i' & s' & a & Hi' & H0 & Hl & Ha & Hc & Hd).
    assert (i' = i) as -> by congruence. assert (s' = s) as -> by congruence. split; [done|].
    exists i, (s +:+ arguments), (a +:+ arguments). split_and!; [done|done| |unfold args_of; by rewrite Ha| |].
    + apply list_lookup_insert_eq. by eapply lookup_lt_Some.
    + intros Hcur%progressed_current. rewrite (progressed_had st k i) by done. rewrite Hi. simpl. rewrite Z.eqb_refl, orb_true_r.
      specialize (Hc Hcur). split; [|by intros [_ ?]%str_app_eq_nil].
      destruct (ca_CurrentToolHadDelta st); destruct Hc as [-> Hc]; [done|by rewrite Hc].
    + by rewrite progressed_current.
  - rewrite lookup_insert_ne by done. destruct (ca_toolAnnounced st !! k') as [[]|]; [|done..].
    destruct Hk' as (Hp & i' & s' & a & Hi' & H0 & Hl & Ha & Hc & Hd). split; [done|]. exists i', s', a.
    assert (Hii : i' <> i) by (intros ->; apply Hkk; by eapply b_inj).
    pose proof (B_placed_lt _ _ _ _ _ _ HB Hi).
    split_and!; [done..| |done| |by rewrite progressed_current]; [rewrite list_lookup_insert_ne; [done|lia]|].
    intros Hcur%progressed_current. rewrite (progressed_had st k i') by done. rewrite Hi. simpl.
    destruct (Z.eqb_spec i i'); [congruence|]. rewrite orb_false_r. by apply Hc.
Qed.

Lemma fragment_sim g k arguments :
  sim client_step (seen_call k g) (BT (Some k) (add_args k arguments g)) (call_fragment k arguments).
Proof.
  intros st c [[HB Ht] Hs]. unfold call_fragment.
  destruct (String.eqb_spec arguments "") as [->|Hne]; [exists c; by rewrite add_nothing|].
  unfold is_set. pose proof (b_calls _ _ _ _ HB k) as Hk. unfold call_tracked in Hk.
  destruct (ca_toolAnnounced st !! k) as [[]|] eqn:Ek; simpl.
  - destruct Hk as (Hp & i & s & a & Hi & H0 & Hl & Ha & Hc & Hd). rewrite Hi. simpl. pose proof HB as [].
    destruct (Ht k i eq_refl Hi) as [Ho Hcur]. rewrite Ho in b_length0, b_open0.
    destruct c as [ph bs op]. simpl in *. subst ph op. eexists. split; [by erewrite client_block_delta by (done || lia)|].
    assert (E : (if ca_ContentBlockOpen st && (i =? ca_ContentBlockIndex st) then st <| ca_CurrentToolHadDelta := true |> else st)
                = progressed st k) by (unfold progressed; by rewrite Ho, Hi).
    rewrite E. split.
    2: { intros k' i' [= <-]. rewrite (progressed_field ca_toolBlockIndex) by done. intros Hi'.
         apply progressed_current. by apply (Ht k). }
    split; rewrite ?(progressed_field ca_MessageStartSent), ?(progressed_field ca_MessageStopSent), ?(progressed_field ca_ContentBlockIndex),
      ?(progressed_field ca_ContentBlockOpen), ?(progressed_field ca_CurrentBlockType), ?(progressed_field ca_toolBlockIndex) by done; simpl; try done.
    + by rewrite length_insert, Ho.
    + intros _. destruct (b_type0 Ho) as [s0 Hs0]. destruct (decide (Z.to_nat i = Z.to_nat (ca_ContentBlockIndex st))) as [Ei|Hi'].
      * rewrite Ei in *. rewrite list_lookup_insert_eq by (by eapply lookup_lt_Some). exists (s +:+ arguments).
        rewrite Hs0 in Hl. by injection Hl as -> _.
      * exists s0. by rewrite list_lookup_insert_ne.
    + by erewrite typed_insert_other.
    + by erewrite typed_insert_other.
    + intros k'. by apply (fragment_tracked g st (MkClient Running bs true)).
    + intros j s'. destruct (decide (j = Z.to_nat i)) as [->|Hj]; [intros _; exists k; by rewrite Z2Nat.id|].
      rewrite list_lookup_insert_ne by done. apply b_owned0.
  - exists c. split; [done|]. destruct Hk as (Ha & Hid & Hi). split; [|by apply unplaced_turn].
    pose proof HB as []. split; simpl; try done. intros k'. specialize (b_calls0 k'). unfold call_tracked, announced_call in *. simpl.
    destruct (decide (k' = k)) as [->|Hkk].
    + rewrite Ek, !lookup_insert_eq. split; [|done]. unfold args_of. by rewrite Ha.
    + by rewrite !lookup_insert_ne.
  - destruct Hk as [Ha _]. rewrite Ha in Hs. by apply is_Some_None in Hs.
Qed.

(** ** A chunk *)

Definition tool_index (tc : ChatToolCall) : Z := default 0 (ctc_Index tc).
Lemma close_if_open_sim g t : sim client_step (B true g) (B true g) (closeCCAnthropicBlockIfOpen t).
Proof.
  apply sim_if.
  - intros st c [HB _]. by exists c.
  - apply sim_mono with (B true g) (Bclosed g); [by intros ?? []|by intros ?? []|apply close_sim].
Qed.
Lemma close_thinking_sim g k : sim client_step (BT (Some k) g) (BT (Some k) g) (closeCCAnthropicBlockIfOpen "thinking").
Proof.
  intros st c HB. destruct (close_if_open_sim g "thinking" st c (proj1 HB)) as (c' & Ha & HB'). exists c'.
  split; [done|]. split; [done|]. destruct (ca_toolBlockIndex st !! k) as [i|] eqn:Hi.
  - unfold closeCCAnthropicBlockIfOpen. rewrite (turn_type g st c k i HB Hi), orb_true_r. apply HB.
  - apply unplaced_turn. rewrite <- Hi. unfold closeCCAnthropicBlockIfOpen, closeCCAnthropicBlock.
    destruct (_ || _); [done|]. by destruct (negb _).
Qed.
Lemma call_sim g tc :
  sim client_step (BT (Some (tool_index tc)) g) (BT (Some (tool_index tc)) (sent_call g tc))
    (closeCCAnthropicBlockIfOpen "thinking" ;>> handleCCAnthropicToolCall itemIDs tc).
Proof.
  apply sim_then with (BT (Some (tool_index tc)) g); [apply close_thinking_sim|].
  unfold handleCCAnthropicToolCall, sent_call. fold (tool_index tc). set (k := tool_index tc).
  apply sim_then with (seen_call k (add_args k "" g)); [apply direct_open_call_sim|].
  rewrite (add_args_seen k (cfc_Arguments _)). apply fragment_sim.
Qed.

(** ** Calls in turn *)

(** What a choice continues: a call, or with [None] the text or the reasoning. *)
Definition visible (o : option string) : bool := negb (default "" o =?s "").
Definition parts (choice : ChatChunkChoice) : list (option Z) :=
  let delta := ccc_Delta choice in
  (if visible (delta_reasoning delta) then [None] else []) ++ (if visible (cdl_Content delta) then [None] else [])
  ++ map (fun tc => Some (tool_index tc)) (cdl_ToolCalls delta).
(** The entries of each call follow one another: a call that was [seen] is continued only
    while it is the [last] part. *)
Fixpoint in_turn (seen : gset Z) (last : option Z) (l : list (option Z)) : bool :=
  match l with
  | [] => true
  | None :: l => in_turn seen None l
  | Some k :: l => (bool_decide (last = Some k) || bool_decide (k ∉ seen)) && in_turn ({[k]} ∪ seen) (Some k) l
  end.
Definition calls_in_turn (chunks : list ChatCompletionsChunk) : bool :=
  in_turn ∅ None (concat (map parts (concat (map chk_Choices chunks)))).

(** The ghost state: what was sent, the last part, the parts still to come. *)
Definition R (g : Sent) (last : option Z) (rest : list (option Z)) st c : Prop :=
  BT last g st c /\ in_turn (dom (sn_args g)) last rest = true.
Definition Rany (g : Sent) (rest : list (option Z)) st c : Prop := exists last, R g last rest st c.

Lemma part_call_sim g tc rest :
  sim client_step (Rany g (Some (tool_index tc) :: rest)) (Rany (sent_call g tc) rest)
    (closeCCAnthropicBlockIfOpen "thinking" ;>> handleCCAnthropicToolCall itemIDs tc).
Proof.
  intros st c (last & [HB Ht] & Hr). simpl in Hr. apply andb_true_iff in Hr as [Hl Hr].
  assert (HB1 : BT (Some (tool_index tc)) g st c).
  { split; [done|]. apply orb_true_iff in Hl as [Hl|Hl]; apply bool_decide_eq_true in Hl; [by subst last|].
    apply (unseen_turn g st c); [done|]. by apply not_elem_of_dom. }
  destruct (call_sim g tc st c HB1) as (c' & Ha & HB'). exists c'. split; [done|].
  exists (Some (tool_index tc)). split; [done|]. unfold sent_call. fold (tool_index tc). simpl. by rewrite dom_insert_L.
Qed.
Lemma parts_calls_sim l rest : forall g,
  sim client_step (Rany g (map (fun tc => Some (tool_index tc)) l ++ rest)) (Rany (foldl sent_call g l) rest)
    (each (fun tc => closeCCAnthropicBlockIfOpen "thinking" ;>> handleCCAnthropicToolCall itemIDs tc) l).
Proof.
  induction l as [|tc l IH]; intros g; [apply sim_skip|].
  apply sim_then with (Rany (sent_call g tc) (map (fun tc => Some (tool_index tc)) l ++ rest)); [apply part_call_sim|apply IH].
Qed.
(** Text and reasoning. *)
Lemma part_sim g g' o f rest :
  sn_args g' = sn_args g -> (default "" o = "" -> g' = g) ->
  (forall s, o = Some s -> sim client_step (B true g) (B true g') (f s)) ->
  sim client_step (Rany g ((if visible o then [None] else []) ++ rest)) (Rany g' rest) (when_some o f).
Proof.
  intros Hg He Hf st c (last & [HB Ht] & Hr). unfold visible, when_some in *. destruct o as [s|]; simpl in *.
  2: { rewrite He by done. exists c. split; [done|]. by exists last. }
  destruct (String.eqb_spec s "") as [->|Hne]; simpl in *.
  - rewrite He by done. exists c. split; [done|]. by exists last.
  - destruct (Hf s eq_refl st c HB) as (c' & Ha & HB'). exists c'. split; [done|]. exists None.
    split; [by apply no_turn|by rewrite Hg].
Qed.

Lemma choice_sim choice g rest :
  sim client_step (Rany g (parts choice ++ rest)) (Rany (sent_choice g choice) rest) (choice_events itemIDs choice).
Proof.
  unfold choice_events, sent_choice, parts. set (delta := ccc_Delta choice). rewrite <- !app_assoc.
  set (g1 := add_thinking (default "" (delta_reasoning delta)) g).
  set (g2 := add_text (default "" (cdl_Content delta)) g1).
  eapply sim_then; [apply (part_sim g g1)|eapply sim_then; [apply (part_sim g1 g2)|eapply sim_then; [apply parts_calls_sim|]]].
  - done.
  - intros E. subst g1. by rewrite E, add_empty_thinking.
  - intros s E. subst g1. rewrite E. apply sim_then with (Bin "thinking" g); [by apply ensure_block_sim|].
    apply (delta_sim g "thinking"); [by right|done].
  - done.
  - intros E. subst g2. by rewrite E, add_empty_text.
  - intros s E. subst g2. rewrite E. apply sim_then with (B true g1); [apply close_if_open_sim|].
    apply sim_then with (Bin "text" g1); [by apply ensure_block_sim|]. apply (delta_sim g1 "text"); [by left|done].
  - intros st c HR. exists c. split; [by destruct (ccc_FinishReason choice) as [r|]; simpl; [destruct (_ =?s _)|]|].
    destruct (ccc_FinishReason choice) as [r|]; simpl; [destruct (_ =?s _)|]; simpl; [done| |done].
    destruct HR as (last & [[] Ht] & Hr). exists last. by split.
Qed.
Lemma choices_sim l rest : forall g,
  sim client_step (Rany g (concat (map parts l) ++ rest)) (Rany (foldl sent_choice g l) rest)
    (each (choice_events itemIDs) l).
Proof.
  induction l as [|choice l IH]; intros g; [apply sim_skip|]. simpl. rewrite <- app_assoc.
  apply sim_then with (Rany (sent_choice g choice) (concat (map parts l) ++ rest)); [apply choice_sim|apply IH].
Qed.

Definition Btop (g : Sent) st c := exists started, B started g st c.

Lemma direct_message_start_sim g : sim client_step (Btop g) (B true g) ensureCCAnthropicMessageStart.
Proof.
  intros st c [started HB]. unfold ensureCCAnthropicMessageStart. pose proof HB as [].
  destruct (ca_MessageStartSent st) eqn:Es; subst started; [by exists c|].
  destruct c as [ph bs op]. simpl in *. subst ph. exists (MkClient Running bs op). split; [done|]. by split.
Qed.

Lemma record_B chunk g st c : Btop g st c -> Btop g (record_chat_chunk chunk st) c.
Proof.
  intros [b HB]. exists b. unfold record_chat_chunk.
  assert (H1 : forall id, B b g (st <| ca_ResponseID := id |>) c) by (intros id; by destruct HB).
  set (st1 := if chk_ID chunk =?s "" then st else _).
  assert (HB1 : B b g st1 c) by (subst st1; destruct (_ =?s _); [done|apply H1]). clearbody st1. clear HB H1.
  set (st2 := if _ && _ then _ else st1).
  assert (HB2 : B b g st2 c) by (subst st2; destruct (_ && _); [by destruct HB1|done]). clearbody st2.
  destruct (chk_Usage chunk); [by destruct HB2|done].
Qed.

Definition Rtop (g : Sent) (rest : list (option Z)) st c : Prop :=
  exists last, Btop g st c /\ Turn last st /\ in_turn (dom (sn_args g)) last rest = true.
Lemma record_turn chunk last st : Turn last st -> Turn last (record_chat_chunk chunk st).
Proof. unfold record_chat_chunk. destruct (chk_ID chunk =?s ""), (_ && _), (chk_Usage chunk); exact (fun H => H). Qed.
Lemma started_turn last st : Turn last st -> Turn last (ensureCCAnthropicMessageStart st).1.
Proof. unfold ensureCCAnthropicMessageStart. destruct (ca_MessageStartSent st); exact (fun H => H). Qed.

Lemma chunk_sim chunk g rest :
  sim client_step (Rtop g (concat (map parts (chk_Choices chunk)) ++ rest)) (Rtop (sent_chunk g chunk) rest)
    (ChatCompletionsChunkToAnthropicEvents itemIDs chunk).
Proof.
  set (l := concat _ ++ rest).
  apply sim_mono with (Rtop g l) (Rany (sent_chunk g chunk) rest); [done| |].
  { intros st c (last & [HB Ht] & Hr). exists last. split; [by eexists|done]. }
  apply sim_then with (Rtop g l).
  { apply sim_silent. intros st c (last & HB & Ht & Hr). exists last. split; [by apply record_B|].
    split; [by apply record_turn|done]. }
  apply sim_then with (Rany g l); [|apply choices_sim].
  intros st c (last & HB & Ht & Hr). destruct (direct_message_start_sim g st c HB) as (c' & Ha & HB').
  exists c'. split; [done|]. exists last. split; [|done]. split; [done|by apply started_turn].
Qed.

Lemma run_sim chunks : forall g,
  sim client_step (Rtop g (concat (map parts (concat (map chk_Choices chunks))))) (Btop (foldl sent_chunk g chunks))
    (run (H := chat_anthropic_converter itemIDs) chunks).
Proof.
  induction chunks as [|chunk chunks IH]; intros g.
  { intros st c (last & HB & _). by exists c. }
  simpl. rewrite map_app, concat_app.
  eapply sim_ext; [|eapply sim_then; [apply (chunk_sim chunk g)|apply (IH (sent_chunk g chunk))]]. done.
Qed.

(** ** The end *)

(** [l] are the calls that still wait for a name. *)
Definition Bpending (l : list Z) (g : Sent) st c :=
  B true g st c /\ NoDup l /\ forall k, k ∈ l <-> ca_toolAnnounced st !! k = Some false.

Lemma pending_B g st c : B true g st c -> Bpending (pending_indices st) g st c.
Proof.
  intros HB. split; [done|]. unfold pending_indices. split.
  - rewrite merge_sort_Permutation. apply NoDup_fst_map_to_list.
  - intros k. rewrite merge_sort_Permutation. pose proof (b_calls _ _ _ _ HB k) as Hk. unfold call_tracked in Hk.
    change (map fst ?l) with (fst <$> l). rewrite list_elem_of_fmap. split.
    + intros ((k' & id) & -> & Hin%elem_of_map_to_list). simpl in *.
      destruct (ca_toolAnnounced st !! k') as [[]|]; [destruct Hk as [Hk _]|done|destruct Hk as (_ & _ & Hk & _)]; congruence.
    + intros E. rewrite E in Hk. destruct Hk as (_ & [id Hid] & _). exists (k, id). split; [done|].
      by apply elem_of_map_to_list.
Qed.

Lemma announce_pending_sim k l g :
  sim client_step (Bpending (k :: l) g) (Bpending l g) (announce_pending k).
Proof.
  intros st c (HB & [Hn Hd]%NoDup_cons & Hl). assert (Hk : ca_toolAnnounced st !! k = Some false) by (apply Hl; by left).
  assert (Hg : is_Some (sn_args g !! k)).
  { pose proof (b_calls _ _ _ _ HB k) as H. unfold call_tracked in H. rewrite Hk in H. destruct H as [-> _]. by eexists. }
  unfold announce_pending, then_emit. destruct (close_sim g st c HB) as (c1 & Ha1 & HB1).
  assert (E1 : ca_toolAnnounced (closeCCAnthropicBlock st).1 = ca_toolAnnounced st).
  { unfold closeCCAnthropicBlock. by destruct (negb _). }
  destruct (closeCCAnthropicBlock st) as [st1 o1]. cbn [fst snd] in *.
  destruct (announce_sim g k (default "" (ca_pendingToolCallID st1 !! k)) "" st1 c1) as (c2 & Ha2 & [HB2 _] & Hk2).
  { split; [done|]. unfold is_set. by rewrite E1, Hk. }
  assert (E2 : forall k', k' <> k -> ca_toolAnnounced (announceCCAnthropicToolBlock k
       (default "" (ca_pendingToolCallID st1 !! k)) "" st1).1 !! k' = ca_toolAnnounced st1 !! k').
  { intros k' Hne. simpl. by rewrite lookup_insert_ne. }
  destruct (announceCCAnthropicToolBlock _ _ _ st1) as [st2 o2]. exists c2. simpl in *.
  split; [by rewrite accepts_app, Ha1|]. rewrite add_nothing in HB2 by done. split_and!; [done|done|].
  intros k'. destruct (decide (k' = k)) as [->|Hne]; [by rewrite Hk2|]. rewrite E2, E1 by done. rewrite <- Hl. set_solver.
Qed.

Lemma announce_all_sim l g : sim client_step (Bpending l g) (Bpending [] g) (each announce_pending l).
Proof.
  induction l as [|k l IH]; [apply sim_skip|]. apply sim_then with (Bpending l g); [apply announce_pending_sim|done].
Qed.

(** What the client has when the stream is over. *)
Definition finished (g : Sent) (st : State) (c : Client) : Prop :=
  cl_phase c = Stopped
  /\ typed "text" (cl_blocks c) = sn_text g /\ typed "thinking" (cl_blocks c) = sn_thinking g
  /\ (forall k a, sn_args g !! k = Some a -> exists i s,
        ca_toolBlockIndex st !! k = Some (Z.of_nat i) /\ cl_blocks c !! i = Some ("tool_use", s) /\ s = delivered a)
  /\ (forall k1 k2 i, ca_toolBlockIndex st !! k1 = Some i -> ca_toolBlockIndex st !! k2 = Some i -> k1 = k2)
  /\ (forall i s, cl_blocks c !! i = Some ("tool_use", s) -> exists k,
        ca_toolBlockIndex st !! k = Some (Z.of_nat i) /\ is_Some (sn_args g !! k)).

Lemma end_message_sim g :
  sim client_step (fun st c => Bclosed g st c /\ forall k, ca_toolAnnounced st !! k <> Some false) (finished g) end_message.
Proof.
  intros st c [[HB Ho] Hf]. pose proof HB as []. rewrite Ho in *. destruct c as [ph bs op]. simpl in *. subst ph op.
  exists (MkClient Stopped bs false). split; [done|]. unfold finished. simpl. split_and!; try done.
  - intros k a Ha. specialize (b_calls0 k). unfold call_tracked in *. specialize (Hf k).
    destruct (ca_toolAnnounced st !! k) as [[]|]; [|done|destruct b_calls0; congruence].
    destruct b_calls0 as (_ & i & s & a' & Hi & H0 & Hl & Ha' & _ & Hd). exists (Z.to_nat i), s.
    rewrite Z2Nat.id by done. split_and!; [done..|]. assert (a' = a) as -> by congruence. by apply Hd, no_current.
  - intros i s Hi. destruct (b_owned0 i s Hi) as [k Hk]. exists k. split; [done|].
    destruct (B_placed _ _ _ _ _ _ HB Hk) as (_ & _ & ? & ? & ? & _ & _ & _ & -> & _). done.
Qed.

Lemma finalize_sim g :
  sim client_step (Btop g) (finished g) FinalizeChatCompletionsAnthropicStream.
Proof.
  apply sim_if.
  { intros st c [[started HB] Hs]. destruct HB. congruence. }
  apply sim_mono with (Btop g) (finished g); [by intros ?? []|done|].
  apply sim_then with (B true g); [apply direct_message_start_sim|].
  apply sim_then with (Bpending [] g).
  { intros st c HB. apply announce_all_sim. by apply pending_B. }
  apply sim_then with (fun st c => Bclosed g st c /\ forall k, ca_toolAnnounced st !! k <> Some false); [|apply end_message_sim].
  intros st c (HB & _ & Hl). destruct (close_sim g st c HB) as (c' & Ha & HB'). exists c'. split; [done|]. split; [done|].
  assert (E : ca_toolAnnounced (closeCCAnthropicBlock st).1 = ca_toolAnnounced st).
  { unfold closeCCAnthropicBlock. by destruct (negb _). }
  rewrite E. intros k Hk%Hl. by apply not_elem_of_nil in Hk.
Qed.
End Stream.

(** C30. A strict Anthropic client on a Chat Completions upstream accepts every event it is
    sent, whatever the upstream sends whose calls are in turn (the entries of a call follow
    one another, as Chat Completions streams have them): one message_start, content blocks
    numbered from 0 and opened and closed one at a time, deltas only for the open block and
    of its kind, one message_delta and one message_stop after the last block.  What it has
    assembled is the upstream's answer: the text blocks add up to the contents, the
    thinking blocks to the reasoning, and the calls (by the upstream's index) correspond
    one to one to the tool_use blocks, each with exactly the fragments of its call in
    order, and an empty object for a call without arguments. *)
Theorem direct_stream_assembles itemIDs id model now chunks :
  calls_in_turn chunks = true ->
  let '(st, out) := stream (H := chat_anthropic_converter itemIDs) chunks
                      (NewChatCompletionsToAnthropicStreamState id model now) in
  exists c, accepts client_step new_client out = Some c /\ finished (sent chunks) st c.
Proof.
  intros Hturn. destruct (stream chunks _) as [st out] eqn:E.
  assert (H0 : Rtop nothing_sent (concat (map parts (concat (map chk_Choices chunks))))
                 (NewChatCompletionsToAnthropicStreamState id model now) new_client).
  { exists None. split; [exists false; by split|]. split; [done|]. simpl. by rewrite dom_empty_L. }
  destruct (run_sim itemIDs chunks nothing_sent _ _ H0) as (c1 & Ha1 & H1).
  unfold stream in E. destruct (run chunks _) as [st1 o1]. cbn [fst snd] in *.
  destruct (finalize_sim (foldl sent_chunk nothing_sent chunks) st1 c1 H1) as (c2 & Ha2 & H2).
  change (conv_finalize st1) with (FinalizeChatCompletionsAnthropicStream st1) in E.
  destruct (FinalizeChatCompletionsAnthropicStream st1) as [st2 o2]. injection E as <- <-.
  exists c2. split; [by rewrite accepts_app, Ha1|done].
Qed.

(** A call whose name comes after its first fragment, text in between, a second call
    without arguments. *)
Definition call_entry i id name arguments : ChatToolCall :=
  MkChatToolCall (Some i) id "function" (MkChatFunctionCall name arguments).
Definition call_chunk calls : ChatCompletionsChunk :=
  zero_ChatCompletionsChunk <| chk_Choices :=
    [zero_ChatChunkChoice <| ccc_Delta := zero_ChatDelta <| cdl_ToolCalls := calls |> |>] |>.
Definition text_chunk s : ChatCompletionsChunk :=
  zero_ChatCompletionsChunk <| chk_Choices :=
    [zero_ChatChunkChoice <| ccc_Delta := zero_ChatDelta <| cdl_Content := Some s |> |>] |>.
Definition calls_one_by_one : list ChatCompletionsChunk :=
  [text_chunk "a"; call_chunk [call_entry 0 "call_a" "" "[1"]; call_chunk [call_entry 0 "" "Read" ",2]"];
   text_chunk "b"; call_chunk [call_entry 1 "call_b" "Grep" ""]].
Lemma direct_stream_assembles_witness :
  let '(st, out) := stream (H := chat_anthropic_converter (fun _ => "")) calls_one_by_one
                      (NewChatCompletionsToAnthropicStreamState "" "" 0) in
  exists c, accepts client_step new_client out = Some c /\ finished (sent calls_one_by_one) st c
    /\ cl_blocks c = [("text", "a"); ("tool_use", "[1,2]"); ("text", "b"); ("tool_use", "{}")].
Proof.
  pose proof (direct_stream_assembles (fun _ => "") "" "" 0 calls_one_by_one ltac:(vm_compute; reflexivity)) as H.
  destruct (stream _ _) as [st out] eqn:E. destruct H as (c & Ha & Hf). exists c. split; [done|]. split; [done|].
  vm_compute in E. injection E as _ <-. vm_compute in Ha. by injection Ha as <-.
Defined.

(** Two calls announced one after the other and then fed in turn, as no Anthropic stream
    may have it: the block of the first is closed with an empty object, and its arguments
    come after that, which the client refuses. *)
Definition parallel_calls : list ChatCompletionsChunk :=
  [call_chunk [call_entry 0 "call_a" "Read" ""]; call_chunk [call_entry 1 "call_b" "Grep" ""];
   call_chunk [call_entry 0 "" "" "[1]"]; call_chunk [call_entry 1 "" "" "[2]"]].
Definition json_delta (e : AnthropicStreamEvent) : list (option Z * string) :=
  match ase_Delta e with
  | Some d => if ad_Type d =?s "input_json_delta" then [(ase_Index e, ad_PartialJSON d)] else []
  | None => []
  end.
Example parallel_arguments_spoiled :
  let out := (stream (H := chat_anthropic_converter (fun _ => "")) parallel_calls
                (NewChatCompletionsToAnthropicStreamState "" "" 0)).2 in
  calls_in_turn parallel_calls = false /\ accepts client_step new_client out = None
  /\ concat (map json_delta out) = [(Some 0, "{}"); (Some 0, "[1]"); (Some 1, "[2]")].
Proof. vm_compute. repeat split. Qed.
