(* ===== verification/ResponsesToAnthropicRequestProofs.v ===== *)
(** * The converted conversation is one Anthropic accepts

    Theorems on [ResponsesToAnthropicRequest].  The messages alternate, every
    [tool_use] is answered in the next message and every [tool_result] answers the
    message before it ([paired_messages]); the repair drops only unanswered calls and
    orphan results, everything else stays in order ([repair_keeps]).  The proofs see a
    message through its parsed blocks ([view]), which [json.Marshal] and
    [json.Unmarshal] keep up to white space ([view_message], [view_merged]). *)

From S2P Require Import Prelude Json JsonCodec JsonGrammar JsonStrings JsonCodecProofs GoStrings ModelNames ToolSchema Apicompat RequestCodec RequestCodecProofs AnthropicToResponses ResponsesToAnthropicRequest.
Local Open Scope string_scope.
Local Open Scope nat_scope.
Local Open Scope list_scope.
Local Open Scope go_scope.

(** ** Views *)

Definition view (m : AnthropicMessage) : list AnthropicContentBlock :=
  parseContentBlocks (am_Content m).

Lemma text_block_wf d s : wf_str s -> wf_block d (text_block s).
Proof. intros H. by split; try left. Qed.

Lemma unmarshal_string_wf raw s : unmarshal_string raw = Some s -> wf_str s.
Proof.
  unfold unmarshal_string, d_string. destruct (json_shape raw) as [[]|] eqn:E; try done.
  - by intros [= <-].
  - intros [= <-]. eapply (shape_string 0); [by eapply json_shape_valid|done].
Qed.

(** Parsed blocks are well formed. *)
Lemma view_wf raw : Forall (wf_block 1) (parseContentBlocks raw).
Proof.
  unfold parseContentBlocks. destruct (unmarshal_blocks raw) as [bs|] eqn:E.
  - apply (decoded_block_wf 0 raw); [by eapply unmarshal_blocks_doc|done].
  - destruct (unmarshal_string raw) as [s|] eqn:Es; [|constructor].
    constructor; [|constructor]. apply text_block_wf. by eapply unmarshal_string_wf.
Qed.

Lemma parse_marshal bs :
  Forall (wf_block 1) bs -> parseContentBlocks (or_nil (marshal_blocks bs)) = map norm_block bs.
Proof.
  intros H. destruct (blocks_roundtrip 0 bs) as (s & -> & _ & E); [done..|].
  unfold parseContentBlocks, or_nil. cbn [from_option id]. by rewrite E.
Qed.

Lemma view_message role bs :
  Forall (wf_block 1) bs -> view (anthropicMessageFromBlocks role bs) = map norm_block bs.
Proof. apply parse_marshal. Qed.

Lemma view_merged last new :
  parseContentBlocks (merge_contents last new) =
    map norm_block (parseContentBlocks last ++ parseContentBlocks new).
Proof.
  unfold merge_contents. pose proof (view_wf last) as H1. pose proof (view_wf new) as H2.
  destruct (parseContentBlocks last ++ parseContentBlocks new) as [|b bs] eqn:E.
  - destruct (parses_nil last); reflexivity.
  - apply parse_marshal. rewrite <- E. by apply Forall_app.
Qed.

Lemma norm_raw_idem d s : wf_raw d s -> norm_raw (norm_raw s) = norm_raw s.
Proof.
  intros [-> | H]; [done|]. destruct (compact_value d s H) as (_ & Hc & _).
  rewrite (norm_raw_value d s H), (norm_raw_value d (json_compact s)).
  - by rewrite (compact_jtext _ _ _ Hc).
  - by apply compact_is_value.
Qed.

Lemma norm_block_idem d b : wf_block d b -> norm_block (norm_block b) = norm_block b.
Proof.
  intros Hb. pose proof (norm_raw_idem _ _ (wb_input _ _ Hb)) as E1.
  pose proof (norm_raw_idem _ _ (wb_content _ _ Hb)) as E2. destruct b. cbn in E1, E2.
  unfold norm_block. cbn. by rewrite E1, E2.
Qed.

Lemma norm_idem bs : Forall (wf_block 1) bs -> map norm_block (map norm_block bs) = map norm_block bs.
Proof.
  induction 1 as [|b bs Hb _ IH]; [done|]. cbn [map]. by rewrite (norm_block_idem 1 b Hb), IH.
Qed.

Lemma is_type_norm type b : is_type type (norm_block b) = is_type type b.
Proof. by destruct b. Qed.

Lemma filter_norm type bs :
  List.filter (is_type type) (map norm_block bs) = map norm_block (List.filter (is_type type) bs).
Proof.
  induction bs as [|b bs IH]; [done|]. simpl. rewrite is_type_norm, IH. by destruct (is_type type b).
Qed.

Lemma filter_not_norm type bs :
  List.filter (fun b => negb (is_type type b)) (map norm_block bs)
  = map norm_block (List.filter (fun b => negb (is_type type b)) bs).
Proof.
  induction bs as [|b bs IH]; [done|]. simpl. rewrite is_type_norm, IH. by destruct (is_type type b).
Qed.

(** The ids of the calls of a message and of the answers in it. *)
Definition call_ids (bs : list AnthropicContentBlock) : list string :=
  map acb_ID (List.filter (is_type "tool_use") bs).
Definition answer_ids (bs : list AnthropicContentBlock) : list string :=
  map acb_ToolUseID (List.filter (is_type "tool_result") bs).

Lemma call_ids_norm bs : call_ids (map norm_block bs) = call_ids bs.
Proof. unfold call_ids. rewrite filter_norm, map_map. apply map_ext. by intros []. Qed.
Lemma answer_ids_norm bs : answer_ids (map norm_block bs) = answer_ids bs.
Proof. unfold answer_ids. rewrite filter_norm, map_map. apply map_ext. by intros []. Qed.
Lemma call_ids_app a b : call_ids (a ++ b) = call_ids a ++ call_ids b.
Proof. unfold call_ids. by rewrite List.filter_app, map_app. Qed.
Lemma answer_ids_app a b : answer_ids (a ++ b) = answer_ids a ++ answer_ids b.
Proof. unfold answer_ids. by rewrite List.filter_app, map_app. Qed.

Definition calls (m : AnthropicMessage) : list string := call_ids (view m).
Definition answers (m : AnthropicMessage) : list string := answer_ids (view m).

(** ** Linked messages *)

Definition calls_answered (m : AnthropicMessage) (next : option AnthropicMessage) : Prop :=
  am_Role m = "assistant" -> forall id, id ∈ calls m ->
    exists n, next = Some n /\ am_Role n = "user" /\ id ∈ answers n.
Definition answers_called (prev : option AnthropicMessage) (m : AnthropicMessage) : Prop :=
  am_Role m = "user" -> forall id, id ∈ answers m ->
    exists p, prev = Some p /\ am_Role p = "assistant" /\ id ∈ calls p.

(** Every message of [l], [prev] being the message before [l]. *)
Fixpoint linked (prev : option AnthropicMessage) (l : list AnthropicMessage) : Prop :=
  match l with
  | [] => True
  | m :: l' => calls_answered m (head l') /\ answers_called prev m /\ linked (Some m) l'
  end.

(** A previous message may be replaced by one with the same role and more calls. *)
Definition calls_kept (p p' : option AnthropicMessage) : Prop :=
  match p with
  | None => True
  | Some m => exists m', p' = Some m' /\ am_Role m' = am_Role m /\ calls m ⊆ calls m'
  end.

Lemma calls_kept_refl p : calls_kept p p.
Proof. destruct p; simpl; eauto. Qed.

Lemma answers_called_kept p p' m : calls_kept p p' -> answers_called p m -> answers_called p' m.
Proof.
  intros Hc H Hr id Hid. destruct (H Hr id Hid) as (q & -> & Hq & Hin).
  destruct Hc as (q' & -> & Hr' & Hsub). exists q'. rewrite Hr'. auto.
Qed.

Lemma linked_kept p p' l : calls_kept p p' -> linked p l -> linked p' l.
Proof. destruct l; [done|]. intros Hc (H1 & H2 & H3). split_and!; eauto using answers_called_kept. Qed.

Lemma linked_app p l1 l2 :
  linked p l1 -> linked None l2 -> linked p (l1 ++ l2).
Proof.
  revert p. induction l1 as [|m l1 IH]; intros p H1 H2.
  - by eapply linked_kept; [|exact H2].
  - destruct H1 as (Hc & Ha & H1). cbn [app linked]. split_and!; [|done|by apply IH].
    destruct l1 as [|m1 l1]; [|done]. intros Hr id Hid. by destruct (Hc Hr id Hid) as (? & ? & _).
Qed.

(** ** Merging *)

Definition merged (last msg : AnthropicMessage) : AnthropicMessage :=
  last <| am_Content := merge_contents (am_Content last) (am_Content msg) |>.

Lemma calls_merged last msg : calls (merged last msg) = calls last ++ calls msg.
Proof.
  unfold calls, view, merged. cbn. rewrite view_merged, call_ids_norm. apply call_ids_app.
Qed.
Lemma answers_merged last msg : answers (merged last msg) = answers last ++ answers msg.
Proof.
  unfold answers, view, merged. cbn. rewrite view_merged, answer_ids_norm. apply answer_ids_app.
Qed.

Lemma merge_loop_head last l :
  exists m r, merge_loop last l = m :: r /\ am_Role m = am_Role last /\ answers last ⊆ answers m.
Proof.
  revert last. induction l as [|msg l IH]; intros last; cbn [merge_loop]; [by repeat eexists|].
  destruct (am_Role last =?s am_Role msg); [|by repeat eexists].
  fold (merged last msg). destruct (IH (merged last msg)) as (m & r & -> & Hr & Ha).
  repeat eexists; [by rewrite Hr|]. intros id Hid. apply Ha. rewrite answers_merged. set_solver.
Qed.

Lemma merge_loop_linked p p' last l :
  calls_kept p p' -> linked p (last :: l) -> linked p' (merge_loop last l).
Proof.
  revert p p' last. induction l as [|msg l IH]; intros p p' last Hp H; [by eapply linked_kept|].
  destruct H as (Hc & Ha & Hc' & Ha' & Hl). cbn [head] in Hc. cbn [merge_loop].
  destruct (am_Role last =?s am_Role msg) eqn:E.
  - apply String.eqb_eq in E. fold (merged last msg). apply (IH p); [done|]. cbn [linked]. split_and!.
    + intros Hr id. rewrite calls_merged, elem_of_app. intros [Hid|Hid].
      * destruct (Hc Hr id Hid) as (n & [= <-] & Hn & _). cbn in Hr. congruence.
      * apply Hc'; [by rewrite <- E|done].
    + intros Hr id. rewrite answers_merged, elem_of_app. intros [Hid|Hid]; [by apply Ha|].
      destruct (Ha' ltac:(by rewrite <- E) id Hid) as (n & [= <-] & Hn & _). cbn in Hr. congruence.
    + eapply linked_kept; [|exact Hl]. exists (merged last msg). split_and!; [done|done|].
      rewrite calls_merged. set_solver.
  - cbn [linked]. split_and!.
    + intros Hr id Hid. destruct (Hc Hr id Hid) as (n & [= <-] & Hn & Hin).
      destruct (merge_loop_head msg l) as (m & r & -> & Hm & Hsub). exists m.
      rewrite Hm. auto.
    + by eapply answers_called_kept.
    + apply (IH (Some last)); [apply calls_kept_refl|]. done.
Qed.

Lemma merge_linked l : linked None l -> linked None (mergeConsecutiveMessages l).
Proof. destruct l as [|m l]; [done|]. by apply merge_loop_linked. Qed.

(** Adjacent messages have different roles. *)
Fixpoint alternating (l : list AnthropicMessage) : Prop :=
  match l with
  | m :: (m' :: _) as l' => am_Role m <> am_Role m' /\ alternating l'
  | _ => True
  end.

Lemma merge_loop_alternating last l : alternating (merge_loop last l).
Proof.
  revert last. induction l as [|msg l IH]; intros last; cbn [merge_loop]; [done|].
  destruct (am_Role last =?s am_Role msg) eqn:E; [apply IH|].
  pose proof (IH msg) as H. destruct (merge_loop_head msg l) as (m & r & Em & Hm & _).
  rewrite Em in *. cbn [alternating]. split; [|done]. rewrite Hm. by apply String.eqb_neq.
Qed.

Lemma merge_alternating l : alternating (mergeConsecutiveMessages l).
Proof. destruct l; [done|]. apply merge_loop_alternating. Qed.

(** ** Pairing *)

(** What is indexed under an id. *)
Definition result_of (id : string) (r : AnthropicContentBlock) : Prop :=
  is_type "tool_result" r = true /\ acb_ToolUseID r = id /\ id <> "" /\ wf_block 1 r.
Definition indexed (results : gmap string AnthropicContentBlock) : Prop :=
  map_Forall result_of results.

Lemma fold_left_invariant {A B} (P : A -> Prop) (f : A -> B -> A) l a :
  P a -> (forall a b, b ∈ l -> P a -> P (f a b)) -> P (fold_left f l a).
Proof.
  revert a. induction l as [|b l IH]; intros a Ha Hf; [done|].
  apply IH; [apply Hf; [left|done]|]. intros a' b' Hb. apply Hf. by right.
Qed.

Lemma index_results_indexed ms : indexed (index_results ms).
Proof.
  apply (fold_left_invariant indexed); [apply map_Forall_empty|]. intros results m _ Hr.
  destruct (am_Role m =?s "user"); [|done].
  apply (fold_left_invariant indexed); [done|]. clear results Hr. intros results b Hb Hr.
  destruct (is_type "tool_result" b && negb (acb_ToolUseID b =?s "")) eqn:E; [|done].
  apply map_Forall_insert_2; [|done]. apply andb_true_iff in E as [Ht Hid].
  split_and!; [done|done| |].
  - apply negb_true_iff, String.eqb_neq in Hid. done.
  - pose proof (view_wf (am_Content m)) as W. rewrite Forall_forall in W. by apply W.
Qed.

Lemma filter_wf (p : AnthropicContentBlock -> bool) bs :
  Forall (wf_block 1) bs -> Forall (wf_block 1) (List.filter p bs).
Proof. apply incl_Forall, incl_filter. Qed.

Lemma call_ids_not bs : call_ids (List.filter (fun b => negb (is_type "tool_use" b)) bs) = [].
Proof.
  unfold call_ids. induction bs as [|b bs IH]; [done|]. simpl.
  destruct (is_type "tool_use" b) eqn:E; [done|]. simpl. by rewrite E.
Qed.
Lemma answer_ids_not bs : answer_ids (List.filter (fun b => negb (is_type "tool_result" b)) bs) = [].
Proof.
  unfold answer_ids. induction bs as [|b bs IH]; [done|]. simpl.
  destruct (is_type "tool_result" b) eqn:E; [done|]. simpl. by rewrite E.
Qed.

Section Pairing.
Context (results : gmap string AnthropicContentBlock) (Hres : indexed results).

Definition answered (tu : AnthropicContentBlock) : bool :=
  match results !! acb_ID tu with Some _ => true | None => false end.
Definition answer_of (tu : AnthropicContentBlock) : AnthropicContentBlock :=
  default zero_AnthropicContentBlock (results !! acb_ID tu).

(** The calls of a message that are kept. *)
Definition kept (bs : list AnthropicContentBlock) : list AnthropicContentBlock :=
  List.filter answered (List.filter (is_type "tool_use") bs).

Lemma answer_of_ok tu :
  answered tu = true ->
  is_type "tool_result" (answer_of tu) = true /\ acb_ToolUseID (answer_of tu) = acb_ID tu
  /\ wf_block 1 (answer_of tu).
Proof.
  unfold answered, answer_of. destruct (results !! acb_ID tu) as [r|] eqn:E; [|done].
  intros _. destruct (Hres _ _ E) as (H1 & H2 & _ & H3). done.
Qed.

Lemma call_ids_kept bs : call_ids (kept bs) = map acb_ID (kept bs).
Proof.
  unfold call_ids, kept. f_equal. generalize bs. clear bs. intros bs.
  induction bs as [|b bs IH]; [done|]. simpl. destruct (is_type "tool_use" b) eqn:E; [|done].
  simpl. destruct (answered b); [|done]. simpl. by rewrite E, IH.
Qed.

Lemma kept_answers bs :
  answer_ids (map answer_of (kept bs)) = map acb_ID (kept bs)
  /\ Forall (wf_block 1) (map answer_of (kept bs)).
Proof.
  assert (H : forall l, Forall (fun tu => answered tu = true) l ->
    answer_ids (map answer_of l) = map acb_ID l /\ Forall (wf_block 1) (map answer_of l)).
  { induction 1 as [|tu l Htu _ [IH1 IH2]]; [by split|].
    destruct (answer_of_ok tu Htu) as (H1 & H2 & H3). unfold answer_ids in *. cbn [map List.filter].
    rewrite H1. cbn [map]. rewrite IH1, H2. split; [done|by constructor]. }
  apply H. unfold kept. apply Forall_forall. intros tu Hin%list_elem_of_In%filter_In. tauto.
Qed.

(** One message becomes one, two or no messages, linked among themselves. *)
Lemma normalize_message_cases m :
  normalize_message results m =
    if (am_Role m =?s "assistant") then
      match List.filter (is_type "tool_use") (view m), kept (view m),
            List.filter (fun b => negb (is_type "tool_use" b)) (view m) with
      | [], _, _ => [m]
      | _, [], [] => []
      | _, [], others => [anthropicMessageFromBlocks "assistant" others]
      | _, k, others => [anthropicMessageFromBlocks "assistant" (others ++ k);
                         anthropicMessageFromBlocks "user" (map answer_of k)]
      end
    else if (am_Role m =?s "user") && existsb (is_type "tool_result") (view m) then
      match List.filter (fun b => negb (is_type "tool_result" b)) (view m) with
      | [] => []
      | nonResult => [anthropicMessageFromBlocks "user" nonResult]
      end
    else [m].
Proof.
  unfold normalize_message. cbv zeta. fold (view m). unfold kept, answered.
  destruct (am_Role m =?s "assistant").
  - destruct (List.filter (is_type "tool_use") (view m)); [done|].
    by destruct (List.filter _ (a :: l)), (List.filter (fun b => negb _) (view m)).
  - destruct (am_Role m =?s "user"); [|done]. by destruct (existsb _ _).
Qed.

Lemma linked_one m :
  (am_Role m = "assistant" -> calls m = []) -> (am_Role m = "user" -> answers m = []) ->
  linked None [m].
Proof.
  intros Hc Ha. cbn [linked]. split_and!; [| |done].
  - intros Hr id. rewrite Hc by done. by intros ?%not_elem_of_nil.
  - intros Hr id. rewrite Ha by done. by intros ?%not_elem_of_nil.
Qed.

Lemma normalize_message_linked m : linked None (normalize_message results m).
Proof.
  pose proof (view_wf (am_Content m)) as W. fold (view m) in W.
  assert (Wo : Forall (wf_block 1) (List.filter (fun b => negb (is_type "tool_use" b)) (view m)))
    by by apply filter_wf.
  assert (Wk : Forall (wf_block 1) (kept (view m))) by by do 2 apply filter_wf.
  assert (Co := call_ids_not (view m)). pose proof (kept_answers (view m)) as [Ak Wa].
  pose proof (call_ids_kept (view m)) as Ck.
  rewrite normalize_message_cases.
  destruct (am_Role m =?s "assistant") eqn:Ea.
  - apply String.eqb_eq in Ea.
    destruct (List.filter (is_type "tool_use") (view m)) as [|u us] eqn:Eu.
    { apply linked_one; [|congruence]. intros _. unfold calls, call_ids. by rewrite Eu. }
    revert Wo Wk Co Ak Wa Ck. generalize (kept (view m)) as ks.
    generalize (List.filter (fun b => negb (is_type "tool_use" b)) (view m)) as os.
    intros os ks Wo Wk Co Ak Wa Ck. destruct ks as [|k ks].
    + destruct os as [|o os]; [done|]. apply linked_one; [intros _|done].
      unfold calls. rewrite view_message by done. by rewrite call_ids_norm.
    + cbn [linked head]. split_and!; [|done|done| |done].
      * intros _ id. unfold calls. rewrite view_message by by apply Forall_app.
        rewrite call_ids_norm, call_ids_app, Co, Ck. cbn [app]. intros Hid.
        eexists. split_and!; [done|done|]. unfold answers. rewrite view_message by done.
        by rewrite answer_ids_norm, Ak.
      * intros _ id. unfold answers. rewrite view_message by done. rewrite answer_ids_norm, Ak.
        intros Hid. eexists. split_and!; [done|done|].
        unfold calls. rewrite view_message by by apply Forall_app.
        by rewrite call_ids_norm, call_ids_app, Co, Ck.
  - apply String.eqb_neq in Ea.
    destruct ((am_Role m =?s "user") && existsb (is_type "tool_result") (view m)) eqn:Eu.
    + assert (Wn := filter_wf (fun b => negb (is_type "tool_result" b)) _ W).
      assert (An := answer_ids_not (view m)).
      destruct (List.filter (fun b => negb (is_type "tool_result" b)) (view m)) as [|n ns]; [done|].
      apply linked_one; [done|]. intros _. unfold answers.
      rewrite view_message by done. by rewrite answer_ids_norm.
    + apply linked_one; [done|]. intros Hr. rewrite Hr in Eu. cbn in Eu.
      unfold answers, answer_ids.
      enough (List.filter (is_type "tool_result") (view m) = []) as -> by done.
      clear -Eu. revert Eu. generalize (view m). intros bs.
      induction bs as [|b bs IH]; [done|]. simpl. intros [-> Eu]%orb_false_iff. by apply IH.
Qed.

Lemma normalize_linked ms : linked None (List.concat (map (normalize_message results) ms)).
Proof.
  induction ms as [|m ms IH]; [done|]. cbn [map List.concat].
  apply linked_app; [apply normalize_message_linked|done].
Qed.
End Pairing.

Lemma repair_linked ms : linked None (repair_messages ms) /\ alternating (repair_messages ms).
Proof.
  split; [|apply merge_alternating]. apply merge_linked, normalize_linked, index_results_indexed.
Qed.

(** ** The claims about the conversation *)

Lemma linked_lookup p l i m :
  linked p l -> l !! i = Some m ->
  calls_answered m (l !! S i)
  /\ answers_called (match i with O => p | S j => l !! j end) m.
Proof.
  revert p i. induction l as [|x l IH]; intros p i H Hi; [done|].
  destruct H as (Hc & Ha & Hl). destruct i as [|i]; cbn in Hi |- *.
  - injection Hi as <-. split; [by destruct l|done].
  - destruct (IH _ _ Hl Hi) as [H1 H2]. split; [done|]. by destruct i.
Qed.

Lemma alternating_lookup l i m n :
  alternating l -> l !! i = Some m -> l !! S i = Some n -> am_Role m <> am_Role n.
Proof.
  revert i. induction l as [|x l IH]; intros i H Hm Hn; [done|].
  destruct l as [|y l]; [by destruct i|]. destruct H as [H1 H2].
  destruct i as [|i]; cbn in Hm, Hn; [by simplify_eq|]. by eapply IH.
Qed.

(** The one message of a string input has no tool blocks. *)
Lemma string_message_linked s :
  wf_str s ->
  linked None [MkAnthropicMessage "user" (json_quote s)]
  /\ alternating [MkAnthropicMessage "user" (json_quote s)].
Proof.
  intros Hs%shape_json_quote. split; [|done]. apply linked_one; [done|]. intros _.
  unfold answers, view, parseContentBlocks. cbn [am_Content].
  unfold unmarshal_blocks, d_slice. rewrite Hs.
  unfold unmarshal_string, d_string. by rewrite Hs.
Qed.

(** C7. Whatever the items of a Responses request are, the converted messages have the
    form the Messages API demands: neighbours have different roles, every [tool_use]
    of an assistant message is answered by a [tool_result] with its id in the user
    message right after it, and every [tool_result] of a user message answers a
    [tool_use] of the assistant message right before it. *)
Theorem paired_messages instructions inputRaw preserve system messages :
  convertResponsesInputToAnthropic instructions inputRaw preserve = inr (system, messages) ->
  forall i m, messages !! i = Some m ->
    (forall n, messages !! S i = Some n -> am_Role m <> am_Role n)
    /\ (am_Role m = "assistant" -> forall id, id ∈ calls m -> exists n,
          messages !! S i = Some n /\ am_Role n = "user" /\ id ∈ answers n)
    /\ (am_Role m = "user" -> forall id, id ∈ answers m -> exists j p,
          i = S j /\ messages !! j = Some p /\ am_Role p = "assistant" /\ id ∈ calls p).
Proof.
  intros H i m Hi.
  assert (Hl : linked None messages /\ alternating messages).
  { unfold convertResponsesInputToAnthropic in H. destruct (unmarshal_string inputRaw) as [s|] eqn:Es.
    - injection H as <- <-. apply string_message_linked, (unmarshal_string_wf inputRaw), Es.
    - destruct (ok_or _ _); [done|]. cbn in H. destruct (convert_items _ _ _); [done|].
      injection H as <- <-. apply repair_linked. }
  destruct Hl as [Hl Ha]. destruct (linked_lookup _ _ _ _ Hl Hi) as [H1 H2].
  split_and!; [by eauto using alternating_lookup|done|].
  intros Hr id Hid. destruct (H2 Hr id Hid) as (p & Hp & ? & ?). destruct i as [|j]; [done|].
  by exists j, p.
Qed.

(** ** What the repair keeps *)

(** The blocks of a conversation with the roles of their messages. *)
Definition tagged (m : AnthropicMessage) : list (string * AnthropicContentBlock) :=
  map (fun b => (am_Role m, norm_block b)) (view m).
Definition all_blocks (ms : list AnthropicMessage) : list (string * AnthropicContentBlock) :=
  flat_map tagged ms.

Definition is_call (rb : string * AnthropicContentBlock) : bool :=
  (rb.1 =?s "assistant") && is_type "tool_use" rb.2.
Definition is_answer (rb : string * AnthropicContentBlock) : bool :=
  (rb.1 =?s "user") && is_type "tool_result" rb.2.
Definition is_other (rb : string * AnthropicContentBlock) : bool := negb (is_call rb || is_answer rb).

(** The last answer to a call. *)
Definition answer_to (blocks : list (string * AnthropicContentBlock))
    (call : string * AnthropicContentBlock) : option (string * AnthropicContentBlock) :=
  last (List.filter (fun rb => is_answer rb && negb (acb_ToolUseID rb.2 =?s "")
                               && (acb_ToolUseID rb.2 =?s acb_ID call.2)) blocks).

Lemma flat_map_filter {A B} (p : B -> bool) (f : A -> list B) l :
  List.filter p (flat_map f l) = flat_map (fun a => List.filter p (f a)) l.
Proof. induction l as [|a l IH]; [done|]. cbn [flat_map]. by rewrite List.filter_app, IH. Qed.

Lemma view_merge last msg : view (merged last msg) = map norm_block (view last ++ view msg).
Proof. apply view_merged. Qed.

Lemma tagged_norm (role : string) m :
  map (fun b => (role, norm_block (norm_block b))) (view m) = map (fun b => (role, norm_block b)) (view m).
Proof.
  apply map_ext_in. intros b Hb. f_equal. apply (norm_block_idem 1).
  pose proof (view_wf (am_Content m)) as W. rewrite List.Forall_forall in W. by apply W.
Qed.

Lemma tagged_merged last msg :
  am_Role last = am_Role msg -> tagged (merged last msg) = tagged last ++ tagged msg.
Proof.
  intros E. unfold tagged. rewrite view_merge, map_map, map_app. cbn [merged am_Role].
  change (am_Role (merged last msg)) with (am_Role last). rewrite !tagged_norm. by rewrite E.
Qed.

Lemma merge_loop_blocks last l : all_blocks (merge_loop last l) = tagged last ++ all_blocks l.
Proof.
  revert last. induction l as [|msg l IH]; intros last; cbn [merge_loop]; [done|].
  destruct (am_Role last =?s am_Role msg) eqn:E.
  - apply String.eqb_eq in E. fold (merged last msg). rewrite IH, tagged_merged by done.
    by rewrite <- app_assoc.
  - change (all_blocks (last :: merge_loop msg l)) with (tagged last ++ all_blocks (merge_loop msg l)).
    by rewrite IH.
Qed.

Lemma merge_blocks l : all_blocks (mergeConsecutiveMessages l) = all_blocks l.
Proof. destruct l; [done|]. apply merge_loop_blocks. Qed.

Lemma filter_of_map {A B} (p : B -> bool) (f : A -> B) l :
  List.filter p (map f l) = map f (List.filter (fun a => p (f a)) l).
Proof. induction l as [|a l IH]; [done|]. simpl. rewrite IH. by destruct (p (f a)). Qed.
Lemma filter_and {A} (p q : A -> bool) l :
  List.filter p (List.filter q l) = List.filter (fun a => q a && p a) l.
Proof. induction l as [|a l IH]; [done|]. simpl. destruct (q a); simpl; by rewrite IH. Qed.
Lemma filter_none {A} (p : A -> bool) l : (forall a, p a = false) -> List.filter p l = [].
Proof. intros H. induction l as [|a l IH]; [done|]. simpl. by rewrite H. Qed.

(** The last block indexed under an id. *)
Definition index_block (results : gmap string AnthropicContentBlock) (rb : string * AnthropicContentBlock) :
    gmap string AnthropicContentBlock :=
  if is_answer rb && negb (acb_ToolUseID rb.2 =?s "") then <[acb_ToolUseID rb.2 := rb.2]> results
  else results.
Definition raw_blocks (m : AnthropicMessage) : list (string * AnthropicContentBlock) :=
  map (fun b => (am_Role m, b)) (view m).

Lemma index_blocks l results id :
  fold_left index_block l results !! id =
    match last (List.filter (fun rb => is_answer rb && negb (acb_ToolUseID rb.2 =?s "")
                                       && (acb_ToolUseID rb.2 =?s id)) l) with
    | Some rb => Some rb.2
    | None => results !! id
    end.
Proof.
  revert results. induction l as [|rb l IH]; intros results; [done|]. cbn [fold_left]. rewrite IH.
  unfold index_block. cbn [List.filter].
  destruct (is_answer rb && negb (acb_ToolUseID rb.2 =?s "")); [|done]. cbn [andb].
  destruct (acb_ToolUseID rb.2 =?s id) eqn:E.
  - apply String.eqb_eq in E as <-. rewrite last_cons. destruct (last _); [done|].
    apply lookup_insert_eq.
  - apply String.eqb_neq in E. destruct (last _); [done|]. by apply lookup_insert_ne.
Qed.

Lemma index_results_blocks ms results :
  fold_left (fun results m =>
    if am_Role m =?s "user" then
      fold_left (fun results b =>
        if is_type "tool_result" b && negb (acb_ToolUseID b =?s "")
        then <[acb_ToolUseID b := b]> results else results) (parseContentBlocks (am_Content m)) results
    else results) ms results = fold_left index_block (flat_map raw_blocks ms) results.
Proof.
  revert results. induction ms as [|m ms IH]; intros results; [done|].
  cbn [fold_left flat_map]. rewrite fold_left_app, IH. f_equal. unfold raw_blocks.
  fold (view m). generalize (view m). intros bs. clear. revert results.
  destruct (am_Role m =?s "user") eqn:E.
  - induction bs as [|b bs IH]; intros results; [done|]. cbn [fold_left map]. rewrite <- IH. f_equal.
    unfold index_block, is_answer. cbn [fst snd]. by rewrite E.
  - induction bs as [|b bs IH]; intros results; [done|]. cbn [fold_left map]. rewrite <- IH.
    unfold index_block, is_answer. cbn [fst snd]. by rewrite E.
Qed.

Lemma index_answer ms call :
  (fun r => ("user", norm_block r)) <$> index_results ms !! acb_ID call.2 = answer_to (all_blocks ms) call.
Proof.
  unfold index_results, answer_to. rewrite index_results_blocks, index_blocks, lookup_empty.
  set (p := fun rb : string * AnthropicContentBlock => _).
  set (f := fun rb : string * AnthropicContentBlock => (rb.1, norm_block rb.2)).
  assert (E : all_blocks ms = map f (flat_map raw_blocks ms)).
  { unfold all_blocks. rewrite flat_map_concat_map, flat_map_concat_map, concat_map, map_map.
    f_equal. apply map_ext. intros m. unfold tagged, raw_blocks. by rewrite map_map. }
  rewrite E, filter_of_map. change (fun a => p (f a)) with p.
  change (map f) with (fmap (M := list) f). rewrite fmap_last.
  assert (Hl : forall rb, last (List.filter p (flat_map raw_blocks ms)) = Some rb -> rb.1 = "user").
  { intros rb Hrb%last_Some_elem_of%list_elem_of_In%filter_In. destruct Hrb as [_ H].
    unfold p, is_answer in H. apply andb_true_iff in H as [H _]. apply andb_true_iff in H as [H _].
    apply andb_true_iff in H as [H _]. by apply String.eqb_eq. }
  destruct (last _) as [rb|]; [|done]. cbn. unfold f. by rewrite (Hl rb eq_refl).
Qed.

Definition tag (role : string) (bs : list AnthropicContentBlock) : list (string * AnthropicContentBlock) :=
  map (fun b => (role, norm_block b)) bs.

Lemma tagged_blocks role bs :
  Forall (wf_block 1) bs -> tagged (anthropicMessageFromBlocks role bs) = tag role bs.
Proof.
  intros H. unfold tagged, tag. rewrite view_message by done. rewrite map_map. cbn [am_Role].
  apply map_ext_in. intros b Hb. cbn. f_equal. apply (norm_block_idem 1).
  rewrite List.Forall_forall in H. by apply H.
Qed.

Lemma assistant_calls bs : List.filter is_call (tag "assistant" bs) = tag "assistant" (List.filter (is_type "tool_use") bs).
Proof. unfold tag. by rewrite filter_of_map. Qed.
Lemma assistant_answers bs : List.filter is_answer (tag "assistant" bs) = [].
Proof. unfold tag. by rewrite filter_of_map, filter_none. Qed.
Lemma assistant_others bs :
  List.filter is_other (tag "assistant" bs) = tag "assistant" (List.filter (fun b => negb (is_type "tool_use" b)) bs).
Proof.
  unfold tag. rewrite filter_of_map. f_equal. apply filter_ext. intros b.
  unfold is_other, is_call, is_answer. cbn. by rewrite orb_false_r.
Qed.
Lemma user_calls role bs : role <> "assistant" -> List.filter is_call (tag role bs) = [].
Proof.
  intros H%String.eqb_neq. unfold tag. rewrite filter_of_map, filter_none; [done|].
  intros b. unfold is_call. cbn [fst]. by rewrite H.
Qed.
Lemma user_answers bs : List.filter is_answer (tag "user" bs) = tag "user" (List.filter (is_type "tool_result") bs).
Proof. unfold tag. by rewrite filter_of_map. Qed.
Lemma user_others bs :
  List.filter is_other (tag "user" bs) = tag "user" (List.filter (fun b => negb (is_type "tool_result" b)) bs).
Proof. unfold tag. by rewrite filter_of_map. Qed.

Lemma filter_tool_use_not bs :
  List.filter (is_type "tool_use") (List.filter (fun b => negb (is_type "tool_use" b)) bs) = [].
Proof. rewrite filter_and. apply filter_none. intros b. by destruct (is_type _ b). Qed.

Section Keeps.
Context (results : gmap string AnthropicContentBlock) (Hres : indexed results).

Definition answer_block (c : string * AnthropicContentBlock) : option (string * AnthropicContentBlock) :=
  (fun r => ("user", norm_block r)) <$> results !! acb_ID c.2.
Definition has_answer (c : string * AnthropicContentBlock) : bool :=
  match answer_block c with Some _ => true | None => false end.

Lemma kept_calls bs :
  tag "assistant" (kept results bs) = List.filter has_answer (tag "assistant" (List.filter (is_type "tool_use") bs)).
Proof.
  unfold tag, kept. rewrite filter_of_map. f_equal. apply filter_ext. intros b.
  unfold answered, has_answer, answer_block. cbn. by destruct (results !! acb_ID b).
Qed.

Lemma kept_blocks bs :
  tag "user" (map (answer_of results) (kept results bs))
  = omap answer_block (tag "assistant" (List.filter (is_type "tool_use") bs)).
Proof.
  unfold kept. induction (List.filter (is_type "tool_use") bs) as [|b l IH]; [done|].
  change (tag "assistant" (b :: l)) with (("assistant", norm_block b) :: tag "assistant" l).
  cbn [List.filter omap list_omap]. rewrite <- IH.
  unfold answered at 1, answer_block. cbn [snd]. change (acb_ID (norm_block b)) with (acb_ID b).
  destruct (results !! acb_ID b) as [r|] eqn:E; [|done]. cbn [fmap option_fmap option_map map].
  unfold answer_of at 1. by rewrite E.
Qed.

Lemma filter_kept bs : List.filter (is_type "tool_use") (kept results bs) = kept results bs.
Proof.
  unfold kept. rewrite !filter_and. apply filter_ext. intros b. by destruct (is_type _ b), (answered _ b).
Qed.
Lemma filter_kept_not bs : List.filter (fun b => negb (is_type "tool_use" b)) (kept results bs) = [].
Proof. rewrite <- filter_kept, filter_and. apply filter_none. intros b. by destruct (is_type _ b). Qed.
Lemma kept_are_answered bs : Forall (fun tu => answered results tu = true) (kept results bs).
Proof. apply Forall_forall. intros tu Hin%list_elem_of_In%filter_In. tauto. Qed.
Lemma filter_answers bs :
  List.filter (is_type "tool_result") (map (answer_of results) (kept results bs))
  = map (answer_of results) (kept results bs).
Proof.
  induction (kept_are_answered bs) as [|b l Hb _ IH]; [done|]. cbn [map List.filter].
  destruct (answer_of_ok results Hres b Hb) as [-> _]. by rewrite IH.
Qed.
Lemma filter_answers_not bs :
  List.filter (fun b => negb (is_type "tool_result" b)) (map (answer_of results) (kept results bs)) = [].
Proof. rewrite <- filter_answers, filter_and. apply filter_none. intros b. by destruct (is_type _ b). Qed.

Definition others (type : string) (bs : list AnthropicContentBlock) : list AnthropicContentBlock :=
  List.filter (fun b => negb (is_type type b)) bs.

Lemma others_all type bs : List.filter (is_type type) bs = [] -> others type bs = bs.
Proof.
  unfold others. induction bs as [|b bs IH]; [done|]. simpl. destruct (is_type type b); [done|].
  simpl. intros H. by rewrite IH.
Qed.
Lemma others_others type bs : others type (others type bs) = others type bs.
Proof. unfold others. rewrite filter_and. apply filter_ext. intros b. by destruct (is_type _ b). Qed.
Lemma others_none type bs : List.filter (is_type type) (others type bs) = [].
Proof. unfold others. rewrite filter_and. apply filter_none. intros b. by destruct (is_type _ b). Qed.
Lemma others_wf type m : Forall (wf_block 1) (others type (view m)).
Proof. apply filter_wf, view_wf. Qed.

Lemma normalize_assistant m :
  am_Role m = "assistant" ->
  all_blocks (normalize_message results m) =
    tag "assistant" (others "tool_use" (view m) ++ kept results (view m))
    ++ tag "user" (map (answer_of results) (kept results (view m))).
Proof.
  intros Ha. pose proof (others_wf "tool_use" m) as Wo.
  assert (Wk : Forall (wf_block 1) (kept results (view m))) by (do 2 apply filter_wf; apply view_wf).
  pose proof (kept_answers results Hres (view m)) as [_ Wa].
  rewrite normalize_message_cases, Ha. change ("assistant" =?s "assistant") with true. cbv iota.
  fold (others "tool_use" (view m)).
  destruct (List.filter (is_type "tool_use") (view m)) as [|u us] eqn:Eu.
  - rewrite others_all by done. unfold kept. rewrite Eu. cbn [List.filter map].
    unfold all_blocks. cbn [flat_map tag map]. rewrite !app_nil_r. unfold tagged. by rewrite Ha.
  - revert Wo Wk Wa. generalize (kept results (view m)), (others "tool_use" (view m)).
    intros ks os Wo Wk Wa. destruct ks as [|k ks].
    + destruct os; [done|]. unfold all_blocks. cbn [flat_map]. rewrite tagged_blocks by done.
      by rewrite !app_nil_r.
    + unfold all_blocks. cbn [flat_map]. rewrite !tagged_blocks by (done || by apply Forall_app).
      by rewrite app_nil_r.
Qed.

Lemma normalize_user m :
  am_Role m = "user" ->
  all_blocks (normalize_message results m) = tag "user" (others "tool_result" (view m)).
Proof.
  intros Hu. pose proof (others_wf "tool_result" m) as Wn.
  rewrite normalize_message_cases, Hu. change ("user" =?s "assistant") with false.
  change ("user" =?s "user") with true. cbn [andb]. fold (others "tool_result" (view m)).
  destruct (existsb _ (view m)) eqn:E.
  - destruct (others "tool_result" (view m)) eqn:Eo; [done|]. unfold all_blocks. cbn [flat_map].
    by rewrite app_nil_r, tagged_blocks.
  - rewrite others_all. { unfold all_blocks. cbn [flat_map]. rewrite app_nil_r. unfold tagged. by rewrite Hu. }
    clear -E. revert E. generalize (view m). intros bs. induction bs as [|b bs IH]; [done|].
    simpl. intros [-> E]%orb_false_iff. by apply IH.
Qed.

Lemma normalize_message_keeps m :
  let out := all_blocks (normalize_message results m) in
  let calls := List.filter is_call (tagged m) in
  List.filter is_other out = List.filter is_other (tagged m)
  /\ List.filter is_call out = List.filter has_answer calls
  /\ List.filter is_answer out = omap answer_block calls.
Proof.
  cbv zeta. change (tagged m) with (tag (am_Role m) (view m)).
  destruct (decide (am_Role m = "assistant")) as [Ha|Ha]; [|destruct (decide (am_Role m = "user")) as [Hu|Hu]].
  - rewrite normalize_assistant, Ha, !List.filter_app by done.
    rewrite !assistant_others, !assistant_calls, assistant_answers, (user_calls "user"), user_answers, user_others by done.
    rewrite <- kept_calls, <- kept_blocks, !List.filter_app, filter_kept, filter_kept_not, filter_answers_not, filter_answers.
    fold (others "tool_use" (view m)) (others "tool_use" (others "tool_use" (view m))).
    rewrite others_others, others_none, !app_nil_r. done.
  - rewrite normalize_user, Hu by done. rewrite !(user_calls "user"), user_answers, !user_others by done.
    fold (others "tool_result" (view m)) (others "tool_result" (others "tool_result" (view m))).
    by rewrite others_others, others_none.
  - assert (E : all_blocks (normalize_message results m) = tag (am_Role m) (view m)).
    { rewrite normalize_message_cases. apply String.eqb_neq in Ha, Hu. rewrite Ha, Hu. cbn [andb].
      unfold all_blocks. cbn [flat_map]. apply app_nil_r. }
    rewrite E, (user_calls _ _ Ha). split_and!; [done..|].
    apply String.eqb_neq in Hu. unfold tag. rewrite filter_of_map, filter_none; [done|].
    intros b. unfold is_answer. cbn [fst]. by rewrite Hu.
Qed.
End Keeps.

Lemma flat_map_keeps {A B} (p : B -> bool) (f g : A -> list B) l :
  (forall a, List.filter p (f a) = List.filter p (g a)) ->
  List.filter p (flat_map f l) = List.filter p (flat_map g l).
Proof. intros H. rewrite !flat_map_filter. by apply flat_map_ext. Qed.

Lemma pairing_keeps results (Hres : indexed results) ms :
  let out := all_blocks (List.concat (map (normalize_message results) ms)) in
  let calls := List.filter is_call (all_blocks ms) in
  List.filter is_other out = List.filter is_other (all_blocks ms)
  /\ List.filter is_call out = List.filter (has_answer results) calls
  /\ List.filter is_answer out = omap (answer_block results) calls.
Proof.
  cbv zeta. induction ms as [|m ms (IH1 & IH2 & IH3)]; [done|]. cbn [map List.concat].
  destruct (normalize_message_keeps results Hres m) as (H1 & H2 & H3).
  change (all_blocks (m :: ms)) with (tagged m ++ all_blocks ms).
  assert (E : forall l1 l2, all_blocks (l1 ++ l2) = all_blocks l1 ++ all_blocks l2) by apply flat_map_app.
  rewrite E, !List.filter_app, omap_app, H1, H2, H3, IH1, IH2, IH3. done.
Qed.

Lemma repair_blocks messages :
  let before := all_blocks messages in
  let after := all_blocks (repair_messages messages) in
  let calls := List.filter is_call before in
  List.filter is_other after = List.filter is_other before
  /\ List.filter is_call after
     = List.filter (fun c => bool_decide (is_Some (answer_to before c))) calls
  /\ List.filter is_answer after = omap (answer_to before) calls.
Proof.
  cbv zeta. unfold repair_messages, normalizeAnthropicToolPairing. rewrite merge_blocks.
  set (ms := mergeConsecutiveMessages messages).
  assert (E : all_blocks messages = all_blocks ms) by (symmetry; apply merge_blocks).
  destruct (pairing_keeps _ (index_results_indexed ms) ms) as (H1 & H2 & H3).
  assert (A : forall c, answer_block (index_results ms) c = answer_to (all_blocks messages) c).
  { intros c. rewrite E. apply index_answer. }
  rewrite H1, H2, H3, E. split_and!; [done| |].
  - apply filter_ext. intros c. unfold has_answer. rewrite A, E. by destruct (answer_to _ c).
  - rewrite <- E. apply list_omap_ext, Forall_Forall2_diag, Forall_true, A.
Qed.

(** The repair of the tool pairing drops nothing but unanswered calls and answers
    without a call, and reorders nothing but the answers: read as one sequence of
    blocks (contents compacted, as [json.Marshal] writes them), the text, images,
    documents and thinking of all messages stay as they are; the calls that remain are
    exactly the answered ones, in their order; and the answers are, call by call, the
    last answer to each. *)
Theorem repair_keeps messages :
  let before := all_blocks messages in
  let after := all_blocks (repair_messages messages) in
  let calls := List.filter is_call before in
  List.filter is_other after = List.filter is_other before
  /\ List.filter is_call after
     = List.filter (fun c => bool_decide (is_Some (answer_to before c))) calls
  /\ List.filter is_answer after = omap (answer_to before) calls.
Proof. apply repair_blocks. Qed.

(** A question, a call with its answer between two notes, and an answer without a call. *)
Definition sample_input : string :=
  print_array (map print_members
    [[("role", json_quote "user"); ("content", json_quote "list the files")];
     [("type", json_quote "function_call"); ("call_id", json_quote "call_1");
      ("name", json_quote "ls"); ("arguments", json_quote "{}")];
     [("role", json_quote "user"); ("content", json_quote "and hurry")];
     [("type", json_quote "function_call_output"); ("call_id", json_quote "call_1");
      ("output", json_quote "a.txt")];
     [("type", json_quote "function_call_output"); ("call_id", json_quote "call_2");
      ("output", json_quote "lost")]]).

Definition conversation (r : result (string * list AnthropicMessage)) : list AnthropicMessage :=
  match r with inr (_, ms) => ms | inl _ => [] end.

Lemma paired_messages_witness :
  let messages := conversation (convertResponsesInputToAnthropic "" sample_input false) in
  map am_Role messages = ["user"; "assistant"; "user"]
  /\ exists m, messages !! 1 = Some m /\ calls m = ["call_1"]
       /\ exists n, messages !! 2 = Some n /\ am_Role n = "user" /\ "call_1" ∈ answers n.
Proof.
  cbv zeta. split; [vm_compute; reflexivity|].
  destruct (conversation (convertResponsesInputToAnthropic "" sample_input false) !! 1) as [m|] eqn:E;
    [|vm_compute in E; discriminate].
  exists m. split; [reflexivity|].
  assert (Hc : calls m = ["call_1"] /\ am_Role m = "assistant").
  { vm_compute in E. injection E as <-. vm_compute. by split. }
  split; [apply Hc|].
  destruct (convertResponsesInputToAnthropic "" sample_input false) as [e|[system messages]] eqn:Ec;
    [vm_compute in Ec; discriminate|].
  destruct (paired_messages _ _ _ _ _ Ec _ _ E) as (_ & H & _).
  apply H; [apply Hc|]. destruct Hc as [-> _]. left.
Defined.

(** ** Signed thinking survives the bridge *)

Lemma base64_char_value n : (n < 64)%N -> base64_value (base64_char n) = Some n
  /\ (is_c 10 (base64_char n) || is_c 13 (base64_char n)) = false.
Proof.
  intros H. assert (E : In n (map N.of_nat (seq 0 64))).
  { apply in_map_iff. exists (N.to_nat n). rewrite N2Nat.id. split; [done|]. apply in_seq. lia. }
  revert n H E. assert (A : forallb (fun n =>
      match base64_value (base64_char n) with Some m => (m =? n)%N | None => false end
      && negb (is_c 10 (base64_char n) || is_c 13 (base64_char n))) (map N.of_nat (seq 0 64)) = true)
    by by vm_compute.
  intros n _ Hin. rewrite forallb_forall in A. specialize (A n Hin).
  apply andb_true_iff in A as [A1 A2%negb_true_iff]. split; [|done].
  destruct (base64_value _) as [m|]; [|done]. by apply N.eqb_eq in A1 as ->.
Qed.

Definition digit64 (n shift : N) : N := N.land (N.shiftr n shift) 63.
Lemma digit64_mod n shift : digit64 n shift = ((n / 2 ^ shift) mod 64)%N.
Proof. unfold digit64. rewrite N.shiftr_div_pow2. apply (N.land_ones _ 6). Qed.
Lemma digit64_lt n shift : (digit64 n shift < 64)%N.
Proof. rewrite digit64_mod. by apply N.mod_lt. Qed.
Lemma digit64_value n shift : base64_value (base64_char (digit64 n shift)) = Some (digit64 n shift).
Proof. apply base64_char_value, digit64_lt. Qed.

Lemma byte_of_byte c n : n = byte_N c -> byte_of n = c.
Proof. intros ->. apply Ascii.ascii_N_embedding. Qed.
Lemma byte_lt c : (byte_N c < 256)%N.
Proof. apply Ascii.N_ascii_bounded. Qed.

Lemma digit_ok n shift :
  (is_c 10 (base64_char (digit64 n shift)) || is_c 13 (base64_char (digit64 n shift))) = false.
Proof. apply base64_char_value, digit64_lt. Qed.

Lemma base64_groups_raw s :
  base64_groups (String.list_ascii_of_string (base64_raw s)) = Some s
  /\ Forall (fun c => (is_c 10 c || is_c 13 c) = false) (String.list_ascii_of_string (base64_raw s)).
Proof.
  remember (String.length s) as n eqn:En. revert s En.
  induction (lt_wf n) as [n _ IH]. intros s ->.
  destruct s as [|a [|b [|c s]]]; [by split; [|constructor]|..].
  - split; [|repeat constructor; apply digit_ok].
    cbn [base64_raw]. set (n := (byte_N a * 2 ^ 4)%N).
    change (base64_groups [base64_char (digit64 n 6); base64_char (digit64 n 0)] = Some (String a "")).
    cbn [base64_groups]. rewrite !digit64_value. cbn [mbind option_bind]. do 2 f_equal.
    apply byte_of_byte. rewrite !digit64_mod. unfold n. pose proof (byte_lt a). lia.
  - split; [|repeat constructor; apply digit_ok].
    cbn [base64_raw]. set (n := (byte_N a * 2 ^ 10 + byte_N b * 2 ^ 2)%N).
    change (base64_groups [base64_char (digit64 n 12); base64_char (digit64 n 6);
                           base64_char (digit64 n 0)] = Some (String a (String b ""))).
    cbn [base64_groups]. rewrite !digit64_value. cbn [mbind option_bind]. pose proof (byte_lt a). pose proof (byte_lt b).
    do 2 f_equal; [|f_equal]; apply byte_of_byte; rewrite !digit64_mod; unfold n; lia.
  - destruct (IH (String.length s) ltac:(cbn [String.length]; lia) s eq_refl) as [IH1 IH2].
    split; [|repeat (constructor; [apply digit_ok|]); exact IH2].
    cbn [base64_raw]. set (n := (byte_N a * 2 ^ 16 + byte_N b * 2 ^ 8 + byte_N c)%N).
    change (base64_groups (base64_char (digit64 n 18) :: base64_char (digit64 n 12)
              :: base64_char (digit64 n 6) :: base64_char (digit64 n 0)
              :: String.list_ascii_of_string (base64_raw s)) = Some (String a (String b (String c s)))).
    cbn [base64_groups]. rewrite !digit64_value. cbn [mbind option_bind]. rewrite IH1.
    cbn [mbind option_bind]. pose proof (byte_lt a). pose proof (byte_lt b). pose proof (byte_lt c).
    do 2 f_equal; [|f_equal; [|f_equal]]; apply byte_of_byte; rewrite !digit64_mod; unfold n; lia.
Qed.

Lemma base64_decode_raw s : base64_decode (base64_raw s) = Some s.
Proof.
  unfold base64_decode. destruct (base64_groups_raw s) as [E F].
  enough (List.filter (fun c => negb (is_c 10 c || is_c 13 c)) (String.list_ascii_of_string (base64_raw s))
          = String.list_ascii_of_string (base64_raw s)) as -> by done.
  clear E. induction F as [|c l Hc _ IH]; [done|]. cbn [List.filter]. by rewrite Hc, IH.
Qed.

(** The block an envelope carries: type, text, signature and redacted data. *)
Definition envelope_block (b : AnthropicContentBlock) : AnthropicContentBlock :=
  zero_AnthropicContentBlock <| acb_Type := acb_Type b |> <| acb_Thinking := acb_Thinking b |>
    <| acb_Signature := acb_Signature b |> <| acb_Data := acb_Data b |>.
Definition envelope_wf (b : AnthropicContentBlock) : Prop :=
  wf_str (acb_Type b) /\ wf_str (acb_Thinking b) /\ wf_str (acb_Signature b) /\ wf_str (acb_Data b).

Lemma envelope_payload b :
  envelope_wf b ->
  exists payload, encodeAnthropicThinking b = anthropicThinkingEnvelopePrefix +:+ base64_raw payload
    /\ dec_AnthropicContentBlock payload zero_AnthropicContentBlock = Some (envelope_block b).
Proof.
  intros (Ht & Hk & Hs & Hd). eexists. split; [reflexivity|].
  destruct (emits_struct AnthropicContentBlock_fields 0
    [e_string "type" (acb_Type b); e_string "thinking" (acb_Thinking b);
     e_string_omit "signature" (acb_Signature b); e_string_omit "data" (acb_Data b)]
    zero_AnthropicContentBlock (envelope_block b)) as (s & E & _ & D); [done| |].
  - eexists. split; [by eapply emits_string|]. eexists. split; [by eapply emits_string|].
    eexists. split; [by eapply emits_string_omit|]. eexists. split; [by eapply emits_string_omit|].
    reflexivity.
  - replace (marshal_string_map _) with s; [exact D|]. revert E. clear. unfold e_struct, e_string_omit, e_string.
    intros (ls & E & ->)%fmap_Some. unfold marshal_string_map. f_equal. revert E.
    destruct (acb_Signature b =?s ""), (acb_Data b =?s ""); cbn; by intros [= <-].
Qed.

Lemma HasPrefix_app p s : HasPrefix (p +:+ s) p = true.
Proof. apply HasPrefix_spec. by exists s. Qed.
Lemma TrimPrefix_app p s : TrimPrefix (p +:+ s) p = s.
Proof. unfold TrimPrefix, CutPrefix. by rewrite HasPrefix_app, str_drop_app. Qed.

Lemma decode_envelope b :
  envelope_wf b ->
  decode_thinking_envelope (encodeAnthropicThinking b) =
    if signed_thinking b then inr (envelope_block b) else inl ErrUnsignedThinking.
Proof.
  intros (payload & -> & D)%envelope_payload. unfold decode_thinking_envelope.
  rewrite TrimPrefix_app, base64_decode_raw. cbn [ok_or mbind result_bind]. rewrite D.
  cbn [ok_or mbind result_bind]. by destruct b.
Qed.

(** What Anthropic accepts back: thinking with a signature, redacted thinking with its
    data. *)
Definition verifiable (b : AnthropicContentBlock) : Prop :=
  (acb_Type b = "thinking" /\ acb_Signature b <> "")
  \/ (acb_Type b = "redacted_thinking" /\ acb_Data b <> "").

Lemma signed_verifiable b : signed_thinking b = true <-> verifiable b.
Proof.
  unfold signed_thinking, verifiable. rewrite negb_true_iff, andb_false_iff, !orb_false_iff.
  by rewrite !negb_false_iff, !String.eqb_eq, !String.eqb_neq.
Qed.

(** Signed thinking survives the two conversions: the [encrypted_content] that
    [encodeAnthropicThinking] wrote for a thinking or redacted block is turned back
    into an assistant message with exactly that block, text and signature unchanged,
    for the models that check signatures; a block without its signature is refused,
    and for the other models the item is left out. *)
Theorem thinking_envelope_roundtrip b item st :
  envelope_wf b ->
  rii_Role item = "" -> rii_Type item = "reasoning" ->
  rii_EncryptedContent item = encodeAnthropicThinking b ->
  (verifiable b -> exists m,
      convert_item true item st = inr (st <| cv_messages := cv_messages st ++ [m] |>)
      /\ am_Role m = "assistant" /\ parseContentBlocks (am_Content m) = [envelope_block b])
  /\ (~ verifiable b -> convert_item true item st = inl ErrUnsignedThinking)
  /\ convert_item false item st = inr st.
Proof.
  intros Hb Hr Ht He. pose proof (decode_envelope b Hb) as D.
  assert (Hp : HasPrefix (encodeAnthropicThinking b) anthropicThinkingEnvelopePrefix = true)
    by apply HasPrefix_app.
  unfold convert_item. rewrite Hr, Ht, He, Hp, D.
  cbn [one_of existsb String.eqb orb andb]. split_and!.
  - intros Hs%signed_verifiable. assert (Hw : Forall (wf_block 1) [envelope_block b]).
    { constructor; [|constructor]. destruct Hb as (? & ? & ? & ?). by split; try left. }
    destruct (blocks_roundtrip 0 [envelope_block b]) as (s & Es & _ & Er); [done..|].
    exists (MkAnthropicMessage "assistant" s). rewrite Hs. cbn [mbind result_bind]. rewrite Es.
    split_and!; [done..|]. cbn [am_Content]. unfold parseContentBlocks. by rewrite Er.
  - intros Hs. destruct (signed_thinking b) eqn:E; [|done]. by apply signed_verifiable in E.
  - done.
Qed.

Definition sample_thinking : AnthropicContentBlock :=
  zero_AnthropicContentBlock <| acb_Type := "thinking" |> <| acb_Thinking := "first list, then read" |>
    <| acb_Signature := "EqQB" |>.
Lemma thinking_envelope_roundtrip_witness :
  exists m, convert_item true (zero_ResponsesInputItem <| rii_Type := "reasoning" |>
      <| rii_EncryptedContent := encodeAnthropicThinking sample_thinking |>) (MkConversion [] [])
    = inr (MkConversion [] [m]) /\ parseContentBlocks (am_Content m) = [sample_thinking].
Proof.
  destruct (thinking_envelope_roundtrip sample_thinking
    (zero_ResponsesInputItem <| rii_Type := "reasoning" |>
      <| rii_EncryptedContent := encodeAnthropicThinking sample_thinking |>) (MkConversion [] []))
    as (H & _ & _); [by split_and!|done..|].
  destruct H as (m & E & _ & Hm); [by left|]. exists m. split; [exact E|exact Hm].
Defined.

(** ** Call ids *)

Definition known_id (id : string) : bool := HasPrefix id "toolu_" || HasPrefix id "call_".

Lemma known_not_fc id : known_id id = true -> HasPrefix id "fc_" = false.
Proof.
  intros [H|H]%orb_true_iff; apply HasPrefix_spec in H as [t ->]; done.
Qed.

(** Ids of both vendors go through unchanged, the prefix of older gateways is taken
    off, any other id gets Anthropic's prefix; so every converted id is one Anthropic
    accepts, and converting twice changes nothing. *)
Lemma call_id_cases id :
  (known_id id = true -> fromResponsesCallIDToAnthropic id = id
     /\ fromResponsesCallIDToAnthropic ("fc_" +:+ id) = id)
  /\ known_id (fromResponsesCallIDToAnthropic id) = true
  /\ fromResponsesCallIDToAnthropic (fromResponsesCallIDToAnthropic id)
     = fromResponsesCallIDToAnthropic id.
Proof.
  assert (K : forall i, known_id i = true -> fromResponsesCallIDToAnthropic i = i).
  { intros i Hi. unfold fromResponsesCallIDToAnthropic, CutPrefix.
    rewrite (known_not_fc i Hi). fold (known_id i). by rewrite Hi. }
  assert (P : known_id (fromResponsesCallIDToAnthropic id) = true).
  { unfold fromResponsesCallIDToAnthropic. fold (known_id id).
    assert (S : known_id (if known_id id then id else "toolu_" +:+ id) = true).
    { destruct (known_id id) eqn:E; [done|]. unfold known_id. by rewrite HasPrefix_app. }
    destruct (CutPrefix id "fc_") as [after|]; [|done]. fold (known_id after).
    by destruct (known_id after) eqn:E. }
  split_and!; [|done|by apply K].
  intros Hi. split; [by apply K|]. unfold fromResponsesCallIDToAnthropic, CutPrefix.
  rewrite HasPrefix_app, str_drop_app. fold (known_id id). by rewrite Hi.
Qed.

(** ** A call with arguments that are not JSON

    [json.Marshal] of its block fails, the error is dropped and the message has no
    content; the repair then finds no call and drops the answer as well. *)
Lemma invalid_arguments_lose_call :
  let item type name value := [("type", json_quote type); ("call_id", json_quote "call_1"); (name, json_quote value)] in
  let input := print_array (map print_members
    [item "function_call" "arguments" "{"; item "function_call_output" "output" "a.txt"]) in
  convertResponsesInputToAnthropic "" input false = inr ("", [MkAnthropicMessage "assistant" ""]).
Proof. vm_compute. reflexivity. Qed.
