(* ===== verification/RequestRoundtrip.v ===== *)
(** * There and back: Anthropic to Responses to Anthropic

    The composition of [AnthropicToResponsesRequest] and [ResponsesToAnthropicRequest]:
    a conversation sent through both keeps its tool calls and their answers
    ([conversation_roundtrip]).  Lemmas on what each item becomes
    ([call_item], [output_item], [user_item], [assistant_item], [reasoning_items]),
    and on splitting UTF-8 text at an ASCII byte ([utf8_split]). *)

From S2P Require Import Prelude Json JsonCodec JsonGrammar JsonStrings JsonCodecProofs GoStrings ModelNames ToolSchema Apicompat RequestCodec RequestCodecProofs AnthropicToResponses ResponsesToAnthropicRequest ResponsesToAnthropicRequestProofs AnthropicToResponsesRequest.
Local Open Scope string_scope.
Local Open Scope nat_scope.
Local Open Scope list_scope.
Local Open Scope go_scope.

(** ** Splitting text *)

Lemma str_app_split (a u x t : string) :
  a +:+ x = u +:+ t ->
  (exists a2, a = u +:+ a2 /\ t = a2 +:+ x)
  \/ (exists c u2, u = a +:+ String c u2 /\ x = String c u2 +:+ t).
Proof.
  revert u. induction a as [|c a IH]; intros [|d u] H.
  - left. by exists "".
  - right. by exists d, u.
  - left. exists (String c a). by split.
  - change (String c (a +:+ x) = String d (u +:+ t)) in H. injection H as -> H.
    destruct (IH u H) as [(a2 & -> & ->)|(e & u2 & -> & ->)]; [left; by exists a2|right; by exists e, u2].
Qed.

Lemma all_bytes_drop p (a : string) c u :
  a <> "" -> all_bytes p (str_drop 1 (a +:+ String c u)) -> p c = true.
Proof.
  intros Ha H. destruct a as [|b a]; [done|].
  change (str_drop 1 (String b a +:+ String c u)) with (a +:+ String c u) in H.
  apply all_bytes_app in H as [_ H]. by inversion H.
Qed.

(** A valid text cut before a byte that starts a rune gives valid texts. *)
Lemma utf8_split_at a c b :
  in_range 128 191 (code c) = false -> utf8_valid (a +:+ String c b) = true ->
  utf8_valid a = true /\ utf8_valid (String c b) = true.
Proof.
  intros Hc. remember (String.length a) as n eqn:En. revert a En.
  induction (lt_wf n) as [n _ IH]. intros a -> H.
  destruct a as [|x a]; [by split|].
  change (String x a +:+ String c b) with (String x (a +:+ String c b)) in H.
  rewrite utf8_valid_cons in H. apply andb_true_iff in H as [Hb%negb_true_iff Ht].
  destruct (decode_rune (String x (a +:+ String c b))) as [r w] eqn:E.
  destruct (decode_rune_valid _ _ _ _ E Hb) as (u & t & Eu & -> & _ & Ed & Hu & Hd).
  cbn [snd] in Ht. rewrite Ed in Ht.
  destruct (str_app_split (String x a) u (String c b) t Eu) as [(a2 & Ea & ->)|(d & u2 & -> & [= <- _])].
  - assert (Hl : String.length u + String.length a2 = S (String.length a)).
    { by rewrite <- str_length_app, <- Ea. }
    assert (0 < String.length u).
    { destruct u; [|cbn; lia]. pose proof (decode_width x (a +:+ String c b)) as Hw. rewrite E in Hw. cbn in Hw. lia. }
    destruct (IH (String.length a2) ltac:(cbn; lia) a2 eq_refl Ht) as [Ha2 Hb2]. split; [|done].
    rewrite Ea. destruct u as [|y u]; [done|].
    change (String y u +:+ a2) with (String y (u +:+ a2)). rewrite utf8_valid_cons.
    change (String y (u +:+ a2)) with (String y u +:+ a2). rewrite Hd, Hb. cbn [negb andb snd].
    by rewrite str_drop_app.
  - apply all_bytes_drop in Hu; [|done]. congruence.
Qed.

Lemma utf8_split a c b :
  code c < 128 -> utf8_valid (a +:+ String c b) = true -> utf8_valid a = true /\ utf8_valid b = true.
Proof.
  intros Hc [Ha Hb]%utf8_split_at; [|apply in_range_false; lia]. by rewrite utf8_valid_ascii in Hb.
Qed.

(** Valid texts side by side, and apart again. *)
Lemma utf8_app a b : utf8_valid a = true -> utf8_valid (a +:+ b) = utf8_valid b.
Proof.
  remember (String.length a) as n eqn:En. revert a En.
  induction (lt_wf n) as [n _ IH]. intros a -> Ha. destruct a as [|c a]; [done|].
  rewrite utf8_valid_cons in Ha. apply andb_true_iff in Ha as [Hv%negb_true_iff Ht].
  destruct (decode_rune (String c a)) as [r w] eqn:E.
  destruct (decode_rune_valid _ _ _ _ E Hv) as (u & t & Eu & -> & _ & Ed & _ & Hd).
  cbn [snd] in Ht. rewrite Ed in Ht. pose proof (decode_width c a) as Hw. rewrite E in Hw. cbn [snd] in Hw.
  assert (Hl : String.length u + String.length t = S (String.length a)) by by rewrite <- str_length_app, <- Eu.
  rewrite Eu, str_app_assoc. destruct u as [|y u]; [cbn in Hw; lia|].
  change (String y u +:+ (t +:+ b)) with (String y (u +:+ (t +:+ b))). rewrite utf8_valid_cons.
  change (String y (u +:+ (t +:+ b))) with (String y u +:+ (t +:+ b)). rewrite Hd, Hv. cbn [negb andb snd].
  rewrite str_drop_app. apply (IH (String.length t)); [cbn in *; lia|done..].
Qed.

Lemma utf8_prefix p s :
  forallb (fun c => code c <? 128) (String.list_ascii_of_string p) = true ->
  utf8_valid (p +:+ s) = utf8_valid s.
Proof.
  induction p as [|c p IH]; [done|]. cbn [String.list_ascii_of_string forallb].
  intros [Hc%Nat.ltb_lt Hp]%andb_true_iff.
  change (String c p +:+ s) with (String c (p +:+ s)). rewrite utf8_valid_ascii by done. by apply IH.
Qed.

(** [TrimSpace] keeps a text valid. *)
Lemma CutPrefix_split s p r : CutPrefix s p = Some r -> s = p +:+ r.
Proof.
  unfold CutPrefix. destruct (HasPrefix s p) eqn:E; [|done]. intros [= <-].
  symmetry. by apply HasPrefix_drop.
Qed.

Lemma trim_left_keeps (P : string -> Prop) ps s :
  (forall p r, In p ps -> P (p +:+ r) -> P r) -> P s -> P (trim_left ps s).
Proof.
  intros Hp. unfold trim_left. generalize (String.length s). intros f. revert s.
  induction f as [|f IH]; intros s H; [done|]. cbn [trim_left_fuel].
  assert (Hs : forall qs s', (forall p, In p qs -> In p ps) -> strip_one qs s = Some s' -> P s').
  { induction qs as [|q qs IHq]; intros s' Hq Es; [done|]. cbn [strip_one] in Es.
    destruct (CutPrefix s q) as [t|] eqn:Ec.
    - injection Es as <-. apply CutPrefix_split in Ec as ->. eapply Hp; [|exact H]. apply Hq. by left.
    - apply IHq; [|done]. intros p Hin. apply Hq. by right. }
  destruct (strip_one ps s) as [s'|] eqn:Es; [|done]. apply IH. by eapply Hs.
Qed.

Lemma str_rev_app_app a b : str_rev (a +:+ b) = str_rev b +:+ str_rev a.
Proof.
  induction a as [|c a IH]; [by rewrite str_app_nil_r|].
  change (String c a +:+ b) with (String c (a +:+ b)). rewrite !str_rev_cons, IH. by rewrite str_app_assoc.
Qed.

Lemma TrimSpace_wf s : wf_str s -> wf_str (TrimSpace s).
Proof.
  intros H. unfold TrimSpace.
  apply (trim_left_keeps (fun r => wf_str (str_rev r))).
  - intros p r (q & <- & Hq)%in_map_iff Hv. rewrite str_rev_app_app, str_rev_involutive in Hv.
    assert (C : match q with String c _ => in_range 128 191 (code c) | _ => true end = false).
    { clear -Hq. assert (F : forallb (fun q => negb match q with String c _ => in_range 128 191 (code c) | _ => true end)
        space_encodings = true) by (vm_compute; reflexivity).
      rewrite forallb_forall in F. by apply F, negb_true_iff in Hq. }
    destruct q as [|c q]; [done|]. by apply utf8_split_at in Hv as [? _].
  - rewrite str_rev_involutive. apply trim_left_keeps; [|done]. intros p r Hp Hv.
    assert (F : forallb utf8_valid space_encodings = true) by (vm_compute; reflexivity).
    rewrite forallb_forall in F. unfold wf_str in *. by rewrite utf8_app in Hv by by apply F.
Qed.

(** ** Parts and blocks *)

Lemma IndexByte_split s c i :
  IndexByte s c = Some i -> s = str_take i s +:+ String c (str_drop (S i) s).
Proof.
  revert i. induction s as [|d s IH]; intros i H; [done|]. cbn [IndexByte] in H.
  destruct (Ascii.eqb d c) eqn:E.
  - injection H as <-. apply Ascii.eqb_eq in E as ->. done.
  - apply fmap_Some in H as (j & Hj & ->). cbn [str_take str_drop].
    change (String d (str_take j s) +:+ ?x) with (String d (str_take j s +:+ x)). f_equal. by apply IH.
Qed.

Lemma image_source_wf uri src :
  wf_str uri -> dataURIToAnthropicImageSource uri = Some src -> wf_source src.
Proof.
  unfold dataURIToAnthropicImageSource. intros Hu H.
  destruct (CutPrefix uri "data:") as [rest|] eqn:E1; [|done].
  destruct (IndexByte rest semicolon) as [i|] eqn:E2; [|done].
  destruct (CutPrefix (str_drop (S i) rest) "base64,") as [data|] eqn:E3; [|done]. injection H as <-.
  apply CutPrefix_split in E1 as ->. apply IndexByte_split in E2. apply CutPrefix_split in E3.
  unfold wf_str in Hu. rewrite utf8_prefix in Hu by reflexivity.
  rewrite E2 in Hu. apply utf8_split in Hu as [H1 H2]; [|apply Nat.ltb_lt; reflexivity].
  rewrite E3, utf8_prefix in H2 by reflexivity. by split_and!.
Qed.

(** Blocks that are neither calls nor answers. *)
Definition content_block (b : AnthropicContentBlock) : Prop :=
  wf_block 1 b /\ is_type "tool_use" b = false /\ is_type "tool_result" b = false.

Lemma text_content s : wf_str s -> content_block (text_block s).
Proof. intros H. split_and!; [by apply text_block_wf|done|done]. Qed.

Lemma user_part_content p : wf_part 1 p -> Forall content_block (user_part_blocks p).
Proof.
  intros []. unfold user_part_blocks.
  assert (S : forall type uri, wf_str type -> type <> "tool_use" -> type <> "tool_result" -> wf_str uri ->
    Forall content_block (source_block type (dataURIToAnthropicImageSource uri))).
  { intros type uri Ht H1%String.eqb_neq H2%String.eqb_neq Hu.
    destruct (dataURIToAnthropicImageSource uri) as [src|] eqn:E; [|constructor].
    constructor; [|constructor]. split_and!; [|exact H1|exact H2].
    pose proof (image_source_wf _ _ Hu E). by split; try left. }
  destruct (one_of _ (rcp_Type p)).
  { destruct (rcp_Text p =?s ""); [constructor|]. constructor; [by apply text_content|constructor]. }
  destruct (rcp_Type p =?s "input_image"); [by apply S|].
  destruct (rcp_Type p =?s "input_file"); [by apply S|constructor].
Qed.

Lemma assistant_part_content p : wf_part 1 p -> Forall content_block (assistant_part_blocks p).
Proof.
  intros []. unfold assistant_part_blocks. destruct (one_of _ _); [|constructor].
  destruct (rcp_Text p =?s ""); [constructor|]. constructor; [by apply text_content|constructor].
Qed.

Lemma content_blocks f ps :
  (forall p, wf_part 1 p -> Forall content_block (f p)) -> Forall (wf_part 1) ps ->
  Forall content_block (List.concat (map f ps)).
Proof.
  intros Hf. induction 1 as [|p ps Hp _ IH]; [constructor|]. cbn [map List.concat].
  apply Forall_app. split; [by apply Hf|done].
Qed.

(** Messages without calls and answers. *)
Definition quiet (ms : list AnthropicMessage) : Prop :=
  List.filter is_call (all_blocks ms) = [] /\ List.filter is_answer (all_blocks ms) = [].

Lemma quiet_message role bs :
  Forall content_block bs -> quiet [MkAnthropicMessage role (or_nil (marshal_blocks bs))].
Proof.
  intros H. unfold quiet, all_blocks. cbn [flat_map]. rewrite app_nil_r.
  change (MkAnthropicMessage role (or_nil (marshal_blocks bs))) with (anthropicMessageFromBlocks role bs).
  rewrite tagged_blocks by by eapply Forall_impl; [exact H|intros b [? _]].
  unfold tag. rewrite !filter_of_map. induction H as [|b bs (_ & H1 & H2) _ [IH1 IH2]]; [done|].
  cbn [List.filter]. unfold is_call at 1, is_answer at 1. cbn [fst snd]. rewrite !is_type_norm, H1, H2, !andb_false_r.
  done.
Qed.

(** ** What each item becomes *)

(** Converting [items] appends messages with these calls and answers. *)
Definition converts (items : list ResponsesInputItem) (calls answers : list (string * AnthropicContentBlock)) : Prop :=
  Forall (wf_item 1) items /\ map norm_item items = items /\
  forall st, exists system ms,
    convert_items false items st =
      inr (MkConversion (cv_systemParts st ++ system) (cv_messages st ++ ms))
    /\ List.filter is_call (all_blocks ms) = calls
    /\ List.filter is_answer (all_blocks ms) = answers.

Lemma converts_nil : converts [] [] [].
Proof.
  split_and!; [constructor|done|]. intros [system ms]. exists [], []. by rewrite !app_nil_r.
Qed.

Lemma convert_items_app items1 items2 st :
  convert_items false (items1 ++ items2) st = st1 ← convert_items false items1 st; convert_items false items2 st1.
Proof.
  revert st. induction items1 as [|i items1 IH]; intros st; [done|]. cbn [app convert_items].
  destruct (convert_item false i st) as [e|st1]; [done|]. apply IH.
Qed.

Lemma converts_app i1 c1 a1 i2 c2 a2 :
  converts i1 c1 a1 -> converts i2 c2 a2 -> converts (i1 ++ i2) (c1 ++ c2) (a1 ++ a2).
Proof.
  intros (W1 & N1 & H1) (W2 & N2 & H2). split_and!; [by apply Forall_app|by rewrite map_app, N1, N2|].
  intros st. rewrite convert_items_app. destruct (H1 st) as (s1 & m1 & -> & C1 & A1).
  cbn [mbind result_bind]. destruct (H2 (MkConversion (cv_systemParts st ++ s1) (cv_messages st ++ m1)))
    as (s2 & m2 & -> & C2 & A2). exists (s1 ++ s2), (m1 ++ m2). cbn [cv_systemParts cv_messages].
  rewrite <- !app_assoc. split; [done|]. unfold all_blocks in *.
  rewrite flat_map_app, !List.filter_app. by rewrite C1, C2, A1, A2.
Qed.

(** One item that appends at most one message. *)
Lemma converts_one item calls answers :
  wf_item 1 item -> norm_item item = item ->
  (forall st, exists system ms,
     convert_item false item st = inr (MkConversion (cv_systemParts st ++ system) (cv_messages st ++ ms))
     /\ List.filter is_call (all_blocks ms) = calls /\ List.filter is_answer (all_blocks ms) = answers) ->
  converts [item] calls answers.
Proof.
  intros W N H. split_and!; [by constructor|cbn; by rewrite N|]. intros st.
  destruct (H st) as (system & ms & E & C & A). exists system, ms. cbn [convert_items]. by rewrite E.
Qed.

(** Parts without a cache breakpoint. *)
Definition plain_part (p : ResponsesContentPart) : Prop :=
  wf_part 0 p /\ rcp_PromptCacheBreakpoint p = "".
Lemma plain_part_wf d p : plain_part p -> wf_part d p.
Proof. intros [[] E]. split; try done. by left. Qed.
Lemma plain_text type s : wf_str type -> wf_str s -> plain_part (text_part type s).
Proof. intros Ht Hs. split; [|done]. split; try done. by left. Qed.
Lemma plain_image uri : wf_str uri -> plain_part (image_part uri).
Proof. intros Hu. split; [|done]. split; try done. by left. Qed.

(** The content of a message with parts, and what it decodes to. *)
Lemma parts_content ps :
  Forall plain_part ps ->
  exists s, marshal_parts ps = Some s /\ compact_text 2 s /\ unmarshal_parts s = Some ps
    /\ (s =?s "") = false /\ unmarshal_string s = None.
Proof.
  intros H. destruct (parts_roundtrip 2 ps) as (s & E & Hs & D); [done| |].
  { eapply Forall_impl; [exact H|]. intros p. apply plain_part_wf. }
  assert (N : map norm_part ps = ps).
  { clear -H. induction H as [|p ps [_ Hp] _ IH]; [done|]. cbn [map]. rewrite IH. f_equal.
    destruct p. cbn in Hp. subst. done. }
  rewrite N in D. exists s. split_and!; try done; [by eapply compact_nonempty|].
  unfold marshal_parts, e_slice in E. apply fmap_Some in E as (ss & Ess & ->).
  destruct (compact_shape (print_array ss) (Ascii.ascii_of_nat 91) (join_comma ss +:+ b1 93 ""))
    as (v & Ev & Hv); [by eapply compact_text_depth; [|exact Hs]|by rewrite print_array_b1|].
  unfold unmarshal_string, d_string, json_shape. rewrite Ev. cbn [mbind option_bind].
  apply pval_head in Hv. destruct v; try done; by destruct Hv as (Hv & _).
Qed.

Lemma norm_compact d s : compact_text d s -> norm_raw s = s.
Proof.
  intros H. rewrite (norm_raw_value d) by by apply compact_is_value. by apply (compact_jtext d).
Qed.

Lemma message_item_wf role s :
  wf_str role -> compact_text 2 s ->
  wf_item 1 (message_input role s) /\ norm_item (message_input role s) = message_input role s.
Proof.
  intros Hr Hs. split.
  - split; try done. right. by apply compact_is_value.
  - unfold norm_item, message_input. cbn. by rewrite (norm_compact 2).
Qed.

(** Messages built from parts have no calls and no answers. *)
Lemma quiet_add bs st role (b : bool) :
  Forall content_block bs ->
  exists system ms,
    (if b then inr st else inr (add_message role (or_nil (marshal_blocks bs)) st) : result conversion)
      = inr (MkConversion (cv_systemParts st ++ system) (cv_messages st ++ ms))
    /\ List.filter is_call (all_blocks ms) = [] /\ List.filter is_answer (all_blocks ms) = [].
Proof.
  intros H. exists []. destruct b.
  - exists []. rewrite !app_nil_r. by destruct st.
  - eexists. rewrite app_nil_r. split; [reflexivity|]. by apply quiet_message.
Qed.

Lemma content_marshals bs : Forall content_block bs -> exists s, marshal_blocks bs = Some s.
Proof.
  intros H. destruct (blocks_roundtrip 0 bs) as (s & E & _); [done| |by exists s].
  eapply Forall_impl; [exact H|]. by intros b [? _].
Qed.

Lemma user_item ps s :
  Forall plain_part ps -> marshal_parts ps = Some s -> converts [message_input "user" s] [] [].
Proof.
  intros Hp Hs. destruct (parts_content ps Hp) as (s' & E & Hc & D & Hn & Hu).
  rewrite Hs in E. injection E as <-. destruct (message_item_wf "user" s) as [W N]; [done..|].
  apply converts_one; [done..|]. intros st.
  set (bs := List.concat (map user_part_blocks ps)).
  assert (Hbs : Forall content_block bs).
  { apply content_blocks; [apply user_part_content|]. eapply Forall_impl; [exact Hp|]. intros p. apply plain_part_wf. }
  change (convert_item false (message_input "user" s) st) with (convert_user_item (message_input "user" s) st).
  unfold convert_user_item, convertResponsesUserToAnthropicContent. cbn [message_input].
  change (rii_Content _) with s. rewrite Hn, Hu, D. fold bs.
  clearbody bs. destruct bs as [|b l].
  - cbn [mbind result_bind]. exists [], []. rewrite !app_nil_r. by destruct st.
  - destruct (content_marshals _ Hbs) as [c Ec]. rewrite Ec. cbn [ok_or mbind result_bind].
    pose proof (quiet_add (b :: l) st "user" (anthropicContentIsEmpty c) Hbs) as Q.
    rewrite Ec in Q. exact Q.
Qed.

Lemma assistant_item text s :
  wf_str text -> marshal_parts [text_part "output_text" text] = Some s ->
  converts [message_input "assistant" s] [] [].
Proof.
  intros Ht Hs. assert (Hp : Forall plain_part [text_part "output_text" text])
    by (constructor; [by apply plain_text|constructor]).
  destruct (parts_content _ Hp) as (s' & E & Hc & D & Hn & Hu).
  rewrite Hs in E. injection E as <-. destruct (message_item_wf "assistant" s) as [W N]; [done..|].
  apply converts_one; [done..|]. intros st.
  set (bs := match List.concat (map assistant_part_blocks [text_part "output_text" text]) with
             | [] => [text_block ""] | blocks => blocks end).
  assert (Hbs : Forall content_block bs).
  { assert (F : Forall content_block (List.concat (map assistant_part_blocks [text_part "output_text" text]))).
    { apply content_blocks; [apply assistant_part_content|]. eapply Forall_impl; [exact Hp|]. intros p. apply plain_part_wf. }
    unfold bs. destruct (List.concat _); [|done]. constructor; [by apply text_content|constructor]. }
  change (convert_item false (message_input "assistant" s) st) with
    (content ← convertResponsesAssistantToAnthropicContent s;
     if anthropicContentIsEmpty content || anthropicContentIsOnlyBlankText content
     then inr st else inr (add_message "assistant" content st)).
  unfold convertResponsesAssistantToAnthropicContent. rewrite Hn, Hu, D. fold bs.
  destruct (content_marshals _ Hbs) as [c Ec]. rewrite Ec. cbn [ok_or mbind result_bind].
  pose proof (quiet_add bs st "assistant" (anthropicContentIsEmpty c || anthropicContentIsOnlyBlankText c) Hbs) as Q.
  rewrite Ec in Q. exact Q.
Qed.

Lemma developer_item ps :
  Forall plain_part ps -> converts [message_input "developer" (or_nil (marshal_parts ps))] [] [].
Proof.
  intros Hp. destruct (parts_content ps Hp) as (s & E & Hc & _).
  destruct (message_item_wf "developer" s) as [W N]; [done..|]. rewrite E. apply converts_one; [done..|].
  intros st. change (convert_item false _ st) with
    (inr (let text := extractTextFromContent s in
          if text =?s "" then st else st <| cv_systemParts := cv_systemParts st ++ [text] |>) : result conversion).
  cbv zeta. destruct (_ =?s ""); [exists [], []|exists [extractTextFromContent s], []];
    rewrite !app_nil_r; (split; [|done]); by destruct st.
Qed.

Lemma reasoning_items b : wf_block 1 b -> converts (reasoning_input b) [] [].
Proof.
  intros Hb. unfold reasoning_input. destruct (_ || _); [apply converts_nil|]. apply converts_one; [|done|].
  - split; try done; [by left|]. by apply TrimSpace_wf, Hb.
  - intros st. exists [], []. rewrite !app_nil_r. by destruct st.
Qed.

(** The call and the answer Anthropic gets back. *)
Definition rebuilt_call (rb : string * AnthropicContentBlock) : string * AnthropicContentBlock :=
  ("assistant", norm_block (tool_use_block (call_input rb.2))).
Definition rebuilt_answer (rb : string * AnthropicContentBlock) : string * AnthropicContentBlock :=
  ("user", tool_result_block (output_input rb.2)).

Lemma from_call_id_wf id : wf_str id -> wf_str (fromResponsesCallIDToAnthropic id).
Proof.
  intros H. unfold fromResponsesCallIDToAnthropic.
  assert (S : wf_str (if HasPrefix id "toolu_" || HasPrefix id "call_" then id else "toolu_" +:+ id)).
  { destruct (_ || _); [done|]. unfold wf_str. rewrite utf8_app; done. }
  destruct (CutPrefix id "fc_") as [after|] eqn:E; [|exact S].
  destruct (HasPrefix after "toolu_" || HasPrefix after "call_"); [|exact S].
  apply CutPrefix_split in E as ->. unfold wf_str in H. by rewrite utf8_prefix in H.
Qed.

(** A message with one block. *)
Lemma one_block role b :
  wf_block 1 b ->
  all_blocks [MkAnthropicMessage role (or_nil (marshal_blocks [b]))] = [(role, norm_block b)].
Proof.
  intros Hb. unfold all_blocks. cbn [flat_map]. rewrite app_nil_r.
  exact (tagged_blocks role [b] (Forall_cons_2 _ _ _ Hb (Forall_nil_2 _))).
Qed.

Definition call_arguments (b : AnthropicContentBlock) : string :=
  if acb_Input b =?s "" then "{}" else acb_Input b.

Lemma call_input_arguments b : acb_Input (tool_use_block (call_input b)) = call_arguments b.
Proof. unfold call_arguments. cbn. by destruct (acb_Input b =?s "") eqn:E; [|rewrite E]. Qed.

Lemma convert_call p item st :
  rii_Role item = "" -> rii_Type item = "function_call" ->
  convert_item p item st = inr (add_message "assistant" (or_nil (marshal_blocks [tool_use_block item])) st).
Proof. intros Hr Ht. unfold convert_item. rewrite Hr, Ht. reflexivity. Qed.
Lemma convert_output p item st :
  rii_Role item = "" -> rii_Type item = "function_call_output" ->
  convert_item p item st = inr (add_message "user" (or_nil (marshal_blocks [tool_result_block item])) st).
Proof. intros Hr Ht. unfold convert_item. rewrite Hr, Ht. reflexivity. Qed.

Lemma call_arguments_wf b : wf_block 1 b -> wf_raw 2 (call_arguments b).
Proof.
  intros Hb. unfold call_arguments. destruct (acb_Input b =?s "") eqn:E; [|apply Hb].
  right. exists "{}". apply (jt_obj_nil 2 ""); [apply ws_nil|done].
Qed.

Lemma call_block_wf b : wf_block 1 b -> wf_block 1 (tool_use_block (call_input b)).
Proof.
  intros Hb. pose proof (call_arguments_wf b Hb) as Wi. rewrite <- (call_input_arguments b) in Wi.
  destruct Hb. split; try done; try by left. by apply from_call_id_wf.
Qed.

Lemma call_item_wf b : wf_block 1 b -> wf_str (acb_Input b) -> wf_item 1 (call_input b).
Proof.
  intros [] Hi. split; try done; [by left|]. cbn. by destruct (acb_Input b =?s "").
Qed.

Lemma call_item b :
  wf_block 1 b -> wf_str (acb_Input b) -> converts [call_input b] [rebuilt_call ("assistant", b)] [].
Proof.
  intros Hb Hi. apply converts_one; [by apply call_item_wf|done|]. intros st.
  rewrite convert_call by done. exists [].
  exists [MkAnthropicMessage "assistant" (or_nil (marshal_blocks [tool_use_block (call_input b)]))].
  rewrite app_nil_r. split; [reflexivity|]. rewrite one_block by by apply call_block_wf.
  set (x := tool_use_block (call_input b)).
  assert (H1 : is_call ("assistant", norm_block x) = true) by reflexivity.
  assert (H2 : is_answer ("assistant", norm_block x) = false) by reflexivity.
  cbn [List.filter]. rewrite H1, H2. split; reflexivity.
Qed.

Lemma wf_app a b : wf_str a -> wf_str b -> wf_str (a +:+ b).
Proof. intros Ha Hb. unfold wf_str in *. by rewrite utf8_app. Qed.

Lemma join_wf l sep : wf_str sep -> Forall wf_str l -> wf_str (Join l sep).
Proof.
  intros Hs. induction 1 as [|s l Hl H IH]; [done|]. destruct l as [|t l]; [done|].
  change (Join (s :: t :: l) sep) with (s +:+ sep +:+ Join (t :: l) sep). by repeat apply wf_app.
Qed.

Lemma extract_text_wf d bs : Forall (wf_block d) bs -> wf_str (extractAnthropicTextFromBlocks bs).
Proof.
  intros H. unfold extractAnthropicTextFromBlocks. apply join_wf; [done|]. apply Forall_map.
  apply Forall_forall. intros b [Hb _]%list_elem_of_In%filter_In. apply list_elem_of_In in Hb.
  rewrite Forall_forall in H. apply (H b Hb).
Qed.

Lemma output_text_wf b : wf_block 1 b -> wf_str (convertToolResultOutput b).1.
Proof.
  intros Hb. unfold convertToolResultOutput. destruct (acb_Content b =?s ""); [done|].
  destruct (unmarshal_string (acb_Content b)) as [s|] eqn:Es.
  - cbn. destruct (s =?s ""); [done|]. by eapply unmarshal_string_wf.
  - destruct (unmarshal_blocks (acb_Content b)) as [inner|] eqn:Ei; [|done]. cbn [fst].
    destruct (_ =?s ""); [done|]. eapply extract_text_wf, (decoded_block_wf 0); [|exact Ei].
    by eapply unmarshal_blocks_doc.
Qed.

Lemma output_item b :
  wf_block 1 b -> converts [output_input b] [] [rebuilt_answer ("user", b)].
Proof.
  intros Hb. pose proof (output_text_wf b Hb) as Ho.
  set (text := if rii_Output (output_input b) =?s "" then "(empty)" else rii_Output (output_input b)).
  assert (Ec : acb_Content (tool_result_block (output_input b)) = json_quote text) by reflexivity.
  assert (Hw : wf_block 1 (tool_result_block (output_input b))).
  { destruct Hb. split; try done; try by left.
    - by apply from_call_id_wf.
    - rewrite Ec. right. by apply compact_is_value, json_quote_text. }
  assert (Hn : norm_block (tool_result_block (output_input b)) = tool_result_block (output_input b)).
  { unfold norm_block. rewrite Ec, (norm_compact 0) by apply json_quote_text. rewrite <- Ec. done. }
  apply converts_one; [|done|].
  - destruct Hb. split; try done. by left.
  - intros st. rewrite convert_output by done. exists [].
    exists [MkAnthropicMessage "user" (or_nil (marshal_blocks [tool_result_block (output_input b)]))].
    rewrite app_nil_r. split; [reflexivity|].
    rewrite one_block, Hn by done. done.
Qed.

(** ** Messages *)

Lemma image_uri_wf src : from_option wf_source True src -> wf_str (anthropicImageToDataURI src).
Proof.
  destruct src as [s|]; [|done]. intros (Ht & Hm & Hd). cbn. destruct (ais_Data s =?s ""); [done|].
  repeat apply wf_app; try done. by destruct (ais_MediaType s =?s "").
Qed.
Lemma image_parts_plain d b : wf_block d b -> Forall plain_part (image_parts b).
Proof.
  intros Hb. unfold image_parts. destruct (_ =?s ""); [constructor|].
  constructor; [|constructor]. apply plain_image, image_uri_wf, Hb.
Qed.
Lemma user_parts_plain b : wf_block 1 b -> Forall plain_part (user_parts b).
Proof.
  intros Hb. unfold user_parts. destruct (is_type "text" b).
  - destruct (_ =?s ""); [constructor|]. constructor; [by apply plain_text, Hb|constructor].
  - destruct (is_type "image" b); [by eapply image_parts_plain|constructor].
Qed.
Lemma output_images_plain b : wf_block 1 b -> Forall plain_part (convertToolResultOutput b).2.
Proof.
  intros Hb. unfold convertToolResultOutput. destruct (acb_Content b =?s ""); [constructor|].
  destruct (unmarshal_string (acb_Content b)); [constructor|].
  destruct (unmarshal_blocks (acb_Content b)) as [inner|] eqn:Ei; [|constructor]. cbn [snd].
  pose proof (decoded_block_wf 0 _ _ (unmarshal_blocks_doc _ _ Ei) Ei) as W.
  clear Ei. induction W as [|x inner Hx _ IH]; [constructor|]. cbn [List.filter].
  destruct (is_type "image" x); [|exact IH]. cbn [map List.concat]. apply Forall_app.
  split; [by eapply image_parts_plain|exact IH].
Qed.

Lemma string_blocks raw s :
  unmarshal_string raw = Some s ->
  parseContentBlocks raw = [] \/ parseContentBlocks raw = [text_block s].
Proof.
  intros Hs. unfold parseContentBlocks. destruct (unmarshal_blocks raw) as [bs|] eqn:Eb; [|right; by rewrite Hs].
  left. unfold unmarshal_blocks, d_slice in Eb. unfold unmarshal_string, d_string in Hs.
  destruct (json_shape raw) as [[]|]; try done. by injection Eb as <-.
Qed.

Lemma parsed_blocks raw bs : unmarshal_blocks raw = Some bs -> parseContentBlocks raw = bs.
Proof. unfold parseContentBlocks. by intros ->. Qed.

Lemma converts_map {A} (f : A -> list ResponsesInputItem) (g h : A -> list (string * AnthropicContentBlock)) l :
  Forall (fun a => converts (f a) (g a) (h a)) l ->
  converts (List.concat (map f l)) (List.concat (map g l)) (List.concat (map h l)).
Proof.
  induction 1 as [|a l Ha _ IH]; [apply converts_nil|]. cbn [map List.concat]. by apply converts_app.
Qed.

Lemma concat_singletons {A B} (f : A -> B) l : List.concat (map (fun a => [f a]) l) = map f l.
Proof. induction l as [|a l IH]; [done|]. cbn. by rewrite IH. Qed.
Lemma concat_nils {A B} (l : list A) : List.concat (map (fun _ => @nil B) l) = [].
Proof. by induction l. Qed.

Definition with_role (role : string) (bs : list AnthropicContentBlock) : list (string * AnthropicContentBlock) :=
  map (fun b => (role, b)) bs.

Lemma user_message raw items :
  anthropicUserToResponses raw = inr items ->
  converts items [] (map rebuilt_answer (List.filter is_answer (with_role "user" (parseContentBlocks raw)))).
Proof.
  unfold anthropicUserToResponses. destruct (unmarshal_string raw) as [s|] eqn:Es.
  - intros H. assert (Hw : wf_str s) by by eapply unmarshal_string_wf.
    assert (Hp : Forall plain_part [text_part "input_text" s]) by (constructor; [by apply plain_text|constructor]).
    destruct (marshal_parts _) as [c|] eqn:Ec; [|done]. injection H as <-.
    destruct (string_blocks raw s Es) as [->| ->]; by apply (user_item _ _ Hp).
  - destruct (unmarshal_blocks raw) as [bs|] eqn:Eb; [|done]. cbn [ok_or mbind result_bind].
    pose proof (view_wf raw) as W. rewrite (parsed_blocks _ _ Eb) in *.
    set (results := List.filter (is_type "tool_result") bs).
    assert (Wr : Forall (wf_block 1) results) by by apply filter_wf.
    assert (E : List.filter is_answer (with_role "user" bs) = with_role "user" results).
    { unfold with_role. by rewrite filter_of_map. }
    assert (Co : converts (map output_input results) [] (map rebuilt_answer (with_role "user" results))).
    { rewrite <- (concat_singletons output_input), <- (@concat_nils _ (string * AnthropicContentBlock) results).
      unfold with_role. rewrite map_map. rewrite <- (concat_singletons (fun b => rebuilt_answer ("user", b))).
      apply converts_map. eapply Forall_impl; [exact Wr|]. apply output_item. }
    rewrite E. set (parts := List.concat (map user_parts bs) ++ _).
    assert (Hp : Forall plain_part parts).
    { apply Forall_app. split.
      - clear -W. induction W as [|b bs Hb _ IH]; [constructor|]. cbn. apply Forall_app. split; [by apply user_parts_plain|done].
      - clear -Wr. induction Wr as [|b l Hb _ IH]; [constructor|]. cbn. apply Forall_app. split; [by apply output_images_plain|done]. }
    destruct parts as [|p parts]; [by intros [= <-]|].
    destruct (marshal_parts (p :: parts)) as [c|] eqn:Ec; [|done]. intros [= <-].
    rewrite <- (app_nil_r (map rebuilt_answer _)), <- (app_nil_l (@nil (string * AnthropicContentBlock))) at 1.
    apply converts_app; [exact Co|]. by apply (user_item (p :: parts)).
Qed.

Lemma assistant_message raw items :
  Forall (fun b => is_type "tool_use" b = true -> wf_str (acb_Input b)) (parseContentBlocks raw) ->
  anthropicAssistantToResponses raw = inr items ->
  converts items (map rebuilt_call (List.filter is_call (with_role "assistant" (parseContentBlocks raw)))) [].
Proof.
  unfold anthropicAssistantToResponses. intros Hi. destruct (unmarshal_string raw) as [s|] eqn:Es.
  - intros H. assert (Hw : wf_str s) by by eapply unmarshal_string_wf.
    destruct (marshal_parts _) as [c|] eqn:Ec; [|done]. injection H as <-.
    destruct (string_blocks raw s Es) as [->| ->]; by apply (assistant_item s).
  - destruct (unmarshal_blocks raw) as [bs|] eqn:Eb; [|done]. cbn [ok_or mbind result_bind].
    pose proof (view_wf raw) as W. rewrite (parsed_blocks _ _ Eb) in *.
    set (uses := List.filter (is_type "tool_use") bs).
    assert (Wu : Forall (fun b => wf_block 1 b /\ wf_str (acb_Input b)) uses).
    { apply Forall_forall. intros b Hb. apply list_elem_of_In, filter_In in Hb as [Hb Ht].
      apply list_elem_of_In in Hb. rewrite Forall_forall in W, Hi. split; [by apply W|by apply Hi]. }
    assert (E : List.filter is_call (with_role "assistant" bs) = with_role "assistant" uses).
    { unfold with_role. by rewrite filter_of_map. }
    assert (Co : converts (map call_input uses) (map rebuilt_call (with_role "assistant" uses)) []).
    { rewrite <- (concat_singletons call_input), <- (@concat_nils _ (string * AnthropicContentBlock) uses) at 1.
      unfold with_role. rewrite map_map. rewrite <- (concat_singletons (fun b => rebuilt_call ("assistant", b))).
      apply converts_map. eapply Forall_impl; [exact Wu|]. intros b [? ?]. by apply call_item. }
    assert (Cr : converts (List.concat (map reasoning_input (List.filter (is_type "thinking") bs))) [] []).
    { assert (Wt : Forall (wf_block 1) (List.filter (is_type "thinking") bs)) by by apply filter_wf.
      induction Wt as [|b l Hb _ IH]; [apply converts_nil|]. cbn [map List.concat].
      exact (converts_app _ [] [] _ [] [] (reasoning_items b Hb) IH). }
    rewrite E. pose proof (extract_text_wf 1 bs W) as Ht.
    destruct (extractAnthropicTextFromBlocks bs =?s "").
    + intros [= <-]. exact (converts_app _ [] [] _ _ [] Cr Co).
    + destruct (marshal_parts _) as [c|] eqn:Ec; [|done]. intros [= <-].
      exact (converts_app _ [] [] _ _ [] Cr (converts_app _ [] [] _ _ [] (assistant_item _ _ Ht Ec) Co)).
Qed.

(** ** Conversations *)

Lemma no_calls role bs : role <> "assistant" -> List.filter is_call (with_role role bs) = [].
Proof.
  intros H%String.eqb_neq. unfold with_role. rewrite filter_of_map, filter_none; [done|].
  intros b. unfold is_call. cbn [fst]. by rewrite H.
Qed.
Lemma no_answers role bs : role <> "user" -> List.filter is_answer (with_role role bs) = [].
Proof.
  intros H%String.eqb_neq. unfold with_role. rewrite filter_of_map, filter_none; [done|].
  intros b. unfold is_answer. cbn [fst]. by rewrite H.
Qed.

Definition speaker (m : AnthropicMessage) : Prop := am_Role m = "user" \/ am_Role m = "assistant".
(** The blocks a conversation was sent with, as they were parsed. *)
Definition sent_blocks (msgs : list AnthropicMessage) : list (string * AnthropicContentBlock) :=
  flat_map raw_blocks msgs.
Definition valid_input (rb : string * AnthropicContentBlock) : Prop := wf_str (acb_Input rb.2).

Lemma messages_items msgs items :
  Forall speaker msgs -> Forall valid_input (List.filter is_call (sent_blocks msgs)) ->
  messages_input msgs = inr items ->
  converts items (map rebuilt_call (List.filter is_call (sent_blocks msgs)))
    (map rebuilt_answer (List.filter is_answer (sent_blocks msgs))).
Proof.
  intros Hs. revert items. induction Hs as [|m msgs Hm Hs IH]; intros items Hv H.
  { injection H as <-. apply converts_nil. }
  cbn [messages_input] in H. destruct (anthropicMsgToResponsesItems m) as [e|i1] eqn:E1; [done|].
  cbn [mbind result_bind] in H. destruct (messages_input msgs) as [e|i2]; [done|]. injection H as <-.
  change (sent_blocks (m :: msgs)) with (raw_blocks m ++ sent_blocks msgs) in *.
  rewrite !List.filter_app, !map_app in *. apply Forall_app in Hv as [Hv1 Hv2].
  apply converts_app; [|by apply IH]. clear IH Hv2.
  change (raw_blocks m) with (with_role (am_Role m) (view m)) in *.
  unfold anthropicMsgToResponsesItems in E1. destruct Hm as [Hr|Hr]; rewrite Hr in *.
  - change ("user" =?s "assistant") with false in E1. rewrite (no_calls "user") by done. by apply user_message.
  - change ("assistant" =?s "assistant") with true in E1. rewrite (no_answers "assistant") by done.
    apply assistant_message; [|done]. apply Forall_forall. intros b Hb Ht.
    rewrite Forall_forall in Hv1. apply (Hv1 ("assistant", b)). apply list_elem_of_In, filter_In.
    split; [|done]. apply in_map_iff. exists b. split; [done|]. by apply list_elem_of_In.
Qed.

Lemma system_items system head :
  (if system =?s "" then inr []
   else sysParts ← parseAnthropicSystemContentParts system;
        inr match sysParts with
            | [] => []
            | _ => [message_input "developer" (or_nil (marshal_parts sysParts))]
            end) = inr head ->
  converts head [] [].
Proof.
  destruct (system =?s ""); [intros [= <-]; apply converts_nil|].
  destruct (parseAnthropicSystemContentParts system) as [e|ps] eqn:E; [done|]. cbn [mbind result_bind].
  intros [= <-]. assert (Hp : Forall plain_part ps).
  { unfold parseAnthropicSystemContentParts in E. destruct (unmarshal_string system) as [s|] eqn:Es.
    - injection E as <-. destruct (_ || _); [constructor|]. constructor; [|constructor].
      apply plain_text; [done|]. by eapply unmarshal_string_wf.
    - destruct (unmarshal_blocks system) as [bs|] eqn:Eb; [|done]. injection E as <-.
      pose proof (decoded_block_wf 0 _ _ (unmarshal_blocks_doc _ _ Eb) Eb) as W. apply Forall_map.
      eapply Forall_impl; [apply (filter_wf _ _ W)|]. intros b Hb. apply plain_text; [done|]. apply Hb. }
  destruct ps; [apply converts_nil|]. by apply developer_item.
Qed.

Lemma conversation_items system msgs items :
  Forall speaker msgs -> Forall valid_input (List.filter is_call (sent_blocks msgs)) ->
  convertAnthropicToResponsesInput system msgs = inr items ->
  converts items (map rebuilt_call (List.filter is_call (sent_blocks msgs)))
    (map rebuilt_answer (List.filter is_answer (sent_blocks msgs))).
Proof.
  unfold convertAnthropicToResponsesInput. intros Hs Hv H.
  lazymatch type of H with ?x ≫= _ = _ => destruct x as [e|head] eqn:Eh; [done|] end.
  cbn [mbind result_bind] in H. destruct (messages_input msgs) as [e|rest] eqn:Er; [done|]. injection H as <-.
  exact (converts_app _ [] [] _ _ _ (system_items system head Eh) (messages_items msgs rest Hs Hv Er)).
Qed.

(** ** The claim *)

Lemma answer_to_map sent before c c' :
  List.filter is_answer before = map rebuilt_answer (List.filter is_answer sent) ->
  Forall (fun a => known_id (acb_ToolUseID a.2) = true) (List.filter is_answer sent) ->
  acb_ID c'.2 = acb_ID c.2 ->
  answer_to before c' = rebuilt_answer <$> answer_to sent c.
Proof.
  intros E Hk Hid. unfold answer_to.
  assert (S : forall (p : string * AnthropicContentBlock -> bool) l,
    List.filter (fun rb => is_answer rb && negb (acb_ToolUseID rb.2 =?s "") && p rb) l
    = List.filter (fun rb => negb (acb_ToolUseID rb.2 =?s "") && p rb) (List.filter is_answer l)).
  { intros p l. rewrite filter_and. apply filter_ext. intros rb. by rewrite andb_assoc. }
  rewrite !S, E. clear S E. rewrite filter_of_map. change (map rebuilt_answer) with (fmap (M := list) rebuilt_answer).
  rewrite fmap_last. f_equal. f_equal. apply filter_ext_in. intros a Ha.
  rewrite Forall_forall in Hk. apply list_elem_of_In in Ha. specialize (Hk a Ha).
  change (acb_ToolUseID (rebuilt_answer a).2) with (fromResponsesCallIDToAnthropic (acb_ToolUseID a.2)).
  destruct (call_id_cases (acb_ToolUseID a.2)) as (K & _). destruct (K Hk) as [-> _]. by rewrite Hid.
Qed.

Lemma filter_true_all {A} (l : list A) : List.filter (fun _ => true) l = l.
Proof. induction l as [|a l IH]; [done|]. cbn. by rewrite IH. Qed.

Lemma output_text_nonempty b : ((convertToolResultOutput b).1 =?s "") = false.
Proof.
  unfold convertToolResultOutput. destruct (acb_Content b =?s ""); [done|].
  destruct (unmarshal_string (acb_Content b)) as [s|]; [by destruct (s =?s "") eqn:E|].
  destruct (unmarshal_blocks (acb_Content b)) as [inner|]; [|done]. cbn [fst].
  by destruct (extractAnthropicTextFromBlocks inner =?s "") eqn:E.
Qed.

(** C11. A conversation translated to Responses, encoded, decoded and translated back
    keeps its tools: when every call is answered and the ids are of the two vendors,
    the calls that come out are the ones that went in, with id, name and input (white
    space apart), in order; and each is answered by its last answer, with the same id
    and the text of that answer as content.  No step on the way fails. *)
Theorem conversation_roundtrip system msgs items instructions :
  let sent := sent_blocks msgs in
  let calls := List.filter is_call sent in
  Forall speaker msgs ->
  Forall (fun c => known_id (acb_ID c.2) = true /\ valid_input c /\ is_Some (answer_to sent c)) calls ->
  Forall (fun a => known_id (acb_ToolUseID a.2) = true) (List.filter is_answer sent) ->
  convertAnthropicToResponsesInput system msgs = inr items -> items <> [] ->
  exists input system' messages,
    marshal_items items = Some input
    /\ convertResponsesInputToAnthropic instructions input false = inr (system', messages)
    /\ map (fun c => (acb_ID c.2, acb_Name c.2, acb_Input c.2)) (List.filter is_call (all_blocks messages))
       = map (fun c => (acb_ID c.2, acb_Name c.2, norm_raw (call_arguments c.2))) calls
    /\ map (fun a => (acb_ToolUseID a.2, acb_Content a.2)) (List.filter is_answer (all_blocks messages))
       = map (fun a => (acb_ToolUseID a.2, json_quote (convertToolResultOutput a.2).1))
           (omap (answer_to sent) calls).
Proof.
  cbv zeta. intros Hs Hc Ha Hi Hn.
  assert (Hv : Forall valid_input (List.filter is_call (sent_blocks msgs))).
  { eapply Forall_impl; [exact Hc|]. by intros c (_ & ? & _). }
  destruct (conversation_items system msgs items Hs Hv Hi) as (W & N & C).
  destruct (items_roundtrip items W Hn) as (input & E & Hnull & D). rewrite N in D.
  assert (Hu : unmarshal_string input = None) by by eapply array_not_string.
  set (parts := if TrimSpace instructions =?s "" then [] else [TrimSpace instructions]).
  destruct (C (MkConversion parts [])) as (sys & ms & Ec & Ecalls & Eans).
  exists input, (system_json (parts ++ sys)), (repair_messages ms).
  split; [done|]. split.
  { unfold convertResponsesInputToAnthropic. rewrite Hu, D. cbn [ok_or mbind result_bind].
    fold parts. rewrite Ec. done. }
  destruct (repair_blocks ms) as (_ & R2 & R3). rewrite R2, R3, Ecalls.
  set (calls := List.filter is_call (sent_blocks msgs)) in *.
  assert (Hid : forall c, c ∈ calls -> acb_ID (rebuilt_call c).2 = acb_ID c.2).
  { intros c Hin. rewrite Forall_forall in Hc. destruct (Hc c Hin) as (Hk & _).
    change (acb_ID (rebuilt_call c).2) with (fromResponsesCallIDToAnthropic (acb_ID c.2)).
    by apply call_id_cases. }
  assert (Hans : forall c, c ∈ calls ->
    answer_to (all_blocks ms) (rebuilt_call c) = rebuilt_answer <$> answer_to (sent_blocks msgs) c).
  { intros c Hin. apply answer_to_map; [done|done|by apply Hid]. }
  assert (Hsome : forall c, c ∈ calls -> is_Some (answer_to (sent_blocks msgs) c)).
  { intros c Hin. rewrite Forall_forall in Hc. by apply Hc. }
  split.
  - rewrite filter_of_map, filter_ext_in with (g := fun _ => true), filter_true_all, map_map.
    + apply map_ext_in. intros c Hin%list_elem_of_In. rewrite (Hid c Hin).
      by rewrite <- (call_input_arguments c.2).
    + intros c Hin%list_elem_of_In. rewrite Hans by done. apply bool_decide_eq_true.
      destruct (Hsome c Hin) as [a ->]. by eexists.
  - assert (E2 : omap (answer_to (all_blocks ms)) (map rebuilt_call calls)
                 = map rebuilt_answer (omap (answer_to (sent_blocks msgs)) calls)).
    { clear -Hans. induction calls as [|c l IH]; [done|]. cbn [map omap list_omap].
      rewrite Hans by left. specialize (IH (fun c' H => Hans c' (list_elem_of_further _ _ _ H))).
      cbn [omap list_omap] in IH. rewrite IH. by destruct (answer_to (sent_blocks msgs) c). }
    rewrite E2, map_map. apply map_ext_in. intros a Hin%list_elem_of_In.
    apply list_elem_of_omap in Hin as (c & Hc' & Hl).
    apply last_Some_elem_of, list_elem_of_In, filter_In in Hl as [Hin Hp].
    assert (Hk : known_id (acb_ToolUseID a.2) = true).
    { rewrite Forall_forall in Ha. apply Ha, list_elem_of_In, filter_In. split; [done|].
      by apply andb_true_iff in Hp as [[Hp _]%andb_true_iff _]. }
    change (acb_ToolUseID (rebuilt_answer a).2) with (fromResponsesCallIDToAnthropic (acb_ToolUseID a.2)).
    destruct (call_id_cases (acb_ToolUseID a.2)) as (K & _). destruct (K Hk) as [-> _]. f_equal.
    change (acb_Content (rebuilt_answer a).2) with
      (json_quote (if (convertToolResultOutput a.2).1 =?s "" then "(empty)" else (convertToolResultOutput a.2).1)).
    by rewrite output_text_nonempty.
Qed.

(** A question, a call and its answer. *)
Definition sample_conversation : list AnthropicMessage :=
  [MkAnthropicMessage "user" (json_quote "list the files");
   MkAnthropicMessage "assistant" (print_array [print_members
     [("type", json_quote "tool_use"); ("id", json_quote "toolu_1"); ("name", json_quote "ls");
      ("input", print_members [("path", json_quote "/")])]]);
   MkAnthropicMessage "user" (print_array [print_members
     [("type", json_quote "tool_result"); ("tool_use_id", json_quote "toolu_1");
      ("content", json_quote "a.txt")]])].

Lemma conversation_roundtrip_witness :
  exists items input system messages,
    convertAnthropicToResponsesInput "" sample_conversation = inr items
    /\ marshal_items items = Some input
    /\ convertResponsesInputToAnthropic "" input false = inr (system, messages)
    /\ map (fun c => (acb_ID c.2, acb_Name c.2, acb_Input c.2)) (List.filter is_call (all_blocks messages))
       = [("toolu_1", "ls", print_members [("path", json_quote "/")])].
Proof.
  destruct (convertAnthropicToResponsesInput "" sample_conversation) as [e|items] eqn:E;
    [vm_compute in E; discriminate E|].
  assert (Hn : items <> []) by (vm_compute in E; injection E as <-; discriminate).
  destruct (conversation_roundtrip "" sample_conversation items "") as (input & system & messages & E1 & E2 & E3 & _).
  - constructor; [by left|constructor; [by right|constructor; [by left|constructor]]].
  - apply Forall_forall. intros c Hc.
    assert (Hl : List.filter is_call (sent_blocks sample_conversation)
      = [("assistant", zero_AnthropicContentBlock <| acb_Type := "tool_use" |> <| acb_ID := "toolu_1" |>
            <| acb_Name := "ls" |> <| acb_Input := print_members [("path", json_quote "/")] |>)])
      by (vm_compute; reflexivity).
    rewrite Hl in Hc. apply list_elem_of_singleton in Hc as ->. split_and!; [reflexivity|reflexivity|].
    vm_compute. by eexists.
  - apply Forall_forall. intros a Ha.
    assert (Hl : map (fun a => acb_ToolUseID a.2) (List.filter is_answer (sent_blocks sample_conversation)) = ["toolu_1"])
      by (vm_compute; reflexivity).
    apply list_elem_of_In in Ha. apply (in_map (fun a => acb_ToolUseID a.2)) in Ha. rewrite Hl in Ha.
    destruct Ha as [<-|[]]. reflexivity.
  - exact E.
  - exact Hn.
  - exists items, input, system, messages. split; [reflexivity|]. split; [exact E1|]. split; [exact E2|].
    rewrite E3. vm_compute. reflexivity.
Defined.
