(* ===== verification/AnthropicToResponsesProofs.v ===== *)
(** * Responses streams built from Anthropic events

    The item grammar every translated stream satisfies, the exact output list of
    a well-formed Anthropic message, and the usage round trip with the opposite
    converter. *)

From S2P Require Import Prelude Json Apicompat ResponsesToAnthropic AnthropicToResponses.
Local Open Scope string_scope.
Local Open Scope Z_scope.
Local Open Scope list_scope.
Local Open Scope go_scope.

#[export] Instance ResponsesContentPart_eq_dec : EqDecision ResponsesContentPart.
Proof. solve_decision. Defined.
#[export] Instance ResponsesSummary_eq_dec : EqDecision ResponsesSummary.
Proof. solve_decision. Defined.
#[export] Instance WebSearchAction_eq_dec : EqDecision WebSearchAction.
Proof. solve_decision. Defined.
#[export] Instance ResponsesOutput_eq_dec : EqDecision ResponsesOutput.
Proof. solve_decision. Defined.

(** ** The item grammar *)

(** The next sequence number and output index, the type and id of the open item,
    and the items that are done. *)
Record ItemMon := MkItemMon {
  im_seq : Z;
  im_next : Z;
  im_open : option (string * string);
  im_done : list ResponsesOutput;
}.
Definition im_init : ItemMon := MkItemMon 0 0 None [].

Definition item_tag (it : ResponsesOutput) : string * string := (ro_Type it, ro_ID it).

Definition item_mon (m : ItemMon) (e : ResponsesStreamEvent) : option ItemMon :=
  if negb (rse_SequenceNumber e =? im_seq m) then None
  else
    let seq := im_seq m + 1 in
    if rse_Type e =?s "response.output_item.added" then
      match rse_Item e, im_open m with
      | Some it, None =>
          if rse_OutputIndex e =? im_next m
          then Some (MkItemMon seq (im_next m) (Some (item_tag it)) (im_done m)) else None
      | _, _ => None
      end
    else if rse_Type e =?s "response.output_item.done" then
      match rse_Item e with
      | Some it =>
          if (rse_OutputIndex e =? im_next m) && bool_decide (im_open m = Some (item_tag it))
          then Some (MkItemMon seq (im_next m + 1) None (im_done m ++ [it])) else None
      | None => None
      end
    else if (rse_Type e =?s "response.completed") || (rse_Type e =?s "response.incomplete") then
      match rse_Response e with
      | Some r =>
          if bool_decide (im_open m = None /\ rr_Output r = im_done m)
          then Some (MkItemMon seq (im_next m) None (im_done m)) else None
      | None => None
      end
    else Some (MkItemMon seq (im_next m) (im_open m) (im_done m)).

Local Abbreviation State := AnthropicEventToResponsesState.

(** The converter's state determines the monitor's. *)
Definition item_view (st : State) : ItemMon :=
  MkItemMon (as_SequenceNumber st) (as_OutputIndex st)
    (if as_CurrentItemType st =?s "" then None
     else Some (as_CurrentItemType st, as_CurrentItemID st)) (as_Outputs st).
Definition RI (st : State) (m : ItemMon) : Prop := m = item_view st.
(** ... with no item open, or with one of type [t]. *)
Definition RIin (t : string) (st : State) (m : ItemMon) : Prop :=
  RI st m /\ as_CurrentItemType st = t.

(** Event types that are neither the start nor the end of anything. *)
Definition plain_type (t : string) : bool :=
  negb (one_of t ["response.output_item.added"; "response.output_item.done";
                  "response.completed"; "response.incomplete"]).

Lemma item_mon_plain t tmpl st :
  plain_type t = true ->
  accepts item_mon (item_view st) (makeResponsesEvent t tmpl st).2 =
    Some (item_view (makeResponsesEvent t tmpl st).1).
Proof.
  unfold plain_type, one_of. simpl. intros H. bool_hyps.
  unfold item_mon; simpl. rewrite Z.eqb_refl. simpl.
  by rewrite !(proj2 (String.eqb_neq t _)) by done.
Qed.

(** A silent update that keeps the view, then a plain event. *)
Lemma plain_event_sim t tmpl (u : State -> State) :
  plain_type t = true -> (forall st, item_view (u st) = item_view st) ->
  forall c, (forall st, as_CurrentItemType st = c -> as_CurrentItemType (u st) = c) ->
  sim item_mon (RIin c) (RIin c) (fun st => makeResponsesEvent t tmpl (u st)).
Proof.
  intros Ht Hu c Hc st m [-> Hst]. eexists. rewrite <- (Hu st), item_mon_plain by done.
  split; [done|]. split; [done|]. simpl. auto.
Qed.

(** From any state: whatever item is open, it stays. *)
Lemma plain_event_RI t tmpl (u : State -> State) :
  plain_type t = true -> (forall st, item_view (u st) = item_view st) ->
  sim item_mon RI RI (fun st => makeResponsesEvent t tmpl (u st)).
Proof.
  intros Ht Hu st m ->. eexists. rewrite <- (Hu st), item_mon_plain by done. by split.
Qed.

Lemma close_item_sim : sim item_mon RI (RIin "") closeCurrentResponsesItem.
Proof.
  intros st m ->. unfold closeCurrentResponsesItem.
  destruct (as_CurrentItemType st =?s "") eqn:E; [bool_hyps; by eexists|].
  eexists. simpl. unfold item_mon, item_view; simpl. rewrite Z.eqb_refl, E. simpl.
  replace (as_OutputIndex st + 1 - 1) with (as_OutputIndex st) by lia. rewrite Z.eqb_refl.
  rewrite bool_decide_eq_true_2; [by split|]. unfold item_tag, current_item.
  repeat case_match; by simplify_eq/=.
Qed.

(** An item is opened when none is. *)
Lemma open_item_sim t it (u : State -> State) tmpl :
  t <> "" ->
  (forall st, as_SequenceNumber (u st) = as_SequenceNumber st) ->
  (forall st, as_OutputIndex (u st) = as_OutputIndex st) ->
  (forall st, as_Outputs (u st) = as_Outputs st) ->
  (forall st, as_CurrentItemType (u st) = t) ->
  (forall st, rse_OutputIndex (tmpl st) = as_OutputIndex st /\ rse_Item (tmpl st) = Some (it st)) ->
  (forall st, as_CurrentItemType st = t -> item_tag (it st) = (t, as_CurrentItemID st)) ->
  sim item_mon (RIin "") (RIin t)
    (fun st => makeResponsesEvent "response.output_item.added" tmpl (u st)).
Proof.
  intros Ht H1 H2 H3 H4 Htm Htag st m [-> Hst]. eexists. simpl.
  unfold item_mon, item_view; simpl. rewrite Hst, H1, Z.eqb_refl. simpl.
  destruct (Htm (u st)) as [-> ->]. rewrite H2, Z.eqb_refl. simpl. split; [done|].
  split; [|simpl; apply H4]. unfold RI, item_view; simpl.
  rewrite H2, H3, H4, Htag by done. by destruct (String.eqb_spec t "").
Qed.

Lemma RIin_RI t st m : RIin t st m -> RI st m.
Proof. by intros [? _]. Qed.
Lemma RI_RIin st m : RI st m -> RIin (as_CurrentItemType st) st m.
Proof. by split. Qed.

Section Handlers.
Context (itemIDs : nat -> string) (signed_model : string -> bool).

(** A silent change the monitor does not see. *)
Lemma silent_sim t t' (u : State -> State) :
  (forall st, as_CurrentItemType st = t -> item_view (u st) = item_view st /\
     as_CurrentItemType (u st) = t') ->
  sim item_mon (RIin t) (RIin t') (fun st => (u st, [])).
Proof.
  intros Hu st m [-> Ht]. destruct (Hu st Ht) as [Hv Ht']. eexists; split; [done|].
  split; [|done]. unfold RI. simpl. by rewrite Hv.
Qed.

Lemma then_silent {St Out} (f : St -> St * list Out) (u : St -> St) s :
  (f ;>> (fun s => (u s, []))) s = let '(s', o) := f s in (u s', o).
Proof. unfold then_emit. destruct (f s) as [s' o]. by rewrite app_nil_r. Qed.

Lemma add_text_part_sim : sim item_mon (RIin "message") (RIin "message") add_text_part.
Proof.
  eapply (sim_ext _ _ _ (makeResponsesEvent _ _ ;>> (fun st => (st <| as_TextAccum := "" |>, []))));
    [intros st; apply then_silent|].
  apply sim_then with (RIin "message"); [|by apply silent_sim].
  by apply (plain_event_sim _ _ id).
Qed.

Ltac unfold_opener :=
  unfold open_message, open_reasoning, open_call; eapply open_item_sim; try done;
  intros st; split; reflexivity.

Lemma open_message_sim : sim item_mon (RIin "") (RIin "message") (open_message itemIDs).
Proof. unfold_opener. Qed.

Lemma open_reasoning_sim b :
  sim item_mon (RIin "") (RIin "reasoning") (open_reasoning itemIDs b).
Proof. unfold_opener. Qed.

Lemma open_call_sim b :
  sim item_mon (RIin "") (RIin "function_call") (open_call itemIDs b).
Proof. unfold_opener. Qed.

Lemma block_start_sim evt :
  sim item_mon RI RI (anthToResHandleContentBlockStart itemIDs evt).
Proof.
  intros st m HR. unfold anthToResHandleContentBlockStart.
  destruct (ase_ContentBlock evt) as [b|]; [|by exists m].
  destruct (_ || _); [|destruct (_ =?s "text"); [|destruct (_ =?s "tool_use"); [|by exists m]]].
  - revert st m HR. apply sim_mono with RI (RIin "reasoning"); [done|apply RIin_RI|].
    apply sim_then with (RIin ""); [apply close_item_sim|apply open_reasoning_sim].
  - destruct (as_CurrentItemType st =?s "message") eqn:E.
    + bool_hyps. destruct (add_text_part_sim st m) as (m' & ? & [? _]); [by split|]. eauto.
    + revert st m HR E. intros st m HR _. revert st m HR.
      apply sim_mono with RI (RIin "message"); [done|apply RIin_RI|].
      apply sim_then with (RIin ""); [apply close_item_sim|].
      apply sim_then with (RIin "message"); [apply open_message_sim|apply add_text_part_sim].
  - revert st m HR. apply sim_mono with RI (RIin "function_call"); [done|apply RIin_RI|].
    apply sim_then with (RIin ""); [apply close_item_sim|apply open_call_sim].
Qed.

Lemma block_delta_sim evt : sim item_mon RI RI (anthToResHandleContentBlockDelta evt).
Proof.
  intros st m HR. unfold anthToResHandleContentBlockDelta.
  destruct (ase_Delta evt) as [d|]; [|by exists m].
  destruct (_ =?s "text_delta"); [|destruct (_ =?s "thinking_delta");
    [|destruct (_ =?s "input_json_delta"); [|destruct (_ =?s "signature_delta"); [|by exists m]]]].
  - destruct (ad_Text d =?s ""); [by exists m|]. revert st m HR.
    by apply (plain_event_RI _ _ (fun st => st <| as_TextAccum := as_TextAccum st +:+ ad_Text d |>)).
  - destruct (ad_Thinking d =?s ""); [by exists m|]. revert st m HR.
    by apply (plain_event_RI _ _
      (fun st => st <| as_CurrentSummary := as_CurrentSummary st +:+ ad_Thinking d |>)).
  - destruct (ad_PartialJSON d =?s ""); [by exists m|]. revert st m HR.
    by apply (plain_event_RI _ _ (fun st => st <| as_PendingToolInput := "" |>
                <| as_CurrentArgs := as_CurrentArgs st +:+ ad_PartialJSON d |>)).
  - exists m. split; [done|]. by destruct (as_PreserveThinkingSignatures st).
Qed.

Lemma arguments_delta_sim s c (u : State -> State) :
  (forall st, item_view (u st) = item_view st) ->
  (forall st, as_CurrentItemType st = c -> as_CurrentItemType (u st) = c) ->
  sim item_mon (RIin c) (RIin c) (fun st => arguments_delta s (u st)).
Proof. intros Hu Hc. by apply plain_event_sim. Qed.

Lemma flush_pending_sim :
  sim item_mon (RIin "function_call") (RIin "function_call") flush_pending_input.
Proof.
  eapply (sim_ext _ _ _ ((fun st => if (as_CurrentArgs st =?s "") &&
      negb (as_PendingToolInput st =?s "") then
      arguments_delta (as_PendingToolInput st)
        (st <| as_CurrentArgs := as_PendingToolInput st |>)
    else (st, [])) ;>> (fun st => (st <| as_PendingToolInput := "" |>, []))));
    [intros st; apply then_silent|].
  apply sim_then with (RIin "function_call"); [|by apply silent_sim].
  intros st m HR. destruct (_ && _); [|by exists m].
  pose (u := fun s0 : State => s0 <| as_CurrentArgs := as_PendingToolInput s0 |>).
  by apply (arguments_delta_sim (as_PendingToolInput st) "function_call" u).
Qed.

Lemma finish_text_part_sim : sim item_mon (RIin "message") (RIin "message") finish_text_part.
Proof.
  intros st m HR. unfold finish_text_part.
  set (st1 := st <| as_TextAccum := "" |> <| as_CurrentContent := _ |> <| as_ContentIndex := _ |>).
  assert (H1 : RIin "message" st1 m) by done. clearbody st1. revert st1 m H1 HR.
  intros st1 m H1 _. revert st1 m H1.
  apply sim_then with (RIin "message"); by apply (plain_event_sim _ _ id).
Qed.

Lemma block_stop_sim evt : sim item_mon RI RI (anthToResHandleContentBlockStop evt).
Proof.
  intros st m HR. unfold anthToResHandleContentBlockStop.
  destruct (_ =?s "reasoning") eqn:E1; [|destruct (_ =?s "function_call") eqn:E2;
    [|destruct (_ =?s "message") eqn:E3; [|by exists m]]].
  - apply (sim_at item_mon RI RI (summary_done ;>> closeCurrentResponsesItem)); [|done].
    apply sim_mono with RI (RIin ""); [done|apply RIin_RI|].
    apply sim_then with RI; [by apply (plain_event_RI _ _ id)|apply close_item_sim].
  - bool_hyps. apply (sim_at item_mon (RIin "function_call") RI
      (flush_pending_input ;>> arguments_done ;>> closeCurrentResponsesItem)); [|done].
    apply sim_mono with (RIin "function_call") (RIin ""); [done|apply RIin_RI|].
    apply sim_then with (RIin "function_call"); [apply flush_pending_sim|].
    apply sim_then with (RIin "function_call"); [by apply (plain_event_sim _ _ id)|].
    apply sim_mono with RI (RIin ""); [apply RIin_RI|done|apply close_item_sim].
  - bool_hyps. destruct (finish_text_part_sim st m) as (m' & ? & [? _]); [by split|]. eauto.
Qed.

Lemma message_start_sim evt :
  sim item_mon RI RI (anthToResHandleMessageStart signed_model evt).
Proof.
  intros st m ->. unfold anthToResHandleMessageStart.
  set (st1 := match ase_Message evt with Some _ => _ | None => st end).
  assert (H1 : item_view st = item_view st1) by (subst st1; by destruct (ase_Message evt)).
  rewrite H1. clearbody st1. destruct (as_CreatedSent st1); [by eexists|].
  eexists. simpl. unfold item_mon, item_view; simpl. by rewrite Z.eqb_refl.
Qed.

Lemma message_delta_sim evt : sim item_mon RI RI (anthToResHandleMessageDelta evt).
Proof.
  intros st m ->. exists (item_view st). unfold anthToResHandleMessageDelta.
  by repeat case_match.
Qed.

Lemma complete_sim : sim item_mon RI (RIin "") complete.
Proof.
  apply sim_then with (RIin ""); [apply close_item_sim|].
  apply sim_then with (RIin ""); [|by apply silent_sim].
  intros st m [-> Hst]. unfold anthropicResponsesStreamTerminalState.
  destruct (_ =?s "max_tokens"); (eexists; simpl; unfold item_mon, item_view; simpl;
    rewrite Z.eqb_refl, Hst, bool_decide_eq_true_2 by done; split; [reflexivity|];
    split; [|done]; unfold RI, item_view; simpl; by rewrite Hst).
Qed.

Lemma event_sim evt :
  sim item_mon RI RI (AnthropicEventToResponsesEvents itemIDs signed_model evt).
Proof.
  intros st m HR. unfold AnthropicEventToResponsesEvents, anthToResHandleMessageStop.
  repeat case_match;
    first [ by apply message_start_sim | by apply block_start_sim | by apply block_delta_sim
          | by apply block_stop_sim | by apply message_delta_sim
          | by exists m
          | destruct (complete_sim st m HR) as (m' & ? & [? _]); by exists m' ].
Qed.
End Handlers.

(** C9. Whatever the upstream sends, the Responses events carry the sequence numbers
    0, 1, 2, ...; output items are opened and done one at a time, numbered without
    a gap, each done event matching the item that was added; and every terminal
    event comes when no item is open and lists exactly the items that were done,
    in order. *)
Theorem responses_stream_bracketed itemIDs signed_model now evts :
  exists m, accepts item_mon im_init
    (stream (H := anthropic_to_responses itemIDs signed_model) evts
       (NewAnthropicEventToResponsesState now)).2 = Some m.
Proof.
  destruct (sim_stream (H := anthropic_to_responses itemIDs signed_model) item_mon RI RI)
    with (xs := evts) (s := NewAnthropicEventToResponsesState now) (m := im_init)
    as (m & Ha & _); [apply event_sim| |done|by exists m].
  intros st m HR. simpl. unfold FinalizeAnthropicResponsesStream.
  destruct (_ || _); [by exists m|].
  destruct (complete_sim st m HR) as (m' & ? & [? _]). by exists m'.
Qed.

(** ** The output list of a well-formed message *)

(** The content blocks of an Anthropic message, as they are streamed. *)
Inductive Block :=
  | BText (deltas : list string)
  | BThinking (deltas : list string) (signature : string)
  | BTool (id name : string) (fragments : list string).

Definition block_events (b : Block) : list AnthropicStreamEvent :=
  let typed t := zero_AnthropicContentBlock <| acb_Type := t |> in
  match b with
  | BText ds =>
      [block_start 0 (typed "text")] ++ map (fun d => block_delta 0 (text_delta d)) ds ++
      [block_stop 0]
  | BThinking ds sig =>
      [block_start 0 (typed "thinking")] ++
      map (fun d => block_delta 0 (thinking_delta d)) ds ++
      [block_delta 0 (signature_delta sig); block_stop 0]
  | BTool id name ds =>
      [block_start 0 ((typed "tool_use") <| acb_ID := id |> <| acb_Name := name |>
                        <| acb_Input := "{}" |>)] ++
      map (fun d => block_delta 0 (input_json_delta d)) ds ++ [block_stop 0]
  end.

Definition message_start_event (id model : string) : AnthropicStreamEvent :=
  zero_AnthropicStreamEvent <| ase_Type := "message_start" |>
    <| ase_Message := Some (zero_AnthropicResponse <| ar_ID := id |> <| ar_Model := model |>) |>.
Definition message_delta_event (reason : string) : AnthropicStreamEvent :=
  zero_AnthropicStreamEvent <| ase_Type := "message_delta" |>
    <| ase_Delta := Some (zero_AnthropicDelta <| ad_StopReason := reason |>) |>.


Section Canonical.
Context (itemIDs : nat -> string) (signed_model : string -> bool) (rid mdl : string).

(** The reference: items done so far, the open message item (its id and parts),
    and the number of ids drawn.  Consecutive text blocks share an item. *)
Record Draft := MkDraft {
  d_done : list ResponsesOutput;
  d_open : option (string * list ResponsesContentPart);
  d_ids : nat;
}.
Definition flush (d : Draft) : list ResponsesOutput :=
  match d_open d with
  | Some (id, parts) => d_done d ++ [message_item id parts]
  | None => d_done d
  end.
Definition reasoning_item (signed : bool) (id text sig : string) : ResponsesOutput :=
  let item := zero_ResponsesOutput
    <| ro_Type := "reasoning" |> <| ro_ID := id |> <| ro_Status := "completed" |>
    <| ro_Summary := if text =?s "" then [] else [summary_part text] |> in
  if signed && negb (sig =?s "")
  then item <| ro_EncryptedContent := encodeAnthropicThinking (zero_AnthropicContentBlock
         <| acb_Type := "thinking" |> <| acb_Thinking := text |> <| acb_Signature := sig |>) |>
  else item.
Definition call_output (id call name args : string) : ResponsesOutput :=
  zero_ResponsesOutput
    <| ro_Type := "function_call" |> <| ro_ID := id |> <| ro_Status := "completed" |>
    <| ro_CallID := call |> <| ro_Name := name |>
    <| ro_Arguments := if args =?s "" then "{}" else args |>.
Definition draft_step (signed : bool) (d : Draft) (b : Block) : Draft :=
  match b with
  | BText ds =>
      let part := output_text_part (str_concat ds) in
      match d_open d with
      | Some (id, parts) => MkDraft (d_done d) (Some (id, parts ++ [part])) (d_ids d)
      | None => MkDraft (d_done d) (Some (itemIDs (d_ids d), [part])) (S (d_ids d))
      end
  | BThinking ds sig =>
      MkDraft (flush d ++ [reasoning_item signed (itemIDs (d_ids d)) (str_concat ds) sig])
        None (S (d_ids d))
  | BTool id name ds =>
      MkDraft (flush d ++ [call_output (itemIDs (d_ids d)) id name (str_concat ds)])
        None (S (d_ids d))
  end.
Definition message_outputs (signed : bool) (blocks : list Block) : list ResponsesOutput :=
  flush (foldl (draft_step signed) (MkDraft [] None 0) blocks).

(** What the whole message keeps: its identity and that it is not over. *)
Local Abbreviation meta st := (as_CompletedSent st = false /\ as_CreatedSent st = true /\
  as_ResponseID st = rid /\ as_Model st = mdl /\ as_StopReason st = "").

(** The converter between two blocks, the draft being [d]. *)
Record At (signed : bool) (d : Draft) (st : State) : Prop := {
  at_outputs : as_Outputs st = d_done d;
  at_type : as_CurrentItemType st = match d_open d with Some _ => "message" | None => "" end;
  at_content : as_CurrentContent st = match d_open d with Some (_, ps) => ps | None => [] end;
  at_id : forall id ps, d_open d = Some (id, ps) -> as_CurrentItemID st = id;
  at_args : as_CurrentArgs st = "";
  at_summary : as_CurrentSummary st = "";
  at_pending : as_PendingToolInput st = "";
  at_ids : as_IDs st = d_ids d;
  at_signed : as_PreserveThinkingSignatures st = signed;
  at_open : meta st;
}.

Local Abbreviation conv := (anthropic_to_responses itemIDs signed_model).
Local Abbreviation crun := (run (H := conv)).

(** A list of deltas is one update by their concatenation. *)
Lemma run_deltas (mk : string -> AnthropicDelta) (f : string -> State -> State) :
  (forall st, f "" st = st) ->
  (forall a b st, f b (f a st) = f (a +:+ b) st) ->
  (forall k a st, f a (st <| as_SequenceNumber := k |>) = (f a st) <| as_SequenceNumber := k |>) ->
  (forall d st, exists k, (conv_step (Converter := conv) (block_delta 0 (mk d)) st).1 =
     (f d st) <| as_SequenceNumber := k |>) ->
  forall ds st, exists k, (crun (map (fun d => block_delta 0 (mk d)) ds) st).1 =
    (f (str_concat ds) st) <| as_SequenceNumber := k |>.
Proof.
  intros H0 Happ Hk Hstep ds; induction ds as [|d ds IH]; intros st.
  { exists (as_SequenceNumber st). simpl. rewrite H0. by destruct st. }
  change (crun (map ?g (d :: ds)) st) with (crun ([g d] ++ map g ds) st).
  rewrite run_app, run_single. cbn [fst]. destruct (Hstep d st) as [k1 ->].
  destruct (IH ((f d st) <| as_SequenceNumber := k1 |>)) as [k ->].
  exists k. rewrite Hk, Happ. simpl. by destruct (f (d +:+ str_concat ds) st).
Qed.

Lemma run_text_deltas ds st : exists k,
  (crun (map (fun d => block_delta 0 (text_delta d)) ds) st).1 =
  st <| as_TextAccum := as_TextAccum st +:+ str_concat ds |> <| as_SequenceNumber := k |>.
Proof.
  apply (run_deltas text_delta
    (fun a st => st <| as_TextAccum := as_TextAccum st +:+ a |>)).
  - intros st0. rewrite str_app_nil_r. by destruct st0.
  - intros a b st0. simpl. by rewrite str_app_assoc.
  - done.
  - intros d st0. unfold conv_step; simpl. unfold AnthropicEventToResponsesEvents; simpl.
    unfold anthToResHandleContentBlockDelta; simpl.
    destruct (d =?s "") eqn:E; [|by eexists].
    bool_hyps. subst d. exists (as_SequenceNumber st0). rewrite str_app_nil_r. by destruct st0.
Qed.

Lemma run_thinking_deltas ds st : exists k,
  (crun (map (fun d => block_delta 0 (thinking_delta d)) ds) st).1 =
  st <| as_CurrentSummary := as_CurrentSummary st +:+ str_concat ds |>
     <| as_SequenceNumber := k |>.
Proof.
  apply (run_deltas thinking_delta
    (fun a st => st <| as_CurrentSummary := as_CurrentSummary st +:+ a |>)).
  - intros st0. rewrite str_app_nil_r. by destruct st0.
  - intros a b st0. simpl. by rewrite str_app_assoc.
  - done.
  - intros d st0. unfold conv_step; simpl. unfold AnthropicEventToResponsesEvents; simpl.
    unfold anthToResHandleContentBlockDelta; simpl.
    destruct (d =?s "") eqn:E; [|by eexists].
    bool_hyps. subst d. exists (as_SequenceNumber st0). rewrite str_app_nil_r. by destruct st0.
Qed.

Lemma run_input_deltas ds st : as_PendingToolInput st = "" -> exists k,
  (crun (map (fun d => block_delta 0 (input_json_delta d)) ds) st).1 =
  st <| as_CurrentArgs := as_CurrentArgs st +:+ str_concat ds |> <| as_SequenceNumber := k |>.
Proof.
  intros Hp.
  pose (f := fun a (s : State) => if a =?s "" then s else s <| as_PendingToolInput := "" |>
               <| as_CurrentArgs := as_CurrentArgs s +:+ a |>).
  assert (Hr : exists k, (crun (map (fun d => block_delta 0 (input_json_delta d)) ds) st).1 =
      (f (str_concat ds) st) <| as_SequenceNumber := k |>).
  { apply (run_deltas input_json_delta f); unfold f.
    - done.
    - intros a b st0. destruct (a =?s "") eqn:Ea, (b =?s "") eqn:Eb; bool_hyps; subst; simpl;
        rewrite ?Ea, ?Eb, ?str_app_nil_r, ?Ea; try done.
      + by apply String.eqb_neq in Eb as ->.
      + by apply String.eqb_neq in Ea as ->.
      + destruct (a +:+ b =?s "") eqn:E; [|by rewrite str_app_assoc].
        bool_hyps. by apply str_app_eq_nil in E as [-> _].
    - intros k a st0. by destruct (a =?s "").
    - intros d st0. unfold conv_step; simpl. unfold AnthropicEventToResponsesEvents; simpl.
      unfold anthToResHandleContentBlockDelta; simpl.
      destruct (d =?s "") eqn:E; [|by eexists].
      exists (as_SequenceNumber st0). by destruct st0. }
  destruct Hr as [k ->]. exists k. unfold f. destruct (str_concat ds =?s "") eqn:E.
  - bool_hyps. rewrite E, str_app_nil_r. by destruct st.
  - destruct st; simpl in *; by subst.
Qed.

(** Start, deltas, rest: the state after a block. *)
Lemma run_block e ds es st :
  (crun ([e] ++ ds ++ es) st).1 =
    (crun es (crun ds (conv_step (Converter := conv) e st).1).1).1.
Proof. by rewrite !run_app, run_single. Qed.

Local Abbreviation step e st := (AnthropicEventToResponsesEvents itemIDs signed_model e st).1.

Lemma text_start_At signed d st b :
  acb_Type b = "text" -> At signed d st ->
  let st1 := step (block_start 0 b) st in
  At signed (match d_open d with
             | Some _ => d
             | None => MkDraft (d_done d) (Some (itemIDs (d_ids d), [])) (S (d_ids d))
             end) st1 /\ as_TextAccum st1 = "".
Proof.
  intros Hb HA. unfold AnthropicEventToResponsesEvents; simpl.
  unfold anthToResHandleContentBlockStart; simpl. rewrite Hb; simpl.
  destruct d as [outs op ids], HA as [E1 E2 E3 E4 E5 E6 E7 E8 E9 [E10 E11]]; simpl in *.
  destruct op as [[id ps]|]; rewrite E2; simpl.
  - split; [|done]. by split.
  - unfold then_emit, closeCurrentResponsesItem. rewrite E2. simpl. split; [|done].
    split; simpl; try done; congruence.
Qed.

Lemma closed_At signed d st :
  At signed d st -> At signed (MkDraft (flush d) None (d_ids d)) (closeCurrentResponsesItem st).1.
Proof.
  intros HA. destruct d as [outs op ids], HA as [E1 E2 E3 E4 E5 E6 E7 E8 E9 [E10 E11]];
    simpl in *.
  unfold closeCurrentResponsesItem, flush; simpl. destruct op as [[id ps]|]; rewrite E2; simpl.
  - split; simpl; try done. rewrite E1. unfold current_item. rewrite E2, E3. simpl.
    by rewrite (E4 id ps).
  - by split.
Qed.

Lemma text_block_At signed d st ds :
  At signed d st -> At signed (draft_step signed d (BText ds)) (crun (block_events (BText ds)) st).1.
Proof.
  intros HA. unfold block_events. rewrite run_block, run_single.
  destruct (text_start_At signed d st
    (zero_AnthropicContentBlock <| acb_Type := "text" |>)) as [HA1 Ht]; [done|done|].
  change (conv_step (Converter := conv) ?e st).1 with (step e st).
  set (st1 := step _ st) in *. destruct (run_text_deltas ds st1) as [k ->].
  clearbody st1. rewrite Ht. simpl. unfold AnthropicEventToResponsesEvents; simpl.
  unfold anthToResHandleContentBlockStop; simpl.
  destruct d as [outs [[id ps]|] ids], HA1 as [E1 E2 E3 E4 E5 E6 E7 E8 E9 [E10 E11]];
    simpl in *; rewrite E2; simpl; (split; simpl; try done; try congruence).
  - intros ? ? [= <- <-]. by apply (E4 id ps).
  - by rewrite E3.
  - intros ? ? [= <- <-]. by eapply E4.
Qed.

(** An item of type [t] was just opened after the draft [d]. *)
Record Open (signed : bool) (d : Draft) (t : string) (thinking : AnthropicContentBlock)
    (call name : string) (st : State) : Prop := {
  op_outputs : as_Outputs st = flush d;
  op_type : as_CurrentItemType st = t;
  op_id : as_CurrentItemID st = itemIDs (d_ids d);
  op_ids : as_IDs st = S (d_ids d);
  op_content : as_CurrentContent st = [];
  op_args : as_CurrentArgs st = "";
  op_summary : as_CurrentSummary st = "";
  op_thinking : t = "reasoning" -> as_CurrentThinking st = thinking;
  op_call : t = "function_call" -> as_CurrentCallID st = call /\ as_CurrentName st = name;
  op_pending : as_PendingToolInput st = "";
  op_signed : as_PreserveThinkingSignatures st = signed;
  op_flags : meta st;
}.

Definition thinking_block : AnthropicContentBlock :=
  zero_AnthropicContentBlock <| acb_Type := "thinking" |>.

Lemma thinking_start_Open signed d st :
  At signed d st ->
  Open signed d "reasoning" thinking_block "" "" (step (block_start 0 thinking_block) st).
Proof.
  intros HA. pose proof (closed_At signed d st HA) as HC.
  unfold AnthropicEventToResponsesEvents; simpl.
  unfold anthToResHandleContentBlockStart; simpl. unfold then_emit.
  destruct (closeCurrentResponsesItem st) as [st1 o1]. simpl in HC. clear HA st.
  destruct HC as [E1 E2 E3 E4 E5 E6 E7 E8 E9 [E10 E11]]. simpl in *.
  split; simpl; try done; congruence.
Qed.

Lemma tool_start_Open signed d st id name :
  At signed d st ->
  Open signed d "function_call" thinking_block id name
    (step (block_start 0 (zero_AnthropicContentBlock <| acb_Type := "tool_use" |>
       <| acb_ID := id |> <| acb_Name := name |> <| acb_Input := "{}" |>)) st).
Proof.
  intros HA. pose proof (closed_At signed d st HA) as HC.
  unfold AnthropicEventToResponsesEvents; simpl.
  unfold anthToResHandleContentBlockStart; simpl. unfold then_emit.
  destruct (closeCurrentResponsesItem st) as [st1 o1]. simpl in HC. clear HA st.
  destruct HC as [E1 E2 E3 E4 E5 E6 E7 E8 E9 [E10 E11]]. simpl in *.
  split; simpl; try done; congruence.
Qed.

Lemma signature_step sig st :
  step (block_delta 0 (signature_delta sig)) st =
  if as_PreserveThinkingSignatures st
  then st <| as_CurrentThinking := (as_CurrentThinking st)
         <| acb_Signature := acb_Signature (as_CurrentThinking st) +:+ sig |> |>
  else st.
Proof. reflexivity. Qed.

(** Closing the open item. *)
Lemma close_outputs st :
  as_CurrentItemType st <> "" ->
  as_Outputs (closeCurrentResponsesItem st).1 = as_Outputs st ++ [current_item st].
Proof.
  intros H. unfold closeCurrentResponsesItem. by destruct (String.eqb_spec (as_CurrentItemType st) "").
Qed.

Lemma close_At signed outs ids st :
  as_CurrentItemType st <> "" ->
  as_Outputs st ++ [current_item st] = outs -> as_IDs st = ids ->
  as_PreserveThinkingSignatures st = signed ->
  meta st ->
  At signed (MkDraft outs None ids) (closeCurrentResponsesItem st).1.
Proof.
  intros Ht <- <- <- [Hf1 Hf2]. unfold closeCurrentResponsesItem.
  destruct (String.eqb_spec (as_CurrentItemType st) ""); [done|]. by split.
Qed.

Lemma stop_step_reasoning st :
  as_CurrentItemType st = "reasoning" ->
  exists k, step (block_stop 0) st =
    (closeCurrentResponsesItem (st <| as_SequenceNumber := k |>)).1.
Proof.
  intros Ht. exists (as_SequenceNumber st + 1).
  unfold AnthropicEventToResponsesEvents; simpl.
  unfold anthToResHandleContentBlockStop; rewrite Ht; simpl. unfold then_emit. simpl.
  by destruct (closeCurrentResponsesItem _).
Qed.

Lemma stop_step_call st :
  as_CurrentItemType st = "function_call" -> as_PendingToolInput st = "" ->
  exists k, step (block_stop 0) st =
    (closeCurrentResponsesItem (st <| as_PendingToolInput := "" |> <| as_SequenceNumber := k |>)).1.
Proof.
  intros Ht Hp. exists (as_SequenceNumber st + 1).
  unfold AnthropicEventToResponsesEvents; simpl.
  unfold anthToResHandleContentBlockStop; rewrite Ht; simpl.
  unfold then_emit, flush_pending_input. rewrite Hp, andb_false_r. simpl.
  by destruct (closeCurrentResponsesItem _).
Qed.

Lemma thinking_closes signed d st text sig :
  as_Outputs st = flush d -> as_CurrentItemType st = "reasoning" ->
  as_CurrentItemID st = itemIDs (d_ids d) -> as_IDs st = S (d_ids d) ->
  as_CurrentThinking st = thinking_block -> as_CurrentSummary st = text ->
  as_PreserveThinkingSignatures st = signed ->
  meta st ->
  At signed (MkDraft (flush d ++ [reasoning_item signed (itemIDs (d_ids d)) text sig]) None
    (S (d_ids d))) (step (block_stop 0) (step (block_delta 0 (signature_delta sig)) st)).
Proof.
  intros E1 E2 E3 E4 E5 E6 E7 E8. rewrite signature_step, E7, E5.
  set (st1 := if signed then _ else _).
  assert (H2 : as_CurrentItemType st1 = "reasoning") by (subst st1; by destruct signed).
  destruct (stop_step_reasoning st1 H2) as [k ->]. apply close_At; subst st1;
    try (by destruct signed); [destruct signed; simpl; by rewrite E2|].
  destruct signed; simpl; rewrite E1; f_equal; f_equal; unfold current_item, reasoning_item;
    simpl; rewrite E2, E3, E7, E6; simpl.
  - by destruct (sig =?s ""), (text =?s "").
  - by destruct (text =?s "").
Qed.

Lemma thinking_block_At signed d st ds sig :
  At signed d st ->
  At signed (draft_step signed d (BThinking ds sig)) (crun (block_events (BThinking ds sig)) st).1.
Proof.
  intros HA. unfold block_events. rewrite run_block.
  change (conv_step (Converter := conv) ?e st).1 with (step e st).
  pose proof (thinking_start_Open signed d st HA) as HO. fold thinking_block.
  set (st1 := step _ st) in *. clearbody st1. clear HA st.
  destruct (run_thinking_deltas ds st1) as [k ->].
  change [?e1; ?e2] with ([e1] ++ [e2]). rewrite run_app, !run_single. cbn [fst].
  change (conv_step (Converter := conv) ?e ?s).1 with (step e s).
  destruct HO as [E1 E2 E3 E4 E5 E6 E7 E8 E9 E10 E11 E12].
  apply thinking_closes; simpl; auto. by rewrite E7.
Qed.

Lemma tool_block_At signed d st id name ds :
  At signed d st ->
  At signed (draft_step signed d (BTool id name ds)) (crun (block_events (BTool id name ds)) st).1.
Proof.
  intros HA. unfold block_events. rewrite run_block, run_single.
  change (conv_step (Converter := conv) ?e st).1 with (step e st).
  pose proof (tool_start_Open signed d st id name HA) as HO.
  set (st1 := step _ st) in *. clearbody st1. clear HA st.
  destruct HO as [E1 E2 E3 E4 E5 E6 E7 E8 E9 E10 E11 E12].
  destruct (run_input_deltas ds st1 E10) as [k ->].
  change (conv_step (Converter := conv) ?e ?s).1 with (step e s).
  set (st2 := st1 <| as_CurrentArgs := _ |> <| as_SequenceNumber := _ |>).
  destruct (stop_step_call st2 E2 E10) as [k' ->].
  apply close_At; subst st2; simpl; auto; [by rewrite E2|].
  rewrite E1. do 2 f_equal. unfold current_item, call_output; simpl.
  destruct (E9 eq_refl) as [E13 E14]. rewrite E2, E3, E6, E13, E14. simpl.
  by destruct (str_concat ds =?s "").
Qed.

Lemma blocks_At signed d st blocks :
  At signed d st ->
  At signed (foldl (draft_step signed) d blocks) (crun (flat_map block_events blocks) st).1.
Proof.
  revert d st; induction blocks as [|b blocks IH]; intros d st HA; [done|].
  change (flat_map block_events (b :: blocks)) with (block_events b ++ flat_map block_events blocks).
  rewrite run_app. cbn [fst foldl]. apply IH.
  destruct b; [by apply text_block_At|by apply thinking_block_At|by apply tool_block_At].
Qed.

Lemma complete_out st :
  exists st3 out e r, complete st = (st3, out ++ [e]) /\ as_CompletedSent st3 = true /\
    rse_Response e = Some r /\
    rse_Type e = (if as_StopReason st =?s "max_tokens" then "response.incomplete"
                  else "response.completed") /\
    rr_ID r = as_ResponseID st /\ rr_Model r = as_Model st /\
    rr_Output r = as_Outputs (closeCurrentResponsesItem st).1.
Proof.
  unfold complete, then_emit.
  assert (Hc : as_StopReason (closeCurrentResponsesItem st).1 = as_StopReason st /\
    as_ResponseID (closeCurrentResponsesItem st).1 = as_ResponseID st /\
    as_Model (closeCurrentResponsesItem st).1 = as_Model st).
  { unfold closeCurrentResponsesItem. by destruct (_ =?s ""). }
  destruct (closeCurrentResponsesItem st) as [st2 o2]. destruct Hc as (Hr & Hi & Hm).
  simpl in *. rewrite Hr. unfold anthropicResponsesStreamTerminalState.
  destruct (as_StopReason st =?s "max_tokens"); simpl;
    (eexists _, _, _, _; split; [reflexivity|]); by rewrite <- Hi, <- Hm.
Qed.

(** The end of the message. *)
Lemma completes signed d st reason :
  At signed d st ->
  exists prefix e r,
    (stream (H := conv) [message_delta_event reason; message_stop] st).2 = prefix ++ [e] /\ rse_Response e = Some r /\
    rse_Type e = (if reason =?s "max_tokens" then "response.incomplete"
                  else "response.completed") /\
    rr_ID r = rid /\ rr_Model r = mdl /\ rr_Output r = flush d.
Proof.
  intros HA.
  assert (Hd : exists st1, anthToResHandleMessageDelta (message_delta_event reason) st =
      (st1, []) /\ as_StopReason st1 = reason /\ as_CompletedSent st1 = false /\
      as_ResponseID st1 = rid /\ as_Model st1 = mdl /\
      as_Outputs (closeCurrentResponsesItem st1).1 = flush d).
  { pose proof (at_outputs _ _ _ (closed_At signed d st HA)) as Hout. simpl in Hout.
    destruct HA as [_ _ _ _ _ _ _ _ _ (E1 & E2 & E3 & E4 & E5)].
    unfold anthToResHandleMessageDelta; simpl. destruct (reason =?s "") eqn:Er; simpl.
    - bool_hyps. subst reason. eexists. by split_and!.
    - eexists. split_and!; try done. rewrite <- Hout.
      unfold closeCurrentResponsesItem, current_item; simpl.
      by destruct (as_CurrentItemType st =?s ""). }
  destruct Hd as (st1 & Hd & Hr & Hc & Hi & Hm & Ho).
  destruct (complete_out st1) as (st3 & out & e & r & Hcomp & H3 & He & Ht & Hid & Hmo & Hout).
  assert (Hs1 : conv_step (Converter := conv) (message_delta_event reason) st = (st1, [])) by exact Hd.
  assert (Hs2 : conv_step (Converter := conv) message_stop st1 = (st3, out ++ [e])).
  { change (anthToResHandleMessageStop st1 = (st3, out ++ [e])).
    unfold anthToResHandleMessageStop. by rewrite Hc. }
  assert (Hf : conv_finalize (Converter := conv) st3 = (st3, [])).
  { change (FinalizeAnthropicResponsesStream st3 = (st3, [])).
    unfold FinalizeAnthropicResponsesStream. by rewrite H3, orb_true_r. }
  exists out, e, r. unfold stream. cbn [run]. rewrite Hs1, Hs2, Hf. cbn [snd app].
  rewrite !app_nil_r. rewrite Hr in Ht. split_and!; congruence.
Qed.

(** A whole message. *)
Definition message_events (id model reason : string) (blocks : list Block) :
    list AnthropicStreamEvent :=
  [message_start_event id model] ++ flat_map block_events blocks ++
  [message_delta_event reason; message_stop].

Lemma message_start_At now :
  At (signed_model mdl) (MkDraft [] None 0)
    (conv_step (Converter := conv) (message_start_event rid mdl)
       (NewAnthropicEventToResponsesState now)).1.
Proof. by repeat split. Qed.

Lemma message_run_At now blocks :
  let st1 := (conv_step (Converter := conv) (message_start_event rid mdl)
       (NewAnthropicEventToResponsesState now)).1 in
  At (signed_model mdl) (foldl (draft_step (signed_model mdl)) (MkDraft [] None 0) blocks)
    (crun (flat_map block_events blocks) st1).1.
Proof. apply blocks_At, message_start_At. Qed.
End Canonical.

(** All text of a list of output items, and all text a message streams. *)
Definition output_text (items : list ResponsesOutput) : string :=
  str_concat (map (fun it => str_concat (map rcp_Text (ro_Content it))) items).
Definition streamed_text (blocks : list Block) : string :=
  str_concat (map (fun b => match b with BText ds => str_concat ds | _ => "" end) blocks).

Lemma output_text_app l1 l2 : output_text (l1 ++ l2) = output_text l1 +:+ output_text l2.
Proof. unfold output_text. by rewrite map_app, str_concat_app. Qed.

Lemma reasoning_item_text signed id text sig :
  output_text [reasoning_item signed id text sig] = "".
Proof. unfold reasoning_item. by destruct (_ && _). Qed.

Lemma message_item_text id parts :
  output_text [message_item id parts] = str_concat (map rcp_Text parts).
Proof. unfold output_text. simpl. by rewrite str_app_nil_r. Qed.

Lemma draft_step_text itemIDs signed d b :
  output_text (flush (draft_step itemIDs signed d b)) =
  output_text (flush d) +:+ streamed_text [b].
Proof.
  destruct d as [outs op ids], b as [ds|ds sig|id name ds]; unfold draft_step; simpl.
  - unfold streamed_text, flush. simpl. rewrite str_app_nil_r. destruct op as [[id ps]|]; simpl.
    + rewrite !output_text_app, !message_item_text, map_app, str_concat_app, str_app_assoc.
      simpl. by rewrite str_app_nil_r.
    + rewrite output_text_app, message_item_text. simpl. by rewrite str_app_nil_r.
  - unfold flush at 1; simpl. by rewrite output_text_app, reasoning_item_text.
  - unfold flush at 1; simpl. by rewrite output_text_app.
Qed.

Lemma message_outputs_text itemIDs signed blocks :
  output_text (message_outputs itemIDs signed blocks) = streamed_text blocks.
Proof.
  unfold message_outputs.
  assert (H : forall d, output_text (flush (foldl (draft_step itemIDs signed) d blocks)) =
     output_text (flush d) +:+ streamed_text blocks).
  { induction blocks as [|b blocks IH]; intros d; simpl.
    - by rewrite str_app_nil_r.
    - rewrite IH, draft_step_text, str_app_assoc. unfold streamed_text. simpl.
      by rewrite str_app_nil_r. }
  by rewrite H.
Qed.

(** C10. For a message streamed as a sequence of text, thinking and tool_use blocks,
    however each is cut into deltas, the stream ends with a terminal event whose
    output list is the message's: one item per thinking or tool_use block and per
    run of text blocks, with the concatenated deltas as summary, arguments or part
    text; in particular no text is lost. *)
Theorem message_stream_output itemIDs signed_model now id model reason blocks :
  let out := (stream (H := anthropic_to_responses itemIDs signed_model)
    (message_events id model reason blocks) (NewAnthropicEventToResponsesState now)).2 in
  exists prefix e r, out = prefix ++ [e] /\ rse_Response e = Some r /\
    rse_Type e = (if reason =?s "max_tokens" then "response.incomplete"
                  else "response.completed") /\
    rr_ID r = id /\ rr_Model r = model /\
    rr_Output r = message_outputs itemIDs (signed_model model) blocks /\
    output_text (rr_Output r) = streamed_text blocks.
Proof.
  intros out. subst out. unfold message_events. rewrite !stream_app_out, run_single.
  pose proof (message_run_At itemIDs signed_model id model now blocks) as HB. cbv zeta in HB.
  revert HB. generalize (run (H := anthropic_to_responses itemIDs signed_model)
    (flat_map block_events blocks) (conv_step (Converter := anthropic_to_responses itemIDs
       signed_model) (message_start_event id model)
       (NewAnthropicEventToResponsesState now)).1) as st2.
  intros st2 HB. destruct (completes itemIDs signed_model id model _ _ _ reason HB)
    as (prefix & e & r & Ho & Hr & Ht & Hid & Hm & Hout).
  rewrite Ho. eexists _, e, r. rewrite !app_assoc. split; [reflexivity|].
  split_and!; try done. rewrite Hout. apply message_outputs_text.
Qed.

(** ** Usage *)

(** The four counters of an Anthropic usage. *)
Definition anthropic_usage (input output cacheRead cacheCreation : Z) : AnthropicUsage :=
  zero_AnthropicUsage
    <| au_InputTokens := input |> <| au_OutputTokens := output |>
    <| au_CacheReadInputTokens := cacheRead |>
    <| au_CacheCreationInputTokens := cacheCreation |>.

(** Translating an Anthropic usage to Responses (cached tokens added to the
    input) and back (cached tokens taken out of it) is the identity, for
    non-negative counters whose sum fits an [int]. *)
Theorem usage_roundtrip input output cacheRead cacheCreation :
  0 <= input -> 0 <= cacheRead -> 0 <= cacheCreation ->
  input + cacheRead + cacheCreation <= int64_max ->
  anthropicUsageFromResponsesUsage (Some (responses_usage input output cacheRead cacheCreation))
    = anthropic_usage input output cacheRead cacheCreation.
Proof.
  intros Hi Hr Hc Hmax. unfold anthropicUsageFromResponsesUsage, responses_usage, anthropic_usage.
  assert (Hsum : int_add (int_add input cacheRead) cacheCreation =
                 input + cacheRead + cacheCreation).
  { unfold int_add. rewrite wrap64_add_l, wrap64_id; [done|]. unfold in_int64, int64_min. lia. }
  rewrite Hsum. unfold int_sub.
  destruct (0 <? cacheRead) eqn:E; bool_hyps; simpl.
  - rewrite wrap64_sub_l, wrap64_id by (unfold in_int64, int64_min; lia).
    replace (input + cacheRead + cacheCreation - cacheRead - cacheCreation) with input by lia.
    by destruct (input <? 0) eqn:E1; bool_hyps; [lia|].
  - assert (cacheRead = 0) as -> by lia.
    rewrite wrap64_sub_l, wrap64_id by (unfold in_int64, int64_min; lia).
    replace (input + 0 + cacheCreation - 0 - cacheCreation) with input by lia.
    by destruct (input <? 0) eqn:E1; bool_hyps; [lia|].
Qed.

Lemma usage_roundtrip_witness :
  anthropicUsageFromResponsesUsage (Some (responses_usage 10 7 90 5)) = anthropic_usage 10 7 90 5.
Proof. apply (usage_roundtrip 10 7 90 5); unfold int64_max; lia. Defined.

(** ** Two ways a stream goes wrong *)

Definition nth_id (n : nat) : string := "item".
Definition stream_of (evts : list AnthropicStreamEvent) : list ResponsesStreamEvent :=
  (stream (H := anthropic_to_responses nth_id (fun _ => false)) evts
     (NewAnthropicEventToResponsesState 0)).2.
Definition terminal_outputs (out : list ResponsesStreamEvent) : list ResponsesOutput :=
  flat_map (fun e => if one_of (rse_Type e) ["response.completed"; "response.incomplete"]
                     then match rse_Response e with Some r => rr_Output r | None => [] end
                     else []) out.

(** The upstream disconnects inside a text block: the finalizer's terminal event is
    [response.completed] with an empty message, although text was streamed. *)
Definition cut_stream : list AnthropicStreamEvent :=
  [message_start_event "m" "model";
   block_start 0 (zero_AnthropicContentBlock <| acb_Type := "text" |>);
   block_delta 0 (text_delta "hello")].
Example cut_stream_loses_text :
  existsb (fun e => rse_Delta e =?s "hello") (stream_of cut_stream) = true /\
  map rse_Type (drop 4 (stream_of cut_stream)) =
    ["response.output_item.done"; "response.completed"] /\
  output_text (terminal_outputs (stream_of cut_stream)) = "".
Proof. vm_compute. repeat split. Qed.

(** A server tool's argument deltas are kept although no item is open, and become a
    prefix of the arguments of the next tool call. *)
Definition server_tool_stream : list AnthropicStreamEvent :=
  [message_start_event "m" "model";
   block_start 0 (zero_AnthropicContentBlock <| acb_Type := "server_tool_use" |>);
   block_delta 0 (input_json_delta "{1}"); block_stop 0] ++
  block_events (BTool "call" "f" ["{2}"]) ++
  [message_delta_event "tool_use"; message_stop].
Example server_tool_arguments_leak :
  map ro_Arguments (terminal_outputs (stream_of server_tool_stream)) = ["{1}{2}"].
Proof. vm_compute. reflexivity. Qed.
