(* ===== verification/Redis.v ===== *)
(** * The Redis server the caches talk to

    The commands the sources send, the replies, and what the Redis documentation
    says a command does to the key space ([exec_store]).  The server itself is not
    part of the repository: it is the class [RedisServer], whose law is that it
    executes commands as documented, and every model of a cache is written against
    that class.  [Store] itself is an instance.

    Also the decimal printing and parsing of integers ([fmt]'s %d,
    [strconv.ParseInt]) that keys and index members are made of. *)

From S2P Require Import Prelude Json.
From Stdlib Require Import DecimalString DecimalZ.
Local Open Scope string_scope.
Local Open Scope Z_scope.
Local Open Scope list_scope.
Local Open Scope go_scope.

(** ** Decimal integers *)

(** [strconv.FormatInt(z, 10)] *)
Definition FormatInt (z : Z) : string := NilZero.string_of_int (Z.to_int z).

Definition parse_decimal (s : string) : option Z :=
  d ← NilZero.int_of_string s; Some (Z.of_int d).

(** [strconv.ParseInt(s, 10, 64)]; [None] is the error. *)
Definition ParseInt (s : string) : option Z :=
  z ← (match s with
       | String c rest =>
           if is_c 43 c then
             match rest with
             | String d _ => if is_c 45 d then None else parse_decimal rest
             | EmptyString => None
             end
           else parse_decimal s
       | EmptyString => None
       end);
  if (int64_min <=? z) && (z <=? int64_max) then Some z else None.

Lemma int_of_FormatInt z : NilZero.int_of_string (FormatInt z) = Some (Z.to_int z).
Proof.
  unfold FormatInt. apply NilZero.isi.
  - destruct z; simpl; try done. intros [= H]. by apply DecimalPos.Unsigned.to_uint_nonnil in H.
  - destruct z; simpl; try done. intros [= H]. by apply DecimalPos.Unsigned.to_uint_nonnil in H.
Qed.

#[export] Instance FormatInt_inj : Inj (=) (=) FormatInt.
Proof.
  intros a b H. assert (E : Some (Z.to_int a) = Some (Z.to_int b))
    by (by rewrite <- !int_of_FormatInt, H).
  injection E as E. by rewrite <- (DecimalZ.of_to a), <- (DecimalZ.of_to b), E.
Qed.

(** A decimal number is not a word. *)
Lemma FormatInt_not_word z s : NilZero.int_of_string s = None -> FormatInt z <> s.
Proof. intros Hs <-. by rewrite int_of_FormatInt in Hs. Qed.

(** ** Commands and replies *)

Inductive command :=
  | TIME
  | ZADD (key : string) (score : Z) (member : string)
  | ZREM (key member : string)
  | ZREMRANGEBYSCORE (key : string) (max : Z)       (* -inf .. max *)
  | ZSCORE (key member : string)
  | ZCARD (key : string)
  | ZRANGE (key : string)                           (* 0 .. -1 *)
  | ZRANGEBYSCORE (key : string) (max : Z) (count : nat)
  | GET (key : string)
  | SET (key : string) (value : Z)
  | SETPX (key : string) (value : Z) (px : Z)
  | SETNXPX (key : string) (value : Z) (px : Z)     (* SET with NX: 1 if it was set *)
  | PERSIST (key : string)
  | INCR (key : string)
  | DECR (key : string)
  | DEL (key : string)
  | EXISTS (key : string)
  | EXPIRE (key : string) (seconds : Z)
  | PEXPIRE (key : string) (millis : Z)
  | KEYS (prefix : string).                         (* SCAN over prefix* to the end *)

Inductive reply :=
  | RNil
  | RInt (z : Z)
  | RTime (seconds micros : Z)
  | RList (l : list string)
  | RErr.

(** Sorted sets and integer strings by key, the deadline (Unix milliseconds) of the
    keys that have one, and the clock in microseconds.  The sources only store
    integers as strings and integers as scores. *)
Record Store := MkStore {
  zsets : gmap string (gmap string Z);
  strs : gmap string Z;
  deadlines : gmap string Z;
  clock : Z;
}.
#[export] Instance eta_Store : Eta Store := fun s =>
  MkStore (zsets s) (strs s) (deadlines s) (clock s).

Definition zset (k : string) (s : Store) : gmap string Z := default ∅ (zsets s !! k).
Definition now_s (s : Store) : Z := clock s / 1000000.
Definition now_ms (s : Store) : Z := clock s / 1000.

Definition del_key (k : string) (s : Store) : Store :=
  s <| zsets := delete k (zsets s) |> <| strs := delete k (strs s) |>
    <| deadlines := delete k (deadlines s) |>.

(** A sorted set without members does not exist, nor does its deadline. *)
Definition put_zset (k : string) (z : gmap string Z) (s : Store) : Store :=
  if bool_decide (z = ∅) then s <| zsets := delete k (zsets s) |>
                                <| deadlines := delete k (deadlines s) |>
  else s <| zsets := <[k := z]> (zsets s) |>.

Definition key_exists (k : string) (s : Store) : bool :=
  bool_decide (is_Some (zsets s !! k) \/ is_Some (strs s !! k)).

(** A deadline that is not in the future removes the key at once. *)
Definition set_deadline (k : string) (ttl_ms : Z) (s : Store) : Store :=
  if negb (key_exists k s) then s
  else if ttl_ms <=? 0 then del_key k s
  else s <| deadlines := <[k := now_ms s + ttl_ms]> (deadlines s) |>.

(** Members in the order of a sorted set: by score, then by name. *)
Definition member_le (a b : Z * string) : bool :=
  (a.1 <? b.1) || ((a.1 =? b.1) && negb (String.ltb b.2 a.2)).
Fixpoint insert_member (x : Z * string) (l : list (Z * string)) : list (Z * string) :=
  match l with
  | [] => [x]
  | y :: l' => if member_le x y then x :: l else y :: insert_member x l'
  end.
Definition sorted_members (z : gmap string Z) : list (Z * string) :=
  foldr (fun '(m, sc) l => insert_member (sc, m) l) [] (map_to_list z).

Definition exec_store (c : command) (s : Store) : Store * reply :=
  match c with
  | TIME => (s, RTime (now_s s) (clock s mod 1000000))
  | ZADD k sc m => (put_zset k (<[m := sc]> (zset k s)) s, RInt 1)
  | ZREM k m => (put_zset k (delete m (zset k s)) s,
                 RInt (if bool_decide (is_Some (zset k s !! m)) then 1 else 0))
  | ZREMRANGEBYSCORE k mx =>
      (put_zset k (filter (fun p => mx < p.2) (zset k s)) s,
       RInt (Z.of_nat (size (zset k s)) -
             Z.of_nat (size (filter (fun p => mx < p.2) (zset k s)))))
  | ZSCORE k m => (s, match zset k s !! m with Some sc => RInt sc | None => RNil end)
  | ZCARD k => (s, RInt (Z.of_nat (size (zset k s))))
  | ZRANGE k => (s, RList (map snd (sorted_members (zset k s))))
  | ZRANGEBYSCORE k mx n =>
      (s, RList (take n (map snd (List.filter (fun p => p.1 <=? mx) (sorted_members (zset k s))))))
  | GET k => (s, match strs s !! k with Some v => RInt v | None => RNil end)
  | SET k v => (s <| strs := <[k := v]> (strs s) |> <| deadlines := delete k (deadlines s) |>, RNil)
  | SETPX k v px =>
      if px <=? 0 then (s, RErr)
      else (s <| strs := <[k := v]> (strs s) |>
              <| deadlines := <[k := now_ms s + px]> (deadlines s) |>, RNil)
  | SETNXPX k v px =>
      if px <=? 0 then (s, RErr)
      else if key_exists k s then (s, RInt 0)
      else (s <| strs := <[k := v]> (strs s) |>
              <| deadlines := <[k := now_ms s + px]> (deadlines s) |>, RInt 1)
  | PERSIST k => (s <| deadlines := delete k (deadlines s) |>,
                  RInt (if bool_decide (is_Some (deadlines s !! k)) then 1 else 0))
  | INCR k => let v := default 0 (strs s !! k) + 1 in
              (s <| strs := <[k := v]> (strs s) |>, RInt v)
  | DECR k => let v := default 0 (strs s !! k) - 1 in
              (s <| strs := <[k := v]> (strs s) |>, RInt v)
  | DEL k => (del_key k s, RInt (if key_exists k s then 1 else 0))
  | EXISTS k => (s, RInt (if key_exists k s then 1 else 0))
  | EXPIRE k sec => (set_deadline k (sec * 1000) s, RInt (if key_exists k s then 1 else 0))
  | PEXPIRE k ms => (set_deadline k ms s, RInt (if key_exists k s then 1 else 0))
  | KEYS p => (s, RList (List.filter (fun k => HasPrefix k p)
                          (map fst (map_to_list (zsets s)) ++ map fst (map_to_list (strs s)))))
  end.

(** The clock moves on: keys whose deadline has passed are gone. *)
Definition expired (s : Store) (t : Z) (k : string) : Prop :=
  exists d, deadlines s !! k = Some d /\ d < t / 1000.
#[export] Instance expired_dec s t k : Decision (expired s t k).
Proof.
  unfold expired. destruct (deadlines s !! k) as [d|] eqn:E.
  - destruct (decide (d < t / 1000)); [left; by exists d|right; intros (d' & [= <-] & ?); lia].
  - right. by intros (d' & ? & _).
Defined.
Definition advance (t : Z) (s : Store) : Store :=
  MkStore (filter (fun p => ~ expired s t p.1) (zsets s))
    (filter (fun p => ~ expired s t p.1) (strs s))
    (filter (fun p => ~ expired s t p.1) (deadlines s)) t.

(** ** The server *)

Class RedisServer (R : Type) := {
  exec : command -> R -> R * reply;
  content : R -> Store;
  exec_documented : forall c r,
    content (exec c r).1 = (exec_store c (content r)).1 /\
    (exec c r).2 = (exec_store c (content r)).2;
}.

#[export] Instance store_redis : RedisServer Store.
Proof. by refine {| exec := exec_store; content := fun s => s |}. Defined.

(** ** Scripts and clients *)

(** How a round trip ends: with the reply, or with an error before or after the
    server executed the request. *)
Inductive Outcome := Answered | Refused | ReplyLost.

Section Scripts.
Context {R : Type} `{RedisServer R}.

(** Code that runs on the server (a Lua script or a pipeline), atomically. *)
Definition Script (A : Type) := R -> R * A.

Definition s_ret {A} (a : A) : Script A := fun r => (r, a).
Definition s_bind {A B} (m : Script A) (k : A -> Script B) : Script B :=
  fun r => let '(r', a) := m r in k a r'.
Definition call (c : command) : Script reply := exec c.

(** Code of the client: it returns ([None] is a returned error), or makes a round
    trip and goes on with its reply ([None] is the round trip's error).  Other
    clients may run between two round trips. *)
Inductive Go (A : Type) :=
  | Done (o : option A)
  | RoundTrip {B : Type} (m : Script B) (k : option B -> Go A).
Arguments Done {A} o.
Arguments RoundTrip {A B} m k.

Definition g_ret {A} (a : A) : Go A := Done (Some a).
Definition g_err {A} : Go A := Done None.
Fixpoint g_bind {A B} (m : Go A) (k : A -> Go B) : Go B :=
  match m with
  | Done (Some a) => k a
  | Done None => Done None
  | RoundTrip m k' => RoundTrip m (fun o => g_bind (k' o) k)
  end.
(** Inspect the error. *)
Fixpoint g_try {A} (m : Go A) : Go (option A) :=
  match m with
  | Done o => Done (Some o)
  | RoundTrip m k => RoundTrip m (fun o => g_try (k o))
  end.
(** A best-effort step: its error is logged and dropped. *)
Definition g_ignore {A} (m : Go A) : Go () := g_bind (g_try m) (fun _ => g_ret tt).
Definition run_script {A} (m : Script A) : Go A := RoundTrip m Done.

(** What a round trip does to the server, and what the client learns. *)
Definition round_trip {A} (o : Outcome) (m : Script A) (r : R) : R * option A :=
  match o with
  | Answered => ((m r).1, Some (m r).2)
  | Refused => (r, None)
  | ReplyLost => ((m r).1, None)
  end.

(** A client alone with the server; its round trips end as listed, then with the
    reply. *)
Fixpoint run_alone {A} (os : list Outcome) (p : Go A) (r : R) : R * option A :=
  match p with
  | Done o => (r, o)
  | RoundTrip m k =>
      let '(r', b) := round_trip (match os with o :: _ => o | [] => Answered end) m r in
      run_alone (tail os) (k b) r'
  end.
End Scripts.
Arguments Script R A : clear implicits.
Arguments Go R A : clear implicits.
Arguments Done {R A} o.
Arguments RoundTrip {R A B} m k.

Notation "'let$' x ':=' m 'in' k" := (s_bind m (fun x => k))
  (at level 10, x name, m at level 100, k at level 200) : go_scope.
Notation "'let?' x ':=' m 'in' k" := (g_bind m (fun x => k))
  (at level 10, x name, m at level 100, k at level 200) : go_scope.
Notation "m ';$' k" := (s_bind m (fun _ => k)) (at level 62, right associativity) : go_scope.
Notation "m ';?' k" := (g_bind m (fun _ => k)) (at level 62, right associativity) : go_scope.

Definition reply_int (a : reply) : Z := match a with RInt z => z | _ => 0 end.
Definition reply_list (a : reply) : list string := match a with RList l => l | _ => [] end.
Definition reply_seconds (a : reply) : Z := match a with RTime s _ => s | _ => 0 end.
(** [seconds * 1000 + math.floor(micros / 1000)] *)
Definition reply_millis (a : reply) : Z :=
  match a with RTime s us => s * 1000 + us / 1000 | _ => 0 end.
