(* ===== verification/RedisProofs.v ===== *)
(** * Reasoning about scripts and round trips

    Hoare triples over the documented content of the server, the rules for the
    combinators, and what each command does to one sorted set. *)

From S2P Require Import Prelude Json Redis.
Local Open Scope string_scope.
Local Open Scope Z_scope.
Local Open Scope list_scope.
Local Open Scope go_scope.

(** ** Triples *)

Section Triples.
Context {R : Type} `{RedisServer R}.

Definition triple {A} (P : Store -> Prop) (m : R -> R * A) (Q : A -> Store -> Prop) : Prop :=
  forall r, P (content r) -> Q (m r).2 (content (m r).1).

(** [m] keeps [P] whatever it returns. *)
Definition keeps {A} (P : Store -> Prop) (m : R -> R * A) : Prop := triple P m (fun _ => P).

Lemma triple_mono {A} (P P' : Store -> Prop) (Q Q' : A -> Store -> Prop) m :
  triple P m Q -> (forall s, P' s -> P s) -> (forall a s, Q a s -> Q' a s) -> triple P' m Q'.
Proof. intros Hm HP HQ r Hr. apply HQ, Hm, HP, Hr. Qed.

Lemma triple_ret {A} (a : A) (Q : A -> Store -> Prop) : triple (Q a) (s_ret a) Q.
Proof. intros r Hr. done. Qed.

Lemma triple_bind {A B} P (m : Script R A) Q (k : A -> Script R B) S :
  triple P m Q -> (forall a, triple (Q a) (k a) S) -> triple P (s_bind m k) S.
Proof.
  intros Hm Hk r Hr. unfold s_bind. specialize (Hm r Hr). destruct (m r) as [r' a].
  by apply (Hk a r').
Qed.

Lemma triple_call P c (Q : reply -> Store -> Prop) :
  (forall s, P s -> Q (exec_store c s).2 (exec_store c s).1) -> triple P (call c) Q.
Proof.
  intros HQ r Hr. unfold call. destruct (exec_documented c r) as [-> ->]. by apply HQ.
Qed.

(** A fact about the state that the rest of the proof may use. *)
Lemma triple_exists {A B} (P : B -> Store -> Prop) (m : R -> R * A) Q :
  (forall b, triple (P b) m Q) -> triple (fun s => exists b, P b s) m Q.
Proof. intros Hm r [b Hb]. by apply (Hm b). Qed.

Lemma triple_pure {A} (b : Prop) P (m : R -> R * A) Q :
  (b -> triple P m Q) -> triple (fun s => b /\ P s) m Q.
Proof. intros Hm r [Hb Hr]. by apply Hm. Qed.

Lemma keeps_ret {A} P (a : A) : keeps P (s_ret a).
Proof. by intros r Hr. Qed.
Lemma keeps_bind {A B} P (m : Script R A) (k : A -> Script R B) :
  keeps P m -> (forall a, keeps P (k a)) -> keeps P (s_bind m k).
Proof. intros Hm Hk. by apply triple_bind with (fun _ => P). Qed.
Lemma keeps_call P c :
  (forall s, P s -> P (exec_store c s).1) -> keeps P (call c).
Proof. intros Hc. by apply triple_call. Qed.

(** Every round trip of the client keeps [P], whatever its replies. *)
Fixpoint safe {A} (P : Store -> Prop) (p : Go R A) : Prop :=
  match p with
  | Done _ => True
  | RoundTrip m k => keeps P m /\ forall o, safe P (k o)
  end.

Lemma safe_bind {A B} P (m : Go R A) (k : A -> Go R B) :
  safe P m -> (forall a, safe P (k a)) -> safe P (g_bind m k).
Proof.
  intros Hm Hk. induction m as [[a|]|C m k' IH]; simpl in *; [apply Hk|done|].
  destruct Hm as [Hm Hk']. split; [done|]. intros o. by apply IH.
Qed.
Lemma safe_try {A} P (m : Go R A) : safe P m -> safe P (g_try m).
Proof.
  induction m as [|C m k IH]; simpl; [done|]. intros [Hm Hk]. split; [done|]. intros o. by apply IH.
Qed.
Lemma safe_ignore {A} P (m : Go R A) : safe P m -> safe P (g_ignore m).
Proof. intros Hm. apply safe_bind; [by apply safe_try|done]. Qed.
Lemma safe_script {A} P (m : Script R A) : keeps P m -> safe P (run_script m).
Proof. by intros Hm. Qed.
Lemma safe_ret {A} P (a : A) : safe P (g_ret a).
Proof. done. Qed.

Lemma keeps_round_trip {A} P o (m : Script R A) :
  keeps P m -> forall r, P (content r) -> P (content (round_trip o m r).1).
Proof. intros Hm r Hr. destruct o; simpl; [|done|]; by apply Hm. Qed.

Lemma safe_alone {A} P (p : Go R A) :
  safe P p -> forall os r, P (content r) -> P (content (run_alone os p r).1).
Proof.
  induction p as [o|B m k IH]; simpl; intros Hp os r Hr; [done|]. destruct Hp as [Hm Hk].
  pose proof (keeps_round_trip P (match os with o :: _ => o | [] => Answered end) m Hm r Hr).
  destruct (round_trip _ m r) as [r' b]. by apply IH.
Qed.
End Triples.
#[global] Arguments safe : simpl never.
#[global] Arguments g_bind : simpl never.

#[export] Hint Resolve keeps_ret safe_ret safe_ignore safe_try safe_script : s2q.

(** ** One sorted set *)

Lemma zset_put_eq k z s : zset k (put_zset k z s) = z.
Proof.
  unfold put_zset, zset. case_bool_decide as E; simpl.
  - by rewrite lookup_delete_eq, E.
  - by rewrite lookup_insert_eq.
Qed.
Lemma zset_put_ne k k' z s : k <> k' -> zset k (put_zset k' z s) = zset k s.
Proof.
  intros Hk. unfold put_zset, zset. case_bool_decide; simpl.
  - by rewrite lookup_delete_ne.
  - by rewrite lookup_insert_ne.
Qed.
Lemma zset_del_key k k' s :
  zset k (del_key k' s) = if bool_decide (k = k') then ∅ else zset k s.
Proof.
  unfold zset, del_key; simpl. case_bool_decide as E.
  - subst. by rewrite lookup_delete_eq.
  - by rewrite lookup_delete_ne.
Qed.
Lemma zset_set_deadline k k' ttl s :
  zset k (set_deadline k' ttl s) = zset k s \/ zset k (set_deadline k' ttl s) = ∅.
Proof.
  unfold set_deadline. destruct (negb _); [by left|]. destruct (ttl <=? 0); [|by left].
  rewrite zset_del_key. case_bool_decide; [by right|by left].
Qed.
Lemma zset_set_deadline_pos k k' ttl s :
  0 < ttl -> zset k (set_deadline k' ttl s) = zset k s.
Proof.
  intros Ht. unfold set_deadline. destruct (negb _); [done|].
  by destruct (ttl <=? 0) eqn:E; [bool_hyps; lia|].
Qed.

(** What a command may do to the set at [k]: only [ZADD] on [k] itself grows it. *)
Lemma exec_zset k c s :
  zset k (exec_store c s).1 ⊆ zset k s \/
  exists sc m, c = ZADD k sc m /\ zset k (exec_store c s).1 = <[m := sc]> (zset k s).
Proof.
  assert (Hd : forall k' ttl, zset k (set_deadline k' ttl s) ⊆ zset k s).
  { intros k' ttl. destruct (zset_set_deadline k k' ttl s) as [-> | ->]; [done|].
    apply map_empty_subseteq. }
  destruct c; simpl; try (by left); try (left; by apply Hd).
  - destruct (decide (k = key)) as [->|Hk].
    + right. rewrite zset_put_eq. eauto.
    + left. by rewrite zset_put_ne.
  - left. destruct (decide (k = key)) as [->|Hk].
    + rewrite zset_put_eq. apply delete_subseteq.
    + by rewrite zset_put_ne.
  - left. destruct (decide (k = key)) as [->|Hk].
    + rewrite zset_put_eq. apply map_filter_subseteq.
    + by rewrite zset_put_ne.
  - left. by destruct (px <=? 0).
  - left. destruct (px <=? 0); [done|]. by destruct (key_exists _ _).
  - left. rewrite zset_del_key. case_bool_decide; [apply map_empty_subseteq|done].
Qed.

(** A deadline that passes can only empty the set. *)
Lemma zset_advance k t s : zset k (advance t s) = zset k s \/ zset k (advance t s) = ∅.
Proof.
  unfold zset, advance; simpl. rewrite map_lookup_filter.
  destruct (zsets s !! k) as [z|] eqn:E; simpl; [|by left].
  case_guard; simpl; [by left|by right].
Qed.

(** ** Keys a command writes *)

Definition writes (c : command) : option string :=
  match c with
  | ZADD k _ _ | ZREM k _ | ZREMRANGEBYSCORE k _ | SET k _ | SETPX k _ _ | SETNXPX k _ _ | PERSIST k | INCR k | DECR k
  | DEL k | EXPIRE k _ | PEXPIRE k _ => Some k
  | TIME | ZSCORE _ _ | ZCARD _ | ZRANGE _ | ZRANGEBYSCORE _ _ _ | GET _ | EXISTS _ | KEYS _ => None
  end.

(** Everything at one key: its members, its string and its deadline. *)
Definition at_key (k : string) (s : Store) : option (gmap string Z) * option Z * option Z :=
  (zsets s !! k, strs s !! k, deadlines s !! k).

Lemma at_key_zset k s s' : at_key k s = at_key k s' -> zset k s = zset k s'.
Proof. unfold at_key, zset. by intros [= -> _ _]. Qed.

Lemma exec_frame k c s :
  writes c <> Some k ->
  at_key k (exec_store c s).1 = at_key k s /\ clock (exec_store c s).1 = clock s.
Proof.
  assert (Hdel : forall k', Some k' <> Some k ->
    at_key k (del_key k' s) = at_key k s /\ clock (del_key k' s) = clock s).
  { intros k' Hk. unfold at_key, del_key; simpl.
    rewrite !lookup_delete_ne by congruence. done. }
  assert (Hput : forall k' z, Some k' <> Some k ->
    at_key k (put_zset k' z s) = at_key k s /\ clock (put_zset k' z s) = clock s).
  { intros k' z Hk. unfold at_key, put_zset. case_bool_decide; simpl;
      rewrite ?lookup_delete_ne, ?lookup_insert_ne by congruence; done. }
  assert (Hdl : forall k' ttl, Some k' <> Some k ->
    at_key k (set_deadline k' ttl s) = at_key k s /\ clock (set_deadline k' ttl s) = clock s).
  { intros k' ttl Hk. unfold set_deadline. destruct (negb _); [done|].
    destruct (ttl <=? 0); [by apply Hdel|]. unfold at_key; simpl.
    rewrite lookup_insert_ne by congruence. done. }
  intros Hk. destruct c; simpl in *; auto;
    try (unfold at_key; simpl; rewrite ?lookup_insert_ne, ?lookup_delete_ne by congruence; done).
  - destruct (px <=? 0); [done|].
    unfold at_key; simpl. rewrite !lookup_insert_ne by congruence. done.
  - destruct (px <=? 0); [done|]. destruct (key_exists _ _); [done|].
    unfold at_key; simpl. rewrite !lookup_insert_ne by congruence. done.
Qed.

Lemma exec_frame_zset k c s :
  writes c <> Some k -> zset k (exec_store c s).1 = zset k s.
Proof. intros Hk. by apply at_key_zset, exec_frame. Qed.

(** ** Symbolic execution of a script *)

(** From content [s] the script returns [a] and leaves [s']. *)
Definition evals {R : Type} `{RedisServer R} {A} (s : Store) (m : Script R A) (a : A)
    (s' : Store) : Prop :=
  forall r, content r = s -> (m r).2 = a /\ content (m r).1 = s'.

Section Evals.
Context {R : Type} `{RedisServer R}.

Lemma evals_ret {A} (a : A) s : evals (R := R) s (s_ret a) a s.
Proof. by intros r <-. Qed.
Lemma evals_bind {A B} s (m : Script R A) a s1 (k : A -> Script R B) b s2 :
  evals s m a s1 -> evals s1 (k a) b s2 -> evals s (s_bind m k) b s2.
Proof.
  intros Hm Hk r Hr. destruct (Hm r Hr) as [H1 H2]. unfold s_bind.
  destruct (m r) as [r' x]. simpl in *. subst x. by apply Hk.
Qed.
Lemma evals_call c s : evals (R := R) s (call c) (exec_store c s).2 (exec_store c s).1.
Proof. intros r <-. destruct (exec_documented c r). by split. Qed.
Lemma evals_if {A} (b : bool) s (m1 m2 : Script R A) a1 a2 s1 s2 :
  evals s m1 a1 s1 -> evals s m2 a2 s2 ->
  evals s (if b then m1 else m2) (if b then a1 else a2) (if b then s1 else s2).
Proof. by destruct b. Qed.
Lemma run_alone_script {A B} (m : Script R A) (k : A -> Go R B) r a s :
  evals (content r) m a s ->
  exists r', content r' = s /\ run_alone [] (g_bind (run_script m) k) r = run_alone [] (k a) r'.
Proof.
  intros Hm. destruct (Hm r eq_refl) as [Ha Hs]. exists (m r).1. split; [done|]. by rewrite <- Ha.
Qed.
Lemma run_alone_bind {A B} (m : Go R A) (k : A -> Go R B) r r' a :
  run_alone [] m r = (r', Some a) -> run_alone [] (g_bind m k) r = run_alone [] (k a) r'.
Proof.
  revert r. induction m as [o|C f K IH]; intros r Hm.
  - injection Hm as -> ->. done.
  - cbn in Hm. destruct (f r) as [r1 b] eqn:E. change (g_bind (RoundTrip f K) k) with
      (RoundTrip f (fun o => g_bind (K o) k)). cbn. rewrite E. by apply IH.
Qed.
Lemma triple_evals {A} (P : Store -> Prop) (m : Script R A) (Q : A -> Store -> Prop) a f :
  (forall s, P s -> evals s m (a s) (f s) /\ Q (a s) (f s)) -> triple P m Q.
Proof.
  intros Hm r Hr. destruct (Hm _ Hr) as [He Hq]. by destruct (He r eq_refl) as [-> ->].
Qed.
End Evals.

(** Run the script as far as its shape decides. *)
Ltac evaluate :=
  repeat match goal with
  | |- evals _ (s_bind _ _) _ _ => eapply evals_bind
  | |- evals _ (s_ret _) _ _ => apply evals_ret
  | |- evals _ (call _) _ _ => apply evals_call
  | |- evals _ (if _ then _ else _) _ _ => eapply evals_if
  end.

(** What deadlines do to sets. *)
Lemma zset_expire_put k key z ttl s : 0 < ttl ->
  zset k (set_deadline key ttl (put_zset key z s)) = if bool_decide (k = key) then z else zset k s.
Proof.
  intros Ht. rewrite zset_set_deadline_pos by done. case_bool_decide as E.
  - subst. apply zset_put_eq.
  - by apply zset_put_ne.
Qed.
Lemma clock_put_zset k z s : clock (put_zset k z s) = clock s.
Proof. unfold put_zset. by case_bool_decide. Qed.
Lemma clock_set_deadline k t s : clock (set_deadline k t s) = clock s.
Proof. unfold set_deadline. destruct (negb _); [done|]. by destruct (t <=? 0). Qed.
#[export] Hint Rewrite clock_put_zset clock_set_deadline : s2q_rw.
Lemma at_key_put_zset k k' z s : k <> k' -> at_key k (put_zset k' z s) = at_key k s.
Proof.
  intros Hk. unfold at_key, put_zset. case_bool_decide; simpl;
    by rewrite ?lookup_delete_ne, ?lookup_insert_ne by done.
Qed.
Lemma at_key_set_deadline k k' t s : k <> k' -> at_key k (set_deadline k' t s) = at_key k s.
Proof.
  intros Hk. exact (proj1 (exec_frame k (PEXPIRE k' t) s ltac:(simpl; congruence))).
Qed.
