(* ===== verification/ConcurrencyCache.v ===== *)
(** * Distributed concurrency slots

    [src/backend/internal/repository/concurrency_cache.go]: the Lua scripts and the
    Go methods around them.  A slot is a member of a sorted set whose score is the
    second it was last refreshed; regular and live slots of an account, a user or
    an API key are two sets; waiters are a counter; an index per kind lists the ids
    that may have load.  Scores, TTLs and limits are integers well below 2^53, so
    Lua's numbers are exact; times are Unix nanoseconds. *)

From S2P Require Import Prelude Json Redis.
Local Open Scope string_scope.
Local Open Scope Z_scope.
Local Open Scope list_scope.
Local Open Scope go_scope.

(** ** Keys *)

Definition accountSlotKeyPrefix := "concurrency:account:".
Definition userSlotKeyPrefix := "concurrency:user:".
Definition apiKeySlotKeyPrefix := "concurrency:api_key:".
Definition liveAccountSlotKeyPrefix := "concurrency:live:account:".
Definition liveUserSlotKeyPrefix := "concurrency:live:user:".
Definition liveAPIKeySlotKeyPrefix := "concurrency:live:api_key:".
Definition openAIWSIngressLeaseKeyPrefix := "concurrency:openai_ws_ingress:api_key:".
Definition openAIOAuthAdmissionKeyPrefix := "concurrency:openai_oauth_admission:account:".
Definition openAIWSIngressLeaseTTLSeconds : Z := 60.
Definition liveLeaseTTLSeconds : Z := 60.
Definition waitQueueKeyPrefix := "concurrency:wait:".
Definition apiKeyWaitQueueKeyPrefix := "concurrency:wait:api_key:".
Definition accountWaitKeyPrefix := "wait:account:".
Definition defaultSlotTTLMinutes : Z := 15.
Definition accountActiveIndexKey := "concurrency:account:active_index".
Definition userActiveIndexKey := "concurrency:user:active_index".
Definition apiKeyActiveIndexKey := "concurrency:api_key:active_index".
Definition activeIndexCleanupBatchSize : nat := Z.to_nat 1000.
Definition legacyWaitSweepMarkerKey := "concurrency:startup:legacy_wait_sweep:v1".

Definition accountSlotKey (accountID : Z) := accountSlotKeyPrefix +:+ FormatInt accountID.
Definition userSlotKey (userID : Z) := userSlotKeyPrefix +:+ FormatInt userID.
Definition apiKeySlotKey (apiKeyID : Z) := apiKeySlotKeyPrefix +:+ FormatInt apiKeyID.
Definition apiKeyWaitQueueKey (apiKeyID : Z) := apiKeyWaitQueueKeyPrefix +:+ FormatInt apiKeyID.
Definition liveAccountSlotKey (accountID : Z) := liveAccountSlotKeyPrefix +:+ FormatInt accountID.
Definition liveUserSlotKey (userID : Z) := liveUserSlotKeyPrefix +:+ FormatInt userID.
Definition liveAPIKeySlotKey (apiKeyID : Z) := liveAPIKeySlotKeyPrefix +:+ FormatInt apiKeyID.
Definition openAIWSIngressLeaseKey (apiKeyID : Z) :=
  openAIWSIngressLeaseKeyPrefix +:+ FormatInt apiKeyID.
Definition openAIOAuthAdmissionKey (accountID : Z) :=
  openAIOAuthAdmissionKeyPrefix +:+ FormatInt accountID.
Definition waitQueueKey (userID : Z) := waitQueueKeyPrefix +:+ FormatInt userID.
Definition accountWaitKey (accountID : Z) := accountWaitKeyPrefix +:+ FormatInt accountID.

(** ** Times *)

Definition Millisecond : Z := 1000000.
Definition Minute : Z := 60 * 1000 * Millisecond.
(** [d.Milliseconds()] and [t.UnixMilli()] *)
Definition Milliseconds (d : Z) : Z := Z.quot d Millisecond.
Definition UnixMilli (t : Z) : Z := t / Millisecond.
(** Go's zero time: year 1. *)
Definition zero_time : Z := -62135596800 * 1000 * Millisecond.
Definition IsZero (t : Z) : bool := t =? zero_time.

(** ** The cache object *)

Record concurrencyCache := MkconcurrencyCache {
  slotTTLSeconds : Z;
  waitQueueTTLSeconds : Z;
}.

Definition NewConcurrencyCache (slotTTLMinutes waitQueueTTL : Z) : concurrencyCache :=
  let slotTTLMinutes := if slotTTLMinutes <=? 0 then defaultSlotTTLMinutes else slotTTLMinutes in
  let waitQueueTTL := if waitQueueTTL <=? 0 then int_mul slotTTLMinutes 60 else waitQueueTTL in
  MkconcurrencyCache (int_mul slotTTLMinutes 60) waitQueueTTL.

Record slotIndexSpec := MkslotIndexSpec {
  indexKey : string;
  slotKey : Z -> string;
  waitKey : Z -> string;
}.
Definition accountSlotIndex := MkslotIndexSpec accountActiveIndexKey accountSlotKey accountWaitKey.
Definition userSlotIndex := MkslotIndexSpec userActiveIndexKey userSlotKey waitQueueKey.
Definition apiKeySlotIndex := MkslotIndexSpec apiKeyActiveIndexKey apiKeySlotKey apiKeyWaitQueueKey.

Section Scripts.
Context {R : Type} `{RedisServer R}.
Local Abbreviation Script := (Script R).

(** ** Lua scripts *)

(** The Redis second, and the removal of what is older than [ttl]. *)
Definition script_now : Script Z := let$ t := call TIME in s_ret (reply_seconds t).
Definition evict (key : string) (before : Z) : Script reply := call (ZREMRANGEBYSCORE key before).
Definition zcard (key : string) : Script Z := let$ n := call (ZCARD key) in s_ret (reply_int n).
(** [redis.call('ZSCORE', key, member) ~= false] *)
Definition has_member (key member : string) : Script bool :=
  let$ a := call (ZSCORE key member) in
  s_ret (match a with RInt _ => true | _ => false end).
(** Store the member with the current second and renew the key. *)
Definition touch_member (key : string) (now : Z) (member : string) (ttl : Z) : Script reply :=
  call (ZADD key now member) ;$ call (EXPIRE key ttl).

Definition acquireScript (key liveKey : string) (maxConcurrency ttl : Z) (requestID : string) :
    Script (Z * Z) :=
  let$ now := script_now in
  evict key (now - ttl) ;$
  evict liveKey (now - 60) ;$
  let$ exists_ := has_member key requestID in
  if exists_ then touch_member key now requestID ttl ;$ s_ret (1, now)
  else
    let$ regular := zcard key in
    let$ live := zcard liveKey in
    if regular + live <? maxConcurrency
    then touch_member key now requestID ttl ;$ s_ret (1, now)
    else s_ret (0, now).

Definition getCountScript (key liveKey : string) (ttl : Z) : Script Z :=
  let$ now := script_now in
  evict key (now - ttl) ;$
  evict liveKey (now - 60) ;$
  let$ regular := zcard key in
  let$ live := zcard liveKey in
  s_ret (regular + live).

Definition acquireLiveLeaseScript (accountRegular accountLive userRegular userLive
    apiRegular apiLive : string) (accountMax userMax apiMax ttl : Z) (leaseID : string)
    (replacing : Z) : Script Z :=
  let$ now := script_now in
  evict accountLive (now - ttl) ;$
  evict userLive (now - ttl) ;$
  evict apiLive (now - ttl) ;$
  let$ mine := has_member accountLive leaseID in
  if mine then s_ret 1
  else
    let$ ar := zcard accountRegular in
    let$ al := zcard accountLive in
    let$ ur := zcard userRegular in
    let$ ul := zcard userLive in
    let$ pr := zcard apiRegular in
    let$ pl := zcard apiLive in
    let allowance := if replacing =? 1 then 1 else 0 in
    let full max count := (0 <? max) && (max + allowance <=? count) in
    if full accountMax (ar + al) then s_ret 0
    else if full userMax (ur + ul) then s_ret 0
    else if full apiMax (pr + pl) then s_ret 0
    else
      call (ZADD accountLive now leaseID) ;$
      call (ZADD userLive now leaseID) ;$
      call (ZADD apiLive now leaseID) ;$
      call (EXPIRE accountLive ttl) ;$
      call (EXPIRE userLive ttl) ;$
      call (EXPIRE apiLive ttl) ;$
      s_ret 1.

(** The first loop: every key must still hold the lease. *)
Fixpoint all_hold (keys : list string) (before : Z) (leaseID : string) : Script bool :=
  match keys with
  | [] => s_ret true
  | key :: keys =>
      evict key before ;$
      let$ held := has_member key leaseID in
      if held then all_hold keys before leaseID else s_ret false
  end.
Fixpoint renew_all (keys : list string) (now : Z) (leaseID : string) (ttl : Z) : Script () :=
  match keys with
  | [] => s_ret tt
  | key :: keys => touch_member key now leaseID ttl ;$ renew_all keys now leaseID ttl
  end.
Definition refreshLiveLeaseScript (keys : list string) (ttl : Z) (leaseID : string) : Script Z :=
  let$ now := script_now in
  let$ held := all_hold keys (now - ttl) leaseID in
  if held then renew_all keys now leaseID ttl ;$ s_ret 1 else s_ret 0.

Definition trackSlotScript (key : string) (ttl : Z) (requestID : string) : Script (Z * Z) :=
  let$ now := script_now in
  evict key (now - ttl) ;$
  touch_member key now requestID ttl ;$
  s_ret (1, now).

Definition refreshSlotScript (key : string) (ttl : Z) (requestID : string) : Script (Z * Z) :=
  let$ now := script_now in
  evict key (now - ttl) ;$
  let$ held := has_member key requestID in
  if held then touch_member key now requestID ttl ;$ s_ret (1, now) else s_ret (0, now).

Definition acquireOpenAIWSIngressLeaseScript (key : string) (maxConnections ttl : Z)
    (leaseID : string) : Script Z :=
  let$ now := script_now in
  evict key (now - ttl) ;$
  let$ held := has_member key leaseID in
  if held then touch_member key now leaseID ttl ;$ s_ret 1
  else
    let$ n := zcard key in
    if n <? maxConnections then touch_member key now leaseID ttl ;$ s_ret 1 else s_ret 0.

Definition refreshOpenAIWSIngressLeaseScript (key : string) (ttl : Z) (leaseID : string) :
    Script Z :=
  let$ now := script_now in
  evict key (now - ttl) ;$
  let$ held := has_member key leaseID in
  if held then touch_member key now leaseID ttl ;$ s_ret 1 else s_ret 0.

(** [tonumber(redis.call('GET', key) or '0')] *)
Definition get_or_zero (key : string) : Script Z :=
  let$ a := call (GET key) in s_ret (match a with RInt v => v | _ => 0 end).
Definition script_now_ms : Script Z := let$ t := call TIME in s_ret (reply_millis t).
(** A failing command raises the error out of the script: [None]. *)
Definition checked {A} (a : A) (m : Script reply) : Script (option A) :=
  let$ r := m in s_ret (match r with RErr => None | _ => Some a end).

Definition reserveOpenAIOAuthAdmissionScript (key : string)
    (intervalMs notBeforeMs maxWaitMs stateTTL : Z) : Script (option (Z * Z)) :=
  let$ now := script_now_ms in
  let$ current := get_or_zero key in
  let scheduled := now in
  let scheduled := if scheduled <? current then current else scheduled in
  let scheduled := if scheduled <? notBeforeMs then notBeforeMs else scheduled in
  if now + maxWaitMs <? scheduled then s_ret (Some (0, scheduled))
  else checked (1, scheduled)
         (call (SETPX key (scheduled + intervalMs) (Z.max stateTTL (scheduled - now + stateTTL)))).

Definition deferOpenAIOAuthAdmissionScript (key : string) (untilMs stateTTL : Z) :
    Script (option Z) :=
  let$ current := get_or_zero key in
  if current <? untilMs then checked 1 (call (SETPX key untilMs stateTTL))
  else if 0 <? current then checked 1 (call (PEXPIRE key stateTTL))
  else s_ret (Some 1).

Definition cancelOpenAIOAuthAdmissionScript (key : string)
    (scheduledMs intervalMs stateTTL : Z) : Script (option Z) :=
  let expected := scheduledMs + intervalMs in
  let$ current := get_or_zero key in
  if negb (current =? expected) then s_ret (Some 0)
  else
    let$ now := script_now_ms in
    if scheduledMs <=? now then checked 1 (call (DEL key))
    else checked 1 (call (SETPX key scheduledMs stateTTL)).

Definition incrementWaitScript (key : string) (maxWait ttl : Z) : Script (Z * Z) :=
  let$ current := get_or_zero key in
  let$ now := script_now in
  if maxWait <=? current then s_ret (0, now)
  else call (INCR key) ;$ call (EXPIRE key ttl) ;$ s_ret (1, now).

Definition incrementAccountWaitScript : string -> Z -> Z -> Script (Z * Z) :=
  incrementWaitScript.

Definition decrementWaitScript (key : string) : Script Z :=
  let$ current := call (GET key) in
  match current with
  | RInt v => if 0 <? v then call (DECR key) ;$ s_ret 1 else s_ret 1
  | _ => s_ret 1
  end.

Definition cleanupExpiredSlotsScript (key : string) (ttl : Z) : Script Z :=
  let$ now := script_now in
  evict key (now - ttl) ;$
  let$ n := zcard key in
  (if n =? 0 then call (DEL key) else call (EXPIRE key ttl)) ;$
  s_ret 1.

(** Remove the members that do not carry the prefix; how many went. *)
Fixpoint remove_foreign (key activePrefix : string) (members : list string) : Script Z :=
  match members with
  | [] => s_ret 0
  | member :: members =>
      if HasPrefix member activePrefix then remove_foreign key activePrefix members
      else
        let$ n := call (ZREM key member) in
        let$ rest := remove_foreign key activePrefix members in
        s_ret (reply_int n + rest)
  end.
Definition startupCleanupSlotScript (key activePrefix : string) (slotTTL : Z) :
    Script (Z * Z) :=
  let$ members := call (ZRANGE key) in
  let$ removed := remove_foreign key activePrefix (reply_list members) in
  let$ remaining := zcard key in
  (if remaining =? 0 then call (DEL key) else call (EXPIRE key slotTTL)) ;$
  s_ret (removed, remaining).
End Scripts.

(** ** The active index *)

Record activeIndexLoad := MkactiveIndexLoad {
  ail_id : Z;
  ail_member : string;
  ail_slotCount : Z;
  ail_waitCount : Z;
}.

(** [service.AccountLoadInfo] and [service.UserLoadInfo] *)
Record LoadInfo := MkLoadInfo {
  li_ID : Z;
  li_CurrentConcurrency : Z;
  li_WaitingCount : Z;
  li_LoadRate : Z;
}.

(** [activeIndexTTL]: the longer of the TTLs that still matter. *)
Definition activeIndexTTL (c : concurrencyCache) (slotCount waitCount : Z) : Z :=
  let ttl := if 0 <? slotCount then slotTTLSeconds c else 0 in
  if (0 <? waitCount) && (ttl <? waitQueueTTLSeconds c) then waitQueueTTLSeconds c else ttl.

Section Cache.
Context {R : Type} `{RedisServer R}.
Context (c : concurrencyCache).
Local Abbreviation Go := (Go R).
Local Abbreviation Script := (Script R).

(** [c.rdb.Time(ctx)], in seconds *)
Definition redisUnixSeconds : Go Z := run_script script_now.

Definition touchActiveIndexAt (key : string) (id expireAt : Z) : Go () :=
  if (id <=? 0) || (expireAt <=? 0) then g_ret tt
  else g_ignore (run_script (call (ZADD key expireAt (FormatInt id)))).

(** Slot count (after dropping expired members) and wait count of one id. *)
Definition load_script (slot wait : string) (id : Z) (member : string) (now : Z) :
    Script activeIndexLoad :=
  evict slot (now - slotTTLSeconds c) ;$
  let$ n := zcard slot in
  let$ w := get_or_zero wait in
  s_ret (MkactiveIndexLoad id member n (if 0 <? w then w else 0)).

Definition readActiveLoadForKey (id : Z) (slot wait : string) (now : Z) : Go activeIndexLoad :=
  run_script (load_script slot wait id (FormatInt id) now).

Definition refreshActiveIndex (key : string) (id : Z) (slot wait : string) : Go () :=
  if id <=? 0 then g_ret tt
  else
    let? now := g_try redisUnixSeconds in
    match now with
    | None => g_ret tt
    | Some now =>
        let? load := g_try (readActiveLoadForKey id slot wait now) in
        match load with
        | None => g_ret tt
        | Some load =>
            if (ail_slotCount load =? 0) && (ail_waitCount load <=? 0)
            then g_ignore (run_script (call (ZREM key (FormatInt id))))
            else
              let ttl := activeIndexTTL c (ail_slotCount load) (ail_waitCount load) in
              if ttl <=? 0 then g_ret tt else touchActiveIndexAt key id (now + ttl)
        end
    end.

Definition refreshAccountActiveIndex (accountID : Z) : Go () :=
  refreshActiveIndex accountActiveIndexKey accountID (accountSlotKey accountID)
    (accountWaitKey accountID).
Definition refreshUserActiveIndex (userID : Z) : Go () :=
  refreshActiveIndex userActiveIndexKey userID (userSlotKey userID) (waitQueueKey userID).
Definition refreshAPIKeyActiveIndex (apiKeyID : Z) : Go () :=
  refreshActiveIndex apiKeyActiveIndexKey apiKeyID (apiKeySlotKey apiKeyID)
    (apiKeyWaitQueueKey apiKeyID).

(** Index members that are not ids are stale; the others are candidates. *)
Definition split_members (members : list string) : list (Z * string) * list string :=
  foldr (fun m '(cands, stale) =>
    match ParseInt m with
    | Some id => if id <=? 0 then (cands, m :: stale) else ((id, m) :: cands, stale)
    | None => (cands, m :: stale)
    end) ([], []) members.

Fixpoint loads_script (spec : slotIndexSpec) (cands : list (Z * string)) (now : Z) :
    Script (list activeIndexLoad) :=
  match cands with
  | [] => s_ret []
  | (id, m) :: cands =>
      let$ l := load_script (slotKey spec id) (waitKey spec id) id m now in
      let$ ls := loads_script spec cands now in
      s_ret (l :: ls)
  end.

(** The pipeline goes out in chunks of [activeIndexPipelineChunkSize]. *)
Definition activeIndexPipelineChunkSize : nat := Z.to_nat 500.
Fixpoint load_chunks (fuel : nat) (spec : slotIndexSpec) (cands : list (Z * string)) (now : Z) :
    Go (list activeIndexLoad) :=
  match fuel, cands with
  | O, _ | _, [] => g_ret []
  | S fuel, _ =>
      let? ls := run_script (loads_script spec (take activeIndexPipelineChunkSize cands) now) in
      let? rest := load_chunks fuel spec (drop activeIndexPipelineChunkSize cands) now in
      g_ret (ls ++ rest)
  end.

Definition readIndexLoads (spec : slotIndexSpec) (members : list string) (now : Z) :
    Go (list activeIndexLoad * list string) :=
  let '(cands, stale) := split_members members in
  let? loads := load_chunks (length cands) spec cands now in
  g_ret (loads, stale).

(** [ZREM key member ...] and [ZADD key score member ...] *)
Fixpoint zrem_all (key : string) (members : list string) : Script () :=
  match members with
  | [] => s_ret tt
  | m :: ms => call (ZREM key m) ;$ zrem_all key ms
  end.
Fixpoint zadd_all (key : string) (zs : list (Z * string)) : Script () :=
  match zs with
  | [] => s_ret tt
  | (sc, m) :: zs => call (ZADD key sc m) ;$ zadd_all key zs
  end.
Definition removeActiveIndexMembers (key : string) (members : list string) : Go () :=
  match members with
  | [] => g_ret tt
  | _ => g_ignore (run_script (zrem_all key members))
  end.
Definition refresh_members (key : string) (zs : list (Z * string)) : Go () :=
  match zs with
  | [] => g_ret tt
  | _ => g_ignore (run_script (zadd_all key zs))
  end.

(** ** Slots *)

(** Acquire through [acquireScript] and mark the id as active. *)
Definition acquire_slot (slot live index : string) (id maxConcurrency : Z) (requestID : string) :
    Go bool :=
  let? p := run_script (acquireScript slot live maxConcurrency (slotTTLSeconds c) requestID) in
  (if p.1 =? 1 then touchActiveIndexAt index id (p.2 + slotTTLSeconds c) else g_ret tt) ;?
  g_ret (p.1 =? 1).
Definition release_slot (slot : string) (refresh : Go ()) (requestID : string) : Go () :=
  run_script (call (ZREM slot requestID)) ;? refresh.
Definition refreshRegularSlot (slot requestID : string) : Go (bool * Z) :=
  let? p := run_script (refreshSlotScript slot (slotTTLSeconds c) requestID) in
  g_ret (p.1 =? 1, p.2).
Definition refresh_slot (slot index : string) (id : Z) (requestID : string) : Go bool :=
  let? p := refreshRegularSlot slot requestID in
  (if p.1 then touchActiveIndexAt index id (p.2 + slotTTLSeconds c) else g_ret tt) ;?
  g_ret p.1.

Definition AcquireAccountSlot (accountID maxConcurrency : Z) (requestID : string) : Go bool :=
  acquire_slot (accountSlotKey accountID) (liveAccountSlotKey accountID) accountActiveIndexKey
    accountID maxConcurrency requestID.
Definition ReleaseAccountSlot (accountID : Z) (requestID : string) : Go () :=
  release_slot (accountSlotKey accountID) (refreshAccountActiveIndex accountID) requestID.
Definition RefreshAccountSlot (accountID : Z) (requestID : string) : Go bool :=
  refresh_slot (accountSlotKey accountID) accountActiveIndexKey accountID requestID.
Definition GetAccountConcurrency (accountID : Z) : Go Z :=
  run_script (getCountScript (accountSlotKey accountID) (liveAccountSlotKey accountID)
    (slotTTLSeconds c)).

Definition AcquireUserSlot (userID maxConcurrency : Z) (requestID : string) : Go bool :=
  acquire_slot (userSlotKey userID) (liveUserSlotKey userID) userActiveIndexKey
    userID maxConcurrency requestID.
Definition ReleaseUserSlot (userID : Z) (requestID : string) : Go () :=
  release_slot (userSlotKey userID) (refreshUserActiveIndex userID) requestID.
Definition RefreshUserSlot (userID : Z) (requestID : string) : Go bool :=
  refresh_slot (userSlotKey userID) userActiveIndexKey userID requestID.
Definition GetUserConcurrency (userID : Z) : Go Z :=
  run_script (getCountScript (userSlotKey userID) (liveUserSlotKey userID) (slotTTLSeconds c)).

Definition TrackAPIKeySlot (apiKeyID : Z) (requestID : string) : Go () :=
  let? p := run_script (trackSlotScript (apiKeySlotKey apiKeyID) (slotTTLSeconds c) requestID) in
  touchActiveIndexAt apiKeyActiveIndexKey apiKeyID (p.2 + slotTTLSeconds c).
Definition AcquireAPIKeySlot (apiKeyID maxConcurrency : Z) (requestID : string) : Go bool :=
  acquire_slot (apiKeySlotKey apiKeyID) (liveAPIKeySlotKey apiKeyID) apiKeyActiveIndexKey
    apiKeyID maxConcurrency requestID.
Definition ReleaseAPIKeySlot (apiKeyID : Z) (requestID : string) : Go () :=
  release_slot (apiKeySlotKey apiKeyID) (refreshAPIKeyActiveIndex apiKeyID) requestID.
Definition RefreshAPIKeySlot (apiKeyID : Z) (requestID : string) : Go bool :=
  refresh_slot (apiKeySlotKey apiKeyID) apiKeyActiveIndexKey apiKeyID requestID.

(** Regular plus live members of one id, after dropping the expired ones. *)
Definition count_script (slot live : string) (now : Z) : Script Z :=
  evict slot (now - slotTTLSeconds c) ;$
  evict live (now - liveLeaseTTLSeconds) ;$
  let$ a := zcard slot in
  let$ b := zcard live in
  s_ret (a + b).
Fixpoint count_all (slot live : Z -> string) (ids : list Z) (now : Z) (acc : gmap Z Z) :
    Script (gmap Z Z) :=
  match ids with
  | [] => s_ret acc
  | id :: ids =>
      let$ n := count_script (slot id) (live id) now in
      count_all slot live ids now (<[id := n]> acc)
  end.
Definition concurrency_batch (slot live : Z -> string) (ids : list Z) : Go (gmap Z Z) :=
  match ids with
  | [] => g_ret ∅
  | _ =>
      let? now := redisUnixSeconds in
      run_script (count_all slot live ids now ∅)
  end.
Definition GetAccountConcurrencyBatch : list Z -> Go (gmap Z Z) :=
  concurrency_batch accountSlotKey liveAccountSlotKey.
Definition GetAPIKeyConcurrencyBatch : list Z -> Go (gmap Z Z) :=
  concurrency_batch apiKeySlotKey liveAPIKeySlotKey.

(** ** OAuth admission *)

Definition state_ttl (stateTTL : Z) : Z := if stateTTL <=? 0 then Minute else stateTTL.
(** An error the script raised is an error of the call. *)
Definition g_checked {A} (m : Go (option A)) : Go A :=
  let? o := m in match o with Some a => g_ret a | None => g_err end.

Definition ReserveOpenAIOAuthAdmission (accountID interval notBefore maxWait stateTTL : Z) :
    Go (Z * bool) :=
  if (accountID <=? 0) || (interval <=? 0) || (maxWait <? 0) then g_ret (zero_time, false)
  else
    let? p := g_checked (run_script (reserveOpenAIOAuthAdmissionScript
      (openAIOAuthAdmissionKey accountID) (Milliseconds interval) (UnixMilli notBefore)
      (Milliseconds maxWait) (Milliseconds (state_ttl stateTTL)))) in
    g_ret (p.2 * Millisecond, p.1 =? 1).

Definition DeferOpenAIOAuthAdmission (accountID until stateTTL : Z) : Go () :=
  if (accountID <=? 0) || IsZero until then g_ret tt
  else
    g_checked (run_script (deferOpenAIOAuthAdmissionScript
      (openAIOAuthAdmissionKey accountID) (UnixMilli until) (Milliseconds (state_ttl stateTTL)))) ;?
    g_ret tt.

Definition CancelOpenAIOAuthAdmission (accountID scheduledAt interval stateTTL : Z) : Go () :=
  if (accountID <=? 0) || IsZero scheduledAt || (interval <=? 0) then g_ret tt
  else
    g_checked (run_script (cancelOpenAIOAuthAdmissionScript
      (openAIOAuthAdmissionKey accountID) (UnixMilli scheduledAt) (Milliseconds interval)
      (Milliseconds (state_ttl stateTTL)))) ;?
    g_ret tt.

(** ** Leases *)

Definition AcquireOpenAIWSIngressLease (apiKeyID maxConnections : Z) (leaseID : string) :
    Go bool :=
  if (apiKeyID <=? 0) || (maxConnections <=? 0) || (leaseID =?s "") then g_ret false
  else
    let? n := run_script (acquireOpenAIWSIngressLeaseScript (openAIWSIngressLeaseKey apiKeyID)
      maxConnections openAIWSIngressLeaseTTLSeconds leaseID) in
    g_ret (n =? 1).
Definition RefreshOpenAIWSIngressLease (apiKeyID : Z) (leaseID : string) : Go bool :=
  if (apiKeyID <=? 0) || (leaseID =?s "") then g_ret false
  else
    let? n := run_script (refreshOpenAIWSIngressLeaseScript (openAIWSIngressLeaseKey apiKeyID)
      openAIWSIngressLeaseTTLSeconds leaseID) in
    g_ret (n =? 1).
Definition ReleaseOpenAIWSIngressLease (apiKeyID : Z) (leaseID : string) : Go () :=
  if (apiKeyID <=? 0) || (leaseID =?s "") then g_ret tt
  else run_script (call (ZREM (openAIWSIngressLeaseKey apiKeyID) leaseID)) ;? g_ret tt.

Definition AcquireLiveLease (accountID accountMax userID userMax apiKeyID apiKeyMax : Z)
    (leaseID : string) (replacingRegularSlots : bool) : Go bool :=
  if (accountID <=? 0) || (userID <=? 0) || (apiKeyID <=? 0) || (leaseID =?s "") then g_ret false
  else
    let? n := run_script (acquireLiveLeaseScript
      (accountSlotKey accountID) (liveAccountSlotKey accountID)
      (userSlotKey userID) (liveUserSlotKey userID)
      (apiKeySlotKey apiKeyID) (liveAPIKeySlotKey apiKeyID)
      accountMax userMax apiKeyMax liveLeaseTTLSeconds leaseID
      (if replacingRegularSlots then 1 else 0)) in
    g_ret (n =? 1).
Definition live_keys (accountID userID apiKeyID : Z) : list string :=
  [liveAccountSlotKey accountID; liveUserSlotKey userID; liveAPIKeySlotKey apiKeyID].
Definition RefreshLiveLease (accountID userID apiKeyID : Z) (leaseID : string) : Go bool :=
  if leaseID =?s "" then g_ret false
  else
    let? n := run_script (refreshLiveLeaseScript (live_keys accountID userID apiKeyID)
      liveLeaseTTLSeconds leaseID) in
    g_ret (n =? 1).
Definition ReleaseLiveLease (accountID userID apiKeyID : Z) (leaseID : string) : Go () :=
  if leaseID =?s "" then g_ret tt
  else run_script (call (ZREM (liveAccountSlotKey accountID) leaseID) ;$
                   call (ZREM (liveUserSlotKey userID) leaseID) ;$
                   call (ZREM (liveAPIKeySlotKey apiKeyID) leaseID)) ;? g_ret tt.

(** ** Wait queues *)

Definition increment_wait (script : Script (Z * Z)) (index : string) (id : Z) : Go bool :=
  let? p := run_script script in
  (if p.1 =? 1 then touchActiveIndexAt index id (p.2 + waitQueueTTLSeconds c) else g_ret tt) ;?
  g_ret (p.1 =? 1).
Definition decrement_wait (key : string) (refresh : Go ()) : Go () :=
  run_script (decrementWaitScript key) ;? refresh.

Definition IncrementWaitCount (userID maxWait : Z) : Go bool :=
  increment_wait (incrementWaitScript (waitQueueKey userID) maxWait (waitQueueTTLSeconds c))
    userActiveIndexKey userID.
Definition DecrementWaitCount (userID : Z) : Go () :=
  decrement_wait (waitQueueKey userID) (refreshUserActiveIndex userID).
Definition IncrementAPIKeyWaitCount (apiKeyID maxWait : Z) : Go bool :=
  increment_wait (incrementWaitScript (apiKeyWaitQueueKey apiKeyID) maxWait (waitQueueTTLSeconds c))
    apiKeyActiveIndexKey apiKeyID.
Definition DecrementAPIKeyWaitCount (apiKeyID : Z) : Go () :=
  decrement_wait (apiKeyWaitQueueKey apiKeyID) (refreshAPIKeyActiveIndex apiKeyID).
Definition IncrementAccountWaitCount (accountID maxWait : Z) : Go bool :=
  increment_wait (incrementAccountWaitScript (accountWaitKey accountID) maxWait
    (waitQueueTTLSeconds c)) accountActiveIndexKey accountID.
Definition DecrementAccountWaitCount (accountID : Z) : Go () :=
  decrement_wait (accountWaitKey accountID) (refreshAccountActiveIndex accountID).
Definition GetAccountWaitingCount (accountID : Z) : Go Z :=
  run_script (get_or_zero (accountWaitKey accountID)).

(** ** Load *)

Definition load_info (slot live wait : string) (id maxConcurrency now : Z) : Script LoadInfo :=
  let$ current := count_script slot live now in
  let$ waiting := get_or_zero wait in
  s_ret (MkLoadInfo id current waiting
    (if 0 <? maxConcurrency
     then Z.quot (int_mul (int_add current waiting) 100) maxConcurrency else 0)).
Fixpoint load_all (slot live wait : Z -> string) (ids : list (Z * Z)) (now : Z)
    (acc : gmap Z LoadInfo) : Script (gmap Z LoadInfo) :=
  match ids with
  | [] => s_ret acc
  | (id, maxConcurrency) :: ids =>
      let$ l := load_info (slot id) (live id) (wait id) id maxConcurrency now in
      load_all slot live wait ids now (<[id := l]> acc)
  end.
Definition load_batch (slot live wait : Z -> string) (ids : list (Z * Z)) :
    Go (gmap Z LoadInfo) :=
  match ids with
  | [] => g_ret ∅
  | _ =>
      let? now := redisUnixSeconds in
      run_script (load_all slot live wait ids now ∅)
  end.
Definition GetAccountsLoadBatch : list (Z * Z) -> Go (gmap Z LoadInfo) :=
  load_batch accountSlotKey liveAccountSlotKey accountWaitKey.
Definition GetUsersLoadBatch : list (Z * Z) -> Go (gmap Z LoadInfo) :=
  load_batch userSlotKey liveUserSlotKey waitQueueKey.

(** ** Cleanup *)

Definition CleanupExpiredAccountSlots (accountID : Z) : Go () :=
  run_script (cleanupExpiredSlotsScript (accountSlotKey accountID) (slotTTLSeconds c)) ;?
  refreshAccountActiveIndex accountID.

(** Loads that are gone are stale, the others are scored again. *)
Definition split_loads (now : Z) (loads : list activeIndexLoad) :
    list (Z * string) * list string :=
  foldr (fun l '(refreshed, stale) =>
    if (ail_slotCount l =? 0) && (ail_waitCount l <=? 0) then (refreshed, ail_member l :: stale)
    else ((now + activeIndexTTL c (ail_slotCount l) (ail_waitCount l), ail_member l) :: refreshed,
          stale)) ([], []) loads.

Definition reconcileExpiredIndexCandidates (spec : slotIndexSpec) : Go () :=
  let? now := redisUnixSeconds in
  let? members := run_script
    (call (ZRANGEBYSCORE (indexKey spec) now activeIndexCleanupBatchSize)) in
  let? p := readIndexLoads spec (reply_list members) now in
  let '(refreshed, gone) := split_loads now p.1 in
  refresh_members (indexKey spec) refreshed ;?
  removeActiveIndexMembers (indexKey spec) (p.2 ++ gone).

Definition CleanupExpiredAccountSlotKeys : Go () :=
  reconcileExpiredIndexCandidates accountSlotIndex ;?
  reconcileExpiredIndexCandidates userSlotIndex ;?
  reconcileExpiredIndexCandidates apiKeySlotIndex.

(** [DEL key ...] of everything a full SCAN of the pattern returns. *)
Fixpoint del_all (keys : list string) : Script () :=
  match keys with
  | [] => s_ret tt
  | k :: ks => call (DEL k) ;$ del_all ks
  end.
Definition sweep_prefix (prefix : string) : Go () :=
  let? keys := run_script (call (KEYS prefix)) in
  match reply_list keys with
  | [] => g_ret tt
  | keys => run_script (del_all keys)
  end.
Definition sweepLegacyWaitKeysOnce : Go () :=
  let? exists_ := run_script (call (EXISTS legacyWaitSweepMarkerKey)) in
  if 0 <? reply_int exists_ then g_ret tt
  else
    sweep_prefix accountWaitKeyPrefix ;?
    sweep_prefix waitQueueKeyPrefix ;?
    run_script (call (SET legacyWaitSweepMarkerKey 1)) ;?
    g_ret tt.

Definition allIndexMembers (key : string) : Go (list string) :=
  let? a := run_script (call (ZRANGE key)) in g_ret (reply_list a).

(** The loop over the members: what to refresh and what to drop. *)
Fixpoint cleanup_members (spec : slotIndexSpec) (members : list string) (prefix : string)
    (now : Z) : Go (list (Z * string) * list string) :=
  match members with
  | [] => g_ret ([], [])
  | m :: members =>
      match ParseInt m with
      | Some id =>
          if id <=? 0 then
            let? p := cleanup_members spec members prefix now in g_ret (p.1, m :: p.2)
          else
            let? q := run_script (startupCleanupSlotScript (slotKey spec id) prefix
                                    (slotTTLSeconds c)) in
            run_script (call (DEL (waitKey spec id))) ;?
            let? p := cleanup_members spec members prefix now in
            g_ret (if 0 <? q.2 then ((now + slotTTLSeconds c, m) :: p.1, p.2)
                   else (p.1, m :: p.2))
      | None => let? p := cleanup_members spec members prefix now in g_ret (p.1, m :: p.2)
      end
  end.
Definition cleanupStaleProcessSlotsForIndex (spec : slotIndexSpec) (members : list string)
    (prefix : string) (now : Z) : Go () :=
  let? p := cleanup_members spec members prefix now in
  refresh_members (indexKey spec) p.1 ;?
  removeActiveIndexMembers (indexKey spec) p.2.

Definition cleanup_index (spec : slotIndexSpec) (prefix : string) (now : Z) : Go () :=
  let? members := allIndexMembers (indexKey spec) in
  cleanupStaleProcessSlotsForIndex spec members prefix now.
Definition CleanupStaleProcessSlots (activeRequestPrefix : string) : Go () :=
  if activeRequestPrefix =?s "" then g_ret tt
  else
    sweepLegacyWaitKeysOnce ;?
    let? now := redisUnixSeconds in
    cleanup_index accountSlotIndex activeRequestPrefix now ;?
    cleanup_index userSlotIndex activeRequestPrefix now ;?
    cleanup_index apiKeySlotIndex activeRequestPrefix now.
End Cache.

(** ** The cache's clients

    One constructor per method of the service's cache interfaces. *)

Inductive kind := KAccount | KUser | KAPIKey.
#[export] Instance kind_eq_dec : EqDecision kind.
Proof. solve_decision. Defined.

Inductive op :=
  | OAcquireSlot (k : kind) (id maxConcurrency : Z) (requestID : string)
  | OReleaseSlot (k : kind) (id : Z) (requestID : string)
  | ORefreshSlot (k : kind) (id : Z) (requestID : string)
  | OTrackAPIKeySlot (apiKeyID : Z) (requestID : string)
  | OGetAccountConcurrency (accountID : Z)
  | OGetUserConcurrency (userID : Z)
  | OGetAccountConcurrencyBatch (ids : list Z)
  | OGetAPIKeyConcurrencyBatch (ids : list Z)
  | OReserveOpenAIOAuthAdmission (accountID interval notBefore maxWait stateTTL : Z)
  | ODeferOpenAIOAuthAdmission (accountID until stateTTL : Z)
  | OCancelOpenAIOAuthAdmission (accountID scheduledAt interval stateTTL : Z)
  | OAcquireOpenAIWSIngressLease (apiKeyID maxConnections : Z) (leaseID : string)
  | ORefreshOpenAIWSIngressLease (apiKeyID : Z) (leaseID : string)
  | OReleaseOpenAIWSIngressLease (apiKeyID : Z) (leaseID : string)
  | OAcquireLiveLease (accountID accountMax userID userMax apiKeyID apiKeyMax : Z)
      (leaseID : string) (replacingRegularSlots : bool)
  | ORefreshLiveLease (accountID userID apiKeyID : Z) (leaseID : string)
  | OReleaseLiveLease (accountID userID apiKeyID : Z) (leaseID : string)
  | OIncrementWait (k : kind) (id maxWait : Z)
  | ODecrementWait (k : kind) (id : Z)
  | OGetAccountWaitingCount (accountID : Z)
  | OGetAccountsLoadBatch (accounts : list (Z * Z))
  | OGetUsersLoadBatch (users : list (Z * Z))
  | OCleanupExpiredAccountSlots (accountID : Z)
  | OCleanupExpiredAccountSlotKeys
  | OCleanupStaleProcessSlots (activeRequestPrefix : string).

Section Clients.
Context {R : Type} `{RedisServer R} (c : concurrencyCache).

(** A client in the middle of a method; its result type does not matter to the
    server. *)
Inductive client :=
  | Client {A : Type} (p : Go R A).

Definition method (o : op) : client :=
  match o with
  | OAcquireSlot KAccount id max req => Client (AcquireAccountSlot c id max req)
  | OAcquireSlot KUser id max req => Client (AcquireUserSlot c id max req)
  | OAcquireSlot KAPIKey id max req => Client (AcquireAPIKeySlot c id max req)
  | OReleaseSlot KAccount id req => Client (ReleaseAccountSlot c id req)
  | OReleaseSlot KUser id req => Client (ReleaseUserSlot c id req)
  | OReleaseSlot KAPIKey id req => Client (ReleaseAPIKeySlot c id req)
  | ORefreshSlot KAccount id req => Client (RefreshAccountSlot c id req)
  | ORefreshSlot KUser id req => Client (RefreshUserSlot c id req)
  | ORefreshSlot KAPIKey id req => Client (RefreshAPIKeySlot c id req)
  | OTrackAPIKeySlot id req => Client (TrackAPIKeySlot c id req)
  | OGetAccountConcurrency id => Client (GetAccountConcurrency c id)
  | OGetUserConcurrency id => Client (GetUserConcurrency c id)
  | OGetAccountConcurrencyBatch ids => Client (GetAccountConcurrencyBatch c ids)
  | OGetAPIKeyConcurrencyBatch ids => Client (GetAPIKeyConcurrencyBatch c ids)
  | OReserveOpenAIOAuthAdmission id i n w t => Client (ReserveOpenAIOAuthAdmission id i n w t)
  | ODeferOpenAIOAuthAdmission id u t => Client (DeferOpenAIOAuthAdmission id u t)
  | OCancelOpenAIOAuthAdmission id s i t => Client (CancelOpenAIOAuthAdmission id s i t)
  | OAcquireOpenAIWSIngressLease id max l => Client (AcquireOpenAIWSIngressLease id max l)
  | ORefreshOpenAIWSIngressLease id l => Client (RefreshOpenAIWSIngressLease id l)
  | OReleaseOpenAIWSIngressLease id l => Client (ReleaseOpenAIWSIngressLease id l)
  | OAcquireLiveLease a am u um p pm l rep => Client (AcquireLiveLease a am u um p pm l rep)
  | ORefreshLiveLease a u p l => Client (RefreshLiveLease a u p l)
  | OReleaseLiveLease a u p l => Client (ReleaseLiveLease a u p l)
  | OIncrementWait KAccount id max => Client (IncrementAccountWaitCount c id max)
  | OIncrementWait KUser id max => Client (IncrementWaitCount c id max)
  | OIncrementWait KAPIKey id max => Client (IncrementAPIKeyWaitCount c id max)
  | ODecrementWait KAccount id => Client (DecrementAccountWaitCount c id)
  | ODecrementWait KUser id => Client (DecrementWaitCount c id)
  | ODecrementWait KAPIKey id => Client (DecrementAPIKeyWaitCount c id)
  | OGetAccountWaitingCount id => Client (GetAccountWaitingCount id)
  | OGetAccountsLoadBatch ids => Client (GetAccountsLoadBatch c ids)
  | OGetUsersLoadBatch ids => Client (GetUsersLoadBatch c ids)
  | OCleanupExpiredAccountSlots id => Client (CleanupExpiredAccountSlots c id)
  | OCleanupExpiredAccountSlotKeys => Client (CleanupExpiredAccountSlotKeys c)
  | OCleanupStaleProcessSlots p => Client (CleanupStaleProcessSlots c p)
  end.

(** The server with any number of clients on it: a client starts a method that
    [ok] admits, makes its next round trip, or time passes.  A client that is
    never scheduled again has crashed. *)
Inductive sys_step (ok : op -> Prop) : R * list client -> R * list client -> Prop :=
  | sys_start r cs o : ok o -> sys_step ok (r, cs) (r, method o :: cs)
  | sys_trip r cs i A B (m : Script R B) (k : option B -> Go R A) out :
      cs !! i = Some (Client (RoundTrip m k)) ->
      sys_step ok (r, cs)
        ((round_trip out m r).1, <[i := Client (k (round_trip out m r).2)]> cs)
  | sys_time r r' t cs :
      clock (content r) <= t -> content r' = advance t (content r) ->
      sys_step ok (r, cs) (r', cs).
End Clients.
