(* ===== verification/ConcurrencyCacheProofs.v ===== *)
(** * Slots are leases, and their number is bounded

    The capacity invariant over every interleaving of the cache's operations, the
    abstract lease set the acquire and refresh scripts implement, live leases, and the
    startup cleanup. *)

From S2P Require Import Prelude Json Redis RedisProofs ConcurrencyCache.
Local Open Scope string_scope.
Local Open Scope Z_scope.
Local Open Scope list_scope.
Local Open Scope go_scope.

(** ** Keys never clash *)

(** Two keys with the same prefix are the same only for the same id; keys whose
    prefixes differ inside both never are. *)
Lemma key_inj p a b : p +:+ FormatInt a = p +:+ FormatInt b -> a = b.
Proof. intros E%str_app_inv_head. by apply FormatInt_inj. Qed.

(** Compare the literal prefixes of two keys. *)
Ltac keys_differ :=
  unfold accountSlotKey, userSlotKey, apiKeySlotKey, liveAccountSlotKey, liveUserSlotKey,
    liveAPIKeySlotKey, openAIWSIngressLeaseKey, openAIOAuthAdmissionKey, accountSlotKeyPrefix,
    userSlotKeyPrefix, apiKeySlotKeyPrefix, liveAccountSlotKeyPrefix, liveUserSlotKeyPrefix,
    liveAPIKeySlotKeyPrefix, openAIWSIngressLeaseKeyPrefix, openAIOAuthAdmissionKeyPrefix,
    accountActiveIndexKey, userActiveIndexKey, apiKeyActiveIndexKey;
  simpl; let E := fresh in intros E; injection E as E;
  try discriminate E; revert E; by apply FormatInt_not_word.

(** ** Accounts, users and API keys *)

Definition slot_of (k : kind) : Z -> string :=
  match k with KAccount => accountSlotKey | KUser => userSlotKey | KAPIKey => apiKeySlotKey end.
Definition live_of (k : kind) : Z -> string :=
  match k with
  | KAccount => liveAccountSlotKey | KUser => liveUserSlotKey | KAPIKey => liveAPIKeySlotKey
  end.

Lemma slot_of_inj k k' a b : slot_of k a = slot_of k' b -> k = k' /\ a = b.
Proof.
  destruct k, k'; simpl; try (by intros E; split; [|apply key_inj in E]); keys_differ.
Qed.
Lemma live_of_inj k k' a b : live_of k a = live_of k' b -> k = k' /\ a = b.
Proof.
  destruct k, k'; simpl; try (by intros E; split; [|apply key_inj in E]); keys_differ.
Qed.
Lemma slot_not_live k k' a b : slot_of k a <> live_of k' b.
Proof. destruct k, k'; simpl; keys_differ. Qed.

(** A key no slot or live set uses. *)
Definition foreign (key : string) : Prop :=
  forall k a, key <> slot_of k a /\ key <> live_of k a.
Lemma foreign_index key :
  key = accountActiveIndexKey \/ key = userActiveIndexKey \/ key = apiKeyActiveIndexKey ->
  foreign key.
Proof.
  intros Hk k a. destruct Hk as [-> | [-> | ->]], k; split; simpl; intros E;
    unfold accountActiveIndexKey, userActiveIndexKey, apiKeyActiveIndexKey,
      accountSlotKey, userSlotKey, apiKeySlotKey, liveAccountSlotKey, liveUserSlotKey,
      liveAPIKeySlotKey, accountSlotKeyPrefix, userSlotKeyPrefix, apiKeySlotKeyPrefix,
      liveAccountSlotKeyPrefix, liveUserSlotKeyPrefix, liveAPIKeySlotKeyPrefix in E;
    simpl in E; injection E as E; try discriminate E;
    symmetry in E; revert E; by apply FormatInt_not_word.
Qed.
Lemma foreign_ws a : foreign (openAIWSIngressLeaseKey a).
Proof. intros k b. destruct k; split; simpl; keys_differ. Qed.

(** ** The capacity of one id *)

(** Regular and live members together. *)
Definition Cap (M : Z) (slot live : string) (s : Store) : Prop :=
  Z.of_nat (size (zset slot s)) + Z.of_nat (size (zset live s)) <= M.

(** Commands that cannot add a member to either set. *)
Definition quiet (slot live : string) (c : command) : Prop :=
  match c with ZADD k _ _ => k <> slot /\ k <> live | _ => True end.

Lemma size_shrinks (z z' : gmap string Z) : z ⊆ z' -> Z.of_nat (size z) <= Z.of_nat (size z').
Proof. intros Hz. apply inj_le. rewrite <- !size_dom. by apply subseteq_size, subseteq_dom. Qed.

Lemma zset_shrinks k c s :
  (forall sc m, c <> ZADD k sc m) -> zset k (exec_store c s).1 ⊆ zset k s.
Proof. intros Hc. destruct (exec_zset k c s) as [?|(sc & m & -> & _)]; [done|by destruct (Hc sc m)]. Qed.

Section Cap.
Context {R : Type} `{RedisServer R} (c : concurrencyCache).
Context (M : Z) (slot live : string) (Hne : slot <> live).

Lemma keeps_quiet cmd : quiet slot live cmd -> keeps (R := R) (Cap M slot live) (call cmd).
Proof.
  intros Hq. apply keeps_call. intros s Hs. unfold Cap in *.
  assert (H1 := size_shrinks _ _ (zset_shrinks slot cmd s ltac:(intros ? ? ->; by destruct Hq))).
  assert (H2 := size_shrinks _ _ (zset_shrinks live cmd s ltac:(intros ? ? ->; by destruct Hq))).
  lia.
Qed.

(** Adding a member to one of the two sets: there is room, or it is there already. *)
Lemma triple_add key now m (Hkey : key = slot \/ key = live) :
  triple (R := R) (fun s => Cap M slot live s /\
      (Cap (M - 1) slot live s \/ is_Some (zset key s !! m)))
    (call (ZADD key now m)) (fun _ => Cap M slot live).
Proof.
  apply triple_call. intros s [Hc Hr]. unfold Cap in *. simpl.
  assert (Hs : Z.of_nat (size (<[m := now]> (zset key s))) <= Z.of_nat (size (zset key s)) + 1 /\
    (is_Some (zset key s !! m) -> size (<[m := now]> (zset key s)) = size (zset key s))).
  { rewrite map_size_insert. destruct (zset key s !! m) as [x|]; simpl; split; try lia; try done;
      intros [? [=]]. }
  destruct Hs as [Hs1 Hs2].
  destruct Hkey as [-> | ->]; rewrite zset_put_eq, zset_put_ne by congruence;
    (destruct Hr as [Hr|Hr]; [lia|specialize (Hs2 Hr); lia]).
Qed.

Lemma triple_has_member P key m :
  triple (R := R) P (has_member key m)
    (fun b s => P s /\ (b = true -> is_Some (zset key s !! m))).
Proof.
  intros r Hr. unfold has_member, s_bind, call, s_ret.
  destruct (exec_documented (ZSCORE key m) r) as [Hc Ha].
  destruct (exec (ZSCORE key m) r) as [r' a]; simpl in *. subst a. rewrite Hc.
  split; [done|]. destruct (zset key (content r) !! m); [by eexists|done].
Qed.
Lemma triple_zcard P key :
  triple (R := R) P (zcard key) (fun n s => P s /\ n = Z.of_nat (size (zset key s))).
Proof.
  intros r Hr. unfold zcard, s_bind, call, s_ret.
  destruct (exec_documented (ZCARD key) r) as [Hc Ha].
  destruct (exec (ZCARD key) r) as [r' a]; simpl in *. subst a. by rewrite Hc.
Qed.
Lemma keeps_now P : keeps (R := R) P script_now.
Proof.
  apply keeps_bind; [|intros; apply keeps_ret]. apply keeps_call. done.
Qed.
Lemma keeps_zcard P key : keeps (R := R) P (zcard key).
Proof. eapply triple_mono; [apply triple_zcard|done|by intros n s [? _]]. Qed.
Lemma keeps_has P key m : keeps (R := R) P (has_member key m).
Proof. eapply triple_mono; [apply triple_has_member|done|by intros n s [? _]]. Qed.
Lemma keeps_get_or_zero P key : keeps (R := R) P (get_or_zero key).
Proof. apply keeps_bind; [by apply keeps_call|intros; apply keeps_ret]. Qed.

Lemma triple_touch key now m ttl (Hkey : key = slot \/ key = live) :
  triple (R := R) (fun s => Cap M slot live s /\
      (Cap (M - 1) slot live s \/ is_Some (zset key s !! m)))
    (touch_member key now m ttl) (fun _ => Cap M slot live).
Proof.
  eapply triple_bind; [by apply triple_add|]. intros ?. by apply keeps_quiet.
Qed.

Lemma keeps_touch_other key now m ttl :
  key <> slot -> key <> live -> keeps (R := R) (Cap M slot live) (touch_member key now m ttl).
Proof. intros H1 H2. apply keeps_bind; [|intros _]; by apply keeps_quiet. Qed.

Lemma keeps_evict key t : keeps (R := R) (Cap M slot live) (evict key t).
Proof. by apply keeps_quiet. Qed.

(** *** The scripts that take a slot *)

Lemma keeps_acquire max ttl req :
  max <= M -> keeps (R := R) (Cap M slot live) (acquireScript slot live max ttl req).
Proof.
  intros Hmax. unfold acquireScript.
  apply keeps_bind; [apply keeps_now|intros now].
  do 2 (apply keeps_bind; [apply keeps_evict|intros _]).
  eapply triple_bind; [apply triple_has_member|]. intros [|]; simpl.
  - eapply triple_bind; [|intros ?; apply keeps_ret].
    eapply triple_mono; [apply triple_touch; by left| |done]. intros s [? Hm]. split; [done|].
    right. by apply Hm.
  - eapply triple_bind; [apply triple_zcard|intros n]; simpl.
    eapply triple_bind; [apply triple_zcard|intros l]; simpl.
    destruct (n + l <? max) eqn:E.
    + eapply triple_bind; [|intros ?; apply keeps_ret].
      eapply triple_mono; [apply triple_touch; by left| |done].
      intros s [[[? _] ->] ->]. split; [done|]. left. unfold Cap. bool_hyps. lia.
    + eapply triple_mono; [apply keeps_ret with (P := Cap M slot live)| |done].
      by intros s [[[? _] ->] ->].
Qed.

(** Refresh scripts only touch a member that is there. *)
Lemma keeps_refresh {A} key now ttl req (a b : A) :
  keeps (R := R) (Cap M slot live)
    (let$ held := has_member key req in
     if held then touch_member key now req ttl ;$ s_ret a else s_ret b).
Proof.
  eapply triple_bind; [apply triple_has_member|]. intros [|]; simpl.
  - eapply triple_bind; [|intros ?; apply keeps_ret].
    destruct (decide (key = slot \/ key = live)) as [Hk|Hk].
    + eapply triple_mono; [by apply triple_touch| |done]. intros s [? Hm]. split; [done|].
      right. by apply Hm.
    + eapply triple_mono; [apply keeps_touch_other; tauto| |done]. by intros s [? _].
  - eapply triple_mono; [apply keeps_ret with (P := Cap M slot live)| |done]. by intros s [? _].
Qed.
End Cap.

(** *** Live leases *)

Section Live.
Context {R : Type} `{RedisServer R}.
Context (M : Z) (slot live : string) (Hne : slot <> live).

(** There is room for one more where one of [keys] is the live set. *)
Definition Room (keys : list string) (s : Store) : Prop :=
  Cap M slot live s /\ (live ∈ keys -> Cap (M - 1) slot live s).

Lemma triple_add_live key keys now m :
  key <> slot -> key ∉ keys ->
  triple (R := R) (Room (key :: keys)) (call (ZADD key now m)) (fun _ => Room keys).
Proof.
  intros Hs Hk. destruct (decide (key = live)) as [->|Hl].
  - eapply triple_mono; [apply triple_add; [exact Hne|by right]| |].
    + intros s [Hc Hr]. split; [done|]. left. apply Hr. by left.
    + intros ? s Hc. by split; [|intros ?; destruct Hk].
  - intros r [Hc Hr]. split.
    + by apply (keeps_quiet M slot live (ZADD key now m)).
    + intros Hin. apply (keeps_quiet (M - 1) slot live (ZADD key now m)); [done|].
      apply Hr. by right.
Qed.

Lemma full_false max n k : (0 <? max) && (n <=? k) = false -> 0 < max -> k < n.
Proof. intros [E|E]%andb_false_iff ?; bool_hyps; lia. Qed.

Lemma keeps_acquire_live ar al ur ul pr pl amax umax pmax ttl lease replacing :
  NoDup [al; ul; pl] -> slot ∉ [al; ul; pl] ->
  (forall r l max, (r, l, max) ∈ [(ar, al, amax); (ur, ul, umax); (pr, pl, pmax)] -> l = live ->
     r = slot /\ 0 < max /\ max + (if replacing =? 1 then 1 else 0) <= M) ->
  keeps (R := R) (Cap M slot live)
    (acquireLiveLeaseScript ar al ur ul pr pl amax umax pmax ttl lease replacing).
Proof.
  intros Hd Hs Hroom. unfold acquireLiveLeaseScript.
  apply keeps_bind; [apply keeps_now|intros now].
  do 3 (apply keeps_bind; [apply keeps_evict|intros _]).
  apply keeps_bind; [apply keeps_has|intros [|]]; [apply keeps_ret|].
  do 6 (eapply triple_bind; [apply triple_zcard|intros ?]; simpl).
  set (allowance := if replacing =? 1 then 1 else 0) in *. clearbody allowance.
  assert (Hret : forall P' (z : Z), (forall s, P' s -> Cap M slot live s) ->
    triple P' (s_ret (R := R) z) (fun _ => Cap M slot live)).
  { intros P' z HP r Hr. by apply HP. }
  destruct (_ && _) eqn:E1; [apply Hret; by intros s [[[[[[? _] _] _] _] _] _]|].
  destruct (_ && _) eqn:E2 in |- *; [apply Hret; by intros s [[[[[[? _] _] _] _] _] _]|].
  destruct (_ && _) eqn:E3 in |- *; [apply Hret; by intros s [[[[[[? _] _] _] _] _] _]|].
  eapply triple_mono with (P := Room [al; ul; pl]).
  - apply NoDup_cons in Hd as [Ha Hd]. apply NoDup_cons in Hd as [Hu _].
    rewrite !not_elem_of_cons in Hs. destruct Hs as (? & ? & ? & _).
    eapply triple_bind; [by apply triple_add_live|intros ?; simpl].
    eapply triple_bind; [by apply triple_add_live|intros ?; simpl].
    eapply triple_bind; [apply triple_add_live; [done|by apply not_elem_of_nil]|intros ?; simpl].
    eapply triple_mono with (P := Cap M slot live); [|by intros s [? _]|intros ? ? Hx; exact Hx].
    do 3 (apply keeps_bind; [by apply keeps_quiet|intros _]). apply keeps_ret.
  - intros s [[[[[[Hc ->] ->] ->] ->] ->] ->]. split; [done|]. intros Hin. unfold Cap.
    rewrite !elem_of_cons in Hin. destruct Hin as [Hl|[Hl|[Hl|Hl]]]; [| | |by apply elem_of_nil in Hl];
      symmetry in Hl.
    + destruct (Hroom ar al amax) as (-> & ? & ?); [by rewrite !elem_of_cons; auto|done|]. subst al. apply full_false in E1; lia.
    + destruct (Hroom ur ul umax) as (-> & ? & ?); [by rewrite !elem_of_cons; auto|done|]. subst ul. apply full_false in E2; lia.
    + destruct (Hroom pr pl pmax) as (-> & ? & ?); [by rewrite !elem_of_cons; auto|done|]. subst pl. apply full_false in E3; lia.
  - done.
Qed.

(** Renewal: the live set is among the keys only if it holds the lease. *)
Lemma triple_all_hold lease before keys : NoDup keys -> slot ∉ keys -> forall P : Prop,
  (P -> live ∉ keys) ->
  triple (R := R) (fun s => Cap M slot live s /\ (P -> is_Some (zset live s !! lease)))
    (all_hold keys before lease)
    (fun b s => Cap M slot live s /\
                (b = true -> P \/ live ∈ keys -> is_Some (zset live s !! lease))).
Proof.
  induction keys as [|key keys IH]; intros Hd Hs P HP; simpl.
  - intros r [Hc Hm]. split; [done|]. intros _ [?|?%elem_of_nil]; [by apply Hm|done].
  - apply NoDup_cons in Hd as [Hk Hd]. rewrite not_elem_of_cons in Hs. destruct Hs as [Hs1 Hs2].
    eapply triple_bind with (Q := fun _ s => Cap M slot live s /\ (P -> is_Some (zset live s !! lease))).
    { apply triple_call. intros s [Hc Hm]. split.
      - unfold Cap in *. assert (H1 := size_shrinks _ _ (zset_shrinks slot (ZREMRANGEBYSCORE key before) s ltac:(done))).
        assert (H2 := size_shrinks _ _ (zset_shrinks live (ZREMRANGEBYSCORE key before) s ltac:(done))). lia.
      - intros p. rewrite exec_frame_zset; [by apply Hm|]. specialize (HP p).
        rewrite not_elem_of_cons in HP. intros [= ->]. tauto. }
    intros _. eapply triple_bind; [apply triple_has_member|]. intros [|]; simpl.
    + eapply triple_mono; [apply (IH Hd Hs2 (P \/ key = live))| |].
      * intros [p| ->]; [|done]. specialize (HP p). rewrite not_elem_of_cons in HP. tauto.
      * intros s [[Hc Hm] Hk']. split; [done|]. intros [p| ->]; [by apply Hm|by apply Hk'].
      * intros b s [Hc Hm]. split; [done|]. rewrite elem_of_cons. intros Hb Hl. apply Hm; naive_solver.
    + intros r [[Hc _] _]. by split.
Qed.

Lemma triple_renew_all now lease ttl keys : NoDup keys -> slot ∉ keys ->
  triple (R := R) (fun s => Cap M slot live s /\ (live ∈ keys -> is_Some (zset live s !! lease)))
    (renew_all keys now lease ttl) (fun _ => Cap M slot live).
Proof.
  induction keys as [|key keys IH]; intros Hd Hs; simpl.
  - intros r [? _]. done.
  - apply NoDup_cons in Hd as [Hk Hd]. rewrite not_elem_of_cons in Hs. destruct Hs as [Hs1 Hs2].
    destruct (decide (key = live)) as [->|Hl].
    + eapply triple_bind.
      * eapply triple_mono; [apply triple_touch; [exact Hne|by right]| |intros ? ? Hx; exact Hx].
        intros s [Hc Hm]. split; [done|]. right. apply Hm. by left.
      * intros ?; simpl. eapply triple_mono; [by apply IH| |done]. by intros s Hc.
    + eapply triple_bind with
        (Q := fun _ s => Cap M slot live s /\ (live ∈ keys -> is_Some (zset live s !! lease)));
        [|intros ?; by apply IH].
      intros r [Hc Hm]. split.
      * by apply (keeps_touch_other M slot live key now lease ttl).
      * intros Hin. unfold touch_member, s_bind, call.
        destruct (exec_documented (ZADD key now lease) r) as [H1 _].
        destruct (exec (ZADD key now lease) r) as [r1 a1]. cbn [fst] in H1.
        destruct (exec_documented (EXPIRE key ttl) r1) as [-> _]. rewrite H1.
        rewrite !exec_frame_zset by (simpl; congruence). apply Hm. by right.
Qed.

Lemma keeps_refresh_live keys ttl lease : NoDup keys -> slot ∉ keys ->
  keeps (R := R) (Cap M slot live) (refreshLiveLeaseScript keys ttl lease).
Proof.
  intros Hd Hs. apply keeps_bind; [apply keeps_now|intros now].
  eapply triple_bind.
  - eapply triple_mono; [apply (triple_all_hold lease (now - ttl) keys Hd Hs False)| |intros ? ? Hx; exact Hx];
      [done|]. intros s ?. by split.
  - intros [|]; simpl.
    + eapply triple_bind; [|intros ?; apply keeps_ret].
      eapply triple_mono; [by apply triple_renew_all| |done].
      intros s [? Hm]. split; [done|]. intros ?. apply Hm; [done|by right].
    + eapply triple_mono; [apply keeps_ret with (P := Cap M slot live)| |done]. by intros s [? _].
Qed.
End Live.

(** ** Invariants of the whole system *)

Section System.
Context {R : Type} `{RedisServer R} (c : concurrencyCache).

Definition client_safe (P : Store -> Prop) (cl : client) : Prop :=
  match cl with Client p => safe (R := R) P p end.

(** What every admitted method keeps, and the passage of time too, always holds,
    whatever the interleaving and the outcomes of the round trips. *)
Definition sys_inv (P : Store -> Prop) (x : R * list client) : Prop :=
  P (content x.1) /\ Forall (client_safe P) x.2.

Lemma system_invariant (ok : op -> Prop) P :
  (forall o, ok o -> client_safe P (method c o)) ->
  (forall t s, P s -> P (advance t s)) ->
  forall r r' cs', P (content r) -> rtc (sys_step c ok) (r, []) (r', cs') -> P (content r').
Proof.
  intros Hok Ht r r' cs' Hr Hs.
  assert (Hstep : forall x y, sys_step c ok x y -> sys_inv P x -> sys_inv P y).
  { intros x y [r0 cs o Ho|r0 cs i A B m k out Hi|r0 r1 t cs Hc Ha] [Hy Hcs];
      unfold sys_inv; simpl in *.
    - split; [done|]. constructor; [by apply Hok|done].
    - pose proof (Forall_lookup_1 _ _ _ _ Hcs Hi) as [Hm Hk].
      split; [by apply keeps_round_trip|]. apply Forall_insert; [done|apply Hk].
    - rewrite Ha. split; [by apply Ht|done]. }
  assert (Hall : forall x y, rtc (sys_step c ok) x y -> sys_inv P x -> sys_inv P y)
    by (induction 1; eauto).
  apply (Hall _ _ Hs). by split; [|constructor].
Qed.
End System.

(** ** The capacity of an id, whatever the clients do *)

Section Capacity.
Context {R : Type} `{RedisServer R} (c : concurrencyCache).
Context (k : kind) (id M : Z).
Local Abbreviation slot := (slot_of k id).
Local Abbreviation live := (live_of k id).
Local Abbreviation Cap := (Cap M slot live).

Lemma Cap_advance t s : Cap s -> Cap (advance t s).
Proof.
  unfold ConcurrencyCacheProofs.Cap. intros Hc.
  destruct (zset_advance slot t s) as [-> | ->], (zset_advance live t s) as [-> | ->];
    rewrite ?map_size_empty; lia.
Qed.

Lemma slot_live_ne : slot <> live.
Proof. apply slot_not_live. Qed.

(** Side conditions on keys that are not the id's own. *)
Ltac own_key :=
  solve [ exact I | done
        | match goal with
          | |- quiet _ _ (ZADD ?x _ _) =>
              split; first
                [ by destruct (foreign_index x ltac:(tauto) k id)
                | by apply (foreign_ws _ k id) ]
          end ].

Ltac keep :=
  repeat first
    [ match goal with
      | |- forall _, _ => intro
      | |- keeps _ (s_bind _ _) => apply keeps_bind
      | |- keeps _ (s_ret _) => apply keeps_ret
      | |- keeps _ (call _) => apply keeps_quiet; solve [own_key]
      | |- keeps _ (evict _ _) => apply keeps_evict
      | |- keeps _ script_now => apply keeps_now
      | |- keeps _ (zcard _) => apply keeps_zcard
      | |- keeps _ (has_member _ _) => apply keeps_has
      | |- keeps _ (get_or_zero _) => apply keeps_get_or_zero
      | |- keeps _ (match ?x with _ => _ end) => destruct x
      | |- safe _ (g_bind _ _) => apply safe_bind
      | |- safe _ (g_ret _) => exact I
      | |- safe _ (g_err) => exact I
      | |- safe _ (g_ignore _) => apply safe_ignore
      | |- safe _ (g_try _) => apply safe_try
      | |- safe _ (run_script _) => apply safe_script
      | |- safe _ (match ?x with _ => _ end) => destruct x
      end ].

Lemma safe_touch_index key i e :
  key = accountActiveIndexKey \/ key = userActiveIndexKey \/ key = apiKeyActiveIndexKey ->
  safe (R := R) Cap (touchActiveIndexAt key i e).
Proof.
  intros Hk. unfold touchActiveIndexAt. destruct (_ || _); [exact I|].
  apply safe_ignore, safe_script, keeps_quiet. split; apply (foreign_index _ Hk k id).
Qed.

Lemma slot_of_other k' id' : ~ (k' = k /\ id' = id) -> slot_of k' id' <> slot.
Proof. by intros Hn E%slot_of_inj. Qed.

Lemma keeps_acquire_slot k' id' max ttl req :
  (k' = k -> id' = id -> max <= M) ->
  keeps (R := R) Cap (acquireScript (slot_of k' id') (live_of k' id') max ttl req).
Proof.
  intros Hmax. destruct (decide (k' = k /\ id' = id)) as [[-> ->]|Hn].
  - apply keeps_acquire; [apply slot_live_ne|by apply Hmax].
  - assert (H1 := slot_of_other _ _ Hn). assert (H2 := slot_not_live k' k id' id).
    unfold acquireScript. keep; by apply keeps_touch_other.
Qed.

Lemma safe_acquire_slot k' id' index max req :
  (k' = k -> id' = id -> max <= M) ->
  index = accountActiveIndexKey \/ index = userActiveIndexKey \/ index = apiKeyActiveIndexKey ->
  safe (R := R) Cap (acquire_slot c (slot_of k' id') (live_of k' id') index id' max req).
Proof.
  intros Hmax Hi. apply safe_bind; [by apply safe_script, keeps_acquire_slot|intros [n t]].
  apply safe_bind; [|done]. simpl. destruct (n =? 1); [by apply safe_touch_index|done].
Qed.

Lemma safe_refresh_slot key id' index req :
  index = accountActiveIndexKey \/ index = userActiveIndexKey \/ index = apiKeyActiveIndexKey ->
  safe (R := R) Cap (refresh_slot c key index id' req).
Proof.
  intros Hi. apply safe_bind.
  - apply safe_bind; [|done]. apply safe_script. unfold refreshSlotScript.
    apply keeps_bind; [apply keeps_now|intros now].
    apply keeps_bind; [apply keeps_evict|intros _]. apply keeps_refresh, slot_live_ne.
  - intros [held t]. apply safe_bind; [|done]. simpl. destruct held; [by apply safe_touch_index|done].
Qed.

Lemma safe_refresh_index index id' s w :
  index = accountActiveIndexKey \/ index = userActiveIndexKey \/ index = apiKeyActiveIndexKey ->
  safe (R := R) Cap (refreshActiveIndex c index id' s w).
Proof.
  intros Hi. unfold refreshActiveIndex, redisUnixSeconds, readActiveLoadForKey, load_script.
  keep. by apply safe_touch_index.
Qed.

Lemma keeps_zadd_all index zs :
  index = accountActiveIndexKey \/ index = userActiveIndexKey \/ index = apiKeyActiveIndexKey ->
  keeps (R := R) Cap (zadd_all index zs).
Proof.
  intros Hi. induction zs as [|[sc m] zs IH]; simpl; [apply keeps_ret|].
  apply keeps_bind; [|done]. apply keeps_quiet. split; apply (foreign_index _ Hi k id).
Qed.
Lemma keeps_zrem_all key ms : keeps (R := R) Cap (zrem_all key ms).
Proof. induction ms; simpl; keep; auto. Qed.
Lemma keeps_del_all ks : keeps (R := R) Cap (del_all ks).
Proof. induction ks; simpl; keep; auto. Qed.

Lemma safe_refresh_members index zs :
  index = accountActiveIndexKey \/ index = userActiveIndexKey \/ index = apiKeyActiveIndexKey ->
  safe (R := R) Cap (refresh_members index zs).
Proof.
  intros Hi. unfold refresh_members. destruct zs; [done|].
  by apply safe_ignore, safe_script, keeps_zadd_all.
Qed.
Lemma safe_remove_members key ms : safe (R := R) Cap (removeActiveIndexMembers key ms).
Proof.
  unfold removeActiveIndexMembers. destruct ms; [done|]. apply safe_ignore, safe_script, keeps_zrem_all.
Qed.

Lemma keeps_load_script s w i m now : keeps (R := R) Cap (load_script c s w i m now).
Proof. unfold load_script. keep. Qed.
Lemma keeps_loads spec cands now : keeps (R := R) Cap (loads_script c spec cands now).
Proof.
  induction cands as [|[i m] cands IH]; simpl; keep; [apply keeps_load_script|done].
Qed.
Lemma safe_load_chunks fuel spec now cands : safe (R := R) Cap (load_chunks c fuel spec cands now).
Proof.
  revert cands. induction fuel as [|fuel IH]; intros cands; simpl; [by destruct cands|].
  destruct cands; [done|]. apply safe_bind; [apply safe_script, keeps_loads|intros ls].
  by apply safe_bind; [apply IH|].
Qed.

Lemma keeps_count s l now : keeps (R := R) Cap (count_script c s l now).
Proof. unfold count_script. keep. Qed.
Lemma keeps_count_all s l ids now acc : keeps (R := R) Cap (count_all c s l ids now acc).
Proof.
  revert acc. induction ids as [|i ids IH]; intros acc; simpl; [apply keeps_ret|].
  apply keeps_bind; [apply keeps_count|intros n; apply IH].
Qed.
Lemma safe_concurrency_batch s l ids : safe (R := R) Cap (concurrency_batch c s l ids).
Proof.
  unfold concurrency_batch. destruct ids as [|i ids]; [done|].
  apply safe_bind; [apply safe_script, keeps_now|intros now]. apply safe_script, keeps_count_all.
Qed.
Lemma keeps_load_all s l w ids now acc : keeps (R := R) Cap (load_all c s l w ids now acc).
Proof.
  revert acc. induction ids as [|[i m] ids IH]; intros acc; simpl; [apply keeps_ret|].
  apply keeps_bind; [|intros n; apply IH]. unfold load_info. keep. apply keeps_count.
Qed.
Lemma safe_load_batch s l w ids : safe (R := R) Cap (load_batch c s l w ids).
Proof.
  unfold load_batch. destruct ids as [|i ids]; [done|].
  apply safe_bind; [apply safe_script, keeps_now|intros now]. apply safe_script, keeps_load_all.
Qed.

Lemma keeps_checked {A} (a : A) m :
  keeps (R := R) Cap m -> keeps (R := R) Cap (checked a m).
Proof. intros Hm. apply keeps_bind; [done|intros x]. destruct x; apply keeps_ret. Qed.

Lemma safe_admission {A B} (m : Script R (option A)) (f : A -> B) :
  keeps (R := R) Cap m -> safe (R := R) Cap (let? a := g_checked (run_script m) in g_ret (f a)).
Proof.
  intros Hm. apply safe_bind; [|done]. apply safe_bind; [by apply safe_script|]. by intros [a|].
Qed.

Lemma safe_ws_acquire i max lease : safe (R := R) Cap (AcquireOpenAIWSIngressLease i max lease).
Proof.
  unfold AcquireOpenAIWSIngressLease, acquireOpenAIWSIngressLeaseScript.
  destruct (foreign_ws i k id) as [H1 H2].
  destruct (_ || _); [done|]. apply safe_bind; [|done]. apply safe_script.
  keep; by apply keeps_touch_other.
Qed.
Lemma safe_ws_refresh i lease : safe (R := R) Cap (RefreshOpenAIWSIngressLease i lease).
Proof.
  unfold RefreshOpenAIWSIngressLease, refreshOpenAIWSIngressLeaseScript.
  destruct (foreign_ws i k id) as [H1 H2].
  destruct (_ || _); [done|]. apply safe_bind; [|done]. apply safe_script.
  keep; by apply keeps_touch_other.
Qed.

(** What a live lease takes from the id, if it is one of its three. *)
Definition live_fits (accountID accountMax userID userMax apiKeyID apiKeyMax : Z)
    (replacing : bool) : Prop :=
  let fits id' max := id' = id -> 0 < max /\ max + (if replacing then 1 else 0) <= M in
  match k with
  | KAccount => fits accountID accountMax
  | KUser => fits userID userMax
  | KAPIKey => fits apiKeyID apiKeyMax
  end.

Lemma live_keys_NoDup a u p : NoDup (live_keys a u p).
Proof.
  assert (Hn : forall k1 k2 x y, k1 <> k2 -> live_of k1 x <> live_of k2 y)
    by (by intros k1 k2 x y Hk [? _]%live_of_inj).
  unfold live_keys. rewrite !NoDup_cons, !not_elem_of_cons. repeat split;
    try apply not_elem_of_nil; try apply NoDup_nil_2.
  - by apply (Hn KAccount KUser).
  - by apply (Hn KAccount KAPIKey).
  - by apply (Hn KUser KAPIKey).
Qed.
Lemma live_keys_not_slot a u p : slot ∉ live_keys a u p.
Proof.
  unfold live_keys. rewrite !not_elem_of_cons. repeat split; try apply not_elem_of_nil.
  - apply (slot_not_live k KAccount).
  - apply (slot_not_live k KUser).
  - apply (slot_not_live k KAPIKey).
Qed.

Lemma safe_live_acquire a am u um p pm lease rep :
  live_fits a am u um p pm rep -> safe (R := R) Cap (AcquireLiveLease a am u um p pm lease rep).
Proof.
  intros Hf. unfold AcquireLiveLease. destruct (_ || _); [done|].
  apply safe_bind; [|done]. apply safe_script.
  apply keeps_acquire_live; [apply slot_live_ne|apply live_keys_NoDup|apply live_keys_not_slot|].
  assert (Hkey : forall k' i (max : Z) r l,
    (r, l, max) = (slot_of k' i, live_of k' i, max) -> l = live -> k' = k /\ i = id /\ r = slot).
  { intros k' i max r l [= -> ->] [-> ->]%live_of_inj. done. }
  intros r l max Hin Hl. unfold live_fits in Hf.
  rewrite !elem_of_cons in Hin.
  destruct Hin as [E|[E|[E|E]]]; [| | |by apply elem_of_nil in E]; injection E as -> -> ->.
  - destruct (Hkey KAccount a am _ _ eq_refl Hl) as (Ek & Ei & Er). rewrite <- Ek in Hf.
    split; [exact Er|]. specialize (Hf Ei). by destruct rep.
  - destruct (Hkey KUser u um _ _ eq_refl Hl) as (Ek & Ei & Er). rewrite <- Ek in Hf.
    split; [exact Er|]. specialize (Hf Ei). by destruct rep.
  - destruct (Hkey KAPIKey p pm _ _ eq_refl Hl) as (Ek & Ei & Er). rewrite <- Ek in Hf.
    split; [exact Er|]. specialize (Hf Ei). by destruct rep.
Qed.
Lemma safe_live_refresh a u p lease : safe (R := R) Cap (RefreshLiveLease a u p lease).
Proof.
  unfold RefreshLiveLease. destruct (_ =?s _); [done|]. apply safe_bind; [|done]. apply safe_script.
  apply keeps_refresh_live; [apply slot_live_ne|apply live_keys_NoDup|apply live_keys_not_slot].
Qed.

Lemma safe_increment index i key max ttl :
  index = accountActiveIndexKey \/ index = userActiveIndexKey \/ index = apiKeyActiveIndexKey ->
  safe (R := R) Cap (increment_wait c (incrementWaitScript key max ttl) index i).
Proof.
  intros Hi. apply safe_bind; [apply safe_script; unfold incrementWaitScript; keep|intros [n t]].
  apply safe_bind; [|done]. simpl. destruct (n =? 1); [by apply safe_touch_index|done].
Qed.
Lemma keeps_decrement key : keeps (R := R) Cap (decrementWaitScript key).
Proof. unfold decrementWaitScript. keep. Qed.

Lemma keeps_remove_foreign key p ms : keeps (R := R) Cap (remove_foreign key p ms).
Proof. induction ms as [|m ms IH]; simpl; keep; done. Qed.
Lemma keeps_startup key p ttl : keeps (R := R) Cap (startupCleanupSlotScript key p ttl).
Proof. unfold startupCleanupSlotScript. keep. apply keeps_remove_foreign. Qed.
Lemma safe_cleanup_members spec ms p now : safe (R := R) Cap (cleanup_members c spec ms p now).
Proof.
  induction ms as [|m ms IH]; simpl; [done|].
  destruct (ParseInt m) as [i|]; [destruct (i <=? 0)|];
    (apply safe_bind; [try apply IH|intros q; try done]).
  - apply safe_script, keeps_startup.
  - apply safe_bind; [apply safe_script; keep|intros _]. by apply safe_bind; [apply IH|].
Qed.
Lemma safe_sweep p : safe (R := R) Cap (sweep_prefix p).
Proof. unfold sweep_prefix. keep. apply keeps_del_all. Qed.

(** The index an operation maintains is one of the three. *)
Definition index_spec (spec : slotIndexSpec) : Prop :=
  indexKey spec = accountActiveIndexKey \/ indexKey spec = userActiveIndexKey \/
  indexKey spec = apiKeyActiveIndexKey.

Lemma safe_cleanup_index spec p now : index_spec spec -> safe (R := R) Cap (cleanup_index c spec p now).
Proof.
  intros Hs. unfold cleanup_index, allIndexMembers, cleanupStaleProcessSlotsForIndex. keep.
  - apply safe_cleanup_members.
  - by apply safe_refresh_members.
  - apply safe_remove_members.
Qed.
Lemma safe_reconcile spec : index_spec spec -> safe (R := R) Cap (reconcileExpiredIndexCandidates c spec).
Proof.
  intros Hs. unfold reconcileExpiredIndexCandidates, redisUnixSeconds, readIndexLoads. keep.
  - apply safe_load_chunks.
  - by apply safe_refresh_members.
  - apply safe_remove_members.
Qed.

(** Every limit the clients pass for the id is at most [M]; API-key slots of the id
    are not taken without a limit ([TrackAPIKeySlot]). *)
Definition limited (o : op) : Prop :=
  match o with
  | OAcquireSlot k' id' max _ => k' = k -> id' = id -> max <= M
  | OTrackAPIKeySlot id' _ => k = KAPIKey -> id' <> id
  | OAcquireLiveLease a am u um p pm _ rep => live_fits a am u um p pm rep
  | _ => True
  end.

Lemma safe_track i req :
  (k = KAPIKey -> i <> id) -> safe (R := R) Cap (TrackAPIKeySlot c i req).
Proof.
  intros Hi. apply safe_bind; [|intros q; apply safe_touch_index; tauto]. apply safe_script.
  assert (H1 := slot_of_other KAPIKey i ltac:(by intros [<- ->]; destruct (Hi eq_refl))).
  assert (H2 := slot_not_live KAPIKey k i id). simpl in H1, H2.
  unfold trackSlotScript. keep; by apply keeps_touch_other.
Qed.

Lemma safe_release key req refresh :
  safe (R := R) Cap refresh -> safe (R := R) Cap (release_slot key refresh req).
Proof. intros Hr. unfold release_slot. keep. done. Qed.
Lemma safe_decrement key refresh :
  safe (R := R) Cap refresh -> safe (R := R) Cap (decrement_wait key refresh).
Proof. intros Hr. unfold decrement_wait. keep; [apply keeps_decrement|done]. Qed.
Lemma safe_count_one s l : safe (R := R) Cap (run_script (getCountScript s l (slotTTLSeconds c))).
Proof. unfold getCountScript. keep. Qed.

Lemma safe_admissions :
  (forall a i n w t, safe (R := R) Cap (ReserveOpenAIOAuthAdmission a i n w t)) /\
  (forall a u t, safe (R := R) Cap (DeferOpenAIOAuthAdmission a u t)) /\
  (forall a s i t, safe (R := R) Cap (CancelOpenAIOAuthAdmission a s i t)).
Proof.
  split; [|split]; intros.
  - unfold ReserveOpenAIOAuthAdmission. destruct (_ || _); [done|].
    apply safe_bind; [|done]. apply safe_bind; [apply safe_script|by intros [?|]].
    unfold reserveOpenAIOAuthAdmissionScript, script_now_ms, checked. keep.
  - unfold DeferOpenAIOAuthAdmission. destruct (_ || _); [done|].
    apply safe_bind; [|done]. apply safe_bind; [apply safe_script|by intros [?|]].
    unfold deferOpenAIOAuthAdmissionScript, checked. keep.
  - unfold CancelOpenAIOAuthAdmission. destruct (_ || _); [done|].
    apply safe_bind; [|done]. apply safe_bind; [apply safe_script|by intros [?|]].
    unfold cancelOpenAIOAuthAdmissionScript, script_now_ms, checked. keep.
Qed.
Lemma safe_releases :
  (forall i l, safe (R := R) Cap (ReleaseOpenAIWSIngressLease i l)) /\
  (forall a u p l, safe (R := R) Cap (ReleaseLiveLease a u p l)).
Proof.
  split; intros; [unfold ReleaseOpenAIWSIngressLease|unfold ReleaseLiveLease]; keep.
Qed.
Lemma safe_stale p : safe (R := R) Cap (CleanupStaleProcessSlots c p).
Proof.
  unfold CleanupStaleProcessSlots, sweepLegacyWaitKeysOnce, redisUnixSeconds. keep;
    try apply safe_sweep; apply safe_cleanup_index; unfold index_spec; tauto.
Qed.

Lemma method_safe o : limited o -> client_safe (R := R) Cap (method c o).
Proof.
  destruct o as [[| |]|[| |]|[| |]|i req| | | | | | | |i m l|i l| | | | |[| |]|[| |]| | | | | |];
    unfold method, client_safe; intros Ho.
  1: by apply (safe_acquire_slot KAccount); [|tauto].
  1: by apply (safe_acquire_slot KUser); [|tauto].
  1: by apply (safe_acquire_slot KAPIKey); [|tauto].
  1-3: apply safe_release, safe_refresh_index; tauto.
  1-3: apply safe_refresh_slot; tauto.
  1: by apply safe_track.
  1-2: apply safe_count_one.
  1-2: apply safe_concurrency_batch.
  1-3: apply safe_admissions.
  1: apply safe_ws_acquire.
  1: apply safe_ws_refresh.
  1: apply safe_releases.
  1: by apply safe_live_acquire.
  1: apply safe_live_refresh.
  1: apply safe_releases.
  1-3: apply safe_increment; tauto.
  1-3: apply safe_decrement, safe_refresh_index; tauto.
  1: apply safe_script, keeps_get_or_zero.
  1-2: apply safe_load_batch.
  - apply safe_bind; [apply safe_script|intros _; apply safe_refresh_index; tauto].
    unfold cleanupExpiredSlotsScript. keep.
  - unfold CleanupExpiredAccountSlotKeys.
    repeat (apply safe_bind; [|intros _]); apply safe_reconcile; unfold index_spec; tauto.
  - apply safe_stale.
Qed.
End Capacity.

(** C12. Whatever the clients do, in whatever order their round trips reach the
    server and however they end, and however time passes: the regular and live
    slots of an account, a user or an API key together never exceed [M], if no
    client acquires with a limit above [M] (an unlimited live lease counts as such,
    and replacing regular slots takes one above its limit). *)
Theorem capacity_never_exceeded {R : Type} `{RedisServer R} (c : concurrencyCache)
    (k : kind) (id M : Z) r r' cs' :
  Cap M (slot_of k id) (live_of k id) (content r) ->
  rtc (sys_step c (limited k id M)) (r, []) (r', cs') ->
  Cap M (slot_of k id) (live_of k id) (content r').
Proof.
  apply system_invariant; [by apply method_safe|by apply Cap_advance].
Qed.

(** ** Slots are leases *)

(** The members refreshed after second [t]. *)
Definition since (t : Z) (z : gmap string Z) : gmap string Z := filter (fun p => t < p.2) z.
(** The members refreshed less than [ttl] seconds ago. *)
Definition leases (ttl : Z) (key : string) (s : Store) : gmap string Z :=
  since (now_s s - ttl) (zset key s).

Lemma since_since t z : since t (since t z) = since t z.
Proof. unfold since. rewrite map_filter_filter. apply map_filter_ext. naive_solver. Qed.
Lemma since_insert t z m now : t < now -> since t (<[m := now]> z) = <[m := now]> (since t z).
Proof. intros Ht. unfold since. by rewrite map_filter_insert_True. Qed.

Lemma leases_same ttl key s s' :
  clock s' = clock s -> zset key s' = zset key s -> leases ttl key s' = leases ttl key s.
Proof. unfold leases, now_s. by intros -> ->. Qed.
Lemma leases_evicted ttl key s s' :
  clock s' = clock s -> zset key s' = leases ttl key s -> leases ttl key s' = leases ttl key s.
Proof. unfold leases, now_s. intros -> ->. apply since_since. Qed.
Lemma leases_insert ttl key s s' m :
  0 < ttl -> clock s' = clock s -> zset key s' = <[m := now_s s]> (leases ttl key s) ->
  leases ttl key s' = <[m := now_s s]> (leases ttl key s).
Proof.
  unfold leases, now_s. intros Ht -> ->. rewrite since_insert by lia. by rewrite since_since.
Qed.

Section LeaseScripts.
Context {R : Type} `{RedisServer R}.

Lemma evals_now s : evals (R := R) s script_now (now_s s) s.
Proof. eapply evals_bind; [apply evals_call|apply evals_ret]. Qed.
Lemma evals_has key m s :
  evals (R := R) s (has_member key m) (bool_decide (is_Some (zset key s !! m))) s.
Proof.
  eapply evals_bind; [apply evals_call|]. simpl.
  destruct (zset key s !! m); case_bool_decide as E; try apply evals_ret; by destruct E.
Qed.
Lemma evals_zcard key s : evals (R := R) s (zcard key) (Z.of_nat (size (zset key s))) s.
Proof. eapply evals_bind; [apply evals_call|apply evals_ret]. Qed.
Lemma evals_evict key t s :
  evals (R := R) s (evict key t) (exec_store (ZREMRANGEBYSCORE key t) s).2
    (put_zset key (since t (zset key s)) s).
Proof. apply (evals_call (ZREMRANGEBYSCORE key t)). Qed.
Definition touched (key : string) (now : Z) (m : string) (ttl : Z) (s : Store) : Store :=
  set_deadline key (ttl * 1000) (put_zset key (<[m := now]> (zset key s)) s).
Lemma evals_touch key now m ttl s :
  evals (R := R) s (touch_member key now m ttl)
    (exec_store (EXPIRE key ttl) (put_zset key (<[m := now]> (zset key s)) s)).2
    (touched key now m ttl s).
Proof.
  eapply evals_bind; [apply evals_call|].
  apply (evals_call (EXPIRE key ttl) (put_zset key (<[m := now]> (zset key s)) s)).
Qed.
Lemma zset_touched k key now m ttl s : 0 < ttl ->
  zset k (touched key now m ttl s) =
  if bool_decide (k = key) then <[m := now]> (zset key s) else zset k s.
Proof. intros Ht. apply zset_expire_put. lia. Qed.
Lemma clock_touched key now m ttl s : clock (touched key now m ttl s) = clock s.
Proof. unfold touched. by autorewrite with s2q_rw. Qed.
Lemma at_key_touched k key now m ttl s : k <> key -> at_key k (touched key now m ttl s) = at_key k s.
Proof. intros Hk. unfold touched. by rewrite at_key_set_deadline, at_key_put_zset. Qed.

(** The first half of an acquire script: both sets without what expired. *)
Definition swept (slot live : string) (ttl : Z) (s : Store) : Store :=
  put_zset live (leases liveLeaseTTLSeconds live s) (put_zset slot (leases ttl slot s) s).

Lemma zset_swept slot live ttl s : slot <> live ->
  zset slot (swept slot live ttl s) = leases ttl slot s /\
  zset live (swept slot live ttl s) = leases liveLeaseTTLSeconds live s.
Proof.
  intros Hne. unfold swept. split; [|apply zset_put_eq].
  by rewrite zset_put_ne, zset_put_eq.
Qed.

Definition acquired (slot live : string) (max ttl : Z) (req : string) (s : Store) : bool :=
  bool_decide (is_Some (leases ttl slot s !! req)) ||
  (Z.of_nat (size (leases ttl slot s)) + Z.of_nat (size (leases liveLeaseTTLSeconds live s)) <? max).

Lemma evals_acquire slot live max ttl req s : slot <> live ->
  evals (R := R) s (acquireScript slot live max ttl req)
    (if acquired slot live max ttl req s then 1 else 0, now_s s)
    (if acquired slot live max ttl req s
     then touched slot (now_s s) req ttl (swept slot live ttl s) else swept slot live ttl s).
Proof.
  intros Hne. destruct (zset_swept slot live ttl s Hne) as [Hz1 Hz2].
  eapply evals_bind; [apply evals_now|].
  eapply evals_bind; [apply evals_evict|]. eapply evals_bind; [apply evals_evict|].
  rewrite zset_put_ne by done. fold (leases ttl slot s).
  change (since (now_s s - 60) (zset live s)) with (leases liveLeaseTTLSeconds live s).
  fold (swept slot live ttl s).
  eapply evals_bind; [apply evals_has|]. rewrite Hz1. unfold acquired.
  case_bool_decide as E; simpl.
  - eapply evals_bind; [apply evals_touch|apply evals_ret].
  - eapply evals_bind; [apply evals_zcard|]. eapply evals_bind; [apply evals_zcard|].
    rewrite Hz1, Hz2. destruct (_ <? _); [|apply evals_ret].
    eapply evals_bind; [apply evals_touch|apply evals_ret].
Qed.

Lemma evals_refresh {A} key ttl req (a b : A) s :
  let held := bool_decide (is_Some (leases ttl key s !! req)) in
  let s1 := put_zset key (leases ttl key s) s in
  evals (R := R) s
    (evict key (now_s s - ttl) ;$
     let$ held := has_member key req in
     if held then touch_member key (now_s s) req ttl ;$ s_ret a else s_ret b)
    (if held then a else b) (if held then touched key (now_s s) req ttl s1 else s1).
Proof.
  intros held s1. eapply evals_bind; [apply evals_evict|]. fold (leases ttl key s). fold s1.
  assert (Hz : zset key s1 = leases ttl key s) by apply zset_put_eq.
  eapply evals_bind; [apply evals_has|]. rewrite Hz. fold held.
  destruct held; [|apply evals_ret].
  eapply evals_bind; [apply evals_touch|apply evals_ret].
Qed.

(** *** Renewal of several sets *)

(** Since [s0] only expired members of [keys] went. *)
Definition only_swept (ttl : Z) (keys : list string) (s0 s : Store) : Prop :=
  clock s = clock s0 /\ (forall key, leases ttl key s = leases ttl key s0) /\
  (forall key, key ∉ keys -> at_key key s = at_key key s0).

Lemma only_swept_evict ttl keys key s0 s :
  key ∈ keys -> only_swept ttl keys s0 s ->
  only_swept ttl keys s0 (put_zset key (leases ttl key s) s).
Proof.
  intros Hk (Hc & Hl & Ha). split; [by rewrite clock_put_zset|]. split.
  - intros key'. rewrite <- (Hl key'). destruct (decide (key' = key)) as [->|Hne].
    + apply leases_evicted; [apply clock_put_zset|apply zset_put_eq].
    + apply leases_same; [apply clock_put_zset|by apply zset_put_ne].
  - intros key' Hk'. rewrite at_key_put_zset; [by apply Ha|]. by intros ->.
Qed.

Definition holds (ttl : Z) (lease : string) (s : Store) (key : string) : bool :=
  bool_decide (is_Some (leases ttl key s !! lease)).

Lemma triple_all_hold_sweeps ttl all lease s0 keys : keys ⊆ all ->
  triple (R := R) (only_swept ttl all s0)
    (all_hold keys (now_s s0 - ttl) lease)
    (fun b s => b = forallb (holds ttl lease s0) keys /\ only_swept ttl all s0 s).
Proof.
  induction keys as [|key keys IH]; intros Hsub; simpl; [by intros r Hr|].
  assert (Hin : key ∈ all) by (apply Hsub; by left).
  eapply triple_bind with
    (Q := fun _ s => only_swept ttl all s0 s /\ zset key s = leases ttl key s0).
  { eapply triple_evals; intros s Hs. split; [apply evals_evict|].
    pose proof (only_swept_evict _ _ _ _ _ Hin Hs) as He. destruct Hs as (Hc & Hl & Ha).
    assert (E : now_s s0 = now_s s) by (unfold now_s; by rewrite Hc). rewrite E.
    split; [exact He|]. rewrite zset_put_eq. apply Hl. }
  intros _. eapply triple_bind with
    (Q := fun b s => b = holds ttl lease s0 key /\ only_swept ttl all s0 s).
  { eapply triple_evals; intros s [Hs Hz]. split; [apply evals_has|].
    cbv beta. rewrite Hz. by split. }
  intros b. apply triple_pure. intros ->. destruct (holds ttl lease s0 key); simpl.
  - apply IH. intros x Hx. apply Hsub. by right.
  - by intros r Hr.
Qed.

Lemma leases_touched k key m ttl s : 0 < ttl ->
  leases ttl k (touched key (now_s s) m ttl s) =
  if bool_decide (k = key) then <[m := now_s s]> (leases ttl key s) else leases ttl k s.
Proof.
  intros Ht. unfold leases, now_s. rewrite clock_touched, zset_touched by done.
  case_bool_decide; [|done]. apply since_insert. lia.
Qed.

(** [keys] got the lease renewed, the rest of each is as in [s0]. *)
Definition renewed (ttl : Z) (lease : string) (keys : list string) (s0 s : Store) : Prop :=
  clock s = clock s0 /\
  (forall key, leases ttl key s =
     if bool_decide (key ∈ keys) then <[lease := now_s s0]> (leases ttl key s0)
     else leases ttl key s0) /\
  (forall key, key ∉ keys -> at_key key s = at_key key s0).

Lemma triple_renew_all_renews ttl lease keys s0 : 0 < ttl -> NoDup keys ->
  triple (R := R) (fun s => s = s0) (renew_all keys (now_s s0) lease ttl)
    (fun _ => renewed ttl lease keys s0).
Proof.
  intros Ht. revert s0. induction keys as [|key keys IH]; intros s0 Hd; simpl.
  - intros r Hr. simpl. rewrite Hr. done.
  - apply NoDup_cons in Hd as [Hk Hd]. set (s1 := touched key (now_s s0) lease ttl s0).
    assert (Hn : now_s s0 = now_s s1) by (unfold now_s, s1; by rewrite clock_touched).
    eapply triple_bind with (Q := fun _ s => s = s1).
    { intros r Hr. exact (proj2 (evals_touch key (now_s s0) lease ttl s0 r Hr)). }
    intros _. rewrite Hn. eapply triple_mono; [by apply IH|done|]. intros _ s (Hc & Hl & Ha).
    split_and!.
    + rewrite Hc. apply clock_touched.
    + intros k'. rewrite Hl, <- Hn. unfold s1. rewrite leases_touched by done.
      repeat case_bool_decide; subst; try done; set_solver.
    + intros k' Hk'. rewrite not_elem_of_cons in Hk'. destruct Hk' as [H1 H2].
      rewrite Ha by done. by apply at_key_touched.
Qed.

Lemma renewed_swept ttl lease keys s0 s1 s2 :
  only_swept ttl keys s0 s1 -> renewed ttl lease keys s1 s2 -> renewed ttl lease keys s0 s2.
Proof.
  intros (Hc & Hl & Ha) (Hc' & Hl' & Ha').
  assert (Hn : now_s s1 = now_s s0) by (unfold now_s; by rewrite Hc).
  split_and!; [congruence| |].
  - intros k'. by rewrite Hl', Hn, Hl.
  - intros k' Hk'. by rewrite Ha', Ha.
Qed.
End LeaseScripts.

(** C13. The acquire script implements a set of leases per key.  The slot is granted
    exactly if the request already holds an unexpired lease or there are fewer
    unexpired regular and live leases than the limit; then, and only then, the
    request holds a lease from the current second on.  No other lease of the set is
    touched, nor any lease of the live set, nor any other key. *)
Theorem acquire_grants_leases {R : Type} `{RedisServer R} slot live max ttl req (r : R) :
  slot <> live -> 0 < ttl ->
  let s := content r in
  let s' := content (acquireScript slot live max ttl req r).1 in
  let held := leases ttl slot s in
  let lives := leases liveLeaseTTLSeconds live s in
  let granted := bool_decide (is_Some (held !! req)) ||
    (Z.of_nat (size held) + Z.of_nat (size lives) <? max) in
  (acquireScript slot live max ttl req r).2 = (if granted then 1 else 0, now_s s) /\
  leases ttl slot s' = (if granted then <[req := now_s s]> held else held) /\
  leases liveLeaseTTLSeconds live s' = lives /\
  (forall k, k <> slot -> k <> live -> at_key k s' = at_key k s).
Proof.
  intros Hne Ht s s' held lives granted. destruct (zset_swept slot live ttl s Hne) as [Hz1 Hz2].
  destruct (evals_acquire slot live max ttl req s Hne r eq_refl) as [-> Hs']. fold s' in Hs'.
  change (acquired slot live max ttl req s) with granted in *.
  assert (Hc : clock (swept slot live ttl s) = clock s)
    by (unfold swept; by autorewrite with s2q_rw).
  split; [done|]. rewrite Hs'. destruct granted; split_and!.
  - apply leases_insert; [done|by rewrite clock_touched|].
    by rewrite zset_touched, bool_decide_true, Hz1.
  - apply leases_evicted; [by rewrite clock_touched|].
    by rewrite zset_touched, bool_decide_false, Hz2 by done.
  - intros k Hk1 Hk2. rewrite at_key_touched by done. unfold swept. by rewrite !at_key_put_zset.
  - by apply leases_evicted.
  - by apply leases_evicted.
  - intros k Hk1 Hk2. unfold swept. by rewrite !at_key_put_zset.
Qed.

(** C14. Refreshing a slot or a WebSocket ingress lease never takes one: it succeeds
    exactly if the lease is there and unexpired, and then only renews its second; a
    lease that expired or was released stays gone, so that the refreshing client
    learns that it lost its slot. *)
Theorem refresh_never_takes {R : Type} `{RedisServer R} key ttl req (r : R) :
  0 < ttl ->
  let s := content r in
  let s' := content (refreshSlotScript key ttl req r).1 in
  let held := leases ttl key s in
  let mine := bool_decide (is_Some (held !! req)) in
  (refreshSlotScript key ttl req r).2 = (if mine then 1 else 0, now_s s) /\
  leases ttl key s' = (if mine then <[req := now_s s]> held else held) /\
  (forall k, k <> key -> at_key k s' = at_key k s) /\
  (refreshOpenAIWSIngressLeaseScript key ttl req r).2 = (if mine then 1 else 0) /\
  content (refreshOpenAIWSIngressLeaseScript key ttl req r).1 = s'.
Proof.
  intros Ht s s' held mine.
  assert (Hev : forall {A} (a b : A), evals (R := R) s (let$ now := script_now in
      evict key (now - ttl) ;$
      let$ held := has_member key req in
      if held then touch_member key now req ttl ;$ s_ret a else s_ret b)
      (if mine then a else b)
      (if mine then touched key (now_s s) req ttl (put_zset key held s) else put_zset key held s))
    by (intros A a b; eapply evals_bind; [apply evals_now|apply evals_refresh]).
  assert (H1 : evals (R := R) s (refreshSlotScript key ttl req)
      (if mine then (1, now_s s) else (0, now_s s))
      (if mine then touched key (now_s s) req ttl (put_zset key held s) else put_zset key held s))
    by (eapply evals_bind; [apply evals_now|apply evals_refresh]).
  destruct (H1 r eq_refl) as [-> Hs']. fold s' in Hs'.
  destruct (Hev Z 1 0 r eq_refl) as [Ha Hc]. split; [by destruct mine|]. rewrite Hs'. split_and!.
  - destruct mine; [|apply leases_evicted; [apply clock_put_zset|apply zset_put_eq]].
    apply leases_insert; [done|by rewrite clock_touched, clock_put_zset|].
    by rewrite zset_touched, bool_decide_true, zset_put_eq.
  - intros k Hk. destruct mine; [rewrite at_key_touched by done|]; by apply at_key_put_zset.
  - exact Ha.
  - exact Hc.
Qed.

(** A live lease spans an account, a user and an API key and is renewed in all
    of its sets or in none: only if every one still holds it.  Nothing else in the
    sets changes, and no other key. *)
Theorem refresh_live_all_or_none {R : Type} `{RedisServer R} keys ttl lease (r : R) :
  0 < ttl -> NoDup keys ->
  let s := content r in
  let s' := content (refreshLiveLeaseScript keys ttl lease r).1 in
  let mine := forallb (fun key => bool_decide (is_Some (leases ttl key s !! lease))) keys in
  (refreshLiveLeaseScript keys ttl lease r).2 = (if mine then 1 else 0) /\
  (forall key, key ∈ keys -> leases ttl key s' =
     if mine then <[lease := now_s s]> (leases ttl key s) else leases ttl key s) /\
  (forall key, key ∉ keys -> at_key key s' = at_key key s).
Proof.
  intros Ht Hd s s' mine.
  assert (Htr : triple (R := R) (fun x => x = s) (refreshLiveLeaseScript keys ttl lease)
    (fun a x => a = (if mine then 1 else 0) /\
       if mine then renewed ttl lease keys s x else only_swept ttl keys s x)).
  { eapply triple_bind with (Q := fun n x => n = now_s s /\ x = s).
    { intros r1 Hr1. exact (evals_now s r1 Hr1). }
    intros n. apply triple_pure. intros ->.
    eapply triple_bind.
    { eapply triple_mono; [apply (triple_all_hold_sweeps ttl keys lease s keys)| |
        intros ? ? Hx; exact Hx]; [done|]. by intros x ->. }
    intros b. simpl. apply triple_pure. intros ->.
    change (forallb (holds ttl lease s) keys) with mine. destruct mine.
    - intros r1 Hr1. assert (Hn : now_s s = now_s (content r1))
        by (unfold now_s; by rewrite (proj1 Hr1)). rewrite Hn. simpl.
      pose proof (triple_renew_all_renews ttl lease keys (content r1) Ht Hd r1 eq_refl) as Hren.
      unfold s_bind, s_ret. destruct (renew_all _ _ _ _ r1) as [r2 []]; simpl in *.
      split; [done|]. by eapply renewed_swept.
    - intros r1 Hr1. split; [done|exact Hr1]. }
  destruct (Htr r eq_refl) as [Ha Hx]. fold s' in Hx. split; [exact Ha|]. destruct mine.
  - destruct Hx as (_ & Hl & Hk). split; [|done]. intros key Hin. rewrite Hl.
    by rewrite bool_decide_true.
  - destruct Hx as (_ & Hl & Hk). split; [|done]. intros key _. apply Hl.
Qed.

(** ** Startup cleanup *)

Lemma insert_member_perm x l : insert_member x l ≡ₚ x :: l.
Proof.
  induction l as [|y l IH]; simpl; [done|]. destruct (member_le x y); [done|].
  rewrite IH. apply Permutation_swap.
Qed.
Lemma sorted_members_names z : map snd (sorted_members z) ≡ₚ (map_to_list z).*1.
Proof.
  unfold sorted_members. induction (map_to_list z) as [|[m sc] l IH]; simpl; [done|].
  by rewrite insert_member_perm, <- IH.
Qed.

(** The members another process left: those without its prefix. *)
Definition own (prefix : string) (z : gmap string Z) : gmap string Z :=
  filter (fun p => HasPrefix p.1 prefix = true) z.

Section Cleanup.
Context {R : Type} `{RedisServer R}.

(** The loop, with the members still to look at. *)
Lemma triple_remove_foreign key prefix ms s0 :
  NoDup ms ->
  triple (R := R) (fun s => s = s0) (remove_foreign key prefix ms)
    (fun n s => zset key s = filter (fun p => ~ (p.1 ∈ ms /\ HasPrefix p.1 prefix = false)) (zset key s0) /\
       (forall k, k <> key -> at_key k s = at_key k s0) /\ clock s = clock s0 /\
       n = Z.of_nat (size (zset key s0)) - Z.of_nat (size (zset key s))).
Proof.
  revert s0. induction ms as [|m ms IH]; intros s0 Hd; simpl.
  - intros r Hr. simpl. rewrite Hr. split; [|repeat split; lia]. symmetry.
    apply map_filter_id. intros i x _ [Hin _]. by apply not_elem_of_nil in Hin.
  - apply NoDup_cons in Hd as [Hm Hd]. destruct (HasPrefix m prefix) eqn:E.
    + eapply triple_mono; [exact (IH s0 Hd)|done|]. intros n s (Hz & Hk & Hc & Hn).
      split_and!; [|done|done|done]. rewrite Hz. apply map_filter_ext. intros i x Hi. simpl.
      rewrite elem_of_cons. split; intros Hn' [Hin Hp]; apply Hn'; split; try done; [|by right].
      destruct Hin as [->|Hin]; [congruence|done].
    + set (s1 := put_zset key (delete m (zset key s0)) s0).
      eapply triple_bind with (Q := fun a s =>
        a = RInt (if bool_decide (is_Some (zset key s0 !! m)) then 1 else 0) /\ s = s1).
      { intros r Hr. exact (evals_call (ZREM key m) s0 r Hr). }
      intros a. apply triple_pure. intros ->. eapply triple_bind; [exact (IH s1 Hd)|].
      intros n r (Hz & Hk & Hc & ->). unfold s_ret; cbn [fst snd].
      assert (Hz1 : zset key s1 = delete m (zset key s0)) by apply zset_put_eq.
      rewrite Hz1 in Hz |- *. split_and!.
      * rewrite Hz. apply map_eq. intros i. apply option_eq. intros x.
        rewrite !map_lookup_filter_Some, lookup_delete_Some, elem_of_cons. simpl. naive_solver.
      * intros k Hne. rewrite Hk by done. unfold s1. by apply at_key_put_zset.
      * rewrite Hc. unfold s1. apply clock_put_zset.
      * simpl.
        case_bool_decide as Hin; [rewrite map_size_delete|rewrite delete_id by by apply eq_None_not_Some].
        -- destruct Hin as [x Hx]. rewrite Hx. simpl.
           assert (size (zset key s0) <> 0)%nat; [|lia].
           apply map_size_non_empty_iff. intros Hz0. by rewrite Hz0 in Hx.
        -- lia.
Qed.
End Cleanup.

(** Startup cleanup removes from a slot set exactly the members of other
    processes (whose request ids lack the prefix of this one), reports how many went
    and how many remain, and touches no other key; the set is gone when nothing
    remains. *)
Theorem startup_cleanup_keeps_own {R : Type} `{RedisServer R} key prefix ttl (r : R) :
  0 < ttl ->
  let s := content r in
  let s' := content (startupCleanupSlotScript key prefix ttl r).1 in
  zset key s' = own prefix (zset key s) /\
  (startupCleanupSlotScript key prefix ttl r).2 =
    (Z.of_nat (size (zset key s)) - Z.of_nat (size (zset key s')), Z.of_nat (size (zset key s'))) /\
  (zset key s' = ∅ -> key_exists key s' = false) /\
  (forall k, k <> key -> at_key k s' = at_key k s).
Proof.
  intros Ht s s'.
  set (ms := map snd (sorted_members (zset key s))).
  assert (Hd : NoDup ms) by (unfold ms; rewrite sorted_members_names; apply NoDup_fst_map_to_list).
  assert (Hown : filter (fun p => ~ (p.1 ∈ ms /\ HasPrefix p.1 prefix = false)) (zset key s) =
                 own prefix (zset key s)).
  { apply map_filter_ext. intros i x Hi. simpl. destruct (HasPrefix i prefix) eqn:E;
      [naive_solver|]. split; [|done]. intros Hn. exfalso. apply Hn. split; [|done].
    unfold ms. rewrite sorted_members_names. apply list_elem_of_fmap.
    exists (i, x). split; [done|]. by apply elem_of_map_to_list. }
  assert (Htr : triple (R := R) (fun x => x = s) (startupCleanupSlotScript key prefix ttl)
    (fun a x => zset key x = own prefix (zset key s) /\
       a = (Z.of_nat (size (zset key s)) - Z.of_nat (size (zset key x)), Z.of_nat (size (zset key x))) /\
       (zset key x = ∅ -> key_exists key x = false) /\
       (forall k, k <> key -> at_key k x = at_key k s))); [|exact (Htr r eq_refl)].
  eapply triple_bind with (Q := fun a x => a = RList ms /\ x = s).
  { intros r1 Hr1. exact (evals_call (ZRANGE key) s r1 Hr1). }
  intros a. apply triple_pure. intros ->.
  eapply triple_bind; [exact (triple_remove_foreign key prefix ms s Hd)|]. intros n. simpl.
  eapply triple_bind; [apply triple_zcard|]. intros m. simpl.
  intros r1 ((Hz & Hk & Hc & ->) & ->). rewrite Hown in Hz. unfold s_bind, s_ret.
  destruct (Z.of_nat (size (zset key (content r1))) =? 0) eqn:E; bool_hyps.
  - destruct (evals_call (DEL key) (content r1) r1 eq_refl) as [_ H2].
    destruct (call (DEL key) r1) as [r2 a]; cbn [fst snd exec_store] in *. rewrite H2.
    assert (Hz0 : zset key (content r1) = ∅) by (apply map_size_empty_inv; lia).
    rewrite zset_del_key, bool_decide_true, map_size_empty, Hz0, map_size_empty by done.
    split_and!; [by rewrite <- Hz|done| |].
    + intros _. unfold key_exists, del_key; simpl. rewrite !lookup_delete_eq.
      apply bool_decide_false. by intros [[? ?]|[? ?]].
    + intros k Hne. rewrite <- (Hk k Hne). exact (proj1 (exec_frame k (DEL key) (content r1) ltac:(simpl; congruence))).
  - destruct (evals_call (EXPIRE key ttl) (content r1) r1 eq_refl) as [_ H2].
    destruct (call (EXPIRE key ttl) r1) as [r2 a]; cbn [fst snd exec_store] in *. rewrite H2.
    rewrite zset_set_deadline_pos by lia. split_and!; [done|done| |].
    + intros Hz0. rewrite Hz0, map_size_empty in E. done.
    + intros k Hne. by rewrite at_key_set_deadline, Hk.
Qed.

(** ** Witnesses *)

Definition start : Store := MkStore ∅ ∅ ∅ 5000000.
Definition default_cache : concurrencyCache := NewConcurrencyCache 0 0.

(** Two clients ask for the only slot of account 1. *)
Lemma capacity_never_exceeded_witness :
  exists s' cs', rtc (sys_step (R := Store) default_cache (limited KAccount 1 1)) (start, []) (s', cs') /\
    zset (accountSlotKey 1) s' = {["a" := 5]} /\
    Cap 1 (slot_of KAccount 1) (live_of KAccount 1) s'.
Proof.
  pose (scr := fun req => acquireScript (R := Store) (accountSlotKey 1) (liveAccountSlotKey 1) 1 900 req).
  pose (s1 := (round_trip Answered (scr "a") start).1).
  pose (s2 := (round_trip ReplyLost (scr "b") s1).1).
  assert (Hs : exists cs', rtc (sys_step (R := Store) default_cache (limited KAccount 1 1)) (start, []) (s2, cs')).
  { eexists.
    eapply rtc_l; [apply (sys_start _ _ _ _ (OAcquireSlot KAccount 1 1 "a")); simpl; lia|].
    eapply rtc_l; [apply (sys_start _ _ _ _ (OAcquireSlot KAccount 1 1 "b")); simpl; lia|].
    eapply rtc_l; [eapply (sys_trip default_cache) with (i := 1%nat) (out := Answered); reflexivity|].
    eapply rtc_l; [eapply (sys_trip default_cache) with (i := 0%nat) (out := ReplyLost); reflexivity|].
    apply rtc_refl. }
  assert (Hz : zset (accountSlotKey 1) s2 = {["a" := 5]}) by (by vm_compute).
  assert (H0 : Cap 1 (slot_of KAccount 1) (live_of KAccount 1) start) by (by vm_compute).
  clearbody s2. destruct Hs as [cs' Hs]. exists s2, cs'. split; [exact Hs|]. split; [exact Hz|].
  exact (capacity_never_exceeded default_cache KAccount 1 1 start s2 cs' H0 Hs).
Defined.

Lemma acquire_grants_leases_witness :
  leases 900 "s" (acquireScript "s" "l" 2 900 "a" start).1 = {["a" := 5]} /\
  (acquireScript "s" "l" 2 900 "a" start).2 = (1, 5).
Proof.
  destruct (acquire_grants_leases "s" "l" 2 900 "a" start ltac:(done) ltac:(lia)) as (H1 & H2 & _).
  split; [etransitivity; [exact H2|by vm_compute]|etransitivity; [exact H1|by vm_compute]].
Defined.

Lemma refresh_never_takes_witness :
  leases 900 "s" (refreshSlotScript "s" 900 "a" start).1 = ∅ /\
  (refreshSlotScript "s" 900 "a" start).2 = (0, 5).
Proof.
  destruct (refresh_never_takes "s" 900 "a" start ltac:(lia)) as (H1 & H2 & _).
  split; [etransitivity; [exact H2|by vm_compute]|etransitivity; [exact H1|by vm_compute]].
Defined.

Lemma refresh_live_all_or_none_witness :
  (refreshLiveLeaseScript (live_keys 1 2 3) 60 "x" start).2 = 0.
Proof.
  destruct (refresh_live_all_or_none (live_keys 1 2 3) 60 "x" start ltac:(lia)
    ltac:(apply live_keys_NoDup)) as (H1 & _).
  etransitivity; [exact H1|by vm_compute].
Defined.

Lemma startup_cleanup_keeps_own_witness :
  let s := MkStore {["s" := {["p-1" := 5; "q-1" := 5]}]} ∅ ∅ 5000000 in
  zset "s" (startupCleanupSlotScript "s" "p-" 900 s).1 = {["p-1" := 5]}.
Proof.
  intros s. destruct (startup_cleanup_keeps_own "s" "p-" 900 s ltac:(lia)) as (H1 & _).
  etransitivity; [exact H1|by vm_compute].
Defined.
