(* ===== verification/ConcurrencyLeaseProofs.v ===== *)
(** * A lease lasts until it expires

    The complement of the capacity bound: no interleaving of the cache's clients takes a
    slot from the request that holds it before the slot's TTL has passed since its last
    refresh, unless it is released or cleaned up.  A script may use a clock reading of
    an earlier round trip, so the argument carries a lower bound of the clock along a
    client ([spare]). *)

From S2P Require Import Prelude Json Redis RedisProofs ConcurrencyCache ConcurrencyCacheProofs.
Local Open Scope string_scope.
Local Open Scope Z_scope.
Local Open Scope list_scope.
Local Open Scope go_scope.

(** ** Keys of slots and other keys *)

Ltac slot_key_differs :=
  simpl; unfold accountSlotKey, userSlotKey, apiKeySlotKey, liveAccountSlotKey, liveUserSlotKey,
    liveAPIKeySlotKey, openAIWSIngressLeaseKey, openAIOAuthAdmissionKey, waitQueueKey,
    apiKeyWaitQueueKey, accountWaitKey, accountSlotKeyPrefix, userSlotKeyPrefix,
    apiKeySlotKeyPrefix, liveAccountSlotKeyPrefix, liveUserSlotKeyPrefix,
    liveAPIKeySlotKeyPrefix, openAIWSIngressLeaseKeyPrefix, openAIOAuthAdmissionKeyPrefix,
    waitQueueKeyPrefix, apiKeyWaitQueueKeyPrefix, accountWaitKeyPrefix, legacyWaitSweepMarkerKey;
  simpl; congruence.

(** Keys the cache writes that hold no slots. *)
Definition aside (key : string) : Prop := forall k a, key <> slot_of k a.
Lemma aside_foreign key : foreign key -> aside key.
Proof. intros Hf k a. apply Hf. Qed.
Lemma aside_index key :
  key = accountActiveIndexKey \/ key = userActiveIndexKey \/ key = apiKeyActiveIndexKey -> aside key.
Proof. intros Hk. by apply aside_foreign, foreign_index. Qed.
Lemma aside_ws a : aside (openAIWSIngressLeaseKey a).
Proof. apply aside_foreign, foreign_ws. Qed.
Lemma aside_live k a : aside (live_of k a).
Proof. intros k' b E. by eapply slot_not_live. Qed.
Lemma aside_wait u : aside (waitQueueKey u).
Proof. intros [] a; slot_key_differs. Qed.
Lemma aside_api_wait u : aside (apiKeyWaitQueueKey u).
Proof. intros [] a; slot_key_differs. Qed.
Lemma aside_account_wait u : aside (accountWaitKey u).
Proof. intros [] a; slot_key_differs. Qed.
Lemma aside_admission u : aside (openAIOAuthAdmissionKey u).
Proof. intros [] a; slot_key_differs. Qed.
Lemma aside_marker : aside legacyWaitSweepMarkerKey.
Proof. intros [] a; slot_key_differs. Qed.
Lemma aside_swept p key :
  p = accountWaitKeyPrefix \/ p = waitQueueKeyPrefix -> HasPrefix key p = true -> aside key.
Proof.
  intros Hp Hk k a ->. destruct Hp as [-> | ->], k; discriminate Hk.
Qed.
#[export] Hint Resolve aside_ws aside_live aside_wait aside_api_wait aside_account_wait aside_admission
  aside_marker : s2q.

(** ** Leases and commands *)

Section Leases.
Context (ttl : Z) (k : kind) (id : Z) (req : string).
Local Abbreviation slot := (slot_of k id).

(** Until it expires, the lease renewed at second [sc] is a member of its set, and the
    set is not dropped by its deadline. *)
Definition Lease (sc : Z) (s : Store) : Prop :=
  now_s s < sc + ttl ->
  (exists sc', sc <= sc' <= now_s s /\ zset slot s !! req = Some sc') /\
  forall d, deadlines s !! slot = Some d -> (sc + ttl) * 1000 <= d.
(** Nothing that lasts is lost from [s0] to [s], at the same instant. *)
Definition kept (s0 s : Store) : Prop := clock s = clock s0 /\ forall sc, Lease sc s0 -> Lease sc s.

#[local] Instance kept_pre : PreOrder kept.
Proof.
  split; [by intros s|]. intros s1 s2 s3 [H1 H2] [H3 H4]. split; [congruence|auto].
Qed.

(** A command that takes no lease of the set in state [s]. *)
Definition sparing (s : Store) (c : command) : Prop :=
  writes c <> Some slot \/
  match c with
  | ZADD _ sc _ => sc = now_s s
  | ZREM _ m => m <> req
  | ZREMRANGEBYSCORE _ mx => mx <= now_s s - ttl
  | EXPIRE _ t => ttl <= t
  | DEL _ => zset slot s = ∅
  | _ => False
  end.

Lemma now_ms_s s : now_s s * 1000 <= now_ms s.
Proof.
  unfold now_s, now_ms. replace 1000000 with (1000 * 1000) by lia.
  rewrite <- Z.div_div by lia. pose proof (Z.mul_div_le (clock s / 1000) 1000). lia.
Qed.
Lemma deadline_put z s : z <> ∅ -> deadlines (put_zset slot z s) = deadlines s.
Proof. intros Hz. unfold put_zset. by rewrite bool_decide_false. Qed.
Lemma kept_put z s :
  (forall sc, zset slot s !! req = Some sc -> sc <= now_s s < sc + ttl ->
     exists sc', sc <= sc' <= now_s s /\ z !! req = Some sc') ->
  kept s (put_zset slot z s).
Proof.
  intros Hz. split; [apply clock_put_zset|]. intros sc Hl Hn.
  unfold now_s in Hn. rewrite clock_put_zset in Hn. destruct (Hl Hn) as [(sc' & Hs & Hk) Hd].
  destruct (Hz sc' Hk) as (sc2 & Hs2 & Hk2); [unfold now_s in *; lia|].
  split.
  - exists sc2. unfold now_s. rewrite clock_put_zset, zset_put_eq. split; [unfold now_s in *; lia|done].
  - rewrite deadline_put; [done|]. intros ->. by rewrite lookup_empty in Hk2.
Qed.

Lemma exec_sparing c s : 0 < ttl -> sparing s c -> kept s (exec_store c s).1.
Proof.
  intros Ht [Hw|Hc].
  { destruct (exec_frame slot c s Hw) as [Ha Hcl]. split; [done|]. intros sc Hl.
    unfold Lease, now_s. rewrite Hcl, (at_key_zset _ _ _ Ha). injection Ha as _ _ ->. exact Hl. }
  assert (Hdel : forall t, ttl <= t -> kept s (set_deadline slot (t * 1000) s)).
  { intros t Hl. split; [apply clock_set_deadline|]. intros sc Hs Hn.
    unfold now_s in Hn. rewrite clock_set_deadline in Hn. destruct (Hs Hn) as [(sc' & H1 & H2) Hd].
    rewrite zset_set_deadline_pos by lia. unfold now_s. rewrite clock_set_deadline. split; [eauto|].
    unfold set_deadline. destruct (negb _); [done|]. destruct (_ <=? 0) eqn:E; [bool_hyps; lia|].
    intros d. simpl. rewrite lookup_insert_eq. intros [= <-]. pose proof (now_ms_s s). unfold now_s in *. lia. }
  destruct (decide (writes c = Some slot)) as [Hw|Hw].
  2:{ destruct (exec_frame slot c s Hw) as [Ha Hcl]. split; [done|]. intros sc Hl.
    unfold Lease, now_s. rewrite Hcl, (at_key_zset _ _ _ Ha). injection Ha as _ _ ->. exact Hl. }
  destruct c; simpl in *; try done; injection Hw as ->.
  - subst. apply kept_put. intros sc Hsc Hn. destruct (decide (member = req)) as [->|Hm].
    + exists (now_s s). split; [lia|by rewrite lookup_insert_eq].
    + exists sc. split; [lia|by rewrite lookup_insert_ne].
  - apply kept_put. intros sc Hsc Hn. exists sc. split; [lia|by rewrite lookup_delete_ne].
  - apply kept_put. intros sc Hsc Hn. exists sc. split; [lia|]. apply map_lookup_filter_Some. simpl. split; [done|lia].
  - split; [done|]. intros sc Hl Hn. destruct (Hl Hn) as [(sc' & _ & Hk) _]. by rewrite Hc in Hk.
  - by apply Hdel.
Qed.

Lemma Lease_advance sc t s : clock s <= t -> Lease sc s -> Lease sc (advance t s).
Proof.
  intros Ht Hl Hn. assert (Hle : now_s s <= now_s (advance t s)) by (apply Z.div_le_mono; [lia|done]).
  destruct (Hl ltac:(lia)) as [(sc' & Hs & Hk) Hd].
  assert (Hx : ~ expired s t slot).
  { intros (d & Hdl & Hdt). specialize (Hd d Hdl). change (now_s (advance t s)) with (t / 1000000) in Hn.
    assert (t / 1000 < (sc + ttl) * 1000).
    { apply Z.div_lt_upper_bound; [lia|]. pose proof (Z.mul_succ_div_gt t 1000000). lia. }
    lia. }
  assert (Hz : zset slot (advance t s) = zset slot s).
  { unfold zset, advance; simpl. rewrite map_lookup_filter. destruct (zsets s !! slot); simpl; [|done].
    by rewrite option_guard_True. }
  split; [exists sc'; rewrite Hz; split; [lia|done]|].
  intros d. simpl. intros [Hd' _]%map_lookup_filter_Some. by apply Hd.
Qed.
End Leases.

(** ** Scripts *)

Section Scripts_spare.
Context {R : Type} `{RedisServer R} (ttl : Z) (k : kind) (id : Z) (req : string) (Httl : 0 < ttl).
Local Abbreviation slot := (slot_of k id).
Local Abbreviation kept := (kept ttl k id req).
#[local] Existing Instance kept_pre.

(** A script that spares the leases of the set, starting from [s0]. *)
Definition spares {A} (s0 : Store) (m : Script R A) : Prop :=
  triple (R := R) (kept s0) m (fun _ => kept s0).

Lemma spares_ret {A} s0 (a : A) : spares s0 (s_ret a).
Proof. apply keeps_ret. Qed.
Lemma spares_bind {A B} s0 (m : Script R A) (f : A -> Script R B) :
  spares s0 m -> (forall a, spares s0 (f a)) -> spares s0 (s_bind m f).
Proof. apply keeps_bind. Qed.
Lemma spares_call s0 c :
  (forall s, now_s s = now_s s0 -> sparing ttl k id req s c) -> spares s0 (call c).
Proof.
  intros Hc. apply keeps_call. intros s Hs. etrans; [done|]. apply exec_sparing; [done|].
  apply Hc. unfold now_s. by rewrite (proj1 Hs).
Qed.
(** A script reads the current second. *)
Lemma spares_now {B} s0 (f : Z -> Script R B) :
  spares s0 (f (now_s s0)) -> spares s0 (s_bind script_now f).
Proof.
  intros Hf. apply triple_bind with (fun n s => n = now_s s0 /\ kept s0 s).
  - intros r Hr. destruct (evals_now (content r) r eq_refl) as [-> ->]. split; [|done].
    unfold now_s. by rewrite (proj1 Hr).
  - intros n. apply triple_pure. by intros ->.
Qed.
Lemma spares_quiet s0 c : writes c <> Some slot -> spares s0 (call c).
Proof. intros Hw. apply spares_call. intros s _. by left. Qed.
Lemma spares_zcard s0 key : spares s0 (zcard key).
Proof. apply spares_bind; [by apply spares_quiet|intros; apply spares_ret]. Qed.
Lemma spares_has s0 key m : spares s0 (has_member key m).
Proof. apply spares_bind; [by apply spares_quiet|intros; apply spares_ret]. Qed.
Lemma spares_get s0 key : spares s0 (get_or_zero key).
Proof. apply spares_bind; [by apply spares_quiet|intros; apply spares_ret]. Qed.
(** Evicting from another set, or what has expired. *)
Lemma spares_evict s0 key t : key <> slot \/ t <= now_s s0 - ttl -> spares s0 (evict key t).
Proof.
  intros Hk. apply spares_call. intros s Hn. destruct Hk as [Hk|Hk]; [left; simpl; congruence|].
  right. simpl. lia.
Qed.
Lemma spares_touch s0 key m t : key <> slot \/ ttl <= t -> spares s0 (touch_member key (now_s s0) m t).
Proof.
  intros Hk. apply spares_bind; [|intros _]; apply spares_call; intros s Hn;
    (destruct Hk as [Hk|Hk]; [left; simpl; congruence|right]); simpl; [done|lia].
Qed.
(** A set that is seen to be empty may go. *)
Lemma spares_drop_empty {B} s0 key (m : Script R reply) (a : Z -> B) :
  spares s0 m ->
  spares s0 (let$ n := zcard key in (if n =? 0 then call (DEL key) else m) ;$ s_ret (a n)).
Proof.
  intros Hm. apply triple_bind with (fun n s => kept s0 s /\ n = Z.of_nat (size (zset key s))).
  { intros r Hr. by destruct (evals_zcard key (content r) r eq_refl) as [-> ->]. }
  intros n. eapply triple_bind; [|intros; apply spares_ret]. destruct (n =? 0) eqn:En.
  - apply Z.eqb_eq in En as ->. apply triple_call. intros s [Hs Hz].
    etrans; [done|]. apply exec_sparing; [done|]. destruct (decide (key = slot)) as [->|Hk].
    + right. simpl. apply map_size_empty_iff. lia.
    + left. simpl. congruence.
  - eapply triple_mono; [apply Hm|by intros s [? _]|done].
Qed.
End Scripts_spare.


(** ** Clients *)

Section Clients_spare.
Context {R : Type} `{RedisServer R} (c : concurrencyCache) (k : kind) (id : Z) (req : string).
Context (Httl : 0 < slotTTLSeconds c).
Local Abbreviation slot := (slot_of k id).
Local Abbreviation kept := (kept (slotTTLSeconds c) k id req).
Local Abbreviation spares := (spares (R := R) (slotTTLSeconds c) k id req).

(** From second [T] on, every round trip of the client spares the leases, and it returns
    what [Q] says of the second it returns at or later. *)
Fixpoint spare {A} (Q : Z -> A -> Prop) (T : Z) (p : Go R A) : Prop :=
  match p with
  | Done (Some a) => Q T a
  | Done None => True
  | RoundTrip m f =>
      forall r, T <= now_s (content r) ->
        kept (content r) (content (m r).1) /\
        spare Q (now_s (content r)) (f (Some (m r).2)) /\ spare Q (now_s (content r)) (f None)
  end.
Definition any {A} (_ : Z) (_ : A) : Prop := True.
Definition monotone {A} (Q : Z -> A -> Prop) : Prop := forall T T' a, T <= T' -> Q T a -> Q T' a.

Lemma spare_later {A} (Q : Z -> A -> Prop) T T' (p : Go R A) :
  monotone Q -> T <= T' -> spare Q T p -> spare Q T' p.
Proof.
  intros HQ HT. destruct p as [[a|]|B m f]; simpl; [by apply HQ|done|].
  intros Hp r Hr. apply Hp. lia.
Qed.
Lemma spare_bind {A B} Q S T (m : Go R A) (f : A -> Go R B) :
  spare Q T m -> (forall T' a, T <= T' -> Q T' a -> spare S T' (f a)) -> spare S T (g_bind m f).
Proof.
  revert T. induction m as [[a|]|C m f' IH]; intros T Hm Hf; [apply Hf; [lia|done]|done|].
  intros r Hr. destruct (Hm r Hr) as (H1 & H2 & H3).
  split; [done|]. split; apply IH; try done; intros T' a HT; apply Hf; lia.
Qed.
Lemma spare_seq {A B} S T (m : Go R A) (f : A -> Go R B) :
  spare any T m -> (forall T' a, T <= T' -> spare S T' (f a)) -> spare S T (g_bind m f).
Proof. intros Hm Hf. apply (spare_bind any); [done|]. intros T' a HT _. by apply Hf. Qed.
Lemma spare_try {A} (Q : Z -> A -> Prop) T (m : Go R A) :
  spare Q T m -> spare (fun T o => if o is Some a then Q T a else True) T (g_try m).
Proof.
  revert T. induction m as [[a|]|C m f IH]; intros T Hm; [done..|].
  intros r Hr. destruct (Hm r Hr) as (H1 & H2 & H3). split; [done|]. split; by apply IH.
Qed.
Lemma spare_weaken {A} (Q Q' : Z -> A -> Prop) T (m : Go R A) :
  (forall T a, Q T a -> Q' T a) -> spare Q T m -> spare Q' T m.
Proof.
  intros HQ. revert T. induction m as [[a|]|C m f IH]; intros T Hm; [by apply HQ|done|].
  intros r Hr. destruct (Hm r Hr) as (H1 & H2 & H3). split; [done|]. split; by apply IH.
Qed.
Lemma spare_try_any {A} T (m : Go R A) : spare any T m -> spare any T (g_try m).
Proof. intros Hm. by eapply spare_weaken, spare_try. Qed.
Lemma spare_ignore {A} T (m : Go R A) : spare any T m -> spare any T (g_ignore m).
Proof. intros Hm. eapply spare_bind; [by apply spare_try|done]. Qed.
Lemma spare_script {A} T (m : Script R A) :
  (forall s0, T <= now_s s0 -> spares s0 m) -> spare any T (run_script m).
Proof. intros Hm r Hr. split; [|by split]. apply (Hm (content r) Hr r). by split. Qed.
Lemma spare_clock T : spare (fun T n => n <= T) T redisUnixSeconds.
Proof.
  intros r Hr. destruct (evals_now (content r) r eq_refl) as [E1 E2]. rewrite E1, E2.
  split; [by split|]. split; [|done]. simpl. lia.
Qed.
Lemma spare_ret {A} T (a : A) : spare any T (g_ret a).
Proof. done. Qed.

(** Another key, or nothing that is live. *)
Ltac other_or_old := first [right; lia | left; first
  [apply aside_live | apply aside_ws | match goal with Ha : aside ?x |- ?x <> _ => exact (Ha _ _) end]].
Ltac sparing :=
  repeat first
    [ match goal with
      | |- forall _, _ => intro
      | |- spares _ (s_bind script_now _) => apply spares_now
      | |- spares _ (s_bind _ _) => apply spares_bind
      | |- spares _ (s_ret _) => apply spares_ret
      | |- spares _ (call _) => apply spares_quiet; [exact Httl|simpl; congruence]
      | |- spares _ (zcard _) => apply spares_zcard, Httl
      | |- spares _ (has_member _ _) => apply spares_has, Httl
      | |- spares _ (get_or_zero _) => apply spares_get, Httl
      | |- spares _ (evict _ _) => apply spares_evict; [exact Httl|other_or_old]
      | |- spares _ (touch_member _ _ _ _) => apply spares_touch; [exact Httl|other_or_old]
      | |- spares _ (match ?x with _ => _ end) => destruct x
      | |- spare _ _ (g_ret _) => apply spare_ret
      | |- spare _ _ g_err => exact I
      | |- spare _ _ (g_ignore _) => apply spare_ignore
      | |- spare _ _ (run_script _) => apply spare_script
      | |- spare _ _ (g_bind _ _) => apply spare_seq
      | |- spare _ _ (match ?x with _ => _ end) => destruct x
      end ].

Lemma slot_ne k' id' : k' <> k \/ id' <> id -> slot_of k' id' <> slot.
Proof. intros Hn [-> ->]%slot_of_inj. destruct Hn; done. Qed.

Lemma spare_touch_index key i e T : aside key -> spare any T (touchActiveIndexAt key i e).
Proof. intros Hk. unfold touchActiveIndexAt. sparing. Qed.

Lemma spares_acquire key live max req' s0 :
  aside live -> spares s0 (acquireScript key live max (slotTTLSeconds c) req').
Proof. intros Hl. unfold acquireScript. sparing. Qed.
Lemma spare_acquire_slot key live index i max req' T :
  aside live -> aside index -> spare any T (acquire_slot c key live index i max req').
Proof.
  intros Hl Hi. unfold acquire_slot. sparing; [by apply spares_acquire|by apply spare_touch_index].
Qed.
Lemma spare_refresh_slot key index i req' T :
  aside index -> spare any T (refresh_slot c key index i req').
Proof.
  intros Hi. unfold refresh_slot, refreshRegularSlot, refreshSlotScript. sparing. by apply spare_touch_index.
Qed.
Lemma spare_track i req' T : spare any T (TrackAPIKeySlot c i req').
Proof.
  unfold TrackAPIKeySlot, trackSlotScript. sparing. apply spare_touch_index, aside_index. tauto.
Qed.

(** Reading the load of an id at a second that has been. *)
Lemma spares_load s w i m now s0 : now <= now_s s0 -> spares s0 (load_script c s w i m now).
Proof. intros Hn. unfold load_script. sparing. Qed.
Lemma spare_refresh_index index i s w T : aside index -> spare any T (refreshActiveIndex c index i s w).
Proof.
  intros Hi. unfold refreshActiveIndex. destruct (i <=? 0); [done|].
  eapply spare_bind; [apply spare_try, spare_clock|]. intros T1 [now|] HT Hn; [|done]. cbv beta iota.
  apply spare_seq; [apply spare_try_any, spare_script|].
  - intros s0 Hs. apply spares_load. lia.
  - intros T2 [load|] HT2; [|done]. cbv beta iota. sparing. by apply spare_touch_index.
Qed.
Lemma spare_release key req' (refresh : Go R ()) T :
  key <> slot \/ req' <> req -> (forall T, spare any T refresh) -> spare any T (release_slot key refresh req').
Proof.
  intros Hk Hr. unfold release_slot. sparing; [|apply Hr]. apply spares_call; [done|]. intros s _.
  destruct Hk as [Hk|Hk]; [left; simpl; congruence|by right].
Qed.

(** Counting at a second that has been. *)
Lemma spares_count s l now s0 : aside l -> now <= now_s s0 -> spares s0 (count_script c s l now).
Proof. intros Hl Hn. unfold count_script. sparing. Qed.
Lemma spare_count_one s l T : aside l -> spare any T (run_script (getCountScript s l (slotTTLSeconds c))).
Proof. intros Hl. unfold getCountScript. sparing. Qed.
Lemma spares_count_all s l ids now acc s0 :
  (forall i, aside (l i)) -> now <= now_s s0 -> spares s0 (count_all c s l ids now acc).
Proof.
  intros Hl Hn. revert acc. induction ids as [|i ids IH]; intros acc; simpl; [apply spares_ret|].
  apply spares_bind; [by apply spares_count|intros n; apply IH].
Qed.
Lemma spare_concurrency_batch s l ids T :
  (forall i, aside (l i)) -> spare any T (concurrency_batch c s l ids).
Proof.
  intros Hl. unfold concurrency_batch. destruct ids as [|i ids]; [done|].
  eapply spare_bind; [apply spare_clock|]. intros T' now HT Hn. cbv beta in Hn.
  apply spare_script. intros s0 Hs. apply spares_count_all; [done|lia].
Qed.
Lemma spares_load_all s l w ids now acc s0 :
  (forall i, aside (l i)) -> now <= now_s s0 -> spares s0 (load_all c s l w ids now acc).
Proof.
  intros Hl Hn. revert acc. induction ids as [|[i m] ids IH]; intros acc; simpl; [apply spares_ret|].
  apply spares_bind; [|intros n; apply IH]. unfold load_info. sparing. by apply spares_count.
Qed.
Lemma spare_load_batch s l w ids T :
  (forall i, aside (l i)) -> spare any T (load_batch c s l w ids).
Proof.
  intros Hl. unfold load_batch. destruct ids as [|i ids]; [done|].
  eapply spare_bind; [apply spare_clock|]. intros T' now HT Hn. cbv beta in Hn.
  apply spare_script. intros s0 Hs. apply spares_load_all; [done|lia].
Qed.

(** Methods on other keys. *)
Lemma spares_checked {A} (a : A) m s0 : spares s0 m -> spares s0 (checked a m).
Proof. intros Hm. unfold checked. sparing. done. Qed.
Lemma spares_now_ms s0 : spares s0 script_now_ms.
Proof. unfold script_now_ms. sparing. Qed.
Lemma spare_checked {A} (m : Script R (option A)) T :
  (forall s0, spares s0 m) -> spare any T (g_checked (run_script m)).
Proof. intros Hm. unfold g_checked. sparing. apply Hm. Qed.
Ltac off_slot :=
  intros; apply spares_quiet; [exact Httl|simpl; intros [= E]; revert E;
    first [apply aside_admission | apply aside_ws | apply aside_live | apply aside_wait | apply aside_api_wait
          | apply aside_account_wait | apply aside_marker ]].
Lemma spare_reserve a i n w t T : spare any T (ReserveOpenAIOAuthAdmission a i n w t).
Proof.
  unfold ReserveOpenAIOAuthAdmission. destruct (_ || _); [done|]. sparing. apply spare_checked. intros s0.
  unfold reserveOpenAIOAuthAdmissionScript. sparing; [apply spares_now_ms|apply spares_checked; off_slot..].
Qed.
Lemma spare_defer a u t T : spare any T (DeferOpenAIOAuthAdmission a u t).
Proof.
  unfold DeferOpenAIOAuthAdmission. destruct (_ || _); [done|]. sparing. apply spare_checked. intros s0.
  unfold deferOpenAIOAuthAdmissionScript. sparing; apply spares_checked; off_slot.
Qed.
Lemma spare_cancel a s i t T : spare any T (CancelOpenAIOAuthAdmission a s i t).
Proof.
  unfold CancelOpenAIOAuthAdmission. destruct (_ || _); [done|]. sparing. apply spare_checked. intros s0.
  unfold cancelOpenAIOAuthAdmissionScript. sparing; [apply spares_now_ms|apply spares_checked; off_slot..].
Qed.
Lemma spare_ws_acquire i max l T : spare any T (AcquireOpenAIWSIngressLease i max l).
Proof. unfold AcquireOpenAIWSIngressLease, acquireOpenAIWSIngressLeaseScript. sparing. Qed.
Lemma spare_ws_refresh i l T : spare any T (RefreshOpenAIWSIngressLease i l).
Proof. unfold RefreshOpenAIWSIngressLease, refreshOpenAIWSIngressLeaseScript. sparing. Qed.
Lemma spare_ws_release i l T : spare any T (ReleaseOpenAIWSIngressLease i l).
Proof. unfold ReleaseOpenAIWSIngressLease. sparing. off_slot. Qed.
Lemma aside_live_keys a u p :
  aside (liveAccountSlotKey a) /\ aside (liveUserSlotKey u) /\ aside (liveAPIKeySlotKey p).
Proof. exact (conj (aside_live KAccount a) (conj (aside_live KUser u) (aside_live KAPIKey p))). Qed.
Lemma spare_live_acquire a am u um p pm l rep T : spare any T (AcquireLiveLease a am u um p pm l rep).
Proof.
  destruct (aside_live_keys a u p) as (H1 & H2 & H3).
  unfold AcquireLiveLease, acquireLiveLeaseScript. sparing.
Qed.
Lemma spares_all_hold keys now t l s0 :
  Forall aside keys -> spares s0 (all_hold keys (now - t) l).
Proof. induction 1 as [|x keys Hx _ IH]; simpl; sparing; done. Qed.
Lemma spares_renew_all keys l t s0 : Forall aside keys -> spares s0 (renew_all keys (now_s s0) l t).
Proof. induction 1 as [|x keys Hx _ IH]; simpl; sparing; done. Qed.
Lemma spare_live_refresh a u p l T : spare any T (RefreshLiveLease a u p l).
Proof.
  assert (Hk : Forall aside (live_keys a u p)).
  { repeat constructor; [apply (aside_live KAccount)|apply (aside_live KUser)|apply (aside_live KAPIKey)]. }
  unfold RefreshLiveLease, refreshLiveLeaseScript. sparing; [by apply spares_all_hold|by apply spares_renew_all].
Qed.
Lemma spare_live_release a u p l T : spare any T (ReleaseLiveLease a u p l).
Proof.
  destruct (aside_live_keys a u p) as (H1 & H2 & H3).
  unfold ReleaseLiveLease. sparing.
Qed.

(** Wait counters and cleanups. *)
Lemma spare_increment key index i max T :
  aside key -> aside index ->
  spare any T (increment_wait c (incrementWaitScript key max (waitQueueTTLSeconds c)) index i).
Proof.
  intros Hk Hi. unfold increment_wait, incrementWaitScript. sparing. by apply spare_touch_index.
Qed.
Lemma spare_decrement key (refresh : Go R ()) T :
  aside key -> (forall T, spare any T refresh) -> spare any T (decrement_wait key refresh).
Proof. intros Hk Hr. unfold decrement_wait, decrementWaitScript. sparing. apply Hr. Qed.
Lemma spares_expire key s0 : spares s0 (call (EXPIRE key (slotTTLSeconds c))).
Proof.
  apply spares_call; [exact Httl|]. intros s _.
  destruct (decide (key = slot)) as [->|Hk]; [right; simpl; lia|left; simpl; congruence].
Qed.
Lemma spare_cleanup_slots key (refresh : Go R ()) T :
  (forall T, spare any T refresh) ->
  spare any T (run_script (cleanupExpiredSlotsScript key (slotTTLSeconds c)) ;? refresh).
Proof.
  intros Hr. apply spare_seq; [apply spare_script; intros s0 _|intros; apply Hr].
  unfold cleanupExpiredSlotsScript. apply spares_now.
  apply spares_bind; [apply spares_evict; [exact Httl|right; lia]|intros _].
  apply (spares_drop_empty _ _ _ _ Httl _ _ _ (fun _ => 1)). apply spares_expire.
Qed.

Lemma spares_zrem_all index ms s0 : aside index -> spares s0 (zrem_all index ms).
Proof. intros Hi. induction ms; simpl; sparing; done. Qed.
Lemma spares_zadd_all index zs s0 : aside index -> spares s0 (zadd_all index zs).
Proof. intros Hi. induction zs as [|[sc m] zs IH]; simpl; sparing; done. Qed.
Lemma spare_refresh_members index zs T : aside index -> spare any T (refresh_members index zs).
Proof. intros Hi. unfold refresh_members. sparing. by apply (spares_zadd_all index (p :: zs)). Qed.
Lemma spare_remove_members index ms T : aside index -> spare any T (removeActiveIndexMembers index ms).
Proof. intros Hi. unfold removeActiveIndexMembers. sparing. by apply (spares_zrem_all index (s :: ms)). Qed.
Lemma spares_loads spec cands now s0 : now <= now_s s0 -> spares s0 (loads_script c spec cands now).
Proof. intros Hn. induction cands as [|[i m] cands IH]; simpl; sparing; [by apply spares_load|done]. Qed.
Lemma spare_load_chunks fuel spec cands now T : now <= T -> spare any T (load_chunks c fuel spec cands now).
Proof.
  revert cands T. induction fuel as [|fuel IH]; intros cands T Hn; simpl; [by destruct cands|].
  destruct cands; [done|]. apply spare_seq; [apply spare_script; intros s0 Hs; apply spares_loads; lia|].
  intros T' ls HT. apply spare_seq; [apply IH; lia|done].
Qed.
Lemma spare_reconcile spec T : aside (indexKey spec) -> spare any T (reconcileExpiredIndexCandidates c spec).
Proof.
  intros Hi. unfold reconcileExpiredIndexCandidates. eapply spare_bind; [apply spare_clock|].
  intros T1 now HT Hn. cbv beta in Hn. apply spare_seq; [sparing|]. intros T2 members HT2.
  apply spare_seq.
  - unfold readIndexLoads. destruct (split_members _) as [cands stale].
    apply spare_seq; [apply spare_load_chunks; lia|done].
  - intros T3 p HT3. destruct (split_loads _ _ _). sparing; [by apply spare_refresh_members|by apply spare_remove_members].
Qed.

(** Cleaning up after other processes, for a request of this one. *)
Lemma spares_remove_foreign key prefix ms s0 :
  HasPrefix req prefix = true -> spares s0 (remove_foreign key prefix ms).
Proof.
  intros Hp. induction ms as [|m ms IH]; simpl; [apply spares_ret|].
  destruct (HasPrefix m prefix) eqn:Hm; [done|]. apply spares_bind; [|intros n; sparing; done].
  apply spares_call; [exact Httl|]. intros s _. right. simpl. congruence.
Qed.
Lemma spares_startup key prefix s0 :
  HasPrefix req prefix = true -> spares s0 (startupCleanupSlotScript key prefix (slotTTLSeconds c)).
Proof.
  intros Hp. unfold startupCleanupSlotScript.
  apply spares_bind; [sparing|intros members]. apply spares_bind; [by apply spares_remove_foreign|intros removed].
  apply (spares_drop_empty _ _ _ _ Httl _ _ _ (fun n => (removed, n))). apply spares_expire.
Qed.
Lemma spare_cleanup_members spec ms prefix now T :
  (forall i, aside (waitKey spec i)) -> HasPrefix req prefix = true ->
  spare any T (cleanup_members c spec ms prefix now).
Proof.
  intros Hw Hp. revert T. induction ms as [|m ms IH]; intros T; simpl; [done|].
  destruct (ParseInt m) as [i|]; [destruct (i <=? 0)|]; try (apply spare_seq; [apply IH|done]).
  apply spare_seq; [apply spare_script; intros; by apply spares_startup|intros T1 q _].
  apply spare_seq; [sparing; apply spares_quiet; [exact Httl|simpl; intros [= E]; by eapply Hw]|intros T2 ? _].
  apply spare_seq; [apply IH|done].
Qed.
Lemma spare_cleanup_index spec prefix now T :
  (forall i, aside (waitKey spec i)) -> aside (indexKey spec) -> HasPrefix req prefix = true ->
  spare any T (cleanup_index c spec prefix now).
Proof.
  intros Hw Hi Hp. unfold cleanup_index, allIndexMembers, cleanupStaleProcessSlotsForIndex.
  sparing; [by apply spare_cleanup_members|by apply spare_refresh_members|by apply spare_remove_members].
Qed.
Lemma spares_del_all ks s0 : Forall aside ks -> spares s0 (del_all ks).
Proof. induction 1 as [|x ks Hx _ IH]; simpl; sparing; done. Qed.
Lemma spare_sweep p T :
  p = accountWaitKeyPrefix \/ p = waitQueueKeyPrefix -> spare any T (sweep_prefix p).
Proof.
  intros Hp r Hr. destruct (evals_call (KEYS p) (content r) r eq_refl) as [E1 E2].
  unfold call in *. rewrite E1, E2. split; [done|]. split; [|exact I].
  cbn. set (ks := List.filter _ _). assert (Hk : Forall aside ks).
  { apply Forall_forall. intros x. rewrite list_elem_of_In. unfold ks. rewrite filter_In.
    intros [_ Hx]. by eapply aside_swept. }
  destruct ks as [|x ks]; [done|]. apply spare_script. intros s0 _. by apply (spares_del_all (x :: ks)).
Qed.
Lemma spare_stale prefix T :
  prefix = "" \/ HasPrefix req prefix = true -> spare any T (CleanupStaleProcessSlots c prefix).
Proof.
  unfold CleanupStaleProcessSlots. intros [->|Hp]; [done|]. destruct (_ =?s _); [done|].
  apply spare_seq.
  { unfold sweepLegacyWaitKeysOnce. sparing; [apply spare_sweep; by left|apply spare_sweep; by right|].
    off_slot. }
  intros T1 _ _. apply spare_seq; [eapply spare_weaken; [|apply spare_clock]; done|intros T2 now _].
  apply spare_seq; [|intros ? ? _; apply spare_seq; [|intros ? ? _]]; apply spare_cleanup_index; try done; intros; simpl;
    first [by apply aside_index; tauto | auto with s2q].
Qed.

(** Methods that neither release the request's slot nor clean up after its process. *)
Definition spares_slot (o : op) : Prop :=
  match o with
  | OReleaseSlot k' id' req' => slot_of k' id' <> slot \/ req' <> req
  | OCleanupStaleProcessSlots prefix => prefix = "" \/ HasPrefix req prefix = true
  | _ => True
  end.
Definition client_spares (T : Z) (cl : client) : Prop := match cl with Client p => spare any T p end.

Lemma method_spares o T : spares_slot o -> client_spares T (method c o).
Proof.
  assert (Hi : aside accountActiveIndexKey /\ aside userActiveIndexKey /\ aside apiKeyActiveIndexKey)
    by (split_and!; apply aside_index; tauto). destruct Hi as (Ha & Hu & Hp).
  destruct o as [[| |]|[| |]|[| |]| | | | | | | | | | | | | | |[| |]|[| |]| | | | | |];
    unfold method, client_spares; intros Ho.
  1: by apply spare_acquire_slot; [apply (aside_live KAccount)|].
  1: by apply spare_acquire_slot; [apply (aside_live KUser)|].
  1: by apply spare_acquire_slot; [apply (aside_live KAPIKey)|].
  1-3: by apply spare_release; [|intros; apply spare_refresh_index].
  1-3: by apply spare_refresh_slot.
  1: apply spare_track.
  1: apply spare_count_one, (aside_live KAccount).
  1: apply spare_count_one, (aside_live KUser).
  1: apply spare_concurrency_batch, (aside_live KAccount).
  1: apply spare_concurrency_batch, (aside_live KAPIKey).
  1: apply spare_reserve.
  1: apply spare_defer.
  1: apply spare_cancel.
  1: apply spare_ws_acquire.
  1: apply spare_ws_refresh.
  1: apply spare_ws_release.
  1: apply spare_live_acquire.
  1: apply spare_live_refresh.
  1: apply spare_live_release.
  1-3: by apply spare_increment; [auto with s2q|].
  1-3: by apply spare_decrement; [auto with s2q|intros; apply spare_refresh_index].
  1: apply spare_script; intros; apply spares_get, Httl.
  1: apply spare_load_batch, (aside_live KAccount).
  1: apply spare_load_batch, (aside_live KUser).
  1: by apply spare_cleanup_slots; intros; apply spare_refresh_index.
  - unfold CleanupExpiredAccountSlotKeys.
    by apply spare_seq; [|intros ? ? _; apply spare_seq; [|intros ? ? _]]; apply spare_reconcile.
  - by apply spare_stale.
Qed.

(** ** The system *)

Definition sys_spares (x : R * list client) : Prop := Forall (client_spares (now_s (content x.1))) x.2.
Lemma client_spares_later T T' cl : T <= T' -> client_spares T cl -> client_spares T' cl.
Proof. destruct cl as [A p]. intros HT Hp. by eapply spare_later. Qed.

Lemma sys_step_spares x y :
  sys_step c spares_slot x y -> sys_spares x ->
  sys_spares y /\ forall sc, Lease (slotTTLSeconds c) k id req sc (content x.1) ->
                             Lease (slotTTLSeconds c) k id req sc (content y.1).
Proof.
  intros [r cs o Ho|r cs i A B m f out Hi|r r' t cs Hc Ha]; unfold sys_spares; simpl; intros Hcs.
  - split; [|done]. constructor; [by apply method_spares|done].
  - destruct (proj1 (Forall_lookup _ _) Hcs _ _ Hi r ltac:(lia)) as (Hk & H1 & H2).
    assert (Hkept : kept (content r) (content (round_trip out m r).1)) by (by destruct out).
    split; [|apply Hkept]. assert (Hn : now_s (content (round_trip out m r).1) = now_s (content r)).
    { unfold now_s. by rewrite (proj1 Hkept). }
    rewrite Hn. apply Forall_insert; [done|]. by destruct out.
  - rewrite Ha. split; [|intros sc; by apply Lease_advance].
    eapply Forall_impl; [done|]. intros cl. apply client_spares_later. by apply Z.div_le_mono.
Qed.
Lemma sys_steps_spare x y :
  rtc (sys_step c spares_slot) x y -> sys_spares x ->
  sys_spares y /\ forall sc, Lease (slotTTLSeconds c) k id req sc (content x.1) ->
                             Lease (slotTTLSeconds c) k id req sc (content y.1).
Proof.
  induction 1 as [x|x y z Hs _ IH]; [done|]. intros Hx.
  destruct (sys_step_spares _ _ Hs Hx) as [Hy Hl]. destruct (IH Hy) as [Hz Hl']. auto.
Qed.
End Clients_spare.

(** ** Taking and renewing a lease *)

Section Granted.
Context {R : Type} `{RedisServer R} (ttl : Z) (k : kind) (id : Z) (req : string) (Httl : 0 < ttl).
Local Abbreviation slot := (slot_of k id).

(** The scripts that take or renew the request's slot, with first result 1 if they do. *)
Inductive grants : Script R (Z * Z) -> Prop :=
  | grants_acquire max : grants (acquireScript slot (live_of k id) max ttl req)
  | grants_refresh : grants (refreshSlotScript slot ttl req)
  | grants_track : grants (trackSlotScript slot ttl req).

Lemma Lease_touched s : Lease ttl k id req (now_s s) (touched slot (now_s s) req ttl s).
Proof.
  intros _. unfold now_s at 1 2 3 4. rewrite clock_touched. fold (now_s s). split.
  - exists (now_s s). rewrite zset_touched, bool_decide_true, lookup_insert_eq by done. split; [lia|done].
  - unfold touched, set_deadline. destruct (negb _) eqn:E.
    { exfalso. apply negb_true_iff, bool_decide_eq_false in E. apply E. left. unfold put_zset.
      rewrite bool_decide_false by (apply insert_non_empty). simpl. rewrite lookup_insert_eq. eauto. }
    destruct (_ <=? 0) eqn:E2; [bool_hyps; lia|]. intros d. simpl. rewrite lookup_insert_eq.
    intros [= <-]. unfold now_ms. rewrite clock_put_zset. pose proof (now_ms_s s). unfold now_ms in *. lia.
Qed.
Lemma now_touched key now m t s : now_s (touched key now m t s) = now_s s.
Proof. unfold now_s. by rewrite clock_touched. Qed.
Lemma evals_refresh_slot s :
  let held := bool_decide (is_Some (leases ttl slot s !! req)) in
  evals (R := R) s (refreshSlotScript slot ttl req) (if held then (1, now_s s) else (0, now_s s))
    (if held then touched slot (now_s s) req ttl (put_zset slot (leases ttl slot s) s)
     else put_zset slot (leases ttl slot s) s).
Proof. eapply evals_bind; [apply evals_now|apply evals_refresh]. Qed.
Lemma refresh_slot_held (r : R) :
  is_Some (leases ttl slot (content r) !! req) ->
  (refreshSlotScript slot ttl req r).2 = (1, now_s (content r)).
Proof.
  intros Hr. destruct (evals_refresh_slot (content r) r eq_refl) as [-> _]. by rewrite bool_decide_true.
Qed.
Lemma granted_lease m (r : R) :
  grants m -> (m r).2.1 = 1 -> Lease ttl k id req (now_s (content r)) (content (m r).1).
Proof.
  assert (Ht : forall s0 s, now_s s = now_s s0 -> Lease ttl k id req (now_s s0) (touched slot (now_s s0) req ttl s)).
  { intros s0 s <-. apply Lease_touched. }
  destruct 1 as [max| |].
  - destruct (evals_acquire slot (live_of k id) max ttl req _ (slot_not_live k k id id) r eq_refl) as [-> ->].
    destruct (acquired _ _ _ _ _ _); [|done]. intros _. apply Ht. unfold swept, now_s. by rewrite !clock_put_zset.
  - destruct (evals_refresh_slot (content r) r eq_refl) as [-> ->]. case_bool_decide; [|done].
    intros _. apply Ht. unfold now_s. by rewrite clock_put_zset.
  - assert (Hev : evals (content r) (trackSlotScript slot ttl req) (1, now_s (content r))
      (touched slot (now_s (content r)) req ttl (put_zset slot (leases ttl slot (content r)) (content r)))).
    { eapply evals_bind; [apply evals_now|]. eapply evals_bind; [apply evals_evict|].
      eapply evals_bind; [apply evals_touch|apply evals_ret]. }
    destruct (Hev r eq_refl) as [-> ->]. intros _. apply Ht. unfold now_s. by rewrite clock_put_zset.
Qed.
(** A lease is what the cache's other theorems call one. *)
Lemma Lease_leases sc s :
  now_s s < sc + ttl -> Lease ttl k id req sc s -> is_Some (leases ttl slot s !! req).
Proof.
  intros Hn Hl. destruct (Hl Hn) as [(sc' & Hs & Hk) _]. exists sc'.
  unfold leases, since. apply map_lookup_filter_Some. simpl. split; [done|lia].
Qed.
End Granted.
