(* ===== verification/AdmissionProofs.v ===== *)
(** * OAuth admissions are spaced

    The distributed reservations of [ConcurrencyCache.v] seen as a schedule: the
    starts that clients hold reservations for are at least their intervals apart,
    through reservations, cancellations, deferrals, lost replies and the expiry of
    the key. *)

From Stdlib Require Import Sorted.
From S2P Require Import Prelude Json Redis RedisProofs ConcurrencyCache.
Local Open Scope string_scope.
Local Open Scope Z_scope.
Local Open Scope list_scope.
Local Open Scope go_scope.

(** A held reservation: its start and its interval, in milliseconds. *)
Definition reservation : Type := Z * Z.

(** Newest first: each starts no earlier than the end of every older one. *)
Definition spaced : list reservation -> Prop := StronglySorted (fun a b => b.1 + b.2 <= a.1).

Lemma spaced_remove l1 x l2 : spaced (l1 ++ x :: l2) -> spaced (l1 ++ l2).
Proof.
  induction l1 as [|a l1 IH]; simpl; intros Hs; inversion Hs as [|? ? Hs' Hall]; subst; [done|].
  constructor; [by apply IH|].
  apply Forall_app in Hall as [H1 H2]. apply Forall_cons in H2 as [_ H2]. by apply Forall_app.
Qed.
(** What is before a reservation in the list starts after it ends, what is behind
    it ends before it starts. *)
Lemma spaced_around l1 x l2 y : spaced (l1 ++ x :: l2) -> y ∈ l1 ++ l2 ->
  x.1 + x.2 <= y.1 \/ y.1 + y.2 <= x.1.
Proof.
  induction l1 as [|a l1 IH]; simpl; intros Hs Hy; inversion Hs as [|? ? Hs' Hall]; subst.
  - right. by eapply (proj1 (Forall_forall _ _) Hall).
  - apply elem_of_cons in Hy as [->|Hy]; [|by apply IH].
    left. apply (proj1 (Forall_forall _ _) Hall). apply elem_of_app. right. by left.
Qed.

Section Schedule.
Context {R : Type} `{RedisServer R}.
Context (accountID W : Z).
Local Abbreviation key := (openAIOAuthAdmissionKey accountID).

(** *** The scripts, evaluated *)

Definition current (s : Store) : Z := default 0 (strs s !! key).
Definition set_px (v px : Z) (s : Store) : Store :=
  s <| strs := <[key := v]> (strs s) |> <| deadlines := <[key := now_ms s + px]> (deadlines s) |>.

Lemma evals_current s : evals (R := R) s (get_or_zero key) (current s) s.
Proof.
  eapply evals_bind; [apply evals_call|]. simpl. unfold current.
  destruct (strs s !! key); apply evals_ret.
Qed.
Lemma evals_now_ms s : evals (R := R) s script_now_ms (now_ms s) s.
Proof.
  eapply evals_bind; [apply evals_call|]. simpl.
  assert (E : now_s s * 1000 + clock s mod 1000000 / 1000 = now_ms s).
  { unfold now_s, now_ms. pose proof (Z_div_mod_eq_full (clock s) 1000000).
    rewrite H0 at 3. rewrite (Z.mul_comm 1000000), Z.add_comm.
    replace (clock s / 1000000 * 1000000) with (clock s / 1000000 * 1000 * 1000) by lia.
    rewrite Z.add_comm, Z.div_add_l by lia. lia. }
  rewrite E. apply evals_ret.
Qed.
Lemma evals_setpx {A} (a : A) v px s : 0 < px ->
  evals (R := R) s (checked a (call (SETPX key v px))) (Some a) (set_px v px s).
Proof.
  intros Hp. eapply evals_bind; [apply evals_call|]. simpl.
  destruct (px <=? 0) eqn:E; [bool_hyps; lia|]. apply evals_ret.
Qed.

Definition scheduled (nb : Z) (s : Store) : Z := Z.max (Z.max (now_ms s) (current s)) nb.

Lemma evals_reserve i nb mw ttl s : 0 < ttl ->
  evals (R := R) s (reserveOpenAIOAuthAdmissionScript key i nb mw ttl)
    (Some (if now_ms s + mw <? scheduled nb s then 0 else 1, scheduled nb s))
    (if now_ms s + mw <? scheduled nb s then s
     else set_px (scheduled nb s + i) (Z.max ttl (scheduled nb s - now_ms s + ttl)) s).
Proof.
  intros Ht. eapply evals_bind; [apply evals_now_ms|]. eapply evals_bind; [apply evals_current|].
  assert (Hmax : forall a b, (if a <? b then b else a) = Z.max a b)
    by (intros a b; destruct (a <? b) eqn:E; bool_hyps; lia).
  cbv beta zeta. rewrite !Hmax. fold (scheduled nb s). destruct (_ <? scheduled nb s); [apply evals_ret|].
  apply evals_setpx. lia.
Qed.

Lemma evals_cancel t i ttl s : 0 < ttl ->
  exists a, evals (R := R) s (cancelOpenAIOAuthAdmissionScript key t i ttl) a
    (if negb (current s =? t + i) then s
     else if t <=? now_ms s then del_key key s else set_px t ttl s).
Proof.
  intros Ht. eexists. eapply evals_bind; [apply evals_current|].
  instantiate (1 := if negb (current s =? t + i) then Some 0 else Some 1).
  destruct (negb _); [apply evals_ret|].
  eapply evals_bind; [apply evals_now_ms|]. destruct (t <=? now_ms s).
  - eapply evals_bind; [apply evals_call|]. apply evals_ret.
  - by apply evals_setpx.
Qed.

Lemma evals_defer u ttl s : 0 < ttl ->
  exists a, evals (R := R) s (deferOpenAIOAuthAdmissionScript key u ttl) a
    (if current s <? u then set_px u ttl s
     else if 0 <? current s then set_deadline key ttl s else s).
Proof.
  intros Ht. eexists. eapply evals_bind; [apply evals_current|].
  instantiate (1 := Some 1). destruct (_ <? u); [by apply evals_setpx|].
  destruct (0 <? current s); [|apply evals_ret].
  eapply evals_bind; [apply evals_call|apply evals_ret].
Qed.

(** ** The schedule *)

(** Nothing the clients hold ends after the key's value or its deadline. *)
Definition Inv (s : Store) (held : list reservation) : Prop :=
  spaced held /\
  (forall x, x ∈ held -> 0 < x.2 /\ x.1 + x.2 <= now_ms s + W /\
     x.1 + x.2 <= Z.max (now_ms s) (current s)) /\
  (forall v, strs s !! key = Some v -> exists d, deadlines s !! key = Some d /\
     forall x, x ∈ held -> x.1 + x.2 <= d).

(** Steps of the account's clients.  [held] changes when a client learns that it has
    a reservation, and when it gives one up. *)
Inductive schedule_step : R * list reservation -> R * list reservation -> Prop :=
  | step_reserve r held interval notBefore maxWait stateTTL o res :
      Millisecond <= interval ->
      Milliseconds maxWait + Milliseconds interval <= W -> W <= Milliseconds stateTTL ->
      res = run_alone [o]
        (ReserveOpenAIOAuthAdmission accountID interval notBefore maxWait stateTTL) r ->
      schedule_step (r, held)
        (res.1, match res.2 with
                | Some (t, true) => (UnixMilli t, Milliseconds interval) :: held
                | _ => held
                end)
  | step_defer r held until stateTTL o :
      W <= Milliseconds stateTTL ->
      schedule_step (r, held)
        ((run_alone [o] (DeferOpenAIOAuthAdmission accountID until stateTTL) r).1, held)
  | step_cancel r l1 l2 t interval stateTTL o :
      W <= Milliseconds stateTTL ->
      schedule_step (r, l1 ++ (UnixMilli t, Milliseconds interval) :: l2)
        ((run_alone [o] (CancelOpenAIOAuthAdmission accountID t interval stateTTL) r).1, l1 ++ l2)
  | step_other r r' held :
      at_key key (content r') = at_key key (content r) ->
      clock (content r') = clock (content r) ->
      schedule_step (r, held) (r', held)
  | step_time r r' t held :
      clock (content r) <= t -> content r' = advance t (content r) ->
      schedule_step (r, held) (r', held).

Context (W_pos : 0 < W).

Lemma Inv_remove s l1 x l2 : Inv s (l1 ++ x :: l2) -> Inv s (l1 ++ l2).
Proof.
  assert (Hsub : forall y, y ∈ l1 ++ l2 -> y ∈ l1 ++ x :: l2)
    by (intros y; rewrite !elem_of_app, elem_of_cons; tauto).
  intros (Hs & Hh & Hd). split; [by eapply spaced_remove|]. split; [by auto|].
  intros v Hv. destruct (Hd v Hv) as (d & Hd1 & Hd2). exists d. split; [done|]. auto.
Qed.

Lemma Inv_other s s' held :
  at_key key s' = at_key key s -> clock s' = clock s -> Inv s held -> Inv s' held.
Proof.
  unfold at_key, Inv, current, now_ms. by intros [= _ -> ->] ->.
Qed.

(** The value grows: nothing held ends later, if the new deadline covers it. *)
Lemma Inv_set_px s held v px :
  Z.max (now_ms s) (current s) <= Z.max (now_ms s) v -> W <= px ->
  Inv s held -> Inv (set_px v px s) held.
Proof.
  intros Hv Hp (Hs & Hh & Hd).
  assert (Hcur : current (set_px v px s) = v)
    by (unfold current, set_px; simpl; by rewrite lookup_insert_eq).
  split; [done|]. split.
  - intros x Hx. destruct (Hh x Hx) as (H1 & H2 & H3). rewrite Hcur.
    change (now_ms (set_px v px s)) with (now_ms s). lia.
  - intros v' _. exists (now_ms s + px). unfold set_px; simpl. rewrite lookup_insert_eq.
    split; [done|]. intros x Hx. destruct (Hh x Hx) as (? & ? & _). lia.
Qed.

Lemma Inv_reserve s held i nb mw ttl :
  0 < i -> mw + i <= W -> W <= ttl -> Inv s held ->
  let t := scheduled nb s in
  let s' := set_px (t + i) (Z.max ttl (t - now_ms s + ttl)) s in
  t <= now_ms s + mw -> Inv s' ((t, i) :: held).
Proof.
  intros Hi Hmw Httl HI t s' Ht.
  assert (Hnow : now_ms s <= t /\ current s <= t) by (unfold t, scheduled; lia).
  assert (Hs' : Inv s' held) by (apply Inv_set_px; [lia|lia|done]).
  destruct Hs' as (Hs & Hh & Hd). destruct HI as (_ & Hh0 & _).
  assert (Hcur : current s' = t + i)
    by (unfold current, s', set_px; simpl; by rewrite lookup_insert_eq).
  split; [|split].
  - constructor; [done|]. apply Forall_forall. intros x Hx. simpl.
    destruct (Hh0 x Hx) as (_ & _ & ?). lia.
  - intros x Hx. apply elem_of_cons in Hx as [->|Hx]; [|by apply Hh].
    rewrite Hcur. change (now_ms s') with (now_ms s). simpl. lia.
  - intros v Hv. destruct (Hd v Hv) as (d & Hd1 & Hd2). exists d. split; [done|].
    intros x Hx. apply elem_of_cons in Hx as [->|Hx]; [|by apply Hd2].
    unfold s', set_px in Hd1; simpl in Hd1. rewrite lookup_insert_eq in Hd1.
    injection Hd1 as <-. simpl. lia.
Qed.

Lemma Inv_cancel s l1 t i ttl l2 :
  W <= ttl -> Inv s (l1 ++ (t, i) :: l2) ->
  Inv (if negb (current s =? t + i) then s
       else if t <=? now_ms s then del_key key s else set_px t ttl s) (l1 ++ l2).
Proof.
  intros Httl HI. destruct (current s =? t + i) eqn:E; simpl; [|by eapply Inv_remove].
  bool_hyps. pose proof (Inv_remove _ _ _ _ HI) as HI'. destruct HI as (Hs & Hh & Hd).
  destruct HI' as (Hs' & Hh' & Hd').
  assert (Hi : 0 < i) by (apply (Hh (t, i)), elem_of_app; right; by left).
  assert (Hold : forall x, x ∈ l1 ++ l2 -> x.1 + x.2 <= Z.max t (now_ms s)).
  { intros x Hx. destruct (Hh' x Hx) as (Hx1 & _ & Hx3).
    destruct (spaced_around _ _ _ _ Hs Hx) as [Ha|Ha]; simpl in Ha; lia. }
  destruct (t <=? now_ms s) eqn:E2; bool_hyps.
  - split; [done|]. split.
    + intros x Hx. specialize (Hold x Hx). specialize (Hh' x Hx).
      change (now_ms (del_key key s)) with (now_ms s). lia.
    + intros v Hv. unfold del_key in Hv; simpl in Hv. by rewrite lookup_delete_eq in Hv.
  - assert (Hcur : current (set_px t ttl s) = t)
      by (unfold current, set_px; simpl; by rewrite lookup_insert_eq).
    split; [done|]. split.
    + intros x Hx. specialize (Hold x Hx). specialize (Hh' x Hx). rewrite Hcur.
      change (now_ms (set_px t ttl s)) with (now_ms s). lia.
    + intros v _. exists (now_ms s + ttl). unfold set_px; simpl. rewrite lookup_insert_eq.
      split; [done|]. intros x Hx. destruct (Hh' x Hx) as (_ & ? & _). lia.
Qed.

Lemma Inv_defer s held u ttl :
  W <= ttl -> Inv s held ->
  Inv (if current s <? u then set_px u ttl s
       else if 0 <? current s then set_deadline key ttl s else s) held.
Proof.
  intros Httl HI. destruct (_ <? u) eqn:E; bool_hyps; [apply Inv_set_px; [lia|lia|done]|].
  destruct (0 <? _); [|done]. unfold set_deadline. destruct (negb _); [done|].
  destruct (ttl <=? 0) eqn:E2; bool_hyps; [lia|].
  destruct HI as (Hs & Hh & Hd). split; [done|]. split; [done|].
  intros v Hv. exists (now_ms s + ttl). simpl. rewrite lookup_insert_eq. split; [done|].
  intros x Hx. destruct (Hh x Hx) as (_ & ? & _). lia.
Qed.

(** Time passes: the key goes only when its deadline, and so all that is held, has
    passed. *)
Lemma Inv_advance s held t : clock s <= t -> Inv s held -> Inv (advance t s) held.
Proof.
  intros Ht (Hs & Hh & Hd). split; [done|].
  assert (Hnow : now_ms s <= now_ms (advance t s)) by (unfold now_ms; simpl; by apply Z.div_le_mono).
  assert (Hstr : strs (advance t s) !! key = strs s !! key \/
    strs (advance t s) !! key = None /\ forall v, strs s !! key = Some v -> expired s t key).
  { unfold advance; simpl. rewrite map_lookup_filter. destruct (strs s !! key) as [v|] eqn:E;
      simpl; [|by left]. case_guard as Hx; simpl; [by left|]. right. split; [done|].
    by intros _ _. }
  split.
  - intros x Hx. destruct (Hh x Hx) as (H1 & H2 & H3). split; [done|]. split; [lia|].
    unfold current in *. destruct Hstr as [-> | [-> He]]; [lia|]. simpl.
    destruct (strs s !! key) as [v|] eqn:E; simpl in H3; [|lia].
    destruct (Hd v eq_refl) as (d & Hd1 & Hd2). destruct (He v eq_refl) as (d' & Hd' & Hlt).
    rewrite Hd1 in Hd'. injection Hd' as <-. specialize (Hd2 x Hx).
    change (now_ms (advance t s)) with (t / 1000). lia.
  - intros v Hv. unfold advance in Hv; simpl in Hv.
    apply map_lookup_filter_Some in Hv as [Hv Hnx]. destruct (Hd v Hv) as (d & Hd1 & Hd2).
    exists d. split; [|done]. unfold advance; simpl. apply map_lookup_filter_Some. by split.
Qed.

(** A method of one round trip: the server ran its script or did not. *)
Lemma checked_trip {A B} (m : Script R (option A)) (f : A -> B) o r :
  (exists b, run_alone [o] (let? a := g_checked (run_script m) in g_ret (f a)) r = (r, b) /\ b = None) \/
  (exists b, run_alone [o] (let? a := g_checked (run_script m) in g_ret (f a)) r = ((m r).1, b) /\
     (b = None \/ exists a, (m r).2 = Some a /\ b = Some (f a))).
Proof.
  destruct o; cbv [run_alone run_script g_checked g_bind g_ret g_err round_trip];
    destruct (m r) as [r' [a|]]; cbn [fst snd].
  - right. eexists. split; [done|]. right. by exists a.
  - right. eexists. split; [done|]. by left.
  - left. by eexists.
  - left. by eexists.
  - right. eexists. split; [done|]. by left.
  - right. eexists. split; [done|]. by left.
Qed.

Lemma state_ttl_ge ttl : W <= Milliseconds ttl -> state_ttl ttl = ttl.
Proof.
  intros Hw. unfold state_ttl. destruct (ttl <=? 0) eqn:E; [|done]. bool_hyps.
  unfold Milliseconds in Hw. pose proof (Z.quot_le_upper_bound ttl Millisecond 0). unfold Millisecond in *. lia.
Qed.

Lemma reserve_Inv r held interval notBefore maxWait stateTTL o :
  Millisecond <= interval ->
  Milliseconds maxWait + Milliseconds interval <= W -> W <= Milliseconds stateTTL ->
  Inv (content r) held ->
  let res := run_alone [o]
    (ReserveOpenAIOAuthAdmission accountID interval notBefore maxWait stateTTL) r in
  Inv (content res.1) (match res.2 with
                       | Some (t, true) => (UnixMilli t, Milliseconds interval) :: held
                       | _ => held
                       end).
Proof.
  intros Hi Hmw Httl HI. unfold ReserveOpenAIOAuthAdmission. destruct (_ || _); [done|].
  rewrite (state_ttl_ge _ Httl).
  set (i := Milliseconds interval) in *.
  assert (Hi' : 0 < i) by (unfold i, Milliseconds; apply Z.quot_str_pos; unfold Millisecond in *; lia).
  pose proof (checked_trip (reserveOpenAIOAuthAdmissionScript key i (UnixMilli notBefore)
    (Milliseconds maxWait) (Milliseconds stateTTL)) (fun p => (p.2 * Millisecond, p.1 =? 1)) o r)
    as Htrip. cbv beta in Htrip.
  destruct Htrip as [(b & -> & ->)|(b & -> & Hb)]; [done|].
  destruct (evals_reserve i (UnixMilli notBefore) (Milliseconds maxWait) (Milliseconds stateTTL)
    (content r) ltac:(lia) r eq_refl) as [E1 E2].
  cbn [fst snd]. rewrite E2. rewrite E1 in Hb.
  set (t := scheduled (UnixMilli notBefore) (content r)) in *.
  destruct (_ <? t) eqn:Et; bool_hyps.
  - destruct Hb as [-> | (a & [= <-] & ->)]; done.
  - pose proof (Inv_reserve (content r) held i (UnixMilli notBefore) (Milliseconds maxWait)
      (Milliseconds stateTTL) Hi' Hmw Httl HI Et) as HI'. fold t in HI'.
    destruct Hb as [-> | (a & [= <-] & ->)]; simpl.
    + by apply (Inv_remove _ [] (t, i) held).
    + unfold UnixMilli. by rewrite Z.div_mul.
Qed.

Lemma schedule_step_Inv x y :
  schedule_step x y -> Inv (content x.1) x.2 -> Inv (content y.1) y.2.
Proof.
  intros Hstep HI. destruct Hstep as
    [r held i nb mw ttl o res Hi Hmw Httl ->|r held u ttl o Httl|r l1 l2 t i ttl o Httl
    |r r' held Ha Hc|r r' t held Hc Ha]; cbn [fst snd] in *.
  - by apply reserve_Inv.
  - unfold DeferOpenAIOAuthAdmission. destruct (_ || _); [done|]. rewrite (state_ttl_ge _ Httl).
    pose proof (checked_trip (deferOpenAIOAuthAdmissionScript key (UnixMilli u) (Milliseconds ttl))
      (fun _ => tt) o r) as Htrip. cbv beta in Htrip.
    destruct Htrip as [(b & -> & _)|(b & -> & _)]; [done|].
    destruct (evals_defer (UnixMilli u) (Milliseconds ttl) (content r) ltac:(lia)) as [a He].
    destruct (He r eq_refl) as [_ E]. cbn [fst]. rewrite E. by apply Inv_defer.
  - unfold CancelOpenAIOAuthAdmission. destruct (_ || _); [by eapply Inv_remove|].
    rewrite (state_ttl_ge _ Httl).
    pose proof (checked_trip (cancelOpenAIOAuthAdmissionScript key (UnixMilli t) (Milliseconds i)
      (Milliseconds ttl)) (fun _ => tt) o r) as Htrip. cbv beta in Htrip.
    destruct Htrip as [(b & -> & _)|(b & -> & _)]; [by eapply Inv_remove|].
    destruct (evals_cancel (UnixMilli t) (Milliseconds i) (Milliseconds ttl) (content r) ltac:(lia))
      as [a He].
    destruct (He r eq_refl) as [_ E]. cbn [fst]. rewrite E. by apply Inv_cancel.
  - by apply (Inv_other _ _ _ Ha Hc).
  - rewrite Ha. by apply Inv_advance.
Qed.
End Schedule.

(** C16. The starts that clients hold reservations for are spaced: each is no earlier
    than the end of the interval of every one reserved before it that was not given
    up, whatever the order of reservations, cancellations and deferrals, whether or
    not their replies arrive, and although the key expires; provided that intervals
    are whole milliseconds at least and the state lives at least as long as the
    longest wait plus the interval. *)
Theorem admissions_spaced {R : Type} `{RedisServer R} (accountID W : Z) r r' held' :
  0 < W ->
  strs (content r) !! openAIOAuthAdmissionKey accountID = None ->
  rtc (schedule_step accountID W) (r, []) (r', held') -> spaced held'.
Proof.
  intros HW Hnone Hs.
  assert (Hall : forall x y, rtc (schedule_step accountID W) x y ->
    Inv accountID W (content x.1) x.2 -> Inv accountID W (content y.1) y.2).
  { induction 1 as [|x y z Hxy _ IH]; [done|]. intros Hx. by apply IH, (schedule_step_Inv _ _ HW _ _ Hxy). }
  apply (Hall _ _ Hs). simpl. split; [constructor|]. split; [by intros x ?%elem_of_nil|].
  intros v Hv. congruence.
Qed.

(** Two requests of an account at the same instant, with the intervals and limits of
    [defaultOpenAIOAuthAdmissionPolicy]: the second starts 250 ms later. *)
Definition witness_reserve : Go Store (Z * bool) :=
  ReserveOpenAIOAuthAdmission 7 (250 * Millisecond) zero_time (2000 * Millisecond) (10 * Minute).
Definition witness_store : Store := MkStore ∅ ∅ ∅ 5000000.
Lemma admissions_spaced_witness :
  exists s held, rtc (schedule_step 7 2250) (witness_store, []) (s, held) /\
    held = [(5250, 250); (5000, 250)] /\ spaced held.
Proof.
  pose (x1 := run_alone [Answered] witness_reserve witness_store).
  pose (x2 := run_alone [Answered] witness_reserve x1.1).
  assert (Hs : rtc (schedule_step 7 2250) (witness_store, []) (x2.1, [(5250, 250); (5000, 250)])).
  { eapply rtc_l; [by apply (step_reserve 7 2250 witness_store [] (250 * Millisecond) zero_time
      (2000 * Millisecond) (10 * Minute) Answered x1)|].
    eapply rtc_l; [by apply (step_reserve 7 2250 x1.1 [(5000, 250)] (250 * Millisecond) zero_time
      (2000 * Millisecond) (10 * Minute) Answered x2)|].
    apply rtc_refl. }
  exists x2.1, [(5250, 250); (5000, 250)]. split; [exact Hs|]. split; [done|].
  by apply (admissions_spaced 7 2250 witness_store x2.1).
Defined.
