(* ===== verification/GatewayCache.v ===== *)
(** * The gateway's Redis cache

    [src/backend/internal/repository/gateway_cache.go]: sticky session bindings and
    their compare-and-swap scripts, the slow-response streak of an account, the claim
    that a Grok video was billed, and the blocks of cyber sessions.  The values with
    text payloads (session windows, reasoning content, pending video billing, live
    calls) are not modelled.  What the WebSocket state store needs of it is the class
    [SessionCache].  Durations are nanoseconds. *)

From S2P Require Import Prelude Json Redis ConcurrencyCache.
Local Open Scope string_scope.
Local Open Scope Z_scope.
Local Open Scope list_scope.
Local Open Scope go_scope.

Definition stickySessionPrefix : string := "sticky_session:".
Definition openAIOAuthTTFTStreakPrefix : string := "openai_oauth_ttft_streak:account:".
Definition grokVideoBilledPrefix : string := "grok_video_billed:".
Definition cyberSessionBlockPrefix : string := "cyber_session_block:".
Definition cyberSessionScopePrefix : string := "cyber_session_scope:".
Definition cyberSessionRedisCommandMaxKeys : nat := 128.

Definition Second : Z := 1000 * Millisecond.
(** What [buildSessionKey] and the like print after their prefix: "%d:%s". *)
Definition group_key (groupID : Z) (name : string) : string := FormatInt groupID +:+ ":" +:+ name.
Definition buildSessionKey (groupID : Z) (sessionHash : string) : string :=
  stickySessionPrefix +:+ group_key groupID sessionHash.
Definition openAIOAuthTTFTStreakKey (accountID : Z) : string :=
  openAIOAuthTTFTStreakPrefix +:+ FormatInt accountID.

(** The client library's units: a positive duration below the unit counts as one. *)
Definition formatMs (d : Z) : Z := if (0 <? d) && (d <? Millisecond) then 1 else Z.quot d Millisecond.
Definition formatSec (d : Z) : Z := if (0 <? d) && (d <? Second) then 1 else Z.quot d Second.

Section Scripts.
Context {R : Type} `{RedisServer R}.
Local Abbreviation Script := (Script R).
Local Abbreviation Go := (Go R).

(** [rdb.Set(key, value, ttl)]: without a deadline unless [ttl] is positive.  (The client
    library reads the duration -1 as "keep the deadline"; no caller passes it.) *)
Definition set_ttl (key : string) (value ttl : Z) : Script reply :=
  call (if 0 <? ttl then SETPX key value (formatMs ttl) else SET key value).

(** A script's integer reply; [None] is the script's error. *)
Definition checked (a : reply) (z : Z) : option Z := match a with RErr => None | _ => Some z end.

Definition openAIOAuthTTFTStreakIncrScript (key : string) (seconds : Z) : Script Z :=
  let$ count := call (INCR key) in
  (if 0 <? seconds then call (EXPIRE key seconds) else call (PERSIST key)) ;$
  s_ret (reply_int count).

Definition claimSessionAccountScript (key : string) (accountID ms : Z) : Script (option Z) :=
  let$ current := call (GET key) in
  match current with
  | RInt owner =>
      if owner =? accountID then call (PEXPIRE key ms) ;$ s_ret (Some 1) else s_ret (Some 0)
  | _ => let$ a := call (SETPX key accountID ms) in s_ret (checked a 1)
  end.

Definition compareAndSetSessionAccountScript (key : string) (expected accountID ms : Z) :
    Script (option Z) :=
  let$ current := call (GET key) in
  if match current with RInt owner => negb (owner =? expected) && negb (owner =? accountID) | _ => false end
  then s_ret (Some 0)
  else let$ a := call (SETPX key accountID ms) in s_ret (checked a 1).

Definition compareAndDeleteSessionAccountScript (key : string) (expected : Z) : Script (option Z) :=
  let$ current := call (GET key) in
  if match current with RInt owner => owner =? expected | _ => false end
  then call (DEL key) ;$ s_ret (Some 1)
  else s_ret (Some 0).

(** [result == 1, err] *)
Definition is_one (m : Script (option Z)) : Go bool :=
  let? n := run_script m in
  match n with Some n => g_ret (n =? 1) | None => g_err end.

(** ** Methods *)

Definition IncrementOpenAIOAuthTTFTStreak (accountID ttl : Z) : Go Z :=
  if accountID <=? 0 then g_err
  else
    let seconds := Z.quot ttl Second in
    let seconds := if (0 <? ttl) && (seconds <? 1) then 1 else seconds in
    run_script (openAIOAuthTTFTStreakIncrScript (openAIOAuthTTFTStreakKey accountID) seconds).
Definition ResetOpenAIOAuthTTFTStreak (accountID : Z) : Go () :=
  if accountID <=? 0 then g_err
  else run_script (call (DEL (openAIOAuthTTFTStreakKey accountID))) ;? g_ret tt.

(** The value [None] is ErrStickySessionNotFound. *)
Definition GetSessionAccountID (groupID : Z) (sessionHash : string) : Go (option Z) :=
  let? a := run_script (call (GET (buildSessionKey groupID sessionHash))) in
  match a with RInt v => g_ret (Some v) | RNil => g_ret None | _ => g_err end.
Definition SetSessionAccountID (groupID : Z) (sessionHash : string) (accountID ttl : Z) : Go () :=
  run_script (set_ttl (buildSessionKey groupID sessionHash) accountID ttl) ;? g_ret tt.
Definition ClaimSessionAccountID (groupID : Z) (sessionHash : string) (accountID ttl : Z) : Go bool :=
  if (accountID <=? 0) || (TrimSpace sessionHash =?s "") || (ttl <=? 0) then g_err
  else is_one (claimSessionAccountScript (buildSessionKey groupID sessionHash) accountID (Milliseconds ttl)).
Definition CompareAndSetSessionAccountID (groupID : Z) (sessionHash : string)
    (expectedAccountID accountID ttl : Z) : Go bool :=
  if (expectedAccountID <? 0) || (accountID <=? 0) || (TrimSpace sessionHash =?s "") || (ttl <=? 0)
  then g_err
  else is_one (compareAndSetSessionAccountScript (buildSessionKey groupID sessionHash)
                 expectedAccountID accountID (Milliseconds ttl)).
Definition CompareAndDeleteSessionAccountID (groupID : Z) (sessionHash : string)
    (expectedAccountID : Z) : Go bool :=
  if (expectedAccountID <=? 0) || (TrimSpace sessionHash =?s "") then g_err
  else is_one (compareAndDeleteSessionAccountScript (buildSessionKey groupID sessionHash) expectedAccountID).
Definition RefreshSessionTTL (groupID : Z) (sessionHash : string) (ttl : Z) : Go () :=
  run_script (call (EXPIRE (buildSessionKey groupID sessionHash) (formatSec ttl))) ;? g_ret tt.
Definition DeleteSessionAccountID (groupID : Z) (sessionHash : string) : Go () :=
  run_script (call (DEL (buildSessionKey groupID sessionHash))) ;? g_ret tt.

Definition ClaimGrokVideoBilled (key : string) (ttl : Z) : Go bool :=
  let key := TrimSpace key in
  if key =?s "" then g_err
  else
    let ttl := if ttl <=? 0 then 48 * 60 * Minute else ttl in
    let? a := run_script (call (SETNXPX (grokVideoBilledPrefix +:+ key) 1 (formatMs ttl))) in
    match a with RErr => g_err | a => g_ret (reply_int a =? 1) end.
Definition ReleaseGrokVideoBilled (key : string) : Go () :=
  let key := TrimSpace key in
  if key =?s "" then g_err
  else run_script (call (DEL (grokVideoBilledPrefix +:+ key))) ;? g_ret tt.

(** *** Cyber sessions *)

(** One transaction. *)
Fixpoint set_blocks (keys : list string) (ttl : Z) : Script () :=
  match keys with
  | [] => s_ret tt
  | k :: ks => set_ttl (cyberSessionBlockPrefix +:+ k) 1 ttl ;$ set_blocks ks ttl
  end.
Definition flush_blocks (exactKeys : list string) (ttl : Z) : Go () :=
  match exactKeys with [] => g_ret tt | _ => run_script (set_blocks exactKeys ttl) end.
Fixpoint block_keys (keys exactKeys : list string) (ttl : Z) : Go () :=
  match keys with
  | [] => flush_blocks exactKeys ttl
  | k :: ks =>
      if k =?s "" then block_keys ks exactKeys ttl
      else
        let exactKeys := exactKeys ++ [k] in
        if Nat.eqb (length exactKeys) cyberSessionRedisCommandMaxKeys
        then flush_blocks exactKeys ttl ;? block_keys ks [] ttl
        else block_keys ks exactKeys ttl
  end.
Definition SetCyberSessionBlocked (scopeKey : string) (keys : list string) (ttl : Z) : Go () :=
  match keys with
  | [] => g_ret tt
  | _ =>
      block_keys keys [] ttl ;?
      if scopeKey =?s "" then g_ret tt
      else run_script (set_ttl (cyberSessionScopePrefix +:+ scopeKey) 1 ttl) ;? g_ret tt
  end.

Definition IsCyberSessionScopeActive (scopeKey : string) : Go bool :=
  let? n := run_script (call (EXISTS (cyberSessionScopePrefix +:+ scopeKey))) in
  g_ret (0 <? reply_int n).

(** [MGET] *)
Fixpoint get_all (keys : list string) : Script (list reply) :=
  match keys with
  | [] => s_ret []
  | k :: ks => let$ a := call (GET k) in let$ l := get_all ks in s_ret (a :: l)
  end.
Fixpoint first_blocked (keys : list string) (values : list reply) : option string :=
  match keys, values with
  | k :: ks, v :: vs => match v with RNil => first_blocked ks vs | _ => Some k end
  | _, _ => None
  end.
(** Each round drops a batch: the number of keys is enough fuel. *)
Fixpoint find_blocked (fuel : nat) (keys : list string) : Go string :=
  match fuel, keys with
  | S fuel, _ :: _ =>
      let batch := take cyberSessionRedisCommandMaxKeys keys in
      let? values := run_script (get_all (map (fun k => cyberSessionBlockPrefix +:+ k) batch)) in
      match first_blocked batch values with
      | Some k => g_ret k
      | None => find_blocked fuel (drop cyberSessionRedisCommandMaxKeys keys)
      end
  | _, _ => g_ret ""
  end.
Definition FindCyberSessionBlocked (keys : list string) : Go string := find_blocked (length keys) keys.
End Scripts.

(** ** Clients of the session bindings *)

Inductive session_op :=
  | SClaim (groupID : Z) (sessionHash : string) (accountID ttl : Z)
  | SCompareAndSet (groupID : Z) (sessionHash : string) (expected accountID ttl : Z)
  | SCompareAndDelete (groupID : Z) (sessionHash : string) (expected : Z)
  | SSet (groupID : Z) (sessionHash : string) (accountID ttl : Z)
  | SDelete (groupID : Z) (sessionHash : string)
  | SRefresh (groupID : Z) (sessionHash : string) (ttl : Z)
  | SGet (groupID : Z) (sessionHash : string)
  | SStreak (accountID ttl : Z)
  | SResetStreak (accountID : Z)
  | SClaimVideo (key : string) (ttl : Z)
  | SReleaseVideo (key : string)
  | SBlock (scopeKey : string) (keys : list string) (ttl : Z)
  | SScope (scopeKey : string)
  | SFind (keys : list string).

Section Clients.
Context {R : Type} `{RedisServer R}.

Definition session_method (o : session_op) : client (R := R) :=
  match o with
  | SClaim g h a ttl => Client (ClaimSessionAccountID g h a ttl)
  | SCompareAndSet g h e a ttl => Client (CompareAndSetSessionAccountID g h e a ttl)
  | SCompareAndDelete g h e => Client (CompareAndDeleteSessionAccountID g h e)
  | SSet g h a ttl => Client (SetSessionAccountID g h a ttl)
  | SDelete g h => Client (DeleteSessionAccountID g h)
  | SRefresh g h ttl => Client (RefreshSessionTTL g h ttl)
  | SGet g h => Client (GetSessionAccountID g h)
  | SStreak a ttl => Client (IncrementOpenAIOAuthTTFTStreak a ttl)
  | SResetStreak a => Client (ResetOpenAIOAuthTTFTStreak a)
  | SClaimVideo k ttl => Client (ClaimGrokVideoBilled k ttl)
  | SReleaseVideo k => Client (ReleaseGrokVideoBilled k)
  | SBlock s ks ttl => Client (SetCyberSessionBlocked s ks ttl)
  | SScope s => Client (IsCyberSessionScopeActive s)
  | SFind ks => Client (FindCyberSessionBlocked ks)
  end.

(** Any number of clients in the middle of a method each, as in [ConcurrencyCache]; time
    passes up to instants that [alive] allows. *)
Inductive session_step (ok : session_op -> Prop) (alive : Store -> Z -> Prop) :
    R * list (client (R := R)) -> R * list (client (R := R)) -> Prop :=
  | session_start r cs o :
      ok o -> session_step ok alive (r, cs) (r, session_method o :: cs)
  | session_trip r cs i A B (m : Script R B) (k : option B -> Go R A) out :
      cs !! i = Some (Client (RoundTrip m k)) ->
      session_step ok alive (r, cs)
        ((round_trip out m r).1, <[i := Client (k (round_trip out m r).2)]> cs)
  | session_time r r' t cs :
      clock (content r) <= t -> alive (content r) t -> content r' = advance t (content r) ->
      session_step ok alive (r, cs) (r', cs).
End Clients.

(** ** What the cache promises to its users

    A call that reports success did what it says; one that reports an error may have
    done it.  [bound c g h] is what is bound to a session hash and not expired. *)
Class SessionCache (C : Type) := {
  bound : C -> Z -> string -> option Z;
  cache_set : Z -> string -> Z -> Z -> C -> C * bool;
  cache_get : Z -> string -> C -> C * option (option Z);
  cache_delete : Z -> string -> C -> C * bool;
  cache_set_spec : forall g h a ttl c,
    ((cache_set g h a ttl c).2 = true -> bound (cache_set g h a ttl c).1 g h = Some a) /\
    (bound (cache_set g h a ttl c).1 g h = Some a \/ bound (cache_set g h a ttl c).1 g h = bound c g h) /\
    (forall g' h', (g', h') <> (g, h) -> bound (cache_set g h a ttl c).1 g' h' = bound c g' h');
  cache_get_spec : forall g h c,
    bound (cache_get g h c).1 = bound c /\
    ((cache_get g h c).2 = None \/ (cache_get g h c).2 = Some (bound c g h));
  cache_delete_spec : forall g h c,
    ((cache_delete g h c).2 = true -> bound (cache_delete g h c).1 g h = None) /\
    (bound (cache_delete g h c).1 g h = None \/ bound (cache_delete g h c).1 g h = bound c g h) /\
    (forall g' h', (g', h') <> (g, h) -> bound (cache_delete g h c).1 g' h' = bound c g' h');
}.

(** The Redis cache as its caller sees it: the server, and how the coming round trips
    will end. *)
Definition CacheClient (R : Type) : Type := R * list Outcome.
Definition use_cache {R A} (p : Go R A) (c : CacheClient R) : CacheClient R * option A :=
  let '(r, o) := run_alone c.2 p c.1 in ((r, tail c.2), o).
Definition reports {C A} (x : C * option A) : C * bool :=
  (x.1, if x.2 is Some _ then true else false).
