(* ===== verification/GatewayCacheProofs.v ===== *)
(** * Sticky bindings keep their owner, and blocks are found

    A binding survives every interleaving of clients that do not name its owner; the
    Redis cache discharges [SessionCache]; the batched block lists behave as one. *)

From S2P Require Import Prelude Json Redis RedisProofs ConcurrencyCache GatewayCache.
Local Open Scope string_scope.
Local Open Scope Z_scope.
Local Open Scope list_scope.
Local Open Scope go_scope.

(** ** Keys *)

Fixpoint has_colon (s : string) : bool :=
  match s with EmptyString => false | String c s => is_c 58 c || has_colon s end.
Lemma FormatInt_no_colon z : has_colon (FormatInt z) = false.
Proof.
  assert (Hu : forall u, has_colon (DecimalString.NilEmpty.string_of_uint u) = false)
    by (induction u; simpl; auto).
  assert (Hz : forall u, has_colon (DecimalString.NilZero.string_of_uint u) = false)
    by (intros [| | | | | | | | | |]; try done; apply Hu).
  unfold FormatInt. destruct (Z.to_int z); simpl; apply Hz.
Qed.
Lemma colon_split a b x y :
  has_colon a = false -> has_colon b = false -> a +:+ ":" +:+ x = b +:+ ":" +:+ y -> a = b /\ x = y.
Proof.
  revert b. induction a as [|c a IH]; intros [|d b] Ha Hb H; simpl in *.
  - injection H as H. done.
  - injection H as Hd H. subst d. by rewrite orb_true_l in Hb.
  - injection H as Hc H. subst c. by rewrite orb_true_l in Ha.
  - injection H as -> H. apply orb_false_iff in Ha as [_ Ha], Hb as [_ Hb].
    destruct (IH b Ha Hb H) as [-> ->]. done.
Qed.
Lemma group_key_inj g h g' h' : group_key g h = group_key g' h' -> g = g' /\ h = h'.
Proof.
  unfold group_key. intros H. apply colon_split in H as [H ->]; [|apply FormatInt_no_colon..].
  apply FormatInt_inj in H. done.
Qed.
Lemma session_key_inj g h g' h' : buildSessionKey g h = buildSessionKey g' h' -> g = g' /\ h = h'.
Proof. unfold buildSessionKey. intros H%str_app_inv_head. by apply group_key_inj. Qed.
(** Keys with different prefixes differ. *)
Lemma prefix_differ k q b : HasPrefix k q = false -> k <> q +:+ b.
Proof.
  intros Hp E. assert (H : HasPrefix (q +:+ b) q = true) by (apply HasPrefix_spec; by exists b).
  by rewrite <- E, Hp in H.
Qed.

Section Owner.
Context {R : Type} `{RedisServer R}.
Context (g : Z) (h : string) (A : Z).
Let K := buildSessionKey g h.

Definition owned (s : Store) : Prop := strs s !! K = Some A.

Lemma strs_same s s' : at_key K s' = at_key K s -> strs s' !! K = strs s !! K.
Proof. unfold at_key. by intros [= _ -> _]. Qed.
Lemma keeps_other c : writes c <> Some K -> keeps (R := R) owned (call c).
Proof.
  intros Hc. apply keeps_call. unfold owned. intros s Hs.
  by rewrite (strs_same s) by (by apply exec_frame).
Qed.
Lemma keeps_on k c : writes c = Some k -> k <> K -> keeps (R := R) owned (call c).
Proof. intros Hc Hk. apply keeps_other. congruence. Qed.
Lemma keeps_set_ttl k v ttl : k <> K -> keeps (R := R) owned (set_ttl k v ttl).
Proof. intros Hk. unfold set_ttl. apply keeps_on with k; [by destruct (0 <? ttl)|done]. Qed.
Lemma owned_deadline s ms : 0 < ms -> owned s -> owned (set_deadline K ms s).
Proof.
  intros Hms Hs. unfold set_deadline, owned. destruct (negb _); [done|].
  by replace (ms <=? 0) with false by lia.
Qed.

(** Which calls of clients leave the owner alone: those on other keys, claims (the
    owner's own with a whole millisecond at least), and exchanges and deletions that
    expect somebody else. *)
Definition spares_owner (o : session_op) : Prop :=
  match o with
  | SClaim g' h' a ttl => (g', h') = (g, h) -> a = A -> Millisecond <= ttl
  | SCompareAndSet g' h' e a ttl => (g', h') = (g, h) -> e <> A
  | SCompareAndDelete g' h' e => (g', h') = (g, h) -> e <> A
  | SSet g' h' _ _ | SDelete g' h' => (g', h') <> (g, h)
  | SRefresh g' h' ttl => (g', h') = (g, h) -> 0 < ttl
  | SGet _ _ | SStreak _ _ | SResetStreak _ | SClaimVideo _ _ | SReleaseVideo _
  | SBlock _ _ _ | SScope _ | SFind _ => True
  end.

Lemma key_eq_dec g' h' : buildSessionKey g' h' = K \/ buildSessionKey g' h' <> K.
Proof. destruct (decide (buildSessionKey g' h' = K)); auto. Qed.

Lemma keeps_claim g' h' a ttl :
  spares_owner (SClaim g' h' a ttl) -> 0 < ttl ->
  keeps (R := R) owned (claimSessionAccountScript (buildSessionKey g' h') a (Milliseconds ttl)).
Proof.
  intros Hok Httl. unfold claimSessionAccountScript. destruct (key_eq_dec g' h') as [E|E].
  - destruct (session_key_inj _ _ _ _ E) as [-> ->]. fold K. simpl in Hok.
    apply triple_bind with (fun v s => v = RInt A /\ owned s).
    { apply triple_call. unfold owned. intros s Hs. simpl. by rewrite Hs. }
    intros v r [-> Hr]. destruct (A =? a) eqn:EA.
    + bool_hyps. subst a. refine (keeps_bind owned _ _ _ (fun _ => keeps_ret owned (Some 1)) r Hr).
      apply keeps_call. intros s Hs. simpl. apply owned_deadline; [|done].
      specialize (Hok eq_refl eq_refl). unfold Milliseconds.
      pose proof (Z.quot_le_mono Millisecond ttl Millisecond ltac:(unfold Millisecond; lia) Hok) as Hq.
      rewrite Z.quot_same in Hq by (unfold Millisecond; lia). lia.
    + exact (keeps_ret owned (Some 0) r Hr).
  - apply (keeps_bind owned); [by apply keeps_other|]. intros v. destruct v; try (by apply keeps_ret);
      try (apply (keeps_bind owned); [apply keeps_other; simpl; congruence|intros ?; apply keeps_ret]).
    destruct (z =? a); [|apply keeps_ret].
    apply (keeps_bind owned); [apply keeps_other; simpl; congruence|intros ?; apply keeps_ret].
Qed.
Lemma keeps_cas g' h' e a ms :
  ((g', h') = (g, h) -> e <> A) ->
  keeps (R := R) owned (compareAndSetSessionAccountScript (buildSessionKey g' h') e a ms).
Proof.
  intros Hok. unfold compareAndSetSessionAccountScript. destruct (key_eq_dec g' h') as [E|E].
  - destruct (session_key_inj _ _ _ _ E) as [-> ->]. fold K. specialize (Hok eq_refl).
    apply triple_bind with (fun v s => v = RInt A /\ owned s).
    { apply triple_call. unfold owned. intros s Hs. simpl. by rewrite Hs. }
    intros v r [-> Hr]. replace (A =? e) with false by lia. simpl.
    destruct (A =? a) eqn:EA; simpl; [|exact (keeps_ret owned (Some 0) r Hr)].
    bool_hyps. subst a. refine (keeps_bind owned _ _ _ (fun a => keeps_ret owned (checked a 1)) r Hr).
    apply keeps_call. intros s Hs. simpl. destruct (ms <=? 0); [done|]. unfold owned; simpl.
    by rewrite lookup_insert_eq.
  - apply (keeps_bind owned); [by apply keeps_other|]. intros v.
    destruct (match v with RInt _ => _ | _ => _ end); [apply keeps_ret|].
    apply (keeps_bind owned); [apply keeps_other; simpl; congruence|intros ?; apply keeps_ret].
Qed.
Lemma keeps_cad g' h' e :
  ((g', h') = (g, h) -> e <> A) ->
  keeps (R := R) owned (compareAndDeleteSessionAccountScript (buildSessionKey g' h') e).
Proof.
  intros Hok. unfold compareAndDeleteSessionAccountScript. destruct (key_eq_dec g' h') as [E|E].
  - destruct (session_key_inj _ _ _ _ E) as [-> ->]. fold K. specialize (Hok eq_refl).
    apply triple_bind with (fun v s => v = RInt A /\ owned s).
    { apply triple_call. unfold owned. intros s Hs. simpl. by rewrite Hs. }
    intros v r [-> Hr]. replace (A =? e) with false by lia. exact (keeps_ret owned (Some 0) r Hr).
  - apply (keeps_bind owned); [by apply keeps_other|]. intros v.
    destruct (match v with RInt _ => _ | _ => _ end); [|apply keeps_ret].
    apply (keeps_bind owned); [apply keeps_other; simpl; congruence|intros ?; apply keeps_ret].
Qed.
Lemma safe_is_one m : keeps (R := R) owned m -> safe owned (is_one m).
Proof.
  intros Hm. unfold is_one. apply safe_bind; [by apply safe_script|]. by intros [n|].
Qed.

Lemma not_session k : HasPrefix k stickySessionPrefix = false -> k <> K.
Proof. intros Hp. by apply prefix_differ. Qed.

Lemma safe_flush ks ttl : safe (R := R) owned (flush_blocks ks ttl).
Proof.
  assert (Hk : keeps (R := R) owned (set_blocks ks ttl)).
  { induction ks as [|k ks IH]; simpl; [apply keeps_ret|]. apply keeps_bind; [|done].
    by apply keeps_set_ttl, not_session. }
  destruct ks; [done|by apply safe_script].
Qed.
Lemma safe_block_keys ks ex ttl : safe (R := R) owned (block_keys ks ex ttl).
Proof.
  revert ex. induction ks as [|k ks IH]; intros ex; simpl; [apply safe_flush|].
  destruct (k =?s ""); [done|]. destruct (Nat.eqb _ _); [|done].
  apply safe_bind; [apply safe_flush|done].
Qed.
Lemma keeps_get_all ks : keeps (R := R) owned (get_all ks).
Proof.
  induction ks as [|k ks IH]; simpl; [apply keeps_ret|].
  apply keeps_bind; [by apply keeps_other|]. intros a. apply keeps_bind; [done|]. intros l. apply keeps_ret.
Qed.
Lemma safe_find fuel ks : safe (R := R) owned (find_blocked fuel ks).
Proof.
  revert ks. induction fuel as [|fuel IH]; intros [|k ks]; try done. cbn [find_blocked]. cbv zeta.
  apply safe_bind; [apply safe_script, keeps_get_all|]. intros v. by destruct (first_blocked _ v).
Qed.

Lemma session_method_safe o :
  spares_owner o -> match session_method o with Client p => safe (R := R) owned p end.
Proof.
  intros Hok. destruct o; simpl in *.
  - unfold ClaimSessionAccountID. destruct (_ || _) eqn:E; [done|]. bool_hyps.
    apply safe_is_one, keeps_claim; [done|lia].
  - unfold CompareAndSetSessionAccountID. destruct (_ || _); [done|]. by apply safe_is_one, keeps_cas.
  - unfold CompareAndDeleteSessionAccountID. destruct (_ || _); [done|]. by apply safe_is_one, keeps_cad.
  - apply safe_bind; [|done]. apply safe_script, keeps_set_ttl. by intros [-> ->]%session_key_inj.
  - apply safe_bind; [|done]. apply safe_script. eapply keeps_on; [reflexivity|].
    by intros [-> ->]%session_key_inj.
  - apply safe_bind; [|done]. apply safe_script. destruct (key_eq_dec groupID sessionHash) as [E|E].
    + rewrite E. destruct (session_key_inj _ _ _ _ E) as [-> ->]. specialize (Hok eq_refl).
      apply keeps_call. intros s Hs. simpl. apply owned_deadline; [|done].
      unfold formatSec. destruct ((0 <? ttl) && (ttl <? Second)) eqn:Es; [lia|].
      assert (Hge : Second <= ttl) by (apply andb_false_iff in Es as [Es|Es]; bool_hyps; lia).
      pose proof (Z.quot_le_mono Second ttl Second ltac:(unfold Second, Millisecond; lia) Hge) as Hq.
      rewrite Z.quot_same in Hq by (unfold Second, Millisecond; lia). lia.
    + apply keeps_other. simpl. congruence.
  - apply safe_bind; [by apply safe_script, keeps_other|]. by intros [].
  - unfold IncrementOpenAIOAuthTTFTStreak. destruct (_ <=? 0); [done|]. apply safe_script.
    assert (Hn : openAIOAuthTTFTStreakKey accountID <> K) by (by apply not_session).
    apply keeps_bind; [by eapply keeps_on|]. intros v.
    apply keeps_bind; [|intros ?; apply keeps_ret].
    destruct (0 <? _); by eapply keeps_on.
  - unfold ResetOpenAIOAuthTTFTStreak. destruct (_ <=? 0); [done|]. apply safe_bind; [|done].
    apply safe_script. eapply keeps_on; [reflexivity|by apply not_session].
  - unfold ClaimGrokVideoBilled. destruct (_ =?s ""); [done|]. apply safe_bind; [|by intros []].
    apply safe_script. eapply keeps_on; [reflexivity|by apply not_session].
  - unfold ReleaseGrokVideoBilled. destruct (_ =?s ""); [done|]. apply safe_bind; [|done].
    apply safe_script. eapply keeps_on; [reflexivity|by apply not_session].
  - unfold SetCyberSessionBlocked. destruct keys as [|k ks]; [done|].
    apply safe_bind; [apply safe_block_keys|]. intros _. destruct (scopeKey =?s ""); [done|].
    apply safe_bind; [|done]. by apply safe_script, keeps_set_ttl, not_session.
  - apply safe_bind; [by apply safe_script, keeps_other|done].
  - apply safe_find.
Qed.

Definition client_keeps (c : client (R := R)) : Prop := match c with Client p => safe owned p end.

Lemma session_step_owned x y :
  session_step spares_owner (fun s t => ~ expired s t K) x y ->
  owned (content x.1) /\ Forall client_keeps x.2 -> owned (content y.1) /\ Forall client_keeps y.2.
Proof.
  intros Hs [Ho Hc]. destruct Hs as [r cs o Hok|r cs i B C m k out Hi|r r' t cs Ht Hal Hr]; simpl in *.
  - split; [done|]. constructor; [|done]. pose proof (session_method_safe o Hok) as Hsafe.
    unfold client_keeps. by destruct (session_method o).
  - rewrite Forall_lookup in Hc. pose proof (Hc i _ Hi) as [Hm Hk]. split; [by apply keeps_round_trip|].
    apply Forall_insert; [by apply Forall_lookup|]. apply Hk.
  - split; [|done]. rewrite Hr. unfold owned, advance; simpl. apply map_lookup_filter_Some. done.
Qed.
End Owner.

(** C31.  A sticky binding belongs to its owner: while it does not expire, no
    interleaving of any clients' calls takes it from the account — claims of other
    accounts, exchanges and deletions that expect another account (late requests), and
    everything on other keys leave it — and a further claim of another account is
    answered false without changing anything. *)
Theorem sticky_owner_kept {R : Type} `{RedisServer R} g h A r r' cs' B ttl :
  strs (content r) !! buildSessionKey g h = Some A ->
  rtc (session_step (spares_owner g h A) (fun s t => ~ expired s t (buildSessionKey g h))) (r, []) (r', cs') ->
  0 < B -> B <> A -> 0 < ttl -> TrimSpace h <> "" ->
  strs (content r') !! buildSessionKey g h = Some A /\
  let '(r'', answer) := run_alone [] (ClaimSessionAccountID g h B ttl) r' in
  answer = Some false /\ content r'' = content r'.
Proof.
  intros Ho Hs HB HBA Httl Hh.
  assert (Hall : forall x y, rtc (session_step (spares_owner g h A) (fun s t => ~ expired s t (buildSessionKey g h))) x y ->
    owned g h A (content x.1) /\ Forall (client_keeps g h A) x.2 ->
    owned g h A (content y.1) /\ Forall (client_keeps g h A) y.2).
  { induction 1 as [|x y z Hxy _ IH]; [done|]. intros Hx. by eapply IH, session_step_owned. }
  destruct (Hall _ _ Hs) as [Ho' _]; [done|]. simpl in Ho'. split; [done|].
  unfold ClaimSessionAccountID. replace (B <=? 0) with false by lia. replace (ttl <=? 0) with false by lia.
  rewrite (proj2 (String.eqb_neq _ _) Hh). cbn [orb].
  assert (He : evals (content r') (claimSessionAccountScript (R := R) (buildSessionKey g h) B (Milliseconds ttl))
    (Some 0) (content r')).
  { unfold claimSessionAccountScript. eapply evals_bind; [apply evals_call|]. simpl. rewrite Ho'.
    replace (A =? B) with false by lia. apply evals_ret. }
  destruct (run_alone_script _ (fun n => match n with Some n => g_ret (n =? 1) | None => g_err end)
    _ _ _ He) as (r'' & Hr & E). unfold is_one. by rewrite E.
Qed.

Definition owner_store : Store := MkStore ∅ {["sticky_session:7:h" := 1]} ∅ 0.
Definition owner_store_after : Store :=
  MkStore ∅ {["sticky_session:7:h" := 1]} {["sticky_session:7:h" := 2000]} 0.

Lemma sticky_owner_kept_witness :
  strs (content owner_store_after) !! buildSessionKey 7 "h" = Some 1 /\
  let '(r'', answer) := run_alone [] (ClaimSessionAccountID 7 "h" 2 Second) owner_store_after in
  answer = Some false /\ content r'' = content owner_store_after.
Proof.
  apply (sticky_owner_kept (R := Store) 7 "h" 1 owner_store owner_store_after [Client (Done (Some true))] 2 Second).
  - reflexivity.
  - eapply rtc_l; [apply (session_start _ _ owner_store [] (SClaim 7 "h" 1 (2 * Second))); vm_compute; congruence|].
    apply rtc_once.
    exact (session_trip (R := Store) _ _ owner_store [session_method (SClaim 7 "h" 1 (2 * Second))] 0 bool
      (option Z) _ _ Answered eq_refl).
  - lia.
  - lia.
  - reflexivity.
  - by vm_compute.
Defined.

(** ** The Redis cache keeps its promise *)

Section CachePromise.
Context {R : Type} `{RedisServer R}.

Definition bound_in (c : CacheClient R) (g : Z) (h : string) : option Z :=
  strs (content c.1) !! buildSessionKey g h.

(** A method of one round trip: it answers, or it fails before or after taking effect. *)
Lemma use_script {A B} (m : Script R A) (K : A -> Go R B) (c : CacheClient R) a s o :
  evals (content c.1) m a s -> K a = Done o ->
  let x := use_cache (g_bind (run_script m) K) c in
  (content x.1.1 = s /\ x.2 = o) \/ ((content x.1.1 = content c.1 \/ content x.1.1 = s) /\ x.2 = None).
Proof.
  intros Hm HK. destruct (Hm c.1 eq_refl) as [Ha Hs]. destruct c as [r os].
  unfold use_cache, run_script, g_bind, run_alone, round_trip. simpl in *.
  destruct os as [|[] os]; simpl; rewrite ?Ha, ?HK; simpl; auto.
Qed.

Lemma evals_set_ttl k v ttl s :
  exists a s', evals (R := R) s (set_ttl k v ttl) a s' /\ strs s' = <[k := v]> (strs s).
Proof.
  unfold set_ttl. destruct (0 <? ttl) eqn:E; [|eexists _, _; split; [apply evals_call|done]].
  eexists _, _; split; [apply evals_call|]. simpl.
  replace (formatMs ttl <=? 0) with false; [done|]. unfold formatMs. rewrite E.
  destruct (ttl <? Millisecond) eqn:F; simpl; [done|]. bool_hyps.
  pose proof (Z.quot_le_mono Millisecond ttl Millisecond ltac:(unfold Millisecond; lia) ltac:(lia)) as Hq.
  rewrite Z.quot_same in Hq by (unfold Millisecond; lia). lia.
Qed.

Lemma key_ne g h g' h' : (g', h') <> (g, h) -> buildSessionKey g h <> buildSessionKey g' h'.
Proof. intros Hn [-> ->]%session_key_inj. done. Qed.

#[export] Program Instance redis_session_cache : SessionCache (CacheClient R) := {|
  bound := bound_in;
  cache_set g h a ttl c := reports (use_cache (SetSessionAccountID g h a ttl) c);
  cache_get g h c := use_cache (GetSessionAccountID g h) c;
  cache_delete g h c := reports (use_cache (DeleteSessionAccountID g h) c);
|}.
Next Obligation.
  intros g h a ttl c. destruct (evals_set_ttl (buildSessionKey g h) a ttl (content c.1)) as (v & s & Hv & Hs).
  unfold bound_in, SetSessionAccountID, reports; simpl.
  destruct (use_script _ (fun _ => g_ret tt) c v s (Some tt) Hv eq_refl) as [[E1 E2]|[[E1|E1] E2]];
    rewrite E1, E2, ?Hs, ?lookup_insert_eq; (split; [done|split; [by auto|]]);
    intros g' h' Hn; by rewrite ?lookup_insert_ne by (by apply key_ne).
Qed.
Next Obligation.
  intros g h c. unfold bound_in, GetSessionAccountID. set (K := fun a : reply => _).
  destruct (use_script (call (GET (buildSessionKey g h))) K c _ _
    (Some (strs (content c.1) !! buildSessionKey g h)) (evals_call _ _)) as [[E1 E2]|[[E1|E1] E2]];
    [|rewrite E1, E2; by auto..].
  simpl. by destruct (strs (content c.1) !! buildSessionKey g h).
Qed.
Next Obligation.
  intros g h c. unfold bound_in, DeleteSessionAccountID, reports; simpl.
  destruct (use_script (call (DEL (buildSessionKey g h))) (fun _ => g_ret tt) c _ _ (Some tt)
    (evals_call _ _) eq_refl) as [[E1 E2]|[[E1|E1] E2]];
    rewrite E1, E2; simpl; rewrite ?lookup_delete_eq; (split; [done|split; [by auto|]]);
    intros g' h' Hn; by rewrite ?lookup_delete_ne by (by apply key_ne).
Qed.
End CachePromise.

(** ** Cyber session blocks *)

Section Blocks.
Context {R : Type} `{RedisServer R}.

Definition blocked (s : Store) (k : string) : bool :=
  if strs s !! (cyberSessionBlockPrefix +:+ k) is Some _ then true else false.
(** [s'] is [s] with the keys [ks] blocked. *)
Definition blocks (ks : list string) (s s' : Store) : Prop :=
  forall k, blocked s' k = bool_decide (k ∈ ks) || blocked s k.

Lemma blocked_set k v (s s' : Store) :
  strs s' = <[cyberSessionBlockPrefix +:+ k := v]> (strs s) -> blocks [k] s s'.
Proof.
  intros Hs k'. unfold blocked. rewrite Hs. destruct (decide (k' = k)) as [->|Hk].
  - rewrite lookup_insert_eq, bool_decide_true by set_solver. done.
  - rewrite bool_decide_false by set_solver. rewrite lookup_insert_ne; [done|].
    intros E%str_app_inv_head. done.
Qed.
Lemma blocks_app ks ks' s1 s2 s3 : blocks ks s1 s2 -> blocks ks' s2 s3 -> blocks (ks ++ ks') s1 s3.
Proof.
  intros H1 H2 k. rewrite H2, H1, orb_assoc. f_equal.
  rewrite <- bool_decide_or. apply bool_decide_ext. set_solver.
Qed.
Lemma evals_set_blocks ks ttl s : exists s', evals (R := R) s (set_blocks ks ttl) tt s' /\ blocks ks s s'.
Proof.
  revert s. induction ks as [|k ks IH]; intros s; simpl.
  - exists s. split; [apply evals_ret|]. intros k. by rewrite bool_decide_false by set_solver.
  - destruct (evals_set_ttl (R := R) (cyberSessionBlockPrefix +:+ k) 1 ttl s) as (v & s1 & H1 & E1).
    destruct (IH s1) as (s2 & H2 & E2). exists s2. split; [by eapply evals_bind|].
    apply (blocks_app [k] ks s s1); [by eapply blocked_set|done].
Qed.
Lemma alone_flush ks ttl (r : R) :
  exists r', run_alone [] (flush_blocks ks ttl) r = (r', Some tt) /\ blocks ks (content r) (content r').
Proof.
  destruct (evals_set_blocks ks ttl (content r)) as (s' & H1 & H2). destruct (H1 r eq_refl) as [Ha Hs].
  destruct ks as [|k ks].
  - exists r. split; [done|]. intros k. by rewrite bool_decide_false by set_solver.
  - exists (set_blocks (k :: ks) ttl r).1. split; [|by rewrite Hs].
    change (flush_blocks (k :: ks) ttl) with (run_script (set_blocks (R := R) (k :: ks) ttl)).
    unfold run_script, run_alone, round_trip. by rewrite Ha.
Qed.
Lemma alone_block_keys ks ex ttl (r : R) :
  exists r', run_alone [] (block_keys ks ex ttl) r = (r', Some tt) /\
    blocks (ex ++ List.filter (fun k => negb (k =?s "")) ks) (content r) (content r').
Proof.
  revert ex r. induction ks as [|k ks IH]; intros ex r; simpl.
  - rewrite app_nil_r. apply alone_flush.
  - destruct (k =?s ""); simpl; [apply IH|]. destruct (Nat.eqb _ _).
    + destruct (alone_flush (ex ++ [k]) ttl r) as (r1 & E1 & H1). destruct (IH [] r1) as (r2 & E2 & H2).
      exists r2. rewrite (run_alone_bind _ _ _ _ _ E1). split; [done|].
      replace (ex ++ k :: _) with ((ex ++ [k]) ++ List.filter (fun k => negb (k =?s "")) ks)
        by (by rewrite <- app_assoc). by eapply blocks_app.
    + destruct (IH (ex ++ [k]) r) as (r' & E & Hr). exists r'. by rewrite <- app_assoc in Hr.
Qed.

Definition block_reply (s : Store) (k : string) : reply :=
  match strs s !! (cyberSessionBlockPrefix +:+ k) with Some v => RInt v | None => RNil end.
Lemma evals_get_all ks s :
  evals (R := R) s (get_all (map (fun k => cyberSessionBlockPrefix +:+ k) ks))
    (map (block_reply s) ks) s.
Proof.
  induction ks as [|k ks IH]; simpl; [apply evals_ret|].
  eapply evals_bind; [apply evals_call|]. eapply evals_bind; [exact IH|apply evals_ret].
Qed.
Lemma first_blocked_find ks s :
  first_blocked ks (map (block_reply s) ks)
    = List.find (blocked s) ks.
Proof.
  induction ks as [|k ks IH]; cbn [map first_blocked List.find]; [done|]. rewrite IH. unfold block_reply, blocked.
  by destruct (strs s !! (cyberSessionBlockPrefix +:+ k)).
Qed.
Lemma find_ext {A} (f f' : A -> bool) l : (forall x, f x = f' x) -> List.find f l = List.find f' l.
Proof. intros Hf. induction l as [|x l IH]; simpl; [done|]. by rewrite Hf, IH. Qed.
Lemma find_app {A} (f : A -> bool) l l' :
  List.find f (l ++ l') = match List.find f l with Some x => Some x | None => List.find f l' end.
Proof. induction l as [|x l IH]; simpl; [done|]. by destruct (f x). Qed.
Lemma alone_find fuel ks (r : R) :
  (length ks <= fuel)%nat ->
  exists r', run_alone [] (find_blocked fuel ks) r = (r', Some (default "" (List.find (blocked (content r)) ks))) /\
    content r' = content r.
Proof.
  revert ks r. induction fuel as [|fuel IH]; intros [|k ks] r Hl; simpl in Hl; try (by exists r); [lia|].
  cbn [find_blocked]. cbv zeta. set (l := k :: ks) in *.
  set (K := fun values : list reply => _).
  destruct (run_alone_script _ K r _ _ (evals_get_all (take cyberSessionRedisCommandMaxKeys l) (content r)))
    as (r1 & Hr & ->).
  pose proof (find_app (blocked (content r)) (take cyberSessionRedisCommandMaxKeys l)
    (drop cyberSessionRedisCommandMaxKeys l)) as Hf. rewrite take_drop in Hf. rewrite Hf.
  unfold K. rewrite first_blocked_find. destruct (List.find _ (take _ l)); [by exists r1|].
  rewrite <- Hr. destruct (IH (drop cyberSessionRedisCommandMaxKeys l) r1) as (r2 & E & Hr2).
  { rewrite length_drop. unfold l, cyberSessionRedisCommandMaxKeys. simpl. lia. }
  exists r2. by rewrite Hr2.
Qed.
End Blocks.

(** Blocked sessions are found: when the server answers, whatever the number of
    keys and however they fall into commands of 128, blocking [keys] succeeds and makes
    the scope active, and a search returns the first of the keys it asks for that was
    blocked before or now (empty keys are not blocked), and nothing otherwise. *)
Theorem blocks_are_found {R : Type} `{RedisServer R} scopeKey keys ttl queries r :
  keys <> [] -> scopeKey <> "" ->
  let '(r1, set) := run_alone [] (SetCyberSessionBlocked scopeKey keys ttl) r in
  let '(r2, active) := run_alone [] (IsCyberSessionScopeActive scopeKey) r1 in
  let '(_, found) := run_alone [] (FindCyberSessionBlocked queries) r2 in
  set = Some tt /\ active = Some true /\
  found = Some (default "" (List.find
    (fun q => bool_decide (q ∈ keys /\ q <> "") || blocked (content r) q) queries)).
Proof.
  intros Hk Hsc. unfold SetCyberSessionBlocked. destruct keys as [|k ks]; [done|]. set (keys := k :: ks) in *.
  destruct (alone_block_keys keys [] ttl r) as (r0 & E0 & H0). rewrite (run_alone_bind _ _ _ _ _ E0).
  rewrite (proj2 (String.eqb_neq _ _) Hsc).
  destruct (evals_set_ttl (R := R) (cyberSessionScopePrefix +:+ scopeKey) 1 ttl (content r0)) as (v & s1 & H1 & E1).
  destruct (run_alone_script _ (fun _ => g_ret tt) _ _ _ H1) as (r1 & Hr1 & ->). cbn [run_alone g_ret].
  unfold IsCyberSessionScopeActive.
  destruct (run_alone_script _ (fun n => g_ret (0 <? reply_int n)) r1 _ _ (evals_call (EXISTS (cyberSessionScopePrefix +:+ scopeKey)) _))
    as (r2 & Hr2 & ->). cbn [run_alone g_ret].
  destruct (alone_find (length queries) queries r2 (le_n _)) as (r3 & E3 & _).
  unfold FindCyberSessionBlocked. rewrite E3. split; [done|]. simpl in Hr2. rewrite Hr2, Hr1.
  split.
  - simpl. unfold key_exists. rewrite bool_decide_true; [done|]. right. rewrite E1, lookup_insert_eq. by eexists.
  - do 2 f_equal. apply find_ext. intros q. unfold blocked at 1. rewrite E1, lookup_insert_ne.
    2: { intros Hq. apply (prefix_differ (cyberSessionScopePrefix +:+ scopeKey) cyberSessionBlockPrefix q); [done|exact Hq]. }
    fold (blocked (content r0) q). rewrite H0. f_equal. apply bool_decide_ext. simpl app.
    assert (Hin : q ∈ List.filter (fun k => negb (k =?s "")) keys <-> q ∈ keys /\ q <> "").
    { rewrite !list_elem_of_In, filter_In, negb_true_iff. f_equiv. apply String.eqb_neq. }
    exact Hin.
Qed.

Lemma blocks_are_found_witness :
  let '(r1, set) := run_alone [] (SetCyberSessionBlocked "s" ["a"; ""; "b"] Second) owner_store in
  let '(r2, active) := run_alone [] (IsCyberSessionScopeActive "s") r1 in
  let '(_, found) := run_alone [] (FindCyberSessionBlocked ["c"; "b"]) r2 in
  set = Some tt /\ active = Some true /\
  found = Some (default "" (List.find
    (fun q => bool_decide (q ∈ ["a"; ""; "b"] /\ q <> "") || blocked (content owner_store) q) ["c"; "b"])).
Proof. apply (blocks_are_found (R := Store) "s" ["a"; ""; "b"] Second ["c"; "b"] owner_store); congruence. Defined.
