(* ===== verification/OAuthAdmission.v ===== *)
(** * Process-local OAuth admission

    The controller of
    [src/backend/internal/service/openai_oauth_account_admission.go]: it spaces the
    starts of requests on one credential inside a process, next to the distributed
    schedule of [ConcurrencyCache.v].  Every method runs under the controller's
    mutex and reads the clock once, so it is a function of the controller and that
    reading.  Instants and durations are nanoseconds. *)

From S2P Require Import Prelude Json Redis ConcurrencyCache.
Local Open Scope string_scope.
Local Open Scope Z_scope.
Local Open Scope list_scope.
Local Open Scope go_scope.

(** ** Policy *)

Definition openAIOAuthAdmissionBaseInterval : Z := 250 * Millisecond.
Definition openAIOAuthAdmissionHighQuotaInterval : Z := 500 * Millisecond.
Definition openAIOAuthAdmissionCriticalQuotaInterval : Z := 1000 * Millisecond.
Definition openAIOAuthAdmissionSevereQuotaInterval : Z := 2000 * Millisecond.
Definition openAIOAuthAdmissionMaxQueueWait : Z := 2000 * Millisecond.
Definition openAIOAuthAdmissionStateTTL : Z := 10 * Minute.
Definition openAIOAuthAdmissionMaxAccounts : Z := 4096.

Record openAIOAuthAdmissionPolicy := MkopenAIOAuthAdmissionPolicy {
  baseInterval : Z;
  highQuotaInterval : Z;
  criticalQuotaInterval : Z;
  severeQuotaInterval : Z;
  maxQueueWait : Z;
  stateTTL : Z;
  maxAccounts : Z;
}.

Definition defaultOpenAIOAuthAdmissionPolicy : openAIOAuthAdmissionPolicy :=
  MkopenAIOAuthAdmissionPolicy openAIOAuthAdmissionBaseInterval
    openAIOAuthAdmissionHighQuotaInterval openAIOAuthAdmissionCriticalQuotaInterval
    openAIOAuthAdmissionSevereQuotaInterval openAIOAuthAdmissionMaxQueueWait
    openAIOAuthAdmissionStateTTL openAIOAuthAdmissionMaxAccounts.

Definition normalized (p : openAIOAuthAdmissionPolicy) : openAIOAuthAdmissionPolicy :=
  let defaults := defaultOpenAIOAuthAdmissionPolicy in
  let base := if baseInterval p <=? 0 then baseInterval defaults else baseInterval p in
  let high := if highQuotaInterval p <? base then base else highQuotaInterval p in
  let critical := if criticalQuotaInterval p <? high then high else criticalQuotaInterval p in
  let severe := if severeQuotaInterval p <? critical then critical else severeQuotaInterval p in
  MkopenAIOAuthAdmissionPolicy base high critical severe
    (if maxQueueWait p <=? 0 then maxQueueWait defaults else maxQueueWait p)
    (if stateTTL p <=? 0 then stateTTL defaults else stateTTL p)
    (if maxAccounts p <=? 0 then maxAccounts defaults else maxAccounts p).

(** ** Errors *)

Record OpenAIOAuthAdmissionError := MkOpenAIOAuthAdmissionError {
  Reason : string;
  RetryAfter : Z;
}.

(** [int((e.RetryAfter + time.Second - 1) / time.Second)], the sum wrapping. *)
Definition RetryAfterSeconds (e : option OpenAIOAuthAdmissionError) : Z :=
  match e with
  | None => 1
  | Some e =>
      if RetryAfter e <=? 0 then 1
      else
        let seconds := Z.quot (int_sub (int_add (RetryAfter e) (1000 * Millisecond)) 1)
                         (1000 * Millisecond) in
        if seconds <? 1 then 1 else seconds
  end.
Definition CanRetryWithAnotherAccount (e : option OpenAIOAuthAdmissionError) : bool :=
  match e with Some e => negb (Reason e =?s "local_state_capacity") | None => false end.

(** [t.Sub(u)] saturates at the ends of [time.Duration]. *)
Definition time_sub (t u : Z) : Z := Z.max int64_min (Z.min int64_max (t - u)).

(** ** The controller *)

Record openAIOAuthAdmissionState := MkopenAIOAuthAdmissionState {
  nextStart : Z;
  notBefore : Z;
  lastSeen : Z;
}.
#[export] Instance eta_openAIOAuthAdmissionState : Eta openAIOAuthAdmissionState := fun s =>
  MkopenAIOAuthAdmissionState (nextStart s) (notBefore s) (lastSeen s).
Definition zero_openAIOAuthAdmissionState : openAIOAuthAdmissionState :=
  MkopenAIOAuthAdmissionState zero_time zero_time zero_time.

Record openAIOAuthAdmissionController := MkopenAIOAuthAdmissionController {
  accounts : gmap Z openAIOAuthAdmissionState;
  policy : openAIOAuthAdmissionPolicy;
}.
#[export] Instance eta_openAIOAuthAdmissionController : Eta openAIOAuthAdmissionController :=
  fun c => MkopenAIOAuthAdmissionController (accounts c) (policy c).

Definition newOpenAIOAuthAdmissionController (p : openAIOAuthAdmissionPolicy) :
    openAIOAuthAdmissionController :=
  MkopenAIOAuthAdmissionController ∅ (normalized p).

Definition idle (now ttl : Z) (s : openAIOAuthAdmissionState) : bool :=
  (lastSeen s <? now - ttl) && negb (now <? nextStart s) && negb (now <? notBefore s).
Definition pruneLocked (now : Z) (c : openAIOAuthAdmissionController) :
    openAIOAuthAdmissionController :=
  c <| accounts := filter (fun p => idle now (stateTTL (policy c)) p.2 = false) (accounts c) |>.

(** The account's state, made if there is room: the common start of [reserve] and
    [deferUntil]. *)
Definition find_state (accountID now : Z) (c : openAIOAuthAdmissionController) :
    openAIOAuthAdmissionController * option openAIOAuthAdmissionState :=
  match accounts c !! accountID with
  | Some s => (c, Some s)
  | None =>
      let c := pruneLocked now c in
      if maxAccounts (policy c) <=? Z.of_nat (size (accounts c)) then (c, None)
      else (c, Some zero_openAIOAuthAdmissionState)
  end.

Definition reserve (accountID interval nb queueDeadline now : Z)
    (c : openAIOAuthAdmissionController) :
    openAIOAuthAdmissionController * (Z + OpenAIOAuthAdmissionError) :=
  let '(c, state) := find_state accountID now c in
  match state with
  | None => (c, inr (MkOpenAIOAuthAdmissionError "local_state_capacity" (baseInterval (policy c))))
  | Some s =>
      let s := s <| lastSeen := now |> in
      let s := if notBefore s <? nb then s <| notBefore := nb |> else s in
      let scheduledAt := now in
      let scheduledAt := if scheduledAt <? nextStart s then nextStart s else scheduledAt in
      let scheduledAt := if scheduledAt <? notBefore s then notBefore s else scheduledAt in
      if queueDeadline <? scheduledAt then
        let retryAfter := time_sub scheduledAt now in
        let retryAfter := if retryAfter <? baseInterval (policy c) then baseInterval (policy c)
                          else retryAfter in
        (c <| accounts := <[accountID := s]> (accounts c) |>,
         inr (MkOpenAIOAuthAdmissionError "bounded_queue_full" retryAfter))
      else
        (c <| accounts := <[accountID := s <| nextStart := scheduledAt + interval |>]> (accounts c) |>,
         inl scheduledAt)
  end.

Definition deferUntil (accountID until now : Z) (c : openAIOAuthAdmissionController) :
    openAIOAuthAdmissionController :=
  if (accountID <=? 0) || IsZero until then c
  else
    let '(c, state) := find_state accountID now c in
    match state with
    | None => c
    | Some s =>
        let s := s <| lastSeen := now |> in
        let s := if notBefore s <? until then s <| notBefore := until |> else s in
        c <| accounts := <[accountID := s]> (accounts c) |>
    end.

Definition clearDefer (accountID now : Z) (c : openAIOAuthAdmissionController) :
    openAIOAuthAdmissionController :=
  if accountID <=? 0 then c
  else
    match accounts c !! accountID with
    | Some s => c <| accounts := <[accountID := s <| notBefore := zero_time |>
                                     <| lastSeen := now |>]> (accounts c) |>
    | None => c
    end.

Definition clearDeferIfDeadline (accountID deadline now : Z) (c : openAIOAuthAdmissionController) :
    openAIOAuthAdmissionController :=
  if (accountID <=? 0) || IsZero deadline then c
  else
    match accounts c !! accountID with
    | Some s =>
        if notBefore s =? deadline
        then c <| accounts := <[accountID := s <| notBefore := zero_time |>
                                  <| lastSeen := now |>]> (accounts c) |>
        else c
    | None => c
    end.

Definition accountNotBefore (accountID : Z) (c : openAIOAuthAdmissionController) : Z :=
  if accountID <=? 0 then zero_time
  else match accounts c !! accountID with Some s => notBefore s | None => zero_time end.

(** ** Interleaving with other requests *)

Inductive admission_op :=
  | AReserve (accountID interval notBefore queueDeadline : Z)
  | ADefer (accountID until : Z)
  | AClear (accountID : Z)
  | AClearIf (accountID deadline : Z).

Definition run_op (o : admission_op) (now : Z) (c : openAIOAuthAdmissionController) :
    openAIOAuthAdmissionController :=
  match o with
  | AReserve a i nb q => (reserve a i nb q now c).1
  | ADefer a u => deferUntil a u now c
  | AClear a => clearDefer a now c
  | AClearIf a d => clearDeferIfDeadline a d now c
  end.
Definition run_ops (ops : list (Z * admission_op)) (c : openAIOAuthAdmissionController) :
    openAIOAuthAdmissionController :=
  foldl (fun c p => run_op p.2 p.1 c) c ops.

(** ** [wait] *)

(** One round of the loop: the clock at [reserve], what other requests do while this
    one sleeps and whether its context ends then, and the clock after the sleep.  A
    timer never fires early. *)
Record WaitRound := MkWaitRound {
  at_reserve : Z;
  meanwhile : list (Z * admission_op);
  context_ends : bool;
  at_wake : Z;
}.

Inductive WaitResult :=
  | WAdmitted (scheduledAt at_ : Z)
  | WRejected (e : OpenAIOAuthAdmissionError)
  | WCanceled.

(** [None]: still waiting after these rounds. *)
Fixpoint wait_rounds (rounds : list WaitRound) (accountID interval nb queueDeadline : Z)
    (c : openAIOAuthAdmissionController) : openAIOAuthAdmissionController * option WaitResult :=
  match rounds with
  | [] => (c, None)
  | w :: rounds =>
      let '(c, r) := reserve accountID interval nb queueDeadline (at_reserve w) c in
      match r with
      | inr e => (c, Some (WRejected e))
      | inl scheduledAt =>
          let sleeps := at_reserve w <? scheduledAt in
          let c := run_ops (meanwhile w) c in
          if sleeps && context_ends w then (c, Some WCanceled)
          else
            let now := Z.max (at_wake w) scheduledAt in
            let deferredUntil := accountNotBefore accountID c in
            if now <? deferredUntil
            then wait_rounds rounds accountID interval deferredUntil queueDeadline c
            else (c, Some (WAdmitted scheduledAt now))
      end
  end.

(** [startedAt] is the clock when the request starts waiting; [None] inside the
    option is the immediate [nil] of a call that needs no admission. *)
Definition wait (rounds : list WaitRound) (ctx_done : bool) (accountID interval nb startedAt : Z)
    (c : openAIOAuthAdmissionController) :
    openAIOAuthAdmissionController * option (option WaitResult) :=
  if (accountID <=? 0) || (interval <=? 0) then (c, Some None)
  else if ctx_done then (c, Some (Some WCanceled))
  else
    let '(c, r) := wait_rounds rounds accountID interval nb
                     (startedAt + maxQueueWait (policy c)) c in
    (c, match r with Some r => Some (Some r) | None => None end).
