(* ===== verification/OAuthAdmissionProofs.v ===== *)
(** * The local controller spaces request starts

    Spacing of the reservations through concurrent deferrals, clears and pruning,
    with clock readings that may be stale when the mutex is taken; and [wait]: what
    an admission guarantees, and that waiting ends. *)

From Stdlib Require Import Sorted.
From S2P Require Import Prelude Json Redis ConcurrencyCache AdmissionProofs OAuthAdmission.
Local Open Scope string_scope.
Local Open Scope Z_scope.
Local Open Scope list_scope.
Local Open Scope go_scope.

(** ** What no operation takes back *)

(** The next start of account [a] is at least [X], or every later reading of the
    clock is ([B] is below them). *)
Definition Floor (a X B : Z) (c : openAIOAuthAdmissionController) : Prop :=
  X <= B \/ exists s, accounts c !! a = Some s /\ X <= nextStart s.

(** Pruning at [now] drops only states whose next start is at most [B]. *)
Definition prunes_below (now B : Z) (c : openAIOAuthAdmissionController) : Prop :=
  forall a s, accounts c !! a = Some s -> idle now (stateTTL (policy c)) s = true ->
  nextStart s <= B.

Lemma Floor_mono a X B B' c : B <= B' -> Floor a X B c -> Floor a X B' c.
Proof. intros ? [?|?]; [left; lia|by right]. Qed.

Lemma Floor_prune a X B now c : prunes_below now B c -> Floor a X B c -> Floor a X B (pruneLocked now c).
Proof.
  intros Hp [HX|(s & Hs & HX)]; [by left|]. destruct (idle now (stateTTL (policy c)) s) eqn:E.
  - left. specialize (Hp a s Hs E). lia.
  - right. exists s. split; [|done]. unfold pruneLocked; simpl. by apply map_lookup_filter_Some.
Qed.

Lemma policy_find a now c : policy (find_state a now c).1 = policy c.
Proof. unfold find_state. destruct (accounts c !! a); [done|]. by destruct (_ <=? _). Qed.

Lemma Floor_find b a X B now c :
  prunes_below now B c -> Floor b X B c -> Floor b X B (find_state a now c).1.
Proof.
  intros Hp Hf. unfold find_state. destruct (accounts c !! a); [done|].
  destruct (_ <=? _); by apply Floor_prune.
Qed.
(** The state found is the one whose next start the floor speaks of. *)
Lemma Floor_found a X B now c s :
  prunes_below now B c -> Floor a X B c -> (find_state a now c).2 = Some s ->
  X <= B \/ X <= nextStart s.
Proof.
  intros Hp [HX|(s' & Hs & HX)]; [by left|]. unfold find_state. rewrite Hs.
  intros [= <-]. by right.
Qed.
Lemma Floor_insert b a X B c s :
  Floor b X B c -> (b = a -> X <= B \/ X <= nextStart s) ->
  Floor b X B (c <| accounts := <[a := s]> (accounts c) |>).
Proof.
  intros Hf Hs. destruct (decide (b = a)) as [->|Hne].
  - destruct (Hs eq_refl) as [?|?]; [by left|]. right. exists s. simpl. by rewrite lookup_insert_eq.
  - destruct Hf as [?|(s' & ? & ?)]; [by left|]. right. exists s'. simpl. by rewrite lookup_insert_ne.
Qed.

(** *** The operations *)

Lemma ltb_max a b : (if a <? b then b else a) = Z.max a b.
Proof. destruct (a <? b) eqn:E; bool_hyps; lia. Qed.

Definition start_of (nb now : Z) (s : openAIOAuthAdmissionState) : Z :=
  Z.max (Z.max now (nextStart s)) (Z.max (notBefore s) nb).
Definition queue_full (p : openAIOAuthAdmissionPolicy) (t now : Z) : OpenAIOAuthAdmissionError :=
  let retryAfter := time_sub t now in
  MkOpenAIOAuthAdmissionError "bounded_queue_full"
    (if retryAfter <? baseInterval p then baseInterval p else retryAfter).

Lemma reserve_eq a i nb q now c :
  reserve a i nb q now c =
  match find_state a now c with
  | (c1, None) =>
      (c1, inr (MkOpenAIOAuthAdmissionError "local_state_capacity" (baseInterval (policy c1))))
  | (c1, Some s) =>
      let t := start_of nb now s in
      let put n := c1 <| accounts := <[a := MkopenAIOAuthAdmissionState n
                                         (Z.max (notBefore s) nb) now]> (accounts c1) |> in
      if q <? t then (put (nextStart s), inr (queue_full (policy c1) t now))
      else (put (t + i), inl t)
  end.
Proof.
  unfold reserve. destruct (find_state a now c) as [c1 [[ns n0 ls]|]]; [|done]. cbn zeta.
  set (s0 := MkopenAIOAuthAdmissionState ns n0 ls).
  assert (Hs : (if notBefore (s0 <| lastSeen := now |>) <? nb
                then s0 <| lastSeen := now |> <| notBefore := nb |> else s0 <| lastSeen := now |>) =
               MkopenAIOAuthAdmissionState ns (Z.max n0 nb) now)
    by (rewrite <- ltb_max; unfold s0; cbn; by destruct (n0 <? nb)).
  rewrite Hs. unfold queue_full, start_of. cbn [nextStart notBefore] in *. cbn zeta.
  rewrite !ltb_max. done.
Qed.

Lemma reserve_policy a i nb q now c : policy (reserve a i nb q now c).1 = policy c.
Proof.
  rewrite reserve_eq. pose proof (policy_find a now c) as Hp.
  destruct (find_state a now c) as [c1 [s|]]; simpl in *; [|done]. by destruct (q <? _).
Qed.

(** What [reserve] grants starts now or later and inside the queue, and the account
    is busy for the interval. *)
Lemma reserve_granted a i nb q now c t :
  (reserve a i nb q now c).2 = inl t ->
  now <= t <= q /\ nb <= t /\
  exists s, (find_state a now c).2 = Some s /\ nextStart s <= t /\
    accounts (reserve a i nb q now c).1 !! a =
      Some (MkopenAIOAuthAdmissionState (t + i) (Z.max (notBefore s) nb) now).
Proof.
  rewrite reserve_eq. destruct (find_state a now c) as [c1 [s|]]; [|done]. cbn zeta.
  destruct (q <? start_of nb now s) eqn:E; [done|]. bool_hyps. intros [= <-].
  assert (Ht : now <= start_of nb now s /\ nb <= start_of nb now s /\
    nextStart s <= start_of nb now s) by (unfold start_of; lia).
  split; [lia|]. split; [lia|]. exists s. split; [done|]. split; [lia|]. simpl.
  by rewrite lookup_insert_eq.
Qed.

Lemma Floor_reserve b a X B i nb q now c :
  0 <= i -> B <= now -> prunes_below now B c -> Floor b X B c ->
  Floor b X B (reserve a i nb q now c).1.
Proof.
  intros Hi HB Hp Hf. rewrite reserve_eq.
  pose proof (Floor_find b a X B now c Hp Hf) as Hf'.
  assert (Hs := Floor_found b X B now c).
  destruct (find_state a now c) as [c1 [s|]] eqn:E; simpl in *; [|done].
  assert (Hs' : b = a -> X <= B \/ X <= nextStart s).
  { intros ->. apply Hs; [done|done|by rewrite E]. }
  destruct (q <? _); apply Floor_insert; try done; intros Hb; simpl.
  destruct (Hs' Hb); [by left|]. right. unfold start_of. lia.
Qed.

Lemma Floor_op b X B o now c :
  (forall a i nb q, o = AReserve a i nb q -> 0 <= i) -> B <= now -> prunes_below now B c ->
  Floor b X B c -> Floor b X B (run_op o now c).
Proof.
  intros Hi HB Hp Hf. destruct o as [a i nb q|a u|a|a d]; simpl.
  - apply Floor_reserve; try done. by eapply Hi.
  - unfold deferUntil. destruct (_ || _); [done|].
    pose proof (Floor_find b a X B now c Hp Hf) as Hf'. assert (Hs := Floor_found b X B now c).
    destruct (find_state a now c) as [c1 [s|]] eqn:E; simpl in *; [|done].
    apply Floor_insert; [done|]. intros ->. rewrite E in Hs.
    destruct (Hs s Hp Hf eq_refl); [by left|]. right. by destruct (notBefore _ <? u).
  - unfold clearDefer. destruct (a <=? 0); [done|]. destruct (accounts c !! a) as [s|] eqn:E; [|done].
    apply Floor_insert; [done|]. intros ->. destruct Hf as [?|(s' & Hs & ?)]; [by left|].
    right. simpl. congruence.
  - unfold clearDeferIfDeadline. destruct (_ || _); [done|].
    destruct (accounts c !! a) as [s|] eqn:E; [|done]. destruct (notBefore s =? d); [|done].
    apply Floor_insert; [done|]. intros ->. destruct Hf as [?|(s' & Hs & ?)]; [by left|].
    right. simpl. congruence.
Qed.

(** ** Traces of the controller *)

(** The reservations granted, newest first. *)
Fixpoint history (ops : list (Z * admission_op)) (c : openAIOAuthAdmissionController)
    (hist : list (Z * reservation)) : list (Z * reservation) :=
  match ops with
  | [] => hist
  | (n, o) :: ops =>
      history ops (run_op o n c)
        (match o with
         | AReserve a i nb q =>
             match (reserve a i nb q n c).2 with
             | inl t => (a, (t, i)) :: hist
             | inr _ => hist
             end
         | _ => hist
         end)
  end.
Definition of_account (a : Z) (hist : list (Z * reservation)) : list reservation :=
  map snd (filter (fun p => p.1 = a) hist).

Lemma policy_op o n c : policy (run_op o n c) = policy c.
Proof.
  destruct o as [a i nb q|a u|a|a d]; simpl; [apply reserve_policy| | |].
  - unfold deferUntil. destruct (_ || _); [done|]. pose proof (policy_find a n c) as Hp.
    by destruct (find_state a n c) as [c1 [s|]].
  - unfold clearDefer. destruct (a <=? 0); [done|]. by destruct (accounts c !! a).
  - unfold clearDeferIfDeadline. destruct (_ || _); [done|].
    destruct (accounts c !! a) as [s|]; [|done]. by destruct (_ =? _).
Qed.

(** Every state satisfies [P]: how the operations keep it. *)
Definition all_states (P : openAIOAuthAdmissionState -> Prop) (c : openAIOAuthAdmissionController) :=
  forall a s, accounts c !! a = Some s -> P s.

Lemma all_states_find P a n c :
  P zero_openAIOAuthAdmissionState -> all_states P c ->
  all_states P (find_state a n c).1 /\ forall s, (find_state a n c).2 = Some s -> P s.
Proof.
  intros Hz Hc. unfold find_state. destruct (accounts c !! a) as [s|] eqn:E.
  - split; [done|]. intros s' [= <-]. by eapply Hc.
  - assert (Hp : all_states P (pruneLocked n c)).
    { intros b s Hs. unfold pruneLocked in Hs; simpl in Hs.
      apply map_lookup_filter_Some in Hs as [Hs _]. by eapply Hc. }
    destruct (_ <=? _); (split; [done|]); [done|]. by intros s [= <-].
Qed.
Lemma all_states_insert P a s c :
  P s -> all_states P c -> all_states P (c <| accounts := <[a := s]> (accounts c) |>).
Proof.
  intros Hs Hc b s'. simpl. destruct (decide (b = a)) as [->|Hne].
  - rewrite lookup_insert_eq. by intros [= <-].
  - rewrite lookup_insert_ne by done. apply Hc.
Qed.

Section Trace.
(** [D]: how stale a reading of the clock may be when the mutex is taken. [W]: the
    queue budget.  [I]: the longest interval. *)
Context (D W I ttl : Z) (HD : 0 <= D) (HW : 0 <= W) (HI : 0 <= I).
Context (Hstale : D = 0 \/ 2 * D + W + I <= ttl).

Definition op_ok (n : Z) (o : admission_op) : Prop :=
  match o with AReserve _ i _ q => 0 < i <= I /\ q <= n + W | _ => True end.
(** [T] is the latest reading so far. *)
Fixpoint readings (T : Z) (ops : list (Z * admission_op)) : Prop :=
  match ops with
  | [] => True
  | (n, o) :: ops => T - D <= n /\ op_ok n o /\ readings (Z.max T n) ops
  end.

Definition recent (T : Z) (s : openAIOAuthAdmissionState) : Prop :=
  nextStart s <= T + W + I /\ nextStart s <= lastSeen s + D + W + I.

Lemma recent_op T n o c :
  zero_time <= T -> T - D <= n -> op_ok n o -> all_states (recent T) c ->
  all_states (recent (Z.max T n)) (run_op o n c).
Proof.
  intros HT Hn Ho Hc.
  assert (Hz : recent T zero_openAIOAuthAdmissionState) by (split; simpl; lia).
  assert (Hmono : forall c', all_states (recent T) c' -> all_states (recent (Z.max T n)) c').
  { intros c' Hc' a s Hs. destruct (Hc' a s Hs). split; lia. }
  assert (Hseen : forall s n0, recent T s ->
    recent (Z.max T n) (MkopenAIOAuthAdmissionState (nextStart s) n0 n)).
  { intros s n0 [H1 H2]. split; simpl; lia. }
  destruct o as [a i nb q|a u|a|a d]; simpl in *.
  - rewrite reserve_eq. destruct (all_states_find _ a n c Hz Hc) as [H1 H2].
    destruct (find_state a n c) as [c1 [s|]]; simpl in *; [|by apply Hmono].
    specialize (H2 s eq_refl). destruct (q <? start_of nb n s) eqn:E; bool_hyps;
      (apply all_states_insert; [|by apply Hmono]); [by apply Hseen|split; simpl; lia].
  - unfold deferUntil. destruct (_ || _); [by apply Hmono|].
    destruct (all_states_find _ a n c Hz Hc) as [H1 H2].
    destruct (find_state a n c) as [c1 [s|]]; simpl in *; [|by apply Hmono].
    specialize (H2 s eq_refl). apply all_states_insert; [|by apply Hmono].
    destruct (_ <? u); exact (Hseen s _ H2).
  - unfold clearDefer. destruct (a <=? 0); [by apply Hmono|].
    destruct (accounts c !! a) as [s|] eqn:E; [|by apply Hmono].
    apply all_states_insert; [|by apply Hmono]. exact (Hseen s _ (Hc a s E)).
  - unfold clearDeferIfDeadline. destruct (_ || _); [by apply Hmono|].
    destruct (accounts c !! a) as [s|] eqn:E; [|by apply Hmono].
    destruct (_ =? d); [|by apply Hmono].
    apply all_states_insert; [|by apply Hmono]. exact (Hseen s _ (Hc a s E)).
Qed.

Lemma recent_prunes T n c :
  stateTTL (policy c) = ttl -> all_states (recent T) c -> prunes_below n (Z.max T n - D) c.
Proof.
  intros Hp Hc a s Hs Hi. destruct (Hc a s Hs) as [_ H2]. unfold idle in Hi. bool_hyps.
  destruct Hstale; lia.
Qed.

Definition TraceInv (T : Z) (c : openAIOAuthAdmissionController) (hist : list (Z * reservation)) : Prop :=
  zero_time <= T /\ stateTTL (policy c) = ttl /\ all_states (recent T) c /\
  forall a, spaced (of_account a hist) /\
    forall x, x ∈ of_account a hist -> Floor a (x.1 + x.2) (T - D) c.

Lemma TraceInv_op T n o c hist :
  T - D <= n -> op_ok n o -> TraceInv T c hist ->
  TraceInv (Z.max T n) (run_op o n c)
    (match o with
     | AReserve a i nb q =>
         match (reserve a i nb q n c).2 with
         | inl t => (a, (t, i)) :: hist
         | inr _ => hist
         end
     | _ => hist
     end).
Proof.
  intros Hn Ho (HT & Hp & Hc & Hh).
  pose proof (recent_prunes T n c Hp Hc) as Hprune.
  assert (HB : Z.max T n - D <= n) by lia.
  assert (Hfloor : forall a x, x ∈ of_account a hist ->
    Floor a (x.1 + x.2) (Z.max T n - D) (run_op o n c)).
  { intros a x Hx. apply Floor_op; try done.
    - intros a' i nb q ->. simpl in Ho. lia.
    - apply (Floor_mono _ _ (T - D)); [lia|]. by apply Hh. }
  split; [lia|]. split; [by rewrite policy_op|]. split; [by apply recent_op|].
  assert (Hkeep : forall a, spaced (of_account a hist) /\
    forall x, x ∈ of_account a hist -> Floor a (x.1 + x.2) (Z.max T n - D) (run_op o n c))
    by (intros a; split; [apply Hh|apply Hfloor]).
  destruct o as [a i nb q|a u|a|a d]; try exact Hkeep. simpl in *.
  destruct (reserve a i nb q n c).2 as [t|] eqn:E; [|exact Hkeep].
  destruct (reserve_granted _ _ _ _ _ _ _ E) as (Ht & _ & s & Hs & Hst & Hacc).
  intros b. unfold of_account. rewrite filter_cons. simpl. case_decide as Hb; [subst b|apply Hkeep].
  simpl. fold (of_account a hist). split.
  - constructor; [apply Hkeep|]. apply Forall_forall. intros x Hx. simpl.
    destruct (Floor_found a (x.1 + x.2) (Z.max T n - D) n c s Hprune) as [?|?]; try done; [|lia|lia].
    apply (Floor_mono _ _ (T - D)); [lia|]. by apply Hh.
  - intros x Hx. apply elem_of_cons in Hx as [->|Hx]; [|by apply Hfloor].
    right. eexists. split; [exact Hacc|]. simpl. lia.
Qed.

Lemma TraceInv_history T ops c hist :
  readings T ops -> TraceInv T c hist -> forall a, spaced (of_account a (history ops c hist)).
Proof.
  revert T c hist. induction ops as [|[n o] ops IH]; intros T c hist Hr Hi a; simpl.
  - by apply Hi.
  - destruct Hr as (Hn & Ho & Hr). apply (IH (Z.max T n)); [done|]. by apply TraceInv_op.
Qed.
End Trace.

(** C21. The local controller never grants two starts of an account closer than the
    interval of the earlier one, whatever requests, deferrals and recoveries come in
    between and although idle accounts are pruned.  The clock may be read up to [D]
    before the mutex is taken, if twice that, the queue budget and the longest
    interval fit in the state's lifetime. *)
Theorem local_starts_spaced (p : openAIOAuthAdmissionPolicy) (D W I T : Z)
    (ops : list (Z * admission_op)) (a : Z) :
  0 <= D -> 0 <= W -> 0 <= I ->
  D = 0 \/ 2 * D + W + I <= stateTTL (normalized p) ->
  zero_time <= T -> readings D W I T ops ->
  spaced (of_account a (history ops (newOpenAIOAuthAdmissionController p) [])).
Proof.
  intros HD HW HI Hst HT Hr.
  apply (TraceInv_history D W I (stateTTL (normalized p)) HD HW HI Hst T); [done|].
  split; [done|]. split; [done|]. split; [by intros b s Hs|].
  intros b. split; [constructor|]. by intros x ?%elem_of_nil.
Qed.

(** Two requests at once, a 429 that defers the account, a third request: with the
    default policy and readings up to a second stale. *)
Lemma local_starts_spaced_witness :
  let ms := Millisecond in
  let ops := [(1000 * ms, AReserve 7 (250 * ms) zero_time (3000 * ms));
              (900 * ms, AReserve 7 (250 * ms) zero_time (2900 * ms));
              (1300 * ms, ADefer 7 (2000 * ms));
              (1400 * ms, AReserve 7 (250 * ms) zero_time (3400 * ms))] in
  let hist := of_account 7 (history ops
    (newOpenAIOAuthAdmissionController defaultOpenAIOAuthAdmissionPolicy) []) in
  hist = [(2000 * ms, 250 * ms); (1250 * ms, 250 * ms); (1000 * ms, 250 * ms)] /\ spaced hist.
Proof.
  intros ms ops hist. split; [by vm_compute|].
  apply (local_starts_spaced defaultOpenAIOAuthAdmissionPolicy (1000 * ms) (2000 * ms) (250 * ms)
           (1000 * ms) ops 7); try (by vm_compute).
  - right. by vm_compute.
Defined.

(** ** [wait] *)

(** A request that [wait] admits is admitted at or after the start reserved for
    it, within the queue budget, and not while the account is deferred: a deferral
    that came while it slept makes it reserve again. *)
Lemma wait_respects_deferrals (rounds : list WaitRound) (ctx_done : bool)
    (accountID interval nb startedAt t at_ : Z) c c' :
  wait rounds ctx_done accountID interval nb startedAt c = (c', Some (Some (WAdmitted t at_))) ->
  t <= at_ /\ t <= startedAt + maxQueueWait (policy c) /\ accountNotBefore accountID c' <= at_.
Proof.
  unfold wait. destruct (_ || _); [done|]. destruct ctx_done; [done|].
  set (q := startedAt + maxQueueWait (policy c)). clearbody q.
  revert nb c. induction rounds as [|w rounds IH]; intros nb c; simpl; [done|].
  pose proof (reserve_granted accountID interval nb q (at_reserve w) c) as Hg.
  destruct (reserve accountID interval nb q (at_reserve w) c) as [c1 [t1|e]]; simpl in *; [|done].
  specialize (Hg t1 eq_refl). destruct (_ && _); [done|].
  destruct (_ <? accountNotBefore _ _) eqn:E.
  - intros Hw. apply (IH (accountNotBefore accountID (run_ops (meanwhile w) c1)) (run_ops (meanwhile w) c1)).
    exact Hw.
  - intros [= <- <- <-]. bool_hyps. lia.
Qed.
Lemma wait_respects_deferrals_witness :
  let ms := Millisecond in
  let rounds := [MkWaitRound (1000 * ms) [(1100 * ms, ADefer 7 (1500 * ms))] false (1200 * ms);
                 MkWaitRound (1200 * ms) [] false (1500 * ms)] in
  let r := wait rounds false 7 (250 * ms) (1200 * ms) (1000 * ms)
             (newOpenAIOAuthAdmissionController defaultOpenAIOAuthAdmissionPolicy) in
  r.2 = Some (Some (WAdmitted (1500 * ms) (1500 * ms))) /\
  accountNotBefore 7 r.1 <= 1500 * ms.
Proof.
  intros ms rounds r. assert (Hr : r.2 = Some (Some (WAdmitted (1500 * ms) (1500 * ms))))
    by (by vm_compute).
  split; [exact Hr|].
  eapply (wait_respects_deferrals rounds false 7 (250 * ms) (1200 * ms) (1000 * ms) (1500 * ms)
    (1500 * ms) (newOpenAIOAuthAdmissionController defaultOpenAIOAuthAdmissionPolicy)).
  fold r. rewrite (surjective_pairing r), Hr. reflexivity.
Defined.

(** Clock readings in order, by the operations of others. *)
Fixpoint ordered (T : Z) (ops : list (Z * admission_op)) : Prop :=
  match ops with
  | [] => True
  | (n, o) :: ops =>
      T <= n /\ (match o with AReserve _ i _ _ => 0 <= i | _ => True end) /\ ordered n ops
  end.
Definition last_reading (T : Z) (ops : list (Z * admission_op)) : Z :=
  foldl (fun _ p => p.1) T ops.
Fixpoint clocked (T : Z) (rounds : list WaitRound) : Prop :=
  match rounds with
  | [] => True
  | w :: rounds =>
      T <= at_reserve w /\ ordered (at_reserve w) (meanwhile w) /\
      clocked (last_reading (at_reserve w) (meanwhile w)) rounds
  end.

Lemma prunes_below_now n c : prunes_below n n c.
Proof. intros a s _ Hi. unfold idle in Hi. bool_hyps. lia. Qed.

Lemma Floor_ops a X T ops c :
  ordered T ops -> Floor a X T c -> Floor a X (last_reading T ops) (run_ops ops c).
Proof.
  revert T c. induction ops as [|[n o] ops IH]; intros T c; simpl; [done|].
  intros (Hn & Ho & Hr) Hf. apply (IH n); [done|].
  apply Floor_op; [|lia|apply prunes_below_now|by apply (Floor_mono _ _ T)].
  intros a' i nb q ->. done.
Qed.

Lemma wait_rounds_end (rounds : list WaitRound) a i nb q T X c :
  0 < i -> clocked T rounds -> Floor a X T c -> X <= q + i ->
  (wait_rounds rounds a i nb q c).2 = None ->
  X + Z.of_nat (length rounds) * i <= q + i.
Proof.
  intros Hi. revert nb T X c. induction rounds as [|w rounds IH]; intros nb T X c Hc Hf HX.
  { simpl. lia. }
  cbn [wait_rounds clocked] in *. destruct Hc as (HT & Ho & Hc).
  assert (Hf1 : Floor a X (at_reserve w) c) by (by apply (Floor_mono _ _ T)).
  pose proof (reserve_granted a i nb q (at_reserve w) c) as Hg.
  pose proof (fun s => Floor_found a X (at_reserve w) (at_reserve w) c s (prunes_below_now _ _) Hf1) as Hfound.
  destruct (reserve a i nb q (at_reserve w) c) as [c1 [t1|e]]; simpl in *; [|done].
  destruct (Hg t1 eq_refl) as (Ht & _ & s & Hs & Hst & Hacc).
  assert (HXt : X <= t1) by (destruct (Hfound s Hs); lia).
  destruct (_ && _); [done|]. destruct (_ <? accountNotBefore _ _); [|done].
  intros Hw. apply (IH _ (last_reading (at_reserve w) (meanwhile w)) (t1 + i)) in Hw; [|done| |lia].
  - lia.
  - apply Floor_ops; [done|]. right. eexists. split; [exact Hacc|]. simpl. lia.
Qed.

(** C25. Waiting for admission ends, and ends right: the queue deadline is fixed when the
    request starts, and every further round reserves a start at least one interval later,
    so after more than queue budget / interval + 1 rounds the request has been admitted,
    rejected or canceled, however often the account is deferred meanwhile.  A request that
    is admitted is admitted at or after the start reserved for it, which is within the
    queue budget, and not while the account is deferred: a deferral that came while it
    slept made it reserve again. *)
Theorem wait_ends (rounds : list WaitRound) (accountID interval nb startedAt : Z) c :
  clocked startedAt rounds ->
  maxQueueWait (policy c) + interval < Z.of_nat (length rounds) * interval ->
  0 <= maxQueueWait (policy c) ->
  exists c' r, wait rounds false accountID interval nb startedAt c = (c', Some r) /\
    forall t at_, r = Some (WAdmitted t at_) ->
      t <= at_ /\ t <= startedAt + maxQueueWait (policy c) /\ accountNotBefore accountID c' <= at_.
Proof.
  intros Hc Hlen HW. enough (exists r, (wait rounds false accountID interval nb startedAt c).2 = Some r) as [r Hr].
  { destruct (wait _ _ _ _ _ _ _) as [c' r'] eqn:Ew. simpl in Hr. subst r'. exists c', r. split; [done|].
    intros t at_ ->. by eapply wait_respects_deferrals. }
  unfold wait. destruct (_ || _) eqn:E; [by exists None|]. bool_hyps.
  destruct (wait_rounds rounds accountID interval nb (startedAt + maxQueueWait (policy c)) c)
    as [c' r] eqn:Er. destruct r as [r|]; [by exists (Some r)|].
  pose proof (wait_rounds_end rounds accountID interval nb (startedAt + maxQueueWait (policy c))
    startedAt startedAt c ltac:(lia) Hc ltac:(left; lia) ltac:(lia)) as Hend.
  rewrite Er in Hend. specialize (Hend eq_refl). lia.
Qed.
Lemma wait_ends_witness :
  let ms := Millisecond in
  let w n := MkWaitRound (n * ms) [(n * ms, ADefer 7 ((n + 400) * ms))] false (n * ms) in
  let rounds := map w [1000; 1300; 1600; 1900; 2200; 2500; 2800; 3100; 3400; 3700] in
  let c := newOpenAIOAuthAdmissionController defaultOpenAIOAuthAdmissionPolicy in
  exists c' r, wait rounds false 7 (250 * ms) zero_time (1000 * ms) c = (c', Some r).
Proof.
  intros ms w rounds c. destruct (wait_ends rounds 7 (250 * ms) zero_time (1000 * ms) c) as (c' & r & H & _).
  - repeat split; by vm_compute.
  - by vm_compute.
  - by vm_compute.
  - by exists c', r.
Defined.
