(* ===== verification/Failover.v ===== *)
(** * Account failover

    [src/backend/internal/handler/failover_loop.go] (the state a request carries
    across upstream attempts), [service.UpstreamFailoverError] and the account
    selection loop of [handler/gateway_handler_responses.go].  The environment of a
    request (whether the client is still there, what the selector, the concurrency
    helper, the profit gate and the upstream say, the clock) is the input of each
    round of the loop; logging and metrics are left out. *)

From S2P Require Import Prelude Json Redis.
Local Open Scope string_scope.
Local Open Scope Z_scope.
Local Open Scope list_scope.
Local Open Scope go_scope.

(** ** The error *)

Inductive NextAccountAction := NextAccountLegacyRetry | NextAccountRetry | NextAccountStop.

(** Stage and scope matter through one value each. *)
Record UpstreamFailoverError := MkUpstreamFailoverError {
  StatusCode : Z;
  fe_ForceCacheBilling : bool;
  RetryableOnSameAccount : bool;
  SameAccountRetryDelay : Z;              (* nanoseconds *)
  SameAccountRetryDeadline : option Z;    (* [None] is the zero time *)
  SameAccountRetryMax : Z;
  RequestScopedTransient : bool;
  stage_account_auth : bool;              (* Stage == GatewayFailureStageAccountAuth *)
  scope_account : bool;                   (* Scope == GatewayFailureScopeAccount *)
  fe_NextAccountAction : NextAccountAction;
}.

Definition ShouldRetryNextAccount (e : option UpstreamFailoverError) : bool :=
  match e with
  | Some e => match fe_NextAccountAction e with NextAccountStop => false | _ => true end
  | None => false
  end.
Definition IsCredentialFailure (e : option UpstreamFailoverError) : bool :=
  match e with Some e => stage_account_auth e | None => false end.
Definition ShouldReportAccountScheduleFailure (e : option UpstreamFailoverError) : bool :=
  match e with
  | Some e' => if RequestScopedTransient e' then false
               else negb (IsCredentialFailure e) || scope_account e'
  | None => false
  end.

(** ** Retry budget of an account *)

(** A credential as JSON decoding or Go code left it: floats by their integer part,
    [json.Number] by its [Int64()]. *)
Inductive CredentialValue :=
  | CInt (z : Z)
  | CInt64 (z : Z)
  | CFloat (trunc : Z)
  | CNumber (int64 : option Z)
  | CString (s : string)
  | COther.

Definition defaultPoolModeRetryCount : Z := 3.
Definition maxPoolModeRetryCount : Z := 10.

Definition parsePoolModeRetryCount (value : CredentialValue) : Z :=
  match value with
  | CInt v | CInt64 v | CFloat v | CNumber (Some v) => v
  | CString s => default defaultPoolModeRetryCount (ParseInt (TrimSpace s))
  | CNumber None | COther => defaultPoolModeRetryCount
  end.

(** [raw] is the credential, [None] when absent or null (or no credentials). *)
Definition GetPoolModeRetryCount (poolMode : bool) (raw : option CredentialValue) : Z :=
  if negb poolMode then defaultPoolModeRetryCount
  else
    match raw with
    | None => defaultPoolModeRetryCount
    | Some raw =>
        let count := parsePoolModeRetryCount raw in
        if count <? 0 then 0
        else if maxPoolModeRetryCount <? count then maxPoolModeRetryCount
        else count
    end.

(** ** Same-account retries *)

Definition Second : Z := 1000000000.
Definition sameAccountRetryDelay : Z := 500000000.
Definition maxRequestScopedRetryDelay : Z := 8 * Second.
Definition singleAccountBackoffDelay : Z := 2 * Second.
Definition maxProfitVetoAttempts : Z := 10.

(** [for i := 1; i < retryCount; i++] with [n] rounds left. *)
Fixpoint backoff (n : nat) (delay : Z) : Z :=
  match n with
  | O => delay
  | S n => if Z.quot maxRequestScopedRetryDelay 2 <=? delay then maxRequestScopedRetryDelay
           else backoff n (int_mul delay 2)
  end.
Definition sameAccountRetryDelayFor (e : option UpstreamFailoverError) (retryCount : Z) : Z :=
  match e with
  | None => sameAccountRetryDelay
  | Some e =>
      if 0 <? SameAccountRetryDelay e then SameAccountRetryDelay e
      else if negb (RequestScopedTransient e) || (retryCount <=? 1) then sameAccountRetryDelay
      else backoff (Z.to_nat (retryCount - 1)) sameAccountRetryDelay
  end.

Definition sameAccountRetryDeadlineAllows (now : Z) (e : option UpstreamFailoverError) : bool :=
  match e with
  | None => true
  | Some e => match SameAccountRetryDeadline e with None => true | Some d => now <? d end
  end.

Definition sameAccountRetryAllowed (now : Z) (e : option UpstreamFailoverError)
    (retryCount retryLimit : Z) : bool :=
  match e with
  | None => false
  | Some e' =>
      if negb (RetryableOnSameAccount e') then false
      else if negb (sameAccountRetryDeadlineAllows now e) then false
      else if 0 <? SameAccountRetryMax e' then
        if retryLimit <=? 0 then false
        else
          let retryLimit := if SameAccountRetryMax e' <? retryLimit then SameAccountRetryMax e'
                            else retryLimit in
          retryCount <? retryLimit
      else
        match SameAccountRetryDeadline e' with
        | Some _ => true
        | None => (0 <? retryLimit) && (retryCount <? retryLimit)
        end
  end.

Definition effectiveSameAccountRetryLimit (e : option UpstreamFailoverError)
    (limit : option Z) : Z :=
  match limit with
  | None => 0                             (* account == nil *)
  | Some limit =>
      match e with
      | Some e =>
          if (0 <? limit) && (0 <? SameAccountRetryMax e) && (SameAccountRetryMax e <? limit)
          then SameAccountRetryMax e else limit
      | None => limit
      end
  end.

(** ** The state of a request *)

Inductive FailoverAction := FailoverContinue | FailoverExhausted | FailoverCanceled.

Record FailoverState := MkFailoverState {
  SwitchCount : Z;
  MaxSwitches : Z;
  FailedAccountIDs : gset Z;
  SameAccountRetryCount : gmap Z Z;
  LastFailoverErr : option UpstreamFailoverError;
  ForceCacheBilling : bool;
  hasBoundSession : bool;
  profitVetoedAccountIDs : gset Z;
  profitVetoCount : Z;
}.
#[export] Instance eta_FailoverState : Eta FailoverState := fun s =>
  MkFailoverState (SwitchCount s) (MaxSwitches s) (FailedAccountIDs s) (SameAccountRetryCount s)
    (LastFailoverErr s) (ForceCacheBilling s) (hasBoundSession s) (profitVetoedAccountIDs s)
    (profitVetoCount s).

Definition NewFailoverState (maxSwitches : Z) (hasBoundSession : bool) : FailoverState :=
  MkFailoverState 0 maxSwitches ∅ ∅ None false hasBoundSession ∅ 0.

Definition RecordProfitVeto (accountID : Z) (s : FailoverState) : FailoverState * FailoverAction :=
  let s := s <| FailedAccountIDs := {[accountID]} ∪ FailedAccountIDs s |>
             <| profitVetoedAccountIDs := {[accountID]} ∪ profitVetoedAccountIDs s |>
             <| profitVetoCount := profitVetoCount s + 1 |> in
  (s, if maxProfitVetoAttempts <=? profitVetoCount s then FailoverExhausted else FailoverContinue).

Definition allExclusionsAreProfitVetoed (s : FailoverState) : bool :=
  if bool_decide (profitVetoedAccountIDs s = ∅) || bool_decide (FailedAccountIDs s = ∅) then false
  else bool_decide (FailedAccountIDs s ⊆ profitVetoedAccountIDs s).

Definition needForceCacheBilling (hasBoundSession : bool) (e : option UpstreamFailoverError)
    (sameAccountRetry : bool) : bool :=
  (hasBoundSession && negb sameAccountRetry) ||
  match e with Some e => fe_ForceCacheBilling e | None => false end.

(** [sleepWithContext(ctx, d)]: [canceled] says whether the context ends first. *)
Definition sleepWithContext (d : Z) (canceled : bool) : bool :=
  if d <=? 0 then true else negb canceled.

(** The result also says whether the gateway service is told to unschedule the
    account ([TempUnscheduleRetryableError]). *)
Definition HandleFailoverError (ctx_done sleep_canceled : bool) (now : Z) (accountID retryLimit : Z)
    (e : option UpstreamFailoverError) (s : FailoverState) :
    FailoverState * FailoverAction * bool :=
  if ctx_done then (s, FailoverCanceled, false)
  else
    let s := s <| LastFailoverErr := e |> in
    match e with
    | None => (s, FailoverExhausted, false)
    | Some e' =>
        if negb (ShouldRetryNextAccount e) then (s, FailoverExhausted, false)
        else
          let retryCount := default 0 (SameAccountRetryCount s !! accountID) in
          let sameAccountRetry := sameAccountRetryAllowed now e retryCount retryLimit in
          let s := if needForceCacheBilling (hasBoundSession s) e sameAccountRetry
                   then s <| ForceCacheBilling := true |> else s in
          if sameAccountRetry then
            let s := s <| SameAccountRetryCount := <[accountID := retryCount + 1]>
                            (SameAccountRetryCount s) |> in
            if sleepWithContext (sameAccountRetryDelayFor e (retryCount + 1)) sleep_canceled
            then (s, FailoverContinue, false)
            else (s, FailoverCanceled, false)
          else
            let unschedule := RetryableOnSameAccount e' in
            let s := s <| FailedAccountIDs := {[accountID]} ∪ FailedAccountIDs s |> in
            if MaxSwitches s <=? SwitchCount s then (s, FailoverExhausted, unschedule)
            else (s <| SwitchCount := SwitchCount s + 1 |>, FailoverContinue, unschedule)
    end.

Definition HandleSelectionExhausted (ctx_done sleep_canceled : bool) (s : FailoverState) :
    FailoverState * FailoverAction :=
  if ctx_done then (s, FailoverCanceled)
  else
    match LastFailoverErr s with
    | Some e =>
        if (StatusCode e =? 503) && (SwitchCount s <=? MaxSwitches s) then
          if allExclusionsAreProfitVetoed s then (s, FailoverExhausted)
          else if negb (sleepWithContext singleAccountBackoffDelay sleep_canceled)
               then (s, FailoverCanceled)
          else (s <| FailedAccountIDs := profitVetoedAccountIDs s |>, FailoverContinue)
        else (s, FailoverExhausted)
    | None => (s, FailoverExhausted)
    end.

(** [GatewayService.TempUnscheduleRetryableError]: whether the account is blocked. *)
Definition TempUnscheduleRetryableError (e : option UpstreamFailoverError) : bool :=
  match e with
  | Some e => RetryableOnSameAccount e && negb (RequestScopedTransient e) && (StatusCode e =? 502)
  | None => false
  end.

(** ** The loop of [Responses] *)

(** What the upstream call ends with. *)
Inductive ForwardOutcome :=
  | ForwardOK
  | ForwardFailover (e : UpstreamFailoverError) (written : bool)   (* bytes already sent *)
  | ForwardError.

(** What happens after an account was selected. *)
Inductive Admission :=
  | NoWaitPlan                            (* not acquired and nothing to wait for *)
  | SlotError                             (* waiting for the slot failed *)
  | ProfitVetoed
  | IsAdmitted (outcome : ForwardOutcome).

(** The environment in one round of the loop. *)
Record Round := MkRound {
  client_gone : bool;                     (* at the top of the loop *)
  ctx_done : bool;                        (* when a handler looks at the context *)
  sleep_canceled : bool;
  round_now : Z;
  selected : option (Z * Z);              (* account id and its retry count; [None]: error *)
  admission : Admission;
}.

Inductive Response :=
  | ClientGone
  | NoAccount
  | Exhausted (e : option UpstreamFailoverError)
  | Unavailable                           (* no wait plan *)
  | SlotFailed
  | VetoExhausted
  | Failed (e : UpstreamFailoverError)    (* failover after bytes were sent *)
  | ForwardFailed
  | Served.

Definition responses_round (i : Round) (s : FailoverState) : FailoverState + Response :=
  if client_gone i then inr ClientGone
  else
    match selected i with
    | None =>
        if ctx_done i then inr ClientGone
        else if bool_decide (FailedAccountIDs s = ∅) then inr NoAccount
        else
          let '(s, action) := HandleSelectionExhausted (ctx_done i) (sleep_canceled i) s in
          match action with
          | FailoverContinue => inl s
          | FailoverCanceled => inr ClientGone
          | FailoverExhausted => inr (Exhausted (LastFailoverErr s))
          end
    | Some (accountID, retryLimit) =>
        match admission i with
        | NoWaitPlan => inr Unavailable
        | SlotError => inr SlotFailed
        | ProfitVetoed =>
            let '(s, action) := RecordProfitVeto accountID s in
            match action with
            | FailoverExhausted => inr VetoExhausted
            | _ => inl s
            end
        | IsAdmitted ForwardOK => inr Served
        | IsAdmitted ForwardError => inr ForwardFailed
        | IsAdmitted (ForwardFailover e written) =>
            if written then inr (Failed e)
            else
              let '(s, action, _) := HandleFailoverError (ctx_done i) (sleep_canceled i)
                (round_now i) accountID retryLimit (Some e) s in
              match action with
              | FailoverContinue => inl s
              | FailoverExhausted => inr (Exhausted (LastFailoverErr s))
              | FailoverCanceled => inr ClientGone
              end
        end
    end.

(** The loop over the rounds the environment plays; [inl]: still looping. *)
Fixpoint responses_loop (rounds : list Round) (s : FailoverState) : FailoverState + Response :=
  match rounds with
  | [] => inl s
  | i :: rounds =>
      match responses_round i s with
      | inl s => responses_loop rounds s
      | inr r => inr r
      end
  end.
