(* ===== verification/FailoverProofs.v ===== *)
(** * The failover loop ends, and what it keeps on the way *)

From S2P Require Import Prelude Json Redis Failover.
Local Open Scope string_scope.
Local Open Scope Z_scope.
Local Open Scope list_scope.
Local Open Scope go_scope.

(** ** Retry budgets *)

Lemma GetPoolModeRetryCount_range poolMode raw :
  0 <= GetPoolModeRetryCount poolMode raw <= maxPoolModeRetryCount.
Proof.
  unfold GetPoolModeRetryCount, defaultPoolModeRetryCount, maxPoolModeRetryCount.
  destruct (negb poolMode); [lia|]. destruct raw as [raw|]; [|lia].
  destruct (_ <? 0) eqn:E1; [lia|]. destruct (10 <? _) eqn:E2; bool_hyps; lia.
Qed.

Lemma backoff_spec n d :
  0 < d -> d <= maxRequestScopedRetryDelay ->
  backoff n d = Z.min (d * 2 ^ Z.of_nat n) maxRequestScopedRetryDelay.
Proof.
  unfold maxRequestScopedRetryDelay, Second. revert d.
  induction n as [|n IH]; intros d H1 H2; cbn [backoff].
  - change (2 ^ Z.of_nat 0) with 1. lia.
  - assert (Hp : 0 < 2 ^ Z.of_nat n) by (apply Z.pow_pos_nonneg; lia).
    rewrite Nat2Z.inj_succ, Z.pow_succ_r by lia.
    change (maxRequestScopedRetryDelay ÷ 2) with 4000000000.
    destruct (4000000000 <=? d) eqn:E; bool_hyps.
    + unfold maxRequestScopedRetryDelay, Second. nia.
    + assert (Ed : int_mul d 2 = d * 2)
        by (unfold int_mul; apply wrap64_id; unfold in_int64, int64_min, int64_max; lia).
      rewrite Ed, IH by lia. f_equal. lia.
Qed.

(** A same-account retry is allowed only below the account's limit, unless the error
    has a deadline and no cap of its own. *)
Definition bounded_retries (e : UpstreamFailoverError) : Prop :=
  SameAccountRetryDeadline e = None \/ 0 < SameAccountRetryMax e.

Lemma retry_below_limit now e count limit :
  bounded_retries e -> sameAccountRetryAllowed now (Some e) count limit = true -> count < limit.
Proof.
  unfold sameAccountRetryAllowed. intros Hb. destruct (negb (RetryableOnSameAccount e)); [done|].
  destruct (negb _); [done|]. destruct (0 <? SameAccountRetryMax e) eqn:E.
  - destruct (limit <=? 0); [done|]. destruct (_ <? limit) eqn:E2; bool_hyps; intros ?; bool_hyps; lia.
  - destruct Hb as [->|?]; bool_hyps; [|lia]. intros [? ?]%andb_true_iff. bool_hyps. lia.
Qed.

(** ** Invariants *)

Record WF (s : FailoverState) : Prop := {
  wf_switch : 0 <= SwitchCount s <= Z.max 0 (MaxSwitches s);
  wf_veto : 0 <= profitVetoCount s < maxProfitVetoAttempts;
  wf_vetoed : profitVetoedAccountIDs s ⊆ FailedAccountIDs s;
}.

Lemma WF_new m b : WF (NewFailoverState m b).
Proof. split; simpl; [lia|unfold maxProfitVetoAttempts; lia|done]. Qed.

(** What a round that goes on did. *)
Inductive round_effect (i : Round) (s : FailoverState) : FailoverState -> Prop :=
  | effect_backoff :
      FailedAccountIDs s <> ∅ -> allExclusionsAreProfitVetoed s = false ->
      round_effect i s (s <| FailedAccountIDs := profitVetoedAccountIDs s |>)
  | effect_veto a limit :
      selected i = Some (a, limit) -> admission i = ProfitVetoed ->
      profitVetoCount s + 1 < maxProfitVetoAttempts ->
      round_effect i s (RecordProfitVeto a s).1
  | effect_retry a limit e forced :
      selected i = Some (a, limit) -> admission i = IsAdmitted (ForwardFailover e false) ->
      sameAccountRetryAllowed (round_now i) (Some e) (default 0 (SameAccountRetryCount s !! a)) limit = true ->
      round_effect i s (s <| LastFailoverErr := Some e |> <| ForceCacheBilling := forced |>
        <| SameAccountRetryCount := <[a := default 0 (SameAccountRetryCount s !! a) + 1]>
             (SameAccountRetryCount s) |>)
  | effect_switch a limit e forced :
      selected i = Some (a, limit) -> admission i = IsAdmitted (ForwardFailover e false) ->
      SwitchCount s < MaxSwitches s ->
      round_effect i s (s <| LastFailoverErr := Some e |> <| ForceCacheBilling := forced |>
        <| FailedAccountIDs := {[a]} ∪ FailedAccountIDs s |> <| SwitchCount := SwitchCount s + 1 |>).

Lemma responses_round_effect i s s' : responses_round i s = inl s' -> round_effect i s s'.
Proof.
  unfold responses_round. destruct (client_gone i); [done|].
  destruct (selected i) as [[a limit]|] eqn:Hsel.
  - destruct (admission i) as [| | |[|e written|]] eqn:Had; try done.
    + unfold RecordProfitVeto.
      destruct (_ <=? _) eqn:E; [done|]. intros [= <-]. simpl in E. bool_hyps.
      by eapply (effect_veto _ _ a).
    + destruct written; [done|]. unfold HandleFailoverError.
      destruct (ctx_done i); [done|]. destruct (negb _); [done|]. cbn zeta.
      change (SameAccountRetryCount (s <| LastFailoverErr := Some e |>)) with (SameAccountRetryCount s).
      destruct (sameAccountRetryAllowed _ _ _ _) eqn:Hr.
      * destruct (needForceCacheBilling _ _ _); (destruct (sleepWithContext _ _); [|done]); intros [= <-];
          [apply (effect_retry i s a limit e true)|apply (effect_retry i s a limit e (ForceCacheBilling s))];
          done.
      * destruct (needForceCacheBilling _ _ _); simpl; (destruct (_ <=? _) eqn:E; [done|]);
          intros [= <-]; bool_hyps;
          [apply (effect_switch i s a limit e true)|apply (effect_switch i s a limit e (ForceCacheBilling s))];
          try done; lia.
  - destruct (ctx_done i); [done|]. case_bool_decide as Hne; [done|].
    unfold HandleSelectionExhausted. destruct (LastFailoverErr s) as [e|]; [|done].
    destruct (_ && _); [|done]. destruct (allExclusionsAreProfitVetoed s) eqn:Hall; [done|].
    destruct (negb _); [done|]. intros [= <-]. by constructor.
Qed.

Lemma WF_round i s s' : WF s -> responses_round i s = inl s' -> WF s'.
Proof.
  intros [H1 H2 H3] Hr. apply responses_round_effect in Hr.
  destruct Hr; split; simpl; try done; try lia; set_solver.
Qed.

Lemma MaxSwitches_round i s s' : responses_round i s = inl s' -> MaxSwitches s' = MaxSwitches s.
Proof. intros Hr. by destruct (responses_round_effect _ _ _ Hr). Qed.

Lemma vetoed_round i s s' :
  responses_round i s = inl s' -> profitVetoedAccountIDs s ⊆ profitVetoedAccountIDs s'.
Proof. intros Hr. destruct (responses_round_effect _ _ _ Hr); simpl; set_solver. Qed.

Lemma loop_app r1 r2 s :
  responses_loop (r1 ++ r2) s =
  match responses_loop r1 s with inl s' => responses_loop r2 s' | inr r => inr r end.
Proof.
  revert s. induction r1 as [|i r1 IH]; intros s; simpl; [done|].
  destruct (responses_round i s); [apply IH|done].
Qed.

Lemma loop_keeps (P : FailoverState -> Prop) :
  (forall i s s', P s -> responses_round i s = inl s' -> P s') ->
  forall rounds s s', P s -> responses_loop rounds s = inl s' -> P s'.
Proof.
  intros HP rounds. induction rounds as [|i rounds IH]; intros s s' Hs; simpl.
  - by intros [= <-].
  - destruct (responses_round i s) as [s1|] eqn:E; [|done]. apply IH. by eapply HP.
Qed.

(** ** Termination *)

Section Termination.
Context (accounts : list Z) (L : Z) (Hnd : NoDup accounts) (HL : 0 <= L).

(** The rounds the loop is bounded for: candidates come from [accounts] with retry
    limits up to [L], and no error lifts the limits. *)
Definition bounded_round (i : Round) : Prop :=
  match selected i with
  | Some (a, limit) =>
      a ∈ accounts /\ limit <= L /\
      match admission i with
      | IsAdmitted (ForwardFailover e _) => bounded_retries e
      | _ => True
      end
  | None => True
  end.

Definition retries (a : Z) (s : FailoverState) : Z := default 0 (SameAccountRetryCount s !! a).
Definition sumZ (f : Z -> Z) (l : list Z) : Z := foldr (fun a n => f a + n) 0 l.
Definition budget (s : FailoverState) : Z := sumZ (fun a => L - retries a s) accounts.

Lemma sumZ_ext f g l : (forall a, a ∈ l -> f a = g a) -> sumZ f l = sumZ g l.
Proof.
  induction l as [|a l IH]; simpl; intros Hfg; [done|]. rewrite (Hfg a) by (by left).
  rewrite IH; [done|]. intros b Hb. apply Hfg. by right.
Qed.
Lemma sumZ_nonneg f l : (forall a, a ∈ l -> 0 <= f a) -> 0 <= sumZ f l.
Proof.
  induction l as [|a l IH]; simpl; intros Hf; [done|].
  assert (0 <= f a) by (apply Hf; by left). assert (0 <= sumZ f l) by (apply IH; intros; apply Hf; by right).
  lia.
Qed.
Lemma sumZ_bound f l : (forall a, a ∈ l -> f a <= L) -> sumZ f l <= L * Z.of_nat (length l).
Proof.
  induction l as [|a l IH]; cbn [sumZ foldr length]; intros Hf; [lia|].
  assert (f a <= L) by (apply Hf; by left).
  assert (sumZ f l <= L * Z.of_nat (length l)) by (apply IH; intros; apply Hf; by right).
  unfold sumZ in *. lia.
Qed.
(** One more retry on one account. *)
Lemma sumZ_update f g l a :
  NoDup l -> a ∈ l -> (forall b, b <> a -> g b = f b) -> g a = f a - 1 ->
  sumZ g l = sumZ f l - 1.
Proof.
  intros Hd Ha Hb Hga. induction Hd as [|x l Hx Hd IH]; simpl; [by apply elem_of_nil in Ha|].
  apply elem_of_cons in Ha as [<-|Ha].
  - rewrite Hga. rewrite (sumZ_ext g f); [lia|]. intros b Hin. apply Hb. by intros ->.
  - rewrite IH by done. rewrite Hb; [lia|]. by intros ->.
Qed.

Definition flag (s : FailoverState) : Z :=
  if bool_decide (FailedAccountIDs s ⊆ profitVetoedAccountIDs s) then 0 else 1.
Definition measure (s : FailoverState) : Z :=
  2 * (Z.max 0 (MaxSwitches s) - SwitchCount s + (maxProfitVetoAttempts - 1 - profitVetoCount s) +
       budget s) + flag s.

Definition Bounded (s : FailoverState) : Prop :=
  WF s /\ forall a, 0 <= retries a s <= L.

Lemma flag_range s : 0 <= flag s <= 1.
Proof. unfold flag. case_bool_decide; lia. Qed.
Lemma measure_nonneg s : Bounded s -> 0 <= measure s.
Proof.
  intros [[H1 H2 _] Hr]. unfold measure. pose proof (flag_range s).
  assert (0 <= budget s) by (apply sumZ_nonneg; intros a _; specialize (Hr a); lia). lia.
Qed.

Lemma budget_same s s' : SameAccountRetryCount s' = SameAccountRetryCount s -> budget s' = budget s.
Proof. unfold budget, retries. by intros ->. Qed.

Lemma round_decreases i s s' :
  bounded_round i -> Bounded s -> responses_round i s = inl s' ->
  Bounded s' /\ measure s' < measure s.
Proof.
  intros Hi [Hwf Hr] Hround. pose proof (WF_round _ _ _ Hwf Hround) as Hwf'.
  apply responses_round_effect in Hround.
  destruct Hround as [Hne Hall|a limit Hsel Had Hv|a limit e forced Hsel Had Hret|a limit e forced Hsel Had Hsw].
  - split; [by split|]. unfold measure. simpl. rewrite (budget_same s) by done.
    assert (Hf : flag s = 1); [|unfold flag at 1; simpl; rewrite bool_decide_true by done; lia].
    unfold flag. rewrite bool_decide_false; [done|]. intros Hsub.
    unfold allExclusionsAreProfitVetoed in Hall. revert Hall. repeat case_bool_decide; simpl; try done.
    set_solver.
  - split; [by split|]. unfold measure. simpl. rewrite (budget_same s) by done.
    assert (flag (RecordProfitVeto a s).1 <= flag s); [|unfold RecordProfitVeto in *; simpl in *; lia].
    unfold flag, RecordProfitVeto. simpl. repeat case_bool_decide; try lia. set_solver.
  - unfold bounded_round in Hi. rewrite Hsel, Had in Hi. destruct Hi as (Ha & Hlim & He).
    pose proof (retry_below_limit _ _ _ _ He Hret) as Hlt. fold (retries a s) in Hlt.
    pose proof (Hr a) as Hra. split.
    + split; [done|]. intros b. unfold retries. simpl. destruct (decide (b = a)) as [->|Hb].
      * rewrite lookup_insert_eq. simpl. fold (retries a s). lia.
      * rewrite lookup_insert_ne by done. apply Hr.
    + unfold measure. simpl. unfold flag. simpl. unfold budget at 1.
      rewrite (sumZ_update (fun a => L - retries a s) _ accounts a Hnd Ha); [unfold budget; lia| |].
      * intros b Hb. unfold retries; simpl. by rewrite lookup_insert_ne.
      * unfold retries; simpl. rewrite lookup_insert_eq. simpl. lia.
  - split; [by split|]. unfold measure. simpl. rewrite (budget_same s) by done.
    pose proof (flag_range s). pose proof (flag_range (s <| LastFailoverErr := Some e |>
      <| ForceCacheBilling := forced |> <| FailedAccountIDs := {[a]} ∪ FailedAccountIDs s |>
      <| SwitchCount := SwitchCount s + 1 |>)). lia.
Qed.

Lemma loop_length rounds s s' :
  Forall bounded_round rounds -> Bounded s -> responses_loop rounds s = inl s' ->
  Bounded s' /\ Z.of_nat (length rounds) <= measure s - measure s'.
Proof.
  revert s. induction rounds as [|i rounds IH]; intros s Hall Hs; simpl.
  - intros [= <-]. split; [done|lia].
  - apply Forall_cons in Hall as [Hi Hall]. destruct (responses_round i s) as [s1|] eqn:E; [|done].
    intros Hl. destruct (round_decreases i s s1 Hi Hs E) as [Hs1 Hm].
    destruct (IH s1 Hall Hs1 Hl) as [? ?]. split; [done|lia].
Qed.

Lemma Bounded_new m b : Bounded (NewFailoverState m b).
Proof. split; [apply WF_new|]. intros a. unfold retries; simpl. rewrite lookup_empty. simpl. lia. Qed.
Lemma measure_new m b :
  measure (NewFailoverState m b) <=
  2 * (Z.max 0 m + 9 + L * Z.of_nat (length accounts)).
Proof.
  unfold measure, flag. simpl. rewrite bool_decide_true by done.
  assert (budget (NewFailoverState m b) <= L * Z.of_nat (length accounts)).
  { apply sumZ_bound. intros a _. unfold retries; simpl. rewrite lookup_empty. simpl. lia. }
  unfold maxProfitVetoAttempts. lia.
Qed.
End Termination.

(** C18. The account selection loop ends.  If every account the selector may return is
    one of [accounts], none has a same-account retry limit above [L], and no error
    lifts the limits (a deadline without a cap), then after at most
    2 * (maxSwitches + 9 + L * number of accounts) rounds the loop has answered the
    request, whatever the selector, the profit gate, the upstream and the client do:
    neither the profit veto nor the 503 backoff, which clears the exclusions, lets it
    spin. *)
Theorem failover_loop_terminates (accounts : list Z) (L m : Z) (b : bool) (rounds : list Round) :
  NoDup accounts -> 0 <= L -> Forall (bounded_round accounts L) rounds ->
  2 * (Z.max 0 m + 9 + L * Z.of_nat (length accounts)) < Z.of_nat (length rounds) ->
  exists r, responses_loop rounds (NewFailoverState m b) = inr r.
Proof.
  intros Hnd HL Hall Hlen. destruct (responses_loop rounds _) as [s|r] eqn:E; [|by exists r].
  destruct (loop_length accounts L Hnd HL rounds _ s Hall (Bounded_new L HL m b) E) as [Hs Hm].
  pose proof (measure_new accounts L m b). pose proof (measure_nonneg accounts L s Hs). lia.
Qed.

(** The retry limits of accounts are at most 10, so with three accounts and ten
    switches the loop ends within 98 rounds. *)
Definition witness_error : UpstreamFailoverError :=
  MkUpstreamFailoverError 503 false true 0 None 0 false false false NextAccountLegacyRetry.
Definition witness_round (a : Z) : Round :=
  MkRound false false false 0 (Some (a, 10)) (IsAdmitted (ForwardFailover witness_error false)).
Lemma failover_loop_terminates_witness :
  exists r, responses_loop (replicate 99 (witness_round 2)) (NewFailoverState 10 false) = inr r.
Proof.
  assert (Hnd : NoDup [1; 2; 3]) by (by apply (bool_decide_unpack _)).
  apply (failover_loop_terminates [1; 2; 3] 10 10 false (replicate 99 (witness_round 2)) Hnd); try done.
  apply Forall_replicate. split; [by right; left|]. split; [done|by left].
Defined.

(** However the rounds go, while the loop is still running: it has switched at
    most [maxSwitches] times and vetoed fewer than [maxProfitVetoAttempts]; and an
    account that the profit gate vetoed is excluded from then on, although the 503
    backoff clears the exclusions. *)
Theorem failover_invariants (m : Z) (b : bool) (before after : list Round) (i : Round) s a limit :
  responses_loop (before ++ i :: after) (NewFailoverState m b) = inl s ->
  selected i = Some (a, limit) -> client_gone i = false -> admission i = ProfitVetoed ->
  a ∈ FailedAccountIDs s /\ SwitchCount s <= Z.max 0 m /\
  profitVetoCount s < maxProfitVetoAttempts.
Proof.
  intros Hl Hsel Hgone Had. rewrite loop_app in Hl.
  destruct (responses_loop before _) as [s1|] eqn:E1; [|done]. simpl in Hl.
  destruct (responses_round i s1) as [s2|] eqn:E2; [|done].
  assert (Hwf : WF s /\ MaxSwitches s = m).
  { assert (Hkeep := loop_keeps (fun s => WF s /\ MaxSwitches s = m)
      ltac:(intros i' x y [Hx Hm] Hr; split; [by eapply WF_round|by rewrite (MaxSwitches_round _ _ _ Hr)])).
    apply (Hkeep after s2 s); [|done]. cut (WF s1 /\ MaxSwitches s1 = m).
    - intros [Hx Hm]. split; [by eapply WF_round|by rewrite (MaxSwitches_round _ _ _ E2)].
    - exact (Hkeep before _ s1 (conj (WF_new m b) eq_refl) E1). }
  assert (Ha : a ∈ profitVetoedAccountIDs s).
  { apply (loop_keeps (fun s => a ∈ profitVetoedAccountIDs s)
      ltac:(intros i' x y Hx Hr; by apply (vetoed_round _ _ _ Hr)) after s2); [|done].
    unfold responses_round in E2. rewrite Hsel, Hgone, Had in E2. unfold RecordProfitVeto in E2.
    destruct (_ <=? _) in E2; [done|]. injection E2 as <-. simpl. set_solver. }
  destruct Hwf as [[H1 H2 H3] Hm]. rewrite Hm in H1. split_and!; [by apply H3|lia|lia].
Qed.

Lemma failover_invariants_witness :
  let veto := MkRound false false false 0 (Some (7, 3)) ProfitVetoed in
  let fail := MkRound false false false 0 (Some (2, 0))
    (IsAdmitted (ForwardFailover witness_error false)) in
  let backoff := MkRound false false false 0 None NoWaitPlan in
  exists s, responses_loop [veto; fail; backoff] (NewFailoverState 3 false) = inl s /\
    7 ∈ FailedAccountIDs s.
Proof.
  intros veto fail backoff.
  destruct (responses_loop ([] ++ veto :: [fail; backoff]) (NewFailoverState 3 false)) as [s|r] eqn:E;
    [|exfalso; revert E; by vm_compute].
  exists s. split; [exact E|].
  exact (proj1 (failover_invariants 3 false [] [fail; backoff] veto s 7 3 E eq_refl eq_refl eq_refl)).
Defined.

(** The delay before the n-th retry on the same account: the one the error
    asks for; else half a second, doubled with every further retry of a
    request-scoped failure up to eight seconds. *)
Theorem retry_delay_doubles (e : UpstreamFailoverError) (n : Z) :
  1 <= n ->
  sameAccountRetryDelayFor (Some e) n =
    if 0 <? SameAccountRetryDelay e then SameAccountRetryDelay e
    else if RequestScopedTransient e
         then Z.min (sameAccountRetryDelay * 2 ^ (n - 1)) maxRequestScopedRetryDelay
         else sameAccountRetryDelay.
Proof.
  intros Hn. unfold sameAccountRetryDelayFor. destruct (0 <? SameAccountRetryDelay e); [done|].
  destruct (RequestScopedTransient e); simpl; [|done].
  destruct (n <=? 1) eqn:E; bool_hyps.
  - replace n with 1 by lia. done.
  - rewrite backoff_spec by done. by rewrite Z2Nat.id by lia.
Qed.
Lemma retry_delay_doubles_witness :
  sameAccountRetryDelayFor (Some (MkUpstreamFailoverError 529 false true 0 None 0 true false false
    NextAccountLegacyRetry)) 4 = 4 * Second.
Proof. rewrite retry_delay_doubles by lia. by vm_compute. Defined.
