(* ===== verification/Idempotency.v ===== *)
(** * Idempotent execution

    [src/backend/internal/service/idempotency.go] and its PostgreSQL repository
    ([repository/idempotency_repo.go]): at most one caller of a key executes, the
    others replay its stored response or are refused.  [Execute] is a machine whose
    states are the points where it calls out (the clock, a SQL statement, the
    executor), so that callers interleave there; what a statement does to the table
    is written out from its SQL.  Metrics, audit logs and the renewal of leases
    ([ExecutionTimeout] > 0) are left out.  Instants and durations are nanoseconds. *)

From S2P Require Import Prelude Json ConcurrencyCache.
Local Open Scope string_scope.
Local Open Scope Z_scope.
Local Open Scope list_scope.
Local Open Scope go_scope.

(** ** Redaction ([internal/util/logredact]) *)

Definition maxRedactDepth : nat := 32.
Definition defaultSensitiveKeys : list string :=
  ["authorization_code"; "code"; "code_verifier"; "access_token"; "refresh_token"; "id_token";
   "client_secret"; "password"].

Definition lower_ascii (c : Ascii.ascii) : Ascii.ascii :=
  if in_range 65 90 (code c) then Ascii.ascii_of_nat (code c + 32) else c.
Definition upper_ascii (c : Ascii.ascii) : Ascii.ascii :=
  if in_range 97 122 (code c) then Ascii.ascii_of_nat (code c - 32) else c.
Fixpoint string_map (f : Ascii.ascii -> Ascii.ascii) (s : string) : string :=
  match s with EmptyString => EmptyString | String c s => String (f c) (string_map f s) end.
(** [strings.ToLower] and [strings.ToUpper] on ASCII letters. *)
Definition ToLower : string -> string := string_map lower_ascii.
Definition ToUpper : string -> string := string_map upper_ascii.

Definition normalizeKey (key : string) : string := ToLower (TrimSpace key).
Definition isSensitiveKey (key : string) : bool :=
  existsb (String.eqb (normalizeKey key)) defaultSensitiveKeys.

Fixpoint redactValueWithDepth (depth : nat) (v : json) : json :=
  if Nat.ltb maxRedactDepth depth then JStr "<depth limit exceeded>"
  else
    match v with
    | JObj l =>
        JObj (map (fun '(k, v) =>
                     (k, if isSensitiveKey k then JStr "***" else redactValueWithDepth (S depth) v)) l)
    | JArr l => JArr (map (redactValueWithDepth (S depth)) l)
    | v => v
    end.

(** ** Keys and fingerprints *)

Inductive IdempotencyError :=
  | ErrKeyRequired
  | ErrKeyInvalid
  | ErrScopeRequired
  | ErrInvalidPayload
  | ErrKeyConflict
  | ErrInProgress (retry_after : option Z)
  | ErrRetryBackoff (retry_after : option Z)
  | ErrStoreUnavail
  | ErrExecution (err : string).         (* the executor's own error, by its reason *)

Definition NormalizeIdempotencyKey (raw : string) : string + IdempotencyError :=
  let key := TrimSpace raw in
  if key =?s "" then inl ""
  else if (128 <? String.length key)%nat then inr ErrKeyInvalid
  else if forallb (fun p => (33 <=? p.1) && (p.1 <=? 126)) (runes key) then inl key
  else inr ErrKeyInvalid.

Definition newline : string := String (Ascii.ascii_of_nat 10) EmptyString.
(** What is hashed: [None] when the payload does not marshal. *)
Definition fingerprint_text (method route actorScope : string) (payload : option string) :
    option string :=
  let method := if method =?s "" then "POST" else method in
  let route := if route =?s "" then "/" else route in
  let actorScope := if actorScope =?s "" then "anonymous" else actorScope in
  raw ← payload;
  Some (ToUpper method +:+ newline +:+ route +:+ newline +:+ actorScope +:+ newline +:+ raw).

(** ** Stored responses *)

Section Responses.
(** How a number literal in the range of float64 reads after a round trip through it;
    literals out of range, which [json.Unmarshal] rejects, are not modelled. *)
Context (float_text : string -> string).

Fixpoint floats (v : json) : json :=
  match v with
  | JNum raw => JNum (float_text raw)
  | JArr l => JArr (map floats l)
  | JObj l => JObj (map (fun '(k, v) => (k, floats v)) l)
  | v => v
  end.
(** [json.Unmarshal] into [any]. *)
Definition unmarshal_any (s : string) : option json := v ← json_parse s; Some (floats v).

(** [RedactText] of valid JSON is [RedactJSON]; what [json.Marshal] returned is valid. *)
Definition RedactJSON (raw : string) : string :=
  if raw =?s "" then ""
  else
    match unmarshal_any raw with
    | None => "<non-json payload redacted>"
    | Some v => json_marshal (redactValueWithDepth 0 v)
    end.

Fixpoint truncate_from (n : nat) (s : string) : string :=
  if utf8_valid (str_take n s) then str_take n s
  else match n with O => "" | S n => truncate_from n s end.
Definition truncateUTF8 (s : string) (maxBytes : Z) : string :=
  if (maxBytes <=? 0) || (Z.of_nat (String.length s) <=? maxBytes) then s
  else truncate_from (Z.to_nat maxBytes) s.

Definition marshalStoredResponse (MaxStoredResponseLen : Z) (data : option json) : option string :=
  v ← data;
  let redacted := RedactJSON (TrimSpace (json_marshal v)) in
  Some (if (0 <? MaxStoredResponseLen) && (MaxStoredResponseLen <? Z.of_nat (String.length redacted))
        then truncateUTF8 redacted MaxStoredResponseLen +:+ "...(truncated)"
        else redacted).

Definition decodeStoredResponse (stored : option string) : option json :=
  match stored with
  | None => Some (JObj [])
  | Some s => if TrimSpace s =?s "" then Some (JObj []) else unmarshal_any s
  end.
End Responses.

(** ** The table *)

Inductive RecordStatus := Processing | Succeeded | FailedRetryable.
#[export] Instance RecordStatus_eq_dec : EqDecision RecordStatus.
Proof. solve_decision. Defined.

Record IdempotencyRecord := MkIdempotencyRecord {
  Scope : string;
  IdempotencyKeyHash : string;
  RequestFingerprint : string;
  Status : RecordStatus;
  ResponseStatus : option Z;
  ResponseBody : option string;
  ErrorReason : option string;
  LockedUntil : option Z;
  ExpiresAt : Z;
}.
#[export] Instance eta_IdempotencyRecord : Eta IdempotencyRecord := fun r =>
  MkIdempotencyRecord (Scope r) (IdempotencyKeyHash r) (RequestFingerprint r) (Status r)
    (ResponseStatus r) (ResponseBody r) (ErrorReason r) (LockedUntil r) (ExpiresAt r).

(** Rows by id; ids come from a sequence. *)
Record Table := MkTable {
  rows : gmap Z IdempotencyRecord;
  next_id : Z;
}.
#[export] Instance eta_Table : Eta Table := fun t => MkTable (rows t) (next_id t).

Definition has_key (scope hash : string) (r : IdempotencyRecord) : bool :=
  (Scope r =?s scope) && (IdempotencyKeyHash r =?s hash).
(** [WHERE scope = $1 AND idempotency_key_hash = $2]; the pair is unique. *)
Definition find_row (scope hash : string) (t : Table) : option (Z * IdempotencyRecord) :=
  head (List.filter (fun p => has_key scope hash p.2) (map_to_list (rows t))).

(** The id of the new row; [None]: ON CONFLICT DO NOTHING. *)
Definition CreateProcessing (scope hash fingerprint : string) (locked expires : Z) (t : Table) :
    Table * option Z :=
  match find_row scope hash t with
  | Some _ => (t, None)
  | None =>
      let r := MkIdempotencyRecord scope hash fingerprint Processing None None None (Some locked)
                 expires in
      (MkTable (<[next_id t := r]> (rows t)) (next_id t + 1), Some (next_id t))
  end.

Definition GetByScopeAndKeyHash (scope hash : string) (t : Table) :
    Table * option (Z * IdempotencyRecord) := (t, find_row scope hash t).

(** [UPDATE ... WHERE id = $1 AND cond]: whether a row was affected. *)
Definition update_row (id : Z) (cond : IdempotencyRecord -> bool)
    (f : IdempotencyRecord -> IdempotencyRecord) (t : Table) : Table * bool :=
  match rows t !! id with
  | Some r => if cond r then (t <| rows := <[id := f r]> (rows t) |>, true) else (t, false)
  | None => (t, false)
  end.

Definition TryReclaim (id : Z) (from : RecordStatus) (now newLocked newExpires : Z) :
    Table -> Table * bool :=
  update_row id
    (fun r => bool_decide (Status r = from) &&
              match LockedUntil r with None => true | Some l => l <=? now end)
    (fun r => r <| Status := Processing |> <| LockedUntil := Some newLocked |>
                <| ErrorReason := None |> <| ExpiresAt := newExpires |>).

Definition ExtendProcessingLock (id : Z) (fingerprint : string) (newLocked newExpires : Z) :
    Table -> Table * bool :=
  update_row id
    (fun r => bool_decide (Status r = Processing) && (RequestFingerprint r =?s fingerprint))
    (fun r => r <| LockedUntil := Some newLocked |> <| ExpiresAt := newExpires |>).

Definition MarkSucceeded (id responseStatus : Z) (body : string) (expires : Z) (t : Table) :
    Table * () :=
  ((update_row id (fun _ => true)
     (fun r => r <| Status := Succeeded |> <| ResponseStatus := Some responseStatus |>
                 <| ResponseBody := Some body |> <| ErrorReason := None |>
                 <| LockedUntil := None |> <| ExpiresAt := expires |>) t).1, tt).
Definition MarkFailedRetryable (id : Z) (reason : string) (locked expires : Z) (t : Table) :
    Table * () :=
  ((update_row id (fun _ => true)
     (fun r => r <| Status := FailedRetryable |> <| ErrorReason := Some reason |>
                 <| LockedUntil := Some locked |> <| ExpiresAt := expires |>) t).1, tt).

(** ORDER BY expires_at ASC LIMIT: ties in the order of the ids. *)
Fixpoint insert_expiry (x : Z * Z) (l : list (Z * Z)) : list (Z * Z) :=
  match l with
  | [] => [x]
  | y :: l' => if (x.1 <? y.1) || ((x.1 =? y.1) && (x.2 <=? y.2)) then x :: l
               else y :: insert_expiry x l'
  end.
Definition victims (now limit : Z) (t : Table) : list Z :=
  take (Z.to_nat limit)
    (map snd (foldr insert_expiry [] (map (fun p => (ExpiresAt p.2, p.1))
      (List.filter (fun p => ExpiresAt p.2 <=? now) (map_to_list (rows t)))))).
Definition DeleteExpired (now limit : Z) (t : Table) : Table * Z :=
  let limit := if limit <=? 0 then 500 else limit in
  let ids := victims now limit t in
  (t <| rows := foldr (fun id m => delete id m) (rows t) ids |>, Z.of_nat (length ids)).

(** ** [Execute] *)

Record IdempotencyConfig := MkIdempotencyConfig {
  DefaultTTL : Z;
  SystemOperationTTL : Z;
  ProcessingTimeout : Z;
  FailedRetryBackoff : Z;
  MaxStoredResponseLen : Z;
  ObserveOnly : bool;
}.
Definition DefaultIdempotencyConfig : IdempotencyConfig :=
  MkIdempotencyConfig (24 * 60 * Minute) (60 * Minute) (30 * 1000 * Millisecond)
    (5 * 1000 * Millisecond) (64 * 1024) true.

Record IdempotencyExecuteOptions := MkIdempotencyExecuteOptions {
  opt_Scope : string;
  opt_ActorScope : string;
  opt_Method : string;
  opt_Route : string;
  opt_IdempotencyKey : string;
  opt_Payload : option string;            (* marshalled *)
  opt_TTL : Z;
  opt_RequireKey : bool;
}.

(** What the executor returns: data (marshalled, if it can be) or an error. *)
Inductive ExecResult :=
  | ExecData (data : option json)
  | ExecError (err : string).

Inductive Result :=
  | RData (data : option json) (replayed : bool)
  | RError (e : IdempotencyError).

(** A keyed request, after the checks that need no store. *)
Record Claim := MkClaim {
  c_scope : string;
  c_hash : string;
  c_fingerprint : string;
  c_ttl : Z;
}.

(** Where the machine is: what it calls next. *)
Inductive State :=
  | SDirect                                              (* execute without a key *)
  | SNow                                                 (* time.Now() *)
  | SCreate (now : Z)
  | SGet (now : Z)
  | SReclaimExpired (now id : Z) (existing : IdempotencyRecord)
  | SGetAgain (now : Z)
  | SReclaim (now id : Z) (existing : IdempotencyRecord)
  | SExecute (id expires : Z)
  | SBackoffNow (id expires : Z) (err : string)          (* time.Now() *)
  | SMarkFailed (id expires : Z) (err : string) (backoffUntil : Z)
  | SMarkSucceeded (id expires : Z) (body : string) (data : option json)
  | SDone (r : Result).

Section Execute.
Context (sha256_hex : string -> string) (float_text : string -> string).
Context (cfg : IdempotencyConfig).

(** The part before the clock is read. *)
Definition prepare (o : IdempotencyExecuteOptions) : Claim * State :=
  let none := MkClaim "" "" "" 0 in
  match NormalizeIdempotencyKey (opt_IdempotencyKey o) with
  | inr e => (none, SDone (RError e))
  | inl key =>
      if key =?s "" then
        (none, if opt_RequireKey o && negb (ObserveOnly cfg) then SDone (RError ErrKeyRequired)
               else SDirect)
      else if opt_Scope o =?s "" then (none, SDone (RError ErrScopeRequired))
      else
        match fingerprint_text (opt_Method o) (opt_Route o) (opt_ActorScope o) (opt_Payload o) with
        | None => (none, SDone (RError ErrInvalidPayload))
        | Some text =>
            (MkClaim (opt_Scope o) (sha256_hex key) (sha256_hex text)
               (if opt_TTL o <=? 0 then DefaultTTL cfg else opt_TTL o), SNow)
        end
  end.

Definition conflictWithRetryAfter (locked : option Z) (now : Z) : option Z :=
  match locked with
  | None => None
  | Some l => let sec := Z.quot (l - now) (1000 * Millisecond) in
              Some (if sec <=? 0 then 1 else sec)
  end.

(** [switch existing.Status], when the record was not reclaimed as expired. *)
Definition by_status (now id : Z) (existing : IdempotencyRecord) : State :=
  match Status existing with
  | Succeeded =>
      match decodeStoredResponse float_text (ResponseBody existing) with
      | Some data => SDone (RData (Some data) true)
      | None => SDone (RError ErrStoreUnavail)
      end
  | Processing => SDone (RError (ErrInProgress (conflictWithRetryAfter (LockedUntil existing) now)))
  | FailedRetryable =>
      match LockedUntil existing with
      | Some l => if now <? l
                  then SDone (RError (ErrRetryBackoff (conflictWithRetryAfter (Some l) now)))
                  else SReclaim now id existing
      | None => SReclaim now id existing
      end
  end.

Definition claimed (id expires : Z) : State :=
  if id =? 0 then SDone (RError ErrStoreUnavail) else SExecute id expires.

(** After each call; [None] is its error. *)
Definition after_create (c : Claim) (now : Z) (r : option (option Z)) : State :=
  match r with
  | None => SDone (RError ErrStoreUnavail)
  | Some (Some id) => claimed id (now + c_ttl c)
  | Some None => SGet now
  end.
Definition after_get (c : Claim) (now : Z) (r : option (option (Z * IdempotencyRecord))) : State :=
  match r with
  | Some (Some (id, existing)) =>
      if negb (RequestFingerprint existing =?s c_fingerprint c) then SDone (RError ErrKeyConflict)
      else if ExpiresAt existing <=? now then SReclaimExpired now id existing
      else by_status now id existing
  | _ => SDone (RError ErrStoreUnavail)
  end.
Definition after_reclaim_expired (c : Claim) (now id : Z) (r : option bool) : State :=
  match r with
  | None => SDone (RError ErrStoreUnavail)
  | Some true => claimed id (now + c_ttl c)
  | Some false => SGetAgain now
  end.
Definition after_get_again (c : Claim) (now : Z) (r : option (option (Z * IdempotencyRecord))) :
    State :=
  match r with
  | Some (Some (id, latest)) =>
      if negb (RequestFingerprint latest =?s c_fingerprint c) then SDone (RError ErrKeyConflict)
      else by_status now id latest
  | _ => SDone (RError ErrStoreUnavail)
  end.
Definition after_reclaim (c : Claim) (now id : Z) (existing : IdempotencyRecord) (r : option bool) :
    State :=
  match r with
  | None => SDone (RError ErrStoreUnavail)
  | Some true => claimed id (now + c_ttl c)
  | Some false => SDone (RError (ErrInProgress (conflictWithRetryAfter (LockedUntil existing) now)))
  end.
Definition after_execute (id expires : Z) (r : ExecResult) : State :=
  match r with
  | ExecError err => SBackoffNow id expires err
  | ExecData data =>
      match marshalStoredResponse float_text (MaxStoredResponseLen cfg) data with
      | None => SDone (RError ErrStoreUnavail)
      | Some body => SMarkSucceeded id expires body data
      end
  end.

(** How a statement ends: with its result, or with an error before or after the
    database executed it. *)
Inductive Outcome := Answered | Refused | ReplyLost.
Definition statement {A} (o : Outcome) (q : Table -> Table * A) (t : Table) : Table * option A :=
  match o with
  | Answered => ((q t).1, Some (q t).2)
  | Refused => (t, None)
  | ReplyLost => ((q t).1, None)
  end.

(** The next call of a request: the clock reads [now], the statement ends with [o],
    the executor returns [x]. *)
Definition exec_step (c : Claim) (now : Z) (o : Outcome) (x : ExecResult) (s : State) (t : Table) :
    Table * State :=
  match s with
  | SDirect => (t, match x with
                   | ExecData d => SDone (RData d false)
                   | ExecError e => SDone (RError (ErrExecution e))
                   end)
  | SNow => (t, SCreate now)
  | SCreate n =>
      let '(t, r) := statement o (CreateProcessing (c_scope c) (c_hash c) (c_fingerprint c)
                                    (n + ProcessingTimeout cfg) (n + c_ttl c)) t in
      (t, after_create c n r)
  | SGet n =>
      let '(t, r) := statement o (GetByScopeAndKeyHash (c_scope c) (c_hash c)) t in
      (t, after_get c n r)
  | SReclaimExpired n id ex =>
      let '(t, r) := statement o (TryReclaim id (Status ex) n (n + ProcessingTimeout cfg)
                                    (n + c_ttl c)) t in
      (t, after_reclaim_expired c n id r)
  | SGetAgain n =>
      let '(t, r) := statement o (GetByScopeAndKeyHash (c_scope c) (c_hash c)) t in
      (t, after_get_again c n r)
  | SReclaim n id ex =>
      let '(t, r) := statement o (TryReclaim id FailedRetryable n (n + ProcessingTimeout cfg)
                                    (n + c_ttl c)) t in
      (t, after_reclaim c n id ex r)
  | SExecute id e => (t, after_execute id e x)
  | SBackoffNow id e err => (t, SMarkFailed id e err (now + FailedRetryBackoff cfg))
  | SMarkFailed id e err until =>
      let reason := if err =?s "" then "EXECUTION_FAILED" else err in
      let '(t, _) := statement o (MarkFailedRetryable id reason until e) t in
      (t, SDone (RError (ErrExecution err)))
  | SMarkSucceeded id e body data =>
      let '(t, r) := statement o (MarkSucceeded id 200 body e) t in
      (t, match r with
          | None => SDone (RError ErrStoreUnavail)
          | Some _ => SDone (RData data false)
          end)
  | SDone r => (t, SDone r)
  end.

(** [Execute] undisturbed, at one instant: nobody else's statements come between its
    own, and all are answered.  Nine calls are the longest path. *)
Fixpoint run (fuel : nat) (c : Claim) (now : Z) (x : ExecResult) (s : State) (t : Table) :
    Table * option Result :=
  match s, fuel with
  | SDone r, _ => (t, Some r)
  | _, O => (t, None)
  | s, S fuel => let '(t, s) := exec_step c now Answered x s t in run fuel c now x s t
  end.
Definition Execute (o : IdempotencyExecuteOptions) (now : Z) (x : ExecResult) (t : Table) :
    Table * option Result := let '(c, s) := prepare o in run 9 c now x s t.

(** ** Requests on one table *)

Record World := MkWorld {
  w_clock : Z;
  w_table : Table;
  w_requests : list (Claim * State);
}.

(** A request that [allowed] admits starts, a request makes its next call, time
    passes, or the cleanup service runs ([IdempotencyCleanupService.cleanupOnce], with
    a clock reading that may be old).  [timely] says when the clock may advance to an
    instant. *)
Inductive world_step (allowed : IdempotencyExecuteOptions -> Prop) (timely : World -> Z -> Prop) :
    World -> World -> Prop :=
  | world_start now t rs o :
      allowed o ->
      world_step allowed timely (MkWorld now t rs) (MkWorld now t (rs ++ [prepare o]))
  | world_call now t rs i c s o x :
      rs !! i = Some (c, s) ->
      world_step allowed timely (MkWorld now t rs)
        (MkWorld now (exec_step c now o x s t).1 (<[i := (c, (exec_step c now o x s t).2)]> rs))
  | world_time now now' t rs :
      now <= now' -> timely (MkWorld now t rs) now' ->
      world_step allowed timely (MkWorld now t rs) (MkWorld now' t rs)
  | world_cleanup now n limit t rs :
      n <= now ->
      world_step allowed timely (MkWorld now t rs) (MkWorld now (DeleteExpired n limit t).1 rs).
End Execute.
