(* ===== verification/IdempotencyProofs.v ===== *)
(** * At most one caller executes

    The invariant of concurrent requests on one key, and what the stored response
    gives later callers. *)

From S2P Require Import Prelude Json ConcurrencyCache Idempotency.
Local Open Scope string_scope.
Local Open Scope Z_scope.
Local Open Scope list_scope.
Local Open Scope go_scope.

(** ** The table *)

Definition key_of (r : IdempotencyRecord) : string * string := (Scope r, IdempotencyKeyHash r).

Lemma has_key_spec s h r : has_key s h r = true <-> key_of r = (s, h).
Proof.
  unfold has_key, key_of. rewrite andb_true_iff, !String.eqb_eq. naive_solver.
Qed.

Lemma find_row_Some s h t id r :
  find_row s h t = Some (id, r) -> rows t !! id = Some r /\ key_of r = (s, h).
Proof.
  unfold find_row. intros Hh. apply head_Some_elem_of in Hh.
  apply list_elem_of_In, filter_In in Hh as [Hin Hk]. apply has_key_spec in Hk. simpl in Hk.
  split; [|done]. by apply list_elem_of_In, elem_of_map_to_list in Hin.
Qed.
Lemma find_row_None s h t id r :
  find_row s h t = None -> rows t !! id = Some r -> key_of r <> (s, h).
Proof.
  unfold find_row. intros Hh Hr Hk. apply head_None in Hh.
  assert (Hin : (id, r) ∈ List.filter (fun p => has_key s h p.2) (map_to_list (rows t))).
  { apply list_elem_of_In, filter_In. split; [|by apply has_key_spec].
    by apply list_elem_of_In, elem_of_map_to_list. }
  rewrite Hh in Hin. by apply elem_of_nil in Hin.
Qed.

Record TableOk (t : Table) : Prop := {
  ids_ok : forall id r, rows t !! id = Some r -> id < next_id t;
  keys_unique : forall i j r q,
    rows t !! i = Some r -> rows t !! j = Some q -> key_of r = key_of q -> i = j;
}.

(** What one statement did to the table: at most one row was changed or added. *)
Inductive table_effect (t : Table) : Table -> Prop :=
  | no_effect : table_effect t t
  | updated id r q :
      rows t !! id = Some r -> key_of q = key_of r ->
      table_effect t (t <| rows := <[id := q]> (rows t) |>)
  | inserted r :
      (forall id q, rows t !! id = Some q -> key_of q <> key_of r) ->
      table_effect t (MkTable (<[next_id t := r]> (rows t)) (next_id t + 1)).

Lemma effect_ok t t' : TableOk t -> table_effect t t' -> TableOk t'.
Proof.
  intros [H1 H2] He. destruct He as [|id r q Hr Hq|r Hfresh]; [done| |].
  - assert (Hold : forall i x, <[id := q]> (rows t) !! i = Some x ->
      exists x0, rows t !! i = Some x0 /\ key_of x0 = key_of x).
    { intros i x [[-> ->]|[_ Hx]]%lookup_insert_Some; [by exists r|by exists x]. }
    split; simpl.
    + intros i x (x0 & Hx & _)%Hold. by eapply H1.
    + intros i j x y (x0 & Hx & E1)%Hold (y0 & Hy & E2)%Hold E. eapply H2; [done|done|congruence].
  - split; simpl.
    + intros i x [[-> ->]|[_ Hx]]%lookup_insert_Some; [lia|]. specialize (H1 _ _ Hx). lia.
    + intros i j x y [[<- <-]|[? Hx]]%lookup_insert_Some [[<- <-]|[? Hy]]%lookup_insert_Some E;
        [done| | |by eapply H2].
      * by destruct (Hfresh j y Hy).
      * by destruct (Hfresh i x Hx).
Qed.

Lemma update_effect id cond f t :
  (forall r, key_of (f r) = key_of r) -> table_effect t (update_row id cond f t).1.
Proof.
  intros Hf. unfold update_row. destruct (rows t !! id) as [r|] eqn:E; [|constructor].
  destruct (cond r); [|constructor]. by eapply updated.
Qed.
Lemma update_other id cond f t j :
  j <> id -> rows (update_row id cond f t).1 !! j = rows t !! j.
Proof.
  intros Hj. unfold update_row. destruct (rows t !! id) as [r|]; [|done].
  destruct (cond r); [|done]. simpl. by rewrite lookup_insert_ne.
Qed.
Lemma update_next id cond f t : next_id (update_row id cond f t).1 = next_id t.
Proof. unfold update_row. destruct (rows t !! id) as [r|]; [|done]. by destruct (cond r). Qed.

Lemma insert_expiry_in x l y : In y (insert_expiry x l) -> y = x \/ In y l.
Proof.
  induction l as [|z l IH]; simpl; [naive_solver|].
  destruct (_ || _); simpl; naive_solver.
Qed.
Lemma sorted_in l y : In y (foldr insert_expiry [] l) -> In y l.
Proof.
  induction l as [|x l IH]; [done|]. simpl. intros [->|H]%insert_expiry_in; auto.
Qed.
Lemma victims_expired now limit t id :
  In id (victims now limit t) -> exists r, rows t !! id = Some r /\ ExpiresAt r <= now.
Proof.
  unfold victims. intros Hin. apply list_elem_of_In, elem_of_take in Hin as (k & Hin & _).
  apply list_elem_of_lookup_2, list_elem_of_In, in_map_iff in Hin as ([e id'] & <- & Hin).
  apply sorted_in, in_map_iff in Hin as ([id2 r] & [= <- <-] & Hin).
  apply filter_In in Hin as [Hin He]. simpl in *. bool_hyps. exists r. split; [|done].
  by apply elem_of_map_to_list, list_elem_of_In.
Qed.
Lemma lookup_deletes (ids : list Z) (m : gmap Z IdempotencyRecord) id :
  foldr (fun id m => delete id m) m ids !! id = (if decide (id ∈ ids) then None else m !! id).
Proof.
  induction ids as [|x l IH]; simpl; [done|].
  destruct (decide (x = id)) as [->|Hne].
  - rewrite lookup_delete_eq, decide_True; [done|by left].
  - rewrite lookup_delete_ne, IH by done. apply decide_ext. rewrite elem_of_cons. naive_solver.
Qed.
(** The cleanup deletes expired records only, and changes no other. *)
Lemma cleanup_some now limit t id r :
  rows (DeleteExpired now limit t).1 !! id = Some r -> rows t !! id = Some r.
Proof. unfold DeleteExpired; cbn. rewrite lookup_deletes. by destruct (decide _). Qed.
Lemma cleanup_alive now limit t id r :
  rows t !! id = Some r -> now < ExpiresAt r -> rows (DeleteExpired now limit t).1 !! id = Some r.
Proof.
  intros Hr He. unfold DeleteExpired; cbn. rewrite lookup_deletes.
  destruct (decide _) as [(q & Hq & Hle)%list_elem_of_In%victims_expired|]; [|done].
  rewrite Hr in Hq. injection Hq as <-. lia.
Qed.

(** ** Phases of a request *)

(** The clock reading a request goes by until it has claimed. *)
Definition reading (s : State) : option Z :=
  match s with
  | SCreate n | SGet n | SGetAgain n | SReclaimExpired n _ _ | SReclaim n _ _ => Some n
  | _ => None
  end.
Definition reclaiming (s : State) : option (Z * Z) :=
  match s with SReclaimExpired n id _ | SReclaim n id _ => Some (n, id) | _ => None end.
(** The record it has claimed and not yet marked, and the expiry it gave it. *)
Definition owner (s : State) : option (Z * Z) :=
  match s with
  | SExecute id e | SBackoffNow id e _ | SMarkFailed id e _ _ | SMarkSucceeded id e _ _ => Some (id, e)
  | _ => None
  end.
Lemma reclaiming_reading s n id : reclaiming s = Some (n, id) -> reading s = Some n.
Proof. by destruct s; try done; intros [= -> ->]. Qed.
Definition claim_key (c : Claim) : string * string := (c_scope c, c_hash c).

Section Exclusion.
Context (sha256_hex : string -> string) (float_text : string -> string).
Context (cfg : IdempotencyConfig) (Htimeout : 0 < ProcessingTimeout cfg).

(** The record's lifetime covers the processing timeout. *)
Definition long_lived (o : IdempotencyExecuteOptions) : Prop :=
  ProcessingTimeout cfg <= (if opt_TTL o <=? 0 then DefaultTTL cfg else opt_TTL o).

(** Requests are not slower than their leases: the clock reaches an instant only
    after every request whose reading is a processing timeout older has claimed or
    given up, and every request whose record expires then has marked it. *)
Definition timely (w : World) (now' : Z) : Prop :=
  forall i c s, w_requests w !! i = Some (c, s) ->
    (forall n, reading s = Some n -> now' < n + ProcessingTimeout cfg) /\
    (forall id e, owner s = Some (id, e) -> now' < e).

Record owns (c : Claim) (id e now : Z) (t : Table) (r : IdempotencyRecord) (l : Z) : Prop := {
  own_row : rows t !! id = Some r;
  own_key : key_of r = claim_key c;
  own_status : Status r = Processing;
  own_expires : ExpiresAt r = e;
  own_alive : now < e;
  own_lock : LockedUntil r = Some l;
}.

Record request_ok (now : Z) (t : Table) (c : Claim) (s : State) : Prop := {
  ok_ttl : s = SNow \/ is_Some (reading s) -> ProcessingTimeout cfg <= c_ttl c;
  ok_reading : forall n, reading s = Some n -> n <= now < n + ProcessingTimeout cfg;
  ok_reclaiming : forall n id, reclaiming s = Some (n, id) ->
    id < next_id t /\ forall r, rows t !! id = Some r -> key_of r = claim_key c;
  ok_owner : forall id e, owner s = Some (id, e) -> exists r l, owns c id e now t r l;
}.

(** Two requests: they do not own the same record, and what one owns is locked
    beyond the other's reading. *)
Record pair_ok (t : Table) (c : Claim) (s : State) (c' : Claim) (s' : State) : Prop := {
  pair_owners : forall id e id' e', owner s = Some (id, e) -> owner s' = Some (id', e') -> id <> id';
  pair_lock : forall id e n id', owner s = Some (id, e) -> reclaiming s' = Some (n, id') ->
    claim_key c = claim_key c' ->
    forall r l, rows t !! id = Some r -> LockedUntil r = Some l -> n < l;
}.

Record WorldInv (w : World) : Prop := {
  inv_table : TableOk (w_table w);
  inv_request : forall i c s, w_requests w !! i = Some (c, s) ->
    request_ok (w_clock w) (w_table w) c s;
  inv_pair : forall i j c s c' s', i <> j ->
    w_requests w !! i = Some (c, s) -> w_requests w !! j = Some (c', s') ->
    pair_ok (w_table w) c s c' s';
}.

(** ** One request moves *)

Section Move.
Context (now : Z) (t t' : Table) (rs : list (Claim * State)) (i : nat) (c : Claim) (s s' : State).
Context (Hinv : WorldInv (MkWorld now t rs)) (Hi : rs !! i = Some (c, s)).
Context (Heff : table_effect t t').
(** No other request's record changes. *)
Context (Hframe : forall j c2 s2 id e, j <> i -> rs !! j = Some (c2, s2) ->
  owner s2 = Some (id, e) -> rows t' !! id = rows t !! id).

Lemma other_ok j c2 s2 : j <> i -> rs !! j = Some (c2, s2) -> request_ok now t' c2 s2.
Proof.
  intros Hj H2. destruct (inv_request _ Hinv j c2 s2 H2) as [H1 Hr Hc Ho]; simpl in *. split; [done|done| |].
  - intros n id Hrec. destruct (Hc n id Hrec) as [Hlt Hk].
    destruct Heff as [|id' r q Hid Hq|r Hfresh]; simpl; [done| |].
    + split; [done|]. intros x [[-> ->]|[_ Hx]]%lookup_insert_Some; [|by apply Hk].
      rewrite Hq. by apply Hk.
    + split; [lia|]. intros x [[<- _]|[_ Hx]]%lookup_insert_Some; [lia|by apply Hk].
  - intros id e Hown. destruct (Ho id e Hown) as (r & l & [? ? ? ? ? ?]). exists r, l. split; try done.
    by rewrite (Hframe j c2 s2 id e).
Qed.
Lemma other_pair j k c2 s2 c3 s3 : j <> i -> k <> i -> j <> k ->
  rs !! j = Some (c2, s2) -> rs !! k = Some (c3, s3) -> pair_ok t' c2 s2 c3 s3.
Proof.
  intros Hj Hk Hjk H2 H3. destruct (inv_pair _ Hinv j k _ _ _ _ Hjk H2 H3) as [P1 P2]; simpl in *.
  split; [done|]. intros id e n id' Hown Hrec Hkey r l. rewrite (Hframe j c2 s2 id e) by done. by eapply P2.
Qed.

Lemma inv_move :
  request_ok now t' c s' ->
  (forall j c2 s2, j <> i -> rs !! j = Some (c2, s2) ->
     pair_ok t' c s' c2 s2 /\ pair_ok t' c2 s2 c s') ->
  WorldInv (MkWorld now t' (<[i := (c, s')]> rs)).
Proof.
  intros Hok Hpair. split; simpl.
  - eapply effect_ok; [apply (inv_table _ Hinv)|done].
  - intros j c2 s2 Hj. apply list_lookup_insert_Some in Hj as [(<- & [= <- <-] & _)|[Hj H2]]; [done|].
    by apply (other_ok j).
  - intros j k c2 s2 c3 s3 Hjk Hj Hk.
    apply list_lookup_insert_Some in Hj as [(<- & [= <- <-] & _)|[Hj H2]];
      apply list_lookup_insert_Some in Hk as [(<- & [= <- <-] & _)|[Hk H3]].
    + done.
    + by apply (Hpair k).
    + by apply (Hpair j).
    + by apply (other_pair j k).
Qed.

(** Out of the protocol, or only reading. *)
Lemma inv_quit :
  owner s' = None -> reclaiming s' = None ->
  (s' = SNow \/ is_Some (reading s') -> ProcessingTimeout cfg <= c_ttl c) ->
  (forall n, reading s' = Some n -> n <= now < n + ProcessingTimeout cfg) ->
  WorldInv (MkWorld now t' (<[i := (c, s')]> rs)).
Proof.
  intros Ho Hc Ht Hn. apply inv_move.
  - split; [done|done| |]; congruence.
  - intros j c2 s2 _ _. split; split; congruence.
Qed.

(** A claim: the record is locked from the request's reading on. *)
Lemma inv_claim id n r :
  rows t' !! id = Some r -> key_of r = claim_key c -> Status r = Processing ->
  ExpiresAt r = n + c_ttl c -> LockedUntil r = Some (n + ProcessingTimeout cfg) ->
  reading s = Some n -> s' = SExecute id (n + c_ttl c) ->
  (forall j c2 s2 id' e, j <> i -> rs !! j = Some (c2, s2) -> owner s2 = Some (id', e) -> id' <> id) ->
  WorldInv (MkWorld now t' (<[i := (c, s')]> rs)).
Proof.
  intros Hr Hk Hst He Hl Hn Hs' Hids.
  destruct (inv_request _ Hinv i c s Hi) as [H1 H2 _ _]; simpl in *.
  specialize (H2 n Hn). specialize (H1 ltac:(right; by exists n)).
  apply inv_move; rewrite Hs'.
  - split; simpl; try congruence.
    intros id' e [= <- <-]. exists r, (n + ProcessingTimeout cfg). split; try done. lia.
  - intros j c2 s2 Hj Hs2. split; split; simpl; try congruence.
    + intros id0 e id' e' [= <- <-] Ho. by apply not_eq_sym, (Hids j c2 s2 id' e').
    + intros id0 e n2 id' [= <- <-] Hrec _ r0 l Hr0 Hl0. rewrite Hr in Hr0. injection Hr0 as <-.
      rewrite Hl in Hl0. injection Hl0 as <-.
      destruct (inv_request _ Hinv j c2 s2 Hs2) as [_ H3 _ _]; simpl in H3.
      pose proof (reclaiming_reading _ _ _ Hrec) as Hread.
      specialize (H3 n2 Hread). lia.
    + intros id0 e id' e' Ho [= <- <-]. by apply (Hids j c2 s2 id0 e).
Qed.
End Move.

(** *** The statements *)

Lemma inv_done now t t' rs i c r :
  WorldInv (MkWorld now t rs) -> table_effect t t' ->
  (forall j c2 s2 id e, j <> i -> rs !! j = Some (c2, s2) ->
     owner s2 = Some (id, e) -> rows t' !! id = rows t !! id) ->
  WorldInv (MkWorld now t' (<[i := (c, SDone r)]> rs)).
Proof.
  intros Hinv Heff Hframe. apply (inv_quit now t t'); try done. by intros [?|[? ?]].
Qed.

Lemma inv_still now t rs i c s s' :
  WorldInv (MkWorld now t rs) -> rs !! i = Some (c, s) ->
  owner s' = owner s -> reading s' = None -> reclaiming s' = None -> s' <> SNow ->
  WorldInv (MkWorld now t (<[i := (c, s')]> rs)).
Proof.
  intros Hinv Hi Ho Hr Hc Hn. apply (inv_move now t t rs i c s'); try done; [constructor| |].
  - destruct (inv_request _ Hinv i c s Hi) as [_ _ _ H4]. simpl in H4. split; try congruence.
    + intros [?|[? ?]]; congruence.
    + intros id e. rewrite Ho. apply H4.
  - intros j c2 s2 Hj H2. split.
    + destruct (inv_pair _ Hinv i j c s c2 s2 (not_eq_sym Hj) Hi H2) as [P1 P2]. simpl in *.
      by split; rewrite Ho.
    + destruct (inv_pair _ Hinv j i c2 s2 c s Hj H2 Hi) as [P1 _]. simpl in *.
      split; [by rewrite Ho|congruence].
Qed.

Lemma create_effect sc h fp l e t :
  table_effect t (CreateProcessing sc h fp l e t).1 /\
  forall id, id < next_id t -> rows (CreateProcessing sc h fp l e t).1 !! id = rows t !! id.
Proof.
  unfold CreateProcessing. destruct (find_row sc h t) as [p|] eqn:E; simpl; [by split; [constructor|]|].
  split.
  - apply inserted. intros id q Hq. by eapply (find_row_None sc h t id q).
  - intros id Hid. rewrite lookup_insert_ne; [done|lia].
Qed.

Lemma owner_below now t rs j c s id e :
  WorldInv (MkWorld now t rs) -> rs !! j = Some (c, s) -> owner s = Some (id, e) ->
  id < next_id t.
Proof.
  intros Hinv Hj Ho. destruct (ok_owner _ _ _ _ (inv_request _ Hinv j c s Hj) id e Ho) as (r & l & [Hr _ _ _ _ _]).
  by apply (ids_ok _ (inv_table _ Hinv) id r).
Qed.

Lemma inv_create now t rs i c n o :
  WorldInv (MkWorld now t rs) -> rs !! i = Some (c, SCreate n) ->
  let q := CreateProcessing (c_scope c) (c_hash c) (c_fingerprint c) (n + ProcessingTimeout cfg)
             (n + c_ttl c) in
  WorldInv (MkWorld now (statement o q t).1
    (<[i := (c, after_create c n (statement o q t).2)]> rs)).
Proof.
  intros Hinv Hi q. destruct (create_effect (c_scope c) (c_hash c) (c_fingerprint c)
    (n + ProcessingTimeout cfg) (n + c_ttl c) t) as [Heff Hold]. fold q in Heff, Hold.
  assert (Hframe : forall j c2 s2 id e, j <> i -> rs !! j = Some (c2, s2) ->
    owner s2 = Some (id, e) -> rows (q t).1 !! id = rows t !! id).
  { intros j c2 s2 id e _ Hj Ho. apply Hold. by eapply owner_below. }
  destruct (inv_request _ Hinv i c _ Hi) as [H1 H2 _ _]; simpl in *.
  specialize (H1 ltac:(right; by eexists)). specialize (H2 n eq_refl).
  destruct o; simpl; [| by apply (inv_still now t rs i c (SCreate n) _)
    | by apply (inv_done now t (q t).1)].
  destruct ((q t).2) as [id|] eqn:Eq; simpl.
  - unfold claimed. destruct (id =? 0) eqn:E0;
      [by apply (inv_done now t (q t).1)|].
    unfold q, CreateProcessing in Eq, Heff, Hold, Hframe |- *.
    destruct (find_row (c_scope c) (c_hash c) t) eqn:Ef; simpl in *; [done|]. injection Eq as <-.
    eapply (inv_claim now t _ rs i c (SCreate n) _); try done.
    + simpl. by rewrite lookup_insert_eq.
    + done.
    + done.
    + done.
    + done.
    + intros j c2 s2 id' e Hj H3 Ho ->. pose proof (owner_below _ _ _ _ _ _ _ _ Hinv H3 Ho). lia.
  - apply (inv_quit now t (q t).1 rs i c _); try done. by intros n' [= <-].
Qed.

(** The record read is not owned, if it is expired or failed. *)
Lemma read_not_owned now t rs j c c2 s2 id r n id2 e :
  WorldInv (MkWorld now t rs) -> find_row (c_scope c) (c_hash c) t = Some (id, r) -> n <= now ->
  ExpiresAt r <= n \/ Status r = FailedRetryable ->
  rs !! j = Some (c2, s2) -> owner s2 = Some (id2, e) -> claim_key c2 <> claim_key c.
Proof.
  intros Hinv Hf Hn Hr Hj Ho Hk. apply find_row_Some in Hf as [Hid Hkey].
  destruct (ok_owner _ _ _ _ (inv_request _ Hinv j c2 s2 Hj) id2 e Ho) as (r2 & l & [Hr2 Hk2 Hst He Ha _]).
  simpl in *. assert (id = id2) as <-.
  { apply (keys_unique _ (inv_table _ Hinv) id id2 r r2); [done|done|].
    unfold claim_key in *. congruence. }
  rewrite Hid in Hr2. injection Hr2 as <-. destruct Hr; [lia|congruence].
Qed.

Lemma inv_start_reclaim now t rs i c s n id ex s' :
  WorldInv (MkWorld now t rs) -> rs !! i = Some (c, s) -> reading s = Some n ->
  find_row (c_scope c) (c_hash c) t = Some (id, ex) ->
  ExpiresAt ex <= n \/ Status ex = FailedRetryable ->
  s' = SReclaimExpired n id ex \/ s' = SReclaim n id ex ->
  WorldInv (MkWorld now t (<[i := (c, s')]> rs)).
Proof.
  intros Hinv Hi Hn Hf Hex Hs'.
  destruct (inv_request _ Hinv i c s Hi) as [H1 H2 _ _]; simpl in *.
  specialize (H1 ltac:(right; by exists n)). specialize (H2 n Hn).
  pose proof (find_row_Some _ _ _ _ _ Hf) as [Hid Hkey].
  apply (inv_move now t t rs i c s'); try done; [constructor| |].
  - split.
    + done.
    + intros n'. by destruct Hs' as [-> | ->]; intros [= <-].
    + intros n' id'. assert (Hgoal : id < next_id t /\
        forall r, rows t !! id = Some r -> key_of r = claim_key c).
      { split; [by apply (ids_ok _ (inv_table _ Hinv) id ex)|]. intros r Hr. rewrite Hid in Hr. by injection Hr as <-. }
      by destruct Hs' as [-> | ->]; intros [= <- <-].
    + by destruct Hs' as [-> | ->].
  - intros j c2 s2 Hj H3. split; split; try (by destruct Hs' as [-> | ->]).
    intros id0 e n0 id' Ho Hrec Hk r l _ _.
    destruct (read_not_owned now t rs j c c2 s2 id ex n id0 e Hinv Hf ltac:(lia) Hex H3 Ho Hk).
Qed.

(** Reading the record. *)
Lemma inv_by_status now t rs i c s n id ex :
  WorldInv (MkWorld now t rs) -> rs !! i = Some (c, s) -> reading s = Some n ->
  find_row (c_scope c) (c_hash c) t = Some (id, ex) ->
  WorldInv (MkWorld now t (<[i := (c, by_status float_text n id ex)]> rs)).
Proof.
  intros Hinv Hi Hn Hf.
  assert (Hdone : forall r, WorldInv (MkWorld now t (<[i := (c, SDone r)]> rs)))
    by (intros r; apply (inv_done now t t); [done|constructor|done]).
  unfold by_status. destruct (Status ex) eqn:Es; [apply Hdone| |].
  - destruct (decodeStoredResponse _ _); apply Hdone.
  - assert (Hre : WorldInv (MkWorld now t (<[i := (c, SReclaim n id ex)]> rs)))
      by (eapply (inv_start_reclaim now t rs i c s n id ex); eauto).
    destruct (LockedUntil ex) as [l|]; [|done]. destruct (n <? l); [apply Hdone|done].
Qed.

Lemma inv_get now t rs i c s n o again :
  WorldInv (MkWorld now t rs) -> rs !! i = Some (c, s) -> reading s = Some n ->
  let r := (statement o (GetByScopeAndKeyHash (c_scope c) (c_hash c)) t).2 in
  WorldInv (MkWorld now t
    (<[i := (c, if again : bool then after_get_again float_text c n r else after_get float_text c n r)]> rs)).
Proof.
  intros Hinv Hi Hn r.
  assert (Hdone : forall r, WorldInv (MkWorld now t (<[i := (c, SDone r)]> rs)))
    by (intros r'; apply (inv_done now t t); [done|constructor|done]).
  assert (Hr : r = None \/ r = Some (find_row (c_scope c) (c_hash c) t)) by (destruct o; simpl; auto).
  destruct Hr as [-> | ->]; [destruct again; apply Hdone|].
  destruct (find_row (c_scope c) (c_hash c) t) as [[id ex]|] eqn:Hf; [|destruct again; apply Hdone].
  destruct again; simpl; (destruct (negb _); [apply Hdone|]).
  - by apply (inv_by_status now t rs i c s n id ex).
  - destruct (ExpiresAt ex <=? n) eqn:E; [|by apply (inv_by_status now t rs i c s n id ex)].
    bool_hyps. eapply (inv_start_reclaim now t rs i c s n id ex); eauto.
Qed.

(** Taking over a record: nobody owns it then. *)
Lemma inv_try_reclaim now t rs i c s n id from o (next : option bool -> State) :
  WorldInv (MkWorld now t rs) -> rs !! i = Some (c, s) -> reclaiming s = Some (n, id) ->
  (next (Some true) = claimed id (n + c_ttl c)) ->
  (exists r, next None = SDone r) ->
  ((exists r, next (Some false) = SDone r) \/ next (Some false) = SGetAgain n) ->
  let q := TryReclaim id from n (n + ProcessingTimeout cfg) (n + c_ttl c) in
  WorldInv (MkWorld now (statement o q t).1 (<[i := (c, next (statement o q t).2)]> rs)).
Proof.
  intros Hinv Hi Hrec Htrue [rn Hnone] Hfalse q.
  pose proof (reclaiming_reading _ _ _ Hrec) as Hread.
  destruct (inv_request _ Hinv i c s Hi) as [H1 H2 H3 _]; simpl in *.
  specialize (H1 ltac:(right; by exists n)). specialize (H2 n Hread).
  destruct (H3 n id Hrec) as [Hid Hkey].
  assert (Heff : table_effect t (q t).1) by (by apply update_effect).
  (* an owner of the record has locked it beyond the reading *)
  assert (Hlocked : forall j c2 s2 e, j <> i -> rs !! j = Some (c2, s2) -> owner s2 = Some (id, e) ->
    q t = (t, false)).
  { intros j c2 s2 e Hj H4 Ho.
    destruct (ok_owner _ _ _ _ (inv_request _ Hinv j c2 s2 H4) id e Ho) as (r & l & [Hr Hk _ _ _ Hl]).
    simpl in Hr. pose proof (pair_lock _ _ _ _ _ (inv_pair _ Hinv j i c2 s2 c s Hj H4 Hi)
      id e n id Ho Hrec ltac:(rewrite <- Hk; by apply Hkey) r l Hr Hl) as Hlt.
    unfold q, TryReclaim, update_row. rewrite Hr, Hl.
    replace (l <=? n) with false by (symmetry; apply Z.leb_gt; lia). by rewrite andb_false_r. }
  assert (Hframe : forall j c2 s2 id' e, j <> i -> rs !! j = Some (c2, s2) ->
    owner s2 = Some (id', e) -> rows (q t).1 !! id' = rows t !! id').
  { intros j c2 s2 id' e Hj H4 Ho. destruct (decide (id' = id)) as [->|Hne].
    - by rewrite (Hlocked j c2 s2 e Hj H4 Ho).
    - by apply update_other. }
  assert (Hdone : forall r, WorldInv (MkWorld now (q t).1 (<[i := (c, SDone r)]> rs)))
    by (intros r; by apply (inv_done now t)).
  destruct o; simpl.
  - destruct ((q t).2) eqn:Eq.
    + rewrite Htrue. unfold claimed. destruct (id =? 0); [apply Hdone|].
      assert (Hrow : exists r, rows t !! id = Some r /\ rows (q t).1 !! id = Some
        (r <| Status := Processing |> <| LockedUntil := Some (n + ProcessingTimeout cfg) |>
           <| ErrorReason := None |> <| ExpiresAt := n + c_ttl c |>)).
      { unfold q, TryReclaim, update_row in Eq |- *. destruct (rows t !! id) as [r|]; [|done].
        exists r. split; [done|]. destruct (_ && _); [|done]. simpl. by rewrite lookup_insert_eq. }
      destruct Hrow as (r & Hr & Hr').
      apply (inv_claim now t (q t).1 rs i c s _ Hinv Hi Heff Hframe id n _ Hr'); try done.
      * exact (Hkey r Hr).
      * intros j c2 s2 id' e Hj H4 Ho ->. by rewrite (Hlocked j c2 s2 e Hj H4 Ho) in Eq.
    + destruct Hfalse as [[r Hf] | Hf]; rewrite Hf; [apply Hdone|].
      apply (inv_quit now t (q t).1 rs i c _); try done. by intros n' [= <-].
  - rewrite Hnone. apply (inv_done now t t); [done|constructor|done].
  - rewrite Hnone. apply Hdone.
Qed.

(** Marking one's own record. *)
Lemma inv_mark now t t' rs i c s id e r :
  WorldInv (MkWorld now t rs) -> rs !! i = Some (c, s) -> owner s = Some (id, e) ->
  t' = t \/ (exists f, t' = (update_row id (fun _ => true) f t).1 /\ forall x, key_of (f x) = key_of x) ->
  WorldInv (MkWorld now t' (<[i := (c, SDone r)]> rs)).
Proof.
  intros Hinv Hi Ho [-> |(f & -> & Hf)]; apply (inv_done now t); try done; [constructor| |].
  - by apply update_effect.
  - intros j c2 s2 id' e' Hj H2 Ho2. apply update_other.
    by eapply (pair_owners _ _ _ _ _ (inv_pair _ Hinv j i c2 s2 c s Hj H2 Hi)).
Qed.

Lemma inv_call now t rs i c s o x :
  WorldInv (MkWorld now t rs) -> rs !! i = Some (c, s) ->
  WorldInv (MkWorld now (exec_step float_text cfg c now o x s t).1
    (<[i := (c, (exec_step float_text cfg c now o x s t).2)]> rs)).
Proof.
  intros Hinv Hi. destruct s as [| |n|n|n id ex|n|n id ex|id e|id e err|id e err u|id e b d|r].
  - destruct x; by apply (inv_still now t rs i c SDirect).
  - destruct (inv_request _ Hinv i c _ Hi) as [H1 _ _ _]. simpl in H1.
    apply (inv_quit now t t rs i c); try done; [constructor|intros _; apply H1; by left|].
    intros n [= <-]. lia.
  - pose proof (inv_create now t rs i c n o Hinv Hi) as H.
    cbv zeta in H. unfold exec_step. destruct (statement o _ t). exact H.
  - pose proof (inv_get now t rs i c _ n o false Hinv Hi eq_refl) as H. simpl in *.
    destruct o; exact H.
  - pose proof (inv_try_reclaim now t rs i c _ n id (Status ex) o (after_reclaim_expired c n id) Hinv Hi
      eq_refl eq_refl ltac:(by eexists) ltac:(by right)) as H.
    cbv zeta in H. unfold exec_step. destruct (statement o _ t). exact H.
  - pose proof (inv_get now t rs i c _ n o true Hinv Hi eq_refl) as H. simpl in *.
    destruct o; exact H.
  - pose proof (inv_try_reclaim now t rs i c _ n id FailedRetryable o (after_reclaim c n id ex) Hinv Hi
      eq_refl eq_refl ltac:(by eexists) ltac:(left; by eexists)) as H.
    cbv zeta in H. unfold exec_step. destruct (statement o _ t). exact H.
  - unfold exec_step, after_execute. destruct x as [d|err].
    + destruct (marshalStoredResponse _ _ _); [by apply (inv_still now t rs i c (SExecute id e))|].
      apply (inv_done now t t); [done|constructor|done].
    + by apply (inv_still now t rs i c (SExecute id e)).
  - by apply (inv_still now t rs i c (SBackoffNow id e err)).
  - simpl. destruct o; apply (inv_mark now t _ rs i c _ id e _ Hinv Hi eq_refl); auto;
      right; by eexists.
  - simpl. destruct o; apply (inv_mark now t _ rs i c _ id e _ Hinv Hi eq_refl); auto;
      right; by eexists.
  - by apply (inv_still now t rs i c (SDone r)).
Qed.

(** *** The other steps *)

Lemma prepare_idle o c s : prepare sha256_hex cfg o = (c, s) -> long_lived o ->
  reading s = None /\ reclaiming s = None /\ owner s = None /\
  (s = SNow -> ProcessingTimeout cfg <= c_ttl c).
Proof.
  unfold prepare, long_lived. intros H Hl.
  destruct (NormalizeIdempotencyKey _) as [key|e]; [|by injection H as <- <-].
  destruct (key =?s ""); [injection H as <- <-; by destruct (_ && _)|].
  destruct (_ =?s ""); [by injection H as <- <-|].
  destruct (fingerprint_text _ _ _ _); by injection H as <- <-.
Qed.

Lemma inv_start now t rs o :
  WorldInv (MkWorld now t rs) -> long_lived o ->
  WorldInv (MkWorld now t (rs ++ [prepare sha256_hex cfg o])).
Proof.
  intros Hinv Hl. destruct (prepare _ _ _) as [c s] eqn:Hp.
  destruct (prepare_idle _ _ _ Hp Hl) as (Hr & Hc & Ho & Ht).
  assert (Hcase : forall j c2 s2, (rs ++ [(c, s)]) !! j = Some (c2, s2) ->
    rs !! j = Some (c2, s2) \/ j = length rs /\ c2 = c /\ s2 = s).
  { intros j c2 s2 [H|[Hj H]]%lookup_app_Some; [by left|]. right.
    apply list_lookup_singleton_Some in H as [? [= <- <-]]. split; [lia|done]. }
  split; simpl; [apply (inv_table _ Hinv)| |].
  - intros j c2 s2 [H2|(_ & -> & ->)]%Hcase; [by apply (inv_request _ Hinv j)|].
    split; rewrite ?Hr, ?Hc, ?Ho; try done. intros [?|[? ?]]; [auto|done].
  - intros j k c2 s2 c3 s3 Hjk [H2|(Ej & -> & ->)]%Hcase [H3|(Ek & -> & ->)]%Hcase.
    + by apply (inv_pair _ Hinv j k).
    + split; rewrite ?Hc, ?Ho; done.
    + split; rewrite ?Ho; done.
    + lia.
Qed.

Lemma inv_time now now' t rs :
  WorldInv (MkWorld now t rs) -> now <= now' -> timely (MkWorld now t rs) now' ->
  WorldInv (MkWorld now' t rs).
Proof.
  intros Hinv Hle Ht. split; simpl; [apply (inv_table _ Hinv)| |by apply (inv_pair _ Hinv)].
  intros i c s Hi. destruct (inv_request _ Hinv i c s Hi) as [H1 H2 H3 H4].
  destruct (Ht i c s Hi) as [T1 T2]. simpl in *. split; [done| |done|].
  - intros n Hn. specialize (H2 n Hn). specialize (T1 n Hn). lia.
  - intros id e Ho. destruct (H4 id e Ho) as (r & l & [? ? ? ? ? ?]). specialize (T2 id e Ho).
    exists r, l. by split.
Qed.

Lemma inv_cleanup now n limit t rs :
  WorldInv (MkWorld now t rs) -> n <= now ->
  WorldInv (MkWorld now (DeleteExpired n limit t).1 rs).
Proof.
  intros Hinv Hn. split; simpl.
  - destruct (inv_table _ Hinv) as [H1 H2]. split; simpl.
    + intros id r H%cleanup_some. by eapply H1.
    + intros i j r q Hr%cleanup_some Hq%cleanup_some. by apply H2.
  - intros i c s Hi. destruct (inv_request _ Hinv i c s Hi) as [H1 H2 H3 H4]. simpl in *. split; try done.
    + intros m id Hrec. destruct (H3 m id Hrec) as [Hlt Hk]. split; [done|].
      intros r Hr%cleanup_some. by apply Hk.
    + intros id e Ho. destruct (H4 id e Ho) as (r & l & [Hr ? ? He ? ?]). exists r, l. split; try done.
      apply cleanup_alive; [done|lia].
  - intros i j c s c' s' Hij Hi Hj. destruct (inv_pair _ Hinv i j c s c' s' Hij Hi Hj) as [P1 P2].
    split; [done|]. intros id e m id' Ho Hrec Hk r l Hr%cleanup_some. by eapply P2.
Qed.

Lemma inv_step w w' :
  WorldInv w -> world_step sha256_hex float_text cfg long_lived timely w w' -> WorldInv w'.
Proof.
  intros Hinv Hs. destruct Hs.
  - by apply inv_start.
  - by apply inv_call.
  - by apply (inv_time now).
  - by apply inv_cleanup.
Qed.
Lemma inv_steps w w' :
  WorldInv w -> rtc (world_step sha256_hex float_text cfg long_lived timely) w w' -> WorldInv w'.
Proof. intros Hw. induction 1; [done|]. eauto using inv_step. Qed.
Lemma inv_empty now id : WorldInv (MkWorld now (MkTable ∅ id) []).
Proof. by repeat split. Qed.

(** C24.  Mutual exclusion: from an empty table, however starts, calls, clock ticks,
    cleanups and lost statements of any number of requests interleave, while one
    request is between its claim of the record of a scope and key and the end of the
    statement that marks it, no other request with that scope and key is — so their
    executors never run at the same time — provided record lifetimes cover the
    processing timeout and requests are not slower than their leases. *)
Theorem one_executor now w i j c s c' s' :
  rtc (world_step sha256_hex float_text cfg long_lived timely) (MkWorld now (MkTable ∅ 1) []) w ->
  w_requests w !! i = Some (c, s) -> w_requests w !! j = Some (c', s') -> i <> j ->
  claim_key c = claim_key c' -> is_Some (owner s) -> owner s' = None.
Proof.
  intros Hsteps Hi Hj Hij Hk [[id e] Ho]. destruct (owner s') as [[id' e']|] eqn:Ho'; [|done].
  pose proof (inv_steps _ _ (inv_empty now 1) Hsteps) as Hinv.
  destruct (ok_owner _ _ _ _ (inv_request _ Hinv i c s Hi) id e Ho) as (r & l & Hr).
  destruct (ok_owner _ _ _ _ (inv_request _ Hinv j c' s' Hj) id' e' Ho') as (r' & l' & Hr').
  destruct (pair_owners _ _ _ _ _ (inv_pair _ Hinv i j c s c' s' Hij Hi Hj) id e id' e' Ho Ho').
  apply (keys_unique _ (inv_table _ Hinv) id id' r r'); [apply Hr|apply Hr'|].
  by rewrite (own_key _ _ _ _ _ _ _ Hr), (own_key _ _ _ _ _ _ _ Hr').
Qed.
End Exclusion.

(** ** One request after another *)

Section Sequential.
Context (sha256_hex : string -> string) (float_text : string -> string).
Context (cfg : IdempotencyConfig).

Lemma find_row_unique t s h id r :
  TableOk t -> rows t !! id = Some r -> key_of r = (s, h) -> find_row s h t = Some (id, r).
Proof.
  intros Ht Hr Hk. destruct (find_row s h t) as [[j q]|] eqn:E.
  - apply find_row_Some in E as [Hq Hk']. assert (j = id) as -> by (eapply (keys_unique _ Ht); eauto; congruence).
    congruence.
  - by destruct (find_row_None _ _ _ _ _ E Hr).
Qed.

(** The calls a request has left, at most. *)
Definition remaining (s : State) : nat :=
  match s with
  | SNow => 9 | SCreate _ => 8 | SGet _ => 7 | SReclaimExpired _ _ _ => 6 | SGetAgain _ => 5
  | SReclaim _ _ _ => 4 | SExecute _ _ => 3 | SBackoffNow _ _ _ => 2
  | SMarkFailed _ _ _ _ | SMarkSucceeded _ _ _ _ | SDirect => 1
  | SDone _ => 0
  end%nat.
Lemma by_status_remaining now id r : (remaining (by_status float_text now id r) <= 4)%nat.
Proof.
  unfold by_status. destruct (Status r); simpl; [lia| |].
  - destruct (decodeStoredResponse _ _); simpl; lia.
  - destruct (LockedUntil r) as [l|]; [destruct (now <? l)|]; simpl; lia.
Qed.
Lemma claimed_remaining id e : (remaining (claimed id e) <= 3)%nat.
Proof. unfold claimed. destruct (id =? 0); simpl; lia. Qed.
Lemma step_remaining c now o x s t :
  (remaining (exec_step float_text cfg c now o x s t).2 <= remaining s - 1)%nat.
Proof.
  pose proof by_status_remaining as Hb. pose proof claimed_remaining as Hc.
  destruct s as [| |n|n|n id ex|n|n id ex|id e|id e err|id e err u|id e b d|r]; unfold exec_step;
    try (match goal with |- context [statement o ?q ?t] => destruct (statement o q t) as [t' a] end);
    simpl.
  - destruct x; simpl; lia.
  - lia.
  - destruct a as [[id|]|]; simpl; [|lia|lia]. specialize (Hc id (n + c_ttl c)). lia.
  - destruct a as [[[id r]|]|]; simpl; [|lia|lia]. specialize (Hb n id r).
    destruct (negb _); [|destruct (_ <=? _)]; simpl; lia.
  - destruct a as [[]|]; simpl; [|lia|lia]. specialize (Hc id (n + c_ttl c)). lia.
  - destruct a as [[[id r]|]|]; simpl; [|lia|lia]. specialize (Hb n id r).
    destruct (negb _); simpl; lia.
  - destruct a as [[]|]; simpl; [|lia|lia]. specialize (Hc id (n + c_ttl c)). lia.
  - unfold after_execute. destruct x as [d|err]; [destruct (marshalStoredResponse _ _ _)|]; simpl; lia.
  - lia.
  - lia.
  - destruct a; simpl; lia.
  - lia.
Qed.

(** One call as its caller sees it: when it is made, how the statement ends, what the
    executor returns, and the table others have left. *)
Record Call := MkCall { at_time : Z; ended : Outcome; returned : ExecResult; found : Table }.
Fixpoint calls (c : Claim) (l : list Call) (s : State) : State :=
  match l with
  | [] => s
  | k :: l => calls c l (exec_step float_text cfg c (at_time k) (ended k) (returned k) s (found k)).2
  end.
Lemma calls_remaining c l s : (remaining (calls c l s) <= remaining s - length l)%nat.
Proof.
  revert s. induction l as [|k l IH]; intros s; simpl; [lia|].
  etrans; [apply IH|]. pose proof (step_remaining c (at_time k) (ended k) (returned k) s (found k)). lia.
Qed.

(** [Execute] always ends: whatever other requests do to the table between its
    calls, whatever the clock reads and however its statements end, nine calls after
    its start it has returned, and it calls the executor at most once on the way. *)
Theorem execute_ends o (l : list Call) :
  let '(c, s) := prepare sha256_hex cfg o in
  ((9 <= length l)%nat -> exists r, calls c l s = SDone r) /\
  (forall k l1 l2 id e, l = l1 ++ k :: l2 -> calls c l1 s = SExecute id e ->
     forall id' e', calls c l s <> SExecute id' e').
Proof.
  destruct (prepare _ _ _) as [c s] eqn:Hp.
  assert (Hs : (remaining s <= 9)%nat) by (destruct s; simpl; lia).
  split.
  - intros Hl. pose proof (calls_remaining c l s) as H.
    destruct (calls c l s); simpl in H; first [lia | by eexists].
  - intros k l1 l2 id e -> H1 id' e' H.
    assert (Happ : forall l1 l2 s, calls c (l1 ++ l2) s = calls c l2 (calls c l1 s))
      by (intros l; induction l as [|? ? IH]; simpl; intros; [done|apply IH]).
    rewrite Happ, H1 in H. pose proof (calls_remaining c (k :: l2) (SExecute id e)) as Hr.
    rewrite H in Hr. simpl in Hr. lia.
Qed.


Lemma run_S n c now x s t :
  (forall r, s <> SDone r) ->
  run float_text cfg (S n) c now x s t =
  run float_text cfg n c now x (exec_step float_text cfg c now Answered x s t).2
    (exec_step float_text cfg c now Answered x s t).1.
Proof. intros Hs. destruct s; cbn [run]; try (by destruct (exec_step _ _ _ _ _ _ _ _)). by destruct (Hs r). Qed.
Lemma run_done n c now x r t : run float_text cfg n c now x (SDone r) t = (t, Some r).
Proof. by destruct n. Qed.

#[local] Arguments run : simpl never.

(** A request whose key's record is found. *)
Lemma execute_found o now x t c id r :
  prepare sha256_hex cfg o = (c, SNow) -> TableOk t -> rows t !! id = Some r ->
  key_of r = claim_key c ->
  Execute sha256_hex float_text cfg o now x t =
  run float_text cfg 6 c now x (after_get float_text c now (Some (Some (id, r)))) t.
Proof.
  intros Hp Ht Hr Hk. pose proof (find_row_unique t _ _ id r Ht Hr Hk) as Hfind.
  unfold Execute. rewrite Hp, run_S by done. cbn [exec_step fst snd]. rewrite run_S by done.
  unfold exec_step, statement, CreateProcessing. rewrite Hfind. cbn [fst snd after_create].
  rewrite run_S by done. unfold exec_step, statement, GetByScopeAndKeyHash. by rewrite Hfind.
Qed.

Definition succeeded (r : IdempotencyRecord) (body : string) (e : Z) : IdempotencyRecord :=
  r <| Status := Succeeded |> <| ResponseStatus := Some 200 |> <| ResponseBody := Some body |>
    <| ErrorReason := None |> <| LockedUntil := None |> <| ExpiresAt := e |>.
Definition failed (r : IdempotencyRecord) (err : string) (until e : Z) : IdempotencyRecord :=
  r <| Status := FailedRetryable |>
    <| ErrorReason := Some (if err =?s "" then "EXECUTION_FAILED" else err) |>
    <| LockedUntil := Some until |> <| ExpiresAt := e |>.

Lemma run_claimed_data n c now id e d b r t :
  id <> 0 -> rows t !! id = Some r ->
  marshalStoredResponse float_text (MaxStoredResponseLen cfg) d = Some b ->
  run float_text cfg (S (S n)) c now (ExecData d) (claimed id e) t =
  (t <| rows := <[id := succeeded r b e]> (rows t) |>, Some (RData d false)).
Proof.
  intros Hid Hr Hb. unfold claimed. replace (id =? 0) with false by lia.
  rewrite run_S by done. cbn [exec_step fst snd after_execute]. rewrite Hb, run_S by done.
  unfold exec_step, statement, MarkSucceeded, update_row. rewrite Hr. cbn [fst snd]. apply run_done.
Qed.
Lemma run_claimed_error n c now id e err r t :
  id <> 0 -> rows t !! id = Some r ->
  run float_text cfg (S (S (S n))) c now (ExecError err) (claimed id e) t =
  (t <| rows := <[id := failed r err (now + FailedRetryBackoff cfg) e]> (rows t) |>,
   Some (RError (ErrExecution err))).
Proof.
  intros Hid Hr. unfold claimed. replace (id =? 0) with false by lia.
  rewrite run_S by done. cbn [exec_step fst snd after_execute]. rewrite run_S by done.
  cbn [exec_step fst snd]. rewrite run_S by done.
  unfold exec_step, statement, MarkFailedRetryable, update_row. rewrite Hr. cbn [fst snd]. apply run_done.
Qed.

(** The first request of a key: its record is created, then marked. *)
Section First.
Context (o : IdempotencyExecuteOptions) (now : Z) (t : Table) (c : Claim).
Context (Hp : prepare sha256_hex cfg o = (c, SNow)) (Ht : TableOk t) (Hid : 0 < next_id t).
Context (Hnew : find_row (c_scope c) (c_hash c) t = None).

Definition created : IdempotencyRecord :=
  MkIdempotencyRecord (c_scope c) (c_hash c) (c_fingerprint c) Processing None None None
    (Some (now + ProcessingTimeout cfg)) (now + c_ttl c).
Definition table_with (r : IdempotencyRecord) : Table :=
  MkTable (<[next_id t := r]> (rows t)) (next_id t + 1).

Lemma execute_new x :
  Execute sha256_hex float_text cfg o now x t =
  run float_text cfg 7 c now x (claimed (next_id t) (now + c_ttl c)) (table_with created).
Proof.
  unfold Execute. rewrite Hp, run_S by done. cbn [exec_step fst snd]. rewrite run_S by done.
  unfold exec_step, statement, CreateProcessing. by rewrite Hnew.
Qed.
Lemma table_with_ok r : key_of r = claim_key c -> TableOk (table_with r).
Proof.
  intros Hk. apply (effect_ok t); [done|]. apply inserted. intros id q Hq. rewrite Hk.
  by apply (find_row_None _ _ t id q).
Qed.
Lemma execute_new_data d b :
  marshalStoredResponse float_text (MaxStoredResponseLen cfg) d = Some b ->
  Execute sha256_hex float_text cfg o now (ExecData d) t =
  (table_with (succeeded created b (now + c_ttl c)), Some (RData d false)).
Proof.
  intros Hb. rewrite execute_new, (run_claimed_data _ _ _ _ _ _ b created); [|lia| |done].
  - unfold table_with. simpl. by rewrite insert_insert_eq.
  - simpl. by rewrite lookup_insert_eq.
Qed.
Lemma execute_new_error err :
  Execute sha256_hex float_text cfg o now (ExecError err) t =
  (table_with (failed created err (now + FailedRetryBackoff cfg) (now + c_ttl c)),
   Some (RError (ErrExecution err))).
Proof.
  rewrite execute_new, (run_claimed_error _ _ _ _ _ _ created); [|lia|].
  - unfold table_with. simpl. by rewrite insert_insert_eq.
  - simpl. by rewrite lookup_insert_eq.
Qed.
End First.

(** After the first request of a key has succeeded, and until its record expires,
    every request with that key leaves the table alone and never executes: with the
    same fingerprint it gets the stored response as a replay (or store-unavailable when
    that does not decode), with another one a key conflict. *)
Theorem success_replayed o now t c d b o' now' x' c' :
  prepare sha256_hex cfg o = (c, SNow) -> TableOk t -> 0 < next_id t ->
  find_row (c_scope c) (c_hash c) t = None ->
  marshalStoredResponse float_text (MaxStoredResponseLen cfg) d = Some b ->
  prepare sha256_hex cfg o' = (c', SNow) -> claim_key c' = claim_key c -> now' < now + c_ttl c ->
  let '(t1, r1) := Execute sha256_hex float_text cfg o now (ExecData d) t in
  r1 = Some (RData d false) /\
  Execute sha256_hex float_text cfg o' now' x' t1 =
    (t1, Some (if c_fingerprint c =?s c_fingerprint c' then
                 match decodeStoredResponse float_text (Some b) with
                 | Some v => RData (Some v) true
                 | None => RError ErrStoreUnavail
                 end
               else RError ErrKeyConflict)).
Proof.
  intros Hp Ht Hid Hnew Hb Hp' Hk Hnow. rewrite (execute_new_data o now t c Hp Hid Hnew d b Hb).
  split; [done|].
  rewrite (execute_found o' now' x' _ c' (next_id t) (succeeded (created now c) b (now + c_ttl c)) Hp');
    [|by apply (table_with_ok t c)|by apply lookup_insert_eq|by rewrite Hk].
  unfold after_get. cbn [RequestFingerprint succeeded created negb ExpiresAt].
  simpl. destruct (_ =?s _); simpl; [|apply run_done].
  replace (now + c_ttl c <=? now') with false by lia. unfold by_status. simpl.
  destruct (TrimSpace b =?s ""); [apply run_done|].
  destruct (unmarshal_any float_text b); apply run_done.
Qed.

(** C27.  After the first request of a key has failed, a request with the same key and
    fingerprint is refused without executing until the backoff is over, and told how
    many whole seconds (at least one) to wait; from then until the record expires it
    executes. *)
Theorem failure_retried o now t c err o' now' x' c' :
  prepare sha256_hex cfg o = (c, SNow) -> TableOk t -> 0 < next_id t ->
  find_row (c_scope c) (c_hash c) t = None ->
  prepare sha256_hex cfg o' = (c', SNow) -> claim_key c' = claim_key c ->
  c_fingerprint c' = c_fingerprint c -> now' < now + c_ttl c ->
  let '(t1, r1) := Execute sha256_hex float_text cfg o now (ExecError err) t in
  r1 = Some (RError (ErrExecution err)) /\
  if now' <? now + FailedRetryBackoff cfg then
    Execute sha256_hex float_text cfg o' now' x' t1 =
      (t1, Some (RError (ErrRetryBackoff (Some
        (Z.max 1 (Z.quot (now + FailedRetryBackoff cfg - now') 1000000000))))))
  else
    (Execute sha256_hex float_text cfg o' now' x' t1).2 =
      Some match x' with
           | ExecError e => RError (ErrExecution e)
           | ExecData d => if marshalStoredResponse float_text (MaxStoredResponseLen cfg) d
                           is Some _ then RData d false else RError ErrStoreUnavail
           end.
Proof.
  intros Hp Ht Hid Hnew Hp' Hk Hf Hnow. rewrite (execute_new_error o now t c Hp Hid Hnew err).
  split; [done|].
  rewrite (execute_found o' now' x' _ c' (next_id t)
    (failed (created now c) err (now + FailedRetryBackoff cfg) (now + c_ttl c)) Hp');
    [|by apply (table_with_ok t c)|by apply lookup_insert_eq|by rewrite Hk].
  unfold after_get. simpl. rewrite Hf, String.eqb_refl. simpl.
  replace (now + c_ttl c <=? now') with false by lia. unfold by_status. simpl.
  destruct (now' <? now + FailedRetryBackoff cfg) eqn:Hb.
  - rewrite run_done. repeat f_equal. change (1000 * Millisecond) with 1000000000.
    destruct (_ <=? 0) eqn:Es; bool_hyps; lia.
  - bool_hyps. rewrite run_S by done. unfold exec_step, statement, TryReclaim, update_row. simpl.
    rewrite lookup_insert_eq. simpl. replace (now + FailedRetryBackoff cfg <=? now') with true by lia.
    simpl. destruct x' as [d|e].
    + destruct (marshalStoredResponse _ _ d) as [b|] eqn:Em.
      * by erewrite run_claimed_data; [|lia|by apply lookup_insert_eq|done].
      * unfold claimed. replace (next_id t =? 0) with false by lia. rewrite run_S by done.
        cbn [exec_step fst snd after_execute]. by rewrite Em, run_done.
    + by erewrite run_claimed_error; [|lia|by apply lookup_insert_eq].
Qed.
End Sequential.

(** *** Witnesses *)

Definition ex_cfg : IdempotencyConfig := MkIdempotencyConfig 1000 1000 100 50 20 false.
Definition ex_options (payload : string) : IdempotencyExecuteOptions :=
  MkIdempotencyExecuteOptions "orders" "user:1" "post" "/orders" " key-1 " (Some payload) 0 true.
Definition ex_hash (s : string) : string := s.
Definition ex_prepared (payload : string) : Claim * State := prepare ex_hash ex_cfg (ex_options payload).
Definition ex_world (now : Z) (t : Table) (rs : list (Claim * State)) : World := MkWorld now t rs.
Definition ex_data : option json := Some (JObj [("id", JNum "7")]).

(** Schedules: a request starts, a request makes its next call, time passes while no
    request is under way. *)
Inductive Act :=
  | AStart (payload : string)
  | ACall (i : nat) (o : Outcome) (x : ExecResult)
  | ATick (now : Z).
Definition act (a : Act) (w : World) : World :=
  match a with
  | AStart p => MkWorld (w_clock w) (w_table w) (w_requests w ++ [ex_prepared p])
  | ACall i o x =>
      match w_requests w !! i with
      | Some (c, s) =>
          let r := exec_step ex_hash ex_cfg c (w_clock w) o x s (w_table w) in
          MkWorld (w_clock w) r.1 (<[i := (c, r.2)]> (w_requests w))
      | None => w
      end
  | ATick now => MkWorld now (w_table w) (w_requests w)
  end.
Definition possible (a : Act) (w : World) : bool :=
  match a with
  | AStart _ => true
  | ACall i _ _ => (i <? length (w_requests w))%nat
  | ATick now => (w_clock w <=? now) &&
      forallb (fun p => match p.2 with SDone _ => true | _ => false end) (w_requests w)
  end.
Fixpoint acts (l : list Act) (w : World) : option World :=
  match l with
  | [] => Some w
  | a :: l => if possible a w then acts l (act a w) else None
  end.
Definition ex_empty : World := MkWorld 10 (MkTable ∅ 1) [].
Definition ex_run (l : list Act) : World := default ex_empty (acts l ex_empty).
Abbreviation ex_step := (world_step ex_hash ex_hash ex_cfg (long_lived ex_cfg) (timely ex_cfg)).

Lemma act_step a w : possible a w = true -> ex_step w (act a w).
Proof.
  destruct w as [now t rs], a as [p|i o x|now']; simpl; intros H.
  - apply world_start. unfold long_lived. simpl. lia.
  - destruct (rs !! i) as [[c s]|] eqn:E; [by apply world_call|].
    apply lookup_ge_None in E. apply Nat.ltb_lt in H. lia.
  - apply andb_true_iff in H as [Hle Hdone]. apply Z.leb_le in Hle. apply world_time; [done|].
    intros i c s Hi. simpl in Hi. rewrite forallb_forall in Hdone.
    specialize (Hdone (c, s) (proj1 (list_elem_of_In _ _) (list_elem_of_lookup_2 _ _ _ Hi))).
    by destruct s.
Qed.
Lemma acts_steps l w w' : acts l w = Some w' -> rtc ex_step w w'.
Proof.
  revert w. induction l as [|a l IH]; simpl; intros w; [intros [= ->]; apply rtc_refl|].
  destruct (possible a w) eqn:E; [|done]. intros H. eapply rtc_l; [by apply act_step|by apply IH].
Qed.
Lemma run_steps l : acts l ex_empty <> None -> rtc ex_step ex_empty (ex_run l).
Proof. unfold ex_run. destruct (acts l ex_empty) eqn:E; [|done]. intros _. by eapply acts_steps. Qed.

(** Two requests on one key: the first executes when the second has been refused. *)
Definition ex_two : list Act :=
  let call i := ACall i Answered (ExecData ex_data) in
  [AStart "{}"; AStart "{}"; call 0%nat; call 1%nat; call 0%nat; call 1%nat; call 1%nat].
(** Request 0 succeeds; when its record has expired, requests 1 and 2 both read it;
    request 1 reclaims it, executes and succeeds; then request 2 reclaims it. *)
Definition ex_stale : list Act :=
  let call i := ACall i Answered (ExecData ex_data) in
  [AStart "{}"] ++ replicate 4 (call 0%nat) ++ [ATick 1010; AStart "{}"; AStart "{}"] ++
  replicate 3 (call 1%nat) ++ replicate 3 (call 2%nat) ++ replicate 3 (call 1%nat) ++ [call 2%nat].

Lemma one_executor_witness :
  exists c s c' s', w_requests (ex_run ex_two) = [(c, s); (c', s')] /\
    owner s = Some (1, 1010) /\ owner s' = None.
Proof.
  pose proof (run_steps ex_two ltac:(vm_compute; discriminate)) as Hsteps.
  destruct (ex_prepared "{}") as [c s0] eqn:Hc.
  assert (Hw : w_requests (ex_run ex_two) = [(c, SExecute 1 1010);
    (c, SDone (RError (ErrInProgress (Some 1))))])
    by (vm_compute in Hc; injection Hc as <- _; vm_compute; reflexivity).
  exists c, (SExecute 1 1010), c, (SDone (RError (ErrInProgress (Some 1)))).
  split; [exact Hw|]. split; [reflexivity|].
  apply (one_executor ex_hash ex_hash ex_cfg ltac:(simpl; lia) 10 _ 0 1 c (SExecute 1 1010) c _ Hsteps).
  - by rewrite Hw.
  - by rewrite Hw.
  - lia.
  - reflexivity.
  - by eexists.
Defined.

Lemma execute_ends_witness :
  calls ex_hash ex_cfg (fst (ex_prepared "{}"))
    (replicate 9 (MkCall 10 ReplyLost (ExecData ex_data) (MkTable ∅ 1))) (snd (ex_prepared "{}"))
  = SDone (RError ErrStoreUnavail).
Proof.
  pose proof (execute_ends ex_hash ex_hash ex_cfg (ex_options "{}")
    (replicate 9 (MkCall 10 ReplyLost (ExecData ex_data) (MkTable ∅ 1)))) as H.
  destruct (proj1 H ltac:(simpl; lia)) as [r Hr]. vm_compute in Hr |- *. reflexivity.
Defined.

Lemma success_replayed_witness :
  (Execute ex_hash ex_hash ex_cfg (ex_options "{}") 500 (ExecData None)
    (Execute ex_hash ex_hash ex_cfg (ex_options "{}") 10 (ExecData ex_data) (MkTable ∅ 1)).1).2
  = Some (RData ex_data true).
Proof.
  assert (Hp : prepare ex_hash ex_cfg (ex_options "{}") = (fst (ex_prepared "{}"), SNow))
    by (vm_compute; reflexivity).
  assert (Hb : marshalStoredResponse ex_hash (MaxStoredResponseLen ex_cfg) ex_data
               = Some (json_marshal (JObj [("id", JNum "7")]))) by (vm_compute; reflexivity).
  pose proof (success_replayed ex_hash ex_hash ex_cfg (ex_options "{}") 10 (MkTable ∅ 1) _ ex_data
    (json_marshal (JObj [("id", JNum "7")]))
    (ex_options "{}") 500 (ExecData None) (fst (ex_prepared "{}")) Hp) as H.
  specialize (H ltac:(split; by intros) ltac:(simpl; lia) ltac:(vm_compute; reflexivity) Hb Hp eq_refl
    ltac:(vm_compute; reflexivity)).
  destruct (Execute ex_hash ex_hash ex_cfg (ex_options "{}") 10 (ExecData ex_data) (MkTable ∅ 1))
    as [t1 r1]. destruct H as [_ H]. simpl fst. rewrite H. vm_compute. reflexivity.
Defined.

Lemma failure_retried_witness :
  (Execute ex_hash ex_hash ex_cfg (ex_options "{}") 30 (ExecData ex_data)
    (Execute ex_hash ex_hash ex_cfg (ex_options "{}") 10 (ExecError "") (MkTable ∅ 1)).1).2
  = Some (RError (ErrRetryBackoff (Some 1))).
Proof.
  assert (Hp : prepare ex_hash ex_cfg (ex_options "{}") = (fst (ex_prepared "{}"), SNow))
    by (vm_compute; reflexivity).
  pose proof (failure_retried ex_hash ex_hash ex_cfg (ex_options "{}") 10 (MkTable ∅ 1) _ ""
    (ex_options "{}") 30 (ExecData ex_data) (fst (ex_prepared "{}")) Hp) as H.
  specialize (H ltac:(split; by intros) ltac:(simpl; lia) ltac:(vm_compute; reflexivity) Hp eq_refl eq_refl
    ltac:(vm_compute; reflexivity)).
  destruct (Execute ex_hash ex_hash ex_cfg (ex_options "{}") 10 (ExecError "") (MkTable ∅ 1))
    as [t1 r1]. destruct H as [_ H]. cbv beta iota in H. simpl fst.
  change (30 <? 10 + FailedRetryBackoff ex_cfg) with true in H. cbv iota in H.
  rewrite H. vm_compute. reflexivity.
Defined.

(** A reclaim that comes late executes a second time.  [TryReclaim] compares the
    status and the lease it read, not the expiry: of two requests that both read an
    expired success, the slower one takes the record over although the faster one has
    just executed and stored a fresh success — request 1 has returned unreplayed data
    at 1010, its record lives until 2010, and request 2 executes at 1010 too. *)
Theorem stale_reclaim_executes_again :
  exists w, rtc ex_step ex_empty w /\ w_clock w = 1010 /\
    map snd (w_requests w) = [SDone (RData ex_data false); SDone (RData ex_data false); SExecute 1 2010] /\
    (exists w1, rtc ex_step w1 w /\ rtc ex_step ex_empty w1 /\ w_clock w1 = 1010 /\
       option_map (fun r => (Status r, ExpiresAt r)) (rows (w_table w1) !! 1) = Some (Succeeded, 2010)).
Proof.
  exists (ex_run ex_stale). split; [apply run_steps; vm_compute; discriminate|].
  split; [vm_compute; reflexivity|]. split; [vm_compute; reflexivity|].
  exists (ex_run (take 17 ex_stale)). split.
  - apply (acts_steps (drop 17 ex_stale)). vm_compute. reflexivity.
  - split; [apply run_steps; vm_compute; discriminate|]. split; vm_compute; reflexivity.
Qed.

(** A response longer than [MaxStoredResponseLen] is stored with a suffix that is not
    JSON: it never replays. *)
Example long_response_is_lost :
  (Execute ex_hash ex_hash ex_cfg (ex_options "{}") 500 (ExecData None)
    (Execute ex_hash ex_hash ex_cfg (ex_options "{}") 10
       (ExecData (Some (JObj [("message", JStr "a long response")]))) (MkTable ∅ 1)).1).2
  = Some (RError ErrStoreUnavail).
Proof. vm_compute. reflexivity. Qed.
