(* ===== verification/KeywordMatcher.v ===== *)
(** * The keyword automaton of content moderation

    [src/backend/internal/service/content_moderation_keyword_matcher.go]: an
    Aho-Corasick automaton over the configured keywords, laid out in arrays (trie
    nodes, sibling-linked build edges, sorted edge slices searched by bisection), its
    two scans ([Match] and [matchContextAwareIndexed]) and the searches without an
    automaton ([matchBlockedKeyword] of [content_moderation.go],
    [matchBlockedKeywordContextAware]).

    Node, edge and keyword indices are natural numbers and the sentinel [-1] is [None]:
    the machine widths (int32, uint16 for the at most 256 edges of a node) hold every
    index a configuration that fits in memory produces.  Case folding, Unicode
    normalization and the two context policies ([isClearlyBenignKeywordContext],
    [allowContextualKeywordHit]: word lists around an occurrence) are arguments. *)

From S2P Require Import Prelude Json.
Local Open Scope string_scope.
Local Open Scope list_scope.
Local Open Scope go_scope.
Local Open Scope nat_scope.

Definition bytes_of : string -> list Ascii.ascii := String.list_ascii_of_string.

(** ** Data *)

Record Node := MkNode {
  failure : nat;
  bestKeyword : option nat;
  edgeStart : nat;          (* while building: one more than the first edge, or 0 *)
  edgeCount : nat;
}.
#[export] Instance eta_Node : Eta Node := fun n =>
  MkNode (failure n) (bestKeyword n) (edgeStart n) (edgeCount n).
Record Edge := MkEdge { e_target : nat; e_label : Ascii.ascii }.
Record BuildEdge := MkBuildEdge {
  be_target : nat;
  be_nextSibling : option nat;
  be_label : Ascii.ascii;
}.

Definition newNode : Node := MkNode 0 None 0 0.
(** [nodes[i]]; every index the code uses is in range. *)
Definition node_at (nodes : list Node) (i : nat) : Node := default newNode (nodes !! i).

(** ** The trie *)

Definition BuildFirstEdge (n : Node) : option nat :=
  match edgeStart n with O => None | S i => Some i end.

(** The edges the loops over [nextSibling] visit, in order. *)
Fixpoint siblings (fuel : nat) (edges : list BuildEdge) (e : option nat) : list BuildEdge :=
  match fuel, e with
  | S fuel, Some i =>
      match edges !! i with
      | Some edge => edge :: siblings fuel edges (be_nextSibling edge)
      | None => []
      end
  | _, _ => []
  end.
Definition edges_of (nodes : list Node) (edges : list BuildEdge) (state : nat) : list BuildEdge :=
  siblings (length edges) edges (BuildFirstEdge (node_at nodes state)).

Definition BuildTransition (nodes : list Node) (edges : list BuildEdge) (state : nat)
    (label : Ascii.ascii) : option nat :=
  be_target <$> List.find (fun e => Ascii.eqb (be_label e) label) (edges_of nodes edges state).

Record Build := MkBuild {
  b_nodes : list Node;
  b_edges : list BuildEdge;
  b_terminal : list (list nat);
}.

Definition add_label (bs : Build * nat) (label : Ascii.ascii) : Build * nat :=
  let '(b, state) := bs in
  match BuildTransition (b_nodes b) (b_edges b) state label with
  | Some next => (b, next)
  | None =>
      let next := length (b_nodes b) in
      let nodes := b_nodes b ++ [newNode] in
      let edges := b_edges b ++ [MkBuildEdge next (BuildFirstEdge (node_at nodes state)) label] in
      let nodes := <[state := (node_at nodes state) <| edgeStart := length edges |>]> nodes in
      (MkBuild nodes edges (b_terminal b ++ [[]]), next)
  end.

Definition min_index (a b : option nat) : option nat :=
  match a, b with
  | None, b => b
  | a, None => a
  | Some x, Some y => if x <? y then Some x else Some y
  end.

Section Matcher.
Context (ToLower normalize : string -> string).

Definition add_keyword (b : Build) (i : nat) (keyword : string) : Build :=
  if keyword =?s "" then b
  else
    let '(b, state) := fold_left add_label (bytes_of (ToLower keyword)) (b, 0) in
    let n := node_at (b_nodes b) state in
    let best := match bestKeyword n with
                | None => Some i
                | Some current => if i <? current then Some i else Some current
                end in
    MkBuild (<[state := n <| bestKeyword := best |>]> (b_nodes b)) (b_edges b)
      (<[state := default [] (b_terminal b !! state) ++ [i]]> (b_terminal b)).
Fixpoint add_keywords (b : Build) (i : nat) (keywords : list string) : Build :=
  match keywords with
  | [] => b
  | k :: ks => add_keywords (add_keyword b i k) (S i) ks
  end.
Definition build_trie (keywords : list string) : Build :=
  add_keywords (MkBuild [newNode] [] [[]]) 0 keywords.

(** ** Failure links, breadth first *)

(** [for fallback < 0 && failure != 0]: the chain gets shallower, so as many steps
    as there are nodes are enough. *)
Fixpoint climb (fuel : nat) (nodes : list Node) (edges : list BuildEdge) (state : nat)
    (label : Ascii.ascii) : option nat :=
  match BuildTransition nodes edges state label with
  | Some t => Some t
  | None =>
      if state =? 0 then None
      else match fuel with
           | O => None
           | S fuel => climb fuel nodes edges (failure (node_at nodes state)) label
           end
  end.

Definition link_edge (edges : list BuildEdge) (state : nat) (nodes : list Node) (edge : BuildEdge) :
    list Node :=
  let t := be_target edge in
  let nodes := match climb (length nodes) nodes edges (failure (node_at nodes state)) (be_label edge) with
               | Some fallback => <[t := (node_at nodes t) <| failure := fallback |>]> nodes
               | None => nodes
               end in
  let n := node_at nodes t in
  <[t := n <| bestKeyword := min_index (bestKeyword n) (bestKeyword (node_at nodes (failure n))) |>]>
    nodes.

(** Every node but the root enters the queue once: [fuel] is the number of nodes. *)
Fixpoint link_queue (fuel : nat) (edges : list BuildEdge) (nodes : list Node) (queue : list nat)
    (index : nat) : list Node * list nat :=
  match fuel, queue !! index with
  | S fuel, Some state =>
      let es := edges_of nodes edges state in
      link_queue fuel edges (fold_left (link_edge edges state) es nodes) (queue ++ map be_target es)
        (S index)
  | _, _ => (nodes, queue)
  end.

Definition collect_output (nodes : list Node) (terminal : list (list nat)) (outputs : list (list nat))
    (state : nat) : list (list nat) :=
  <[state := default [] (outputs !! state) ++ default [] (terminal !! state) ++
             default [] (outputs !! failure (node_at nodes state))]> outputs.

(** ** The edge slices *)

(** Insertion into the sorted prefix of [outgoing], from its end. *)
Fixpoint insert_edge (current : Edge) (rev_prefix : list Edge) : list Edge :=
  match rev_prefix with
  | p :: r => if code (e_label current) <? code (e_label p) then p :: insert_edge current r
              else current :: rev_prefix
  | [] => [current]
  end.
Definition outgoing (es : list BuildEdge) : list Edge :=
  rev (fold_left (fun r e => insert_edge (MkEdge (be_target e) (be_label e)) r) es []).

Definition lay_out (build_edges : list BuildEdge) (ne : list Node * list Edge) (i : nat) :
    list Node * list Edge :=
  let '(nodes, edges) := ne in
  let out := outgoing (edges_of nodes build_edges i) in
  (<[i := (node_at nodes i) <| edgeStart := length edges |> <| edgeCount := length out |>]> nodes,
   edges ++ out).

(** ** Keywords that cover shorter ones *)

Definition contextSensitiveContentModerationKeywords : list string :=
  ["木马"; "远控"; "免杀"; "肉鸡"; "传马"; "拿站"; "脱裤"; "拖库"; "提权"; "脏牛"; "撞库"; "盗号"; "打瘫";
   "打宕"; "删库"; "查档"; "开盒"; "料子"; "料商"; "猫池"; "卡商"; "黑卡"; "群控"; "云控"; "养号";
   "简历库"; "社工库"; "查户籍"; "出数据"; "收数据"; "军火商"; "算号器"; "买漏洞"; "白加黑"; "大灰狼"; "内存马";
   "跳板机"; "洗ip"; "拿权限"; "提权到"; "反检测"; "过杀软"; "过火绒"; "过卡巴"; "过edr"; "c2"; "rce";
   "unhook"; "stealer"; "botnet"].
Definition isContextSensitive (keyword : string) : bool :=
  let key := normalize (TrimSpace keyword) in
  if key =?s "" then false
  else existsb (String.eqb key) contextSensitiveContentModerationKeywords.

(** [strings.Index] *)
Fixpoint Index (s sub : string) : option nat :=
  if HasPrefix s sub then Some 0
  else match s with EmptyString => None | String _ s => S <$> Index s sub end.
Definition Contains (s sub : string) : bool := if Index s sub is Some _ then true else false.
(** [s[from:to]] *)
Definition slice (s : string) (from to : nat) : string := str_take (to - from) (str_drop from s).
Definition HasSuffix (s sub : string) : bool :=
  (String.length sub <=? String.length s) && (str_drop (String.length s - String.length sub) s =?s sub).

Definition covers (candidate : string) (ic : nat) (longer : string) (il : nat) : bool :=
  negb ((il =? ic) || (longer =?s "") || (String.length longer <=? String.length candidate) ||
        negb (Contains longer candidate)).
Definition add_longer (candidate : string) (ic : nat) (l : list string) (p : nat * string) :
    list string :=
  if covers candidate ic p.2 p.1 && negb (existsb (String.eqb p.2) l) then l ++ [p.2] else l.
(** [seen] starts empty for each index of a candidate, [covering[candidate]] does not. *)
Definition buildCoveringIndex (normalizedKeywords : list string) : gmap string (list string) :=
  let indexed := zip (seq 0 (length normalizedKeywords)) normalizedKeywords in
  fold_left (fun covering p =>
      if (p.2 =?s "") || negb (isContextSensitive p.2) then covering
      else match fold_left (add_longer p.2 p.1) indexed [] with
           | [] => covering
           | new => <[p.2 := default [] (covering !! p.2) ++ new]> covering
           end)
    indexed ∅.

(** ** The matcher *)

Record Matcher := MkMatcher {
  nodes : list Node;
  edges : list Edge;
  rootTransitions : list nat;                 (* by label; 0: none *)
  keywords : list string;
  outputs : list (list nat);
  normalizedKeywords : list string;
  covering : gmap string (list string);
  canonicalVariant : bool;
}.

Definition is_variant (keyword : string) : bool :=
  let trimmed := TrimSpace keyword in
  if trimmed =?s "" then false
  else negb (trimmed =?s keyword) || negb (normalize trimmed =?s ToLower trimmed).

Definition newMatcher (ks : list string) : option Matcher :=
  match ks with
  | [] => None
  | _ =>
      let b := build_trie ks in
      if length (b_nodes b) =? 1 then None
      else
        let normalized := map (fun k => normalize (TrimSpace k)) ks in
        let roots := edges_of (b_nodes b) (b_edges b) 0 in
        let '(linked, queue) :=
          link_queue (length (b_nodes b)) (b_edges b) (b_nodes b) (map be_target roots) 0 in
        let outs := fold_left (collect_output linked (b_terminal b)) queue
                      (replicate (length linked) []) in
        let '(laid, es) := fold_left (lay_out (b_edges b)) (seq 0 (length linked)) (linked, []) in
        Some (MkMatcher laid es
                (fold_left (fun r e => <[code (be_label e) := be_target e]> r) roots (replicate 256 0))
                ks outs normalized (buildCoveringIndex normalized) (existsb is_variant ks))
  end.

(** [left < right]: halves, so the number of edges of the node is enough fuel. *)
Fixpoint bisect (fuel : nat) (es : list Edge) (label : Ascii.ascii) (left right : nat) : nat :=
  match fuel with
  | O => left
  | S fuel =>
      if left <? right then
        let middle := left + (right - left) / 2 in
        if match es !! middle with Some e => code (e_label e) <? code label | None => false end
        then bisect fuel es label (middle + 1) right
        else bisect fuel es label left middle
      else left
  end.
Definition next (m : Matcher) (state : nat) (label : Ascii.ascii) : nat :=
  if state =? 0 then default 0 (rootTransitions m !! code label)
  else
    match nodes m !! state with
    | None => 0
    | Some n =>
        let stop := edgeStart n + edgeCount n in
        let left := bisect (edgeCount n) (edges m) label (edgeStart n) stop in
        if left <? stop then
          match edges m !! left with
          | Some e => if Ascii.eqb (e_label e) label then e_target e else 0
          | None => 0
          end
        else 0
    end.

(** The inner loop of the scans, on the chain of failures. *)
Fixpoint advance (fuel : nat) (m : Matcher) (state : nat) (label : Ascii.ascii) : nat :=
  let n := next m state label in
  if negb (n =? 0) then n
  else if state =? 0 then 0
  else match fuel with
       | O => 0
       | S fuel => advance fuel m (failure (node_at (nodes m) state)) label
       end.
Definition step (m : Matcher) (state : nat) (label : Ascii.ascii) : nat :=
  advance (length (nodes m)) m state label.

Fixpoint scan (m : Matcher) (text : list Ascii.ascii) (state : nat) (best : option nat) : option nat :=
  match text with
  | [] => best
  | label :: text =>
      let state := step m state label in
      let best := min_index best (bestKeyword (node_at (nodes m) state)) in
      if match best with Some O => true | _ => false end then best else scan m text state best
  end.

Definition Match (m : option Matcher) (text : string) : option string :=
  match m with
  | None => None
  | Some m =>
      if (text =?s "") || (length (nodes m) =? 0) || (length (keywords m) =? 0) then None
      else best ← scan m (bytes_of (ToLower text)) 0 None; keywords m !! best
  end.

(** [content_moderation.go] *)
Fixpoint first_contained (lower : string) (ks : list string) : option string :=
  match ks with
  | [] => None
  | k :: ks =>
      if k =?s "" then first_contained lower ks
      else if Contains lower (ToLower k) then Some k
      else first_contained lower ks
  end.
Definition matchBlockedKeyword (text : string) (ks : list string) : option string :=
  if (text =?s "") || (length ks =? 0) then None else first_contained (ToLower text) ks.

(** ** Matches in context *)

Context (isClearlyBenign allowContextualHit : string -> nat -> nat -> bool).

(** The occurrences of one covering phrase around the candidate's: [None] when one is
    actionable, else whether one was found.  Each round moves past an occurrence. *)
Fixpoint cover_search (fuel : nat) (text : string) (start stop : nat) (keyword : string)
    (from searchEnd : nat) (found : bool) : option bool :=
  match fuel with
  | O => Some found
  | S fuel =>
      if from <? searchEnd then
        match Index (slice text from searchEnd) keyword with
        | None => Some found
        | Some relative =>
            let longStart := from + relative in
            let longEnd := longStart + String.length keyword in
            let here := (longStart <=? start) && (stop <=? longEnd) in
            if here && negb (isClearlyBenign text longStart longEnd) then None
            else if longEnd <=? from then Some (found || here)
            else cover_search fuel text start stop keyword longEnd searchEnd (found || here)
        end
      else Some found
  end.
Definition hasBenignCovering (text : string) (start stop : nat) (candidate : string)
    (covering : gmap string (list string)) : bool :=
  if (text =?s "") || (stop <=? start) || (String.length text <? start) then false
  else
    let stop := Nat.min stop (String.length text) in
    if candidate =?s "" then false
    else
      (fix go (longer : list string) (found : bool) : bool :=
         match longer with
         | [] => found
         | k :: longer =>
             if (String.length k <=? stop - start) || (k =?s "") then go longer found
             else
               let from := start - (String.length k - (stop - start)) in
               let searchEnd := Nat.min (start + String.length k) (String.length text) in
               match cover_search (S (String.length text)) text start stop k from searchEnd found with
               | None => false
               | Some found => go longer found
               end
         end) (default [] (covering !! candidate)) false.

Definition suppressed (covering : gmap string (list string)) (keyword text : string) (start stop : nat)
    (needle : string) : bool :=
  hasBenignCovering text start stop needle covering || isClearlyBenign text start stop ||
  (isContextSensitive keyword && negb (allowContextualHit text start stop)).

Definition output_hit (m : Matcher) (text : string) (position : nat) (i : nat) : bool :=
  let needle := default "" (normalizedKeywords m !! i) in
  if (needle =?s "") || (position + 1 <? String.length needle) then false
  else
    let start := position + 1 - String.length needle in
    let stop := position + 1 in
    if (String.length text <? stop) || negb (HasSuffix (str_take stop text) needle) then false
    else negb (suppressed (covering m) (default "" (keywords m !! i)) text start stop needle).
Fixpoint scan_outputs (m : Matcher) (text : string) (position : nat) (l : list nat) (best : nat) : nat :=
  match l with
  | [] => best
  | i :: l =>
      if (length (keywords m) <=? i) || (best <=? i) then scan_outputs m text position l best
      else if negb (output_hit m text position i) then scan_outputs m text position l best
      else if i =? 0 then 0
      else scan_outputs m text position l i
  end.
(** [best] stops the scan at 0: no index is below. *)
Fixpoint scan_context (m : Matcher) (text : string) (rest : list Ascii.ascii) (position state best : nat) :
    nat :=
  match rest with
  | [] => best
  | label :: rest =>
      let state := step m state label in
      let best := scan_outputs m text position (default [] (outputs m !! state)) best in
      if best =? 0 then 0 else scan_context m text rest (S position) state best
  end.
Definition matchContextAwareIndexed (m : Matcher) (text : string) : option string :=
  if (text =?s "") || (length (nodes m) =? 0) || (length (outputs m) =? 0) then None
  else keywords m !! scan_context m text (bytes_of text) 0 0 (length (keywords m)).

(** The occurrences of one keyword, each search starting after the last occurrence. *)
Fixpoint occurrence_search (fuel : nat) (covering : gmap string (list string)) (keyword text needle : string)
    (from : nat) : bool :=
  match fuel with
  | O => false
  | S fuel =>
      if from <? String.length text then
        match Index (str_drop from text) needle with
        | None => false
        | Some relative =>
            let start := from + relative in
            let stop := start + String.length needle in
            if negb (suppressed covering keyword text start stop needle) then true
            else if stop <=? from then false
            else occurrence_search fuel covering keyword text needle stop
        end
      else false
  end.
Definition search_keywords (text : string) (covering : gmap string (list string)) :
    list string -> option string :=
  List.find (fun raw =>
    let keyword := TrimSpace raw in
    let needle := normalize keyword in
    negb (keyword =?s "") && negb (needle =?s "") &&
    occurrence_search (S (String.length text)) covering keyword text needle 0).
Definition matchBlockedKeywordContextAware (text : string) (ks : list string) : option string :=
  if (text =?s "") || (length ks =? 0) then None
  else
    let lowerText := normalize text in
    let direct := search_keywords lowerText (buildCoveringIndex (map (fun k => normalize (TrimSpace k)) ks)) ks in
    match newMatcher ks with
    | Some m =>
        if (lowerText =?s ToLower text) && negb (canonicalVariant m) && (0 <? length (outputs m))
        then matchContextAwareIndexed m lowerText
        else direct
    | None => direct
    end.

Definition MatchContextAware (m : option Matcher) (text : string) : option string :=
  match m with
  | None => None
  | Some m =>
      if (text =?s "") || (length (keywords m) =? 0) then None
      else
        let normalizedText := normalize text in
        let fallback := matchBlockedKeywordContextAware normalizedText (keywords m) in
        if normalizedText =?s "" then None
        else if (normalizedText =?s ToLower text) && negb (canonicalVariant m) && (0 <? length (outputs m))
        then matchContextAwareIndexed m normalizedText
        else if canonicalVariant m then fallback
        else
          match Match (Some m) text with
          | None => if normalizedText =?s ToLower text then None else fallback
          | Some first =>
              if isContextSensitive first then fallback
              else
                let needle := normalize (TrimSpace first) in
                if needle =?s "" then fallback
                else
                  match Index normalizedText needle with
                  | None => Some first
                  | Some start =>
                      let stop := start + String.length needle in
                      if negb (hasBenignCovering normalizedText start stop needle (covering m)) &&
                         negb (isClearlyBenign normalizedText start stop)
                      then Some first
                      else fallback
                  end
          end
  end.
End Matcher.
