(* ===== verification/KeywordTrieProofs.v ===== *)
(** * The keyword trie and its failure links

    Ghost state: the list [paths] of the byte strings the trie nodes stand for.  The
    insertions keep [trie_of], the breadth-first pass goes level by level from
    [Linking d []] to [Linking (S d) []] and ends with every node [linked]. *)

From S2P Require Import Prelude Json KeywordMatcher.
Local Open Scope string_scope.
Local Open Scope list_scope.
Local Open Scope go_scope.
Local Open Scope nat_scope.

Abbreviation byte := Ascii.ascii.

(** ** Least indices *)

Definition least (P : nat -> Prop) (o : option nat) : Prop :=
  match o with
  | None => forall i, ~ P i
  | Some i => P i /\ forall j, P j -> i <= j
  end.

Lemma least_min P Q a b :
  least P a -> least Q b -> least (fun i => P i \/ Q i) (min_index a b).
Proof.
  destruct a as [x|], b as [y|]; simpl; try naive_solver.
  - intros [Hx Px] [Hy Qy]. destruct (x <? y) eqn:E; simpl.
    + apply Nat.ltb_lt in E. split; [by left|]. intros j [H|H]; [auto|]. specialize (Qy j H). lia.
    + apply Nat.ltb_ge in E. split; [by right|]. intros j [H|H]; [|auto]. specialize (Px j H). lia.
Qed.
Lemma least_ext P Q o : (forall i, P i <-> Q i) -> least P o -> least Q o.
Proof. destruct o; simpl; naive_solver. Qed.
Lemma least_unique P a b : least P a -> least P b -> a = b.
Proof.
  destruct a as [x|], b as [y|]; simpl; try naive_solver.
  intros [Hx Px] [Hy Py]. f_equal. specialize (Px y Hy). specialize (Py x Hx). lia.
Qed.
Lemma min_index_zero a b : a = Some 0 -> min_index a b = Some 0.
Proof. intros ->. by destruct b as [[|y]|]. Qed.

(** ** Sibling lists *)

Definition edges_wf (es : list BuildEdge) : Prop :=
  forall i e j, es !! i = Some e -> be_nextSibling e = Some j -> j < i.

Lemma siblings_fuel es f1 f2 e :
  edges_wf es -> (forall i, e = Some i -> i < f1 /\ i < f2) ->
  siblings f1 es e = siblings f2 es e.
Proof.
  intros Hwf. revert f2 e. induction f1 as [|f1 IH]; intros [|f2] [i|] He; simpl; try done.
  1,2: specialize (He i eq_refl); lia.
  destruct (es !! i) as [edge|] eqn:E; [|done]. f_equal. apply IH. intros j Hj.
  specialize (He i eq_refl). specialize (Hwf i edge j E Hj). lia.
Qed.
Lemma siblings_app es x f e :
  edges_wf es -> (forall i, e = Some i -> i < length es) ->
  siblings f (es ++ [x]) e = siblings f es e.
Proof.
  intros Hwf. revert e. induction f as [|f IH]; intros [i|] He; simpl; try done.
  specialize (He i eq_refl). rewrite lookup_app_l by done.
  destruct (es !! i) as [edge|] eqn:E; [|done]. f_equal. apply IH. intros j Hj.
  specialize (Hwf i edge j E Hj). lia.
Qed.

Lemma node_at_Some ns i n : ns !! i = Some n -> node_at ns i = n.
Proof. unfold node_at. by intros ->. Qed.
Lemma node_at_insert ns i j n :
  i < length ns -> node_at (<[i := n]> ns) j = if decide (i = j) then n else node_at ns j.
Proof.
  intros Hi. unfold node_at. destruct (decide (i = j)) as [<-|Hij].
  - by rewrite list_lookup_insert_eq.
  - by rewrite list_lookup_insert_ne.
Qed.
Lemma node_at_app ns j : node_at (ns ++ [newNode]) j = node_at ns j.
Proof.
  unfold node_at. destruct (decide (j < length ns)).
  - by rewrite lookup_app_l.
  - rewrite lookup_app_r by lia. rewrite (lookup_ge_None_2 ns) by lia.
    by destruct (j - length ns) as [|[|k]].
Qed.

(** ** The shape of the trie *)

Record Shape (paths : list (list byte)) (ns : list Node) (es : list BuildEdge) : Prop := {
  s_len : length ns = length paths;
  s_root : paths !! 0 = Some [];
  s_nodup : NoDup paths;
  s_edge : forall s p e, paths !! s = Some p -> e ∈ edges_of ns es s ->
    paths !! be_target e = Some (p ++ [be_label e]);
  s_child : forall s p t l, paths !! s = Some p -> paths !! t = Some (p ++ [l]) ->
    exists e, e ∈ edges_of ns es s /\ be_target e = t /\ be_label e = l;
  s_targets : forall s, NoDup (map be_target (edges_of ns es s));
  s_prefix : forall t p l, paths !! t = Some (p ++ [l]) -> exists s, paths !! s = Some p;
}.

Lemma path_inj (paths : list (list byte)) s t p : NoDup paths -> paths !! s = Some p -> paths !! t = Some p -> s = t.
Proof. intros Hn Hs Ht. by eapply NoDup_lookup. Qed.

(** The trie's transition goes from a path to the path one byte longer. *)
Lemma transition_spec paths ns es s p l t :
  Shape paths ns es -> paths !! s = Some p ->
  BuildTransition ns es s l = Some t <-> paths !! t = Some (p ++ [l]).
Proof.
  intros Hsh Hs. unfold BuildTransition. split.
  - intros H. apply fmap_Some in H as (e & He & ->). apply find_some in He as [Hin Hl].
    apply Ascii.eqb_eq in Hl as <-. apply list_elem_of_In in Hin. by eapply s_edge.
  - intros Ht. destruct (s_child _ _ _ Hsh s p t l Hs Ht) as (e & Hin & He & Hl).
    destruct (List.find _ _) as [e'|] eqn:E.
    + apply find_some in E as [Hin' Hl']. apply Ascii.eqb_eq in Hl'.
      apply list_elem_of_In in Hin'. pose proof (s_edge _ _ _ Hsh s p e' Hs Hin') as H'.
      rewrite Hl' in H'. simpl. f_equal. by eapply path_inj; [apply (s_nodup _ _ _ Hsh)| |].
    + pose proof (find_none _ _ E e (proj1 (list_elem_of_In _ _) Hin)) as H'. simpl in H'.
      by rewrite Hl, Ascii.eqb_refl in H'.
Qed.
Lemma transition_None paths ns es s p l :
  Shape paths ns es -> paths !! s = Some p ->
  BuildTransition ns es s l = None <-> p ++ [l] ∉ paths.
Proof.
  intros Hsh Hs. split.
  - intros H Hin. apply list_elem_of_lookup in Hin as [t Ht].
    by rewrite (proj2 (transition_spec _ _ _ s p l t Hsh Hs) Ht) in H.
  - intros Hn. destruct (BuildTransition ns es s l) as [t|] eqn:E; [|done].
    destruct Hn. apply (transition_spec _ _ _ s p l t Hsh Hs) in E. by eapply list_elem_of_lookup_2.
Qed.

(** The shape does not depend on failures and keywords. *)
Definition same_edges (ns ns' : list Node) : Prop :=
  length ns' = length ns /\ forall i, edgeStart (node_at ns' i) = edgeStart (node_at ns i).
Lemma same_edges_of ns ns' es s : same_edges ns ns' -> edges_of ns' es s = edges_of ns es s.
Proof. intros [_ H]. unfold edges_of, BuildFirstEdge. by rewrite H. Qed.
Lemma shape_same paths ns ns' es : same_edges ns ns' -> Shape paths ns es -> Shape paths ns' es.
Proof.
  intros Hs [H1 H2 H3 H4 H5 H6 H7].
  split; try done; [destruct Hs; congruence| | |]; intros s; rewrite (same_edges_of ns ns' es s Hs);
    [apply H4|apply H5|apply H6].
Qed.
Lemma same_refl ns : same_edges ns ns.
Proof. by split. Qed.
Lemma same_trans a b c : same_edges a b -> same_edges b c -> same_edges a c.
Proof. intros [H1 H2] [H3 H4]. split; [congruence|]. intros i. by rewrite H4. Qed.
Lemma same_insert ns i n :
  i < length ns -> edgeStart n = edgeStart (node_at ns i) -> same_edges ns (<[i := n]> ns).
Proof.
  intros Hi Hn. split; [by rewrite length_insert|]. intros j. rewrite node_at_insert by done.
  by destruct (decide _) as [<-|].
Qed.

(** ** Inserting the keywords *)

(** What the build keeps besides the shape: the sibling lists go down, and nothing is
    linked yet. *)
Record Building (b : Build) : Prop := {
  g_wf : edges_wf (b_edges b);
  g_first : forall s i, BuildFirstEdge (node_at (b_nodes b) s) = Some i -> i < length (b_edges b);
  g_fresh : forall s, failure (node_at (b_nodes b) s) = 0;
  g_term : length (b_terminal b) = length (b_nodes b);
}.

(** [n] words inserted: what ends at a path. *)
Definition holds (P : nat -> list byte -> Prop) (b : Build) (t : nat) (p : list byte) : Prop :=
  least (fun i => P i p) (bestKeyword (node_at (b_nodes b) t)) /\
  forall i, i ∈ default [] (b_terminal b !! t) <-> P i p.
Definition trie_of (P : nat -> list byte -> Prop) (paths : list (list byte)) (b : Build) : Prop :=
  Shape paths (b_nodes b) (b_edges b) /\ Building b /\
  (forall t p, paths !! t = Some p -> holds P b t p).

Lemma edges_of_fuel b s n :
  Building b -> length (b_edges b) <= n ->
  siblings n (b_edges b) (BuildFirstEdge (node_at (b_nodes b) s)) = edges_of (b_nodes b) (b_edges b) s.
Proof.
  intros Hb Hn. apply siblings_fuel; [apply (g_wf _ Hb)|]. intros i Hi.
  apply (g_first _ Hb) in Hi. lia.
Qed.

Section Grow.
Context (P : nat -> list byte -> Prop) (paths : list (list byte)) (b : Build) (s : nat) (p : list byte).
Context (l : byte).
Context (HT : trie_of P paths b) (Hs : paths !! s = Some p) (Hnew : p ++ [l] ∉ paths).
Context (Hnone : forall i, ~ P i (p ++ [l])).

Definition grown : Build :=
  MkBuild
    (<[s := (node_at (b_nodes b) s) <| edgeStart := S (length (b_edges b)) |>]> (b_nodes b ++ [newNode]))
    (b_edges b ++ [MkBuildEdge (length (b_nodes b)) (BuildFirstEdge (node_at (b_nodes b) s)) l])
    (b_terminal b ++ [[]]).

Lemma s_in : s < length (b_nodes b).
Proof. destruct HT as [Hsh _]. rewrite (s_len _ _ _ Hsh). by eapply lookup_lt_Some. Qed.
Lemma grown_node j : node_at (b_nodes grown) j =
  if decide (s = j) then (node_at (b_nodes b) s) <| edgeStart := S (length (b_edges b)) |>
  else node_at (b_nodes b) j.
Proof.
  simpl. rewrite node_at_insert by (rewrite length_app; pose proof s_in; simpl; lia).
  by rewrite node_at_app.
Qed.
Lemma grown_building : Building grown.
Proof.
  destruct HT as (Hsh & [Hwf Hfirst Hfresh Hterm] & _). split; simpl.
  - intros i e j Hi Hj. apply lookup_app_Some in Hi as [Hi|[Hle Hi]]; [by eapply Hwf|].
    apply list_lookup_singleton_Some in Hi as [Hi <-]. simpl in Hj. apply Hfirst in Hj. lia.
  - intros j i. rewrite grown_node. rewrite length_app. simpl. destruct (decide _) as [<-|].
    + intros [= <-]. simpl. lia.
    + intros Hi%Hfirst. lia.
  - intros j. rewrite grown_node. destruct (decide _) as [<-|]; apply Hfresh.
  - rewrite length_insert, !length_app, Hterm. simpl. lia.
Qed.
Lemma grown_edges j : edges_of (b_nodes grown) (b_edges grown) j =
  if decide (s = j) then
    MkBuildEdge (length (b_nodes b)) (BuildFirstEdge (node_at (b_nodes b) s)) l ::
    edges_of (b_nodes b) (b_edges b) s
  else edges_of (b_nodes b) (b_edges b) j.
Proof.
  destruct HT as (Hsh & Hb & _). unfold edges_of at 1. rewrite grown_node.
  assert (Hf : forall j, siblings (S (length (b_edges b))) (b_edges grown)
      (BuildFirstEdge (node_at (b_nodes b) j)) = edges_of (b_nodes b) (b_edges b) j).
  { intros k. unfold grown. simpl b_edges. rewrite siblings_app.
    - apply edges_of_fuel; [done|lia].
    - apply (g_wf _ Hb).
    - apply (g_first _ Hb). }
  replace (length (b_edges grown)) with (S (length (b_edges b)))
    by (simpl; rewrite length_app; simpl; lia).
  destruct (decide _) as [<-|]; [|apply Hf].
  unfold BuildFirstEdge at 1. simpl edgeStart.
  cbn [siblings b_edges grown]. rewrite list_lookup_middle by done. f_equal. simpl be_nextSibling.
  rewrite siblings_app; [apply edges_of_fuel; [done|lia]|apply (g_wf _ Hb)|apply (g_first _ Hb)].
Qed.

Lemma grown_shape : Shape (paths ++ [p ++ [l]]) (b_nodes grown) (b_edges grown).
Proof.
  destruct HT as (Hsh & Hb & _). destruct Hsh as [H1 H2 H3 H4 H5 H6 H7].
  assert (Hlt : forall e, e ∈ edges_of (b_nodes b) (b_edges b) s -> be_target e < length paths).
  { intros e He. eapply lookup_lt_Some, (H4 s p e Hs He). }
  split.
  - simpl. rewrite length_insert, !length_app. simpl. lia.
  - by apply lookup_app_l_Some.
  - apply NoDup_app. split; [done|]. split; [|apply NoDup_singleton].
    intros x Hx ->%list_elem_of_singleton. done.
  - intros j q e Hj He. rewrite grown_edges in He. destruct (decide _) as [<-|Hj'].
    + rewrite lookup_app_l in Hj by (by eapply lookup_lt_Some). rewrite Hs in Hj. injection Hj as <-.
      apply elem_of_cons in He as [-> |He]; simpl.
      * rewrite H1. by apply list_lookup_middle.
      * apply lookup_app_l_Some. by apply (H4 s).
    + apply lookup_app_Some in Hj as [Hj|[Hle Hj]]; [apply lookup_app_l_Some; by apply (H4 j)|].
      apply list_lookup_singleton_Some in Hj as [Hj <-].
      assert (Hnil : edges_of (b_nodes b) (b_edges b) j = []).
      { unfold edges_of, node_at. rewrite lookup_ge_None_2 by lia. by destruct (length (b_edges b)). }
      rewrite Hnil in He. by apply elem_of_nil in He.
  - intros j q t l' Hj Ht. rewrite grown_edges.
    assert (Hj' : paths !! j = Some q).
    { apply lookup_app_Some in Hj as [Hj|[Hle Hj]]; [done|].
      apply list_lookup_singleton_Some in Hj as [Hj <-].
      apply lookup_app_Some in Ht as [Ht|[_ Ht]].
      - destruct (H7 _ _ _ Ht) as [k Hk]. destruct Hnew. by eapply list_elem_of_lookup_2.
      - apply list_lookup_singleton_Some in Ht as [_ Ht]. apply (f_equal length) in Ht.
        rewrite !length_app in Ht. simpl in Ht. lia. }
    apply lookup_app_Some in Ht as [Ht|[Hle Ht]].
    + destruct (H5 j q t l' Hj' Ht) as (e & He & ? & ?). exists e.
      destruct (decide _) as [<-|]; [|done]. split; [by right|done].
    + apply list_lookup_singleton_Some in Ht as [Ht E]. apply app_inj_tail in E as [<- <-].
      assert (s = j) as <- by (by eapply path_inj). rewrite decide_True by done.
      eexists. split; [by left|]. simpl. split; [lia|done].
  - intros j. rewrite grown_edges. destruct (decide _) as [<-|]; [|done]. simpl. constructor; [|done].
    intros (e & Heq & He)%list_elem_of_fmap. specialize (Hlt e He). lia.
  - intros t q l' Ht. apply lookup_app_Some in Ht as [Ht|[_ Ht]].
    + destruct (H7 _ _ _ Ht) as [k Hk]. exists k. by apply lookup_app_l_Some.
    + apply list_lookup_singleton_Some in Ht as [_ E]. apply app_inj_tail in E as [<- <-].
      exists s. by apply lookup_app_l_Some.
Qed.

Lemma grown_trie : trie_of P (paths ++ [p ++ [l]]) grown.
Proof.
  split; [apply grown_shape|]. split; [apply grown_building|].
  destruct HT as (Hsh & Hb & Hh). intros t q Ht. apply lookup_app_Some in Ht as [Ht|[Hle Ht]].
  - destruct (Hh t q Ht) as [Hbest Hterm]. split.
    + rewrite grown_node. by destruct (decide _) as [<-|].
    + simpl. rewrite lookup_app_l; [done|]. rewrite (g_term _ Hb), (s_len _ _ _ Hsh).
      by eapply lookup_lt_Some.
  - apply list_lookup_singleton_Some in Ht as [Ht <-].
    assert (t = length (b_nodes b)) as -> by (rewrite (s_len _ _ _ Hsh); lia). split.
    + rewrite grown_node, decide_False by (pose proof s_in; lia).
      unfold node_at. by rewrite lookup_ge_None_2.
    + simpl. rewrite <- (g_term _ Hb), list_lookup_middle by done. simpl.
      intros i. split; [by intros ?%elem_of_nil|by intros ?%Hnone].
Qed.
End Grow.

Lemma add_label_spec P paths b s p l :
  trie_of P paths b -> paths !! s = Some p -> (forall i q, P i q -> q ∈ paths) ->
  let '(b', s') := add_label (b, s) l in
  exists extra, trie_of P (paths ++ extra) b' /\ (paths ++ extra) !! s' = Some (p ++ [l]).
Proof.
  intros HT Hs HP. unfold add_label. destruct (BuildTransition _ _ _ _) as [t|] eqn:E.
  - exists []. rewrite app_nil_r. split; [done|]. by apply (transition_spec _ _ _ s p l t (proj1 HT) Hs).
  - apply (transition_None _ _ _ s p l (proj1 HT) Hs) in E.
    exists [p ++ [l]]. rewrite length_app, Nat.add_1_r, !node_at_app. split.
    + apply (grown_trie P paths b s p l HT Hs E). by intros i ?%HP.
    + apply list_lookup_middle. apply (s_len _ _ _ (proj1 HT)).
Qed.
Lemma add_labels_spec P w paths b s p :
  trie_of P paths b -> paths !! s = Some p -> (forall i q, P i q -> q ∈ paths) ->
  let '(b', s') := fold_left add_label w (b, s) in
  exists extra, trie_of P (paths ++ extra) b' /\ (paths ++ extra) !! s' = Some (p ++ w).
Proof.
  revert paths b s p. induction w as [|l w IH]; intros paths b s p HT Hs HP; simpl.
  - exists []. by rewrite !app_nil_r.
  - pose proof (add_label_spec P paths b s p l HT Hs HP) as H. simpl in H.
    destruct (match BuildTransition _ _ _ _ with Some _ => _ | None => _ end) as [b1 s1].
    destruct H as (ex & HT1 & Hs1). specialize (IH _ _ _ _ HT1 Hs1).
    destruct (fold_left _ w (b1, s1)) as [b2 s2]. destruct IH as (ex2 & HT2 & Hs2).
    + intros i q Hq%HP. apply elem_of_app. by left.
    + exists (ex ++ ex2). rewrite app_assoc. split; [done|]. by rewrite Hs2, <- (app_assoc p).
Qed.

Section Words.
Context (ToLower : string -> string).
(** The bytes of the [i]-th keyword. *)
Definition word (ks : list string) (i : nat) (q : list byte) : Prop :=
  exists k, ks !! i = Some k /\ k <> "" /\ q = bytes_of (ToLower k).

Lemma trie_ext P Q paths b : (forall i q, P i q <-> Q i q) -> trie_of P paths b -> trie_of Q paths b.
Proof.
  intros H (Hsh & Hb & Hh). split; [done|]. split; [done|]. intros t p Ht.
  destruct (Hh t p Ht) as [H1 H2]. split; [eapply least_ext; [intros i; apply H|done]|].
  intros i. by rewrite H2.
Qed.

Lemma word_app ks k i q :
  word (ks ++ [k]) i q <-> word ks i q \/ (i = length ks /\ k <> "" /\ q = bytes_of (ToLower k)).
Proof.
  unfold word. split.
  - intros (x & Hx & ? & ?). apply lookup_app_Some in Hx as [Hx|[Hle Hx]]; [left; by exists x|].
    apply list_lookup_singleton_Some in Hx as [Hx ->]. right. split; [lia|done].
  - intros [(x & Hx & ?)|(-> & ? & ?)].
    + exists x. split; [by apply lookup_app_l_Some|done].
    + exists k. split; [by apply list_lookup_middle|done].
Qed.

(** The keyword's own node gets the index: it is the largest so far. *)
Lemma mark_trie ks k paths b s :
  trie_of (word ks) paths b -> k <> "" -> paths !! s = Some (bytes_of (ToLower k)) ->
  let n := node_at (b_nodes b) s in
  let i := length ks in
  let best := match bestKeyword n with
              | None => Some i
              | Some current => if i <? current then Some i else Some current
              end in
  trie_of (word (ks ++ [k])) paths
    (MkBuild (<[s := n <| bestKeyword := best |>]> (b_nodes b)) (b_edges b)
       (<[s := default [] (b_terminal b !! s) ++ [i]]> (b_terminal b))).
Proof.
  intros (Hsh & [G1 G2 G3 G4] & Hh) Hk Hs n i best.
  assert (Hin : s < length (b_nodes b)) by (rewrite (s_len _ _ _ Hsh); by eapply lookup_lt_Some).
  assert (Hsame : same_edges (b_nodes b) (<[s := n <| bestKeyword := best |>]> (b_nodes b)))
    by (by apply same_insert).
  split; [by eapply shape_same|]. split.
  - split; simpl; try done.
    + intros j e. rewrite node_at_insert by done. destruct (decide _) as [<-|]; apply G2.
    + intros j. rewrite node_at_insert by done. destruct (decide _) as [<-|]; apply G3.
    + by rewrite !length_insert.
  - intros t p Ht. destruct (Hh t p Ht) as [Hbest Hterm]. unfold holds; simpl.
    rewrite node_at_insert by done. destruct (decide (s = t)) as [<-|Hne].
    + rewrite Hs in Ht. injection Ht as <-. simpl. split.
      * subst best. fold n in Hbest. destruct (bestKeyword n) as [x|]; simpl in *.
        -- destruct Hbest as [Hx Hmin]. assert (Hlt : x < length ks)
             by (destruct Hx as (y & Hy & _); by eapply lookup_lt_Some).
           replace (i <? x) with false by (symmetry; apply Nat.ltb_ge; unfold i; lia). simpl.
           split; [apply word_app; by left|]. intros j [Hj|[-> _]]%word_app; [auto|lia].
        -- split; [apply word_app; by right|]. intros j [Hj|[-> _]]%word_app; [by destruct (Hbest j)|done].
      * intros j. rewrite list_lookup_insert_eq by lia. simpl.
        rewrite elem_of_app, Hterm, word_app, list_elem_of_singleton. naive_solver.
    + assert (Hother : forall j, word (ks ++ [k]) j p <-> word ks j p).
      { intros j. rewrite word_app. split; [|by left]. intros [?|(_ & _ & ->)]; [done|].
        destruct Hne. by eapply path_inj; [apply (s_nodup _ _ _ Hsh)| |]. }
      split.
      * eapply least_ext; [|done]. intros j. by rewrite Hother.
      * intros j. rewrite list_lookup_insert_ne by done. by rewrite Hterm, Hother.
Qed.

Lemma add_keywords_spec ks ks' paths b :
  trie_of (word ks) paths b -> (forall i q, word ks i q -> q ∈ paths) ->
  exists paths', trie_of (word (ks ++ ks')) paths' (add_keywords ToLower b (length ks) ks') /\
    (forall i q, word (ks ++ ks') i q -> q ∈ paths').
Proof.
  revert ks paths b. induction ks' as [|k ks' IH]; intros ks paths b HT Hin; simpl.
  - exists paths. by rewrite app_nil_r.
  - replace (ks ++ k :: ks') with ((ks ++ [k]) ++ ks') by (by rewrite <- app_assoc).
    replace (S (length ks)) with (length (ks ++ [k])) by (rewrite length_app; simpl; lia).
    unfold add_keyword. destruct (k =?s "") eqn:Ek; bool_hyps.
    + apply (IH _ paths).
      * eapply trie_ext; [|done]. intros i q. rewrite word_app. naive_solver.
      * intros i q [?|(_ & ? & _)]%word_app; [eauto|done].
    + pose proof (add_labels_spec _ (bytes_of (ToLower k)) paths b 0 [] HT
        (s_root _ _ _ (proj1 HT)) Hin) as H.
      destruct (fold_left _ _ _) as [b1 s1]. destruct H as (ex & HT1 & Hs1). simpl in Hs1.
      apply (IH _ (paths ++ ex)).
      * by apply mark_trie.
      * intros i q [?%Hin|(_ & _ & ->)]%word_app; [apply elem_of_app; by left|].
        by eapply list_elem_of_lookup_2.
Qed.

Lemma build_trie_spec ks :
  exists paths, trie_of (word ks) paths (build_trie ToLower ks) /\ (forall i q, word ks i q -> q ∈ paths).
Proof.
  apply (add_keywords_spec [] ks [[]]); [|by intros i q (k & Hk & _)].
  split; [split|split]; simpl; try done.
  - apply NoDup_singleton.
  - intros s p e _ He. unfold edges_of in He. simpl in He. by apply elem_of_nil in He.
  - intros [|s] p t l Hs Ht; [|done]. injection Hs as <-.
    apply list_lookup_singleton_Some in Ht as [_ Ht]. done.
  - intros s. constructor.
  - intros t p l Ht. apply list_lookup_singleton_Some in Ht as [_ Ht].
    by destruct p.
  - split; simpl; try done.
    + intros [|[|s]] i; done.
    + by intros [|[|s]].
  - intros t p Ht. apply list_lookup_singleton_Some in Ht as [-> <-]. split; simpl.
    + by intros i (k & Hk & _).
    + intros i. split; [by intros ?%elem_of_nil|by intros (k & Hk & _)].
Qed.
End Words.

(** ** Failure links *)

Lemma suffix_shorter (a b c : list byte) :
  a `suffix_of` c -> b `suffix_of` c -> length a <= length b -> a `suffix_of` b.
Proof.
  intros Ha Hb Hl. destruct (suffix_weak_total a b c Ha Hb) as [H|H]; [done|].
  rewrite (suffix_length_eq b a); [done|done|]. apply suffix_length in H. lia.
Qed.
Lemma suffix_snoc_cases (r p : list byte) l :
  r `suffix_of` p ++ [l] -> r = [] \/ exists r', r = r' ++ [l] /\ r' `suffix_of` p.
Proof.
  induction r as [|x r _] using rev_ind; [by left|]. intros H. right. exists r.
  pose proof (suffix_snoc_inv_1 _ _ _ _ H) as ->. split; [done|]. by eapply suffix_snoc_inv_2.
Qed.
Lemma suffix_proper (a b : list byte) : a `suffix_of` b -> a <> b -> length a < length b.
Proof.
  intros H Hne. pose proof (suffix_length _ _ H). destruct (decide (length a = length b)); [|lia].
  destruct Hne. apply suffix_length_eq; [done|lia].
Qed.

Section Links.
Context (is_word : nat -> list byte -> Prop) (paths : list (list byte)) (es : list BuildEdge).
Context (Hpaths : forall i q, is_word i q -> q ∈ paths) (Hnonempty : forall i q, is_word i q -> q <> []).

(** [q] is the longest proper suffix of [p] in the trie. *)
Definition fail_path (p q : list byte) : Prop :=
  q `suffix_of` p /\ q <> p /\
  forall q', q' ∈ paths -> q' `suffix_of` p -> q' <> p -> length q' <= length q.
(** What ends at the end of [p]. *)
Definition ends (p : list byte) (i : nat) : Prop := exists w, is_word i w /\ w `suffix_of` p.

Definition linked (ns : list Node) (t : nat) (p : list byte) : Prop :=
  (p <> [] -> exists q, paths !! failure (node_at ns t) = Some q /\ fail_path p q) /\
  least (ends p) (bestKeyword (node_at ns t)).
Definition fresh (ns : list Node) (t : nat) (p : list byte) : Prop :=
  failure (node_at ns t) = 0 /\ least (fun i => is_word i p) (bestKeyword (node_at ns t)).

Lemma climb_spec ns f q l fuel :
  Shape paths ns es -> paths !! f = Some q -> length q <= fuel ->
  (forall t p, paths !! t = Some p -> length p <= length q -> linked ns t p) ->
  match climb fuel ns es f l with
  | Some t => exists q', q' `suffix_of` q /\ paths !! t = Some (q' ++ [l]) /\
      forall r, r `suffix_of` q -> r ++ [l] ∈ paths -> length r <= length q'
  | None => forall r, r `suffix_of` q -> r ++ [l] ∉ paths
  end.
Proof.
  intros Hsh. revert f q. induction fuel as [|fuel IH]; intros f q Hf Hq Hl; simpl;
    (destruct (BuildTransition ns es f l) as [t|] eqn:E;
      [apply (transition_spec _ _ _ f q l t Hsh Hf) in E; exists q; split; [done|]; split; [done|];
       intros r ?%suffix_length _; lia|]);
    apply (transition_None _ _ _ f q l Hsh Hf) in E;
    (destruct (f =? 0) eqn:E0; [apply Nat.eqb_eq in E0 as ->; rewrite (s_root _ _ _ Hsh) in Hf;
       injection Hf as <-; by intros r ->%suffix_nil_inv|]); apply Nat.eqb_neq in E0.
  - destruct q; [|simpl in Hq; lia]. destruct E0. by eapply path_inj, (s_root _ _ _ Hsh); [apply (s_nodup _ _ _ Hsh)|].
  - assert (Hne : q <> []).
    { intros ->. destruct E0. by eapply path_inj, (s_root _ _ _ Hsh); [apply (s_nodup _ _ _ Hsh)|]. }
    destruct (Hl f q Hf) as [Hlink _]; [lia|]. destruct (Hlink Hne) as (q1 & Hq1 & Hsuf & Hneq & Hmax).
    pose proof (suffix_proper _ _ Hsuf Hneq) as Hlt.
    assert (Hbelow : forall r, r `suffix_of` q -> r ++ [l] ∈ paths -> r `suffix_of` q1).
    { intros r Hr Hin. apply (suffix_shorter r q1 q); [done|done|]. apply Hmax; [|done|by intros ->].
      apply list_elem_of_lookup in Hin as [t Ht]. destruct (s_prefix _ _ _ Hsh t r l Ht) as [k Hk].
      by eapply list_elem_of_lookup_2. }
    specialize (IH _ q1 Hq1 ltac:(lia)). destruct (climb fuel ns es _ l) as [t|].
    + destruct IH as (q' & H1 & H2 & H3); [intros; apply Hl; [done|lia]|].
      exists q'. split; [by trans q1|]. split; [done|]. intros r Hr Hin. apply H3; auto.
    + intros r Hr Hin. apply (IH ltac:(intros; apply Hl; [done|lia]) r); auto.
Qed.

(** Nodes of depth at most [d] and those of [D] are linked, the others fresh. *)
Record Linking (d : nat) (D : list nat) (ns : list Node) : Prop := {
  k_shape : Shape paths ns es;
  k_linked : forall t p, paths !! t = Some p -> length p <= d \/ t ∈ D -> linked ns t p;
  k_fresh : forall t p, paths !! t = Some p -> d < length p -> t ∉ D -> fresh ns t p;
}.

Lemma linking_ext d D D' ns : (forall t, t ∈ D <-> t ∈ D') -> Linking d D ns -> Linking d D' ns.
Proof.
  intros H [H1 H2 H3]. split; [done| |]; intros t p Ht; rewrite <- H; auto.
Qed.

Lemma path_depth (ns : list Node) t p : Shape paths ns es -> paths !! t = Some p -> length p < length ns.
Proof.
  (* the prefixes of a path are distinct nodes *)
  intros Hsh. rewrite (s_len _ _ _ Hsh). intros Ht.
  assert (Hpre : forall k, k <= length p -> take k p ∈ paths).
  { intros k Hk. remember (length p - k) as n eqn:Hn. revert k Hk Hn.
    induction n as [|n IH]; intros k Hk Hn.
    - rewrite take_ge by lia. by eapply list_elem_of_lookup_2.
    - destruct (lookup_lt_is_Some_2 p k) as [x Hx]; [lia|].
      specialize (IH (S k) ltac:(lia) ltac:(lia)). rewrite (take_S_r p k x Hx) in IH.
      apply list_elem_of_lookup in IH as [j Hj]. destruct (s_prefix _ _ _ Hsh _ _ _ Hj) as [m Hm].
      by eapply list_elem_of_lookup_2. }
  assert (Hle : length (map (fun k => take k p) (seq 0 (S (length p)))) <= length paths).
  { apply submseteq_length, NoDup_submseteq.
    - apply NoDup_fmap_2_strong; [|apply NoDup_seq]. intros i j Hi%elem_of_seq Hj%elem_of_seq E.
      apply (f_equal length) in E. rewrite !length_take in E. lia.
    - intros x (k & -> & Hk%elem_of_seq)%list_elem_of_fmap. apply Hpre. lia. }
  rewrite length_map, length_seq in Hle. lia.
Qed.

(** What ends at a path ends at its failure path, or is the path itself. *)
Lemma ends_split p q i : fail_path p q -> ends p i <-> is_word i p \/ ends q i.
Proof.
  intros (Hsuf & Hne & Hmax). split.
  - intros (w & Hw & Hs'). destruct (decide (w = p)) as [->|Hw']; [by left|]. right.
    exists w. split; [done|]. apply (suffix_shorter w q p); [done|done|].
    apply Hmax; [by eapply Hpaths|done|done].
  - intros [Hw|(w & Hw & Hs')]; [by exists p|]. exists w. split; [done|]. by trans q.
Qed.

Section Step.
Context (d : nat) (D : list nat) (ns : list Node) (s : nat) (p : list byte) (e : BuildEdge).
Context (Hd : 1 <= d) (HL : Linking d D ns) (Hs : paths !! s = Some p) (Hp : length p = d).
Context (He : e ∈ edges_of ns es s) (Hnew : be_target e ∉ D).

Let l := be_label e.
Let t := be_target e.
Lemma target_path : paths !! t = Some (p ++ [l]).
Proof. by apply (s_edge _ _ _ (k_shape _ _ _ HL) s). Qed.

Lemma fail_of_target : exists q,
  paths !! (match climb (length ns) ns es (failure (node_at ns s)) l with Some f => f | None => 0 end) = Some q /\
  fail_path (p ++ [l]) q.
Proof.
  destruct (k_linked _ _ _ HL s p Hs ltac:(left; lia)) as [Hlink _].
  destruct Hlink as (q & Hq & Hsuf & Hneq & Hmax); [by destruct p; simpl in Hp; [lia|]|].
  pose proof (suffix_proper _ _ Hsuf Hneq) as Hlt.
  pose proof (climb_spec ns _ q l (length ns) (k_shape _ _ _ HL) Hq) as Hc.
  assert (Hbelow : forall r, r ∈ paths -> r `suffix_of` p ++ [l] -> r <> p ++ [l] ->
    r = [] \/ exists r', r = r' ++ [l] /\ r' `suffix_of` q).
  { intros r Hin Hr Hne. apply suffix_snoc_cases in Hr as [->|(r' & -> & Hr)]; [by left|]. right.
    exists r'. split; [done|]. apply (suffix_shorter r' q p); [done|done|].
    apply Hmax; [|done|by intros ->]. apply list_elem_of_lookup in Hin as [k Hk].
    destruct (s_prefix _ _ _ (k_shape _ _ _ HL) k r' l Hk) as [k' Hk']. by eapply list_elem_of_lookup_2. }
  destruct (climb _ _ _ _ _) as [f|].
  - destruct Hc as (q' & H1 & H2 & H3).
    { pose proof (path_depth ns _ _ (k_shape _ _ _ HL) Hq). lia. }
    { intros k r Hk Hr. apply (k_linked _ _ _ HL k r Hk). left. lia. }
    exists (q' ++ [l]). split; [done|]. split; [|split].
    + apply suffix_app. by trans q.
    + intros [E _]%app_inj_tail. apply suffix_length in H1. subst q'. lia.
    + intros r Hin Hr Hne. destruct (Hbelow r Hin Hr Hne) as [->|(r' & -> & Hr')]; [simpl; lia|].
      rewrite !length_app. specialize (H3 r' Hr' Hin). simpl. lia.
  - exists []. split; [apply (s_root _ _ _ (k_shape _ _ _ HL))|]. split; [apply suffix_nil|].
    split; [by destruct p|]. intros r Hin Hr Hne.
    destruct (Hbelow r Hin Hr Hne) as [->|(r' & -> & Hr')]; [done|]. exfalso. revert Hin. apply Hc; [| |done].
    { pose proof (path_depth ns _ _ (k_shape _ _ _ HL) Hq). lia. }
    { intros k r0 Hk Hr0. apply (k_linked _ _ _ HL k r0 Hk). left. lia. }
Qed.

Lemma link_edge_ok :
  Linking d (t :: D) (link_edge es s ns e) /\ same_edges ns (link_edge es s ns e).
Proof.
  pose proof target_path as Ht. destruct fail_of_target as (q & Hq & Hfail).
  assert (Hin : t < length ns) by (rewrite (s_len _ _ _ (k_shape _ _ _ HL)); by eapply lookup_lt_Some).
  destruct (k_fresh _ _ _ HL t _ Ht) as [Hf0 Hbest]; [rewrite length_app; simpl; lia|done|].
  set (f := match climb (length ns) ns es (failure (node_at ns s)) l with Some f => f | None => 0 end) in *.
  assert (Hqd : length q <= d).
  { destruct Hfail as (H1 & H2 & _). pose proof (suffix_proper _ _ H1 H2) as H.
    rewrite length_app in H. simpl in H. lia. }
  assert (Hft : f <> t).
  { intros E. rewrite E, Ht in Hq. injection Hq as <-. rewrite length_app in Hqd. simpl in Hqd. lia. }
  (* what the two assignments amount to *)
  assert (Hres : exists n, link_edge es s ns e = <[t := n]> ns /\ failure n = f /\
    edgeStart n = edgeStart (node_at ns t) /\
    bestKeyword n = min_index (bestKeyword (node_at ns t)) (bestKeyword (node_at ns f))).
  { unfold link_edge. fold l t. fold l in f. subst f. revert Hft.
    destruct (climb _ _ _ _ _) as [f|] eqn:Ec; intros Hft.
    - eexists. rewrite list_insert_insert_eq. split; [done|].
      rewrite !node_at_insert by done. rewrite decide_True by done. simpl.
      rewrite decide_False by done. done.
    - eexists. split; [done|]. simpl. by rewrite Hf0. }
  destruct Hres as (n & -> & Hnf & Hne & Hnb).
  assert (Hsame : same_edges ns (<[t := n]> ns)) by (by apply same_insert).
  split; [|done]. split; [by eapply shape_same, (k_shape _ _ _ HL)| |].
  - intros j r Hj Hjd. unfold linked. rewrite node_at_insert by done. destruct (decide (t = j)) as [<-|Hne'].
    + rewrite Ht in Hj. injection Hj as <-. rewrite Hnf, Hnb. split; [by exists q|].
      eapply least_ext; [intros i; symmetry; by apply ends_split|]. apply least_min; [done|].
      by apply (k_linked _ _ _ HL f q Hq); left.
    + apply (k_linked _ _ _ HL j r Hj). destruct Hjd as [?|[->|?]%elem_of_cons]; auto. done.
  - intros j r Hj Hjd Hjn. apply not_elem_of_cons in Hjn as [Hjt Hjn].
    unfold fresh. rewrite node_at_insert by done. rewrite decide_False by done. by apply (k_fresh _ _ _ HL).
Qed.
End Step.

(** All edges of one node, then of a whole level. *)
Lemma link_edges_ok d D ns s p es' :
  1 <= d -> Linking d D ns -> paths !! s = Some p -> length p = d ->
  es' ⊆ edges_of ns es s -> NoDup (map be_target es') -> (forall e, e ∈ es' -> be_target e ∉ D) ->
  let ns' := fold_left (link_edge es s) es' ns in
  Linking d (map be_target es' ++ D) ns' /\ same_edges ns ns'.
Proof.
  intros Hd HL Hs Hp. revert D ns HL. induction es' as [|e es' IH]; intros D ns HL Hsub Hnd Hnew; simpl in *.
  - split; [done|apply same_refl].
  - apply NoDup_cons in Hnd as [Hni Hnd].
    destruct (link_edge_ok d D ns s p e Hd HL Hs Hp) as [HL1 Hsame]; [apply Hsub; by left|apply Hnew; by left|].
    destruct (IH _ _ HL1) as [HL2 Hsame2]; [| done | |split; [|by eapply same_trans]].
    + intros x Hx. rewrite (same_edges_of _ _ _ _ Hsame). apply Hsub. by right.
    + intros x Hx [E|Hx']%elem_of_cons; [|by eapply Hnew; [right|]].
      destruct Hni. rewrite <- E. apply list_elem_of_fmap. by exists x.
    + eapply linking_ext; [|done]. intros x. rewrite !elem_of_app, !elem_of_cons, elem_of_app. tauto.
Qed.

Definition children (ns : list Node) (L : list nat) : list nat :=
  flat_map (fun s => map be_target (edges_of ns es s)) L.
Lemma children_same ns ns' L : same_edges ns ns' -> children ns' L = children ns L.
Proof.
  intros Hs. induction L as [|s L IH]; simpl; [done|]. by rewrite IH, (same_edges_of _ _ _ _ Hs).
Qed.
Lemma elem_of_children ns L x :
  x ∈ children ns L <-> exists s e, s ∈ L /\ e ∈ edges_of ns es s /\ be_target e = x.
Proof.
  unfold children. rewrite list_elem_of_In, in_flat_map. split.
  - intros (s & Hs & Hx%list_elem_of_In). apply list_elem_of_fmap in Hx as (e & -> & He).
    exists s, e. split; [by apply list_elem_of_In|done].
  - intros (s & e & Hs & He & <-). exists s. split; [by apply list_elem_of_In|].
    apply list_elem_of_In, list_elem_of_fmap. by exists e.
Qed.
Lemma parent_unique ns s s' e e' :
  Shape paths ns es -> s < length paths -> s' < length paths ->
  e ∈ edges_of ns es s -> e' ∈ edges_of ns es s' -> be_target e = be_target e' -> s = s'.
Proof.
  intros Hsh Hs Hs' He He' E.
  destruct (lookup_lt_is_Some_2 _ _ Hs) as [p Hp]. destruct (lookup_lt_is_Some_2 _ _ Hs') as [p' Hp'].
  pose proof (s_edge _ _ _ Hsh s p e Hp He) as H1. pose proof (s_edge _ _ _ Hsh s' p' e' Hp' He') as H2.
  rewrite E, H2 in H1. injection H1 as E1. apply app_inj_tail in E1 as [-> _].
  by eapply path_inj; [apply (s_nodup _ _ _ Hsh)| |].
Qed.

Lemma link_level_ok d L D ns fuel prefix suffix :
  1 <= d -> Linking d D ns -> NoDup L ->
  (forall s, s ∈ L -> exists p, paths !! s = Some p /\ length p = d) ->
  (forall x, x ∈ children ns L -> x ∉ D) ->
  exists ns', Linking d (children ns L ++ D) ns' /\ same_edges ns ns' /\
    link_queue (length L + fuel) es ns (prefix ++ L ++ suffix) (length prefix) =
    link_queue fuel es ns' (prefix ++ L ++ suffix ++ children ns L) (length prefix + length L).
Proof.
  intros Hd. revert D ns prefix suffix. induction L as [|s L IH]; intros D ns prefix suffix HL Hnd Hdep Hnew; simpl.
  - exists ns. split; [done|]. split; [apply same_refl|]. by rewrite app_nil_r, Nat.add_0_r.
  - apply NoDup_cons in Hnd as [Hni Hnd].
    destruct (Hdep s) as (p & Hp & Hpd); [by left|].
    rewrite list_lookup_middle by done.
    destruct (link_edges_ok d D ns s p (edges_of ns es s) Hd HL Hp Hpd) as [HL1 Hsame]; [done| | |].
    { apply (s_targets _ _ _ (k_shape _ _ _ HL)). }
    { intros e He. apply Hnew, elem_of_children. exists s, e. split; [by left|done]. }
    set (ns1 := fold_left _ _ ns) in *.
    destruct (IH _ ns1 (prefix ++ [s]) (suffix ++ map be_target (edges_of ns es s)) HL1 Hnd) as (ns2 & HL2 & Hsame2 & Heq).
    + intros s' Hs'. apply Hdep. by right.
    + intros x Hx. rewrite (children_same _ _ _ Hsame) in Hx. apply elem_of_children in Hx as (s' & e' & Hs' & He' & <-).
      intros [Hin|Hin]%elem_of_app.
      * apply list_elem_of_fmap in Hin as (e & E & He). destruct Hni.
        destruct (Hdep s') as (p' & Hp' & _); [by right|].
        rewrite (parent_unique ns s s' e e' (k_shape _ _ _ HL)); [done| | |done|done|done];
          by eapply lookup_lt_Some.
      * revert Hin. apply Hnew, elem_of_children. exists s', e'. split; [by right|done].
    + exists ns2. rewrite (children_same _ _ _ Hsame) in HL2, Heq. split; [|split; [by eapply same_trans|]].
      * eapply linking_ext; [|exact HL2]. intros x. rewrite !elem_of_app. tauto.
      * rewrite length_app in Heq. simpl in Heq.
        replace (S (length prefix)) with (length prefix + 1) by lia.
        replace (length prefix + S (length L)) with (length prefix + 1 + length L) by lia.
        rewrite <- !app_assoc in Heq. simpl in Heq. rewrite <- !app_assoc. simpl. rewrite <- !app_assoc. exact Heq.
Qed.

(** The queue holds every node but the root once, the shallower ones first. *)
Record Queue (q : list nat) : Prop := {
  q_nodup : NoDup q;
  q_all : forall t, t ∈ q <-> exists p, paths !! t = Some p /\ p <> [];
  q_order : forall i t p f r, q !! i = Some t -> paths !! t = Some p -> paths !! f = Some r ->
    r <> [] -> length r < length p -> exists j, j < i /\ q !! j = Some f;
}.

Definition deeper (d : nat) (t : nat) : Prop := exists p, paths !! t = Some p /\ length p = d.

Lemma level_children ns d L :
  Shape paths ns es -> (forall t, t ∈ L <-> deeper d t) -> NoDup L ->
  NoDup (children ns L) /\ forall t, t ∈ children ns L <-> deeper (S d) t.
Proof.
  intros Hsh HL Hnd. split.
  - clear HL. assert (Hin : forall s, s ∈ L -> s ∈ L) by done.
    assert (Hgen : forall L', NoDup L' -> NoDup (children ns L')).
    { induction L' as [|s L' IH]; intros Hn; [constructor|]. apply NoDup_cons in Hn as [Hni Hn]. simpl.
      apply NoDup_app. split; [apply (s_targets _ _ _ Hsh)|]. split; [|by apply IH].
      intros x (e & -> & He)%list_elem_of_fmap (s' & e' & Hs' & He' & E)%elem_of_children.
      destruct Hni. assert (Hlt : forall s e, e ∈ edges_of ns es s -> s < length paths).
      { intros k f Hf. destruct (decide (k < length paths)); [done|]. exfalso. revert Hf. unfold edges_of, node_at.
        rewrite lookup_ge_None_2 by (rewrite (s_len _ _ _ Hsh); lia).
        destruct (length es); simpl; by intros ?%elem_of_nil. }
      by rewrite <- (parent_unique ns s' s e' e Hsh (Hlt _ _ He') (Hlt _ _ He) He' He E). }
    by apply Hgen.
  - intros t. rewrite elem_of_children. split.
    + intros (s & e & (p & Hp & Hd)%HL & He & <-). exists (p ++ [be_label e]).
      split; [by eapply s_edge|]. rewrite length_app. simpl. lia.
    + intros (p & Hp & Hd). destruct p as [|l p _] using rev_ind; [done|].
      destruct (s_prefix _ _ _ Hsh t p l Hp) as [s Hs]. destruct (s_child _ _ _ Hsh s p t l Hs Hp) as (e & He & <- & _).
      exists s, e. split; [|done]. apply HL. exists p. split; [done|].
      rewrite length_app in Hd. simpl in Hd. lia.
Qed.

Record Level (d : nat) (prefix L : list nat) : Prop := {
  l_nodup : NoDup (prefix ++ L);
  l_prefix : forall t, t ∈ prefix <-> exists p, paths !! t = Some p /\ p <> [] /\ length p < d;
  l_level : forall t, t ∈ L <-> deeper d t;
  l_order : forall i t p f r, prefix !! i = Some t -> paths !! t = Some p -> paths !! f = Some r ->
    r <> [] -> length r < length p -> exists j, j < i /\ prefix !! j = Some f;
}.

Lemma level_next ns d prefix L :
  Shape paths ns es -> 1 <= d -> Level d prefix L -> Level (S d) (prefix ++ L) (children ns L).
Proof.
  intros Hsh Hd [H1 H2 H3 H4].
  destruct (level_children ns d L Hsh H3) as [Hn Hc]; [by apply NoDup_app in H1 as (_ & _ & ?)|].
  assert (Hpre : forall t, t ∈ prefix ++ L <-> exists p, paths !! t = Some p /\ p <> [] /\ length p < S d).
  { intros t. rewrite elem_of_app, H2, H3. split.
    - intros [(p & ? & ? & ?)|(p & ? & ?)]; exists p; (split; [done|]).
      + split; [done|lia].
      + split; [intros ->; simpl in *; lia|lia].
    - intros (p & Hp & Hne & Hlt). destruct (decide (length p = d)); [right; by exists p|left].
      exists p. split; [done|]. split; [done|lia]. }
  split; [|done|done|].
  - apply NoDup_app. split; [done|]. split; [|done].
    intros t (p & Hp & _ & Hlt)%Hpre (p' & Hp' & Hd')%Hc. rewrite Hp in Hp'. injection Hp' as <-. lia.
  - intros i t p f r Hi Ht Hf Hr Hlt. apply lookup_app_Some in Hi as [Hi|[Hle Hi]].
    + destruct (H4 i t p f r Hi Ht Hf Hr Hlt) as (j & Hj & Hfj). exists j. split; [done|].
      by apply lookup_app_l_Some.
    + apply list_elem_of_lookup_2, H3 in Hi as (p' & Hp' & Hd'). rewrite Ht in Hp'. injection Hp' as <-.
      assert (Hin : f ∈ prefix) by (apply H2; exists r; split; [done|split; [done|lia]]).
      apply list_elem_of_lookup in Hin as [j Hj]. exists j. split; [|by apply lookup_app_l_Some].
      apply lookup_lt_Some in Hj. lia.
Qed.

Lemma empty_level ns d t p : Shape paths ns es -> (forall t, ~ deeper d t) -> paths !! t = Some p -> length p < d.
Proof.
  intros Hsh Hno. revert t. induction p as [|l p IH] using rev_ind; intros t Ht.
  - destruct (decide (0 < d)); [done|]. destruct (Hno t). exists []. split; [done|simpl; lia].
  - destruct (s_prefix _ _ _ Hsh t p l Ht) as [s Hs]. specialize (IH s Hs). rewrite length_app. simpl.
    destruct (decide (length p + 1 = d)) as [<-|]; [|lia]. destruct (Hno t).
    eexists. split; [done|]. by rewrite length_app.
Qed.

Lemma link_queue_spec fuel d ns prefix L :
  1 <= d -> Linking d [] ns -> Level d prefix L -> length paths <= fuel + length prefix ->
  let '(ns', q) := link_queue fuel es ns (prefix ++ L) (length prefix) in
  (forall t p, paths !! t = Some p -> linked ns' t p) /\ same_edges ns ns' /\ Queue q.
Proof.
  revert d ns prefix L. induction (lt_wf fuel) as [fuel _ IH]. intros d ns prefix L Hd HK HL Hfuel.
  pose proof (k_shape _ _ _ HK) as Hsh. destruct L as [|x L].
  - rewrite app_nil_r. assert (Hend : link_queue fuel es ns prefix (length prefix) = (ns, prefix)).
    { destruct fuel; simpl; [done|]. by rewrite lookup_ge_None_2. }
    rewrite Hend. destruct HL as [H1 H2 H3 H4]. rewrite app_nil_r in H1.
    assert (Hshort : forall t p, paths !! t = Some p -> length p < d).
    { intros t p. apply (empty_level ns); [done|]. by intros k ?%H3%elem_of_nil. }
    split; [|split; [apply same_refl|split; [done| |done]]].
    + intros t p Ht. apply (k_linked _ _ _ HK t p Ht). left. apply Hshort in Ht. lia.
    + intros t. rewrite H2. split; intros (p & Hp & Hne); exists p; [naive_solver|].
      split; [done|]. split; [done|]. by eapply Hshort.
  - set (L' := x :: L) in *.
    assert (Hlen : length (prefix ++ L') < length paths).
    { (* the root is not in the queue *)
      assert (Hroot : 0 ∉ prefix ++ L').
      { rewrite elem_of_app, (l_prefix _ _ _ HL), (l_level _ _ _ HL).
        pose proof (s_root _ _ _ Hsh) as Hr. intros [(p & Hp & Hne & _)|(p & Hp & Hd')]; rewrite Hr in Hp;
          injection Hp as <-; [done|simpl in Hd'; lia]. }
      assert (Hle : length (0 :: prefix ++ L') <= length (seq 0 (length paths))).
      { apply submseteq_length, NoDup_submseteq.
        - apply NoDup_cons. split; [done|apply (l_nodup _ _ _ HL)].
        - intros t. rewrite elem_of_cons, elem_of_app, (l_prefix _ _ _ HL), (l_level _ _ _ HL), elem_of_seq.
          pose proof (lookup_lt_Some _ _ _ (s_root _ _ _ Hsh)).
          intros [->|[(p & Hp & _)|(p & Hp & _)]]; [lia| |]; apply lookup_lt_Some in Hp; lia. }
      rewrite length_seq in Hle. simpl in Hle. lia. }
    rewrite length_app in Hlen.
    destruct (link_level_ok d L' [] ns (fuel - length L') prefix [] Hd HK) as (ns1 & HK1 & Hsame & Heq).
    + by pose proof (l_nodup _ _ _ HL) as (_ & _ & ?)%NoDup_app.
    + intros s Hs. by apply (l_level _ _ _ HL).
    + by intros y _ ?%elem_of_nil.
    + rewrite app_nil_r, app_nil_l in Heq.
      replace (length L' + (fuel - length L')) with fuel in Heq by lia. rewrite Heq.
      replace (prefix ++ L' ++ children ns L') with ((prefix ++ L') ++ children ns L') by (by rewrite <- app_assoc).
      replace (length prefix + length L') with (length (prefix ++ L')) by apply length_app.
      pose proof (level_next ns d prefix L' Hsh Hd HL) as HL1. rewrite app_nil_r in HK1.
      assert (HK2 : Linking (S d) [] ns1).
      { destruct HK1 as [K1 K2 K3]. split; [done| |].
        - intros t p Ht [Hle|?%elem_of_nil]; [|done]. apply (K2 t p Ht).
          destruct (decide (length p <= d)); [by left|right]. apply (l_level _ _ _ HL1).
          exists p. split; [done|lia].
        - intros t p Ht Hlt _. apply (K3 t p Ht); [lia|]. intros (p' & Hp' & Hd')%(l_level _ _ _ HL1).
          rewrite Ht in Hp'. injection Hp' as <-. lia. }
      specialize (IH (fuel - length L') ltac:(simpl in *; lia) (S d) ns1 (prefix ++ L') (children ns L')
        ltac:(lia) HK2 HL1 ltac:(rewrite length_app; lia)).
      destruct (link_queue _ _ ns1 _ _) as [ns2 q]. destruct IH as (I1 & I2 & I3).
      split; [done|]. split; [by eapply same_trans|done].
Qed.
End Links.
