(* ===== verification/KeywordMatcherProofs.v ===== *)
(** * The automaton finds what the plain search finds

    The laid-out matcher follows the trie ([next_spec]); the scans keep the longest
    suffix of the text read that is a path ([step_spec]); so they find what a search
    keyword by keyword finds. *)

From S2P Require Import Prelude Json KeywordMatcher KeywordTrieProofs.
From Stdlib Require Import Sorted.
From stdpp Require Import sorting.
Local Open Scope string_scope.
Local Open Scope list_scope.
Local Open Scope go_scope.
Local Open Scope nat_scope.

(** ** Outputs *)

Section Outputs.
Context (is_word : nat -> list byte -> Prop) (paths : list (list byte)).
Context (Hpaths : forall i q, is_word i q -> q ∈ paths) (Hnonempty : forall i q, is_word i q -> q <> []).
Context (ns : list Node) (terminal : list (list nat)) (q : list nat).
Context (Hlen : length ns = length paths).
Context (Hlinked : forall t p, paths !! t = Some p -> linked is_word paths ns t p).
Context (Hq : Queue paths q).
Context (Hterm : forall t p, paths !! t = Some p -> forall i, i ∈ default [] (terminal !! t) <-> is_word i p).

Lemma ends_nil i : ~ ends is_word [] i.
Proof. intros (w & Hw & ->%suffix_nil_inv). by eapply Hnonempty. Qed.

Lemma collect_prefix k :
  k <= length q ->
  let outs := fold_left (collect_output ns terminal) (take k q) (replicate (length ns) []) in
  length outs = length ns /\
  (forall t p, t ∈ take k q -> paths !! t = Some p ->
     forall i, i ∈ default [] (outs !! t) <-> ends is_word p i) /\
  (forall t, t ∉ take k q -> default [] (outs !! t) = []).
Proof.
  induction k as [|k IH]; intros Hk; simpl.
  - split; [by rewrite length_replicate|]. split; [by intros t p ?%elem_of_nil|].
    intros t _. destruct (replicate _ _ !! t) as [x|] eqn:E; [|done].
    by apply lookup_replicate in E as [-> _].
  - destruct (lookup_lt_is_Some_2 q k) as [t Ht]; [lia|]. rewrite (take_S_r _ _ _ Ht), fold_left_app. simpl.
    destruct (IH ltac:(lia)) as (I1 & I2 & I3). set (outs := fold_left _ (take k q) _) in *.
    assert (Hnew : t ∉ take k q).
    { intros (j & Hj)%list_elem_of_lookup. apply lookup_take_Some in Hj as [Hj Hlt].
      pose proof (NoDup_lookup _ _ _ _ (q_nodup _ _ Hq) Hj Ht). lia. }
    destruct (proj1 (q_all _ _ Hq t) (list_elem_of_lookup_2 _ _ _ Ht)) as (p & Hp & Hne).
    assert (Hin : t < length outs) by (rewrite I1, Hlen; by eapply lookup_lt_Some).
    destruct (Hlinked t p Hp) as [Hf _]. destruct (Hf Hne) as (r & Hr & Hfail).
    assert (Hout : forall i, i ∈ default [] (outs !! failure (node_at ns t)) <-> ends is_word r i).
    { intros i. destruct (decide (r = [])) as [->|Hrne].
      - rewrite I3; [split; [by intros ?%elem_of_nil|by intros ?%ends_nil]|].
        intros Hin'. assert (Hin2 : failure (node_at ns t) ∈ q)
          by (apply list_elem_of_lookup in Hin' as [j Hj]; apply lookup_take_Some in Hj as [Hj _]; by eapply list_elem_of_lookup_2).
        apply (q_all _ _ Hq) in Hin2 as (p' & Hp' & Hne'). congruence.
      - apply I2; [|done]. destruct Hfail as (H1 & H2 & _).
        destruct (q_order _ _ Hq k t p _ r Ht Hp Hr Hrne (suffix_proper _ _ H1 H2)) as (j & Hj & Hfj).
        apply list_elem_of_lookup. exists j. by apply lookup_take_Some. }
    unfold collect_output. split; [by rewrite length_insert|]. split.
    + intros t' p' [Ht'|[= ->]%list_elem_of_singleton]%elem_of_app Hp' i.
      * rewrite list_lookup_insert_ne by (by intros ->). by apply I2.
      * rewrite list_lookup_insert_eq by done. simpl. rewrite I3, app_nil_l by done.
        rewrite Hp in Hp'. injection Hp' as <-.
        rewrite elem_of_app, (Hterm t p Hp), Hout. symmetry. by apply (ends_split is_word paths Hpaths).
    + intros t' Hn. rewrite not_elem_of_app in Hn. destruct Hn as [Hn Hn'].
      rewrite list_lookup_insert_ne; [by apply I3|]. intros ->. by apply Hn', list_elem_of_singleton.
Qed.

Lemma outputs_spec t p :
  paths !! t = Some p ->
  forall i, i ∈ default [] (fold_left (collect_output ns terminal) q (replicate (length ns) []) !! t) <->
            ends is_word p i.
Proof.
  intros Hp i. destruct (collect_prefix (length q) ltac:(lia)) as (_ & H2 & H3).
  rewrite take_ge in H2, H3 by lia. destruct (decide (p = [])) as [->|Hne].
  - rewrite H3; [split; [by intros ?%elem_of_nil|by intros ?%ends_nil]|].
    intros (p & Hp' & Hne)%(q_all _ _ Hq). congruence.
  - apply H2; [|done]. apply (q_all _ _ Hq). by exists p.
Qed.
End Outputs.

(** ** Edge slices *)

Definition label_le (a b : Edge) : Prop := code (e_label a) <= code (e_label b).

Lemma insert_edge_perm c r : insert_edge c r ≡ₚ c :: r.
Proof.
  induction r as [|p r IH]; simpl; [done|]. destruct (_ <? _); [|done]. rewrite IH. constructor.
Qed.
Lemma insert_edge_sorted c r :
  StronglySorted (flip label_le) r -> StronglySorted (flip label_le) (insert_edge c r).
Proof.
  induction 1 as [|p r Hr IH Hp]; simpl; [by repeat constructor|].
  destruct (_ <? _) eqn:E.
  - apply Nat.ltb_lt in E. constructor; [done|]. rewrite insert_edge_perm. constructor; [|done].
    unfold flip, label_le. lia.
  - apply Nat.ltb_ge in E. constructor; [by constructor|]. constructor; [done|].
    eapply Forall_impl; [exact Hp|]. unfold flip, label_le. intros x Hx. lia.
Qed.

Definition edge_of (e : BuildEdge) : Edge := MkEdge (be_target e) (be_label e).
Lemma sorted_rev R (l : list Edge) : StronglySorted (flip R) l -> StronglySorted R (rev l).
Proof.
  induction 1 as [|x l Hl IH Hx]; simpl; [constructor|]. apply StronglySorted_app_2.
  - intros y z Hy%list_elem_of_In%in_rev ->%list_elem_of_singleton.
    rewrite Forall_forall in Hx. apply Hx. by apply list_elem_of_In.
  - done.
  - repeat constructor.
Qed.
Lemma outgoing_spec es :
  outgoing es ≡ₚ map edge_of es /\ StronglySorted label_le (outgoing es).
Proof.
  assert (Hgen : forall r, StronglySorted (flip label_le) r ->
    let r' := fold_left (fun r e => insert_edge (MkEdge (be_target e) (be_label e)) r) es r in
    r' ≡ₚ rev (map edge_of es) ++ r /\ StronglySorted (flip label_le) r').
  { induction es as [|e es IH]; intros r Hr; simpl; [done|].
    destruct (IH _ (insert_edge_sorted (edge_of e) r Hr)) as [H1 H2]. split; [|done].
    unfold edge_of at 1 in H1. rewrite H1, insert_edge_perm. rewrite <- app_assoc. done. }
  destruct (Hgen [] ltac:(constructor)) as [H1 H2]. unfold outgoing. split.
  - rewrite <- Permutation_rev, H1, app_nil_r. by rewrite <- Permutation_rev.
  - by apply sorted_rev.
Qed.

Lemma sorted_lookup R (l : list Edge) i j x y :
  StronglySorted R l -> i < j -> l !! i = Some x -> l !! j = Some y -> R x y.
Proof.
  intros Hs. revert i j. induction Hs as [|z l Hs IH Hz]; intros [|i] [|j] Hij Hi Hj; simpl in *; try done; try lia.
  - injection Hi as <-. rewrite Forall_forall in Hz. apply Hz. by eapply list_elem_of_lookup_2.
  - apply (IH i j); [lia|done|done].
Qed.

(** The slice of a node: its outgoing edges, sorted by label. *)
Definition slice_of (ns : list Node) (es : list Edge) (i : nat) : list Edge :=
  take (edgeCount (node_at ns i)) (drop (edgeStart (node_at ns i)) es).

Lemma lay_out_spec bes ns k :
  k <= length ns ->
  let '(laid, es) := fold_left (lay_out bes) (seq 0 k) (ns, []) in
  length laid = length ns /\
  (forall i, failure (node_at laid i) = failure (node_at ns i) /\
             bestKeyword (node_at laid i) = bestKeyword (node_at ns i)) /\
  (forall i, k <= i -> node_at laid i = node_at ns i) /\
  (forall i, i < k -> slice_of laid es i = outgoing (edges_of ns bes i) /\
     edgeStart (node_at laid i) + edgeCount (node_at laid i) <= length es /\
     edgeCount (node_at laid i) = length (outgoing (edges_of ns bes i))).
Proof.
  induction k as [|k IH]; intros Hk.
  - simpl. split; [done|]. split; [done|]. split; [done|]. lia.
  - rewrite seq_S, fold_left_app. specialize (IH ltac:(lia)).
    destruct (fold_left _ (seq 0 k) _) as [laid es]. destruct IH as (I1 & I2 & I3 & I4). simpl.
    assert (He : edges_of laid bes k = edges_of ns bes k)
      by (unfold edges_of, BuildFirstEdge; by rewrite I3).
    rewrite He. set (out := outgoing _).
    assert (Hat : forall i, node_at (<[k := (node_at laid k) <| edgeStart := length es |> <| edgeCount := length out |>]> laid) i =
      if decide (k = i) then (node_at laid k) <| edgeStart := length es |> <| edgeCount := length out |> else node_at laid i)
      by (intros i; apply node_at_insert; lia).
    split; [by rewrite length_insert|]. split; [|split].
    + intros i. rewrite Hat. destruct (decide _) as [<-|]; [apply (I2 k)|apply I2].
    + intros i Hi. rewrite Hat, decide_False by lia. apply I3. lia.
    + intros i Hi. unfold slice_of. rewrite !Hat. destruct (decide (k = i)) as [<-|Hne]; simpl.
      * split; [by rewrite drop_app_length, take_ge|].
        rewrite length_app. split; [lia|done].
      * destruct (I4 i ltac:(lia)) as (J1 & J2 & J3). rewrite length_app. split; [|split; [lia|done]].
        rewrite <- J1. unfold slice_of. rewrite drop_app_le by lia. apply take_app_le.
        rewrite length_drop. lia.
Qed.

(** *** Bisection *)

Lemma bisect_spec fuel es label left right :
  right - left <= fuel -> left <= right -> right <= length es ->
  (forall i j x y, left <= i < right -> left <= j < right -> i < j -> es !! i = Some x -> es !! j = Some y -> label_le x y) ->
  let k := bisect fuel es label left right in
  left <= k <= right /\
  (forall i x, left <= i < k -> es !! i = Some x -> code (e_label x) < code label) /\
  (forall i x, k <= i < right -> es !! i = Some x -> code label <= code (e_label x)).
Proof.
  revert left right. induction fuel as [|fuel IH]; intros left right Hf Hlr Hr Hs; cbn [bisect]; cbv zeta.
  { split; [lia|]. split; intros; lia. }
  destruct (left <? right) eqn:E; [apply Nat.ltb_lt in E|apply Nat.ltb_ge in E; split; [lia|]; split; intros; lia].
  set (mid := left + (right - left) / 2).
  assert (Hmid : left <= mid < right).
  { unfold mid. pose proof (Nat.div_lt (right - left) 2). lia. }
  destruct (lookup_lt_is_Some_2 es mid) as [e He]; [lia|]. rewrite He.
  destruct (code (e_label e) <? code label) eqn:El; [apply Nat.ltb_lt in El|apply Nat.ltb_ge in El].
  - destruct (IH (mid + 1) right) as (J1 & J2 & J3); [lia|lia|done|intros; eapply (Hs i j); eauto; lia|].
    split; [lia|]. split; [|done]. intros i x Hi Hx. destruct (decide (mid < i)); [apply (J2 i); [lia|done]|].
    destruct (decide (i = mid)) as [->|]; [congruence|].
    pose proof (Hs i mid x e ltac:(lia) ltac:(lia) ltac:(lia) Hx He) as H. unfold label_le in H. lia.
  - destruct (IH left mid) as (J1 & J2 & J3); [lia|lia|lia|intros; eapply (Hs i j); eauto; lia|].
    split; [lia|]. split; [done|]. intros i x Hi Hx. destruct (decide (i < mid)); [apply (J3 i); [lia|done]|].
    destruct (decide (i = mid)) as [->|]; [congruence|].
    pose proof (Hs mid i e x ltac:(lia) ltac:(lia) ltac:(lia) He Hx) as H. unfold label_le in H. lia.
Qed.

Lemma code_inj a b : code a = code b -> a = b.
Proof.
  unfold code. intros H. rewrite <- (Ascii.ascii_nat_embedding a), <- (Ascii.ascii_nat_embedding b). congruence.
Qed.

(** The edge with a label is found where the bisection ends, if there is one. *)
Lemma bisect_finds es label start count :
  start + count <= length es -> StronglySorted label_le (take count (drop start es)) ->
  let stop := start + count in
  let k := bisect count es label start stop in
  match (if k <? stop then es !! k else None) with
  | Some e => if Ascii.eqb (e_label e) label then e ∈ take count (drop start es)
              else forall e', e' ∈ take count (drop start es) -> e_label e' <> label
  | None => forall e', e' ∈ take count (drop start es) -> e_label e' <> label
  end.
Proof.
  intros Hlen Hs stop k.
  assert (Hslice : forall i x, start <= i < stop -> es !! i = Some x <-> take count (drop start es) !! (i - start) = Some x).
  { intros i x Hi. rewrite lookup_take_lt by lia. rewrite lookup_drop. by replace (start + (i - start)) with i by lia. }
  destruct (bisect_spec count es label start stop) as (H1 & H2 & H3); [lia|lia|done| |].
  { intros i j x y Hi Hj Hij Hx Hy. apply (Hslice i x Hi) in Hx. apply (Hslice j y Hj) in Hy.
    by eapply (sorted_lookup _ _ (i - start) (j - start)); [|lia|done|done]. }
  fold k in H1, H2, H3.
  assert (Hin : forall e', e' ∈ take count (drop start es) -> exists i, start <= i < stop /\ es !! i = Some e').
  { intros e' (i & Hi)%list_elem_of_lookup. pose proof (lookup_lt_Some _ _ _ Hi) as Hlt. rewrite length_take in Hlt.
    exists (start + i). split; [lia|]. apply Hslice; [lia|]. by replace (start + i - start) with i by lia. }
  destruct (k <? stop) eqn:Ek; [apply Nat.ltb_lt in Ek|apply Nat.ltb_ge in Ek].
  - destruct (lookup_lt_is_Some_2 es k) as [e He]; [lia|]. rewrite He.
    destruct (Ascii.eqb (e_label e) label) eqn:El.
    + apply (Hslice k e ltac:(lia)) in He. by eapply list_elem_of_lookup_2.
    + apply Ascii.eqb_neq in El. intros e' (i & Hi & He')%Hin El'.
      assert (Hki : k <= i). { destruct (decide (k <= i)); [done|]. pose proof (H2 i e' ltac:(lia) He'). subst label. lia. }
      pose proof (H3 k e ltac:(lia) He) as Hge.
      destruct (decide (i = k)) as [->|]; [congruence|].
      apply (Hslice k e ltac:(lia)) in He. apply (Hslice i e' ltac:(lia)) in He'.
      pose proof (sorted_lookup _ _ (k - start) (i - start) _ _ Hs ltac:(lia) He He') as Hle.
      unfold label_le in Hle. rewrite El' in Hle. destruct El. apply code_inj. lia.
  - intros e' (i & Hi & He')%Hin El'. pose proof (H2 i e' ltac:(lia) He') as Hlt. rewrite El' in Hlt. lia.
Qed.

(** *** The transition table of the root *)

Lemma roots_spec paths ns es (roots : list BuildEdge) :
  Shape paths ns es -> roots = edges_of ns es 0 -> forall l,
  fold_left (fun r e => <[code (be_label e) := be_target e]> r) roots (replicate 256 0) !! code l =
  Some (default 0 (BuildTransition ns es 0 l)).
Proof.
  intros Hsh ->.
  assert (Hgen : forall L r, L ⊆ edges_of ns es 0 -> length r = 256 ->
    let r' := fold_left (fun r e => <[code (be_label e) := be_target e]> r) L r in
    length r' = 256 /\ forall l, (forall e, e ∈ L -> be_label e = l -> r' !! code l = Some (be_target e)) /\
      ((forall e, e ∈ L -> be_label e <> l) -> r' !! code l = r !! code l)).
  { induction L as [|e L IH]; intros r Hsub Hr; simpl.
    - split; [done|]. intros l. split; [by intros e ?%elem_of_nil|done].
    - destruct (IH (<[code (be_label e) := be_target e]> r)) as [H1 H2];
        [intros x Hx; apply Hsub; by right|by rewrite length_insert|].
      split; [done|]. intros l. destruct (H2 l) as [H3 H4]. split.
      + intros e' [->|He']%elem_of_cons Hl; [|by apply H3]. rewrite <- Hl in *.
        destruct (decide (Exists (fun x => be_label x = be_label e) L)) as [Hex|Hnex].
        * apply Exists_exists in Hex as (x & Hx & Hxl). rewrite (H3 x Hx Hxl). f_equal.
          pose proof (s_edge _ _ _ Hsh 0 [] x (s_root _ _ _ Hsh) (Hsub x ltac:(by right))) as Px.
          pose proof (s_edge _ _ _ Hsh 0 [] e (s_root _ _ _ Hsh) (Hsub e ltac:(by left))) as Pe.
          rewrite Hxl in Px. by eapply path_inj; [apply (s_nodup _ _ _ Hsh)| |].
        * rewrite H4; [|intros x Hx Hxl; apply Hnex, Exists_exists; by exists x].
          apply list_lookup_insert_eq. rewrite Hr. apply Ascii.nat_ascii_bounded.
      + intros Hno. rewrite H4 by (intros x Hx; apply Hno; by right).
        apply list_lookup_insert_ne. intros E%code_inj. by apply (Hno e); [left|]. }
  intros l. destruct (Hgen (edges_of ns es 0) (replicate 256 0)) as [_ H]; [done|apply length_replicate|].
  destruct (H l) as [H1 H2]. unfold BuildTransition. destruct (List.find _ _) as [e|] eqn:E;
    [change (default 0 _) with (be_target e)|change (default 0 _) with 0].
  - apply find_some in E as [Hin Hl]. apply Ascii.eqb_eq in Hl. apply H1; [by apply list_elem_of_In|done].
  - rewrite H2; [apply lookup_replicate_2, Ascii.nat_ascii_bounded|].
    intros e He%list_elem_of_In Hl. pose proof (find_none _ _ E e He) as Hn. simpl in Hn.
    by rewrite Hl, Ascii.eqb_refl in Hn.
Qed.

(** ** The matcher follows the linked trie *)

Section Follow.
Context (is_word : nat -> list byte -> Prop) (paths : list (list byte)) (ns : list Node) (es : list BuildEdge).
Context (m : Matcher).

Record Follows : Prop := {
  f_shape : Shape paths ns es;
  f_words : forall i q, is_word i q -> q ∈ paths;
  f_nonempty : forall i q, is_word i q -> q <> [];
  f_linked : forall t p, paths !! t = Some p -> linked is_word paths ns t p;
  f_next : forall s l, s < length paths -> next m s l = default 0 (BuildTransition ns es s l);
  f_fail : forall s, failure (node_at (nodes m) s) = failure (node_at ns s);
  f_best : forall s, bestKeyword (node_at (nodes m) s) = bestKeyword (node_at ns s);
  f_len : length (nodes m) = length paths;
  f_outputs : forall t p, paths !! t = Some p -> forall i, i ∈ default [] (outputs m !! t) <-> ends is_word p i;
}.
Context (HF : Follows).

Lemma target_nonzero s l t : s < length paths -> BuildTransition ns es s l = Some t -> t <> 0.
Proof.
  intros Hs Ht ->. destruct (lookup_lt_is_Some_2 _ _ Hs) as [p Hp].
  apply (transition_spec _ _ _ s p l 0 (f_shape HF) Hp) in Ht.
  rewrite (s_root _ _ _ (f_shape HF)) in Ht. injection Ht as Ht. by destruct p.
Qed.

Lemma advance_climb fuel s l :
  s < length paths -> advance fuel m s l = default 0 (climb fuel ns es s l).
Proof.
  revert s. induction fuel as [|fuel IH]; intros s Hs; cbn [advance climb]; cbv zeta;
    rewrite (f_next HF) by done; destruct (BuildTransition ns es s l) as [t|] eqn:E; simpl default;
    try (rewrite (proj2 (Nat.eqb_neq t 0)); [done|by eapply target_nonzero]); simpl negb; cbv iota;
    destruct (s =? 0) eqn:E0; try done.
  rewrite (f_fail HF). apply IH. apply Nat.eqb_neq in E0.
  destruct (lookup_lt_is_Some_2 _ _ Hs) as [p Hp]. destruct (f_linked HF s p Hp) as [Hl _].
  destruct Hl as (r & Hr & _); [|by eapply lookup_lt_Some].
  intros ->. apply E0. eapply path_inj; [apply (s_nodup _ _ _ (f_shape HF))|done|apply (s_root _ _ _ (f_shape HF))].
Qed.

(** The state after a text is its longest suffix in the trie. *)
Definition longest (x q : list byte) : Prop :=
  q `suffix_of` x /\ forall r, r ∈ paths -> r `suffix_of` x -> length r <= length q.
Definition at_text (x : list byte) (s : nat) : Prop :=
  exists q, paths !! s = Some q /\ longest x q.

Lemma at_start : at_text [] 0.
Proof.
  exists []. split; [apply (s_root _ _ _ (f_shape HF))|]. split; [done|]. by intros r _ ->%suffix_nil_inv.
Qed.
Lemma step_spec x s l : at_text x s -> at_text (x ++ [l]) (step m s l).
Proof.
  intros (q & Hq & Hsuf & Hmax). pose proof (f_shape HF) as Hsh.
  unfold step. rewrite advance_climb by (by eapply lookup_lt_Some).
  assert (Hbelow : forall r, r ++ [l] ∈ paths -> r `suffix_of` x -> r `suffix_of` q).
  { intros r Hin Hr. apply (suffix_shorter r q x); [done|done|]. apply Hmax; [|done].
    apply list_elem_of_lookup in Hin as [k Hk]. destruct (s_prefix _ _ _ Hsh k r l Hk) as [k' Hk'].
    by eapply list_elem_of_lookup_2. }
  pose proof (climb_spec is_word paths es ns s q l (length (nodes m)) Hsh Hq) as Hc.
  rewrite (f_len HF), <- (s_len _ _ _ Hsh) in Hc |- *.
  specialize (Hc ltac:(pose proof (path_depth paths es ns s q Hsh Hq); lia) ltac:(intros; by apply (f_linked HF))).
  destruct (climb _ ns es s l) as [t|]; simpl.
  - destruct Hc as (q' & H1 & H2 & H3). exists (q' ++ [l]). split; [done|]. split.
    + apply suffix_app. by trans q.
    + intros r Hin [->|(r' & -> & Hr')]%suffix_snoc_cases; [simpl; lia|].
      specialize (H3 r' (Hbelow r' Hin Hr') Hin). rewrite !length_app. simpl. lia.
  - exists []. split; [apply (s_root _ _ _ Hsh)|]. split; [apply suffix_nil|].
    intros r Hin [->|(r' & -> & Hr')]%suffix_snoc_cases; [done|]. destruct (Hc r' (Hbelow r' Hin Hr') Hin).
Qed.

Lemma ends_longest x q i : longest x q -> ends is_word x i <-> ends is_word q i.
Proof.
  intros [Hsuf Hmax]. split; intros (w & Hw & Hs); exists w; (split; [done|]).
  - apply (suffix_shorter w q x); [done|done|]. apply Hmax; [by eapply (f_words HF)|done].
  - by trans q.
Qed.
Lemma best_at x s : at_text x s -> least (ends is_word x) (bestKeyword (node_at (nodes m) s)).
Proof.
  intros (q & Hq & Hl). rewrite (f_best HF). destruct (f_linked HF s q Hq) as [_ Hb].
  eapply least_ext; [|exact Hb]. intros i. by rewrite (ends_longest x q i Hl).
Qed.
Lemma outputs_at x s i : at_text x s -> i ∈ default [] (outputs m !! s) <-> ends is_word x i.
Proof. intros (q & Hq & Hl). rewrite (f_outputs HF s q Hq). by rewrite (ends_longest x q i Hl). Qed.

(** *** The scan *)

Definition occurs (x : list byte) (i : nat) : Prop := exists y, y `prefix_of` x /\ ends is_word y i.
Lemma occurs_snoc x l i : occurs (x ++ [l]) i <-> occurs x i \/ ends is_word (x ++ [l]) i.
Proof.
  split.
  - intros (y & Hy & He). destruct (decide (y = x ++ [l])) as [->|Hne]; [by right|]. left.
    exists y. split; [|done]. destruct Hy as [k Hk]. destruct k as [|a k _] using rev_ind.
    + rewrite app_nil_r in Hk. congruence.
    + rewrite app_assoc in Hk. apply app_inj_tail in Hk as [-> _]. by exists k.
  - intros [(y & Hy & He)|He].
    + exists y. split; [|done]. trans x; [done|]. by exists [l].
    + by exists (x ++ [l]).
Qed.

Lemma scan_spec text x s best :
  at_text x s -> least (occurs x) best -> least (occurs (x ++ text)) (scan m text s best).
Proof.
  revert x s best. induction text as [|l text IH]; intros x s best Hs Hb; cbn [scan]; cbv zeta.
  - by rewrite app_nil_r.
  - pose proof (step_spec x s l Hs) as Hs'. set (s' := step m s l) in *.
    assert (Hb' : least (occurs (x ++ [l])) (min_index best (bestKeyword (node_at (nodes m) s')))).
    { eapply least_ext; [intros i; symmetry; apply occurs_snoc|].
      apply least_min; [done|]. by apply best_at. }
    specialize (IH _ _ _ Hs' Hb'). rewrite <- app_assoc in IH. simpl in IH.
    destruct (min_index _ _) as [[|b]|]; try done.
    destruct Hb' as [(y & Hy & He) _]. split; [|lia].
    exists y. split; [|done]. trans (x ++ [l]); [done|]. exists text. by rewrite <- app_assoc.
Qed.
Lemma occurs_nil i : ~ occurs [] i.
Proof.
  intros (y & ->%prefix_nil_inv & (w & Hw & ->%suffix_nil_inv)). by eapply (f_nonempty HF).
Qed.
Lemma scan_start text : least (occurs text) (scan m text 0 None).
Proof. apply (scan_spec text [] 0 None at_start). intros i. apply occurs_nil. Qed.
End Follow.

(** ** Building *)

Section Build.
Context (ToLower normalize : string -> string).
Context (Hlower : forall s, ToLower s = "" -> s = "").

Lemma word_nonempty ks i q : word ToLower ks i q -> q <> [].
Proof.
  intros (k & _ & Hk & ->) E. apply Hk, Hlower. unfold bytes_of in E.
  by destruct (ToLower k).
Qed.

Lemma first_level ks paths b :
  trie_of (word ToLower ks) paths b -> (forall i q, word ToLower ks i q -> q ∈ paths) ->
  Linking (word ToLower ks) paths (b_edges b) 1 [] (b_nodes b) /\
  Level paths 1 [] (map be_target (edges_of (b_nodes b) (b_edges b) 0)).
Proof.
  intros (Hsh & Hb & Hh) Hin. split.
  - split; [done| |].
    + intros t p Ht [Hd|?%elem_of_nil]; [|done]. destruct (Hh t p Ht) as [Hbest _]. split.
      * intros Hne. exists []. rewrite (g_fresh _ Hb). split; [apply (s_root _ _ _ Hsh)|].
        split; [apply suffix_nil|]. split; [done|]. intros q' _ Hs Hq'.
        pose proof (suffix_proper _ _ Hs Hq'). simpl. lia.
      * eapply least_ext; [|exact Hbest]. intros i. split; [intros Hw; by exists p|].
        intros (w & Hw & Hs). destruct (decide (w = p)) as [->|Hne]; [done|].
        pose proof (suffix_proper _ _ Hs Hne). destruct (word_nonempty ks i w Hw). by destruct w; simpl in *; [|lia].
    + intros t p Ht _ _. split; [apply (g_fresh _ Hb)|]. by destruct (Hh t p Ht).
  - pose proof (s_root _ _ _ Hsh) as Hr. split.
    + simpl. apply (s_targets _ _ _ Hsh).
    + intros t. split; [by intros ?%elem_of_nil|]. intros (p & _ & Hne & Hd). destruct p; [done|simpl in Hd; lia].
    + intros t. rewrite list_elem_of_fmap. split.
      * intros (e & -> & He). exists [be_label e]. split; [|done]. by apply (s_edge _ _ _ Hsh 0 []).
      * intros (p & Hp & Hd). destruct p as [|l [|]]; simpl in Hd; try lia.
        destruct (s_child _ _ _ Hsh 0 [] t l Hr Hp) as (e & He & <- & _). by exists e.
    + by intros i t p f r Hi.
Qed.

Lemma newMatcher_None ks : newMatcher ToLower normalize ks = None -> forall i q, ~ word ToLower ks i q.
Proof.
  intros H i q Hw. destruct (build_trie_spec ToLower ks) as (paths & (Hsh & _ & _) & Hin).
  destruct ks as [|k ks]; [by destruct Hw as (k & Hk & _)|]. unfold newMatcher in H.
  destruct (length _ =? 1) eqn:E.
  - apply Nat.eqb_eq in E. rewrite (s_len _ _ _ Hsh) in E. pose proof (Hin i q Hw) as Hq.
    destruct paths as [|p [|]]; try done. pose proof (s_root _ _ _ Hsh) as Hr. injection Hr as ->.
    apply list_elem_of_singleton in Hq. by eapply word_nonempty.
  - destruct (link_queue _ _ _ _ _). by destruct (fold_left (lay_out _) _ _).
Qed.

Lemma newMatcher_spec ks m :
  newMatcher ToLower normalize ks = Some m ->
  exists paths ns es, Follows (word ToLower ks) paths ns es m /\ keywords m = ks /\
    length (outputs m) = length (nodes m) /\
    normalizedKeywords m = map (fun k => normalize (TrimSpace k)) ks /\
    covering m = buildCoveringIndex normalize (normalizedKeywords m) /\
    canonicalVariant m = existsb (is_variant ToLower normalize) ks.
Proof.
  intros H. destruct ks as [|k ks']; [done|]. set (ks := k :: ks') in *.
  destruct (build_trie_spec ToLower ks) as (paths & HT & Hin). pose proof HT as (Hsh & Hb & Hh).
  unfold newMatcher in H. fold ks in H. set (b := build_trie ToLower ks) in *.
  destruct (length (b_nodes b) =? 1); [done|].
  destruct (first_level ks paths b HT Hin) as [HK HL].
  pose proof (link_queue_spec (word ToLower ks) paths (b_edges b) Hin (length (b_nodes b)) 1 (b_nodes b) [] _
    ltac:(lia) HK HL ltac:(rewrite (s_len _ _ _ Hsh); simpl; lia)) as Hq.
  simpl app in Hq. simpl length in Hq.
  destruct (link_queue _ _ _ _ _) as [ns q]. destruct Hq as (Hlinked & Hsame & Hqueue).
  assert (Hsh' : Shape paths ns (b_edges b)) by (by eapply shape_same).
  pose proof (lay_out_spec (b_edges b) ns (length ns) ltac:(lia)) as Hlay.
  destruct (fold_left (lay_out _) _ _) as [laid es]. destruct Hlay as (L1 & L2 & _ & L4).
  injection H as <-. exists paths, ns, (b_edges b).
  assert (Hterm : forall t p, paths !! t = Some p -> forall i,
    i ∈ default [] (b_terminal b !! t) <-> word ToLower ks i p) by (intros t p Ht; by destruct (Hh t p Ht)).
  pose proof (collect_prefix (word ToLower ks) paths Hin (word_nonempty ks) ns (b_terminal b) q
    (s_len _ _ _ Hsh') Hlinked Hqueue Hterm (length q) ltac:(lia)) as (Houtlen & _ & _).
  rewrite take_ge in Houtlen by lia.
  split; [|split; [done|split; [cbn [outputs nodes]; congruence|done]]].
  split; cbn [nodes outputs].
  - done.
  - done.
  - apply word_nonempty.
  - done.
  - intros s l Hs. destruct (lookup_lt_is_Some_2 _ _ Hs) as [p Hp]. unfold next. cbn [rootTransitions nodes edges].
    destruct (s =? 0) eqn:E0; [apply Nat.eqb_eq in E0 as ->|].
    { rewrite (roots_spec paths (b_nodes b) (b_edges b) _ Hsh eq_refl). simpl. f_equal.
      unfold BuildTransition. by rewrite (same_edges_of _ _ _ _ Hsame). }
    destruct (L4 s ltac:(rewrite (s_len _ _ _ Hsh'); lia)) as (S1 & S2 & S3).
    destruct (lookup_lt_is_Some_2 laid s) as [n Hn]; [rewrite L1, (s_len _ _ _ Hsh'); lia|].
    rewrite Hn. apply node_at_Some in Hn as <-. unfold slice_of in S1.
    destruct (outgoing_spec (edges_of ns (b_edges b) s)) as [Hperm Hsort]. rewrite <- S1 in Hperm, Hsort.
    pose proof (bisect_finds es l (edgeStart (node_at laid s)) (edgeCount (node_at laid s)) S2 Hsort) as Hf.
    cbv zeta in Hf. set (k0 := bisect _ _ _ _ _) in *.
    assert (Hno : (forall e', e' ∈ take (edgeCount (node_at laid s)) (drop (edgeStart (node_at laid s)) es) ->
        e_label e' <> l) -> BuildTransition ns (b_edges b) s l = None).
    { intros Hno. destruct (BuildTransition _ _ s l) as [t|] eqn:E; [|done]. exfalso.
      unfold BuildTransition in E. apply fmap_Some in E as (e & He & _). apply find_some in He as [He Hl].
      apply Ascii.eqb_eq in Hl. apply (Hno (edge_of e)); [|done]. rewrite Hperm.
      apply list_elem_of_fmap. exists e. split; [done|by apply list_elem_of_In]. }
    destruct (k0 <? _); [|by rewrite Hno].
    destruct (es !! k0) as [e|]; [|by rewrite Hno].
    destruct (Ascii.eqb (e_label e) l) eqn:El; [|by rewrite Hno].
    rewrite Hperm in Hf. apply list_elem_of_fmap in Hf as (be & -> & Hbe). simpl in *.
    apply Ascii.eqb_eq in El. pose proof (s_edge _ _ _ Hsh' s p be Hp Hbe) as Ht. rewrite El in Ht.
    by rewrite (proj2 (transition_spec paths ns (b_edges b) s p l _ Hsh' Hp) Ht).
  - intros s. apply L2.
  - intros s. apply L2.
  - by rewrite L1, (s_len _ _ _ Hsh').
  - intros t p Ht i. apply (outputs_spec (word ToLower ks) paths Hin (word_nonempty ks) ns (b_terminal b) q
      (s_len _ _ _ Hsh') Hlinked Hqueue Hterm t p Ht).
Qed.
End Build.

(** ** Substrings *)

Lemma bytes_of_app a b : bytes_of (a +:+ b) = bytes_of a ++ bytes_of b.
Proof. induction a as [|c a IH]; [done|]. simpl. by rewrite <- IH. Qed.
Lemma bytes_of_inj a b : bytes_of a = bytes_of b -> a = b.
Proof.
  intros H. rewrite <- (String.string_of_list_ascii_of_string a), <- (String.string_of_list_ascii_of_string b).
  unfold bytes_of in H. congruence.
Qed.
Lemma bytes_of_ex l : exists s, l = bytes_of s.
Proof. exists (String.string_of_list_ascii l). symmetry. apply String.list_ascii_of_string_of_list_ascii. Qed.
Lemma length_bytes s : length (bytes_of s) = String.length s.
Proof. induction s as [|c s IH]; simpl; [done|]. by f_equal. Qed.

Lemma Index_Some s sub k :
  Index s sub = Some k -> exists a c, s = a +:+ (sub +:+ c) /\ String.length a = k /\
    forall a' c', s = a' +:+ (sub +:+ c') -> k <= String.length a'.
Proof.
  revert k. induction s as [|x s IH]; intros k; cbn [Index].
  - destruct (HasPrefix "" sub) eqn:E; [|done]. intros [= <-]. apply HasPrefix_spec in E as [t E].
    exists "", t. split; [exact E|]. split; [done|]. intros. lia.
  - destruct (HasPrefix (String x s) sub) eqn:E.
    + intros [= <-]. apply HasPrefix_spec in E as [t E]. exists "", t. split; [exact E|]. split; [done|]. intros. lia.
    + destruct (Index s sub) as [j|]; [|done]. intros [= <-]. destruct (IH j eq_refl) as (a & c & -> & <- & Hmin).
      exists (String x a), c. split; [done|]. split; [done|]. intros [|y a'] c' Ha'.
      * simpl in Ha'. assert (Hp : HasPrefix (String x (a +:+ (sub +:+ c))) sub = true)
          by (apply HasPrefix_spec; by exists c'). by rewrite Hp in E.
      * simpl in Ha'. injection Ha' as _ Ha'. apply Hmin in Ha'. simpl. lia.
Qed.
Lemma Index_None s sub : Index s sub = None -> forall a c, s <> a +:+ (sub +:+ c).
Proof.
  induction s as [|x s IH]; cbn [Index].
  - destruct (HasPrefix "" sub) eqn:E; [done|]. intros _ a c H. symmetry in H.
    apply str_app_eq_nil in H as [_ H]. apply str_app_eq_nil in H as [-> _]. done.
  - destruct (HasPrefix (String x s) sub) eqn:E; [done|]. destruct (Index s sub); [done|]. intros _ [|y a] c H.
    + simpl in H. assert (Hp : HasPrefix (String x s) sub = true) by (apply HasPrefix_spec; by exists c).
      by rewrite Hp in E.
    + simpl in H. injection H as _ H. by apply (IH eq_refl a c).
Qed.
Lemma Contains_spec s sub : Contains s sub = true <-> exists a c, s = a +:+ (sub +:+ c).
Proof.
  unfold Contains. destruct (Index s sub) eqn:E.
  - split; [|done]. intros _. apply Index_Some in E as (a & c & H & _). by exists a, c.
  - split; [done|]. intros (a & c & H). by apply (Index_None _ _ E) in H.
Qed.

Section Equivalence.
Context (ToLower normalize : string -> string).
Context (Hlower : forall s, ToLower s = "" -> s = "").

Lemma occurs_contains ks i x :
  occurs (word ToLower ks) (bytes_of x) i <->
  exists k, ks !! i = Some k /\ k <> "" /\ Contains x (ToLower k) = true.
Proof.
  split.
  - intros (y & [c Hc] & (w & (k & Hk & Hne & ->) & [a Ha])). exists k. split; [done|]. split; [done|].
    apply Contains_spec. destruct (bytes_of_ex a) as [a' ->]. destruct (bytes_of_ex c) as [c' ->].
    exists a', c'. apply bytes_of_inj. by rewrite !bytes_of_app, app_assoc, Hc, Ha.
  - intros (k & Hk & Hne & (a & c & ->)%Contains_spec).
    exists (bytes_of a ++ bytes_of (ToLower k)). split.
    + exists (bytes_of c). by rewrite !bytes_of_app, app_assoc.
    + exists (bytes_of (ToLower k)). split; [by exists k|]. by exists (bytes_of a).
Qed.

(** The plain searches find the first keyword with a property. *)
Lemma find_least (f : string -> bool) ks o :
  least (fun i => exists k, ks !! i = Some k /\ f k = true) o ->
  List.find f ks = (i ← o; ks !! i).
Proof.
  revert o. induction ks as [|k ks IH]; intros o Ho; simpl.
  - destruct o as [i|]; [|done]. by destruct Ho as [(k & Hk & _) _].
  - destruct (f k) eqn:Ef.
    + destruct o as [i|]; simpl.
      * destruct Ho as [_ Hmin]. specialize (Hmin 0). destruct i as [|i]; [done|].
        exfalso. assert (S i <= 0); [|lia]. apply Hmin. by exists k.
      * destruct (Ho 0). by exists k.
    + rewrite (IH (pred <$> o)).
      * destruct o as [[|i]|]; simpl; [|done|done]. destruct Ho as [(x & [= <-] & ?) _]. congruence.
      * destruct o as [i|]; simpl.
        -- destruct Ho as [(x & Hx & Hc) Hmin]. destruct i as [|i]; [injection Hx as <-; congruence|]. simpl.
           split; [by exists x|]. intros j (y & Hy & Hc'). assert (S i <= S j); [|lia]. apply Hmin. by exists y.
        -- intros i (y & Hy & Hc). apply (Ho (S i)). by exists y.
Qed.
Lemma first_contained_find lower ks :
  first_contained ToLower lower ks = List.find (fun k => negb (k =?s "") && Contains lower (ToLower k)) ks.
Proof.
  induction ks as [|k ks IH]; simpl; [done|]. rewrite IH. by destruct (k =?s ""), (Contains _ _).
Qed.
Lemma first_contained_least lower ks o :
  least (fun i => exists k, ks !! i = Some k /\ k <> "" /\ Contains lower (ToLower k) = true) o ->
  first_contained ToLower lower ks = (i ← o; ks !! i).
Proof.
  intros Ho. rewrite first_contained_find. apply find_least. eapply least_ext; [|exact Ho].
  intros i. split.
  - intros (k & Hk & Hne & Hc). exists k. split; [done|]. rewrite Hc, andb_true_r.
    by apply negb_true_iff, String.eqb_neq.
  - intros (k & Hk & Hc). bool_hyps. by exists k.
Qed.

(** C29.  The automaton decides what it is an optimisation of: for every keyword list
    and text, scanning the text once through the built matcher returns the keyword
    (the first configured one that occurs, case folded) that [matchBlockedKeyword]
    returns by searching the text for one keyword after the other.  Only the folding
    is assumed not to erase a string. *)
Theorem match_is_search ks text :
  Match ToLower (newMatcher ToLower normalize ks) text = matchBlockedKeyword ToLower text ks.
Proof.
  unfold Match, matchBlockedKeyword. destruct (newMatcher ToLower normalize ks) as [m|] eqn:E.
  - destruct (newMatcher_spec ToLower normalize Hlower ks m E) as (paths & ns & es & HF & Hk & _).
    assert (Hn : (length (nodes m) =? 0) = false).
    { apply Nat.eqb_neq. rewrite (f_len _ _ _ _ _ HF). intros Hz. apply length_zero_iff_nil in Hz.
      pose proof (s_root _ _ _ (f_shape _ _ _ _ _ HF)) as Hr. by rewrite Hz in Hr. }
    rewrite Hn, Hk, orb_false_r. destruct (_ || _); [done|]. symmetry. apply first_contained_least.
    eapply least_ext; [intros i; apply occurs_contains|]. by apply (scan_start _ paths ns es m HF).
  - destruct (_ || _); [done|]. symmetry. apply (first_contained_least _ _ None).
    intros i (k & Hk & Hne & _). eapply (newMatcher_None ToLower normalize Hlower ks E i). by exists k.
Qed.

(** ** The scan in context *)

Lemma bytes_of_take n s : bytes_of (str_take n s) = take n (bytes_of s).
Proof. revert n. induction s as [|c s IH]; intros [|n]; simpl; try done. by rewrite <- IH. Qed.
Lemma bytes_of_drop n s : bytes_of (str_drop n s) = drop n (bytes_of s).
Proof. revert n. induction s as [|c s IH]; intros [|n]; simpl; try done. Qed.
Lemma HasSuffix_spec s sub : HasSuffix s sub = true <-> bytes_of sub `suffix_of` bytes_of s.
Proof.
  unfold HasSuffix. split.
  - intros H. bool_hyps. match goal with H : _ = sub |- _ => rewrite <- H end.
    rewrite bytes_of_drop. apply suffix_drop.
  - intros [a Ha]. pose proof (f_equal length Ha) as Hl. rewrite length_app, !length_bytes in Hl.
    apply andb_true_iff. split; [apply Nat.leb_le; lia|]. apply String.eqb_eq, bytes_of_inj.
    rewrite bytes_of_drop, Ha. apply drop_app_length'. lia.
Qed.

Section Context.
Context (isClearlyBenign allowContextualHit : string -> nat -> nat -> bool).
Context (ks : list string) (text : string) (Hempty : normalize "" = "").
Context (Hplain : existsb (is_variant ToLower normalize) ks = false).

Definition covering_of (ks : list string) : gmap string (list string) :=
  buildCoveringIndex normalize (map (fun k => normalize (TrimSpace k)) ks).
(** The reference: some occurrence of the keyword, wherever it starts, is not suppressed. *)
Definition actionable (text : string) (keyword : string) : bool :=
  let needle := normalize (TrimSpace keyword) in
  negb (needle =?s "") &&
  existsb (fun start =>
      let stop := start + String.length needle in
      (slice text start stop =?s needle) &&
      negb (suppressed normalize isClearlyBenign allowContextualHit (covering_of ks) keyword text start stop
              needle))
    (seq 0 (String.length text)).

Lemma plain_needle k : k ∈ ks -> normalize (TrimSpace k) <> "" -> normalize (TrimSpace k) = ToLower k /\ k <> "".
Proof.
  intros Hk Hn. assert (Hv : is_variant ToLower normalize k = false).
  { destruct (is_variant ToLower normalize k) eqn:E; [|done]. rewrite <- Hplain. symmetry.
    apply existsb_exists. exists k. split; [by apply list_elem_of_In|done]. }
  unfold is_variant in Hv. destruct (TrimSpace k =?s "") eqn:Et; bool_hyps; [by rewrite Et, Hempty in Hn|].
  split; [congruence|]. intros ->. done.
Qed.

Context (m : Matcher) (paths : list (list byte)) (ns : list Node) (es : list BuildEdge).
Context (HF : Follows (word ToLower ks) paths ns es m) (Hks : keywords m = ks).
Context (Hnorm : normalizedKeywords m = map (fun k => normalize (TrimSpace k)) ks).
Context (Hcov : covering m = covering_of ks).

Notation hit := (output_hit normalize isClearlyBenign allowContextualHit m text).
Definition hits (x : list byte) (i : nat) : Prop :=
  exists y l, (y ++ [l]) `prefix_of` x /\ ends (word ToLower ks) (y ++ [l]) i /\ hit (length y) i = true.

Lemma ends_bound x i : ends (word ToLower ks) x i -> i < length ks.
Proof. intros (w & (k & Hk & _) & _). by eapply lookup_lt_Some. Qed.

Lemma scan_outputs_spec position l best :
  (forall i, i ∈ l -> i < length ks) ->
  let r := scan_outputs normalize isClearlyBenign allowContextualHit m text position l best in
  (r = best \/ (r ∈ l /\ hit position r = true)) /\ r <= best /\
  (forall i, i ∈ l -> hit position i = true -> r <= i).
Proof.
  revert best. induction l as [|i l IH]; intros best Hl; simpl.
  - split; [by left|]. split; [done|]. by intros i ?%elem_of_nil.
  - assert (Hi : i < length ks) by (apply Hl; by left).
    assert (Hl' : forall j, j ∈ l -> j < length ks) by (intros j Hj; apply Hl; by right).
    rewrite Hks, (proj2 (Nat.leb_gt _ _) Hi). simpl.
    destruct (best <=? i) eqn:Eb; [apply Nat.leb_le in Eb|apply Nat.leb_gt in Eb].
    { destruct (IH best Hl') as (H1 & H2 & H3). split; [|split; [done|]].
      - destruct H1 as [?|[? ?]]; [by left|right]. split; [by right|done].
      - intros j [->|Hj]%elem_of_cons Hh; [lia|auto]. }
    destruct (hit position i) eqn:Eh; simpl.
    + destruct (i =? 0) eqn:E0; [apply Nat.eqb_eq in E0 as ->|].
      * split; [right; split; [by left|done]|]. split; [lia|]. intros. lia.
      * destruct (IH i Hl') as (H1 & H2 & H3). split; [|split; [lia|]].
        -- right. destruct H1 as [-> |[? ?]]; [split; [by left|done]|split; [by right|done]].
        -- intros j [->|Hj]%elem_of_cons Hh; [done|auto].
    + destruct (IH best Hl') as (H1 & H2 & H3). split; [|split; [done|]].
      * destruct H1 as [?|[? ?]]; [by left|right]. split; [by right|done].
      * intros j [->|Hj]%elem_of_cons Hh; [congruence|auto].
Qed.

(** [best] is the least index hit, or the number of keywords. *)
Definition best_hit (x : list byte) (best : nat) : Prop :=
  (best = length ks \/ hits x best) /\ best <= length ks /\ forall i, hits x i -> best <= i.

Lemma hits_snoc x l i :
  hits (x ++ [l]) i <-> hits x i \/ (ends (word ToLower ks) (x ++ [l]) i /\ hit (length x) i = true).
Proof.
  split.
  - intros (y & c & [k Hk] & He & Hh). destruct k as [|a k _] using rev_ind.
    + rewrite app_nil_r in Hk. apply app_inj_tail in Hk as [-> ->]. by right.
    + rewrite app_assoc in Hk. apply app_inj_tail in Hk as [-> _]. left. exists y, c.
      split; [by exists k|done].
  - intros [(y & c & Hp & He & Hh)|[He Hh]].
    + exists y, c. split; [|done]. trans x; [done|]. by exists [l].
    + by exists x, l.
Qed.

Lemma scan_context_spec rest x s best :
  at_text paths x s -> best_hit x best ->
  best_hit (x ++ rest)
    (scan_context normalize isClearlyBenign allowContextualHit m text rest (length x) s best).
Proof.
  revert x s best. induction rest as [|l rest IH]; intros x s best Hs Hb; cbn [scan_context]; cbv zeta.
  - by rewrite app_nil_r.
  - pose proof (step_spec _ paths ns es m HF x s l Hs) as Hs'. set (s' := step m s l) in *.
    destruct (scan_outputs_spec (length x) (default [] (outputs m !! s')) best) as (H1 & H2 & H3).
    { intros i Hi. apply (outputs_at _ paths ns es m HF _ _ i Hs') in Hi. by eapply ends_bound. }
    set (r := scan_outputs _ _ _ _ _ _ _ _) in *.
    assert (Hr : best_hit (x ++ [l]) r).
    { destruct Hb as (B1 & B2 & B3). split; [|split; [lia|]].
      - destruct H1 as [-> |[Hin Hh]].
        + destruct B1 as [?|?]; [by left|right]. apply hits_snoc. by left.
        + right. apply hits_snoc. right. split; [|done]. by apply (outputs_at _ paths ns es m HF _ _ r Hs').
      - intros i [Hi|[He Hh]]%hits_snoc; [specialize (B3 i Hi); lia|].
        apply H3; [|done]. by apply (outputs_at _ paths ns es m HF _ _ i Hs'). }
    replace (x ++ l :: rest) with ((x ++ [l]) ++ rest) by (by rewrite <- app_assoc).
    destruct (r =? 0) eqn:E0.
    + apply Nat.eqb_eq in E0. rewrite E0 in Hr. destruct Hr as (B1 & B2 & B3). split; [|split; [lia|intros; lia]].
      destruct B1 as [?|(y & c & Hp & Hh)]; [by left|right]. exists y, c. split; [|done].
      trans (x ++ [l]); [done|]. by exists rest.
    + specialize (IH (x ++ [l]) s' r Hs' Hr). rewrite length_app, Nat.add_1_r in IH. exact IH.
Qed.

(** A hit is an actionable occurrence that ends there. *)
Lemma hits_actionable i : hits (bytes_of text) i <-> exists k, ks !! i = Some k /\ actionable text k = true.
Proof.
  assert (Hat : forall k, ks !! i = Some k -> default "" (normalizedKeywords m !! i) = normalize (TrimSpace k) /\
    default "" (keywords m !! i) = k).
  { intros k Hk. by rewrite Hnorm, list_lookup_fmap, Hks, Hk. }
  split.
  - intros (y & l & [c Hc] & (w & (k & Hk & Hne & ->) & Hsuf) & Hh). exists k. split; [done|].
    destruct (Hat k Hk) as [E1 E2]. unfold output_hit in Hh. rewrite E1, E2, Hcov in Hh.
    unfold actionable. set (needle := normalize (TrimSpace k)) in *.
    destruct (needle =?s "") eqn:En; simpl in Hh; [done|].
    destruct (length y + 1 <? String.length needle) eqn:El; simpl in Hh; [done|].
    destruct (String.length text <? length y + 1) eqn:Et; simpl in Hh; [done|].
    destruct (HasSuffix (str_take (length y + 1) text) needle) eqn:Es; simpl in Hh; [|done].
    bool_hyps. apply Nat.ltb_ge in El, Et. apply HasSuffix_spec in Es as [a Ha].
    rewrite bytes_of_take in Ha. pose proof (f_equal length Ha) as Hla.
    rewrite length_take, length_app, !length_bytes in Hla.
    assert (Hpos : 0 < String.length needle) by (destruct needle; simpl in *; [done|lia]).
    simpl. apply existsb_exists. exists (length y + 1 - String.length needle). split.
    { apply list_elem_of_In, elem_of_seq. lia. }
    replace (length y + 1 - String.length needle + String.length needle) with (length y + 1) by lia.
    apply andb_true_iff. split; [|by apply negb_true_iff].
    apply String.eqb_eq, bytes_of_inj. unfold slice. rewrite bytes_of_take, bytes_of_drop.
    rewrite take_drop_commute. replace (length y + 1 - String.length needle + (length y + 1 - (length y + 1 - String.length needle)))
      with (length y + 1) by lia.
    rewrite Ha. apply drop_app_length'. lia.
  - intros (k & Hk & Hact). unfold actionable in Hact. set (needle := normalize (TrimSpace k)) in *.
    bool_hyps. match goal with H : existsb _ _ = true |- _ => apply existsb_exists in H as (start & Hin & Hs) end.
    apply list_elem_of_In, elem_of_seq in Hin. bool_hyps.
    destruct (plain_needle k) as [Hlow Hne]; [by eapply list_elem_of_lookup_2|done|]. fold needle in Hlow.
    assert (Hpos : 0 < String.length needle) by (destruct needle; simpl in *; [done|lia]).
    match goal with H : slice _ _ _ = _ |- _ => rename H into Hsl end.
    apply (f_equal bytes_of) in Hsl. unfold slice in Hsl. rewrite bytes_of_take, bytes_of_drop in Hsl.
    replace (start + String.length needle - start) with (String.length needle) in Hsl by lia.
    pose proof (f_equal length Hsl) as Hll. rewrite length_take, length_drop, !length_bytes in Hll.
    set (stop := start + String.length needle) in *.
    assert (Htake : take stop (bytes_of text) = take start (bytes_of text) ++ bytes_of needle).
    { rewrite <- Hsl. unfold stop. by rewrite take_take_drop. }
    destruct (lookup_lt_is_Some_2 (bytes_of text) (stop - 1)) as [l Hl]; [rewrite length_bytes; lia|].
    assert (Hy : take (stop - 1) (bytes_of text) ++ [l] = take stop (bytes_of text)).
    { replace stop with (S (stop - 1)) at 2 by lia. by rewrite (take_S_r _ _ _ Hl). }
    destruct (Hat k Hk) as [E1 E2].
    exists (take (stop - 1) (bytes_of text)), l. rewrite Hy. split; [apply prefix_take|]. split.
    + exists (bytes_of (ToLower k)). split; [by exists k|]. rewrite <- Hlow, Htake. by eexists.
    + rewrite length_take, length_bytes. replace (Nat.min (stop - 1) (String.length text)) with (stop - 1) by lia.
      unfold output_hit. rewrite E1, E2, Hcov. fold needle.
      replace (stop - 1 + 1) with stop by lia.
      rewrite (proj2 (String.eqb_neq needle "")) by done.
      rewrite (proj2 (Nat.ltb_ge _ _)) by lia. rewrite (proj2 (Nat.ltb_ge (String.length text) stop)) by lia.
      rewrite (proj2 (HasSuffix_spec (str_take stop text) needle)) by (rewrite bytes_of_take, Htake; by eexists).
      simpl. replace (stop - String.length needle) with start by lia. by apply negb_true_iff.
Qed.

Lemma indexed_is_search :
  text <> "" -> length (outputs m) = length (nodes m) ->
  matchContextAwareIndexed normalize isClearlyBenign allowContextualHit m text = List.find (actionable text) ks.
Proof.
  intros Ht Hout. unfold matchContextAwareIndexed.
  rewrite (proj2 (String.eqb_neq text "")) by done.
  assert (Hn : (length (nodes m) =? 0) = false).
  { apply Nat.eqb_neq. rewrite (f_len _ _ _ _ _ HF). intros Hz%length_zero_iff_nil.
    pose proof (s_root _ _ _ (f_shape _ _ _ _ _ HF)) as Hr. by rewrite Hz in Hr. }
  rewrite Hout, Hn. simpl. rewrite Hks.
  assert (Hb : best_hit (bytes_of text) (scan_context normalize isClearlyBenign allowContextualHit m text
    (bytes_of text) 0 0 (length ks))).
  { apply (scan_context_spec (bytes_of text) [] 0 (length ks)); [by eapply at_start|].
    split; [by left|]. split; [done|]. intros i (y & l & Hp & _). apply prefix_nil_inv in Hp. by destruct y. }
  set (r := scan_context _ _ _ _ _ _ _ _ _) in *. destruct Hb as (B1 & B2 & B3).
  rewrite (find_least _ ks (if decide (r < length ks) then Some r else None)).
  - destruct (decide _); [done|]. by rewrite lookup_ge_None_2 by lia.
  - destruct (decide _).
    + split; [apply hits_actionable; destruct B1; [lia|done]|]. intros j Hj. by apply B3, hits_actionable.
    + intros i Hi. pose proof Hi as (k & Hk & _). apply lookup_lt_Some in Hk.
      apply hits_actionable in Hi. specialize (B3 i Hi). lia.
Qed.
End Context.
End Equivalence.

(** Matching in context, for keyword lists without padded or otherwise
    non-canonical spellings and texts that normalize to their folding: the one-pass
    scan over the automaton's outputs returns the first configured keyword that has an
    actionable occurrence — one that is neither covered by a benign longer phrase, nor
    in a clearly benign context, nor a context-sensitive term without a contextual
    hit —, and nothing when there is none, whatever the two context policies are. *)
Theorem context_match_is_search ToLower normalize isClearlyBenign allowContextualHit ks text :
  (forall s, ToLower s = "" -> s = "") -> normalize "" = "" -> ToLower "" = "" ->
  existsb (is_variant ToLower normalize) ks = false -> normalize text = ToLower text ->
  MatchContextAware ToLower normalize isClearlyBenign allowContextualHit
    (newMatcher ToLower normalize ks) text =
  List.find (actionable normalize isClearlyBenign allowContextualHit ks (ToLower text)) ks.
Proof.
  intros Hlower Hempty Hlow0 Hplain Htext. unfold MatchContextAware.
  destruct (newMatcher ToLower normalize ks) as [m|] eqn:E.
  - destruct (newMatcher_spec ToLower normalize Hlower ks m E) as (paths & ns & es & HF & Hk & Hout & Hnorm & Hcov & Hvar).
    assert (Hks : (length (keywords m) =? 0) = false) by (rewrite Hk; by destruct ks).
    rewrite Hks, orb_false_r. destruct (text =?s "") eqn:Et; bool_hyps.
    + subst text. symmetry. apply (find_least _ ks None). intros i (k & _ & Ha).
      unfold actionable in Ha. rewrite Hlow0 in Ha. simpl in Ha. by rewrite andb_false_r in Ha.
    + rewrite Htext. rewrite (proj2 (String.eqb_neq (ToLower text) "")) by (intros H; by apply Et, Hlower).
      rewrite String.eqb_refl, Hvar, Hplain. simpl.
      assert (Hlen : (0 <? length (outputs m)) = true).
      { rewrite Hout, (f_len _ _ _ _ _ HF). apply Nat.ltb_lt. eapply lookup_lt_Some, (s_root _ _ _ (f_shape _ _ _ _ _ HF)). }
      rewrite Hlen. apply (indexed_is_search ToLower normalize isClearlyBenign allowContextualHit ks
        (ToLower text) Hempty Hplain m paths ns es HF Hk Hnorm); [by rewrite Hcov, Hnorm|by intros H; apply Et, Hlower|done].
  - symmetry. apply (find_least _ ks None). intros i (k & Hk & Ha).
    unfold actionable in Ha. apply andb_true_iff in Ha as [Hn _]. bool_hyps.
    destruct (plain_needle ToLower normalize ks Hempty Hplain k) as [_ Hne]; [by eapply list_elem_of_lookup_2|done|].
    eapply (newMatcher_None ToLower normalize Hlower ks E i). by exists k.
Qed.

(** ** Witnesses *)

Fixpoint ascii_lower (s : string) : string :=
  match s with
  | EmptyString => EmptyString
  | String c s => String (if in_range 65 90 (code c) then Ascii.ascii_of_nat (code c + 32) else c) (ascii_lower s)
  end.
Lemma ascii_lower_nonempty s : ascii_lower s = "" -> s = "".
Proof. by destruct s. Defined.
Definition ex_keywords : list string := ["shers"; "she"; ""; "he"; "His"; "木马"].

Lemma match_is_search_witness :
  Match ascii_lower (newMatcher ascii_lower ascii_lower ex_keywords) "uSHEr THIS" = Some "she" /\
  matchBlockedKeyword ascii_lower "uSHEr THIS" ex_keywords = Some "she".
Proof.
  assert (H : matchBlockedKeyword ascii_lower "uSHEr THIS" ex_keywords = Some "she") by (vm_compute; reflexivity).
  split; [|exact H]. rewrite <- H. exact (match_is_search ascii_lower ascii_lower ascii_lower_nonempty ex_keywords _).
Defined.

(** "木马" is context sensitive: only the second occurrence is a contextual hit. *)
Lemma context_match_is_search_witness :
  MatchContextAware ascii_lower ascii_lower (fun _ _ _ => false) (fun _ start _ => 5 <? start)
    (newMatcher ascii_lower ascii_lower ex_keywords) "木马 木马" = Some "木马".
Proof.
  rewrite (context_match_is_search ascii_lower ascii_lower (fun _ _ _ => false) (fun _ start _ => 5 <? start)
    ex_keywords "木马 木马" ascii_lower_nonempty eq_refl eq_refl ltac:(vm_compute; reflexivity) eq_refl).
  vm_compute. reflexivity.
Defined.
