(* ===== verification/TurnState.v ===== *)
(** * Codex turn states: policy, tokens, snapshots

    [src/backend/internal/service/openai_codex_turn_state_collector.go], first part: the
    admission policy, the wire envelope of a turn state and its parser, the keys,
    snapshots and cookies.  A [Time] is nanoseconds since Go's zero time, a [Duration]
    nanoseconds; [clock] is what [time.Now()] reads, [ToLower] the standard library's
    Unicode folding. *)

From S2P Require Import Prelude Json Encoding.
Local Open Scope string_scope.
Local Open Scope Z_scope.
Local Open Scope list_scope.
Local Open Scope go_scope.

Definition Time : Type := Z.
Definition Duration : Type := Z.
Definition Second : Duration := 1000000000.
Definition Minute : Duration := 60 * Second.
Definition Hour : Duration := 60 * Minute.
Definition IsZero (t : Time) : bool := t =? 0.
(** [time.Unix(s, 0)]; the zero time is year 1. *)
Definition Unix (s : Z) : Time := (s + 62135596800) * Second.
(** [t.Sub(u)] saturates. *)
Definition time_Sub (t u : Time) : Duration := Z.max int64_min (Z.min int64_max (t - u)).
Definition u64_succ (v : Z) : Z := (v + 1) mod 2 ^ 64.

Definition openAICodexTurnStateCollectorDefaultTTL : Duration := Hour.
Definition openAICodexTurnStateCollectorDefaultClockSkew : Duration := 30 * Second.
Definition openAICodexTurnStateCollectorDefaultProbeCooldown : Duration := 3 * Minute.
Definition openAICodexTurnStateCollectorDefaultMaxEntries : Z := 2048.
Definition openAICodexTurnStateCollectorDefaultMaxTokenLength : Z := 2048.
Definition openAICodexTurnStateCollectorDefaultMaxProbeSlots : Z := 1.
Definition openAICodexTurnStateCookieTTL : Duration := 240 * Second.
Definition openAICodexTurnStateMaxCookies : nat := 64.
Definition openAICodexTurnStateCollectorMaxScopeLength : nat := 512.
Definition openAICodexTurnStateCollectorMaxModelLength : nat := 128.
Definition openAICodexTurnStateCollectorMaxRouteLength : nat := 256.
Definition openAICodexTurnStateCollectorMinIssuedUnix : Z := 1577836800.
Definition openAICodexTurnStateCollectorMaxIssuedUnix : Z := 4102444800.

Inductive TurnStateError :=
  | ErrEmpty | ErrEncoding | ErrEnvelope | ErrTimestamp | ErrExpired | ErrShape.

(** ** Policy *)

Record Policy := MkPolicy {
  pol_Blocks : Z;
  pol_TTL : Duration;
  pol_RefreshBefore : Duration;
  pol_ClockSkew : Duration;
  pol_ProbeCooldown : Duration;
  pol_MaxEntries : Z;
  pol_MaxTokenBytes : Z;
  pol_MaxProbeSlots : Z;
  pol_HoldActive : bool;
}.
#[export] Instance eta_Policy : Eta Policy := fun p =>
  MkPolicy (pol_Blocks p) (pol_TTL p) (pol_RefreshBefore p) (pol_ClockSkew p) (pol_ProbeCooldown p)
    (pol_MaxEntries p) (pol_MaxTokenBytes p) (pol_MaxProbeSlots p) (pol_HoldActive p).

(** [normalized], in two halves: the windows, then the limits. *)
Definition normalized_windows (p : Policy) : Policy :=
  let p := if pol_TTL p <=? 0 then p <| pol_TTL := openAICodexTurnStateCollectorDefaultTTL |> else p in
  let p := if pol_ClockSkew p <=? 0
    then p <| pol_ClockSkew := openAICodexTurnStateCollectorDefaultClockSkew |> else p in
  let p := if pol_RefreshBefore p <? 0 then p <| pol_RefreshBefore := 0 |> else p in
  let p := if pol_TTL p <=? pol_RefreshBefore p
    then p <| pol_RefreshBefore := Z.quot (pol_TTL p) 2 |> else p in
  if pol_ProbeCooldown p <? 0
  then p <| pol_ProbeCooldown := openAICodexTurnStateCollectorDefaultProbeCooldown |> else p.
Definition normalized_limits (p : Policy) : Policy :=
  let p := if pol_MaxEntries p <=? 0
    then p <| pol_MaxEntries := openAICodexTurnStateCollectorDefaultMaxEntries |> else p in
  let p := if pol_MaxTokenBytes p <=? 0
    then p <| pol_MaxTokenBytes := openAICodexTurnStateCollectorDefaultMaxTokenLength |> else p in
  let p := if pol_MaxProbeSlots p <=? 0
    then p <| pol_MaxProbeSlots := openAICodexTurnStateCollectorDefaultMaxProbeSlots |> else p in
  let p := if 65536 <? pol_MaxEntries p then p <| pol_MaxEntries := 65536 |> else p in
  let p := if 8192 <? pol_MaxTokenBytes p then p <| pol_MaxTokenBytes := 8192 |> else p in
  if 64 <? pol_MaxProbeSlots p then p <| pol_MaxProbeSlots := 64 |> else p.
Definition normalized (p : Policy) : Policy := normalized_limits (normalized_windows p).

(** ** Tokens *)

Record Token := MkToken {
  tok_Value : string;
  tok_Fingerprint : string;
  tok_IssuedAt : Time;
  tok_Blocks : Z;
}.
Definition no_token : Token := MkToken "" "" 0 0.

(** [strings.TrimRight(value, "=")] *)
Fixpoint drop_padding (l : list Z) : list Z :=
  match l with b :: l' => if b =? 61 then drop_padding l' else l | [] => [] end.
Definition trim_padding (l : list Z) : list Z := rev (drop_padding (rev l)).

Definition parseOpenAICodexTurnState (value : string) (maxBytes : Z) : Token + TurnStateError :=
  let value := TrimSpace value in
  let bytes := byte_values value in
  if value =?s "" then inr ErrEmpty
  else
    let maxBytes := if maxBytes <=? 0 then openAICodexTurnStateCollectorDefaultMaxTokenLength else maxBytes in
    if (maxBytes <? Z.of_nat (length bytes)) ||
       existsb (fun b => (b =? 32) || (b =? 9) || (b =? 13) || (b =? 10)) bytes then inr ErrEncoding
    else if existsb (fun b => (b <? 0x21) || (0x7e <? b)) bytes then inr ErrEncoding
    else
      let core := trim_padding bytes in
      if 2 <? Z.of_nat (length bytes) - Z.of_nat (length core) then inr ErrEncoding
      else
        match decode_base64 core with
        | None => inr ErrEnvelope
        | Some raw =>
            let n := Z.of_nat (length raw) in
            if (n <? 73) || negb (Z.rem (n - 57) 16 =? 0) || negb (nth 0 raw 0 =? 0x80) then inr ErrEnvelope
            else
              let issuedUnix := big_endian (take 8 (drop 1 raw)) in
              if (issuedUnix <? openAICodexTurnStateCollectorMinIssuedUnix) ||
                 (openAICodexTurnStateCollectorMaxIssuedUnix <=? issuedUnix) then inr ErrTimestamp
              else inl (MkToken value (hex (take 8 (sha256 value))) (Unix issuedUnix) (Z.quot (n - 57) 16))
        end.
Definition ParseOpenAICodexTurnState (value : string) : Token + TurnStateError :=
  parseOpenAICodexTurnState value openAICodexTurnStateCollectorDefaultMaxTokenLength.

Definition collectorNow (clock now : Time) : Time := if IsZero now then clock else now.

Definition Accept (clock : Time) (p : Policy) (token : Token) (now : Time) : bool :=
  let p := normalized p in
  if (tok_Value token =?s "") || IsZero (tok_IssuedAt token) || (tok_Blocks token <? 1) then false
  else if (0 <? pol_Blocks p) && negb (tok_Blocks token =? pol_Blocks p) then false
  else
    let now := collectorNow clock now in
    if now + pol_ClockSkew p <? tok_IssuedAt token then false
    else now <? tok_IssuedAt token + pol_TTL p - pol_ClockSkew p.

Definition ValidateOpenAICodexTurnState (clock : Time) (value : string) (p : Policy) (now : Time) :
    Token + TurnStateError :=
  let p := normalized p in
  match parseOpenAICodexTurnState value (pol_MaxTokenBytes p) with
  | inr e => inr e
  | inl token =>
      if (0 <? pol_Blocks p) && negb (tok_Blocks token =? pol_Blocks p) then inr ErrShape
      else if negb (Accept clock p token now) then inr ErrExpired
      else inl token
  end.

(** ** Keys *)

Record Key := MkKey {
  key_AccountID : Z;
  key_Scope : string;
  key_Model : string;
  key_generation : Z;
}.
#[export] Instance eta_Key : Eta Key := fun k =>
  MkKey (key_AccountID k) (key_Scope k) (key_Model k) (key_generation k).
#[export] Instance Key_eq_dec : EqDecision Key.
Proof. solve_decision. Defined.
#[export] Instance Key_countable : Countable Key.
Proof.
  refine (inj_countable' (fun k => (key_AccountID k, key_Scope k, key_Model k, key_generation k))
    (fun '(a, s, m, g) => MkKey a s m g) _). by intros [].
Defined.

Definition digested (limit : nat) (s : string) : string :=
  if Nat.ltb limit (String.length s) then "sha256:" +:+ hex (sha256 s) else s.
Definition canonical (ToLower : string -> string) (k : Key) : Key :=
  let k := k <| key_Scope := TrimSpace (key_Scope k) |> in
  let k := k <| key_Model := ToLower (TrimSpace (key_Model k)) |> in
  let k := k <| key_Scope := digested openAICodexTurnStateCollectorMaxScopeLength (key_Scope k) |> in
  k <| key_Model := digested openAICodexTurnStateCollectorMaxModelLength (key_Model k) |>.

(** ** Snapshots *)

Record Cookie := MkCookie { ck_Name : string; ck_Value : string }.
Record Snapshot := MkSnapshot {
  sn_Token : Token;
  sn_Route : string;
  sn_Version : Z;
  sn_EgressProxyURL : string;
  sn_EgressPinned : bool;
  sn_HarvestSessionID : string;
  sn_HarvestCookies : list Cookie;
  sn_HarvestCookiesAt : Time;
}.
#[export] Instance eta_Snapshot : Eta Snapshot := fun s =>
  MkSnapshot (sn_Token s) (sn_Route s) (sn_Version s) (sn_EgressProxyURL s) (sn_EgressPinned s)
    (sn_HarvestSessionID s) (sn_HarvestCookies s) (sn_HarvestCookiesAt s).
Definition no_snapshot : Snapshot := MkSnapshot no_token "" 0 "" false "" [] 0.
Definition token_snapshot (token : Token) (route : string) : Snapshot :=
  no_snapshot <| sn_Token := token |> <| sn_Route := route |>.

Definition cookiesFresh (clock : Time) (s : Snapshot) (now : Time) : bool :=
  let now := collectorNow clock now in
  match sn_HarvestCookies s with [] => false | _ => true end && negb (IsZero (sn_HarvestCookiesAt s)) &&
  (now <? sn_HarvestCookiesAt s + openAICodexTurnStateCookieTTL).
Definition usable (clock : Time) (s : Snapshot) (p : Policy) (now : Time) : bool :=
  Accept clock p (sn_Token s) now.

Definition normalizeOpenAICodexTurnStateSnapshot (s : Snapshot) : Snapshot :=
  let s := s <| sn_Route := TrimSpace (sn_Route s) |> in
  let s := s <| sn_EgressProxyURL := TrimSpace (sn_EgressProxyURL s) |> in
  let s := s <| sn_HarvestSessionID := TrimSpace (sn_HarvestSessionID s) |> in
  let s := if Nat.ltb openAICodexTurnStateCollectorMaxRouteLength (String.length (sn_Route s))
    then s <| sn_Route := str_take openAICodexTurnStateCollectorMaxRouteLength (sn_Route s) |> else s in
  let s := if Nat.ltb 4096 (String.length (sn_EgressProxyURL s))
    then s <| sn_EgressProxyURL := "" |> <| sn_EgressPinned := false |> else s in
  let s := if Nat.ltb 256 (String.length (sn_HarvestSessionID s))
    then s <| sn_HarvestSessionID := "" |> else s in
  if Nat.ltb openAICodexTurnStateMaxCookies (length (sn_HarvestCookies s))
  then s <| sn_HarvestCookies := take openAICodexTurnStateMaxCookies (sn_HarvestCookies s) |> else s.

(** A cookie replaces the one of its name in place, or goes to the end if there is room. *)
Fixpoint replace_cookie (c : Cookie) (l : list Cookie) : option (list Cookie) :=
  match l with
  | [] => None
  | x :: l => if ck_Name x =?s ck_Name c then Some (c :: l) else cons x <$> replace_cookie c l
  end.
Definition append_cookie (merged : list Cookie) (c : Cookie) : list Cookie :=
  let c := MkCookie (TrimSpace (ck_Name c)) (ck_Value c) in
  if (ck_Name c =?s "") || Nat.ltb 256 (String.length (ck_Name c)) || Nat.ltb 4096 (String.length (ck_Value c))
  then merged
  else
    match replace_cookie c merged with
    | Some merged => merged
    | None => if Nat.leb openAICodexTurnStateMaxCookies (length merged) then merged else merged ++ [c]
    end.
Definition mergeOpenAICodexTurnStateCookies (current updates : list Cookie) : list Cookie :=
  fold_left append_cookie updates (fold_left append_cookie current []).
