(* ===== verification/TurnStateCollector.v ===== *)
(** * The Codex turn state collector

    [src/backend/internal/service/openai_codex_turn_state_collector.go], second part:
    the collector's state and its operations.  Everything the operations read or write
    is guarded by one mutex or is an atomic counter, so an operation is one step: a
    function of the collector.  [clock] is what [time.Now()] reads during the
    operation, [ord] the orders in which Go happens to iterate over the maps.  The nil
    receiver, which every method tolerates, is not modelled. *)

From S2P Require Import Prelude Json Encoding TurnState.
From stdpp Require Import sorting.
Local Open Scope string_scope.
Local Open Scope Z_scope.
Local Open Scope list_scope.
Local Open Scope go_scope.

(** A channel that is only ever closed, by its number. *)
Definition Chan : Type := nat.

Record Entry := MkEntry {
  e_key : Key;
  e_active : Snapshot;
  e_ready : Snapshot;
  e_version : Z;
  e_strikes : Z;
  e_candidates : Z;
  e_observed : Z;
  e_lastAccess : Time;
  e_lastProbe : Time;
  e_nextProbe : Time;
  e_probeDone : option Chan;
  e_probeEpoch : Z;
  e_probeInvalidated : bool;
  e_forceRefresh : bool;
}.
#[export] Instance eta_Entry : Eta Entry := fun e =>
  MkEntry (e_key e) (e_active e) (e_ready e) (e_version e) (e_strikes e) (e_candidates e) (e_observed e)
    (e_lastAccess e) (e_lastProbe e) (e_nextProbe e) (e_probeDone e) (e_probeEpoch e)
    (e_probeInvalidated e) (e_forceRefresh e).
Definition new_entry (key : Key) (now : Time) : Entry :=
  MkEntry key no_snapshot no_snapshot 0 0 0 0 now 0 0 None 0 false false.

Record AccountGeneration := MkAccountGeneration { ag_value : Z; ag_lastAccess : Time }.
Record Probe := MkProbe { pr_Key : Key; pr_StartedAt : Time; pr_done : option Chan; pr_epoch : Z }.
Definition no_probe : Probe := MkProbe (MkKey 0 "" "" 0) 0 None 0.

Inductive ProbeStartResult :=
  | ProbeStartUnavailable | ProbeStarted | ProbeSkippedHealthy | ProbeInFlight | ProbeCooldown
  | ProbeCapacity | ProbeSkippedAccountModelHealthy.
Inductive OfferResult := OfferRejected | OfferPublished | OfferSkippedHealthy.

Record Counters := MkCounters {
  n_offers : Z; n_acceptedOffers : Z; n_rejectedOffers : Z; n_observations : Z;
  n_suspectResponses : Z; n_promotions : Z; n_evictions : Z; n_probeStarted : Z;
  n_probeCoalesced : Z; n_probeFinished : Z;
}.
#[export] Instance eta_Counters : Eta Counters := fun n =>
  MkCounters (n_offers n) (n_acceptedOffers n) (n_rejectedOffers n) (n_observations n)
    (n_suspectResponses n) (n_promotions n) (n_evictions n) (n_probeStarted n) (n_probeCoalesced n)
    (n_probeFinished n).

(** The collector, and the channels made so far: how many, which are closed, and
    whether one was closed twice (a panic). *)
Record Collector := MkCollector {
  policy : Policy;
  entries : gmap Key Entry;
  accountGenerations : gmap Z AccountGeneration;
  generationSequence : Z;
  counts : Counters;
  probes : Z;
  made : nat;
  closed : gset Chan;
  closed_twice : bool;
}.
#[export] Instance eta_Collector : Eta Collector := fun c =>
  MkCollector (policy c) (entries c) (accountGenerations c) (generationSequence c) (counts c) (probes c)
    (made c) (closed c) (closed_twice c).

Definition NewOpenAICodexTurnStateCollector (p : Policy) : Collector :=
  MkCollector (normalized p) ∅ ∅ 0 (MkCounters 0 0 0 0 0 0 0 0 0 0) 0 0 ∅ false.

(** ** Small state changes *)

Definition put (key : Key) (e : Entry) (c : Collector) : Collector :=
  c <| entries := <[key := e]> (entries c) |>.
Definition drop_entry (key : Key) (c : Collector) : Collector :=
  c <| entries := delete key (entries c) |>.
Definition close_chan (ch : Chan) (c : Collector) : Collector :=
  c <| closed := {[ch]} ∪ closed c |> <| closed_twice := closed_twice c || bool_decide (ch ∈ closed c) |>.
Definition add1 (f : Counters -> Counters) (c : Collector) : Collector := c <| counts := f (counts c) |>.
Definition offers_1 (n : Counters) := n <| n_offers := u64_succ (n_offers n) |>.
Definition accepted_1 (n : Counters) := n <| n_acceptedOffers := u64_succ (n_acceptedOffers n) |>.
Definition rejected_1 (n : Counters) := n <| n_rejectedOffers := u64_succ (n_rejectedOffers n) |>.
Definition observations_1 (n : Counters) := n <| n_observations := u64_succ (n_observations n) |>.
Definition suspect_1 (n : Counters) := n <| n_suspectResponses := u64_succ (n_suspectResponses n) |>.
Definition promotions_1 (n : Counters) := n <| n_promotions := u64_succ (n_promotions n) |>.
Definition evictions_1 (n : Counters) := n <| n_evictions := u64_succ (n_evictions n) |>.
Definition started_1 (n : Counters) := n <| n_probeStarted := u64_succ (n_probeStarted n) |>.
Definition coalesced_1 (n : Counters) := n <| n_probeCoalesced := u64_succ (n_probeCoalesced n) |>.
Definition finished_1 (n : Counters) := n <| n_probeFinished := u64_succ (n_probeFinished n) |>.

(** The lease at [key] ends: its channel is closed and its slot freed. *)
Definition end_probe (key : Key) (e : Entry) (ch : Chan) (c : Collector) : Collector :=
  let c := close_chan ch c in
  let c := put key (e <| e_probeDone := None |>) c in
  let c := if 0 <? probes c then c <| probes := probes c - 1 |> else c in
  add1 finished_1 c.

(** ** Iteration over maps

    Go visits the keys of a map in an arbitrary order: those of [order] that are keys
    first, then the others. *)
Definition iteration {K V} `{Countable K} (order : list K) (m : gmap K V) : list K :=
  let known := List.filter (fun k => bool_decide (is_Some (m !! k))) (remove_dups order) in
  known ++ List.filter (fun k => bool_decide (k ∉ known)) (map fst (map_to_list m)).

Record Orders := MkOrders {
  ord_accounts : list Z;
  ord_sweep : list Key;
  ord_evict : list Key;
  ord_siblings : list Key;
  ord_siblings_again : list Key;
}.

(** The first key with the earliest access among those that have one. *)
Fixpoint oldest {K} (access : K -> option Time) (keys : list K) (best : option (K * Time)) : option K :=
  match keys with
  | [] => fst <$> best
  | k :: keys =>
      oldest access keys
        (match access k with
         | None => best
         | Some t =>
             match best with
             | None => Some (k, t)
             | Some (_, t0) => if t <? t0 then Some (k, t) else best
             end
         end)
  end.

(** ** Accounts *)

Definition nextGenerationLocked (c : Collector) : Collector * Z :=
  let c := c <| generationSequence := u64_succ (generationSequence c) |> in
  let c := if generationSequence c =? 0 then c <| generationSequence := 1 |> else c in
  (c, generationSequence c).

Fixpoint remove_entries (keys : list Key) (accountID : Z) (countEvictions : bool) (c : Collector) : Collector :=
  match keys with
  | [] => c
  | key :: keys =>
      remove_entries keys accountID countEvictions
        (match entries c !! key with
         | Some e =>
             if negb (key_AccountID key =? accountID) then c
             else
               let c := match e_probeDone e with Some ch => end_probe key e ch c | None => c end in
               let c := drop_entry key c in
               if countEvictions then add1 evictions_1 c else c
         | None => c
         end)
  end.
Definition removeAccountLocked (accountID : Z) (countEvictions : bool) (c : Collector) : Collector :=
  let c := c <| accountGenerations := delete accountID (accountGenerations c) |> in
  remove_entries (map fst (map_to_list (entries c))) accountID countEvictions c.

Section Operations.
Context (ToLower : string -> string) (clock : Time) (ord : Orders).
Local Abbreviation Accept := (Accept clock).

Definition touch_account (accountID : Z) (current : AccountGeneration) (now : Time) (c : Collector) : Collector :=
  c <| accountGenerations := <[accountID := MkAccountGeneration (ag_value current) now]> (accountGenerations c) |>.

Definition admitAccountGenerationLocked (accountID : Z) (now : Time) (c : Collector) :
    Collector * AccountGeneration :=
  match accountGenerations c !! accountID with
  | Some current => (touch_account accountID current now c, MkAccountGeneration (ag_value current) now)
  | None =>
      let c :=
        if pol_MaxEntries (policy c) <=? Z.of_nat (size (accountGenerations c)) then
          match oldest (fun id => ag_lastAccess <$> accountGenerations c !! id)
                  (iteration (ord_accounts ord) (accountGenerations c)) None with
          | Some oldestID => removeAccountLocked oldestID true c
          | None => c
          end
        else c in
      let '(c, value) := nextGenerationLocked c in
      let generation := MkAccountGeneration value now in
      (c <| accountGenerations := <[accountID := generation]> (accountGenerations c) |>, generation)
  end.

Definition resolveKeyGenerationLocked (key : Key) (now : Time) (create : bool) (c : Collector) :
    Collector * (Key * bool) :=
  let key := canonical ToLower key in
  let current := accountGenerations c !! key_AccountID key in
  if negb (key_generation key =? 0) then
    match current with
    | Some g =>
        if negb (key_generation key =? ag_value g) then (c, (key, false))
        else (touch_account (key_AccountID key) g now c, (key, true))
    | None => (c, (key, false))
    end
  else
    match current with
    | Some g => (touch_account (key_AccountID key) g now c, (key <| key_generation := ag_value g |>, true))
    | None =>
        if negb create then (c, (key, false))
        else
          let '(c, g) := admitAccountGenerationLocked (key_AccountID key) now c in
          (c, (key <| key_generation := ag_value g |>, true))
    end.

(** ** Entries *)

Fixpoint sweep (keys : list Key) (now : Time) (limit : nat) (c : Collector) : Collector :=
  match keys, limit with
  | key :: keys', S limit' =>
      match entries c !! key with
      | Some e =>
          if match e_probeDone e with None => true | Some _ => false end && negb (IsZero (e_lastAccess e)) &&
             (pol_TTL (policy c) <? time_Sub now (e_lastAccess e))
          then sweep keys' now limit' (add1 evictions_1 (drop_entry key c))
          else sweep keys' now limit c
      | None => sweep keys' now limit c
      end
  | _, _ => c
  end.
Definition sweepLocked (now : Time) (limit : nat) (c : Collector) : Collector :=
  sweep (iteration (ord_sweep ord) (entries c)) now limit c.

(** The access time of an entry that may be evicted: one without a probe. *)
Definition evictable (c : Collector) (key : Key) : option Time :=
  e ← entries c !! key;
  match e_probeDone e with None => Some (e_lastAccess e) | Some _ => None end.

(** [entryLocked], once the key is resolved. *)
Definition find_entry (key : Key) (now : Time) (create : bool) (c : Collector) :
    Collector * option (Key * Entry) :=
  match entries c !! key with
  | Some e => let e := e <| e_lastAccess := now |> in (put key e c, Some (key, e))
  | None =>
      if negb create then (c, None)
      else
        let c := sweepLocked now 32 c in
        let add c := let e := new_entry key now in (put key e c, Some (key, e)) in
        if pol_MaxEntries (policy c) <=? Z.of_nat (size (entries c)) then
          match oldest (evictable c) (iteration (ord_evict ord) (entries c)) None with
          | None => (c, None)
          | Some oldestKey => add (add1 evictions_1 (drop_entry oldestKey c))
          end
        else add c
  end.
Definition entryLocked (key : Key) (now : Time) (create : bool) (c : Collector) :
    Collector * option (Key * Entry) :=
  let now := collectorNow clock now in
  let '(c, (key, ok)) := resolveKeyGenerationLocked key now create c in
  if negb ok then (c, None) else find_entry key now create c.

Definition promote_entry (p : Policy) (now : Time) (e : Entry) : Entry * bool :=
  if (tok_Value (sn_Token (e_ready e)) =?s "") || negb (Accept p (sn_Token (e_ready e)) now) then
    (if negb (tok_Value (sn_Token (e_ready e)) =?s "") && negb (Accept p (sn_Token (e_ready e)) now)
     then e <| e_ready := no_snapshot |> else e, false)
  else if tok_Fingerprint (sn_Token (e_active e)) =?s tok_Fingerprint (sn_Token (e_ready e)) then
    (e <| e_ready := no_snapshot |>, false)
  else
    let activeUsable := Accept p (sn_Token (e_active e)) now in
    let refreshDue :=
      if activeUsable && (0 <? pol_RefreshBefore p)
      then tok_IssuedAt (sn_Token (e_active e)) + pol_TTL p <? now + pol_RefreshBefore p
      else false in
    if negb activeUsable || (2 <=? e_strikes e) ||
       (negb (pol_HoldActive p) && refreshDue &&
        (tok_IssuedAt (sn_Token (e_active e)) <? tok_IssuedAt (sn_Token (e_ready e))))
    then
      let e := e <| e_version := u64_succ (e_version e) |> in
      let e := e <| e_ready := (e_ready e) <| sn_Version := e_version e |> |> in
      let e := e <| e_active := e_ready e |> in
      (e <| e_ready := no_snapshot |> <| e_strikes := 0 |> <| e_forceRefresh := false |>, true)
    else (e, false).
Definition promoteLocked (key : Key) (e : Entry) (now : Time) (c : Collector) : Collector * Entry :=
  let '(e, promoted) := promote_entry (policy c) now e in
  let c := put key e c in
  (if promoted then add1 promotions_1 c else c, e).

Definition needsRefreshLocked (p : Policy) (e : Entry) (now : Time) : bool :=
  if negb (Accept p (sn_Token (e_active e)) now) || (2 <=? e_strikes e) then true
  else (0 <? pol_RefreshBefore p) &&
       (tok_IssuedAt (sn_Token (e_active e)) + pol_TTL p <? now + pol_RefreshBefore p).

Definition is_sibling (key k : Key) (s : Entry) : bool :=
  negb (bool_decide (k = key) || negb (key_AccountID k =? key_AccountID key) ||
        negb (key_Model k =?s key_Model key) || negb (key_generation k =? key_generation key) ||
        e_forceRefresh s).
Fixpoint healthy_among (keys : list Key) (key : Key) (now : Time) (c : Collector) : Collector * bool :=
  match keys with
  | [] => (c, false)
  | k :: keys =>
      match entries c !! k with
      | Some s =>
          if is_sibling key k s then
            let '(c, s) := promoteLocked k s now c in
            if negb (needsRefreshLocked (policy c) s now) then (c, true) else healthy_among keys key now c
          else healthy_among keys key now c
      | None => healthy_among keys key now c
      end
  end.
Definition hasHealthyAccountModelSiblingLocked (order : list Key) (key : Key) (now : Time) (c : Collector) :
    Collector * bool :=
  healthy_among (iteration order (entries c)) key now c.

(** ** Keys and snapshots *)

Definition BindKey (key : Key) (c : Collector) : Collector * Key :=
  let key := canonical ToLower key in
  let '(c, (key, _)) := resolveKeyGenerationLocked key clock true c in (c, key).

Definition IsCurrentKey (key : Key) (c : Collector) : Collector * bool :=
  let key := canonical ToLower key in
  match accountGenerations c !! key_AccountID key with
  | Some g =>
      (touch_account (key_AccountID key) g clock c,
       negb (key_generation key =? 0) && (key_generation key =? ag_value g))
  | None => (c, false)
  end.

Definition Acquire (key : Key) (now : Time) (c : Collector) : Collector * (Snapshot * bool) :=
  let now := collectorNow clock now in
  let '(c, e) := entryLocked key now false c in
  match e with
  | None => (c, (no_snapshot, false))
  | Some (key, e) =>
      let '(c, e) := promoteLocked key e now c in
      (c, (e_active e, usable clock (e_active e) (policy c) now))
  end.

(** ** Offers *)

Definition normalizeOfferToken (token : Token) (now : Time) (c : Collector) : Collector * option Token :=
  if (tok_Value token =?s "") || (tok_Fingerprint token =?s "") then (add1 rejected_1 c, None)
  else
    match parseOpenAICodexTurnState (tok_Value token) (pol_MaxTokenBytes (policy c)) with
    | inl parsed => if Accept (policy c) parsed now then (c, Some parsed) else (add1 rejected_1 c, None)
    | inr _ => (add1 rejected_1 c, None)
    end.

Definition offerSnapshotEntryLocked (key : Key) (e : Entry) (snapshot : Snapshot) (now : Time) (c : Collector) :
    Collector :=
  let snapshot := normalizeOpenAICodexTurnStateSnapshot snapshot in
  let token := sn_Token snapshot in
  if tok_Fingerprint (sn_Token (e_active e)) =?s tok_Fingerprint token then
    let e :=
      if sn_EgressPinned snapshot || negb (sn_HarvestSessionID snapshot =?s "") ||
         match sn_HarvestCookies snapshot with [] => false | _ => true end
      then
        let e := e <| e_version := u64_succ (e_version e) |> in
        e <| e_active := snapshot <| sn_Version := e_version e |> |>
      else e in
    add1 accepted_1 (put key (e <| e_forceRefresh := false |>) c)
  else if negb (Accept (policy c) (sn_Token (e_active e)) now) then
    let e := e <| e_version := u64_succ (e_version e) |> in
    let e := e <| e_active := snapshot <| sn_Version := e_version e |> |> <| e_ready := no_snapshot |>
               <| e_strikes := 0 |> <| e_forceRefresh := false |> in
    add1 accepted_1 (add1 promotions_1 (put key e c))
  else
    let e :=
      if (tok_Value (sn_Token (e_ready e)) =?s "") || negb (Accept (policy c) (sn_Token (e_ready e)) now) ||
         negb (tok_IssuedAt token <? tok_IssuedAt (sn_Token (e_ready e)))
      then e <| e_ready := snapshot <| sn_Version := 0 |> |> else e in
    let '(c, e) := promoteLocked key e now c in
    add1 accepted_1 (put key (e <| e_candidates := u64_succ (e_candidates e) |>) c).

(** The lease that produced an offer is the entry's, and nothing has fenced it. *)
Definition lease_current (e : Entry) (probe : Probe) : bool :=
  bool_decide (e_probeDone e = pr_done probe) && (e_probeEpoch e =? pr_epoch probe) &&
  negb (e_probeInvalidated e).

Definition offerSnapshotLocked (key : Key) (snapshot : Snapshot) (now : Time) (expectedProbe : option Probe)
    (c : Collector) : Collector * bool :=
  let create := if expectedProbe is None then true else false in
  let '(c, e) := entryLocked key now create c in
  match e with
  | None => (add1 rejected_1 c, false)
  | Some (key, e) =>
      if match expectedProbe with Some probe => negb (lease_current e probe) | None => false end
      then (add1 rejected_1 c, false)
      else (offerSnapshotEntryLocked key e snapshot now c, true)
  end.

Definition OfferSnapshot (key : Key) (snapshot : Snapshot) (now : Time) (c : Collector) : Collector * bool :=
  let now := collectorNow clock now in
  let c := add1 offers_1 c in
  let '(c, token) := normalizeOfferToken (sn_Token snapshot) now c in
  match token with
  | None => (c, false)
  | Some token =>
      let snapshot := normalizeOpenAICodexTurnStateSnapshot (snapshot <| sn_Token := token |>) in
      offerSnapshotLocked key snapshot now None c
  end.
Definition Offer (key : Key) (token : Token) (route : string) (now : Time) (c : Collector) : Collector * bool :=
  let now := collectorNow clock now in
  let c := add1 offers_1 c in
  let '(c, token) := normalizeOfferToken token now c in
  match token with
  | None => (c, false)
  | Some token => offerSnapshotLocked key (token_snapshot token route) now None c
  end.
Definition OfferProbe (probe : Probe) (token : Token) (route : string) (now : Time) (c : Collector) :
    Collector * bool :=
  if pr_done probe is None then (c, false)
  else
    let now := collectorNow clock now in
    let c := add1 offers_1 c in
    let '(c, token) := normalizeOfferToken token now c in
    match token with
    | None => (c, false)
    | Some token => offerSnapshotLocked (pr_Key probe) (token_snapshot token route) now (Some probe) c
    end.

(** The tail of [offerSnapshotIfRefreshNeededLocked], once the entry is known. *)
Definition offer_if_needed (key : Key) (e : Entry) (snapshot : Snapshot) (now : Time)
    (expectedProbe : option Probe) (c : Collector) : Collector * OfferResult :=
  if match expectedProbe with Some probe => negb (lease_current e probe) | None => false end
  then (add1 rejected_1 (add1 offers_1 c), OfferRejected)
  else
    let '(c, e) := promoteLocked key e now c in
    let readyRefreshQueued :=
      Accept (policy c) (sn_Token (e_ready e)) now &&
      (tok_IssuedAt (sn_Token (e_active e)) <? tok_IssuedAt (sn_Token (e_ready e))) in
    if negb (needsRefreshLocked (policy c) e now) || readyRefreshQueued then (c, OfferSkippedHealthy)
    else
      let '(c, healthy) :=
        if e_forceRefresh e then (c, false)
        else hasHealthyAccountModelSiblingLocked (ord_siblings_again ord) (e_key e) now c in
      if healthy then (c, OfferSkippedHealthy)
      else (offerSnapshotEntryLocked key e snapshot now (add1 offers_1 c), OfferPublished).

Definition offerSnapshotIfRefreshNeededLocked (key : Key) (snapshot : Snapshot) (now : Time)
    (expectedProbe : option Probe) (c : Collector) : Collector * OfferResult :=
  let create := if expectedProbe is None then true else false in
  let reject c := (add1 rejected_1 (add1 offers_1 c), OfferRejected) in
  let '(c, (canonical, currentGeneration)) := resolveKeyGenerationLocked key now create c in
  if negb currentGeneration then reject c
  else
    match entries c !! canonical with
    | Some e =>
        let e := e <| e_lastAccess := now |> in
        offer_if_needed canonical e snapshot now expectedProbe (put canonical e c)
    | None =>
        if create then
          let '(c, healthy) := hasHealthyAccountModelSiblingLocked (ord_siblings ord) canonical now c in
          if healthy then (c, OfferSkippedHealthy)
          else
            let '(c, e) := entryLocked canonical now true c in
            match e with
            | None => reject c
            | Some (key, e) => offer_if_needed key e snapshot now expectedProbe c
            end
        else reject c
    end.

Definition OfferIfRefreshNeeded (key : Key) (token : Token) (route : string) (now : Time) (c : Collector) :
    Collector * OfferResult :=
  let now := collectorNow clock now in
  let '(c, token) := normalizeOfferToken token now c in
  match token with
  | None => (add1 offers_1 c, OfferRejected)
  | Some token => offerSnapshotIfRefreshNeededLocked key (token_snapshot token route) now None c
  end.
Definition OfferProbeIfRefreshNeeded (probe : Probe) (token : Token) (route : string) (now : Time)
    (c : Collector) : Collector * OfferResult :=
  if pr_done probe is None then (c, OfferRejected)
  else
    let now := collectorNow clock now in
    let '(c, token) := normalizeOfferToken token now c in
    match token with
    | None => (add1 offers_1 c, OfferRejected)
    | Some token =>
        offerSnapshotIfRefreshNeededLocked (pr_Key probe) (token_snapshot token route) now (Some probe) c
    end.
Definition OfferProbeSnapshotIfRefreshNeeded (probe : Probe) (snapshot : Snapshot) (now : Time)
    (c : Collector) : Collector * OfferResult :=
  if pr_done probe is None then (c, OfferRejected)
  else
    let now := collectorNow clock now in
    let '(c, token) := normalizeOfferToken (sn_Token snapshot) now c in
    match token with
    | None => (add1 offers_1 c, OfferRejected)
    | Some token =>
        let snapshot := normalizeOpenAICodexTurnStateSnapshot (snapshot <| sn_Token := token |>) in
        offerSnapshotIfRefreshNeededLocked (pr_Key probe) snapshot now (Some probe) c
    end.

Definition ProbeCurrent (probe : Probe) (c : Collector) : Collector * bool :=
  if pr_done probe is None then (c, false)
  else
    let '(c, (key, ok)) := resolveKeyGenerationLocked (pr_Key probe) clock false c in
    if negb ok then (c, false)
    else (c, match entries c !! key with Some e => lease_current e probe | None => false end).

Definition OfferValue (key : Key) (value route : string) (now : Time) (c : Collector) :
    Collector * (option Token * bool * option TurnStateError) :=
  match parseOpenAICodexTurnState value (pol_MaxTokenBytes (policy c)) with
  | inr err => (add1 rejected_1 (add1 offers_1 c), (None, false, Some err))
  | inl token =>
      if (0 <? pol_Blocks (policy c)) && negb (tok_Blocks token =? pol_Blocks (policy c))
      then (add1 rejected_1 (add1 offers_1 c), (Some token, false, Some ErrShape))
      else if negb (Accept (policy c) token (collectorNow clock now))
      then (add1 rejected_1 (add1 offers_1 c), (Some token, false, Some ErrExpired))
      else
        let '(c, ok) := Offer key token route now c in
        if negb ok then (c, (Some token, false, Some ErrShape)) else (c, (Some token, true, None))
  end.

(** ** Observations *)

Definition same_active (used : Snapshot) (e : Entry) : bool :=
  (sn_Version used =? sn_Version (e_active e)) &&
  (tok_Fingerprint (sn_Token used) =?s tok_Fingerprint (sn_Token (e_active e))).

Definition ObserveQualified (key : Key) (value : string) (used : Snapshot) (cookies : list Cookie)
    (now : Time) (c : Collector) : Collector * bool :=
  if (TrimSpace value =?s "") || (sn_Route used =?s "client") then (c, false)
  else
    let now := collectorNow clock now in
    match ValidateOpenAICodexTurnState clock value (policy c) now with
    | inr _ => (c, false)
    | inl token =>
        let '(c, e) := entryLocked key now false c in
        match e with
        | None => (c, false)
        | Some (key, e) =>
            if negb (same_active used e) then (c, false)
            else
              let e := e <| e_observed := u64_succ (e_observed e) |> in
              let c := add1 observations_1 c in
              let some_cookies := match cookies with [] => false | _ => true end in
              let next := (e_active e) <| sn_Token := token |> in
              let next :=
                if some_cookies then
                  let currentCookies :=
                    if cookiesFresh clock (e_active e) now then sn_HarvestCookies (e_active e) else [] in
                  next <| sn_HarvestCookies := mergeOpenAICodexTurnStateCookies currentCookies cookies |>
                       <| sn_HarvestCookiesAt := now |>
                else next in
              let changed :=
                negb (tok_Fingerprint token =?s tok_Fingerprint (sn_Token (e_active e))) || some_cookies in
              let '(c, e) :=
                if changed then
                  let e := e <| e_version := u64_succ (e_version e) |> in
                  let e := e <| e_active := next <| sn_Version := e_version e |> |>
                             <| e_ready := no_snapshot |>
                             <| e_candidates := u64_succ (e_candidates e) |> in
                  (add1 promotions_1 c, e)
                else (c, e) in
              (put key (e <| e_strikes := 0 |> <| e_forceRefresh := false |>) c, true)
        end
    end.

Definition Observe (key : Key) (value : string) (used : Snapshot) (now : Time) (c : Collector) :
    Collector * bool :=
  if TrimSpace value =?s "" then (c, false)
  else
    let now := collectorNow clock now in
    let c := add1 observations_1 c in
    let token := parseOpenAICodexTurnState value (pol_MaxTokenBytes (policy c)) in
    let failed := if token is inl _ then false else true in
    let '(c, e) := entryLocked key now false c in
    match e with
    | None => (if failed then add1 suspect_1 c else c, failed)
    | Some (key, e) =>
        let e := e <| e_observed := u64_succ (e_observed e) |> in
        let suspect := match token with inl token => negb (Accept (policy c) token now) | inr _ => true end in
        let e :=
          if same_active used e
          then e <| e_strikes := (if suspect then e_strikes e + 1 else 0) |> else e in
        let c := put key e c in
        (if suspect then add1 suspect_1 c else c, suspect)
    end.

Definition ObserveMissing (key : Key) (used : Snapshot) (now : Time) (c : Collector) : Collector * bool :=
  let now := collectorNow clock now in
  let c := add1 suspect_1 (add1 observations_1 c) in
  let '(c, e) := entryLocked key now false c in
  match e with
  | None => (c, true)
  | Some (key, e) =>
      let e := e <| e_observed := u64_succ (e_observed e) |> in
      let e := if same_active used e then e <| e_strikes := e_strikes e + 1 |> else e in
      (put key e c, true)
  end.

Definition RejectAndPromote (key : Key) (used : Snapshot) (now : Time) (c : Collector) : Collector * bool :=
  let now := collectorNow clock now in
  let '(c, e) := entryLocked key now false c in
  match e with
  | None => (c, false)
  | Some (key, e) =>
      if negb (same_active used e) then (c, false)
      else
        let e := e <| e_active := no_snapshot |> <| e_strikes := 0 |> in
        let '(c, e) := promoteLocked key e now c in
        (c, Accept (policy c) (sn_Token (e_active e)) now)
  end.

(** A probe in flight may not publish what it is reading any more. *)
Definition fence (e : Entry) : Entry :=
  match e_probeDone e with
  | Some _ => e <| e_probeInvalidated := true |> <| e_probeEpoch := u64_succ (e_probeEpoch e) |>
  | None => e
  end.
(** The state of an entry goes, and the next collection is forced. *)
Definition force_refresh (e : Entry) : Entry :=
  e <| e_active := no_snapshot |> <| e_ready := no_snapshot |> <| e_nextProbe := 0 |> <| e_strikes := 0 |>
    <| e_version := u64_succ (e_version e) |> <| e_forceRefresh := true |>.

Definition Invalidate (key : Key) (used : Snapshot) (now : Time) (c : Collector) : Collector * bool :=
  let now := collectorNow clock now in
  let '(c, e) := entryLocked key now false c in
  match e with
  | None => (c, false)
  | Some (key, e) =>
      let e := fence e in
      if negb (same_active used e) then (put key e c, false)
      else (put key (force_refresh e) c, true)
  end.

Definition NeedsRefresh (key : Key) (now : Time) (c : Collector) : Collector * bool :=
  let now := collectorNow clock now in
  let '(c, e) := entryLocked key now false c in
  match e with
  | None => (c, true)
  | Some (key, e) =>
      let '(c, e) := promoteLocked key e now c in (c, needsRefreshLocked (policy c) e now)
  end.

(** ** Status *)

Record Status := MkStatus {
  st_Key : Key; st_Usable : bool; st_Ready : bool; st_Version : Z; st_Strikes : Z; st_Candidates : Z;
  st_Observations : Z; st_ActiveFingerprint : string; st_ReadyFingerprint : string;
  st_ActiveIssuedAt : Time; st_ReadyIssuedAt : Time; st_RemainingSeconds : Z; st_CookieCount : Z;
  st_CookieRemainingSeconds : Z; st_CookieExpired : bool; st_LastProbeAt : Time; st_NextProbeAt : Time;
  st_ProbeInFlight : bool;
}.
Definition no_status (key : Key) : Status :=
  MkStatus key false false 0 0 0 0 "" "" 0 0 0 0 0 false 0 0 false.

Definition openAICodexTurnStateStatus (e : Entry) (p : Policy) (now : Time) : Status :=
  let active := sn_Token (e_active e) in
  let ready := sn_Token (e_ready e) in
  let isUsable := Accept p active now in
  let seconds := Z.quot (time_Sub (tok_IssuedAt active + pol_TTL p) now) Second in
  let count := Z.of_nat (length (sn_HarvestCookies (e_active e))) in
  let fresh := cookiesFresh clock (e_active e) now in
  let remaining := time_Sub (sn_HarvestCookiesAt (e_active e) + openAICodexTurnStateCookieTTL) now in
  MkStatus (e_key e) isUsable (Accept p ready now) (e_version e) (e_strikes e) (e_candidates e) (e_observed e)
    (tok_Fingerprint active) (tok_Fingerprint ready) (tok_IssuedAt active) (tok_IssuedAt ready)
    (if isUsable && (0 <? seconds) then seconds else 0) count
    (if (0 <? count) && fresh then Z.quot (remaining + Second - 1) Second else 0)
    ((0 <? count) && negb fresh) (e_lastProbe e) (e_nextProbe e)
    (if e_probeDone e is Some _ then true else false).

Definition status_of (key : Key) (now : Time) (c : Collector) : Collector * Status :=
  let now := collectorNow clock now in
  let '(c, e) := entryLocked key now false c in
  match e with
  | None => (c, no_status (canonical ToLower key))
  | Some (key, e) =>
      let '(c, e) := promoteLocked key e now c in (c, openAICodexTurnStateStatus e (policy c) now)
  end.

Definition key_before (a b : Key) : bool :=
  if negb (key_AccountID a =? key_AccountID b) then key_AccountID a <? key_AccountID b
  else if negb (key_Model a =?s key_Model b) then String.ltb (key_Model a) (key_Model b)
  else String.ltb (key_Scope a) (key_Scope b).
Definition key_le (a b : Key) : Prop := key_before b a = false.
#[local] Instance key_le_dec : RelDecision key_le.
Proof. intros a b. unfold key_le. apply _. Defined.
Fixpoint statuses (keys : list Key) (now : Time) (c : Collector) : Collector * list Status :=
  match keys with
  | [] => (c, [])
  | key :: keys =>
      match entries c !! key with
      | Some e =>
          let '(c, e) := promoteLocked key e now c in
          let s := openAICodexTurnStateStatus e (policy c) now in
          let '(c, l) := statuses keys now c in (c, s :: l)
      | None => statuses keys now c
      end
  end.
Definition Statuses (now : Time) (limit : Z) (c : Collector) : Collector * list Status :=
  let limit := if (limit <=? 0) || (65536 <? limit) then 1024 else limit in
  let now := collectorNow clock now in
  let c := sweepLocked now 64 c in
  let keys := merge_sort key_le (map fst (map_to_list (entries c))) in
  statuses (take (Z.to_nat limit) keys) now c.

Definition Metrics (c : Collector) : Z * Counters := (Z.of_nat (size (entries c)), counts c).

(** ** Probes *)

(** The lease itself: a new epoch and a new channel. *)
Definition start_probe (key : Key) (e : Entry) (now : Time) (c : Collector) : Collector * Probe :=
  let e := e <| e_lastProbe := now |> <| e_probeEpoch := u64_succ (e_probeEpoch e) |> in
  let e := if e_probeEpoch e =? 0 then e <| e_probeEpoch := 1 |> else e in
  let ch := made c in
  let e := e <| e_probeInvalidated := false |> <| e_probeDone := Some ch |> in
  let c := put key e (c <| made := S ch |>) in
  let c := add1 started_1 (c <| probes := probes c + 1 |>) in
  (c, MkProbe (e_key e) now (Some ch) (e_probeEpoch e)).

Definition StartProbe (key : Key) (now : Time) (c : Collector) : Collector * (Probe * bool) :=
  let now := collectorNow clock now in
  let '(c, e) := entryLocked key now true c in
  match e with
  | None => (c, (no_probe, false))
  | Some (key, e) =>
      if e_probeDone e is Some _ then (add1 coalesced_1 c, (no_probe, false))
      else if pol_MaxProbeSlots (policy c) <=? probes c then (add1 coalesced_1 c, (no_probe, false))
      else if negb (IsZero (e_nextProbe e)) && (now <? e_nextProbe e) then (c, (no_probe, false))
      else let '(c, probe) := start_probe key e now c in (c, (probe, true))
  end.

(** The tail of [StartProbeIfRefreshNeeded], once the entry is known. *)
Definition start_if_needed (key : Key) (e : Entry) (now : Time) (c : Collector) :
    Collector * (Probe * ProbeStartResult) :=
  let '(c, e) := promoteLocked key e now c in
  if negb (needsRefreshLocked (policy c) e now) then (c, (no_probe, ProbeSkippedHealthy))
  else
    let '(c, healthy) :=
      if e_forceRefresh e then (c, false)
      else hasHealthyAccountModelSiblingLocked (ord_siblings_again ord) (e_key e) now c in
    if healthy then (c, (no_probe, ProbeSkippedAccountModelHealthy))
    else if e_probeDone e is Some _ then (add1 coalesced_1 c, (no_probe, ProbeInFlight))
    else if pol_MaxProbeSlots (policy c) <=? probes c then (c, (no_probe, ProbeCapacity))
    else if negb (IsZero (e_nextProbe e)) && (now <? e_nextProbe e) then (c, (no_probe, ProbeCooldown))
    else let '(c, probe) := start_probe key e now c in (c, (probe, ProbeStarted)).
Definition StartProbeIfRefreshNeeded (key : Key) (now : Time) (c : Collector) :
    Collector * (Probe * ProbeStartResult) :=
  let now := collectorNow clock now in
  let '(c, (canonical, currentGeneration)) := resolveKeyGenerationLocked key now true c in
  if negb currentGeneration then (c, (no_probe, ProbeStartUnavailable))
  else
    match entries c !! canonical with
    | Some e =>
        let e := e <| e_lastAccess := now |> in start_if_needed canonical e now (put canonical e c)
    | None =>
        let '(c, healthy) := hasHealthyAccountModelSiblingLocked (ord_siblings ord) canonical now c in
        if healthy then (c, (no_probe, ProbeSkippedAccountModelHealthy))
        else
          let '(c, e) := entryLocked canonical now true c in
          match e with
          | None => (c, (no_probe, ProbeCapacity))
          | Some (key, e) => start_if_needed key e now c
          end
    end.

(** The entry whose lease [probe] is, fenced or not. *)
Definition leased (probe : Probe) (key : Key) (c : Collector) : option (Entry * Chan) :=
  match entries c !! key, pr_done probe with
  | Some e, Some ch => if bool_decide (e_probeDone e = Some ch) then Some (e, ch) else None
  | _, _ => None
  end.
Definition lease_fenced (e : Entry) (probe : Probe) : bool :=
  e_probeInvalidated e || negb (e_probeEpoch e =? pr_epoch probe).
(** What is left of the entry of a fenced lease. *)
Definition refresh_fenced (e : Entry) : Entry :=
  e <| e_probeDone := None |> <| e_probeInvalidated := false |> <| e_forceRefresh := true |> <| e_nextProbe := 0 |>.

Definition FinishProbe (probe : Probe) (now : Time) (c : Collector) : Collector :=
  if pr_done probe is None then c
  else
    let '(c, (key, ok)) := resolveKeyGenerationLocked (pr_Key probe) (collectorNow clock now) false c in
    if negb ok then c
    else
      match leased probe key c with
      | None => c
      | Some (e, ch) =>
          let c := end_probe key e ch c in
          if lease_fenced e probe then put key (refresh_fenced e) c
          else
            put key (e <| e_probeDone := None |>
                       <| e_nextProbe := collectorNow clock now + pol_ProbeCooldown (policy c) |>
                       <| e_probeInvalidated := false |>) c
      end.

Definition AbortProbe (probe : Probe) (now : Time) (c : Collector) : Collector :=
  if pr_done probe is None then c
  else
    let now := collectorNow clock now in
    let '(c, (key, ok)) := resolveKeyGenerationLocked (pr_Key probe) now false c in
    if negb ok then c
    else
      match leased probe key c with
      | None => c
      | Some (e, ch) =>
          let c := end_probe key e ch c in
          if lease_fenced e probe then put key (refresh_fenced e) c
          else if e_forceRefresh e then put key (e <| e_probeDone := None |> <| e_nextProbe := 0 |>) c
          else if negb (usable clock (e_active e) (policy c) now) && negb (usable clock (e_ready e) (policy c) now)
          then drop_entry key c
          else c
      end.

(** The channel [WaitProbe] waits for; it returns at once when there is none. *)
Definition WaitProbe (key : Key) (c : Collector) : Collector * option Chan :=
  let '(c, (key, ok)) := resolveKeyGenerationLocked key clock false c in
  (c, if ok then e ← entries c !! key; e_probeDone e else None).

(** ** Deletion *)

Definition Delete (key : Key) (c : Collector) : Collector :=
  let '(c, (key, ok)) := resolveKeyGenerationLocked key clock false c in
  if negb ok then c
  else
    match entries c !! key with
    | Some e =>
        if e_probeDone e is Some _ then
          put key ((fence e) <| e_active := no_snapshot |> <| e_ready := no_snapshot |> <| e_strikes := 0 |>
                     <| e_version := u64_succ (e_version e) |>) c
        else drop_entry key c
    | None => drop_entry key c
    end.

Definition DeleteAndForceRefresh (key : Key) (c : Collector) : Collector :=
  let '(c, e) := entryLocked key clock true c in
  match e with
  | None => c
  | Some (key, e) => put key (force_refresh (fence e)) c
  end.

Definition DeleteAccount (accountID : Z) (c : Collector) : Collector :=
  if accountID <=? 0 then c else removeAccountLocked accountID false c.

Fixpoint end_all (keys : list Key) (c : Collector) : Collector :=
  match keys with
  | [] => c
  | key :: keys =>
      end_all keys
        (match entries c !! key with
         | Some e => match e_probeDone e with Some ch => end_probe key e ch c | None => c end
         | None => c
         end)
  end.
Definition DeleteAll (c : Collector) : Collector :=
  let c := end_all (map fst (map_to_list (entries c))) c in
  c <| entries := ∅ |> <| accountGenerations := ∅ |> <| probes := 0 |>.
End Operations.

(** ** The collector's life *)

Inductive operation :=
  | OpBindKey (key : Key)
  | OpIsCurrentKey (key : Key)
  | OpAcquire (key : Key) (now : Time)
  | OpOfferSnapshot (key : Key) (snapshot : Snapshot) (now : Time)
  | OpOffer (key : Key) (token : Token) (route : string) (now : Time)
  | OpOfferProbe (probe : Probe) (token : Token) (route : string) (now : Time)
  | OpOfferIfRefreshNeeded (key : Key) (token : Token) (route : string) (now : Time)
  | OpOfferProbeIfRefreshNeeded (probe : Probe) (token : Token) (route : string) (now : Time)
  | OpOfferProbeSnapshotIfRefreshNeeded (probe : Probe) (snapshot : Snapshot) (now : Time)
  | OpProbeCurrent (probe : Probe)
  | OpOfferValue (key : Key) (value route : string) (now : Time)
  | OpObserveQualified (key : Key) (value : string) (used : Snapshot) (cookies : list Cookie) (now : Time)
  | OpObserve (key : Key) (value : string) (used : Snapshot) (now : Time)
  | OpObserveMissing (key : Key) (used : Snapshot) (now : Time)
  | OpRejectAndPromote (key : Key) (used : Snapshot) (now : Time)
  | OpInvalidate (key : Key) (used : Snapshot) (now : Time)
  | OpNeedsRefresh (key : Key) (now : Time)
  | OpStatus (key : Key) (now : Time)
  | OpStatuses (now : Time) (limit : Z)
  | OpStartProbe (key : Key) (now : Time)
  | OpStartProbeIfRefreshNeeded (key : Key) (now : Time)
  | OpFinishProbe (probe : Probe) (now : Time)
  | OpAbortProbe (probe : Probe) (now : Time)
  | OpWaitProbe (key : Key)
  | OpDelete (key : Key)
  | OpDeleteAndForceRefresh (key : Key)
  | OpDeleteAccount (accountID : Z)
  | OpDeleteAll.

Definition perform (ToLower : string -> string) (clock : Time) (ord : Orders) (o : operation)
    (c : Collector) : Collector :=
  match o with
  | OpBindKey k => (BindKey ToLower clock ord k c).1
  | OpIsCurrentKey k => (IsCurrentKey ToLower clock k c).1
  | OpAcquire k now => (Acquire ToLower clock ord k now c).1
  | OpOfferSnapshot k s now => (OfferSnapshot ToLower clock ord k s now c).1
  | OpOffer k t r now => (Offer ToLower clock ord k t r now c).1
  | OpOfferProbe p t r now => (OfferProbe ToLower clock ord p t r now c).1
  | OpOfferIfRefreshNeeded k t r now => (OfferIfRefreshNeeded ToLower clock ord k t r now c).1
  | OpOfferProbeIfRefreshNeeded p t r now => (OfferProbeIfRefreshNeeded ToLower clock ord p t r now c).1
  | OpOfferProbeSnapshotIfRefreshNeeded p s now =>
      (OfferProbeSnapshotIfRefreshNeeded ToLower clock ord p s now c).1
  | OpProbeCurrent p => (ProbeCurrent ToLower clock ord p c).1
  | OpOfferValue k v r now => (OfferValue ToLower clock ord k v r now c).1
  | OpObserveQualified k v u cs now => (ObserveQualified ToLower clock ord k v u cs now c).1
  | OpObserve k v u now => (Observe ToLower clock ord k v u now c).1
  | OpObserveMissing k u now => (ObserveMissing ToLower clock ord k u now c).1
  | OpRejectAndPromote k u now => (RejectAndPromote ToLower clock ord k u now c).1
  | OpInvalidate k u now => (Invalidate ToLower clock ord k u now c).1
  | OpNeedsRefresh k now => (NeedsRefresh ToLower clock ord k now c).1
  | OpStatus k now => (status_of ToLower clock ord k now c).1
  | OpStatuses now limit => (Statuses clock ord now limit c).1
  | OpStartProbe k now => (StartProbe ToLower clock ord k now c).1
  | OpStartProbeIfRefreshNeeded k now => (StartProbeIfRefreshNeeded ToLower clock ord k now c).1
  | OpFinishProbe p now => FinishProbe ToLower clock ord p now c
  | OpAbortProbe p now => AbortProbe ToLower clock ord p now c
  | OpWaitProbe k => (WaitProbe ToLower clock ord k c).1
  | OpDelete k => Delete ToLower clock ord k c
  | OpDeleteAndForceRefresh k => DeleteAndForceRefresh ToLower clock ord k c
  | OpDeleteAccount a => DeleteAccount a c
  | OpDeleteAll => DeleteAll c
  end.

(** One operation of any caller, at any time and in any iteration orders. *)
Inductive collector_step (ToLower : string -> string) : Collector -> Collector -> Prop :=
  | collector_op clock ord o c : collector_step ToLower c (perform ToLower clock ord o c).
