(* ===== verification/TurnStateInvariants.v ===== *)
(** * Invariants of the turn state collector

    The small steps every operation is made of ([micro]), and what each of them keeps:
    the bounds, the leases and their channels, the generations of accounts, and the
    well-formedness of what is stored. *)

From S2P Require Import Prelude Json Encoding TurnState TurnStateCollector.
Local Open Scope string_scope.
Local Open Scope Z_scope.
Local Open Scope list_scope.
Local Open Scope go_scope.

(** ** What is stored *)

(** A token that came out of the parser and has the shape the policy asks for. *)
Definition good_token (p : Policy) (t : Token) : Prop :=
  t = no_token \/
  ((exists v m, parseOpenAICodexTurnState v m = inl t) /\ (0 < pol_Blocks p -> tok_Blocks t = pol_Blocks p)).
Definition good_snapshot (p : Policy) (s : Snapshot) : Prop :=
  good_token p (sn_Token s) /\ (length (sn_HarvestCookies s) <= openAICodexTurnStateMaxCookies)%nat.
Definition good_entry (p : Policy) (e : Entry) : Prop :=
  good_snapshot p (e_active e) /\ good_snapshot p (e_ready e).

Lemma good_no_snapshot p : good_snapshot p no_snapshot.
Proof. split; [by left|simpl; lia]. Qed.
Lemma good_new p key now : good_entry p (new_entry key now).
Proof. split; apply good_no_snapshot. Qed.

(** ** The invariant *)

Definition in_flight (c : Collector) : gmap Key Chan := omap e_probeDone (entries c).

(** The account's generation is the key's. *)
Definition current (k : Key) (c : Collector) : Prop :=
  exists g, accountGenerations c !! key_AccountID k = Some g /\ ag_value g = key_generation k.

Record core (c : Collector) : Prop := {
  core_slots : 0 < pol_MaxProbeSlots (policy c) <= 64;
  core_room : 0 < pol_MaxEntries (policy c) <= 65536;
  core_size : Z.of_nat (size (entries c)) <= pol_MaxEntries (policy c);
  core_probes : probes c = Z.of_nat (size (in_flight c));
  core_limit : probes c <= pol_MaxProbeSlots (policy c);
  core_keys : map_Forall (fun k e => e_key e = k /\ good_entry (policy c) e) (entries c);
  core_open : forall k (ch : Chan), in_flight c !! k = Some ch -> (ch < made c)%nat /\ ch ∉ closed c;
  core_distinct : forall k k' (ch : Chan), in_flight c !! k = Some ch -> in_flight c !! k' = Some ch -> k = k';
  core_released : forall ch : Chan, (ch < made c)%nat -> ch ∈ closed c \/ exists k, in_flight c !! k = Some ch;
  core_made : forall ch : Chan, ch ∈ closed c -> (ch < made c)%nat;
  core_once : closed_twice c = false;
}.
Record wf (c : Collector) : Prop := {
  wf_core : core c;
  wf_accounts : Z.of_nat (size (accountGenerations c)) <= pol_MaxEntries (policy c);
  wf_current : forall k e, entries c !! k = Some e -> current k c;
  wf_nonzero : forall a g, accountGenerations c !! a = Some g -> ag_value g <> 0;
}.

(** ** Small steps *)

(** The lease of an entry: its channel, epoch and fence. *)
Definition lease (e : Entry) : option Chan * Z * bool := (e_probeDone e, e_probeEpoch e, e_probeInvalidated e).

Inductive micro : Collector -> Collector -> Prop :=
  | micro_count f c : micro c (add1 f c)
  | micro_touch a g now c :
      accountGenerations c !! a = Some g -> micro c (touch_account a g now c)
  | micro_remove a b c : micro c (removeAccountLocked a b c)
  | micro_admit a now c :
      accountGenerations c !! a = None ->
      Z.of_nat (size (accountGenerations c)) < pol_MaxEntries (policy c) ->
      let c' := (nextGenerationLocked c).1 in
      micro c (c' <| accountGenerations :=
        <[a := MkAccountGeneration (nextGenerationLocked c).2 now]> (accountGenerations c') |>)
  | micro_drop k e c :
      entries c !! k = Some e -> e_probeDone e = None -> micro c (drop_entry k c)
  | micro_new k now c :
      entries c !! k = None -> Z.of_nat (size (entries c)) < pol_MaxEntries (policy c) -> current k c ->
      micro c (put k (new_entry k now) c)
  | micro_put k e e' c :
      entries c !! k = Some e -> e_key e' = e_key e -> lease e' = lease e ->
      (good_entry (policy c) e -> good_entry (policy c) e') -> micro c (put k e' c)
  | micro_fence k e e' c :
      entries c !! k = Some e -> e_key e' = e_key e -> e_probeDone e' = e_probeDone e ->
      e_probeInvalidated e' = true ->
      (good_entry (policy c) e -> good_entry (policy c) e') -> micro c (put k e' c)
  | micro_end k e ch e' c :
      entries c !! k = Some e -> e_probeDone e = Some ch -> e_key e' = e_key e -> e_probeDone e' = None ->
      (good_entry (policy c) e -> good_entry (policy c) e') ->
      micro c (put k e' (end_probe k e ch c))
  | micro_start k e now c :
      entries c !! k = Some e -> e_probeDone e = None -> probes c < pol_MaxProbeSlots (policy c) ->
      micro c (start_probe k e now c).1
  | micro_clear c : micro c (DeleteAll c).

(** ** Leases *)

Lemma in_flight_lookup c k : in_flight c !! k = (entries c !! k) ≫= e_probeDone.
Proof. apply lookup_omap. Qed.
Lemma in_flight_Some c k ch :
  in_flight c !! k = Some ch <-> exists e, entries c !! k = Some e /\ e_probeDone e = Some ch.
Proof. rewrite in_flight_lookup. apply bind_Some. Qed.
Lemma in_flight_same k e e' c :
  entries c !! k = Some e -> e_probeDone e' = e_probeDone e -> in_flight (put k e' c) = in_flight c.
Proof.
  intros Hk Hd. apply map_eq. intros i. rewrite !in_flight_lookup. unfold put; simpl.
  destruct (decide (i = k)) as [->|Hi].
  - rewrite lookup_insert_eq, Hk. by simpl.
  - by rewrite lookup_insert_ne.
Qed.
Lemma in_flight_off k e' c :
  e_probeDone e' = None -> in_flight (put k e' c) = delete k (in_flight c).
Proof.
  intros Hd. apply map_eq. intros i. rewrite in_flight_lookup. unfold put; simpl.
  destruct (decide (i = k)) as [->|Hi].
  - rewrite lookup_insert_eq, lookup_delete_eq. by simpl.
  - rewrite lookup_insert_ne, lookup_delete_ne by done. by rewrite in_flight_lookup.
Qed.
Lemma in_flight_on k e' ch c :
  e_probeDone e' = Some ch -> in_flight (put k e' c) = <[k := ch]> (in_flight c).
Proof.
  intros Hd. apply map_eq. intros i. rewrite in_flight_lookup. unfold put; simpl.
  destruct (decide (i = k)) as [->|Hi].
  - rewrite !lookup_insert_eq. by simpl.
  - rewrite !lookup_insert_ne by done. by rewrite in_flight_lookup.
Qed.
Lemma in_flight_drop k c : in_flight (drop_entry k c) = delete k (in_flight c).
Proof. unfold in_flight, drop_entry; simpl. apply omap_delete. Qed.
Lemma in_flight_none c k e : entries c !! k = Some e -> e_probeDone e = None -> in_flight c !! k = None.
Proof. intros Hk Hd. rewrite in_flight_lookup, Hk. by simpl. Qed.

(** ** Each step keeps the core *)

(** Steps that leave the channels and the in-flight leases alone. *)
Lemma core_same c c' :
  core c -> policy c' = policy c -> in_flight c' = in_flight c -> probes c' = probes c ->
  made c' = made c -> closed c' = closed c -> closed_twice c' = closed_twice c ->
  Z.of_nat (size (entries c')) <= pol_MaxEntries (policy c) ->
  map_Forall (fun k e => e_key e = k /\ good_entry (policy c) e) (entries c') -> core c'.
Proof.
  intros [] Hp Hf Hn Hm Hc Ht Hs Hk. constructor; rewrite ?Hp, ?Hf, ?Hn, ?Hm, ?Hc, ?Ht; done.
Qed.
Lemma core_add1 f c : core c -> core (add1 f c).
Proof. intros Hc. pose proof Hc as []. by apply (core_same c). Qed.
Lemma core_put k e e' c :
  core c -> entries c !! k = Some e -> e_key e' = e_key e -> e_probeDone e' = e_probeDone e ->
  (good_entry (policy c) e -> good_entry (policy c) e') -> core (put k e' c).
Proof.
  intros Hc Hk Hkey Hd Hg. pose proof Hc as []. apply (core_same c); try done.
  - by eapply in_flight_same.
  - unfold put; simpl. rewrite map_size_insert_Some; [done|by eexists].
  - unfold put; simpl. apply map_Forall_insert_2; [|done].
    destruct (core_keys0 k e Hk) as [<- Hge]. auto.
Qed.
Lemma core_drop k e c :
  core c -> entries c !! k = Some e -> e_probeDone e = None -> core (drop_entry k c).
Proof.
  intros Hc Hk Hd. pose proof Hc as []. apply (core_same c); try done.
  - rewrite in_flight_drop. apply delete_id. by eapply in_flight_none.
  - unfold drop_entry; simpl. rewrite map_size_delete, Hk. lia.
  - unfold drop_entry; simpl. by apply map_Forall_delete.
Qed.
Lemma core_new k now c :
  core c -> entries c !! k = None -> Z.of_nat (size (entries c)) < pol_MaxEntries (policy c) ->
  core (put k (new_entry k now) c).
Proof.
  intros Hc Hk Hs. pose proof Hc as []. apply (core_same c); try done.
  - rewrite in_flight_off by done. apply delete_id. by rewrite in_flight_lookup, Hk.
  - unfold put; simpl. rewrite map_size_insert_None by done. lia.
  - unfold put; simpl. apply map_Forall_insert_2; [|done]. split; [done|apply good_new].
Qed.

Lemma end_probe_flight k e ch c : in_flight (end_probe k e ch c) = delete k (in_flight c).
Proof.
  unfold end_probe, add1, close_chan. set (c1 := put k _ _).
  assert (Hc1 : in_flight c1 = delete k (in_flight c)) by (unfold c1; by rewrite in_flight_off).
  destruct (0 <? probes c1); exact Hc1.
Qed.
Lemma end_probe_entries k e ch c :
  entries (end_probe k e ch c) = <[k := e <| e_probeDone := None |>]> (entries c).
Proof. unfold end_probe, add1, close_chan, put. simpl. by destruct (0 <? probes c). Qed.
Lemma end_probe_same k e ch c :
  policy (end_probe k e ch c) = policy c /\ accountGenerations (end_probe k e ch c) = accountGenerations c /\
  generationSequence (end_probe k e ch c) = generationSequence c /\ made (end_probe k e ch c) = made c.
Proof. unfold end_probe, add1, close_chan, put. simpl. by destruct (0 <? probes c). Qed.

Lemma core_end_probe k e ch c :
  core c -> entries c !! k = Some e -> e_probeDone e = Some ch -> core (end_probe k e ch c).
Proof.
  intros Hc Hk Hd. pose proof Hc as [].
  assert (Hf : in_flight c !! k = Some ch) by (rewrite in_flight_Some; eauto).
  assert (Hpos : (0 < size (in_flight c))%nat).
  { destruct (size (in_flight c)) eqn:E; [|lia]. apply map_size_empty_inv in E. by rewrite E in Hf. }
  assert (Hprobes : probes (end_probe k e ch c) = probes c - 1).
  { unfold end_probe, add1, close_chan, put. simpl. by replace (0 <? probes c) with true by lia. }
  assert (Hclosed : closed (end_probe k e ch c) = {[ch]} ∪ closed c)
    by (unfold end_probe, add1, close_chan, put; simpl; by destruct (0 <? probes c)).
  assert (Htwice : closed_twice (end_probe k e ch c) = closed_twice c || bool_decide (ch ∈ closed c))
    by (unfold end_probe, add1, close_chan, put; simpl; by destruct (0 <? probes c)).
  destruct (end_probe_same k e ch c) as (Hp & _ & _ & Hm). destruct (core_open0 _ _ Hf) as [Hlt Hnot].
  constructor; rewrite ?Hp, ?Hm, ?Hclosed, ?Htwice, ?Hprobes, ?end_probe_flight, ?end_probe_entries; try done.
  - rewrite map_size_insert_Some; [done|by eexists].
  - rewrite map_size_delete, Hf. lia.
  - lia.
  - apply map_Forall_insert_2; [|done]. destruct (core_keys0 k e Hk) as [Hkey Hge]. by split.
  - intros k' ch' Hl. apply lookup_delete_Some in Hl as [Hne Hl]. destruct (core_open0 _ _ Hl) as [? ?].
    split; [done|]. intros [->%elem_of_singleton|?]%elem_of_union; [|done].
    by apply Hne, (core_distinct0 _ _ ch).
  - intros k1 k2 ch' [_ H1]%lookup_delete_Some [_ H2]%lookup_delete_Some. by apply (core_distinct0 _ _ ch').
  - intros ch' Hlt'. destruct (core_released0 ch' Hlt') as [?|[k' Hk']]; [set_solver|].
    destruct (decide (k = k')) as [<-|Hne].
    + left. rewrite Hf in Hk'. injection Hk' as ->. set_solver.
    + right. exists k'. by rewrite lookup_delete_ne.
  - intros ch' [->%elem_of_singleton|?]%elem_of_union; auto.
  - rewrite core_once0, bool_decide_false by done. done.
Qed.
Lemma core_start k e now c :
  core c -> entries c !! k = Some e -> e_probeDone e = None -> probes c < pol_MaxProbeSlots (policy c) ->
  core (start_probe k e now c).1.
Proof.
  intros Hc Hk Hd Hlim. pose proof Hc as [].
  pose proof (in_flight_none _ _ _ Hk Hd) as Hf. unfold start_probe. cbv zeta. simpl.
  set (e1 := e <| e_lastProbe := now |> <| e_probeEpoch := u64_succ (e_probeEpoch e) |>).
  set (e2 := if u64_succ (e_probeEpoch e) =? 0 then e1 <| e_probeEpoch := 1 |> else e1).
  set (e3 := e2 <| e_probeInvalidated := false |> <| e_probeDone := Some (made c) |>).
  set (c1 := put k e3 (c <| made := S (made c) |>)).
  assert (He3 : e_key e3 = e_key e /\ e_active e3 = e_active e /\ e_ready e3 = e_ready e)
    by (unfold e3, e2; by destruct (u64_succ _ =? 0)).
  assert (Hfl : in_flight c1 = <[k := made c]> (in_flight c)) by (exact (in_flight_on k e3 (made c) (c <| made := S (made c) |>) eq_refl)).
  change (core (add1 started_1 (c1 <| probes := probes c1 + 1 |>))). apply core_add1.
  constructor; change (in_flight (c1 <| probes := probes c1 + 1 |>)) with (in_flight c1); rewrite ?Hfl; simpl; try done.
  - rewrite map_size_insert_Some; [done|by eexists].
  - rewrite map_size_insert_None by done. lia.
  - lia.
  - apply map_Forall_insert_2; [|done]. destruct (core_keys0 k e Hk) as [Hkey [Hga Hgr]].
    destruct He3 as (-> & Ha & Hr). split; [done|]. split; [by rewrite Ha|by rewrite Hr].
  - intros k' ch' [[<- <-]|[Hne Hl]]%lookup_insert_Some.
    + split; [lia|]. intros Hin%core_made0. lia.
    + destruct (core_open0 _ _ Hl). split; [lia|done].
  - intros k1 k2 ch' H1 H2. apply lookup_insert_Some in H1, H2.
    destruct H1 as [[<- <-]|[Hn1 H1]], H2 as [[<- E]|[Hn2 H2]]; try done.
    + apply core_open0 in H2 as [? _]. lia.
    + subst ch'. apply core_open0 in H1 as [? _]. lia.
    + by apply (core_distinct0 _ _ ch').
  - intros ch' Hlt. destruct (decide (ch' = made c)) as [->|Hne].
    + right. exists k. by rewrite lookup_insert_eq.
    + destruct (core_released0 ch' ltac:(lia)) as [?|[k' Hk']]; [by left|]. right. exists k'.
      rewrite lookup_insert_ne; [done|]. intros <-. by rewrite Hf in Hk'.
  - intros ch' Hin%core_made0. lia.
Qed.

(** ** Removal of accounts *)

(** What releasing the lease of an entry, if it has one, leaves. *)
Definition release (k : Key) (e : Entry) (c : Collector) : Collector :=
  match e_probeDone e with Some ch => end_probe k e ch c | None => c end.
Definition same_world (c c' : Collector) : Prop :=
  policy c' = policy c /\ accountGenerations c' = accountGenerations c /\
  generationSequence c' = generationSequence c /\ made c' = made c.
Lemma same_world_trans c1 c2 c3 : same_world c1 c2 -> same_world c2 c3 -> same_world c1 c3.
Proof. unfold same_world. intros (? & ? & ? & ?) (? & ? & ? & ?). repeat split; congruence. Qed.

Lemma release_spec k e c :
  core c -> entries c !! k = Some e ->
  core (release k e c) /\ same_world c (release k e c) /\
  entries (release k e c) = <[k := e <| e_probeDone := None |>]> (entries c) /\
  in_flight (release k e c) = delete k (in_flight c).
Proof.
  intros Hc Hk. unfold release. destruct (e_probeDone e) as [ch|] eqn:Hd.
  - split; [by apply core_end_probe|]. split; [apply end_probe_same|].
    split; [apply end_probe_entries|apply end_probe_flight].
  - split; [done|]. split; [done|]. split.
    + rewrite insert_id; [done|]. rewrite Hk. f_equal. destruct e; simpl in *. by subst.
    + rewrite delete_id; [done|]. by eapply in_flight_none.
Qed.

Lemma remove_entries_spec keys a b c :
  core c ->
  core (remove_entries keys a b c) /\ same_world c (remove_entries keys a b c) /\
  forall k, entries (remove_entries keys a b c) !! k =
    if bool_decide (k ∈ keys /\ key_AccountID k = a) then None else entries c !! k.
Proof.
  revert c. induction keys as [|k keys IH]; intros c Hc; cbn [remove_entries].
  { split; [done|]. split; [done|]. intros k. by rewrite bool_decide_false by set_solver. }
  destruct (entries c !! k) as [e|] eqn:Hk.
  2: { destruct (IH c Hc) as (H1 & H2 & H3). split; [done|]. split; [done|]. intros i. rewrite H3.
       destruct (decide (i = k)) as [->|Hi]; [rewrite Hk; by repeat case_bool_decide|].
       repeat case_bool_decide; set_solver. }
  destruct (key_AccountID k =? a) eqn:Ha; cbn [negb].
  - fold (release k e c). destruct (release_spec k e c Hc Hk) as (R1 & R2 & R3 & _).
    set (c1 := release k e c) in *.
    assert (Hd : core (drop_entry k c1)).
    { apply (core_drop k (e <| e_probeDone := None |>)); [done| |done]. by rewrite R3, lookup_insert_eq. }
    assert (Hx : forall c2, c2 = (if b then add1 evictions_1 (drop_entry k c1) else drop_entry k c1) ->
      core c2 /\ same_world c c2 /\ entries c2 = delete k (entries c)).
    { intros c2 ->. split; [destruct b; [by apply core_add1|done]|]. split; [by destruct b|].
      assert (He : entries (drop_entry k c1) = delete k (entries c)).
      { unfold drop_entry; simpl. by rewrite R3, delete_insert_eq. }
      by destruct b. }
    destruct (Hx _ eq_refl) as (X1 & X2 & X3). destruct (IH _ X1) as (H1 & H2 & H3).
    split; [done|]. split; [by eapply same_world_trans|]. intros i. rewrite H3, X3. bool_hyps.
    destruct (decide (i = k)) as [->|Hi].
    + rewrite lookup_delete_eq. rewrite (bool_decide_true (k ∈ k :: keys /\ _)) by set_solver. by case_bool_decide.
    + rewrite lookup_delete_ne by done. repeat case_bool_decide; set_solver.
  - destruct (IH c Hc) as (H1 & H2 & H3). split; [done|]. split; [done|]. intros i. rewrite H3.
    bool_hyps. repeat case_bool_decide; set_solver.
Qed.
Lemma removeAccount_spec a b c :
  core c ->
  let c' := removeAccountLocked a b c in
  core c' /\ policy c' = policy c /\ accountGenerations c' = delete a (accountGenerations c) /\
  generationSequence c' = generationSequence c /\ made c' = made c /\
  forall k, entries c' !! k = if bool_decide (key_AccountID k = a) then None else entries c !! k.
Proof.
  intros Hc. unfold removeAccountLocked. cbv zeta.
  set (c1 := c <| accountGenerations := delete a (accountGenerations c) |>).
  assert (Hc1 : core c1) by (pose proof Hc as []; by apply (core_same c)).
  destruct (remove_entries_spec (map fst (map_to_list (entries c1))) a b c1 Hc1) as (H1 & (P1 & P2 & P3 & P4) & H3).
  split; [done|]. split; [done|]. split; [done|]. split; [done|]. split; [done|]. intros k. rewrite H3. simpl.
  destruct (entries c !! k) as [e|] eqn:Hk; [|by repeat case_bool_decide].
  assert (Hin : k ∈ map fst (map_to_list (entries c))).
  { change (k ∈ (map_to_list (entries c)).*1). apply list_elem_of_fmap. exists (k, e). split; [done|].
    by apply elem_of_map_to_list. }
  repeat case_bool_decide; naive_solver.
Qed.

Lemma end_all_spec keys c :
  core c ->
  core (end_all keys c) /\ same_world c (end_all keys c) /\
  forall k, in_flight (end_all keys c) !! k = if bool_decide (k ∈ keys) then None else in_flight c !! k.
Proof.
  revert c. induction keys as [|k keys IH]; intros c Hc; cbn [end_all].
  { split; [done|]. split; [done|]. intros k. by rewrite bool_decide_false by set_solver. }
  destruct (entries c !! k) as [e|] eqn:Hk.
  - fold (release k e c). destruct (release_spec k e c Hc Hk) as (R1 & R2 & _ & R4).
    destruct (IH _ R1) as (H1 & H2 & H3). split; [done|]. split; [by eapply same_world_trans|].
    intros i. rewrite H3, R4. destruct (decide (i = k)) as [->|Hi].
    + rewrite lookup_delete_eq, (bool_decide_true (k ∈ k :: keys)) by set_solver. by case_bool_decide.
    + rewrite lookup_delete_ne by done. repeat case_bool_decide; set_solver.
  - destruct (IH c Hc) as (H1 & H2 & H3). split; [done|]. split; [done|]. intros i. rewrite H3.
    destruct (decide (i = k)) as [->|Hi].
    + rewrite in_flight_lookup, Hk. by repeat case_bool_decide.
    + repeat case_bool_decide; set_solver.
Qed.
Lemma core_clear c : core c -> core (DeleteAll c).
Proof.
  intros Hc. unfold DeleteAll. cbv zeta.
  destruct (end_all_spec (map fst (map_to_list (entries c))) c Hc) as (H1 & (P1 & P2 & P3 & P4) & H3).
  set (c1 := end_all _ c) in *. pose proof H1 as [].
  assert (Hf : in_flight c1 = ∅).
  { apply map_eq. intros k. rewrite H3, lookup_empty. case_bool_decide as Hin; [done|].
    rewrite in_flight_lookup. destruct (entries c !! k) as [e|] eqn:Hk; [|done]. destruct Hin.
    change (k ∈ (map_to_list (entries c)).*1). apply list_elem_of_fmap. exists (k, e). split; [done|].
    by apply elem_of_map_to_list. }
  assert (He : in_flight (c1 <| entries := ∅ |> <| accountGenerations := ∅ |> <| probes := 0 |>) = ∅)
    by (apply map_eq; intros i; rewrite in_flight_lookup; simpl; by rewrite !lookup_empty).
  constructor; rewrite ?He; simpl; try done.
  - rewrite map_size_empty. lia.
  - lia.
  - intros ch Hlt. left. destruct (core_released0 ch Hlt) as [?|[k Hk]]; [done|]. by rewrite Hf in Hk.
Qed.

(** ** Each step keeps the invariant *)

#[global] Arguments end_probe : simpl never.
#[global] Arguments nextGenerationLocked : simpl never.
#[global] Arguments removeAccountLocked : simpl never.

(** Steps on one entry that does or did exist. *)
Lemma wf_entry c c' :
  wf c -> core c' -> policy c' = policy c -> accountGenerations c' = accountGenerations c ->
  (forall k e, entries c' !! k = Some e -> current k c) -> wf c'.
Proof.
  intros [Hc Ha Hk Hz] Hc' Hp Hg Hcur. constructor; [done|by rewrite Hg, Hp| |by rewrite Hg].
  intros k e He. unfold current. rewrite Hg. by eapply Hcur.
Qed.
Lemma wf_put c k e e' c' :
  wf c -> core c' -> policy c' = policy c -> accountGenerations c' = accountGenerations c ->
  entries c !! k = Some e -> entries c' = <[k := e']> (entries c) -> wf c'.
Proof.
  intros Hw Hc' Hp Hg Hk He. apply (wf_entry c); [done..|]. intros i x. rewrite He.
  intros [[<- _]|[_ Hi]]%lookup_insert_Some; [by eapply (wf_current _ Hw)|by eapply (wf_current _ Hw)].
Qed.
Lemma start_probe_entries k e now c :
  exists e', entries (start_probe k e now c).1 = <[k := e']> (entries c) /\
    e_key e' = e_key e /\ e_probeDone e' = Some (made c) /\ e_active e' = e_active e /\ e_ready e' = e_ready e.
Proof.
  eexists. split; [reflexivity|]. simpl. by destruct (u64_succ (e_probeEpoch e) =? 0).
Qed.
Lemma next_generation_same c :
  let c' := (nextGenerationLocked c).1 in
  policy c' = policy c /\ entries c' = entries c /\ accountGenerations c' = accountGenerations c /\
  made c' = made c /\ in_flight c' = in_flight c /\ (core c -> core c').
Proof.
  unfold nextGenerationLocked. cbv zeta. simpl. destruct (u64_succ _ =? 0); simpl; repeat (split; [done|]);
    intros Hc; pose proof Hc as []; by apply (core_same c).
Qed.

Lemma next_generation_nonzero c : (nextGenerationLocked c).2 <> 0.
Proof. unfold nextGenerationLocked. cbv zeta. simpl. destruct (u64_succ _ =? 0) eqn:E; simpl; bool_hyps; lia. Qed.

Lemma policy_micro c c' : micro c c' -> core c -> policy c' = policy c.
Proof.
  intros Hm Hc. destruct Hm; try done.
  - by apply removeAccount_spec.
  - apply next_generation_same.
  - unfold put; simpl. apply end_probe_same.
  - unfold DeleteAll; simpl. by apply end_all_spec.
Qed.

Lemma wf_micro c c' : micro c c' -> wf c -> wf c'.
Proof.
  intros Hm Hw. pose proof Hw as [Hc Ha Hk Hz]. destruct Hm as [f c|a g now c Hg|a b c|a now c Hg Hs|k e c He Hd|
    k now c He Hs Hcur|k e e' c He Hkey Hl Hgood|k e e' c He Hkey Hd Hi Hgood|k e ch e' c He Hd Hkey Hd' Hgood|
    k e now c He Hd Hlim|c].
  - apply (wf_entry c); [done|by apply core_add1|done..].
  - constructor; simpl.
    + pose proof Hc as []. by apply (core_same c).
    + rewrite map_size_insert_Some; [done|by eexists].
    + intros k e He. destruct (Hk k e He) as (g' & H1 & H2). unfold current; simpl.
      destruct (decide (key_AccountID k = a)) as [E|E].
      * rewrite E, lookup_insert_eq. eexists; split; [done|]. simpl. rewrite E, Hg in H1. congruence.
      * rewrite lookup_insert_ne by done. eauto.
    + intros i x [[<- <-]|[_ Hi]]%lookup_insert_Some; [simpl; by eapply Hz|by eapply Hz].
  - destruct (removeAccount_spec a b c Hc) as (H1 & H2 & H3 & _ & _ & H6). constructor; [done| | |].
    + rewrite H2, H3, map_size_delete. trans (Z.of_nat (size (accountGenerations c))); [|exact Ha]. destruct (accountGenerations c !! a); [apply inj_le, Nat.le_pred_l|done].
    + intros k e He. rewrite H6 in He. case_bool_decide as E; [done|].
      destruct (Hk k e He) as (g & G1 & G2). exists g. by rewrite H3, lookup_delete_ne.
    + intros i x. rewrite H3. intros [_ Hi]%lookup_delete_Some. by eapply Hz.
  - destruct (next_generation_same c) as (N1 & N2 & N3 & _ & N5 & N6). pose proof (next_generation_nonzero c) as N7.
    subst c'.
    destruct (nextGenerationLocked c) as [c1 v]. simpl in *. constructor; simpl.
    + specialize (N6 Hc). pose proof N6 as []. by apply (core_same c1).
    + rewrite N1, N3, map_size_insert_None by done. lia.
    + intros k e He. rewrite N2 in He. destruct (Hk k e He) as (g & G1 & G2). exists g. simpl. rewrite N3.
      rewrite lookup_insert_ne; [done|]. congruence.
    + intros i x. rewrite N3. intros [[<- <-]|[_ Hi]]%lookup_insert_Some; [done|by eapply Hz].
  - apply (wf_entry c); [done|by eapply core_drop|done..|]. intros i x.
    unfold drop_entry; simpl. intros [_ Hi]%lookup_delete_Some. by eapply Hk.
  - apply (wf_entry c); [done|by eapply core_new|done..|]. intros i x. unfold put; simpl.
    intros [[<- _]|[_ Hi]]%lookup_insert_Some; [done|by eapply Hk].
  - eapply (wf_put c k e e'); try done. injection Hl. intros. by eapply core_put.
  - eapply (wf_put c k e e'); try done. by eapply core_put.
  - destruct (end_probe_same k e ch c) as (P1 & P2 & _ & _).
    apply (wf_put c k e e'); [done| |exact P1|exact P2|done|].
    + apply (core_put k (e <| e_probeDone := None |>)).
      * by apply core_end_probe.
      * by rewrite end_probe_entries, lookup_insert_eq.
      * done.
      * done.
      * rewrite P1. intros [Hx Hy]. apply Hgood. by split.
    + by change (<[k:=e']> (entries (end_probe k e ch c)) = <[k:=e']> (entries c)); rewrite end_probe_entries, insert_insert_eq.
  - destruct (start_probe_entries k e now c) as (e' & E1 & _).
    eapply (wf_put c k e e'); try done. by apply core_start.
  - constructor; [by apply core_clear| |done|done]. unfold DeleteAll; simpl. rewrite map_size_empty.
    destruct (end_all_spec (map fst (map_to_list (entries c))) c Hc) as (_ & (P1 & _) & _).
    pose proof (core_room _ Hc). rewrite P1. lia.
Qed.

(** ** Runs of small steps *)

Definition reach : Collector -> Collector -> Prop := rtc micro.

Lemma wf_reach c c' : reach c c' -> wf c -> wf c'.
Proof. induction 1; eauto using wf_micro. Qed.
Lemma policy_reach c c' : reach c c' -> wf c -> policy c' = policy c.
Proof.
  induction 1 as [|c1 c2 c3 H1 H2 IH]; [done|]. intros Hw. rewrite IH by (by eapply wf_micro).
  apply policy_micro; [done|apply Hw].
Qed.
Lemma reach_trans c1 c2 c3 : reach c1 c2 -> reach c2 c3 -> reach c1 c3.
Proof. intros H1 H2; by etrans. Qed.
Lemma reach_step c1 c2 c3 : reach c1 c2 -> micro c2 c3 -> reach c1 c3.
Proof. apply rtc_r. Qed.
Lemma reach_count c1 c2 f : reach c1 c2 -> reach c1 (add1 f c2).
Proof. intros H. eapply reach_step; [done|constructor]. Qed.
#[export] Hint Resolve reach_count : s2q.

Lemma wf_start p : wf (NewOpenAICodexTurnStateCollector p).
Proof.
  assert (Hr : 0 < pol_MaxProbeSlots (normalized p) <= 64 /\ 0 < pol_MaxEntries (normalized p) <= 65536).
  { unfold normalized. generalize (normalized_windows p). intros q. unfold normalized_limits. cbv zeta.
    repeat match goal with |- context [if ?b then _ else _] => destruct b eqn:?; simpl in * end; bool_hyps;
      unfold openAICodexTurnStateCollectorDefaultMaxProbeSlots, openAICodexTurnStateCollectorDefaultMaxEntries in *; lia. }
  destruct Hr as [H1 H2].
  assert (Hf : in_flight (NewOpenAICodexTurnStateCollector p) = ∅)
    by (apply map_eq; intros i; rewrite in_flight_lookup; simpl; by rewrite !lookup_empty).
  constructor; [constructor; rewrite ?Hf; simpl; try done|..]; simpl; rewrite ?map_size_empty; try lia; try done.
Qed.
