(* ===== verification/TurnStateSteps.v ===== *)
(** * Every operation of the collector is made of small steps

    One lemma per operation: from a well-formed collector it is a run of [micro]
    steps.  What the small steps keep, every operation keeps. *)

From S2P Require Import Prelude Json Encoding TurnState TurnStateCollector TurnStateInvariants.
Local Open Scope string_scope.
Local Open Scope Z_scope.
Local Open Scope list_scope.
Local Open Scope go_scope.

(** ** Iteration *)

Lemma iteration_elem {K V} `{Countable K} (order : list K) (m : gmap K V) k :
  k ∈ iteration order m <-> is_Some (m !! k).
Proof.
  unfold iteration. rewrite elem_of_app, !list_elem_of_In, !filter_In, <- !list_elem_of_In, elem_of_remove_dups.
  rewrite !bool_decide_eq_true. split.
  - intros [[_ Hk]|[Hk _]]; [done|]. apply (list_elem_of_fmap fst) in Hk as ([k' v] & -> & Hk).
    apply elem_of_map_to_list in Hk. by exists v.
  - intros [v Hv]. destruct (decide (k ∈ order)); [left; split; [done|by eexists]|].
    right. split.
    + apply (list_elem_of_fmap fst). exists (k, v). by rewrite elem_of_map_to_list.
    + rewrite list_elem_of_In, filter_In, <- list_elem_of_In, elem_of_remove_dups. tauto.
Qed.

Lemma oldest_Some {K} (access : K -> option Time) keys best k :
  oldest access keys best = Some k ->
  (exists t, best = Some (k, t)) \/ (k ∈ keys /\ is_Some (access k)).
Proof.
  revert best. induction keys as [|x keys IH]; intros best; simpl.
  - destruct best as [[k' t]|]; simpl; [|done]. intros [= ->]. eauto.
  - intros H. apply IH in H as [[t H]|[H1 H2]]; [|right; split; [set_solver|done]].
    destruct (access x) as [t'|] eqn:Hx; [|eauto]. destruct best as [[k0 t0]|].
    + destruct (t' <? t0); [injection H as -> ->; right; split; [set_solver|by eexists]|eauto].
    + injection H as -> ->. right. split; [set_solver|by eexists].
Qed.
Lemma oldest_None {K} (access : K -> option Time) keys best k :
  oldest access keys best = None -> k ∈ keys -> access k = None.
Proof.
  assert (Hb : forall keys best, oldest access keys best = None -> best = None).
  { clear. intros keys. induction keys as [|x keys IH]; intros best; simpl; [by destruct best|].
    intros H%IH. destruct (access x); [|done]. destruct best as [[? ?]|]; [|done]. by destruct (_ <? _). }
  revert best. induction keys as [|x keys IH]; intros best; simpl; [set_solver|].
  intros H [->|Hk]%elem_of_cons; [|by eapply IH].
  apply Hb in H. destruct (access x); [|done]. destruct best as [[? ?]|]; [|done]. by destruct (_ <? _).
Qed.

(** ** Changes of one entry *)

(** [e] is [e0] after changes that keep its key, its lease and its well-formedness. *)
Definition evolves (p : Policy) (e0 e : Entry) : Prop :=
  e_key e = e_key e0 /\ lease e = lease e0 /\ (good_entry p e0 -> good_entry p e).
Lemma evolves_refl p e : evolves p e e.
Proof. done. Qed.
Lemma evolves_trans p e1 e2 e3 : evolves p e1 e2 -> evolves p e2 e3 -> evolves p e1 e3.
Proof. intros (? & ? & ?) (? & ? & ?). split; [congruence|]. split; [congruence|]. auto. Qed.
#[export] Hint Resolve evolves_refl good_no_snapshot : s2q.

Lemma reach_put k e0 e c : entries c !! k = Some e0 -> evolves (policy c) e0 e -> reach c (put k e c).
Proof. intros Hk (H1 & H2 & H3). apply rtc_once. by eapply micro_put. Qed.

(** Everything but the entry of [k] and the counters is the same. *)
Definition only_entry (k : Key) (c c' : Collector) : Prop :=
  policy c' = policy c /\ accountGenerations c' = accountGenerations c /\ made c' = made c /\ probes c' = probes c /\
  forall i, i <> k -> entries c' !! i = entries c !! i.
Lemma only_entry_put k e c : only_entry k c (put k e c).
Proof. repeat split; try done. intros i Hi. unfold put; simpl. by rewrite lookup_insert_ne. Qed.

Section Steps.
Context (ToLower : string -> string) (clock : Time) (ord : Orders).

Lemma promote_entry_evolves p now e : evolves p e (promote_entry clock p now e).1.
Proof.
  unfold promote_entry. repeat match goal with |- context [if ?b then _ else _] => destruct b end; simpl;
    try apply evolves_refl; (split; [done|split; [done|]]); intros [Ha Hr];
    split; simpl; auto using good_no_snapshot.
Qed.
Lemma promote_reach k e0 e now c c' e' :
  entries c !! k = Some e0 -> evolves (policy c) e0 e -> promoteLocked clock k e now c = (c', e') ->
  reach c c' /\ entries c' !! k = Some e' /\ evolves (policy c) e0 e' /\ only_entry k c c'.
Proof.
  intros Hk He. unfold promoteLocked. pose proof (promote_entry_evolves (policy c) now e) as Hp.
  destruct (promote_entry clock (policy c) now e) as [e1 b]. simpl in Hp.
  pose proof (evolves_trans _ _ _ _ He Hp) as H1. pose proof (reach_put _ _ _ _ Hk H1) as Hr.
  intros [= <- <-]. destruct b; (split; [auto with s2q|]); (split; [simpl; apply lookup_insert_eq|]);
    (split; [done|]); exact (only_entry_put k e1 c).
Qed.

(** ** Generations *)

Lemma touch_reach a g now c :
  accountGenerations c !! a = Some g -> reach c (touch_account a g now c).
Proof. intros. by apply rtc_once, micro_touch. Qed.
Lemma current_touch a g now c k :
  accountGenerations c !! a = Some g -> current k (touch_account a g now c) <-> current k c.
Proof.
  intros Hg. unfold current, touch_account; simpl. destruct (decide (key_AccountID k = a)) as [->|Hk].
  - rewrite lookup_insert_eq, Hg. naive_solver.
  - by rewrite lookup_insert_ne.
Qed.

Lemma admit_reach a now c c' g :
  wf c -> accountGenerations c !! a = None -> admitAccountGenerationLocked ord a now c = (c', g) ->
  reach c c' /\ accountGenerations c' !! a = Some g.
Proof.
  intros Hw Ha. unfold admitAccountGenerationLocked. rewrite Ha.
  set (c1 := if pol_MaxEntries (policy c) <=? _ then _ else c).
  assert (H1 : reach c c1 /\ accountGenerations c1 !! a = None /\
    Z.of_nat (size (accountGenerations c1)) < pol_MaxEntries (policy c1)).
  { unfold c1. destruct (_ <=? _) eqn:Hfull; bool_hyps; [|split; [apply rtc_refl|split; [done|lia]]].
    destruct (oldest _ _ None) as [old|] eqn:Ho.
    - apply oldest_Some in Ho as [[? ?]|[Hin _]]; [done|]. apply iteration_elem in Hin as [g0 Hg0].
      destruct (removeAccount_spec old true c (wf_core _ Hw)) as (_ & P1 & P2 & _).
      split; [by apply rtc_once, micro_remove|]. rewrite P1, P2. split.
      + destruct (decide (a = old)) as [->|?]; [apply lookup_delete_eq|by rewrite lookup_delete_ne].
      + rewrite map_size_delete, Hg0. pose proof (wf_accounts _ Hw).
        assert (size (accountGenerations c) <> 0)%nat by (intros E%map_size_empty_inv; by rewrite E in Hg0).
        destruct (size (accountGenerations c)); simpl; lia.
    - exfalso. pose proof (core_room _ (wf_core _ Hw)).
      destruct (map_choose (accountGenerations c)) as (i & x & Hi).
      { intros E. rewrite E, map_size_empty in Hfull. lia. }
      pose proof (oldest_None _ _ _ i Ho) as Hn. rewrite iteration_elem in Hn. specialize (Hn ltac:(by eexists)).
      cbv beta in Hn.
      by rewrite Hi in Hn. }
  clearbody c1. destruct H1 as (R1 & N1 & S1).
  pose proof (micro_admit a now c1 N1 S1) as Hm. cbv zeta in Hm.
  destruct (nextGenerationLocked c1) as [c2 v]. simpl in Hm. intros [= <- <-].
  split; [by eapply reach_step|]. simpl. apply lookup_insert_eq.
Qed.

Lemma resolve_reach key now create c c' k ok :
  wf c -> resolveKeyGenerationLocked ToLower ord key now create c = (c', (k, ok)) ->
  reach c c' /\ (ok = true -> current k c').
Proof.
  intros Hw. unfold resolveKeyGenerationLocked. set (key1 := canonical ToLower key).
  destruct (accountGenerations c !! key_AccountID key1) as [g|] eqn:Hg; destruct (negb _) eqn:Hz.
  - destruct (negb (key_generation key1 =? ag_value g)) eqn:Hv; intros [= <- <- <-]; [split; [apply rtc_refl|done]|].
    split; [by apply touch_reach|]. intros _. apply current_touch; [done|]. exists g. split; [done|].
    bool_hyps. congruence.
  - intros [= <- <- <-]. split; [by apply touch_reach|]. intros _.
    eapply (proj2 (current_touch _ _ _ _ _ Hg)). exists g. by split.
  - intros [= <- <- <-]. split; [apply rtc_refl|done].
  - destruct create; cbn [negb]; [|intros [= <- <- <-]; split; [apply rtc_refl|done]].
    destruct (admitAccountGenerationLocked ord (key_AccountID key1) now c) as [c1 g] eqn:Ha.
    intros [= <- <- <-]. destruct (admit_reach _ _ _ _ _ Hw Hg Ha) as [Hr Hg']. split; [done|].
    intros _. exists g. by split.
Qed.

(** ** Entries *)

Lemma sweep_reach keys now limit c :
  reach c (sweep keys now limit c) /\ policy (sweep keys now limit c) = policy c /\
  accountGenerations (sweep keys now limit c) = accountGenerations c /\
  forall k, entries c !! k = None -> entries (sweep keys now limit c) !! k = None.
Proof.
  revert limit c. induction keys as [|k keys IH]; intros [|limit] c; try (by split; [apply rtc_refl|]).
  cbn [sweep]. destruct (entries c !! k) as [e|] eqn:Hk; [|apply IH].
  destruct (_ && _ && _) eqn:Hb; [|apply IH].
  set (c1 := add1 evictions_1 (drop_entry k c)). destruct (IH limit c1) as (H1 & H2 & H3 & H4).
  assert (Hr : reach c c1).
  { apply reach_count, rtc_once. eapply micro_drop; [done|]. by destruct (e_probeDone e). }
  split; [by etrans|]. split; [done|]. split; [done|]. intros i Hi. apply H4. unfold c1, add1, drop_entry; simpl.
  destruct (decide (i = k)) as [->|?]; [apply lookup_delete_eq|by rewrite lookup_delete_ne].
Qed.

Lemma new_reach k now c :
  entries c !! k = None -> Z.of_nat (size (entries c)) < pol_MaxEntries (policy c) -> current k c ->
  reach c (put k (new_entry k now) c).
Proof. intros. apply rtc_once. by apply micro_new. Qed.

Lemma entry_reach key now create c c' r :
  wf c -> entryLocked ToLower clock ord key now create c = (c', r) ->
  reach c c' /\ match r with Some (k, e) => entries c' !! k = Some e /\ current k c' | None => True end.
Proof.
  intros Hw. unfold entryLocked, find_entry. set (now' := collectorNow clock now).
  destruct (resolveKeyGenerationLocked ToLower ord key now' create c) as [c1 [k ok]] eqn:Hres.
  destruct (resolve_reach _ _ _ _ _ _ _ Hw Hres) as [R1 Hcur]. pose proof (wf_reach _ _ R1 Hw) as Hw1.
  destruct ok; cbn [negb]; [|intros [= <- <-]; done]. specialize (Hcur eq_refl).
  destruct (entries c1 !! k) as [e|] eqn:Hk.
  - intros [= <- <-]. split; [|split; [apply lookup_insert_eq|done]]. etrans; [done|]. by eapply reach_put.
  - destruct create; cbn [negb]; [|intros [= <- <-]; done].
    destruct (sweep_reach (iteration (ord_sweep ord) (entries c1)) now' 32 c1) as (R2 & P2 & G2 & N2).
    fold (sweepLocked ord now' 32 c1) in R2, P2, G2, N2. set (c2 := sweepLocked ord now' 32 c1) in *.
    assert (Hcur2 : current k c2) by (unfold current; by rewrite G2).
    pose proof (N2 _ Hk) as Hk2. pose proof (reach_trans _ _ _ R1 R2) as R12.
    destruct (_ <=? _) eqn:Hfull; bool_hyps.
    + destruct (oldest _ _ None) as [old|] eqn:Ho; [|intros [= <- <-]; done]. intros [= <- <-].
      apply oldest_Some in Ho as [[? ?]|[_ Ho]]; [done|]. unfold evictable in Ho.
      destruct (entries c2 !! old) as [eo|] eqn:Heo; simpl in Ho; [|by destruct Ho].
      destruct (e_probeDone eo) eqn:Hdo; [by destruct Ho|]. set (c3 := add1 evictions_1 (drop_entry old c2)).
      assert (R3 : reach c2 c3) by (apply reach_count, rtc_once; by eapply micro_drop).
      pose proof (reach_trans _ _ _ R12 R3) as R123. pose proof (core_size _ (wf_core _ (wf_reach _ _ R12 Hw))) as Hsz.
      split; [|split; [apply lookup_insert_eq|done]]. etrans; [exact R123|]. apply new_reach; [| |done].
      * unfold c3, add1, drop_entry; simpl.
        destruct (decide (k = old)) as [->|?]; [apply lookup_delete_eq|by rewrite lookup_delete_ne].
      * unfold c3, add1, drop_entry; simpl. rewrite map_size_delete, Heo.
        assert (size (entries c2) <> 0)%nat by (intros E%map_size_empty_inv; by rewrite E in Heo).
        destruct (size (entries c2)); simpl; lia.
    + intros [= <- <-]. split; [|split; [apply lookup_insert_eq|done]]. etrans; [exact R12|].
      apply new_reach; [done|lia|done].
Qed.

(** ** Siblings *)

Lemma is_sibling_ne key k s : is_sibling key k s = true -> k <> key.
Proof. unfold is_sibling. intros H ->. rewrite bool_decide_true in H by done. done. Qed.

Lemma healthy_reach keys key now c c' b :
  healthy_among clock keys key now c = (c', b) ->
  reach c c' /\ policy c' = policy c /\ accountGenerations c' = accountGenerations c /\ probes c' = probes c /\
  entries c' !! key = entries c !! key.
Proof.
  revert c. induction keys as [|k keys IH]; intros c; cbn [healthy_among].
  { intros [= <- <-]. by split; [apply rtc_refl|]. }
  destruct (entries c !! k) as [s|] eqn:Hk; [|apply IH].
  destruct (is_sibling key k s) eqn:Hs; [|apply IH].
  destruct (promoteLocked clock k s now c) as [c1 s1] eqn:Hp.
  destruct (promote_reach k s s now c c1 s1 Hk (evolves_refl _ _) Hp) as (R1 & _ & _ & P1 & P2 & _ & P4 & P5).
  apply is_sibling_ne in Hs. destruct (negb _).
  - intros [= <- <-]. split; [done|]. split; [done|]. split; [done|]. split; [done|]. by apply P5.
  - intros H. apply IH in H as (R2 & Q1 & Q2 & Q3 & Q4). split; [by etrans|]. split; [congruence|].
    split; [congruence|]. split; [congruence|]. rewrite Q4. by apply P5.
Qed.

(** ** Tokens on offer *)

Lemma normalized_Blocks p : pol_Blocks (normalized p) = pol_Blocks p.
Proof.
  assert (Hl : forall q, pol_Blocks (normalized_limits q) = pol_Blocks q).
  { intros q. unfold normalized_limits. cbv zeta.
    repeat match goal with |- context [if ?b then _ else _] => destruct b end; done. }
  unfold normalized. rewrite Hl. unfold normalized_windows. cbv zeta.
  repeat match goal with |- context [if ?b then _ else _] => destruct b end; done.
Qed.
Lemma Accept_Blocks p t now :
  Accept clock p t now = true -> 0 < pol_Blocks p -> tok_Blocks t = pol_Blocks p.
Proof.
  unfold Accept. rewrite normalized_Blocks. destruct (_ || _ || _); [done|].
  destruct (_ && _) eqn:E; [done|]. intros _ Hb. apply andb_false_iff in E as [E|E]; bool_hyps; [lia|done].
Qed.
Lemma parsed_good p v m t now :
  parseOpenAICodexTurnState v m = inl t -> Accept clock p t now = true -> good_token p t.
Proof. intros Hv Ha. right. split; [eauto|]. by apply Accept_Blocks with now. Qed.

Lemma normalizeOffer_reach t now c c' r :
  normalizeOfferToken clock t now c = (c', r) ->
  reach c c' /\ policy c' = policy c /\ match r with Some t' => good_token (policy c) t' | None => True end.
Proof.
  unfold normalizeOfferToken. assert (Hr : reach c (add1 rejected_1 c)) by (apply reach_count, rtc_refl).
  destruct (_ || _); [by intros [= <- <-]|].
  destruct (parseOpenAICodexTurnState _ _) as [t'|err] eqn:Hp; [|by intros [= <- <-]].
  destruct (Accept _ _ _ _) eqn:Ha; intros [= <- <-]; [|done].
  split; [apply rtc_refl|]. split; [done|]. by eapply parsed_good.
Qed.

Lemma if_token (b : bool) x y t : sn_Token x = t -> sn_Token y = t -> sn_Token (if b then x else y) = t.
Proof. by destruct b. Qed.
Lemma normalize_token s : sn_Token (normalizeOpenAICodexTurnStateSnapshot s) = sn_Token s.
Proof.
  unfold normalizeOpenAICodexTurnStateSnapshot. cbv zeta.
  repeat first [reflexivity | apply if_token | progress cbn [upd sn_Token]].
Qed.
Lemma normalize_snapshot_good p s :
  good_token p (sn_Token s) -> good_snapshot p (normalizeOpenAICodexTurnStateSnapshot s).
Proof.
  intros Ht. split; [by rewrite normalize_token|]. unfold normalizeOpenAICodexTurnStateSnapshot. cbv zeta.
  set (s1 := if Nat.ltb 256 _ then _ else _).
  clearbody s1. destruct (Nat.ltb _ _) eqn:E; simpl.
  - rewrite length_take. lia.
  - apply Nat.ltb_ge in E. done.
Qed.

(** ** Offers *)

Lemma good_active p e s :
  good_snapshot p s -> forall e', e_active e' = s -> (good_entry p e -> good_snapshot p (e_ready e')) ->
  good_entry p e -> good_entry p e'.
Proof. intros Hs e' <- Hr He. split; [done|auto]. Qed.

Lemma offer_entry_reach k e0 e s now c :
  entries c !! k = Some e0 -> evolves (policy c) e0 e -> good_token (policy c) (sn_Token s) ->
  reach c (offerSnapshotEntryLocked clock k e s now c).
Proof.
  intros Hk (E1 & E2 & E3) Hs%normalize_snapshot_good. unfold offerSnapshotEntryLocked.
  set (s' := normalizeOpenAICodexTurnStateSnapshot s) in *. clearbody s'. cbv zeta. destruct Hs as [Hs1 Hs2].
  destruct (tok_Fingerprint _ =?s tok_Fingerprint _).
  - apply reach_count, (reach_put k e0); [done|]. destruct (_ || _).
    + split; [done|]. split; [done|]. intros Hg. split; [by split|apply (E3 Hg)].
    + split; [done|]. split; [done|]. intros Hg. apply (E3 Hg).
  - destruct (Accept clock (policy c) (sn_Token (e_active e)) now); cbn [negb]; revgoals.
    + do 2 apply reach_count. apply (reach_put k e0); [done|]. split; [done|]. split; [done|]. intros Hg.
      split; [by split|apply good_no_snapshot].
    + set (e1 := if _ || _ || _ then _ else e).
      assert (H1 : evolves (policy c) e0 e1).
      { unfold e1. destruct (_ || _ || _); [|done]. split; [done|]. split; [done|]. intros Hg.
        split; [apply (E3 Hg)|by split]. }
      destruct (promoteLocked clock k e1 now c) as [c1 e2] eqn:Hp.
      destruct (promote_reach _ _ _ _ _ _ _ Hk H1 Hp) as (R1 & Hk1 & _ & _).
      apply reach_count. etrans; [exact R1|]. by apply (reach_put k e2).
Qed.

Lemma offer_snapshot_reach key s now pr c :
  wf c -> good_token (policy c) (sn_Token s) -> reach c (offerSnapshotLocked ToLower clock ord key s now pr c).1.
Proof.
  intros Hw Hs. unfold offerSnapshotLocked. cbv zeta.
  destruct (entryLocked _ _ _ _ _ _ c) as [c1 r] eqn:He. destruct (entry_reach _ _ _ _ _ _ Hw He) as [R1 H1].
  destruct r as [[k e]|]; [|by apply reach_count].
  destruct (match pr with Some probe => negb (lease_current e probe) | None => false end); [by apply reach_count|]. simpl. etrans; [exact R1|]. apply (offer_entry_reach k e); [apply H1|apply evolves_refl|].
  by rewrite (policy_reach _ _ R1 Hw).
Qed.

Lemma offer_if_needed_reach key e0 e s now pr c :
  wf c -> entries c !! key = Some e0 -> evolves (policy c) e0 e -> e_key e = key -> good_token (policy c) (sn_Token s) ->
  reach c (offer_if_needed clock ord key e s now pr c).1.
Proof.
  intros Hw Hk He Hkey Hs. unfold offer_if_needed. destruct (match pr with Some _ => _ | None => _ end).
  { by apply reach_count, reach_count, rtc_refl. }
  destruct (promoteLocked clock key e now c) as [c1 e1] eqn:Hp.
  destruct (promote_reach _ _ _ _ _ _ _ Hk He Hp) as (R1 & Hk1 & (K1 & _ & _) & P1 & _).
  cbv zeta. destruct (_ || _); [done|].
  assert (Hh : forall c2 b, (if e_forceRefresh e1 then (c1, false)
     else hasHealthyAccountModelSiblingLocked clock (ord_siblings_again ord) (e_key e1) now c1) = (c2, b) ->
     reach c1 c2 /\ entries c2 !! key = Some e1 /\ policy c2 = policy c1).
  { intros c2 b. destruct (e_forceRefresh e1); [intros [= <- <-]; by split; [apply rtc_refl|]|].
    assert (Hk2 : e_key e1 = key) by (destruct He as [E _]; congruence). rewrite Hk2. intros Hh.
    apply healthy_reach in Hh as (R2 & P2 & _ & _ & Q2). rewrite Q2. done. }
  destruct (if e_forceRefresh e1 then _ else _) as [c2 b]. destruct (Hh _ _ eq_refl) as (R2 & Hk2 & P2).
  destruct b; [by etrans|]. simpl. etrans; [exact R1|]. etrans; [exact R2|].
  etrans; [apply reach_count, rtc_refl|]. apply (offer_entry_reach key e1); [done|apply evolves_refl|].
  simpl. by rewrite P2, P1.
Qed.

Lemma offer_if_refresh_reach key s now pr c :
  wf c -> good_token (policy c) (sn_Token s) ->
  reach c (offerSnapshotIfRefreshNeededLocked ToLower clock ord key s now pr c).1.
Proof.
  intros Hw Hs. unfold offerSnapshotIfRefreshNeededLocked. cbv zeta.
  destruct (resolveKeyGenerationLocked _ _ _ _ _ c) as [c1 [k ok]] eqn:Hres.
  destruct (resolve_reach _ _ _ _ _ _ _ Hw Hres) as [R1 _]. pose proof (wf_reach _ _ R1 Hw) as Hw1.
  assert (Hs1 : good_token (policy c1) (sn_Token s)) by (by rewrite (policy_reach _ _ R1 Hw)).
  destruct ok; cbn [negb]; [|by apply reach_count, reach_count].
  destruct (entries c1 !! k) as [e|] eqn:Hk.
  - etrans; [exact R1|]. set (e1 := e <| e_lastAccess := now |>).
    assert (H1 : evolves (policy c1) e e1) by done. pose proof (reach_put _ _ _ _ Hk H1) as R2.
    etrans; [exact R2|]. apply (offer_if_needed_reach k e1); [by eapply wf_reach|apply lookup_insert_eq|done| |done].
    apply (core_keys _ (wf_core _ Hw1) k e Hk).
  - destruct (if pr is None then true else false); [|by apply reach_count, reach_count].
    destruct (hasHealthyAccountModelSiblingLocked _ _ _ _ _) as [c2 b] eqn:Hh.
    apply healthy_reach in Hh as (R2 & P2 & _). pose proof (reach_trans _ _ _ R1 R2) as R12.
    pose proof (wf_reach _ _ R12 Hw) as Hw2. destruct b; [done|].
    destruct (entryLocked _ _ _ _ _ _ c2) as [c3 r] eqn:He. destruct (entry_reach _ _ _ _ _ _ Hw2 He) as [R3 H3].
    pose proof (reach_trans _ _ _ R12 R3) as R13. pose proof (wf_reach _ _ R13 Hw) as Hw3.
    destruct r as [[k' e]|]; [|by apply reach_count, reach_count]. etrans; [exact R13|].
    apply (offer_if_needed_reach k' e); [done|apply H3|done| |].
    + apply (core_keys _ (wf_core _ Hw3) k' e), H3.
    + by rewrite (policy_reach _ _ R13 Hw).
Qed.

(** ** The public operations *)

(** What a successful lookup leaves: a well-formed collector with that entry. *)
Lemma entry_facts key now create c c1 r :
  wf c -> entryLocked ToLower clock ord key now create c = (c1, r) ->
  reach c c1 /\ wf c1 /\ policy c1 = policy c /\
  forall k e, r = Some (k, e) -> entries c1 !! k = Some e /\ e_key e = k /\ current k c1.
Proof.
  intros Hw He. destruct (entry_reach _ _ _ _ _ _ Hw He) as [R1 H1]. pose proof (wf_reach _ _ R1 Hw) as Hw1.
  split; [done|]. split; [done|]. split; [by apply policy_reach|]. intros k e ->. destruct H1 as [H1 H2].
  split; [done|]. split; [|done]. by apply (core_keys _ (wf_core _ Hw1) k e).
Qed.
Lemma resolve_facts key now create c c1 k ok :
  wf c -> resolveKeyGenerationLocked ToLower ord key now create c = (c1, (k, ok)) ->
  reach c c1 /\ wf c1 /\ policy c1 = policy c.
Proof.
  intros Hw Hr. destruct (resolve_reach _ _ _ _ _ _ _ Hw Hr) as [R1 _].
  split; [done|]. split; [by eapply wf_reach|by apply policy_reach].
Qed.

Lemma fence_micro k e e' c :
  entries c !! k = Some e -> evolves (policy c) (fence e) e' -> reach c (put k e' c).
Proof.
  intros Hk (E1 & E2 & E3). unfold fence in *. destruct (e_probeDone e) as [ch|] eqn:Hd.
  - injection E2 as D1 D2 D3. simpl in *. apply rtc_once. eapply micro_fence; [done|done|congruence|done|].
    intros [Ha Hr]. apply E3. by split.
  - by apply (reach_put k e).
Qed.

Lemma offer_reach key t route now c : wf c -> reach c (Offer ToLower clock ord key t route now c).1.
Proof.
  intros Hw. unfold Offer. cbv zeta. assert (R0 : reach c (add1 offers_1 c)) by (apply reach_count, rtc_refl).
  destruct (normalizeOfferToken _ _ _ _) as [c1 r] eqn:Hn. apply normalizeOffer_reach in Hn as (R1 & P1 & H1).
  pose proof (reach_trans _ _ _ R0 R1) as R01. destruct r as [t'|]; [|done].
  etrans; [exact R01|]. apply offer_snapshot_reach; [by eapply wf_reach|]. by rewrite P1.
Qed.
Lemma offer_probe_reach pr t route now c : wf c -> reach c (OfferProbe ToLower clock ord pr t route now c).1.
Proof.
  intros Hw. unfold OfferProbe. destruct (pr_done pr); [|apply rtc_refl]. cbv zeta.
  assert (R0 : reach c (add1 offers_1 c)) by (apply reach_count, rtc_refl).
  destruct (normalizeOfferToken _ _ _ _) as [c1 r] eqn:Hn. apply normalizeOffer_reach in Hn as (R1 & P1 & H1).
  pose proof (reach_trans _ _ _ R0 R1) as R01. destruct r as [t'|]; [|done].
  etrans; [exact R01|]. apply offer_snapshot_reach; [by eapply wf_reach|]. by rewrite P1.
Qed.
Lemma offer_snapshot_op_reach key s now c : wf c -> reach c (OfferSnapshot ToLower clock ord key s now c).1.
Proof.
  intros Hw. unfold OfferSnapshot. cbv zeta. assert (R0 : reach c (add1 offers_1 c)) by (apply reach_count, rtc_refl).
  destruct (normalizeOfferToken _ _ _ _) as [c1 r] eqn:Hn. apply normalizeOffer_reach in Hn as (R1 & P1 & H1).
  pose proof (reach_trans _ _ _ R0 R1) as R01. destruct r as [t'|]; [|done].
  etrans; [exact R01|]. apply offer_snapshot_reach; [by eapply wf_reach|]. rewrite P1, normalize_token. done.
Qed.
(** The offers that look at the refresh window first. *)
Lemma offer_gated_reach key t s now pr c :
  wf c -> (forall t', sn_Token (s t') = t') ->
  reach c (let '(c, token) := normalizeOfferToken clock t now c in
           match token with
           | None => (add1 offers_1 c, OfferRejected)
           | Some token => offerSnapshotIfRefreshNeededLocked ToLower clock ord key (s token) now pr c
           end).1.
Proof.
  intros Hw Hs. destruct (normalizeOfferToken _ _ _ _) as [c1 r] eqn:Hn.
  apply normalizeOffer_reach in Hn as (R1 & P1 & H1). destruct r as [t'|]; [|by apply reach_count].
  etrans; [exact R1|]. apply offer_if_refresh_reach; [by eapply wf_reach|]. by rewrite P1, Hs.
Qed.
Lemma start_if_needed_reach key e0 e now c :
  wf c -> entries c !! key = Some e0 -> evolves (policy c) e0 e ->
  reach c (start_if_needed clock ord key e now c).1.
Proof.
  intros Hw Hk He. unfold start_if_needed. destruct (promoteLocked clock key e now c) as [c1 e1] eqn:Hp.
  destruct (promote_reach _ _ _ _ _ _ _ Hk He Hp) as (R1 & Hk1 & (K1 & _) & _).
  pose proof (wf_reach _ _ R1 Hw) as Hw1. destruct (negb (needsRefreshLocked _ _ _ _)); [done|].
  assert (Hkey : e_key e1 = key) by (by apply (core_keys _ (wf_core _ Hw1) key e1)).
  assert (Hh : forall c2 b, (if e_forceRefresh e1 then (c1, false)
     else hasHealthyAccountModelSiblingLocked clock (ord_siblings_again ord) (e_key e1) now c1) = (c2, b) ->
     reach c1 c2 /\ entries c2 !! key = Some e1).
  { intros c2 b. destruct (e_forceRefresh e1); [intros [= <- <-]; by split; [apply rtc_refl|]|].
    rewrite Hkey. intros (R2 & _ & _ & _ & Q2)%healthy_reach. rewrite Q2. done. }
  destruct (if e_forceRefresh e1 then _ else _) as [c2 b]. destruct (Hh _ _ eq_refl) as (R2 & Hk2).
  pose proof (reach_trans _ _ _ R1 R2) as R12. destruct b; [done|].
  destruct (e_probeDone e1) eqn:Hd; [by apply reach_count|].
  destruct (_ <=? _) eqn:Hfull; [done|]. destruct (_ && _); [done|].
  assert (R3 : micro c2 (start_probe key e1 now c2).1) by (apply micro_start; [done..|bool_hyps; lia]).
  destruct (start_probe key e1 now c2) as [c3 p]. by eapply reach_step.
Qed.

(** Look the entry up, and forget how. *)
Ltac follow_entry :=
  match goal with
  | Hw : wf ?c |- context [entryLocked ?T ?cl ?o ?k ?n ?cr ?c] =>
      let E := fresh in let c1 := fresh "c1" in let r := fresh "r" in let He := fresh "He" in
      destruct (entryLocked T cl o k n cr c) as [c1 r] eqn:E;
      destruct (entry_facts _ _ _ _ _ _ Hw E) as (R1 & Hw1 & P1 & He); clear E;
      destruct r as [[key1 e]|];
        [destruct (He _ _ eq_refl) as (Hk & Hkey & _); clear He|clear He]; try exact R1
  end.
Ltac follow_key :=
  match goal with
  | Hw : wf ?c |- context [resolveKeyGenerationLocked ?T ?o ?k ?n ?cr ?c] =>
      let E := fresh in let c1 := fresh "c1" in let ok := fresh "ok" in
      destruct (resolveKeyGenerationLocked T o k n cr c) as [c1 [key1 ok]] eqn:E;
      destruct (resolve_facts _ _ _ _ _ _ _ Hw E) as (R1 & Hw1 & P1); clear E;
      destruct ok; cbn [negb]; try exact R1
  end.
Ltac follow_promotion :=
  match goal with
  | Hk : entries ?c !! ?k = Some ?e0 |- context [promoteLocked ?cl ?k ?e ?n ?c] =>
      let E := fresh in let c2 := fresh "c2" in let e2 := fresh "e2" in
      destruct (promoteLocked cl k e n c) as [c2 e2] eqn:E;
      eapply promote_reach in E as (R2 & Hk2 & E2 & _); [|exact Hk|]
  end.

Lemma bind_reach key c : wf c -> reach c (BindKey ToLower clock ord key c).1.
Proof. intros Hw. unfold BindKey. cbv zeta. follow_key. Qed.
Lemma is_current_reach key c : reach c (IsCurrentKey ToLower clock key c).1.
Proof.
  unfold IsCurrentKey. cbv zeta. destruct (accountGenerations c !! _) eqn:Hg; [by apply touch_reach|apply rtc_refl].
Qed.
Lemma acquire_reach key now c : wf c -> reach c (Acquire ToLower clock ord key now c).1.
Proof.
  intros Hw. unfold Acquire. cbv zeta. follow_entry. follow_promotion; [|done]. simpl. by etrans.
Qed.
Lemma needs_refresh_reach key now c : wf c -> reach c (NeedsRefresh ToLower clock ord key now c).1.
Proof.
  intros Hw. unfold NeedsRefresh. cbv zeta. follow_entry. follow_promotion; [|done]. simpl. by etrans.
Qed.
Lemma status_reach key now c : wf c -> reach c (status_of ToLower clock ord key now c).1.
Proof.
  intros Hw. unfold status_of. cbv zeta. follow_entry. follow_promotion; [|done]. simpl. by etrans.
Qed.
Lemma probe_current_reach pr c : wf c -> reach c (ProbeCurrent ToLower clock ord pr c).1.
Proof. intros Hw. unfold ProbeCurrent. destruct (pr_done pr); [|apply rtc_refl]. follow_key. Qed.
Lemma wait_reach key c : wf c -> reach c (WaitProbe ToLower clock ord key c).1.
Proof. intros Hw. unfold WaitProbe. follow_key. Qed.

Lemma offer_value_reach key v route now c : wf c -> reach c (OfferValue ToLower clock ord key v route now c).1.
Proof.
  intros Hw. unfold OfferValue. assert (R0 : reach c (add1 rejected_1 (add1 offers_1 c))) by (do 2 apply reach_count; apply rtc_refl).
  destruct (parseOpenAICodexTurnState _ _); [|done]. destruct (_ && _); [done|]. destruct (negb _); [done|].
  pose proof (offer_reach key t route now c Hw). destruct (Offer _ _ _ _ _ _ _ c) as [c1 b]. by destruct (negb b).
Qed.

Lemma length_replace_cookie ck l l' : replace_cookie ck l = Some l' -> length l' = length l.
Proof.
  revert l'. induction l as [|x l IH]; intros l'; simpl; [done|]. destruct (_ =?s _); [by intros [= <-]|].
  destruct (replace_cookie ck l); simpl; [|done]. intros [= <-]. simpl. f_equal. by apply IH.
Qed.
Lemma append_cookie_bound l ck :
  (length l <= openAICodexTurnStateMaxCookies -> length (append_cookie l ck) <= openAICodexTurnStateMaxCookies)%nat.
Proof.
  intros Hl. unfold append_cookie. cbv zeta. destruct (_ || _ || _); [done|].
  destruct (replace_cookie _ l) eqn:E; [by rewrite (length_replace_cookie _ _ _ E)|].
  destruct (Nat.leb _ _) eqn:F; [done|]. apply Nat.leb_gt in F. rewrite length_app. simpl. lia.
Qed.
Lemma merge_cookies_bound l l' :
  (length (mergeOpenAICodexTurnStateCookies l l') <= openAICodexTurnStateMaxCookies)%nat.
Proof.
  unfold mergeOpenAICodexTurnStateCookies.
  assert (Hf : forall l0 m, (length m <= openAICodexTurnStateMaxCookies)%nat ->
    (length (fold_left append_cookie l0 m) <= openAICodexTurnStateMaxCookies)%nat).
  { induction l0 as [|x l0 IH]; intros m Hm; simpl; [done|]. apply IH. by apply append_cookie_bound. }
  apply Hf, Hf. simpl. lia.
Qed.

Lemma observe_qualified_reach key v used cks now c :
  wf c -> reach c (ObserveQualified ToLower clock ord key v used cks now c).1.
Proof.
  intros Hw. unfold ObserveQualified. destruct (_ || _); [apply rtc_refl|]. cbv zeta.
  destruct (ValidateOpenAICodexTurnState _ _ _ _) as [t|] eqn:Hv; [|apply rtc_refl].
  assert (Ht : good_token (policy c) t).
  { unfold ValidateOpenAICodexTurnState in Hv. cbv zeta in Hv. rewrite normalized_Blocks in Hv.
    destruct (parseOpenAICodexTurnState v _) as [t'|] eqn:Hp; [|done].
    destruct ((0 <? _) && _) eqn:Hb; [done|]. destruct (Accept _ _ t' _); [|done]. injection Hv as ->. right. split; [eauto|]. intros H0.
    apply andb_false_iff in Hb as [Hb|Hb]; bool_hyps; [lia|done]. }
  follow_entry. destruct (negb (same_active used e)); [done|]. rewrite <- P1 in Ht.
  set (e1 := e <| e_observed := _ |>). set (next := if match cks with [] => false | _ => true end then _ else _).
  assert (Hn : good_entry (policy c1) e -> good_snapshot (policy c1) next).
  { intros [[_ Ha] _]. unfold next. destruct cks; (split; [done|]); [done|apply merge_cookies_bound]. }
  clearbody next. set (c2 := add1 observations_1 c1).
  assert (R2 : reach c1 c2) by (apply reach_count, rtc_refl).
  assert (Hx : forall c3 e3, (if negb (tok_Fingerprint t =?s tok_Fingerprint (sn_Token (e_active e1))) ||
       match cks with [] => false | _ => true end
     then (add1 promotions_1 c2, (e1 <| e_version := u64_succ (e_version e1) |>)
             <| e_active := next <| sn_Version := u64_succ (e_version e1) |> |> <| e_ready := no_snapshot |>
             <| e_candidates := u64_succ (e_candidates e1) |>)
     else (c2, e1)) = (c3, e3) ->
     reach c1 c3 /\ entries c3 = entries c1 /\ policy c3 = policy c1 /\ evolves (policy c1) e e3).
  { intros c3 e3. destruct (_ || _); intros [= <- <-].
    - split; [by apply reach_count|]. split; [done|]. split; [done|]. split; [done|]. split; [done|].
      intros Hg. split; [exact (Hn Hg)|apply good_no_snapshot].
    - split; [done|]. split; [done|]. split; [done|]. split; [done|]. by split. }
  simpl. destruct (if _ || _ then _ else _) as [c3 e3]. destruct (Hx _ _ eq_refl) as (R3 & En3 & P3 & (V1 & V2 & V3)).
  etrans; [exact R1|]. etrans; [exact R3|]. apply (reach_put key1 e); [by rewrite En3|].
  rewrite P3. split; [done|]. split; [done|]. intros Hg. apply (V3 Hg).
Qed.

Lemma observe_reach key v used now c : wf c -> reach c (Observe ToLower clock ord key v used now c).1.
Proof.
  intros Hw. unfold Observe. destruct (_ =?s _); [apply rtc_refl|]. cbv zeta.
  set (c0 := add1 observations_1 c). assert (R0 : reach c c0) by (apply reach_count, rtc_refl).
  apply (reach_trans _ c0); [done|]. assert (Hw0 : wf c0) by (by eapply wf_reach). clearbody c0. clear Hw R0.
  generalize (parseOpenAICodexTurnState v (pol_MaxTokenBytes (policy c0))). intros parsed.
  follow_entry; [|destruct (if parsed is inl _ then false else true); [by apply reach_count|done]].
  set (suspect := match parsed with inl _ => _ | inr _ => true end). clearbody suspect.
  set (e1 := if same_active _ _ then _ else _).
  assert (R2 : reach c0 (put key1 e1 c1)).
  { etrans; [exact R1|]. apply (reach_put key1 e); [done|]. unfold e1. by destruct (same_active _ _). }
  destruct suspect; [by apply reach_count|done].
Qed.
Lemma observe_missing_reach key used now c : wf c -> reach c (ObserveMissing ToLower clock ord key used now c).1.
Proof.
  intros Hw. unfold ObserveMissing. cbv zeta. set (c0 := add1 suspect_1 (add1 observations_1 c)).
  assert (R0 : reach c c0) by (do 2 apply reach_count; apply rtc_refl).
  apply (reach_trans _ c0); [done|]. assert (Hw0 : wf c0) by (by eapply wf_reach). clearbody c0. clear Hw R0.
  follow_entry. etrans; [exact R1|]. apply (reach_put key1 e); [done|]. by destruct (same_active _ _).
Qed.
Lemma reject_reach key used now c : wf c -> reach c (RejectAndPromote ToLower clock ord key used now c).1.
Proof.
  intros Hw. unfold RejectAndPromote. cbv zeta. follow_entry. destruct (negb _); [done|].
  follow_promotion; [simpl; by etrans|]. split; [done|]. split; [done|]. intros [Ha Hr].
  split; [apply good_no_snapshot|done].
Qed.
Lemma force_refresh_evolves p e : evolves p e (force_refresh e).
Proof. split; [done|]. split; [done|]. intros _. split; apply good_no_snapshot. Qed.
Lemma invalidate_reach key used now c : wf c -> reach c (Invalidate ToLower clock ord key used now c).1.
Proof.
  intros Hw. unfold Invalidate. cbv zeta. follow_entry. destruct (negb _); (etrans; [exact R1|]);
    eapply fence_micro; try done; apply force_refresh_evolves.
Qed.
Lemma delete_force_reach key c : wf c -> reach c (DeleteAndForceRefresh ToLower clock ord key c).
Proof.
  intros Hw. unfold DeleteAndForceRefresh. follow_entry. etrans; [exact R1|].
  eapply fence_micro; [done|]. apply force_refresh_evolves.
Qed.
Lemma drop_missing k c : entries c !! k = None -> drop_entry k c = c.
Proof. intros Hk. unfold drop_entry. destruct c. cbn in *. by rewrite delete_id. Qed.
Lemma delete_reach key c : wf c -> reach c (Delete ToLower clock ord key c).
Proof.
  intros Hw. unfold Delete. follow_key. destruct (entries c1 !! key1) as [e|] eqn:Hk.
  - etrans; [exact R1|]. destruct (e_probeDone e) eqn:Hd.
    + eapply fence_micro; [done|]. split; [reflexivity|]. split; [reflexivity|]. intros _. split; apply good_no_snapshot.
    + apply rtc_once. by eapply micro_drop.
  - by rewrite drop_missing.
Qed.
Lemma statuses_loop_reach keys now c : reach c (statuses clock keys now c).1.
Proof.
  revert c. induction keys as [|k keys IH]; intros c; cbn [statuses]; [apply rtc_refl|].
  destruct (entries c !! k) as [e|] eqn:Hk; [|apply IH]. follow_promotion; [|apply evolves_refl].
  pose proof (IH c2) as R3. destruct (statuses clock keys now c2) as [c3 l]. simpl in *. by etrans.
Qed.
Lemma statuses_reach now limit c : reach c (Statuses clock ord now limit c).1.
Proof.
  unfold Statuses. cbv zeta.
  destruct (sweep_reach (iteration (ord_sweep ord) (entries c)) (collectorNow clock now) 64 c) as [R1 _].
  etrans; [exact R1|]. apply statuses_loop_reach.
Qed.

Lemma start_probe_reach key now c : wf c -> reach c (StartProbe ToLower clock ord key now c).1.
Proof.
  intros Hw. unfold StartProbe. cbv zeta. follow_entry. destruct (e_probeDone e) eqn:Hd; [by apply reach_count|].
  destruct (_ <=? _) eqn:Hfull; [by apply reach_count|]. destruct (_ && _); [done|].
  assert (R2 : micro c1 (start_probe key1 e (collectorNow clock now) c1).1) by (apply micro_start; [done..|bool_hyps; lia]).
  destruct (start_probe key1 e _ c1) as [c2 p]. by eapply reach_step.
Qed.
Lemma start_probe_if_needed_reach key now c :
  wf c -> reach c (StartProbeIfRefreshNeeded ToLower clock ord key now c).1.
Proof.
  intros Hw. unfold StartProbeIfRefreshNeeded. cbv zeta. follow_key.
  destruct (entries c1 !! key1) as [e|] eqn:Hk.
  - etrans; [exact R1|]. set (e1 := e <| e_lastAccess := collectorNow clock now |>).
    assert (H1 : evolves (policy c1) e e1) by done. pose proof (reach_put _ _ _ _ Hk H1) as R2.
    etrans; [exact R2|]. apply (start_if_needed_reach key1 e1); [by eapply wf_reach|apply lookup_insert_eq|done].
  - destruct (hasHealthyAccountModelSiblingLocked _ _ _ _ _) as [c2 b] eqn:Hh.
    apply healthy_reach in Hh as (R2 & _). pose proof (reach_trans _ _ _ R1 R2) as R12.
    assert (Hw2 : wf c2) by (by eapply wf_reach). clear Hw1. destruct b; [done|].
    destruct (entryLocked _ _ _ _ _ _ c2) as [c3 r] eqn:He. destruct (entry_facts _ _ _ _ _ _ Hw2 He) as (R3 & Hw3 & _ & H3).
    pose proof (reach_trans _ _ _ R12 R3) as R13. destruct r as [[k' e]|]; [|done]. etrans; [exact R13|].
    apply (start_if_needed_reach k' e); [done|by apply H3|done].
Qed.

Lemma leased_Some pr k c e ch :
  leased pr k c = Some (e, ch) -> entries c !! k = Some e /\ e_probeDone e = Some ch /\ pr_done pr = Some ch.
Proof.
  unfold leased. destruct (entries c !! k) as [e'|]; [|done]. destruct (pr_done pr) as [ch'|]; [|done].
  case_bool_decide; [|done]. by intros [= -> ->].
Qed.
Lemma end_reach k e ch e' c :
  entries c !! k = Some e -> e_probeDone e = Some ch -> e_key e' = e_key e -> e_probeDone e' = None ->
  (good_entry (policy c) e -> good_entry (policy c) e') -> reach c (put k e' (end_probe k e ch c)).
Proof. intros. apply rtc_once. by eapply micro_end. Qed.
Lemma end_probe_put k e ch c : put k (e <| e_probeDone := None |>) (end_probe k e ch c) = end_probe k e ch c.
Proof.
  assert (E : <[k := e <| e_probeDone := None |>]> (entries (end_probe k e ch c)) = entries (end_probe k e ch c))
    by (by rewrite end_probe_entries, insert_insert_eq).
  unfold put. rewrite E. by destruct (end_probe k e ch c).
Qed.
Lemma finish_reach pr now c : wf c -> reach c (FinishProbe ToLower clock ord pr now c).
Proof.
  intros Hw. unfold FinishProbe. destruct (pr_done pr) eqn:Hpr; [|apply rtc_refl]. follow_key.
  destruct (leased pr key1 c1) as [[e ch]|] eqn:Hl; [|done]. apply leased_Some in Hl as (Hk & Hd & _).
  etrans; [exact R1|]. destruct (lease_fenced e pr); by apply (end_reach key1 e ch).
Qed.
Lemma abort_reach pr now c : wf c -> reach c (AbortProbe ToLower clock ord pr now c).
Proof.
  intros Hw. unfold AbortProbe. destruct (pr_done pr) eqn:Hpr; [|apply rtc_refl]. cbv zeta. follow_key.
  destruct (leased pr key1 c1) as [[e ch]|] eqn:Hl; [|done]. apply leased_Some in Hl as (Hk & Hd & _).
  etrans; [exact R1|]. destruct (lease_fenced e pr); [by apply (end_reach key1 e ch)|].
  destruct (e_forceRefresh e); [by apply (end_reach key1 e ch)|].
  assert (R2 : reach c1 (end_probe key1 e ch c1)) by (rewrite <- end_probe_put; by apply (end_reach key1 e ch)).
  destruct (_ && _); [|done]. eapply reach_step; [exact R2|].
  eapply micro_drop; [by rewrite end_probe_entries, lookup_insert_eq|done].
Qed.

(** Every operation is a run of small steps. *)
Lemma perform_reach o c : wf c -> reach c (perform ToLower clock ord o c).
Proof.
  intros Hw. destruct o; cbn [perform];
    auto using bind_reach, is_current_reach, acquire_reach, offer_snapshot_op_reach, offer_reach,
      offer_probe_reach, probe_current_reach, offer_value_reach, observe_qualified_reach, observe_reach,
      observe_missing_reach, reject_reach, invalidate_reach, needs_refresh_reach, status_reach, statuses_reach,
      start_probe_reach, start_probe_if_needed_reach, finish_reach, abort_reach, wait_reach, delete_reach,
      delete_force_reach.
  - unfold OfferIfRefreshNeeded. cbv zeta. by apply (offer_gated_reach key token (fun t => token_snapshot t route)).
  - unfold OfferProbeIfRefreshNeeded. destruct (pr_done probe); [|apply rtc_refl]. cbv zeta.
    by apply (offer_gated_reach (pr_Key probe) token (fun t => token_snapshot t route)).
  - unfold OfferProbeSnapshotIfRefreshNeeded. destruct (pr_done probe); [|apply rtc_refl]. cbv zeta.
    apply (offer_gated_reach (pr_Key probe) (sn_Token snapshot)
      (fun t => normalizeOpenAICodexTurnStateSnapshot (snapshot <| sn_Token := t |>))); [done|].
    intros t. by rewrite normalize_token.
  - unfold DeleteAccount. destruct (_ <=? 0); [apply rtc_refl|]. apply rtc_once, micro_remove.
  - apply rtc_once, micro_clear.
Qed.
End Steps.

(** What holds in any life of a collector. *)
Lemma wf_step ToLower c c' : collector_step ToLower c c' -> wf c -> wf c'.
Proof. intros [clock ord o c0] Hw. by eapply wf_reach; [apply perform_reach|]. Qed.
Lemma wf_steps ToLower c c' : rtc (collector_step ToLower) c c' -> wf c -> wf c'.
Proof. induction 1; eauto using wf_step. Qed.
Lemma steps_reach ToLower c c' : rtc (collector_step ToLower) c c' -> wf c -> reach c c'.
Proof.
  induction 1 as [|c1 c2 c3 Hs _ IH]; intros Hw; [apply rtc_refl|]. destruct Hs as [clock ord o c0].
  pose proof (perform_reach ToLower clock ord o c0 Hw) as R. etrans; [exact R|]. apply IH. by eapply wf_reach.
Qed.
