(* ===== verification/TurnStateProofs.v ===== *)
(** * What the turn state collector guarantees

    Bounds and leases in every life of a collector, fenced probes and retired
    generations that never publish, and what a caller can rely on when it acquires a
    state. *)

From S2P Require Import Prelude Json Encoding TurnState TurnStateCollector TurnStateInvariants TurnStateSteps.
Local Open Scope string_scope.
Local Open Scope Z_scope.
Local Open Scope list_scope.
Local Open Scope go_scope.

(** What a collector of policy [p] can become. *)
Definition reachable (ToLower : string -> string) (p : Policy) (c : Collector) : Prop :=
  rtc (collector_step ToLower) (NewOpenAICodexTurnStateCollector p) c.
Lemma reachable_wf ToLower p c : reachable ToLower p c -> wf c.
Proof. intros Hr. by apply (wf_steps _ _ _ Hr), wf_start. Qed.
Lemma reachable_policy ToLower p c : reachable ToLower p c -> policy c = normalized p.
Proof.
  intros Hr. pose proof (steps_reach _ _ _ Hr (wf_start p)) as R. by rewrite (policy_reach _ _ R (wf_start p)).
Qed.

(** ** Lookups of a stamped key *)

Lemma current_nonzero k c : wf c -> current k c -> key_generation k <> 0.
Proof. intros Hw (g & H1 & <-). by eapply (wf_nonzero _ Hw). Qed.

Section Lookup.
Context (ToLower : string -> string) (clock : Time) (ord : Orders).

(** A stamped key resolves to itself or is stale; nothing but access times changes. *)
Lemma resolve_stamped key now create c c1 k ok :
  wf c -> key_generation (canonical ToLower key) <> 0 ->
  resolveKeyGenerationLocked ToLower ord key now create c = (c1, (k, ok)) ->
  k = canonical ToLower key /\ entries c1 = entries c /\ (ok = false -> entries c !! k = None).
Proof.
  intros Hw Hz. unfold resolveKeyGenerationLocked. set (K := canonical ToLower key) in *.
  replace (negb (key_generation K =? 0)) with true by (symmetry; by rewrite negb_true_iff, Z.eqb_neq).
  assert (Hno : (forall g, accountGenerations c !! key_AccountID K = Some g -> key_generation K <> ag_value g) ->
    entries c !! K = None).
  { intros Hg. destruct (entries c !! K) as [e|] eqn:He; [|done].
    destruct (wf_current _ Hw K e He) as (g & G1 & G2). by destruct (Hg g). }
  destruct (accountGenerations c !! key_AccountID K) as [g|] eqn:Hg.
  - destruct (negb (_ =? ag_value g)) eqn:E; intros [= <- <- <-]; (split; [done|split; [done|]]); [|done].
    intros _. apply Hno. intros g' [= <-]. by bool_hyps.
  - intros [= <- <- <-]. split; [done|]. split; [done|]. intros _. by apply Hno.
Qed.
Lemma entry_stamped key now create c c1 r :
  wf c -> key_generation (canonical ToLower key) <> 0 ->
  entryLocked ToLower clock ord key now create c = (c1, r) ->
  match r with Some (k, e) => k = canonical ToLower key | None => entries c1 !! canonical ToLower key = None end.
Proof.
  intros Hw Hz. unfold entryLocked, find_entry. destruct (resolveKeyGenerationLocked _ _ _ _ _ c) as [c2 [k ok]] eqn:Hr.
  destruct (resolve_stamped _ _ _ _ _ _ _ Hw Hz Hr) as (-> & He & Hno). set (K := canonical ToLower key) in *.
  destruct ok; cbn [negb]; [|intros [= <- <-]; rewrite He; by apply Hno].
  destruct (entries c2 !! K) as [e|] eqn:Hk; [by intros [= <- <-]|].
  destruct create; cbn [negb]; [|by intros [= <- <-]].
  destruct (_ <=? _); [|by intros [= <- <-]]. destruct (oldest _ _ _); intros [= <- <-]; [done|].
  by apply sweep_reach.
Qed.
End Lookup.

(** ** Fenced leases *)

Definition dead (pr : Probe) (c : Collector) : Prop :=
  forall k e, entries c !! k = Some e -> lease_current e pr = false.
(** The lease's channel is held by the entry of its key or by none. *)
Definition located (pr : Probe) (c : Collector) : Prop :=
  forall k e, entries c !! k = Some e -> e_probeDone e = pr_done pr -> k = pr_Key pr.

Lemma made_micro c c' : micro c c' -> wf c -> (made c <= made c')%nat.
Proof.
  intros Hm Hw. destruct Hm; try done.
  - by destruct (removeAccount_spec a b c (wf_core _ Hw)) as (_ & _ & _ & _ & -> & _).
  - subst c'. destruct (next_generation_same c) as (_ & _ & _ & H1 & _).
    destruct (nextGenerationLocked c) as [c1 v]. simpl in *. by rewrite H1.
  - destruct (end_probe_same k e ch c) as (_ & _ & _ & E). change (made c <= made (end_probe k e ch c))%nat. by rewrite E.
  - simpl. lia.
  - unfold DeleteAll; simpl.
    by destruct (end_all_spec (map fst (map_to_list (entries c))) c (wf_core _ Hw)) as (_ & (_ & _ & _ & ->) & _).
Qed.

(** What a small step does to the leases: an entry keeps its lease, is fenced, holds
    none, or holds a new channel. *)
Lemma lease_micro c c' k e' :
  micro c c' -> wf c -> entries c' !! k = Some e' ->
  (exists e, entries c !! k = Some e /\ lease e' = lease e) \/
  (exists e, entries c !! k = Some e /\ e_probeDone e' = e_probeDone e /\ e_probeInvalidated e' = true) \/
  e_probeDone e' = None \/ e_probeDone e' = Some (made c).
Proof.
  intros Hm Hw. assert (Hold : forall c2, entries c2 !! k = Some e' -> entries c2 = entries c ->
    exists e, entries c !! k = Some e /\ lease e' = lease e) by (intros c2 H <-; eauto).
  assert (Hput : forall k0 x, <[k0 := x]> (entries c) !! k = Some e' -> (k = k0 /\ e' = x) \/
    exists e, entries c !! k = Some e /\ lease e' = lease e).
  { intros k0 x [[<- <-]|[_ H]]%lookup_insert_Some; eauto. }
  destruct Hm as [f c|a g now c Hg|a b c|a now c Hg Hs|k0 e c He Hd|k0 now c He Hs Hcur|k0 e x c He Hkey Hl Hgood|
    k0 e x c He Hkey Hd Hi Hgood|k0 e ch x c He Hd Hkey Hd' Hgood|k0 e now c He Hd Hlim|c].
  - intros H. left. by eapply Hold.
  - intros H. left. by eapply Hold.
  - destruct (removeAccount_spec a b c (wf_core _ Hw)) as (_ & _ & _ & _ & _ & ->). case_bool_decide; [done|].
    eauto.
  - subst c'. destruct (next_generation_same c) as (_ & E & _). intros H. left. eapply Hold; [exact H|exact E].
  - unfold drop_entry; simpl. intros [_ H]%lookup_delete_Some. eauto.
  - intros [[-> ->]|H]%Hput; [|by left]. right; right; by left.
  - intros [[-> ->]|H]%Hput; [|by left]. left. eauto.
  - intros [[-> ->]|H]%Hput; [|by left]. right; left. eauto.
  - change (entries (put k0 x (end_probe k0 e ch c))) with (<[k0 := x]> (entries (end_probe k0 e ch c))).
    rewrite end_probe_entries, insert_insert_eq. intros [[-> ->]|H]%Hput; [|by left].
    right; right; by left.
  - destruct (start_probe_entries k0 e now c) as (x & -> & _ & Hx & _). intros [[-> ->]|H]%Hput; [|by left].
    right; right; by right.
  - unfold DeleteAll; simpl. by rewrite lookup_empty.
Qed.

Lemma lease_current_ext e e' pr : lease e' = lease e -> lease_current e' pr = lease_current e pr.
Proof. unfold lease, lease_current. by intros [= -> -> ->]. Qed.
Lemma lease_current_done e pr : lease_current e pr = true -> e_probeDone e = pr_done pr.
Proof. unfold lease_current. intros H%andb_true_iff. destruct H as [H _]. apply andb_true_iff in H as [H _]. by case_bool_decide. Qed.
Lemma not_current e pr : (e_probeDone e <> pr_done pr \/ e_probeInvalidated e = true) -> lease_current e pr = false.
Proof.
  intros H. destruct (lease_current e pr) eqn:E; [|done]. pose proof (lease_current_done _ _ E).
  destruct H as [?|H]; [done|]. unfold lease_current in E. rewrite H, andb_false_r in E. done.
Qed.

Section Lease.
Context (pr : Probe) (ch : Chan) (Hdone : pr_done pr = Some ch).

Lemma fate_micro c c' :
  micro c c' -> wf c -> (ch < made c)%nat ->
  (dead pr c -> dead pr c') /\ (located pr c -> located pr c') /\ (ch < made c')%nat.
Proof.
  intros Hm Hw Hlt. pose proof (made_micro _ _ Hm Hw). split; [|split; [|lia]].
  - intros Hd k e' He'. destruct (lease_micro _ _ _ _ Hm Hw He') as [(e & He & Hl)|[(e & He & Hp & Hi)|[Hn|Hn]]].
    + rewrite (lease_current_ext e) by done. by eapply Hd.
    + apply not_current. by right.
    + apply not_current. left. congruence.
    + apply not_current. left. rewrite Hn, Hdone. intros [= E]. lia.
  - intros Hd k e' He' Hp'. destruct (lease_micro _ _ _ _ Hm Hw He') as [(e & He & Hl)|[(e & He & Hp & Hi)|[Hn|Hn]]].
    + injection Hl as Hl _ _. eapply Hd; [done|congruence].
    + eapply Hd; [done|congruence].
    + congruence.
    + rewrite Hp', Hdone in Hn. injection Hn as E. lia.
Qed.
Lemma fate_reach c c' :
  reach c c' -> wf c -> (ch < made c)%nat ->
  (dead pr c -> dead pr c') /\ (located pr c -> located pr c') /\ (ch < made c')%nat.
Proof.
  induction 1 as [c|c1 c2 c3 Hm _ IH]; [done|]. intros Hw Hlt. destruct (fate_micro _ _ Hm Hw Hlt) as (H1 & H2 & H3).
  destruct IH as (H4 & H5 & H6); [by eapply wf_micro|done|]. auto.
Qed.

(** The lease is dead once the entry of its key is gone or cannot publish. *)
Lemma dead_at c :
  located pr c -> (forall e, entries c !! pr_Key pr = Some e -> lease_current e pr = false) -> dead pr c.
Proof.
  intros Hl Hk k e He. destruct (lease_current e pr) eqn:E; [|done].
  pose proof (Hl k e He (lease_current_done _ _ E)) as ->. by rewrite Hk in E.
Qed.
Lemma fence_dead e : lease_current (fence e) pr = false.
Proof.
  apply not_current. unfold fence. destruct (e_probeDone e) eqn:E; [by right|left]. by rewrite E, Hdone.
Qed.
Lemma force_dead e : lease_current (force_refresh (fence e)) pr = false.
Proof. rewrite (lease_current_ext (fence e)) by done. apply fence_dead. Qed.
End Lease.

(** The calls that end or invalidate a lease: its end, the invalidation or deletion of
    its key, and the deletion of its account. *)
Definition fences (ToLower : string -> string) (pr : Probe) (o : operation) : Prop :=
  match o with
  | OpFinishProbe pr' _ | OpAbortProbe pr' _ => pr' = pr /\ canonical ToLower (pr_Key pr) = pr_Key pr
  | OpInvalidate key _ _ | OpDelete key | OpDeleteAndForceRefresh key => canonical ToLower key = pr_Key pr
  | OpDeleteAccount a => 0 < a /\ key_AccountID (pr_Key pr) = a
  | OpDeleteAll => True
  | _ => False
  end.

Section Fencing.
Context (ToLower : string -> string) (clock : Time) (ord : Orders).
Context (pr : Probe) (ch : Chan) (Hdone : pr_done pr = Some ch) (Hz : key_generation (pr_Key pr) <> 0).

Lemma not_leased c e : leased pr (pr_Key pr) c = None -> entries c !! pr_Key pr = Some e -> lease_current e pr = false.
Proof.
  unfold leased. intros Hl He. rewrite He, Hdone in Hl. case_bool_decide as E; [done|].
  apply not_current. left. by rewrite Hdone.
Qed.
Lemma ended x : e_probeDone x = None -> lease_current x pr = false.
Proof. intros E. apply not_current. left. by rewrite E, Hdone. Qed.

Lemma put_lookup k e c : entries (put k e c) !! k = Some e.
Proof. apply lookup_insert_eq. Qed.

(** The resolved key of an operation on the lease's key. *)
Ltac at_key HK :=
  match goal with
  | Hw : wf ?c |- context [resolveKeyGenerationLocked ?T ?o ?k ?n ?cr ?c] =>
      let c1 := fresh "c1" in let k1 := fresh "k" in let ok := fresh "ok" in
      let E := fresh in let Hno := fresh "Hno" in
      destruct (resolveKeyGenerationLocked T o k n cr c) as [c1 [k1 ok]] eqn:E;
      apply resolve_stamped in E as (-> & He1 & Hno); [|exact Hw|by rewrite HK];
      rewrite HK in *; destruct ok; cbn [negb]; [|specialize (Hno eq_refl); intros x Hx; congruence]
  | Hw : wf ?c |- context [entryLocked ?T ?cl ?o ?k ?n ?cr ?c] =>
      let c1 := fresh "c1" in let r := fresh "r" in let E := fresh in let Hr := fresh "Hr" in
      destruct (entryLocked T cl o k n cr c) as [c1 r] eqn:E;
      pose proof (entry_stamped T cl o k n cr c c1 r Hw ltac:(by rewrite HK) E) as Hr; rewrite HK in Hr;
      destruct r as [[k1 e]|]; [subst k1|intros x Hx; simpl in Hx; congruence]
  end.

Lemma fenced_entry o c x :
  wf c -> fences ToLower pr o ->
  entries (perform ToLower clock ord o c) !! pr_Key pr = Some x -> lease_current x pr = false.
Proof.
  intros Hw Hf. revert x. destruct o; try done; cbn [perform fences] in *.
  - unfold Invalidate. cbv zeta. at_key Hf. destruct (negb (same_active used (fence e))); cbn [fst]; intros x;
      rewrite put_lookup; intros [= <-]; [by eapply fence_dead|by eapply force_dead].
  - destruct Hf as [-> HK]. unfold FinishProbe. rewrite Hdone. at_key HK.
    destruct (leased pr (pr_Key pr) c1) as [[e ch']|] eqn:Hl; [|intros x; by apply not_leased].
    destruct (lease_fenced e pr); intros x; rewrite put_lookup; intros [= <-]; by apply ended.
  - destruct Hf as [-> HK]. unfold AbortProbe. rewrite Hdone. cbv zeta. at_key HK.
    destruct (leased pr (pr_Key pr) c1) as [[e ch']|] eqn:Hl; [|intros x; by apply not_leased].
    destruct (lease_fenced e pr); [intros x; rewrite put_lookup; intros [= <-]; by apply ended|].
    destruct (e_forceRefresh e); [intros x; rewrite put_lookup; intros [= <-]; by apply ended|].
    destruct (_ && _); intros x; [unfold drop_entry; simpl; by rewrite lookup_delete_eq|].
    rewrite end_probe_entries, lookup_insert_eq. intros [= <-]. by apply ended.
  - unfold Delete. at_key Hf. destruct (entries c1 !! pr_Key pr) as [e|] eqn:He.
    + destruct (e_probeDone e) eqn:Hd; intros x; [|unfold drop_entry; simpl; by rewrite lookup_delete_eq].
      rewrite put_lookup. intros [= <-].
      rewrite (lease_current_ext (fence e)) by done. by eapply fence_dead.
    + intros x. unfold drop_entry; simpl. by rewrite lookup_delete_eq.
  - unfold DeleteAndForceRefresh. at_key Hf. intros x. rewrite put_lookup.
    intros [= <-]. by eapply force_dead.
  - destruct Hf as [Ha HK]. unfold DeleteAccount. replace (accountID <=? 0) with false by lia. intros x.
    destruct (removeAccount_spec accountID false c (wf_core _ Hw)) as (_ & _ & _ & _ & _ & ->).
    by rewrite bool_decide_true.
Qed.

Lemma fenced_dead o c :
  wf c -> located pr c -> (ch < made c)%nat -> fences ToLower pr o -> dead pr (perform ToLower clock ord o c).
Proof.
  intros Hw Hl Hlt Hf. pose proof (perform_reach ToLower clock ord o c Hw) as R.
  destruct (fate_reach pr ch Hdone _ _ R Hw Hlt) as (_ & Hl' & _). apply dead_at; [by apply Hl'|].
  intros e. by apply fenced_entry.
Qed.
End Fencing.

(** ** Offers of a dead lease *)

(** What the entries hold, apart from access times. *)
Definition contents (c : Collector) : gmap Key (Snapshot * Snapshot) :=
  (fun e => (e_active e, e_ready e)) <$> entries c.
Lemma contents_touched k e e' c :
  entries c !! k = Some e -> e_active e' = e_active e -> e_ready e' = e_ready e -> contents (put k e' c) = contents c.
Proof.
  intros Hk Ha Hr. unfold contents, put; simpl. rewrite fmap_insert, Ha, Hr. apply insert_id.
  by rewrite lookup_fmap, Hk.
Qed.

Section DeadOffers.
Context (ToLower : string -> string) (clock : Time) (ord : Orders).
Context (pr : Probe) (ch : Chan) (Hdone : pr_done pr = Some ch).

Lemma resolve_contents key now c :
  entries (resolveKeyGenerationLocked ToLower ord key now false c).1 = entries c.
Proof.
  unfold resolveKeyGenerationLocked. destruct (accountGenerations c !! _); destruct (negb (_ =? 0)); try done.
  by destruct (negb _).
Qed.
(** The lookup of an existing entry moves its access time. *)
Lemma lookup_contents key now c c1 r :
  entryLocked ToLower clock ord key now false c = (c1, r) ->
  contents c1 = contents c /\ match r with
    | Some (k, e) => exists e0, entries c !! k = Some e0 /\ lease e = lease e0 /\ entries c1 !! k = Some e
    | None => True end.
Proof.
  unfold entryLocked, find_entry. pose proof (resolve_contents key (collectorNow clock now) c) as He.
  destruct (resolveKeyGenerationLocked _ _ _ _ _ c) as [c2 [k ok]]. simpl in He. unfold contents at 2. rewrite <- He.
  destruct ok; cbn [negb]; [|by intros [= <- <-]].
  destruct (entries c2 !! k) as [e|] eqn:Hk; [|by intros [= <- <-]]. intros [= <- <-].
  split; [by eapply contents_touched|]. exists e. split; [done|]. split; [done|]. apply lookup_insert_eq.
Qed.

Lemma dead_offer_locked s now c c' b :
  dead pr c -> offerSnapshotLocked ToLower clock ord (pr_Key pr) s now (Some pr) c = (c', b) ->
  b = false /\ contents c' = contents c.
Proof.
  intros Hd. unfold offerSnapshotLocked. cbv zeta.
  destruct (entryLocked _ _ _ _ _ _ c) as [c1 r] eqn:E. apply lookup_contents in E as [Hc Hr].
  destruct r as [[k e]|]; [|intros [= <- <-]; done]. destruct Hr as (e0 & He0 & Hl & _).
  rewrite (lease_current_ext e0) by done. rewrite (Hd _ _ He0). cbn [negb]. by intros [= <- <-].
Qed.
Lemma dead_offer_needed s now c c' b :
  dead pr c -> offerSnapshotIfRefreshNeededLocked ToLower clock ord (pr_Key pr) s now (Some pr) c = (c', b) ->
  b = OfferRejected /\ contents c' = contents c.
Proof.
  intros Hd. unfold offerSnapshotIfRefreshNeededLocked. cbv zeta.
  pose proof (resolve_contents (pr_Key pr) now c) as He.
  destruct (resolveKeyGenerationLocked _ _ _ _ _ c) as [c1 [k ok]]. simpl in He. unfold contents at 2. rewrite <- He.
  destruct ok; cbn [negb]; [|by intros [= <- <-]].
  destruct (entries c1 !! k) as [e|] eqn:Hk; [|by intros [= <- <-]].
  unfold offer_if_needed. rewrite (lease_current_ext e) by done. rewrite (Hd k e) by congruence. cbn [negb].
  intros [= <- <-]. split; [done|]. by apply (contents_touched k e).
Qed.
Lemma normalize_contents t now c : contents (normalizeOfferToken clock t now c).1 = contents c /\
  entries (normalizeOfferToken clock t now c).1 = entries c.
Proof.
  unfold normalizeOfferToken. destruct (_ || _); [done|]. destruct (parseOpenAICodexTurnState _ _); [|done].
  by destruct (Accept _ _ _ _).
Qed.
Lemma dead_ext c c' : entries c' = entries c -> dead pr c -> dead pr c'.
Proof. unfold dead. by intros ->. Qed.

Lemma dead_offers token route snapshot now c :
  dead pr c ->
  ((OfferProbe ToLower clock ord pr token route now c).2 = false /\
   contents (OfferProbe ToLower clock ord pr token route now c).1 = contents c) /\
  ((OfferProbeIfRefreshNeeded ToLower clock ord pr token route now c).2 = OfferRejected /\
   contents (OfferProbeIfRefreshNeeded ToLower clock ord pr token route now c).1 = contents c) /\
  ((OfferProbeSnapshotIfRefreshNeeded ToLower clock ord pr snapshot now c).2 = OfferRejected /\
   contents (OfferProbeSnapshotIfRefreshNeeded ToLower clock ord pr snapshot now c).1 = contents c).
Proof.
  intros Hd. unfold OfferProbe, OfferProbeIfRefreshNeeded, OfferProbeSnapshotIfRefreshNeeded. rewrite Hdone. cbv zeta.
  split; [|split].
  - pose proof (normalize_contents token (collectorNow clock now) (add1 offers_1 c)) as [Hc He].
    change (contents (add1 offers_1 c)) with (contents c) in Hc.
    change (entries (add1 offers_1 c)) with (entries c) in He.
    destruct (normalizeOfferToken _ _ _ _) as [c1 [t|]]; simpl in *; [|done].
    destruct (offerSnapshotLocked _ _ _ _ _ _ _ c1) as [c2 b] eqn:E. rewrite <- Hc.
    eapply dead_offer_locked; [|exact E]. by eapply dead_ext.
  - pose proof (normalize_contents token (collectorNow clock now) c) as [Hc He].
    destruct (normalizeOfferToken _ _ _ _) as [c1 [t|]]; simpl in *; [|done].
    destruct (offerSnapshotIfRefreshNeededLocked _ _ _ _ _ _ _ c1) as [c2 b] eqn:E. rewrite <- Hc.
    eapply dead_offer_needed; [|exact E]. by eapply dead_ext.
  - pose proof (normalize_contents (sn_Token snapshot) (collectorNow clock now) c) as [Hc He].
    destruct (normalizeOfferToken _ _ _ _) as [c1 [t|]]; simpl in *; [|done].
    destruct (offerSnapshotIfRefreshNeededLocked _ _ _ _ _ _ _ c1) as [c2 b] eqn:E. rewrite <- Hc.
    eapply dead_offer_needed; [|exact E]. by eapply dead_ext.
Qed.
End DeadOffers.

(** ** Started leases *)

(** One of the two calls that grant a lease granted [pr]. *)
Definition grants (ToLower : string -> string) (c c1 : Collector) (pr : Probe) : Prop :=
  exists clock ord key now,
    StartProbe ToLower clock ord key now c = (c1, (pr, true)) \/
    StartProbeIfRefreshNeeded ToLower clock ord key now c = (c1, (pr, ProbeStarted)).

(** What is known of a lease from then on. *)
Definition held (pr : Probe) (c : Collector) : Prop :=
  exists ch, pr_done pr = Some ch /\ (ch < made c)%nat /\ located pr c /\ key_generation (pr_Key pr) <> 0.

Lemma start_held k e now c :
  wf c -> entries c !! k = Some e -> e_probeDone e = None ->
  held (start_probe k e now c).2 (start_probe k e now c).1.
Proof.
  intros Hw He Hn. exists (made c). split; [done|].
  assert (Hkey : e_key e = k) by (by apply (core_keys _ (wf_core _ Hw) k e)).
  assert (Hpk : pr_Key (start_probe k e now c).2 = k).
  { rewrite <- Hkey. unfold start_probe. cbv zeta. simpl. by destruct (u64_succ _ =? 0). }
  split; [simpl; lia|]. split.
  - intros i x. destruct (start_probe_entries k e now c) as (e' & -> & _). rewrite Hpk.
    intros [[<- _]|[_ Hi]]%lookup_insert_Some Hd; [done|]. change (e_probeDone x = Some (made c)) in Hd.
    destruct (core_open _ (wf_core _ Hw) i (made c)); [|lia]. apply in_flight_Some. eauto.
  - rewrite Hpk. eapply current_nonzero; [done|]. by eapply wf_current.
Qed.

Lemma start_if_needed_held clock ord key e now c c1 pr :
  wf c -> entries c !! key = Some e -> start_if_needed clock ord key e now c = (c1, (pr, ProbeStarted)) ->
  held pr c1.
Proof.
  intros Hw Hk. unfold start_if_needed. destruct (promoteLocked clock key e now c) as [c2 e1] eqn:Hp.
  destruct (promote_reach _ _ _ _ _ _ _ _ Hk (evolves_refl _ _) Hp) as (R1 & Hk1 & _).
  pose proof (wf_reach _ _ R1 Hw) as Hw1. destruct (negb (needsRefreshLocked _ _ _ _)); [done|].
  assert (Hkey : e_key e1 = key) by (by apply (core_keys _ (wf_core _ Hw1) key e1)).
  assert (Hh : forall c3 b, (if e_forceRefresh e1 then (c2, false)
     else hasHealthyAccountModelSiblingLocked clock (ord_siblings_again ord) (e_key e1) now c2) = (c3, b) ->
     wf c3 /\ entries c3 !! key = Some e1).
  { intros c3 b. destruct (e_forceRefresh e1); [by intros [= <- <-]|]. rewrite Hkey.
    intros (R2 & _ & _ & _ & Q2)%healthy_reach. rewrite Q2. split; [by eapply wf_reach|done]. }
  destruct (if e_forceRefresh e1 then _ else _) as [c3 b]. destruct (Hh _ _ eq_refl) as (Hw3 & Hk3).
  destruct b; [done|]. destruct (e_probeDone e1) eqn:Hd; [done|]. destruct (_ <=? _); [done|].
  destruct (_ && _); [done|]. pose proof (start_held key e1 now c3 Hw3 Hk3 Hd) as Hheld.
  destruct (start_probe key e1 now c3) as [c4 p]. by intros [= <- <-].
Qed.

Lemma grants_held ToLower c c1 pr : wf c -> grants ToLower c c1 pr -> held pr c1 /\ wf c1.
Proof.
  intros Hw (clock & ord & key & now & Hg).
  assert (Hr : reach c c1).
  { destruct Hg as [Hg|Hg].
    - pose proof (start_probe_reach ToLower clock ord key now c Hw) as R. by rewrite Hg in R.
    - pose proof (start_probe_if_needed_reach ToLower clock ord key now c Hw) as R. by rewrite Hg in R. }
  split; [|by eapply wf_reach]. destruct Hg as [Hg|Hg].
  - unfold StartProbe in Hg. cbv zeta in Hg.
    destruct (entryLocked _ _ _ _ _ _ c) as [c2 r] eqn:E. destruct (entry_facts _ _ _ _ _ _ _ _ _ Hw E) as (_ & Hw2 & _ & H2).
    destruct r as [[k e]|]; [|done]. destruct (H2 _ _ eq_refl) as (Hk & Hkey & _).
    destruct (e_probeDone e) eqn:Hd; [done|]. destruct (_ <=? _); [done|]. destruct (_ && _); [done|].
    pose proof (start_held k e (collectorNow clock now) c2 Hw2 Hk Hd) as Hheld.
    destruct (start_probe k e _ c2) as [c3 p]. by injection Hg as <- <-.
  - unfold StartProbeIfRefreshNeeded in Hg. cbv zeta in Hg.
    destruct (resolveKeyGenerationLocked _ _ _ _ _ c) as [c2 [k ok]] eqn:E.
    destruct (resolve_facts _ _ _ _ _ _ _ _ _ Hw E) as (_ & Hw2 & _). destruct ok; [|done]. cbn [negb] in Hg.
    destruct (entries c2 !! k) as [e|] eqn:Hk.
    + set (e1 := e <| e_lastAccess := _ |>) in Hg.
      assert (R2 : reach c2 (put k e1 c2)) by (by apply (reach_put k e)).
      eapply (start_if_needed_held _ _ k e1 _ (put k e1 c2)); [by eapply wf_reach|apply put_lookup|exact Hg].
    + destruct (hasHealthyAccountModelSiblingLocked _ _ _ _ _) as [c3 b] eqn:Hh.
      apply healthy_reach in Hh as (R2 & _). assert (Hw3 : wf c3) by (by eapply wf_reach). destruct b; [done|].
      destruct (entryLocked _ _ _ _ _ _ c3) as [c4 r] eqn:E4. destruct (entry_facts _ _ _ _ _ _ _ _ _ Hw3 E4) as (_ & Hw4 & _ & H4).
      destruct r as [[k' e]|]; [|done]. destruct (H4 _ _ eq_refl) as (Hk4 & _).
      by eapply start_if_needed_held.
Qed.

Lemma held_steps ToLower pr c c' :
  rtc (collector_step ToLower) c c' -> wf c -> held pr c -> wf c' /\ held pr c' /\ (dead pr c -> dead pr c').
Proof.
  intros Hs Hw (ch & H1 & H2 & H3 & H4). pose proof (steps_reach _ _ _ Hs Hw) as R.
  destruct (fate_reach pr ch H1 _ _ R Hw H2) as (F1 & F2 & F3). split; [by eapply wf_reach|].
  split; [exists ch; auto|done].
Qed.

(** C35.  A probe that was fenced never publishes: from the moment its lease ends or its
    key is invalidated or deleted, with whatever other calls of any callers before and
    after, every offer of that probe is rejected and leaves what the entries hold. *)
Theorem fenced_probe_cannot_publish ToLower p c0 c1 pr c2 clock ord o c3 clock' ord' token route snapshot now :
  reachable ToLower p c0 -> grants ToLower c0 c1 pr -> rtc (collector_step ToLower) c1 c2 ->
  fences ToLower pr o -> rtc (collector_step ToLower) (perform ToLower clock ord o c2) c3 ->
  ((OfferProbe ToLower clock' ord' pr token route now c3).2 = false /\
   contents (OfferProbe ToLower clock' ord' pr token route now c3).1 = contents c3) /\
  ((OfferProbeIfRefreshNeeded ToLower clock' ord' pr token route now c3).2 = OfferRejected /\
   contents (OfferProbeIfRefreshNeeded ToLower clock' ord' pr token route now c3).1 = contents c3) /\
  ((OfferProbeSnapshotIfRefreshNeeded ToLower clock' ord' pr snapshot now c3).2 = OfferRejected /\
   contents (OfferProbeSnapshotIfRefreshNeeded ToLower clock' ord' pr snapshot now c3).1 = contents c3).
Proof.
  intros Hr Hg H12 Hf H3. destruct (grants_held _ _ _ _ (reachable_wf _ _ _ Hr) Hg) as [Hh1 Hw1].
  destruct (held_steps _ _ _ _ H12 Hw1 Hh1) as (Hw2 & (ch & D1 & D2 & D3 & D4) & _).
  pose proof (fenced_dead ToLower clock ord pr ch D1 D4 o c2 Hw2 D3 D2 Hf) as Hdead.
  assert (Hstep : rtc (collector_step ToLower) c2 (perform ToLower clock ord o c2)) by (apply rtc_once; constructor).
  destruct (held_steps _ pr _ _ Hstep Hw2 ltac:(exists ch; auto)) as (Hw2' & Hh2' & _).
  destruct (held_steps _ _ _ _ H3 Hw2' Hh2') as (_ & _ & Hd3). by apply (dead_offers ToLower clock' ord' pr ch D1), Hd3.
Qed.

(** ** Bounds *)

(** C33.  In every life of a collector its size stays bounded: at most [MaxEntries]
    (65536 whatever is configured) entries and as many accounts, at most [MaxProbeSlots]
    (64) probes, of which [probes] is the exact count, and at most 64 cookies in a
    stored state; every entry is stored under its own key, in the current generation of
    its account. *)
Theorem collector_bounded ToLower p c :
  reachable ToLower p c ->
  let q := normalized p in
  pol_MaxEntries q <= 65536 /\ pol_MaxProbeSlots q <= 64 /\
  Z.of_nat (size (entries c)) <= pol_MaxEntries q /\
  Z.of_nat (size (accountGenerations c)) <= pol_MaxEntries q /\
  probes c = Z.of_nat (size (in_flight c)) /\ probes c <= pol_MaxProbeSlots q /\
  forall k e, entries c !! k = Some e ->
    e_key e = k /\ current k c /\
    (length (sn_HarvestCookies (e_active e)) <= 64)%nat /\ (length (sn_HarvestCookies (e_ready e)) <= 64)%nat.
Proof.
  intros Hr q. pose proof (reachable_wf _ _ _ Hr) as [Hcore Ha Hc _].
  pose proof (core_room _ Hcore) as H1. pose proof (core_slots _ Hcore) as H2. pose proof (core_size _ Hcore) as H3.
  pose proof (core_probes _ Hcore) as H4. pose proof (core_limit _ Hcore) as H5. pose proof (core_keys _ Hcore) as H6.
  rewrite (reachable_policy _ _ _ Hr) in *.
  split; [apply H1|]. split; [apply H2|]. split; [done|]. split; [done|]. split; [done|].
  split; [done|]. intros k e He. destruct (H6 k e He) as [Hk [[_ Ha'] [_ Hr']]].
  split; [done|]. split; [by eapply Hc|]. by split.
Qed.

(** ** Waiters *)

Lemma end_probe_closes k e ch c : ch ∈ closed (end_probe k e ch c).
Proof. unfold end_probe, add1, close_chan, put. simpl. destruct (0 <? probes c); simpl; set_solver. Qed.

Lemma ended_closed ToLower clock ord pr ch now c :
  wf c -> held pr c -> pr_done pr = Some ch -> canonical ToLower (pr_Key pr) = pr_Key pr ->
  ch ∈ closed (FinishProbe ToLower clock ord pr now c) /\ ch ∈ closed (AbortProbe ToLower clock ord pr now c).
Proof.
  intros Hw (ch' & D1 & D2 & D3 & D4) Hch HK. rewrite Hch in D1. injection D1 as <-.
  (* if nobody holds the channel, it is closed already and stays so *)
  assert (Hfree : forall c', reach c c' -> entries c' = entries c -> made c' = made c ->
    (forall e, entries c !! pr_Key pr = Some e -> e_probeDone e <> Some ch) -> ch ∈ closed c').
  { intros c' R He Hm Hno. pose proof (wf_core _ (wf_reach _ _ R Hw)) as Hcore.
    destruct (core_released _ Hcore ch) as [?|[k Hk]]; [lia|done|]. apply in_flight_Some in Hk as (e & Hk & Hd).
    rewrite He in Hk. pose proof (D3 k e Hk ltac:(congruence)) as ->. by destruct (Hno e). }
  unfold FinishProbe, AbortProbe. rewrite Hch. cbv zeta.
  destruct (resolveKeyGenerationLocked _ _ _ _ _ c) as [c1 [k ok]] eqn:E.
  destruct (resolve_facts _ _ _ _ _ _ _ _ _ Hw E) as (R1 & Hw1 & _).
  assert (Hm1 : made c1 = made c).
  { unfold resolveKeyGenerationLocked in E. destruct (accountGenerations c !! _); destruct (negb (_ =? 0));
      try destruct (negb (_ =? ag_value _)); simpl in E; by injection E as <- <- <-. }
  apply resolve_stamped in E as (-> & He1 & Hno); [|done|by rewrite HK]. rewrite HK in *.
  destruct ok; cbn [negb].
  2: { split; apply (Hfree c1); try done; intros e He; by rewrite Hno in He. }
  destruct (leased pr (pr_Key pr) c1) as [[e ch']|] eqn:Hl.
  - apply leased_Some in Hl as (Hk & Hd & Hp). rewrite Hch in Hp. injection Hp as <-. split.
    + destruct (lease_fenced e pr); apply (end_probe_closes (pr_Key pr) e ch c1).
    + destruct (lease_fenced e pr); [apply (end_probe_closes (pr_Key pr) e ch c1)|].
      destruct (e_forceRefresh e); [apply (end_probe_closes (pr_Key pr) e ch c1)|].
      destruct (_ && _); apply (end_probe_closes (pr_Key pr) e ch c1).
  - assert (Hx : forall e, entries c !! pr_Key pr = Some e -> e_probeDone e <> Some ch).
    { intros e He Hd. unfold leased in Hl. rewrite He1, He, Hch in Hl. by rewrite bool_decide_true in Hl. }
    split; by apply (Hfree c1).
Qed.

(** C34.  Waiting for a probe ends with the probe: no channel is ever closed twice (the
    program does not panic); every channel that a lease was granted with is closed
    already or held by exactly one entry, which counts as a probe in flight; and when
    the owner of a lease finishes or aborts it, whatever happened in between, its
    channel is closed and the waiters go on. *)
Theorem waiters_released ToLower p c0 c1 pr c2 clock ord now :
  reachable ToLower p c0 -> grants ToLower c0 c1 pr -> rtc (collector_step ToLower) c1 c2 ->
  canonical ToLower (pr_Key pr) = pr_Key pr ->
  closed_twice c2 = false /\
  (forall ch : Chan, (ch < made c2)%nat ->
     ch ∈ closed c2 \/ exists k, in_flight c2 !! k = Some ch /\ forall k', in_flight c2 !! k' = Some ch -> k' = k) /\
  exists ch, pr_done pr = Some ch /\
    ch ∈ closed (FinishProbe ToLower clock ord pr now c2) /\ ch ∈ closed (AbortProbe ToLower clock ord pr now c2).
Proof.
  intros Hr Hg H12 HK. destruct (grants_held _ _ _ _ (reachable_wf _ _ _ Hr) Hg) as [Hh1 Hw1].
  destruct (held_steps _ _ _ _ H12 Hw1 Hh1) as (Hw2 & Hh2 & _). pose proof (wf_core _ Hw2) as Hcore.
  split; [by apply core_once|]. split.
  - intros ch Hlt. destruct (core_released _ Hcore ch Hlt) as [?|[k Hk]]; [by left|right]. exists k. split; [done|].
    intros k' Hk'. by apply (core_distinct _ Hcore _ _ ch).
  - pose proof Hh2 as (ch & D1 & _). exists ch. split; [done|]. by apply ended_closed.
Qed.

(** ** Acquired states *)

Lemma collectorNow_idem clock now : collectorNow clock (collectorNow clock now) = collectorNow clock now.
Proof. unfold collectorNow, IsZero. by destruct (now =? 0) eqn:E; [destruct (clock =? 0)|rewrite E]. Qed.
Lemma limits_keep q :
  pol_TTL (normalized_limits q) = pol_TTL q /\ pol_ClockSkew (normalized_limits q) = pol_ClockSkew q.
Proof.
  unfold normalized_limits. cbv zeta.
  repeat match goal with |- context [if ?b then _ else _] => destruct b end; done.
Qed.
Lemma windows_positive q :
  0 < pol_TTL (normalized_windows q) /\ 0 < pol_ClockSkew (normalized_windows q).
Proof.
  unfold normalized_windows. cbv zeta.
  repeat match goal with |- context [if ?b then _ else _] => destruct b eqn:?; simpl in * end; bool_hyps; split;
    unfold openAICodexTurnStateCollectorDefaultTTL, openAICodexTurnStateCollectorDefaultClockSkew, Hour, Minute, Second in *;
    lia.
Qed.
Lemma windows_keep q : 0 < pol_TTL q -> 0 < pol_ClockSkew q ->
  pol_TTL (normalized_windows q) = pol_TTL q /\ pol_ClockSkew (normalized_windows q) = pol_ClockSkew q.
Proof.
  intros H1 H2. unfold normalized_windows. cbv zeta.
  repeat match goal with |- context [if ?b then _ else _] => destruct b eqn:?; simpl in * end; bool_hyps; split; lia.
Qed.
Lemma normalized_lifetime p :
  pol_TTL (normalized (normalized p)) = pol_TTL (normalized p) /\
  pol_ClockSkew (normalized (normalized p)) = pol_ClockSkew (normalized p).
Proof.
  change (normalized (normalized p)) with (normalized_limits (normalized_windows (normalized p))).
  destruct (limits_keep (normalized_windows (normalized p))) as [-> ->].
  assert (H : 0 < pol_TTL (normalized p) /\ 0 < pol_ClockSkew (normalized p)).
  { unfold normalized. destruct (limits_keep (normalized_windows p)) as [-> ->]. apply windows_positive. }
  destruct H. by apply windows_keep.
Qed.

(** A state that [Acquire] calls usable can be sent: its token came out of the
    parser of the wire format, has the configured shape and is within its lifetime (with
    the clock skew on either side), it is the active state of the key's own entry, and
    that entry belongs to the account's current generation. *)
Theorem acquired_state_valid ToLower p c clock ord key now c' s :
  reachable ToLower p c -> Acquire ToLower clock ord key now c = (c', (s, true)) ->
  let q := normalized p in
  let t := sn_Token s in
  let now := collectorNow clock now in
  (exists v m, parseOpenAICodexTurnState v m = inl t) /\
  (0 < pol_Blocks q -> tok_Blocks t = pol_Blocks q) /\
  tok_IssuedAt t <= now + pol_ClockSkew q /\
  now < tok_IssuedAt t + pol_TTL q - pol_ClockSkew q /\
  exists k e, entries c' !! k = Some e /\ e_active e = s /\ current k c'.
Proof.
  intros Hr Ha q t now'. pose proof (reachable_wf _ _ _ Hr) as Hw. pose proof (reachable_policy _ _ _ Hr) as Hp.
  pose proof (acquire_reach ToLower clock ord key now c Hw) as R. rewrite Ha in R. simpl in R.
  pose proof (wf_reach _ _ R Hw) as Hw'. pose proof (policy_reach _ _ R Hw) as Hp'. rewrite Hp in Hp'.
  unfold Acquire in Ha. cbv zeta in Ha. fold now' in Ha.
  destruct (entryLocked _ _ _ _ _ _ c) as [c1 r] eqn:E. destruct (entry_facts _ _ _ _ _ _ _ _ _ Hw E) as (_ & Hw1 & _ & H1).
  destruct r as [[k e]|]; [|done]. destruct (H1 _ _ eq_refl) as (Hk & _ & Hcur).
  destruct (promoteLocked clock k e now' c1) as [c2 e2] eqn:Hpr.
  destruct (promote_reach _ _ _ _ _ _ _ _ Hk (evolves_refl _ _) Hpr) as (_ & Hk2 & _ & (_ & G2 & _)).
  injection Ha as -> <- Hu. rewrite Hp' in Hu. fold q in Hu. unfold usable in Hu. fold t in Hu.
  assert (Hc : current k c') by (unfold current; by rewrite G2).
  destruct (core_keys _ (wf_core _ Hw') k e2 Hk2) as [_ [[Hg _] _]]. rewrite Hp' in Hg. fold q t in Hg.
  unfold Accept in Hu. destruct (_ || _ || _) eqn:E1; [done|]. destruct (_ && _) eqn:E2; [done|].
  unfold now' in Hu. rewrite collectorNow_idem in Hu. fold now' in Hu.
  destruct (normalized_lifetime p) as [L1 L2]. fold q in L1, L2. rewrite L1, L2 in Hu.
  destruct (_ <? tok_IssuedAt t) eqn:E3; [done|].
  split; [|split; [|split; [|split]]].
  - destruct Hg as [Hg|[Hg _]]; [|done]. by rewrite Hg in E1.
  - destruct Hg as [Hg|[_ Hg]]; [by rewrite Hg in E1|]. exact Hg.
  - bool_hyps. lia.
  - bool_hyps. lia.
  - eauto.
Qed.

(** ** Healthy states *)

Section Healthy.
Context (ToLower : string -> string) (clock : Time) (ord : Orders).

(** A healthy active state stays, whatever waits behind it. *)
Lemma promote_healthy p e now :
  needsRefreshLocked clock p e now = false ->
  exists r, promote_entry clock p now e = (e <| e_ready := r |>, false).
Proof.
  unfold needsRefreshLocked, promote_entry. intros Hn.
  destruct (Accept clock p (sn_Token (e_active e)) now) eqn:Ha; simpl in Hn; [|done].
  destruct (2 <=? e_strikes e) eqn:Hs; [done|].
  assert (Hid : e = e <| e_ready := e_ready e |>) by (by destruct e).
  destruct (_ || negb (Accept _ _ _ _)); [destruct (negb (tok_Value _ =?s _) && _); [by exists no_snapshot|exists (e_ready e); f_equal; exact Hid]|].
  destruct (_ =?s _); [by exists no_snapshot|]. cbv zeta. cbn [negb orb].
  destruct (0 <? pol_RefreshBefore p) eqn:Hb; simpl in *.
  - rewrite Hn, andb_false_r. exists (e_ready e). f_equal. exact Hid.
  - rewrite andb_false_r. exists (e_ready e). f_equal. exact Hid.
Qed.
Lemma needs_same p e e' now :
  e_active e' = e_active e -> e_strikes e' = e_strikes e ->
  needsRefreshLocked clock p e' now = needsRefreshLocked clock p e now.
Proof. unfold needsRefreshLocked. by intros -> ->. Qed.

(** Looking up the entry of a stamped key. *)
Lemma lookup_stamped key now create c e :
  wf c -> entries c !! canonical ToLower key = Some e ->
  exists c1, resolveKeyGenerationLocked ToLower ord key now create c = (c1, (canonical ToLower key, true)) /\
    entries c1 = entries c /\ policy c1 = policy c /\ counts c1 = counts c.
Proof.
  intros Hw He. pose proof (current_nonzero _ _ Hw (wf_current _ Hw _ _ He)) as Hz.
  destruct (wf_current _ Hw _ _ He) as (g & G1 & G2). unfold resolveKeyGenerationLocked.
  rewrite G1. replace (negb (key_generation (canonical ToLower key) =? 0)) with true
    by (symmetry; by rewrite negb_true_iff, Z.eqb_neq).
  rewrite <- G2, Z.eqb_refl. by eexists.
Qed.
Lemma promote_locked_healthy key e now c :
  needsRefreshLocked clock (policy c) e now = false ->
  exists r, promoteLocked clock key e now c = (put key (e <| e_ready := r |>) c, e <| e_ready := r |>).
Proof. intros Hn. destruct (promote_healthy _ _ _ Hn) as [r Hr]. exists r. unfold promoteLocked. by rewrite Hr. Qed.
(** Offering to a healthy entry. *)
Lemma offer_entry_healthy key e s now c :
  needsRefreshLocked clock (policy c) e now = false ->
  tok_Fingerprint (sn_Token s) <> tok_Fingerprint (sn_Token (e_active e)) ->
  e_active <$> entries (offerSnapshotEntryLocked clock key e s now c) !! key = Some (e_active e).
Proof.
  intros Hn Hf. unfold offerSnapshotEntryLocked. cbv zeta. rewrite normalize_token.
  rewrite (proj2 (String.eqb_neq (tok_Fingerprint (sn_Token (e_active e))) _)) by congruence.
  assert (Ha : Accept clock (policy c) (sn_Token (e_active e)) now = true).
  { unfold needsRefreshLocked in Hn. by destruct (Accept clock (policy c) (sn_Token (e_active e)) now). }
  rewrite Ha. cbn [negb]. set (e1 := if _ || _ || _ then _ else e).
  assert (H1 : e_active e1 = e_active e /\ e_strikes e1 = e_strikes e) by (unfold e1; by destruct (_ || _ || _)).
  destruct H1 as [A1 S1]. rewrite <- (needs_same (policy c) e e1 now A1 S1) in Hn.
  destruct (promote_locked_healthy key e1 now c Hn) as [r ->].
  change (e_active <$> entries (put key ((e1 <| e_ready := r |>) <| e_candidates := u64_succ (e_candidates e1) |>)
    (put key (e1 <| e_ready := r |>) c)) !! key = Some (e_active e)). rewrite put_lookup. simpl. by rewrite A1.
Qed.

Context (key : Key) (now : Time) (c : Collector) (e : Entry).
Let K := canonical ToLower key.
Context (Hw : wf c) (He : entries c !! K = Some e) (Hnow : collectorNow clock now = now).
Context (Hn : needsRefreshLocked clock (policy c) e now = false).
Let e1 := e <| e_lastAccess := now |>.

Lemma offer_healthy s :
  tok_Fingerprint (sn_Token s) <> tok_Fingerprint (sn_Token (e_active e)) ->
  exists c', offerSnapshotLocked ToLower clock ord key s now None c = (c', true) /\
    e_active <$> entries c' !! K = Some (e_active e).
Proof.
  intros Hf. destruct (lookup_stamped key now true c e Hw He) as (c1 & R1 & E1 & P1 & _).
  unfold offerSnapshotLocked. cbv zeta. unfold entryLocked. rewrite Hnow, R1. cbn [negb].
  unfold find_entry. fold K. rewrite E1, He. eexists. split; [reflexivity|].
  refine (offer_entry_healthy K e1 s now (put K e1 c1) _ Hf). change (policy (put K e1 c1)) with (policy c1). by rewrite P1.
Qed.
(** The promotion that the gated operations start with. *)
Lemma gate_closed c1 :
  policy c1 = policy c ->
  exists e2, promoteLocked clock K e1 now (put K e1 c1) = (put K e2 (put K e1 c1), e2) /\
    needsRefreshLocked clock (policy c1) e2 now = false /\ e_active e2 = e_active e.
Proof.
  intros P1. assert (Hn1 : needsRefreshLocked clock (policy (put K e1 c1)) e1 now = false)
    by (change (policy (put K e1 c1)) with (policy c1); by rewrite P1).
  destruct (promote_locked_healthy K e1 now (put K e1 c1) Hn1) as [r ->]. by exists (e1 <| e_ready := r |>).
Qed.
Lemma gated_healthy s :
  exists c', offerSnapshotIfRefreshNeededLocked ToLower clock ord key s now None c = (c', OfferSkippedHealthy) /\
    e_active <$> entries c' !! K = Some (e_active e) /\ counts c' = counts c.
Proof.
  destruct (lookup_stamped key now true c e Hw He) as (c1 & R1 & E1 & P1 & C1).
  unfold offerSnapshotIfRefreshNeededLocked. cbv zeta. rewrite R1. cbn [negb]. fold K. rewrite E1, He.
  unfold offer_if_needed. fold e1. destruct (gate_closed c1 P1) as (e2 & -> & Hn2 & A2).
  change (policy (put K e2 (put K e1 c1))) with (policy c1). rewrite Hn2. cbn [negb orb].
  eexists. split; [reflexivity|]. rewrite put_lookup. split; [simpl; by rewrite A2|exact C1].
Qed.
Lemma start_healthy :
  exists c', StartProbeIfRefreshNeeded ToLower clock ord key now c = (c', (no_probe, ProbeSkippedHealthy)) /\
    e_active <$> entries c' !! K = Some (e_active e).
Proof.
  destruct (lookup_stamped key now true c e Hw He) as (c1 & R1 & E1 & P1 & C1).
  unfold StartProbeIfRefreshNeeded. cbv zeta. rewrite Hnow, R1. cbn [negb]. fold K. rewrite E1, He.
  unfold start_if_needed. fold e1. destruct (gate_closed c1 P1) as (e2 & -> & Hn2 & A2).
  change (policy (put K e2 (put K e1 c1))) with (policy c1). rewrite Hn2. cbn [negb].
  eexists. split; [reflexivity|]. rewrite put_lookup. simpl. by rewrite A2.
Qed.
End Healthy.

(** A healthy state is not replaced: while the active state of a bound key is
    accepted by the policy, has fewer than two strikes and is not yet due for refresh,
    an offered valid token with another fingerprint is accepted as a candidate but the
    active state stays; the gated offer is skipped without counting; and no probe is
    started. *)
Theorem healthy_state_kept ToLower p c clock ord key now e token t route :
  let now' := collectorNow clock now in
  let K := canonical ToLower key in
  reachable ToLower p c ->
  entries c !! K = Some e -> needsRefreshLocked clock (policy c) e now' = false ->
  tok_Value token <> "" -> tok_Fingerprint token <> "" ->
  parseOpenAICodexTurnState (tok_Value token) (pol_MaxTokenBytes (policy c)) = inl t ->
  Accept clock (policy c) t now' = true ->
  tok_Fingerprint t <> tok_Fingerprint (sn_Token (e_active e)) ->
  let '(c1, offered) := Offer ToLower clock ord key token route now c in
  let '(c2, gated) := OfferIfRefreshNeeded ToLower clock ord key token route now c in
  let '(c3, started) := StartProbeIfRefreshNeeded ToLower clock ord key now c in
  offered = true /\ e_active <$> entries c1 !! K = Some (e_active e) /\
  gated = OfferSkippedHealthy /\ e_active <$> entries c2 !! K = Some (e_active e) /\ counts c2 = counts c /\
  started = (no_probe, ProbeSkippedHealthy) /\ e_active <$> entries c3 !! K = Some (e_active e).
Proof.
  intros now' K Hr He Hn Hv Hf Hp Ha Hne. pose proof (reachable_wf _ _ _ Hr) as Hw.
  assert (Hnorm : forall c0, policy c0 = policy c -> normalizeOfferToken clock token now' c0 = (c0, Some t)).
  { intros c0 P0. unfold normalizeOfferToken. rewrite (proj2 (String.eqb_neq _ _) Hv), (proj2 (String.eqb_neq _ _) Hf).
    cbn [orb]. by rewrite P0, Hp, Ha. }
  pose proof (collectorNow_idem clock now : collectorNow clock now' = now') as Hnow.
  assert (Hw0 : wf (add1 offers_1 c)) by (eapply wf_reach; [apply reach_count, rtc_refl|done]).
  destruct (offer_healthy ToLower clock ord key now' (add1 offers_1 c) e Hw0 He Hnow Hn (token_snapshot t route) Hne)
    as (c1 & E1 & A1).
  destruct (gated_healthy ToLower clock ord key now' c e Hw He Hn (token_snapshot t route)) as (c2 & E2 & A2 & C2).
  destruct (start_healthy ToLower clock ord key now' c e Hw He Hnow Hn) as (c3 & E3 & A3).
  unfold Offer, OfferIfRefreshNeeded. cbv zeta. fold now'. rewrite !Hnorm by done. rewrite E1, E2.
  assert (E3' : StartProbeIfRefreshNeeded ToLower clock ord key now c = StartProbeIfRefreshNeeded ToLower clock ord key now' c)
    by (unfold StartProbeIfRefreshNeeded; fold now'; by rewrite Hnow).
  rewrite E3', E3. done.
Qed.

(** ** A concrete life *)

Section Life.
Let low (s : string) : string := s.
Let ord := MkOrders [] [] [] [] [].
Let clock := Unix 1700000100.
Definition life_policy : Policy := MkPolicy 1 0 (5 * Minute) 0 0 16 0 0 false.
Definition life_value : string :=
  "gAAAAABlU_EAAAECAwQFBgcICQoLDA0ODxAREhMUFRYXGBkaGxwdHh8gISIjJCUmJygpKissLS4vMDEyMzQ1Njc4OTo7PD0-Pw==".
Definition life_key : Key := MkKey 7 "scope" "model" 0.
Definition life_start : Collector := NewOpenAICodexTurnStateCollector life_policy.
Definition life_bound : Collector := (BindKey low clock ord life_key life_start).1.
Definition life_stamped : Key := (BindKey low clock ord life_key life_start).2.
Definition life_token : Token :=
  match ParseOpenAICodexTurnState life_value with inl t => t | inr _ => no_token end.
Definition life_offered : Collector := (Offer low clock ord life_stamped life_token "route" clock life_bound).1.
Definition life_probed : Collector := (StartProbe low clock ord life_stamped clock life_bound).1.
Definition life_probe : Probe := (StartProbe low clock ord life_stamped clock life_bound).2.1.

Example life_parsed : life_token = MkToken life_value "eda5202ca1ce1a86" (Unix 1700000000) 1.
Proof. vm_compute. reflexivity. Qed.

Lemma life_reaches : reachable low life_policy life_bound /\ reachable low life_policy life_offered.
Proof.
  assert (H : reachable low life_policy life_bound) by (apply rtc_once, (collector_op low clock ord (OpBindKey life_key))).
  split; [exact H|]. eapply rtc_r; [exact H|].
  apply (collector_op low clock ord (OpOffer life_stamped life_token "route" clock)).
Defined.

Lemma collector_bounded_witness :
  let q := normalized life_policy in
  pol_MaxEntries q <= 65536 /\ pol_MaxProbeSlots q <= 64 /\
  Z.of_nat (size (entries life_offered)) <= pol_MaxEntries q /\
  Z.of_nat (size (accountGenerations life_offered)) <= pol_MaxEntries q /\
  probes life_offered = Z.of_nat (size (in_flight life_offered)) /\ probes life_offered <= pol_MaxProbeSlots q /\
  forall k e, entries life_offered !! k = Some e ->
    e_key e = k /\ current k life_offered /\
    (length (sn_HarvestCookies (e_active e)) <= 64)%nat /\ (length (sn_HarvestCookies (e_ready e)) <= 64)%nat.
Proof. apply (collector_bounded low life_policy life_offered). exact (proj2 life_reaches). Defined.

Lemma life_grant : grants low life_bound life_probed life_probe.
Proof.
  exists clock, ord, life_stamped, clock. left. unfold life_probed, life_probe.
  assert (H : (StartProbe low clock ord life_stamped clock life_bound).2.2 = true) by (vm_compute; reflexivity).
  destruct (StartProbe low clock ord life_stamped clock life_bound) as [c [pr b]]. simpl in *. by subst b.
Defined.

Lemma waiters_released_witness :
  closed_twice life_probed = false /\
  (forall ch : Chan, (ch < made life_probed)%nat ->
     ch ∈ closed life_probed \/
     exists k, in_flight life_probed !! k = Some ch /\ forall k', in_flight life_probed !! k' = Some ch -> k' = k) /\
  exists ch, pr_done life_probe = Some ch /\
    ch ∈ closed (FinishProbe low clock ord life_probe clock life_probed) /\
    ch ∈ closed (AbortProbe low clock ord life_probe clock life_probed).
Proof.
  apply (waiters_released low life_policy life_bound life_probed life_probe life_probed clock ord clock).
  - exact (proj1 life_reaches).
  - exact life_grant.
  - apply rtc_refl.
  - vm_compute. reflexivity.
Defined.

Lemma fenced_probe_cannot_publish_witness :
  let c := DeleteAll life_probed in
  (OfferProbe low clock ord life_probe life_token "route" clock c).2 = false /\
  contents (OfferProbe low clock ord life_probe life_token "route" clock c).1 = contents c.
Proof.
  exact (proj1 (fenced_probe_cannot_publish low life_policy life_bound life_probed life_probe life_probed clock ord
    OpDeleteAll (DeleteAll life_probed) clock ord life_token "route" no_snapshot clock
    (proj1 life_reaches) life_grant (rtc_refl _ _) I (rtc_refl _ _))).
Defined.

Lemma life_acquired :
  Acquire low clock ord life_stamped clock life_offered =
    ((Acquire low clock ord life_stamped clock life_offered).1,
     ((Acquire low clock ord life_stamped clock life_offered).2.1, true)).
Proof.
  assert (H : (Acquire low clock ord life_stamped clock life_offered).2.2 = true) by (vm_compute; reflexivity).
  destruct (Acquire low clock ord life_stamped clock life_offered) as [c [s b]]. simpl in *. by subst b.
Defined.
Lemma acquired_state_valid_witness :
  let t := sn_Token (Acquire low clock ord life_stamped clock life_offered).2.1 in
  exists v m, parseOpenAICodexTurnState v m = inl t.
Proof.
  exact (proj1 (acquired_state_valid low life_policy life_offered clock ord life_stamped clock
    _ _ (proj2 life_reaches) life_acquired)).
Defined.

(** The active entry, healthy, and another valid token. *)
Definition life_other : Token :=
  match ParseOpenAICodexTurnState
    "gAAAAABlU_EAAQECAwQFBgcICQoLDA0ODxAREhMUFRYXGBkaGxwdHh8gISIjJCUmJygpKissLS4vMDEyMzQ1Njc4OTo7PD0-Pw==" with
  | inl t => t | inr _ => no_token end.
Definition life_entry : Entry := default (new_entry life_key 0) (entries life_offered !! life_stamped).
Lemma healthy_state_kept_witness :
  let '(c1, offered) := Offer low clock ord life_stamped life_other "route" clock life_offered in
  offered = true /\ e_active <$> entries c1 !! canonical low life_stamped = Some (e_active life_entry).
Proof.
  pose proof (healthy_state_kept low life_policy life_offered clock ord life_stamped clock life_entry life_other
    life_other "route" (proj2 life_reaches) ltac:(vm_compute; reflexivity) ltac:(vm_compute; reflexivity)
    ltac:(vm_compute; congruence) ltac:(vm_compute; congruence) ltac:(vm_compute; reflexivity)
    ltac:(vm_compute; reflexivity) ltac:(vm_compute; congruence)) as H.
  destruct (Offer low clock ord life_stamped life_other "route" clock life_offered) as [c1 o].
  destruct (OfferIfRefreshNeeded low clock ord life_stamped life_other "route" clock life_offered) as [c2 g].
  destruct (StartProbeIfRefreshNeeded low clock ord life_stamped clock life_offered) as [c3 st].
  exact (conj (proj1 H) (proj1 (proj2 H))).
Defined.
End Life.
