(* ===== verification/TurnStateGenerations.v ===== *)
(** * Retired generations of the turn state collector

    Generations come from one sequence: an operation introduces at most one new value,
    the next of the sequence.  So a generation that was invalidated never becomes
    current again, and requests stamped with it are refused for good. *)

From S2P Require Import Prelude Json Encoding TurnState TurnStateCollector TurnStateInvariants TurnStateSteps.
From S2P Require Import TurnStateProofs.
Local Open Scope string_scope.
Local Open Scope Z_scope.
Local Open Scope list_scope.
Local Open Scope go_scope.

(** The accounts keep their generations (or lose them), and the sequence stands still. *)
Definition settled (c c' : Collector) : Prop :=
  generationSequence c' = generationSequence c /\
  forall a g', accountGenerations c' !! a = Some g' ->
    exists g, accountGenerations c !! a = Some g /\ ag_value g' = ag_value g.
(** At most one new generation, the next one. *)
Definition renews (c c' : Collector) : Prop :=
  settled c c' \/
  (generationSequence c' = (nextGenerationLocked c).2 /\
   forall a g', accountGenerations c' !! a = Some g' ->
     (exists g, accountGenerations c !! a = Some g /\ ag_value g' = ag_value g) \/
     ag_value g' = (nextGenerationLocked c).2).

Lemma settled_refl c c' :
  generationSequence c' = generationSequence c -> accountGenerations c' = accountGenerations c -> settled c c'.
Proof. intros H1 H2. split; [done|]. rewrite H2. eauto. Qed.
Lemma settled_trans c1 c2 c3 : settled c1 c2 -> settled c2 c3 -> settled c1 c3.
Proof.
  intros [A1 A2] [B1 B2]. split; [congruence|]. intros a g' H3. destruct (B2 _ _ H3) as (g2 & H2 & E2).
  destruct (A2 _ _ H2) as (g1 & H1 & E1). exists g1. split; [done|congruence].
Qed.
Lemma renews_settled c1 c2 c3 : renews c1 c2 -> settled c2 c3 -> renews c1 c3.
Proof.
  intros [A|[A1 A2]] B; [left; by eapply settled_trans|right]. destruct B as [B1 B2]. split; [congruence|].
  intros a g' H3. destruct (B2 _ _ H3) as (g2 & H2 & E2). destruct (A2 _ _ H2) as [(g1 & H1 & E1)|E1].
  - left. exists g1. split; [done|congruence].
  - right. congruence.
Qed.
Lemma settled_renews c1 c2 c3 :
  generationSequence c2 = generationSequence c1 -> accountGenerations c2 = accountGenerations c1 ->
  renews c2 c3 -> renews c1 c3.
Proof.
  intros Hs Hg. unfold renews, settled. rewrite Hs, Hg.
  assert (E : (nextGenerationLocked c2).2 = (nextGenerationLocked c1).2).
  { unfold nextGenerationLocked. cbv zeta. simpl. rewrite Hs. by destruct (_ =? 0). }
  by rewrite E.
Qed.
#[export] Hint Extern 1 (settled _ _) => (apply settled_refl; reflexivity) : s2q.

(** ** Helpers leave the generations alone *)

Lemma remove_entries_gens keys a b c :
  generationSequence (remove_entries keys a b c) = generationSequence c /\
  accountGenerations (remove_entries keys a b c) = accountGenerations c.
Proof.
  revert c. induction keys as [|k keys IH]; intros c; cbn [remove_entries]; [done|].
  match goal with |- generationSequence (_ ?x) = _ /\ _ => destruct (IH x) as [-> ->] end.
  destruct (entries c !! k) as [e|]; [|done]. destruct (negb _); [done|].
  destruct (e_probeDone e) as [ch|]; [|by destruct b].
  destruct (end_probe_same k e ch c) as (_ & H2 & H3 & _). destruct b; by split.
Qed.
Lemma remove_settled a b c : settled c (removeAccountLocked a b c).
Proof.
  unfold removeAccountLocked. cbv zeta. set (c1 := c <| accountGenerations := _ |>).
  destruct (remove_entries_gens (map fst (map_to_list (entries c1))) a b c1) as [H1 H2].
  split; [done|]. rewrite H2. unfold c1; simpl. intros i g [_ H]%lookup_delete_Some. eauto.
Qed.
Lemma touch_settled a g now c : accountGenerations c !! a = Some g -> settled c (touch_account a g now c).
Proof.
  intros Hg. split; [done|]. unfold touch_account; simpl. intros i g' [[<- <-]|[_ H]]%lookup_insert_Some; eauto.
Qed.
Lemma end_all_gens keys c :
  generationSequence (end_all keys c) = generationSequence c /\ accountGenerations (end_all keys c) = accountGenerations c.
Proof.
  revert c. induction keys as [|k keys IH]; intros c; cbn [end_all]; [done|].
  match goal with |- generationSequence (_ ?x) = _ /\ _ => destruct (IH x) as [-> ->] end.
  destruct (entries c !! k) as [e|]; [|done]. destruct (e_probeDone e) as [ch|]; [|done].
  by destruct (end_probe_same k e ch c) as (_ & H2 & H3 & _).
Qed.
Lemma next_renewed c :
  let c' := (nextGenerationLocked c).1 in
  generationSequence c' = (nextGenerationLocked c).2 /\ accountGenerations c' = accountGenerations c.
Proof. unfold nextGenerationLocked. cbv zeta. simpl. by destruct (_ =? 0). Qed.

Section Gens.
Context (ToLower : string -> string) (clock : Time) (ord : Orders).

Lemma promote_settled k e now c : settled c (promoteLocked clock k e now c).1.
Proof. unfold promoteLocked. destruct (promote_entry _ _ _ _) as [e' []]; simpl; auto with s2q. Qed.
Lemma sweep_settled keys now limit c : settled c (sweep keys now limit c).
Proof.
  revert limit c. induction keys as [|k keys IH]; intros [|limit] c; cbn [sweep]; auto with s2q.
  destruct (entries c !! k); [|apply IH]. destruct (_ && _ && _); [|apply IH].
  eapply settled_trans; [|apply IH]. auto with s2q.
Qed.
Lemma healthy_settled keys key now c : settled c (healthy_among clock keys key now c).1.
Proof.
  revert c. induction keys as [|k keys IH]; intros c; cbn [healthy_among]; [auto with s2q|].
  destruct (entries c !! k) as [s|]; [|apply IH]. destruct (is_sibling _ _ _); [|apply IH].
  pose proof (promote_settled k s now c) as H1. destruct (promoteLocked _ _ _ _ c) as [c1 s1]. simpl in H1.
  destruct (negb _); [done|]. eapply settled_trans; [done|apply IH].
Qed.
Lemma statuses_settled keys now c : settled c (statuses clock keys now c).1.
Proof.
  revert c. induction keys as [|k keys IH]; intros c; cbn [statuses]; [auto with s2q|].
  destruct (entries c !! k) as [e|]; [|apply IH].
  pose proof (promote_settled k e now c) as H1. destruct (promoteLocked _ _ _ _ c) as [c1 e1].
  pose proof (IH c1) as H2. destruct (statuses clock keys now c1) as [c2 l]. simpl in *. by eapply settled_trans.
Qed.

Lemma admit_renews a now c :
  accountGenerations c !! a = None -> renews c (admitAccountGenerationLocked ord a now c).1.
Proof.
  intros Ha. unfold admitAccountGenerationLocked. rewrite Ha.
  set (c1 := if pol_MaxEntries (policy c) <=? _ then _ else c).
  assert (H1 : settled c c1).
  { unfold c1. destruct (_ <=? _); [|auto with s2q]. destruct (oldest _ _ _); [apply remove_settled|auto with s2q]. }
  clearbody c1. destruct (next_renewed c1) as [N1 N2].
  assert (Hn : (nextGenerationLocked c1).2 = (nextGenerationLocked c).2).
  { unfold nextGenerationLocked. cbv zeta. simpl. destruct H1 as [-> _]. by destruct (_ =? 0). }
  destruct (nextGenerationLocked c1) as [c2 v]. simpl in *. right. simpl. split; [congruence|].
  intros i g [[<- <-]|[_ H]]%lookup_insert_Some; [by right|left]. rewrite N2 in H.
  destruct H1 as [_ H1]. by apply H1.
Qed.
Lemma resolve_renews key now create c :
  renews c (resolveKeyGenerationLocked ToLower ord key now create c).1.
Proof.
  unfold resolveKeyGenerationLocked. set (K := canonical ToLower key).
  destruct (accountGenerations c !! key_AccountID K) as [g|] eqn:Hg; destruct (negb (key_generation K =? 0)).
  - destruct (negb _); left; [auto with s2q|by apply touch_settled].
  - left. by apply touch_settled.
  - left. auto with s2q.
  - destruct (negb create); [left; auto with s2q|].
    pose proof (admit_renews _ now c Hg) as H. by destruct (admitAccountGenerationLocked _ _ _ _) as [c1 g].
Qed.
(** A stamped key admits no generation. *)
Lemma resolve_stamped_settled key now create c :
  key_generation key <> 0 -> settled c (resolveKeyGenerationLocked ToLower ord key now create c).1.
Proof.
  intros Hz. unfold resolveKeyGenerationLocked. set (K := canonical ToLower key).
  replace (negb (key_generation K =? 0)) with true by (symmetry; by rewrite negb_true_iff, Z.eqb_neq).
  destruct (accountGenerations c !! key_AccountID K) as [g|] eqn:Hg; [|auto with s2q].
  destruct (negb _); [auto with s2q|by apply touch_settled].
Qed.
Lemma find_settled k now create c : settled c (find_entry ord k now create c).1.
Proof.
  unfold find_entry. destruct (entries c !! k); [auto with s2q|].
  destruct create; cbn [negb]; [|auto with s2q]. cbv zeta.
  pose proof (sweep_settled (iteration (ord_sweep ord) (entries c)) now 32 c) as H1.
  fold (sweepLocked ord now 32 c) in H1. destruct (_ <=? _); [destruct (oldest _ _ _)|];
    (eapply settled_trans; [exact H1|]); auto with s2q.
Qed.
Lemma entry_renews key now create c : renews c (entryLocked ToLower clock ord key now create c).1.
Proof.
  unfold entryLocked. pose proof (resolve_renews key (collectorNow clock now) create c) as H.
  destruct (resolveKeyGenerationLocked _ _ _ _ _ c) as [c1 [k ok]]. simpl in H.
  destruct ok; cbn [negb]; [|exact H]. eapply renews_settled; [exact H|apply find_settled].
Qed.
Lemma entry_settled key now create c :
  key_generation key <> 0 -> settled c (entryLocked ToLower clock ord key now create c).1.
Proof.
  intros Hz. unfold entryLocked. pose proof (resolve_stamped_settled key (collectorNow clock now) create c Hz) as H.
  destruct (resolveKeyGenerationLocked _ _ _ _ _ c) as [c1 [k ok]]. simpl in H.
  destruct ok; cbn [negb]; [|exact H]. eapply settled_trans; [exact H|apply find_settled].
Qed.

Lemma offer_entry_settled k e s now c : settled c (offerSnapshotEntryLocked clock k e s now c).
Proof.
  unfold offerSnapshotEntryLocked. cbv zeta. destruct (_ =?s _); [auto with s2q|].
  destruct (Accept clock _ (sn_Token (e_active e)) now); cbn [negb]; [|auto with s2q].
  set (e1 := if _ || _ || _ then _ else e). pose proof (promote_settled k e1 now c) as H.
  destruct (promoteLocked _ _ _ _ c) as [c1 e2]. eapply settled_trans; [exact H|]. auto with s2q.
Qed.
Lemma maybe_healthy_settled (b : bool) order key now c :
  settled c (if b then (c, false) else hasHealthyAccountModelSiblingLocked clock order key now c).1.
Proof. destruct b; [auto with s2q|apply healthy_settled]. Qed.
Lemma offer_if_needed_settled key e s now pr c : settled c (offer_if_needed clock ord key e s now pr c).1.
Proof.
  unfold offer_if_needed. destruct (match pr with Some _ => _ | None => _ end); [auto with s2q|].
  pose proof (promote_settled key e now c) as H1. destruct (promoteLocked _ _ _ _ c) as [c1 e1]. cbv zeta.
  destruct (_ || _); [exact H1|].
  pose proof (maybe_healthy_settled (e_forceRefresh e1) (ord_siblings_again ord) (e_key e1) now c1) as H2.
  destruct (if e_forceRefresh e1 then _ else _) as [c2 b]. pose proof (settled_trans _ _ _ H1 H2) as H12.
  destruct b; [exact H12|]. eapply settled_trans; [exact H12|]. apply (offer_entry_settled key e1 s now (add1 offers_1 c2)).
Qed.
Lemma start_if_needed_settled key e now c : settled c (start_if_needed clock ord key e now c).1.
Proof.
  unfold start_if_needed.
  pose proof (promote_settled key e now c) as H1. destruct (promoteLocked _ _ _ _ c) as [c1 e1].
  destruct (negb (needsRefreshLocked _ _ _ _)); [exact H1|].
  pose proof (maybe_healthy_settled (e_forceRefresh e1) (ord_siblings_again ord) (e_key e1) now c1) as H2.
  destruct (if e_forceRefresh e1 then _ else _) as [c2 b]. pose proof (settled_trans _ _ _ H1 H2) as H12.
  destruct b; [exact H12|]. destruct (e_probeDone e1); [exact H12|]. destruct (_ <=? _); [exact H12|].
  destruct (_ && _); [exact H12|]. exact H12.
Qed.

(** An operation that looks its entry up first. *)
Ltac after_entry :=
  match goal with
  | |- context [entryLocked ?T ?cl ?o ?k ?n ?cr ?c] =>
      let R := fresh "R" in pose proof (entry_renews k n cr c) as R;
      destruct (entryLocked T cl o k n cr c) as [c1 [[k1 e]|]]; cbn [fst] in R; [|try exact R]
  end.
Ltac after_key :=
  match goal with
  | |- context [resolveKeyGenerationLocked ?T ?o ?k ?n ?cr ?c] =>
      let R := fresh "R" in pose proof (resolve_renews k n cr c) as R;
      destruct (resolveKeyGenerationLocked T o k n cr c) as [c1 [k1 ok]] eqn:Eres; cbn [fst] in R;
      destruct ok; cbn [negb]; [|exact R]
  end.
Ltac then_settled := match goal with R : renews ?c _ |- renews ?c _ => eapply renews_settled; [exact R|] end.

Lemma offer_locked_renews key s now pr c : renews c (offerSnapshotLocked ToLower clock ord key s now pr c).1.
Proof.
  unfold offerSnapshotLocked. cbv zeta. after_entry.
  destruct (match pr with Some probe => negb (lease_current e probe) | None => false end); [exact R|].
  then_settled. apply (offer_entry_settled k1 e s now c1).
Qed.
Lemma normalize_keeps t now c :
  generationSequence (normalizeOfferToken clock t now c).1 = generationSequence c /\
  accountGenerations (normalizeOfferToken clock t now c).1 = accountGenerations c.
Proof.
  unfold normalizeOfferToken. destruct (_ || _); [done|]. destruct (parseOpenAICodexTurnState _ _); [|done].
  by destruct (Accept _ _ _ _).
Qed.
Lemma resolved_nonzero key now create c c1 k :
  wf c -> resolveKeyGenerationLocked ToLower ord key now create c = (c1, (k, true)) -> key_generation k <> 0.
Proof.
  intros Hw E. destruct (resolve_reach _ _ _ _ _ _ _ _ _ Hw E) as [R Hc].
  eapply current_nonzero; [by eapply wf_reach|by apply Hc].
Qed.
Lemma offer_refresh_renews key s now pr c :
  wf c -> renews c (offerSnapshotIfRefreshNeededLocked ToLower clock ord key s now pr c).1.
Proof.
  intros Hw. unfold offerSnapshotIfRefreshNeededLocked. cbv zeta. after_key.
  apply resolved_nonzero in Eres; [|done]. destruct (entries c1 !! k1) as [e|].
  - then_settled. apply (offer_if_needed_settled k1 _ s now pr (put k1 _ c1)).
  - destruct (if pr is None then true else false); [|exact R].
    pose proof (healthy_settled (iteration (ord_siblings ord) (entries c1)) k1 now c1) as H2.
    fold (hasHealthyAccountModelSiblingLocked clock (ord_siblings ord) k1 now c1) in H2.
    destruct (hasHealthyAccountModelSiblingLocked _ _ _ _ c1) as [c2 b]. cbn [fst] in H2.
    destruct b; [then_settled; exact H2|]. then_settled. eapply settled_trans; [exact H2|].
    pose proof (entry_settled k1 now true c2 Eres) as H3.
    destruct (entryLocked _ _ _ _ _ _ c2) as [c3 [[k3 e]|]]; [|exact H3].
    eapply settled_trans; [exact H3|]. apply offer_if_needed_settled.
Qed.
Lemma gated_renews key t (s : Token -> Snapshot) now pr c :
  wf c ->
  renews c (let '(c, token) := normalizeOfferToken clock t now c in
            match token with
            | None => (add1 offers_1 c, OfferRejected)
            | Some token => offerSnapshotIfRefreshNeededLocked ToLower clock ord key (s token) now pr c
            end).1.
Proof.
  intros Hw. destruct (normalize_keeps t now c) as [H1 H2].
  destruct (normalizeOfferToken _ _ _ _) as [c1 r] eqn:E. cbn [fst] in *.
  apply normalizeOffer_reach in E as (R1 & _). destruct r as [t'|]; [|left; by apply settled_refl].
  apply (settled_renews _ c1); [done|done|]. apply offer_refresh_renews. by eapply wf_reach.
Qed.
Lemma plain_renews key t (s : Token -> Snapshot) now pr c :
  renews c (let '(c, token) := normalizeOfferToken clock t now (add1 offers_1 c) in
            match token with
            | None => (c, false)
            | Some token => offerSnapshotLocked ToLower clock ord key (s token) now pr c
            end).1.
Proof.
  destruct (normalize_keeps t now (add1 offers_1 c)) as [H1 H2].
  destruct (normalizeOfferToken _ _ _ _) as [c1 [t'|]]; cbn [fst] in *; [|left; by apply settled_refl].
  apply (settled_renews _ c1); [done|done|]. apply offer_locked_renews.
Qed.
Lemma offer_renews key t route now c : renews c (Offer ToLower clock ord key t route now c).1.
Proof. apply (plain_renews key t (fun t => token_snapshot t route)). Qed.
Lemma promoted_renews {A} key now c (f : Collector -> Entry -> A) (g : A) :
  renews c (let '(c, e) := entryLocked ToLower clock ord key now false c in
            match e with
            | None => (c, g)
            | Some (key, e) => let '(c, e) := promoteLocked clock key e now c in (c, f c e)
            end).1.
Proof.
  after_entry. then_settled. pose proof (promote_settled k1 e now c1) as H. by destruct (promoteLocked _ _ _ _ c1).
Qed.

Lemma observe_qualified_renews key v used cks now c :
  renews c (ObserveQualified ToLower clock ord key v used cks now c).1.
Proof.
  unfold ObserveQualified. destruct (_ || _); [left; auto with s2q|]. cbv zeta.
  destruct (ValidateOpenAICodexTurnState _ _ _ _); [|left; auto with s2q]. after_entry.
  destruct (negb (same_active _ _)); [exact R|]. then_settled.
  destruct (negb _ || _); auto with s2q.
Qed.
Lemma observe_renews key v used now c : renews c (Observe ToLower clock ord key v used now c).1.
Proof.
  unfold Observe. destruct (_ =?s _); [left; auto with s2q|]. cbv zeta.
  apply (settled_renews _ (add1 observations_1 c)); [done|done|].
  generalize (parseOpenAICodexTurnState v (pol_MaxTokenBytes (policy (add1 observations_1 c)))). intros parsed.
  after_entry.
  - then_settled. destruct parsed as [t|]; [destruct (negb _)|]; auto with s2q.
  - then_settled. destruct parsed; auto with s2q.
Qed.
Lemma start_renews key now c : renews c (StartProbe ToLower clock ord key now c).1.
Proof.
  unfold StartProbe. cbv zeta. after_entry. destruct (e_probeDone e); [exact R|]. destruct (_ <=? _); [exact R|].
  destruct (_ && _); exact R.
Qed.
Lemma start_refresh_renews key now c :
  wf c -> renews c (StartProbeIfRefreshNeeded ToLower clock ord key now c).1.
Proof.
  intros Hw. unfold StartProbeIfRefreshNeeded. cbv zeta. after_key. apply resolved_nonzero in Eres; [|done].
  destruct (entries c1 !! k1) as [e|].
  - then_settled. apply (start_if_needed_settled k1 _ (collectorNow clock now) (put k1 _ c1)).
  - set (now' := collectorNow clock now).
    pose proof (healthy_settled (iteration (ord_siblings ord) (entries c1)) k1 now' c1) as H2.
    fold (hasHealthyAccountModelSiblingLocked clock (ord_siblings ord) k1 now' c1) in H2.
    destruct (hasHealthyAccountModelSiblingLocked _ _ _ _ c1) as [c2 b]. cbn [fst] in H2.
    destruct b; [then_settled; exact H2|]. then_settled. eapply settled_trans; [exact H2|].
    pose proof (entry_settled k1 now' true c2 Eres) as H3.
    destruct (entryLocked _ _ _ _ _ _ c2) as [c3 [[k3 e]|]]; [|exact H3].
    eapply settled_trans; [exact H3|]. apply start_if_needed_settled.
Qed.
Lemma end_probe_settled k e ch c : settled c (end_probe k e ch c).
Proof. destruct (end_probe_same k e ch c) as (_ & H2 & H3 & _). by apply settled_refl. Qed.
Lemma end_put_settled k e ch e' c : settled c (put k e' (end_probe k e ch c)).
Proof. eapply settled_trans; [apply end_probe_settled|]. auto with s2q. Qed.

Lemma perform_renews o c : wf c -> renews c (perform ToLower clock ord o c).
Proof.
  intros Hw. destruct o; cbn [perform].
  - unfold BindKey. cbv zeta. after_key. exact R.
  - unfold IsCurrentKey. cbv zeta. left. destruct (accountGenerations c !! _) eqn:E; [by apply touch_settled|auto with s2q].
  - apply (promoted_renews key (collectorNow clock now) c (fun c e => (e_active e, usable clock (e_active e) (policy c) (collectorNow clock now)))).
  - apply (plain_renews key (sn_Token snapshot) (fun t => normalizeOpenAICodexTurnStateSnapshot (snapshot <| sn_Token := t |>))).
  - apply offer_renews.
  - unfold OfferProbe. destruct (pr_done probe); [|left; auto with s2q].
    apply (plain_renews (pr_Key probe) token (fun t => token_snapshot t route)).
  - by apply (gated_renews key token (fun t => token_snapshot t route)).
  - unfold OfferProbeIfRefreshNeeded. destruct (pr_done probe); [|left; auto with s2q].
    by apply (gated_renews (pr_Key probe) token (fun t => token_snapshot t route)).
  - unfold OfferProbeSnapshotIfRefreshNeeded. destruct (pr_done probe); [|left; auto with s2q].
    by apply (gated_renews (pr_Key probe) (sn_Token snapshot)
      (fun t => normalizeOpenAICodexTurnStateSnapshot (snapshot <| sn_Token := t |>))).
  - unfold ProbeCurrent. destruct (pr_done probe); [|left; auto with s2q]. after_key. exact R.
  - unfold OfferValue. destruct (parseOpenAICodexTurnState _ _); [|left; auto with s2q].
    destruct (_ && _); [left; auto with s2q|]. destruct (negb (Accept _ _ _ _)); [left; auto with s2q|].
    pose proof (offer_renews key t route now c) as H. destruct (Offer _ _ _ _ _ _ _ c) as [c1 b]. by destruct (negb b).
  - apply observe_qualified_renews.
  - apply observe_renews.
  - unfold ObserveMissing. cbv zeta. apply (settled_renews _ (add1 suspect_1 (add1 observations_1 c))); [done|done|].
    after_entry. then_settled. auto with s2q.
  - unfold RejectAndPromote. cbv zeta. after_entry. destruct (negb (same_active _ _)); [exact R|]. then_settled.
    match goal with |- context [promoteLocked _ ?k ?e ?n ?c] => pose proof (promote_settled k e n c) as H; by destruct (promoteLocked _ k e n c) end.
  - unfold Invalidate. cbv zeta. after_entry. then_settled. destruct (negb _); auto with s2q.
  - apply (promoted_renews key (collectorNow clock now) c (fun c e => needsRefreshLocked clock (policy c) e (collectorNow clock now))).
  - apply (promoted_renews key (collectorNow clock now) c (fun c e => openAICodexTurnStateStatus clock e (policy c) (collectorNow clock now))).
  - unfold Statuses. cbv zeta. left. eapply settled_trans; [apply sweep_settled|apply statuses_settled].
  - apply start_renews.
  - by apply start_refresh_renews.
  - unfold FinishProbe. destruct (pr_done probe); [|left; auto with s2q]. after_key.
    destruct (leased _ _ _) as [[e ch]|]; [|exact R]. then_settled. destruct (lease_fenced _ _); apply end_put_settled.
  - unfold AbortProbe. destruct (pr_done probe); [|left; auto with s2q]. cbv zeta. after_key.
    destruct (leased _ _ _) as [[e ch]|]; [|exact R]. then_settled. destruct (lease_fenced _ _); [apply end_put_settled|].
    destruct (e_forceRefresh e); [apply end_put_settled|]. destruct (_ && _); [|apply end_probe_settled].
    eapply settled_trans; [apply end_probe_settled|]. auto with s2q.
  - unfold WaitProbe. after_key. exact R.
  - unfold Delete. after_key. then_settled. destruct (entries c1 !! k1) as [e|]; [destruct (e_probeDone e)|]; auto with s2q.
  - unfold DeleteAndForceRefresh. after_entry. then_settled. auto with s2q.
  - unfold DeleteAccount. left. destruct (_ <=? _); [auto with s2q|apply remove_settled].
  - left. unfold DeleteAll. cbv zeta. destruct (end_all_gens (map fst (map_to_list (entries c))) c) as [H1 _].
    split; [exact H1|]. simpl. intros a g. by rewrite lookup_empty.
Qed.
End Gens.

(** ** Retired generations *)

(** After [n] operations: the sequence has counted at most [n], and every generation in
    use came from it. *)
Definition sequenced (n : nat) (c : Collector) : Prop :=
  0 <= generationSequence c <= Z.of_nat n /\
  forall a g, accountGenerations c !! a = Some g -> ag_value g <= generationSequence c.
Definition retired (k : Key) (c : Collector) : Prop :=
  key_generation k <= generationSequence c /\
  forall g, accountGenerations c !! key_AccountID k = Some g -> ag_value g <> key_generation k.

Lemma next_value c :
  0 <= generationSequence c -> generationSequence c + 1 < 2 ^ 64 ->
  (nextGenerationLocked c).2 = generationSequence c + 1.
Proof.
  intros H0 H. unfold nextGenerationLocked. cbv zeta. simpl. unfold u64_succ.
  rewrite Z.mod_small by lia. by replace (generationSequence c + 1 =? 0) with false by lia.
Qed.
Lemma renews_sequenced n c c' :
  renews c c' -> sequenced n c -> Z.of_nat n + 1 < 2 ^ 64 -> sequenced (S n) c' /\
  generationSequence c <= generationSequence c' /\ forall k, retired k c -> retired k c'.
Proof.
  intros Hr [H0 Hv] Hlt. pose proof (next_value c ltac:(lia) ltac:(lia)) as Hn.
  destruct Hr as [[Hs Hg]|[Hs Hg]].
  - split; [|split; [lia|]].
    + split; [lia|]. intros a g Ha. destruct (Hg _ _ Ha) as (g0 & H1 & ->). rewrite Hs. by eapply Hv.
    + intros k [R1 R2]. split; [lia|]. intros g Ha. destruct (Hg _ _ Ha) as (g0 & H1 & ->). by apply R2.
  - rewrite Hn in *. split; [|split; [lia|]].
    + split; [lia|]. intros a g Ha. destruct (Hg _ _ Ha) as [(g0 & H1 & ->)| ->]; [|lia]. apply Hv in H1. lia.
    + intros k [R1 R2]. split; [lia|]. intros g Ha. destruct (Hg _ _ Ha) as [(g0 & H1 & ->)| ->]; [by apply R2|lia].
Qed.
Lemma steps_sequenced ToLower m c c' :
  nsteps (collector_step ToLower) m c c' -> forall n, wf c -> sequenced n c -> Z.of_nat n + Z.of_nat m < 2 ^ 64 ->
  wf c' /\ sequenced (n + m) c' /\ generationSequence c <= generationSequence c' /\
  forall k, retired k c -> retired k c'.
Proof.
  induction 1 as [c|m c1 c2 c3 Hs _ IH]; intros n Hw Hq Hlt.
  { by rewrite Nat.add_0_r. }
  pose proof (wf_step _ _ _ Hs Hw) as Hw2. destruct Hs as [clock ord o c1].
  destruct (renews_sequenced n _ _ (perform_renews ToLower clock ord o c1 Hw) Hq ltac:(lia)) as (Q2 & M2 & P2).
  destruct (IH (S n) Hw2 Q2 ltac:(lia)) as (Hw3 & Q3 & M3 & P3).
  split; [done|]. split; [by rewrite Nat.add_succ_r|]. split; [lia|auto].
Qed.

Lemma canonical_generation ToLower k :
  key_generation (canonical ToLower k) = key_generation k /\ key_AccountID (canonical ToLower k) = key_AccountID k.
Proof. done. Qed.

Section Refused.
Context (ToLower : string -> string) (clock : Time) (ord : Orders).
Lemma retired_resolve k now create c :
  retired k c -> key_generation k <> 0 ->
  resolveKeyGenerationLocked ToLower ord k now create c = (c, (canonical ToLower k, false)).
Proof.
  intros [_ Hr] Hz. unfold resolveKeyGenerationLocked.
  destruct (canonical_generation ToLower k) as [Eg Ea]. rewrite Eg, Ea.
  replace (key_generation k =? 0) with false by (symmetry; by rewrite Z.eqb_neq). cbn [negb].
  destruct (accountGenerations c !! key_AccountID k) as [g|] eqn:Hg; [|done].
  specialize (Hr g eq_refl). by replace (key_generation k =? ag_value g) with false by (symmetry; rewrite Z.eqb_neq; congruence).
Qed.
Lemma retired_entry k now create c :
  retired k c -> key_generation k <> 0 -> entryLocked ToLower clock ord k now create c = (c, None).
Proof. intros Hr Hz. unfold entryLocked. by rewrite retired_resolve. Qed.
Lemma normalize_retired k t now c : retired k c -> retired k (normalizeOfferToken clock t now c).1.
Proof. destruct (normalize_keeps clock t now c) as [H1 H2]. unfold retired. by rewrite H1, H2. Qed.

Lemma refused k token route value used cookies now c :
  retired k c -> key_generation k <> 0 ->
  (IsCurrentKey ToLower clock k c).2 = false /\
  Acquire ToLower clock ord k now c = (c, (no_snapshot, false)) /\
  ((Offer ToLower clock ord k token route now c).2 = false /\
   entries (Offer ToLower clock ord k token route now c).1 = entries c) /\
  ((OfferIfRefreshNeeded ToLower clock ord k token route now c).2 = OfferRejected /\
   entries (OfferIfRefreshNeeded ToLower clock ord k token route now c).1 = entries c) /\
  ObserveQualified ToLower clock ord k value used cookies now c = (c, false) /\
  StartProbe ToLower clock ord k now c = (c, (no_probe, false)) /\
  StartProbeIfRefreshNeeded ToLower clock ord k now c = (c, (no_probe, ProbeStartUnavailable)).
Proof.
  intros Hr Hz. split; [|split; [|split; [|split; [|split; [|split]]]]].
  - unfold IsCurrentKey. cbv zeta. destruct (canonical_generation ToLower k) as [-> ->]. pose proof (proj2 Hr) as Hg.
    destruct (accountGenerations c !! key_AccountID k) as [g|] eqn:E; [|done]. specialize (Hg g eq_refl). simpl.
    replace (key_generation k =? ag_value g) with false by (symmetry; rewrite Z.eqb_neq; congruence). by rewrite andb_false_r.
  - unfold Acquire. cbv zeta. by rewrite retired_entry.
  - unfold Offer. cbv zeta. set (now' := collectorNow clock now).
    pose proof (normalize_retired k token now' (add1 offers_1 c) Hr) as Hn.
    pose proof (normalize_contents clock token now' (add1 offers_1 c)) as [_ He].
    destruct (normalizeOfferToken _ _ _ _) as [c1 [t|]]; cbn [fst] in *; [|done].
    unfold offerSnapshotLocked. cbv zeta. rewrite retired_entry by done. done.
  - unfold OfferIfRefreshNeeded. cbv zeta. set (now' := collectorNow clock now).
    pose proof (normalize_retired k token now' c Hr) as Hn.
    pose proof (normalize_contents clock token now' c) as [_ He].
    destruct (normalizeOfferToken _ _ _ _) as [c1 [t|]]; cbn [fst] in *; [|done].
    unfold offerSnapshotIfRefreshNeededLocked. cbv zeta. rewrite retired_resolve by done. done.
  - unfold ObserveQualified. destruct (_ || _); [done|]. cbv zeta.
    destruct (ValidateOpenAICodexTurnState _ _ _ _); [|done]. by rewrite retired_entry.
  - unfold StartProbe. cbv zeta. by rewrite retired_entry.
  - unfold StartProbeIfRefreshNeeded. cbv zeta. by rewrite retired_resolve.
Qed.
End Refused.

Lemma bind_stamps ToLower clock ord key c :
  wf c -> key_generation key = 0 ->
  current (BindKey ToLower clock ord key c).2 (BindKey ToLower clock ord key c).1.
Proof.
  intros Hw Hz. unfold BindKey. cbv zeta.
  destruct (resolveKeyGenerationLocked _ _ _ _ _ c) as [c1 [k ok]] eqn:E.
  destruct (resolve_reach _ _ _ _ _ _ _ _ _ Hw E) as [_ Hc]. apply Hc.
  unfold resolveKeyGenerationLocked in E. destruct (canonical_generation ToLower key) as [Eg _].
  destruct (canonical_generation ToLower (canonical ToLower key)) as [Eg' _]. rewrite Eg', Eg, Hz in E. cbn [negb Z.eqb] in E.
  destruct (accountGenerations c !! _); [by injection E|]. destruct (admitAccountGenerationLocked _ _ _ _). by injection E.
Qed.

(** Requests of an invalidated account stay out: a key that was bound (stamped
    with its account's generation) before the account was deleted, or everything was,
    never counts as current again, whatever is bound afterwards; with it nothing is
    acquired, offered, observed or probed, and no entry changes.  (As long as fewer than
    2^64 operations have run, so that the sequence has not wrapped around.) *)
Theorem retired_generation_refused ToLower p n c0 clock ord key m c1 clock1 ord1 o j c2
    clock2 ord2 token route value used cookies now :
  let c0' := (BindKey ToLower clock ord key c0).1 in
  let k := (BindKey ToLower clock ord key c0).2 in
  nsteps (collector_step ToLower) n (NewOpenAICodexTurnStateCollector p) c0 ->
  key_generation key = 0 ->
  nsteps (collector_step ToLower) m c0' c1 ->
  o = OpDeleteAll \/ (o = OpDeleteAccount (key_AccountID k) /\ 0 < key_AccountID k) ->
  nsteps (collector_step ToLower) j (perform ToLower clock1 ord1 o c1) c2 ->
  Z.of_nat n + Z.of_nat m + Z.of_nat j + 2 < 2 ^ 64 ->
  (IsCurrentKey ToLower clock2 k c2).2 = false /\
  Acquire ToLower clock2 ord2 k now c2 = (c2, (no_snapshot, false)) /\
  ((Offer ToLower clock2 ord2 k token route now c2).2 = false /\
   entries (Offer ToLower clock2 ord2 k token route now c2).1 = entries c2) /\
  ((OfferIfRefreshNeeded ToLower clock2 ord2 k token route now c2).2 = OfferRejected /\
   entries (OfferIfRefreshNeeded ToLower clock2 ord2 k token route now c2).1 = entries c2) /\
  ObserveQualified ToLower clock2 ord2 k value used cookies now c2 = (c2, false) /\
  StartProbe ToLower clock2 ord2 k now c2 = (c2, (no_probe, false)) /\
  StartProbeIfRefreshNeeded ToLower clock2 ord2 k now c2 = (c2, (no_probe, ProbeStartUnavailable)).
Proof.
  intros c0' k Hn Hkey Hm Ho Hj Hlt.
  destruct (steps_sequenced _ _ _ _ Hn 0 (wf_start p)) as (Hw0 & Q0 & _); [split; [simpl; lia|done]|lia|].
  pose proof (bind_stamps ToLower clock ord key c0 Hw0 Hkey) as Hcur. fold c0' k in Hcur.
  pose proof (perform_renews ToLower clock ord (OpBindKey key) c0 Hw0) as Hren.
  destruct (renews_sequenced _ _ _ Hren Q0 ltac:(lia)) as (Q0' & _ & _).
  assert (Hw0' : wf c0') by (eapply wf_step; [exact (collector_op ToLower clock ord (OpBindKey key) c0)|done]).
  pose proof (current_nonzero _ _ Hw0' Hcur) as Hz.
  destruct (steps_sequenced _ _ _ _ Hm (S (0 + n)) Hw0' Q0' ltac:(lia)) as (Hw1 & Q1 & M1 & _).
  assert (Hseq : key_generation k <= generationSequence c1).
  { destruct Hcur as (g & G1 & <-). destruct Q0' as [_ Hv]. trans (generationSequence c0'); [by eapply Hv|].
    done. }
  assert (Hret : retired k (perform ToLower clock1 ord1 o c1)).
  { destruct Ho as [-> |[-> Hpos]]; cbn [perform].
    - unfold DeleteAll. cbv zeta. split; simpl; [|by intros g; rewrite lookup_empty].
      by rewrite (proj1 (end_all_gens _ _)).
    - unfold DeleteAccount. replace (key_AccountID k <=? 0) with false by lia.
      destruct (removeAccount_spec (key_AccountID k) false c1 (wf_core _ Hw1)) as (_ & _ & G1 & G2 & _).
      split; [by rewrite G2|]. intros g. by rewrite G1, lookup_delete_eq. }
  destruct (renews_sequenced _ _ _ (perform_renews ToLower clock1 ord1 o c1 Hw1) Q1 ltac:(lia)) as (Q1' & _ & _).
  assert (Hw1' : wf (perform ToLower clock1 ord1 o c1)) by (eapply wf_step; [constructor|done]).
  destruct (steps_sequenced _ _ _ _ Hj _ Hw1' Q1' ltac:(lia)) as (_ & _ & _ & Hret2).
  specialize (Hret2 k Hret). clearbody k c0'. clear - Hret2 Hz. by apply refused.
Qed.

Lemma retired_generation_refused_witness :
  let clock := Unix 1700000100 in
  let ord := MkOrders [] [] [] [] [] in
  let c := DeleteAll life_bound in
  (IsCurrentKey (fun s => s) clock life_stamped c).2 = false /\
  Acquire (fun s => s) clock ord life_stamped clock c = (c, (no_snapshot, false)).
Proof.
  pose proof (retired_generation_refused (fun s => s) life_policy 0 life_start (Unix 1700000100)
    (MkOrders [] [] [] [] []) life_key 0 life_bound (Unix 1700000100) (MkOrders [] [] [] [] []) OpDeleteAll 0
    (DeleteAll life_bound) (Unix 1700000100) (MkOrders [] [] [] [] []) no_token "" "" no_snapshot []
    (Unix 1700000100) (nsteps_O _ _) eq_refl (nsteps_O _ _) (or_introl eq_refl) (nsteps_O _ _) ltac:(lia)) as H.
  exact (conj (proj1 H) (proj1 (proj2 H))).
Defined.
