(* ===== verification/WSStateStore.v ===== *)
(** * The WebSocket state store

    [src/backend/internal/service/openai_ws_state_store.go]: the process-local bindings
    of responses and sessions, with their capacity, expiry and incremental cleanup, and
    the response accounts and owners that are also kept in the gateway cache (any
    [SessionCache]).  A method is a sequence of atomic actions ([Proc]): what it does
    under one of the store's locks, one atomic load or compare-and-swap, one reading of
    the clock, one call of the cache; other goroutines run in between. *)

From S2P Require Import Prelude Json Encoding Redis ConcurrencyCache GatewayCache TurnState TurnStateCollector.
Local Open Scope string_scope.
Local Open Scope Z_scope.
Local Open Scope list_scope.
Local Open Scope go_scope.

(** ** Goroutines *)

(** An atomic action may iterate over a map: it is told an order of keys. *)
Inductive Proc (W A : Type) :=
  | Ret (a : A)
  | Act {B : Type} (f : list string -> W -> W * B) (k : B -> Proc W A).
Arguments Ret {W A} a.
Arguments Act {W A B} f k.
Fixpoint p_bind {W A B} (m : Proc W A) (k : A -> Proc W B) : Proc W B :=
  match m with
  | Ret a => k a
  | Act f k' => Act f (fun b => p_bind (k' b) k)
  end.
Definition act {W A} (f : list string -> W -> W * A) : Proc W A := Act f Ret.
Definition read {W A} (f : W -> A) : Proc W A := act (fun _ w => (w, f w)).
Definition change {W} (f : list string -> W -> W) : Proc W () := act (fun order w => (f order w, tt)).
Notation "'let!' x ':=' m 'in' k" := (p_bind m (fun x => k))
  (at level 10, x name, m at level 100, k at level 200) : go_scope.
Notation "m ';!' k" := (p_bind m (fun _ => k)) (at level 62, right associativity) : go_scope.

(** Alone, with the iteration orders as listed. *)
Fixpoint run_proc {W A} (orders : list (list string)) (p : Proc W A) (w : W) : W * A :=
  match p with
  | Ret a => (w, a)
  | Act f k =>
      let '(w, b) := f (match orders with o :: _ => o | [] => [] end) w in run_proc (tail orders) (k b) w
  end.

(** ** Bindings *)

Record Binding (T : Type) := MkBinding { value : T; expiresAt : Time }.
Arguments MkBinding {T} value expiresAt.
Arguments value {T} b.
Arguments expiresAt {T} b.

Definition openAIWSStateStoreCleanupInterval : Duration := Minute.
Definition openAIWSStateStoreCleanupMaxPerMap : nat := 512.
Definition openAIWSStateStoreMaxEntriesPerMap : Z := 65536.
Definition openAIWSInvalidEncryptedDigestsPerSession : nat := 512.
Definition openAIWSResponseAccountCachePrefix : string := "openai:response:".
Definition openAIHTTPResponseOwnerUserPrefix : string := "openai:http-response-owner:user:".
Definition openAIHTTPResponseOwnerKeyPrefix : string := "openai:http-response-owner:key:".

(** The six cleanup functions differ in the type of their map only. *)
Fixpoint scan_expired {T} (keys : list string) (now : Time) (scans : nat) (m : gmap string (Binding T)) :
    gmap string (Binding T) :=
  match keys, scans with
  | key :: keys, S scans =>
      scan_expired keys now scans
        (match m !! key with
         | Some b => if expiresAt b <? now then delete key m else m
         | None => m
         end)
  | _, _ => m
  end.
Definition cleanupExpired {T} (order : list string) (now : Time) (m : gmap string (Binding T)) :
    gmap string (Binding T) :=
  scan_expired (iteration order m) now openAIWSStateStoreCleanupMaxPerMap m.

Definition ensureBindingCapacity {T} (order : list string) (incomingKey : string) (maxEntries : Z)
    (m : gmap string (Binding T)) : gmap string (Binding T) :=
  if (Z.of_nat (size m) <? maxEntries) || (maxEntries <=? 0) then m
  else if m !! incomingKey is Some _ then m
  else match iteration order m with key :: _ => delete key m | [] => m end.
(** Make room, then bind. *)
Definition bind {T} (order : list string) (key : string) (b : Binding T) (m : gmap string (Binding T)) :
    gmap string (Binding T) :=
  <[key := b]> (ensureBindingCapacity order key openAIWSStateStoreMaxEntriesPerMap m).

Record TurnBinding := MkTurnBinding { tb_accountID : Z; tb_turnState : string; tb_generation : Z }.

Record WSStore (C : Type) := MkWSStore {
  ws_cache : option C;
  responseToAccount : gmap string (Binding Z);
  responseOwners : gmap string (Binding (Z * Z));
  responseToConn : gmap string (Binding string);
  sessionToTurnState : gmap string (Binding TurnBinding);
  sessionToConn : gmap string (Binding string);
  sessionInvalidEncrypted : gmap string (Binding (gset string));
  lastCleanup : Time;
  wall : Time;   (* what [time.Now()] reads *)
}.
Arguments MkWSStore {C}.
Arguments ws_cache {C} w.
Arguments responseToAccount {C} w.
Arguments responseOwners {C} w.
Arguments responseToConn {C} w.
Arguments sessionToTurnState {C} w.
Arguments sessionToConn {C} w.
Arguments sessionInvalidEncrypted {C} w.
Arguments lastCleanup {C} w.
Arguments wall {C} w.
#[export] Instance eta_WSStore C : Eta (WSStore C) := fun w =>
  MkWSStore (ws_cache w) (responseToAccount w) (responseOwners w) (responseToConn w) (sessionToTurnState w)
    (sessionToConn w) (sessionInvalidEncrypted w) (lastCleanup w) (wall w).

Definition NewOpenAIWSStateStore {C} (cache : option C) (now : Time) : WSStore C :=
  MkWSStore cache ∅ ∅ ∅ ∅ ∅ ∅ now now.

(** ** Keys *)

Definition normalizeOpenAIWSResponseID (responseID : string) : string := TrimSpace responseID.
Definition openAIWSResponseAccountCacheKey (responseID : string) : string :=
  openAIWSResponseAccountCachePrefix +:+ hex (sha256 responseID).
Definition openAIHTTPResponseOwnerCacheKey (prefix responseID : string) : string :=
  prefix +:+ hex (sha256 responseID).
Definition openAIWSResponseAccountMapKey (groupID : Z) (responseID : string) : string :=
  group_key groupID responseID.
Definition normalizeOpenAIWSTTL (ttl : Duration) : Duration := if ttl <=? 0 then Hour else ttl.
Definition openAIWSSessionTurnStateKey (groupID : Z) (sessionHash : string) : string :=
  let hash := TrimSpace sessionHash in
  if hash =?s "" then "" else group_key groupID hash.

Section Store_.
Context {C : Type} `{SessionCache C} (ToLower : string -> string).
Local Abbreviation W := (WSStore C).
Local Abbreviation P := (Proc (WSStore C)).

(** The model is the first variadic argument, if there is one. *)
Definition openAIWSSessionModelTurnStateKey (groupID : Z) (sessionHash : string) (model : option string) : string :=
  let baseKey := openAIWSSessionTurnStateKey groupID sessionHash in
  if baseKey =?s "" then ""
  else
    match (match model with
           | Some m => let m := ToLower (TrimSpace m) in if m =?s "" then None else Some m
           | None => Some "legacy"
           end) with
    | None => ""
    | Some modelKey =>
        baseKey +:+ byte_str 0 +:+ digested openAICodexTurnStateCollectorMaxModelLength modelKey
    end.

Definition Now : P Time := read wall.

(** ** Cleanup *)

Definition cas_lastCleanup (last now : Time) : P bool :=
  act (fun _ w => if lastCleanup w =? last then (w <| lastCleanup := now |>, true) else (w, false)).
Definition maybeCleanup : P () :=
  let! now := Now in
  let! last := read lastCleanup in
  if time_Sub now last <? openAIWSStateStoreCleanupInterval then Ret tt
  else
    let! won := cas_lastCleanup last now in
    if negb won then Ret tt
    else
      change (fun order w => w <| responseToAccount := cleanupExpired order now (responseToAccount w) |>) ;!
      change (fun order w => w <| responseOwners := cleanupExpired order now (responseOwners w) |>) ;!
      change (fun order w => w <| responseToConn := cleanupExpired order now (responseToConn w) |>) ;!
      change (fun order w => w <| sessionToTurnState := cleanupExpired order now (sessionToTurnState w) |>) ;!
      change (fun order w => w <| sessionToConn := cleanupExpired order now (sessionToConn w) |>) ;!
      change (fun order w => w <| sessionInvalidEncrypted := cleanupExpired order now (sessionInvalidEncrypted w) |>).

(** ** The cache *)

(** Calls of the cache; the flag of an update says that it reported no error. *)
Definition call_set (g : Z) (h : string) (a : Z) (ttl : Duration) : P bool :=
  act (fun _ w => match ws_cache w with
    | Some c => let '(c, ok) := cache_set g h a ttl c in (w <| ws_cache := Some c |>, ok)
    | None => (w, true) end).
Definition call_get (g : Z) (h : string) : P (option (option Z)) :=
  act (fun _ w => match ws_cache w with
    | Some c => let '(c, r) := cache_get g h c in (w <| ws_cache := Some c |>, r)
    | None => (w, None) end).
Definition call_delete (g : Z) (h : string) : P bool :=
  act (fun _ w => match ws_cache w with
    | Some c => let '(c, ok) := cache_delete g h c in (w <| ws_cache := Some c |>, ok)
    | None => (w, true) end).
(** [s.cache != nil] *)
Definition has_cache : P bool := read (fun w => if ws_cache w is Some _ then true else false).

(** ** Accounts and owners of responses *)

Definition BindResponseAccount (groupID : Z) (responseID : string) (accountID : Z) (ttl : Duration) : P bool :=
  let id := normalizeOpenAIWSResponseID responseID in
  if (id =?s "") || (accountID <=? 0) then Ret true
  else
    let ttl := normalizeOpenAIWSTTL ttl in
    maybeCleanup ;!
    let! now := Now in
    let mapKey := openAIWSResponseAccountMapKey groupID id in
    change (fun order w =>
      w <| responseToAccount := bind order mapKey (MkBinding accountID (now + ttl)) (responseToAccount w) |>) ;!
    let! cached := has_cache in
    if negb cached then Ret true
    else call_set groupID (openAIWSResponseAccountCacheKey id) accountID ttl.

Definition GetResponseAccount (groupID : Z) (responseID : string) : P Z :=
  let id := normalizeOpenAIWSResponseID responseID in
  if id =?s "" then Ret 0
  else
    maybeCleanup ;!
    let! now := Now in
    let! binding := read (fun w => responseToAccount w !! openAIWSResponseAccountMapKey groupID id) in
    match (match binding with Some b => if now <? expiresAt b then Some (value b) else None | None => None end) with
    | Some accountID => Ret accountID
    | None =>
        let! cached := has_cache in
        if negb cached then Ret 0
        else
          let! r := call_get groupID (openAIWSResponseAccountCacheKey id) in
          match r with
          | Some (Some accountID) => Ret (if accountID <=? 0 then 0 else accountID)
          | _ => Ret 0
          end
    end.

Definition DeleteResponseAccount (groupID : Z) (responseID : string) : P bool :=
  let id := normalizeOpenAIWSResponseID responseID in
  if id =?s "" then Ret true
  else
    change (fun _ w =>
      w <| responseToAccount := delete (openAIWSResponseAccountMapKey groupID id) (responseToAccount w) |>) ;!
    let! cached := has_cache in
    if negb cached then Ret true
    else call_delete groupID (openAIWSResponseAccountCacheKey id).

Definition BindHTTPResponseOwner (groupID : Z) (responseID : string) (userID apiKeyID : Z) (ttl : Duration) :
    P bool :=
  let id := normalizeOpenAIWSResponseID responseID in
  if (id =?s "") || (userID <=? 0) || (apiKeyID <=? 0) then Ret true
  else
    let ttl := normalizeOpenAIWSTTL ttl in
    maybeCleanup ;!
    let mapKey := openAIWSResponseAccountMapKey groupID id in
    change (fun order w =>
      w <| responseOwners := bind order mapKey (MkBinding (userID, apiKeyID) (wall w + ttl)) (responseOwners w) |>) ;!
    let! cached := has_cache in
    if negb cached then Ret true
    else
      let! ok := call_set groupID (openAIHTTPResponseOwnerCacheKey openAIHTTPResponseOwnerUserPrefix id) userID ttl in
      if negb ok then Ret false
      else call_set groupID (openAIHTTPResponseOwnerCacheKey openAIHTTPResponseOwnerKeyPrefix id) apiKeyID ttl.

(** The owner found, nobody, or [None] for an error. *)
Definition GetHTTPResponseOwner (groupID : Z) (responseID : string) : P (option (option (Z * Z))) :=
  let id := normalizeOpenAIWSResponseID responseID in
  if id =?s "" then Ret (Some None)
  else
    maybeCleanup ;!
    let! now := Now in
    let mapKey := openAIWSResponseAccountMapKey groupID id in
    let! binding := read (fun w => responseOwners w !! mapKey) in
    match (match binding with Some b => if now <? expiresAt b then Some (value b) else None | None => None end) with
    | Some owner => Ret (Some (Some owner))
    | None =>
        let! cached := has_cache in
        if negb cached then Ret (Some None)
        else
          let! user := call_get groupID (openAIHTTPResponseOwnerCacheKey openAIHTTPResponseOwnerUserPrefix id) in
          match user with
          | Some (Some userID) =>
              if userID <=? 0 then Ret (Some None)
              else
                let! key := call_get groupID (openAIHTTPResponseOwnerCacheKey openAIHTTPResponseOwnerKeyPrefix id) in
                match key with
                | Some (Some apiKeyID) =>
                    if apiKeyID <=? 0 then Ret (Some None)
                    else
                      change (fun order w =>
                        w <| responseOwners :=
                          bind order mapKey (MkBinding (userID, apiKeyID) (now + Minute)) (responseOwners w) |>) ;!
                      Ret (Some (Some (userID, apiKeyID)))
                | _ => Ret None
                end
          | _ => Ret None
          end
    end.

(** ** Connections *)

Definition BindResponseConn (responseID connID : string) (ttl : Duration) : P () :=
  let id := normalizeOpenAIWSResponseID responseID in
  let conn := TrimSpace connID in
  if (id =?s "") || (conn =?s "") then Ret tt
  else
    let ttl := normalizeOpenAIWSTTL ttl in
    maybeCleanup ;!
    change (fun order w =>
      w <| responseToConn := bind order id (MkBinding conn (wall w + ttl)) (responseToConn w) |>).
(** What a connection binding gives at [now]. *)
Definition live_conn (b : option (Binding string)) (now : Time) : option string :=
  match b with
  | Some b => if (expiresAt b <? now) || (TrimSpace (value b) =?s "") then None else Some (value b)
  | None => None
  end.
Definition GetResponseConn (responseID : string) : P (option string) :=
  let id := normalizeOpenAIWSResponseID responseID in
  if id =?s "" then Ret None
  else
    maybeCleanup ;!
    let! now := Now in
    let! binding := read (fun w => responseToConn w !! id) in
    Ret (live_conn binding now).
Definition DeleteResponseConn (responseID : string) : P () :=
  let id := normalizeOpenAIWSResponseID responseID in
  if id =?s "" then Ret tt
  else change (fun _ w => w <| responseToConn := delete id (responseToConn w) |>).

Definition BindSessionConn (groupID : Z) (sessionHash connID : string) (ttl : Duration) : P () :=
  let key := openAIWSSessionTurnStateKey groupID sessionHash in
  let conn := TrimSpace connID in
  if (key =?s "") || (conn =?s "") then Ret tt
  else
    let ttl := normalizeOpenAIWSTTL ttl in
    maybeCleanup ;!
    change (fun order w =>
      w <| sessionToConn := bind order key (MkBinding conn (wall w + ttl)) (sessionToConn w) |>).
Definition GetSessionConn (groupID : Z) (sessionHash : string) : P (option string) :=
  let key := openAIWSSessionTurnStateKey groupID sessionHash in
  if key =?s "" then Ret None
  else
    maybeCleanup ;!
    let! now := Now in
    let! binding := read (fun w => sessionToConn w !! key) in
    Ret (live_conn binding now).
Definition DeleteSessionConn (groupID : Z) (sessionHash : string) : P () :=
  let key := openAIWSSessionTurnStateKey groupID sessionHash in
  if key =?s "" then Ret tt
  else change (fun _ w => w <| sessionToConn := delete key (sessionToConn w) |>).

(** ** Turn states *)

Definition BindSessionTurnState (groupID accountID : Z) (sessionHash turnState : string) (ttl : Duration)
    (model : option string) : P () :=
  let key := openAIWSSessionModelTurnStateKey groupID sessionHash model in
  let state := TrimSpace turnState in
  if (key =?s "") || (accountID <=? 0) || (state =?s "") then Ret tt
  else
    let ttl := normalizeOpenAIWSTTL ttl in
    maybeCleanup ;!
    change (fun order w =>
      w <| sessionToTurnState :=
        bind order key (MkBinding (MkTurnBinding accountID state 0) (wall w + ttl)) (sessionToTurnState w) |>).

Definition BindSessionTurnStateIfRefreshNeeded (groupID accountID : Z) (sessionHash turnState : string)
    (generation : Z) (ttl : Duration) (policy : Policy) (now : Time) (model : option string) : P bool :=
  let key := openAIWSSessionModelTurnStateKey groupID sessionHash model in
  let state := TrimSpace turnState in
  if (key =?s "") || (accountID <=? 0) || (generation =? 0) || (state =?s "") then Ret false
  else
    let! now := (if IsZero now then Now else Ret now) in
    let ttl := normalizeOpenAIWSTTL ttl in
    let policy := normalized policy in
    maybeCleanup ;!
    act (fun order w =>
      match ValidateOpenAICodexTurnState (wall w) state policy now with
      | inr _ => (w, false)
      | inl _ =>
          (w <| sessionToTurnState :=
             bind order key (MkBinding (MkTurnBinding accountID state generation) (now + ttl))
               (sessionToTurnState w) |>, true)
      end).

Definition GetSessionTurnState (groupID accountID : Z) (sessionHash : string) (model : option string) :
    P (option string) :=
  let key := openAIWSSessionModelTurnStateKey groupID sessionHash model in
  if key =?s "" then Ret None
  else
    maybeCleanup ;!
    let! now := Now in
    let! binding := read (fun w => sessionToTurnState w !! key) in
    Ret (match binding with
         | Some b =>
             if (expiresAt b <? now) || negb (tb_accountID (value b) =? accountID) ||
                (TrimSpace (tb_turnState (value b)) =?s "") then None
             else Some (tb_turnState (value b))
         | None => None
         end).
Definition GetSessionTurnStateForGeneration (groupID accountID : Z) (sessionHash : string) (generation : Z)
    (model : option string) : P (option string) :=
  let key := openAIWSSessionModelTurnStateKey groupID sessionHash model in
  if (key =?s "") || (generation =? 0) then Ret None
  else
    maybeCleanup ;!
    let! now := Now in
    let! binding := read (fun w => sessionToTurnState w !! key) in
    Ret (match binding with
         | Some b =>
             if (expiresAt b <? now) || negb (tb_accountID (value b) =? accountID) ||
                negb (tb_generation (value b) =? generation) ||
                (TrimSpace (tb_turnState (value b)) =?s "") then None
             else Some (tb_turnState (value b))
         | None => None
         end).

Definition drop_turn_states (P_ : string -> TurnBinding -> bool) : P () :=
  change (fun _ w => w <| sessionToTurnState := filter (fun p => P_ p.1 (value p.2) = false) (sessionToTurnState w) |>).
Definition DeleteSessionTurnStateIfMatch (groupID accountID : Z) (sessionHash turnState : string)
    (generation : Z) (model : option string) : P () :=
  let key := openAIWSSessionModelTurnStateKey groupID sessionHash model in
  let state := TrimSpace turnState in
  if (key =?s "") || (state =?s "") || (generation =? 0) then Ret tt
  else
    drop_turn_states (fun k b =>
      (k =?s key) && (tb_accountID b =? accountID) && (tb_generation b =? generation) &&
      (tb_turnState b =?s state)).
Definition DeleteSessionTurnState (groupID : Z) (sessionHash : string) : P () :=
  let baseKey := openAIWSSessionTurnStateKey groupID sessionHash in
  if baseKey =?s "" then Ret tt
  else drop_turn_states (fun k _ => HasPrefix k (baseKey +:+ byte_str 0)).
Definition DeleteSessionTurnStateForModel (groupID accountID : Z) (sessionHash model : string) : P () :=
  if accountID <=? 0 then Ret tt
  else
    let key := openAIWSSessionModelTurnStateKey groupID sessionHash (Some model) in
    if key =?s "" then Ret tt
    else
      maybeCleanup ;!
      drop_turn_states (fun k b => (k =?s key) && (tb_accountID b =? accountID)).
Definition DeleteAccountTurnStates (accountID : Z) : P () :=
  if accountID <=? 0 then Ret tt else drop_turn_states (fun _ b => tb_accountID b =? accountID).
Definition DeleteAllSessionTurnStates : P () :=
  change (fun _ w => w <| sessionToTurnState := ∅ |>).

(** ** Invalid encrypted content *)

(** The set after the digests, and how many did not fit. *)
Fixpoint add_digests (digests : list string) (set : gset string) (overflowed : nat) : gset string * nat :=
  match digests with
  | [] => (set, overflowed)
  | d :: digests =>
      let d := TrimSpace d in
      if d =?s "" then add_digests digests set overflowed
      else if Nat.leb openAIWSInvalidEncryptedDigestsPerSession (size set)
      then add_digests digests set (if bool_decide (d ∈ set) then overflowed else S overflowed)
      else add_digests digests ({[d]} ∪ set) overflowed
  end.
Definition MarkSessionInvalidEncryptedContent (groupID : Z) (sessionHash : string) (digests : list string)
    (ttl : Duration) : P nat :=
  let key := openAIWSSessionTurnStateKey groupID sessionHash in
  if (key =?s "") || match digests with [] => true | _ => false end then Ret 0%nat
  else
    let ttl := normalizeOpenAIWSTTL ttl in
    maybeCleanup ;!
    let! now := Now in
    act (fun order w =>
      let m := ensureBindingCapacity order key openAIWSStateStoreMaxEntriesPerMap (sessionInvalidEncrypted w) in
      let set := match m !! key with
                 | Some b => if expiresAt b <? now then ∅ else value b
                 | None => ∅
                 end in
      let '(set, overflowed) := add_digests digests set 0 in
      (w <| sessionInvalidEncrypted := <[key := MkBinding set (now + ttl)]> m |>, overflowed)).
(** The empty set stands for the nil map. *)
Definition GetSessionInvalidEncryptedContentDigests (groupID : Z) (sessionHash : string) : P (gset string) :=
  let key := openAIWSSessionTurnStateKey groupID sessionHash in
  if key =?s "" then Ret ∅
  else
    maybeCleanup ;!
    let! now := Now in
    read (fun w => match sessionInvalidEncrypted w !! key with
                   | Some b => if expiresAt b <? now then ∅ else value b
                   | None => ∅
                   end).
Definition HasAnySessionInvalidEncryptedContent : P bool :=
  read (fun w => Nat.ltb 0 (size (sessionInvalidEncrypted w))).

(** ** Goroutines of the gateway *)

Inductive goroutine :=
  | Goroutine {A : Type} (p : P A).

(** The methods they call. *)
Inductive ws_call :=
  | Call_BindResponseAccount (g : Z) (r : string) (a : Z) (ttl : Duration)
  | Call_GetResponseAccount (g : Z) (r : string)
  | Call_DeleteResponseAccount (g : Z) (r : string)
  | Call_BindHTTPResponseOwner (g : Z) (r : string) (u : Z) (k : Z) (ttl : Duration)
  | Call_GetHTTPResponseOwner (g : Z) (r : string)
  | Call_BindResponseConn (r : string) (c : string) (ttl : Duration)
  | Call_GetResponseConn (r : string)
  | Call_DeleteResponseConn (r : string)
  | Call_BindSessionConn (g : Z) (h : string) (c : string) (ttl : Duration)
  | Call_GetSessionConn (g : Z) (h : string)
  | Call_DeleteSessionConn (g : Z) (h : string)
  | Call_BindSessionTurnState (g : Z) (a : Z) (h : string) (s : string) (ttl : Duration) (m : option string)
  | Call_BindSessionTurnStateIfRefreshNeeded (g : Z) (a : Z) (h : string) (s : string) (gen : Z) (ttl : Duration) (p : Policy) (now : Time) (m : option string)
  | Call_GetSessionTurnState (g : Z) (a : Z) (h : string) (m : option string)
  | Call_GetSessionTurnStateForGeneration (g : Z) (a : Z) (h : string) (gen : Z) (m : option string)
  | Call_DeleteSessionTurnStateIfMatch (g : Z) (a : Z) (h : string) (s : string) (gen : Z) (m : option string)
  | Call_DeleteSessionTurnState (g : Z) (h : string)
  | Call_DeleteSessionTurnStateForModel (g : Z) (a : Z) (h : string) (m : string)
  | Call_DeleteAccountTurnStates (a : Z)
  | Call_DeleteAllSessionTurnStates
  | Call_MarkSessionInvalidEncryptedContent (g : Z) (h : string) (ds : list string) (ttl : Duration)
  | Call_GetSessionInvalidEncryptedContentDigests (g : Z) (h : string)
  | Call_HasAnySessionInvalidEncryptedContent.
Definition called (c : ws_call) : goroutine :=
  match c with
  | Call_BindResponseAccount g r a ttl => Goroutine (BindResponseAccount g r a ttl)
  | Call_GetResponseAccount g r => Goroutine (GetResponseAccount g r)
  | Call_DeleteResponseAccount g r => Goroutine (DeleteResponseAccount g r)
  | Call_BindHTTPResponseOwner g r u k ttl => Goroutine (BindHTTPResponseOwner g r u k ttl)
  | Call_GetHTTPResponseOwner g r => Goroutine (GetHTTPResponseOwner g r)
  | Call_BindResponseConn r c ttl => Goroutine (BindResponseConn r c ttl)
  | Call_GetResponseConn r => Goroutine (GetResponseConn r)
  | Call_DeleteResponseConn r => Goroutine (DeleteResponseConn r)
  | Call_BindSessionConn g h c ttl => Goroutine (BindSessionConn g h c ttl)
  | Call_GetSessionConn g h => Goroutine (GetSessionConn g h)
  | Call_DeleteSessionConn g h => Goroutine (DeleteSessionConn g h)
  | Call_BindSessionTurnState g a h s ttl m => Goroutine (BindSessionTurnState g a h s ttl m)
  | Call_BindSessionTurnStateIfRefreshNeeded g a h s gen ttl p now m => Goroutine (BindSessionTurnStateIfRefreshNeeded g a h s gen ttl p now m)
  | Call_GetSessionTurnState g a h m => Goroutine (GetSessionTurnState g a h m)
  | Call_GetSessionTurnStateForGeneration g a h gen m => Goroutine (GetSessionTurnStateForGeneration g a h gen m)
  | Call_DeleteSessionTurnStateIfMatch g a h s gen m => Goroutine (DeleteSessionTurnStateIfMatch g a h s gen m)
  | Call_DeleteSessionTurnState g h => Goroutine (DeleteSessionTurnState g h)
  | Call_DeleteSessionTurnStateForModel g a h m => Goroutine (DeleteSessionTurnStateForModel g a h m)
  | Call_DeleteAccountTurnStates a => Goroutine (DeleteAccountTurnStates a)
  | Call_DeleteAllSessionTurnStates => Goroutine DeleteAllSessionTurnStates
  | Call_MarkSessionInvalidEncryptedContent g h ds ttl => Goroutine (MarkSessionInvalidEncryptedContent g h ds ttl)
  | Call_GetSessionInvalidEncryptedContentDigests g h => Goroutine (GetSessionInvalidEncryptedContentDigests g h)
  | Call_HasAnySessionInvalidEncryptedContent => Goroutine HasAnySessionInvalidEncryptedContent
  end.

(** A goroutine starts a method, performs its next action with some iteration order, or
    the clock moves on and the cache changes under other processes. *)
Inductive ws_step : W * list goroutine -> W * list goroutine -> Prop :=
  | ws_start w gs c : ws_step (w, gs) (w, called c :: gs)
  | ws_act w gs i A B (f : list string -> W -> W * B) (k : B -> P A) order :
      gs !! i = Some (Goroutine (Act f k)) ->
      ws_step (w, gs) ((f order w).1, <[i := Goroutine (k (f order w).2)]> gs)
  | ws_world w gs t c :
      wall w <= t -> ws_step (w, gs) (w <| wall := t |> <| ws_cache := c |>, gs).
End Store_.
