(* ===== verification/WSStateStoreProofs.v ===== *)
(** * The WebSocket state store: theorems

    Whatever goroutines run and however they interleave, every table stays within its
    capacity and holds only what a binding may hold; the account bound to a response is
    found until it expires among any other goroutines ([among]: none binds or deletes that
    response, the table has room), and by every gateway that shares the cache. *)

From S2P Require Import Prelude Json Encoding Redis ConcurrencyCache GatewayCache GatewayCacheProofs TurnState TurnStateCollector TurnStateSteps WSStateStore.
Local Open Scope string_scope.
Local Open Scope Z_scope.
Local Open Scope list_scope.
Local Open Scope go_scope.

(** ** Tables *)

Section Tables.
Context {T : Type}.
Implicit Types (m : gmap string (Binding T)) (order : list string).

(** A table within the capacity whose values are [good]. *)
Definition table_ok (good : T -> Prop) (m : gmap string (Binding T)) : Prop :=
  Z.of_nat (size m) <= openAIWSStateStoreMaxEntriesPerMap /\ map_Forall (fun _ b => good (value b)) m.

Lemma table_empty good : table_ok good ∅.
Proof. split; [by rewrite map_size_empty|apply map_Forall_empty]. Qed.
Lemma table_sub good m m' : m' ⊆ m -> table_ok good m -> table_ok good m'.
Proof.
  intros Hs [Hn Hv]. split; [apply map_subseteq_size in Hs; lia|].
  intros k b Hk. by apply (Hv k b), (lookup_weaken _ _ _ _ Hk).
Qed.
Lemma scan_expired_sub keys now scans m : scan_expired keys now scans m ⊆ m.
Proof.
  revert scans m. induction keys as [|k keys IH]; intros [|scans] m; simpl; [done..|].
  etrans; [apply IH|]. repeat case_match; try done; apply delete_subseteq.
Qed.
Lemma cleanup_sub order now m : cleanupExpired order now m ⊆ m.
Proof. apply scan_expired_sub. Qed.
Lemma capacity_sub order k n m : ensureBindingCapacity order k n m ⊆ m.
Proof. unfold ensureBindingCapacity. repeat case_match; try done; apply delete_subseteq. Qed.

(** Making room leaves room for one more binding. *)
Lemma capacity_room order k (b : Binding T) n m :
  0 < n -> Z.of_nat (size m) <= n -> Z.of_nat (size (<[k := b]> (ensureBindingCapacity order k n m))) <= n.
Proof.
  intros Hn Hm. unfold ensureBindingCapacity.
  destruct (_ || _) eqn:E.
  - apply orb_true_iff in E as [E|E]; [apply Z.ltb_lt in E|apply Z.leb_le in E; lia].
    destruct (m !! k) eqn:Hk; [rewrite map_size_insert_Some by eauto|rewrite map_size_insert_None by done]; lia.
  - bool_hyps. destruct (m !! k) as [b'|] eqn:Hk; [rewrite map_size_insert_Some by eauto; lia|].
    assert (Hl : forall x, In x (iteration order m) <-> is_Some (m !! x)).
    { intros x. rewrite <- list_elem_of_In. apply iteration_elem. }
    destruct (iteration order m) as [|x xs] eqn:Ho.
    + assert (m = ∅) as ->; [|rewrite map_size_insert_None, map_size_empty by done; lia].
      apply map_eq. intros i. rewrite lookup_empty. destruct (m !! i) eqn:Hi; [|done].
      exfalso. apply (Hl i). rewrite Hi. eauto.
    + assert (is_Some (m !! x)) as [bx Hx] by (apply Hl; by left).
      rewrite map_size_insert_None by (rewrite lookup_delete_None; eauto).
      rewrite map_size_delete, Hx. assert (size m <> 0%nat).
      { apply map_size_non_empty_iff. intros ->. by rewrite lookup_empty in Hx. }
      lia.
Qed.
Lemma table_bind good order k b m :
  good (value b) -> table_ok good m -> table_ok good (bind order k b m).
Proof.
  intros Hb [Hn Hv]. split; [by apply capacity_room|].
  apply map_Forall_insert_2; [done|].
  by apply (table_sub good m); [apply capacity_sub|split].
Qed.

(** What has not expired survives a cleanup. *)
Lemma scan_live keys now scans k b m :
  m !! k = Some b -> now <= expiresAt b -> scan_expired keys now scans m !! k = Some b.
Proof.
  intros Hk Hb. revert scans m Hk. induction keys as [|x keys IH]; intros [|scans] m Hk; simpl; [done..|].
  apply IH. destruct (m !! x) as [bx|] eqn:Hx; [|done]. case_match; [|done]. bool_hyps.
  destruct (decide (x = k)) as [->|Hn]; [simplify_eq; lia|by rewrite lookup_delete_ne].
Qed.
Lemma cleanup_live order now k b m :
  m !! k = Some b -> now <= expiresAt b -> cleanupExpired order now m !! k = Some b.
Proof. apply scan_live. Qed.
End Tables.

(** ** Reasoning about methods *)

Section Logic.
Context {W : Type}.

(** Every atomic action keeps the invariant, whatever the others did before. *)
Fixpoint keeps (inv : W -> Prop) {A} (p : Proc W A) : Prop :=
  match p with
  | Ret _ => True
  | Act f k => (forall order w, inv w -> inv (f order w).1) /\ forall b, keeps inv (k b)
  end.
(** Run alone from [w], it ends as [Q] says. *)
Fixpoint wp {A} (p : Proc W A) (Q : W -> A -> Prop) (w : W) : Prop :=
  match p with
  | Ret a => Q w a
  | Act f k => forall order, wp (k (f order w).2) Q (f order w).1
  end.

Lemma proc_keeps_bind inv {A B} (m : Proc W A) (k : A -> Proc W B) :
  keeps inv m -> (forall a, keeps inv (k a)) -> keeps inv (p_bind m k).
Proof. induction m as [a|B' f k' IH]; simpl; [auto|]. intros [Hf Hk] Hn. split; [done|eauto]. Qed.
Lemma proc_keeps_act inv {A} (f : list string -> W -> W * A) :
  (forall order w, inv w -> inv (f order w).1) -> keeps inv (act f).
Proof. done. Qed.
Lemma proc_keeps_read inv {A} (f : W -> A) : keeps inv (read f).
Proof. by apply proc_keeps_act. Qed.
Lemma proc_keeps_change inv (f : list string -> W -> W) :
  (forall order w, inv w -> inv (f order w)) -> keeps inv (change f).
Proof. done. Qed.

Lemma wp_bind {A B} (m : Proc W A) (k : A -> Proc W B) Q w :
  wp m (fun w a => wp (k a) Q w) w -> wp (p_bind m k) Q w.
Proof. revert w. induction m as [a|B' f k' IH]; simpl; eauto. Qed.
Lemma wp_mono {A} (p : Proc W A) (Q Q' : W -> A -> Prop) w :
  (forall w a, Q w a -> Q' w a) -> wp p Q w -> wp p Q' w.
Proof. intros HQ. revert w. induction p as [a|B' f k' IH]; simpl; eauto. Qed.
Lemma wp_run {A} (p : Proc W A) Q w orders :
  wp p Q w -> Q (run_proc orders p w).1 (run_proc orders p w).2.
Proof.
  revert w orders. induction p as [a|B' f k' IH]; intros w orders; simpl; [done|]. intros Hw.
  specialize (Hw match orders with o :: _ => o | [] => [] end). destruct (f _ w) as [w' b]. by apply IH.
Qed.
End Logic.

(** ** Capacity *)

Section Store_proofs.
Context {C : Type} `{SessionCache C} (ToLower : string -> string).
Local Abbreviation W := (WSStore C).

Definition good_conn (conn : string) : Prop := conn <> "" /\ exists raw, conn = TrimSpace raw.
(** A state bound under a generation passed the validation of some policy. *)
Definition good_turn (b : TurnBinding) : Prop :=
  0 < tb_accountID b /\ tb_turnState b <> "" /\
  (tb_generation b = 0 \/
   exists clock p now t, ValidateOpenAICodexTurnState clock (tb_turnState b) (normalized p) now = inl t).
Definition good_digests (set : gset string) : Prop :=
  (size set <= openAIWSInvalidEncryptedDigestsPerSession)%nat /\ "" ∉ set.

Record store_ok (w : W) : Prop := {
  ok_accounts : table_ok (fun a => 0 < a) (responseToAccount w);
  ok_owners : table_ok (fun o => 0 < o.1 /\ 0 < o.2) (responseOwners w);
  ok_conns : table_ok good_conn (responseToConn w);
  ok_turns : table_ok good_turn (sessionToTurnState w);
  ok_session_conns : table_ok good_conn (sessionToConn w);
  ok_digests : table_ok good_digests (sessionInvalidEncrypted w);
}.

Lemma new_ok cache now : store_ok (NewOpenAIWSStateStore cache now).
Proof. split; apply table_empty. Qed.

#[local] Opaque openAIWSInvalidEncryptedDigestsPerSession.
Lemma add_digests_ok ds set n : good_digests set -> good_digests (add_digests ds set n).1.
Proof.
  revert set n. induction ds as [|d ds IH]; intros set n Hs; simpl; [done|].
  destruct (_ =?s _) eqn:He; [by apply IH|]. apply String.eqb_neq in He.
  destruct (Nat.leb _ _) eqn:Hf; [by apply IH|]. apply IH.
  apply Nat.leb_gt in Hf. destruct Hs as [Hn Hd]. split; [|set_solver].
  rewrite size_union_alt, size_singleton.
  assert (size (set ∖ {[TrimSpace d]}) <= size set)%nat by (apply subseteq_size; set_solver). lia.
Qed.

Ltac one_table := intros; destruct_and?; split; simpl; try done; try (apply table_bind; [|done]).

Lemma keeps_maybeCleanup : keeps store_ok (maybeCleanup (C := C)).
Proof.
  unfold maybeCleanup. apply proc_keeps_bind; [apply proc_keeps_read|intros now].
  apply proc_keeps_bind; [apply proc_keeps_read|intros last]. case_match; [done|].
  apply proc_keeps_bind; [apply proc_keeps_act|intros won].
  { intros _ w Hw. case_match; [|done]. destruct Hw. by split. }
  case_match; [done|].
  repeat (apply proc_keeps_bind; [|intros _]); apply proc_keeps_change; intros order w [];
    split; simpl; try done; (eapply table_sub; [apply cleanup_sub|done]).
Qed.
Lemma keeps_cache (f : C -> C * bool) :
  keeps store_ok (act (fun _ w => match ws_cache w with
    | Some c => let '(c, ok) := f c in (w <| ws_cache := Some c |>, ok)
    | None => (w, true) end)).
Proof. apply proc_keeps_act. intros _ w []. case_match; [|by split]. destruct (f _). by split. Qed.
Lemma keeps_call_set g h a ttl : keeps store_ok (call_set (C := C) g h a ttl).
Proof. apply keeps_cache. Qed.
Lemma keeps_call_delete g h : keeps store_ok (call_delete (C := C) g h).
Proof. apply keeps_cache. Qed.
Lemma keeps_call_get g h : keeps store_ok (call_get (C := C) g h).
Proof. apply proc_keeps_act. intros _ w []. case_match; [|by split]. destruct (cache_get _ _ _). by split. Qed.

(** The methods: each is made of the actions above and of bindings of good values. *)
Ltac keep_actions :=
  repeat (intros;
    lazymatch goal with
    | |- keeps _ (Ret _) => exact I
    | |- keeps _ maybeCleanup => apply keeps_maybeCleanup
    | |- keeps _ (call_set _ _ _ _) => apply keeps_call_set
    | |- keeps _ (call_get _ _) => apply keeps_call_get
    | |- keeps _ (call_delete _ _) => apply keeps_call_delete
    | |- keeps _ (read _) => apply proc_keeps_read
    | |- keeps _ (p_bind _ _) => apply proc_keeps_bind
    | |- keeps _ (match _ with _ => _ end) => case_match
    end).

Lemma good_conn_trim c : (TrimSpace c =?s "") = false -> good_conn (TrimSpace c).
Proof. intros Hc%String.eqb_neq. split; [done|by exists c]. Qed.
Lemma keeps_drop_turn_states P_ : keeps store_ok (drop_turn_states (C := C) P_).
Proof.
  apply proc_keeps_change. intros order w []. split; simpl; try done.
  eapply table_sub; [apply map_filter_subseteq|done].
Qed.
Lemma keeps_bind_gated key a state gen expires p now :
  0 < a -> state <> "" ->
  keeps store_ok (act (fun order (w : W) =>
    match ValidateOpenAICodexTurnState (wall w) state (normalized p) now with
    | inr _ => (w, false)
    | inl _ =>
        (w <| sessionToTurnState :=
           bind order key (MkBinding (MkTurnBinding a state gen) expires) (sessionToTurnState w) |>, true)
    end)).
Proof.
  intros Ha Hs. apply proc_keeps_act. intros order w []. destruct (ValidateOpenAICodexTurnState _ _ _ _) eqn:Hv; [|by split].
  split; simpl; try done. apply table_bind; [|done].
  split; [done|]. split; [done|]. right. by repeat eexists.
Qed.
Lemma keeps_mark key ds now expires :
  keeps store_ok (act (fun order (w : W) =>
    let m := ensureBindingCapacity order key openAIWSStateStoreMaxEntriesPerMap (sessionInvalidEncrypted w) in
    let set := match m !! key with Some b => if expiresAt b <? now then ∅ else value b | None => ∅ end in
    let '(set, overflowed) := add_digests ds set 0 in
    (w <| sessionInvalidEncrypted := <[key := MkBinding set expires]> m |>, overflowed))).
Proof.
  apply proc_keeps_act. intros order w []. cbv zeta.
  set (m := ensureBindingCapacity _ _ _ _). set (old := match m !! key with Some _ => _ | None => _ end).
  assert (Hold : good_digests old).
  { assert (Hz : good_digests ∅) by (split; [rewrite size_empty; lia|set_solver]).
    unfold old. destruct (m !! key) as [b|] eqn:Hm; [|done]. case_match; [done|].
    assert (table_ok good_digests m) as [_ Hg] by (eapply table_sub; [apply capacity_sub|done]).
    by apply (Hg key). }
  pose proof (add_digests_ok ds old 0 Hold) as Hnew. destruct (add_digests ds old 0) as [set n].
  split; simpl; try done. by apply (table_bind good_digests order key (MkBinding set expires)).
Qed.

(** A method of a goroutine keeps the invariant. *)
Definition keeper (g : goroutine (C := C)) : Prop := match g with Goroutine p => keeps store_ok p end.

Lemma methods_keep c : keeper (called ToLower c).
Proof.
  destruct c; simpl;
   unfold BindResponseAccount, GetResponseAccount, DeleteResponseAccount, BindHTTPResponseOwner,
     GetHTTPResponseOwner, BindResponseConn, GetResponseConn, DeleteResponseConn, BindSessionConn,
     GetSessionConn, DeleteSessionConn, BindSessionTurnState, BindSessionTurnStateIfRefreshNeeded,
     GetSessionTurnState, GetSessionTurnStateForGeneration, DeleteSessionTurnStateIfMatch,
     DeleteSessionTurnState, DeleteSessionTurnStateForModel, DeleteAccountTurnStates,
     DeleteAllSessionTurnStates, MarkSessionInvalidEncryptedContent,
     GetSessionInvalidEncryptedContentDigests, HasAnySessionInvalidEncryptedContent, has_cache, Now, Now;
   keep_actions.
  all: intros; bool_hyps.
  all: try solve [apply keeps_drop_turn_states | by apply keeps_bind_gated | apply keeps_mark | by split].
  all: apply proc_keeps_change; intros order w []; split; simpl; try done.
  all: first [apply table_bind; [|done] | eapply table_sub; [apply delete_subseteq | done] | apply table_empty].
  all: simpl; repeat split; try done; try (by apply good_conn_trim, String.eqb_neq); by left.
Qed.

Definition sound (s : W * list goroutine) : Prop := store_ok s.1 /\ Forall keeper s.2.
Lemma ws_step_sound s s' : ws_step ToLower s s' -> sound s -> sound s'.
Proof.
  unfold sound. destruct 1 as [w gs m|w gs i A B f k order Hi|w gs t c Ht]; simpl; intros [Hw Hgs].
  - split; [done|]. constructor; [apply methods_keep|done].
  - destruct (proj1 (Forall_lookup _ _) Hgs _ _ Hi) as [Hf Hk]. split; [by apply Hf|].
    apply Forall_insert; [done|apply Hk].
  - split; [destruct Hw; by split|done].
Qed.

(** C39.  However the goroutines of a gateway interleave, and whatever the cache and the
    clock do, no table of the store grows beyond its capacity and no digest set beyond
    its limit; accounts, owners and connections are never bound to invalid identities,
    and a turn state bound under a generation has passed the validation. *)
Theorem store_bounded cache now w gs :
  rtc (ws_step ToLower) (NewOpenAIWSStateStore cache now, []) (w, gs) -> store_ok w.
Proof.
  intros Hr. cut (sound (w, gs)); [by intros []|]. refine (rtc_ind_r sound _ _ _ _ Hr).
  - split; [apply new_ok|constructor].
  - intros s s' _ Hs. by apply ws_step_sound.
Qed.

(** ** Response accounts *)

Definition account_key (g : Z) (r : string) : string :=
  openAIWSResponseAccountMapKey g (normalizeOpenAIWSResponseID r).
Definition account_cache_key (r : string) : string :=
  openAIWSResponseAccountCacheKey (normalizeOpenAIWSResponseID r).
(** The store has no binding of its own that is still good. *)
Definition forgotten (g : Z) (r : string) (w : W) : Prop :=
  forall b, responseToAccount w !! account_key g r = Some b -> expiresAt b <= wall w.
(** What a cleanup leaves alone. *)
Definition cleaned (w w' : W) : Prop :=
  ws_cache w' = ws_cache w /\ wall w' = wall w /\ responseToAccount w' ⊆ responseToAccount w /\
  forall k b, responseToAccount w !! k = Some b -> wall w <= expiresAt b -> responseToAccount w' !! k = Some b.

Lemma wp_maybeCleanup w : wp maybeCleanup (fun w' _ => cleaned w w') w.
Proof.
  assert (Hz : cleaned w w) by by repeat split.
  unfold maybeCleanup. simpl. intros _ _. case_match; [done|]. simpl. intros _.
  rewrite Z.eqb_refl. simpl. intros o1 o2 o3 o4 o5 o6. repeat split; simpl; [apply cleanup_sub|].
  intros k b Hk Hb. by apply cleanup_live.
Qed.

Lemma get_live g r b w :
  normalizeOpenAIWSResponseID r <> "" -> responseToAccount w !! account_key g r = Some b ->
  wall w < expiresAt b -> wp (GetResponseAccount g r) (fun _ a => a = value b) w.
Proof.
  intros Hr%String.eqb_neq Hb Hl. unfold GetResponseAccount. rewrite Hr. apply wp_bind.
  eapply wp_mono; [|apply wp_maybeCleanup]. intros w' _ (_ & Hw & _ & Hkeep). cbn. intros _ _.
  unfold account_key in *. rewrite (Hkeep _ _ Hb) by lia. cbn. rewrite Hw.
  by rewrite (proj2 (Z.ltb_lt _ _) Hl).
Qed.
Lemma get_cached g r c w :
  normalizeOpenAIWSResponseID r <> "" -> forgotten g r w -> ws_cache w = Some c ->
  wp (GetResponseAccount g r) (fun _ a =>
    a = match (cache_get g (account_cache_key r) c).2 with
        | Some (Some a) => if a <=? 0 then 0 else a
        | _ => 0
        end) w.
Proof.
  intros Hr%String.eqb_neq Hf Hc. unfold GetResponseAccount. rewrite Hr. apply wp_bind.
  eapply wp_mono; [|apply wp_maybeCleanup]. intros w' _ (Hc' & Hw & Hsub & _). cbn. intros _ _.
  match goal with |- wp (match ?x with _ => _ end) _ _ => assert (x = None) as -> end.
  { case_match eqn:Hb; [|done]. case_match eqn:Hl; [|done]. apply Z.ltb_lt in Hl.
    pose proof (Hf _ (lookup_weaken _ _ _ _ Hb Hsub)). lia. }
  cbn. intros _. rewrite Hc', Hc. cbn. intros _. rewrite Hc', Hc. unfold account_cache_key.
  destruct (cache_get _ _ _) as [c' [[x|]|]]; by cbn.
Qed.

(** A binding is stored here and, when there is a cache and it says so, in the cache. *)
Lemma wp_bind_account g r a ttl w :
  normalizeOpenAIWSResponseID r <> "" -> 0 < a ->
  wp (BindResponseAccount g r a ttl) (fun w' ok =>
    wall w' = wall w /\
    responseToAccount w' !! account_key g r = Some (MkBinding a (wall w + normalizeOpenAIWSTTL ttl)) /\
    match ws_cache w with
    | Some c => let '(c', ok') := cache_set g (account_cache_key r) a (normalizeOpenAIWSTTL ttl) c in
                ws_cache w' = Some c' /\ ok = ok'
    | None => ws_cache w' = None /\ ok = true
    end) w.
Proof.
  intros Hr%String.eqb_neq Ha. unfold BindResponseAccount. rewrite Hr, (proj2 (Z.leb_gt _ _) Ha).
  apply wp_bind. eapply wp_mono; [|apply wp_maybeCleanup]. intros w' _ (Hc & Hw & _). cbn. intros _ order _.
  unfold account_key, account_cache_key. rewrite Hc, Hw. destruct (ws_cache w) as [c|] eqn:Hcw; cbn.
  - intros _. rewrite Hc. destruct (cache_set _ _ _ _ c) as [c' ok']. cbn.
    unfold bind. by rewrite lookup_insert_eq.
  - unfold bind. by rewrite lookup_insert_eq.
Qed.
Lemma wp_delete_account g r c w :
  normalizeOpenAIWSResponseID r <> "" -> ws_cache w = Some c ->
  wp (DeleteResponseAccount g r) (fun w' ok =>
    responseToAccount w' !! account_key g r = None /\
    let '(c', ok') := cache_delete g (account_cache_key r) c in ws_cache w' = Some c' /\ ok = ok') w.
Proof.
  intros Hr%String.eqb_neq Hc. unfold DeleteResponseAccount. rewrite Hr. cbn. intros _ _. rewrite Hc. cbn.
  intros _. rewrite Hc. unfold account_key, account_cache_key.
  destruct (cache_delete _ _ c) as [c' ok']. cbn. by rewrite lookup_delete_eq.
Qed.

(** ** Bindings among other goroutines *)

(** A method that binds or deletes the account of key [k]. *)
Definition about (k : string) (c : ws_call) : Prop :=
  match c with
  | Call_BindResponseAccount g r _ _ | Call_DeleteResponseAccount g r => account_key g r = k
  | _ => False
  end.
(** A method of another goroutine that is under way, its readings of the clock not later
    than [T]. *)
Inductive under_way (k : string) (T : Time) : goroutine (C := C) -> Prop :=
  | way_starts c : ~ about k c -> under_way k T (called ToLower c)
  | way_goes_on {A B} (f : list string -> W -> W * B) (n : B -> Proc W A) order w :
      wall w <= T -> under_way k T (Goroutine (Act f n)) -> under_way k T (Goroutine (n (f order w).2)).
(** The table of accounts is not full. *)
Definition roomy (w : W) : Prop := Z.of_nat (size (responseToAccount w)) < openAIWSStateStoreMaxEntriesPerMap.
(** One goroutine runs among the others of its gateway, none of which starts a method
    about key [k], while the table of accounts is not full and the clock reads less
    than [E]. *)
Inductive among (k : string) (E : Time) {A} : W * Proc W A * list goroutine -> W * Proc W A * list goroutine -> Prop :=
  | among_self w B (f : list string -> W -> W * B) (n : B -> Proc W A) gs order :
      roomy w -> wall w < E -> among k E (w, Act f n, gs) ((f order w).1, n (f order w).2, gs)
  | among_start w p gs c :
      roomy w -> wall w < E -> ~ about k c -> among k E (w, p, gs) (w, p, called ToLower c :: gs)
  | among_others w p gs w' gs' :
      roomy w -> wall w < E -> ws_step ToLower (w, gs) (w', gs') -> length gs' = length gs ->
      among k E (w, p, gs) (w', p, gs').

Section Among.
Context (k : string) (a : Z) (E : Time).

(** Account [a] is bound until [E] at least. *)
Definition held (w : W) : Prop :=
  exists b, responseToAccount w !! k = Some b /\ value b = a /\ E <= expiresAt b.
(** Whatever it is told before [E], it leaves the binding alone. *)
Fixpoint spares {A} (p : Proc W A) (Q : A -> Prop) : Prop :=
  match p with
  | Ret x => Q x
  | Act f n => forall order w, wall w < E ->
      wall (f order w).1 = wall w /\ (roomy w -> held w -> held (f order w).1) /\ spares (n (f order w).2) Q
  end.
(** While [a] is bound it returns what [Q] says. *)
Fixpoint returns {A} (p : Proc W A) (Q : A -> Prop) : Prop :=
  match p with
  | Ret x => Q x
  | Act f n => forall order w, wall w < E -> roomy w -> held w ->
      wall (f order w).1 = wall w /\ held (f order w).1 /\ returns (n (f order w).2) Q
  end.
(** It binds [a] before it returns. *)
Fixpoint achieves (T : Time) {A} (p : Proc W A) : Prop :=
  match p with
  | Ret _ => False
  | Act f n => forall order w, T <= wall w < E ->
      wall (f order w).1 = wall w /\
      (achieves T (n (f order w).2) \/ held (f order w).1 /\ spares (n (f order w).2) (fun _ => True))
  end.

Lemma spared_bind {A B} (p : Proc W A) (n : A -> Proc W B) Q Q' :
  spares p Q -> (forall x, Q x -> spares (n x) Q') -> spares (p_bind p n) Q'.
Proof.
  intros Hp Hn. induction p as [x|D f n' IH]; simpl in *; [auto|]. intros order w Hw.
  destruct (Hp order w Hw) as (? & ? & ?). auto.
Qed.
Lemma spares_any {A} (p : Proc W A) Q : spares p Q -> spares p (fun _ => True).
Proof.
  induction p as [x|D f n' IH]; simpl; [done|]. intros Hp order w Hw. destruct (Hp order w Hw) as (? & ? & ?). auto.
Qed.
Lemma spares_returns {A} (p : Proc W A) Q : spares p Q -> returns p Q.
Proof.
  induction p as [x|D f n' IH]; simpl; [done|]. intros Hp order w Hw Hr Hh. destruct (Hp order w Hw) as (? & ? & ?). auto.
Qed.
Lemma returns_bind {A B} (p : Proc W A) (n : A -> Proc W B) Q Q' :
  returns p Q -> (forall x, Q x -> returns (n x) Q') -> returns (p_bind p n) Q'.
Proof.
  intros Hp Hn. induction p as [x|D f n' IH]; simpl in *; [auto|]. intros order w Hw Hr Hh.
  destruct (Hp order w Hw Hr Hh) as (? & ? & ?). auto.
Qed.
Lemma achieves_bind T {A B} (p : Proc W A) (n : A -> Proc W B) Q :
  spares p Q -> (forall x, Q x -> achieves T (n x)) -> achieves T (p_bind p n).
Proof.
  intros Hp Hn. induction p as [x|D f n' IH]; simpl in *; [auto|]. intros order w Hw.
  destruct (Hp order w ltac:(lia)) as (? & ? & ?). auto.
Qed.

(** What leaves the accounts and the clock alone. *)
Lemma spares_act {A} (f : list string -> W -> W * A) :
  (forall order w, wall (f order w).1 = wall w /\ responseToAccount (f order w).1 = responseToAccount w) ->
  spares (act f) (fun _ => True).
Proof.
  intros Hf order w _. destruct (Hf order w) as [Hw Ha]. split; [done|]. split; [|done]. unfold held. by rewrite Ha.
Qed.
Lemma spares_read {A} (f : W -> A) : spares (read f) (fun _ => True).
Proof. by apply spares_act. Qed.
Lemma spares_change (f : list string -> W -> W) :
  (forall order w, wall (f order w) = wall w /\ responseToAccount (f order w) = responseToAccount w) ->
  spares (change f) (fun _ => True).
Proof. intros Hf. by apply spares_act. Qed.
(** What changes the table of accounts and keeps the binding. *)
Lemma spares_table (f : list string -> gmap string (Binding Z) -> gmap string (Binding Z)) :
  (forall order m b, m !! k = Some b -> E <= expiresAt b ->
     Z.of_nat (size m) < openAIWSStateStoreMaxEntriesPerMap -> f order m !! k = Some b) ->
  spares (change (fun order (w : W) => w <| responseToAccount := f order (responseToAccount w) |>)) (fun _ => True).
Proof.
  intros Hf order w _. split; [done|]. split; [|done]. intros Hr (b & Hb & Hv & He). exists b. simpl. auto.
Qed.
Lemma spared_now : spares (Now (C := C)) (fun now => now < E).
Proof. intros order w Hw. by simpl. Qed.

Lemma spares_maybeCleanup : spares (maybeCleanup (C := C)) (fun _ => True).
Proof.
  unfold maybeCleanup. eapply spared_bind; [apply spared_now|intros now Hnow].
  eapply spared_bind; [apply spares_read|intros last _]. case_match; [done|].
  eapply spared_bind; [apply spares_act|intros won _]. { intros order w. by case_match. }
  case_match; [done|].
  eapply spared_bind; [apply (spares_table (fun order => cleanupExpired order now))|intros _ _].
  { intros order m b Hb He _. apply cleanup_live; [done|simpl in Hnow; lia]. }
  do 4 (eapply spared_bind; [by apply spares_change|intros _ _]). by apply spares_change.
Qed.
Lemma spares_cache (f : C -> C * bool) :
  spares (act (fun _ w => match ws_cache w with
    | Some c => let '(c, ok) := f c in (w <| ws_cache := Some c |>, ok)
    | None => (w, true) end)) (fun _ => True).
Proof. apply spares_act. intros _ w. case_match; [|done]. by destruct (f _). Qed.
Lemma spares_call_set g h x ttl : spares (call_set (C := C) g h x ttl) (fun _ => True).
Proof. apply spares_cache. Qed.
Lemma spares_call_delete g h : spares (call_delete (C := C) g h) (fun _ => True).
Proof. apply spares_cache. Qed.
Lemma spares_call_get g h : spares (call_get (C := C) g h) (fun _ => True).
Proof. apply spares_act. intros _ w. case_match; [|done]. by destruct (cache_get _ _ _). Qed.
(** Another key is bound in a table that is not full. *)
Lemma bind_other key' (b' : Binding Z) order (m : gmap string (Binding Z)) b :
  key' <> k -> m !! k = Some b -> Z.of_nat (size m) < openAIWSStateStoreMaxEntriesPerMap ->
  bind order key' b' m !! k = Some b.
Proof.
  intros Hk Hb Hm. unfold bind, ensureBindingCapacity. rewrite (proj2 (Z.ltb_lt _ _) Hm).
  simpl. by rewrite lookup_insert_ne.
Qed.

Ltac spare_actions :=
  repeat (intros;
    lazymatch goal with
    | |- spares (Ret _) _ => exact I
    | |- spares maybeCleanup _ => apply spares_maybeCleanup
    | |- spares (call_set _ _ _ _) _ => apply spares_call_set
    | |- spares (call_get _ _) _ => apply spares_call_get
    | |- spares (call_delete _ _) _ => apply spares_call_delete
    | |- spares (read _) _ => apply spares_read
    | |- spares (p_bind _ _) _ => eapply (spared_bind _ _ (fun _ => True))
    | |- spares (match _ with _ => _ end) _ => case_match
    end).

Definition sparer (m : goroutine (C := C)) : Prop := match m with Goroutine p => spares p (fun _ => True) end.
Lemma methods_spare c : ~ about k c -> sparer (called ToLower c).
Proof.
  destruct c; simpl; intros Hab;
   unfold BindResponseAccount, GetResponseAccount, DeleteResponseAccount, BindHTTPResponseOwner,
     GetHTTPResponseOwner, BindResponseConn, GetResponseConn, DeleteResponseConn, BindSessionConn,
     GetSessionConn, DeleteSessionConn, BindSessionTurnState, BindSessionTurnStateIfRefreshNeeded,
     GetSessionTurnState, GetSessionTurnStateForGeneration, DeleteSessionTurnStateIfMatch,
     DeleteSessionTurnState, DeleteSessionTurnStateForModel, DeleteAccountTurnStates,
     DeleteAllSessionTurnStates, MarkSessionInvalidEncryptedContent,
     GetSessionInvalidEncryptedContentDigests, HasAnySessionInvalidEncryptedContent, has_cache, Now,
     drop_turn_states;
   spare_actions.
  all: intros.
  all: try solve [by apply spares_change].
  all: try solve [apply spares_act; intros; repeat case_match; done].
  - apply (spares_table (fun order => bind order _ _)). intros order t b Hb _ Hm. apply bind_other; [|done..].
    intros E'. by apply Hab.
  - apply (spares_table (fun _ => delete _)). intros order t b Hb _ Hm. rewrite lookup_delete_ne; [done|].
    intros E'. by apply Hab.
  - split; [done|]. by split.
  - split; [done|]. by split.
Qed.
Lemma under_way_spares T m : T < E -> under_way k T m -> sparer m.
Proof.
  intros HT. induction 1 as [c Hab|A B f n order w Hw _ IH]; [by apply methods_spare|].
  simpl in *. apply IH. lia.
Qed.

(** What the others do. *)
Definition all_spare (gs : list (goroutine (C := C))) : Prop := Forall sparer gs.
Lemma others_spare w gs w' gs' :
  ws_step ToLower (w, gs) (w', gs') -> length gs' = length gs -> wall w < E -> roomy w ->
  all_spare gs -> all_spare gs' /\ wall w <= wall w' /\ (held w -> held w').
Proof.
  intros Hs Hab Hw Hr Hgs. remember (w, gs) as x eqn:Ex. remember (w', gs') as y eqn:Ey. revert Ex Ey.
  destruct Hs as [w0 gs0 c|w0 gs0 i A B f n order Hi|w0 gs0 t c Ht]; intros [= -> ->] [= <- <-].
  - simpl in Hab. lia.
  - destruct (proj1 (Forall_lookup _ _) Hgs _ _ Hi order w Hw) as (Hw' & Hh & Hn). rewrite Hw'.
    split; [by apply Forall_insert|]. split; [done|auto].
  - split; [done|]. split; [done|]. intros (b & ?). by exists b.
Qed.

Definition returning {A} (Q : A -> Prop) (x : W * Proc W A * list (goroutine (C := C))) : Prop :=
  returns x.1.2 Q /\ held x.1.1 /\ all_spare x.2.
Lemma among_returning {A} (Q : A -> Prop) x y : rtc (among k E) x y -> returning Q x -> returning Q y.
Proof.
  induction 1 as [x|x y z Hs _ IH]; [done|]. intros (Hp & Hh & Hg). apply IH.
  destruct Hs as [w B f n gs order Hr Hw|w p gs c Hr Hw Hab|w p gs w' gs' Hr Hw Hs Hab]; simpl in *.
  - destruct (Hp order w Hw Hr Hh) as (_ & Hh' & Hn). by split.
  - split; [done|]. split; [done|]. constructor; [by apply methods_spare|done].
  - destruct (others_spare _ _ _ _ Hs Hab Hw Hr Hg) as (Hg' & _ & Hk). split; [done|]. auto.
Qed.
Definition achieving T {A} (x : W * Proc W A * list (goroutine (C := C))) : Prop :=
  T <= wall x.1.1 /\ achieves T x.1.2 /\ all_spare x.2.
Lemma among_achieving T {A} (x y : W * Proc W A * list goroutine) :
  rtc (among k E) x y -> achieving T x -> achieving T y \/ returning (fun _ => True) y.
Proof.
  induction 1 as [x|x y z Hs Hss IH]; [by left|]. intros (HT & Hp & Hg).
  destruct Hs as [w B f n gs order Hr Hw|w p gs c Hr Hw Hab|w p gs w' gs' Hr Hw Hs Hab]; simpl in *.
  - destruct (Hp order w (conj HT Hw)) as (Hw' & [Hn|[Hh Hn]]).
    + apply IH. split; simpl; [lia|done].
    + right. eapply among_returning; [exact Hss|]. split; [by apply spares_returns|done].
  - apply IH. split; [done|]. split; [done|]. constructor; [by apply methods_spare|done].
  - destruct (others_spare _ _ _ _ Hs Hab Hw Hr Hg) as (Hg' & Hl & _). apply IH. split; simpl; [lia|done].
Qed.
Lemma get_returns g r :
  normalizeOpenAIWSResponseID r <> "" -> account_key g r = k -> returns (GetResponseAccount (C := C) g r) (fun x => x = a).
Proof.
  intros Hr%String.eqb_neq Hk. unfold GetResponseAccount. rewrite Hr.
  eapply returns_bind; [apply spares_returns, spares_maybeCleanup|intros _ _].
  eapply returns_bind; [apply spares_returns, spared_now|intros now Hnow]. simpl in Hnow.
  intros order w _ Hroom Hh. unfold account_key in Hk. rewrite Hk.
  split; [done|]. split; [done|]. destruct Hh as (b & Hb & Hv & He). simpl. rewrite Hb.
  rewrite (proj2 (Z.ltb_lt _ _)) by lia. by simpl.
Qed.
Lemma bind_achieves T g r ttl :
  normalizeOpenAIWSResponseID r <> "" -> account_key g r = k -> 0 < a -> E <= T + normalizeOpenAIWSTTL ttl ->
  achieves T (BindResponseAccount (C := C) g r a ttl).
Proof.
  intros Hr%String.eqb_neq Hk Ha HE. unfold BindResponseAccount. rewrite Hr, (proj2 (Z.leb_gt _ _) Ha).
  eapply achieves_bind; [apply spares_maybeCleanup|intros _ _].
  intros order w Hw. split; [done|]. left. intros order' w' Hw'. split; [done|]. right.
  unfold account_key in Hk. rewrite Hk. split.
  - exists (MkBinding a (wall w + normalizeOpenAIWSTTL ttl)). simpl. unfold bind. rewrite lookup_insert_eq.
    split; [done|]. split; [done|]. simpl. lia.
  - change (spares (let! cached := has_cache in if negb cached then Ret true
      else call_set g (openAIWSResponseAccountCacheKey (normalizeOpenAIWSResponseID r)) a (normalizeOpenAIWSTTL ttl)) (fun _ => True)).
    eapply spared_bind; [apply spares_read|intros cached _]. case_match; [done|apply spares_call_set].
Qed.
End Among.

(** A binding made among other goroutines is found among them. *)
Lemma bound_is_found g r a ttl w gs w1 ok gs1 w2 found gs2 :
  let k := account_key g r in
  let E := wall w + normalizeOpenAIWSTTL ttl in
  normalizeOpenAIWSResponseID r <> "" -> 0 < a -> Forall (under_way k (wall w)) gs ->
  rtc (among k E) (w, BindResponseAccount g r a ttl, gs) (w1, Ret ok, gs1) ->
  rtc (among k E) (w1, GetResponseAccount g r, gs1) (w2, Ret found, gs2) ->
  found = a.
Proof.
  intros k E Hr Ha Hgs Hb Hg.
  assert (Httl : wall w < E).
  { assert (0 < Hour) by reflexivity. unfold E, normalizeOpenAIWSTTL. case_match; bool_hyps; lia. }
  destruct (among_achieving k a E (wall w) _ _ Hb) as [(_ & [] & _)|(_ & Hh & Hs)].
  - split; [done|]. split; [by apply bind_achieves|].
    eapply Forall_impl; [exact Hgs|]. intros m. by apply under_way_spares.
  - apply (among_returning k a E (fun x => x = a)) in Hg as [Hf _]; [exact Hf|].
    split; [by apply get_returns|done].
Qed.

(** C40.  Once an account is bound to a response, the gateway that bound it finds it until
    the binding expires, without the cache too, however the binding and the question
    interleave with the other goroutines of the gateway, with methods under way before
    and methods begun since, as long as none of these binds or deletes an account of that
    response and the table of accounts is not full.  A gateway that shares the cache and
    has no binding of its own finds it whenever the binding reported no error and the
    cache answers, and the bindings of other responses and groups are as they were; after
    a deletion that reported no error such a gateway finds nothing. *)
Theorem response_account_found g r a ttl w c orders :
  normalizeOpenAIWSResponseID r <> "" -> 0 < a -> ws_cache w = Some c ->
  (forall gs w1 ok gs1 w2 found gs2,
     let step T := among (A := T) (account_key g r) (wall w + normalizeOpenAIWSTTL ttl) in
     Forall (under_way (account_key g r) (wall w)) gs ->
     rtc (step bool) (w, BindResponseAccount g r a ttl, gs) (w1, Ret ok, gs1) ->
     rtc (step Z) (w1, GetResponseAccount g r, gs1) (w2, Ret found, gs2) ->
     found = a) /\
  let '(w1, ok) := run_proc orders (BindResponseAccount g r a ttl) w in
  (forall cache t os, wall w <= t < wall w + normalizeOpenAIWSTTL ttl ->
     (run_proc os (GetResponseAccount g r) (w1 <| wall := t |> <| ws_cache := cache |>)).2 = a) /\
  (exists c1, ws_cache w1 = Some c1 /\
   (forall g' h', (g', h') <> (g, account_cache_key r) -> bound c1 g' h' = bound c g' h') /\
   (ok = true -> forall w2 os, ws_cache w2 = Some c1 -> forgotten g r w2 ->
     (run_proc os (GetResponseAccount g r) w2).2 =
       if (cache_get g (account_cache_key r) c1).2 is Some _ then a else 0)) /\
  forall os, let '(w3, deleted) := run_proc os (DeleteResponseAccount g r) w1 in
    deleted = true -> forgotten g r w3 /\
    forall w4 os', ws_cache w4 = ws_cache w3 -> forgotten g r w4 ->
      (run_proc os' (GetResponseAccount g r) w4).2 = 0.
Proof.
  intros Hr Ha Hc. split.
  { intros gs w1 ok gs1 w2 found gs2. cbv zeta. by apply bound_is_found. }
  pose proof (wp_run _ _ _ orders (wp_bind_account g r a ttl w Hr Ha)) as Hb.
  destruct (run_proc orders _ w) as [w1 ok]. cbn [fst snd] in Hb. destruct Hb as (Hw & Hk & Hb). rewrite Hc in Hb.
  destruct (cache_set_spec g (account_cache_key r) a (normalizeOpenAIWSTTL ttl) c) as (Hs & _ & Ho).
  destruct (cache_set _ _ _ _ c) as [c1 ok1]. destruct Hb as [Hc1 ->]. cbn [fst snd] in *.
  split; [|split].
  - intros cache t os Ht. set (w2 := _ : W).
    exact (wp_run _ _ _ os (get_live g r _ w2 Hr Hk (proj2 Ht))).
  - exists c1. split; [done|]. split; [done|]. intros -> w2 os Hc2 Hf.
    pose proof (wp_run _ _ _ os (get_cached g r c1 w2 Hr Hf Hc2)) as ->.
    destruct (cache_get_spec g (account_cache_key r) c1) as [_ [->| ->]]; [done|].
    rewrite (Hs eq_refl). by rewrite (proj2 (Z.leb_gt _ _) Ha).
  - intros os. pose proof (wp_run _ _ _ os (wp_delete_account g r c1 w1 Hr Hc1)) as Hd.
    destruct (run_proc os _ w1) as [w3 deleted]. cbn [fst snd] in Hd.
    destruct (cache_delete_spec g (account_cache_key r) c1) as (Hg & _ & _).
    destruct (cache_delete _ _ c1) as [c3 ok3]. destruct Hd as (Hk3 & Hc3 & ->). cbn [fst snd] in *.
    intros ->. split; [intros b Hkb; congruence|]. intros w4 os' Hc4 Hf.
    rewrite Hc3 in Hc4. pose proof (wp_run _ _ _ os' (get_cached g r c3 w4 Hr Hf Hc4)) as ->.
    destruct (cache_get_spec g (account_cache_key r) c3) as [_ [->| ->]]; [done|]. by rewrite (Hg eq_refl).
Qed.
End Store_proofs.


(** ** The theorems at concrete inputs *)

Definition new_store : WSStore (CacheClient Store) := NewOpenAIWSStateStore (Some (owner_store, [])) 0.
(** A goroutine binds a connection: it reads the clock and the time of the last cleanup,
    then it binds. *)
Lemma one_conn_bound :
  exists w gs, rtc (ws_step id) (new_store, []) (w, gs) /\
    responseToConn w !! "r" = Some (MkBinding "c" Hour) /\ size (responseToConn w) = 1%nat.
Proof.
  do 2 eexists. split.
  - eapply rtc_l; [apply (ws_start id new_store [] (Call_BindResponseConn "r" " c " 0))|].
    eapply rtc_l; [eapply (ws_act id _ _ 0%nat) with (order := []); reflexivity|].
    eapply rtc_l; [eapply (ws_act id _ _ 0%nat) with (order := []); reflexivity|].
    eapply rtc_once; eapply (ws_act id _ _ 0%nat) with (order := []); reflexivity.
  - by vm_compute.
Defined.
Lemma store_bounded_witness : exists w : WSStore (CacheClient Store), responseToConn w <> ∅ /\ store_ok w.
Proof.
  destruct one_conn_bound as (w & gs & Hr & Hk & _). exists w. split.
  - intros He. rewrite He in Hk. discriminate.
  - exact (store_bounded id (Some (owner_store, [])) 0 w gs Hr).
Defined.

(** While a response is bound and asked for, another goroutine binds another response. *)
Definition other_bind : goroutine (C := CacheClient Store) := called id (Call_BindResponseAccount 7 "resp_2" 4 0).
Ltac self_step := eapply rtc_l; [apply (among_self _ _ _ _ _ _ _ _ []); [vm_compute; reflexivity|vm_compute; reflexivity]|]; cbv beta.
Ltac other_step :=
  eapply rtc_l; [eapply among_others; [vm_compute; reflexivity|vm_compute; reflexivity|
    eapply (ws_act _ _ _ 0%nat) with (order := []); reflexivity|reflexivity]|]; cbv beta.
Lemma response_account_found_witness :
  exists w1 gs1 w2 found gs2,
    rtc (among id (account_key 7 " resp_1 ") Hour) (new_store, BindResponseAccount 7 " resp_1 " 3 0, [other_bind])
      (w1, Ret true, gs1) /\
    rtc (among id (account_key 7 " resp_1 ") Hour) (w1, GetResponseAccount 7 " resp_1 ", gs1) (w2, Ret found, gs2) /\
    size (responseToAccount w2) = 2%nat /\ found = 3.
Proof.
  assert (Hex : exists w1 gs1 w2 found gs2,
    rtc (among id (account_key 7 " resp_1 ") Hour) (new_store, BindResponseAccount 7 " resp_1 " 3 0, [other_bind])
      (w1, Ret true, gs1) /\
    rtc (among id (account_key 7 " resp_1 ") Hour) (w1, GetResponseAccount 7 " resp_1 ", gs1) (w2, Ret found, gs2) /\
    size (responseToAccount w2) = 2%nat).
  { do 5 eexists. split; [|split].
    - do 2 self_step. do 4 other_step. do 4 self_step. apply rtc_refl.
    - do 4 self_step. apply rtc_refl.
    - by vm_compute. }
  destruct Hex as (w1 & gs1 & w2 & found & gs2 & Hb & Hg & Hn). exists w1, gs1, w2, found, gs2.
  split; [exact Hb|]. split; [exact Hg|]. split; [exact Hn|].
  refine (proj1 (response_account_found id 7 " resp_1 " 3 0 new_store (owner_store, []) [] _ _ _) _ _ _ _ _ _ _ _ Hb Hg);
    [by vm_compute|done|done|].
  constructor; [|constructor]. apply way_starts. intros Hk. by vm_compute in Hk.
Defined.
