(* ===== verification/ConcurrencyService.v ===== *)
(** * The concurrency service

    [src/backend/internal/service/concurrency_service.go], on top of the distributed
    cache of [ConcurrencyCache.v]: request ids, slots whose heartbeat renews them until
    they are released, WebSocket ingress leases, wait queues that fail open, and the
    short-lived cache of account loads.

    The service finds the optional abilities of its cache by type assertion; here they
    are flags of the cache object.  Contexts, their timeouts (a round trip that times
    out ends as [Refused] or [ReplyLost]) and log lines are left out, and so is the nil
    receiver.  Durations and times are nanoseconds. *)

From S2P Require Import Prelude Json Encoding Redis ConcurrencyCache TurnState WSStateStore.
Local Open Scope string_scope.
Local Open Scope Z_scope.
Local Open Scope list_scope.
Local Open Scope go_scope.

(** ** Request ids *)

Definition digit36 (d : Z) : Ascii.ascii := Ascii.ascii_of_nat (Z.to_nat (if d <? 10 then 48 + d else 87 + d)).
(** [strconv.FormatUint(z, 36)]: a 64-bit integer has at most 13 digits. *)
Fixpoint format36 (digits : nat) (z : Z) (acc : string) : string :=
  match digits with
  | O => acc
  | S digits =>
      let acc := String (digit36 (z mod 36)) acc in
      if z <? 36 then acc else format36 digits (z / 36) acc
  end.
Definition FormatUint36 (z : Z) : string := format36 13 z "".

(** [random]: the eight random bytes, if the source gave them; [now] and [pid] make the
    fallback. *)
Definition initRequestIDPrefix (random : option (list Z)) (now pid : Z) : string :=
  match random with
  | Some b => "r" +:+ FormatUint36 (big_endian b)
  | None => "r" +:+ FormatUint36 (Z.lxor (now mod 2 ^ 64) (Z.shiftl pid 16 mod 2 ^ 64))
  end.
Definition generateRequestID (requestIDPrefix : string) (requestIDCounter : Z) : Z * string :=
  let seq := u64_succ requestIDCounter in
  (seq, requestIDPrefix +:+ "-" +:+ FormatUint36 seq).

(** ** The service and its cache *)

Definition openAIWSIngressLeaseTTL : Duration := 60 * Second.
Definition openAIWSIngressLeaseRefreshInterval : Duration := 20 * Second.
Definition defaultExtraWaitSlots : Z := 20.
Definition defaultAccountLoadBatchCacheTTL : Duration := 200 * Millisecond.
Definition maxAccountLoadBatchCacheEntries : nat := 256.
Definition defaultConcurrencySlotTTL : Duration := 15 * Minute.

(** The cache object and the optional interfaces it implements. *)
Record CacheObject := MkCacheObject {
  cc : concurrencyCache;
  has_refresher : bool;       (* concurrencySlotRefresher *)
  has_ttl : bool;             (* concurrencySlotTTLProvider *)
  has_limiter : bool;         (* APIKeyConcurrencyLimiterCache *)
  has_tracker : bool;         (* APIKeyConcurrencyCache *)
  has_ingress : bool;         (* OpenAIWSIngressLeaseCache *)
  has_admission : bool;       (* OpenAIOAuthAdmissionCache *)
  has_cancellation : bool;    (* openAIOAuthAdmissionCancellationCache *)
}.
(** [*concurrencyCache] implements them all. *)
Definition redis_cache_object (c : concurrencyCache) : CacheObject :=
  MkCacheObject c true true true true true true true.
Definition ConcurrencySlotTTL (c : concurrencyCache) : Duration :=
  if slotTTLSeconds c <=? 0 then 0 else int_mul (slotTTLSeconds c) Second.

Section Service.
Context {R : Type} `{RedisServer R}.
Local Abbreviation Go := (Go R).
(** [s.cache], nil or a cache. *)
Context (cache : option CacheObject).

(** ** Heartbeats *)

(** What runs behind a release function: the renewal, if there is one, and the release. *)
Record Heartbeat := MkHeartbeat {
  hb_refresh : option (Go bool);
  hb_release : Go ();
  hb_interval : Duration;
  hb_entity : string;
}.
Inductive ReleaseFunc := NoRelease | Releasing (h : Heartbeat).
Record AcquireResult := MkAcquireResult { Acquired : bool; Release : option ReleaseFunc }.

Definition startConcurrencySlotHeartbeat (refresh : option (Go bool)) (release : option (Go ()))
    (interval : Duration) (entity : string) : ReleaseFunc :=
  match release with
  | None => NoRelease
  | Some release =>
      match refresh with
      | None => Releasing (MkHeartbeat None release interval entity)
      | Some refresh =>
          let interval := if interval <=? 0 then Z.quot defaultConcurrencySlotTTL 3 else interval in
          Releasing (MkHeartbeat (Some refresh) release interval entity)
      end
  end.

Definition concurrencySlotHeartbeatInterval (o : CacheObject) : Duration :=
  let ttl := defaultConcurrencySlotTTL in
  let ttl := if has_ttl o
             then let configured := ConcurrencySlotTTL (cc o) in if 0 <? configured then configured else ttl
             else ttl in
  let interval := Z.quot ttl 3 in
  let interval := if interval <=? 0 then Second else interval in
  if 5 * Minute <? interval then 5 * Minute else interval.

Definition start_heartbeat (o : CacheObject) (refresh : Go bool) (release : Go ()) (entity : string) : ReleaseFunc :=
  if negb (has_refresher o) then startConcurrencySlotHeartbeat None (Some release) 0 entity
  else startConcurrencySlotHeartbeat (Some refresh) (Some release) (concurrencySlotHeartbeatInterval o) entity.
Definition startAccountSlotHeartbeat (o : CacheObject) (accountID : Z) (requestID : string) : ReleaseFunc :=
  start_heartbeat o (RefreshAccountSlot (cc o) accountID requestID) (ReleaseAccountSlot (cc o) accountID requestID)
    ("account:" +:+ FormatInt accountID).
Definition startUserSlotHeartbeat (o : CacheObject) (userID : Z) (requestID : string) : ReleaseFunc :=
  start_heartbeat o (RefreshUserSlot (cc o) userID requestID) (ReleaseUserSlot (cc o) userID requestID)
    ("user:" +:+ FormatInt userID).
Definition startAPIKeySlotHeartbeat (o : CacheObject) (apiKeyID : Z) (requestID : string) : ReleaseFunc :=
  start_heartbeat o (RefreshAPIKeySlot (cc o) apiKeyID requestID) (ReleaseAPIKeySlot (cc o) apiKeyID requestID)
    ("api_key:" +:+ FormatInt apiKeyID).

(** ** Slots

    A method draws its request id, if it needs one, before its first round trip: it is a
    function of the process's id prefix and counter. *)

Definition Process : Type := string * Z.
Definition draw (p : Process) : Process * string :=
  let '(seq, id) := generateRequestID p.1 p.2 in ((p.1, seq), id).
Definition unlimited : AcquireResult := MkAcquireResult true (Some NoRelease).
Definition not_acquired : AcquireResult := MkAcquireResult false None.

(** The nil cache panics here: [AcquireAccountSlot] and [AcquireUserSlot] do not test it. *)
Definition AcquireAccountSlot (o : CacheObject) (accountID maxConcurrency : Z) (p : Process) :
    Process * Go AcquireResult :=
  if maxConcurrency <=? 0 then (p, g_ret unlimited)
  else
    let '(p, requestID) := draw p in
    (p, let? acquired := ConcurrencyCache.AcquireAccountSlot (cc o) accountID maxConcurrency requestID in
        g_ret (if acquired
               then MkAcquireResult true (Some (startAccountSlotHeartbeat o accountID requestID))
               else not_acquired)).
Definition AcquireUserSlot (o : CacheObject) (userID maxConcurrency : Z) (p : Process) :
    Process * Go AcquireResult :=
  if maxConcurrency <=? 0 then (p, g_ret unlimited)
  else
    let '(p, requestID) := draw p in
    (p, let? acquired := ConcurrencyCache.AcquireUserSlot (cc o) userID maxConcurrency requestID in
        g_ret (if acquired
               then MkAcquireResult true (Some (startUserSlotHeartbeat o userID requestID))
               else not_acquired)).

(** An unlimited key is tracked, best effort. *)
Definition TrackAPIKeySlot (apiKeyID : Z) (p : Process) : Process * Go ReleaseFunc :=
  match cache with
  | None => (p, g_ret NoRelease)
  | Some o =>
      if apiKeyID <=? 0 then (p, g_ret NoRelease)
      else if negb (has_tracker o) then (p, g_ret NoRelease)
      else
        let '(p, requestID) := draw p in
        (p, let? tracked := g_try (ConcurrencyCache.TrackAPIKeySlot (cc o) apiKeyID requestID) in
            g_ret (match tracked with
                   | Some _ => startAPIKeySlotHeartbeat o apiKeyID requestID
                   | None => NoRelease
                   end))
  end.
Definition AcquireAPIKeySlot (apiKeyID maxConcurrency : Z) (p : Process) : Process * Go AcquireResult :=
  if maxConcurrency <=? 0 then
    let '(p, tracked) := TrackAPIKeySlot apiKeyID p in
    (p, let? release := tracked in g_ret (MkAcquireResult true (Some release)))
  else
    match cache with
    | None => (p, g_err)
    | Some o =>
        if apiKeyID <=? 0 then (p, g_err)
        else if negb (has_limiter o) then (p, g_err)
        else
          let '(p, requestID) := draw p in
          (p, let? acquired := ConcurrencyCache.AcquireAPIKeySlot (cc o) apiKeyID maxConcurrency requestID in
              g_ret (if acquired
                     then MkAcquireResult true (Some (startAPIKeySlotHeartbeat o apiKeyID requestID))
                     else not_acquired))
    end.
Definition SupportsAPIKeyConcurrencyLimit : bool := match cache with Some o => has_limiter o | None => false end.

Definition zeroAPIKeyConcurrencyMap (apiKeyIDs : list Z) : gmap Z Z :=
  fold_left (fun m id => <[id := 0]> m) apiKeyIDs ∅.
Definition GetAPIKeyConcurrencyBatch (apiKeyIDs : list Z) : Go (gmap Z Z) :=
  let result := zeroAPIKeyConcurrencyMap apiKeyIDs in
  match apiKeyIDs, cache with
  | [], _ | _, None => g_ret result
  | _, Some o =>
      if negb (has_tracker o) then g_ret result
      else
        let? counts := g_try (ConcurrencyCache.GetAPIKeyConcurrencyBatch (cc o) apiKeyIDs) in
        match counts with
        | None => g_ret result
        | Some counts => g_ret (fold_left (fun m id => <[id := default 0 (counts !! id)]> m) apiKeyIDs result)
        end
  end.
Definition GetAccountConcurrencyBatch (accountIDs : list Z) : Go (gmap Z Z) :=
  match accountIDs, cache with
  | [], _ => g_ret ∅
  | _, None => g_ret (fold_left (fun m id => <[id := 0]> m) accountIDs ∅)
  | _, Some o => ConcurrencyCache.GetAccountConcurrencyBatch (cc o) accountIDs
  end.

(** ** Wait queues: without an answer the request goes on *)

Definition fail_open (m : Go bool) : Go bool :=
  let? o := g_try m in g_ret (match o with Some b => b | None => true end).
Definition IncrementWaitCount (userID maxWait : Z) : Go bool :=
  match cache with
  | None => g_ret true
  | Some o => fail_open (ConcurrencyCache.IncrementWaitCount (cc o) userID maxWait)
  end.
Definition DecrementWaitCount (userID : Z) : Go () :=
  match cache with None => g_ret tt | Some o => g_ignore (ConcurrencyCache.DecrementWaitCount (cc o) userID) end.
Definition IncrementAPIKeyWaitCount (apiKeyID maxWait : Z) : Go bool :=
  match cache with
  | None => g_ret true
  | Some o =>
      if negb (has_limiter o) then g_err
      else fail_open (ConcurrencyCache.IncrementAPIKeyWaitCount (cc o) apiKeyID maxWait)
  end.
Definition DecrementAPIKeyWaitCount (apiKeyID : Z) : Go () :=
  match cache with
  | None => g_ret tt
  | Some o =>
      if negb (has_limiter o) then g_ret tt
      else g_ignore (ConcurrencyCache.DecrementAPIKeyWaitCount (cc o) apiKeyID)
  end.
Definition IncrementAccountWaitCount (accountID maxWait : Z) : Go bool :=
  match cache with
  | None => g_ret true
  | Some o => fail_open (ConcurrencyCache.IncrementAccountWaitCount (cc o) accountID maxWait)
  end.
Definition DecrementAccountWaitCount (accountID : Z) : Go () :=
  match cache with
  | None => g_ret tt
  | Some o => g_ignore (ConcurrencyCache.DecrementAccountWaitCount (cc o) accountID)
  end.
Definition GetAccountWaitingCount (accountID : Z) : Go Z :=
  match cache with None => g_ret 0 | Some o => ConcurrencyCache.GetAccountWaitingCount accountID end.
Definition CalculateMaxWait (userConcurrency : Z) : Z :=
  let userConcurrency := if userConcurrency <=? 0 then 1 else userConcurrency in
  int_add userConcurrency defaultExtraWaitSlots.

(** ** What is passed on *)

Definition ReserveOpenAIOAuthAdmission (accountID interval notBefore maxWait stateTTL : Z) : Go (Z * bool) :=
  match cache with
  | None => g_ret (zero_time, false)
  | Some o =>
      if negb (has_admission o) then g_ret (zero_time, false)
      else ConcurrencyCache.ReserveOpenAIOAuthAdmission accountID interval notBefore maxWait stateTTL
  end.
Definition DeferOpenAIOAuthAdmission (accountID until stateTTL : Z) : Go () :=
  match cache with
  | None => g_ret tt
  | Some o =>
      if negb (has_admission o) then g_ret tt
      else ConcurrencyCache.DeferOpenAIOAuthAdmission accountID until stateTTL
  end.
Definition CancelOpenAIOAuthAdmission (accountID scheduledAt interval stateTTL : Z) : Go () :=
  match cache with
  | None => g_ret tt
  | Some o =>
      if negb (has_cancellation o) then g_ret tt
      else ConcurrencyCache.CancelOpenAIOAuthAdmission accountID scheduledAt interval stateTTL
  end.
Definition GetUsersLoadBatch (users : list (Z * Z)) : Go (gmap Z LoadInfo) :=
  match cache with None => g_ret ∅ | Some o => ConcurrencyCache.GetUsersLoadBatch (cc o) users end.
Definition CleanupExpiredAccountSlots (accountID : Z) : Go () :=
  match cache with None => g_ret tt | Some o => ConcurrencyCache.CleanupExpiredAccountSlots (cc o) accountID end.
Definition CleanupStaleProcessSlots (p : Process) : Go () :=
  match cache with None => g_ret tt | Some o => ConcurrencyCache.CleanupStaleProcessSlots (cc o) p.1 end.
(** One round of the cleanup worker's ticker. *)
Definition runCleanup (o : CacheObject) : Go () := g_ignore (CleanupExpiredAccountSlotKeys (cc o)).

(** ** Ingress leases *)

Record IngressLease := MkIngressLease { il_apiKeyID : Z; il_leaseID : string }.
(** No lease and true: the limit is off. *)
Definition AcquireOpenAIWSIngressLease (apiKeyID maxConnections : Z) (p : Process) :
    Process * Go (option IngressLease * bool) :=
  if maxConnections <=? 0 then (p, g_ret (None, true))
  else
    match cache with
    | None => (p, g_err)
    | Some o =>
        if apiKeyID <=? 0 then (p, g_err)
        else if negb (has_ingress o) then (p, g_err)
        else
          let '(p, leaseID) := draw p in
          (p, let? acquired := ConcurrencyCache.AcquireOpenAIWSIngressLease apiKeyID maxConnections leaseID in
              g_ret (if acquired then (Some (MkIngressLease apiKeyID leaseID), true) else (None, false)))
    end.
(** [refresh]: what an answer of the cache (or an error) at [now] means for a lease last
    confirmed at [lastConfirmedAt]: when it counts as confirmed, and whether it is lost. *)
Definition lease_refresh (answer : option bool) (now lastConfirmedAt : Time) : Time * bool :=
  match answer with
  | Some true => (now, false)
  | Some false => (lastConfirmedAt, true)
  | None => (lastConfirmedAt, openAIWSIngressLeaseTTL <=? time_Sub now lastConfirmedAt)
  end.
End Service.
Arguments Heartbeat R : clear implicits.
Arguments ReleaseFunc R : clear implicits.
Arguments AcquireResult R : clear implicits.

(** ** Renewal goroutines and their release

    A renewal loop waits for its ticker, is in the middle of a refresh, or has returned.
    A release has not been called, waits for the loop, runs, or is over; further calls
    only wait for the first ([sync.Once]). *)

Inductive Loop (R : Type) := Waits | Refreshes (p : Go R bool) | Returned.
Inductive ReleasePc (R : Type) := NotCalled | AwaitsLoop | Runs (p : Go R ()) | Over.
Arguments Waits {R}.
Arguments Refreshes {R} p.
Arguments Returned {R}.
Arguments NotCalled {R}.
Arguments AwaitsLoop {R}.
Arguments Runs {R} p.
Arguments Over {R}.

(** A heartbeat: [stopCh] is closed, the goroutine, the release function. *)
Record Beat (R : Type) := MkBeat { b_stopped : bool; b_loop : Loop R; b_release : ReleasePc R }.
Arguments MkBeat {R}.
Arguments b_stopped {R} b.
Arguments b_loop {R} b.
Arguments b_release {R} b.
#[export] Instance eta_Beat R : Eta (Beat R) := fun b => MkBeat (b_stopped b) (b_loop b) (b_release b).
(** Without a refresh there is no goroutine to wait for. *)
Definition start_beat {R} (h : Heartbeat R) : Beat R :=
  MkBeat false (if hb_refresh h is Some _ then Waits else Returned) NotCalled.

Section Beats.
Context {R : Type} `{RedisServer R}.

(** The select may take the tick although [stopCh] is closed. *)
Inductive beat_step (h : Heartbeat R) : R * Beat R -> R * Beat R -> Prop :=
  | beat_tick r b refresh :
      hb_refresh h = Some refresh -> b_loop b = Waits ->
      beat_step h (r, b) (r, b <| b_loop := Refreshes refresh |>)
  | beat_quit r b :
      b_loop b = Waits -> b_stopped b = true ->
      beat_step h (r, b) (r, b <| b_loop := Returned |>)
  | beat_trip r b B (m : Script R B) f out :
      b_loop b = Refreshes (RoundTrip m f) ->
      beat_step h (r, b)
        ((round_trip out m r).1, b <| b_loop := Refreshes (f (round_trip out m r).2) |>)
  | beat_renewed r b answer :
      b_loop b = Refreshes (Done answer) -> answer <> Some false ->
      beat_step h (r, b) (r, b <| b_loop := Waits |>)
  | beat_lost r b :
      b_loop b = Refreshes (Done (Some false)) ->
      beat_step h (r, b) (r, b <| b_stopped := true |> <| b_loop := Returned |>)
  | beat_release r b :
      b_release b = NotCalled ->
      beat_step h (r, b) (r, b <| b_stopped := true |> <| b_release := AwaitsLoop |>)
  | beat_drained r b :
      b_release b = AwaitsLoop -> b_loop b = Returned ->
      beat_step h (r, b) (r, b <| b_release := Runs (hb_release h) |>)
  | beat_release_trip r b B (m : Script R B) f out :
      b_release b = Runs (RoundTrip m f) ->
      beat_step h (r, b)
        ((round_trip out m r).1, b <| b_release := Runs (f (round_trip out m r).2) |>)
  | beat_over r b o :
      b_release b = Runs (Done o) ->
      beat_step h (r, b) (r, b <| b_release := Over |>).

(** A heartbeat among the other clients of the server. *)
Inductive held_step (c : concurrencyCache) (ok : op -> Prop) (h : Heartbeat R) :
    R * list client * Beat R -> R * list client * Beat R -> Prop :=
  | held_own r cs b r' b' : beat_step h (r, b) (r', b') -> held_step c ok h (r, cs, b) (r', cs, b')
  | held_other r cs b r' cs' : sys_step c ok (r, cs) (r', cs') -> held_step c ok h (r, cs, b) (r', cs', b).

(** The refresh loop of an ingress lease and its context. *)
Inductive Cause := Canceled | LeaseLost | ParentDone.
Record LeaseState := MkLeaseState {
  ls_cause : option Cause;
  ls_stopped : bool;
  ls_loop : Loop R;
  ls_lastConfirmedAt : Time;
  ls_release : ReleasePc R;
}.
#[export] Instance eta_LeaseState : Eta LeaseState := fun l =>
  MkLeaseState (ls_cause l) (ls_stopped l) (ls_loop l) (ls_lastConfirmedAt l) (ls_release l).
Definition start_lease (now : Time) : LeaseState := MkLeaseState None false Waits now NotCalled.
(** The first cause stays. *)
Definition lease_cancel (cause : Cause) (l : LeaseState) : LeaseState :=
  l <| ls_cause := match ls_cause l with None => Some cause | some => some end |>.

(** Time is what the process's clock reads. *)
Inductive lease_step (lease : IngressLease) : Time * R * LeaseState -> Time * R * LeaseState -> Prop :=
  | lease_tick t r l :
      ls_loop l = Waits ->
      lease_step lease (t, r, l)
        (t, r, l <| ls_loop := Refreshes (RefreshOpenAIWSIngressLease (il_apiKeyID lease) (il_leaseID lease)) |>)
  | lease_quit t r l :
      ls_loop l = Waits -> ls_stopped l = true \/ ls_cause l <> None ->
      lease_step lease (t, r, l) (t, r, l <| ls_loop := Returned |>)
  | lease_trip t r l B (m : Script R B) f out :
      ls_loop l = Refreshes (RoundTrip m f) ->
      lease_step lease (t, r, l)
        (t, (round_trip out m r).1, l <| ls_loop := Refreshes (f (round_trip out m r).2) |>)
  | lease_answer t r l answer :
      ls_loop l = Refreshes (Done answer) ->
      lease_step lease (t, r, l) (t, r,
        let '(lastConfirmedAt, lost) := lease_refresh answer t (ls_lastConfirmedAt l) in
        let l := l <| ls_lastConfirmedAt := lastConfirmedAt |> in
        if lost then lease_cancel LeaseLost l <| ls_loop := Returned |> else l <| ls_loop := Waits |>)
  | lease_parent t r l : lease_step lease (t, r, l) (t, r, lease_cancel ParentDone l)
  | lease_released t r l :
      ls_release l = NotCalled ->
      lease_step lease (t, r, l)
        (t, r, lease_cancel Canceled (l <| ls_stopped := true |> <| ls_release := AwaitsLoop |>))
  | lease_drained t r l :
      ls_release l = AwaitsLoop -> ls_loop l = Returned ->
      lease_step lease (t, r, l) (t, r,
        if (il_apiKeyID lease <=? 0) || (il_leaseID lease =?s "") then l <| ls_release := Over |>
        else l <| ls_release := Runs (ReleaseOpenAIWSIngressLease (il_apiKeyID lease) (il_leaseID lease)) |>)
  | lease_release_trip t r l B (m : Script R B) f out :
      ls_release l = Runs (RoundTrip m f) ->
      lease_step lease (t, r, l)
        (t, (round_trip out m r).1, l <| ls_release := Runs (f (round_trip out m r).2) |>)
  | lease_over t r l o :
      ls_release l = Runs (Done o) -> lease_step lease (t, r, l) (t, r, l <| ls_release := Over |>)
  | lease_time t t' r r' l : t <= t' -> lease_step lease (t, r, l) (t', r', l).
End Beats.

(** ** The cache of account loads *)

Fixpoint to_little_endian (n : nat) (x : Z) : list Z :=
  match n with O => [] | S n => x mod 256 :: to_little_endian n (x / 256) end.
Definition of_bytes (l : list Z) : string := str_concat (map (fun b => byte_str (Z.to_nat b)) l).
Definition accountLoadBatchCacheKey (accounts : list (Z * Z)) : string :=
  FormatInt (Z.of_nat (length accounts)) +:+ ":" +:+
  hex (sha256 (of_bytes (concat (map (fun '(id, maxConcurrency) =>
    to_little_endian 8 (id mod 2 ^ 64) ++ to_little_endian 8 (maxConcurrency mod 2 ^ 64)) accounts)))).

Local Abbreviation Loads := (gmap Z LoadInfo).
(** The process and the server: what the coming round trips will end like is in [lw_fates]. *)
Record LoadWorld (R : Type) := MkLoadWorld {
  lw_server : R;
  lw_fates : list Outcome;
  accountLoadCacheTTL : Duration;
  accountLoadCache : gmap string (Binding (gmap Z LoadInfo));
  lw_wall : Time;
}.
Arguments MkLoadWorld {R}.
Arguments lw_server {R} l.
Arguments lw_fates {R} l.
Arguments accountLoadCacheTTL {R} l.
Arguments accountLoadCache {R} l.
Arguments lw_wall {R} l.
#[export] Instance eta_LoadWorld R : Eta (LoadWorld R) := fun w =>
  MkLoadWorld (lw_server w) (lw_fates w) (accountLoadCacheTTL w) (accountLoadCache w) (lw_wall w).

(** Delete the keys one by one until there is room. *)
Fixpoint evict_until_room {T} (keys : list string) (m : gmap string T) : gmap string T :=
  match keys with
  | key :: keys => if Nat.leb maxAccountLoadBatchCacheEntries (size m) then evict_until_room keys (delete key m) else m
  | [] => m
  end.

Section Loads_.
Context {R : Type} `{RedisServer R} (cache : option CacheObject).
Local Abbreviation W := (LoadWorld R).
Local Abbreviation P := (Proc (LoadWorld R)).
(** [accountLoadGroup.Do] of golang.org/x/sync/singleflight. *)
Context (Do : string -> P (option Loads) -> P (option Loads)).

(** A client's round trips, each ending as fated. *)
Fixpoint lift_go {A} (p : Go R A) : P (option A) :=
  match p with
  | Done o => Ret o
  | RoundTrip m k =>
      Act (fun _ w =>
        let '(r, b) := round_trip (match lw_fates w with o :: _ => o | [] => Answered end) m (lw_server w) in
        (w <| lw_server := r |> <| lw_fates := tail (lw_fates w) |>, b)) (fun b => lift_go (k b))
  end.

Definition NewConcurrencyService (server : R) (fates : list Outcome) (now : Time) : W :=
  MkLoadWorld server fates defaultAccountLoadBatchCacheTTL ∅ now.
Definition SetAccountLoadBatchCacheTTL (ttl : Duration) : P () :=
  change (fun _ w => w <| accountLoadCacheTTL := ttl |>) ;!
  if ttl <=? 0 then change (fun _ w => w <| accountLoadCache := ∅ |>) else Ret tt.

Definition fetchAccountsLoadBatch (accounts : list (Z * Z)) : P (option Loads) :=
  match cache with
  | None => Ret (Some ∅)
  | Some o => lift_go (ConcurrencyCache.GetAccountsLoadBatch (cc o) accounts)
  end.

Definition getCachedAccountLoadBatch (key : string) (now : Time) : P (option Loads) :=
  let! cached := read (fun w => accountLoadCache w !! key) in
  match cached with
  | None => Ret None
  | Some b =>
      if negb (now <? expiresAt b) then
        change (fun _ w =>
          match accountLoadCache w !! key with
          | Some current =>
              if negb (now <? expiresAt current)
              then w <| accountLoadCache := delete key (accountLoadCache w) |> else w
          | None => w
          end) ;!
        Ret None
      else Ret (Some (value b))
  end.

Definition store_load (order : list string) (key : string) (b : Binding Loads) (now : Time)
    (m : gmap string (Binding Loads)) : gmap string (Binding Loads) :=
  <[key := b]>
    (if Nat.leb maxAccountLoadBatchCacheEntries (size m) then
       let m := filter (fun p => now < expiresAt p.2) m in
       evict_until_room (TurnStateCollector.iteration order m) m
     else m).
Definition storeCachedAccountLoadBatch (key : string) (loadMap : Loads) (expires : Time) : P () :=
  change (fun order w =>
    w <| accountLoadCache := store_load order key (MkBinding loadMap expires) (lw_wall w) (accountLoadCache w) |>).

(** The function a flight runs. *)
Definition flight (accounts : list (Z * Z)) (key : string) (ttl : Duration) : P (option Loads) :=
  let! now := read lw_wall in
  let! cached := getCachedAccountLoadBatch key now in
  match cached with
  | Some loads => Ret (Some loads)
  | None =>
      let! fetched := fetchAccountsLoadBatch accounts in
      match fetched with
      | None => Ret None
      | Some loads => storeCachedAccountLoadBatch key loads (now + ttl) ;! Ret (Some loads)
      end
  end.
Definition getAccountsLoadBatch (accounts : list (Z * Z)) (allowCache : bool) : P (option Loads) :=
  match accounts, cache with
  | [], _ | _, None => Ret (Some ∅)
  | _, Some _ =>
      let! ttl := read accountLoadCacheTTL in
      if negb allowCache || (ttl <=? 0) then fetchAccountsLoadBatch accounts
      else
        let key := accountLoadBatchCacheKey accounts in
        let! now := read lw_wall in
        let! cached := getCachedAccountLoadBatch key now in
        match cached with
        | Some loads => Ret (Some loads)
        | None => Do key (flight accounts key ttl)
        end
  end.
Definition GetAccountsLoadBatch (accounts : list (Z * Z)) : P (option Loads) := getAccountsLoadBatch accounts true.
Definition GetAccountsLoadBatchFresh (accounts : list (Z * Z)) : P (option Loads) := getAccountsLoadBatch accounts false.
End Loads_.
