(* ===== verification/ConcurrencyServiceProofs.v ===== *)
(** * What the concurrency service guarantees

    A heartbeat keeps its slot until the slot is released; a release waits for its
    heartbeat and always comes to an end; request ids do not repeat; cached account
    loads are fresh and few. *)

From S2P Require Import Prelude Json Encoding Redis RedisProofs ConcurrencyCache ConcurrencyCacheProofs ConcurrencyLeaseProofs TurnState TurnStateSteps WSStateStore WSStateStoreProofs ConcurrencyService.
Local Open Scope string_scope.
Local Open Scope Z_scope.
Local Open Scope list_scope.
Local Open Scope go_scope.

(** ** Request ids *)

Definition digit_value (c : Ascii.ascii) : Z :=
  let n := Z.of_nat (Ascii.nat_of_ascii c) in if n <? 58 then n - 48 else n - 87.
Fixpoint value36 (s : string) (acc : Z) : Z :=
  match s with EmptyString => acc | String c s => value36 s (acc * 36 + digit_value c) end.

Lemma digit_value_36 d : 0 <= d < 36 -> digit_value (digit36 d) = d.
Proof.
  intros Hd. assert (Hall : Forall (fun d => digit_value (digit36 d) = d) (map Z.of_nat (seq 0 36))).
  { apply Forall_forall. intros x Hx. assert (bool_decide (Forall (fun d => digit_value (digit36 d) = d) (map Z.of_nat (seq 0 36))) = true) as Hb by (by vm_compute).
    apply bool_decide_eq_true in Hb. by apply (proj1 (Forall_forall _ _) Hb). }
  apply (proj1 (Forall_forall _ _) Hall). apply list_elem_of_fmap. exists (Z.to_nat d). split; [lia|].
  apply elem_of_seq. lia.
Qed.
Lemma value_format36 n z acc :
  0 <= z < 36 ^ Z.of_nat n -> value36 (format36 n z acc) 0 = value36 acc z.
Proof.
  revert z acc. induction n as [|n IH]; intros z acc Hz; simpl.
  { change (36 ^ Z.of_nat 0) with 1 in Hz. by replace z with 0 by lia. }
  assert (Hm := Z.mod_pos_bound z 36 ltac:(lia)).
  destruct (z <? 36) eqn:E; bool_hyps; simpl.
  - rewrite digit_value_36 by lia. by rewrite Z.mod_small by lia.
  - rewrite IH; simpl.
    + rewrite digit_value_36 by lia. f_equal. pose proof (Z.div_mod z 36). lia.
    + replace (Z.of_nat (S n)) with (Z.of_nat n + 1) in Hz by lia. rewrite Z.pow_add_r in Hz by lia.
      split; [apply Z.div_pos; lia|]. apply Z.div_lt_upper_bound; lia.
Qed.
Lemma FormatUint36_inj a b : 0 <= a < 2 ^ 64 -> 0 <= b < 2 ^ 64 -> FormatUint36 a = FormatUint36 b -> a = b.
Proof.
  intros Ha Hb E. assert (H36 : 2 ^ 64 < 36 ^ Z.of_nat 13) by (by vm_compute).
  assert (H := f_equal (fun s => value36 s 0) E). unfold FormatUint36 in H. cbv beta in H.
  rewrite !value_format36 in H by lia. exact H.
Qed.
(** Draws of one process give different ids until the counter has come round, and every
    id carries the process's prefix. *)
Lemma request_ids_distinct prefix c1 c2 :
  (c1 - c2) mod 2 ^ 64 <> 0 -> (generateRequestID prefix c1).2 <> (generateRequestID prefix c2).2.
Proof.
  unfold generateRequestID; simpl. intros Hc E%str_app_inv_head. injection E as E. apply Hc.
  apply FormatUint36_inj in E; [|unfold u64_succ; apply Z.mod_pos_bound; lia..].
  unfold u64_succ in E. replace (c1 - c2) with ((c1 + 1) - (c2 + 1)) by lia.
  by rewrite Zminus_mod, E, Z.sub_diag.
Qed.
Lemma request_id_prefix prefix c : HasPrefix (generateRequestID prefix c).2 prefix = true.
Proof. unfold generateRequestID. simpl. apply HasPrefix_spec. eauto. Qed.

(** ** Heartbeats keep slots *)

Section Held.
Context {R : Type} `{RedisServer R} (o : CacheObject) (k : kind) (id : Z) (req : string).
Local Abbreviation c := (cc o).
Local Abbreviation ttl := (slotTTLSeconds (cc o)).
Local Abbreviation slot := (slot_of k id).

Definition slot_heartbeat : ReleaseFunc R :=
  match k with
  | KAccount => startAccountSlotHeartbeat o id req
  | KUser => startUserSlotHeartbeat o id req
  | KAPIKey => startAPIKeySlotHeartbeat o id req
  end.
Definition slot_refresh : Go R bool :=
  match k with
  | KAccount => RefreshAccountSlot c id req
  | KUser => RefreshUserSlot c id req
  | KAPIKey => RefreshAPIKeySlot c id req
  end.
Lemma slot_heartbeat_refresh h refresh :
  slot_heartbeat = Releasing h -> hb_refresh h = Some refresh -> refresh = slot_refresh.
Proof.
  unfold slot_heartbeat, slot_refresh, startAccountSlotHeartbeat, startUserSlotHeartbeat,
    startAPIKeySlotHeartbeat, start_heartbeat.
  destruct k, (has_refresher o); simpl; intros [= <-]; simpl; congruence.
Qed.
Lemma slot_refresh_spares T : 0 < ttl -> spare c k id req any T slot_refresh.
Proof.
  intros Ht. unfold slot_refresh, RefreshAccountSlot, RefreshUserSlot, RefreshAPIKeySlot.
  destruct k; apply spare_refresh_slot; try done; apply aside_index; tauto.
Qed.

Definition begun (b : Beat R) : Prop := match b_release b with NotCalled | AwaitsLoop => False | _ => True end.
Definition loop_spares (T : Z) (b : Beat R) : Prop :=
  match b_loop b with Refreshes p => spare c k id req any T p | _ => True end.

Lemma begun_forever h x y : beat_step h x y -> begun x.2 -> begun y.2.
Proof. by destruct 1; unfold begun; simpl; repeat case_match; simplify_eq. Qed.

Lemma beat_step_spares h x y :
  0 < ttl -> slot_heartbeat = Releasing h -> beat_step h x y -> ~ begun y.2 ->
  loop_spares (now_s (content x.1)) x.2 ->
  kept ttl k id req (content x.1) (content y.1) /\ loop_spares (now_s (content y.1)) y.2.
Proof.
  intros Ht Hh Hs Hb. assert (Hz : forall s, kept ttl k id req s s) by by split.
  destruct Hs; unfold loop_spares, begun in *; simpl in *; intros Hl; try (split; [apply Hz|]); try done.
  - rewrite (slot_heartbeat_refresh h refresh Hh) by done. by apply slot_refresh_spares.
  - rewrite H0 in Hl. destruct (Hl r ltac:(lia)) as (Hk & H1 & H2).
    assert (Hkept : kept ttl k id req (content r) (content (round_trip out m r).1)) by (by destruct out).
    split; [done|]. assert (Hn : now_s (content (round_trip out m r).1) = now_s (content r)).
    { unfold now_s. by rewrite (proj1 Hkept). }
    rewrite Hn. by destruct out.
Qed.

Definition held_spares (x : R * list client * Beat R) : Prop :=
  sys_spares c k id req x.1 /\ loop_spares (now_s (content x.1.1)) x.2.
Lemma now_s_later x y : sys_step c (spares_slot k id req) x y -> sys_spares c k id req x -> 0 < ttl ->
  now_s (content x.1) <= now_s (content y.1).
Proof.
  intros Hs Hx Ht. destruct Hs as [r cs op Ho|r cs i A B m f out Hi|r r' t cs Hc Ha]; simpl; [lia| |].
  - destruct (proj1 (Forall_lookup _ _) Hx _ _ Hi r ltac:(simpl; lia)) as (Hk & _ & _).
    unfold now_s. destruct out; simpl; rewrite ?(proj1 Hk); lia.
  - rewrite Ha. by apply Z.div_le_mono.
Qed.
Lemma held_step_spares h x y :
  0 < ttl -> slot_heartbeat = Releasing h -> held_step c (spares_slot k id req) h x y -> ~ begun y.2 ->
  held_spares x ->
  held_spares y /\ forall sc, Lease ttl k id req sc (content x.1.1) -> Lease ttl k id req sc (content y.1.1).
Proof.
  intros Ht Hh [r cs b r' b' Hs|r cs b r' cs' Hs] Hb [Hx Hl]; simpl in *.
  - destruct (beat_step_spares h _ _ Ht Hh Hs Hb Hl) as [[Hc Hk] Hl']. simpl in *.
    split; [split; simpl; [|done]|done]. unfold sys_spares in *. simpl in *.
    unfold now_s. by rewrite Hc.
  - pose proof (now_s_later _ _ Hs Hx Ht) as Hn.
    destruct (sys_step_spares c k id req Ht _ _ Hs Hx) as [Hx' Hk].
    split; [split; simpl; [done|]|done]. unfold loop_spares in *. destruct (b_loop b); try done.
    by eapply spare_later.
Qed.
Lemma held_begun_forever ok h x y : held_step c ok h x y -> begun x.2 -> begun y.2.
Proof. destruct 1 as [r cs b r' b' Hs|]; simpl; [apply (begun_forever h _ _ Hs)|done]. Qed.
Lemma held_steps_begun ok h x y : rtc (held_step c ok h) x y -> begun x.2 -> begun y.2.
Proof. induction 1 as [x|x y z Hs _ IH]; [done|]. intros Hx. by eapply IH, held_begun_forever. Qed.
Lemma held_steps_spare h x y :
  0 < ttl -> slot_heartbeat = Releasing h -> rtc (held_step c (spares_slot k id req) h) x y -> ~ begun y.2 ->
  held_spares x ->
  held_spares y /\ forall sc, Lease ttl k id req sc (content x.1.1) -> Lease ttl k id req sc (content y.1.1).
Proof.
  intros Ht Hh Hs Hb. induction Hs as [x|x y z Hs Hss IH]; intros Hx; [by split|].
  assert (Hy : ~ begun y.2).
  { intros Hy. by eapply Hb, held_steps_begun. }
  destruct (held_step_spares h x y Ht Hh Hs Hy Hx) as [Hy' Hl]. destruct (IH Hb Hy') as [Hz Hl'].
  split; [done|]. auto.
Qed.
Lemma start_spares (h : Heartbeat R) r : held_spares (r, [], start_beat h).
Proof. split; [by constructor|]. unfold loop_spares, start_beat. simpl. by destruct (hb_refresh h). Qed.
End Held.

(** Three renewals fit into the TTL. *)
Lemma heartbeat_interval o :
  has_ttl o = true -> 0 < slotTTLSeconds (cc o) -> slotTTLSeconds (cc o) * Second <= int64_max ->
  0 < 3 * concurrencySlotHeartbeatInterval o <= slotTTLSeconds (cc o) * Second.
Proof.
  intros Ht Hs Hm. unfold concurrencySlotHeartbeatInterval. rewrite Ht. unfold ConcurrencySlotTTL.
  rewrite (proj2 (Z.leb_gt _ _) Hs). unfold int_mul. rewrite wrap64_id by (unfold in_int64, Second, int64_min in *; lia).
  rewrite (proj2 (Z.ltb_lt 0 _)) by (unfold Second; lia).
  assert (H3 := Z.mul_quot_le (slotTTLSeconds (cc o) * Second) 3 ltac:(unfold Second; lia) ltac:(lia)).
  assert (0 < Z.quot (slotTTLSeconds (cc o) * Second) 3).
  { apply Z.quot_str_pos. unfold Second. lia. }
  rewrite (proj2 (Z.leb_gt _ _)) by done.
  destruct (_ <? _) eqn:E; bool_hyps; [|lia]. unfold Minute, Second in *. lia.
Qed.

(** Two intervals later the second in which the slot expires has not begun. *)
Lemma second_renewal_in_time o s s' :
  has_ttl o = true -> 3 <= slotTTLSeconds (cc o) -> slotTTLSeconds (cc o) * Second <= int64_max ->
  (clock s' - clock s) * 1000 <= 2 * concurrencySlotHeartbeatInterval o ->
  now_s s' < now_s s + slotTTLSeconds (cc o).
Proof.
  intros Ho Ht Hm He. pose proof (heartbeat_interval o Ho ltac:(lia) Hm) as Hi. unfold now_s, Second in *.
  assert (clock s' <= clock s + (slotTTLSeconds (cc o) - 1) * 1000000) by lia.
  pose proof (Z.div_le_mono _ _ 1000000 ltac:(lia) H) as Hd. rewrite Z.div_add in Hd by lia. lia.
Qed.

(** The interval of the goroutine that renews a slot. *)
Lemma slot_interval {R : Type} `{RedisServer R} o k id req h :
  has_ttl o = true -> 0 < slotTTLSeconds (cc o) -> slotTTLSeconds (cc o) * Second <= int64_max ->
  slot_heartbeat o k id req = Releasing h -> hb_refresh h <> None -> hb_interval h = concurrencySlotHeartbeatInterval o.
Proof.
  intros Ho Ht Hm Hh Hr. pose proof (heartbeat_interval o Ho Ht Hm) as Hi.
  unfold slot_heartbeat, startAccountSlotHeartbeat, startUserSlotHeartbeat, startAPIKeySlotHeartbeat, start_heartbeat in Hh.
  destruct k, (has_refresher o); simpl in Hh; injection Hh as <-; simpl in *; try done;
    destruct (_ <=? 0) eqn:E; bool_hyps; lia.
Qed.

(** C20. A slot that was taken or renewed stays held, so that the capacity counts it and a
    renewal finds it, until its release runs or its TTL has passed, whatever the other
    clients of the cache do (as long as none of them releases it or cleans up the slots of
    this process).  The TTL has not passed two intervals of the heartbeat later: when one
    renewal fails, the next one, an interval later, is in time. *)
Theorem heartbeat_keeps_slot {R : Type} `{RedisServer R} (o : CacheObject) (k : kind) (id : Z) (req : string)
    (h : Heartbeat R) (m : Script R (Z * Z)) r0 r cs b cs1 b1 r' cs' b' :
  let ttl := slotTTLSeconds (cc o) in
  let step := held_step (cc o) (spares_slot k id req) h in
  has_ttl o = true -> 3 <= ttl -> ttl * Second <= int64_max -> slot_heartbeat o k id req = Releasing h ->
  rtc step (r0, [], start_beat h) (r, cs, b) ->
  grants ttl k id req m -> (m r).2.1 = 1 -> step (r, cs, b) ((m r).1, cs1, b1) ->
  rtc step ((m r).1, cs1, b1) (r', cs', b') -> ~ begun b' ->
  now_s (content r') < now_s (content r) + ttl
  \/ hb_refresh h <> None /\ (clock (content r') - clock (content r)) * 1000 <= 2 * hb_interval h ->
  is_Some (leases ttl (slot_of k id) (content r') !! req) /\
  (refreshSlotScript (slot_of k id) ttl req r').2 = (1, now_s (content r')).
Proof.
  intros ttl step Ho Ht3 Hm Hh Hs0 Hg Hm1 Hs1 Hs2 Hb Htime. assert (Ht : 0 < ttl) by lia.
  assert (Hn : now_s (content r') < now_s (content r) + ttl).
  { destruct Htime as [|[Hr He]]; [done|]. rewrite (slot_interval o k id req h Ho Ht Hm Hh Hr) in He.
    by apply second_renewal_in_time. }
  assert (Hs : rtc step (r0, [], start_beat h) (r', cs', b'))
    by (etrans; [exact Hs0|]; eapply rtc_l; [exact Hs1|exact Hs2]).
  assert (Hall : forall x, rtc step x (r', cs', b') -> ~ begun x.2).
  { intros x Hx Hbx. exact (Hb (held_steps_begun o _ _ _ _ Hx Hbx)). }
  destruct (held_steps_spare o k id req h _ _ Ht Hh Hs0 (Hall _ ltac:(eapply rtc_l; done)) (start_spares _ _ _ _ _ _)) as [Hx _].
  destruct (held_step_spares o k id req h _ _ Ht Hh Hs1 (Hall _ Hs2) Hx) as [Hx1 _].
  destruct (held_steps_spare o k id req h _ _ Ht Hh Hs2 Hb Hx1) as [_ Hl].
  assert (Hheld : is_Some (leases ttl (slot_of k id) (content r') !! req)).
  { eapply Lease_leases; [exact Hn|]. by apply Hl, granted_lease. }
  split; [done|]. by apply refresh_slot_held.
Qed.

(** ** Releases *)

Section Release_.
Context {R : Type} `{RedisServer R}.

(** What the life of a heartbeat keeps. *)
Record beat_ok (b : Beat R) : Prop := {
  ok_order : b_loop b <> Returned -> ~ begun b;
  ok_flag : b_release b <> NotCalled -> b_stopped b = true;
}.
Lemma start_beat_ok (h : Heartbeat R) : beat_ok (start_beat h).
Proof. split; unfold start_beat, begun; simpl; [by intros _ []|by intros []]. Qed.
Lemma beat_step_ok h x y : beat_step h x y -> beat_ok x.2 -> beat_ok y.2.
Proof.
  destruct 1; intros [Ho Hf]; split; unfold begun in *; simpl in *; intros; simplify_eq; try done; auto.
  all: try (first [apply Ho|apply Hf]; congruence).
  all: intros _; match goal with Hr : b_release _ = _ |- _ => rewrite Hr in Ho end; by apply Ho.
Qed.
Lemma held_steps_ok c ok h x y : rtc (held_step c ok h) x y -> beat_ok x.2 -> beat_ok y.2.
Proof.
  induction 1 as [x|x y z Hs _ IH]; [done|]. intros Hx. apply IH.
  destruct Hs as [r cs b r' b' Hs|]; [|done]. by apply (beat_step_ok h _ _ Hs).
Qed.

(** The refresh in flight comes to an end. *)
Lemma refresh_ends h (p : Go R bool) r b :
  b_loop b = Refreshes p ->
  exists r' b', rtc (beat_step h) (r, b) (r', b') /\ b_release b' = b_release b /\
    (b_stopped b = true -> b_stopped b' = true) /\ (b_loop b' = Waits \/ b_loop b' = Returned).
Proof.
  revert r b. induction p as [answer|B m f IH]; intros r b Hp.
  - destruct (decide (answer = Some false)) as [->|Hn].
    + do 2 eexists. split; [by eapply rtc_once, beat_lost|]. simpl. auto.
    + do 2 eexists. split; [by eapply rtc_once, beat_renewed|]. simpl. auto.
  - set (b1 := b <| b_loop := Refreshes (f (round_trip Answered m r).2) |>).
    destruct (IH _ (round_trip Answered m r).1 b1 eq_refl) as (r' & b' & Hs & Hr).
    exists r', b'. split; [|exact Hr]. eapply rtc_l; [by eapply beat_trip|exact Hs].
Qed.
Lemma release_runs h (p : Go R ()) r b :
  b_release b = Runs p -> exists r' b', rtc (beat_step h) (r, b) (r', b') /\ b_release b' = Over.
Proof.
  revert r b. induction p as [o|B m f IH]; intros r b Hp.
  - do 2 eexists. split; [by eapply rtc_once, beat_over|done].
  - set (b1 := b <| b_release := Runs (f (round_trip Answered m r).2) |>).
    destruct (IH _ (round_trip Answered m r).1 b1 eq_refl) as (r' & b' & Hs & Hr).
    exists r', b'. split; [|exact Hr]. eapply rtc_l; [by eapply beat_release_trip|exact Hs].
Qed.
Lemma release_ends h r b :
  beat_ok b -> b_release b <> NotCalled ->
  exists r' b', rtc (beat_step h) (r, b) (r', b') /\ b_release b' = Over.
Proof.
  assert (Hret : forall r b, b_loop b = Returned -> b_release b <> NotCalled ->
    exists r' b', rtc (beat_step h) (r, b) (r', b') /\ b_release b' = Over).
  { clear r b. intros r b Hl Hn. destruct (b_release b) as [| |p|] eqn:E; [done| |by eapply release_runs|by eexists _, _].
    set (b1 := b <| b_release := Runs (hb_release h) |>).
    destruct (release_runs h (hb_release h) r b1 eq_refl) as (r' & b' & Hs & Ho).
    exists r', b'. split; [|done]. eapply rtc_l; [by apply beat_drained|done]. }
  assert (Hwait : forall r b, b_loop b = Waits -> b_stopped b = true -> b_release b <> NotCalled ->
    exists r' b', rtc (beat_step h) (r, b) (r', b') /\ b_release b' = Over).
  { clear r b. intros r b Hl Hs Hn. set (b1 := b <| b_loop := Returned |>). destruct (Hret r b1 eq_refl Hn) as (r' & b' & Hss & Ho).
    exists r', b'. split; [|done]. eapply rtc_l; [by apply beat_quit|done]. }
  intros [H1 H2] Hn. destruct (b_loop b) as [|p|] eqn:El; [by apply Hwait; auto| |by apply Hret].
  destruct (refresh_ends h p r b El) as (r1 & b1 & Hs1 & Hr1 & Hst1 & Hl1).
  assert (Hn1 : b_release b1 <> NotCalled) by congruence.
  assert (exists r' b', rtc (beat_step h) (r1, b1) (r', b') /\ b_release b' = Over) as (r' & b' & Hs & Ho).
  { destruct Hl1; [apply Hwait; auto|by apply Hret]. }
  exists r', b'. split; [by etrans|done].
Qed.
End Release_.

(** C15. However a heartbeat, its release and the other clients interleave: the release
    reaches the cache only after the heartbeat's goroutine has returned, so that no
    renewal of the slot follows it; a release that was called can always be finished,
    whatever refresh is in flight; and when it is over nothing of the heartbeat runs any
    more, so that the release function takes effect once. *)
Theorem release_after_heartbeat {R : Type} `{RedisServer R} c ok (h : Heartbeat R) r0 r cs b :
  rtc (held_step c ok h) (r0, [], start_beat h) (r, cs, b) ->
  (b_loop b <> Returned -> b_release b = NotCalled \/ b_release b = AwaitsLoop) /\
  (b_release b <> NotCalled -> exists r' b', rtc (beat_step h) (r, b) (r', b') /\ b_release b' = Over) /\
  (b_release b = Over -> forall y, ~ beat_step h (r, b) y).
Proof.
  intros Hs. assert (Hb : beat_ok b) by (apply (held_steps_ok _ _ _ _ _ Hs), start_beat_ok).
  split; [|split].
  - intros Hl. apply (ok_order _ Hb) in Hl. unfold begun in Hl. destruct (b_release b); auto; by destruct Hl.
  - intros Hn. by apply release_ends.
  - intros Ho y Hy. assert (Hret : b_loop b = Returned).
    { destruct (b_loop b) as [|p|] eqn:E; [..|done]; exfalso; apply (ok_order _ Hb); rewrite ?E; try done;
        unfold begun; by rewrite Ho. }
    inversion Hy; congruence.
Qed.

(** ** Cached loads *)

Section Loads_proofs.
Context {R : Type} `{RedisServer R} (cache : option CacheObject).
Local Abbreviation W := (LoadWorld R).
Local Abbreviation Loads := (gmap Z LoadInfo).
Context (Do : string -> Proc W (option Loads) -> Proc W (option Loads)).

Definition few (w : W) : Prop := (size (accountLoadCache w) <= maxAccountLoadBatchCacheEntries)%nat.

#[local] Opaque maxAccountLoadBatchCacheEntries.
Lemma evict_until_room_sub {T} keys (m : gmap string T) : evict_until_room keys m ⊆ m.
Proof.
  revert m. induction keys as [|x keys IH]; intros m; simpl; [done|].
  destruct (Nat.leb _ _); [|done]. etrans; [apply IH|apply delete_subseteq].
Qed.
Lemma evict_until_room_size {T} keys (m : gmap string T) :
  (forall x, is_Some (m !! x) -> x ∈ keys) ->
  (size (evict_until_room keys m) < maxAccountLoadBatchCacheEntries)%nat.
Proof.
  revert m. induction keys as [|x keys IH]; intros m Hk; simpl.
  - assert (m = ∅) as ->; [|rewrite map_size_empty; by apply Nat.leb_le].
    apply map_eq. intros i. rewrite lookup_empty. destruct (m !! i) eqn:E; [|done].
    exfalso. eapply not_elem_of_nil, Hk. by rewrite E.
  - destruct (Nat.leb _ _) eqn:E; [|by apply Nat.leb_gt]. apply IH. intros y Hy.
    destruct (decide (x = y)) as [->|Hn]; [by rewrite lookup_delete_eq in Hy; destruct Hy|].
    rewrite lookup_delete_ne in Hy by done. specialize (Hk y Hy). set_solver.
Qed.
Lemma store_load_few order key b now m :
  (size m <= maxAccountLoadBatchCacheEntries)%nat ->
  (size (store_load order key b now m) <= maxAccountLoadBatchCacheEntries)%nat.
Proof.
  intros Hm. unfold store_load.
  assert (Hroom : forall m' : gmap string (Binding Loads), (size m' < maxAccountLoadBatchCacheEntries)%nat ->
    (size (<[key := b]> m') <= maxAccountLoadBatchCacheEntries)%nat).
  { intros m' Hm'. destruct (m' !! key) eqn:E; [rewrite map_size_insert_Some by eauto|rewrite map_size_insert_None by done]; lia. }
  apply Hroom. destruct (Nat.leb _ _) eqn:E; [|by apply Nat.leb_gt].
  apply evict_until_room_size. intros x Hx. by apply iteration_elem.
Qed.

Lemma keeps_lift_go {A} (p : Go R A) : keeps few (lift_go p).
Proof.
  induction p as [o|B m f IH]; simpl; [done|]. split; [|exact IH].
  intros _ w Hw. destruct (round_trip _ _ _). exact Hw.
Qed.
Lemma keeps_cached key now : keeps few (getCachedAccountLoadBatch (R := R) key now).
Proof.
  unfold getCachedAccountLoadBatch. apply proc_keeps_bind; [apply proc_keeps_read|intros [b|]; [|done]].
  destruct (negb _); [|done]. apply proc_keeps_bind; [|done]. apply proc_keeps_change. intros _ w Hw.
  unfold few in *. repeat case_match; try done. simpl.
  etrans; [apply map_subseteq_size, delete_subseteq|done].
Qed.
Lemma keeps_store key loads expires : keeps few (storeCachedAccountLoadBatch (R := R) key loads expires).
Proof. apply proc_keeps_change. intros order w Hw. unfold few. simpl. by apply store_load_few. Qed.
Lemma keeps_fetch accounts : keeps few (fetchAccountsLoadBatch (R := R) cache accounts).
Proof. unfold fetchAccountsLoadBatch. destruct cache; [apply keeps_lift_go|done]. Qed.
Lemma keeps_flight accounts key ttl : keeps few (flight cache accounts key ttl).
Proof.
  unfold flight. apply proc_keeps_bind; [apply proc_keeps_read|intros now].
  apply proc_keeps_bind; [apply keeps_cached|intros [l|]; [done|]].
  apply proc_keeps_bind; [apply keeps_fetch|intros [l|]; [|done]].
  apply proc_keeps_bind; [apply keeps_store|done].
Qed.
Lemma keeps_batch accounts allowCache :
  (forall key fn, keeps few fn -> keeps few (Do key fn)) ->
  keeps few (getAccountsLoadBatch cache Do accounts allowCache).
Proof.
  intros HDo. unfold getAccountsLoadBatch. destruct accounts as [|a accounts]; [done|]. destruct cache as [o|] eqn:Ec; [|done].
  rewrite <- Ec. apply proc_keeps_bind; [apply proc_keeps_read|intros ttl]. destruct (_ || _); [apply keeps_fetch|].
  apply proc_keeps_bind; [apply proc_keeps_read|intros now].
  apply proc_keeps_bind; [apply keeps_cached|intros [l|]; [done|]]. apply HDo, keeps_flight.
Qed.

(** A live entry of the cache. *)
Definition live_entry (key : string) (w : W) : option Loads :=
  match accountLoadCache w !! key with Some b => if lw_wall w <? expiresAt b then Some (value b) else None | None => None end.
(** Nothing changed but what is not live any more. *)
Definition same_process (w w' : W) : Prop :=
  lw_server w' = lw_server w /\ lw_fates w' = lw_fates w /\ lw_wall w' = lw_wall w /\
  (forall key, live_entry key w' = live_entry key w).

Lemma wp_cached key w :
  wp (getCachedAccountLoadBatch key (lw_wall w)) (fun w' r => r = live_entry key w /\ same_process w w') w.
Proof.
  unfold getCachedAccountLoadBatch, same_process, live_entry. cbn. intros _.
  destruct (accountLoadCache w !! key) as [b|] eqn:E; [|done].
  destruct (lw_wall w <? expiresAt b) eqn:Hl; simpl; [done|]. intros _.
  rewrite E, Hl. simpl. split; [done|]. repeat split. intros key'. 
  destruct (decide (key = key')) as [->|Hn]; [by rewrite lookup_delete_eq, E, Hl|by rewrite lookup_delete_ne].
Qed.
Lemma wp_lift_go {A} (p : Go R A) (w : W) :
  wp (lift_go p) (fun w' res =>
    (lw_server w', res) = run_alone (lw_fates w) p (lw_server w) /\
    lw_wall w' = lw_wall w /\ accountLoadCache w' = accountLoadCache w) w.
Proof.
  revert w. induction p as [o|B m f IH]; intros w; simpl; [done|]. intros _.
  destruct (round_trip _ m (lw_server w)) as [r b] eqn:E. simpl.
  eapply wp_mono; [|apply IH]. simpl. intros w' res (H1 & H2 & H3). by split.
Qed.
End Loads_proofs.

(** C8. The cache of account loads never holds more than 256 answers, in any interleaving
    of the calls; and an answer it gives is an entry that has not expired at that moment,
    with no round trip to Redis, or else what Redis answers now, stored until the TTL from
    now (an error is returned and not stored).  [Do] is singleflight: it keeps what the
    functions it is given keep, and alone it runs the function. *)
Theorem load_answers_fresh {R : Type} `{RedisServer R} (o : CacheObject)
    (Do : string -> Proc (LoadWorld R) (option (gmap Z LoadInfo)) -> Proc (LoadWorld R) (option (gmap Z LoadInfo)))
    accounts (w : LoadWorld R) :
  (forall key fn, keeps few fn -> keeps few (Do key fn)) ->
  (forall key fn Q w, wp fn Q w -> wp (Do key fn) Q w) ->
  accounts <> [] -> 0 < accountLoadCacheTTL w -> few w ->
  let key := accountLoadBatchCacheKey accounts in
  (forall allowCache, keeps few (getAccountsLoadBatch (Some o) Do accounts allowCache)) /\
  (forall loads, live_entry key w = Some loads ->
     wp (GetAccountsLoadBatch (Some o) Do accounts)
       (fun w' res => res = Some loads /\ lw_server w' = lw_server w) w) /\
  (live_entry key w = None ->
     wp (GetAccountsLoadBatch (Some o) Do accounts)
       (fun w' res =>
          (lw_server w', res) = run_alone (lw_fates w) (ConcurrencyCache.GetAccountsLoadBatch (cc o) accounts) (lw_server w) /\
          live_entry key w' = res /\
          forall loads, res = Some loads ->
            accountLoadCache w' !! key = Some (MkBinding loads (lw_wall w + accountLoadCacheTTL w))) w).
Proof.
  intros Hkeep Halone Hne Ht Hf key. split; [intros allow; by apply keeps_batch|].
  destruct accounts as [|a accounts]; [done|]. clear Hne.
  assert (Hstart : forall Q,
    wp (getCachedAccountLoadBatch key (lw_wall w)) (fun w' cached =>
      wp (match cached with Some loads => Ret (Some loads)
          | None => Do key (flight (Some o) (a :: accounts) key (accountLoadCacheTTL w)) end) Q w') w ->
    wp (GetAccountsLoadBatch (Some o) Do (a :: accounts)) Q w).
  { intros Q HQ. unfold GetAccountsLoadBatch, getAccountsLoadBatch. cbn [p_bind read act wp]. intros _. cbn [fst snd].
    rewrite (proj2 (Z.leb_gt _ _) Ht). cbn [negb orb]. cbn [p_bind read act wp]. intros _. cbn [fst snd].
    apply wp_bind. exact HQ. }
  split.
  - intros loads Hl. apply Hstart. eapply wp_mono; [|apply wp_cached]. intros w' r (-> & Hs & _).
    rewrite Hl. by simpl.
  - intros Hl. apply Hstart. eapply wp_mono; [|apply wp_cached]. intros w1 r (-> & Hs1 & Hf1 & Hw1 & Hl1).
    rewrite Hl. apply Halone. unfold flight. cbn [p_bind read act wp]. intros _. cbn [fst snd].
    apply wp_bind. eapply wp_mono; [|apply wp_cached]. intros w2 r (-> & Hs2 & Hf2 & Hw2 & Hl2).
    rewrite Hl1, Hl. apply wp_bind. unfold fetchAccountsLoadBatch.
    eapply wp_mono; [|apply wp_lift_go]. intros w3 [loads|] (Hrun & Hw3 & Hc3); rewrite Hf2, Hf1, Hs2, Hs1 in Hrun.
    + cbn. intros order. unfold live_entry. cbn. unfold store_load. rewrite lookup_insert_eq. cbn.
      rewrite Hw3, Hw2, Hw1. split; [done|]. rewrite (proj2 (Z.ltb_lt _ _)) by lia. split; [done|].
      by intros ? [= <-].
    + simpl. split; [done|]. split; [|done]. unfold live_entry in *. rewrite Hw3, Hc3. by rewrite Hl2, Hl1.
Qed.

(** ** The theorems at concrete inputs *)

Definition default_object : CacheObject := redis_cache_object default_cache.
Definition slot_1 : Script Store (Z * Z) :=
  acquireScript (slot_of KAccount 1) (live_of KAccount 1) 1 (slotTTLSeconds (cc default_object)) "p-1".
Definition beat_1 : Heartbeat Store :=
  MkHeartbeat (Some (RefreshAccountSlot default_cache 1 "p-1")) (ReleaseAccountSlot default_cache 1 "p-1")
    (concurrencySlotHeartbeatInterval default_object) "account:1".

(** A client takes the only slot of account 1; ten minutes later, when two renewals were
    due, it is still held. *)
Definition taken : Store := (slot_1 start).1.
Definition later : Store := advance 600000000 taken.
Definition step_1 := held_step (cc default_object) (spares_slot KAccount 1 "p-1") beat_1.
Definition asking : client := method (R := Store) default_cache (OAcquireSlot KAccount 1 1 "p-1").
Lemma asks : rtc step_1 (start, [], start_beat beat_1) (start, [asking], start_beat beat_1).
Proof. apply rtc_once, held_other, (sys_start default_cache _ start [] (OAcquireSlot KAccount 1 1 "p-1")). exact I. Qed.
Lemma takes : exists cs, step_1 (start, [asking], start_beat beat_1) (taken, cs, start_beat beat_1).
Proof. eexists. apply held_other. eapply (sys_trip default_cache) with (i := 0%nat) (out := Answered). reflexivity. Qed.
Lemma waits cs : rtc step_1 (taken, cs, start_beat beat_1) (later, cs, start_beat beat_1).
Proof. apply rtc_once, held_other, (sys_time _ _ _ _ 600000000); [by vm_compute|reflexivity]. Qed.
Lemma heartbeat_keeps_slot_witness :
  is_Some (leases (slotTTLSeconds (cc default_object)) (slot_of KAccount 1) (content later) !! "p-1").
Proof.
  destruct takes as [cs Ht].
  refine (proj1 (heartbeat_keeps_slot (R := Store) default_object KAccount 1 "p-1" beat_1 slot_1 start start
    [asking] (start_beat beat_1) cs (start_beat beat_1) later cs (start_beat beat_1)
    _ _ _ _ asks (grants_acquire _ _ _ _ _) _ Ht (waits cs) _ _)).
  - reflexivity.
  - by vm_compute.
  - vm_compute. congruence.
  - reflexivity.
  - by vm_compute.
  - intros [].
  - right. split; [discriminate|vm_compute; discriminate].
Defined.

Lemma release_after_heartbeat_witness :
  let b := MkBeat true (Waits (R := Store)) AwaitsLoop in
  exists r' b', rtc (beat_step beat_1) (start, b) (r', b') /\ b_release b' = Over.
Proof.
  intros b. refine (proj1 (proj2 (release_after_heartbeat default_cache (fun _ => True) beat_1 start start [] b _)) _).
  - by apply rtc_once, held_own, (beat_release beat_1 start (start_beat beat_1)).
  - discriminate.
Defined.

Lemma load_answers_fresh_witness :
  let w := NewConcurrencyService start [] 0 in
  let '(w', loads) := run_proc [] (GetAccountsLoadBatch (Some default_object) (fun _ fn => fn) [(1, 2)]) w in
  (lw_server w', loads) = run_alone [] (ConcurrencyCache.GetAccountsLoadBatch default_cache [(1, 2)]) start.
Proof.
  intros w. pose proof (load_answers_fresh default_object (fun _ fn => fn) [(1, 2)] w
    (fun _ _ Hk => Hk) (fun _ _ _ _ Hw => Hw) ltac:(discriminate) ltac:(by vm_compute) ltac:(vm_compute; lia)) as (_ & _ & Hn).
  pose proof (wp_run _ _ _ [] (Hn eq_refl)) as Hr. destruct (run_proc _ _ w) as [w' loads]. exact (proj1 Hr).
Defined.
