(* ===== verification/Goroutines.v ===== *)
(** * Goroutines over shared memory

    A goroutine is a program over atomic operations ([Prog]); what it does between two
    operations is its own.  Operations may block, and may be answered in several ways
    ([Choice]); a goroutine may loop for ever and start others, by name ([Task]).  The
    second half is a program logic: every goroutine carries a ghost state, an operation
    has a verification condition [vc] on it, and an invariant relates the shared memory
    to the ghosts of all goroutines. *)

From S2P Require Import Prelude.
Local Open Scope list_scope.
Local Open Scope go_scope.

(** ** Programs *)

Inductive Prog (Op : Type -> Type) (A : Type) : Type :=
  | Ret (a : A)
  | Do {B : Type} (o : Op B) (k : B -> Prog Op A)
  | Loop {X Y : Type} (body : X -> Prog Op (X + Y)) (x : X) (k : Y -> Prog Op A).
Arguments Ret {Op A} a.
Arguments Do {Op A B} o k.
Arguments Loop {Op A X Y} body x k.

Fixpoint p_bind {Op A B} (m : Prog Op A) (k : A -> Prog Op B) : Prog Op B :=
  match m with
  | Ret a => k a
  | Do o k' => Do o (fun b => p_bind (k' b) k)
  | Loop body x k' => Loop body x (fun y => p_bind (k' y) k)
  end.
Definition do {Op A} (o : Op A) : Prog Op A := Do o Ret.
(** From [x], until the body answers [inr]. *)
Definition loop {Op X Y} (body : X -> Prog Op (X + Y)) (x : X) : Prog Op Y := Loop body x Ret.
Fixpoint p_fold {Op S X} (f : S -> X -> Prog Op S) (l : list X) (s : S) : Prog Op S :=
  match l with
  | [] => Ret s
  | x :: l => p_bind (f s x) (p_fold f l)
  end.

Declare Scope prog_scope.
Notation "'let!' x ':=' m 'in' k" := (p_bind m (fun x => k))
  (at level 10, x name, m at level 100, k at level 200) : prog_scope.
Notation "'let!' ' p ':=' m 'in' k" := (p_bind m (fun p => k))
  (at level 10, p pattern, m at level 100, k at level 200) : prog_scope.
Notation "m ';!' k" := (p_bind m (fun _ => k)) (at level 62, right associativity) : prog_scope.
Local Open Scope prog_scope.

(** Induction that takes loops as leaves. *)
Lemma prog_ind_leaves {Op A} (P : Prog Op A -> Prop) :
  (forall a, P (Ret a)) -> (forall B (o : Op B) k, (forall b, P (k b)) -> P (Do o k)) ->
  (forall X Y (body : X -> Prog Op (X + Y)) x k, P (Loop body x k)) -> forall p, P p.
Proof. intros Hret Hdo Hloop. fix IH 1. intros [a|B o k|X Y body x k]; [apply Hret|apply Hdo; intros b; apply IH|apply Hloop]. Qed.

(** ** Schedules *)

Section System.
Context {Op : Type -> Type} {Choice World Task R Move : Type}.
(** An operation with a choice of answers; [None]: it blocks, or has no such answer. *)
Context (exec : forall {B}, Choice -> Op B -> World -> option (World * B)).
(** The goroutine an operation starts. *)
Context (spawned : forall {B}, Op B -> option Task).
Context (program : Task -> Prog Op R).

Definition System : Type := World * list (Task * Prog Op R).

(** A goroutine's next operation. *)
Definition turn {A} (choice : Choice) (p : Prog Op A) (w : World) : option (World * Prog Op A * list Task) :=
  match p with
  | Ret _ => None
  | Do o k => '(w, b) ← exec _ choice o w; Some (w, k b, match spawned _ o with Some t => [t] | None => [] end)
  | Loop body x k =>
      Some (w, p_bind (body x) (fun r => match r with inl x => Loop body x k | inr y => k y end), [])
  end.

Inductive Event :=
  | Turn (i : nat) (choice : Choice)
  | Start (t : Task)
  | Outside (m : Move).

Section Steps.
(** The goroutines others start, and what changes without them. *)
Context (startable : Task -> bool) (outside : Move -> World -> World).

(** What happens next: a goroutine's turn, a new goroutine, or something outside of them. *)
Definition happen (e : Event) (s : System) : option System :=
  let '(w, ts) := s in
  match e with
  | Turn i choice =>
      '(t, p) ← ts !! i;
      '(w, p, started) ← turn choice p w;
      Some (w, <[i := (t, p)]> ts ++ map (fun t => (t, program t)) started)
  | Start t => if startable t then Some (w, ts ++ [(t, program t)]) else None
  | Outside m => Some (outside m w, ts)
  end.
Definition step (s s' : System) : Prop := exists e, happen e s = Some s'.
Fixpoint play (es : list Event) (s : System) : option System :=
  match es with
  | [] => Some s
  | e :: es => s ← happen e s; play es s
  end.

Lemma play_steps es s s' : play es s = Some s' -> rtc step s s'.
Proof.
  revert s. induction es as [|e es IH]; intros s; simpl; [by intros [= ->]; constructor|].
  destruct (happen e s) as [s1|] eqn:E; [|done]. intros H. eapply rtc_l; [by exists e|by apply IH].
Qed.
End Steps.

(** ** Ghosts *)

Section Logic.
Context {G : Type}.
(** With which ghosts a goroutine may loop; what an operation needs of the ghost, and what
    follows when it is answered. *)
Context (loops : G -> Prop) (vc : forall {B}, Op B -> G -> (B -> G -> Prop) -> Prop).
Hypothesis vc_mono : forall B (o : Op B) g (K K' : B -> G -> Prop),
  (forall b g, K b g -> K' b g) -> vc _ o g K -> vc _ o g K'.

(** The program is safe from ghost [g], and if it returns, then as [Q] says. *)
Fixpoint ok {A} (p : Prog Op A) (Q : G -> A -> Prop) (g : G) : Prop :=
  match p with
  | Ret a => Q g a
  | Do o k => vc _ o g (fun b => ok (k b) Q)
  | Loop body x k =>
      exists I : _ -> G -> Prop, I x g
        /\ forall x g, I x g -> loops g
             /\ ok (body x) (fun g r => match r with inl x => I x g | inr y => ok (k y) Q g end) g
  end.

Lemma ok_mono {A} (p : Prog Op A) (Q Q' : G -> A -> Prop) g :
  (forall g a, Q g a -> Q' g a) -> ok p Q g -> ok p Q' g.
Proof.
  revert g. induction p as [A a|A B o k IH|A X Y body IHb x k IHk]; intros g HQ; simpl; [apply HQ| |].
  - apply vc_mono. intros b g'. by apply IH.
  - intros (I & Hx & HI). exists I. split; [done|]. intros x' g' Hg. destruct (HI x' g' Hg) as [Hl Hb].
    split; [done|]. eapply IHb; [|exact Hb].
    intros g'' [x''|y]; [done|by apply IHk].
Qed.
Lemma ok_bind {A B} (m : Prog Op A) (k : A -> Prog Op B) Q g :
  ok m (fun g a => ok (k a) Q g) g -> ok (p_bind m k) Q g.
Proof.
  revert g. induction m as [A a|A C o k' IH|A X Y body _ x k' IHk]; intros g; simpl; [done| |].
  - apply vc_mono. intros b g'. apply IH.
  - intros (I & Hx & HI). exists I. split; [done|]. intros x' g' Hg. destruct (HI x' g' Hg) as [Hl Hb].
    split; [done|]. eapply ok_mono; [|exact Hb]. intros g'' [x''|y]; [done|by apply IHk].
Qed.
Lemma ok_seq {A B} (m : Prog Op A) (k : A -> Prog Op B) (R' : G -> A -> Prop) Q g :
  ok m R' g -> (forall g a, R' g a -> ok (k a) Q g) -> ok (p_bind m k) Q g.
Proof. intros Hm Hk. apply ok_bind. eapply ok_mono; [|done]. exact Hk. Qed.
Lemma ok_loop {X Y} (body : X -> Prog Op (X + Y)) (I : X -> G -> Prop) (Q : G -> Y -> Prop) x g :
  I x g -> (forall x g, I x g -> loops g) ->
  (forall x g, I x g -> ok (body x) (fun g r => match r with inl x => I x g | inr y => Q g y end) g) ->
  ok (loop body x) Q g.
Proof. intros Hx Hl HI. exists I. split; [done|]. intros x' g' Hg. split; [by eapply Hl|by apply HI]. Qed.
Lemma ok_fold {S X} (f : S -> X -> Prog Op S) (I : S -> G -> Prop) l s g :
  (forall s g x, x ∈ l -> I s g -> ok (f s x) (fun g s => I s g) g) -> I s g ->
  ok (p_fold f l s) (fun g s => I s g) g.
Proof.
  revert s g. induction l as [|x l IH]; intros s g Hf Hs; simpl; [done|].
  eapply ok_seq; [apply Hf; [left|done]|]. intros g' s' Hs'. apply IH; [|done]. intros s'' g'' y Hy. apply Hf. by right.
Qed.

(** ** Soundness *)

Context (inv : World -> list G -> Prop) (born : Task -> G) (post : Task -> G -> R -> Prop).
Context (startable : Task -> bool) (outside : Move -> World -> World).
(** What a goroutine keeps of the ghost it was born with. *)
Context {Kind : Type} (kind : G -> Kind).
Hypothesis exec_sound : forall B choice (o : Op B) w w' b gs i g K,
  inv w gs -> gs !! i = Some g -> vc _ o g K -> exec _ choice o w = Some (w', b) ->
  exists g', K b g' /\ kind g' = kind g /\ inv w' (<[i := g']> gs ++ match spawned _ o with Some t => [born t] | None => [] end).
Hypothesis start_sound : forall w gs t, startable t = true -> inv w gs -> inv w (gs ++ [born t]).
Hypothesis outside_sound : forall w m gs, inv w gs -> inv (outside m w) gs.
Hypothesis program_ok : forall t, ok (program t) (post t) (born t).

Definition safe (t : Task * Prog Op R) (g : G) : Prop := ok t.2 (post t.1) g /\ kind g = kind (born t.1).
Definition sound (s : System) : Prop := exists gs, inv s.1 gs /\ Forall2 safe s.2 gs.

Lemma start_safe t : safe (t, program t) (born t).
Proof. by split; [apply program_ok|]. Qed.
Lemma starts_safe l : Forall2 safe (map (fun t => (t, program t)) l) (map born l).
Proof. induction l; simpl; constructor; [apply start_safe|done]. Qed.

(** A goroutine's turn changes its own ghost, and adds those of the goroutines it starts. *)
Lemma turn_sound w ts i t p choice w' p' started gs g :
  inv w gs -> gs !! i = Some g -> safe (t, p) g -> turn choice p w = Some (w', p', started) ->
  exists g', safe (t, p') g' /\ inv w' (<[i := g']> gs ++ map born started)
    /\ (Forall2 safe ts gs ->
        Forall2 safe (<[i := (t, p')]> ts ++ map (fun t => (t, program t)) started) (<[i := g']> gs ++ map born started)).
Proof.
  intros Hinv Hg Hp Ht.
  assert (Hall : forall g', safe (t, p') g' -> Forall2 safe ts gs ->
            Forall2 safe (<[i := (t, p')]> ts ++ map (fun t => (t, program t)) started) (<[i := g']> gs ++ map born started)).
  { intros g' Hg' Hs. apply Forall2_app; [by apply Forall2_insert|]. by apply starts_safe. }
  enough (exists g', safe (t, p') g' /\ inv w' (<[i := g']> gs ++ map born started)) as (g' & Hs & Hi).
  { exists g'. split; [done|]. split; [done|]. by apply Hall. }
  clear Hall. destruct Hp as [Hp Hkind]. destruct p as [a|B o k|X Y body x k]; [done| |].
  - unfold turn in Ht. destruct (exec _ choice o w) as [[w1 b]|] eqn:E; [|done]. injection Ht as -> <- <-.
    destruct (exec_sound _ _ _ _ _ _ _ _ _ _ Hinv Hg Hp E) as (g' & Hk & Hg' & Hinv').
    exists g'. split; [split; [exact Hk|by rewrite Hg']|]. by destruct (spawned _ o).
  - injection Ht as <- <- <-. destruct Hp as (I & Hx & HI).
    exists g. cbn [map]. rewrite app_nil_r, (list_insert_id gs i g Hg). split; [|done]. split; [|done]. apply ok_bind.
    eapply ok_mono; [|by apply HI]. intros g' [x'|y]; [|done]. by exists I.
Qed.

Lemma step_sound s s' : step startable outside s s' -> sound s -> sound s'.
Proof.
  destruct s as [w ts]. intros (e & He) (gs & Hinv & Hs). destruct e as [i choice|t|m]; simpl in He, Hinv, Hs.
  - destruct (ts !! i) as [[t p]|] eqn:Hi; [|done]. simpl in He.
    destruct (turn choice p w) as [[[w1 p1] started]|] eqn:Ht; [|done]. injection He as <-.
    destruct (Forall2_lookup_l _ _ _ _ _ Hs Hi) as (g & Hg & Hp).
    destruct (turn_sound w ts i t p choice w1 p1 started gs g) as (g' & _ & Hinv' & Hall); [done..|].
    exists (<[i := g']> gs ++ map born started). split; [done|by apply Hall].
  - destruct (startable t) eqn:E; [|done]. injection He as <-. exists (gs ++ [born t]). split; [by apply start_sound|].
    apply Forall2_app; [done|]. constructor; [apply start_safe|constructor].
  - injection He as <-. exists gs. split; [by apply outside_sound|done].
Qed.
Lemma steps_sound w s : inv w [] -> rtc (step startable outside) (w, []) s -> sound s.
Proof.
  intros Hw Hr. refine (rtc_ind_r sound _ _ _ _ Hr).
  - exists []. split; [done|constructor].
  - intros s1 s2 _ H. by apply step_sound.
Qed.
End Logic.
End System.
