(* ===== verification/WSPool.v ===== *)
(** * The WebSocket connection pool

    [src/backend/internal/service/openai_ws_pool.go]: the upstream connections of one
    account, lent to one request at a time.  The account's pool is one record under a
    mutex; a connection has atomics and two channels that goroutines use without the
    mutex.  Every method is a program of [Goroutines.v] whose operations are the single
    accesses to that memory, so goroutines interleave as in Go: a section under the
    mutex takes the record out of the memory and puts it back, but leases, closings and
    counters of connections change while it runs. *)

From Stdlib Require Import SpecFloat.
From S2P Require Import Prelude Json Encoding Redis GoStrings ModelNames TurnState TurnStateCollector WSStateStore Goroutines.
Local Open Scope string_scope.
Local Open Scope Z_scope.
Local Open Scope list_scope.
Local Open Scope go_scope.
Local Open Scope prog_scope.

(** ** Headers *)

(** [http.Header] *)
Definition Header : Type := gmap string (list string).

(** The bytes of a header's name. *)
Definition is_token_byte (c : Ascii.ascii) : bool :=
  let n := Z.of_nat (code c) in
  ((48 <=? n) && (n <=? 57)) || ((65 <=? n) && (n <=? 90)) || ((97 <=? n) && (n <=? 122))
  || existsb (Z.eqb n) [33; 35; 36; 37; 38; 39; 42; 43; 45; 46; 94; 95; 96; 124; 126].
Definition upper_byte (c : Ascii.ascii) : Ascii.ascii :=
  let n := code c in if ((97 <=? n) && (n <=? 122))%nat then Ascii.ascii_of_nat (n - 32) else c.
Fixpoint canonical_bytes (upper : bool) (s : string) : string :=
  match s with
  | EmptyString => ""
  | String c s => String (if upper then upper_byte c else lower_byte c) (canonical_bytes (code c =? 45)%nat s)
  end.
(** [http.CanonicalHeaderKey]: names with other bytes stay as they are. *)
Definition CanonicalHeaderKey (name : string) : string :=
  if forallb is_token_byte (String.list_ascii_of_string name) then canonical_bytes true name else name.
(** [headers.Get] *)
Definition Get (headers : Header) (name : string) : string :=
  match headers !! CanonicalHeaderKey name with Some (v :: _) => v | _ => "" end.

(** [strings.EqualFold(s, t)] for an ASCII [t]: two runes outside of ASCII fold into it. *)
Definition fold_rune (r : Z) : Z :=
  if (65 <=? r) && (r <=? 90) then r + 32 else if r =? 383 then 115 else if r =? 8490 then 107 else r.
Definition EqualFold (s t : string) : bool :=
  bool_decide (map (fun x => fold_rune x.1) (runes s) = map (fun c => fold_rune (Z.of_nat (code c))) (String.list_ascii_of_string t)).

(** [strings.Split(s, ",")] *)
Definition comma : Ascii.ascii := Ascii.ascii_of_nat 44.
Fixpoint split_commas (cur s : string) : list string :=
  match s with
  | EmptyString => [cur]
  | String c s => if Ascii.eqb c comma then cur :: split_commas "" s else split_commas (cur +:+ String c "") s
  end.
(** [sort.Strings] *)
Fixpoint insert_string (x : string) (l : list string) : list string :=
  match l with
  | [] => [x]
  | y :: l' => if String.ltb y x then y :: insert_string x l' else x :: l
  end.
Definition sort_strings (l : list string) : list string := foldr insert_string [] l.

Record HandshakeCompatibilityKey := MkHandshakeCompatibilityKey {
  userAgent : string;
  originator : string;
  version : string;
  openAIBeta : string;
  betaFeatures : string;
  codexResidency : string;
  responsesTiming : string;
  subagent : string;
  memgenRequest : string;
  codexInstallationID : string;
  sessionIDHyphen : string;
  sessionIDUnderscore : string;
  conversationID : string;
  threadID : string;
  clientRequestID : string;
  codexWindowID : string;
  parentThreadID : string;
  egressHash : list Z;
  cookieHash : list Z;
  hasCookie : bool;
}.
#[export] Instance HandshakeCompatibilityKey_eq_dec : EqDecision HandshakeCompatibilityKey.
Proof. solve_decision. Defined.
Definition zero_hash : list Z := replicate 32 0.

Definition normalizeOpenAIWSStableIdentityHeader (headers : Header) (name : string) : string :=
  TrimSpace (Get headers name).
Definition normalizeOpenAIWSBetaFeatures (headers : Header) : string :=
  let values := concat (map snd (List.filter (fun e => EqualFold (TrimSpace e.1) "x-codex-beta-features")
                                   (map_to_list headers))) in
  let features := List.filter (fun f => negb (f =?s "")) (map TrimSpace (concat (map (split_commas "") values))) in
  Join (sort_strings (remove_dups features)) ",".
Definition normalizeOpenAIWSHandshakeCompatibility (headers : Header) : HandshakeCompatibilityKey :=
  let h := normalizeOpenAIWSStableIdentityHeader headers in
  MkHandshakeCompatibilityKey (h "user-agent") (h "originator") (h "version") (h "openai-beta")
    (normalizeOpenAIWSBetaFeatures headers)
    (h "x-openai-internal-codex-residency") (h "x-responsesapi-include-timing-metrics")
    (h "x-openai-subagent") (h "x-openai-memgen-request") (h "x-codex-installation-id") (h "session-id")
    (h "session_id") (h "conversation_id") (h "thread-id") (h "x-client-request-id") (h "x-codex-window-id")
    (h "x-codex-parent-thread-id") zero_hash zero_hash false.

Definition routing_hint : string := "x-codex-routing-hint".
(** The first value that is not blank. *)
Definition first_value (values : list string) : string :=
  match List.filter (fun v => negb (v =?s "")) (map TrimSpace values) with v :: _ => v | [] => "" end.
Definition normalizeOpenAIWSRoutingAffinity (headers : Header) : string :=
  let canonicalName := CanonicalHeaderKey routing_hint in
  let found := first_value (default [] (headers !! canonicalName)) in
  if negb (found =?s "") then found
  else
    let variantNames := sort_strings (List.filter (fun name =>
        negb (name =?s canonicalName) && EqualFold (TrimSpace name) routing_hint) (map fst (map_to_list headers))) in
    first_value (concat (map (fun name => default [] (headers !! name)) variantNames)).

(** ** Configuration, accounts, requests *)

Record Account := MkAccount { acc_ID : Z; acc_Type : string; acc_Concurrency : Z }.
(** [Gateway.OpenAIWS]; factors and the utilization are [float64]s. *)
Record Config := MkConfig {
  MaxConnsPerAccount : Z;
  MinIdlePerAccount : Z;
  MaxIdlePerAccount : Z;
  QueueLimitPerConn : Z;
  PoolTargetUtilization : spec_float;
  PrewarmCooldownMS : Z;
  DynamicMaxConnsByAccountConcurrencyEnabled : bool;
  ModeRouterV2Enabled : bool;
  OAuthMaxConnsFactor : spec_float;
  APIKeyMaxConnsFactor : spec_float;
}.

Record AcquireRequest := MkAcquireRequest {
  req_Account : option Account;
  WSURL : string;
  Headers : Header;
  TurnStateModel : string;
  ProxyURL : string;
  PreferredConnID : string;
  ForceNewConn : bool;
  ForcePreferredConn : bool;
  AllowPinnedOverflow : bool;
}.
Definition cloneOpenAIWSAcquireRequest (r : AcquireRequest) : AcquireRequest :=
  MkAcquireRequest (req_Account r) (TrimSpace (WSURL r)) (Headers r) (TrimSpace (TurnStateModel r))
    (TrimSpace (ProxyURL r)) (TrimSpace (PreferredConnID r)) (ForceNewConn r) (ForcePreferredConn r)
    (AllowPinnedOverflow r).
Definition normalizeOpenAIWSAcquireCompatibility (r : AcquireRequest) : HandshakeCompatibilityKey :=
  let key := normalizeOpenAIWSHandshakeCompatibility (Headers r) in
  let cookie := TrimSpace (Get (Headers r) "Cookie") in
  let hasCookie := negb (cookie =?s "") in
  MkHandshakeCompatibilityKey (userAgent key) (originator key) (version key) (openAIBeta key) (betaFeatures key)
    (codexResidency key) (responsesTiming key) (subagent key) (memgenRequest key) (codexInstallationID key)
    (sessionIDHyphen key) (sessionIDUnderscore key) (conversationID key) (threadID key) (clientRequestID key)
    (codexWindowID key) (parentThreadID key) (sha256 (TrimSpace (ProxyURL r)))
    (if hasCookie then sha256 cookie else zero_hash) hasCookie.

(** ** Arithmetic on [float64] *)

Definition float_of_int (z : Z) : spec_float := binary_normalize 53 1024 z 0 false.
(** [int(math.Ceil(f))]; what does not fit is the least [int], as on amd64. *)
Definition int_of_ceil (f : spec_float) : Z :=
  match f with
  | S754_zero _ => 0
  | S754_finite s m e =>
      let v := if s then Z.neg m else Z.pos m in
      let c := if 0 <=? e then v * 2 ^ e else - ((- v) / 2 ^ (- e)) in
      if (int64_min <=? c) && (c <=? int64_max) then c else int64_min
  | _ => int64_min
  end.
Definition float_zero : spec_float := S754_zero false.
Definition float_one : spec_float := S754_finite false 4503599627370496 (-52).
(** 0.7 *)
Definition float_0_7 : spec_float := S754_finite false 6305039478318694 (-53).

(** ** Limits *)

Section Limits.
Context (cfg : Config).

Definition maxConnsHardCap : Z := if 0 <? MaxConnsPerAccount cfg then MaxConnsPerAccount cfg else 8.
Definition AccountTypeOAuth : string := "oauth".
Definition AccountTypeAPIKey : string := "apikey".
Definition positive_or_one (f : spec_float) : spec_float := if SFltb float_zero f then f else float_one.
Definition maxConnsFactorByAccount (account : Account) : spec_float :=
  if acc_Type account =?s AccountTypeOAuth then positive_or_one (OAuthMaxConnsFactor cfg)
  else if acc_Type account =?s AccountTypeAPIKey then positive_or_one (APIKeyMaxConnsFactor cfg)
  else float_one.
Definition effectiveMaxConnsByAccount (account : Account) : Z :=
  let hardCap := maxConnsHardCap in
  if ModeRouterV2Enabled cfg && (acc_Concurrency account <=? 0) then 0
  else if negb (DynamicMaxConnsByAccountConcurrencyEnabled cfg) then hardCap
  else if acc_Concurrency account <=? 0 then hardCap
  else
    let factor := maxConnsFactorByAccount account in
    let effective := int_of_ceil (SFmul 53 1024 (float_of_int (acc_Concurrency account)) factor) in
    let effective := if effective <? 1 then 1 else effective in
    if hardCap <? effective then hardCap else effective.
Definition minIdlePerAccount : Z := if 0 <=? MinIdlePerAccount cfg then MinIdlePerAccount cfg else 0.
Definition maxIdlePerAccount : Z := if 0 <=? MaxIdlePerAccount cfg then MaxIdlePerAccount cfg else 4.
Definition queueLimitPerConn : Z := if 0 <? QueueLimitPerConn cfg then QueueLimitPerConn cfg else 256.
Definition targetUtilization : spec_float :=
  let ratio := PoolTargetUtilization cfg in
  if SFltb float_zero ratio && SFleb ratio float_one then ratio else float_0_7.
Definition prewarmCooldown : Duration :=
  if 0 <? PrewarmCooldownMS cfg then PrewarmCooldownMS cfg * 1000000 else 0.
End Limits.

Definition openAIWSConnMaxAge : Duration := 60 * Minute.
Definition openAIWSConnHealthCheckIdle : Duration := 90 * Second.
Definition openAIWSConnIdleRecycleAfter : Duration := 90 * Second.
Definition openAIWSAcquireCleanupInterval : Duration := 3 * Second.
Definition openAIWSPrewarmFailureWindow : Duration := 30 * Second.
Definition openAIWSPrewarmFailureSuppress : Z := 2.

(** ** Memory *)

(** A dialed transport: the headers it was dialed with (after [HeadersFactory]) and got,
    and what its implementation declares. *)
Record Dialed := MkDialed {
  d_headers : Header;
  d_handshakeHeaders : Header;
  d_readerLoop : bool;
  d_idlePing : bool;
  d_closeNow : bool;
}.
(** A connection: the fields that are set before it is published.  [c_ref] is its
    address; [c_model] is [None] when no turn state was in the handshake; [c_idlePing]
    says whether its transport can be pinged without a reader, [c_closeNow] whether it can
    be closed without a handshake.  [c_request] and [c_answer] are history: what was dialed
    for it, and what the dial got; no code reads them. *)
Record Conn := MkConn {
  c_ref : Z;
  c_id : string;
  c_compatibility : HandshakeCompatibilityKey;
  c_routingAffinity : string;
  c_model : option string;
  c_readerLoop : bool;
  c_idlePing : bool;
  c_closeNow : bool;
  c_request : AcquireRequest;
  c_answer : Dialed;
}.
(** Its channels and atomics.  [cl_token]: [leaseCh] holds its token; [cl_shut]: the
    function of [closeOnce] has returned; [cl_pending]: the reader loop has left a message; times are Unix nanoseconds.  [cl_dialed] is history:
    the generation of the account pool its dial was begun for; no code reads it. *)
Record Cell := MkCell {
  cl_token : bool;
  cl_closed : bool;
  cl_shut : bool;
  cl_pending : bool;
  cl_unusable : bool;
  cl_waiters : Z;
  cl_createdAtNano : Z;
  cl_lastUsedNano : Z;
  cl_dialed : Z;
}.
#[export] Instance eta_Cell : Eta Cell := fun c =>
  MkCell (cl_token c) (cl_closed c) (cl_shut c) (cl_pending c) (cl_unusable c) (cl_waiters c) (cl_createdAtNano c)
    (cl_lastUsedNano c) (cl_dialed c).
(** What an address that was never allocated reads as. *)
Definition no_cell : Cell := MkCell false true true false false 0 0 0 (-1).

(** [openAIWSAccountPool], without its channel, which is used without the mutex. *)
Record AccountPool := MkAccountPool {
  conns : gmap string Conn;
  pinnedConns : gmap string Z;
  timedResponsePins : gmap string Time;
  creating : Z;
  generation : Z;
  lastCleanupAt : Time;
  lastAcquire : option AcquireRequest;
  prewarmActive : bool;
  prewarmUntil : Time;
  prewarmFails : Z;
  prewarmFailAt : Time;
}.
#[export] Instance eta_AccountPool : Eta AccountPool := fun p =>
  MkAccountPool (conns p) (pinnedConns p) (timedResponsePins p) (creating p) (generation p) (lastCleanupAt p)
    (lastAcquire p) (prewarmActive p) (prewarmUntil p) (prewarmFails p) (prewarmFailAt p).
Definition new_pool : AccountPool := MkAccountPool ∅ ∅ ∅ 0 0 0 None false 0 0 0.

Record LeaseCell := MkLeaseCell { l_conn : Conn; l_released : bool }.

(** [w_pool] is [None] while a goroutine holds the mutex; [changedCh] is the [w_changed]-th
    channel of the pool, and those before it are closed. *)
Record World := MkWorld {
  w_pool : option AccountPool;
  w_changed : nat;
  w_seq : Z;
  w_cells : gmap Z Cell;
  w_leases : list LeaseCell;
  w_wall : Time;
}.
#[export] Instance eta_World : Eta World := fun w =>
  MkWorld (w_pool w) (w_changed w) (w_seq w) (w_cells w) (w_leases w) (w_wall w).
Definition new_world (now : Time) : World := MkWorld (Some new_pool) 0 0 ∅ [] now.
Definition cell (w : World) (r : Z) : Cell := default no_cell (w_cells w !! r).
Definition update (r : Z) (f : Cell -> Cell) (w : World) : World := w <| w_cells := alter f r (w_cells w) |>.

(** ** Operations *)

Inductive Awoken := Canceled | ConnClosed | PoolChanged | GotToken.

(** What a client does with its lease. *)
Inductive Use := UWrite | URead (timeout : bool) | UPing | UMarkBroken | URelease.
(** The goroutines: requests, users of leases, prewarming, sweeps and their probes, the
    reader loops' events, and the other methods of the pool. *)
Inductive Task :=
  | TAcquire (req : AcquireRequest)
  | TUse (l : nat) (u : Use)
  | TPrewarm (req : AcquireRequest) (total : nat) (gen : Z)
  | TPingSweep
  | TProbe (c : Conn)
  | TCleanupSweep
  | TMessage (c : Conn)
  | TPeerClosed (c : Conn)
  | TPin (connID : string)
  | TPinResponse (responseID connID : string) (ttl : Duration)
  | TUnpin (connID : string)
  | TLoad
  | TClear
  | TClose.

Inductive Op : Type -> Type :=
  | OLock : Op AccountPool                    (* ap.mu.Lock() *)
  | OUnlock (ap : AccountPool) : Op ()        (* ap.mu.Unlock(), with what the section wrote *)
  | OSignal : Op ()                           (* close(ap.changedCh), and a new one *)
  | OChannel : Op nat                         (* ap.changedCh *)
  | ONow : Op Time
  | OOrder : Op (list string)                 (* the order of a range over a map *)
  | OCtxErr : Op bool                         (* ctx.Err() != nil *)
  | OIO (r : Z) : Op bool                     (* an exchange with the upstream succeeded *)
  | ODial (req : AcquireRequest) : Op (option Dialed)
  | ONewConn (gen : Z) : Op Z                 (* p.seq.Add(1) and a new connection *)
  | OCell {B} (r : Z) (f : Cell -> B) : Op B  (* read an atomic *)
  | OClosed (r : Z) : Op bool                 (* select <-c.closedCh, default *)
  | OWaiters (r : Z) : Op Z
  | OAddWaiters (r : Z) (d : Z) : Op ()
  | OTake (r : Z) : Op bool                   (* select <-c.leaseCh, default *)
  | OPut (r : Z) : Op ()                      (* select c.leaseCh <-, default *)
  | OTouch (r : Z) (nano : Z) : Op ()
  | ODrain (r : Z) : Op bool                  (* take the message of the reader loop *)
  | OPending (r : Z) : Op ()                  (* the reader loop leaves a message *)
  | OUnusable (r : Z) : Op ()
  | OMarkClosed (r : Z) : Op bool             (* closeOnce: the first?  close(c.closedCh) *)
  | OHandshake (r : Z) : Op ()                (* c.ws.Close() *)
  | OShut (r : Z) : Op ()                     (* the function of closeOnce returns *)
  | OAwaitShut (r : Z) : Op ()                (* closeOnce: wait for the first call *)
  | OAwait (r : Z) (ch : option nat) : Op Awoken
  | OAwaitChange (ch : nat) (until : Time) : Op bool
  | ONewLease (c : Conn) : Op nat
  | OReleased (l : nat) : Op bool
  | OLeaseConn (l : nat) : Op Conn
  | OCas (l : nat) : Op (option Conn)         (* released.CompareAndSwap(false, true), l.conn *)
  | OGo (t : Task) : Op ().

(** The answers that are not determined by the memory; the upstream may be late, and may
    never answer. *)
Record Choice := MkChoice {
  ch_order : list string;
  ch_yes : bool;
  ch_dialed : option Dialed;
  ch_awoken : Awoken;
  ch_late : bool;
}.

Definition exec {B} (choice : Choice) (o : Op B) (w : World) : option (World * B) :=
  match o in Op B return option (World * B) with
  | OLock => ap ← w_pool w; Some (w <| w_pool := None |>, ap)
  | OUnlock ap => Some (w <| w_pool := Some ap |>, tt)
  | OSignal => Some (w <| w_changed := S (w_changed w) |>, tt)
  | OChannel => Some (w, w_changed w)
  | ONow => Some (w, w_wall w)
  | OOrder => Some (w, ch_order choice)
  | OCtxErr => Some (w, ch_yes choice)
  | OIO _ => if ch_late choice then None else Some (w, ch_yes choice)
  | ODial _ => if ch_late choice then None else Some (w, ch_dialed choice)
  | ONewConn gen =>
      let r := w_seq w + 1 in
      let nano := w_wall w - Unix 0 in
      Some (w <| w_seq := r |> <| w_cells := <[r := MkCell true false false false false 0 nano nano gen]> (w_cells w) |>, r)
  | OCell r f => Some (w, f (cell w r))
  | OClosed r => Some (w, cl_closed (cell w r))
  | OWaiters r => Some (w, cl_waiters (cell w r))
  | OAddWaiters r d => Some (update r (fun c => c <| cl_waiters := cl_waiters c + d |>) w, tt)
  | OTake r => Some (update r (fun c => c <| cl_token := false |>) w, cl_token (cell w r))
  | OPut r => Some (update r (fun c => c <| cl_token := true |>) w, tt)
  | OTouch r nano => Some (update r (fun c => c <| cl_lastUsedNano := nano |>) w, tt)
  | ODrain r => Some (update r (fun c => c <| cl_pending := false |>) w, cl_pending (cell w r))
  | OPending r => Some (update r (fun c => c <| cl_pending := true |>) w, tt)
  | OUnusable r => Some (update r (fun c => c <| cl_unusable := true |>) w, tt)
  | OMarkClosed r => Some (update r (fun c => c <| cl_closed := true |>) w, negb (cl_closed (cell w r)))
  | OHandshake _ => if ch_late choice then None else Some (w, tt)
  | OShut r => Some (update r (fun c => c <| cl_shut := true |>) w, tt)
  | OAwaitShut r => if cl_shut (cell w r) then Some (w, tt) else None
  | OAwait r ch =>
      match ch_awoken choice with
      | Canceled => Some (w, Canceled)
      | ConnClosed => if cl_closed (cell w r) then Some (w, ConnClosed) else None
      | PoolChanged => match ch with
                       | Some n => if (n <? w_changed w)%nat then Some (w, PoolChanged) else None
                       | None => None
                       end
      | GotToken => if cl_token (cell w r) then Some (update r (fun c => c <| cl_token := false |>) w, GotToken)
                    else None
      end
  | OAwaitChange ch until =>
      if ch_yes choice then
        if (ch <? w_changed w)%nat || (negb (IsZero until) && (until <=? w_wall w)) then Some (w, true) else None
      else Some (w, false)
  | ONewLease c => Some (w <| w_leases := w_leases w ++ [MkLeaseCell c false] |>, length (w_leases w))
  | OReleased l => lc ← w_leases w !! l; Some (w, l_released lc)
  | OLeaseConn l => lc ← w_leases w !! l; Some (w, l_conn lc)
  | OCas l =>
      lc ← w_leases w !! l;
      if l_released lc then Some (w, None)
      else Some (w <| w_leases := <[l := MkLeaseCell (l_conn lc) true]> (w_leases w) |>, Some (l_conn lc))
  | OGo _ => Some (w, tt)
  end.
Definition spawned {B} (o : Op B) : option Task := match o with OGo t => Some t | _ => None end.
(** Time passes. *)
Definition outside (elapsed : N) (w : World) : World := w <| w_wall := w_wall w + Z.of_N elapsed |>.
Definition op {B} (o : Op B) : Prog Op B := do o.

(** ** Connections *)

Section Pool.
Context {unicode : Unicode} (cfg : Config) (accountID : Z).
Local Abbreviation P := (Prog Op).

Definition codexTurnStateModelIdentity (model : string) : string :=
  let trimmed := TrimSpace model in
  if trimmed =?s "" then ""
  else
    let canonical := CanonicalizeOpenAIModelAliasSpelling trimmed in
    if canonical =?s "" then ToLower trimmed
    else if canonical =?s "gpt-6" then "gpt-6-astra"
    else if canonical =?s "gpt-5.6" then "gpt-5.6-sol"
    else canonical.
Definition matchesHandshakeTurnStateModel (c : Conn) (model : string) : bool :=
  match c_model c with
  | None => true
  | Some bound =>
      let identity := codexTurnStateModelIdentity model in
      negb (identity =?s "") && negb (bound =?s "") && (bound =?s identity)
  end.
Definition matchesHandshakeCompatibility (c : Conn) (compatibility : HandshakeCompatibilityKey) : bool :=
  bool_decide (c_compatibility c = compatibility).
(** What may change while a response is continued on its connection. *)
Definition without_negotiable (k : HandshakeCompatibilityKey) : HandshakeCompatibilityKey :=
  MkHandshakeCompatibilityKey "" "" "" "" (betaFeatures k) (codexResidency k) "" "" "" (codexInstallationID k)
    (sessionIDHyphen k) (sessionIDUnderscore k) (conversationID k) (threadID k) (clientRequestID k)
    (codexWindowID k) (parentThreadID k) (egressHash k) (cookieHash k) (hasCookie k).
Definition matchesContinuationHandshakeCompatibility (c : Conn) (compatibility : HandshakeCompatibilityKey) : bool :=
  bool_decide (without_negotiable (c_compatibility c) = without_negotiable compatibility).
Definition matchesRoutingAffinity (c : Conn) (routingAffinity : string) : bool :=
  c_routingAffinity c =?s routingAffinity.
Definition supportsIdlePingWithoutReader (c : Conn) : bool := c_readerLoop c || c_idlePing c.

Definition isClosed (c : Conn) : P bool := op (OClosed (c_ref c)).
Definition isUnusable (c : Conn) : P bool := op (OCell (c_ref c) cl_unusable).
Definition isLeased (c : Conn) : P bool := op (OCell (c_ref c) (fun cl => negb (cl_token cl))).
Definition of_nano (nano : Z) : Time := if nano <=? 0 then 0 else Unix 0 + nano.
Definition createdAt (c : Conn) : P Time := op (OCell (c_ref c) (fun cl => of_nano (cl_createdAtNano cl))).
Definition lastUsedAt (c : Conn) : P Time := op (OCell (c_ref c) (fun cl => of_nano (cl_lastUsedNano cl))).
Definition since (now t : Time) : Duration := if IsZero t then 0 else time_Sub now t.
Definition idleDuration (c : Conn) (now : Time) : P Duration := let! last := lastUsedAt c in Ret (since now last).
Definition age (c : Conn) (now : Time) : P Duration := let! created := createdAt c in Ret (since now created).
Definition touch (c : Conn) : P () := let! now := op ONow in op (OTouch (c_ref c) (now - Unix 0)).
Definition release (c : Conn) : P () := op (OPut (c_ref c)) ;! touch c.
(** The first call closes the channel, then the transport (with a close handshake, unless
    it is forced and can be), and gives the token back; the others wait until it has. *)
Definition closeWith (force : bool) (c : Conn) : P () :=
  let! won := op (OMarkClosed (c_ref c)) in
  if won then
    (if c_closeNow c && force then Ret tt else op (OHandshake (c_ref c))) ;!
    op (OPut (c_ref c)) ;! op (OShut (c_ref c))
  else op (OAwaitShut (c_ref c)).
Definition close (c : Conn) : P () := closeWith false c.
Definition abort (c : Conn) : P () := closeWith true c.
Definition readerLoopPending (c : Conn) : P bool :=
  if c_readerLoop c then op (OCell (c_ref c) cl_pending) else Ret false.
Definition leaseTokenUsable (c : Conn) : P bool :=
  let! closed := isClosed c in
  if closed then release c ;! Ret false
  else
    let! pending := readerLoopPending c in
    if pending then op (ODrain (c_ref c)) ;! op (OUnusable (c_ref c)) ;! Ret false
    else Ret true.
Definition tryAcquire (c : Conn) : P bool :=
  let! closed := isClosed c in
  if closed then Ret false
  else
    let! got := op (OTake (c_ref c)) in
    if got then leaseTokenUsable c else Ret false.
(** [acquire] (no channel) and [acquireOrPoolChanged]. *)
Definition acquire_token (c : Conn) (changed : option nat) : P Awoken :=
  let! awoken := op (OAwait (c_ref c) changed) in
  match awoken with
  | GotToken =>
      let! canceled := op OCtxErr in
      if canceled then release c ;! Ret Canceled
      else
        let! usable := leaseTokenUsable c in
        Ret (if usable then GotToken else ConnClosed)
  | _ => Ret awoken
  end.
Definition closeOpenAIWSConns (l : list Conn) : P () := p_fold (fun _ c => close c) l tt.
Definition pingWithTimeout (c : Conn) : P bool :=
  let! closed := isClosed c in if closed then Ret false else op (OIO (c_ref c)).
Definition shouldHealthCheckConn (c : Conn) : P bool :=
  if negb (supportsIdlePingWithoutReader c) || c_readerLoop c then Ret false
  else
    let! now := op ONow in
    let! idle := idleDuration c now in
    Ret (openAIWSConnHealthCheckIdle <=? idle).
Definition nextConnID (seq : Z) : string :=
  "oa_ws_" +:+ FormatInt accountID +:+ "_" +:+ FormatInt seq.
Definition openAIWSTurnStateHeader : string := "x-codex-turn-state".
Definition has_turn_state (headers : Header) : bool := negb (TrimSpace (Get headers openAIWSTurnStateHeader) =?s "").
(** [gen], and the last two fields, are history. *)
Definition dialConn (req : AcquireRequest) (gen : Z) : P (option Conn) :=
  let! dialed := op (ODial req) in
  match dialed with
  | None => Ret None
  | Some d =>
      let! r := op (ONewConn gen) in
      Ret (Some (MkConn r (nextConnID r) (normalizeOpenAIWSAcquireCompatibility req)
        (normalizeOpenAIWSRoutingAffinity (Headers req))
        (if has_turn_state (d_headers d) || has_turn_state (d_handshakeHeaders d)
         then Some (codexTurnStateModelIdentity (TurnStateModel req)) else None)
        (d_readerLoop d) (d_idlePing d) (d_closeNow d) req d))
  end.

(** ** Pins *)

Definition Lock : P AccountPool := op OLock.
Definition Unlock (ap : AccountPool) : P () := op (OUnlock ap).
Definition signalChangedLocked : P () := op OSignal.
Definition signal_if (changed : bool) : P () := if changed then signalChangedLocked else Ret tt.
Definition full (ap : AccountPool) (limit : Z) : bool := limit <=? Z.of_nat (size (conns ap)) + creating ap.
(** The connections in the order of a range over the map. *)
Definition ranged (ap : AccountPool) : P (list Conn) :=
  let! order := op OOrder in Ret (omap (fun id => conns ap !! id) (iteration order (conns ap))).

Definition isConnPinnedLocked (ap : AccountPool) (connID : string) : P bool :=
  if connID =?s "" then Ret false
  else if 0 <? default 0 (pinnedConns ap !! connID) then Ret true
  else match timedResponsePins ap !! connID with
       | Some expiresAt => let! now := op ONow in Ret (now <? expiresAt)
       | None => Ret false
       end.
Definition decrementOpenAIWSConnPinLocked (ap : AccountPool) (connID : string) : AccountPool :=
  let count := default 0 (pinnedConns ap !! connID) in
  ap <| pinnedConns := if count <=? 1 then delete connID (pinnedConns ap)
                       else <[connID := count - 1]> (pinnedConns ap) |>.
Definition removeOpenAIWSConnPinsLocked (ap : AccountPool) (connID : string) : AccountPool * bool :=
  if connID =?s "" then (ap, false)
  else
    (ap <| timedResponsePins := delete connID (timedResponsePins ap) |>
        <| pinnedConns := delete connID (pinnedConns ap) |>,
     bool_decide (is_Some (timedResponsePins ap !! connID)) || bool_decide (is_Some (pinnedConns ap !! connID))).
Definition timed_pin_live (now expiresAt : Time) : bool := negb (IsZero expiresAt) && (now <? expiresAt).
Definition cleanupExpiredTimedResponsePinsLocked (ap : AccountPool) (now : Time) : AccountPool * bool :=
  let live := filter (fun e => timed_pin_live now e.2 = true) (timedResponsePins ap) in
  (ap <| timedResponsePins := live |>, negb (bool_decide (live = timedResponsePins ap))).
(** [now] if a pin has expired, else the first expiry; zero without pins. *)
Definition nextOpenAIWSTimedResponsePinExpiryLocked (ap : AccountPool) (now : Time) : Time :=
  let expiries := map snd (map_to_list (timedResponsePins ap)) in
  if existsb (fun t => negb (timed_pin_live now t)) expiries then now
  else foldr (fun t next => if IsZero next || (t <? next) then t else next) 0 expiries.
Definition forget (ap : AccountPool) (c : Conn) : AccountPool := ap <| conns := delete (c_id c) (conns ap) |>.

(** The first connection that is idle, not pinned and satisfies [P_], and was used the
    longest ago. *)
Definition idle_unpinned (ap : AccountPool) (c : Conn) : P bool :=
  let! leased := isLeased c in
  if leased then Ret false
  else
    let! waiters := op (OWaiters (c_ref c)) in
    if 0 <? waiters then Ret false
    else let! pinned := isConnPinnedLocked ap (c_id c) in Ret (negb pinned).
Definition older (oldest : option Conn) (c : Conn) : P (option Conn) :=
  match oldest with
  | None => Ret (Some c)
  | Some o =>
      let! used := lastUsedAt c in
      let! used_o := lastUsedAt o in
      Ret (if used <? used_o then Some c else Some o)
  end.
Definition pick_oldest (ap : AccountPool) (P_ : Conn -> bool) : P (option Conn) :=
  let! l := ranged ap in
  p_fold (fun oldest c =>
    if negb (P_ c) then Ret oldest
    else let! idle := idle_unpinned ap c in if idle then older oldest c else Ret oldest) l None.
Definition pickOldestIdleConnLocked (ap : AccountPool) : P (option Conn) := pick_oldest ap (fun _ => true).
Definition suits (compatibility : HandshakeCompatibilityKey) (model : string) (c : Conn) : bool :=
  matchesHandshakeCompatibility c compatibility && matchesHandshakeTurnStateModel c model.
Definition pickOldestIdleConnWithoutHandshakeCompatibilityLocked (ap : AccountPool)
    (compatibility : HandshakeCompatibilityKey) (turnStateModel : string) : P (option Conn) :=
  pick_oldest ap (fun c => negb (suits compatibility turnStateModel c)).

(** ** Cleanup *)

(** The first pass: dead connections, and idle ones that are too old. *)
Definition recyclable (c : Conn) (now : Time) : P bool :=
  let! leased := isLeased c in
  if leased then Ret false
  else
    let! waiters := op (OWaiters (c_ref c)) in
    if negb (waiters =? 0) || supportsIdlePingWithoutReader c then Ret false
    else let! idle := idleDuration c now in Ret (openAIWSConnIdleRecycleAfter <=? idle).
Definition too_old (c : Conn) (now : Time) : P bool :=
  let! leased := isLeased c in
  if leased then Ret false
  else let! a := age c now in Ret (openAIWSConnMaxAge <? a).
Definition is_dead (c : Conn) : P bool :=
  let! closed := isClosed c in if closed then Ret true else isUnusable c.
Definition Sweep : Type := AccountPool * list Conn * bool.
(** Out of the pool and of the pins. *)
Definition drop (c : Conn) (s : Sweep) : Sweep :=
  let '(ap, evicted, changed) := s in
  let '(ap, removed) := removeOpenAIWSConnPinsLocked (forget ap c) (c_id c) in
  (ap, evicted ++ [c], removed || changed).
Definition sweep_conn (now : Time) (s : Sweep) (c : Conn) : P Sweep :=
  let '(ap, evicted, changed) := s in
  let! dead := is_dead c in
  if dead then Ret (drop c s)
  else
    let! pinned := isConnPinnedLocked ap (c_id c) in
    if pinned then Ret s
    else
      let! recycled := recyclable c now in
      if recycled then
        Ret ((forget ap c) <| pinnedConns := delete (c_id c) (pinnedConns ap) |>, evicted ++ [c], changed)
      else
        let! old := too_old c now in
        Ret (if old then drop c s else s).

(** The second pass: the least recently used of the idle ones ([sort.SliceStable], each
    time read once), as many as there are too many. *)
Fixpoint insert_used (x : Time * Conn) (l : list (Time * Conn)) : list (Time * Conn) :=
  match l with
  | [] => [x]
  | y :: l' => if y.1 <? x.1 then y :: insert_used x l' else x :: l
  end.
Definition sort_used (l : list (Time * Conn)) : list Conn := map snd (foldr insert_used [] l).
Definition idle_conns (ap : AccountPool) : P (list Conn) :=
  let! l := ranged ap in
  let! idle := p_fold (fun acc c =>
    let! idle := idle_unpinned ap c in
    if idle then let! used := lastUsedAt c in Ret (acc ++ [(used, c)]) else Ret acc) l [] in
  Ret (sort_used idle).
Definition cleanupAccountLocked (ap : AccountPool) (now : Time) (maxConns : Z) : P (AccountPool * list Conn) :=
  let '(ap, changed) := cleanupExpiredTimedResponsePinsLocked ap now in
  let! l := ranged ap in
  let! s := p_fold (sweep_conn now) l (ap, [], changed) in
  let '(ap, evicted, changed) := s in
  let maxConns := if maxConns <=? 0 then maxConnsHardCap cfg else maxConns in
  let maxIdle := if maxConns <? maxIdlePerAccount cfg then maxConns else maxIdlePerAccount cfg in
  let! s :=
    (if maxIdle <? Z.of_nat (size (conns ap)) then
       let! idle := idle_conns ap in
       Ret (fold_left (fun s c => drop c s)
              (take (Z.to_nat (Z.of_nat (size (conns ap)) - maxIdle)) idle) (ap, evicted, changed))
     else Ret (ap, evicted, changed)) in
  let '(ap, evicted, changed) := s in
  signal_if (negb (bool_decide (evicted = [])) || changed) ;! Ret (ap, evicted).

(** ** Picking *)

Definition least_busy (ap : AccountPool) (P_ : Conn -> bool) : P (option Conn) :=
  let! l := ranged ap in
  let! best := p_fold (fun (best : option (Conn * Z * Time)) c =>
    if negb (P_ c) then Ret best
    else
      let! waiters := op (OWaiters (c_ref c)) in
      let! lastUsed := lastUsedAt c in
      Ret (match best with
           | None => Some (c, waiters, lastUsed)
           | Some (b, bestWaiters, bestLastUsed) =>
               if (waiters <? bestWaiters) || ((waiters =? bestWaiters) && (lastUsed <? bestLastUsed))
               then Some (c, waiters, lastUsed) else best
           end)) l None in
  Ret (option_map (fun b => b.1.1) best).
Definition pickLeastBusyConnLocked (ap : AccountPool) (preferredConnID : string)
    (compatibility : HandshakeCompatibilityKey) (turnStateModel : string) : P (option Conn) :=
  let preferredConnID := TrimSpace preferredConnID in
  match (if preferredConnID =?s "" then None else conns ap !! preferredConnID) with
  | Some c => if suits compatibility turnStateModel c then Ret (Some c)
              else least_busy ap (suits compatibility turnStateModel)
  | None => least_busy ap (suits compatibility turnStateModel)
  end.
Definition pickLeastBusyConnWithRoutingAffinityLocked (ap : AccountPool)
    (compatibility : HandshakeCompatibilityKey) (routingAffinity turnStateModel : string) : P (option Conn) :=
  least_busy ap (fun c => suits compatibility turnStateModel c && matchesRoutingAffinity c routingAffinity).
Definition hasPinnedIdleConnLocked (ap : AccountPool) : P bool :=
  let! l := ranged ap in
  p_fold (fun found c =>
    if found : bool then Ret true
    else
      let! leased := isLeased c in
      if leased then Ret false
      else
        let! waiters := op (OWaiters (c_ref c)) in
        if 0 <? waiters then Ret false else isConnPinnedLocked ap (c_id c)) l false.
Definition dropDeadConnLocked (ap : AccountPool) (c : Conn) (evicted : list Conn) :
    P (AccountPool * list Conn * bool) :=
  let! dead := is_dead c in
  if dead && bool_decide (is_Some (conns ap !! c_id c)) then
    signalChangedLocked ;!
    Ret ((forget ap c) <| pinnedConns := delete (c_id c) (pinnedConns ap) |>, evicted ++ [c], true)
  else Ret (ap, evicted, false).

(** ** Removal *)

Definition evictConn (connID : string) : P () :=
  if TrimSpace connID =?s "" then Ret tt
  else
    let! ap := Lock in
    let conn := conns ap !! connID in
    let '(ap, removed) := removeOpenAIWSConnPinsLocked ap connID in
    let ap := ap <| conns := delete connID (conns ap) |> in
    signal_if (removed || bool_decide (is_Some conn)) ;!
    Unlock ap ;!
    match conn with Some c => close c | None => Ret tt end.
Definition notifyAccountPoolChanged : P () :=
  let! ap := Lock in signalChangedLocked ;! Unlock ap.
Definition ClearAccount : P () :=
  let! ap := Lock in
  let! l := ranged ap in
  signalChangedLocked ;!
  Unlock (ap <| generation := generation ap + 1 |> <| conns := ∅ |> <| timedResponsePins := ∅ |>
             <| pinnedConns := ∅ |> <| lastAcquire := None |> <| prewarmUntil := 0 |> <| prewarmFails := 0 |>
             <| prewarmFailAt := 0 |>) ;!
  closeOpenAIWSConns l.
(** What [Close] does with the pool of the account, connections closed under the mutex. *)
Definition Close : P () :=
  let! ap := Lock in
  let! l := ranged ap in
  p_fold (fun _ c => let! leased := isLeased c in if leased then Ret tt else close c) l tt ;!
  Unlock (ap <| timedResponsePins := ∅ |> <| pinnedConns := ∅ |>).

(** ** Pinning *)

Definition PinConn (connID : string) : P bool :=
  let connID := TrimSpace connID in
  if connID =?s "" then Ret false
  else
    let! ap := Lock in
    match conns ap !! connID with
    | None => Unlock ap ;! Ret false
    | Some _ =>
        Unlock (ap <| pinnedConns := <[connID := default 0 (pinnedConns ap !! connID) + 1]> (pinnedConns ap) |>) ;!
        Ret true
    end.
Definition PinResponseConn (responseID connID : string) (ttl : Duration) : P bool :=
  let responseID := TrimSpace responseID in
  let connID := TrimSpace connID in
  if (responseID =?s "") || (connID =?s "") then Ret false
  else
    let! now := op ONow in
    let expiresAt := now + normalizeOpenAIWSTTL ttl in
    let! ap := Lock in
    match conns ap !! connID with
    | None => Unlock ap ;! Ret false
    | Some c =>
        let! closed := isClosed c in
        if closed then Unlock ap ;! Ret false
        else
          let existing := default 0 (timedResponsePins ap !! connID) in
          let expiresAt := if expiresAt <? existing then existing else expiresAt in
          Unlock (ap <| timedResponsePins := <[connID := expiresAt]> (timedResponsePins ap) |>) ;! Ret true
    end.
Definition UnpinConn (connID : string) : P () :=
  let connID := TrimSpace connID in
  if connID =?s "" then Ret tt
  else
    let! ap := Lock in
    if bool_decide (pinnedConns ap = ∅) then Unlock ap
    else
      signalChangedLocked ;!
      Unlock (decrementOpenAIWSConnPinLocked ap connID).

(** ** Load and prewarming *)

Definition accountPoolLoadLocked (ap : AccountPool) : P (Z * Z) :=
  let! l := ranged ap in
  p_fold (fun s c =>
    let '(inflight, waiters) := s in
    let! leased := isLeased c in
    let! n := op (OWaiters (c_ref c)) in
    Ret ((if leased : bool then inflight + 1 else inflight), waiters + n)) l (0, 0).
Definition AccountPoolLoad : P (Z * Z * Z) :=
  let! ap := Lock in
  let! load := accountPoolLoadLocked ap in
  Unlock ap ;! Ret (load, Z.of_nat (size (conns ap))).
(** [demand / utilization], rounded up. *)
Definition demanded (demand : Z) : Z :=
  int_of_ceil (SFdiv 53 1024 (float_of_int demand) (targetUtilization cfg)).
Definition targetConnCountLocked (ap : AccountPool) (maxConns : Z) : P Z :=
  if maxConns <=? 0 then Ret 0
  else
    let minIdle := if maxConns <? minIdlePerAccount cfg then maxConns else minIdlePerAccount cfg in
    let! load := accountPoolLoadLocked ap in
    let '(inflight, waiters) := load in
    let demand := inflight + waiters in
    if demand <=? 0 then Ret minIdle
    else
      let n := Z.of_nat (size (conns ap)) in
      let target := if 1 <? demand then demanded demand else 1 in
      let target := if (0 <? waiters) && (target <? n + 1) then n + 1 else target in
      let target := if target <? minIdle then minIdle else target in
      Ret (if maxConns <? target then maxConns else target).
(** The pool (whose failures may be forgotten), and whether prewarming is suppressed. *)
Definition shouldSuppressPrewarmLocked (ap : AccountPool) (now : Time) : AccountPool * bool :=
  if prewarmFails ap <=? 0 then (ap, false)
  else if IsZero (prewarmFailAt ap) then (ap <| prewarmFails := 0 |>, false)
  else if openAIWSPrewarmFailureWindow <? time_Sub now (prewarmFailAt ap) then
    (ap <| prewarmFails := 0 |> <| prewarmFailAt := 0 |>, false)
  else (ap, openAIWSPrewarmFailureSuppress <=? prewarmFails ap).
Definition ensureTargetIdleAsync : P () :=
  let! ap := Lock in
  match lastAcquire ap with
  | None => Unlock ap
  | Some last =>
      if prewarmActive ap then Unlock ap
      else
        let! now := op ONow in
        if negb (IsZero (prewarmUntil ap)) && (now <? prewarmUntil ap) then Unlock ap
        else
          let '(ap, suppressed) := shouldSuppressPrewarmLocked ap now in
          if suppressed then Unlock ap
          else
            let effectiveMaxConns := match req_Account last with
                                     | Some account => effectiveMaxConnsByAccount cfg account
                                     | None => maxConnsHardCap cfg
                                     end in
            let! target := targetConnCountLocked ap effectiveMaxConns in
            let need := target - (Z.of_nat (size (conns ap)) + creating ap) in
            if need <=? 0 then Unlock ap
            else
              let ap := ap <| prewarmActive := true |>
                           <| prewarmUntil := if 0 <? prewarmCooldown cfg then now + prewarmCooldown cfg
                                              else prewarmUntil ap |>
                           <| creating := creating ap + need |> in
              op (OGo (TPrewarm (cloneOpenAIWSAcquireRequest last) (Z.to_nat need) (generation ap))) ;!
              Unlock ap
  end.
Definition sameOpenAIWSPrewarmTarget (a b : AcquireRequest) : bool :=
  (TrimSpace (WSURL a) =?s TrimSpace (WSURL b))
  && (TrimSpace (ProxyURL a) =?s TrimSpace (ProxyURL b))
  && (codexTurnStateModelIdentity (TurnStateModel a) =?s codexTurnStateModelIdentity (TurnStateModel b))
  && bool_decide (normalizeOpenAIWSAcquireCompatibility a = normalizeOpenAIWSAcquireCompatibility b).
Definition publish (ap : AccountPool) (c : Conn) : AccountPool :=
  ap <| conns := <[c_id c := c]> (conns ap) |> <| prewarmFails := 0 |> <| prewarmFailAt := 0 |>.
Definition failed (ap : AccountPool) (now : Time) : AccountPool :=
  ap <| prewarmFails := prewarmFails ap + 1 |> <| prewarmFailAt := now |>.
Definition effective_of (req : AcquireRequest) : Z :=
  match req_Account req with Some account => effectiveMaxConnsByAccount cfg account | None => maxConnsHardCap cfg end.
(** One dial of [prewarmConns]; whether the target turned out to be stale. *)
Definition prewarm_one (req : AcquireRequest) (gen : Z) (staleTarget : bool) : P bool :=
  let! dialed := dialConn req gen in
  let! ap := Lock in
  let ap := if 0 <? creating ap then ap <| creating := creating ap - 1 |> else ap in
  match dialed with
  | None =>
      let! now := op ONow in
      signalChangedLocked ;! Unlock (failed ap now) ;! Ret staleTarget
  | Some c =>
      match lastAcquire ap with
      | None => Unlock ap ;! close c ;! Ret staleTarget
      | Some last =>
          if negb (generation ap =? gen) then Unlock ap ;! close c ;! Ret staleTarget
          else if negb (sameOpenAIWSPrewarmTarget req last) then
            signalChangedLocked ;! Unlock ap ;! close c ;! Ret true
          else if effective_of req <=? Z.of_nat (size (conns ap)) then
            signalChangedLocked ;! Unlock ap ;! close c ;! Ret staleTarget
          else signalChangedLocked ;! Unlock (publish ap c) ;! Ret staleTarget
      end
  end.
Definition prewarmConns (req : AcquireRequest) (total : nat) (gen : Z) : P () :=
  let! staleTarget := p_fold (fun stale _ => prewarm_one req gen stale) (replicate total tt) false in
  let! ap := Lock in
  signalChangedLocked ;!
  Unlock (ap <| prewarmActive := false |>) ;!
  if staleTarget : bool then ensureTargetIdleAsync else Ret tt.

(** ** Sweeps and events *)

Definition idle_waiterless (c : Conn) : P bool :=
  let! leased := isLeased c in
  if leased then Ret false else let! waiters := op (OWaiters (c_ref c)) in Ret (waiters <=? 0).
Definition snapshotIdleConnsForPing : P (list Conn) :=
  let! ap := Lock in
  let! l := ranged ap in
  let! idle := p_fold (fun acc c => let! idle := idle_waiterless c in
                                    Ret (if idle : bool then acc ++ [c] else acc)) l [] in
  Unlock ap ;! Ret idle.
Definition runBackgroundPingSweep : P () :=
  let! candidates := snapshotIdleConnsForPing in
  p_fold (fun _ c =>
    let! idle := idle_waiterless c in
    if (idle : bool) && supportsIdlePingWithoutReader c then op (OGo (TProbe c)) else Ret tt) candidates tt.
(** The goroutine of one candidate. *)
Definition probe (c : Conn) : P () :=
  let! alive := pingWithTimeout c in
  if alive : bool then Ret tt
  else
    let! got := tryAcquire c in
    if got : bool then evictConn (c_id c)
    else let! dead := is_dead c in if dead : bool then evictConn (c_id c) else Ret tt.
Definition runBackgroundCleanupSweep : P () :=
  let! now := op ONow in
  let! ap := Lock in
  let maxConns := match lastAcquire ap with
                  | Some last => effective_of last
                  | None => maxConnsHardCap cfg
                  end in
  let! cleaned := cleanupAccountLocked ap now maxConns in
  let '(ap, evicted) := cleaned in
  Unlock (ap <| lastCleanupAt := now |>) ;! closeOpenAIWSConns evicted.
(** The rounds of [runReaderLoop]: a message, and the end of the stream. *)
Definition reader_message (c : Conn) : P () := if c_readerLoop c then op (OPending (c_ref c)) else Ret tt.
Definition reader_error (c : Conn) : P () :=
  let! closed := isClosed c in
  close c ;!
  if closed : bool then Ret tt else evictConn (c_id c).

(** ** Acquiring *)

Inductive AcquireError :=
  | ErrInvalidRequest | ErrURLEmpty | ErrConnClosed | ErrConnQueueFull | ErrPreferredConnUnavailable
  | ErrCanceled | ErrDial | ErrPing.
(** What a goroutine returns: only requests return leases. *)
Inductive Result := Granted (l : nat) (c : Conn) | Failed (e : AcquireError) | Done.

Definition recordLastSuccessfulAcquire (gen : Z) (req : AcquireRequest) : P () :=
  let! ap := Lock in
  Unlock (if generation ap =? gen then ap <| lastAcquire := Some (cloneOpenAIWSAcquireRequest req) |> else ap).
(** A goroutine that holds the connection's token gets a lease. *)
Definition grant (req : AcquireRequest) (gen : Z) (c : Conn) : P Result :=
  let! l := op (ONewLease c) in
  recordLastSuccessfulAcquire gen req ;! ensureTargetIdleAsync ;! Ret (Granted l c).

(** A section under the mutex ends by releasing it and closing what it evicted. *)
Definition leave {A} (ap : AccountPool) (evicted : list Conn) (k : P A) : P A :=
  Unlock ap ;! closeOpenAIWSConns evicted ;! k.

Section Attempt.
(** [rewoken] is [queueWait.rewoken], which is returned with the result; [again] is the
    one retry, or the error. *)
Context (req : AcquireRequest) (rewoken : bool) (again : AcquireError -> P (Result * bool)).
Let preferredConnID := TrimSpace (PreferredConnID req).
Let compatibility := normalizeOpenAIWSAcquireCompatibility req.
Let routingAffinity := normalizeOpenAIWSRoutingAffinity (Headers req).
Let model := TurnStateModel req.

Definition answer (r : Result) : P (Result * bool) := Ret (r, rewoken).
Definition fail (e : AcquireError) : P (Result * bool) := answer (Failed e).
Definition give (gen : Z) (c : Conn) : P (Result * bool) := let! r := grant req gen c in answer r.

(** The token of [c] was taken under the mutex. *)
Definition lend (ap : AccountPool) (evicted : list Conn) (c : Conn) : P (Result * bool) :=
  leave ap evicted (
    let! check := shouldHealthCheckConn c in
    let! healthy := (if check : bool then pingWithTimeout c else Ret true) in
    if healthy : bool then give (generation ap) c
    else close c ;! evictConn (c_id c) ;! again ErrPing).
(** The token of [c] was waited for. *)
Definition take_over (gen : Z) (c : Conn) : P (Result * bool) :=
  let! check := shouldHealthCheckConn c in
  let! healthy := (if check : bool then pingWithTimeout c else Ret true) in
  if healthy : bool then give gen c
  else release c ;! close c ;! evictConn (c_id c) ;! again ErrPing.

(** A forced connection: it, or nothing. *)
Definition forced (ap : AccountPool) (evicted : list Conn) : P (Result * bool) :=
  match conns ap !! preferredConnID with
  | None => leave ap evicted (fail ErrPreferredConnUnavailable)
  | Some c =>
      if negb (matchesContinuationHandshakeCompatibility c compatibility && matchesHandshakeTurnStateModel c model) then
        leave ap evicted (fail ErrPreferredConnUnavailable)
      else
        let! got := tryAcquire c in
        if got : bool then lend ap evicted c
        else
          let! '(ap, evicted, dead) := dropDeadConnLocked ap c evicted in
          if dead then leave ap evicted (fail ErrPreferredConnUnavailable)
          else
            let! waiters := op (OWaiters (c_ref c)) in
            if queueLimitPerConn cfg <=? waiters then leave ap evicted (fail ErrConnQueueFull)
            else
              op (OAddWaiters (c_ref c) 1) ;!
              leave ap evicted (
                let! awoken := acquire_token c None in
                let! result := match awoken with
                               | GotToken => take_over (generation ap) c
                               | ConnClosed => evictConn (c_id c) ;! again ErrConnClosed
                               | _ => fail ErrCanceled
                               end in
                op (OAddWaiters (c_ref c) (-1)) ;! Ret result)
  end.

(** Candidates under the mutex: the pool, the evicted, and the one whose token was taken. *)
Definition Pick : Type := AccountPool * list Conn * option Conn.
Definition try_conn (c : Conn) (s : Pick) : P Pick :=
  let '(ap, evicted, _) := s in
  let! got := tryAcquire c in
  if got : bool then Ret (ap, evicted, Some c)
  else let! '(ap, evicted, _) := dropDeadConnLocked ap c evicted in Ret (ap, evicted, None).
Definition pick_preferred (ap : AccountPool) (evicted : list Conn) : P Pick :=
  match (if preferredConnID =?s "" then None else conns ap !! preferredConnID) with
  | None => Ret (ap, evicted, None)
  | Some c =>
      if suits compatibility model c then try_conn c (ap, evicted, None)
      else let! '(ap, evicted, _) := dropDeadConnLocked ap c evicted in Ret (ap, evicted, None)
  end.
(** The other connections, if no new one will be dialed for the affinity. *)
Definition pick_any (limit : Z) (best : option Conn) (s : Pick) : P Pick :=
  let '(ap, _, _) := s in
  if negb (routingAffinity =?s "") && negb (full ap limit) then Ret s
  else
    let! l := ranged ap in
    p_fold (fun s c =>
      if s.2 is Some _ then Ret s
      else if bool_decide (c_ref <$> best = Some (c_ref c)) || negb (suits compatibility model c) then Ret s
      else try_conn c s) l s.
Definition reuse (limit : Z) (ap : AccountPool) (evicted : list Conn) : P Pick :=
  let! '(ap, evicted, got) := pick_preferred ap evicted in
  if got is Some _ then Ret (ap, evicted, got)
  else
    let! best := pickLeastBusyConnWithRoutingAffinityLocked ap compatibility routingAffinity model in
    let! s := match best with Some c => try_conn c (ap, evicted, None) | None => Ret (ap, evicted, None) end in
    if s.2 is Some _ then Ret s else pick_any limit best s.

(** *** Room for a new connection *)

Inductive Room :=
  | Create (ap : AccountPool) (evicted : list Conn) (createLimit : Z)
  | AtCapacity (ap : AccountPool) (evicted : list Conn)
  | NoRoom (ap : AccountPool) (evicted : list Conn) (e : AcquireError)
  | WaitChange (ap : AccountPool) (evicted : list Conn) (now : Time).

(** A request that may reuse: replace an idle connection it cannot use, or wait. *)
Definition room_for_reuse (limit : Z) (now : Time) (ap : AccountPool) (evicted : list Conn) : P Room :=
  if negb (full ap limit) then Ret (Create ap evicted limit)
  else
    let! affine := pickLeastBusyConnWithRoutingAffinityLocked ap compatibility routingAffinity model in
    let! idle := pickOldestIdleConnWithoutHandshakeCompatibilityLocked ap compatibility model in
    match idle, affine with
    | Some c, _ => Ret (Create (forget ap c) (evicted ++ [c]) limit)
    | None, Some _ => Ret (Create ap evicted limit)
    | None, None =>
        let! compatible := pickLeastBusyConnLocked ap "" compatibility model in
        if compatible is Some _ then Ret (AtCapacity ap evicted)
        else if bool_decide (conns ap = ∅) && (creating ap =? 0) then Ret (NoRoom ap evicted ErrConnClosed)
        else Ret (WaitChange ap evicted now)
    end.
(** A request for a new connection: evict idle ones; pinned ones may be exceeded. *)
Fixpoint make_room (fuel : nat) (limit : Z) (ap : AccountPool) (evicted : list Conn) : P (AccountPool * list Conn) :=
  match fuel with
  | O => Ret (ap, evicted)
  | S fuel =>
      if negb (full ap limit) then Ret (ap, evicted)
      else
        let! idle := pickOldestIdleConnLocked ap in
        match idle with
        | None => Ret (ap, evicted)
        | Some c =>
            make_room fuel limit (removeOpenAIWSConnPinsLocked (forget ap c) (c_id c)).1 (evicted ++ [c])
        end
  end.
Definition room_for_new (limit : Z) (ap : AccountPool) (evicted : list Conn) : P Room :=
  let! '(ap, evicted) := make_room (S (size (conns ap))) limit ap evicted in
  let hardCap := maxConnsHardCap cfg in
  if AllowPinnedOverflow req
     && (DynamicMaxConnsByAccountConcurrencyEnabled cfg || ModeRouterV2Enabled cfg)
     && (limit <? hardCap) && full ap limit && negb (full ap hardCap) then
    let! pinned := hasPinnedIdleConnLocked ap in
    Ret (Create ap evicted (if pinned : bool then hardCap else limit))
  else Ret (Create ap evicted limit).

(** *** Dialing and queueing *)

Definition dial_and_publish (ap : AccountPool) (evicted : list Conn) : P (Result * bool) :=
  let gen := generation ap in
  leave (ap <| creating := creating ap + 1 |>) evicted (
    let! dialed := dialConn req gen in
    let! ap := Lock in
    let ap := ap <| creating := creating ap - 1 |> in
    if negb (generation ap =? gen) then
      signalChangedLocked ;! Unlock ap ;!
      match dialed with Some c => close c | None => Ret tt end ;!
      again ErrConnClosed
    else
      match dialed with
      | None =>
          let! now := op ONow in
          signalChangedLocked ;! Unlock (failed ap now) ;! fail ErrDial
      | Some c =>
          let! got := tryAcquire c in
          signalChangedLocked ;!
          if got : bool then Unlock (publish ap c) ;! give gen c
          else Unlock ap ;! close c ;! fail ErrConnClosed
      end).

(** [inl]: [goto retryAcquire]. *)
Definition Again : Type := bool + (Result * bool).
Definition return_ (p : P (Result * bool)) : P Again := let! r := p in Ret (inr r).
Definition queue (ap : AccountPool) (evicted : list Conn) : P Again :=
  let! target := pickLeastBusyConnLocked ap preferredConnID compatibility model in
  match target with
  | None => leave ap evicted (return_ (fail ErrConnClosed))
  | Some c =>
      let! waiters := op (OWaiters (c_ref c)) in
      if queueLimitPerConn cfg <=? waiters then leave ap evicted (return_ (fail ErrConnQueueFull))
      else
        op (OAddWaiters (c_ref c) 1) ;!
        let! changedCh := op OChannel in
        leave ap evicted (
          let! awoken := acquire_token c (Some changedCh) in
          op (OAddWaiters (c_ref c) (-1)) ;!
          match awoken with
          | GotToken => return_ (take_over (generation ap) c)
          | PoolChanged => let! canceled := op OCtxErr in
                           if canceled : bool then return_ (fail ErrCanceled) else Ret (inl true)
          | ConnClosed => evictConn (c_id c) ;! return_ (again ErrConnClosed)
          | Canceled => return_ (fail ErrCanceled)
          end)
  end.
Definition wait_change (ap : AccountPool) (evicted : list Conn) (now : Time) : P Again :=
  let nextPinExpiry := nextOpenAIWSTimedResponsePinExpiryLocked ap now in
  let! changedCh := op OChannel in
  leave ap evicted (
    let! woken := op (OAwaitChange changedCh nextPinExpiry) in
    if woken : bool then Ret (inl rewoken) else return_ (fail ErrCanceled)).

(** *** From [retryAcquire:] on *)

Definition tidy (limit : Z) (now : Time) (ap : AccountPool) : P (AccountPool * list Conn) :=
  let '(ap, expired) := cleanupExpiredTimedResponsePinsLocked ap now in
  signal_if expired ;!
  if IsZero (lastCleanupAt ap) || (openAIWSAcquireCleanupInterval <=? time_Sub now (lastCleanupAt ap)) then
    let! '(ap, evicted) := cleanupAccountLocked ap now limit in Ret (ap <| lastCleanupAt := now |>, evicted)
  else Ret (ap, []).
Definition settle (room : Room) : P Again :=
  match room with
  | NoRoom ap evicted e => leave ap evicted (return_ (fail e))
  | WaitChange ap evicted now => wait_change ap evicted now
  | AtCapacity ap evicted => queue ap evicted
  | Create ap evicted createLimit =>
      if negb (full ap createLimit) then return_ (dial_and_publish ap evicted)
      else if ForceNewConn req then leave ap evicted (return_ (fail ErrConnQueueFull))
      else queue ap evicted
  end.
Definition attempt : P Again :=
  let limit := effective_of req in
  if limit <=? 0 then return_ (fail ErrConnQueueFull)
  else
    let! ap := Lock in
    let! now := op ONow in
    let! '(ap, evicted) := tidy limit now ap in
    if ForceNewConn req then
      let! room := room_for_new limit ap evicted in settle room
    else if ForcePreferredConn req then
      return_ (if preferredConnID =?s "" then leave ap evicted (fail ErrPreferredConnUnavailable)
               else forced ap evicted)
    else
      let! '(ap, evicted, got) := reuse limit ap evicted in
      match got with
      | Some c => return_ (lend ap evicted c)
      | None => let! room := room_for_reuse limit now ap evicted in settle room
      end.
End Attempt.

(** [retries] more calls of [acquire] from inside. *)
Fixpoint acquire (retries : nat) (req : AcquireRequest) (rewoken : bool) : P (Result * bool) :=
  match req_Account req with
  | None => Ret (Failed ErrInvalidRequest, rewoken)
  | Some account =>
      if acc_ID account <=? 0 then Ret (Failed ErrInvalidRequest, rewoken)
      else if TrimSpace (WSURL req) =?s "" then Ret (Failed ErrURLEmpty, rewoken)
      else
        let again rewoken e := match retries with
                               | O => Ret (Failed e, rewoken)
                               | S retries => acquire retries req rewoken
                               end in
        loop (fun rewoken => attempt req rewoken (again rewoken)) rewoken
  end.
(** [openAIWSConnLease.Release] *)
Definition Release (l : nat) : P () :=
  let! won := op (OCas l) in
  match won with
  | Some c => release c ;! notifyAccountPoolChanged
  | None => Ret tt
  end.
Definition Acquire (req : AcquireRequest) : P Result :=
  let! '(result, rewoken) := acquire 1 (cloneOpenAIWSAcquireRequest req) false in
  match result with
  | Granted l c =>
      if rewoken : bool then
        let! canceled := op OCtxErr in
        if canceled : bool then
          Release l ;! Ret (Failed ErrCanceled)
        else Ret result
      else Ret result
  | _ => Ret result
  end.

(** ** Leases *)

Definition activeConn (l : nat) : P (option Conn) :=
  let! released := op (OReleased l) in
  if released : bool then Ret None else let! c := op (OLeaseConn l) in Ret (Some c).
Definition MarkBroken (l : nat) : P () :=
  let! released := op (OReleased l) in
  if released : bool then Ret tt else let! c := op (OLeaseConn l) in evictConn (c_id c).
Definition writeJSON (c : Conn) : P () :=
  let! closed := isClosed c in
  if closed : bool then Ret tt
  else let! sent := op (OIO (c_ref c)) in if sent : bool then touch c else Ret tt.
(** A read of a connection with a reader loop takes its message, or runs into its timeout
    and aborts the connection. *)
Definition readMessage (c : Conn) (timeout : bool) : P () :=
  if c_readerLoop c then
    if timeout then abort c
    else let! got := op (ODrain (c_ref c)) in if got : bool then touch c else Ret tt
  else
    let! closed := isClosed c in
    if closed : bool then Ret tt
    else let! got := op (OIO (c_ref c)) in if got : bool then touch c else Ret tt.
Definition use (l : nat) (u : Use) : P () :=
  match u with
  | URelease => Release l
  | UMarkBroken => MarkBroken l
  | UWrite | URead _ | UPing =>
      let! active := activeConn l in
      match active with
      | None => Ret tt
      | Some c =>
          match u with
          | UWrite => writeJSON c
          | URead timeout => readMessage c timeout
          | _ => let! _ := pingWithTimeout c in Ret tt
          end
      end
  end.

(** ** Goroutines *)

Definition quiet {A} (p : P A) : P Result := p ;! Ret Done.
Definition program (t : Task) : P Result :=
  match t with
  | TAcquire req => Acquire req
  | TUse l u => quiet (use l u)
  | TPrewarm req total gen => quiet (prewarmConns req total gen)
  | TPingSweep => quiet runBackgroundPingSweep
  | TProbe c => quiet (probe c)
  | TCleanupSweep => quiet runBackgroundCleanupSweep
  | TMessage c => quiet (reader_message c)
  | TPeerClosed c => quiet (reader_error c)
  | TPin connID => quiet (PinConn connID)
  | TPinResponse responseID connID ttl => quiet (PinResponseConn responseID connID ttl)
  | TUnpin connID => quiet (UnpinConn connID)
  | TLoad => quiet AccountPoolLoad
  | TClear => quiet ClearAccount
  | TClose => quiet Close
  end.
(** Prewarming is started by the pool itself. *)
Definition startable (t : Task) : bool := match t with TPrewarm _ _ _ => false | _ => true end.
End Pool.

Notation pool_step cfg accountID :=
  (step (@exec) (@spawned) (program cfg accountID) startable outside).
