(* ===== verification/WSPoolProofs.v ===== *)
(** * The WebSocket connection pool: proofs

    Every goroutine carries a ghost: the pool record it took under the mutex, the dials
    it has to account for, the lease token it holds, and what it has learned under the
    mutex.  [vc] says what an operation needs and gives; [Inv] relates the ghosts to the
    memory; [WSPoolMethods.v] shows that every method meets the conditions. *)

From S2P Require Import Prelude TurnState WSStateStore Goroutines WSPool.
Local Open Scope string_scope.
Local Open Scope Z_scope.
Local Open Scope list_scope.
Local Open Scope go_scope.
Local Open Scope prog_scope.

(** ** Sums *)

Definition total {A} (f : A -> Z) (l : list A) : Z := foldr (fun a n => f a + n) 0 l.
Lemma total_app {A} (f : A -> Z) l l' : total f (l ++ l') = total f l + total f l'.
Proof. induction l; simpl; lia. Qed.
Lemma total_insert {A} (f : A -> Z) l i a a' :
  l !! i = Some a -> total f (<[i := a']> l) = total f l - f a + f a'.
Proof.
  revert i. induction l as [|b l IH]; intros [|i]; simpl; try done; [intros [= ->]; lia|].
  intros H. rewrite (IH i H). lia.
Qed.
Lemma total_nonneg {A} (f : A -> Z) l : (forall a, a ∈ l -> 0 <= f a) -> 0 <= total f l.
Proof.
  induction l as [|a l IH]; intros H; simpl; [lia|].
  pose proof (H a ltac:(left)). enough (0 <= total f l) by lia. apply IH. intros b Hb. apply H. by right.
Qed.
Lemma total_ge {A} (f : A -> Z) l i a : (forall a, a ∈ l -> 0 <= f a) -> l !! i = Some a -> f a <= total f l.
Proof.
  revert i. induction l as [|b l IH]; intros [|i] H; simpl; try done.
  - intros [= ->]. enough (0 <= total f l) by lia. apply total_nonneg. intros b Hb. apply H. by right.
  - intros Hi. pose proof (H b ltac:(left)). enough (f a <= total f l) by lia. apply (IH i); [|done].
    intros c Hc. apply H. by right.
Qed.
Definition one (b : bool) : Z := if b then 1 else 0.
Lemma one_nonneg b : 0 <= one b.
Proof. by destruct b. Qed.

(** ** Ghosts and conditions *)

Record Ghost := MkGhost {
  g_held : option AccountPool;    (* the pool as it was locked *)
  g_credits : Z;                  (* dials counted in [creating] *)
  g_token : option (Z * bool);    (* a connection's lease token; was it open since? *)
  g_seen : option Z;              (* seen with room for a waiter, under the mutex *)
  g_new : option (Z * Z);         (* the last connection dialed, and its generation *)
  g_closed : option Z;            (* a connection that is closed *)
  g_closing : bool;               (* it closes the whole pool *)
}.
#[export] Instance eta_Ghost : Eta Ghost := fun g =>
  MkGhost (g_held g) (g_credits g) (g_token g) (g_seen g) (g_new g) (g_closed g) (g_closing g).
Definition idle (closing : bool) (credits : Z) : Ghost := MkGhost None credits None None None None closing.
Definition is_close (t : Task) : bool := match t with TClose => true | _ => false end.
Definition born (t : Task) : Ghost := idle (is_close t) (match t with TPrewarm _ total _ => Z.of_nat total | _ => 0 end).
(** A goroutine that may wait for a close handshake: without the mutex, but for [Close]. *)
Definition calm (g : Ghost) : Prop := g_held g = None \/ g_closing g = true.

Section Proofs.
Context {unicode : GoStrings.Unicode} (cfg : Config).

Definition within (ap : AccountPool) : Prop := Z.of_nat (size (conns ap)) + creating ap <= maxConnsHardCap cfg.
(** Its labels say what was dialed: the compatibility of the request and, if a turn state
    was in the handshake, sent or answered, the identity of the request's model. *)
Definition labelled (c : Conn) : Prop :=
  c_compatibility c = normalizeOpenAIWSAcquireCompatibility (c_request c)
  /\ (has_turn_state (d_headers (c_answer c)) = true \/ has_turn_state (d_handshakeHeaders (c_answer c)) = true ->
      c_model c = Some (codexTurnStateModelIdentity (TurnStateModel (c_request c)))).
Definition all_labelled (ap : AccountPool) : Prop := forall id c, conns ap !! id = Some c -> labelled c.
(** Its connections were there before, in the same generation, or are newly dialed. *)
Definition heir (g : Ghost) (ap0 ap : AccountPool) : Prop :=
  forall id c, conns ap !! id = Some c ->
    (conns ap0 !! id = Some c /\ generation ap = generation ap0)
    \/ (g_new g = Some (c_ref c, generation ap) /\ labelled c).

Definition vc {B} (o : Op B) (g : Ghost) : (B -> Ghost -> Prop) -> Prop :=
  match o in Op B return (B -> Ghost -> Prop) -> Prop with
  | OLock => fun K => g_held g = None
      /\ forall ap, within ap -> all_labelled ap -> g_credits g <= creating ap -> K ap (g <| g_held := Some ap |>)
  | OUnlock ap => fun K => exists ap0, g_held g = Some ap0 /\ within ap
      /\ 0 <= g_credits g + (creating ap - creating ap0) /\ heir g ap0 ap
      /\ K tt (g <| g_held := None |> <| g_credits := g_credits g + (creating ap - creating ap0) |>
                 <| g_seen := None |>)
  | OSignal => fun K => K tt g
  | OChannel => fun K => forall n, K n g
  | ONow => fun K => forall t, K t g
  | OOrder => fun K => forall l, K l g
  | OCtxErr => fun K => forall b, K b g
  | OIO _ => fun K => g_held g = None /\ forall b, K b g
  | ODial _ => fun K => g_held g = None /\ forall d, K d g
  | ONewConn gen => fun K => forall r, K r (g <| g_new := Some (r, gen) |>)
  | OCell _ _ => fun K => forall b, K b g
  | OWaiters r => fun K => forall n,
      K n (if bool_decide (is_Some (g_held g)) && (n <? queueLimitPerConn cfg) then g <| g_seen := Some r |> else g)
  | OAddWaiters r d => fun K =>
      (d <= 0 /\ K tt g) \/ (d = 1 /\ g_seen g = Some r /\ K tt (g <| g_seen := None |>))
  | OClosed r => fun K =>
      K true g /\ K false (if bool_decide (g_token g = Some (r, false)) then g <| g_token := Some (r, true) |> else g)
  | OTake r => fun K => K false g /\ K true (g <| g_token := Some (r, false) |>)
  | OPut r => fun K => ((exists b, g_token g = Some (r, b)) /\ K tt (g <| g_token := None |>)) \/ (g_closed g = Some r /\ K tt g)
  | OTouch _ _ => fun K => K tt g
  | ODrain _ => fun K => forall b, K b g
  | OPending _ => fun K => K tt g
  | OUnusable _ => fun K => K tt g
  | OMarkClosed r => fun K => K false g /\ K true (g <| g_closed := Some r |>)
  | OHandshake _ => fun K => calm g /\ K tt g
  | OShut _ => fun K => K tt g
  | OAwaitShut _ => fun K => calm g /\ K tt g
  | OAwait r _ => fun K => g_held g = None
      /\ K Canceled g /\ K ConnClosed g /\ K PoolChanged g /\ K GotToken (g <| g_token := Some (r, false) |>)
  | OAwaitChange _ _ => fun K => g_held g = None /\ forall b, K b g
  | ONewLease c => fun K => g_token g = Some (c_ref c, true) /\ forall l, K l (g <| g_token := None |>)
  | OReleased _ => fun K => g_held g = None /\ forall b, K b g
  | OLeaseConn _ => fun K => g_held g = None /\ forall c, K c g
  | OCas _ => fun K => g_held g = None /\ K None g /\ forall c, K (Some c) (g <| g_token := Some (c_ref c, false) |>)
  | OGo t => fun K => (is_Some (g_held g) \/ g_credits (born t) = 0) /\ K tt (g <| g_credits := g_credits g - g_credits (born t) |>)
  end.

(** Nothing loops under the mutex. *)
Definition loops (g : Ghost) : Prop := g_held g = None.

Lemma vc_mono B (o : Op B) g (K K' : B -> Ghost -> Prop) : (forall b g, K b g -> K' b g) -> vc o g K -> vc o g K'.
Proof. destruct o; simpl; intros HK; naive_solver. Qed.

(** ** The invariant *)

Definition tok (g : Ghost) (r : Z) : Z := one (bool_decide (fst <$> g_token g = Some r)).
Definition sure (g : Ghost) (r : Z) : Z := one (bool_decide (g_token g = Some (r, true))).
Definition tokens (r : Z) (gs : list Ghost) : Z := total (fun g => tok g r) gs.
Definition sures (r : Z) (gs : list Ghost) : Z := total (fun g => sure g r) gs.
Definition leased_to (r : Z) (lc : LeaseCell) : Z := one (negb (l_released lc) && (c_ref (l_conn lc) =? r)).
Definition leases (r : Z) (w : World) : Z := total (leased_to r) (w_leases w).

(** [ap] is the pool: in the memory, or with the one goroutine that holds the mutex. *)
Definition current (w : World) (gs : list Ghost) (ap : AccountPool) : Prop :=
  match w_pool w with
  | Some ap' => ap' = ap /\ forall g, g ∈ gs -> g_held g = None
  | None => exists i g, gs !! i = Some g /\ g_held g = Some ap
      /\ forall j g', gs !! j = Some g' -> j <> i -> g_held g' = None
  end.
(** Its connections were dialed for its generation, and are labelled so. *)
Definition dialed_for (w : World) (ap : AccountPool) : Prop :=
  all_labelled ap /\ forall id c, conns ap !! id = Some c -> exists cl, w_cells w !! c_ref c = Some cl /\ cl_dialed cl = generation ap.

Definition LockInv (w : World) (gs : list Ghost) : Prop :=
  (exists ap, current w gs ap /\ within ap /\ creating ap = total g_credits gs /\ dialed_for w ap)
  /\ forall g, g ∈ gs -> g_held g = None -> 0 <= g_credits g.
Definition TokenInv (w : World) (gs : list Ghost) : Prop :=
  forall r, match w_cells w !! r with
            | Some cl => leases r w + sures r gs <= 1
                         /\ (cl_closed cl = true \/ one (cl_token cl) + leases r w + tokens r gs <= 1)
            | None => leases r w + tokens r gs <= 0
            end.
Definition WaitInv (w : World) (gs : list Ghost) : Prop :=
  (forall r, cl_waiters (cell w r) <= queueLimitPerConn cfg)
  /\ forall g r, g ∈ gs -> g_seen g = Some r ->
       is_Some (g_held g) /\ cl_waiters (cell w r) < queueLimitPerConn cfg.
Definition FactInv (w : World) (gs : list Ghost) : Prop :=
  (forall g r gen, g ∈ gs -> g_new g = Some (r, gen) -> exists cl, w_cells w !! r = Some cl /\ cl_dialed cl = gen)
  /\ (forall g r, g ∈ gs -> g_closed g = Some r -> exists cl, w_cells w !! r = Some cl /\ cl_closed cl = true)
  /\ forall r cl, w_cells w !! r = Some cl -> r <= w_seq w.
Definition Inv (w : World) (gs : list Ghost) : Prop :=
  LockInv w gs /\ TokenInv w gs /\ WaitInv w gs /\ FactInv w gs.

(** ** What does not concern a part of the invariant *)

Definition same_cells {X} (f : Cell -> X) (w w' : World) : Prop :=
  forall r, f <$> w_cells w' !! r = f <$> w_cells w !! r.
Lemma same_cells_refl {X} (f : Cell -> X) w : same_cells f w w.
Proof. done. Qed.
Lemma same_update_at {X} (f : Cell -> X) r h w :
  (forall c, w_cells w !! r = Some c -> f (h c) = f c) -> same_cells f w (update r h w).
Proof.
  intros Hf q. unfold update. simpl. destruct (decide (q = r)) as [->|Hne].
  - rewrite lookup_alter_eq. destruct (w_cells w !! r); simpl; [by rewrite Hf|done].
  - by rewrite lookup_alter_ne.
Qed.
Lemma same_update {X} (f : Cell -> X) r h w : (forall c, f (h c) = f c) -> same_cells f w (update r h w).
Proof. intros Hf. apply same_update_at. by intros c _. Qed.
Lemma same_some {X} (f : Cell -> X) w w' r cl :
  same_cells f w w' -> w_cells w !! r = Some cl -> exists cl', w_cells w' !! r = Some cl' /\ f cl' = f cl.
Proof. intros Hs Hr. specialize (Hs r). rewrite Hr in Hs. destruct (w_cells w' !! r); simplify_eq/=. eauto. Qed.
Lemma same_cell {X} (f : Cell -> X) w w' r : same_cells f w w' -> f (cell w' r) = f (cell w r).
Proof. intros Hs. specialize (Hs r). unfold cell. destruct (w_cells w' !! r), (w_cells w !! r); by simplify_eq/=. Qed.
Lemma cell_update r q h w : cell (update r h w) q = if decide (q = r) then match w_cells w !! r with Some c => h c | None => no_cell end else cell w q.
Proof.
  unfold cell, update. simpl. destruct (decide (q = r)) as [->|]; [|by rewrite lookup_alter_ne].
  rewrite lookup_alter_eq. by destruct (w_cells w !! r).
Qed.

Lemma insert_elem (gs : list Ghost) i g g' : g ∈ <[i := g']> gs -> g = g' \/ g ∈ gs.
Proof.
  intros [j Hj]%list_elem_of_lookup. destruct (decide (j = i)) as [->|Hne].
  - left. apply list_lookup_insert_Some in Hj as [(_ & -> & _)|[? _]]; done.
  - right. rewrite list_lookup_insert_ne in Hj by done. by eapply list_elem_of_lookup_2.
Qed.

Lemma current_frame w w' gs i g g' ap :
  current w gs ap -> gs !! i = Some g -> w_pool w' = w_pool w -> g_held g' = g_held g ->
  current w' (<[i := g']> gs) ap.
Proof.
  unfold current. intros Hc Hi -> Hh. destruct (w_pool w).
  - destruct Hc as [-> Hn]. split; [done|]. intros g1 [->|H]%insert_elem; [|by apply Hn].
    rewrite Hh. apply Hn. by eapply list_elem_of_lookup_2.
  - destruct Hc as (j & g1 & Hj & Hg1 & Hn). destruct (decide (j = i)) as [->|Hne].
    + exists i, g'. rewrite Hi in Hj. simplify_eq. split_and!; [apply list_lookup_insert_eq; by eapply lookup_lt_Some|congruence|].
      intros k g2 Hk Hki. rewrite list_lookup_insert_ne in Hk by done. by eapply Hn.
    + exists j, g1. rewrite list_lookup_insert_ne by done. split_and!; [done..|].
      intros k g2 [(-> & -> & _)|[? Hk]]%list_lookup_insert_Some Hkj; [|by eapply Hn].
      rewrite Hh. by eapply Hn.
Qed.
Lemma total_same gs i g g' (f : Ghost -> Z) :
  gs !! i = Some g -> f g' = f g -> total f (<[i := g']> gs) = total f gs.
Proof. intros Hi Hf. rewrite (total_insert _ _ _ _ _ Hi). lia. Qed.

Lemma lock_frame w w' gs i g g' :
  LockInv w gs -> gs !! i = Some g -> w_pool w' = w_pool w -> same_cells cl_dialed w w' ->
  g_held g' = g_held g -> g_credits g' = g_credits g -> LockInv w' (<[i := g']> gs).
Proof.
  intros [(ap & Hc & Hw & Hs & Hd) Hn] Hi Hp Hcells Hh Hcr. split.
  - exists ap. split_and!; [by eapply current_frame|done|by erewrite total_same|].
    destruct Hd as [Hlab Hd]. split; [done|]. intros id c Hid. destruct (Hd id c Hid) as (cl & Hcl & Hg).
    destruct (same_some _ _ _ _ _ Hcells Hcl) as (cl' & H1 & H2). exists cl'. split; [done|congruence].
  - intros g1 [->|H]%insert_elem Hg1; [|by apply Hn]. rewrite Hcr. apply Hn; [by eapply list_elem_of_lookup_2|congruence].
Qed.
Lemma token_frame w w' gs i g g' :
  TokenInv w gs -> gs !! i = Some g -> same_cells (fun c => (cl_token c, cl_closed c)) w w' ->
  w_leases w' = w_leases w -> g_token g' = g_token g -> TokenInv w' (<[i := g']> gs).
Proof.
  intros HT Hi Hcells Hl Hg r. unfold leases, tokens, sures.
  rewrite Hl, (total_same _ _ g), (total_same _ _ g) by (done || by unfold sure, tok; rewrite Hg).
  specialize (HT r). specialize (Hcells r).
  destruct (w_cells w !! r), (w_cells w' !! r); simpl in Hcells; try done.
  injection Hcells as -> ->. done.
Qed.
Lemma wait_frame w w' gs i g g' :
  WaitInv w gs -> gs !! i = Some g -> same_cells cl_waiters w w' ->
  g_seen g' = None \/ (g_seen g' = g_seen g /\ g_held g' = g_held g) -> WaitInv w' (<[i := g']> gs).
Proof.
  intros [Hw Hs] Hi Hcells Hg. split; [intros r; by rewrite (same_cell _ _ _ _ Hcells)|].
  intros g1 r [->|H]%insert_elem Hr; rewrite (same_cell _ _ _ _ Hcells); [|by apply Hs].
  destruct Hg as [Hg|[Hg ->]]; [congruence|]. rewrite Hg in Hr. apply Hs; [by eapply list_elem_of_lookup_2|done].
Qed.
Lemma fact_frame w w' gs i g g' :
  FactInv w gs -> gs !! i = Some g -> same_cells (fun c => (cl_closed c, cl_dialed c)) w w' -> w_seq w' = w_seq w ->
  g_new g' = g_new g -> g_closed g' = g_closed g -> FactInv w' (<[i := g']> gs).
Proof.
  intros (Hn & Hc & Hs) Hi Hcells Hq Eg1 Eg2. assert (Hin : g ∈ gs) by (by eapply list_elem_of_lookup_2).
  assert (Hd : forall r cl, w_cells w !! r = Some cl -> exists cl', w_cells w' !! r = Some cl' /\ cl_dialed cl' = cl_dialed cl).
  { intros r cl Hr. destruct (same_some _ _ _ _ _ Hcells Hr) as (cl' & H1 & [= _ H2]). eauto. }
  split_and!.
  - intros g1 r gen H Hr. assert (exists g2, g2 ∈ gs /\ g_new g2 = Some (r, gen)) as (g2 & H2 & Hr2).
    { apply insert_elem in H as [->|H]; [exists g; split; [done|congruence]|by exists g1]. }
    destruct (Hn _ _ _ H2 Hr2) as (cl & Hcl & <-). by apply Hd.
  - intros g1 r H Hr. assert (exists cl, w_cells w !! r = Some cl /\ cl_closed cl = true) as (cl & Hcl & Ht).
    { apply insert_elem in H as [->|H]; [apply (Hc g); [done|congruence]|by eapply Hc]. }
    destruct (same_some _ _ _ _ _ Hcells Hcl) as (cl' & H1 & [= H2 _]). exists cl'. split; [done|congruence].
  - intros r cl Hr. rewrite Hq. specialize (Hcells r). rewrite Hr in Hcells.
    destruct (w_cells w !! r) eqn:E; [by eapply Hs|done].
Qed.

(** ** Tokens *)

Lemma sure_tok g r : sure g r <= tok g r.
Proof.
  unfold sure, tok. destruct (bool_decide_reflect (g_token g = Some (r, true))) as [->|]; [|apply one_nonneg].
  by rewrite bool_decide_true.
Qed.
Lemma sures_tokens r gs : sures r gs <= tokens r gs.
Proof. unfold sures, tokens. induction gs as [|g gs IH]; simpl; [done|]. pose proof (sure_tok g r). lia. Qed.
Lemma tokens_insert r gs i g g' : gs !! i = Some g -> tokens r (<[i := g']> gs) = tokens r gs - tok g r + tok g' r.
Proof. intros Hi. exact (total_insert _ _ _ _ _ Hi). Qed.
Lemma sures_insert r gs i g g' : gs !! i = Some g -> sures r (<[i := g']> gs) = sures r gs - sure g r + sure g' r.
Proof. intros Hi. exact (total_insert _ _ _ _ _ Hi). Qed.
Lemma token_step w w' gs i g g' :
  TokenInv w gs -> gs !! i = Some g ->
  (forall r, match w_cells w !! r, w_cells w' !! r with
             | Some cl, Some cl' =>
                 leases r w' + sure g' r <= leases r w + sure g r
                 /\ (cl_closed cl' = true \/ (cl_closed cl' = cl_closed cl
                       /\ one (cl_token cl') + leases r w' + tok g' r <= one (cl_token cl) + leases r w + tok g r))
             | None, None => leases r w' + tok g' r <= leases r w + tok g r
             | None, Some cl' => one (cl_token cl') + leases r w' + tok g' r <= leases r w + tok g r + 1
             | Some _, None => False
             end) -> TokenInv w' (<[i := g']> gs).
Proof.
  intros HT Hi Hr r. specialize (HT r). specialize (Hr r).
  pose proof (sures_tokens r (<[i := g']> gs)) as Hle. rewrite (sures_insert _ _ _ _ _ Hi), (tokens_insert _ _ _ _ _ Hi) in *.
  destruct (w_cells w !! r) as [cl|], (w_cells w' !! r) as [cl'|]; try done.
  - destruct HT as [HS HT], Hr as [Hs Hr]. split; [lia|].
    destruct HT as [HT|HT], Hr as [Hr|[Hc Hr]]; [by left|left; congruence|by left|right; lia].
  - pose proof (one_nonneg (cl_token cl')). split; [lia|right; lia].
  - lia.
Qed.
Lemma tok_nonneg g r : 0 <= tok g r.
Proof. apply one_nonneg. Qed.

Lemma tok_at g r b q : g_token g = Some (r, b) -> tok g q = one (r =? q).
Proof. unfold tok. intros ->. f_equal. destruct (Z.eqb_spec r q); [apply bool_decide_eq_true_2|apply bool_decide_eq_false_2]; simpl; congruence. Qed.
Lemma sure_at g r b q : g_token g = Some (r, b) -> sure g q = one ((r =? q) && b).
Proof.
  unfold sure. intros ->. f_equal. destruct (Z.eqb_spec r q), b; simpl;
    (apply bool_decide_eq_true_2 || apply bool_decide_eq_false_2); congruence.
Qed.
Lemma tok_none g q : g_token g = None -> tok g q = 0 /\ sure g q = 0.
Proof. unfold tok, sure. by intros ->. Qed.
Lemma sure_nonneg g r : 0 <= sure g r.
Proof. apply one_nonneg. Qed.
Ltac by_cell w q := destruct (w_cells w !! q); [split; [lia|]; right; split; [done|]|]; simpl; lia.

Lemma token_taken w gs i g r :
  TokenInv w gs -> gs !! i = Some g -> cl_token (cell w r) = true ->
  TokenInv (update r (fun c => c <| cl_token := false |>) w) (<[i := g <| g_token := Some (r, false) |>]> gs).
Proof.
  intros HT Hi Ht. eapply token_step; [done..|]. intros q. pose proof (tok_nonneg g q). pose proof (sure_nonneg g q).
  change (leases q (update r _ w)) with (leases q w).
  rewrite (tok_at (g <| g_token := Some (r, false) |>) r false), (sure_at (g <| g_token := Some (r, false) |>) r false) by done.
  rewrite andb_false_r. simpl (one false). unfold update. simpl (w_cells _).
  destruct (Z.eqb_spec r q) as [<-|Hne].
  - rewrite lookup_alter_eq. unfold cell in Ht. destruct (w_cells w !! r) as [cl|] eqn:E; [|done].
    simpl in *. split; [lia|]. right. split; [done|]. rewrite Ht. simpl. lia.
  - rewrite lookup_alter_ne by done. by_cell w q.
Qed.
Lemma token_put w gs i g r b :
  TokenInv w gs -> gs !! i = Some g -> g_token g = Some (r, b) ->
  TokenInv (update r (fun c => c <| cl_token := true |>) w) (<[i := g <| g_token := None |>]> gs).
Proof.
  intros HT Hi Ht. eapply token_step; [done..|]. intros q. pose proof (sure_nonneg g q).
  destruct (tok_none (g <| g_token := None |>) q) as [-> ->]; [done|].
  change (leases q (update r _ w)) with (leases q w). rewrite (tok_at g r b) by done. unfold update. simpl (w_cells _).
  destruct (Z.eqb_spec r q) as [<-|Hne].
  - rewrite lookup_alter_eq. destruct (w_cells w !! r) as [cl|]; simpl; [|lia].
    split; [lia|]. right. split; [done|]. destruct (cl_token cl); simpl; lia.
  - rewrite lookup_alter_ne by done. by_cell w q.
Qed.
Lemma token_put_closed w gs i g r :
  TokenInv w gs -> gs !! i = Some g -> cl_closed (cell w r) = true ->
  TokenInv (update r (fun c => c <| cl_token := true |>) w) (<[i := g]> gs).
Proof.
  intros HT Hi Hc. eapply token_step; [done..|]. intros q.
  change (leases q (update r _ w)) with (leases q w). unfold update, cell in *. simpl.
  destruct (decide (q = r)) as [->|Hne].
  - rewrite lookup_alter_eq. destruct (w_cells w !! r) as [cl|]; simpl in *; [split; [lia|by left]|lia].
  - rewrite lookup_alter_ne by congruence. by_cell w q.
Qed.
Lemma token_closed w gs i g g' r :
  TokenInv w gs -> gs !! i = Some g -> g_token g' = g_token g ->
  TokenInv (update r (fun c => c <| cl_closed := true |>) w) (<[i := g']> gs).
Proof.
  intros HT Hi Hg. eapply token_step; [done..|]. intros q.
  change (leases q (update r _ w)) with (leases q w). unfold update, tok, sure. simpl. rewrite Hg.
  destruct (decide (q = r)) as [->|Hne].
  - rewrite lookup_alter_eq. destruct (w_cells w !! r); simpl; [split; [lia|by left]|lia].
  - rewrite lookup_alter_ne by congruence. by_cell w q.
Qed.
(** An open connection's token is exclusive. *)
Lemma token_checked w gs i g r :
  TokenInv w gs -> gs !! i = Some g -> cl_closed (cell w r) = false -> g_token g = Some (r, false) ->
  TokenInv w (<[i := g <| g_token := Some (r, true) |>]> gs).
Proof.
  intros HT Hi Hc Hg q. specialize (HT q).
  pose proof (sures_tokens q (<[i := g <| g_token := Some (r, true) |>]> gs)) as Hle.
  rewrite (tokens_insert _ _ _ _ _ Hi), (sures_insert _ _ _ _ _ Hi) in *.
  rewrite (tok_at g r false), (sure_at g r false), (tok_at _ r true), (sure_at _ r true) in * by done.
  rewrite andb_true_r, andb_false_r in *. simpl (one false) in *. unfold cell in Hc.
  destruct (Z.eqb_spec r q) as [->|Hne].
  - destruct (w_cells w !! q) as [cl|]; [|done]. simpl in Hc. destruct HT as [HS [HT|HT]]; [congruence|].
    pose proof (one_nonneg (cl_token cl)). split; [lia|right; lia].
  - replace (tokens q gs - one false + one false) with (tokens q gs) by (simpl; lia).
    replace (sures q gs - 0 + one false) with (sures q gs) by (simpl; lia). done.
Qed.
Lemma token_leased w gs i g c :
  TokenInv w gs -> gs !! i = Some g -> g_token g = Some (c_ref c, true) ->
  TokenInv (w <| w_leases := w_leases w ++ [MkLeaseCell c false] |>) (<[i := g <| g_token := None |>]> gs).
Proof.
  intros HT Hi Ht. eapply token_step; [done..|]. intros q. destruct (tok_none (g <| g_token := None |>) q) as [-> ->]; [done|].
  rewrite (tok_at g (c_ref c) true), (sure_at g (c_ref c) true), andb_true_r by done.
  unfold leases. simpl (w_leases _). rewrite total_app. simpl (total _ [_]).
  change (leased_to q (MkLeaseCell c false)) with (one (c_ref c =? q)). simpl (w_cells _). by_cell w q.
Qed.
Lemma token_returned w gs i g l lc :
  TokenInv w gs -> gs !! i = Some g -> w_leases w !! l = Some lc -> l_released lc = false ->
  TokenInv (w <| w_leases := <[l := MkLeaseCell (l_conn lc) true]> (w_leases w) |>)
    (<[i := g <| g_token := Some (c_ref (l_conn lc), false) |>]> gs).
Proof.
  intros HT Hi Hl Hn. eapply token_step; [done..|]. intros q. pose proof (tok_nonneg g q). pose proof (sure_nonneg g q).
  rewrite (tok_at (g <| g_token := _ |>) (c_ref (l_conn lc)) false), (sure_at (g <| g_token := _ |>) (c_ref (l_conn lc)) false), andb_false_r by done.
  assert (E : leases q (w <| w_leases := <[l := MkLeaseCell (l_conn lc) true]> (w_leases w) |>)
              = leases q w - one (c_ref (l_conn lc) =? q)).
  { unfold leases. simpl. rewrite (total_insert _ _ _ _ _ Hl).
    replace (leased_to q lc) with (one (c_ref (l_conn lc) =? q)) by (unfold leased_to; by rewrite Hn).
    change (leased_to q (MkLeaseCell (l_conn lc) true)) with 0. lia. }
  pose proof (one_nonneg (c_ref (l_conn lc) =? q)). rewrite E. simpl (one false). simpl (w_cells _). by_cell w q.
Qed.

(** ** The mutex *)

Lemma one_holder w gs i j g1 g2 :
  LockInv w gs -> gs !! i = Some g1 -> gs !! j = Some g2 -> is_Some (g_held g1) -> is_Some (g_held g2) -> i = j.
Proof.
  intros [(ap & Hc & _) _] H1 H2 [a1 E1] [a2 E2]. unfold current in Hc. destruct (w_pool w).
  - destruct Hc as [_ Hn]. rewrite Hn in E1 by (by eapply list_elem_of_lookup_2). done.
  - destruct Hc as (k & g & Hk & _ & Hn).
    assert (i = k) as -> by (destruct (decide (i = k)); [done|by rewrite (Hn _ _ H1) in E1]).
    destruct (decide (j = k)); [done|by rewrite (Hn _ _ H2) in E2].
Qed.
Lemma held_current w gs i g ap0 :
  LockInv w gs -> gs !! i = Some g -> g_held g = Some ap0 ->
  w_pool w = None /\ current w gs ap0 /\ within ap0 /\ creating ap0 = total g_credits gs /\ dialed_for w ap0.
Proof.
  intros HL Hi Hg. destruct HL as [(ap & Hc & H) HL]. unfold current in *. destruct (w_pool w) eqn:E.
  - destruct Hc as [_ Hn]. rewrite Hn in Hg by (by eapply list_elem_of_lookup_2). done.
  - destruct Hc as (k & g1 & Hk & H1 & Hn).
    destruct (decide (i = k)) as [->|Hne]; [|by rewrite (Hn _ _ Hi Hne) in Hg].
    assert (ap = ap0) as -> by congruence. split_and!; try done; try apply H. by exists k, g1.
Qed.
Lemma free_current w gs ap :
  LockInv w gs -> w_pool w = Some ap ->
  within ap /\ creating ap = total g_credits gs /\ dialed_for w ap
  /\ (forall g, g ∈ gs -> g_held g = None) /\ forall g, g ∈ gs -> 0 <= g_credits g.
Proof.
  intros [(ap' & Hc & Hw & Hs & Hd) Hn] E. unfold current in Hc. rewrite E in Hc. destruct Hc as [-> Hh].
  split_and!; try done. intros g Hg. apply Hn; [done|by apply Hh].
Qed.

Lemma lock_taken w gs i g ap :
  LockInv w gs -> gs !! i = Some g -> w_pool w = Some ap ->
  LockInv (w <| w_pool := None |>) (<[i := g <| g_held := Some ap |>]> gs).
Proof.
  intros HL Hi E. destruct (free_current _ _ _ HL E) as (Hw & Hs & Hd & Hh & Hn). split.
  - exists ap. split_and!; [|done|by rewrite (total_same _ _ g)|done].
    exists i. eexists. split; [apply list_lookup_insert_eq; by eapply lookup_lt_Some|]. split; [done|].
    intros j g' Hj Hne. rewrite list_lookup_insert_ne in Hj by done. apply Hh. by eapply list_elem_of_lookup_2.
  - intros g1 [->|H1]%insert_elem Hg1; [done|by apply Hn].
Qed.

Lemma lock_returned w gs i g ap0 ap :
  LockInv w gs -> FactInv w gs -> gs !! i = Some g -> g_held g = Some ap0 -> within ap ->
  0 <= g_credits g + (creating ap - creating ap0) -> heir g ap0 ap ->
  LockInv (w <| w_pool := Some ap |>)
    (<[i := g <| g_held := None |> <| g_credits := g_credits g + (creating ap - creating ap0) |> <| g_seen := None |>]> gs).
Proof.
  intros HL (Hnew & _) Hi Hg Hw Hc Hh. destruct (held_current _ _ _ _ _ HL Hi Hg) as (E & Hcur & _ & Hs & Hd). split.
  - exists ap. split_and!; [|done| |].
    + split; [done|]. intros g1 [j H1]%list_elem_of_lookup.
      apply list_lookup_insert_Some in H1 as [(_ & <- & _)|[Hne H1]]; [done|].
      unfold current in Hcur. rewrite E in Hcur. destruct Hcur as (k & g2 & Hk & Hk2 & Hn).
      assert (k = i) as -> by (eapply one_holder; [exact HL|exact Hk|exact Hi|by eexists|by eexists]). by eapply Hn.
    + rewrite (total_insert _ _ _ _ _ Hi). simpl. lia.
    + destruct Hd as [Hlab Hd]. split; intros id c Hid; destruct (Hh id c Hid) as [[H1 Hgen]|[H1 H2]]; [by eapply Hlab|done| |].
      * destruct (Hd id c H1) as (cl & ? & ?). exists cl. split; [done|congruence].
      * apply (Hnew g); [by eapply list_elem_of_lookup_2|done].
  - intros g1 [->|H1]%insert_elem Hg1; [done|]. by apply HL.
Qed.

Lemma lock_app w gs g : LockInv w gs -> g_held g = None -> g_credits g = 0 -> LockInv w (gs ++ [g]).
Proof.
  intros [(ap & Hc & Hw & Hs & Hd) Hn] Hg H0. split.
  - exists ap. split_and!; [|done|rewrite total_app; simpl; lia|done]. unfold current in *. destruct (w_pool w).
    + destruct Hc as [-> Hh]. split; [done|]. intros g1 [H1|H1%list_elem_of_singleton]%elem_of_app; [by apply Hh|by subst].
    + destruct Hc as (k & g1 & Hk & H1 & Hh). exists k, g1. split_and!; [by apply lookup_app_l_Some|done|].
      intros j g2 [Hj|[_ Hj]]%lookup_app_Some; [by apply Hh|]. intros _.
      apply list_lookup_singleton_Some in Hj as [_ <-]. done.
  - intros g1 [H1|H1%list_elem_of_singleton]%elem_of_app ?; [by apply Hn|]. subst. lia.
Qed.
(** Credits of the goroutine that holds the mutex pass to one it starts. *)
Lemma lock_split w gs i g g' n :
  LockInv w gs -> gs !! i = Some g -> is_Some (g_held g) -> g_held g' = None -> g_credits g' = n -> 0 <= n ->
  LockInv w (<[i := g <| g_credits := g_credits g - n |>]> gs ++ [g']).
Proof.
  intros HL Hi [ap0 Hg] Hg' Hn Hpos. destruct (held_current _ _ _ _ _ HL Hi Hg) as (E & Hcur & Hw & Hs & Hd). split.
  - exists ap0. split_and!; [|done| |done].
    + unfold current. rewrite E. exists i. eexists. split_and!.
      * apply lookup_app_l_Some, list_lookup_insert_eq. by eapply lookup_lt_Some.
      * done.
      * intros j g2 [Hj|[_ Hj]]%lookup_app_Some Hne.
        -- rewrite list_lookup_insert_ne in Hj by done. destruct (g_held g2) eqn:E2; [|done].
           exfalso. apply Hne. eapply one_holder; [exact HL|exact Hj|exact Hi|by eexists|by eexists].
        -- apply list_lookup_singleton_Some in Hj as [_ <-]. done.
    + rewrite total_app, (total_insert _ _ _ _ _ Hi). simpl. lia.
  - intros g1 [[->|H1]%insert_elem|H1%list_elem_of_singleton]%elem_of_app Hg1.
    + simpl in Hg1. congruence.
    + by apply HL.
    + subst. lia.
Qed.

(** ** Waiters and facts *)

Lemma limit_pos : 0 < queueLimitPerConn cfg.
Proof. unfold queueLimitPerConn. destruct (Z.ltb_spec 0 (QueueLimitPerConn cfg)); lia. Qed.

Lemma wait_less w gs i g r d :
  WaitInv w gs -> gs !! i = Some g -> d <= 0 ->
  WaitInv (update r (fun c => c <| cl_waiters := cl_waiters c + d |>) w) (<[i := g]> gs).
Proof.
  intros [Hw Hs] Hi Hd. rewrite list_insert_id by done.
  assert (H : forall q, cl_waiters (cell (update r (fun c => c <| cl_waiters := cl_waiters c + d |>) w) q) <= cl_waiters (cell w q)).
  { intros q. rewrite cell_update. destruct (decide (q = r)) as [->|]; [|lia]. unfold cell.
    destruct (w_cells w !! r); simpl; lia. }
  split; [intros q; specialize (H q); specialize (Hw q); lia|]. intros g1 q Hg Hq. specialize (H q).
  destruct (Hs _ _ Hg Hq). split; [done|lia].
Qed.
Lemma wait_more w gs i g r :
  LockInv w gs -> WaitInv w gs -> gs !! i = Some g -> g_seen g = Some r ->
  WaitInv (update r (fun c => c <| cl_waiters := cl_waiters c + 1 |>) w) (<[i := g <| g_seen := None |>]> gs).
Proof.
  intros HL [Hw Hs] Hi Hg. destruct (Hs g r ltac:(by eapply list_elem_of_lookup_2) Hg) as [Hh Hlt]. split.
  - intros q. rewrite cell_update. destruct (decide (q = r)) as [->|]; [|done]. unfold cell in Hlt.
    destruct (w_cells w !! r); simpl in *; lia.
  - intros g1 q [j Hj]%list_elem_of_lookup Hq.
    apply list_lookup_insert_Some in Hj as [(_ & <- & _)|[Hne Hj]]; [done|]. exfalso. apply Hne.
    eapply one_holder; [exact HL|exact Hi|exact Hj|done|]. eapply Hs; [|exact Hq]. by eapply list_elem_of_lookup_2.
Qed.
Lemma wait_seen w gs i g r :
  WaitInv w gs -> gs !! i = Some g -> is_Some (g_held g) -> cl_waiters (cell w r) < queueLimitPerConn cfg ->
  WaitInv w (<[i := g <| g_seen := Some r |>]> gs).
Proof.
  intros [Hw Hs] Hi Hh Hlt. split; [done|]. intros g1 q [->|Hg]%insert_elem Hq; [|by apply Hs].
  simpl in *. by simplify_eq.
Qed.
Lemma wait_unlocked w w' gs i g g' :
  WaitInv w gs -> gs !! i = Some g -> w_cells w' = w_cells w -> g_seen g' = None -> WaitInv w' (<[i := g']> gs).
Proof. intros HW Hi Hc Hg. eapply wait_frame; [done..| |by left]. intros r. by rewrite Hc. Qed.

Lemma fact_closed w gs i g r c :
  FactInv w gs -> gs !! i = Some g -> w_cells w !! r = Some c ->
  FactInv (update r (fun c => c <| cl_closed := true |>) w) (<[i := g <| g_closed := Some r |>]> gs).
Proof.
  intros (Hn & Hc & Hs) Hi Hr. set (w' := update r _ w).
  assert (Hcl : forall q, (exists cl, w_cells w !! q = Some cl /\ cl_closed cl = true) \/ q = r ->
                exists cl, w_cells w' !! q = Some cl /\ cl_closed cl = true).
  { intros q Hq. subst w'. unfold update. simpl. destruct (decide (q = r)) as [->|].
    - rewrite lookup_alter_eq, Hr. simpl. eexists. split; [done|done].
    - rewrite lookup_alter_ne by done. by destruct Hq. }
  split_and!.
  - intros g1 q gen H Hq. assert (exists g2, g2 ∈ gs /\ g_new g2 = Some (q, gen)) as (g2 & H2 & Hq2).
    { apply insert_elem in H as [->|H]; [exists g; split; [by eapply list_elem_of_lookup_2|done]|by exists g1]. }
    destruct (Hn _ _ _ H2 Hq2) as (cl & Hq' & <-).
    apply (same_some cl_dialed w w' q cl); [by apply same_update|done].
  - intros g1 q [->|H]%insert_elem Hq; apply Hcl; [right; simpl in Hq; congruence|left; by eapply Hc].
  - intros q cl Hq. apply (same_some (fun _ => tt) w' w q cl) in Hq as (cl' & Hq & _).
    + by eapply Hs.
    + intros p. symmetry. by apply (same_update (fun _ => tt) r).
Qed.

(** A connection is made. *)
Lemma made_sound w gs i g gen cl :
  Inv w gs -> gs !! i = Some g -> cl_waiters cl = 0 -> cl_dialed cl = gen ->
  let r := w_seq w + 1 in
  Inv (w <| w_seq := r |> <| w_cells := <[r := cl]> (w_cells w) |>) (<[i := g <| g_new := Some (r, gen) |>]> gs).
Proof.
  intros (HL & HT & HW & HF) Hi Hcw Hcd r. destruct HF as (Hn & Hc & Hs).
  assert (Hr : w_cells w !! r = None).
  { destruct (w_cells w !! r) eqn:E; [|done]. apply Hs in E. lia. }
  set (w' := w <| w_seq := r |> <| w_cells := <[r := cl]> (w_cells w) |>).
  assert (Hold : forall q c, w_cells w !! q = Some c -> w_cells w' !! q = Some c).
  { intros q c Hq. simpl. rewrite lookup_insert_ne; [done|]. intros <-. congruence. }
  assert (Hcell : forall q, q <> r -> cell w' q = cell w q) by (intros q Hq; unfold cell; simpl; by rewrite lookup_insert_ne).
  assert (Hcr : cell w' r = cl) by (unfold cell; simpl; by rewrite lookup_insert_eq).
  assert (Hin : g ∈ gs) by (by eapply list_elem_of_lookup_2). pose proof limit_pos. split; [|split; [|split; [|split; [|split]]]].
  - destruct HL as [(ap & Hcur & Hw & Ht & Hd) Hcred]. split.
    + exists ap. split_and!; [by eapply current_frame|done|by rewrite (total_same _ _ g)|].
      destruct Hd as [Hlab Hd]. split; [done|]. intros id c Hid. destruct (Hd id c Hid) as (c' & H1 & H2). exists c'. split; [by apply Hold|done].
    + intros g1 [->|H1]%insert_elem Hg1; [|by apply Hcred]. by apply (Hcred g).
  - eapply token_step; [done..|]. intros q. change (leases q w') with (leases q w).
    change (tok (g <| g_new := Some (r, gen) |>) q) with (tok g q).
    change (sure (g <| g_new := Some (r, gen) |>) q) with (sure g q). simpl (w_cells _). destruct (decide (q = r)) as [->|Hne].
    + rewrite lookup_insert_eq, Hr. destruct (cl_token cl); simpl; lia.
    + rewrite lookup_insert_ne by done. by_cell w q.
  - destruct HW as [Hw Hseen]. split.
    + intros q. destruct (decide (q = r)) as [->|Hne]; [rewrite Hcr; lia|by rewrite Hcell].
    + intros g1 q Hg1 Hq. assert (exists g2, g2 ∈ gs /\ g_seen g2 = Some q /\ g_held g2 = g_held g1) as (g2 & H2 & Hq2 & <-).
      { apply insert_elem in Hg1 as [->|Hg1]; [by exists g|by exists g1]. }
      destruct (Hseen _ _ H2 Hq2). split; [done|].
      destruct (decide (q = r)) as [->|Hne]; [rewrite Hcr; lia|by rewrite Hcell].
  - intros g1 q gen' [->|H1]%insert_elem Hq.
    + simpl in Hq. injection Hq as <- <-. exists cl. split; [simpl; by rewrite lookup_insert_eq|done].
    + destruct (Hn _ _ _ H1 Hq) as (c & ? & ?). exists c. split; [by apply Hold|done].
  - intros g1 q Hg1 Hq. assert (exists g2, g2 ∈ gs /\ g_closed g2 = Some q) as (g2 & H2 & Hq2).
    { apply insert_elem in Hg1 as [->|Hg1]; [by exists g|by exists g1]. }
    destruct (Hc _ _ H2 Hq2) as (c & ? & ?). exists c. split; [by apply Hold|done].
  - intros q c Hq. simpl in Hq. apply lookup_insert_Some in Hq as [[<- _]|[_ Hq]]; simpl; [lia|]. apply Hs in Hq. lia.
Qed.

(** An operation that changes neither what the invariant says nor the ghost. *)
Definition shape (c : Cell) : bool * bool * Z * Z := (cl_token c, cl_closed c, cl_waiters c, cl_dialed c).
Lemma same_map {X Y} (f : Cell -> X) (h : X -> Y) w w' : same_cells f w w' -> same_cells (fun c => h (f c)) w w'.
Proof.
  intros Hs r. specialize (Hs r). destruct (w_cells w' !! r), (w_cells w !! r); simpl in *; try done.
  injection Hs as E. by rewrite E.
Qed.
Lemma quiet_sound w w' gs i g g' :
  Inv w gs -> gs !! i = Some g -> w_pool w' = w_pool w -> w_leases w' = w_leases w -> w_seq w' = w_seq w ->
  same_cells shape w w' ->
  g_held g' = g_held g -> g_credits g' = g_credits g -> g_token g' = g_token g -> g_new g' = g_new g ->
  g_closed g' = g_closed g -> g_seen g' = None \/ g_seen g' = g_seen g -> Inv w' (<[i := g']> gs).
Proof.
  intros (HL & HT & HW & HF) Hi Hp Hl Hq Hc ? ? ? ? ? Hseen. split; [|split; [|split]].
  - eapply lock_frame; try done. by apply (same_map _ snd) in Hc.
  - eapply token_frame; try done. by apply (same_map _ (fun x => x.1.1)) in Hc.
  - eapply wait_frame; try done; [by apply (same_map _ (fun x => x.1.2)) in Hc|]. destruct Hseen; [by left|by right].
  - eapply fact_frame; try done. by apply (same_map _ (fun x => (x.1.1.2, x.2))) in Hc.
Qed.
Lemma same_sound w gs i g :  Inv w gs -> gs !! i = Some g -> Inv w (<[i := g]> gs).
Proof. intros HI Hi. by rewrite list_insert_id. Qed.
Lemma cells_sound w gs i g r h :
  Inv w gs -> gs !! i = Some g -> (forall c, w_cells w !! r = Some c -> shape (h c) = shape c) ->
  Inv (update r h w) (<[i := g]> gs).
Proof. intros HI Hi Hh. eapply quiet_sound; try done; [by apply same_update_at|by right]. Qed.

Lemma take_sound w gs i g r :
  Inv w gs -> gs !! i = Some g -> cl_token (cell w r) = true ->
  Inv (update r (fun c => c <| cl_token := false |>) w) (<[i := g <| g_token := Some (r, false) |>]> gs).
Proof.
  intros (HL & HT & HW & HF) Hi Ht. split; [|split; [|split]].
  - eapply lock_frame; try done. by apply same_update.
  - by apply token_taken.
  - eapply wait_frame; try done; [by apply same_update|by right].
  - eapply fact_frame; try done. by apply same_update.
Qed.
Lemma put_sound w gs i g g' r :
  Inv w gs -> gs !! i = Some g ->
  ((exists b, g_token g = Some (r, b)) /\ g' = g <| g_token := None |>) \/ (g_closed g = Some r /\ g' = g) ->
  Inv (update r (fun c => c <| cl_token := true |>) w) (<[i := g']> gs).
Proof.
  intros (HL & HT & HW & HF) Hi Hg. assert (Hin : g ∈ gs) by (by eapply list_elem_of_lookup_2). split; [|split; [|split]].
  - eapply lock_frame; try done; [by apply same_update|by destruct Hg as [[_ ->]|[_ ->]]..].
  - destruct Hg as [[[b Ht] ->]|[Ht ->]]; [by eapply token_put|]. apply token_put_closed; try done.
    destruct HF as (_ & Hc & _). destruct (Hc _ _ Hin Ht) as (cl & E & H). unfold cell. by rewrite E.
  - eapply wait_frame; try done; [by apply same_update|]. right. by destruct Hg as [[_ ->]|[_ ->]].
  - eapply fact_frame; try done; [by apply same_update|by destruct Hg as [[_ ->]|[_ ->]]..].
Qed.
Lemma close_sound w gs i g r :
  Inv w gs -> gs !! i = Some g -> cl_closed (cell w r) = false ->
  Inv (update r (fun c => c <| cl_closed := true |>) w) (<[i := g <| g_closed := Some r |>]> gs).
Proof.
  intros (HL & HT & HW & HF) Hi Hc. destruct (w_cells w !! r) as [c|] eqn:E; [|unfold cell in Hc; by rewrite E in Hc].
  split; [|split; [|split]].
  - eapply lock_frame; try done. by apply same_update.
  - by eapply token_closed.
  - eapply wait_frame; try done; [by apply same_update|by right].
  - by eapply fact_closed.
Qed.

(** A new goroutine. *)
Lemma token_app w gs b n : TokenInv w gs -> TokenInv w (gs ++ [idle b n]).
Proof.
  intros HT r. specialize (HT r). unfold tokens, sures in *. rewrite !total_app. simpl (total _ [_]).
  change (tok (idle b n) r) with 0. change (sure (idle b n) r) with 0.
  destruct (w_cells w !! r); [destruct HT as [? [?|?]]; (split; [lia|]); [by left|right; lia]|lia].
Qed.
Lemma wait_app w gs b n : WaitInv w gs -> WaitInv w (gs ++ [idle b n]).
Proof.
  intros [Hw Hs]. split; [done|]. intros g r [Hg|Hg%list_elem_of_singleton]%elem_of_app Hr; [by apply Hs|by subst].
Qed.
Lemma fact_app w gs b n : FactInv w gs -> FactInv w (gs ++ [idle b n]).
Proof.
  intros (Hn & Hc & Hs). split; [|split]; [| |done].
  - intros g r gen [Hg|Hg%list_elem_of_singleton]%elem_of_app Hr; [by eapply Hn|by subst].
  - intros g r [Hg|Hg%list_elem_of_singleton]%elem_of_app Hr; [by eapply Hc|by subst].
Qed.
Lemma start_sound w gs t : startable t = true -> Inv w gs -> Inv w (gs ++ [born t]).
Proof.
  intros Ht (HL & HT & HW & HF).
  split; [apply lock_app; [done..|by destruct t]|]. split; [by apply token_app|]. split; [by apply wait_app|by apply fact_app].
Qed.
Lemma split_sound w gs i g t :
  Inv w gs -> gs !! i = Some g -> is_Some (g_held g) ->
  Inv w (<[i := g <| g_credits := g_credits g - g_credits (born t) |>]> gs ++ [born t]).
Proof.
  intros (HL & HT & HW & HF) Hi Hh. split; [eapply lock_split; try done; destruct t; simpl; lia|].
  split; [by apply token_app; eapply token_frame|].
  split; [|by apply fact_app; eapply fact_frame]. apply wait_app. eapply wait_frame; try done. by right.
Qed.
Lemma spawn_sound w gs i g t :
  Inv w gs -> gs !! i = Some g -> g_credits (born t) = 0 ->
  Inv w (<[i := g <| g_credits := g_credits g - g_credits (born t) |>]> gs ++ [born t]).
Proof.
  intros HI Hi H0.
  assert (HI' : Inv w (<[i := g <| g_credits := g_credits g - g_credits (born t) |>]> gs)).
  { eapply quiet_sound; try done; [|by right].
    change (g_credits g - g_credits (born t) = g_credits g). rewrite H0. lia. }
  destruct HI' as (HL & HT & HW & HF).
  split; [by apply lock_app|]. split; [by apply token_app|]. split; [by apply wait_app|by apply fact_app].
Qed.
Lemma outside_sound w t gs : Inv w gs -> Inv (outside t w) gs.
Proof. done. Qed.

Ltac same_ghost g := exists g; split; [by auto|]; split; [done|]; rewrite app_nil_r.
Lemma exec_sound B choice (o : Op B) w w' b gs i g (K : B -> Ghost -> Prop) :
  Inv w gs -> gs !! i = Some g -> vc o g K -> exec choice o w = Some (w', b) ->
  exists g', K b g' /\ g_closing g' = g_closing g /\ Inv w' (<[i := g']> gs ++ match spawned o with Some t => [born t] | None => [] end).
Proof.
  intros HI Hi. destruct o; simpl; intros HK He; try (injection He as <- <-).
  (* mutex *)
  - destruct (w_pool w) as [ap|] eqn:E; [|done]. injection He as <- <-. destruct HK as [Hh HK].
    destruct HI as (HL & HT & HW & HF). destruct (free_current _ _ _ HL E) as (Hw & Hs & [Hlab _] & _ & Hn).
    eexists. rewrite app_nil_r. split; [apply HK; [done|done|rewrite Hs; by eapply (total_ge g_credits)]|]. split; [done|].
    split; [by apply lock_taken|]. split; [by eapply token_frame|]. split; [|by eapply fact_frame].
    destruct HW as [HW1 HW2]. split; [done|]. intros g1 r [->|H]%insert_elem Hr; [|by apply HW2].
    simpl in *. destruct (HW2 g r ltac:(by eapply list_elem_of_lookup_2) Hr) as [[? ?] _]. congruence.
  - destruct HK as (ap0 & Hh & Hw & Hc & Hheir & HK). eexists. rewrite app_nil_r. split; [exact HK|]. split; [done|].
    destruct HI as (HL & HT & HW & HF). split; [by eapply lock_returned|]. split; [by eapply token_frame|].
    split; [by eapply wait_unlocked|by eapply fact_frame].
  - same_ghost g. eapply quiet_sound; try done. by right.
  - same_ghost g. by apply same_sound.
  - same_ghost g. by apply same_sound.
  - same_ghost g. by apply same_sound.
  - same_ghost g. by apply same_sound.
  - destruct (ch_late choice); [done|]. injection He as <- <-. destruct HK as [_ HK]. same_ghost g. by apply same_sound.
  - destruct (ch_late choice); [done|]. injection He as <- <-. destruct HK as [_ HK]. same_ghost g. by apply same_sound.
  - eexists. rewrite app_nil_r. split; [apply HK|]. split; [done|]. by apply made_sound.
  - same_ghost g. by apply same_sound.
  - destruct HK as [K1 K0]. destruct (cl_closed (cell w r)) eqn:E; [by same_ghost g; apply same_sound|].
    eexists. split; [exact K0|]. split; [by case_bool_decide|]. rewrite app_nil_r. case_bool_decide as Hg; [|by apply same_sound].
    destruct HI as (HL & HT & HW & HF). split; [by eapply lock_frame|]. split; [by apply token_checked|].
    split; [eapply wait_frame; try done; by right|by eapply fact_frame].
  (* waiters *)
  - eexists. split; [apply HK|]. split; [by destruct (_ && _)|]. rewrite app_nil_r. destruct (bool_decide_reflect (is_Some (g_held g))); simpl; [|by apply same_sound].
    destruct (Z.ltb_spec (cl_waiters (cell w r)) (queueLimitPerConn cfg)); [|by apply same_sound].
    destruct HI as (HL & HT & HW & HF). split; [by eapply lock_frame|]. split; [by eapply token_frame|].
    split; [by apply wait_seen|by eapply fact_frame].
  - destruct HI as (HL & HT & HW & HF). destruct HK as [[Hd HK]|(-> & Hs & HK)].
    + same_ghost g. split; [|split; [|split]]; [| |by apply wait_less|].
      * eapply lock_frame; try done. by apply same_update.
      * eapply token_frame; try done. by apply same_update.
      * eapply fact_frame; try done. by apply same_update.
    + eexists. split; [exact HK|]. split; [done|]. rewrite app_nil_r. split; [|split; [|split]]; [| |by apply wait_more|].
      * eapply lock_frame; try done. by apply same_update.
      * eapply token_frame; try done. by apply same_update.
      * eapply fact_frame; try done. by apply same_update.
  (* tokens *)
  - destruct HK as [K0 K1]. destruct (cl_token (cell w r)) eqn:E.
    + eexists. split; [exact K1|]. split; [done|]. rewrite app_nil_r. by apply take_sound.
    + same_ghost g. apply cells_sound; [done..|]. intros c Hc. unfold cell in E. rewrite Hc in E. simpl in E. unfold shape. simpl. by rewrite E.
  - destruct HK as [[Ht HK]|[Ht HK]]; (eexists; split; [exact HK|]; split; [done|]; rewrite app_nil_r; eapply put_sound; [done..|]).
    + left. by split.
    + by right.
  - same_ghost g. by apply cells_sound.
  - same_ghost g. by apply cells_sound.
  - same_ghost g. by apply cells_sound.
  - same_ghost g. by apply cells_sound.
  - destruct HK as [K0 K1]. destruct (cl_closed (cell w r)) eqn:E; simpl.
    + same_ghost g. apply cells_sound; [done..|]. intros c Hc. unfold cell in E. rewrite Hc in E. simpl in E. unfold shape. simpl. by rewrite E.
    + eexists. split; [exact K1|]. split; [done|]. rewrite app_nil_r. by apply close_sound.
  - destruct (ch_late choice); [done|]. injection He as <- <-. destruct HK as [_ HK]. same_ghost g. by apply same_sound.
  - same_ghost g. by apply cells_sound.
  - destruct (cl_shut (cell w r)); [|done]. injection He as <- <-. destruct HK as [_ HK]. same_ghost g. by apply same_sound.
  - destruct HK as (_ & K1 & K2 & K3 & K4). destruct (ch_awoken choice).
    + injection He as <- <-. same_ghost g. by apply same_sound.
    + destruct (cl_closed (cell w r)); [|done]. injection He as <- <-. same_ghost g. by apply same_sound.
    + destruct ch as [n|]; [|done]. destruct (n <? w_changed w)%nat; [|done]. injection He as <- <-. same_ghost g. by apply same_sound.
    + destruct (cl_token (cell w r)) eqn:E; [|done]. injection He as <- <-. eexists. split; [exact K4|]. split; [done|].
      rewrite app_nil_r. by apply take_sound.
  - destruct HK as [_ HK]. assert (w' = w) as ->.
    { destruct (ch_yes choice); [|by simplify_eq]. by destruct (_ || _); simplify_eq. }
    same_ghost g. by apply same_sound.
  (* leases *)
  - destruct HK as [Ht HK]. eexists. split; [apply HK|]. split; [done|]. rewrite app_nil_r. destruct HI as (HL & HT & HW & HF).
    split; [by eapply lock_frame|]. split; [by apply token_leased|]. split; [|by eapply fact_frame].
    eapply wait_frame; try done. by right.
  - destruct HK as [_ HK]. destruct (w_leases w !! l) eqn:E; [|done]. injection He as <- <-. same_ghost g. by apply same_sound.
  - destruct HK as [_ HK]. destruct (w_leases w !! l) eqn:E; [|done]. injection He as <- <-. same_ghost g. by apply same_sound.
  - destruct HK as (_ & K0 & K1). destruct (w_leases w !! l) as [lc|] eqn:E; [|done]. simpl in He.
    destruct (l_released lc) eqn:Hr; injection He as <- <-.
    + same_ghost g. by apply same_sound.
    + eexists. split; [apply K1|]. split; [done|]. rewrite app_nil_r. destruct HI as (HL & HT & HW & HF).
      split; [by eapply lock_frame|]. split; [by apply token_returned|]. split; [|by eapply fact_frame].
      eapply wait_frame; try done. by right.
  (* goroutines *)
  - destruct HK as [[Hh|H0] HK]; (eexists; split; [exact HK|]; split; [done|]); [by apply split_sound|by apply spawn_sound].
Qed.
End Proofs.
