(* ===== verification/WSPoolMethods.v ===== *)
(** * The WebSocket connection pool: its methods meet their conditions

    Method by method: from a ghost without the mutex back to one without it, with the
    same credits and token; what requests are granted fits them. *)

From S2P Require Import Prelude TurnState TurnStateCollector WSStateStore Goroutines WSPool WSPoolProofs.
Local Open Scope string_scope.
Local Open Scope Z_scope.
Local Open Scope list_scope.
Local Open Scope go_scope.
Local Open Scope prog_scope.

Section Methods.
Context {unicode : GoStrings.Unicode} (cfg : Config) (accountID : Z).
Local Abbreviation P := (Prog Op).
Local Abbreviation safely := (ok loops (@vc _ cfg)).
Local Abbreviation within := (within cfg).

Lemma safely_bind {A B} (m : P A) (k : A -> P B) Q g :
  safely m (fun g a => safely (k a) Q g) g -> safely (p_bind m k) Q g.
Proof. apply ok_bind, vc_mono. Qed.
Lemma safely_mono {A} (p : P A) (Q Q' : Ghost -> A -> Prop) g :
  safely p Q g -> (forall g a, Q g a -> Q' g a) -> safely p Q' g.
Proof. intros Hp HQ. eapply ok_mono; [apply vc_mono|exact HQ|done]. Qed.

(** ** Programs that keep the ghost *)

(** The same token, perhaps found open. *)
Definition token_le (t t' : option (Z * bool)) : Prop :=
  t' = t \/ exists r, t = Some (r, false) /\ t' = Some (r, true).
Lemma token_le_refl t : token_le t t.
Proof. by left. Qed.
Lemma token_le_trans t1 t2 t3 : token_le t1 t2 -> token_le t2 t3 -> token_le t1 t3.
Proof.
  intros [->|(r & -> & ->)] H; [done|]. right. exists r. split; [done|]. by destruct H as [->|(r' & [=] & _)].
Qed.
Lemma token_le_sure r t : token_le (Some (r, true)) t -> t = Some (r, true).
Proof. by intros [->|(r' & [=] & _)]. Qed.
Lemma token_le_some r b t : token_le (Some (r, b)) t -> exists b', t = Some (r, b').
Proof. intros [->|(r' & [= -> ->] & ->)]; eauto. Qed.
#[local] Hint Resolve token_le_refl : core.
(** Up to what was seen under the mutex or found open or closed. *)
Definition like (g g' : Ghost) : Prop :=
  g_held g' = g_held g /\ g_credits g' = g_credits g /\ token_le (g_token g) (g_token g') /\ g_new g' = g_new g
  /\ g_closing g' = g_closing g.
Lemma like_refl g : like g g.
Proof. by unfold like. Qed.
Lemma like_trans g1 g2 g3 : like g1 g2 -> like g2 g3 -> like g1 g3.
Proof. intros (? & ? & ? & ? & ?) (? & ? & ? & ? & ?). split_and!; [congruence..|by eapply token_le_trans|congruence|congruence]. Qed.
#[local] Hint Resolve like_refl : core.

(** From a ghost with [pre], it keeps the ghost and returns something with [F]. *)
Definition keeps_if (pre : Ghost -> Prop) {A} (p : P A) (F : A -> Prop) : Prop :=
  forall g, pre g -> safely p (fun g' a => like g g' /\ F a) g.
Local Abbreviation keeps p F := (keeps_if (fun _ => True) p F).
Local Abbreviation any := (fun _ => True).
(** The mutex is not held, and no dial is unaccounted for. *)
Definition free (g : Ghost) : Prop := g_held g = None /\ 0 <= g_credits g.
Definition stable (pre : Ghost -> Prop) : Prop := forall g g', like g g' -> pre g -> pre g'.
Lemma free_stable : stable free.
Proof. intros g g' (E1 & E2 & _) [? ?]. unfold free. by rewrite E1, E2. Qed.
Lemma calm_stable : stable calm.
Proof. intros g g' (E1 & _ & _ & _ & E2) Hg. unfold calm. by rewrite E1, E2. Qed.
Lemma true_stable : stable (fun _ => True).
Proof. done. Qed.

Lemma keeping_ret pre {A} (a : A) (F : A -> Prop) : F a -> keeps_if pre (Ret a) F.
Proof. intros Ha g _. by split. Qed.
Lemma keeping_bind pre {A B} (m : P A) (k : A -> P B) F F' :
  stable pre -> keeps_if pre m F -> (forall a, F a -> keeps_if pre (k a) F') -> keeps_if pre (p_bind m k) F'.
Proof.
  intros Hst Hm Hk g Hg. apply safely_bind. eapply safely_mono; [by apply Hm|]. intros g1 a [H1 Ha].
  eapply safely_mono; [apply (Hk a Ha); by eapply Hst|]. intros g2 b [H2 Hb]. split; [by eapply like_trans|done].
Qed.
Lemma keeps_weaken pre {A} (p : P A) (F F' : A -> Prop) :
  keeps_if pre p F -> (forall a, F a -> F' a) -> keeps_if pre p F'.
Proof. intros Hp HF g Hg. eapply safely_mono; [by apply Hp|]. intros g' a [? ?]. split; [done|by apply HF]. Qed.
Lemma keeps_any pre {A} (p : P A) F : keeps p F -> keeps_if pre p F.
Proof. intros Hp g _. by apply Hp. Qed.
Lemma keeps_fold pre {S X} (f : S -> X -> P S) (I : S -> Prop) l s :
  stable pre -> (forall s x, x ∈ l -> I s -> keeps_if pre (f s x) I) -> I s -> keeps_if pre (p_fold f l s) I.
Proof.
  intros Hst. revert s. induction l as [|x l IH]; intros s Hf Hs; simpl; [by apply keeping_ret|].
  eapply keeping_bind; [done|apply Hf; [left|done]|]. intros s' Hs'. apply IH; [|done]. intros s'' y Hy. apply Hf. by right.
Qed.
(** Use of the programs that keep the ghost. *)
Lemma use_keeps pre {A} (p : P A) F (Q : Ghost -> A -> Prop) g :
  keeps_if pre p F -> pre g -> (forall g' a, like g g' -> F a -> Q g' a) -> safely p Q g.
Proof. intros Hp Hg HQ. eapply safely_mono; [by apply Hp|]. intros g' a [? ?]. by apply HQ. Qed.
Lemma then_keeps pre {A B} (p : P A) (k : A -> P B) F Q g :
  keeps_if pre p F -> pre g -> (forall g' a, like g g' -> F a -> safely (k a) Q g') -> safely (p_bind p k) Q g.
Proof. intros Hp Hg HQ. apply safely_bind. by eapply use_keeps. Qed.

Lemma keeps_cell {B} r (f : Cell -> B) : keeps (op (OCell r f)) any.
Proof. by intros g _ b. Qed.
Lemma keeps_closed r : keeps (op (OClosed r)) any.
Proof.
  intros g _. split; [by split|]. case_bool_decide as E; [|by split].
  split; [|done]. split; [done|]. split; [done|]. split; [|done]. right. exists r. by split.
Qed.
Lemma keeps_clock : keeps (op ONow) any.
Proof. by intros g _ b. Qed.
Lemma keeps_order : keeps (op OOrder) any.
Proof. by intros g _ b. Qed.
Lemma keeps_ctx : keeps (op OCtxErr) any.
Proof. by intros g _ b. Qed.
Lemma keeps_io r : keeps_if free (op (OIO r)) any.
Proof. intros g [Hg _]. split; [done|]. by intros b. Qed.
Lemma keeps_handshake r : keeps_if calm (op (OHandshake r)) any.
Proof. by intros g Hg. Qed.
Lemma keeps_shut r : keeps (op (OShut r)) any.
Proof. by intros g _. Qed.
Lemma keeps_await_shut r : keeps_if calm (op (OAwaitShut r)) any.
Proof. by intros g Hg. Qed.
Lemma keeps_channel : keeps (op OChannel) any.
Proof. by intros g _ b. Qed.
Lemma keeps_signal : keeps (op OSignal) any.
Proof. by intros g _. Qed.
Lemma keeps_touch r n : keeps (op (OTouch r n)) any.
Proof. by intros g _. Qed.
Lemma keeps_drain r : keeps (op (ODrain r)) any.
Proof. by intros g _ b. Qed.
Lemma keeps_pending r : keeps (op (OPending r)) any.
Proof. by intros g _. Qed.
Lemma keeps_unusable r : keeps (op (OUnusable r)) any.
Proof. by intros g _. Qed.
Lemma keeps_waiters r : keeps (op (OWaiters r)) any.
Proof. intros g _ n. split; [|done]. by destruct (_ && _). Qed.
Lemma keeps_leave_queue r : keeps (op (OAddWaiters r (-1))) any.
Proof. intros g _. left. by split. Qed.
Lemma keeps_released l : keeps_if free (op (OReleased l)) any.
Proof. intros g [Hg _]. split; [done|]. by intros b. Qed.
Lemma keeps_lease_conn l : keeps_if free (op (OLeaseConn l)) any.
Proof. intros g [Hg _]. split; [done|]. by intros c. Qed.
Lemma keeps_await_change ch t : keeps_if free (op (OAwaitChange ch t)) any.
Proof. intros g [Hg _]. split; [done|]. by intros b. Qed.

Create HintDb keeps.
#[local] Hint Resolve keeps_cell keeps_closed keeps_clock keeps_order keeps_ctx keeps_io keeps_channel keeps_signal keeps_touch
  keeps_drain keeps_pending keeps_unusable keeps_waiters keeps_leave_queue keeps_released keeps_lease_conn
  keeps_await_change keeps_handshake keeps_shut keeps_await_shut free_stable calm_stable true_stable : keeps.
#[local] Hint Extern 1 (keeps_if free _ _) => apply keeps_any : keeps.
#[local] Hint Extern 1 (keeps_if calm _ _) => apply keeps_any : keeps.
(** Through a program that only looks, with no claim on its result. *)
Ltac keep :=
  repeat match goal with
  | |- keeps_if _ (p_bind _ _) _ => eapply keeping_bind; [solve [eauto with keeps]| |intros ? ?]
  | |- keeps_if _ (Ret _) _ => by apply keeping_ret
  | |- keeps_if _ (if ?b then _ else _) _ => destruct b
  | |- keeps_if _ (match ?x with _ => _ end) _ => destruct x
  | |- keeps_if _ (p_fold _ _ _) any => apply keeps_fold; [solve [eauto with keeps]|intros ? ? _ _|done]
  | |- keeps_if _ _ _ => solve [eauto with keeps]
  end.

(** Closing a connection: never under the mutex, but for [Close]. *)
Lemma keeps_close_with force c : keeps_if calm (closeWith force c) any.
Proof.
  intros g Hg. split; [by apply keeps_await_shut|].
  change (safely ((if c_closeNow c && force then Ret tt else op (OHandshake (c_ref c))) ;!
                  op (OPut (c_ref c)) ;! op (OShut (c_ref c))) (fun g' a => like g g' /\ any a) (g <| g_closed := Some (c_ref c) |>)).
  destruct (_ && _); [|split; [exact Hg|]]; by right.
Qed.
Lemma keeps_close c : keeps_if calm (close c) any.
Proof. apply keeps_close_with. Qed.
Lemma calm_free {A} (p : P A) F : keeps_if calm p F -> keeps_if free p F.
Proof. intros Hp g [Hg _]. apply Hp. by left. Qed.
Lemma keeps_close_free c : keeps_if free (close c) any.
Proof. apply calm_free, keeps_close. Qed.
Lemma keeps_abort_free c : keeps_if free (abort c) any.
Proof. apply calm_free, keeps_close_with. Qed.
#[local] Hint Resolve keeps_close keeps_close_free keeps_abort_free : keeps.
Lemma keeps_closes l : keeps_if free (closeOpenAIWSConns l) any.
Proof. unfold closeOpenAIWSConns. keep. Qed.
Lemma keeps_last_used c : keeps (lastUsedAt c) any.
Proof. apply keeps_cell. Qed.
Lemma keeps_idle c now : keeps (idleDuration c now) any.
Proof. unfold idleDuration, lastUsedAt. keep. Qed.
Lemma keeps_age c now : keeps (age c now) any.
Proof. unfold age, createdAt. keep. Qed.
Lemma keeps_ping c : keeps_if free (pingWithTimeout c) any.
Proof. unfold pingWithTimeout, isClosed. keep. Qed.
Lemma keeps_dead c : keeps (is_dead c) any.
Proof. unfold is_dead, isClosed, isUnusable. keep. Qed.
#[local] Hint Resolve keeps_closes keeps_last_used keeps_idle keeps_age keeps_ping keeps_dead : keeps.
Lemma keeps_check c : keeps (shouldHealthCheckConn c) any.
Proof. unfold shouldHealthCheckConn. keep. Qed.
Lemma keeps_touch_conn c : keeps (touch c) any.
Proof. unfold touch. keep. Qed.
Lemma keeps_pinned ap id : keeps (isConnPinnedLocked ap id) any.
Proof. unfold isConnPinnedLocked. keep. Qed.
Lemma keeps_signal_if b : keeps (signal_if b) any.
Proof. unfold signal_if, signalChangedLocked. keep. Qed.
#[local] Hint Resolve keeps_check keeps_touch_conn keeps_pinned keeps_signal_if : keeps.
Lemma keeps_idle_unpinned ap c : keeps (idle_unpinned ap c) any.
Proof. unfold idle_unpinned, isLeased. keep. Qed.
Lemma keeps_idle_waiterless c : keeps (idle_waiterless c) any.
Proof. unfold idle_waiterless, isLeased. keep. Qed.
Lemma keeps_recyclable c now : keeps (recyclable c now) any.
Proof. unfold recyclable, isLeased. keep. Qed.
Lemma keeps_too_old c now : keeps (too_old c now) any.
Proof. unfold too_old, isLeased. keep. Qed.
#[local] Hint Resolve keeps_idle_unpinned keeps_idle_waiterless keeps_recyclable keeps_too_old : keeps.

(** ** Picking *)

Definition in_pool (ap : AccountPool) (c : Conn) : Prop := exists id, conns ap !! id = Some c.
Lemma keeps_ranged ap : keeps (ranged ap) (fun l => forall c, c ∈ l -> in_pool ap c).
Proof.
  unfold ranged. eapply keeping_bind; [done|apply keeps_order|]. intros order _. apply keeping_ret.
  intros c [id [_ Hid]]%list_elem_of_omap. by exists id.
Qed.
Lemma keeps_older o c (G : Conn -> Prop) :
  (forall c', o = Some c' -> G c') -> G c -> keeps (older o c) (fun r => forall c', r = Some c' -> G c').
Proof.
  intros Ho Hc. unfold older. destruct o as [o|]; [|apply keeping_ret; by intros c' [= <-]].
  eapply keeping_bind; [done|apply keeps_last_used|]. intros used _.
  eapply keeping_bind; [done|apply keeps_last_used|]. intros used' _. apply keeping_ret.
  destruct (used <? used'); intros c' [= <-]; [done|by apply Ho].
Qed.
Lemma keeps_pick_oldest ap P_ : keeps (pick_oldest ap P_) (fun r => forall c, r = Some c -> in_pool ap c).
Proof.
  unfold pick_oldest. eapply keeping_bind; [done|apply keeps_ranged|]. intros l Hl. apply keeps_fold; [done| |done].
  intros o c Hc Ho. destruct (negb (P_ c)); [by apply keeping_ret|].
  eapply keeping_bind; [done|apply keeps_idle_unpinned|]. intros [] _; [|by apply keeping_ret].
  apply keeps_older; [done|by apply Hl].
Qed.
Definition picked (ap : AccountPool) (P_ : Conn -> bool) (r : option Conn) : Prop :=
  forall c, r = Some c -> in_pool ap c /\ P_ c = true.
Lemma keeps_least_busy ap P_ : keeps (least_busy ap P_) (picked ap P_).
Proof.
  unfold least_busy. eapply keeping_bind; [done|apply keeps_ranged|]. intros l Hl.
  eapply keeping_bind with (F := fun b : option (Conn * Z * Time) => forall x, b = Some x -> in_pool ap x.1.1 /\ P_ x.1.1 = true).
  { done. }
  - apply keeps_fold; [done| |done]. intros b c Hc Hb. destruct (P_ c) eqn:Hp; cbn [negb]; [|by apply keeping_ret].
    eapply keeping_bind; [done|apply keeps_waiters|]. intros n _.
    eapply keeping_bind; [done|apply keeps_last_used|]. intros t _. apply keeping_ret.
    assert (Hnew : forall x, Some (c, n, t) = Some x -> in_pool ap x.1.1 /\ P_ x.1.1 = true) by (intros x [= <-]; split; [by apply Hl|done]).
    destruct b as [[[b bw] bt]|]; [|done]. by destruct (_ || _).
  - intros b Hb. apply keeping_ret. intros c Hc. destruct b as [x|]; [|done]. injection Hc as <-. by apply Hb.
Qed.
Lemma keeps_pick_busy ap id k m : keeps (pickLeastBusyConnLocked ap id k m) (picked ap (suits k m)).
Proof.
  unfold pickLeastBusyConnLocked. destruct (if TrimSpace id =?s "" then None else conns ap !! TrimSpace id) as [c|] eqn:E;
    [|apply keeps_least_busy].
  destruct (suits k m c) eqn:Hs; [|apply keeps_least_busy]. apply keeping_ret. intros c' [= <-].
  split; [|done]. exists (TrimSpace id). by destruct (_ =?s _).
Qed.
Lemma keeps_pick_affine ap k a m : keeps (pickLeastBusyConnWithRoutingAffinityLocked ap k a m) (picked ap (suits k m)).
Proof.
  eapply keeps_weaken; [apply keeps_least_busy|]. intros r Hr c Hc. destruct (Hr c Hc) as [? [? _]%andb_prop]. done.
Qed.
Lemma keeps_has_pinned ap : keeps (hasPinnedIdleConnLocked ap) any.
Proof.
  unfold hasPinnedIdleConnLocked, isLeased. eapply keeping_bind; [done|apply keeps_ranged|]. intros l _. keep.
Qed.
Lemma keeps_load ap : keeps (accountPoolLoadLocked ap) any.
Proof.
  unfold accountPoolLoadLocked, isLeased. eapply keeping_bind; [done|apply keeps_ranged|]. intros l _. keep.
Qed.

(** ** Pools that only lose connections *)

Definition shrunk (ap0 ap : AccountPool) : Prop :=
  conns ap ⊆ conns ap0 /\ creating ap = creating ap0 /\ generation ap = generation ap0.
Lemma shrunk_refl ap : shrunk ap ap.
Proof. done. Qed.
Lemma shrunk_trans ap1 ap2 ap3 : shrunk ap1 ap2 -> shrunk ap2 ap3 -> shrunk ap1 ap3.
Proof. intros (? & ? & ?) (? & ? & ?). split_and!; [by etrans|congruence..]. Qed.
Lemma shrunk_forget ap0 ap c : shrunk ap0 ap -> shrunk ap0 (forget ap c).
Proof. intros (? & ? & ?). split_and!; [|done..]. simpl. etrans; [apply delete_subseteq|done]. Qed.
Lemma shrunk_remove ap0 ap id : shrunk ap0 ap -> shrunk ap0 (removeOpenAIWSConnPinsLocked ap id).1.
Proof. intros ?. unfold removeOpenAIWSConnPinsLocked. by destruct (_ =?s _). Qed.
Lemma shrunk_expired ap0 ap now : shrunk ap0 ap -> shrunk ap0 (cleanupExpiredTimedResponsePinsLocked ap now).1.
Proof. done. Qed.
Lemma shrunk_in ap0 ap c : shrunk ap0 ap -> in_pool ap c -> in_pool ap0 c.
Proof. intros (Hs & _) [id Hid]. exists id. by eapply lookup_weaken. Qed.
Lemma shrunk_size ap0 ap : shrunk ap0 ap -> (size (conns ap) <= size (conns ap0))%nat.
Proof. intros (Hs & _). by apply map_subseteq_size. Qed.
Lemma shrunk_within ap0 ap : shrunk ap0 ap -> within ap0 -> within ap.
Proof.
  intros Hs. pose proof (shrunk_size _ _ Hs). destruct Hs as (_ & E & _). unfold WSPoolProofs.within. rewrite E. lia.
Qed.
Lemma shrunk_heir g ap0 ap : shrunk ap0 ap -> heir g ap0 ap.
Proof. intros (Hs & _ & Hg) id c Hid. left. split; [by eapply lookup_weaken|done]. Qed.

Lemma shrunk_drop ap0 c ap ev ch : shrunk ap0 ap -> shrunk ap0 (drop c (ap, ev, ch)).1.1.
Proof.
  intros Hs. unfold drop. pose proof (shrunk_remove ap0 (forget ap c) (c_id c) (shrunk_forget _ _ c Hs)) as H.
  by destruct (removeOpenAIWSConnPinsLocked _ _).
Qed.
Lemma keeps_sweep now ap0 s c : shrunk ap0 s.1.1 -> keeps (sweep_conn now s c) (fun s => shrunk ap0 s.1.1).
Proof.
  destruct s as [[ap ev] ch]. intros Hs. unfold sweep_conn.
  eapply keeping_bind; [done|apply keeps_dead|]. intros [] _; [by apply keeping_ret, shrunk_drop|].
  eapply keeping_bind; [done|apply keeps_pinned|]. intros [] _; [by apply keeping_ret|].
  eapply keeping_bind; [done|apply keeps_recyclable|]. intros [] _; [by apply keeping_ret, shrunk_forget|].
  eapply keeping_bind; [done|apply keeps_too_old|]. intros [] _; apply keeping_ret; [by apply shrunk_drop|done].
Qed.
Lemma keeps_idle_conns ap : keeps (idle_conns ap) any.
Proof.
  unfold idle_conns. eapply keeping_bind; [done|apply keeps_ranged|]. intros l _.
  eapply keeping_bind with (F := any); [done| |intros ? _; by apply keeping_ret]. keep.
Qed.
Lemma shrunk_drops ap0 l s : shrunk ap0 s.1.1 -> shrunk ap0 (fold_left (fun s c => drop c s) l s).1.1.
Proof.
  revert s. induction l as [|c l IH]; intros [[ap ev] ch] Hs; simpl; [done|]. apply IH. by apply shrunk_drop.
Qed.
Lemma keeps_cleanup ap0 ap now n :
  shrunk ap0 ap -> keeps (cleanupAccountLocked cfg ap now n) (fun r => shrunk ap0 r.1).
Proof.
  intros Hs. unfold cleanupAccountLocked.
  pose proof (shrunk_expired ap0 ap now Hs) as Hs1.
  destruct (cleanupExpiredTimedResponsePinsLocked ap now) as [ap1 ch]. simpl in Hs1.
  eapply keeping_bind; [done|apply keeps_ranged|]. intros l _.
  eapply keeping_bind with (F := fun s : Sweep => shrunk ap0 s.1.1); [done| |].
  { apply keeps_fold; [done| |done]. intros s c _. apply keeps_sweep. }
  intros [[ap2 ev] ch2] Hs2.
  eapply keeping_bind with (F := fun s : Sweep => shrunk ap0 s.1.1); [done| |].
  { destruct (_ <? Z.of_nat _); [|by apply keeping_ret].
    eapply keeping_bind; [done|apply keeps_idle_conns|]. intros idle _. by apply keeping_ret, shrunk_drops. }
  intros [[ap3 ev3] ch3] Hs3. eapply keeping_bind; [done|apply keeps_signal_if|]. intros _ _. by apply keeping_ret.
Qed.
Lemma keeps_drop_dead ap0 ap c ev :
  shrunk ap0 ap -> keeps (dropDeadConnLocked ap c ev) (fun r => shrunk ap0 r.1.1).
Proof.
  intros Hs. unfold dropDeadConnLocked. eapply keeping_bind; [done|apply keeps_dead|]. intros dead _.
  destruct (_ && _); [|by apply keeping_ret]. eapply keeping_bind; [done|apply keeps_signal|]. intros _ _.
  by apply keeping_ret, shrunk_forget.
Qed.
Lemma keeps_make_room ap0 fuel limit ap ev :
  shrunk ap0 ap -> keeps (make_room fuel limit ap ev) (fun r => shrunk ap0 r.1).
Proof.
  revert ap ev. induction fuel as [|fuel IH]; intros ap ev Hs; cbn [make_room]; [by apply keeping_ret|].
  destruct (negb _); [by apply keeping_ret|]. eapply keeping_bind; [done|apply keeps_pick_oldest|].
  intros [c|] _; [|by apply keeping_ret]. apply IH. by apply shrunk_remove, shrunk_forget.
Qed.

(** ** Sections under the mutex *)

Definition fair (ap0 ap : AccountPool) : Prop :=
  (size (conns ap) <= size (conns ap0))%nat /\ creating ap = creating ap0 /\ forall g, heir g ap0 ap.
Lemma shrunk_fair ap0 ap : shrunk ap0 ap -> fair ap0 ap.
Proof.
  intros Hs. split_and!; [by apply shrunk_size|apply Hs|]. intros g. by apply shrunk_heir.
Qed.
Lemma cleared_fair ap0 ap : conns ap = ∅ -> creating ap = creating ap0 -> fair ap0 ap.
Proof. intros Hc Hn. unfold fair, heir. rewrite Hc. split_and!; [rewrite map_size_empty; lia|done|]. by intros g id c. Qed.

(** A ghost like [g], but for the mutex. *)
Definition inside (ap0 : AccountPool) (g g' : Ghost) : Prop := like (g <| g_held := Some ap0 |>) g'.
Lemma inside_like ap0 g g1 g2 : inside ap0 g g1 -> like g1 g2 -> inside ap0 g g2.
Proof. apply like_trans. Qed.

Lemma enter {A} (k : AccountPool -> P A) Q g :
  free g -> (forall ap0 g', within ap0 -> all_labelled ap0 -> g_credits g <= creating ap0 -> inside ap0 g g' -> safely (k ap0) Q g') ->
  safely (p_bind Lock k) Q g.
Proof. intros [Hh _] Hk. split; [done|]. intros ap Hw Hl Hc. apply Hk; [done..|apply like_refl]. Qed.
Lemma unlock {A} ap0 ap (k : P A) Q g g' :
  free g -> inside ap0 g g' -> within ap -> 0 <= g_credits g + (creating ap - creating ap0) -> heir g' ap0 ap ->
  (forall g2, g_held g2 = None -> g_credits g2 = g_credits g + (creating ap - creating ap0) ->
     token_le (g_token g) (g_token g2) -> g_new g2 = g_new g -> g_closing g2 = g_closing g -> safely k Q g2) ->
  safely (Unlock ap ;! k) Q g'.
Proof.
  intros [Hh Hc] (E1 & E2 & E3 & E4 & E5) Hw Hpos Hheir Hk. exists ap0. simpl in *. rewrite E2. split_and!; [done..|].
  apply Hk; done.
Qed.
Lemma leave_fair {A} ap0 ap (k : P A) Q g g' :
  free g -> inside ap0 g g' -> within ap0 -> fair ap0 ap -> (forall g2, like g g2 -> safely k Q g2) ->
  safely (Unlock ap ;! k) Q g'.
Proof.
  intros Hf Hin Hw (Hs & Hc & Hh) Hk. eapply unlock; [done..| | |done|].
  - unfold WSPoolProofs.within in *. rewrite Hc. lia.
  - rewrite Hc. destruct Hf. lia.
  - intros g2 E1 E2 E3 E4 E5. apply Hk. rewrite Hc in E2. destruct Hf as [Hf _]. split_and!; [congruence|lia|done..].
Qed.

(** A whole section: it keeps the ghost of a goroutine without the mutex. *)
Lemma keeps_section {A} (k : AccountPool -> P A) F :
  (forall ap0 g g', free g -> within ap0 -> inside ap0 g g' -> safely (k ap0) (fun g2 a => like g g2 /\ F a) g') ->
  keeps_if free (p_bind Lock k) F.
Proof. intros Hk g Hg. apply enter; [done|]. intros ap0 g' Hw _ _ Hin. by apply Hk. Qed.
Lemma end_section {A} ap0 ap (k : P A) (F : A -> Prop) g g' :
  free g -> inside ap0 g g' -> within ap0 -> fair ap0 ap -> keeps_if free k F ->
  safely (Unlock ap ;! k) (fun g2 a => like g g2 /\ F a) g'.
Proof.
  intros Hf Hin Hw Hfair Hk. eapply leave_fair; [done..|]. intros g2 H2.
  eapply safely_mono; [apply Hk; by eapply free_stable|]. intros g3 a [H3 Ha]. split; [by eapply like_trans|done].
Qed.
Lemma end_here ap0 ap (F : () -> Prop) g g' :
  free g -> inside ap0 g g' -> within ap0 -> fair ap0 ap -> F tt ->
  safely (Unlock ap) (fun g2 a => like g g2 /\ F a) g'.
Proof.
  intros Hf Hin Hw Hfair HF. assert (H : safely (Unlock ap ;! Ret tt) (fun g2 a => like g g2 /\ F a) g').
  { eapply end_section; [done..|]. by apply keeping_ret. }
  exact H.
Qed.
(** Looking, under the mutex. *)
Lemma look {A B} ap0 (p : P A) (k : A -> P B) F Q g g' :
  keeps p F -> inside ap0 g g' -> (forall a g2, F a -> inside ap0 g g2 -> safely (k a) Q g2) -> safely (p_bind p k) Q g'.
Proof.
  intros Hp Hin Hk. eapply then_keeps; [exact Hp|done|]. intros g2 a Hl Ha. apply Hk; [done|by eapply inside_like].
Qed.
Ltac fair := apply shrunk_fair; split_and!; simpl; try done; try apply delete_subseteq.

Lemma keeps_evict_conn id : keeps_if free (evictConn id) any.
Proof.
  unfold evictConn. destruct (_ =?s _); [by apply keeping_ret|]. apply keeps_section. intros ap0 g g' Hf Hw Hin.
  assert (Hs : shrunk ap0 ((removeOpenAIWSConnPinsLocked ap0 id).1 <| conns := delete id (conns (removeOpenAIWSConnPinsLocked ap0 id).1) |>)).
  { unfold removeOpenAIWSConnPinsLocked. destruct (_ =?s _); split_and!; try done; apply delete_subseteq. }
  destruct (removeOpenAIWSConnPinsLocked ap0 id) as [ap removed]. simpl in Hs.
  eapply look; [apply keeps_signal_if|done|]. intros _ g2 _ Hin2.
  eapply end_section; [done..|by apply shrunk_fair|]. destruct (conns ap0 !! id); keep.
Qed.
Lemma keeps_notify : keeps_if free notifyAccountPoolChanged any.
Proof.
  apply keeps_section. intros ap0 g g' Hf Hw Hin. eapply look; [apply keeps_signal|done|]. intros _ g2 _ Hin2.
  eapply end_here; [done..| |done]. fair.
Qed.
Lemma keeps_clear : keeps_if free ClearAccount any.
Proof.
  apply keeps_section. intros ap0 g g' Hf Hw Hin. eapply look; [apply keeps_ranged|done|]. intros l g2 _ Hin2.
  eapply look; [apply keeps_signal|done|]. intros _ g3 _ Hin3. eapply end_section; [done..|by apply cleared_fair|]. keep.
Qed.
Lemma keeps_close_pool : keeps_if (fun g => free g /\ g_closing g = true) Close any.
Proof.
  intros g [Hf Hc]. apply enter; [done|]. intros ap0 g' Hw _ _ Hin.
  eapply look; [apply keeps_ranged|done|]. intros l g2 _ Hin2.
  eapply then_keeps with (pre := calm) (F := any); [unfold isLeased; keep| |].
  - right. destruct Hin2 as (_ & _ & _ & _ & E). by rewrite E.
  - intros g3 _ H3 _. eapply end_here; [exact Hf|by eapply inside_like|done| |done]. fair.
Qed.
Lemma keeps_pin id : keeps_if free (PinConn id) any.
Proof.
  unfold PinConn. destruct (_ =?s _); [by apply keeping_ret|]. apply keeps_section. intros ap0 g g' Hf Hw Hin.
  destruct (conns ap0 !! _); (eapply end_section; [done..| |by apply keeping_ret]); fair.
Qed.
Lemma keeps_pin_response r id ttl : keeps_if free (PinResponseConn r id ttl) any.
Proof.
  unfold PinResponseConn. destruct (_ || _); [by apply keeping_ret|].
  eapply keeping_bind; [apply free_stable|apply keeps_any, keeps_clock|]. intros now _.
  apply keeps_section. intros ap0 g g' Hf Hw Hin.
  destruct (conns ap0 !! _) as [c|]; [|eapply end_section; [done..| |by apply keeping_ret]; fair].
  eapply look; [apply keeps_closed|done|]. intros closed g2 _ Hin2.
  destruct closed; (eapply end_section; [done..| |by apply keeping_ret]); fair.
Qed.
Lemma keeps_unpin id : keeps_if free (UnpinConn id) any.
Proof.
  unfold UnpinConn. destruct (_ =?s _); [by apply keeping_ret|]. apply keeps_section. intros ap0 g g' Hf Hw Hin.
  destruct (bool_decide _); [eapply end_here; [done..| |done]; fair|].
  eapply look; [apply keeps_signal|done|]. intros _ g2 _ Hin2. eapply end_here; [done..| |done]. fair.
Qed.
Lemma keeps_pool_load : keeps_if free AccountPoolLoad any.
Proof.
  apply keeps_section. intros ap0 g g' Hf Hw Hin. eapply look; [apply keeps_load|done|]. intros load g2 _ Hin2.
  eapply end_section; [done..| |by apply keeping_ret]. fair.
Qed.
Lemma keeps_record gen req : keeps_if free (recordLastSuccessfulAcquire gen req) any.
Proof.
  apply keeps_section. intros ap0 g g' Hf Hw Hin. eapply end_here; [done..| |done]. destruct (_ =? _); fair.
Qed.
#[local] Hint Resolve keeps_evict_conn keeps_notify keeps_record : keeps.

(** Prewarming starts a goroutine that takes over the new credits. *)
Lemma target_bound ap n : keeps (targetConnCountLocked cfg ap n) (fun target => target <= Z.max 0 n).
Proof.
  unfold targetConnCountLocked. destruct (Z.leb_spec n 0); [apply keeping_ret; lia|].
  eapply keeping_bind; [done|apply keeps_load|]. intros [inflight waiters] _. cbn beta iota zeta.
  destruct (_ <=? 0); [apply keeping_ret; destruct (Z.ltb_spec n (minIdlePerAccount cfg)); lia|]. apply keeping_ret.
  match goal with |- (if n <? ?t then _ else _) <= _ => destruct (Z.ltb_spec n t); lia end.
Qed.
Lemma effective_bound account : effectiveMaxConnsByAccount cfg account <= maxConnsHardCap cfg.
Proof.
  assert (H : 0 < maxConnsHardCap cfg) by (unfold maxConnsHardCap; destruct (Z.ltb_spec 0 (MaxConnsPerAccount cfg)); lia).
  unfold effectiveMaxConnsByAccount. destruct (_ && _); [lia|]. destruct (negb _); [lia|]. destruct (_ <=? 0); [lia|].
  match goal with |- (if _ <? ?t then _ else _) <= _ => destruct (Z.ltb_spec (maxConnsHardCap cfg) t); lia end.
Qed.
Lemma hard_cap_pos : 0 < maxConnsHardCap cfg.
Proof. unfold maxConnsHardCap. destruct (Z.ltb_spec 0 (MaxConnsPerAccount cfg)); lia. Qed.

Lemma keeps_ensure : keeps_if free (ensureTargetIdleAsync cfg) any.
Proof.
  apply keeps_section. intros ap0 g g' Hf Hw Hin.
  destruct (lastAcquire ap0) as [last|]; [|eapply end_here; [done..| |done]; fair].
  destruct (prewarmActive ap0); [eapply end_here; [done..| |done]; fair|].
  eapply look; [apply keeps_clock|done|]. intros now g2 _ Hin2.
  destruct (_ && _); [eapply end_here; [done..| |done]; fair|].
  assert (Hs : shrunk ap0 (shouldSuppressPrewarmLocked ap0 now).1).
  { unfold shouldSuppressPrewarmLocked. by repeat case_match. }
  destruct (shouldSuppressPrewarmLocked ap0 now) as [ap suppressed]. simpl in Hs.
  destruct suppressed; [eapply end_here; [done..|by apply shrunk_fair|done]|].
  set (limit := match req_Account last with Some account => _ | None => _ end).
  assert (Hl : limit <= maxConnsHardCap cfg).
  { subst limit. destruct (req_Account last); [apply effective_bound|lia]. }
  eapply look; [apply target_bound|done|]. intros target g3 Ht Hin3. cbv beta zeta in Ht |- *.
  destruct (Z.leb_spec (target - (Z.of_nat (size (conns ap)) + creating ap)) 0);
    [eapply end_here; [done..|by apply shrunk_fair|done]|].
  destruct Hin3 as (E1 & E2 & E3 & E4 & E5). split; [left; by rewrite E1|].
  destruct Hs as (Hs1 & Hs2 & Hs3). pose proof hard_cap_pos. simpl in E2.
  exists ap0. simpl. rewrite E2. split_and!; try done.
  - unfold WSPoolProofs.within. simpl. lia.
  - destruct Hf. lia.
  - intros id c Hid. left. split; [by eapply lookup_weaken|done].
  - destruct Hf as [Hf _]. unfold like. simpl. split_and!; [congruence|lia|done..].
Qed.
#[local] Hint Resolve keeps_ensure : keeps.

(** ** Lease tokens *)

Definition with_token (tk : option (Z * bool)) (g : Ghost) : Ghost := g <| g_token := tk |>.
Lemma like_token g g1 g2 tk : like g g1 -> like (with_token tk g1) g2 -> like (with_token tk g) g2.
Proof. intros (E1 & E2 & E3 & E4 & E5) (F1 & F2 & F3 & F4 & F5). simpl in *. split_and!; simpl; congruence || done. Qed.
Lemma inside_token ap0 g g1 g2 tk : inside ap0 g g1 -> like (with_token tk g1) g2 -> inside ap0 (with_token tk g) g2.
Proof. intros (E1 & E2 & E3 & E4 & E5) (F1 & F2 & F3 & F4 & F5). simpl in *. split_and!; simpl; congruence || done. Qed.
Lemma free_token g tk : free g -> free (with_token tk g).
Proof. done. Qed.
Lemma with_token_same g : like (with_token (g_token g) g) g.
Proof. done. Qed.

Lemma like_held_token g g' r b :
  like g g' -> g_token g = Some (r, b) -> exists b', g_token g' = Some (r, b').
Proof. intros (_ & _ & E & _) Ht. rewrite Ht in E. by apply token_le_some in E. Qed.
Lemma like_sure g g' r : like g g' -> g_token g = Some (r, true) -> g_token g' = Some (r, true).
Proof. intros (_ & _ & E & _) Ht. rewrite Ht in E. by apply token_le_sure. Qed.
Lemma release_ok c g b :
  g_token g = Some (c_ref c, b) -> safely (release c) (fun g' _ => like (with_token None g) g') g.
Proof.
  intros Hg. left. split; [by exists b|]. eapply (safely_mono (touch c)); [by apply keeps_touch_conn|]. by intros g' a [? _].
Qed.
(** What trying for a token leaves: the token, if it was got, of a connection that was open. *)
Definition tried (c : Conn) (g g' : Ghost) (got : bool) : Prop :=
  exists tk, like (with_token tk g) g' /\ (got = true -> tk = Some (c_ref c, true)).
Lemma usable_ok c g b :
  g_token g = Some (c_ref c, b) -> safely (leaseTokenUsable c) (fun g' b => tried c g g' b) g.
Proof.
  intros Hg. unfold leaseTokenUsable. apply safely_bind. split.
  - apply safely_bind. eapply safely_mono; [by eapply release_ok|]. intros g2 [] H2. by exists None.
  - set (g1 := if bool_decide _ then _ else g).
    assert (H : forall g2 b, like g1 g2 -> tried c g g2 b).
    { intros g2 b' H2. exists (Some (c_ref c, true)). split; [|done]. subst g1.
      destruct b; rewrite Hg in H2; simpl in H2.
      - rewrite bool_decide_false in H2 by congruence. unfold like in *. rewrite Hg in H2. exact H2.
      - rewrite bool_decide_true in H2 by done. exact H2. }
    eapply then_keeps with (F := any); [unfold readerLoopPending; keep|done|]. intros g2 [] H2 _; [|by apply H].
    eapply then_keeps; [apply keeps_drain|done|]. intros g3 _ H3 _.
    eapply then_keeps; [apply keeps_unusable|done|]. intros g4 _ H4 _. apply H.
    eapply like_trans; [exact H2|]. by eapply like_trans.
Qed.
Lemma try_ok c g : safely (tryAcquire c) (fun g' b => tried c g g' b) g.
Proof.
  unfold tryAcquire. eapply then_keeps; [apply keeps_closed|done|]. intros g1 [] H1 _.
  { exists (g_token g). by split. }
  split; [exists (g_token g); by split|]. eapply safely_mono; [by eapply usable_ok|].
  intros g2 b (tk & H2 & Hb). exists tk. split; [|done]. eapply like_trans; [|exact H2].
  destruct H1 as (E1 & E2 & E3 & E4 & E5). unfold like. simpl. by rewrite E1, E2, E4, E5.
Qed.
Lemma await_ok c ch g :
  free g -> safely (acquire_token c ch) (fun g' a => tried c g g' (match a with GotToken => true | _ => false end)) g.
Proof.
  intros [Hh _]. assert (H : forall b, b = false -> tried c g g b) by (intros b ->; exists (g_token g); by split).
  split; [done|]. split_and!; [by apply H..|].
  change (safely (let! canceled := op OCtxErr in
            if canceled then release c ;! Ret Canceled
            else let! usable := leaseTokenUsable c in Ret (if usable then GotToken else ConnClosed))
            (fun g' a => tried c g g' (match a with GotToken => true | _ => false end))
            (with_token (Some (c_ref c, false)) g)).
  eapply then_keeps; [apply keeps_ctx|done|]. intros g1 canceled H1 _.
  destruct (like_held_token _ _ (c_ref c) false H1 eq_refl) as [b Ht]. destruct canceled; apply safely_bind.
  - eapply safely_mono; [by eapply release_ok|]. intros g2 [] H2. exists None. split; [exact (like_token _ _ _ _ H1 H2)|done].
  - eapply safely_mono; [by eapply usable_ok|]. intros g2 b2 (tk & H2 & Hb). exists tk.
    split; [exact (like_token _ _ _ _ H1 H2)|]. intros E. apply Hb. by destruct b2.
Qed.

(** ** Goroutines that serve a request *)

(** From a ghost without the mutex to one with the same credits. *)
Definition ends (n : Z) {A} (F : A -> Prop) (g : Ghost) (a : A) : Prop := g_held g = None /\ g_credits g = n /\ F a.
Definition serves {A} (p : P A) (F : A -> Prop) : Prop := forall g, free g -> safely p (ends (g_credits g) F) g.
Lemma keeps_serves {A} (p : P A) F : keeps_if free p F -> serves p F.
Proof.
  intros Hp g Hg. eapply safely_mono; [by apply Hp|]. intros g' a [(E1 & E2 & _) Ha]. destruct Hg as [Hg _].
  split; [congruence|done].
Qed.
Lemma serves_ret {A} (a : A) (F : A -> Prop) : F a -> serves (Ret a) F.
Proof. intros Ha. by apply keeps_serves, keeping_ret. Qed.
Lemma serves_bind {A B} (m : P A) (k : A -> P B) F F' :
  serves m F -> (forall a, F a -> serves (k a) F') -> serves (p_bind m k) F'.
Proof.
  intros Hm Hk g Hg. apply safely_bind. eapply safely_mono; [by apply Hm|]. intros g1 a (E1 & E2 & Ha).
  rewrite <- E2. apply Hk; [done|]. split; [done|]. rewrite E2. apply Hg.
Qed.
Lemma serves_weaken {A} (p : P A) (F F' : A -> Prop) : serves p F -> (forall a, F a -> F' a) -> serves p F'.
Proof. intros Hp HF g Hg. eapply safely_mono; [by apply Hp|]. intros g' a (? & ? & ?). split; [done|]. split; [done|by apply HF]. Qed.
(** Serving after keeping the ghost up to its token. *)
Lemma serve_on {A} (p : P A) F g g' tk :
  serves p F -> free g -> like (with_token tk g) g' -> safely p (ends (g_credits g) F) g'.
Proof.
  unfold with_token. intros Hp [Hh Hc] (E1 & E2 & _). simpl in E1, E2. rewrite <- E2.
  apply Hp. split; [by rewrite E1|by rewrite E2].
Qed.

Definition is_forced (req : AcquireRequest) : bool := negb (ForceNewConn req) && ForcePreferredConn req.
(** What was dialed for the connection is right for the request: the same compatibility (up
    to the negotiable headers, if the connection is forced) and, if a turn state was in the
    handshake, sent or answered, the same model. *)
Definition fits (req : AcquireRequest) (c : Conn) : Prop :=
  (if is_forced req
   then without_negotiable (normalizeOpenAIWSAcquireCompatibility (c_request c))
        = without_negotiable (normalizeOpenAIWSAcquireCompatibility req)
   else normalizeOpenAIWSAcquireCompatibility (c_request c) = normalizeOpenAIWSAcquireCompatibility req)
  /\ (has_turn_state (d_headers (c_answer c)) = true \/ has_turn_state (d_handshakeHeaders (c_answer c)) = true ->
      codexTurnStateModelIdentity (TurnStateModel (c_request c)) = codexTurnStateModelIdentity (TurnStateModel req)).
Definition fitting (req : AcquireRequest) (r : Result) : Prop := match r with Granted _ c => fits req c | _ => True end.

Lemma matches_model c m :
  labelled c -> matchesHandshakeTurnStateModel c m = true ->
  has_turn_state (d_headers (c_answer c)) = true \/ has_turn_state (d_handshakeHeaders (c_answer c)) = true ->
  codexTurnStateModelIdentity (TurnStateModel (c_request c)) = codexTurnStateModelIdentity m.
Proof.
  unfold matchesHandshakeTurnStateModel. intros [_ Hl] H Ht. rewrite (Hl Ht) in H. by apply andb_prop in H as [_ H%String.eqb_eq].
Qed.
Lemma suits_fits req c :
  labelled c -> suits (normalizeOpenAIWSAcquireCompatibility req) (TurnStateModel req) c = true -> fits req c.
Proof.
  intros Hl [H1 H2]%andb_prop. apply bool_decide_eq_true in H1. destruct (Hl) as [E _]. rewrite E in H1.
  split; [|by apply matches_model]. destruct (is_forced req); by rewrite H1.
Qed.
Lemma continuation_fits req c :
  labelled c -> is_forced req = true ->
  matchesContinuationHandshakeCompatibility c (normalizeOpenAIWSAcquireCompatibility req)
    && matchesHandshakeTurnStateModel c (TurnStateModel req) = true -> fits req c.
Proof.
  intros Hl Hr [H1 H2]%andb_prop. apply bool_decide_eq_true in H1. destruct (Hl) as [E _]. rewrite E in H1.
  split; [|by apply matches_model]. by rewrite Hr.
Qed.
(** Candidates of a pool are labelled. *)
Lemma candidate_labelled ap0 ap c : all_labelled ap0 -> shrunk ap0 ap -> in_pool ap c -> labelled c.
Proof. intros Hl Hs Hc. destruct (shrunk_in _ _ _ Hs Hc) as [id Hid]. by eapply Hl. Qed.

(** ** One attempt *)

Lemma leave_ok {A} ap0 ap ev (k : P A) Q g g' :
  free g -> inside ap0 g g' -> within ap0 -> fair ap0 ap -> (forall g2, like g g2 -> safely k Q g2) ->
  safely (leave ap ev k) Q g'.
Proof.
  intros Hf Hin Hw Hfair Hk. unfold leave. eapply leave_fair; [done..|]. intros g2 H2.
  eapply then_keeps; [apply keeps_closes|by eapply free_stable|]. intros g3 _ H3 _. apply Hk. by eapply like_trans.
Qed.
Lemma leave_serve {A} ap0 ap ev (k : P A) F g g' tk n :
  free g -> inside ap0 (with_token tk g) g' -> within ap0 -> fair ap0 ap -> serves k F -> n = g_credits g ->
  safely (leave ap ev k) (ends n F) g'.
Proof.
  intros Hf Hin Hw Hfair Hk ->. eapply leave_ok; [by apply (free_token g tk)|done..|].
  intros g2 H2. by eapply serve_on.
Qed.

Section Attempt.
Context (req : AcquireRequest) (rewoken : bool) (again : AcquireError -> P (Result * bool)).
Definition good (r : Result * bool) : Prop := fitting req r.1.
Definition good_again (a : Again) : Prop := match a with inl _ => True | inr r => good r end.
Hypothesis again_ok : forall e, serves (again e) good.
Local Abbreviation compat := (normalizeOpenAIWSAcquireCompatibility req).
Local Abbreviation model := (TurnStateModel req).

Lemma fail_ok e : serves (fail rewoken e) good.
Proof. by apply serves_ret. Qed.
Lemma return_ok p : serves p good -> serves (return_ p) good_again.
Proof. intros Hp. eapply serves_bind; [done|]. intros r Hr. by apply serves_ret. Qed.

Lemma give_ok gen c g :
  free g -> g_token g = Some (c_ref c, true) -> fits req c -> safely (give cfg req rewoken gen c) (ends (g_credits g) good) g.
Proof.
  intros Hf Ht Hfit.
  assert (H : forall l, serves (let! r := (recordLastSuccessfulAcquire gen req ;! ensureTargetIdleAsync cfg ;!
                                           Ret (Granted l c)) in answer rewoken r) good).
  { intros l. eapply serves_bind with (F := fitting req); [|intros r Hr; by apply serves_ret].
    eapply serves_bind; [apply keeps_serves, keeps_record|]. intros _ _.
    eapply serves_bind; [apply keeps_serves, keeps_ensure|]. intros _ _. by apply serves_ret. }
  split; [done|]. intros l. exact (serve_on _ _ g _ None (H l) Hf (like_refl _)).
Qed.
Lemma broken_ok c e : serves (close c ;! evictConn (c_id c) ;! again e) good.
Proof.
  eapply serves_bind; [by apply keeps_serves, keeps_close_free|]. intros _ _.
  eapply serves_bind; [apply keeps_serves, keeps_evict_conn|]. intros _ _. apply again_ok.
Qed.
(** A connection whose token is held is checked and given. *)
Lemma checked_ok c g (k : P (Result * bool)) gen :
  free g -> g_token g = Some (c_ref c, true) -> fits req c ->
  (forall g', like g g' -> safely k (ends (g_credits g) good) g') ->
  safely (let! check := shouldHealthCheckConn c in
          let! healthy := (if check : bool then pingWithTimeout c else Ret true) in
          if healthy : bool then give cfg req rewoken gen c else k) (ends (g_credits g) good) g.
Proof.
  intros Hf Ht Hfit Hk. eapply then_keeps; [apply keeps_check|done|]. intros g1 check H1 _.
  eapply then_keeps with (pre := free) (F := any); [destruct check; keep|by eapply free_stable|]. intros g2 healthy H2 _.
  assert (H : like g g2) by (by eapply like_trans). destruct healthy; [|by apply Hk].
  pose proof (like_sure _ _ _ H Ht). destruct H as (E1 & E2 & _ & _). rewrite <- E2. apply give_ok; [|done..].
  destruct Hf. split; congruence.
Qed.

Lemma lend_ok ap0 ap ev c g g' :
  free g -> within ap0 -> shrunk ap0 ap -> inside ap0 (with_token (Some (c_ref c, true)) g) g' -> fits req c ->
  safely (lend cfg req rewoken again ap ev c) (ends (g_credits g) good) g'.
Proof.
  intros Hf Hw Hs Hin Hfit. unfold lend.
  eapply leave_ok; [by apply (free_token g (Some (c_ref c, true)))|done..|by apply shrunk_fair|]. intros g2 H2.
  assert (H2' := H2). destruct H2' as (E1 & E2 & E3 & _). change (g_credits (with_token _ g)) with (g_credits g) in E2.
  rewrite <- E2. apply checked_ok; [|by apply (like_sure (with_token (Some (c_ref c, true)) g))|done|].
  - by eapply free_stable.
  - intros g3 H3. rewrite E2. eapply (serve_on _ _ g); [apply broken_ok|done|by eapply like_trans].
Qed.
Lemma take_over_ok gen c g :
  free g -> g_token g = Some (c_ref c, true) -> fits req c ->
  safely (take_over cfg req rewoken again gen c) (ends (g_credits g) good) g.
Proof.
  intros Hf Ht Hfit. apply checked_ok; try done. intros g' H'. apply safely_bind.
  eapply safely_mono; [apply (release_ok c g' true)|].
  - by eapply like_sure.
  - intros g2 [] H2. eapply (serve_on _ _ g); [apply broken_ok|done|]. by eapply like_token.
Qed.

(** Waiting for the token of a connection, as one of its waiters. *)
Lemma awaited_ok {A} c ch (k : Awoken -> P A) F g :
  free g ->
  (forall g', free g' -> g_credits g' = g_credits g -> g_token g' = Some (c_ref c, true) ->
     safely (k GotToken) (ends (g_credits g) F) g') ->
  (forall a, a <> GotToken -> serves (k a) F) ->
  safely (p_bind (acquire_token c ch) k) (ends (g_credits g) F) g.
Proof.
  intros Hf Hgot Hk. apply safely_bind. eapply safely_mono; [by apply await_ok|]. intros g2 a (tk & H2 & Ht).
  assert (a = GotToken \/ a <> GotToken) as [->|Hne] by (destruct a; auto); [|eapply serve_on; [by apply Hk|done|exact H2]].
  rewrite (Ht eq_refl) in H2. assert (Hs := like_sure _ _ (c_ref c) H2 eq_refl).
  destruct H2 as (E1 & E2 & _ & _). destruct Hf as [Hh Hc]. apply Hgot; [|exact E2|exact Hs]. split; [by rewrite E1|by rewrite E2].
Qed.
Lemma join_queue {A} ap0 c (refused k : P A) Q g g' :
  inside ap0 g g' -> (forall g2, inside ap0 g g2 -> safely refused Q g2) ->
  (forall g2, inside ap0 g g2 -> safely k Q g2) ->
  safely (let! waiters := op (OWaiters (c_ref c)) in
          if queueLimitPerConn cfg <=? waiters then refused else op (OAddWaiters (c_ref c) 1) ;! k) Q g'.
Proof.
  intros Hin Hr Hk n. assert (Hh : is_Some (g_held g')) by (destruct Hin as [E _]; rewrite E; by eexists).
  change (safely (if queueLimitPerConn cfg <=? n then refused else op (OAddWaiters (c_ref c) 1) ;! k) Q
            (if bool_decide (is_Some (g_held g')) && (n <? queueLimitPerConn cfg)
             then g' <| g_seen := Some (c_ref c) |> else g')).
  rewrite bool_decide_true by done. destruct (Z.leb_spec (queueLimitPerConn cfg) n).
  - apply Hr. by destruct (_ && _).
  - destruct (Z.ltb_spec n (queueLimitPerConn cfg)); [|lia]. right. split_and!; [done..|]. by apply Hk.
Qed.

Definition took (g g' : Ghost) (s : Pick) : Prop :=
  exists tk, like (with_token tk g) g' /\ forall c, s.2 = Some c -> tk = Some (c_ref c, true) /\ fits req c.
Lemma try_conn_ok ap0 c s g :
  shrunk ap0 s.1.1 -> fits req c ->
  safely (try_conn c s) (fun g' s => shrunk ap0 s.1.1 /\ took g g' s) g.
Proof.
  destruct s as [[ap ev] got]. intros Hs Hfit. apply safely_bind. eapply safely_mono; [apply try_ok|].
  intros g1 b (tk & H1 & Hb). destruct b; [split; [done|]; exists tk; split; [done|]; intros c' [= <-]; auto|].
  eapply then_keeps; [by apply keeps_drop_dead|done|]. intros g2 [[ap2 ev2] dead] H2 Hs2.
  split; [done|]. exists tk. split; [by eapply like_trans|done].
Qed.
Lemma took_none g g' ap ev : like g g' -> took g g' (ap, ev, None).
Proof. intros H. exists (g_token g). by split. Qed.
Lemma took_trans g1 g2 g3 s : (exists tk, like (with_token tk g1) g2) -> took g2 g3 s -> took g1 g3 s.
Proof.
  intros [tk H] (tk' & H' & Hs). exists tk'. split; [|done]. exact (like_token _ _ _ _ H H').
Qed.

(** Leaving the queue. *)
Lemma dequeue_ok c : forall r, good r -> serves (op (OAddWaiters (c_ref c) (-1)) ;! Ret r) good.
Proof.
  intros r Hr. eapply serves_bind; [apply keeps_serves, keeps_any, keeps_leave_queue|]. intros _ _. by apply serves_ret.
Qed.
(** A result, and then something that serves it. *)
Lemma after_serving {A B} (p : P A) (k : A -> P B) F F' n g :
  safely p (ends n F) g -> 0 <= n -> (forall a, F a -> serves (k a) F') -> safely (p_bind p k) (ends n F') g.
Proof.
  intros Hp Hn Hk. apply safely_bind. eapply safely_mono; [exact Hp|]. intros g1 a (E1 & <- & Ha).
  apply Hk; [done|]. by split.
Qed.

Lemma forced_ok ap0 ap ev g g' :
  free g -> within ap0 -> all_labelled ap0 -> shrunk ap0 ap -> inside ap0 g g' -> is_forced req = true ->
  safely (forced cfg req rewoken again ap ev) (ends (g_credits g) good) g'.
Proof.
  intros Hf Hw Hlab Hs Hin Hr. unfold forced.
  assert (Hleave : forall ap ev e tk g2, shrunk ap0 ap -> inside ap0 (with_token tk g) g2 ->
            safely (leave ap ev (fail rewoken e)) (ends (g_credits g) good) g2).
  { intros ap1 ev1 e tk g2 H1 H2. eapply leave_serve; [done..|by apply shrunk_fair|apply fail_ok|done]. }
  destruct (conns ap !! _) as [c|] eqn:Hid; [|by apply (Hleave ap ev _ (g_token g))].
  destruct (_ && _) eqn:Hm; cbn [negb]; [|by apply (Hleave ap ev _ (g_token g))].
  assert (Hfit : fits req c).
  { apply continuation_fits; [|done..]. eapply candidate_labelled; [exact Hlab|done|by eexists]. }
  apply safely_bind. eapply safely_mono; [apply try_ok|]. intros g1 got (tk & H1 & Hgot).
  pose proof (inside_token _ _ _ _ _ Hin H1) as Hin1.
  destruct got; [rewrite (Hgot eq_refl) in Hin1; by eapply lend_ok|].
  eapply look; [by apply keeps_drop_dead|done|]. intros [[ap2 ev2] dead] g2 Hs2 Hin2. simpl in Hs2.
  destruct dead; [by apply (Hleave ap2 ev2 _ tk)|].
  apply (join_queue ap0 c _ _ _ (with_token tk g)); [done|intros g3 H3; by apply (Hleave ap2 ev2 _ tk)|].
  intros g3 H3. eapply leave_ok; [by apply (free_token g tk)|done..|by apply shrunk_fair|]. intros g4 H4.
  assert (Hf4 : free g4) by (by eapply free_stable; [exact H4|]).
  replace (g_credits g) with (g_credits g4) by apply H4. apply awaited_ok; [done| |].
  - intros g5 Hf5 E5 T5. eapply after_serving; [rewrite <- E5; by apply take_over_ok|apply Hf4|apply dequeue_ok].
  - intros a Ha. eapply serves_bind; [|apply dequeue_ok]. destruct a; try apply fail_ok; [|done].
    eapply serves_bind; [apply keeps_serves, keeps_evict_conn|]. intros _ _. apply again_ok.
Qed.

Lemma pick_preferred_ok ap0 ap ev g :
  all_labelled ap0 -> shrunk ap0 ap -> safely (pick_preferred req ap ev) (fun g' s => shrunk ap0 s.1.1 /\ took g g' s) g.
Proof.
  intros Hlab Hs. unfold pick_preferred.
  destruct (if _ =?s _ then None else _) as [c|] eqn:Hid; [|split; [done|by apply took_none]].
  destruct (suits _ _ c) eqn:Hc.
  { apply try_conn_ok; [done|]. apply suits_fits; [|done]. eapply candidate_labelled; [done..|]. eexists. by destruct (_ =?s _). }
  eapply then_keeps; [by apply keeps_drop_dead|done|]. intros g2 [[ap2 ev2] dead] H2 Hs2.
  split; [done|]. by apply took_none.
Qed.
Lemma pick_any_ok ap0 limit best s g :
  all_labelled ap0 -> shrunk ap0 s.1.1 -> s.2 = None ->
  safely (pick_any req limit best s) (fun g' s => shrunk ap0 s.1.1 /\ took g g' s) g.
Proof.
  destruct s as [[ap ev] got]. intros Hlab Hs Hn. simpl in Hn. subst got. unfold pick_any.
  destruct (_ && _); [split; [done|by apply took_none]|].
  eapply then_keeps; [apply keeps_ranged|done|]. intros g1 l H1 Hl.
  eapply safely_mono; [apply (ok_fold loops (@vc _ cfg) (vc_mono cfg) _ (fun s g' => shrunk ap0 s.1.1 /\ took g g' s))|done].
  - intros [[ap2 ev2] got2] g2 c Hin [Hs2 Ht2]. simpl in Hs2. destruct got2 as [d|]; cbn [snd]; [by split|].
    destruct (suits _ _ c) eqn:Hc; cbn [negb]; [rewrite orb_false_r|rewrite orb_true_r; by split].
    destruct (bool_decide _); [by split|]. eapply safely_mono; [apply try_conn_ok; [exact Hs2|apply suits_fits; [|done]]|].
    { eapply candidate_labelled; [exact Hlab|exact Hs|by apply Hl]. }
    intros g3 s3 [Hs3 Ht3]. split; [done|]. eapply took_trans; [|done]. destruct Ht2 as (tk & ? & _). by exists tk.
  - split; [done|]. by apply took_none.
Qed.
Lemma reuse_ok ap0 limit ap ev g :
  all_labelled ap0 -> shrunk ap0 ap -> safely (reuse req limit ap ev) (fun g' s => shrunk ap0 s.1.1 /\ took g g' s) g.
Proof.
  intros Hlab Hs. unfold reuse. apply safely_bind. eapply safely_mono; [by apply pick_preferred_ok|].
  intros g1 [[ap1 ev1] got1] [Hs1 Ht1]. simpl in Hs1. destruct got1 as [c|]; [by split|].
  assert (Hg1 : exists tk, like (with_token tk g) g1) by (destruct Ht1 as (tk & ? & _); by exists tk).
  eapply then_keeps; [apply keeps_pick_affine|done|]. intros g2 best H2 Hbest.
  apply safely_bind. eapply (safely_mono _ (fun g' s => shrunk ap0 s.1.1 /\ took g2 g' s)).
  { destruct best as [c|]; [|split; [done|by apply took_none]].
    destruct (Hbest c eq_refl) as [Hin Hc]. apply try_conn_ok; [done|]. apply suits_fits; [|done].
    by eapply candidate_labelled. }
  intros g3 s3 [Hs3 Ht3].
  assert (Hg3 : exists tk, like (with_token tk g1) g3).
  { destruct Ht3 as (tk & H3 & _). exists tk. exact (like_token g1 g2 g3 tk H2 H3). }
  assert (Hg : exists tk, like (with_token tk g) g3).
  { destruct Hg1 as [tk1 H1], Hg3 as [tk3 H3]. exists tk3. exact (like_token _ _ _ _ H1 H3). }
  destruct s3 as [[ap3 ev3] got3]. cbn [snd]. destruct got3 as [d|].
  - split; [done|]. eapply took_trans; [exact Hg1|]. destruct Ht3 as (tk & H3 & Hd). exists tk. split; [|done].
    exact (like_token g1 g2 g3 tk H2 H3).
  - eapply safely_mono; [by apply pick_any_ok|]. intros g4 s4 [Hs4 Ht4]. split; [done|]. by eapply took_trans.
Qed.

(** *** Room *)

Definition room_ok (ap0 : AccountPool) (r : Room) : Prop :=
  match r with
  | Create ap _ n => shrunk ap0 ap /\ n <= maxConnsHardCap cfg
  | AtCapacity ap _ | NoRoom ap _ _ | WaitChange ap _ _ => shrunk ap0 ap
  end.
Lemma room_for_reuse_ok ap0 limit now ap ev :
  shrunk ap0 ap -> limit <= maxConnsHardCap cfg -> keeps (room_for_reuse req limit now ap ev) (room_ok ap0).
Proof.
  intros Hs Hl. unfold room_for_reuse. destruct (negb (full ap limit)); [by apply keeping_ret|].
  eapply keeping_bind; [done|apply keeps_pick_affine|]. intros affine _.
  eapply keeping_bind; [done|apply keeps_pick_oldest|]. intros idle _.
  destruct idle as [c|]; [apply keeping_ret; split; [by apply shrunk_forget|done]|].
  destruct affine as [c|]; [by apply keeping_ret|].
  eapply keeping_bind; [done|apply keeps_pick_busy|]. intros [c|] _; [by apply keeping_ret|].
  destruct (_ && _); by apply keeping_ret.
Qed.
Lemma room_for_new_ok ap0 limit ap ev :
  shrunk ap0 ap -> limit <= maxConnsHardCap cfg -> keeps (room_for_new cfg req limit ap ev) (room_ok ap0).
Proof.
  intros Hs Hl. unfold room_for_new. eapply keeping_bind; [done|by apply keeps_make_room|].
  intros [ap1 ev1] Hs1. simpl in Hs1. destruct (_ && _); [|by apply keeping_ret].
  eapply keeping_bind; [done|apply keeps_has_pinned|]. intros pinned _. apply keeping_ret. split; [done|]. destruct pinned; lia.
Qed.

(** *** Dialing *)

Definition dialed_conn (gen : Z) (g : Ghost) (dialed : option Conn) : Prop :=
  forall c, dialed = Some c -> g_new g = Some (c_ref c, gen) /\ labelled c /\ c_request c = req.
Lemma dial_conn_ok gen g :
  free g -> safely (dialConn accountID req gen)
              (fun g' dialed => free g' /\ g_credits g' = g_credits g /\ dialed_conn gen g' dialed) g.
Proof.
  intros [Hh Hc]. split; [done|]. intros [d|]; [|by split_and!].
  intros r. split_and!; [done..|]. intros c [= <-]. split; [done|]. split; [|done]. split; [done|].
  simpl. by intros [->| ->]; rewrite ?orb_true_r.
Qed.
Lemma dialed_fits gen g dialed c : dialed_conn gen g dialed -> dialed = Some c -> fits req c.
Proof.
  intros Hd Hc. destruct (Hd c Hc) as (_ & _ & E). unfold fits. rewrite E. by destruct (is_forced req).
Qed.
Lemma serves_at {A} (p : P A) F g n :
  serves p F -> g_held g = None -> g_credits g = n -> 0 <= n -> safely p (ends n F) g.
Proof. intros Hp Hh <- Hc. apply Hp. by split. Qed.

(** Back under the mutex, with one credit to give back. *)
Lemma dial_ends gen dialed g :
  free g -> 1 <= g_credits g -> dialed_conn gen g dialed ->
  safely (let! ap := Lock in
          let ap := ap <| creating := creating ap - 1 |> in
          if negb (generation ap =? gen) then
            signalChangedLocked ;! Unlock ap ;!
            match dialed with Some c => close c | None => Ret tt end ;!
            again ErrConnClosed
          else
            match dialed with
            | None =>
                let! now := op ONow in
                signalChangedLocked ;! Unlock (failed ap now) ;! fail rewoken ErrDial
            | Some c =>
                let! got := tryAcquire c in
                signalChangedLocked ;!
                if got : bool then Unlock (publish ap c) ;! give cfg req rewoken gen c
                else Unlock ap ;! close c ;! fail rewoken ErrConnClosed
            end) (ends (g_credits g - 1) good) g.
Proof.
  intros Hf H1 Hd. apply enter; [done|]. intros ap0 g1 Hw _ Hcr Hin. cbv zeta.
  set (ap := ap0 <| creating := creating ap0 - 1 |>).
  (* every way out without a new connection *)
  assert (Hout : forall tk g2 ap' (k : P (Result * bool)), inside ap0 (with_token tk g) g2 -> conns ap' = conns ap0 ->
            creating ap' = creating ap0 - 1 -> generation ap' = generation ap0 -> serves k good ->
            safely (Unlock ap' ;! k) (ends (g_credits g - 1) good) g2).
  { intros tk g2 ap' k H2 E1 E2 E3 Hk. eapply unlock; [by apply (free_token g tk)|done|..].
    - unfold WSPoolProofs.within in *. rewrite E1, E2. lia.
    - rewrite E2. simpl. lia.
    - intros id c. rewrite E1, E3. intros ?. by left.
    - intros g3 F1 F2 _ _ _. apply serves_at; [done..| |lia]. rewrite F2, E2. simpl. lia. }
  destruct (Z.eqb_spec (generation ap) gen) as [Hgen|Hgen]; cbn [negb].
  - destruct dialed as [c|].
    + destruct (Hd c eq_refl) as (Hnew & Hlab & _). pose proof (dialed_fits _ _ _ c Hd eq_refl) as Hfit.
      apply safely_bind. eapply safely_mono; [apply try_ok|]. intros g2 got (tk & H2 & Hgot).
      pose proof (inside_token _ _ _ _ _ Hin H2) as Hin2.
      eapply look; [apply keeps_signal|exact Hin2|]. intros _ g3 _ Hin3. destruct got.
      * rewrite (Hgot eq_refl) in Hin3. eapply unlock; [by apply (free_token g (Some (c_ref c, true)))|exact Hin3|..].
        -- unfold WSPoolProofs.within in *. simpl. rewrite map_size_insert. destruct (conns ap0 !! c_id c); simpl; lia.
        -- simpl. lia.
        -- intros id c' Hc'. simpl in Hc'. apply lookup_insert_Some in Hc' as [[<- <-]|[_ Hid]]; [right|by left].
           destruct Hin3 as (_ & _ & _ & E & _). simpl in E. rewrite E, Hnew. by rewrite <- Hgen.
        -- intros g4 F1 F2 F3 _ _. simpl in F2. replace (g_credits g - 1) with (g_credits g4) by lia.
           apply token_le_sure in F3. apply give_ok; [|done|done]. split; [done|lia].
      * eapply (Hout tk); [done..|]. eapply serves_bind; [by apply keeps_serves, keeps_close_free|].
        intros _ _. apply fail_ok.
    + eapply look; [apply keeps_clock|exact Hin|]. intros now g2 _ Hin2.
      eapply look; [apply keeps_signal|exact Hin2|]. intros _ g3 _ Hin3.
      apply (Hout (g_token g)); try done. apply fail_ok.
  - eapply look; [apply keeps_signal|exact Hin|]. intros _ g3 _ Hin3. apply (Hout (g_token g)); try done.
    eapply serves_bind with (F := any); [|intros _ _; apply again_ok].
    destruct dialed; [by apply keeps_serves, keeps_close_free|by apply serves_ret].
Qed.
Lemma dial_ok ap0 ap ev n g g' tk :
  free g -> within ap0 -> shrunk ap0 ap -> inside ap0 (with_token tk g) g' -> full ap n = false ->
  n <= maxConnsHardCap cfg ->
  safely (dial_and_publish cfg accountID req rewoken again ap ev) (ends (g_credits g) good) g'.
Proof.
  intros Hf Hw Hs Hin Hn Hcap. unfold dial_and_publish, leave. assert (Hs' := Hs). destruct Hs' as (Hsub & Hcr & Hgen).
  unfold full in Hn. apply Z.leb_gt in Hn. destruct Hf as [Hh Hc].
  eapply unlock; [by apply (free_token g tk)|done|..].
  - unfold WSPoolProofs.within. simpl. lia.
  - simpl. lia.
  - apply (shrunk_heir _ _ ap Hs).
  - intros g1 E1 E2 E3 E4 _. simpl in E2.
    eapply then_keeps; [apply keeps_closes|split; [done|lia]|]. intros g2 _ (F1 & F2 & _) _.
    assert (E : g_credits g2 = g_credits g + 1) by (rewrite F2, E2; simpl; lia).
    assert (Hf2 : free g2) by (split; [congruence|lia]).
    apply safely_bind. eapply safely_mono; [by apply dial_conn_ok|]. intros g3 dialed (Hf3 & E' & Hd).
    replace (g_credits g) with (g_credits g3 - 1) by lia. apply dial_ends; [done|lia|done].
Qed.

(** *** The whole attempt *)

Lemma refuse_ok ap0 ap ev e g g' tk :
  free g -> within ap0 -> shrunk ap0 ap -> inside ap0 (with_token tk g) g' ->
  safely (leave ap ev (return_ (fail rewoken e))) (ends (g_credits g) good_again) g'.
Proof.
  intros Hf Hw Hs Hin. eapply leave_serve; [done..|by apply shrunk_fair| |done]. by apply return_ok, fail_ok.
Qed.
Lemma return_from n p g : safely p (ends n good) g -> 0 <= n -> safely (return_ p) (ends n good_again) g.
Proof. intros Hp Hn. eapply after_serving; [done..|]. intros r Hr. by apply serves_ret. Qed.

Lemma queue_ok ap0 ap ev g g' tk :
  free g -> within ap0 -> all_labelled ap0 -> shrunk ap0 ap -> inside ap0 (with_token tk g) g' -> is_forced req = false ->
  safely (queue cfg req rewoken again ap ev) (ends (g_credits g) good_again) g'.
Proof.
  intros Hf Hw Hlab Hs Hin Hr. unfold queue. eapply look; [apply keeps_pick_busy|done|]. intros target g1 Ht Hin1.
  destruct target as [c|]; [|by eapply refuse_ok]. destruct (Ht c eq_refl) as [Hpool Hc].
  apply suits_fits in Hc; [|by eapply candidate_labelled].
  apply (join_queue ap0 c _ _ _ (with_token tk g)); [done|intros g2 H2; by eapply refuse_ok|]. intros g2 H2.
  eapply look; [apply keeps_channel|done|]. intros ch g3 _ H3.
  eapply leave_ok; [by apply (free_token g tk)|done..|by apply shrunk_fair|]. intros g4 H4.
  assert (Hf4 : free g4) by (by eapply free_stable; [exact H4|]).
  replace (g_credits g) with (g_credits g4) by apply H4.
  assert (Hleave : forall k : P Again, serves k good_again -> serves (op (OAddWaiters (c_ref c) (-1)) ;! k) good_again).
  { intros k Hk. eapply serves_bind; [apply keeps_serves, keeps_any, keeps_leave_queue|]. by intros _ _. }
  apply awaited_ok; [done| |].
  - intros g5 Hf5 E5 T5. eapply then_keeps; [apply keeps_leave_queue|done|]. intros g6 _ (F1 & F2 & F3 & _) _.
    rewrite T5 in F3. apply token_le_sure in F3.
    apply return_from; [|apply Hf4]. rewrite <- E5, <- F2. apply take_over_ok; [|done..].
    destruct Hf5. split; congruence.
  - intros a Ha. apply Hleave. destruct a; [by apply return_ok, fail_ok| | |done].
    + eapply serves_bind; [apply keeps_serves, keeps_evict_conn|]. intros _ _. apply return_ok, again_ok.
    + eapply serves_bind; [apply keeps_serves, keeps_any, keeps_ctx|]. intros [] _; [by apply return_ok, fail_ok|by apply serves_ret].
Qed.
Lemma wait_change_ok ap0 ap ev now g g' tk :
  free g -> within ap0 -> shrunk ap0 ap -> inside ap0 (with_token tk g) g' ->
  safely (wait_change rewoken ap ev now) (ends (g_credits g) good_again) g'.
Proof.
  intros Hf Hw Hs Hin. unfold wait_change. eapply look; [apply keeps_channel|done|]. intros ch g1 _ Hin1.
  eapply leave_serve; [done..|by apply shrunk_fair| |done].
  eapply serves_bind; [apply keeps_serves, keeps_await_change|]. intros [] _; [by apply serves_ret|by apply return_ok, fail_ok].
Qed.
Lemma settle_ok ap0 room g g' tk :
  free g -> within ap0 -> all_labelled ap0 -> room_ok ap0 room -> inside ap0 (with_token tk g) g' -> is_forced req = false ->
  safely (settle cfg accountID req rewoken again room) (ends (g_credits g) good_again) g'.
Proof.
  intros Hf Hw Hlab Hroom Hin Hr. destruct room as [ap ev n|ap ev|ap ev e|ap ev now]; simpl in Hroom.
  - destruct Hroom as [Hs Hn]. unfold settle. destruct (full ap n) eqn:Hfull; cbn [negb].
    + destruct (ForceNewConn req); [by eapply refuse_ok|by eapply queue_ok].
    + apply return_from; [|apply Hf]. by eapply dial_ok.
  - by eapply queue_ok.
  - by eapply refuse_ok.
  - by eapply wait_change_ok.
Qed.
Lemma tidy_ok ap0 limit now :
  keeps (tidy cfg limit now ap0) (fun r => shrunk ap0 r.1).
Proof.
  unfold tidy. pose proof (shrunk_expired ap0 ap0 now (shrunk_refl ap0)) as Hs.
  destruct (cleanupExpiredTimedResponsePinsLocked ap0 now) as [ap ch]. simpl in Hs.
  eapply keeping_bind; [done|apply keeps_signal_if|]. intros _ _. destruct (_ || _); [|by apply keeping_ret].
  eapply keeping_bind; [done|by apply keeps_cleanup|]. intros [ap1 ev] Hs1. by apply keeping_ret.
Qed.
Lemma effective_of_bound r : effective_of cfg r <= maxConnsHardCap cfg.
Proof. unfold effective_of. destruct (req_Account r); [apply effective_bound|lia]. Qed.

Lemma attempt_ok : serves (attempt cfg accountID req rewoken again) good_again.
Proof.
  intros g Hf. unfold attempt. pose proof (effective_of_bound req) as Hcap. set (limit := effective_of cfg req) in *.
  destruct (limit <=? 0); [by apply return_ok; [apply fail_ok|]|].
  apply enter; [done|]. intros ap0 g1 Hw Hlab _ Hin. eapply look; [apply keeps_clock|done|]. intros now g2 _ Hin2.
  eapply look; [apply tidy_ok|done|]. intros [ap ev] g3 Hs Hin3. simpl in Hs.
  destruct (ForceNewConn req) eqn:En.
  { eapply look; [by apply room_for_new_ok|done|]. intros room g4 Hroom Hin4.
    apply (settle_ok ap0 room g g4 (g_token g)); try done. unfold is_forced. by rewrite En. }
  destruct (ForcePreferredConn req) eqn:Ep.
  { apply return_from; [|apply Hf]. destruct (_ =?s _).
    - eapply (leave_serve _ _ _ _ _ _ _ (g_token g)); [done..|by apply shrunk_fair|apply fail_ok|done].
    - eapply forced_ok; try done. unfold is_forced. by rewrite En, Ep. }
  apply safely_bind. eapply safely_mono; [by apply reuse_ok|]. intros g4 [[ap4 ev4] got] [Hs4 (tk & H4 & Hgot)].
  pose proof (inside_token _ _ _ _ _ Hin3 H4) as Hin4. simpl in Hs4. destruct got as [c|].
  - destruct (Hgot c eq_refl) as [-> Hfit]. apply return_from; [|apply Hf]. by eapply lend_ok.
  - eapply look; [by apply room_for_reuse_ok|done|]. intros room g5 Hroom Hin5.
    apply (settle_ok ap0 room g g5 tk); try done. unfold is_forced. by rewrite En, Ep.
Qed.
End Attempt.

(** ** Requests *)

Lemma acquire_ok retries req rewoken : serves (acquire cfg accountID retries req rewoken) (good req).
Proof.
  revert rewoken. induction retries as [|retries IH]; intros rewoken g Hf; cbn [acquire];
    (destruct (req_Account req) as [account|]; [|by apply serves_ret]);
    (destruct (acc_ID account <=? 0); [by apply serves_ret|]);
    (destruct (TrimSpace (WSURL req) =?s ""); [by apply serves_ret|]);
    (eapply ok_loop with (I := fun _ g' => free g' /\ g_credits g' = g_credits g); [done|by intros _ g1 [[H1 _] _]|]);
    intros rw g1 [Hf1 <-]; (eapply safely_mono; [apply attempt_ok; [|done]|]).
  1: by intros e; apply serves_ret.
  2: by intros e; apply IH.
  all: intros g2 [rw'|r] (E1 & E2 & Hr); [|done]; split; [split; [done|]|done]; rewrite E2; apply Hf1.
Qed.

Lemma release_lease_ok l : serves (Release l) any.
Proof.
  intros g Hf. assert (Hn : serves (Ret tt : P ()) any) by by apply serves_ret.
  split; [apply Hf|]. split; [by apply Hn|]. intros c.
  change (safely (release c ;! notifyAccountPoolChanged) (ends (g_credits g) any) (with_token (Some (c_ref c, false)) g)).
  apply safely_bind. eapply safely_mono; [by eapply release_ok|]. intros g1 [] H1.
  eapply (serve_on _ _ g); [apply keeps_serves, keeps_notify|done|exact H1].
Qed.
Lemma Acquire_ok req : serves (Acquire cfg accountID req) (fitting (cloneOpenAIWSAcquireRequest req)).
Proof.
  unfold Acquire. eapply serves_bind; [apply acquire_ok|]. intros [r rewoken] Hr.
  destruct r as [l c|e|]; [|by apply serves_ret..]. destruct rewoken; [|by apply serves_ret].
  eapply serves_bind; [apply keeps_serves, keeps_any, keeps_ctx|]. intros [] _; [|by apply serves_ret].
  eapply serves_bind; [apply release_lease_ok|]. intros _ _. by apply serves_ret.
Qed.

(** ** Prewarming *)

(** A dial gives one credit back. *)
Lemma prewarm_one_ok req gen stale n g :
  g_held g = None -> g_credits g = n + 1 -> 0 <= n ->
  safely (prewarm_one cfg accountID req gen stale) (ends n any) g.
Proof.
  intros Hh Hc Hn. unfold prewarm_one. apply safely_bind. eapply safely_mono; [apply (dial_conn_ok req); split; [done|lia]|].
  intros g1 dialed (Hf1 & E1 & Hd). apply enter; [done|]. intros ap0 g2 Hw _ Hcr Hin.
  destruct (Z.ltb_spec 0 (creating ap0)); [|lia]. set (ap := ap0 <| creating := creating ap0 - 1 |>). cbv zeta.
  assert (Hout : forall g3 ap' (k : P bool), inside ap0 g1 g3 -> within ap' -> heir g3 ap0 ap' ->
            creating ap' = creating ap0 - 1 -> serves k any -> safely (Unlock ap' ;! k) (ends n any) g3).
  { intros g3 ap' k H3 H1 H2 E Hk. eapply unlock; [exact Hf1|done|done|rewrite E; lia|done|].
    intros g4 F1 F2 _ _ _. apply serves_at; [done..| |done]. rewrite F2, E. lia. }
  assert (Hsame : forall g3 (k : P bool), inside ap0 g1 g3 -> serves k any -> safely (Unlock ap ;! k) (ends n any) g3).
  { intros g3 k H3 Hk. apply Hout; try done; [unfold WSPoolProofs.within in *; simpl; lia|]. intros id c Hid. by left. }
  assert (Hclose : forall c (b : bool), serves (close c ;! Ret b) any).
  { intros c b. eapply serves_bind; [by apply keeps_serves, keeps_close_free|]. intros _ _. by apply serves_ret. }
  destruct dialed as [c|].
  - change (lastAcquire ap) with (lastAcquire ap0). destruct (lastAcquire ap0) as [last|]; [|by apply Hsame].
    destruct (Z.eqb_spec (generation ap) gen) as [Hgen|]; cbn [negb]; [|by apply Hsame].
    destruct (sameOpenAIWSPrewarmTarget req last); cbn [negb].
    2: { eapply look; [apply keeps_signal|done|]. intros _ g3 _ Hin3. by apply Hsame. }
    destruct (effective_of cfg req <=? Z.of_nat (size (conns ap))).
    { eapply look; [apply keeps_signal|done|]. intros _ g3 _ Hin3. by apply Hsame. }
    eapply look; [apply keeps_signal|done|]. intros _ g3 _ Hin3. apply Hout; [done| | |done|by apply serves_ret].
    + unfold WSPoolProofs.within in *. simpl. rewrite map_size_insert. destruct (conns ap0 !! c_id c); simpl; lia.
    + intros id c' Hc'. simpl in Hc'. apply lookup_insert_Some in Hc' as [[<- <-]|[_ Hid]]; [right|by left].
      destruct Hin3 as (_ & _ & _ & E & _). simpl in E. rewrite E. destruct (Hd c eq_refl) as (-> & ? & _). by rewrite <- Hgen.
  - eapply look; [apply keeps_clock|done|]. intros now g3 _ Hin3.
    eapply look; [apply keeps_signal|done|]. intros _ g4 _ Hin4.
    apply Hout; [done| | |done|by apply serves_ret]; [unfold WSPoolProofs.within in *; simpl; lia|].
    intros id c Hid. by left.
Qed.
Lemma prewarm_fold_ok req gen l stale g :
  g_held g = None -> g_credits g = Z.of_nat (length l) ->
  safely (p_fold (fun stale (_ : ()) => prewarm_one cfg accountID req gen stale) l stale) (ends 0 any) g.
Proof.
  revert stale g. induction l as [|x l IH]; intros stale g Hh Hc; [done|]. cbn [p_fold]. apply safely_bind.
  eapply safely_mono; [apply (prewarm_one_ok req gen stale (Z.of_nat (length l))); [done|rewrite Hc; simpl; lia|lia]|].
  intros g1 stale1 (E1 & E2 & _). by apply IH.
Qed.
Lemma prewarm_ok req total gen : safely (prewarmConns cfg accountID req total gen) (ends 0 any) (idle false (Z.of_nat total)).
Proof.
  unfold prewarmConns. apply safely_bind.
  eapply safely_mono; [apply prewarm_fold_ok; [done|by rewrite length_replicate]|].
  intros g1 stale (E1 & E2 & _). apply serves_at; [|done..]. apply keeps_serves.
  apply keeps_section. intros ap0 g g' Hf Hw Hin. eapply look; [apply keeps_signal|done|]. intros _ g2 _ Hin2.
  eapply end_section; [done..| |destruct stale; keep]. fair.
Qed.

(** ** Sweeps, events and users of leases *)

Lemma probe_ok c : serves (probe c) any.
Proof.
  eapply serves_bind; [by apply keeps_serves, keeps_ping|]. intros [] _; [by apply serves_ret|].
  assert (Hk : forall got : bool, serves (if got then evictConn (c_id c) else
                 let! dead := is_dead c in if dead : bool then evictConn (c_id c) else Ret tt) any).
  { intros got. apply keeps_serves. keep. }
  intros g Hf. apply safely_bind. eapply safely_mono; [apply try_ok|]. intros g1 got (tk & H1 & _).
  eapply serve_on; [apply Hk|done|exact H1].
Qed.
Lemma snapshot_ok : keeps_if free snapshotIdleConnsForPing any.
Proof.
  apply keeps_section. intros ap0 g g' Hf Hw Hin. eapply look; [apply keeps_ranged|done|]. intros l g2 _ Hin2.
  eapply look with (F := any); [keep|done|]. intros idle g3 _ Hin3. eapply end_section; [done..| |by apply keeping_ret]. fair.
Qed.
Lemma ping_sweep_ok : serves runBackgroundPingSweep any.
Proof.
  eapply serves_bind; [apply keeps_serves, snapshot_ok|]. intros l _ g Hf.
  eapply safely_mono; [apply (ok_fold loops (@vc _ cfg) (vc_mono cfg) _ (fun _ g' => free g' /\ g_credits g' = g_credits g))|].
  - intros _ g1 c _ [Hf1 E1]. eapply then_keeps; [apply keeps_idle_waiterless|done|].
    intros g2 w H2 _. assert (free g2) as [Hh2 Hc2] by (by eapply free_stable). destruct H2 as (F1 & F2 & _).
    destruct (w && _); [|split; [by split|congruence]]. split; [by right|]. split; [split; simpl; [done|lia]|simpl; lia].
  - by split.
  - intros g' [] [[Hh _] E]. by split.
Qed.
Lemma cleanup_sweep_ok : serves (runBackgroundCleanupSweep cfg) any.
Proof.
  apply keeps_serves. eapply keeping_bind; [apply free_stable|apply keeps_any, keeps_clock|]. intros now _.
  apply keeps_section. intros ap0 g g' Hf Hw Hin. cbv zeta.
  eapply look; [apply (keeps_cleanup ap0), shrunk_refl|done|]. intros [ap ev] g2 Hs Hin2. simpl in Hs.
  eapply end_section; [done..|by apply shrunk_fair|]. keep.
Qed.
Lemma reader_error_ok c : serves (reader_error c) any.
Proof. apply keeps_serves. unfold reader_error, isClosed. keep. Qed.
Lemma use_ok l u : serves (use l u) any.
Proof.
  assert (Hread : forall c t, keeps_if free (readMessage c t) any) by (intros c t; unfold readMessage, isClosed; keep).
  assert (Hwrite : forall c, keeps_if free (writeJSON c) any) by (intros c; unfold writeJSON, isClosed; keep).
  assert (Hactive : keeps_if free (activeConn l) any) by (unfold activeConn; keep).
  destruct u; [| | | |apply release_lease_ok]; apply keeps_serves; unfold use, MarkBroken.
  4: by keep.
  all: eapply keeping_bind; [apply free_stable|done|]; intros [c|] _; [|by apply keeping_ret].
  - done.
  - done.
  - keep.
Qed.

(** ** All goroutines *)

Definition post (t : Task) (g : Ghost) (r : Result) : Prop :=
  g_held g = None /\ g_credits g = 0
  /\ match t with TAcquire req => fitting (cloneOpenAIWSAcquireRequest req) r | _ => True end.
Lemma quiet_ok {A} (p : P A) : serves p any -> safely (quiet p) (ends 0 any) (idle false 0).
Proof. intros Hp. apply (serves_at (quiet p) any); [|done..]. eapply serves_bind; [done|]. intros _ _. by apply serves_ret. Qed.
Lemma program_ok t : safely (program cfg accountID t) (post t) (born t).
Proof.
  assert (Hmono : forall p : P Result, safely p (ends 0 any) (born t) -> (forall req, t <> TAcquire req) -> safely p (post t) (born t)).
  { intros p Hp Ht. eapply safely_mono; [exact Hp|]. intros g r (? & ? & _). split_and!; [done..|]. destruct t; try done. by destruct (Ht req). }
  destruct t as [req|l u|req n gen| |c| |c|c|id|r id ttl|id| | |]; cbn [program].
  1: { eapply safely_mono; [apply (Acquire_ok req (idle false 0)); done|]. by intros g r (? & ? & ?). }
  2: { apply Hmono; [|done]. apply safely_bind. eapply safely_mono; [apply prewarm_ok|]. by intros g _ (? & ? & _). }
  all: apply Hmono; [|done].
  12: { eapply then_keeps; [apply keeps_close_pool|done|]. intros g [] (E1 & E2 & _) _. by split_and!. }
  all: apply quiet_ok.
  - apply use_ok.
  - apply ping_sweep_ok.
  - apply probe_ok.
  - apply cleanup_sweep_ok.
  - apply keeps_serves. unfold reader_message. keep.
  - apply reader_error_ok.
  - apply keeps_serves, keeps_pin.
  - apply keeps_serves, keeps_pin_response.
  - apply keeps_serves, keeps_unpin.
  - apply keeps_serves, keeps_pool_load.
  - apply keeps_serves, keeps_clear.
Qed.
End Methods.
