(* ===== verification/WSPoolSafety.v ===== *)
(** * The WebSocket connection pool: what holds in every interleaving *)

From Stdlib Require Import SpecFloat.
From S2P Require Import Prelude GoStrings TurnState WSStateStore Goroutines WSPool WSPoolProofs WSPoolMethods.
Local Open Scope string_scope.
Local Open Scope Z_scope.
Local Open Scope list_scope.
Local Open Scope go_scope.
Local Open Scope prog_scope.

Section Safety.
Context {unicode : GoStrings.Unicode} (cfg : Config) (accountID : Z).
Local Abbreviation pool_system := (@System Op World Task Result).
Local Abbreviation step := (pool_step cfg accountID).
Local Abbreviation occurs := (happen (@exec) (@spawned) (program cfg accountID) startable outside).
Local Abbreviation is_sound := (sound loops (@vc _ cfg) (Inv cfg) born post g_closing).
Local Abbreviation is_safe := (safe loops (@vc _ cfg) born post g_closing).

Lemma new_inv now : Inv cfg (new_world now) [].
Proof.
  pose proof (hard_cap_pos cfg). pose proof (limit_pos cfg). split; [|split; [|split]].
  - split; [|by intros g He; inversion He]. exists new_pool. split_and!; try done.
    + split; [done|]. by intros g He; inversion He.
    + unfold within. simpl. rewrite map_size_empty. lia.
  - intros r. cbn [new_world w_cells]. by rewrite lookup_empty.
  - split; [|by intros g r He; inversion He]. intros r. change (0 <= queueLimitPerConn cfg). lia.
  - split; [by intros g r gen He; inversion He|]. split; [by intros g r He; inversion He|done].
Qed.
Lemma reachable_sound now s : rtc step (new_world now, []) s -> is_sound s.
Proof.
  intros Hr. unshelve eapply (steps_sound (@exec) (@spawned) (program cfg accountID) loops (@vc _ cfg) _ (Inv cfg) born post
    startable outside g_closing _ _ _ _ (new_world now) s); try done.
  - apply vc_mono.
  - intros. by eapply exec_sound.
  - intros. by apply start_sound.
  - apply program_ok.
  - apply new_inv.
Qed.

(** ** What the memory holds *)

Lemma leases_two w r l1 l2 c1 c2 :
  w_leases w !! l1 = Some (MkLeaseCell c1 false) -> w_leases w !! l2 = Some (MkLeaseCell c2 false) ->
  l1 <> l2 -> c_ref c1 = r -> c_ref c2 = r -> 2 <= leases r w.
Proof.
  intros H1 H2 Hne E1 E2. assert (Hpos : forall lc, 0 <= leased_to r lc) by (intros lc; apply one_nonneg).
  assert (Hone : forall c, c_ref c = r -> leased_to r (MkLeaseCell c false) = 1).
  { intros c <-. unfold leased_to. simpl. by rewrite Z.eqb_refl. }
  pose proof (total_insert (leased_to r) (w_leases w) l1 _ (MkLeaseCell c1 true) H1) as E.
  assert (H2' : <[l1 := MkLeaseCell c1 true]> (w_leases w) !! l2 = Some (MkLeaseCell c2 false)) by (by rewrite list_lookup_insert_ne).
  pose proof (total_ge (leased_to r) _ _ _ (fun a _ => Hpos a) H2') as Hge.
  rewrite !Hone in * by done. change (leased_to r (MkLeaseCell c1 true)) with 0 in E. unfold leases. lia.
Qed.
Lemma leases_at_most_one w gs r : TokenInv w gs -> leases r w <= 1.
Proof.
  intros HT. specialize (HT r). assert (H1 : 0 <= sures r gs) by (apply total_nonneg; intros g _; apply sure_nonneg).
  assert (H2 : 0 <= tokens r gs) by (apply total_nonneg; intros g _; apply tok_nonneg).
  destruct (w_cells w !! r); [destruct HT as [? _]; lia|lia].
Qed.
Lemma no_credits_left (ts : list (Task * Prog Op Result)) gs :
  Forall2 is_safe ts gs -> Forall (fun t => exists r, t.2 = Ret r) ts -> total g_credits gs = 0.
Proof.
  induction 1 as [|[t p] g ts gs Hs _ IH]; [done|]. intros [[r Hr] Hts]%Forall_cons. simpl in *. subst.
  rewrite (IH Hts). destruct Hs as [(_ & E & _) _]. lia.
Qed.

(** ** Properties *)

(** C26: in every interleaving the pool's connections and the dials under way stay within the
    hard cap, no connection has more waiters than the queue limit, and once all goroutines
    have returned no dial is left accounted for. *)
Theorem pool_capacity now w ts ap :
  rtc step (new_world now, []) (w, ts) -> w_pool w = Some ap ->
  0 <= creating ap /\ Z.of_nat (size (conns ap)) + creating ap <= maxConnsHardCap cfg
  /\ (forall r, cl_waiters (cell w r) <= queueLimitPerConn cfg)
  /\ (Forall (fun t => exists r, t.2 = Ret r) ts -> creating ap = 0).
Proof.
  intros (gs & (HL & _ & [HW _] & _) & Hs)%reachable_sound Hp. simpl in *.
  destruct HL as [(ap' & Hc & Hw & Ht & _) Hn]. unfold current in Hc. rewrite Hp in Hc. destruct Hc as [<- Hh].
  split; [rewrite Ht; apply total_nonneg; intros g Hg; by apply Hn, Hh|]. split; [done|]. split; [done|].
  intros Hts. rewrite Ht. by eapply no_credits_left.
Qed.

(** C17: in every interleaving two leases that were not released are of different
    connections, also while connections are closed, evicted, cleared or waited for. *)
Theorem leases_exclusive now w ts l1 l2 c1 c2 :
  rtc step (new_world now, []) (w, ts) ->
  w_leases w !! l1 = Some (MkLeaseCell c1 false) -> w_leases w !! l2 = Some (MkLeaseCell c2 false) ->
  l1 <> l2 -> c_ref c1 <> c_ref c2.
Proof.
  intros (gs & (_ & HT & _) & _)%reachable_sound H1 H2 Hne E.
  pose proof (leases_two w (c_ref c1) l1 l2 c1 c2 H1 H2 Hne eq_refl (eq_sym E)).
  pose proof (leases_at_most_one w gs (c_ref c1) HT). lia.
Qed.

(** C38: the connection a request gets was dialed for a request with the same compatibility
    (up to the negotiable headers, for a forced connection); and if a turn state was in its
    handshake, sent by the client or answered by the upstream, then for the same model. *)
Theorem granted_fits now w ts i req l c :
  rtc step (new_world now, []) (w, ts) -> ts !! i = Some (TAcquire req, Ret (Granted l c)) ->
  fits (cloneOpenAIWSAcquireRequest req) c.
Proof.
  intros (gs & _ & Hs)%reachable_sound Hi. destruct (Forall2_lookup_l _ _ _ _ _ Hs Hi) as (g & _ & [Hg _]). apply Hg.
Qed.

(** C36: a connection whose dial was begun before the account was cleared is not in the pool
    afterwards, whether a request or prewarming dialed it. *)
Theorem pooled_current now w ts ap id c :
  rtc step (new_world now, []) (w, ts) -> w_pool w = Some ap -> conns ap !! id = Some c ->
  cl_dialed (cell w (c_ref c)) = generation ap.
Proof.
  intros (gs & (HL & _) & _)%reachable_sound Hp Hid. simpl in *.
  destruct HL as [(ap' & Hc & _ & _ & _ & Hd) _]. unfold current in Hc. rewrite Hp in Hc. destruct Hc as [<- _].
  destruct (Hd id c Hid) as (cl & E & <-). unfold cell. by rewrite E.
Qed.

(** ** The mutex is always released *)

(** What happens otherwise than by goroutine [i]. *)
Definition elsewhere (i : nat) (s s' : pool_system) : Prop :=
  exists e, occurs e s = Some s' /\ forall choice, e <> Turn i choice.
(** Goroutine [i] releases the mutex after finitely many of its turns, and each of them can be
    taken at once, however its operations are answered (the upstream may be late, and
    nothing waited for has to happen) and whatever happens in between. *)
Inductive releases (i : nat) (s : pool_system) : Prop :=
  | released : is_Some (w_pool s.1) -> releases i s
  | working :
      (forall s1, rtc (elsewhere i) s s1 -> forall choice,
         exists s2, occurs (Turn i choice) s1 = Some s2 /\ releases i s2) -> releases i s.

(** Goroutine [i] holds the mutex and has [p] left to do. *)
Definition holds (i : nat) (p : Prog Op Result) (s : pool_system) : Prop :=
  exists gs t g, s.2 !! i = Some (t, p) /\ t <> TClose /\ gs !! i = Some g /\ is_Some (g_held g)
    /\ Inv cfg s.1 gs /\ Forall2 is_safe s.2 gs.

Lemma held_not_blocked B (o : Op B) g K w choice :
  is_Some (g_held g) -> g_closing g = false -> vc cfg o g K -> exists w' b, exec choice o w = Some (w', b).
Proof.
  intros [ap Hg] Hc Hv. destruct o; simpl in Hv |- *; try (by do 2 eexists); destruct Hv as (Hh & _);
    try congruence; destruct Hh; congruence.
Qed.
Lemma turn_ghost w ts i t p choice w' p' started gs g :
  Inv cfg w gs -> gs !! i = Some g -> is_safe (t, p) g ->
  turn (@exec) (@spawned) choice p w = Some (w', p', started) ->
  exists g', is_safe (t, p') g' /\ Inv cfg w' (<[i := g']> gs ++ map born started)
    /\ (Forall2 is_safe ts gs ->
        Forall2 is_safe (<[i := (t, p')]> ts ++ map (fun t => (t, program cfg accountID t)) started)
          (<[i := g']> gs ++ map born started)).
Proof.
  intros. unshelve eapply (turn_sound (@exec) (@spawned) (program cfg accountID) loops (@vc _ cfg) _ (Inv cfg) born post g_closing _ _
    w ts i t p choice); try done.
  - apply vc_mono.
  - intros. by eapply exec_sound.
  - apply program_ok.
Qed.
Lemma holds_elsewhere i p s s' : elsewhere i s s' -> holds i p s -> holds i p s'.
Proof.
  destruct s as [w ts]. intros (e & He & Hne) (gs & t & g & Hi & Hn & Hg & Hh & HI & Hs). simpl in *.
  destruct e as [j choice|t'|m]; simpl in He.
  - assert (j <> i) as Hji by (intros ->; by apply (Hne choice)).
    destruct (ts !! j) as [[tj pj]|] eqn:Hj; [|done]. simpl in He.
    destruct (turn _ _ choice pj w) as [[[w1 p1] started]|] eqn:Ht; [|done]. injection He as <-.
    destruct (Forall2_lookup_l _ _ _ _ _ Hs Hj) as (gj & Hgj & Hpj).
    destruct (turn_ghost w ts j tj pj choice w1 p1 started gs gj) as (g' & _ & HI' & Hall); [done..|].
    exists (<[j := g']> gs ++ map born started), t, g. simpl. split_and!; [|done| |done|done|by apply Hall].
    + apply lookup_app_l_Some. by rewrite list_lookup_insert_ne.
    + apply lookup_app_l_Some. by rewrite list_lookup_insert_ne.
  - destruct (startable t') eqn:E; [|done]. injection He as <-. exists (gs ++ [born t']), t, g. simpl.
    split_and!; [by apply lookup_app_l_Some|done|by apply lookup_app_l_Some|done|by apply start_sound|].
    apply Forall2_app; [done|]. constructor; [by split; [apply program_ok|]|constructor].
  - injection He as <-. by exists gs, t, g.
Qed.
Lemma holds_turn i p s choice s' :
  holds i p s -> occurs (Turn i choice) s = Some s' ->
  exists w' p' started, turn (@exec) (@spawned) choice p s.1 = Some (w', p', started)
    /\ (is_Some (w_pool s'.1) \/ holds i p' s').
Proof.
  destruct s as [w ts]. intros (gs & t & g & Hi & Hn & Hg & Hh & HI & Hs) He. simpl in *. rewrite Hi in He. simpl in He.
  destruct (turn _ _ choice p w) as [[[w1 p1] started]|] eqn:Ht; [|done]. injection He as <-. exists w1, p1, started.
  split; [done|]. destruct (Forall2_lookup_l _ _ _ _ _ Hs Hi) as (g0 & Hg0 & Hp). rewrite Hg in Hg0. injection Hg0 as <-.
  destruct (turn_ghost w ts i t p choice w1 p1 started gs g) as (g' & _ & HI' & Hall); [done..|]. simpl.
  destruct (w_pool w1) eqn:E; [by left; eexists|right].
  assert (Hlt : (i < length gs)%nat) by (by eapply lookup_lt_Some).
  assert (Hlt' : (i < length ts)%nat) by (by eapply lookup_lt_Some).
  exists (<[i := g']> gs ++ map born started), t, g'. simpl. split_and!.
  - apply lookup_app_l_Some. by apply list_lookup_insert_eq.
  - done.
  - apply lookup_app_l_Some. by apply list_lookup_insert_eq.
  - destruct HI' as [[(ap & Hc & _) _] _]. unfold current in Hc. rewrite E in Hc.
    destruct Hc as (j & gj & Hj & Hgj & _). apply lookup_app_Some in Hj as [Hj|[_ Hj]].
    + apply list_lookup_insert_Some in Hj as [(<- & -> & _)|[Hne Hj]]; [by eexists|].
      exfalso. apply Hne. by apply (one_holder cfg w gs i j g gj); [apply HI| | | |by eexists].
    + rewrite list_lookup_fmap in Hj. destruct (started !! _) as [t'|]; [|done]. injection Hj as <-. by destruct t'.
  - done.
  - by apply Hall.
Qed.

Lemma holds_safe i p s :
  holds i p s -> exists t g, s.2 !! i = Some (t, p) /\ is_Some (g_held g) /\ g_closing g = false
    /\ ok loops (@vc _ cfg) p (post t) g.
Proof.
  intros (gs & t & g & Hi & Hn & Hg & Hh & _ & Hs). exists t, g. split; [done|]. split; [done|].
  destruct (Forall2_lookup_l _ _ _ _ _ Hs Hi) as (g' & Hg' & [Hp Hk]). rewrite Hg in Hg'. injection Hg' as <-.
  split; [rewrite Hk; by destruct t|done].
Qed.
Lemma holds_releases i p s : holds i p s -> releases i s.
Proof.
  revert s. induction p as [r|B o k IH|X Y body x k] using prog_ind_leaves; intros s0 H0; apply working; intros s Hr choice.
  all: assert (Hs : holds i _ s) by (refine (rtc_ind_r (holds i _) _ H0 _ _ Hr); intros s1 s2 _; apply holds_elsewhere).
  all: destruct (holds_safe _ _ _ Hs) as (t & g & Hi & Hh & Hc & Hok).
  - destruct Hok as [E _], Hh as [ap Hh]. congruence.
  - destruct s as [w ts]. simpl in Hi. destruct (held_not_blocked B o g _ w choice Hh Hc Hok) as (w' & b & He).
    assert (exists s2, occurs (Turn i choice) (w, ts) = Some s2) as [s2 H2].
    { eexists. unfold happen. rewrite Hi. simpl. rewrite He. simpl. done. }
    exists s2. split; [done|].
    destruct (holds_turn _ _ _ _ _ Hs H2) as (w1 & p' & started & Ht & [Hp|Hs']); [by apply released|].
    simpl in Ht. rewrite He in Ht. injection Ht as <- <- <-. by apply (IH b).
  - destruct Hok as (I & Hx & HI). destruct (HI x g Hx) as [Hl _], Hh as [ap Hh]. unfold loops in Hl. congruence.
Qed.

End Safety.

(** ** Schedules that reach such states *)

Section Schedules.
#[local] Existing Instance ascii_unicode.

Definition two_connections : Config :=
  MkConfig 2 2 4 2 float_0_7 0 false false float_zero float_zero.
Definition some_request : AcquireRequest :=
  MkAcquireRequest (Some (MkAccount 1 "oauth" 3)) "wss://upstream/responses" ∅ "gpt-5.5" "" "" false false false.
(** Dials succeed, lease tokens are got, nothing is canceled. *)
Definition succeeding : Choice := MkChoice [] false (Some (MkDialed ∅ ∅ false false false)) GotToken false.
Definition turns (n i : nat) : list (@Event Choice Task N) := repeat (Turn i succeeding) n.
Local Abbreviation demo_step := (pool_step two_connections 1).
Local Abbreviation begin := (new_world (Unix 1), @nil (Task * Prog Op Result)).

Lemma played es (good : @System Op World Task Result -> bool) :
  match play (@exec) (@spawned) (program two_connections 1) startable outside es begin with
  | Some s => good s
  | None => false
  end = true -> exists w ts, rtc demo_step begin (w, ts) /\ good (w, ts) = true.
Proof.
  destruct (play _ _ _ _ _ es begin) as [[w ts]|] eqn:E; [|done]. intros Hg. exists w, ts. split; [|done].
  by apply play_steps in E.
Qed.

(** A request has its connection; prewarming the second is under way. *)
Lemma pool_capacity_witness :
  exists w ts ap, rtc demo_step begin (w, ts) /\ w_pool w = Some ap /\ creating ap = 1
    /\ Z.of_nat (size (conns ap)) + creating ap <= 2.
Proof.
  destruct (played (Start (TAcquire some_request) :: turns 25 0)
    (fun s => if w_pool s.1 is Some ap then creating ap =? 1 else false)) as (w & ts & Hr & Hg); [vm_compute; reflexivity|].
  simpl in Hg. destruct (w_pool w) as [ap|] eqn:E; [|done]. exists w, ts, ap. split; [done|]. split; [done|].
  split; [by apply Z.eqb_eq|]. apply (pool_capacity two_connections 1 (Unix 1) w ts ap Hr E).
Defined.

(** Two requests have a connection each. *)
Lemma leases_exclusive_witness :
  exists w ts c1 c2, rtc demo_step begin (w, ts) /\ w_leases w = [MkLeaseCell c1 false; MkLeaseCell c2 false]
    /\ c_ref c1 <> c_ref c2.
Proof.
  destruct (played (Start (TAcquire some_request) :: turns 25 0 ++ turns 8 1
                    ++ Start (TAcquire some_request) :: turns 28 2)
    (fun s => match w_leases s.1 with [MkLeaseCell _ false; MkLeaseCell _ false] => true | _ => false end))
    as (w & ts & Hr & Hg); [vm_compute; reflexivity|].
  simpl in Hg. destruct (w_leases w) as [|[c1 []] [|[c2 []] [|]]] eqn:E; try done. exists w, ts, c1, c2.
  split; [done|]. split; [done|].
  by apply (leases_exclusive two_connections 1 (Unix 1) w ts 0 1 c1 c2 Hr); rewrite ?E.
Defined.

(** A dial the upstream answers with a turn state. *)
Definition stateful : Choice :=
  MkChoice [] false (Some (MkDialed ∅ {[ "X-Codex-Turn-State" := ["state"] ]} false false false)) GotToken false.
(** A request has dialed a connection with a turn state and released it; the second request,
    for the same model, gets it too. *)
Definition reused (t : Task * Prog Op Result) : bool :=
  match t with
  | (TAcquire req, Ret (Granted _ c)) =>
      (TurnStateModel req =?s "gpt-5.5") && (c_ref c =? 1) && has_turn_state (d_handshakeHeaders (c_answer c))
  | _ => false
  end.
Lemma granted_fits_witness :
  exists w ts req l c, rtc demo_step begin (w, ts) /\ ts !! 3%nat = Some (TAcquire req, Ret (Granted l c))
    /\ TurnStateModel req = "gpt-5.5" /\ c_ref c = 1
    /\ has_turn_state (d_handshakeHeaders (c_answer c)) = true
    /\ fits (cloneOpenAIWSAcquireRequest req) c.
Proof.
  destruct (played (Start (TAcquire some_request) :: repeat (Turn 0 stateful) 25
                    ++ Start (TUse 0 URelease) :: turns 7 2 ++ Start (TAcquire some_request) :: turns 15 3)
    (fun s => if s.2 !! 3%nat is Some t then reused t else false)) as (w & ts & Hr & Hg);
    [vm_compute; reflexivity|].
  cbn [snd] in Hg. destruct (ts !! 3%nat) as [[t p]|] eqn:E; [|done]. unfold reused in Hg.
  destruct t as [req| | | | | | | | | | | | |]; try done. destruct p as [[l c|e|]|B o k|X Y body x k]; try done.
  apply andb_true_iff in Hg as [[H1%String.eqb_eq H2%Z.eqb_eq]%andb_true_iff H3].
  exists w, ts, req, l, c. do 5 (split; [done|]). by apply (granted_fits two_connections 1 (Unix 1) w ts 3 req l c).
Defined.

(** The account is cleared during the dial: the connection is closed, and another is dialed. *)
Lemma pooled_current_witness :
  exists w ts ap id c, rtc demo_step begin (w, ts) /\ w_pool w = Some ap /\ generation ap = 1
    /\ conns ap !! id = Some c /\ cl_dialed (cell w (c_ref c)) = generation ap.
Proof.
  destruct (played (Start (TAcquire some_request) :: turns 7 0 ++ Start TClear :: turns 4 1 ++ turns 33 0)
    (fun s => if w_pool s.1 is Some ap then (generation ap =? 1) && bool_decide (is_Some (conns ap !! "oa_ws_1_2")) else false))
    as (w & ts & Hr & Hg); [vm_compute; reflexivity|].
  simpl in Hg. destruct (w_pool w) as [ap|] eqn:E; [|done].
  apply andb_true_iff in Hg as [Hg%Z.eqb_eq [c Hc]%bool_decide_eq_true]. exists w, ts, ap, "oa_ws_1_2", c.
  split; [done|]. split; [done|]. split; [done|]. split; [done|].
  apply (pooled_current two_connections 1 (Unix 1) w ts ap _ c Hr E Hc).
Defined.


(** [Close] holds the mutex and waits for the upstream to answer its close handshake. *)
Definition late : Choice := MkChoice [] false None GotToken true.
Example close_waits_under_mutex :
  exists w ts p, rtc demo_step begin (w, ts) /\ w_pool w = None /\ ts !! 3%nat = Some (TClose, p)
    /\ happen (@exec) (@spawned) (program two_connections 1) startable outside (Turn 3 late) (w, ts) = None.
Proof.
  destruct (played (Start (TAcquire some_request) :: turns 25 0
                    ++ Start (TUse 0 URelease) :: turns 7 2 ++ Start TClose :: turns 4 3)
    (fun s => bool_decide (w_pool s.1 = None) && (if s.2 !! 3%nat is Some (TClose, _) then true else false)
       && bool_decide (is_Some (happen (@exec) (@spawned) (program two_connections 1) startable outside (Turn 3 succeeding) s))
       && negb (bool_decide (is_Some (happen (@exec) (@spawned) (program two_connections 1) startable outside (Turn 3 late) s)))))
    as (w & ts & Hr & Hg); [vm_compute; reflexivity|].
  apply andb_true_iff in Hg as [[[Hp%bool_decide_eq_true Ht]%andb_true_iff _]%andb_true_iff Hl%negb_true_iff%bool_decide_eq_false].
  cbn [fst snd] in Hp, Ht. destruct (ts !! 3%nat) as [[[] p]|] eqn:E; try done. exists w, ts, p.
  do 3 (split; [done|]). by destruct (happen _ _ _ _ _ _ _) as [s|]; [destruct Hl; eexists|].
Qed.
End Schedules.
